(* ===== verification/_CoqProject ===== *)
-Q . S2P
Prelude.v
JsMap.v
Json.v
JsText.v
Base64.v
RelayWire.v
SendQueue.v
RateLimiter.v
RelayRoom.v
Admission.v
RelayConnection.v
TerminalStream.v
E2eeFraming.v
E2eeContract.v
E2eeSession.v
WsBackpressure.v
RpcCallQueue.v
DeviceRegistry.v
RevokeOutbox.v
DemandLedger.v
ControlRequests.v
ControlClient.v
HostProof.v
AuthCoordinator.v
EscapeTail.v
DoubleTap.v
DesktopTerminal.v
DesktopFrames.v
DesktopChat.v
DesktopRooms.v
DesktopConnection.v
DesktopChatScreen.v
SharedControlFrames.v
SocketLiveness.v
SharedControl.v
SharedControlFacts.v
SharedControlRuns.v
SharedControlTraffic.v
E2eeChannel.v
E2eeChannelFacts.v
MobileSockets.v
MobileSocketFacts.v
HostTerminal.v
MobileRpc.v
MobileRpcFacts.v
RelayUrls.v
RelayProtocol.v
RelayHttp.v
RelayTransport.v
RelayGateway.v
RelayGatewayFacts.v
LogicalClient.v
LogicalClientFacts.v
EndpointSupervisor.v
EndpointSupervisorFacts.v
MobileFrames.v
DirectClient.v
DirectClientFacts.v
DirectClientRuns.v
RelayBroker.v
RelayBrokerFacts.v
RelayBrokerRuns.v
RelayBrokerSafety.v
RelayProtocolFacts.v
PairingOffer.v
