(* ===== verification/Prelude.v ===== *)
(** * Pie Relay: a Rocq development of its TypeScript core

    Pie Relay lets a phone or a second desktop use terminals that run on a host. The
    host keeps a control connection to a relay cell; the cell tells it of each phone,
    for which the host opens a data socket; host and phone then speak an end-to-end
    encrypted channel over it, inside which the phone calls the host. A desktop client
    reaches a remote runtime over one shared connection. Paths are relative to the
    repository; most are under src/pie-mobile/upstream.

    ** The parts, and the files that model them

    - The relay cell (platform/apps/relay/src). RelayWire.v is the wire contract, the
      limits and the configuration; SendQueue.v (consumer-send-queue.ts) the two-lane
      queue of one consumer; RateLimiter.v (frame-rate-limiter.ts); RelayRoom.v
      (relay-room.ts) rooms, routing, registry; Admission.v (admission-verifier.ts);
      RelayConnection.v (relay-connection.ts, relay-server.ts) composes them into a
      cell with any number of connections.
    - The host's side of the relay (src/main/runtime). ControlRequests.v and
      ControlClient.v are the control channel and its requests; HostProof.v the answer
      to the relay's challenge; AuthCoordinator.v decides which broker runs;
      DemandLedger.v whether one is wanted; RevokeOutbox.v and DeviceRegistry.v keep
      revocations and devices on disk; RelayUrls.v checks URLs; RelayProtocol.v is what
      the schemas of the control messages accept; RelayTransport.v is the data
      transport. RelayHttp.v are the calls to the director; RelayBroker.v is the session
      broker (relay-session-broker.ts) with its pool of origins (relay-origin-pool.ts)
      and their controls and transports (relay-control-origin.ts): opening, refresh of
      the token, rotation of the lease, draining and handing over to another cell.
    - The host gateway (src/pie-mobile/adapter/host-gateway/src). RelayGateway.v
      composes ControlClient.v and RelayTransport.v into the connection that is kept up;
      MobileRpc.v is the request handler and HostTerminal.v the terminal behind it.
    - The encrypted channel. E2eeFraming.v, E2eeContract.v and E2eeSession.v are the
      frames, the handshake contract and the two ends of mobile E2EE v2; E2eeChannel.v
      the host's channel (both versions) with its outbound queue WsBackpressure.v;
      MobileSockets.v composes channels, device registry and transports.
    - The remote-runtime client (src/shared). SharedControlFrames.v, SocketLiveness.v and
      SharedControl.v model the shared control connection; RpcCallQueue.v the call
      queues; TerminalStream.v the binary terminal stream.
    - The desktop client (src/desktop/src). DesktopTerminal.v, EscapeTail.v and
      DoubleTap.v are its terminal and keyboard; DesktopFrames.v the participant's
      frames; DesktopConnection.v its reconnecting socket; DesktopChat.v the transcript
      reducer; DesktopChatScreen.v composes the last two; DesktopRooms.v the open rooms.
    - The phone (mobile/src/transport). LogicalClient.v is the stable client under which
      physical sessions are replaced; EndpointSupervisor.v decides which session that
      is: recovery through the relay, probes of the direct path, credential rotation.
      The supervisor calls the client, and the client's state changes call it back.
      DirectClient.v is a direct session (rpc-client.ts), one redialled WebSocket;
      MobileFrames.v what it reads and writes, and the verdict the screens show.
    - Desktop and phone. PairingOffer.v is their contract: the offers by which a phone
      pairs through the relay, endpoints, and what a cell tells a phone.
    - Shared: this file, JsMap.v (a JavaScript Map: insertion ordered), Json.v, JsText.v,
      Base64.v.

    A file named [XFacts], [XRuns] or [XTraffic] holds the theorems about the model of X
    and what they need. A definition has the name of what it models; where a TypeScript
    class has several methods in one file, its state is the Record of that name.

    ** What the theorems show

    - Who may do what: a cell forwards only between members it admitted; an E2EE
      session delivers what its peer sealed, once and in order; a socket is served only
      once its device has authenticated, never after revocation; a revoked device stays
      revoked; only a paired device types; the host answers only a challenge made for it
      and its connection; nothing but the handshake goes out before it is over.
    - Nothing leaks: rooms and registry mirror the connections (refinement), the gateway
      owns every open control and attached transport, the coordinator every broker, a
      broker's open controls and origins are in its pool and go when it closes, a
      socket is reported closed once, closed clients and connections stay inert.
    - Promises: requests, connects and calls settle exactly once and every phone
      message is answered exactly once, unless its own terminal call throws; the gateway,
      the broker, the shared connection, the desktop's socket and the phone's direct
      client always have what brings them back, and the latter sends its subscriptions
      again; a phone that comes to the foreground reconnects; a cell never gets stuck.
    - Sessions under a client: subscriptions and requests of the phone are on its active
      session only, replaced sessions are closed, a phone in the background holds no
      relay session and does not flap between paths.
    - Agreement: one schema at most takes a control message, a request is settled by an
      answer of its own kind, and phones accept what the broker offers for pairing.
    - Bounds: send queues, call pools, unauthenticated channels, rate limits, scrollback.
    - Data: frames, messages and headers round-trip; the streaming escape scan equals
      the scan of the whole; the phone's hysteresis is a function of the history of its
      probes, the desktop's transcript of its actions; saved rooms are read back; the
      queues refine first-in first-out specifications; what is painted on the desktop
      is contiguous.

    Some theorems carry a restriction the code needs and does not enforce; the examples
    beside them run the code without it, and the manifest's findings list these.

    ** Conventions

    - Objects with identity live in heaps (maps from numbers) where the code keeps
      references to them after they left their owner. A [Map] or [Set] whose order shows
      is a [jsmap].
    - An [await], a timer or a listener ends a step; the events of a run are whatever
      may come next, in any order the theorems do not exclude. Promise reactions run
      in the step that settles the promise, as microtasks do. Effects on sockets and
      callbacks are a log, or act on an environment parameter. Outcomes of input and
      output (a throwing write, a failing fetch) are inputs of the step.
    - A thrown error is [Throw message] or the [None] of an option, as each file says.
    - Text is a string of UTF-8 bytes; terminal text is a list of UTF-16 code units;
      byte arrays are lists of integers. Integers are [Z] with the source's conversions
      (ToUint32 and the like) written out; other numbers are rationals, or [jsnum] where
      NaN and infinities matter. Clocks are inputs.
    - Code that is not under src/ is a parameter with the facts relied on: the secret
      box and hashes, some Zod schemas, JSON.parse, URL, TextDecoder, the PTY, ws. Each
      theorem with such a parameter is applied to a concrete one by its witness.

    ** Fuel

    Loops that are not structural take fuel: the queues' pumps (one more than the
    queued items), the oldest-first drop (one more than the lane), the transcript
    parser (one more than its length), trimming the scrollback (its length), decimal
    digits. Each has a lemma that the fuel given is enough, so the result is never the
    exhausted one ([cell_never_stuck], [pool_fifo], [parse_loop_total], [trim_spec]).

    ** Not modelled

    The Go relay server, client and manager; React and React Native interfaces; the
    desktop's Electron windows and menus; the agent-hook, git, browser and automation
    services of the vendored runtime and their RPC methods; the example applications:
    they are input and output, user interface or code of other programs around the
    transport core. AuthCoordinator.v takes brokers as a parameter: the service that gives it
    those of RelayBroker.v (desktop-relay-service.ts) is not modelled, and RelayBroker.v
    takes of a control client what its owner sees of it, not ControlClient.v's state. Of
    the phone's transport, the relay
    RPC session, pairing and the host store are not: sessions are numbers to
    LogicalClient.v, whose events are what they may do. Reconnect jitter and the contents
    of log lines are left out. *)

From stdpp Require Export base tactics option list numbers strings gmap.
From Stdlib Require Export ZArith Lia.

#[export] Set Default Goal Selector "!".
Open Scope Z_scope.

Create HintDb pie.
Create Rewrite HintDb pie.

(** ** Tactics *)

(** Case analysis on every [match]/[if] of the goal and of the hypotheses,
    with the boolean comparisons turned into propositions. *)
Ltac bool_to_prop :=
  repeat match goal with
  | H : (_ <? _) = true |- _ => apply Z.ltb_lt in H
  | H : (_ <? _) = false |- _ => apply Z.ltb_ge in H
  | H : (_ <=? _) = true |- _ => apply Z.leb_le in H
  | H : (_ <=? _) = false |- _ => apply Z.leb_gt in H
  | H : (_ =? _) = true |- _ => apply Z.eqb_eq in H
  | H : (_ =? _) = false |- _ => apply Z.eqb_neq in H
  | H : (_ >? _) = _ |- _ => rewrite Z.gtb_ltb in H
  | H : (_ >=? _) = _ |- _ => rewrite Z.geb_leb in H
  | H : andb _ _ = true |- _ => apply andb_true_iff in H as [??]
  | H : andb _ _ = false |- _ => apply andb_false_iff in H
  | H : orb _ _ = false |- _ => apply orb_false_iff in H as [??]
  | H : orb _ _ = true |- _ => apply orb_true_iff in H
  | H : negb _ = true |- _ => apply negb_true_iff in H
  | H : negb _ = false |- _ => apply negb_false_iff in H
  | H : bool_decide _ = true |- _ => apply bool_decide_eq_true in H
  | H : bool_decide _ = false |- _ => apply bool_decide_eq_false in H
  end.

Ltac crush_match :=
  repeat (case_match || case_decide); bool_to_prop; simplify_eq/=.

(** ** Record update

    [x <| field := v |>] for a record whose type has an [Eta] instance, the
    identity written with its constructor and projections. *)

Class Eta (R : Type) := eta_fields : R -> R.
Class Setter {R T : Type} (field : R -> T) := over : (T -> T) -> R -> R.
Arguments over {R T} field {_} _ _.

(** The setter of a projection: the eta-expanded identity, with the projection
    abstracted and replaced. *)
Ltac derive_setter :=
  match goal with
  | |- @Setter ?R ?T ?field =>
      let e := constr:((_ : Eta R) : R -> R) in
      let e := eval hnf in e in
      let e := eval pattern field in e in
      match e with
      | ?h _ => exact (fun (g : T -> T) (x : R) => h (fun y : R => g (field y)) x)
      end
  end.
#[export] Hint Extern 0 (Setter _) => derive_setter : typeclass_instances.

Notation "x <| f := v |>" := (over f (fun _ => v) x)
  (at level 1, f at level 1, v at level 99, left associativity, format "x  <| f  :=  v |>").

(** ** Exceptions *)

(** A computation that returns or throws an [Error] with a message. *)
Inductive result (A : Type) :=
  | Ok (x : A)
  | Throw (message : string).
Arguments Ok {A} _.
Arguments Throw {A} _.

#[export] Instance result_ret : MRet result := @Ok.
#[export] Instance result_bind : MBind result :=
  fun A B f r => match r with Ok x => f x | Throw m => Throw m end.

(** ** Numbers: the JavaScript integer conversions the code uses *)

Definition ToUint8 (z : Z) : Z := z mod 2 ^ 8.
Definition ToUint32 (z : Z) : Z := z mod 2 ^ 32.
Definition ToInt32 (z : Z) : Z := (z + 2 ^ 31) mod 2 ^ 32 - 2 ^ 31.

Definition MAX_SAFE_INTEGER : Z := 2 ^ 53 - 1.

(** The integer a double holds after an operation whose exact result is the
    integer [z]: round to nearest, ties to even, on a 53-bit significand. *)
Definition js_round (z : Z) : Z :=
  let a := Z.abs z in
  if a <=? 2 ^ 53 then z
  else
    let ulp := 2 ^ (Z.log2 a - 52) in
    let q := a / ulp in
    let r := a mod ulp in
    let q' := if 2 * r <? ulp then q
              else if ulp <? 2 * r then q + 1
              else if Z.even q then q else q + 1 in
    Z.sgn z * (q' * ulp).

Definition isSafeInteger (z : Z) : bool := Z.abs z <=? MAX_SAFE_INTEGER.

Lemma js_round_exact z : Z.abs z <= 2 ^ 53 -> js_round z = z.
Proof. intros H. unfold js_round. apply Z.leb_le in H. by rewrite H. Qed.
#[export] Hint Rewrite js_round_exact using lia : pie.

(** ** Bytes and byte buffers *)

(** A [Uint8Array] is a list of integers in [0, 256). *)
Definition byte_ok (b : Z) : Prop := 0 <= b < 256.
Abbreviation bytes_ok := (Forall byte_ok).

(** Little-endian digits of an unsigned integer, as [DataView.setUintN] with
    its little-endian flag stores them; [be_bytes] is the big-endian order. *)
Fixpoint le_bytes (n : nat) (z : Z) : list Z :=
  match n with
  | O => []
  | S n => z mod 256 :: le_bytes n (z / 256)
  end.

Definition be_bytes (n : nat) (z : Z) : list Z := reverse (le_bytes n z).

Fixpoint le_value (bs : list Z) : Z :=
  match bs with
  | [] => 0
  | b :: bs => b + 256 * le_value bs
  end.

Definition be_value (bs : list Z) : Z := le_value (reverse bs).

(** [buf.set(bs, off)] on a buffer long enough to hold the write. *)
Definition buf_set (buf : list Z) (off : nat) (bs : list Z) : list Z :=
  take off buf ++ bs ++ drop (off + length bs) buf.

(** [new Uint8Array(n)] *)
Definition new_buf (n : nat) : list Z := replicate n 0.

(** [buf.subarray(a, b)] and [buf.slice(a, b)] with [a <= b]. *)
Definition subarray (a b : nat) (buf : list Z) : list Z := take (b - a) (drop a buf).

Lemma length_le_bytes n z : length (le_bytes n z) = n.
Proof. revert z; induction n; intros z; simpl; auto. Qed.

Lemma length_be_bytes n z : length (be_bytes n z) = n.
Proof. unfold be_bytes. by rewrite length_reverse, length_le_bytes. Qed.
#[export] Hint Rewrite length_le_bytes length_be_bytes : pie.

Lemma le_bytes_ok n z : bytes_ok (le_bytes n z).
Proof.
  revert z; induction n; intros z; simpl; constructor; auto.
  apply Z.mod_pos_bound. lia.
Qed.

Lemma be_bytes_ok n z : bytes_ok (be_bytes n z).
Proof. apply Forall_reverse, le_bytes_ok. Qed.
#[export] Hint Resolve le_bytes_ok be_bytes_ok : pie.

Lemma le_value_bytes n z : le_value (le_bytes n z) = z mod 256 ^ Z.of_nat n.
Proof.
  revert z; induction n as [|n IH]; intros z; simpl le_bytes; cbn [le_value].
  - by rewrite Z.mod_1_r.
  - rewrite IH, Nat2Z.inj_succ, Z.pow_succ_r by lia.
    rewrite Z.rem_mul_r by (lia || apply Z.pow_pos_nonneg; lia). done.
Qed.

Lemma be_value_bytes n z : be_value (be_bytes n z) = z mod 256 ^ Z.of_nat n.
Proof. unfold be_value, be_bytes. by rewrite reverse_involutive, le_value_bytes. Qed.

Lemma le_value_bound bs : bytes_ok bs -> 0 <= le_value bs < 256 ^ Z.of_nat (length bs).
Proof.
  induction 1 as [|b bs Hb _ IH]; simpl length; cbn [le_value]; [lia|].
  rewrite Nat2Z.inj_succ, Z.pow_succ_r by lia. unfold byte_ok in Hb. lia.
Qed.

Lemma le_bytes_value bs : bytes_ok bs -> le_bytes (length bs) (le_value bs) = bs.
Proof.
  induction 1 as [|b bs Hb _ IH]; [done|].
  simpl length. cbn [le_value le_bytes]. unfold byte_ok in Hb.
  rewrite (Z.mul_comm 256), Z_mod_plus_full, Z.mod_small by lia.
  rewrite Z.div_add, Z.div_small, Z.add_0_l by lia. by rewrite IH.
Qed.

Lemma be_value_bound bs : bytes_ok bs -> 0 <= be_value bs < 256 ^ Z.of_nat (length bs).
Proof.
  intros H. unfold be_value. rewrite <- (length_reverse bs).
  by apply le_value_bound, Forall_reverse.
Qed.

Lemma be_bytes_value bs : bytes_ok bs -> be_bytes (length bs) (be_value bs) = bs.
Proof.
  intros H. unfold be_bytes, be_value. rewrite <- (length_reverse bs), le_bytes_value.
  - apply reverse_involutive.
  - by apply Forall_reverse.
Qed.

Lemma be_bytes_inj n y z :
  0 <= y < 256 ^ Z.of_nat n -> 0 <= z < 256 ^ Z.of_nat n ->
  be_bytes n y = be_bytes n z -> y = z.
Proof.
  intros Hy Hz H. apply (f_equal be_value) in H.
  rewrite !be_value_bytes, !Z.mod_small in H by lia. done.
Qed.

Lemma length_buf_set buf off bs :
  (off + length bs <= length buf)%nat -> length (buf_set buf off bs) = length buf.
Proof.
  intros H. unfold buf_set. rewrite !length_app, length_take, length_drop. lia.
Qed.

Lemma length_new_buf n : length (new_buf n) = n.
Proof. apply length_replicate. Qed.
#[export] Hint Rewrite length_buf_set using (autorewrite with pie; simpl; lia) : pie.
#[export] Hint Rewrite length_new_buf : pie.

(** Writing consecutive ranges of a zeroed buffer is concatenation. *)
Lemma buf_set_append pre rest bs off :
  off = length pre -> (length bs <= length rest)%nat ->
  buf_set (pre ++ rest) off bs = pre ++ bs ++ drop (length bs) rest.
Proof.
  intros -> H. unfold buf_set.
  rewrite take_app_length. f_equal. f_equal.
  rewrite drop_app_ge by lia. f_equal. lia.
Qed.

(** ** Lists as the code scans them *)

(** [arr.find(p)] *)
Fixpoint js_find {A} (p : A -> bool) (l : list A) : option A :=
  match l with
  | [] => None
  | x :: l => if p x then Some x else js_find p l
  end.

(** A variable that is neither [null] nor [undefined]. *)
Definition is_some {A} (x : option A) : bool := match x with Some _ => true | None => false end.

(** [arr.filter(p)] *)
Fixpoint js_filter {A} (p : A -> bool) (l : list A) : list A :=
  match l with
  | [] => []
  | x :: l => if p x then x :: js_filter p l else js_filter p l
  end.

(** Replacing, in place, the fields of the first element that satisfies [p]:
    [const x = arr.find(p); if (x) x.field = ...]. *)
Fixpoint js_update_first {A} (p : A -> bool) (f : A -> A) (l : list A) : list A :=
  match l with
  | [] => []
  | x :: l => if p x then f x :: l else x :: js_update_first p f l
  end.

Lemma js_find_Some {A} (p : A -> bool) l x :
  js_find p l = Some x -> x ∈ l /\ p x = true.
Proof.
  induction l as [|y l IH]; simpl; [done|]. case_match.
  - intros [= <-]. split; [left|done].
  - intros H1. destruct (IH H1). split; [by right|done].
Qed.

Lemma js_find_None {A} (p : A -> bool) l :
  js_find p l = None <-> Forall (fun x => p x = false) l.
Proof.
  induction l as [|y l IH]; simpl; [split; auto|].
  rewrite Forall_cons. destruct (p y); [naive_solver|]. naive_solver.
Qed.

Lemma elem_of_js_filter {A} (p : A -> bool) l x :
  x ∈ js_filter p l <-> x ∈ l /\ p x = true.
Proof.
  induction l as [|y l IH]; simpl.
  - set_solver.
  - destruct (p y) eqn:E; rewrite ?elem_of_cons, IH; split.
    + intros [->|[??]]; auto.
    + intros [[->|?] ?]; auto.
    + intros [??]; auto.
    + intros [[->|?] ?]; [congruence|auto].
Qed.

Lemma js_filter_length {A} (p : A -> bool) l : (length (js_filter p l) <= length l)%nat.
Proof. induction l as [|y l IH]; simpl; [done|]. destruct (p y); simpl; lia. Qed.

Lemma js_filter_id {A} (p : A -> bool) l :
  length (js_filter p l) = length l -> js_filter p l = l.
Proof.
  induction l as [|y l IH]; simpl; [done|]. destruct (p y); simpl; intros H.
  - f_equal. apply IH. lia.
  - pose proof (js_filter_length p l). lia.
Qed.

Lemma js_filter_all {A} (p : A -> bool) l :
  Forall (fun x => p x = true) l -> js_filter p l = l.
Proof. induction 1 as [|x l H _ IH]; simpl; [done|]. by rewrite H, IH. Qed.

Lemma js_find_filter_None {A} (p q : A -> bool) l :
  (forall x, q x = true -> p x = false) -> js_find p (js_filter q l) = None.
Proof.
  intros H. apply js_find_None, Forall_forall. intros x Hx.
  apply elem_of_js_filter in Hx as [_ Hx]. auto.
Qed.

Lemma js_find_app {A} (p : A -> bool) l1 l2 :
  js_find p (l1 ++ l2) =
  match js_find p l1 with Some x => Some x | None => js_find p l2 end.
Proof. induction l1 as [|y l IH]; simpl; [done|]. by destruct (p y). Qed.

Lemma length_js_update_first {A} (p : A -> bool) f l :
  length (js_update_first p f l) = length l.
Proof. induction l as [|y l IH]; simpl; [done|]. case_match; simpl; auto. Qed.

Lemma Forall_js_update_first {A} (P : A -> Prop) p f l :
  Forall P l -> (forall x, P x -> p x = true -> P (f x)) ->
  Forall P (js_update_first p f l).
Proof.
  intros Hl Hf. induction Hl as [|x l Hx Hl IH]; simpl; [constructor|].
  destruct (p x) eqn:E; constructor; auto.
Qed.

Lemma Forall_js_filter {A} (P : A -> Prop) p l :
  Forall P l -> Forall P (js_filter p l).
Proof. induction 1; simpl; [done|]. case_match; [constructor|]; auto. Qed.
#[export] Hint Resolve Forall_js_filter : pie.

Lemma js_filter_app {A} (p : A -> bool) l1 l2 :
  js_filter p (l1 ++ l2) = js_filter p l1 ++ js_filter p l2.
Proof. induction l1 as [|x l1 IH]; simpl; [done|]. case_match; simpl; by rewrite IH. Qed.

Lemma NoDup_js_filter {A} (p : A -> bool) l : NoDup l -> NoDup (js_filter p l).
Proof.
  induction 1 as [|x l Hx _ IH]; simpl; [constructor|]. destruct (p x); [|done]. constructor; [|done].
  by intros [Hin _]%elem_of_js_filter.
Qed.

Lemma js_filter_none {A} (p : A -> bool) l :
  Forall (fun x => p x = false) l -> js_filter p l = [].
Proof. induction 1 as [|x l H _ IH]; simpl; [done|]. by rewrite H. Qed.

Lemma length_js_filter_delete {A} (p : A -> bool) l k x :
  l !! k = Some x ->
  (length (js_filter p (delete k l)) + (if p x then 1 else 0) = length (js_filter p l))%nat.
Proof.
  revert k; induction l as [|y l IH]; intros [|k]; simpl; try done.
  - intros [= ->]. destruct (p x); simpl; lia.
  - intros H. specialize (IH k H). destruct (p y); simpl; lia.
Qed.

Lemma js_filter_map {A B} (p : B -> bool) (f : A -> B) l :
  js_filter p (map f l) = map f (js_filter (fun x => p (f x)) l).
Proof. induction l as [|x l IH]; simpl; [done|]. case_match; simpl; by rewrite IH. Qed.

Lemma js_filter_ext {A} (p q : A -> bool) l :
  Forall (fun x => p x = q x) l -> js_filter p l = js_filter q l.
Proof. induction 1 as [|x l H _ IH]; simpl; [done|]. by rewrite H, IH. Qed.

(** [Forall2_impl] with the knowledge that the elements come from the left list. *)
Lemma Forall2_impl_elem {A B} (P Q : A -> B -> Prop) l k :
  Forall2 P l k -> (forall x y, x ∈ l -> P x y -> Q x y) -> Forall2 Q l k.
Proof.
  induction 1 as [|x y l k Hxy Hl IH]; intros HPQ; constructor.
  - apply HPQ; [left|done].
  - apply IH. intros x' y' Hin. apply HPQ. by right.
Qed.

(** Sum of a list of integers. *)
Definition sumZ (l : list Z) : Z := foldr Z.add 0 l.

Lemma sumZ_app l1 l2 : sumZ (l1 ++ l2) = sumZ l1 + sumZ l2.
Proof. unfold sumZ. induction l1; simpl; lia. Qed.

(** ** Reachability: the reflexive-transitive closure with its trace *)

Section Traces.
Context {S E : Type} (step : S -> E -> S -> Prop).

(** [trace s es s']: the events [es], in order, lead from [s] to [s']. *)
Inductive trace : S -> list E -> S -> Prop :=
| trace_nil s : trace s [] s
| trace_snoc s es s1 e s2 : trace s es s1 -> step s1 e s2 -> trace s (es ++ [e]) s2.

Lemma trace_invariant (I : S -> Prop) s es s' :
  I s -> (forall s1 e s2, I s1 -> step s1 e s2 -> I s2) -> trace s es s' -> I s'.
Proof. intros H0 Hstep. induction 1; eauto. Qed.

(** The same with an invariant that also speaks of the events so far. *)
Lemma trace_history_invariant (I : list E -> S -> Prop) s es s' :
  I [] s ->
  (forall es s1 e s2, I es s1 -> step s1 e s2 -> I (es ++ [e]) s2) ->
  trace s es s' -> I es s'.
Proof. intros H0 Hstep. induction 1; eauto. Qed.
End Traces.

(** Running a step function over a list of events; a run is a trace. *)
Definition run_steps {S E} (f : S -> E -> option S) (s : S) (es : list E) : option S :=
  foldl (fun os e => s ← os; f s e) (Some s) es.

Lemma run_steps_trace {S E} (f : S -> E -> option S) (step : S -> E -> S -> Prop) s es s' :
  (forall s e s', f s e = Some s' -> step s e s') ->
  run_steps f s es = Some s' -> trace step s es s'.
Proof.
  intros Hf. unfold run_steps. revert s'; induction es as [|e es IH] using rev_ind; intros s'; simpl.
  - intros [= <-]. constructor.
  - rewrite foldl_app. simpl. destruct (foldl _ _ es) as [s1|]; [|done]. simpl.
    intros H. econstructor; eauto.
Qed.

(** ** Strings *)

Abbreviation chars := String.list_ascii_of_string.
Abbreviation of_chars := String.string_of_list_ascii.

Fixpoint list_prefixb (l1 l2 : list Ascii.ascii) : bool :=
  match l1, l2 with
  | [], _ => true
  | x :: l1, y :: l2 => Ascii.eqb x y && list_prefixb l1 l2
  | _ :: _, [] => false
  end.

(** [s.startsWith(t)] and [s.endsWith(t)] *)
Definition startsWith (s t : string) : bool := list_prefixb (chars t) (chars s).
Definition endsWith (s t : string) : bool :=
  list_prefixb (reverse (chars t)) (reverse (chars s)).

Lemma length_chars s : length (chars s) = String.length s.
Proof. induction s; simpl; auto. Qed.

Lemma chars_app s t : chars (String.append s t) = chars s ++ chars t.
Proof. induction s as [|c s IH]; simpl; [done|]. by rewrite IH. Qed.

Lemma chars_of_chars l : chars (of_chars l) = l.
Proof. apply String.list_ascii_of_string_of_list_ascii. Qed.

Lemma of_chars_chars s : of_chars (chars s) = s.
Proof. apply String.string_of_list_ascii_of_string. Qed.

Lemma chars_inj s t : chars s = chars t -> s = t.
Proof. intros H. by rewrite <- (of_chars_chars s), H, of_chars_chars. Qed.

Definition nul : string := String (Ascii.ascii_of_nat 0) "".

(** A string with no NUL character. *)
Fixpoint no_nul (s : string) : bool :=
  match s with
  | "" => true
  | String c s => negb (Ascii.eqb c (Ascii.ascii_of_nat 0)) && no_nul s
  end%string.

(** A NUL separator makes concatenation injective when the left parts have none. *)
Lemma nul_join_inj (a a' b b' : string) :
  no_nul a = true -> no_nul a' = true ->
  (a +:+ nul +:+ b = a' +:+ nul +:+ b')%string -> a = a' /\ b = b'.
Proof.
  revert a'; induction a as [|x a IH]; intros [|x' a']; simpl; intros Ha Ha' H;
    simplify_eq/=; bool_to_prop; auto.
  destruct (IH a') as [-> ->]; auto.
Qed.
