(* ===== verification/JsMap.v ===== *)
(** * JavaScript [Map]: insertion-ordered finite maps

    [Map.prototype.set] on a present key keeps its position, on a fresh key
    appends; [delete] removes the entry; iteration follows insertion order.
    The relay iterates room members and pending requests in that order, so the
    order is part of the state. [jm_equiv] is the coarser equality of two maps
    with the same lookups; every operation respects it. *)

From S2P Require Import Prelude.

Record jsmap (K V : Type) := JsMap { jm_entries : list (K * V) }.
Arguments JsMap {K V} _.
Arguments jm_entries {K V} _.

Section JsMap.
Context {K V : Type} `{HK : EqDecision K}.
Implicit Types (m : jsmap K V) (l : list (K * V)).

Fixpoint al_lookup (k : K) l : option V :=
  match l with
  | [] => None
  | (k', v) :: l => if decide (k = k') then Some v else al_lookup k l
  end.

Fixpoint al_insert (k : K) (v : V) l : list (K * V) :=
  match l with
  | [] => [(k, v)]
  | (k', v') :: l => if decide (k = k') then (k, v) :: l else (k', v') :: al_insert k v l
  end.

Fixpoint al_delete (k : K) l : list (K * V) :=
  match l with
  | [] => []
  | (k', v) :: l => if decide (k = k') then al_delete k l else (k', v) :: al_delete k l
  end.

(** [map.get], [map.set], [map.delete]. *)
#[export] Instance jm_lookup : Lookup K V (jsmap K V) :=
  fun k m => al_lookup k (jm_entries m).
#[export] Instance jm_insert : Insert K V (jsmap K V) :=
  fun k v m => JsMap (al_insert k v (jm_entries m)).
#[export] Instance jm_delete : Delete K (jsmap K V) :=
  fun k m => JsMap (al_delete k (jm_entries m)).
#[export] Instance jm_empty : Empty (jsmap K V) := JsMap [].

(** [map.size], [map.has(k)], [map.keys()], [map.values()]. *)
Definition jm_size m : Z := Z.of_nat (length (jm_entries m)).
Definition jm_has (k : K) m : bool := match m !! k with Some _ => true | None => false end.
Definition jm_keys m : list K := (jm_entries m).*1.
Definition jm_values m : list V := (jm_entries m).*2.

Lemma jm_lookup_empty k : (∅ : jsmap K V) !! k = None.
Proof. done. Qed.

Lemma jm_lookup_insert_eq m k v : <[k:=v]> m !! k = Some v.
Proof.
  destruct m as [l]. unfold lookup, jm_lookup, insert, jm_insert. simpl.
  induction l as [|[k' v'] l IH]; simpl; repeat (case_decide; simpl); congruence.
Qed.

Lemma jm_lookup_insert_ne m k k' v : k ≠ k' -> <[k:=v]> m !! k' = m !! k'.
Proof.
  intros Hne. destruct m as [l]. unfold lookup, jm_lookup, insert, jm_insert. simpl.
  induction l as [|[k'' v''] l IH]; simpl; repeat (case_decide; simpl); congruence.
Qed.

Lemma jm_lookup_insert m k k' v :
  <[k:=v]> m !! k' = if decide (k = k') then Some v else m !! k'.
Proof.
  case_decide; subst; [apply jm_lookup_insert_eq|by apply jm_lookup_insert_ne].
Qed.

Lemma jm_lookup_delete_eq m k : delete k m !! k = None.
Proof.
  destruct m as [l]. unfold lookup, jm_lookup, delete, jm_delete. simpl.
  induction l as [|[k' v'] l IH]; simpl; repeat (case_decide; simpl); congruence.
Qed.

Lemma jm_lookup_delete_ne m k k' : k ≠ k' -> delete k m !! k' = m !! k'.
Proof.
  intros Hne. destruct m as [l]. unfold lookup, jm_lookup, delete, jm_delete. simpl.
  induction l as [|[k'' v''] l IH]; simpl; repeat (case_decide; simpl); congruence.
Qed.

Lemma jm_lookup_delete m k k' :
  delete k m !! k' = if decide (k = k') then None else m !! k'.
Proof.
  case_decide; subst; [apply jm_lookup_delete_eq|by apply jm_lookup_delete_ne].
Qed.

(** A map has each key once. *)
Definition jm_wf m : Prop := NoDup (jm_keys m).

Lemma jm_lookup_Some_elem m k v : m !! k = Some v -> (k, v) ∈ jm_entries m.
Proof.
  destruct m as [l]. unfold lookup, jm_lookup. simpl.
  induction l as [|[k' v'] l IH]; simpl; [done|]. case_decide.
  - intros [= ->]. subst. left.
  - intros. right. auto.
Qed.

Lemma jm_elem_lookup m k v : jm_wf m -> (k, v) ∈ jm_entries m -> m !! k = Some v.
Proof.
  destruct m as [l]. unfold jm_wf, jm_keys, lookup, jm_lookup. simpl.
  induction l as [|[k' v'] l IH]; simpl; [intros _ H; by apply elem_of_nil in H|].
  rewrite NoDup_cons, elem_of_cons. intros [Hk Hd] [[= -> ->]|Hin].
  - by rewrite decide_True.
  - case_decide; [|auto]. subst. destruct Hk. apply list_elem_of_fmap. by exists (k', v).
Qed.

Lemma al_insert_keys_in k v l k' : k' ∈ (al_insert k v l).*1 <-> k' = k \/ k' ∈ l.*1.
Proof.
  induction l as [|[k'' v''] l IH]; simpl.
  - rewrite list_elem_of_singleton, elem_of_nil. naive_solver.
  - case_decide; simpl; rewrite ?elem_of_cons, ?IH; subst; tauto.
Qed.

Lemma al_delete_keys_in k l k' : k' ∈ (al_delete k l).*1 <-> k' ≠ k /\ k' ∈ l.*1.
Proof.
  induction l as [|[k'' v''] l IH]; simpl.
  - rewrite elem_of_nil. tauto.
  - case_decide; simpl; rewrite ?elem_of_cons, ?IH; subst; [tauto|].
    split; [intros [->|?]; [auto|tauto]|tauto].
Qed.

Lemma jm_wf_empty : jm_wf ∅.
Proof. constructor. Qed.

Lemma jm_wf_insert m k v : jm_wf m -> jm_wf (<[k:=v]> m).
Proof.
  destruct m as [l]. unfold jm_wf, jm_keys, insert, jm_insert. simpl.
  induction l as [|[k' v'] l IH]; simpl.
  - intros _. apply NoDup_singleton.
  - rewrite NoDup_cons. intros [Hk Hd]. case_decide; simpl.
    + subst. by constructor.
    + constructor; [|auto]. rewrite al_insert_keys_in. naive_solver.
Qed.

Lemma jm_wf_delete m k : jm_wf m -> jm_wf (delete k m).
Proof.
  destruct m as [l]. unfold jm_wf, jm_keys, delete, jm_delete. simpl.
  induction l as [|[k' v'] l IH]; simpl; [done|].
  rewrite NoDup_cons. intros [Hk Hd]. case_decide; simpl; [auto|].
  constructor; [|auto]. rewrite al_delete_keys_in. tauto.
Qed.

Lemma jm_size_delete_zero m k :
  jm_wf m -> jm_size (delete k m) = 0 -> forall k', k' ≠ k -> m !! k' = None.
Proof.
  intros Hwf H k' Hne. rewrite <- (jm_lookup_delete_ne m k k') by done.
  unfold jm_size in H. destruct (delete k m) as [[|]]; simpl in H; [done|lia].
Qed.

Lemma jm_no_lookup m : (forall k, m !! k = None) -> m = ∅.
Proof.
  destruct m as [[|[k v] l]]; [done|]. intros Hm. specialize (Hm k).
  unfold lookup, jm_lookup in Hm. simpl in Hm. by rewrite decide_True in Hm.
Qed.

Lemma jm_size_zero m : jm_size m = 0 -> m = ∅.
Proof. destruct m as [[|]]; unfold jm_size; simpl; [done|lia]. Qed.

Lemma jm_size_pos m k v : m !! k = Some v -> 0 < jm_size m.
Proof. destruct m as [[|]]; unfold jm_size; simpl; [done|lia]. Qed.

Lemma jm_size_nonneg m : 0 <= jm_size m.
Proof. unfold jm_size. lia. Qed.

Lemma jm_insert_fresh m k v :
  m !! k = None -> jm_entries (<[k:=v]> m) = jm_entries m ++ [(k, v)].
Proof.
  destruct m as [l]. unfold lookup, jm_lookup, insert, jm_insert. simpl.
  induction l as [|[k' v'] l IH]; simpl; [done|].
  case_decide; [done|]. simpl. intros Hf. by rewrite IH.
Qed.

Lemma jm_Forall_insert (P : V -> Prop) m k v :
  Forall P (jm_values m) -> P v -> Forall P (jm_values (<[k:=v]> m)).
Proof.
  destruct m as [l]. unfold jm_values, insert, jm_insert. simpl. intros Hl Hv.
  induction l as [|[k' v'] l IH]; simpl in *; [by constructor|].
  apply Forall_cons in Hl as [? ?]. case_decide; simpl; constructor; auto.
Qed.

Lemma jm_Forall_delete (P : V -> Prop) m k :
  Forall P (jm_values m) -> Forall P (jm_values (delete k m)).
Proof.
  destruct m as [l]. unfold jm_values, delete, jm_delete. simpl. intros Hl.
  induction l as [|[k' v'] l IH]; simpl in *; [done|].
  apply Forall_cons in Hl as [? ?]. case_decide; simpl; [auto|constructor; auto].
Qed.

Lemma jm_is_Some_key m k : is_Some (m !! k) <-> k ∈ map fst (jm_entries m).
Proof.
  destruct m as [l]. unfold lookup, jm_lookup. simpl.
  induction l as [|[k' v'] l IH]; simpl; [rewrite elem_of_nil; by split; [intros []|]|].
  rewrite elem_of_cons, <- IH. case_decide; subst; naive_solver.
Qed.

Lemma al_delete_notin k l : k ∉ l.*1 -> al_delete k l = l.
Proof.
  induction l as [|[k' v'] l IH]; simpl; [done|]. intros [Hne Hni]%not_elem_of_cons.
  rewrite decide_False by done. by rewrite IH.
Qed.

Lemma jm_delete_perm m k v :
  jm_wf m -> m !! k = Some v -> jm_entries m ≡ₚ (k, v) :: jm_entries (delete k m).
Proof.
  destruct m as [l]. unfold jm_wf, jm_keys, lookup, jm_lookup, delete, jm_delete. simpl.
  induction l as [|[k' v'] l IH]; simpl; [done|]. intros [Hni Hnd]%NoDup_cons.
  case_decide as Hk.
  - intros [= ->]. subst k'. by rewrite al_delete_notin.
  - intros H. rewrite (IH Hnd H) at 1. constructor.
Qed.

Lemma jm_lookup_values m k v : m !! k = Some v -> v ∈ jm_values m.
Proof.
  intros H%jm_lookup_Some_elem. unfold jm_values. apply list_elem_of_fmap. by exists (k, v).
Qed.

(** Equality of lookups. *)
Definition jm_equiv m1 m2 : Prop := forall k, m1 !! k = m2 !! k.
#[export] Instance jm_Equiv : Equiv (jsmap K V) := jm_equiv.

#[export] Instance jm_equivalence : Equivalence (≡@{jsmap K V}).
Proof.
  split.
  - intros m k. done.
  - intros m1 m2 H k. by rewrite (H k).
  - intros m1 m2 m3 H1 H2 k. by rewrite (H1 k), (H2 k).
Qed.

#[export] Instance jm_insert_proper k v : Proper ((≡) ==> (≡)) (insert (M:=jsmap K V) k v).
Proof. intros m1 m2 Heq k'. rewrite !jm_lookup_insert. case_decide; auto. Qed.

#[export] Instance jm_delete_proper k : Proper ((≡) ==> (≡)) (delete (M:=jsmap K V) k).
Proof. intros m1 m2 Heq k'. rewrite !jm_lookup_delete. case_decide; auto. Qed.

#[export] Instance jm_lookup_proper k : Proper ((≡) ==> (=)) (lookup (M:=jsmap K V) k).
Proof. intros m1 m2 H. apply H. Qed.
End JsMap.

#[export] Hint Resolve jm_wf_empty jm_wf_insert jm_wf_delete jm_Forall_insert jm_Forall_delete : pie.
#[export] Hint Rewrite @jm_lookup_insert_eq @jm_lookup_delete_eq : pie.
#[export] Hint Rewrite @jm_lookup_insert_ne @jm_lookup_delete_ne using congruence : pie.
