(* ===== verification/Json.v ===== *)
(** * JSON values as the code handles them

    [json] is what [JSON.parse] returns; [prop] is property access on a parsed
    value; [JSON_stringify] prints compactly, in key order, with JavaScript's
    escapes. [JSON.parse] itself is native code of the engine: the components
    that parse take it as a parameter. Text is a sequence of bytes (UTF-8). *)

From S2P Require Import Prelude JsMap.

(** A JSON number: an integer, or the decimal fraction [m * 10^-e]
    ([e >= 1], [m] not a multiple of ten), or the infinity of an overflow. *)
Inductive jsnum :=
  | NInt (z : Z)
  | NFrac (m : Z) (e : positive)
  | NInf (negative : bool).

#[export] Instance jsnum_eq_dec : EqDecision jsnum.
Proof. solve_decision. Defined.

Inductive json :=
  | JNull
  | JBool (b : bool)
  | JNum (n : jsnum)
  | JStr (s : string)
  | JArr (l : list json)
  | JObj (fields : list (string * json)).

Fixpoint assoc {A} (k : string) (l : list (string * A)) : option A :=
  match l with
  | [] => None
  | (k', v) :: l => if String.eqb k k' then Some v else assoc k l
  end.

(** [value.k] where [value] is a parsed JSON value: [None] is [undefined].
    (No array property the code reads is one of an array's own.) *)
Definition prop (k : string) (j : json) : option json :=
  match j with
  | JObj fields => assoc k fields
  | _ => None
  end.

(** [typeof v === 'object' && v !== null] *)
Definition is_object (j : json) : bool :=
  match j with JArr _ | JObj _ => true | _ => false end.

(** [typeof v === 'string'], [typeof v === 'number'], as the value read. *)
Definition as_string (v : option json) : option string :=
  match v with Some (JStr s) => Some s | _ => None end.
Definition as_number (v : option json) : option jsnum :=
  match v with Some (JNum n) => Some n | _ => None end.

(** [Number.isFinite(v)] and [Number.isSafeInteger(v)]. *)
Definition isFinite (v : option json) : option jsnum :=
  match v with
  | Some (JNum (NInf _)) => None
  | Some (JNum n) => Some n
  | _ => None
  end.
Definition safeInteger (v : option json) : option Z :=
  match v with
  | Some (JNum (NInt z)) => if isSafeInteger z then Some z else None
  | _ => None
  end.

(** [n > 0] *)
Definition jsnum_pos (n : jsnum) : bool :=
  match n with
  | NInt z => 0 <? z
  | NFrac m _ => 0 <? m
  | NInf negative => negb negative
  end.

(** JavaScript truthiness of a property that may be [undefined]. *)
Definition truthy (v : option json) : bool :=
  match v with
  | None | Some JNull | Some (JBool false) => false
  | Some (JNum (NInt z)) => negb (z =? 0)
  | Some (JStr s) => negb (String.eqb s "")
  | Some _ => true
  end.

(** ** [JSON.stringify] *)

Definition chr (n : nat) : Ascii.ascii := Ascii.ascii_of_nat n.
Definition quote : Ascii.ascii := chr 34.
Definition backslash : Ascii.ascii := chr 92.

Definition hex_digit (n : nat) : Ascii.ascii :=
  chr (if (n <? 10)%nat then 48 + n else 87 + n)%nat.

(** The escape of one code unit inside a JSON string. *)
Definition escape_char (c : Ascii.ascii) : string :=
  let n := Ascii.nat_of_ascii c in
  if (n =? 34)%nat then String backslash (String quote "")
  else if (n =? 92)%nat then String backslash (String backslash "")
  else if (n =? 8)%nat then String backslash "b"
  else if (n =? 9)%nat then String backslash "t"
  else if (n =? 10)%nat then String backslash "n"
  else if (n =? 12)%nat then String backslash "f"
  else if (n =? 13)%nat then String backslash "r"
  else if (n <? 32)%nat then
    String backslash ("u00" +:+ String (hex_digit (n / 16)) (String (hex_digit (n mod 16)) ""))
  else String c "".

Fixpoint escape (s : string) : string :=
  match s with
  | "" => ""
  | String c s => escape_char c +:+ escape s
  end%string.

Definition quoted (s : string) : string :=
  (String quote "" +:+ escape s +:+ String quote "")%string.

(** The decimal digits of a natural number, least significant first. *)
Fixpoint digits_rev (fuel : nat) (n : Z) : string :=
  match fuel with
  | O => ""
  | S fuel =>
      String (chr (48 + Z.to_nat (n mod 10)))
        (if n / 10 =? 0 then "" else digits_rev fuel (n / 10))
  end.

Definition nat_digits (n : Z) : string := String.rev (digits_rev (S (Z.to_nat (Z.log2 n))) n).

(** [String(z)] of an integer below 10^21. *)
Definition int_string (z : Z) : string :=
  if z <? 0 then String (chr 45) (nat_digits (- z)) else nat_digits z.

Fixpoint pad_zeros (n : nat) (s : string) : string :=
  match n with O => s | S n => String (chr 48) (pad_zeros n s) end.

(** A decimal fraction printed without exponent. *)
Definition frac_string (m : Z) (e : positive) : string :=
  let p := 10 ^ Zpos e in
  let f := nat_digits (Z.abs m mod p) in
  ((if (m <? 0)%Z then String (chr 45) "" else "") +:+ nat_digits (Z.abs m / p) +:+ "." +:+
   pad_zeros (Pos.to_nat e - String.length f) f)%string.

Definition num_string (n : jsnum) : string :=
  match n with
  | NInt z => int_string z
  | NFrac m e => frac_string m e
  | NInf _ => "null"  (* JSON.stringify(Infinity) *)
  end.

Fixpoint join (sep : string) (l : list string) : string :=
  match l with
  | [] => ""
  | [s] => s
  | s :: l => s +:+ sep +:+ join sep l
  end%string.

Fixpoint JSON_stringify (j : json) : string :=
  match j with
  | JNull => "null"
  | JBool true => "true"
  | JBool false => "false"
  | JNum n => num_string n
  | JStr s => quoted s
  | JArr l => "[" +:+ join "," (map JSON_stringify l) +:+ "]"
  | JObj fields =>
      "{" +:+ join "," (map (fun '(k, v) => quoted k +:+ ":" +:+ JSON_stringify v) fields) +:+ "}"
  end%string.

Example stringify_ex :
  JSON_stringify (JObj [("a", JNum (NInt (-120))); ("b", JArr [JNull; JBool true]); ("c", JStr "x")])%string
  = ("{" +:+ quoted "a" +:+ ":-120," +:+ quoted "b" +:+ ":[null,true]," +:+ quoted "c" +:+ ":" +:+ quoted "x" +:+ "}")%string.
Proof. reflexivity. Qed.

(** ** JavaScript objects

    A mutable object the code spreads and assigns to: its own properties in
    creation order, a property possibly holding [undefined]. *)
Abbreviation jsobj := (jsmap string (option json)).

(** [o.k]; absent and [undefined] read the same. *)
Definition get (k : string) (o : jsobj) : option json := mjoin (o !! k).

(** The JSON value [JSON.stringify] prints for an object: [undefined] is left out. *)
Definition defined (fields : list (string * option json)) : list (string * json) :=
  omap (fun '(k, v) => x ← v; Some (k, x)) fields.
Definition obj_json (o : jsobj) : json := JObj (defined (jm_entries o)).

(** [{ k1: v1, ... }] *)
Definition obj_literal (fields : list (string * option json)) : jsobj :=
  foldl (fun o '(k, v) => <[k:=v]> o) ∅ fields.

(** The own enumerable properties [{ ...value }] copies: an object's, an
    array's indices, a string's characters, none of a number or a boolean. *)
Definition own_properties (value : json) : list (string * option json) :=
  match value with
  | JObj fields => map (fun '(k, v) => (k, Some v)) fields
  | JArr l => imap (fun i v => (int_string (Z.of_nat i), Some v)) l
  | JStr s => imap (fun i c => (int_string (Z.of_nat i), Some (JStr (String c "")))) (chars s)
  | _ => []
  end.
Definition spread (value : json) : jsobj := obj_literal (own_properties value).

(** [a === b] on two values that are not the same object. *)
Definition strict_eq (a b : option json) : bool :=
  match a, b with
  | None, None | Some JNull, Some JNull => true
  | Some (JBool a), Some (JBool b) => Bool.eqb a b
  | Some (JNum a), Some (JNum b) => bool_decide (a = b)
  | Some (JStr a), Some (JStr b) => String.eqb a b
  | _, _ => false
  end.

(** [JSON.stringify(value, null, 2)] *)
Definition newline : string := String (chr 10) "".
Fixpoint spaces (n : nat) : string :=
  match n with O => "" | S n => String (chr 32) (spaces n) end.
Definition bracketed (indent : nat) (o c : string) (items : list string) : string :=
  match items with
  | [] => o +:+ c
  | _ => o +:+ newline +:+ spaces (indent + 2) +:+
         join ("," +:+ newline +:+ spaces (indent + 2)) items +:+
         newline +:+ spaces indent +:+ c
  end%string.
Fixpoint JSON_stringify_2 (indent : nat) (j : json) : string :=
  match j with
  | JArr l => bracketed indent "[" "]" (map (JSON_stringify_2 (indent + 2)) l)
  | JObj fields =>
      bracketed indent "{" "}"
        (map (fun '(k, v) => quoted k +:+ ": " +:+ JSON_stringify_2 (indent + 2) v) fields)
  | _ => JSON_stringify j
  end%string.

Example stringify_2_ex :
  JSON_stringify_2 0 (JArr [JObj [("a", JArr []); ("b", JNull)]])%string
  = ("[" +:+ newline +:+ "  {" +:+ newline +:+ "    " +:+ quoted "a" +:+ ": []," +:+ newline +:+
     "    " +:+ quoted "b" +:+ ": null" +:+ newline +:+ "  }" +:+ newline +:+ "]")%string.
Proof. reflexivity. Qed.

Lemma assoc_notin {A} k (l : list (string * A)) : k ∉ l.*1 -> assoc k l = None.
Proof.
  induction l as [|[k' v] l IH]; cbn [assoc fmap list_fmap]; [done|].
  intros [Hne Hni]%not_elem_of_cons. destruct (String.eqb_spec k k') as [->|]; [done|auto].
Qed.

Lemma get_insert k k' v o : get k (<[k':=v]> o) = if decide (k' = k) then v else get k o.
Proof. unfold get. rewrite jm_lookup_insert. by case_decide. Qed.

Lemma defined_keys k fields : k ∈ (defined fields).*1 -> k ∈ fields.*1.
Proof.
  induction fields as [|[k' [v|]] l IH]; simpl; auto.
  - intros [->|H]%elem_of_cons; set_solver.
  - set_solver.
Qed.

Lemma prop_obj_json k o : jm_wf o -> prop k (obj_json o) = get k o.
Proof.
  destruct o as [l]. unfold jm_wf, jm_keys, get, lookup, jm_lookup. simpl.
  induction l as [|[k' v] l IH]; [done|]. simpl. intros [Hni Hnd]%NoDup_cons.
  unfold defined in *. simpl. case_decide as Hk; [subst k'|].
  - destruct v as [v|]; simpl; [by rewrite String.eqb_refl|].
    apply assoc_notin. by intros ?%defined_keys.
  - destruct v as [v|]; simpl; [|auto].
    destruct (String.eqb_spec k k'); [done|auto].
Qed.

Lemma NoDup_defined o : jm_wf o -> NoDup (defined (jm_entries o)).*1.
Proof.
  destruct o as [l]. unfold jm_wf, jm_keys. simpl.
  induction l as [|[k' v] l IH]; simpl; [constructor|]. intros [Hni Hnd]%NoDup_cons.
  unfold defined in *. simpl. destruct v as [v|]; simpl; [|auto]. constructor; [|auto].
  intros H. apply Hni. by apply (defined_keys _ l).
Qed.

Lemma jm_wf_obj_literal fields : jm_wf (obj_literal fields).
Proof.
  unfold obj_literal. assert (H : jm_wf (∅ : jsobj)) by apply jm_wf_empty.
  revert H. generalize (∅ : jsobj). induction fields as [|[k v] l IH]; simpl; intros o H; [done|].
  apply IH. by apply jm_wf_insert.
Qed.

Lemma get_spread k fields :
  NoDup fields.*1 -> get k (spread (JObj fields)) = prop k (JObj fields).
Proof.
  unfold spread, obj_literal, own_properties. cbn [prop].
  enough (Hg : forall o, NoDup fields.*1 ->
    get k (foldl (fun o '(k, v) => <[k:=v]> o) o (map (fun '(k, v) => (k, Some v)) fields))
    = match assoc k fields with Some v => Some v | None => get k o end).
  { intros H. rewrite (Hg ∅ H). by destruct (assoc k fields). }
  induction fields as [|[k' v] l IH]; cbn [assoc fmap list_fmap map foldl]; [done|].
  intros o [Hni Hnd]%NoDup_cons. rewrite IH by done. rewrite get_insert.
  destruct (String.eqb_spec k k') as [->|Hne].
  - rewrite assoc_notin by done. by rewrite decide_True.
  - rewrite decide_False by congruence. done.
Qed.
