(* ===== verification/JsText.v ===== *)
(** * Operations on text

    JavaScript's [trim], [startsWith], [toLowerCase], [encodeURIComponent] and the
    conversion of a value to text, on strings of UTF-8 bytes. *)

From S2P Require Import Prelude JsMap Json.

Local Open Scope string_scope.
Local Open Scope list_scope.
Local Open Scope Z_scope.

(** The UTF-8 encodings of JavaScript's white space and line terminators. *)
Definition white_space : list (list nat) :=
  (map (fun n => [n]) [9; 10; 11; 12; 13; 32] ++ [[194; 160]; [225; 154; 128]] ++
   map (fun n => [226; 128; n]) ([128; 129; 130; 131; 132; 133; 134; 135; 136; 137; 138] ++
                                 [168; 169; 175]) ++
   [[226; 129; 159]; [227; 128; 128]; [239; 187; 191]])%nat.

(** The text without the leading members of [spaces]. *)
Fixpoint strip (spaces : list (list Ascii.ascii)) (fuel : nat) (l : list Ascii.ascii)
    : list Ascii.ascii :=
  match fuel with
  | O => l
  | S fuel =>
      match js_find (fun w => list_prefixb w l) spaces with
      | Some w => strip spaces fuel (drop (length w) l)
      | None => l
      end
  end.

(** [s.trim()]. Each round strips at least one byte. *)
Definition trim (s : string) : string :=
  let spaces := map (map chr) white_space in
  let l := strip spaces (String.length s) (chars s) in
  of_chars (reverse (strip (map reverse spaces) (String.length s) (reverse l))).

Example trim_ex :
  trim ("  a b" +:+ of_chars (map chr [194; 160; 10]%nat)) = "a b" /\ trim "  " = "".
Proof. split; reflexivity. Qed.

(** [startsWith] *)
Fixpoint starts_with (p s : string) : bool :=
  match p, s with
  | "", _ => true
  | String a p, String b s => Ascii.eqb a b && starts_with p s
  | _, _ => false
  end.

(** [toLowerCase] on the ASCII letters. *)
Definition lower (c : Ascii.ascii) : Ascii.ascii :=
  let n := Ascii.nat_of_ascii c in
  if (65 <=? n)%nat && (n <=? 90)%nat then Ascii.ascii_of_nat (n + 32) else c.
Fixpoint to_lower (s : string) : string :=
  match s with String c s => String (lower c) (to_lower s) | "" => "" end.

(** [s.replace(/\/+$/, '')] *)
Fixpoint drop_slashes (l : list Ascii.ascii) : list Ascii.ascii :=
  match l with
  | c :: l' => if Ascii.eqb c (chr 47) then drop_slashes l' else l
  | [] => []
  end.
Definition strip_trailing_slashes (s : string) : string :=
  of_chars (reverse (drop_slashes (reverse (chars s)))).

(** The characters [encodeURIComponent] leaves as they are. *)
Definition uri_unreserved (c : Ascii.ascii) : bool :=
  let n := Ascii.nat_of_ascii c in
  ((48 <=? n) && (n <=? 57) || (65 <=? n) && (n <=? 90) || (97 <=? n) && (n <=? 122))%nat
  || existsb (Ascii.eqb c) (chars "-_.!~*'()").

Definition hex_upper (n : nat) : Ascii.ascii :=
  chr (if (n <? 10)%nat then 48 + n else 55 + n)%nat.

Definition encode_byte (c : Ascii.ascii) : list Ascii.ascii :=
  if uri_unreserved c then [c]
  else let n := Ascii.nat_of_ascii c in [chr 37; hex_upper (n / 16); hex_upper (n mod 16)].

Definition encodeURIComponent (s : string) : string := of_chars (mjoin (map encode_byte (chars s))).

(** [String(value)], as concatenation converts a value to text. *)
Fixpoint to_text (j : json) : string :=
  match j with
  | JNull => "null"
  | JBool true => "true"
  | JBool false => "false"
  | JNum (NInf negative) => if negative then "-Infinity" else "Infinity"
  | JNum n => num_string n
  | JStr s => s
  | JArr l => join "," (map (fun v => match v with JNull => "" | _ => to_text v end) l)
  | JObj _ => "[object Object]"
  end.

(** The length of a string in JavaScript's UTF-16 code units. *)
Definition utf16_units (c : Ascii.ascii) : Z :=
  let n := Ascii.nat_of_ascii c in if ((128 <=? n) && (n <? 192))%nat then 0 else if (240 <=? n)%nat then 2 else 1.
Definition js_length (s : string) : Z := foldr (fun c n => utf16_units c + n) 0 (chars s).

(** [v ?? d] *)
Definition nullish (v : option json) (d : json) : json :=
  match v with None | Some JNull => d | Some v => v end.

(** [/\d/], and [s.split(c)] of a one-character separator. *)
Definition digit_char (c : Ascii.ascii) : bool := let n := Ascii.nat_of_ascii c in ((48 <=? n) && (n <=? 57))%nat.
Fixpoint split_char (sep : Ascii.ascii) (l : list Ascii.ascii) : list (list Ascii.ascii) :=
  match l with
  | [] => [[]]
  | c :: l =>
      if Ascii.eqb c sep then [] :: split_char sep l
      else match split_char sep l with w :: ws => (c :: w) :: ws | [] => [[c]] end
  end.
