(* ===== verification/Base64.v ===== *)
(** * Base64: [btoa] and [atob] on byte sequences

    The platform's two functions, as WHATWG's forgiving base64 states them: the
    relay measures payloads through their base64 length, the E2EE handshake
    accepts only canonical encodings, the desktop decodes PTY output. *)

From S2P Require Import Prelude.

(** The character of a six-bit value. *)
Definition b64_char (v : Z) : Ascii.ascii :=
  Ascii.ascii_of_nat (Z.to_nat (
    if v <? 26 then 65 + v
    else if v <? 52 then 71 + v
    else if v <? 62 then v - 4
    else if v =? 62 then 43 else 47)).

Definition b64_val (c : Ascii.ascii) : option Z :=
  let n := Z.of_nat (Ascii.nat_of_ascii c) in
  if (65 <=? n) && (n <=? 90) then Some (n - 65)
  else if (97 <=? n) && (n <=? 122) then Some (n - 71)
  else if (48 <=? n) && (n <=? 57) then Some (n + 4)
  else if n =? 43 then Some 62
  else if n =? 47 then Some 63
  else None.

Definition pad_char : Ascii.ascii := Ascii.ascii_of_nat 61.

(** Three bytes are four six-bit values; one or two trailing bytes are two or
    three values, zero-filled. *)
Fixpoint sextets (bs : list Z) : list Z :=
  match bs with
  | a :: b :: c :: bs =>
      a / 4 :: a mod 4 * 16 + b / 16 :: b mod 16 * 4 + c / 64 :: c mod 64 :: sextets bs
  | [a; b] => [a / 4; a mod 4 * 16 + b / 16; b mod 16 * 4]
  | [a] => [a / 4; a mod 4 * 16]
  | [] => []
  end.

Fixpoint sextets_bytes (vs : list Z) : list Z :=
  match vs with
  | a :: b :: c :: d :: vs =>
      a * 4 + b / 16 :: b mod 16 * 16 + c / 4 :: c mod 4 * 64 + d :: sextets_bytes vs
  | [a; b; c] => [a * 4 + b / 16; b mod 16 * 16 + c / 4]
  | [a; b] => [a * 4 + b / 16]
  | _ => []
  end.

Definition pad_count (n : nat) : nat := (match n mod 3 with O => 0 | S O => 2 | _ => 1 end)%nat.

Definition btoa (bs : list Z) : string :=
  of_chars (map b64_char (sextets bs) ++ replicate (pad_count (length bs)) pad_char).

Definition is_ws (c : Ascii.ascii) : bool :=
  let n := Ascii.nat_of_ascii c in
  ((n =? 9) || (n =? 10) || (n =? 12) || (n =? 13) || (n =? 32))%nat.

(** At most two padding characters dropped from the end (of the reversal). *)
Definition strip_pad_rev (l : list Ascii.ascii) : list Ascii.ascii :=
  match l with
  | a :: b :: r => if Ascii.eqb a pad_char then if Ascii.eqb b pad_char then r else b :: r else l
  | [a] => if Ascii.eqb a pad_char then [] else l
  | [] => []
  end.

Definition atob (s : string) : option (list Z) :=
  let cs := js_filter (fun c => negb (is_ws c)) (chars s) in
  let cs := if (length cs mod 4 =? 0)%nat then reverse (strip_pad_rev (reverse cs)) else cs in
  if (length cs mod 4 =? 1)%nat then None
  else vs ← mapM b64_val cs; Some (sextets_bytes vs).

Example btoa_ex : btoa [77; 97; 110; 77] = "TWFuTQ=="%string /\ atob "TWFuTQ==" = Some [77; 97; 110; 77].
Proof. split; reflexivity. Qed.

(** ** Laws *)

Lemma list_ind3 {A} (P : list A -> Prop) :
  P [] -> (forall a, P [a]) -> (forall a b, P [a; b]) ->
  (forall a b c l, P l -> P (a :: b :: c :: l)) -> forall l, P l.
Proof.
  intros H0 H1 H2 H3.
  fix IH 1. intros [|a [|b [|c l]]]; [done|apply H1|apply H2|apply H3, IH].
Qed.

Definition sextet_ok (v : Z) : Prop := 0 <= v < 64.

Ltac byte_arith := unfold byte_ok, sextet_ok in *; Z.to_euclidean_division_equations; lia.

Lemma sextets_ok bs : bytes_ok bs -> Forall sextet_ok (sextets bs).
Proof.
  induction bs as [|a|a b|a b c l IH] using list_ind3; simpl; intros H;
    rewrite ?Forall_cons in *; destruct_and?; repeat split; auto; byte_arith.
Qed.

Lemma sextets_bytes_sextets bs : bytes_ok bs -> sextets_bytes (sextets bs) = bs.
Proof.
  induction bs as [|a|a b|a b c l IH] using list_ind3; simpl; intros H;
    rewrite ?Forall_cons in *; destruct_and?; [done|..].
  - f_equal. byte_arith.
  - f_equal; [byte_arith|]. f_equal. byte_arith.
  - f_equal; [byte_arith|]. f_equal; [byte_arith|]. f_equal; [byte_arith|]. auto.
Qed.

Lemma sextet_cases (P : Z -> Prop) :
  (forall n : nat, (n < 64)%nat -> P (Z.of_nat n)) -> forall v, sextet_ok v -> P v.
Proof. intros H v Hv. rewrite <- (Z2Nat.id v) by (unfold sextet_ok in Hv; lia). apply H. unfold sextet_ok in Hv. lia. Qed.

Lemma b64_val_char v : sextet_ok v -> b64_val (b64_char v) = Some v.
Proof.
  revert v. apply sextet_cases. intros n Hn.
  do 64 (destruct n as [|n]; [reflexivity|]). lia.
Qed.

Lemma b64_char_plain v : sextet_ok v -> is_ws (b64_char v) = false /\ b64_char v ≠ pad_char.
Proof.
  revert v. apply sextet_cases. intros n Hn.
  do 64 (destruct n as [|n]; [split; [reflexivity|intros [=]]|]). lia.
Qed.

Lemma mapM_b64_val vs : Forall sextet_ok vs -> mapM b64_val (map b64_char vs) = Some vs.
Proof. induction 1 as [|v vs Hv _ IH]; simpl; [done|]. by rewrite b64_val_char, IH. Qed.

Lemma length_sextets bs :
  (length (sextets bs) + pad_count (length bs) = 4 * ((length bs + 2) / 3))%nat.
Proof.
  induction bs as [|a|a b|a b c l IH] using list_ind3; try reflexivity.
  simpl sextets. simpl length.
  replace (S (S (S (length l))) + 2)%nat with (length l + 2 + 1 * 3)%nat by lia.
  rewrite Nat.div_add by lia.
  replace (pad_count (S (S (S (length l))))) with (pad_count (length l)); [lia|].
  unfold pad_count. replace (S (S (S (length l)))) with (length l + 1 * 3)%nat by lia.
  by rewrite Nat.Div0.mod_add.
Qed.

Lemma chars_btoa bs :
  chars (btoa bs) = map b64_char (sextets bs) ++ replicate (pad_count (length bs)) pad_char.
Proof. apply chars_of_chars. Qed.

Lemma sextets_last bs :
  bytes_ok bs -> bs ≠ [] ->
  exists init v, sextets bs = init ++ [v] /\ sextet_ok v.
Proof.
  intros H Hne. pose proof (sextets_ok bs H) as Hs.
  destruct (exists_last (l:=sextets bs)) as (init & v & Heq).
  { destruct bs as [|? [|? [|]]]; simpl; congruence. }
  exists init, v. split; [done|]. rewrite Heq, Forall_app, Forall_cons in Hs. tauto.
Qed.

Lemma pad_count_le n : (pad_count n <= 2)%nat.
Proof. unfold pad_count. repeat case_match; lia. Qed.

Lemma strip_pad_rev_pads n c l :
  (n <= 2)%nat -> c ≠ pad_char ->
  strip_pad_rev (replicate n pad_char ++ c :: l) = c :: l.
Proof.
  intros Hn Hc. apply Ascii.eqb_neq in Hc.
  destruct n as [|[|[|]]]; [| | |lia]; simpl.
  - destruct l; by rewrite Hc.
  - destruct l; by rewrite ?Hc.
  - done.
Qed.

(** Decoding is a left inverse of encoding. *)
Lemma atob_btoa bs : bytes_ok bs -> atob (btoa bs) = Some bs.
Proof.
  intros H. unfold atob.
  rewrite (js_filter_all _ (chars (btoa bs))), chars_btoa.
  2:{ rewrite chars_btoa. apply Forall_app. split.
      - apply Forall_map. eapply Forall_impl; [by apply sextets_ok|].
        intros v Hv. simpl. by rewrite (proj1 (b64_char_plain v Hv)).
      - apply Forall_replicate. done. }
  rewrite length_app, length_map, length_replicate, length_sextets.
  rewrite (Nat.mul_comm 4), Nat.Div0.mod_mul. change (0 =? 0)%nat with true. cbv iota.
  destruct (decide (bs = [])) as [->|Hne]; [done|].
  destruct (sextets_last bs H Hne) as (init & v & Heq & Hv).
  rewrite Heq, map_app, reverse_app, reverse_app.
  change (reverse (map b64_char [v])) with [b64_char v]. cbn [app].
  rewrite reverse_replicate, strip_pad_rev_pads;
    [|apply pad_count_le|by apply b64_char_plain].
  rewrite reverse_cons, reverse_involutive.
  assert (Hlen : ((length (map b64_char init ++ [b64_char v])) mod 4 =? 1)%nat = false).
  { rewrite length_app, length_map. cbn [length].
    pose proof (length_sextets bs) as Hl. rewrite Heq, length_app in Hl. cbn [length] in Hl.
    pose proof (pad_count_le (length bs)).
    apply Nat.eqb_neq. pose proof (Nat.div_mod_eq (length init + 1) 4). lia. }
  rewrite Hlen. replace (map b64_char init ++ [b64_char v]) with (map b64_char (sextets bs))
    by by rewrite Heq, map_app.
  rewrite mapM_b64_val by by apply sextets_ok. simpl.
  by rewrite sextets_bytes_sextets.
Qed.

Lemma b64_val_ok c v : b64_val c = Some v -> sextet_ok v.
Proof. unfold b64_val, sextet_ok. intros H. crush_match; lia. Qed.

Lemma list_ind4 {A} (P : list A -> Prop) :
  P [] -> (forall a, P [a]) -> (forall a b, P [a; b]) -> (forall a b c, P [a; b; c]) ->
  (forall a b c d l, P l -> P (a :: b :: c :: d :: l)) -> forall l, P l.
Proof.
  intros H0 H1 H2 H3 H4.
  fix IH 1. intros [|a [|b [|c [|d l]]]]; [done|apply H1|apply H2|apply H3|apply H4, IH].
Qed.

Lemma sextets_bytes_ok vs : Forall sextet_ok vs -> bytes_ok (sextets_bytes vs).
Proof.
  induction vs as [|a|a b|a b c|a b c d l IH] using list_ind4; simpl; intros H;
    rewrite ?Forall_cons in *; destruct_and?; repeat split; auto; byte_arith.
Qed.

(** Whatever [atob] accepts decodes to bytes. *)
Lemma atob_ok s bs : atob s = Some bs -> bytes_ok bs.
Proof.
  unfold atob. case_match; [done|]. intros H1. apply bind_Some in H1 as (vs & Hvs & [= <-]).
  apply sextets_bytes_ok. apply mapM_Some in Hvs.
  eapply Forall2_Forall_r; [exact Hvs|]. apply Forall_true. intros x y. apply b64_val_ok.
Qed.

Lemma btoa_inj bs bs' : bytes_ok bs -> bytes_ok bs' -> btoa bs = btoa bs' -> bs = bs'.
Proof. intros H H' Heq. apply (f_equal atob) in Heq. rewrite !atob_btoa in Heq by done. congruence. Qed.
