(* ===== verification/RelayWire.v ===== *)
(** * The Relay cell's wire contract, limits and configuration

    Models [relay-wire-contract.ts], the types of [relay-runtime-deps.ts] and
    [relay-config.ts] under [platform/apps/relay/src]. Inbound messages are
    what the Zod schemas accept: the schema validator (a package) and
    [JSON.parse] are parameters of [parseRelayInbound]. *)

From S2P Require Import Prelude Json Base64.
Local Open Scope string_scope.
Local Open Scope Z_scope.

(** ** Roles, clocks, limits (relay-runtime-deps.ts) *)

Inductive RelayRole := driver | viewer.
#[export] Instance RelayRole_eq_dec : EqDecision RelayRole.
Proof. solve_decision. Defined.

Record RelayLimits := {
  maxFrameBytes : Z;
  maxFramesPerSecond : Z;
  maxBytesPerSecond : Z;
  maxQueuedPtyFrames : Z;
  maxQueuedControlFrames : Z;
  sendHighWaterMarkBytes : Z;
}.

Definition DEFAULT_RELAY_LIMITS : RelayLimits := {|
  maxFrameBytes := 256 * 1024;
  maxFramesPerSecond := 240;
  maxBytesPerSecond := 8 * 1024 * 1024;
  maxQueuedPtyFrames := 512;
  maxQueuedControlFrames := 4096;
  sendHighWaterMarkBytes := 1024 * 1024;
|}.

(** ** Messages (relay-wire-contract.ts) *)

Definition RELAY_PROTOCOL_VERSION : string := "1.0".

Inductive RelayFrameDirection := output | control.
#[export] Instance RelayFrameDirection_eq_dec : EqDecision RelayFrameDirection.
Proof. solve_decision. Defined.

Record RelayJoinMessage := {
  join_sessionId : string;
  join_streamId : string;
  join_credential : string;
}.

Record RelayFrameInboundMessage := {
  frame_streamId : string;
  frame_seq : Z;
  frame_dir : RelayFrameDirection;
  frame_payload : string;
}.

Inductive RelayInboundMessage :=
  | MsgJoin (m : RelayJoinMessage)
  | MsgFrame (m : RelayFrameInboundMessage)
  | MsgLeave.

Record RelayStampedSender := { sender_participantId : string; sender_role : RelayRole }.

Inductive RelayErrorCode :=
  | malformed | not_joined | already_joined | admission_denied
  | forbidden_control | frame_too_large | rate_limited.

Inductive RelayOutboundMessage :=
  | join_ack (sessionId streamId participantId : string) (role : RelayRole)
  | frame (streamId : string) (seq : Z) (dir : RelayFrameDirection)
          (payload : string) (sender : RelayStampedSender)
  | error_message (code : RelayErrorCode) (message : string)
  | stream_lagged (streamId : string) (droppedFrames : Z) (dir : RelayFrameDirection)
  | leave_ack.

Definition role_string (r : RelayRole) : string :=
  match r with driver => "driver" | viewer => "viewer" end.

Definition dir_string (d : RelayFrameDirection) : string :=
  match d with output => "output" | control => "control" end.

Definition code_string (c : RelayErrorCode) : string :=
  match c with
  | malformed => "malformed"
  | not_joined => "not_joined"
  | already_joined => "already_joined"
  | admission_denied => "admission_denied"
  | forbidden_control => "forbidden_control"
  | frame_too_large => "frame_too_large"
  | rate_limited => "rate_limited"
  end.

(** The object literal each sender builds, in its key order. *)
Definition outbound_json (m : RelayOutboundMessage) : json :=
  match m with
  | join_ack sessionId streamId participantId role =>
      JObj [("type", JStr "join_ack"); ("protocolVersion", JStr RELAY_PROTOCOL_VERSION);
            ("sessionId", JStr sessionId); ("streamId", JStr streamId);
            ("participantId", JStr participantId); ("role", JStr (role_string role))]
  | frame streamId seq dir payload sender =>
      JObj [("type", JStr "frame"); ("streamId", JStr streamId); ("seq", JNum (NInt seq));
            ("dir", JStr (dir_string dir)); ("payload", JStr payload);
            ("sender", JObj [("participantId", JStr (sender_participantId sender));
                             ("role", JStr (role_string (sender_role sender)))])]
  | error_message code message =>
      JObj [("type", JStr "error"); ("code", JStr (code_string code)); ("message", JStr message)]
  | stream_lagged streamId droppedFrames dir =>
      JObj [("type", JStr "stream_lagged"); ("streamId", JStr streamId);
            ("droppedFrames", JNum (NInt droppedFrames)); ("dir", JStr (dir_string dir))]
  | leave_ack => JObj [("type", JStr "leave_ack")]
  end.

Definition stringify (m : RelayOutboundMessage) : string := JSON_stringify (outbound_json m).

Section Parse.
(** [JSON.parse] ([None] when it throws) and the Zod schema's [safeParse]. *)
Context (JSON_parse : string -> option json).
Context (RelayInboundMessageSchema_safeParse : json -> option RelayInboundMessage).

Definition parseRelayInbound (raw : string) : option RelayInboundMessage :=
  match JSON_parse raw with
  | None => None
  | Some j => RelayInboundMessageSchema_safeParse j
  end.
End Parse.

Definition base64DecodedByteLength (base64 : string) : Z :=
  let length := Z.of_nat (String.length base64) in
  if length =? 0 then 0
  else
    let padding :=
      if endsWith base64 "==" then 2
      else if endsWith base64 "=" then 1
      else 0 in
    length * 3 / 4 - padding.

(** ** Configuration from the environment (relay-config.ts) *)

Section Config.
(** [process.env] *)
Context (env : string -> option string).

(** [env.X && ...]: a variable that is set and not empty. *)
Definition env_truthy (k : string) : option string :=
  match env k with Some s => if String.eqb s "" then None else Some s | None => None end.

Definition loadAdmissionConfig : option (string * string) :=
  match env_truthy "PIE_RELAY_CONTROL_PLANE_URL", env_truthy "PIE_RELAY_OPERATOR_TOKEN" with
  | Some controlPlaneBaseUrl, Some operatorToken => Some (controlPlaneBaseUrl, operatorToken)
  | _, _ => None
  end.

Definition digit_val (c : Ascii.ascii) : option Z :=
  let n := Z.of_nat (Ascii.nat_of_ascii c) in
  if (48 <=? n) && (n <=? 57) then Some (n - 48) else None.

(** The longest digit prefix, as its value; [None] when there is no digit. *)
Fixpoint digits_value (acc : option Z) (l : list Ascii.ascii) : option Z :=
  match l with
  | [] => acc
  | c :: l =>
      match digit_val c with
      | Some d => digits_value (Some (default 0 acc * 10 + d)) l
      | None => acc
      end
  end.

Definition trim_start_char (c : Ascii.ascii) : bool :=
  let n := Ascii.nat_of_ascii c in ((9 <=? n) && (n <=? 13) || (n =? 32))%nat.

Fixpoint drop_ws (l : list Ascii.ascii) : list Ascii.ascii :=
  match l with
  | c :: l' => if trim_start_char c then drop_ws l' else l
  | [] => []
  end.

(** [Number.parseInt(s, 10)]: [None] is [NaN]. The value is the exact integer,
    rounded to the double that holds it. *)
Definition parseInt10 (s : string) : option Z :=
  match drop_ws (chars s) with
  | c :: l =>
      if Ascii.eqb c (chr 45) then Z.opp ∘ js_round <$> digits_value None l
      else if Ascii.eqb c (chr 43) then js_round <$> digits_value None l
      else js_round <$> digits_value None (c :: l)
  | [] => None
  end.

(** The magnitude from which a decimal integer rounds to [Infinity]. *)
Definition double_overflow : Z := 2 ^ 1024 - 2 ^ 970.

Definition intFromEnv (value : option string) (fallback : Z) : Z :=
  match parseInt10 (default "" value) with
  | Some parsed => if Z.abs parsed <? double_overflow then parsed else fallback
  | None => fallback
  end.

Record RelayConfig := {
  config_host : string;
  config_port : Z;
  config_serviceName : string;
  config_admission : option (string * string);
  config_limits : RelayLimits;
}.

Definition loadRelayConfig : RelayConfig := {|
  config_host := default "0.0.0.0" (env "PIE_RELAY_HOST");
  config_port := intFromEnv (env "PIE_RELAY_PORT") 8081;
  config_serviceName := "relay";
  config_admission := loadAdmissionConfig;
  config_limits := {|
    maxFrameBytes :=
      intFromEnv (env "PIE_RELAY_MAX_FRAME_BYTES") (maxFrameBytes DEFAULT_RELAY_LIMITS);
    maxFramesPerSecond :=
      intFromEnv (env "PIE_RELAY_MAX_FRAMES_PER_SECOND") (maxFramesPerSecond DEFAULT_RELAY_LIMITS);
    maxBytesPerSecond :=
      intFromEnv (env "PIE_RELAY_MAX_BYTES_PER_SECOND") (maxBytesPerSecond DEFAULT_RELAY_LIMITS);
    maxQueuedPtyFrames :=
      intFromEnv (env "PIE_RELAY_MAX_QUEUED_PTY_FRAMES") (maxQueuedPtyFrames DEFAULT_RELAY_LIMITS);
    maxQueuedControlFrames :=
      intFromEnv (env "PIE_RELAY_MAX_QUEUED_CONTROL_FRAMES")
        (maxQueuedControlFrames DEFAULT_RELAY_LIMITS);
    sendHighWaterMarkBytes :=
      intFromEnv (env "PIE_RELAY_SEND_HIGH_WATER_MARK_BYTES")
        (sendHighWaterMarkBytes DEFAULT_RELAY_LIMITS);
  |};
|}.
End Config.

(** ** Lemmas *)

Lemma endsWith_pads (l : list Ascii.ascii) (n : nat) c :
  c ≠ pad_char -> (n <= 2)%nat ->
  endsWith (of_chars (l ++ [c] ++ replicate n pad_char)) "==" = (n =? 2)%nat /\
  endsWith (of_chars (l ++ [c] ++ replicate n pad_char)) "=" = negb (n =? 0)%nat.
Proof.
  intros Hc Hn. unfold endsWith. rewrite chars_of_chars, !reverse_app, reverse_replicate.
  change (reverse (chars "==")) with [pad_char; pad_char].
  change (reverse (chars "=")) with [pad_char].
  change (reverse [c]) with [c].
  apply Ascii.eqb_neq in Hc. rewrite Ascii.eqb_sym in Hc.
  destruct n as [|[|[|]]]; [| | |lia];
    cbn [replicate app list_prefixb Nat.eqb negb]; rewrite ?Hc, ?Ascii.eqb_refl; done.
Qed.


Lemma btoa_shape bs :
  bytes_ok bs -> bs ≠ [] ->
  exists l c, c ≠ pad_char /\
    btoa bs = of_chars (l ++ [c] ++ replicate (pad_count (length bs)) pad_char).
Proof.
  intros H Hne. destruct (sextets_last bs H Hne) as (init & v & Heq & Hv).
  exists (map b64_char init), (b64_char v). split; [by apply b64_char_plain|].
  unfold btoa. by rewrite Heq, map_app, <- app_assoc.
Qed.

Lemma length_btoa bs : String.length (btoa bs) = (4 * ((length bs + 2) / 3))%nat.
Proof.
  rewrite <- length_chars, chars_btoa, length_app, length_map, length_replicate.
  apply length_sextets.
Qed.

(** [base64DecodedByteLength] is exact on every canonical encoding: without
    decoding, it returns the number of bytes the payload decodes to. *)
Theorem base64DecodedByteLength_btoa bs :
  bytes_ok bs -> base64DecodedByteLength (btoa bs) = Z.of_nat (length bs).
Proof.
  intros H. destruct (decide (bs = [])) as [->|Hne]; [done|].
  unfold base64DecodedByteLength. rewrite length_btoa.
  destruct (btoa_shape bs H Hne) as (l & c & Hc & ->).
  destruct (endsWith_pads l (pad_count (length bs)) c Hc (pad_count_le _)) as [-> ->].
  assert (0 < length bs)%nat by (destruct bs; simpl; [done|lia]).
  set (n := length bs) in *. set (q := ((n + 2) / 3)%nat).
  assert (Hq : (3 * q = n + pad_count n)%nat).
  { unfold q, pad_count. pose proof (Nat.div_mod_eq n 3).
    pose proof (Nat.mod_upper_bound n 3).
    destruct (n mod 3)%nat as [|[|[|]]] eqn:E; [| | |lia].
    - replace (n + 2)%nat with (2 + (n / 3) * 3)%nat by lia.
      rewrite Nat.div_add, ?(Nat.div_small 0 3), ?(Nat.div_small 1 3), ?(Nat.div_small 2 3) by lia. lia.
    - replace (n + 2)%nat with (0 + (n / 3 + 1) * 3)%nat by lia.
      rewrite Nat.div_add, ?(Nat.div_small 0 3), ?(Nat.div_small 1 3), ?(Nat.div_small 2 3) by lia. lia.
    - replace (n + 2)%nat with (1 + (n / 3 + 1) * 3)%nat by lia.
      rewrite Nat.div_add, ?(Nat.div_small 0 3), ?(Nat.div_small 1 3), ?(Nat.div_small 2 3) by lia. lia. }
  pose proof (pad_count_le n) as Hp. rewrite (proj2 (Z.eqb_neq _ _)) by lia.
  replace (Z.of_nat (4 * q) * 3 / 4) with (Z.of_nat (3 * q)).
  - destruct (pad_count n) as [|[|[|]]]; cbn [Nat.eqb negb]; lia.
  - replace (Z.of_nat (4 * q) * 3) with (Z.of_nat (3 * q) * 4) by lia.
    by rewrite Z.div_mul.
Qed.

Lemma base64DecodedByteLength_btoa_witness :
  bytes_ok [77; 97; 110; 77] /\ base64DecodedByteLength (btoa [77; 97; 110; 77]) = 4.
Proof.
  assert (bytes_ok [77; 97; 110; 77]) by (repeat constructor; unfold byte_ok; lia).
  split; [done|]. apply (base64DecodedByteLength_btoa [77; 97; 110; 77]). done.
Defined.
