(* ===== verification/SendQueue.v ===== *)
(** * The per-consumer send queue of the Relay cell

    Models [consumer-send-queue.ts]: two lanes, control before PTY output,
    dropped-oldest at the lane's bound, drained while the socket's buffer is
    below the high-water mark, one coalesced lag signal per lane and pump. The
    callbacks of [ConsumerSendQueueDeps] act on an environment [E] (the socket),
    which the operations thread. A result [None] is a loop that does not end. *)

From S2P Require Import Prelude RelayWire.

Record QueuedFrame := {
  queued_dir : RelayFrameDirection;
  queued_serialized : string;
  queued_bytes : Z;
}.

Record ConsumerSendQueueDeps (E : Type) := {
  dep_send : string -> E -> E;
  dep_bufferedAmount : E -> Z;
  dep_onLagged : RelayFrameDirection -> Z -> E -> E;
  dep_limits : RelayLimits;
}.
Arguments dep_send {E} _ _ _.
Arguments dep_bufferedAmount {E} _ _.
Arguments dep_onLagged {E} _ _ _ _.
Arguments dep_limits {E} _.

Record ConsumerSendQueue := {
  lane_control : list QueuedFrame;
  lane_pty : list QueuedFrame;
  ptyDropRun : Z;
  controlDropRun : Z;
}.

Definition new_queue : ConsumerSendQueue :=
  {| lane_control := []; lane_pty := []; ptyDropRun := 0; controlDropRun := 0 |}.

Section SendQueue.
Context {E : Type} (deps : ConsumerSendQueueDeps E).
Implicit Types (q : ConsumerSendQueue) (e : E).

Definition flushLagSignals q e : ConsumerSendQueue * E :=
  let '(cRun, e) :=
    if 0 <? controlDropRun q
    then (0, dep_onLagged deps control (controlDropRun q) e) else (controlDropRun q, e) in
  let '(pRun, e) :=
    if 0 <? ptyDropRun q
    then (0, dep_onLagged deps output (ptyDropRun q) e) else (ptyDropRun q, e) in
  ({| lane_control := lane_control q; lane_pty := lane_pty q;
      ptyDropRun := pRun; controlDropRun := cRun |}, e).

(** The [while] of [pump]: [this.control.shift() ?? this.pty.shift()]. *)
Fixpoint pump_loop (fuel : nat) q e : option (ConsumerSendQueue * E) :=
  match fuel with
  | O => None
  | S fuel =>
      if dep_bufferedAmount deps e <? sendHighWaterMarkBytes (dep_limits deps) then
        match lane_control q with
        | next :: rest =>
            pump_loop fuel {| lane_control := rest; lane_pty := lane_pty q;
                              ptyDropRun := ptyDropRun q; controlDropRun := controlDropRun q |}
              (dep_send deps (queued_serialized next) e)
        | [] =>
            match lane_pty q with
            | next :: rest =>
                pump_loop fuel {| lane_control := []; lane_pty := rest;
                                  ptyDropRun := ptyDropRun q; controlDropRun := controlDropRun q |}
                  (dep_send deps (queued_serialized next) e)
            | [] => Some (q, e)
            end
        end
      else Some (q, e)
  end.

Definition pump_fuel q : nat := S (length (lane_control q) + length (lane_pty q)).

Definition pump q e : option (ConsumerSendQueue * E) :=
  '(q, e) ← pump_loop (pump_fuel q) q e;
  Some (flushLagSignals q e).

(** [while (lane.length > bound) { lane.shift(); run += 1 }] *)
Fixpoint drop_oldest (fuel : nat) (bound : Z) (lane : list QueuedFrame) (run : Z)
  : option (list QueuedFrame * Z) :=
  match fuel with
  | O => None
  | S fuel =>
      if bound <? Z.of_nat (length lane)
      then drop_oldest fuel bound (tail lane) (run + 1)
      else Some (lane, run)
  end.

Definition enqueue q (dir : RelayFrameDirection) (serialized : string) (bytes : Z) e
  : option (ConsumerSendQueue * E) :=
  let f := {| queued_dir := dir; queued_serialized := serialized; queued_bytes := bytes |} in
  match dir with
  | control =>
      let lane := lane_control q ++ [f] in
      '(lane, run) ← drop_oldest (S (length lane)) (maxQueuedControlFrames (dep_limits deps))
                       lane (controlDropRun q);
      pump {| lane_control := lane; lane_pty := lane_pty q;
              ptyDropRun := ptyDropRun q; controlDropRun := run |} e
  | output =>
      let lane := lane_pty q ++ [f] in
      '(lane, run) ← drop_oldest (S (length lane)) (maxQueuedPtyFrames (dep_limits deps))
                       lane (ptyDropRun q);
      pump {| lane_control := lane_control q; lane_pty := lane;
              ptyDropRun := run; controlDropRun := controlDropRun q |} e
  end.

(** ** Lemmas *)

(** The environment after sending [fs] in order. *)
Definition send_all (fs : list QueuedFrame) e : E :=
  foldl (fun e f => dep_send deps (queued_serialized f) e) e fs.

(** The lag signals of one pump. *)
Definition signal_lag (dir : RelayFrameDirection) (n : Z) e : E :=
  if 0 <? n then dep_onLagged deps dir n e else e.

Lemma drop_oldest_spec fuel bound lane run :
  0 <= bound -> (length lane < fuel)%nat ->
  exists dropped kept,
    drop_oldest fuel bound lane run = Some (kept, run + Z.of_nat (length dropped)) /\
    lane = dropped ++ kept /\
    Z.of_nat (length kept) <= bound /\
    (dropped ≠ [] -> Z.of_nat (length kept) = bound).
Proof.
  intros Hb. revert lane run; induction fuel as [|fuel IH]; intros lane run Hf; [lia|].
  simpl. destruct (Z.ltb_spec bound (Z.of_nat (length lane))).
  - destruct lane as [|f lane]; simpl in *; [lia|].
    destruct (IH lane (run + 1)) as (dr & kept & -> & -> & Hk & Hm); [lia|].
    exists (f :: dr), kept. split; [f_equal; f_equal; simpl; lia|].
    repeat split; [done|]. intros _. rewrite length_app in *.
    destruct dr; [simpl in *; lia|]. by apply Hm.
  - exists [], lane. simpl. split; [f_equal; f_equal; lia|]. repeat split; [lia|done].
Qed.

Lemma drop_oldest_diverges fuel bound lane run :
  bound < 0 -> drop_oldest fuel bound lane run = None.
Proof.
  intros Hb. revert lane run; induction fuel as [|fuel IH]; intros lane run; [done|].
  simpl. rewrite (proj2 (Z.ltb_lt _ _)) by lia. apply IH.
Qed.

(** One pump sends a prefix of the control lane, then - only once that lane
    is empty - a prefix of the PTY lane, each frame below the mark. *)
Definition pumped q q' e e' (cs ps : list QueuedFrame) : Prop :=
  lane_control q = cs ++ lane_control q' /\
  lane_pty q = ps ++ lane_pty q' /\
  (ps ≠ [] -> lane_control q' = []) /\
  e' = send_all (cs ++ ps) e /\
  (forall k, (k < length (cs ++ ps))%nat ->
     dep_bufferedAmount deps (send_all (take k (cs ++ ps)) e)
     < sendHighWaterMarkBytes (dep_limits deps)) /\
  (lane_control q' = [] /\ lane_pty q' = [] \/
   sendHighWaterMarkBytes (dep_limits deps) <= dep_bufferedAmount deps e').

Lemma pumped_control f q0 q q' e e' cs ps :
  dep_bufferedAmount deps e < sendHighWaterMarkBytes (dep_limits deps) ->
  lane_control q0 = f :: lane_control q -> lane_pty q0 = lane_pty q ->
  pumped q q' (dep_send deps (queued_serialized f) e) e' cs ps ->
  pumped q0 q' e e' (f :: cs) ps.
Proof.
  intros Hlt Hc0 Hp0 (Hc & Hp & Hpc & He & Hk & Hend). unfold pumped.
  rewrite Hc0, Hp0. repeat split; auto; [by rewrite Hc|].
  intros [|k] ?; simpl in *; [exact Hlt|apply Hk; lia].
Qed.

Lemma pumped_pty f q0 q q' e e' cs ps :
  dep_bufferedAmount deps e < sendHighWaterMarkBytes (dep_limits deps) ->
  lane_control q0 = [] -> lane_control q = [] -> lane_pty q0 = f :: lane_pty q ->
  pumped q q' (dep_send deps (queued_serialized f) e) e' cs ps ->
  pumped q0 q' e e' [] (f :: ps).
Proof.
  intros Hlt Hc0 Hcq Hp0 (Hc & Hp & Hpc & He & Hk & Hend). rewrite Hcq in Hc.
  symmetry in Hc. apply app_nil in Hc as [-> Hc]. unfold pumped.
  rewrite Hc0, Hp0. repeat split; auto; [by rewrite Hp|].
  intros [|k] ?; simpl in *; [exact Hlt|apply Hk; lia].
Qed.

Lemma pump_loop_spec fuel q e :
  (length (lane_control q) + length (lane_pty q) < fuel)%nat ->
  exists q' e' cs ps,
    pump_loop fuel q e = Some (q', e') /\ pumped q q' e e' cs ps /\
    ptyDropRun q' = ptyDropRun q /\ controlDropRun q' = controlDropRun q.
Proof.
  revert q e; induction fuel as [|fuel IH]; intros q e Hf; [lia|]. simpl.
  destruct (Z.ltb_spec (dep_bufferedAmount deps e) (sendHighWaterMarkBytes (dep_limits deps)))
    as [Hlt|Hge]; cycle 1.
  { exists q, e, [], []. unfold pumped, send_all. simpl.
    repeat split; auto; intros; done || lia. }
  destruct (lane_control q) as [|c cl] eqn:Hcl; [destruct (lane_pty q) as [|f pl] eqn:Hpl|];
    simpl in *.
  - exists q, e, [], []. unfold pumped, send_all. simpl.
    repeat split; auto; intros; done || lia.
  - edestruct (IH {| lane_control := []; lane_pty := pl; ptyDropRun := ptyDropRun q;
      controlDropRun := controlDropRun q |})
      as (q' & e' & cs & ps & Heq & Hpump & ?); [simpl; lia|].
    exists q', e', [], (f :: ps). split; [exact Heq|]. split; [|done].
    eapply pumped_pty; [exact Hlt|exact Hcl| | |exact Hpump]; done.
  - edestruct (IH {| lane_control := cl; lane_pty := lane_pty q; ptyDropRun := ptyDropRun q;
      controlDropRun := controlDropRun q |})
      as (q' & e' & cs & ps & Heq & Hpump & ?); [simpl; lia|].
    exists q', e', (c :: cs), ps. split; [exact Heq|]. split; [|done].
    eapply pumped_control; [exact Hlt| | |exact Hpump]; done.
Qed.

Lemma flushLagSignals_spec q e :
  0 <= ptyDropRun q -> 0 <= controlDropRun q ->
  flushLagSignals q e =
  ({| lane_control := lane_control q; lane_pty := lane_pty q;
      ptyDropRun := 0; controlDropRun := 0 |},
   signal_lag output (ptyDropRun q) (signal_lag control (controlDropRun q) e)).
Proof.
  intros Hp Hc. unfold flushLagSignals, signal_lag.
  destruct (Z.ltb_spec 0 (controlDropRun q)), (Z.ltb_spec 0 (ptyDropRun q));
    repeat f_equal; lia.
Qed.

Lemma pump_spec q e :
  0 <= ptyDropRun q -> 0 <= controlDropRun q ->
  exists q' e' cs ps,
    pump q e = Some (q', signal_lag output (ptyDropRun q) (signal_lag control (controlDropRun q) e')) /\
    pumped q q' e e' cs ps /\ ptyDropRun q' = 0 /\ controlDropRun q' = 0.
Proof.
  intros Hp Hc. destruct (pump_loop_spec (pump_fuel q) q e) as
    (q' & e' & cs & ps & Heq & Hpump & Hp' & Hc'); [unfold pump_fuel; lia|].
  exists {| lane_control := lane_control q'; lane_pty := lane_pty q';
            ptyDropRun := 0; controlDropRun := 0 |}, e', cs, ps.
  split; [|done]. unfold pump. rewrite Heq. simpl.
  rewrite flushLagSignals_spec by lia. by rewrite Hp', Hc'.
Qed.

(** The invariant between operations: lanes within their bounds, no drop
    waiting to be reported. *)
Definition queue_ok q : Prop :=
  Z.of_nat (length (lane_control q)) <= maxQueuedControlFrames (dep_limits deps) /\
  Z.of_nat (length (lane_pty q)) <= maxQueuedPtyFrames (dep_limits deps) /\
  ptyDropRun q = 0 /\ controlDropRun q = 0.

Definition lanes_of (dir : RelayFrameDirection) (f : QueuedFrame) :
    list QueuedFrame * list QueuedFrame :=
  match dir with control => ([f], []) | output => ([], [f]) end.

(** [enqueue] in one equation: nothing is lost or reordered. Each lane, with
    the new frame at its end, splits into the dropped oldest frames, the sent
    frames and what stays; only the new frame's lane drops; PTY frames are sent
    only when no control frame is left; the drop count is what is signalled. *)
Definition enqueued q dir serialized bytes e (r : ConsumerSendQueue * E) : Prop :=
  let f := {| queued_dir := dir; queued_serialized := serialized; queued_bytes := bytes |} in
  exists q' e' dc dp cs ps,
    r = (q', signal_lag output (Z.of_nat (length dp)) (signal_lag control (Z.of_nat (length dc)) e')) /\
    lane_control q ++ (lanes_of dir f).1 = dc ++ cs ++ lane_control q' /\
    lane_pty q ++ (lanes_of dir f).2 = dp ++ ps ++ lane_pty q' /\
    (dir = output -> dc = []) /\ (dir = control -> dp = []) /\
    (ps ≠ [] -> lane_control q' = []) /\
    e' = send_all (cs ++ ps) e /\
    (lane_control q' = [] /\ lane_pty q' = [] \/
     sendHighWaterMarkBytes (dep_limits deps) <= dep_bufferedAmount deps e') /\
    queue_ok q'.

Lemma enqueue_enqueued q dir serialized bytes e :
  0 <= maxQueuedPtyFrames (dep_limits deps) ->
  0 <= maxQueuedControlFrames (dep_limits deps) ->
  queue_ok q ->
  exists r, enqueue q dir serialized bytes e = Some r /\ enqueued q dir serialized bytes e r.
Proof.
  intros HbP HbC (HlC & HlP & HrP & HrC).
  set (f := {| queued_dir := dir; queued_serialized := serialized; queued_bytes := bytes |}).
  unfold enqueue, enqueued. fold f. destruct dir; cbn [lanes_of fst snd].
  - destruct (drop_oldest_spec (S (length (lane_pty q ++ [f])))
      (maxQueuedPtyFrames (dep_limits deps)) (lane_pty q ++ [f]) (ptyDropRun q))
      as (dr & kept & -> & Hl & Hk & _); [done|lia|].
    cbn [mbind option_bind]. rewrite HrP, Z.add_0_l.
    edestruct (pump_spec {| lane_control := lane_control q; lane_pty := kept;
      ptyDropRun := Z.of_nat (length dr); controlDropRun := controlDropRun q |} e)
      as (q' & e' & cs & ps & -> & (Hc & Hp & Hpc & He & _ & Hend) & ? & ?); simpl in *; [lia..|].
    eexists. split; [done|]. rewrite HrC.
    exists q', e', [], dr, cs, ps. rewrite app_nil_r, Hl, Hp.
    repeat split; auto; try done; unfold queue_ok.
    + apply (f_equal length) in Hc. rewrite length_app in Hc. lia.
    + apply (f_equal length) in Hp. rewrite length_app in Hp. lia.
  - destruct (drop_oldest_spec (S (length (lane_control q ++ [f])))
      (maxQueuedControlFrames (dep_limits deps)) (lane_control q ++ [f]) (controlDropRun q))
      as (dr & kept & -> & Hl & Hk & _); [done|lia|].
    cbn [mbind option_bind]. rewrite HrC, Z.add_0_l.
    edestruct (pump_spec {| lane_control := kept; lane_pty := lane_pty q;
      ptyDropRun := ptyDropRun q; controlDropRun := Z.of_nat (length dr) |} e)
      as (q' & e' & cs & ps & -> & (Hc & Hp & Hpc & He & _ & Hend) & ? & ?); simpl in *; [lia..|].
    eexists. split; [done|]. rewrite HrP.
    exists q', e', dr, [], cs, ps. rewrite app_nil_r, Hl, Hc.
    repeat split; auto; try done; unfold queue_ok.
    + apply (f_equal length) in Hc. rewrite length_app in Hc. lia.
    + apply (f_equal length) in Hp. rewrite length_app in Hp. lia.
Qed.
End SendQueue.

(** ** The queue against an observed socket *)

(** What the queue needs of its callbacks: [send] hands the frame to the
    socket, [onLagged] reports without touching the frames handed over. *)
Class ObservedSocket {E} (deps : ConsumerSendQueueDeps E) := {
  sent : E -> list string;
  lagged : E -> list (RelayFrameDirection * Z);
  sent_send s e : sent (dep_send deps s e) = sent e ++ [s];
  lagged_send s e : lagged (dep_send deps s e) = lagged e;
  sent_onLagged d n e : sent (dep_onLagged deps d n e) = sent e;
  lagged_onLagged d n e : lagged (dep_onLagged deps d n e) = lagged e ++ [(d, n)];
}.

(** The lag report of [n] dropped frames of a lane, if any. *)
Definition lag_report (d : RelayFrameDirection) (n : nat) : list (RelayFrameDirection * Z) :=
  match n with O => [] | _ => [(d, Z.of_nat n)] end.

Section Observed.
Context {E : Type} (deps : ConsumerSendQueueDeps E) `{HO : !ObservedSocket deps}.

Lemma sent_send_all fs e :
  sent (send_all deps fs e) = sent e ++ map queued_serialized fs.
Proof.
  revert e; induction fs as [|f fs IH]; intros e; simpl; [by rewrite app_nil_r|].
  unfold send_all in *. simpl. by rewrite IH, sent_send, <- app_assoc.
Qed.

Lemma lagged_send_all fs e : lagged (send_all deps fs e) = lagged e.
Proof.
  revert e; induction fs as [|f fs IH]; intros e; simpl; [done|].
  unfold send_all in *. simpl. by rewrite IH, lagged_send.
Qed.

Lemma sent_signal_lag d n e : sent (signal_lag deps d n e) = sent e.
Proof. unfold signal_lag. case_match; [apply sent_onLagged|done]. Qed.

Lemma lagged_signal_lag d (n : nat) e :
  lagged (signal_lag deps d (Z.of_nat n) e) = lagged e ++ lag_report d n.
Proof.
  unfold signal_lag, lag_report. destruct n; simpl; [by rewrite app_nil_r|].
  apply lagged_onLagged.
Qed.

(** [enqueue] terminates and conserves frames. Each lane with the new frame at
    its end is exactly: the frames dropped (oldest first), the frames sent, the
    frames still queued. Only the lane of the new frame drops, so an output
    flood costs the control lane nothing; an output frame is sent only once the
    control lane is empty; the socket receives the control frames then the
    output frames; the lag reports carry the numbers dropped; and both lanes
    end within their bounds. *)
Theorem enqueue_conserves q dir serialized bytes e :
  0 <= maxQueuedPtyFrames (dep_limits deps) ->
  0 <= maxQueuedControlFrames (dep_limits deps) ->
  queue_ok deps q ->
  exists q' e' dc dp cs ps,
    enqueue deps q dir serialized bytes e = Some (q', e') /\
    let f := {| queued_dir := dir; queued_serialized := serialized; queued_bytes := bytes |} in
    lane_control q ++ (if decide (dir = control) then [f] else []) = dc ++ cs ++ lane_control q' /\
    lane_pty q ++ (if decide (dir = control) then [] else [f]) = dp ++ ps ++ lane_pty q' /\
    (if decide (dir = control) then dp = [] else dc = []) /\
    (ps ≠ [] -> lane_control q' = []) /\
    sent e' = sent e ++ map queued_serialized (cs ++ ps) /\
    lagged e' = lagged e ++ lag_report control (length dc) ++ lag_report output (length dp) /\
    queue_ok deps q'.
Proof.
  intros HbP HbC Hq. destruct (enqueue_enqueued deps q dir serialized bytes e HbP HbC Hq)
    as (r & Heq & q' & e' & dc & dp & cs & ps & -> & Hc & Hp & Hd1 & Hd2 & Hpc & -> & _ & Hq').
  eexists q', _, dc, dp, cs, ps. split; [exact Heq|]. simpl.
  rewrite !sent_signal_lag, !lagged_signal_lag, sent_send_all, lagged_send_all.
  rewrite <- app_assoc. destruct dir; simpl in *; auto 10.
Qed.

(** A run of the queue: frames arrive and the socket drains in any order. *)
Inductive QueueOp :=
  | OpEnqueue (dir : RelayFrameDirection) (serialized : string) (bytes : Z)
  | OpResume (drained : E -> E).

Definition queue_step (op : QueueOp) (s : ConsumerSendQueue * E) : option (ConsumerSendQueue * E) :=
  match op with
  | OpEnqueue dir serialized bytes => enqueue deps s.1 dir serialized bytes s.2
  | OpResume drained => pump deps s.1 (drained s.2)
  end.

Fixpoint queue_run (ops : list QueueOp) (s : ConsumerSendQueue * E)
  : option (ConsumerSendQueue * E) :=
  match ops with
  | [] => Some s
  | op :: ops => s ← queue_step op s; queue_run ops s
  end.

Lemma pump_queue_ok q e :
  queue_ok deps q -> exists q' e', pump deps q e = Some (q', e') /\ queue_ok deps q'.
Proof.
  intros (HlC & HlP & HrP & HrC).
  destruct (pump_spec deps q e) as (q' & e' & cs & ps & Heq & (Hc & Hp & _) & ? & ?); [lia..|].
  eexists q', _. split; [exact Heq|]. unfold queue_ok. rewrite Hc, length_app in HlC.
  rewrite Hp, length_app in HlP. lia.
Qed.

(** With non-negative bounds every run terminates and memory stays bounded:
    however frames and drains interleave, from the empty queue both lanes are
    within their limits and no drop is left unreported. *)
Theorem queue_run_bounded ops e :
  0 <= maxQueuedPtyFrames (dep_limits deps) ->
  0 <= maxQueuedControlFrames (dep_limits deps) ->
  exists q' e', queue_run ops (new_queue, e) = Some (q', e') /\
    Z.of_nat (length (lane_control q')) <= maxQueuedControlFrames (dep_limits deps) /\
    Z.of_nat (length (lane_pty q')) <= maxQueuedPtyFrames (dep_limits deps) /\
    ptyDropRun q' = 0 /\ controlDropRun q' = 0.
Proof.
  intros HbP HbC. assert (Hq : queue_ok deps new_queue) by (repeat split; done).
  revert Hq e. generalize new_queue. induction ops as [|op ops IH]; intros q Hq e.
  - exists q, e. done.
  - assert (exists q' e', queue_step op (q, e) = Some (q', e') /\ queue_ok deps q')
      as (q' & e' & Hstep & Hq').
    { destruct op as [dir s b|g]; simpl.
      - destruct (enqueue_enqueued deps q dir s b e HbP HbC Hq)
          as ([q' e'] & Heq & ? & ? & ? & ? & ? & ? & [= -> ?] & H). exists x, e'. naive_solver.
      - apply pump_queue_ok, Hq. }
    cbn [queue_run]. rewrite Hstep. by apply IH.
Qed.
End Observed.

(** The drop loop of [enqueue] never ends when the lane's bound is negative:
    no amount of fuel gives it a result, because an empty lane is still longer
    than the bound. [relay-config.ts] accepts such a bound. *)
Theorem negative_bound_hangs {E} (deps : ConsumerSendQueueDeps E) q serialized bytes e :
  maxQueuedPtyFrames (dep_limits deps) < 0 ->
  enqueue deps q output serialized bytes e = None /\
  forall fuel lane run, drop_oldest fuel (maxQueuedPtyFrames (dep_limits deps)) lane run = None.
Proof.
  intros H. split; [|intros; by apply drop_oldest_diverges].
  unfold enqueue. by rewrite drop_oldest_diverges.
Qed.

(** ** A concrete socket, for evaluation *)

Record DemoSocket := {
  demo_sent : list string;
  demo_lagged : list (RelayFrameDirection * Z);
  demo_buffered : Z;
}.

Definition demo_deps (limits : RelayLimits) : ConsumerSendQueueDeps DemoSocket := {|
  dep_send s e := {| demo_sent := demo_sent e ++ [s]; demo_lagged := demo_lagged e;
                     demo_buffered := demo_buffered e + Z.of_nat (String.length s) |};
  dep_bufferedAmount e := demo_buffered e;
  dep_onLagged d n e := {| demo_sent := demo_sent e; demo_lagged := demo_lagged e ++ [(d, n)];
                           demo_buffered := demo_buffered e |};
  dep_limits := limits;
|}.

#[export] Instance demo_observed limits : ObservedSocket (demo_deps limits).
Proof. by refine {| sent := demo_sent; lagged := demo_lagged |}. Defined.

Definition demo_limits (pty high : Z) : RelayLimits := {|
  maxFrameBytes := 100; maxFramesPerSecond := 10; maxBytesPerSecond := 1000;
  maxQueuedPtyFrames := pty; maxQueuedControlFrames := 4; sendHighWaterMarkBytes := high |}.

Definition full_socket : DemoSocket := {| demo_sent := []; demo_lagged := []; demo_buffered := 50 |}.

Lemma enqueue_conserves_witness :
  queue_ok (demo_deps (demo_limits 1 10)) new_queue /\
  exists q' e', enqueue (demo_deps (demo_limits 1 10)) new_queue output "a" 1 full_socket = Some (q', e') /\
    lane_pty q' ≠ [].
Proof.
  assert (Hq : queue_ok (demo_deps (demo_limits 1 10)) new_queue) by (repeat split; done).
  split; [done|].
  destruct (enqueue_conserves (demo_deps (demo_limits 1 10)) new_queue output "a" 1 full_socket)
    as (q' & e' & dc & dp & cs & ps & Heq & _); [done|done|done|].
  exists q', e'. split; [exact Heq|]. vm_compute in Heq. by injection Heq as <- <-.
Defined.

Lemma queue_run_bounded_witness :
  exists q' e',
    queue_run (demo_deps (demo_limits 1 10))
      [OpEnqueue output "a" 1; OpEnqueue output "b" 1; OpEnqueue control "c" 1;
       OpResume (fun e => {| demo_sent := demo_sent e; demo_lagged := demo_lagged e; demo_buffered := 0 |})]
      (new_queue, full_socket) = Some (q', e') /\
    demo_sent e' = ["c"; "b"]%string /\ demo_lagged e' = [(output, 1)] /\ lane_pty q' = [].
Proof.
  destruct (queue_run_bounded (demo_deps (demo_limits 1 10))
    [OpEnqueue output "a" 1; OpEnqueue output "b" 1; OpEnqueue control "c" 1;
     OpResume (fun e => {| demo_sent := demo_sent e; demo_lagged := demo_lagged e; demo_buffered := 0 |})]
    full_socket) as (q' & e' & Heq & _); [done|done|].
  exists q', e'. split; [exact Heq|]. vm_compute in Heq. by injection Heq as <- <-.
Defined.

Lemma negative_bound_hangs_witness :
  enqueue (demo_deps (demo_limits (-1) 10)) new_queue output "a" 1 full_socket = None.
Proof. apply (negative_bound_hangs (demo_deps (demo_limits (-1) 10))). done. Defined.
