(* ===== verification/RateLimiter.v ===== *)
(** * The per-connection rate limiter of the Relay cell

    Models [frame-rate-limiter.ts]: two token buckets, refilled continuously
    from an injected millisecond clock, both checked before either is spent.
    Token counts are exact rationals (the code's doubles without rounding). *)

From Stdlib Require Import QArith Qminmax Lqa.
From S2P Require Import Prelude.
Local Open Scope Z_scope.

Record TokenBucket := {
  capacity : Q;
  refillPerSecond : Q;
  tokens : Q;
  lastRefillMs : Z;
}.

Definition new_bucket (cap refill : Q) (now : Z) : TokenBucket :=
  {| capacity := cap; refillPerSecond := refill; tokens := cap; lastRefillMs := now |}.

Definition with_tokens (b : TokenBucket) (t : Q) (last : Z) : TokenBucket :=
  {| capacity := capacity b; refillPerSecond := refillPerSecond b;
     tokens := t; lastRefillMs := last |}.

Definition refill (b : TokenBucket) (now : Z) : TokenBucket :=
  let elapsedMs := now - lastRefillMs b in
  if elapsedMs <=? 0 then b
  else with_tokens b
    (Qmin (capacity b) (tokens b + (inject_Z elapsedMs / 1000) * refillPerSecond b))%Q now.

(** [available] refills, then compares; the bucket is updated in place. *)
Definition available (b : TokenBucket) (now : Z) (amount : Q) : bool * TokenBucket :=
  let b := refill b now in
  (Qle_bool amount (tokens b), b).

Definition commit (b : TokenBucket) (amount : Q) : TokenBucket :=
  with_tokens b (tokens b - amount)%Q (lastRefillMs b).

Record FrameRateLimiter := { bucket_frames : TokenBucket; bucket_bytes : TokenBucket }.

Definition new_limiter (maxFramesPerSecond maxBytesPerSecond : Z) (now : Z) : FrameRateLimiter :=
  {| bucket_frames := new_bucket (inject_Z maxFramesPerSecond) (inject_Z maxFramesPerSecond) now;
     bucket_bytes := new_bucket (inject_Z maxBytesPerSecond) (inject_Z maxBytesPerSecond) now |}.

Definition allow (l : FrameRateLimiter) (now : Z) (frameBytes : Z) : bool * FrameRateLimiter :=
  let '(frames_ok, fb) := available (bucket_frames l) now 1 in
  if negb frames_ok then (false, {| bucket_frames := fb; bucket_bytes := bucket_bytes l |})
  else
    let '(bytes_ok, bb) := available (bucket_bytes l) now (inject_Z frameBytes) in
    if negb bytes_ok then (false, {| bucket_frames := fb; bucket_bytes := bb |})
    else (true, {| bucket_frames := commit fb 1; bucket_bytes := commit bb (inject_Z frameBytes) |}).

(** ** Runs *)

(** The frames a sequence of [allow(now, bytes)] calls admits. *)
Fixpoint allow_run (l : FrameRateLimiter) (calls : list (Z * Z)) : list Z * FrameRateLimiter :=
  match calls with
  | [] => ([], l)
  | (now, bytes) :: calls =>
      let '(ok, l) := allow l now bytes in
      let '(admitted, l) := allow_run l calls in
      (if ok then bytes :: admitted else admitted, l)
  end.

(** The latest clock reading of a run that starts at [t0]. *)
Definition latest (t0 : Z) (calls : list (Z * Z)) : Z := foldl Z.max t0 (map fst calls).

(** ** Lemmas *)

(** A bucket with nothing owed, within the budget accrued since [t0]. *)
Definition bucket_budget (b : TokenBucket) (t0 : Z) (spent : Q) : Prop :=
  (0 <= tokens b)%Q /\ (0 <= capacity b)%Q /\ (0 <= refillPerSecond b)%Q /\
  (tokens b + spent <= capacity b + (inject_Z (lastRefillMs b - t0) / 1000) * refillPerSecond b)%Q.

Lemma refill_fields b now :
  capacity (refill b now) = capacity b /\ refillPerSecond (refill b now) = refillPerSecond b.
Proof. unfold refill. case_match; done. Qed.

Lemma refill_last b now : lastRefillMs (refill b now) = Z.max (lastRefillMs b) now.
Proof. unfold refill. case_match; bool_to_prop; simpl; lia. Qed.

Lemma accrued_nonneg (d : Z) (r : Q) :
  0 <= d -> (0 <= r)%Q -> (0 <= inject_Z d / 1000 * r)%Q.
Proof.
  intros Hd Hr. apply Qmult_le_0_compat; [|done]. unfold Qdiv.
  apply Qmult_le_0_compat; [|easy].
  change 0%Q with (inject_Z 0). rewrite <- Zle_Qle. lia.
Qed.

Lemma refill_ge b now :
  (0 <= tokens b)%Q -> (tokens b <= capacity b)%Q -> (0 <= refillPerSecond b)%Q ->
  (tokens b <= tokens (refill b now))%Q.
Proof.
  intros Ht Hc Hr. unfold refill. case_match; bool_to_prop; [lra|]. simpl.
  apply Q.min_glb; [done|].
  pose proof (accrued_nonneg (now - lastRefillMs b) _ ltac:(lia) Hr). lra.
Qed.

Lemma inject_Z_sub x y : (inject_Z (x - y) == inject_Z x - inject_Z y)%Q.
Proof. unfold Z.sub, Qminus. by rewrite inject_Z_plus, inject_Z_opp. Qed.

Lemma refill_budget b t0 spent now :
  bucket_budget b t0 spent -> bucket_budget (refill b now) t0 spent.
Proof.
  intros (Ht & Hc & Hr & Hb). unfold refill. case_match; bool_to_prop; [done|].
  pose proof (accrued_nonneg (now - lastRefillMs b) _ ltac:(lia) Hr) as H1.
  unfold bucket_budget. simpl. repeat split; [|done|done|].
  - apply Q.min_glb; lra.
  - eapply Qle_trans; [apply Qplus_le_l, Q.le_min_r|].
    rewrite !inject_Z_sub in *. unfold Qdiv in *. lra.
Qed.

Lemma commit_budget b t0 spent amount :
  bucket_budget b t0 spent -> (amount <= tokens b)%Q ->
  bucket_budget (commit b amount) t0 (spent + amount).
Proof.
  intros (Ht & Hc & Hr & Hb) Ha. unfold bucket_budget, commit. simpl.
  repeat split; lra.
Qed.

Definition limiter_budget (l : FrameRateLimiter) (t0 : Z) (nframes nbytes : Q) : Prop :=
  bucket_budget (bucket_frames l) t0 nframes /\ bucket_budget (bucket_bytes l) t0 nbytes.

Definition limiter_last (l : FrameRateLimiter) : Z :=
  Z.max (lastRefillMs (bucket_frames l)) (lastRefillMs (bucket_bytes l)).

Lemma allow_budget l now bytes t0 nf nb ok l' :
  limiter_budget l t0 nf nb -> allow l now bytes = (ok, l') ->
  limiter_budget l' t0 (if ok then nf + 1 else nf)%Q (if ok then nb + inject_Z bytes else nb)%Q /\
  limiter_last l' <= Z.max (limiter_last l) now /\
  capacity (bucket_frames l') = capacity (bucket_frames l) /\
  capacity (bucket_bytes l') = capacity (bucket_bytes l) /\
  refillPerSecond (bucket_frames l') = refillPerSecond (bucket_frames l) /\
  refillPerSecond (bucket_bytes l') = refillPerSecond (bucket_bytes l).
Proof.
  intros [Hf Hb]. unfold allow, available, limiter_budget, limiter_last.
  pose proof (refill_fields (bucket_frames l) now) as [Hcf Hrf].
  pose proof (refill_fields (bucket_bytes l) now) as [Hcb Hrb].
  pose proof (refill_last (bucket_frames l) now).
  pose proof (refill_last (bucket_bytes l) now).
  destruct (Qle_bool 1 _) eqn:E1; simpl; cycle 1.
  { intros [= <- <-]. simpl. split; [auto using refill_budget|].
    repeat split; auto; lia. }
  destruct (Qle_bool (inject_Z bytes) _) eqn:E2; simpl; intros [= <- <-]; simpl;
    (split; [|repeat split; auto; lia]).
  - apply Qle_bool_iff in E1, E2. split; apply commit_budget; auto using refill_budget.
  - split; auto using refill_budget.
Qed.

Definition sumQ (l : list Z) : Q := inject_Z (sumZ l).

Lemma sumQ_cons x l : (sumQ (x :: l) == inject_Z x + sumQ l)%Q.
Proof. unfold sumQ. simpl. by rewrite inject_Z_plus. Qed.

Lemma length_cons_Q {A} (x : A) l :
  (inject_Z (Z.of_nat (length (x :: l))) == 1 + inject_Z (Z.of_nat (length l)))%Q.
Proof. simpl length. rewrite Nat2Z.inj_succ, <- Z.add_1_l. by rewrite inject_Z_plus. Qed.

#[export] Instance bucket_budget_proper b t0 : Proper (Qeq ==> iff) (bucket_budget b t0).
Proof. intros x y H. unfold bucket_budget. rewrite H. tauto. Qed.

#[export] Instance limiter_budget_proper l t0 :
  Proper (Qeq ==> Qeq ==> iff) (limiter_budget l t0).
Proof. intros x y H x' y' H'. unfold limiter_budget. rewrite H, H'. tauto. Qed.

Lemma allow_run_budget calls l t0 nf nb admitted l' :
  limiter_budget l t0 nf nb -> allow_run l calls = (admitted, l') ->
  limiter_budget l' t0 (nf + inject_Z (Z.of_nat (length admitted))) (nb + sumQ admitted) /\
  limiter_last l' <= Z.max (limiter_last l) (latest t0 calls) /\
  capacity (bucket_frames l') = capacity (bucket_frames l) /\
  capacity (bucket_bytes l') = capacity (bucket_bytes l) /\
  refillPerSecond (bucket_frames l') = refillPerSecond (bucket_frames l) /\
  refillPerSecond (bucket_bytes l') = refillPerSecond (bucket_bytes l).
Proof.
  assert (Hmono : forall (calls : list (Z * Z)) a b, a <= b -> foldl Z.max a (map fst calls) <= foldl Z.max b (map fst calls)).
  { intros cs; induction cs as [|c cs IH]; simpl; intros a b Hab; [done|]. apply IH. lia. }
  assert (Hge : forall (calls : list (Z * Z)) a, a <= foldl Z.max a (map fst calls)).
  { intros cs; induction cs as [|c cs IH]; simpl; intros a; [done|].
    specialize (IH (Z.max a c.1)). lia. }
  revert l nf nb admitted l'; induction calls as [|[now bytes] calls IH];
    intros l nf nb admitted l' Hl; simpl.
  - intros [= <- <-]. change (sumQ []) with 0%Q. cbn [length].
    change (inject_Z (Z.of_nat 0)) with 0%Q. rewrite !Qplus_0_r.
    split; [done|]. repeat split; done || lia.
  - destruct (allow l now bytes) as [ok l1] eqn:E1.
    destruct (allow_run l1 calls) as [adm l2] eqn:E2. intros [= <- <-].
    destruct (allow_budget _ _ _ _ _ _ _ _ Hl E1) as (Hl1 & Hlast1 & ? & ? & ? & ?).
    destruct (IH _ _ _ _ _ Hl1 E2) as (Hl2 & Hlast2 & ? & ? & ? & ?).
    unfold latest in *. simpl.
    pose proof (Hmono calls t0 (Z.max t0 now) ltac:(lia)).
    pose proof (Hge calls (Z.max t0 now)).
    split; [|repeat split; [lia|congruence..]].
    destruct ok; [|exact Hl2]. rewrite length_cons_Q, sumQ_cons, !Qplus_assoc. exact Hl2.
Qed.

Lemma new_limiter_budget maxFrames maxBytes t0 :
  0 <= maxFrames -> 0 <= maxBytes ->
  limiter_budget (new_limiter maxFrames maxBytes t0) t0 0 0.
Proof.
  intros HF HB.
  assert (HF' : (0 <= inject_Z maxFrames)%Q)
    by (change 0%Q with (inject_Z 0); by rewrite <- Zle_Qle).
  assert (HB' : (0 <= inject_Z maxBytes)%Q)
    by (change 0%Q with (inject_Z 0); by rewrite <- Zle_Qle).
  split; unfold bucket_budget; simpl; rewrite Z.sub_diag;
    (repeat split; [done..|change (inject_Z 0) with 0%Q; unfold Qdiv; lra]).
Qed.

Lemma latest_ge t0 calls : t0 <= latest t0 calls.
Proof.
  unfold latest. revert t0. induction calls as [|c cs IH]; simpl; intros t; [done|].
  specialize (IH (Z.max t c.1)). lia.
Qed.

(** A full second of refill fills a bucket whose rate is its capacity. *)
Lemma refill_second b now :
  (0 <= tokens b)%Q -> (0 <= capacity b)%Q -> (refillPerSecond b == capacity b)%Q ->
  lastRefillMs b + 1000 <= now -> (capacity b <= tokens (refill b now))%Q.
Proof.
  intros Ht Hc Hr Hnow. unfold refill. case_match; bool_to_prop; [lia|]. simpl.
  apply Q.min_glb; [lra|]. rewrite Hr.
  assert (1 <= inject_Z (now - lastRefillMs b) / 1000)%Q.
  { apply Qle_shift_div_l; [easy|]. change (1 * 1000)%Q with (inject_Z 1000).
    rewrite <- Zle_Qle. lia. }
  pose proof (Qmult_le_compat_r _ _ _ H0 Hc). lra.
Qed.

(** ** Properties *)

(** The limiter enforces both budgets over every run: whatever the calls and
    however the clock moves (backwards included), the frames admitted number at
    most one capacity plus the rate times the elapsed seconds, and so do the
    bytes admitted. *)
Theorem allow_run_within_budget maxFrames maxBytes t0 calls :
  0 <= maxFrames -> 0 <= maxBytes ->
  let admitted := fst (allow_run (new_limiter maxFrames maxBytes t0) calls) in
  let elapsed := latest t0 calls - t0 in
  1000 * Z.of_nat (length admitted) <= maxFrames * (1000 + elapsed) /\
  1000 * sumZ admitted <= maxBytes * (1000 + elapsed).
Proof.
  intros HF HB. simpl. destruct (allow_run _ calls) as [admitted l'] eqn:E. simpl.
  destruct (allow_run_budget _ _ _ _ _ _ _ (new_limiter_budget _ _ t0 HF HB) E)
    as (([Ht1 [_ [_ Hf]]] & [Ht2 [_ [_ Hb]]]) & Hlast & Hc1 & Hc2 & Hr1 & Hr2).
  rewrite Hc1, Hr1 in Hf. rewrite Hc2, Hr2 in Hb. clear Hc1 Hc2 Hr1 Hr2.
  unfold limiter_last in Hlast. simpl in *.
  pose proof (latest_ge t0 calls) as Hge.
  assert (Hmul : forall x y z : Z, (inject_Z x <= inject_Z z + inject_Z y / 1000 * inject_Z z)%Q ->
                 1000 * x <= z * (1000 + y)).
  { intros x y z H. rewrite Zle_Qle, !inject_Z_mult, inject_Z_plus.
    change (inject_Z 1000) with 1000%Q. unfold Qdiv in H. change (/ 1000)%Q with (1 # 1000)%Q in H.
    lra. }
  split.
  - assert (1000 * Z.of_nat (length admitted) <=
            maxFrames * (1000 + (lastRefillMs (bucket_frames l') - t0))); [|nia].
    apply Hmul. lra.
  - assert (1000 * sumZ admitted <=
            maxBytes * (1000 + (lastRefillMs (bucket_bytes l') - t0))); [|nia].
    apply Hmul. unfold sumQ in Hb. lra.
Qed.

Lemma allow_run_within_budget_witness :
  (fst (allow_run (new_limiter 2 100 0) [(0, 60); (0, 60); (0, 40); (500, 1); (400, 30)]) = [60; 40; 1]) /\
  1000 * 3 <= 2 * (1000 + 500).
Proof.
  split; [vm_compute; reflexivity|].
  exact (proj1 (allow_run_within_budget 2 100 0 [(0, 60); (0, 60); (0, 40); (500, 1); (400, 30)]
    ltac:(lia) ltac:(lia))).
Defined.

(** No connection is locked out: after any run, once the clock has moved a full
    second past its latest reading, a frame within the capacities is admitted. *)
Theorem allow_after_idle_second maxFrames maxBytes t0 calls now bytes :
  1 <= maxFrames -> 0 <= bytes <= maxBytes -> latest t0 calls + 1000 <= now ->
  fst (allow (snd (allow_run (new_limiter maxFrames maxBytes t0) calls)) now bytes) = true.
Proof.
  intros HF HB Hnow. destruct (allow_run _ calls) as [admitted l'] eqn:E. simpl.
  destruct (allow_run_budget _ _ _ _ _ _ _
    (new_limiter_budget maxFrames maxBytes t0 ltac:(lia) ltac:(lia)) E)
    as (([Ht1 [Hp1 _]] & [Ht2 [Hp2 _]]) & Hlast & Hc1 & Hc2 & Hr1 & Hr2).
  unfold limiter_last in Hlast. pose proof (latest_ge t0 calls). simpl in *.
  assert (H1 : (1 <= inject_Z maxFrames)%Q).
  { change 1%Q with (inject_Z 1). by rewrite <- Zle_Qle. }
  assert (H2 : (inject_Z bytes <= inject_Z maxBytes)%Q) by (rewrite <- Zle_Qle; lia).
  assert (Hf : (capacity (bucket_frames l') <= tokens (refill (bucket_frames l') now))%Q).
  { apply refill_second; [done|done|by rewrite Hr1, Hc1|lia]. }
  assert (Hb : (capacity (bucket_bytes l') <= tokens (refill (bucket_bytes l') now))%Q).
  { apply refill_second; [done|done|by rewrite Hr2, Hc2|lia]. }
  rewrite Hc1 in Hf. rewrite Hc2 in Hb. unfold allow, available.
  rewrite (proj2 (Qle_bool_iff _ _)) by lra. simpl.
  by rewrite (proj2 (Qle_bool_iff _ _)) by lra.
Qed.

Lemma allow_after_idle_second_witness :
  latest 0 [(0, 100); (0, 100)] + 1000 <= 1000 /\
  fst (allow (snd (allow_run (new_limiter 2 100 0) [(0, 100); (0, 100)])) 1000 100) = true.
Proof.
  split; [vm_compute; congruence|].
  apply (allow_after_idle_second 2 100 0 [(0, 100); (0, 100)] 1000 100); [lia|lia|vm_compute; congruence].
Defined.
