(* ===== verification/RelayRoom.v ===== *)
(** * Rooms of the Relay cell: members, routing, the registry

    Models [relay-room.ts]. Rooms are objects that a connection keeps a reference
    to after the registry has dropped them, so they live in a heap and the
    registry maps keys to references. Sockets are an abstract world [W] with the
    operations of [relay-socket.ts]'s [RelaySocket]. *)

From S2P Require Import Prelude JsMap RelayWire SendQueue.
Local Open Scope Z_scope.

Abbreviation sockid := nat.
Abbreviation roomref := nat.

(** [RelaySocket]: the transport surface a connection owns. *)
Record RelaySocket (W : Type) := {
  socket_send : sockid -> string -> W -> W;
  socket_close : sockid -> Z -> string -> W -> W;
  socket_bufferedAmount : sockid -> W -> Z;
}.
Arguments socket_send {W} _ _ _ _.
Arguments socket_close {W} _ _ _ _ _.
Arguments socket_bufferedAmount {W} _ _ _.

(** The structured audit lines of [RelayLogger]. *)
Inductive AuditEvent :=
  | control_frame_rejected (sessionId streamId participantId : string) (role : RelayRole)
  | audit_admission_denied (sessionId streamId : string)
  | audit_joined (sessionId streamId participantId : string) (role : RelayRole)
  | audit_left (sessionId streamId connectionId : string).

Record RoomMember := {
  connectionId : string;
  participantId : string;
  member_role : RelayRole;
  member_socket : sockid;
  member_streamId : string;
  member_queue : ConsumerSendQueue;
}.

Definition with_queue (m : RoomMember) (q : ConsumerSendQueue) : RoomMember :=
  {| connectionId := connectionId m; participantId := participantId m;
     member_role := member_role m; member_socket := member_socket m;
     member_streamId := member_streamId m; member_queue := q |}.

Definition new_RoomMember (connId partId : string) (role : RelayRole) (sock : sockid)
    (streamId : string) : RoomMember :=
  {| connectionId := connId; participantId := partId; member_role := role;
     member_socket := sock; member_streamId := streamId; member_queue := new_queue |}.

Record RelayRoom := {
  room_sessionId : string;
  room_streamId : string;
  room_members : jsmap string RoomMember;
}.

Definition with_members (r : RelayRoom) (ms : jsmap string RoomMember) : RelayRoom :=
  {| room_sessionId := room_sessionId r; room_streamId := room_streamId r; room_members := ms |}.

Inductive FrameRoutingOutcome :=
  | Delivered (recipients : Z)
  | Forbidden_control.

Definition room_add (r : RelayRoom) (m : RoomMember) : RelayRoom :=
  with_members r (<[connectionId m := m]> (room_members r)).
Definition room_remove (r : RelayRoom) (connId : string) : RelayRoom :=
  with_members r (delete connId (room_members r)).
Definition room_size (r : RelayRoom) : Z := jm_size (room_members r).

Section Routing.
Context {W : Type} (sockets : RelaySocket W) (limits : RelayLimits).

(** The queue's callbacks as [RoomMember]'s constructor wires them: frames and
    lag signals go to the member's own socket. *)
Definition member_deps (m : RoomMember) : ConsumerSendQueueDeps W := {|
  dep_send serialized w := socket_send sockets (member_socket m) serialized w;
  dep_bufferedAmount w := socket_bufferedAmount sockets (member_socket m) w;
  dep_onLagged dir droppedFrames w :=
    socket_send sockets (member_socket m)
      (stringify (stream_lagged (member_streamId m) droppedFrames dir)) w;
  dep_limits := limits;
|}.

Definition enqueueForward (m : RoomMember) (dir : RelayFrameDirection) (serialized : string)
    (bytes : Z) (w : W) : option (RoomMember * W) :=
  '(q, w) ← enqueue (member_deps m) (member_queue m) dir serialized bytes w;
  Some (with_queue m q, w).

Definition resumeDrain (m : RoomMember) (w : W) : option (RoomMember * W) :=
  '(q, w) ← pump (member_deps m) (member_queue m) w;
  Some (with_queue m q, w).

(** The loop of [route] over [this.members.values()]. *)
Fixpoint forward (senderId : string) (dir : RelayFrameDirection) (serialized : string)
    (bytes : Z) (ms : list (string * RoomMember)) (w : W)
    : option (list (string * RoomMember) * W * Z) :=
  match ms with
  | [] => Some ([], w, 0)
  | (k, m) :: ms =>
      if String.eqb (connectionId m) senderId then
        '(ms, w, n) ← forward senderId dir serialized bytes ms w;
        Some ((k, m) :: ms, w, n)
      else
        '(m, w) ← enqueueForward m dir serialized bytes w;
        '(ms, w, n) ← forward senderId dir serialized bytes ms w;
        Some ((k, m) :: ms, w, n + 1)
  end.

(** The outbound frame: the routing envelope, the payload verbatim, and the
    sender as the relay authenticated it. *)
Definition stamped (sender : RoomMember) (f : RelayFrameInboundMessage) : RelayOutboundMessage :=
  frame (frame_streamId f) (frame_seq f) (frame_dir f) (frame_payload f)
    {| sender_participantId := participantId sender; sender_role := member_role sender |}.

Definition route (r : RelayRoom) (sender : RoomMember) (f : RelayFrameInboundMessage)
    (w : W) (audit : list AuditEvent)
    : option (FrameRoutingOutcome * RelayRoom * W * list AuditEvent) :=
  if bool_decide (frame_dir f = control) && bool_decide (member_role sender ≠ driver) then
    Some (Forbidden_control, r, w,
          audit ++ [control_frame_rejected (room_sessionId r) (room_streamId r)
                      (participantId sender) (member_role sender)])
  else
    let serialized := stringify (stamped sender f) in
    let bytes := base64DecodedByteLength (frame_payload f) in
    '(ms, w, recipients) ←
      forward (connectionId sender) (frame_dir f) serialized bytes
        (jm_entries (room_members r)) w;
    Some (Delivered recipients, with_members r (JsMap ms), w, audit).
End Routing.

(** ** The registry *)

Record RelayRoomRegistry := {
  registry_rooms : jsmap string roomref;
  registry_heap : gmap roomref RelayRoom;
  registry_next : roomref;
}.

Definition new_registry : RelayRoomRegistry :=
  {| registry_rooms := ∅; registry_heap := ∅; registry_next := 0%nat |}.

Definition registry_key (sessionId streamId : string) : string :=
  sessionId +:+ nul +:+ streamId.

Definition update_room (reg : RelayRoomRegistry) (ref : roomref) (r : RelayRoom)
    : RelayRoomRegistry :=
  {| registry_rooms := registry_rooms reg; registry_heap := <[ref := r]> (registry_heap reg);
     registry_next := registry_next reg |}.

Definition registry_join (reg : RelayRoomRegistry) (sessionId streamId : string) (m : RoomMember)
    : RelayRoomRegistry * roomref :=
  let key := registry_key sessionId streamId in
  let '(reg, ref) :=
    match registry_rooms reg !! key with
    | Some ref => (reg, ref)
    | None =>
        let ref := registry_next reg in
        ({| registry_rooms := <[key := ref]> (registry_rooms reg);
            registry_heap := <[ref := {| room_sessionId := sessionId; room_streamId := streamId;
                                         room_members := ∅ |}]> (registry_heap reg);
            registry_next := S ref |}, ref)
    end in
  match registry_heap reg !! ref with
  | Some room => (update_room reg ref (room_add room m), ref)
  | None => (reg, ref)
  end.

Definition registry_leave (reg : RelayRoomRegistry) (sessionId streamId connId : string)
    : RelayRoomRegistry :=
  let key := registry_key sessionId streamId in
  match registry_rooms reg !! key with
  | None => reg
  | Some ref =>
      match registry_heap reg !! ref with
      | None => reg
      | Some room =>
          let room := room_remove room connId in
          let reg := update_room reg ref room in
          if room_size room =? 0 then
            {| registry_rooms := delete key (registry_rooms reg);
               registry_heap := registry_heap reg; registry_next := registry_next reg |}
          else reg
      end
  end.

Definition roomCount (reg : RelayRoomRegistry) : Z := jm_size (registry_rooms reg).
Definition hasRoom (reg : RelayRoomRegistry) (sessionId streamId : string) : bool :=
  jm_has (registry_key sessionId streamId) (registry_rooms reg).

(** ** Invariant and lemmas *)

Definition room_ok (r : RelayRoom) : Prop :=
  jm_wf (room_members r) /\
  (forall k m, room_members r !! k = Some m -> connectionId m = k).

(** Registered rooms are live, non-empty, stored under one key each. *)
Record registry_ok (reg : RelayRoomRegistry) : Prop := {
  ok_fresh ref : is_Some (registry_heap reg !! ref) -> (ref < registry_next reg)%nat;
  ok_live key ref : registry_rooms reg !! key = Some ref ->
    exists room, registry_heap reg !! ref = Some room /\ room_size room ≠ 0 /\
      registry_key (room_sessionId room) (room_streamId room) = key;
  ok_rooms ref room : registry_heap reg !! ref = Some room -> room_ok room;
  ok_inj key key' ref : registry_rooms reg !! key = Some ref ->
    registry_rooms reg !! key' = Some ref -> key = key';
  ok_wf : jm_wf (registry_rooms reg);
}.

(** What the registry stands for: for every key, the members of its room. *)
Definition registry_view (reg : RelayRoomRegistry) (key connId : string) : option RoomMember :=
  ref ← registry_rooms reg !! key;
  room ← registry_heap reg !! ref;
  room_members room !! connId.

Lemma room_add_ok r m : room_ok r -> room_ok (room_add r m).
Proof.
  intros [Hwf Hk]. split; simpl; [auto with pie|].
  intros k m'. rewrite jm_lookup_insert. case_decide; [congruence|auto].
Qed.

Lemma room_remove_ok r c : room_ok r -> room_ok (room_remove r c).
Proof.
  intros [Hwf Hk]. split; simpl; [auto with pie|].
  intros k m'. rewrite jm_lookup_delete. case_decide; [done|auto].
Qed.

Lemma room_add_size r m : room_size (room_add r m) ≠ 0.
Proof.
  unfold room_size. pose proof (jm_size_pos (room_members (room_add r m)) (connectionId m) m).
  simpl in *. rewrite jm_lookup_insert_eq in H. specialize (H eq_refl). lia.
Qed.

Lemma empty_room_ok s st :
  room_ok {| room_sessionId := s; room_streamId := st; room_members := ∅ |}.
Proof. split; simpl; [auto with pie|done]. Qed.

Lemma new_registry_ok : registry_ok new_registry.
Proof. split; simpl; try done; [intros ref [? H]; done|auto with pie]. Qed.
#[export] Hint Resolve room_add_ok room_remove_ok empty_room_ok new_registry_ok : pie.

Lemma update_room_ok reg ref room room' :
  registry_ok reg -> registry_heap reg !! ref = Some room -> room_ok room' ->
  (room_size room ≠ 0 -> room_size room' ≠ 0) -> room_sessionId room' = room_sessionId room ->
  room_streamId room' = room_streamId room ->
  registry_ok (update_room reg ref room').
Proof.
  intros Hok Hr Hr' Hsz Hs Hst. split; simpl.
  - intros ref'. rewrite lookup_insert. case_decide; subst; intros Hx.
    + apply (ok_fresh reg Hok). eauto.
    + by apply (ok_fresh reg Hok).
  - intros key ref' Hk. destruct (ok_live reg Hok key ref' Hk) as (room0 & Hh & Hz & Hkey).
    rewrite lookup_insert. case_decide; subst; [|by eauto].
    simplify_eq. exists room'. rewrite Hs, Hst. auto.
  - intros ref' room0. rewrite lookup_insert. case_decide; [intros; by simplify_eq|].
    apply (ok_rooms reg Hok).
  - apply (ok_inj reg Hok).
  - apply (ok_wf reg Hok).
Qed.

Lemma registry_join_ok reg s st m :
  registry_ok reg -> registry_ok (registry_join reg s st m).1.
Proof.
  intros Hok. unfold registry_join.
  destruct (registry_rooms reg !! registry_key s st) as [ref|] eqn:Hkey.
  - destruct (ok_live reg Hok _ _ Hkey) as (room & Hh & _ & _). rewrite Hh. simpl.
    eapply update_room_ok; eauto using room_add_size, room_add_ok, ok_rooms.
  - cbn [registry_heap]. rewrite lookup_insert_eq. simpl.
    assert (Hnew : registry_heap reg !! registry_next reg = None).
    { destruct (registry_heap reg !! registry_next reg) eqn:E; [|done].
      assert (registry_next reg < registry_next reg)%nat by (apply (ok_fresh reg Hok); eauto). lia. }
    unfold update_room. simpl. rewrite insert_insert_eq. split; simpl.
    + intros ref. rewrite lookup_insert. case_decide; [intros; lia|].
      intros H1. apply (ok_fresh reg Hok) in H1. lia.
    + intros key ref. rewrite jm_lookup_insert. case_decide; [intros [= <-]; subst|].
      * rewrite lookup_insert_eq. eexists. split; [done|]. split; [apply room_add_size|done].
      * intros H1. destruct (ok_live reg Hok _ _ H1) as (room & Hh & ?).
        rewrite lookup_insert_ne by congruence. eauto.
    + intros ref room. rewrite lookup_insert. case_decide; [intros [= <-]|apply (ok_rooms reg Hok)].
      apply room_add_ok, empty_room_ok.
    + intros k k' ref. rewrite !jm_lookup_insert. repeat case_decide; intros H1 H2; subst; try done.
      * simplify_eq. destruct (ok_live reg Hok _ _ H2) as (room & Hh & _). congruence.
      * simplify_eq. destruct (ok_live reg Hok _ _ H1) as (room & Hh & _). congruence.
      * by eapply (ok_inj reg Hok).
    + auto using ok_wf with pie.
Qed.

Lemma registry_leave_ok reg s st c :
  registry_ok reg -> registry_ok (registry_leave reg s st c).
Proof.
  intros Hok. unfold registry_leave.
  destruct (registry_rooms reg !! registry_key s st) as [ref|] eqn:Hkey; [|done].
  destruct (ok_live reg Hok _ _ Hkey) as (room & Hh & _ & _). rewrite Hh.
  destruct (Z.eqb_spec (room_size (room_remove room c)) 0) as [Hz|Hz].
  - split; simpl.
    + intros ref'. rewrite lookup_insert. case_decide; subst; intros; apply (ok_fresh reg Hok); eauto.
    + intros k ref'. rewrite jm_lookup_delete. case_decide; [done|]. intros H1.
      destruct (ok_live reg Hok _ _ H1) as (room' & Hh' & ?). exists room'.
      rewrite lookup_insert_ne; [done|]. intros <-. pose proof (ok_inj reg Hok _ _ _ Hkey H1). done.
    + intros ref' room'. rewrite lookup_insert. case_decide; [intros [= <-]|apply (ok_rooms reg Hok)].
      eapply room_remove_ok, ok_rooms; eauto.
    + intros k k' ref'. rewrite !jm_lookup_delete. repeat case_decide; [done..|]. apply (ok_inj reg Hok).
    + auto using ok_wf with pie.
  - eapply update_room_ok; eauto using room_remove_ok, ok_rooms.
Qed.
#[export] Hint Resolve registry_join_ok registry_leave_ok : pie.

(** What joining and leaving do to the heap: one room changes. *)
Lemma registry_join_heap reg s st m :
  registry_ok reg ->
  exists ref room0,
    registry_heap (registry_join reg s st m).1 = <[ref := room_add room0 m]> (registry_heap reg) /\
    (registry_join reg s st m).2 = ref /\
    (registry_heap reg !! ref = Some room0 \/ jm_values (room_members room0) = []).
Proof.
  intros Hok. unfold registry_join.
  destruct (registry_rooms reg !! registry_key s st) as [ref|] eqn:Hkey.
  - destruct (ok_live reg Hok _ _ Hkey) as (room & Hh & _ & _). rewrite Hh.
    exists ref, room. auto.
  - cbn [registry_heap]. rewrite lookup_insert_eq. simpl. rewrite insert_insert_eq.
    eexists _, _. split_and!; [done|done|by right].
Qed.

Lemma registry_leave_heap reg s st c :
  registry_heap (registry_leave reg s st c) = registry_heap reg \/
  exists ref room, registry_heap reg !! ref = Some room /\
    registry_heap (registry_leave reg s st c) = <[ref := room_remove room c]> (registry_heap reg).
Proof.
  unfold registry_leave. destruct (registry_rooms reg !! _) as [ref|]; [|by left].
  destruct (registry_heap reg !! ref) as [room|] eqn:Hh; [|by left].
  right. exists ref, room. case_match; auto.
Qed.

(** ** Refinement: the registry as a map from key and connection to member *)

Definition view : Type := string -> string -> option RoomMember.

Inductive RegistryOp :=
  | OpJoin (sessionId streamId : string) (m : RoomMember)
  | OpLeave (sessionId streamId connId : string).

Definition registry_op (op : RegistryOp) (reg : RelayRoomRegistry) : RelayRoomRegistry :=
  match op with
  | OpJoin s st m => (registry_join reg s st m).1
  | OpLeave s st c => registry_leave reg s st c
  end.

(** The specification: joining sets one cell, leaving clears one. *)
Definition view_op (op : RegistryOp) (v : view) : view := fun key c =>
  match op with
  | OpJoin s st m =>
      if decide (key = registry_key s st /\ c = connectionId m) then Some m else v key c
  | OpLeave s st c' =>
      if decide (key = registry_key s st /\ c = c') then None else v key c
  end.

Lemma registry_view_live reg key ref room c :
  registry_rooms reg !! key = Some ref -> registry_heap reg !! ref = Some room ->
  registry_view reg key c = room_members room !! c.
Proof. intros H1 H2. unfold registry_view. rewrite H1. simpl. by rewrite H2. Qed.

Lemma registry_view_absent reg key c :
  registry_rooms reg !! key = None -> registry_view reg key c = None.
Proof. intros H1. unfold registry_view. by rewrite H1. Qed.

Lemma registry_view_update reg key0 ref room room' key c :
  registry_ok reg -> registry_rooms reg !! key0 = Some ref ->
  registry_heap reg !! ref = Some room ->
  registry_view (update_room reg ref room') key c =
  if decide (key = key0) then room_members room' !! c else registry_view reg key c.
Proof.
  intros Hok Hk Hr. unfold registry_view, update_room. simpl.
  destruct (registry_rooms reg !! key) as [ref'|] eqn:E; simpl.
  - rewrite lookup_insert. case_decide; subst.
    + rewrite decide_True; [done|]. by eapply (ok_inj reg Hok).
    + rewrite decide_False; [done|]. intros ->. congruence.
  - rewrite decide_False; [done|]. intros ->. congruence.
Qed.

(** Changing the members' queues of any room changes nobody's membership. *)
Lemma registry_view_queues reg ref room room' key c :
  registry_ok reg -> registry_heap reg !! ref = Some room ->
  (forall c, is_Some (room_members room' !! c) <-> is_Some (room_members room !! c)) ->
  is_Some (registry_view (update_room reg ref room') key c) <-> is_Some (registry_view reg key c).
Proof.
  intros Hok Hr Hsame. unfold registry_view, update_room. simpl.
  destruct (registry_rooms reg !! key) as [ref'|] eqn:E; simpl; [|done].
  rewrite lookup_insert. case_decide; subst; [|done]. rewrite Hr. simpl. apply Hsame.
Qed.

Lemma registry_join_view reg s st m key c :
  registry_ok reg ->
  registry_view (registry_join reg s st m).1 key c = view_op (OpJoin s st m) (registry_view reg) key c.
Proof.
  intros Hok. unfold registry_join, view_op.
  destruct (registry_rooms reg !! registry_key s st) as [ref|] eqn:Hkey.
  - destruct (ok_live reg Hok _ _ Hkey) as (room & Hh & _ & _). rewrite Hh. simpl fst.
    erewrite registry_view_update by done. simpl. rewrite jm_lookup_insert.
    repeat case_decide; try naive_solver.
    subst. symmetry. by apply registry_view_live with ref.
  - cbn [registry_heap]. rewrite lookup_insert_eq. unfold registry_view, update_room. simpl.
    rewrite insert_insert_eq, jm_lookup_insert.
    destruct (decide (registry_key s st = key)) as [<-|Hne]; simpl.
    + rewrite lookup_insert_eq. simpl. rewrite jm_lookup_insert, Hkey. simpl.
      repeat case_decide; naive_solver.
    + rewrite decide_False by naive_solver.
      destruct (registry_rooms reg !! key) as [ref|] eqn:E; [|done]. simpl.
      destruct (ok_live reg Hok _ _ E) as (room & Hh & _).
      rewrite lookup_insert_ne; [done|]. intros <-.
      assert (registry_next reg < registry_next reg)%nat by (apply (ok_fresh reg Hok); eauto). lia.
Qed.

Lemma registry_leave_view reg s st c' key c :
  registry_ok reg ->
  registry_view (registry_leave reg s st c') key c = view_op (OpLeave s st c') (registry_view reg) key c.
Proof.
  intros Hok. unfold registry_leave, view_op.
  destruct (registry_rooms reg !! registry_key s st) as [ref|] eqn:Hkey; cycle 1.
  { case_decide; [|done]. destruct_and!; subst. by apply registry_view_absent. }
  destruct (ok_live reg Hok _ _ Hkey) as (room & Hh & _ & _). rewrite Hh.
  destruct (Z.eqb_spec (room_size (room_remove room c')) 0) as [Hz|Hz].
  - unfold registry_view at 1. simpl. rewrite jm_lookup_delete. case_decide; simpl.
    + subst. case_decide; [done|].
      erewrite registry_view_live by done. symmetry. eapply jm_size_delete_zero; [|exact Hz|naive_solver].
      apply (ok_rooms reg Hok _ _ Hh).
    + rewrite decide_False by naive_solver. change (registry_view (update_room reg ref (room_remove room c')) key c = registry_view reg key c).
      erewrite registry_view_update by done. by rewrite decide_False by naive_solver.
  - erewrite registry_view_update by done. simpl. rewrite jm_lookup_delete.
    repeat case_decide; try naive_solver.
    subst. symmetry. by apply registry_view_live with ref.
Qed.

(** A room is registered exactly when the view has a member for its key. *)
Lemma hasRoom_view reg s st :
  registry_ok reg ->
  hasRoom reg s st = true <-> exists c, is_Some (registry_view reg (registry_key s st) c).
Proof.
  intros Hok. unfold hasRoom, jm_has. destruct (registry_rooms reg !! _) as [ref|] eqn:Hkey.
  - split; [intros _|done]. destruct (ok_live reg Hok _ _ Hkey) as (room & Hh & Hz & _).
    destruct (room_members room) as [[|[c m] l]] eqn:E; [unfold room_size in Hz; by rewrite E in Hz|].
    exists c. erewrite registry_view_live by done. rewrite E.
    unfold lookup, jm_lookup. simpl. by rewrite decide_True.
  - split; [done|]. intros [c [m H]]. by rewrite registry_view_absent in H.
Qed.

(** The registry refines its specification over every sequence of joins and
    leaves from the empty registry: for each (session, stream) key and each
    connection it holds exactly the member the specification holds (so a join in
    one room and a leave in another never interfere), and a room is registered
    if and only if some member is left in it - the garbage collection neither
    keeps an empty room nor drops an occupied one. *)
Theorem registry_refines_view ops :
  let reg := foldl (fun r op => registry_op op r) new_registry ops in
  let v := foldl (fun v op => view_op op v) (fun _ _ => None) ops in
  (forall key c, registry_view reg key c = v key c) /\
  (forall s st, hasRoom reg s st = true <-> exists c, is_Some (v (registry_key s st) c)).
Proof.
  simpl. set (reg0 := new_registry). set (v0 := fun _ _ => None).
  assert (H0 : registry_ok reg0 /\ forall key c, registry_view reg0 key c = v0 key c)
    by (split; [apply new_registry_ok|done]).
  clearbody reg0 v0. revert reg0 v0 H0. induction ops as [|op ops IH]; intros reg v [Hok Hv]; simpl.
  - split; [done|]. intros s st. rewrite hasRoom_view by done. by setoid_rewrite Hv.
  - apply IH. split; [destruct op; simpl; auto with pie|]. intros key c.
    destruct op as [s st m|s st c']; simpl.
    + rewrite registry_join_view by done. simpl. by rewrite Hv.
    + rewrite registry_leave_view by done. simpl. by rewrite Hv.
Qed.

(** ** Routing *)

(** What the cell relies on of its sockets: a send reaches the log of its own
    socket only, and fills only its own buffer. *)
Class SocketLaws {W} (sockets : RelaySocket W) := {
  socket_log : sockid -> W -> list string;
  log_send_eq s x w : socket_log s (socket_send sockets s x w) = socket_log s w ++ [x];
  log_send_ne s s' x w : s ≠ s' -> socket_log s (socket_send sockets s' x w) = socket_log s w;
  buffered_send_ne s s' x w : s ≠ s' ->
    socket_bufferedAmount sockets s (socket_send sockets s' x w) = socket_bufferedAmount sockets s w;
  log_close s s' code reason w : socket_log s (socket_close sockets s' code reason w) = socket_log s w;
  buffered_close_ne s s' code reason w : s ≠ s' ->
    socket_bufferedAmount sockets s (socket_close sockets s' code reason w) =
    socket_bufferedAmount sockets s w;
}.

Section RouteSpec.
Context {W : Type} (sockets : RelaySocket W) `{HL : !SocketLaws sockets} (limits : RelayLimits).

(** Socket [s] sees no difference between the two worlds. *)
Definition untouched (s : sockid) (w w' : W) : Prop :=
  socket_log s w' = socket_log s w /\
  socket_bufferedAmount sockets s w' = socket_bufferedAmount sockets s w.

Lemma untouched_refl s w : untouched s w w.
Proof. done. Qed.
Lemma untouched_trans s w1 w2 w3 : untouched s w1 w2 -> untouched s w2 w3 -> untouched s w1 w3.
Proof. unfold untouched. intros [-> ->] [-> ->]. done. Qed.

Lemma untouched_send s s' x w : s ≠ s' -> untouched s w (socket_send sockets s' x w).
Proof. intros H. split; [by apply log_send_ne|by apply buffered_send_ne]. Qed.

Lemma untouched_close s s' code reason w :
  s ≠ s' -> untouched s w (socket_close sockets s' code reason w).
Proof. intros H. split; [apply log_close|by apply buffered_close_ne]. Qed.

(** The text of a lag report, if anything was dropped. *)
Definition lag_texts (m : RoomMember) (dir : RelayFrameDirection) (n : nat) : list string :=
  match n with
  | O => []
  | _ => [stringify (stream_lagged (member_streamId m) (Z.of_nat n) dir)]
  end.

Lemma log_send_all m fs w :
  socket_log (member_socket m) (send_all (member_deps sockets limits m) fs w) =
  socket_log (member_socket m) w ++ map queued_serialized fs.
Proof.
  unfold send_all. revert w; induction fs as [|f fs IH]; intros w; simpl; [by rewrite app_nil_r|].
  by rewrite IH, log_send_eq, <- app_assoc.
Qed.

Lemma untouched_send_all s m fs w :
  s ≠ member_socket m -> untouched s w (send_all (member_deps sockets limits m) fs w).
Proof.
  intros Hs. unfold send_all. revert w; induction fs as [|f fs IH]; intros w; simpl; [done|].
  eapply untouched_trans; [|apply IH]. by apply untouched_send.
Qed.

Lemma log_signal_lag m dir (n : nat) w :
  socket_log (member_socket m) (signal_lag (member_deps sockets limits m) dir (Z.of_nat n) w) =
  socket_log (member_socket m) w ++ lag_texts m dir n.
Proof.
  unfold signal_lag, lag_texts. destruct n; simpl; [by rewrite app_nil_r|apply log_send_eq].
Qed.

Lemma untouched_signal_lag s m dir n w :
  s ≠ member_socket m -> untouched s w (signal_lag (member_deps sockets limits m) dir n w).
Proof. intros Hs. unfold signal_lag. case_match; [by apply untouched_send|done]. Qed.

(** What one recipient experiences: its lanes with the frame at the end are the
    frames dropped, sent and kept, and its socket gets the sent frames and the
    lag reports. *)
Definition forwarded (dir : RelayFrameDirection) (serialized : string) (bytes : Z)
    (m m' : RoomMember) (w w' : W) : Prop :=
  let f := {| queued_dir := dir; queued_serialized := serialized; queued_bytes := bytes |} in
  exists q' dc dp cs ps,
    m' = with_queue m q' /\ queue_ok (member_deps sockets limits m) q' /\
    lane_control (member_queue m) ++ (lanes_of dir f).1 = dc ++ cs ++ lane_control q' /\
    lane_pty (member_queue m) ++ (lanes_of dir f).2 = dp ++ ps ++ lane_pty q' /\
    (dir = output -> dc = []) /\ (dir = control -> dp = []) /\
    (ps ≠ [] -> lane_control q' = []) /\
    socket_log (member_socket m) w' =
      socket_log (member_socket m) w ++ map queued_serialized (cs ++ ps) ++
      lag_texts m control (length dc) ++ lag_texts m output (length dp).

Lemma forwarded_untouched dir ser b m m' w1 w2 w3 w4 :
  untouched (member_socket m) w1 w2 -> forwarded dir ser b m m' w2 w3 ->
  untouched (member_socket m) w3 w4 -> forwarded dir ser b m m' w1 w4.
Proof.
  intros [Hb _] (q' & dc & dp & cs & ps & ? & ? & ? & ? & ? & ? & ? & Hlog) [Ha _].
  exists q', dc, dp, cs, ps. rewrite Ha, Hlog, Hb. auto 10.
Qed.

Context (HbP : 0 <= maxQueuedPtyFrames limits) (HbC : 0 <= maxQueuedControlFrames limits).

Lemma enqueueForward_spec m dir ser b w :
  queue_ok (member_deps sockets limits m) (member_queue m) ->
  exists m' w', enqueueForward sockets limits m dir ser b w = Some (m', w') /\
    forwarded dir ser b m m' w w' /\
    (forall s, s ≠ member_socket m -> untouched s w w').
Proof.
  intros Hq. unfold enqueueForward.
  destruct (enqueue_enqueued (member_deps sockets limits m) (member_queue m) dir ser b w HbP HbC Hq)
    as (r & -> & q' & e' & dc & dp & cs & ps & -> & Hc & Hp & Hd1 & Hd2 & Hpc & -> & _ & Hq').
  cbn [mbind option_bind]. eexists _, _. split; [done|]. split.
  - exists q', dc, dp, cs, ps. rewrite !log_signal_lag, log_send_all, <- !app_assoc. auto 10.
  - intros s Hs. eapply untouched_trans; [by apply untouched_send_all|].
    eapply untouched_trans; by apply untouched_signal_lag.
Qed.

(** The members a frame of [senderId] goes to. *)
Definition recipients_of (senderId : string) (ms : list (string * RoomMember)) : list RoomMember :=
  js_filter (fun m => negb (String.eqb (connectionId m) senderId)) ms.*2.

Definition member_step (senderId : string) (dir : RelayFrameDirection) (ser : string) (b : Z)
    (w w' : W) (p p' : string * RoomMember) : Prop :=
  p'.1 = p.1 /\
  if String.eqb (connectionId p.2) senderId then p' = p else forwarded dir ser b p.2 p'.2 w w'.

Lemma recipients_of_subset senderId ms x :
  x ∈ recipients_of senderId ms -> member_socket x ∈ map member_socket (map snd ms).
Proof.
  intros H. apply elem_of_js_filter in H as [H _].
  apply list_elem_of_In, in_map. by apply list_elem_of_In.
Qed.

Lemma forward_spec senderId dir ser b ms w :
  NoDup (map member_socket (map snd ms)) ->
  Forall (fun p => queue_ok (member_deps sockets limits p.2) (member_queue p.2)) ms ->
  exists ms' w', forward sockets limits senderId dir ser b ms w =
      Some (ms', w', Z.of_nat (length (recipients_of senderId ms))) /\
    Forall2 (member_step senderId dir ser b w w') ms ms' /\
    (forall s, s ∉ map member_socket (recipients_of senderId ms) -> untouched s w w').
Proof.
  unfold recipients_of. revert w; induction ms as [|[k m] ms IH]; intros w; simpl.
  { intros _ _. by exists [], w. }
  rewrite NoDup_cons, Forall_cons. intros [Hni Hnd] [Hq Hall]. simpl in Hq.
  destruct (String.eqb (connectionId m) senderId) eqn:Hid; simpl.
  - destruct (IH w Hnd Hall) as (ms' & w' & -> & Hf & Hu). eexists _, _. split; [done|].
    split; [|done]. constructor; [|done]. unfold member_step. simpl. by rewrite Hid.
  - destruct (enqueueForward_spec m dir ser b w Hq) as (m' & w1 & -> & Hfw & Hu1).
    cbn [mbind option_bind]. destruct (IH w1 Hnd Hall) as (ms' & w' & -> & Hf & Hu).
    cbn [mbind option_bind]. eexists _, w'. split.
    { cbn [length]. rewrite Nat2Z.inj_succ. done. }
    split.
    + constructor.
      * unfold member_step. simpl. rewrite Hid. split; [done|].
        eapply forwarded_untouched; [apply untouched_refl|exact Hfw|]. apply Hu.
        intros Hin. apply Hni. apply list_elem_of_In, in_map_iff in Hin as (x & Hx & Hin).
        rewrite <- Hx. apply (recipients_of_subset senderId). by apply list_elem_of_In.
      * eapply Forall2_impl_elem; [exact Hf|]. intros p p' Hp [Hk Hs]. split; [done|].
        destruct (String.eqb (connectionId p.2) senderId); [done|].
        eapply forwarded_untouched; [|exact Hs|apply untouched_refl]. apply Hu1.
        intros Heq. apply Hni. rewrite <- Heq. apply list_elem_of_In, in_map, in_map.
        by apply list_elem_of_In.
    + intros s Hs. rewrite elem_of_cons in Hs. eapply untouched_trans; [apply Hu1|apply Hu]; naive_solver.
Qed.

(** The two ways [route] ends. *)
Definition route_rejected (r : RelayRoom) (sender : RoomMember) (f : RelayFrameInboundMessage)
    (w : W) (audit : list AuditEvent) outcome ms' (w' : W) audit' : Prop :=
  frame_dir f = control /\ member_role sender = viewer /\
  outcome = Forbidden_control /\ ms' = jm_entries (room_members r) /\ w' = w /\
  audit' = audit ++ [control_frame_rejected (room_sessionId r) (room_streamId r)
                       (participantId sender) viewer].

Definition route_forwarded (r : RelayRoom) (sender : RoomMember) (f : RelayFrameInboundMessage)
    (w : W) (audit : list AuditEvent) outcome ms' (w' : W) audit' : Prop :=
  let to := recipients_of (connectionId sender) (jm_entries (room_members r)) in
  (frame_dir f = control -> member_role sender = driver) /\
  outcome = Delivered (Z.of_nat (length to)) /\ audit' = audit /\
  Forall2 (member_step (connectionId sender) (frame_dir f) (stringify (stamped sender f))
             (base64DecodedByteLength (frame_payload f)) w w')
    (jm_entries (room_members r)) ms' /\
  (forall s, s ∉ map member_socket to -> untouched s w w').

Lemma route_spec (r : RelayRoom) (sender : RoomMember) (f : RelayFrameInboundMessage)
    (w : W) (audit : list AuditEvent) :
  NoDup (map member_socket (jm_values (room_members r))) ->
  Forall (fun m => queue_ok (member_deps sockets limits m) (member_queue m))
    (jm_values (room_members r)) ->
  exists outcome ms' w' audit',
    route sockets limits r sender f w audit =
      Some (outcome, with_members r (JsMap ms'), w', audit') /\
    (route_rejected r sender f w audit outcome ms' w' audit' \/
     route_forwarded r sender f w audit outcome ms' w' audit').
Proof.
  intros Hnd Hq. unfold route, route_rejected, route_forwarded.
  destruct (bool_decide (frame_dir f = control) && bool_decide (member_role sender ≠ driver)) eqn:E.
  - bool_to_prop. eexists _, (jm_entries (room_members r)), _, _.
    assert (Hv : member_role sender = viewer) by (destruct (member_role sender); congruence).
    rewrite Hv. split; [|left; auto 10]. by destruct r as [? ? []].
  - edestruct (forward_spec (connectionId sender)) as (ms' & w' & -> & Hf & Hu);
      [exact Hnd|by apply Forall_fmap in Hq|]. cbn [mbind option_bind].
    eexists _, ms', w', _. split; [done|]. right. split_and!; try done.
    intros Hc. destruct (member_role sender); [done|]. by rewrite Hc in E.
Qed.

(** Routing a frame. A control frame of a member who is not the driver changes
    no queue and no socket, and leaves one audit line. Any other frame ends,
    is stamped with the sender's admitted identity and role, and reaches every
    member of the room but the sender, each once: the payload, sequence number
    and stream go through verbatim, sockets of others are untouched, and the
    reported number of recipients is exact. *)
Theorem route_delivers (r : RelayRoom) (sender : RoomMember) (f : RelayFrameInboundMessage)
    (w : W) (audit : list AuditEvent) :
  NoDup (map member_socket (jm_values (room_members r))) ->
  Forall (fun m => queue_ok (member_deps sockets limits m) (member_queue m))
    (jm_values (room_members r)) ->
  if bool_decide (frame_dir f = control /\ member_role sender = viewer) then
    route sockets limits r sender f w audit =
    Some (Forbidden_control, r, w,
          audit ++ [control_frame_rejected (room_sessionId r) (room_streamId r)
                      (participantId sender) viewer])
  else
    let ser := stringify (frame (frame_streamId f) (frame_seq f) (frame_dir f) (frame_payload f)
      {| sender_participantId := participantId sender; sender_role := member_role sender |}) in
    let to := recipients_of (connectionId sender) (jm_entries (room_members r)) in
    exists ms' w',
      route sockets limits r sender f w audit =
        Some (Delivered (Z.of_nat (length to)), with_members r (JsMap ms'), w', audit) /\
      Forall2 (member_step (connectionId sender) (frame_dir f) ser
                 (base64DecodedByteLength (frame_payload f)) w w')
        (jm_entries (room_members r)) ms' /\
      (forall s, s ∉ map member_socket to -> untouched s w w').
Proof.
  intros Hnd Hq.
  destruct (route_spec r sender f w audit Hnd Hq) as (o & ms' & w' & audit' & -> & [H|H]).
  - destruct H as (Hd & Hv & -> & -> & -> & ->). rewrite bool_decide_true by done.
    by destruct r as [? ? []].
  - destruct H as (Hd & -> & -> & Hf & Hu). rewrite bool_decide_false.
    + exists ms', w'. split_and!; done.
    + intros [H1 H2]. apply Hd in H1. congruence.
Qed.
End RouteSpec.

(** Distinct (session, stream) pairs have distinct rooms when the session ids
    have no NUL; a session id with a NUL, which the wire schema accepts, can
    share the room of another session. *)
Theorem registry_key_separates :
  (forall s s' st st', no_nul s = true -> no_nul s' = true ->
     registry_key s st = registry_key s' st' -> s = s' /\ st = st') /\
  exists s s' st st', s ≠ s' /\ registry_key s st = registry_key s' st'.
Proof.
  split; [intros s s' st st'; apply nul_join_inj|].
  exists "a"%string, (String.append "a" (String.append nul "b")),
    (String.append "b" (String.append nul "c")), "c"%string. done.
Qed.

(** ** Concrete sockets, for evaluation *)

Definition DemoWorld : Type := sockid -> list string * Z.

Definition demo_sockets : RelaySocket DemoWorld := {|
  socket_send s x w := fun s' =>
    if decide (s' = s) then ((w s).1 ++ [x], (w s).2 + Z.of_nat (String.length x)) else w s';
  socket_close s _ _ w := w;
  socket_bufferedAmount s w := (w s).2;
|}.

#[export] Instance demo_sockets_laws : SocketLaws demo_sockets.
Proof.
  refine {| socket_log := fun s (w : DemoWorld) => (w s).1 |}; intros; simpl; repeat case_decide; simplify_eq/=; done.
Defined.

Definition demo_member (c : string) (role : RelayRole) (s : sockid) : RoomMember :=
  new_RoomMember c c role s "t".

Definition demo_room : RelayRoom := {|
  room_sessionId := "s"; room_streamId := "t";
  room_members := JsMap [("a", demo_member "a" driver 0%nat); ("b", demo_member "b" viewer 1%nat);
                         ("c", demo_member "c" viewer 2%nat)]%string |}.

Definition demo_frame : RelayFrameInboundMessage := {|
  frame_streamId := "t"; frame_seq := 7; frame_dir := output; frame_payload := "TWFu" |}.

Lemma route_delivers_witness :
  exists r' w',
    route demo_sockets (demo_limits 4 1000) demo_room (demo_member "a" driver 0%nat) demo_frame
      (fun _ => ([], 0)) [] = Some (Delivered 2, r', w', []) /\
    (w' 0%nat).1 = [] /\ length (w' 1%nat).1 = 1%nat /\ (w' 1%nat).1 = (w' 2%nat).1.
Proof.
  destruct (route_delivers demo_sockets (demo_limits 4 1000) ltac:(simpl; lia) ltac:(simpl; lia) demo_room
    (demo_member "a" driver 0%nat) demo_frame (fun _ => ([], 0)) [])
    as (ms' & w' & Heq & _).
  - repeat constructor; set_solver.
  - repeat constructor; done.
  - eexists _, w'. split; [exact Heq|]. vm_compute in Heq. injection Heq as _ <-. done.
Defined.
