(* ===== verification/Admission.v ===== *)
(** * Admission of connections to the Relay cell

    Models [admission-verifier.ts] and [selectAdmissionVerifier] of [index.ts].
    [fetch] is the environment: [verify] is split at its await into the request
    it sends and the decision it takes on the outcome. *)

From S2P Require Import Prelude Json JsText RelayWire.
Local Open Scope Z_scope.

Record AdmissionRequest := {
  request_sessionId : string;
  request_streamId : string;
  request_credential : string;
  request_remoteAddress : option string;
}.

Inductive AdmissionDecision :=
  | Admit (participantId : string) (role : RelayRole)
  | Deny (reason : string).

Inductive CapabilityKind := view_cap | terminal_control | desktop_control | file_transfer.

Definition capability_string (k : CapabilityKind) : string :=
  match k with
  | view_cap => "view"
  | terminal_control => "terminal_control"
  | desktop_control => "desktop_control"
  | file_transfer => "file_transfer"
  end.

Definition mapCapabilityToRole (k : CapabilityKind) : RelayRole :=
  match k with view_cap => viewer | _ => driver end.

(** [CAPABILITY_KINDS.has(s)], returning the kind. *)
Definition CAPABILITY_KINDS : list CapabilityKind :=
  [view_cap; terminal_control; desktop_control; file_transfer].
Definition capability_of (s : string) : option CapabilityKind :=
  js_find (fun k => String.eqb (capability_string k) s) CAPABILITY_KINDS.

Record HttpRequest := {
  http_url : string;
  http_method : string;
  http_headers : list (string * string);
  http_body : string;
}.

(** What the awaits of [verify] give: the fetch rejects, or a response whose
    body parses or not. *)
Inductive FetchOutcome :=
  | FetchRejected
  | FetchResponse (ok : bool) (status : Z) (body : option json).

Record ControlPlaneConfig := {
  controlPlaneBaseUrl : string;
  operatorToken : string;
}.

(** The rest of [verify], on what the fetch gives. *)
Definition verify_response (outcome : FetchOutcome) : AdmissionDecision :=
  match outcome with
  | FetchRejected => Deny "admission_unavailable"
  | FetchResponse false status _ => Deny ("admission_rejected_" +:+ int_string status)
  | FetchResponse true _ None => Deny "admission_unavailable"
  | FetchResponse true _ (Some grant) =>
      match as_string (prop "participantId" grant), as_string (prop "capability" grant) with
      | Some participantId, Some capability =>
          match capability_of capability with
          | Some kind => Admit participantId (mapCapabilityToRole kind)
          | None => Deny "admission_malformed"
          end
      | _, _ => Deny "admission_malformed"
      end
  end.

(** What a decision to admit rests on. *)
Definition granted (outcome : FetchOutcome) (participantId : string) (kind : CapabilityKind) : Prop :=
  exists status grant, outcome = FetchResponse true status (Some grant) /\
    prop "participantId" grant = Some (JStr participantId) /\
    prop "capability" grant = Some (JStr (capability_string kind)).

Lemma capability_of_string s k : capability_of s = Some k <-> s = capability_string k.
Proof.
  split.
  - intros H. apply js_find_Some in H as [_ H]. by apply String.eqb_eq in H.
  - intros ->. by destruct k.
Qed.

Lemma as_string_Some v s : as_string v = Some s <-> v = Some (JStr s).
Proof. destruct v as [[]|]; simpl; naive_solver. Qed.

Lemma verify_response_admit outcome p r :
  verify_response outcome = Admit p r <->
  exists kind, granted outcome p kind /\ r = mapCapabilityToRole kind.
Proof.
  split.
  - destruct outcome as [|[|] status [grant|]]; simpl; try done.
    destruct (as_string _) as [p'|] eqn:Hp, (as_string (prop "capability" grant)) as [cap|] eqn:Hc;
      try done.
    destruct (capability_of cap) as [kind|] eqn:Hk; [|done]. intros [= -> <-].
    apply as_string_Some in Hp, Hc. apply capability_of_string in Hk as ->.
    exists kind. split; [|done]. by exists status, grant.
  - intros (kind & (status & grant & -> & Hp & Hc) & ->). simpl.
    apply as_string_Some in Hp, Hc. rewrite Hp, Hc.
    by rewrite (proj2 (capability_of_string _ kind)).
Qed.

Section Verifier.
Context (JSON_parse : string -> option json).

Record RelayAdmissionCredential := { organizationId : string; nonce : string }.

Definition parseCredential (credential : string) : option RelayAdmissionCredential :=
  parsed ← JSON_parse credential;
  org ← as_string (prop "organizationId" parsed);
  n ← as_string (prop "nonce" parsed);
  Some {| organizationId := org; nonce := n |}.

(** [verify] up to its first await: a decision at once, or the request sent. *)
Definition verify_request (config : ControlPlaneConfig) (request : AdmissionRequest)
    : AdmissionDecision + HttpRequest :=
  match parseCredential (request_credential request) with
  | None => inl (Deny "invalid_credential")
  | Some credential =>
      inr {|
        http_url := (strip_trailing_slashes (controlPlaneBaseUrl config) +:+
          "/internal/remote-sessions/" +:+ encodeURIComponent (request_sessionId request) +:+
          "/relay-admit")%string;
        http_method := "POST";
        http_headers := [("authorization", ("Bearer " +:+ operatorToken config)%string);
                         ("content-type", "application/json")]%string;
        http_body := JSON_stringify (JObj [("nonce", JStr (nonce credential));
          ("audience", JStr (request_streamId request));
          ("organizationId", JStr (organizationId credential))]%string) |}
  end.

Definition control_plane_verify (config : ControlPlaneConfig) (request : AdmissionRequest)
    (outcome : FetchOutcome) : AdmissionDecision :=
  match verify_request config request with
  | inl decision => decision
  | inr _ => verify_response outcome
  end.

(** [selectAdmissionVerifier]: without a configuration every request is denied. *)
Definition selectAdmissionVerifier (admission : option ControlPlaneConfig)
    (request : AdmissionRequest) (outcome : FetchOutcome) : AdmissionDecision :=
  match admission with
  | Some config => control_plane_verify config request outcome
  | None => Deny "admission_not_configured"
  end.

Lemma select_admit admission request outcome p r :
  selectAdmissionVerifier admission request outcome = Admit p r <->
  is_Some admission /\ is_Some (parseCredential (request_credential request)) /\
  verify_response outcome = Admit p r.
Proof.
  unfold selectAdmissionVerifier. destruct admission as [config|]; [|split; [done|by intros [[? ?] _]]].
  unfold control_plane_verify, verify_request.
  destruct (parseCredential _) as [cr|]; [|split; [done|by intros (_ & [? ?] & _)]].
  split; [intros H; split_and!; eauto|intros (_ & _ & H); done].
Qed.

(** The verifier fails closed and is exact: it admits [p] with role [r] if and
    only if it is configured, the credential parses to an organization and a
    nonce, the control plane answered with success, and the answer names [p] and
    a known capability; and the role is driver exactly for the control kinds.
    A rejected fetch, an error status, a body that does not parse, and a missing
    or unknown field all deny. *)
Theorem admission_exact admission request outcome p r :
  selectAdmissionVerifier admission request outcome = Admit p r <->
  is_Some admission /\ is_Some (parseCredential (request_credential request)) /\
  exists kind, granted outcome p kind /\ (r = driver <-> kind ≠ view_cap).
Proof.
  assert (Hrole : forall kind, r = mapCapabilityToRole kind <-> (r = driver <-> kind ≠ view_cap))
    by (intros []; destruct r; simpl; naive_solver).
  rewrite select_admit, verify_response_admit. by setoid_rewrite Hrole.
Qed.
End Verifier.
