(* ===== verification/RelayConnection.v ===== *)
(** * Connections of the Relay cell, and the cell as a whole

    Models [relay-connection.ts] and the wiring of [relay-server.ts]. One
    connection owns one socket: join, active, leave. [onMessage] is async: its
    only await is the admission of a join, so a join is split in two steps, the
    message that sends the request and the settlement that resumes after it;
    other messages and the close of the socket may come between. The cell is a
    list of connections over one registry, one world of sockets and one audit
    log, stepped by the events of its sockets and of its admission verifier. *)

From S2P Require Import Prelude JsMap Json RelayWire SendQueue RateLimiter RelayRoom Admission.
Local Open Scope Z_scope.

Definition CLOSE_ADMISSION_DENIED : Z := 4403.
Definition CLOSE_NORMAL : Z := 1000.

Record RelayConnection := {
  conn_connectionId : string;
  conn_socket : sockid;
  conn_remoteAddress : option string;
  conn_rateLimiter : FrameRateLimiter;
  conn_member : option RoomMember;
  conn_room : option roomref;
  conn_sessionId : string;
  conn_streamId : string;
  conn_left : bool;
}.

Definition with_limiter (c : RelayConnection) (l : FrameRateLimiter) : RelayConnection :=
  {| conn_connectionId := conn_connectionId c; conn_socket := conn_socket c;
     conn_remoteAddress := conn_remoteAddress c; conn_rateLimiter := l;
     conn_member := conn_member c; conn_room := conn_room c; conn_sessionId := conn_sessionId c;
     conn_streamId := conn_streamId c; conn_left := conn_left c |}.

Definition with_left (c : RelayConnection) : RelayConnection :=
  {| conn_connectionId := conn_connectionId c; conn_socket := conn_socket c;
     conn_remoteAddress := conn_remoteAddress c; conn_rateLimiter := conn_rateLimiter c;
     conn_member := conn_member c; conn_room := conn_room c; conn_sessionId := conn_sessionId c;
     conn_streamId := conn_streamId c; conn_left := true |}.

(** The fields the admission of a join assigns. *)
Definition with_joined (c : RelayConnection) (sessionId streamId : string) (m : RoomMember)
    (room : roomref) : RelayConnection :=
  {| conn_connectionId := conn_connectionId c; conn_socket := conn_socket c;
     conn_remoteAddress := conn_remoteAddress c; conn_rateLimiter := conn_rateLimiter c;
     conn_member := Some m; conn_room := Some room; conn_sessionId := sessionId;
     conn_streamId := streamId; conn_left := conn_left c |}.

(** The constructor, at clock reading [now]. *)
Definition new_RelayConnection (limits : RelayLimits) (connId : string) (sock : sockid)
    (remoteAddress : option string) (now : Z) : RelayConnection :=
  {| conn_connectionId := connId; conn_socket := sock; conn_remoteAddress := remoteAddress;
     conn_rateLimiter := new_limiter (maxFramesPerSecond limits) (maxBytesPerSecond limits) now;
     conn_member := None; conn_room := None; conn_sessionId := ""; conn_streamId := "";
     conn_left := false |}.

(** What the connections share. *)
Record Shared (W : Type) := {
  sh_registry : RelayRoomRegistry;
  sh_world : W;
  sh_audit : list AuditEvent;
}.
Arguments sh_registry {W} _.
Arguments sh_world {W} _.
Arguments sh_audit {W} _.
Arguments Build_Shared {W} _ _ _.

Section Connection.
Context {W : Type} (sockets : RelaySocket W) (limits : RelayLimits).
Context (JSON_parse : string -> option json).
Context (RelayInboundMessageSchema_safeParse : json -> option RelayInboundMessage).
Implicit Types (c : RelayConnection) (sh : Shared W).

Definition set_world sh (w : W) : Shared W := Build_Shared (sh_registry sh) w (sh_audit sh).
Definition log_audit sh (e : AuditEvent) : Shared W :=
  Build_Shared (sh_registry sh) (sh_world sh) (sh_audit sh ++ [e]).

Definition send c (m : RelayOutboundMessage) sh : Shared W :=
  set_world sh (socket_send sockets (conn_socket c) (stringify m) (sh_world sh)).
Definition sendError c (code : RelayErrorCode) (text : string) sh : Shared W :=
  send c (error_message code text) sh.
Definition close c (code : Z) (reason : string) sh : Shared W :=
  set_world sh (socket_close sockets (conn_socket c) code reason (sh_world sh)).

(** [handlePreJoin] up to its await: the join whose admission is requested. *)
Definition handlePreJoin c sh (message : RelayInboundMessage)
    : Shared W * option RelayJoinMessage :=
  match message with
  | MsgJoin m => (sh, Some m)
  | _ => (sendError c not_joined "join is required before any other message" sh, None)
  end.

Definition admission_request c (m : RelayJoinMessage) : AdmissionRequest :=
  {| request_sessionId := join_sessionId m; request_streamId := join_streamId m;
     request_credential := join_credential m;
     request_remoteAddress :=
       match conn_remoteAddress c with
       | Some a => if String.eqb a "" then None else Some a
       | None => None
       end |}.

(** [handlePreJoin] after its await. *)
Definition admission_settled c sh (m : RelayJoinMessage) (decision : AdmissionDecision)
    : RelayConnection * Shared W :=
  match decision with
  | Deny _ =>
      let sh := log_audit sh (audit_admission_denied (join_sessionId m) (join_streamId m)) in
      let sh := sendError c admission_denied "admission denied" sh in
      (c, close c CLOSE_ADMISSION_DENIED "admission denied" sh)
  | Admit participantId role =>
      let member := new_RoomMember (conn_connectionId c) participantId role (conn_socket c)
                      (join_streamId m) in
      let '(reg, ref) :=
        registry_join (sh_registry sh) (join_sessionId m) (join_streamId m) member in
      let c := with_joined c (join_sessionId m) (join_streamId m) member ref in
      let sh := Build_Shared reg (sh_world sh)
        (sh_audit sh ++ [audit_joined (join_sessionId m) (join_streamId m) participantId role]) in
      (c, send c (join_ack (join_sessionId m) (join_streamId m) participantId role) sh)
  end.

Definition leaveRoom c sh : RelayConnection * Shared W :=
  if conn_left c || bool_decide (conn_member c = None) then (c, sh)
  else
    (with_left c,
     Build_Shared
       (registry_leave (sh_registry sh) (conn_sessionId c) (conn_streamId c) (conn_connectionId c))
       (sh_world sh)
       (sh_audit sh ++ [audit_left (conn_sessionId c) (conn_streamId c) (conn_connectionId c)])).

Definition onClose c sh : RelayConnection * Shared W := leaveRoom c sh.

(** [this.room?.route(this.member!, message)] *)
Definition route_frame c sh (f : RelayFrameInboundMessage)
    : option (option FrameRoutingOutcome * Shared W) :=
  match conn_room c, conn_member c with
  | Some ref, Some member =>
      match registry_heap (sh_registry sh) !! ref with
      | Some room =>
          '(outcome, room, w, audit) ←
            route sockets limits room member f (sh_world sh) (sh_audit sh);
          Some (Some outcome, Build_Shared (update_room (sh_registry sh) ref room) w audit)
      | None => Some (None, sh)
      end
  | _, _ => Some (None, sh)
  end.

Definition frame_too_large_text : string :=
  ("frame exceeds " +:+ int_string (maxFrameBytes limits) +:+ " bytes")%string.

Definition handlePostJoin c sh (now : Z) (message : RelayInboundMessage)
    : option (RelayConnection * Shared W) :=
  match message with
  | MsgJoin _ =>
      Some (c, sendError c already_joined "this connection already joined a room" sh)
  | MsgLeave =>
      let sh := send c leave_ack sh in
      let '(c, sh) := leaveRoom c sh in
      Some (c, close c CLOSE_NORMAL "left" sh)
  | MsgFrame f =>
      let bytes := base64DecodedByteLength (frame_payload f) in
      if maxFrameBytes limits <? bytes then
        Some (c, sendError c frame_too_large frame_too_large_text sh)
      else
        let '(ok, limiter) := allow (conn_rateLimiter c) now bytes in
        let c := with_limiter c limiter in
        if negb ok then Some (c, sendError c rate_limited "frame rate/byte budget exceeded" sh)
        else
          '(outcome, sh) ← route_frame c sh f;
          match outcome with
          | Some Forbidden_control =>
              Some (c, sendError c forbidden_control "only the driver may send control frames" sh)
          | _ => Some (c, sh)
          end
  end.

(** [onMessage]: the new states, and the join that awaits admission, if any. *)
Definition onMessage c sh (now : Z) (data : string)
    : option (RelayConnection * Shared W * option RelayJoinMessage) :=
  match parseRelayInbound JSON_parse RelayInboundMessageSchema_safeParse data with
  | None => Some (c, sendError c malformed "message failed schema validation" sh, None)
  | Some message =>
      match conn_member c with
      | None => let '(sh, pending) := handlePreJoin c sh message in Some (c, sh, pending)
      | Some _ => '(c, sh) ← handlePostJoin c sh now message; Some (c, sh, None)
      end
  end.

(** ** The cell *)

Record Cell := {
  cell_conns : list RelayConnection;
  cell_shared : Shared W;
  cell_pending : list (nat * RelayJoinMessage);
}.

Inductive CellEvent :=
  | Accepted (connId : string) (sock : sockid) (remoteAddress : option string) (now : Z)
  | Message (i : nat) (now : Z) (data : string)
  | AdmissionSettled (k : nat) (outcome : FetchOutcome)
  | SocketClosed (i : nat).

Context (admission : option ControlPlaneConfig).

Definition with_conn (cell : Cell) (i : nat) c sh (pending : list (nat * RelayJoinMessage)) : Cell :=
  {| cell_conns := <[i := c]> (cell_conns cell); cell_shared := sh; cell_pending := pending |}.

(** The outer [option] is termination, as in [SendQueue]; an event about a
    connection or a request that does not exist is ignored. *)
Definition cell_step (cell : Cell) (e : CellEvent) : option Cell :=
  match e with
  | Accepted connId sock remoteAddress now =>
      Some {| cell_conns := cell_conns cell ++
                [new_RelayConnection limits connId sock remoteAddress now];
              cell_shared := cell_shared cell; cell_pending := cell_pending cell |}
  | Message i now data =>
      match cell_conns cell !! i with
      | None => Some cell
      | Some c =>
          '(c, sh, pending) ← onMessage c (cell_shared cell) now data;
          Some (with_conn cell i c sh
            (cell_pending cell ++ (match pending with Some m => [(i, m)] | None => [] end)))
      end
  | AdmissionSettled k outcome =>
      match cell_pending cell !! k with
      | None => Some cell
      | Some (i, m) =>
          match cell_conns cell !! i with
          | None => Some cell
          | Some c =>
              let decision := selectAdmissionVerifier JSON_parse admission
                                (admission_request c m) outcome in
              let '(c, sh) := admission_settled c (cell_shared cell) m decision in
              Some (with_conn cell i c sh (delete k (cell_pending cell)))
          end
      end
  | SocketClosed i =>
      match cell_conns cell !! i with
      | None => Some cell
      | Some c =>
          let '(c, sh) := onClose c (cell_shared cell) in
          Some (with_conn cell i c sh (cell_pending cell))
      end
  end.

Definition new_cell (w : W) : Cell :=
  {| cell_conns := []; cell_shared := Build_Shared new_registry w []; cell_pending := [] |}.

(** The environment gives each connection a connection id ([randomUUID]) and a
    socket of its own; nothing else is assumed of the order of events. *)
Definition event_allowed (cell : Cell) (e : CellEvent) : Prop :=
  match e with
  | Accepted connId sock _ _ =>
      (connId ∉ map conn_connectionId (cell_conns cell)) /\
      (sock ∉ map conn_socket (cell_conns cell))
  | _ => True
  end.

Definition cell_transition (cell : Cell) (e : CellEvent) (cell' : Cell) : Prop :=
  event_allowed cell e /\ cell_step cell e = Some cell'.

(** ** Invariant *)

Context `{HL : !SocketLaws sockets}.
Context (HbP : 0 <= maxQueuedPtyFrames limits) (HbC : 0 <= maxQueuedControlFrames limits).

(** Who owns what: the connection id and the socket of every connection. *)
Definition ident c : string * sockid := (conn_connectionId c, conn_socket c).
Definition ids_ok (ids : list (string * sockid)) : Prop :=
  NoDup (map fst ids) /\ NoDup (map snd ids).

Definition member_ok (ids : list (string * sockid)) (m : RoomMember) : Prop :=
  queue_ok (member_deps sockets limits m) (member_queue m) /\
  (connectionId m, member_socket m) ∈ ids.

(** Every member of every room, registered or not, belongs to a connection and
    has a bounded queue. *)
Definition shared_ok (ids : list (string * sockid)) sh : Prop :=
  registry_ok (sh_registry sh) /\
  forall ref room, registry_heap (sh_registry sh) !! ref = Some room ->
    Forall (member_ok ids) (jm_values (room_members room)).

Definition conn_ok (reg : RelayRoomRegistry) c : Prop :=
  match conn_member c, conn_room c with
  | None, None => True
  | Some m, Some ref =>
      connectionId m = conn_connectionId c /\ member_socket m = conn_socket c /\
      is_Some (registry_heap reg !! ref)
  | _, _ => False
  end.

(** Rooms are never freed from the heap. *)
Definition heap_grows (reg reg' : RelayRoomRegistry) : Prop :=
  forall ref, is_Some (registry_heap reg !! ref) -> is_Some (registry_heap reg' !! ref).

Lemma conn_ok_mono reg reg' c : heap_grows reg reg' -> conn_ok reg c -> conn_ok reg' c.
Proof.
  intros Hg. unfold conn_ok. destruct (conn_member c), (conn_room c); try done.
  intros (? & ? & ?). auto.
Qed.

(** What a handler of connection [c] keeps. *)
Definition handled (ids : list (string * sockid)) c sh (r : RelayConnection * Shared W) : Prop :=
  shared_ok ids r.2 /\ conn_ok (sh_registry r.2) r.1 /\ ident r.1 = ident c /\
  heap_grows (sh_registry sh) (sh_registry r.2).

Lemma handled_same ids c c' sh sh' :
  shared_ok ids sh -> conn_ok (sh_registry sh) c -> ident c' = ident c ->
  conn_member c' = conn_member c -> conn_room c' = conn_room c ->
  sh_registry sh' = sh_registry sh -> handled ids c sh (c', sh').
Proof.
  intros Hs Hc Hi Hm Hr Hreg. unfold handled, shared_ok, conn_ok, heap_grows in *. simpl.
  rewrite Hreg, Hm, Hr. pose proof Hi as Hi'. injection Hi' as -> ->. split_and!; auto; try apply Hs.
Qed.

Lemma member_sockets_NoDup ids (ms : jsmap string RoomMember) :
  ids_ok ids -> room_ok {| room_sessionId := ""; room_streamId := ""; room_members := ms |} ->
  Forall (member_ok ids) (jm_values ms) ->
  NoDup (map member_socket (jm_values ms)).
Proof.
  intros [Hi1 Hi2] [Hwf Hkey] Hall. unfold jm_wf, jm_keys in Hwf. unfold jm_values in *.
  assert (Hids : Forall (fun p => connectionId p.2 = p.1) (jm_entries ms)).
  { apply Forall_forall. intros [k m] Hin. apply Hkey. by apply jm_elem_lookup. }
  clear Hkey. simpl in Hwf. destruct ms as [l]. simpl in *.
  induction l as [|[k m] l IH]; simpl in *; [constructor|].
  apply Forall_cons in Hids as [Hk Hids], Hall as [[_ Hm] Hall].
  apply NoDup_cons in Hwf as [Hn Hwf]. constructor; [|auto].
  intros Hin. apply Hn. apply list_elem_of_In, in_map_iff in Hin as (m' & Hs & Hin).
  apply list_elem_of_In in Hin. assert (Hm' := proj1 (Forall_forall _ _) Hall m' Hin).
  destruct Hm' as [_ Hm']. rewrite Hs in Hm'. simpl in Hk.
  assert (Hidm : connectionId m' = connectionId m).
  { apply list_elem_of_In in Hm, Hm'. clear -Hi2 Hm Hm'.
    induction ids as [|[a b] ids IH]; simpl in *; [done|].
    apply NoDup_cons in Hi2 as [Hb Hi2].
    destruct Hm as [Hm|Hm], Hm' as [Hm'|Hm']; simplify_eq/=; [done| | |auto].
    all: destruct Hb; apply list_elem_of_In, in_map_iff; eexists (_, _); simpl; eauto. }
  apply list_elem_of_fmap in Hin as ([k' m''] & -> & Hin). simpl in *.
  pose proof (proj1 (Forall_forall _ _) Hids _ Hin) as Hk'. simpl in Hk'.
  rewrite <- Hk, <- Hidm, Hk'. apply list_elem_of_fmap. by exists (k', m'').
Qed.

Lemma heap_grows_refl reg : heap_grows reg reg.
Proof. by intros ref. Qed.

Lemma heap_grows_insert reg reg' ref room :
  registry_heap reg' = <[ref := room]> (registry_heap reg) -> heap_grows reg reg'.
Proof. intros Heq ref' H. rewrite Heq, lookup_insert. case_decide; eauto. Qed.

Lemma shared_ok_insert ids sh reg' w audit ref room :
  shared_ok ids sh -> registry_ok reg' ->
  registry_heap reg' = <[ref := room]> (registry_heap (sh_registry sh)) ->
  Forall (member_ok ids) (jm_values (room_members room)) ->
  shared_ok ids (Build_Shared reg' w audit).
Proof.
  intros [Hok Hall] Hok' Heq Hroom. split; simpl; [done|].
  intros ref' room'. rewrite Heq, lookup_insert. case_decide; [by intros [= <-]|apply Hall].
Qed.

Lemma settled_handled ids c sh m decision :
  shared_ok ids sh -> conn_ok (sh_registry sh) c -> ident c ∈ ids ->
  handled ids c sh (admission_settled c sh m decision).
Proof.
  intros Hs Hc Hin. destruct decision as [p r|]; [|by apply handled_same].
  set (mem := new_RoomMember (conn_connectionId c) p r (conn_socket c) (join_streamId m)).
  destruct (registry_join_heap (sh_registry sh) (join_sessionId m) (join_streamId m) mem)
    as (ref & room0 & Hheap & Href & Hroom); [apply Hs|].
  pose proof (registry_join_ok _ (join_sessionId m) (join_streamId m) mem (proj1 Hs)) as Hok.
  unfold admission_settled. fold mem. destruct (registry_join _ _ _ mem) as [reg ref'].
  simpl in *. subst ref'. unfold handled. simpl. split_and!.
  - eapply shared_ok_insert; [exact Hs|exact Hok|exact Hheap|]. simpl.
    apply jm_Forall_insert.
    + destruct Hroom as [Hroom| ->]; [eapply Hs; eauto|constructor].
    + split; [repeat split; done|exact Hin].
  - unfold conn_ok. simpl. split_and!; [done..|]. rewrite Hheap, lookup_insert_eq. eauto.
  - done.
  - by eapply heap_grows_insert.
Qed.

Lemma leaveRoom_handled ids c sh :
  shared_ok ids sh -> conn_ok (sh_registry sh) c -> handled ids c sh (leaveRoom c sh).
Proof.
  intros Hs Hc. unfold leaveRoom. case_match; [by apply handled_same|].
  pose proof (registry_leave_ok _ (conn_sessionId c) (conn_streamId c) (conn_connectionId c)
    (proj1 Hs)) as Hok.
  destruct (registry_leave_heap (sh_registry sh) (conn_sessionId c) (conn_streamId c)
    (conn_connectionId c)) as [Heq|(ref & room & Hroom & Heq)];
    set (reg' := registry_leave _ _ _ _) in *.
  - assert (Hg : heap_grows (sh_registry sh) reg') by (intros ref; by rewrite Heq).
    unfold handled. simpl. split_and!; [|by eapply conn_ok_mono|done|done].
    split; simpl; [done|]. rewrite Heq. apply Hs.
  - assert (Hg : heap_grows (sh_registry sh) reg') by (by eapply heap_grows_insert).
    unfold handled. simpl. split_and!; [|by eapply conn_ok_mono|done|done].
    eapply shared_ok_insert; [exact Hs|exact Hok|exact Heq|]. simpl.
    apply jm_Forall_delete. eapply Hs; eauto.
Qed.

(** A step of routing keeps the identity of each member. *)
Lemma member_steps_same ids senderId dir ser b w w' ms ms' :
  Forall2 (member_step sockets limits senderId dir ser b w w') ms ms' ->
  Forall (member_ok ids) (map snd ms) ->
  Forall (member_ok ids) (map snd ms') /\ map fst ms' = map fst ms /\
  map connectionId (map snd ms') = map connectionId (map snd ms).
Proof.
  induction 1 as [|[k m] [k' m'] ms ms' [Hk Hstep] _ IH]; simpl in *; [done|].
  intros [Hm Hms]%Forall_cons. destruct (IH Hms) as (H1 & -> & ->). subst k'.
  destruct (String.eqb (connectionId m) senderId); [simplify_eq; auto|].
  destruct Hstep as (q' & ? & ? & ? & ? & -> & Hq & _). split; [|done].
  constructor; [|done]. split; [exact Hq|apply Hm].
Qed.

Lemma room_ok_same r ms' :
  room_ok r -> map fst ms' = map fst (jm_entries (room_members r)) ->
  map connectionId (map snd ms') = map connectionId (map snd (jm_entries (room_members r))) ->
  room_ok (with_members r (JsMap ms')).
Proof.
  intros [Hwf Hkey] Hk Hid. unfold jm_wf, jm_keys in *.
  assert (Hwf' : jm_wf (JsMap ms')) by (change (NoDup (map fst ms')); rewrite Hk; exact Hwf).
  split; [exact Hwf'|]. simpl. intros k m Hm.
  assert (Hall : map connectionId (map snd (jm_entries (room_members r))) =
                 map fst (jm_entries (room_members r))).
  { clear -Hkey Hwf. rewrite map_map. apply map_ext_in. intros [k m] Hin. apply Hkey.
    apply jm_elem_lookup; [done|by apply list_elem_of_In]. }
  apply jm_lookup_Some_elem in Hm. simpl in Hm. rewrite Hall, <- Hk, map_map in Hid.
  apply list_elem_of_In in Hm. clear -Hid Hm.
  induction ms' as [|[k' m'] ms' IH]; simpl in *; [done|].
  injection Hid as Hid Hid'. destruct Hm as [Hm|Hm]; [congruence|auto].
Qed.

Lemma route_frame_handled ids c c' sh f :
  ids_ok ids -> shared_ok ids sh -> conn_ok (sh_registry sh) c ->
  ident c' = ident c -> conn_member c' = conn_member c -> conn_room c' = conn_room c ->
  exists outcome sh', route_frame c' sh f = Some (outcome, sh') /\ handled ids c sh (c', sh').
Proof.
  intros Hids Hs Hc Hi Hm Hr. unfold route_frame. rewrite Hr, Hm.
  assert (Hsame : handled ids c sh (c', sh)) by (by apply handled_same).
  destruct (conn_room c) as [ref|] eqn:Er; [|eauto].
  destruct (conn_member c) as [mem|] eqn:Em; [|eauto].
  destruct (registry_heap (sh_registry sh) !! ref) as [room|] eqn:Hroom; [|eauto].
  pose proof (proj2 Hs _ _ Hroom) as Hall. pose proof (ok_rooms _ (proj1 Hs) _ _ Hroom) as Hrok.
  assert (Hnd : NoDup (map member_socket (jm_values (room_members room))))
    by (by eapply member_sockets_NoDup).
  assert (Hq : Forall (fun m => queue_ok (member_deps sockets limits m) (member_queue m))
    (jm_values (room_members room))) by (eapply Forall_impl; [exact Hall|by intros ? []]).
  destruct (route_spec sockets limits HbP HbC room mem f (sh_world sh) (sh_audit sh) Hnd Hq)
    as (outcome & ms' & w' & audit' & -> & Hout).
  cbn [mbind option_bind]. eexists _, _. split; [done|].
  assert (Hsteps : Forall (member_ok ids) (map snd ms') /\
    map fst ms' = map fst (jm_entries (room_members room)) /\
    map connectionId (map snd ms') = map connectionId (map snd (jm_entries (room_members room)))).
  { destruct Hout as [(_ & _ & _ & -> & _)|(_ & _ & _ & Hf & _)]; [done|].
    by eapply member_steps_same. }
  destruct Hsteps as (Hall' & Hk & Hid).
  unfold handled. simpl. split_and!; [|eapply conn_ok_mono; [|exact (proj1 (proj2 Hsame))]| done|].
  - eapply shared_ok_insert; [exact Hs| |done|exact Hall'].
    eapply update_room_ok; eauto; [apply Hs|by apply room_ok_same|].
    unfold room_size, jm_size. simpl.
    rewrite <- (length_map fst ms'), <- (length_map fst (jm_entries _)). by rewrite Hk.
  - by eapply heap_grows_insert.
  - by eapply heap_grows_insert.
Qed.

Lemma handlePostJoin_handled ids c sh now message :
  ids_ok ids -> shared_ok ids sh -> conn_ok (sh_registry sh) c ->
  exists r, handlePostJoin c sh now message = Some r /\ handled ids c sh r.
Proof.
  intros Hids Hs Hc. destruct message as [m|f|]; simpl.
  - eexists. split; [done|]. by apply handled_same.
  - destruct (maxFrameBytes limits <? _); [eexists; split; [done|by apply handled_same]|].
    destruct (allow _ _ _) as [ok limiter].
    destruct (negb ok); [eexists; split; [done|by apply handled_same]|].
    destruct (route_frame_handled ids c (with_limiter c limiter) sh f) as (o & sh' & -> & Hh); [done..|].
    cbn [mbind option_bind]. destruct o as [[n|]|]; eexists; (split; [done|]); exact Hh.
  - pose proof (leaveRoom_handled ids c (send c leave_ack sh)) as Hl.
    destruct (leaveRoom c (send c leave_ack sh)) as [c' sh'].
    eexists. split; [done|]. apply Hl; [exact Hs|exact Hc].
Qed.

Lemma onMessage_handled ids c sh now data :
  ids_ok ids -> shared_ok ids sh -> conn_ok (sh_registry sh) c ->
  exists c' sh' p, onMessage c sh now data = Some (c', sh', p) /\ handled ids c sh (c', sh').
Proof.
  intros Hids Hs Hc. unfold onMessage. destruct (parseRelayInbound _ _ _) as [message|].
  - destruct (conn_member c).
    + destruct (handlePostJoin_handled ids c sh now message) as ([c' sh'] & -> & Hh); [done..|].
      cbn [mbind option_bind]. eauto.
    + destruct message; simpl; eexists _, _, _; (split; [done|]); by apply handled_same.
  - eexists _, _, _. split; [done|]. by apply handled_same.
Qed.

Definition cell_inv (cell : Cell) : Prop :=
  ids_ok (map ident (cell_conns cell)) /\
  shared_ok (map ident (cell_conns cell)) (cell_shared cell) /\
  Forall (conn_ok (sh_registry (cell_shared cell))) (cell_conns cell) /\
  Forall (fun p => p.1 < length (cell_conns cell))%nat (cell_pending cell).

Lemma map_ident_insert conns i c c' :
  conns !! i = Some c -> ident c' = ident c -> map ident (<[i := c']> conns) = map ident conns.
Proof.
  intros Hi Heq. change (ident <$> <[i := c']> conns = ident <$> conns).
  rewrite list_fmap_insert, list_insert_id; [done|]. by rewrite list_lookup_fmap, Hi, Heq.
Qed.

Lemma with_conn_inv cell i c c' sh' pending :
  cell_inv cell -> cell_conns cell !! i = Some c ->
  handled (map ident (cell_conns cell)) c (cell_shared cell) (c', sh') ->
  Forall (fun p => p.1 < length (cell_conns cell))%nat pending ->
  cell_inv (with_conn cell i c' sh' pending).
Proof.
  intros (Hids & Hs & Hall & Hp) Hi (Hs' & Hc' & Hid & Hg) Hp'.
  unfold cell_inv, with_conn. simpl in *. rewrite (map_ident_insert _ _ c), length_insert by done.
  split_and!; try done. apply Forall_insert; [|done].
  eapply Forall_impl; [exact Hall|]. intros x. by apply conn_ok_mono.
Qed.

Lemma shared_ok_more_ids ids ids' sh :
  (forall x, x ∈ ids -> x ∈ ids') -> shared_ok ids sh -> shared_ok ids' sh.
Proof.
  intros Hsub [Hok Hall]. split; [done|]. intros ref room Hr.
  eapply Forall_impl; [by eapply Hall|]. intros m [? ?]. split; auto.
Qed.

Lemma accepted_inv cell connId sock ra now :
  cell_inv cell -> event_allowed cell (Accepted connId sock ra now) ->
  cell_inv {| cell_conns := cell_conns cell ++ [new_RelayConnection limits connId sock ra now];
              cell_shared := cell_shared cell; cell_pending := cell_pending cell |}.
Proof.
  intros ([Hi1 Hi2] & Hs & Hall & Hp) [Hf1 Hf2]. unfold cell_inv, ids_ok. simpl.
  rewrite !map_app, !map_map in *. simpl. split_and!.
  - apply NoDup_app. split_and!; [done| |apply NoDup_singleton].
    intros x Hx ->%list_elem_of_singleton. by apply Hf1.
  - apply NoDup_app. split_and!; [done| |apply NoDup_singleton].
    intros x Hx ->%list_elem_of_singleton. by apply Hf2.
  - eapply shared_ok_more_ids; [|exact Hs]. intros x Hx. apply elem_of_app. by left.
  - apply Forall_app. split; [done|]. by repeat constructor.
  - eapply Forall_impl; [exact Hp|]. simpl. intros x Hx. rewrite length_app. simpl. lia.
Qed.

(** The invariant is inductive, and a step always has a result. *)
Lemma cell_step_inv cell e :
  cell_inv cell -> event_allowed cell e ->
  exists cell', cell_step cell e = Some cell' /\ cell_inv cell'.
Proof.
  intros Hinv Hal. destruct Hinv as (Hids & Hs & Hall & Hp) eqn:Heq. clear Heq.
  destruct e as [connId sock ra now|i now data|k outcome|i]; simpl.
  - eexists. split; [done|]. by apply accepted_inv.
  - destruct (cell_conns cell !! i) as [c|] eqn:Hi; [|eauto].
    destruct (onMessage_handled (map ident (cell_conns cell)) c (cell_shared cell) now data)
      as (c' & sh' & p & -> & Hh); [done|done|by eapply (Forall_lookup_1 _ _ _ _ Hall)|].
    cbn [mbind option_bind]. eexists. split; [done|].
    eapply with_conn_inv; [exact Hinv|done|exact Hh|]. apply Forall_app. split; [done|].
    apply lookup_lt_Some in Hi. destruct p; repeat constructor. done.
  - destruct (cell_pending cell !! k) as [[i m]|] eqn:Hk; [|eauto].
    destruct (cell_conns cell !! i) as [c|] eqn:Hi; [|eauto].
    pose proof (settled_handled (map ident (cell_conns cell)) c (cell_shared cell) m
      (selectAdmissionVerifier JSON_parse admission (admission_request c m) outcome)) as Hh.
    destruct (admission_settled _ _ _ _) as [c' sh']. eexists. split; [done|].
    eapply with_conn_inv; [exact Hinv|done| |by apply Forall_delete].
    apply Hh; [done|by eapply (Forall_lookup_1 _ _ _ _ Hall)|].
    apply list_elem_of_fmap. eauto using list_elem_of_lookup_2.
  - destruct (cell_conns cell !! i) as [c|] eqn:Hi; [|eauto].
    pose proof (leaveRoom_handled (map ident (cell_conns cell)) c (cell_shared cell)) as Hh.
    unfold onClose. destruct (leaveRoom _ _) as [c' sh']. eexists. split; [done|].
    eapply with_conn_inv; [exact Hinv|done| |done].
    apply Hh; [done|by eapply (Forall_lookup_1 _ _ _ _ Hall)].
Qed.

Lemma new_cell_inv w : cell_inv (new_cell w).
Proof.
  unfold cell_inv, ids_ok, shared_ok. simpl.
  split_and!; [constructor..|apply new_registry_ok|done|constructor|constructor].
Qed.

Lemma cell_reachable_inv w es cell : trace cell_transition (new_cell w) es cell -> cell_inv cell.
Proof.
  apply trace_invariant; [apply new_cell_inv|].
  intros cell1 e cell2 Hinv [Hal Hstep].
  destruct (cell_step_inv cell1 e Hinv Hal) as (cell' & Heq & Hinv'). congruence.
Qed.

(** C33. The cell never stops and its memory per consumer is bounded: with queue
    limits that are not negative, in every
    state that any interleaving of connections, messages, admissions and closes
    can reach, every next event has a result, and every member of every room
    holds at most the configured number of frames in each lane. *)
Theorem cell_never_stuck w es cell e :
  trace cell_transition (new_cell w) es cell -> event_allowed cell e ->
  (exists cell', cell_step cell e = Some cell') /\
  forall ref room k m, registry_heap (sh_registry (cell_shared cell)) !! ref = Some room ->
    room_members room !! k = Some m ->
    Z.of_nat (length (lane_pty (member_queue m))) <= maxQueuedPtyFrames limits /\
    Z.of_nat (length (lane_control (member_queue m))) <= maxQueuedControlFrames limits.
Proof.
  intros Htr Hal. apply cell_reachable_inv in Htr as Hinv.
  destruct (cell_step_inv cell e Hinv Hal) as (cell' & Hstep & _). split; [eauto|].
  intros ref room k m Hr Hm. destruct Hinv as (_ & [_ Hall] & _).
  apply jm_lookup_Some_elem in Hm. pose proof (Hall ref room Hr) as Hroom.
  eapply Forall_forall in Hroom as [(Hc & Hp & _) _]; [by split|].
  apply list_elem_of_fmap. by exists (k, m).
Qed.

(** ** Whose frames reach whom *)

(** The admission that made connection [i] the member [m]: at a settlement in
    the history, a request of [i] for its session and stream was pending, and
    the control plane granted [m]'s participant a capability of [m]'s role. *)
Definition admitted_as (w : W) (es : list CellEvent) (i : nat) c (m : RoomMember) : Prop :=
  exists es1 es2 k outcome cell1 join kind,
    es = es1 ++ AdmissionSettled k outcome :: es2 /\
    trace cell_transition (new_cell w) es1 cell1 /\
    cell_pending cell1 !! k = Some (i, join) /\
    join_sessionId join = conn_sessionId c /\ join_streamId join = conn_streamId c /\
    granted outcome (participantId m) kind /\ member_role m = mapCapabilityToRole kind.

Lemma admitted_as_snoc w es e i c m : admitted_as w es i c m -> admitted_as w (es ++ [e]) i c m.
Proof.
  intros (es1 & es2 & k & outcome & cell1 & jn & kind & -> & H).
  exists es1, (es2 ++ [e]), k, outcome, cell1, jn, kind. by rewrite <- app_assoc.
Qed.

Definition membership c : option RoomMember * string * string :=
  (conn_member c, conn_sessionId c, conn_streamId c).

Lemma admitted_as_membership w es i c c' m :
  membership c' = membership c -> admitted_as w es i c m -> admitted_as w es i c' m.
Proof. unfold membership, admitted_as. intros [= _ -> ->]. done. Qed.

Lemma leaveRoom_membership c sh : membership (leaveRoom c sh).1 = membership c.
Proof. unfold leaveRoom. by case_match. Qed.

Lemma handlePostJoin_membership c sh now message c' sh' :
  handlePostJoin c sh now message = Some (c', sh') -> membership c' = membership c.
Proof.
  destruct message as [m|f|]; simpl.
  - by intros [= <- _].
  - case_match; [by intros [= <- _]|]. destruct (allow _ _ _). case_match; [by intros [= <- _]|].
    destruct (route_frame _ _ _) as [[o sh1]|]; [|done]. cbn [mbind option_bind].
    destruct o as [[]|]; by intros [= <- _].
  - pose proof (leaveRoom_membership c (send c leave_ack sh)) as H.
    destruct (leaveRoom _ _). by intros [= <- _].
Qed.

Lemma onMessage_membership c sh now data c' sh' p :
  onMessage c sh now data = Some (c', sh', p) -> membership c' = membership c.
Proof.
  unfold onMessage. destruct (parseRelayInbound _ _ _) as [message|]; [|by intros [= <- _ _]].
  destruct (conn_member c) eqn:Hm.
  - destruct (handlePostJoin _ _ _ _) as [[c1 sh1]|] eqn:Hp; [|done]. cbn [mbind option_bind].
    intros [= <- _ _]. by eapply handlePostJoin_membership.
  - destruct (handlePreJoin _ _ _). by intros [= <- _ _].
Qed.

Lemma with_conn_lookup cell i0 c0 c' sh pending i c :
  cell_conns cell !! i0 = Some c0 ->
  cell_conns (with_conn cell i0 c' sh pending) !! i = Some c ->
  i = i0 /\ c = c' \/ i ≠ i0 /\ cell_conns cell !! i = Some c.
Proof.
  intros H0 H. apply list_lookup_insert_Some in H as [(-> & -> & _)|[Hne H]]; auto.
Qed.

(** Membership always comes from an admission. *)
Lemma members_admitted w es cell :
  trace cell_transition (new_cell w) es cell ->
  forall i c m, cell_conns cell !! i = Some c -> conn_member c = Some m -> admitted_as w es i c m.
Proof.
  intros Htr. eapply (trace_history_invariant cell_transition (fun es cell =>
    trace cell_transition (new_cell w) es cell /\ forall i c m,
    cell_conns cell !! i = Some c -> conn_member c = Some m -> admitted_as w es i c m));
    [split; [constructor|done]| |exact Htr].
  intros es1 cell1 e cell2 [Htr1 IH] Hst. split; [by econstructor|].
  intros i c m Hi Hm. destruct Hst as [Hal Hstep].
  assert (Hold : cell_conns cell1 !! i = Some c -> admitted_as w (es1 ++ [e]) i c m)
    by (intros; eapply admitted_as_snoc, IH; eauto).
  destruct e as [connId sock ra now|i0 now data|k outcome|i0]; simpl in Hstep.
  - injection Hstep as <-. simpl in Hi. apply lookup_app_Some in Hi as [Hi|[_ Hi]]; [auto|].
    apply list_lookup_singleton_Some in Hi as [_ <-]. done.
  - destruct (cell_conns cell1 !! i0) as [c0|] eqn:H0; [|simplify_eq; auto].
    destruct (onMessage _ _ _ _) as [[[c1 sh1] p]|] eqn:Hmsg; [|done].
    cbn [mbind option_bind] in Hstep. injection Hstep as <-.
    apply (with_conn_lookup _ _ c0) in Hi as [[-> ->]|[_ Hi]]; [|auto|done].
    apply onMessage_membership in Hmsg. eapply admitted_as_membership; [exact Hmsg|].
    eapply admitted_as_snoc, IH; [done|]. unfold membership in Hmsg. congruence.
  - destruct (cell_pending cell1 !! k) as [[i0 jn]|] eqn:Hk; [|simplify_eq; auto].
    destruct (cell_conns cell1 !! i0) as [c0|] eqn:H0; [|simplify_eq; auto].
    unfold admission_settled in Hstep.
    destruct (selectAdmissionVerifier _ _ _ _) as [p r|reason] eqn:Hd.
    + destruct (registry_join _ _ _ _) as [reg ref]. injection Hstep as <-.
      apply (with_conn_lookup _ _ c0) in Hi as [[-> ->]|[_ Hi]]; [|auto|done].
      simpl in Hm. injection Hm as <-.
      apply select_admit in Hd as (_ & _ & (kind & Hg & ->)%verify_response_admit).
      exists es1, [], k, outcome, cell1, jn, kind. split_and!; try done.
    + injection Hstep as <-.
      apply (with_conn_lookup _ _ c0) in Hi as [[-> ->]|[_ Hi]]; [|auto|done]. auto.
  - destruct (cell_conns cell1 !! i0) as [c0|] eqn:H0; [|simplify_eq; auto].
    unfold onClose in Hstep. pose proof (leaveRoom_membership c0 (cell_shared cell1)) as Hmem.
    destruct (leaveRoom _ _) as [c1 sh1]. injection Hstep as <-.
    apply (with_conn_lookup _ _ c0) in Hi as [[-> ->]|[_ Hi]]; [|auto|done]. simpl in Hmem.
    eapply admitted_as_membership; [exact Hmem|].
    eapply admitted_as_snoc, IH; [done|]. unfold membership in Hmem. congruence.
Qed.

(** A message of [c] that other sockets may notice: a frame within the size
    limit from a member, who is the driver if the frame is a control frame. *)
Definition forwardable c data : Prop :=
  exists f m,
    parseRelayInbound JSON_parse RelayInboundMessageSchema_safeParse data = Some (MsgFrame f) /\
    conn_member c = Some m /\
    base64DecodedByteLength (frame_payload f) <= maxFrameBytes limits /\
    (frame_dir f = control -> member_role m = driver).

Definition sees c s sh sh' data : Prop :=
  untouched sockets s (sh_world sh) (sh_world sh') \/ forwardable c data.

Lemma leaveRoom_world c sh : sh_world (leaveRoom c sh).2 = sh_world sh.
Proof. unfold leaveRoom. by case_match. Qed.

Lemma leaveRoom_socket c sh : conn_socket (leaveRoom c sh).1 = conn_socket c.
Proof. unfold leaveRoom. by case_match. Qed.

Lemma route_frame_effect ids c c' sh f outcome sh' s :
  ids_ok ids -> shared_ok ids sh -> conn_room c' = conn_room c -> conn_member c' = conn_member c ->
  route_frame c' sh f = Some (outcome, sh') ->
  untouched sockets s (sh_world sh) (sh_world sh') \/
  exists m, conn_member c = Some m /\ (frame_dir f = control -> member_role m = driver).
Proof.
  intros Hids Hs Hr Hm. unfold route_frame. rewrite Hr, Hm.
  destruct (conn_room c) as [ref|]; [|intros [= _ <-]; by left].
  destruct (conn_member c) as [mem|]; [|intros [= _ <-]; by left].
  destruct (registry_heap (sh_registry sh) !! ref) as [room|] eqn:Hroom; [|intros [= _ <-]; by left].
  pose proof (proj2 Hs _ _ Hroom) as Hall. pose proof (ok_rooms _ (proj1 Hs) _ _ Hroom) as Hrok.
  destruct (route_spec sockets limits HbP HbC room mem f (sh_world sh) (sh_audit sh))
    as (o & ms' & w' & audit' & -> & Hout).
  - by eapply member_sockets_NoDup.
  - eapply Forall_impl; [exact Hall|by intros ? []].
  - cbn [mbind option_bind]. intros [= _ <-]. simpl.
    destruct Hout as [(_ & _ & _ & _ & -> & _)|(Hd & _)]; [by left|right; eauto].
Qed.

Lemma onMessage_effect ids c sh now data c' sh' p s :
  ids_ok ids -> shared_ok ids sh -> s ≠ conn_socket c ->
  onMessage c sh now data = Some (c', sh', p) -> sees c s sh sh' data.
Proof.
  intros Hids Hs Hne. unfold onMessage, sees, forwardable.
  destruct (parseRelayInbound _ _ _) as [message|] eqn:Hparse;
    [|intros [= _ <- _]; left; by apply untouched_send].
  destruct (conn_member c) eqn:Hmem; cycle 1.
  { destruct message; simpl; intros [= _ <- _]; left; try done; by apply untouched_send. }
  destruct message as [m|f|]; simpl.
  - intros [= _ <- _]. left. by apply untouched_send.
  - destruct (Z.ltb_spec (maxFrameBytes limits) (base64DecodedByteLength (frame_payload f))).
    { intros [= _ <- _]. left. by apply untouched_send. }
    destruct (allow _ _ _) as [ok limiter]. destruct ok; cycle 1.
    { intros [= _ <- _]. left. by apply untouched_send. }
    simpl. destruct (route_frame _ _ _) as [[o sh1]|] eqn:Hroute; [|done].
    pose proof (route_frame_effect ids c _ _ _ _ _ s Hids Hs eq_refl eq_refl Hroute) as Heff.
    cbn [mbind option_bind].
    destruct Heff as [Hu|(m' & Hm' & Hd)]; [|right; exists f, m'; split_and!; [done|congruence|done|done]].
    intros Hres. left. destruct o as [[n|]|]; injection Hres as _ <- _; try done.
    eapply untouched_trans; [exact Hu|]. by apply untouched_send.
  - pose proof (leaveRoom_world c (send c leave_ack sh)) as Hw.
    pose proof (leaveRoom_socket c (send c leave_ack sh)) as Hsock.
    destruct (leaveRoom _ _) as [c1 sh1]. cbn [mbind option_bind]. intros [= _ <- _]. left.
    simpl in *. rewrite Hw, Hsock.
    eapply untouched_trans; [by apply untouched_send|by apply untouched_close].
Qed.

(** The connection an event is about. *)
Definition event_conn (cell : Cell) (e : CellEvent) : option nat :=
  match e with
  | Accepted _ _ _ _ => None
  | Message i _ _ | SocketClosed i => Some i
  | AdmissionSettled k _ => fst <$> cell_pending cell !! k
  end.

(** C1. Nothing reaches a socket without authority. Along any interleaving, if an
    event makes the relay write to the socket of a connection the event is not
    about, then the event is a frame message, within the size limit, of a
    connection whose membership was granted by the control plane for the
    session and stream it is in; and if the frame is a control frame, what was
    granted is a control capability. Joins, refusals, leaves, closes and
    malformed or oversized messages are never visible to others. *)
Theorem forwarding_authorized w es cell e cell' s :
  trace cell_transition (new_cell w) es cell -> cell_transition cell e cell' ->
  (forall i c, event_conn cell e = Some i -> cell_conns cell !! i = Some c -> s ≠ conn_socket c) ->
  socket_log s (sh_world (cell_shared cell')) ≠ socket_log s (sh_world (cell_shared cell)) ->
  exists i now data c f m,
    e = Message i now data /\ cell_conns cell !! i = Some c /\ conn_member c = Some m /\
    parseRelayInbound JSON_parse RelayInboundMessageSchema_safeParse data = Some (MsgFrame f) /\
    base64DecodedByteLength (frame_payload f) <= maxFrameBytes limits /\
    admitted_as w es i c m /\
    (frame_dir f = control -> member_role m = driver).
Proof.
  intros Htr [Hal Hstep] Hs Hlog. pose proof (cell_reachable_inv _ _ _ Htr) as (Hids & Hsh & Hall & _).
  destruct e as [connId sock ra now|i now data|k outcome|i]; simpl in Hstep, Hs.
  - injection Hstep as <-. done.
  - destruct (cell_conns cell !! i) as [c|] eqn:Hi; [|simplify_eq].
    destruct (onMessage _ _ _ _) as [[[c1 sh1] p]|] eqn:Hmsg; [|done].
    cbn [mbind option_bind] in Hstep. injection Hstep as <-. simpl in Hlog.
    destruct (onMessage_effect _ _ _ _ _ _ _ _ s Hids Hsh (Hs i c eq_refl Hi) Hmsg)
      as [[Hu _]|(f & m & Hp & Hm & Hb & Hd)]; [done|].
    exists i, now, data, c, f, m. split_and!; try done. by eapply members_admitted.
  - exfalso. destruct (cell_pending cell !! k) as [[i m]|] eqn:Hk; [|simplify_eq].
    destruct (cell_conns cell !! i) as [c|] eqn:Hi; [|simplify_eq]. apply Hlog.
    pose proof (Hs i c eq_refl Hi) as Hne. unfold admission_settled in Hstep.
    destruct (selectAdmissionVerifier _ _ _ _).
    + destruct (registry_join _ _ _ _). injection Hstep as <-. simpl. by apply log_send_ne.
    + injection Hstep as <-. simpl. rewrite log_close. by apply log_send_ne.
  - exfalso. destruct (cell_conns cell !! i) as [c|] eqn:Hi; [|simplify_eq]. apply Hlog.
    unfold onClose in Hstep. pose proof (leaveRoom_world c (cell_shared cell)) as Hw.
    destruct (leaveRoom _ _). injection Hstep as <-. simpl in *. by rewrite Hw.
Qed.

(** ** The registry tracks the connections *)

Definition joined c : Prop := conn_member c ≠ None /\ conn_left c = false.
Definition conn_key c : string := registry_key (conn_sessionId c) (conn_streamId c).

(** The specification of the registry: exactly the connections that have
    joined and not left, each under its own session and stream. *)
Definition tracks (reg : RelayRoomRegistry) (conns : list RelayConnection) : Prop :=
  forall key cid, is_Some (registry_view reg key cid) <->
    exists c, c ∈ conns /\ conn_connectionId c = cid /\ joined c /\ conn_key c = key.

(** What a handler of [c] does to that correspondence. *)
Definition tracked_update reg c reg' c' : Prop :=
  conn_connectionId c' = conn_connectionId c /\
  ((forall key, is_Some (registry_view reg key (conn_connectionId c)) <-> joined c /\ conn_key c = key) ->
   forall key cid, is_Some (registry_view reg' key cid) <->
     if decide (cid = conn_connectionId c) then joined c' /\ conn_key c' = key
     else is_Some (registry_view reg key cid)).

Lemma conn_id_index conns i j c c' :
  NoDup (map conn_connectionId conns) -> conns !! i = Some c -> conns !! j = Some c' ->
  conn_connectionId c = conn_connectionId c' -> i = j.
Proof.
  intros Hnd Hi Hj Heq. eapply (NoDup_lookup (conn_connectionId <$> conns)).
  - exact Hnd.
  - by rewrite list_lookup_fmap, Hi.
  - by rewrite list_lookup_fmap, Hj, Heq.
Qed.

Lemma tracks_update reg reg' conns i c c' :
  NoDup (map conn_connectionId conns) -> conns !! i = Some c ->
  tracks reg conns -> tracked_update reg c reg' c' -> tracks reg' (<[i := c']> conns).
Proof.
  intros Hnd Hi Ht [Hid Hup] key cid. rewrite Hup; clear Hup.
  - case_decide as Hc; [subst cid|rewrite (Ht key cid)].
    + split.
      * intros Hj. exists c'. split; [|by split].
        apply list_elem_of_lookup. exists i. apply list_lookup_insert_eq. by eapply lookup_lt_Some.
      * intros (c0 & Hin & Hid0 & Hj0). apply list_elem_of_lookup in Hin as [j Hj].
        apply list_lookup_insert_Some in Hj as [(_ & -> & _)|[Hne Hj]]; [done|].
        destruct Hne. by eapply conn_id_index.
    + split; intros (c0 & Hin & Hid0 & Hj0); apply list_elem_of_lookup in Hin as [j Hj];
        exists c0; (split; [|done]); apply list_elem_of_lookup; exists j.
      * rewrite list_lookup_insert_ne; [done|]. intros ->. simplify_eq.
      * apply list_lookup_insert_Some in Hj as [(_ & -> & _)|[Hne Hj]]; [congruence|done].
  - intros key'. rewrite (Ht key'). split.
    + intros (c0 & Hin & Hid0 & Hj0). apply list_elem_of_lookup in Hin as [j Hj].
      assert (j = i) as -> by (by eapply conn_id_index). simplify_eq. done.
    + intros Hj. exists c. split; [|by split]. by eapply list_elem_of_lookup_2.
Qed.

Lemma tracked_same reg c reg' c' :
  conn_connectionId c' = conn_connectionId c -> membership c' = membership c ->
  conn_left c' = conn_left c ->
  (forall key cid, is_Some (registry_view reg' key cid) <-> is_Some (registry_view reg key cid)) ->
  tracked_update reg c reg' c'.
Proof.
  unfold membership. intros Hid Hm Hl Hv. split; [done|]. intros Hself key cid. rewrite Hv.
  case_decide; [|done]. subst. rewrite Hself. unfold joined, conn_key.
  injection Hm as -> -> ->. by rewrite Hl.
Qed.

Lemma leaveRoom_tracked c sh :
  registry_ok (sh_registry sh) ->
  tracked_update (sh_registry sh) c (sh_registry (leaveRoom c sh).2) (leaveRoom c sh).1.
Proof.
  intros Hok. unfold leaveRoom. case_match eqn:Hl; [by apply tracked_same|]. bool_to_prop.
  split; [done|]. intros Hself key cid. simpl.
  rewrite registry_leave_view by done. unfold view_op. unfold joined, conn_key in *. simpl in *.
  repeat case_decide; subst; try naive_solver.
Qed.

Lemma settled_tracked c sh m decision :
  registry_ok (sh_registry sh) -> conn_member c = None -> conn_left c = false ->
  let r := admission_settled c sh m decision in
  tracked_update (sh_registry sh) c (sh_registry r.2) r.1.
Proof.
  intros Hok Hm Hl. simpl. destruct decision as [p r|]; [|by apply tracked_same].
  unfold admission_settled.
  pose proof (registry_join_view (sh_registry sh) (join_sessionId m) (join_streamId m)
    (new_RoomMember (conn_connectionId c) p r (conn_socket c) (join_streamId m))) as Hv.
  destruct (registry_join _ _ _ _) as [reg ref]. split; [done|]. intros Hself key cid. simpl in *.
  rewrite Hv by done. unfold joined, conn_key in *. simpl in *.
  repeat case_decide; subst; try naive_solver.
Qed.

Lemma route_frame_view ids c c' sh f outcome sh' :
  ids_ok ids -> shared_ok ids sh -> conn_room c' = conn_room c -> conn_member c' = conn_member c ->
  route_frame c' sh f = Some (outcome, sh') ->
  forall key cid, is_Some (registry_view (sh_registry sh') key cid) <->
                  is_Some (registry_view (sh_registry sh) key cid).
Proof.
  intros Hids Hs Hr Hm. unfold route_frame. rewrite Hr, Hm.
  destruct (conn_room c) as [ref|]; [|by intros [= _ <-]].
  destruct (conn_member c) as [mem|]; [|by intros [= _ <-]].
  destruct (registry_heap (sh_registry sh) !! ref) as [room|] eqn:Hroom; [|by intros [= _ <-]].
  pose proof (proj2 Hs _ _ Hroom) as Hall. pose proof (ok_rooms _ (proj1 Hs) _ _ Hroom) as Hrok.
  destruct (route_spec sockets limits HbP HbC room mem f (sh_world sh) (sh_audit sh))
    as (o & ms' & w' & audit' & -> & Hout).
  { by eapply member_sockets_NoDup. }
  { eapply Forall_impl; [exact Hall|by intros ? []]. }
  cbn [mbind option_bind]. intros [= _ <-] key cid. simpl.
  eapply registry_view_queues; [apply Hs|exact Hroom|]. intros k. simpl. rewrite !jm_is_Some_key.
  destruct Hout as [(_ & _ & _ & -> & _)|(_ & _ & _ & Hf & _)]; [done|].
  edestruct member_steps_same as (_ & Hk & _); [exact Hf|exact Hall|]. simpl. by rewrite Hk.
Qed.

Lemma onMessage_tracked ids c sh now data c' sh' p :
  ids_ok ids -> shared_ok ids sh -> onMessage c sh now data = Some (c', sh', p) ->
  tracked_update (sh_registry sh) c (sh_registry sh') c'.
Proof.
  intros Hids Hs. unfold onMessage.
  destruct (parseRelayInbound _ _ _) as [message|]; [|intros [= <- <- _]; by apply tracked_same].
  destruct (conn_member c); cycle 1.
  { destruct message; simpl; intros [= <- <- _]; by apply tracked_same. }
  destruct message as [m|f|]; simpl.
  - intros [= <- <- _]. by apply tracked_same.
  - case_match; [intros [= <- <- _]; by apply tracked_same|].
    destruct (allow _ _ _) as [ok limiter]. destruct ok; simpl; cycle 1.
    { intros [= <- <- _]. by apply tracked_same. }
    destruct (route_frame _ _ _) as [[o sh1]|] eqn:Hroute; [|done]. cbn [mbind option_bind].
    pose proof (route_frame_view ids c _ _ _ _ _ Hids Hs eq_refl eq_refl Hroute) as Hv.
    intros Hres. destruct o as [[n|]|]; injection Hres as <- <- _; by apply tracked_same.
  - pose proof (leaveRoom_tracked c (send c leave_ack sh) (proj1 Hs)) as Ht.
    destruct (leaveRoom _ _) as [c1 sh1]. cbn [mbind option_bind]. by intros [= <- <- _].
Qed.

(** An orderly client waits for the answer to its join: while the admission is
    pending it sends nothing more and does not disconnect. *)
Definition orderly (cell : Cell) (e : CellEvent) : Prop :=
  match e with
  | Message i _ _ | SocketClosed i => i ∉ map fst (cell_pending cell)
  | _ => True
  end.

Definition orderly_transition (cell : Cell) (e : CellEvent) (cell' : Cell) : Prop :=
  orderly cell e /\ cell_transition cell e cell'.

(** A pending admission is of a connection that has not joined, each at most once. *)
Record tracking (cell : Cell) : Prop := {
  tr_inv : cell_inv cell;
  tr_tracks : tracks (sh_registry (cell_shared cell)) (cell_conns cell);
  tr_left i c : cell_conns cell !! i = Some c -> conn_left c = true -> conn_member c ≠ None;
  tr_once : NoDup (map fst (cell_pending cell));
  tr_pending i c : cell_conns cell !! i = Some c -> i ∈ map fst (cell_pending cell) ->
    conn_member c = None;
}.

Lemma new_cell_tracking w : tracking (new_cell w).
Proof.
  split; simpl; [apply new_cell_inv| |done|constructor|done].
  intros key cid. split; [intros [? H]; done|]. by intros (c & H%elem_of_nil & _).
Qed.

Lemma cell_ids_NoDup cell : cell_inv cell -> NoDup (map conn_connectionId (cell_conns cell)).
Proof. intros [[H _] _]. by rewrite map_map in H. Qed.

Lemma with_conn_tracking cell i c c' sh' pending :
  tracking cell -> cell_conns cell !! i = Some c ->
  cell_inv (with_conn cell i c' sh' pending) ->
  tracked_update (sh_registry (cell_shared cell)) c (sh_registry sh') c' ->
  (conn_left c' = true -> conn_member c' ≠ None) ->
  NoDup (map fst pending) -> (i ∈ map fst pending -> conn_member c' = None) ->
  (forall j, j ≠ i -> j ∈ map fst pending -> j ∈ map fst (cell_pending cell)) ->
  tracking (with_conn cell i c' sh' pending).
Proof.
  intros Htr Hi Hinv Hup Hl Hnd Hp Hsub. split; [done| | |done|].
  - simpl. eapply tracks_update; eauto using cell_ids_NoDup, tr_inv, tr_tracks.
  - intros j c0 Hj. apply (with_conn_lookup _ _ c) in Hj as [[-> ->]|[_ Hj]]; [done| |done].
    by apply (tr_left _ Htr j).
  - intros j c0 Hj. apply (with_conn_lookup _ _ c) in Hj as [[-> ->]|[Hne Hj]]; [done| |done].
    intros Hin. eapply (tr_pending _ Htr); [exact Hj|auto].
Qed.

Lemma onMessage_prejoin c sh now data c' sh' p :
  onMessage c sh now data = Some (c', sh', p) -> conn_member c = None -> c' = c.
Proof.
  unfold onMessage. destruct (parseRelayInbound _ _ _) as [message|]; [|by intros [= <- _ _]].
  intros H Hm. rewrite Hm in H. destruct message; simpl in H; by injection H as <- _ _.
Qed.

Lemma onMessage_pending c sh now data c' sh' m :
  onMessage c sh now data = Some (c', sh', Some m) -> conn_member c = None.
Proof.
  unfold onMessage. destruct (parseRelayInbound _ _ _); [|done].
  destruct (conn_member c); [|done]. by destruct (handlePostJoin _ _ _ _) as [[]|].
Qed.

Lemma leaveRoom_left c sh :
  (conn_left c = true -> conn_member c ≠ None) ->
  conn_left (leaveRoom c sh).1 = true -> conn_member (leaveRoom c sh).1 ≠ None.
Proof.
  intros Hl. unfold leaveRoom. case_match eqn:E; simpl; [done|]. bool_to_prop. done.
Qed.

Lemma delete_subseteq (l : list (nat * RelayJoinMessage)) k j :
  j ∈ map fst (delete k l) -> j ∈ map fst l.
Proof.
  intros Hin. apply list_elem_of_In, in_map_iff in Hin as (x & <- & Hin).
  apply list_elem_of_In, in_map, list_elem_of_In. apply list_elem_of_In in Hin.
  eapply sublist_subseteq in Hin; [exact Hin|apply sublist_delete].
Qed.

Lemma delete_pending (l : list (nat * RelayJoinMessage)) k i m :
  NoDup (map fst l) -> l !! k = Some (i, m) ->
  NoDup (map fst (delete k l)) /\ i ∉ map fst (delete k l).
Proof.
  revert k; induction l as [|[i' m'] l IH]; intros [|k]; simpl; try done.
  - intros [Hn Hd]%NoDup_cons [= -> ->]. done.
  - intros [Hn Hd]%NoDup_cons Hk. destruct (IH k Hd Hk) as [H1 H2]. split.
    + constructor; [|done]. by intros Hin%delete_subseteq.
    + rewrite elem_of_cons. intros [->|Hin]; [|done]. destruct Hn.
      apply list_elem_of_In, in_map_iff. exists (i', m). split; [done|].
      apply list_elem_of_In. by eapply list_elem_of_lookup_2.
Qed.

Lemma accepted_tracking cell connId sock ra now :
  tracking cell -> event_allowed cell (Accepted connId sock ra now) ->
  tracking {| cell_conns := cell_conns cell ++ [new_RelayConnection limits connId sock ra now];
              cell_shared := cell_shared cell; cell_pending := cell_pending cell |}.
Proof.
  intros Htr Hal. split; simpl; [apply accepted_inv, Hal; apply Htr| | |apply Htr|].
  - intros key cid. rewrite (tr_tracks _ Htr key cid). split.
    + intros (c & Hin & H). exists c. split; [|done]. apply elem_of_app. by left.
    + intros (c & [Hin| ->%list_elem_of_singleton]%elem_of_app & H); [by exists c|].
      by destruct H as (_ & [? _] & _).
  - intros i c [Hi|[_ [_ <-]%list_lookup_singleton_Some]]%lookup_app_Some; [|done].
    by apply (tr_left _ Htr i).
  - intros i c [Hi|[_ [_ <-]%list_lookup_singleton_Some]]%lookup_app_Some; [|done].
    by apply (tr_pending _ Htr i).
Qed.

Lemma orderly_step_tracking cell e cell' :
  tracking cell -> orderly_transition cell e cell' -> tracking cell'.
Proof.
  intros Htr (Hord & Hal & Hstep). pose proof (tr_inv _ Htr) as Hinv.
  destruct (cell_step_inv cell e Hinv Hal) as (cell1 & Heq & Hinv').
  assert (cell1 = cell') as -> by congruence. clear Heq.
  destruct Hinv as (Hids & Hs & _).
  destruct e as [connId sock ra now|i now data|k outcome|i]; simpl in Hstep, Hord.
  - injection Hstep as <-. by apply accepted_tracking.
  - destruct (cell_conns cell !! i) as [c|] eqn:Hi; [|simplify_eq; done].
    destruct (onMessage _ _ _ _) as [[[c1 sh1] p]|] eqn:Hmsg; [|done].
    cbn [mbind option_bind] in Hstep. injection Hstep as <-.
    pose proof (onMessage_membership _ _ _ _ _ _ _ Hmsg) as Hmem. injection Hmem as Hmem _ _.
    eapply with_conn_tracking; [done|exact Hi|done|by eapply onMessage_tracked| | | |].
    + intros Hl Hnone. assert (c1 = c) as -> by (eapply onMessage_prejoin; [done|congruence]).
      by apply (tr_left _ Htr i c Hi Hl).
    + rewrite map_app. apply NoDup_app. split_and!; [apply Htr| |destruct p; repeat constructor].
      * intros x Hx Hin. destruct p; simpl in Hin; [|by apply elem_of_nil in Hin].
        apply list_elem_of_singleton in Hin as ->. done.
      * simpl. apply not_elem_of_nil.
    + rewrite map_app, elem_of_app. intros [Hin|Hin]; [done|].
      destruct p; simpl in Hin; [|by apply elem_of_nil in Hin].
      rewrite Hmem. by eapply onMessage_pending.
    + intros j Hne. rewrite map_app, elem_of_app. intros [Hin|Hin]; [done|].
      destruct p; simpl in Hin; [|by apply elem_of_nil in Hin].
      by apply list_elem_of_singleton in Hin.
  - destruct (cell_pending cell !! k) as [[i m]|] eqn:Hk; [|simplify_eq; done].
    destruct (cell_conns cell !! i) as [c|] eqn:Hi; [|simplify_eq; done].
    destruct (delete_pending _ _ _ _ (tr_once _ Htr) Hk) as [Hnd Hni].
    assert (Hm : conn_member c = None).
    { eapply (tr_pending _ Htr); [exact Hi|]. apply list_elem_of_In, in_map_iff.
      exists (i, m). split; [done|]. apply list_elem_of_In. by eapply list_elem_of_lookup_2. }
    assert (Hl : conn_left c = false).
    { destruct (conn_left c) eqn:El; [|done]. by destruct (tr_left _ Htr i c Hi El). }
    pose proof (settled_tracked c (cell_shared cell) m
      (selectAdmissionVerifier JSON_parse admission (admission_request c m) outcome)
      (proj1 Hs) Hm Hl) as Hup. simpl in Hup.
    assert (Hleft : conn_left (admission_settled c (cell_shared cell) m
      (selectAdmissionVerifier JSON_parse admission (admission_request c m) outcome)).1 = false).
    { unfold admission_settled. destruct (selectAdmissionVerifier _ _ _ _); [|done].
      by destruct (registry_join _ _ _ _). }
    destruct (admission_settled _ _ _ _) as [c1 sh1]. injection Hstep as <-. simpl in *.
    eapply with_conn_tracking; [done|exact Hi|done|exact Hup|congruence|done|done|].
    intros j _. apply delete_subseteq.
  - destruct (cell_conns cell !! i) as [c|] eqn:Hi; [|simplify_eq; done].
    unfold onClose in Hstep.
    pose proof (leaveRoom_tracked c (cell_shared cell) (proj1 Hs)) as Hup.
    pose proof (leaveRoom_left c (cell_shared cell) (tr_left _ Htr i c Hi)) as Hl.
    destruct (leaveRoom _ _) as [c1 sh1]. injection Hstep as <-. simpl in *.
    eapply with_conn_tracking; [done|exact Hi|done|exact Hup|done|apply Htr|done|done].
Qed.

(** C3. The registry refines the set of joined connections. Along every run in
    which clients wait for the answer to their join, a room holds a member for
    a connection if and only if that connection was admitted to that room's
    session and stream and has neither left nor closed; so a room is registered
    exactly while one of its connections is joined, and no state outlives the
    last one. *)
Theorem registry_tracks_connections w es cell :
  trace orderly_transition (new_cell w) es cell ->
  (forall key cid, is_Some (registry_view (sh_registry (cell_shared cell)) key cid) <->
     exists c, c ∈ cell_conns cell /\ conn_connectionId c = cid /\
       conn_member c ≠ None /\ conn_left c = false /\
       registry_key (conn_sessionId c) (conn_streamId c) = key) /\
  (forall s st, hasRoom (sh_registry (cell_shared cell)) s st = true <->
     exists c, c ∈ cell_conns cell /\ conn_member c ≠ None /\ conn_left c = false /\
       registry_key (conn_sessionId c) (conn_streamId c) = registry_key s st).
Proof.
  intros Htr. eapply trace_invariant in Htr; [|apply (new_cell_tracking w)|exact orderly_step_tracking].
  pose proof (tr_tracks _ Htr) as Ht. unfold tracks, joined, conn_key in Ht. split.
  - intros key cid. rewrite Ht. naive_solver.
  - intros s st. destruct (tr_inv _ Htr) as (_ & [Hok _] & _). rewrite hasRoom_view by done.
    setoid_rewrite Ht. naive_solver.
Qed.

(** Without that discipline a member can outlive its connection: when the
    socket closes while its admission is pending, [onClose] finds no member,
    and the admission that resolves afterwards puts the closed connection in the
    room; closing again is the only thing that would remove it. *)
Theorem late_admission_leaks c sh m p r :
  registry_ok (sh_registry sh) -> conn_member c = None ->
  onClose c sh = (c, sh) /\
  let '(c', sh') := admission_settled c sh m (Admit p r) in
  conn_left c' = conn_left c /\
  hasRoom (sh_registry sh') (join_sessionId m) (join_streamId m) = true /\
  exists mem, registry_view (sh_registry sh') (registry_key (join_sessionId m) (join_streamId m))
    (conn_connectionId c) = Some mem /\ member_socket mem = conn_socket c.
Proof.
  intros Hok Hm. split.
  { unfold onClose, leaveRoom. rewrite Hm. by destruct (conn_left c). }
  unfold admission_settled.
  pose proof (registry_join_view (sh_registry sh) (join_sessionId m) (join_streamId m)
    (new_RoomMember (conn_connectionId c) p r (conn_socket c) (join_streamId m))
    (registry_key (join_sessionId m) (join_streamId m)) (conn_connectionId c) Hok) as Hv.
  pose proof (registry_join_ok (sh_registry sh) (join_sessionId m) (join_streamId m)
    (new_RoomMember (conn_connectionId c) p r (conn_socket c) (join_streamId m)) Hok) as Hok'.
  destruct (registry_join _ _ _ _) as [reg ref]. simpl in *.
  rewrite decide_True in Hv by done. split_and!; [done| |by eexists].
  apply hasRoom_view; [done|]. eexists. by rewrite Hv.
Qed.
End Connection.

(** ** A concrete cell, for evaluation *)

Definition demo_JSON_parse (s : string) : option json :=
  if String.eqb s "cred" then
    Some (JObj [("organizationId", JStr "org"); ("nonce", JStr "n")]%string)
  else Some (JStr s).

Definition demo_safeParse (j : json) : option RelayInboundMessage :=
  match as_string (Some j) with
  | Some s =>
      if String.eqb s "join" then
        Some (MsgJoin {| join_sessionId := "s"; join_streamId := "t"; join_credential := "cred" |})
      else if String.eqb s "leave" then Some MsgLeave
      else if String.eqb s "keys" then
        Some (MsgFrame {| frame_streamId := "t"; frame_seq := 1; frame_dir := control;
                          frame_payload := "TWFu" |})
      else None
  | None => None
  end.

Definition demo_config : ControlPlaneConfig :=
  {| controlPlaneBaseUrl := "http://cp/"; operatorToken := "op" |}.

Definition demo_grant (participant capability : string) : FetchOutcome :=
  FetchResponse true 200
    (Some (JObj [("participantId", JStr participant); ("capability", JStr capability)]%string)).

Abbreviation demo_step :=
  (cell_step demo_sockets DEFAULT_RELAY_LIMITS demo_JSON_parse demo_safeParse (Some demo_config)).

#[export] Instance event_allowed_dec (cell : Cell (W:=DemoWorld)) e : Decision (event_allowed cell e).
Proof. destruct e; simpl; solve_decision. Defined.
#[export] Instance orderly_dec (cell : Cell (W:=DemoWorld)) e : Decision (orderly cell e).
Proof. destruct e; simpl; solve_decision. Defined.

Definition demo_exec (cell : Cell (W:=DemoWorld)) (e : CellEvent) : option (Cell (W:=DemoWorld)) :=
  if decide (orderly cell e /\ event_allowed cell e) then demo_step cell e else None.

Definition demo_cell0 : Cell (W:=DemoWorld) := new_cell (fun _ => ([], 0)).

(** A driver and a viewer join; the driver sends keys; the viewer leaves. *)
Definition demo_join_events : list CellEvent :=
  [Accepted "c1" 1%nat None 0; Accepted "c2" 2%nat None 0;
   Message 0 1 "join"; Message 1 1 "join";
   AdmissionSettled 0 (demo_grant "ann" "terminal_control");
   AdmissionSettled 0 (demo_grant "bob" "view")]%string.

Lemma demo_exec_orderly cell e cell' :
  demo_exec cell e = Some cell' ->
  orderly_transition demo_sockets DEFAULT_RELAY_LIMITS demo_JSON_parse demo_safeParse
    (Some demo_config) cell e cell'.
Proof. unfold demo_exec. case_decide; [|done]. intros H1. split; [apply H|split; [apply H|done]]. Qed.

Lemma demo_exec_transition cell e cell' :
  demo_exec cell e = Some cell' ->
  cell_transition demo_sockets DEFAULT_RELAY_LIMITS demo_JSON_parse demo_safeParse
    (Some demo_config) cell e cell'.
Proof. intros H. apply (demo_exec_orderly _ _ _ H). Qed.

Definition demo_joined : Cell (W:=DemoWorld) :=
  default demo_cell0 (run_steps demo_exec demo_cell0 demo_join_events).
Definition demo_sent_keys : Cell (W:=DemoWorld) :=
  default demo_cell0 (demo_exec demo_joined (Message 0 2 "keys")).

Lemma demo_joined_run : run_steps demo_exec demo_cell0 demo_join_events = Some demo_joined.
Proof. vm_compute. reflexivity. Qed.

Lemma cell_never_stuck_witness :
  exists cell', demo_step demo_joined (Message 0 2 "keys") = Some cell' /\
    cell_conns demo_joined ≠ [].
Proof.
  destruct (cell_never_stuck demo_sockets DEFAULT_RELAY_LIMITS demo_JSON_parse demo_safeParse
    (Some demo_config) ltac:(simpl; lia) ltac:(simpl; lia) (fun _ => ([], 0))
    demo_join_events demo_joined (Message 0 2 "keys")) as [[cell' H] _].
  - apply (run_steps_trace demo_exec); [apply demo_exec_transition|apply demo_joined_run].
  - exact I.
  - exists cell'. split; [exact H|]. vm_compute. discriminate.
Defined.

Lemma forwarding_authorized_witness :
  length (sh_world (cell_shared demo_sent_keys) 2%nat).1 = 2%nat /\
  exists i now data, Message 0 2 "keys" = Message i now data /\
    exists c m, cell_conns demo_joined !! i = Some c /\ conn_member c = Some m.
Proof.
  split; [vm_compute; reflexivity|].
  destruct (forwarding_authorized demo_sockets DEFAULT_RELAY_LIMITS demo_JSON_parse demo_safeParse
    (Some demo_config) ltac:(simpl; lia) ltac:(simpl; lia) (fun _ => ([], 0))
    demo_join_events demo_joined (Message 0 2 "keys") demo_sent_keys 2%nat)
    as (i & now & data & c & f & m & He & Hi & Hm & _).
  - apply (run_steps_trace demo_exec); [apply demo_exec_transition|apply demo_joined_run].
  - apply demo_exec_transition. vm_compute. reflexivity.
  - intros i c [= <-]. vm_compute. intros [= <-]. discriminate.
  - vm_compute. discriminate.
  - exists i, now, data. split; [exact He|]. exists c, m. split; [exact Hi|exact Hm].
Defined.

Lemma registry_tracks_connections_witness :
  hasRoom (sh_registry (cell_shared demo_joined)) "s" "t" = true /\
  exists c, c ∈ cell_conns demo_joined /\ conn_left c = false.
Proof.
  destruct (registry_tracks_connections demo_sockets DEFAULT_RELAY_LIMITS demo_JSON_parse demo_safeParse
    (Some demo_config) ltac:(simpl; lia) ltac:(simpl; lia) (fun _ => ([], 0))
    demo_join_events demo_joined) as [_ Hroom].
  - apply (run_steps_trace demo_exec); [apply demo_exec_orderly|apply demo_joined_run].
  - split; [vm_compute; reflexivity|].
    destruct (proj1 (Hroom "s" "t")%string) as (c & Hin & _ & Hl & _); [vm_compute; reflexivity|].
    exists c. split; [exact Hin|exact Hl].
Defined.

Lemma late_admission_leaks_witness :
  let c := new_RelayConnection DEFAULT_RELAY_LIMITS "c1" 1%nat None 0 in
  let sh := Build_Shared new_registry (fun _ => ([], 0) : list string * Z) [] in
  let m := {| join_sessionId := "s"; join_streamId := "t"; join_credential := "cred" |} in
  onClose c sh = (c, sh) /\
  hasRoom (sh_registry (admission_settled demo_sockets c sh m (Admit "ann" driver)).2) "s" "t" = true.
Proof.
  intros c sh m. destruct (late_admission_leaks demo_sockets c sh m "ann" driver new_registry_ok eq_refl)
    as [H1 H2]. split; [exact H1|].
  destruct (admission_settled _ _ _ _ _) as [c' sh']. apply H2.
Defined.
