(* ===== verification/TerminalStream.v ===== *)
(** * The binary terminal stream protocol

    Models [src/shared/terminal-stream-protocol.ts]: a 16-byte header (kind,
    version, opcode, a reserved zero, the stream id and the two halves of a
    64-bit sequence number, little-endian) and the payload. A number field is a
    rational; [Math.floor] is [Qfloor]. *)

From Stdlib Require Import QArith Qround.
From S2P Require Import Prelude.
Local Open Scope Z_scope.

Definition TERMINAL_STREAM_KIND : Z := 0x74.
Definition TERMINAL_STREAM_VERSION : Z := 1.
Definition HEADER_BYTES : nat := 16.

Inductive TerminalStreamOpcode :=
  | Output | SnapshotStart | SnapshotChunk | SnapshotEnd | Resized | Error | Input | Resize
  | Subscribe | Unsubscribe | SnapshotRequest | Metadata | Ack | ClaimViewport.

#[export] Instance TerminalStreamOpcode_eq_dec : EqDecision TerminalStreamOpcode.
Proof. solve_decision. Defined.

(** The enum's numbers. *)
Definition opcode_number (o : TerminalStreamOpcode) : Z :=
  match o with
  | Output => 1 | SnapshotStart => 2 | SnapshotChunk => 3 | SnapshotEnd => 4 | Resized => 5
  | Error => 6 | Input => 7 | Resize => 8 | Subscribe => 9 | Unsubscribe => 10
  | SnapshotRequest => 11 | Metadata => 12 | Ack => 13 | ClaimViewport => 14
  end.

(** [isTerminalStreamOpcode], returning the opcode it recognizes. *)
Definition isTerminalStreamOpcode (value : Z) : option TerminalStreamOpcode :=
  js_find (fun o => value =? opcode_number o)
    [Output; SnapshotStart; SnapshotChunk; SnapshotEnd; Resized; Error; Input; Resize;
     Subscribe; Unsubscribe; SnapshotRequest; Metadata; Ack; ClaimViewport].

Record TerminalStreamFrame := {
  opcode : TerminalStreamOpcode;
  streamId : Z;
  seq : Q;
  payload : list Z;
}.

(** [Math.max(0, Math.floor(seq))] *)
Definition seq_integer (seq : Q) : Z := Z.max 0 (Qfloor seq).

(** [view.setUint8] and [view.setUint32(.., true)] *)
Definition setUint8 (buf : list Z) (off : nat) (v : Z) : list Z := buf_set buf off [ToUint8 v].
Definition setUint32 (buf : list Z) (off : nat) (v : Z) : list Z :=
  buf_set buf off (le_bytes 4 (ToUint32 v)).

(** [view.getUint8] and [view.getUint32(.., true)] *)
Definition getUint8 (buf : list Z) (off : nat) : Z := le_value (subarray off (off + 1) buf).
Definition getUint32 (buf : list Z) (off : nat) : Z := le_value (subarray off (off + 4) buf).

Definition encodeTerminalStreamFrame (frame : TerminalStreamFrame) : list Z :=
  let out := new_buf (HEADER_BYTES + length (payload frame)) in
  let out := setUint8 out 0 TERMINAL_STREAM_KIND in
  let out := setUint8 out 1 TERMINAL_STREAM_VERSION in
  let out := setUint8 out 2 (opcode_number (opcode frame)) in
  let out := setUint8 out 3 0 in
  let out := setUint32 out 4 (streamId frame) in
  let s := seq_integer (seq frame) in
  let out := setUint32 out 8 (s / 0x100000000) in
  let out := setUint32 out 12 (ToUint32 s) in
  buf_set out HEADER_BYTES (payload frame).

Definition decodeTerminalStreamFrame (bytes : list Z) : option TerminalStreamFrame :=
  if (length bytes <? HEADER_BYTES)%nat then None
  else if negb (getUint8 bytes 0 =? TERMINAL_STREAM_KIND)
       || negb (getUint8 bytes 1 =? TERMINAL_STREAM_VERSION) then None
  else
    match isTerminalStreamOpcode (getUint8 bytes 2) with
    | None => None
    | Some o =>
        let high := getUint32 bytes 8 in
        let low := getUint32 bytes 12 in
        Some {| opcode := o; streamId := getUint32 bytes 4;
                seq := inject_Z (js_round (high * 0x100000000 + low));
                payload := drop HEADER_BYTES bytes |}
    end.

(** ** Lemmas *)

Lemma opcode_of_number o : isTerminalStreamOpcode (opcode_number o) = Some o.
Proof. by destruct o. Qed.

Lemma isTerminalStreamOpcode_Some v o : isTerminalStreamOpcode v = Some o -> v = opcode_number o.
Proof. intros H. apply js_find_Some in H as [_ H]. by apply Z.eqb_eq in H. Qed.

(** The encoding in closed form. *)
Definition frame_bytes (o sid reserved s : Z) (p : list Z) : list Z :=
  [TERMINAL_STREAM_KIND; TERMINAL_STREAM_VERSION; o; reserved] ++
  le_bytes 4 sid ++ le_bytes 4 (s / 2 ^ 32) ++ le_bytes 4 s ++ p.

Lemma le_bytes_mod n m z : (n <= m)%nat -> le_bytes n (z mod 256 ^ Z.of_nat m) = le_bytes n z.
Proof.
  revert m z; induction n as [|n IH]; intros m z Hm; [done|]. destruct m as [|m]; [lia|].
  cbn [le_bytes]. rewrite Nat2Z.inj_succ, Z.pow_succ_r by lia.
  assert (0 < 256 ^ Z.of_nat m) by (apply Z.pow_pos_nonneg; lia).
  rewrite Z.rem_mul_r by lia. f_equal.
  - rewrite Z.mul_comm, Z_mod_plus_full. by rewrite Zmod_mod.
  - rewrite (Z.mul_comm 256), Z.div_add, Z.div_small, Z.add_0_l by (try apply Z.mod_pos_bound; lia).
    apply IH. lia.
Qed.

Lemma le_bytes_ToUint32 z : le_bytes 4 (ToUint32 z) = le_bytes 4 z.
Proof. apply (le_bytes_mod 4 4). lia. Qed.

Lemma encode_bytes f :
  encodeTerminalStreamFrame f =
  frame_bytes (opcode_number (opcode f)) (streamId f) 0 (seq_integer (seq f)) (payload f).
Proof.
  unfold encodeTerminalStreamFrame, frame_bytes, setUint8, setUint32.
  rewrite !le_bytes_ToUint32. change 0x100000000 with (2 ^ 32).
  generalize (seq_integer (seq f)) as s, (streamId f) as sid. intros s sid.
  destruct (le_bytes 4 sid) as [|a1 [|a2 [|a3 [|a4 [|]]]]] eqn:Ea; try done.
  destruct (le_bytes 4 (s / 2 ^ 32)) as [|b1 [|b2 [|b3 [|b4 [|]]]]] eqn:Eb; try done.
  destruct (le_bytes 4 s) as [|c1 [|c2 [|c3 [|c4 [|]]]]] eqn:Ec; try done.
  unfold new_buf. rewrite replicate_add. unfold buf_set. simpl.
  rewrite drop_0, (drop_ge (replicate _ _)) by (rewrite length_replicate; lia).
  by rewrite app_nil_r; destruct (opcode f).
Qed.

Lemma decode_frame_bytes o sid reserved s p :
  decodeTerminalStreamFrame (frame_bytes (opcode_number o) sid reserved s p) =
  Some {| opcode := o; streamId := ToUint32 sid;
          seq := inject_Z (js_round (ToUint32 (s / 2 ^ 32) * 2 ^ 32 + ToUint32 s)); payload := p |}.
Proof.
  assert (Hv : forall z, ToUint32 z = le_value (le_bytes 4 z)) by (intros z; by rewrite le_value_bytes).
  rewrite !Hv. unfold frame_bytes.
  destruct (le_bytes 4 sid) as [|a1 [|a2 [|a3 [|a4 [|]]]]] eqn:Ea; try done.
  destruct (le_bytes 4 (s / 2 ^ 32)) as [|b1 [|b2 [|b3 [|b4 [|]]]]] eqn:Eb; try done.
  destruct (le_bytes 4 s) as [|c1 [|c2 [|c3 [|c4 [|]]]]] eqn:Ec; try done.
  unfold decodeTerminalStreamFrame. simpl.
  replace (getUint8 _ 2) with (opcode_number o) by (unfold getUint8; simpl; lia).
  by rewrite opcode_of_number.
Qed.

(** Round trip. Decoding an encoded frame gives the frame back, its stream id
    reduced to 32 bits and its sequence number to the non-negative integer below
    it, for every sequence number below 2^64 that is a double. *)
Theorem decode_encode f :
  0 <= seq_integer (seq f) < 2 ^ 64 -> js_round (seq_integer (seq f)) = seq_integer (seq f) ->
  decodeTerminalStreamFrame (encodeTerminalStreamFrame f) =
  Some {| opcode := opcode f; streamId := ToUint32 (streamId f);
          seq := inject_Z (seq_integer (seq f)); payload := payload f |}.
Proof.
  intros Hs Hr. rewrite encode_bytes, decode_frame_bytes. unfold ToUint32 in *.
  rewrite (Z.mod_small (_ / _)).
  - rewrite (Z.mul_comm _ (2 ^ 32)), <- Z.div_mod by lia. by rewrite Hr.
  - split; [apply Z.div_pos; lia|apply Z.div_lt_upper_bound; lia].
Qed.

(** Decoding accepts only well-formed frames: what it accepts is, the reserved
    byte apart, the encoding of what it returns, whenever the sequence number is
    below 2^53 (where doubles are exact); nothing shorter than the header, of
    another kind or version, or of an unknown opcode is accepted. *)
Theorem decode_sound bytes f :
  bytes_ok bytes -> decodeTerminalStreamFrame bytes = Some f ->
  getUint32 bytes 8 < 2 ^ 21 ->
  exists reserved, byte_ok reserved /\ encodeTerminalStreamFrame f = <[3%nat := 0]> bytes /\
    bytes !! 3%nat = Some reserved.
Proof.
  intros Hok Hdec Hhigh. unfold decodeTerminalStreamFrame in Hdec.
  destruct (Nat.ltb_spec (length bytes) HEADER_BYTES) as [|Hlen]; [done|]. unfold HEADER_BYTES in Hlen.
  destruct bytes as [|k [|v [|o [|r [|a1 [|a2 [|a3 [|a4 [|b1 [|b2 [|b3 [|b4 [|c1 [|c2 [|c3 [|c4 p]]]]]]]]]]]]]]]];
    simpl in Hlen; try lia. clear Hlen.
  repeat (apply Forall_cons in Hok as [? Hok]).
  case_match eqn:Hkv; [done|]. apply orb_false_iff in Hkv as [Hk Hv]. bool_to_prop.
  destruct (isTerminalStreamOpcode _) as [oc|] eqn:Ho; [|done]. injection Hdec as <-.
  apply isTerminalStreamOpcode_Some in Ho.
  exists r. split; [done|]. split; [|done]. rewrite encode_bytes. cbn [seq opcode streamId payload].
  unfold getUint8, getUint32 in *. simpl in Hk, Hv, Ho, Hhigh. unfold byte_ok in *.
  set (bv := le_value [b1; b2; b3; b4]). set (cv := le_value [c1; c2; c3; c4]).
  assert (Hcv : 0 <= cv < 2 ^ 32) by (subst cv; simpl; lia).
  assert (Hbv : 0 <= bv < 2 ^ 21) by (subst bv; simpl in *; lia).
  unfold seq_integer. unfold subarray. cbn [Nat.add Nat.sub firstn skipn].
  rewrite take_0, drop_0. change (le_value [b1; b2; b3; b4]) with bv.
  change (le_value [c1; c2; c3; c4]) with cv. change 4294967296 with (2 ^ 32).
  rewrite js_round_exact by lia. rewrite Qfloor_Z, Z.max_r by lia. unfold frame_bytes.
  rewrite Z.div_add_l, Z.div_small, Z.add_0_r by lia.
  assert (Hc : le_bytes 4 (bv * 2 ^ 32 + cv) = le_bytes 4 cv).
  { rewrite <- (le_bytes_ToUint32 (_ + _)). unfold ToUint32. rewrite Z.add_comm, Z_mod_plus_full.
    apply le_bytes_ToUint32. }
  rewrite Hc. subst bv cv.
  pose proof (le_bytes_value [a1; a2; a3; a4] ltac:(repeat constructor; unfold byte_ok; lia)) as HA.
  pose proof (le_bytes_value [b1; b2; b3; b4] ltac:(repeat constructor; unfold byte_ok; lia)) as HB.
  pose proof (le_bytes_value [c1; c2; c3; c4] ltac:(repeat constructor; unfold byte_ok; lia)) as HC.
  cbn [length] in HA, HB, HC. rewrite HA, HB, HC. simpl. repeat f_equal; lia.
Qed.

Lemma decode_encode_witness :
  decodeTerminalStreamFrame (encodeTerminalStreamFrame
    {| opcode := Ack; streamId := 7; seq := inject_Z (2 ^ 40 + 5); payload := [1; 2] |}) =
  Some {| opcode := Ack; streamId := 7; seq := inject_Z (2 ^ 40 + 5); payload := [1; 2] |}.
Proof.
  apply (decode_encode {| opcode := Ack; streamId := 7; seq := inject_Z (2 ^ 40 + 5); payload := [1; 2] |}).
  - vm_compute. split; [discriminate|reflexivity].
  - vm_compute. reflexivity.
Defined.

Lemma decode_sound_witness :
  exists f reserved,
    decodeTerminalStreamFrame [116; 1; 7; 9; 1; 0; 0; 0; 0; 0; 0; 0; 3; 0; 0; 0; 65] = Some f /\
    encodeTerminalStreamFrame f = [116; 1; 7; 0; 1; 0; 0; 0; 0; 0; 0; 0; 3; 0; 0; 0; 65] /\
    reserved = 9.
Proof.
  destruct (decode_sound [116; 1; 7; 9; 1; 0; 0; 0; 0; 0; 0; 0; 3; 0; 0; 0; 65]
    {| opcode := Input; streamId := 1; seq := inject_Z 3; payload := [65] |})
    as (r & _ & Henc & Hr).
  - repeat constructor; unfold byte_ok; lia.
  - vm_compute. reflexivity.
  - vm_compute. reflexivity.
  - eexists _, r. split; [vm_compute; reflexivity|]. split; [exact Henc|]. by injection Hr.
Defined.
