(* ===== verification/E2eeFraming.v ===== *)
(** * E2EE v2 frames

    Models [src/shared/mobile-e2ee-v2-framing.ts]. The secret box ([tweetnacl])
    is a parameter with the facts its documentation states. Counters are bigints,
    exact integers. *)

From S2P Require Import Prelude Json.
Local Open Scope Z_scope.

Inductive MobileE2EEDirection := mobile_to_desktop | desktop_to_mobile.
Inductive MobileE2EEPayloadKind := text | binary.

#[export] Instance MobileE2EEDirection_eq_dec : EqDecision MobileE2EEDirection.
Proof. solve_decision. Defined.
#[export] Instance MobileE2EEPayloadKind_eq_dec : EqDecision MobileE2EEPayloadKind.
Proof. solve_decision. Defined.

Definition NONCE_LENGTH : nat := 24.
Definition SESSION_ID_LENGTH : nat := 32.
Definition HEADER_LENGTH : nat := SESSION_ID_LENGTH + 1 + 1 + 8.
Definition FRAME_VERSION : Z := 2.
Definition MAX_COUNTER : Z := Z.shiftl 1 64 - 1.

(** ** Bytes *)

Definition directionByte (d : MobileE2EEDirection) : Z :=
  match d with mobile_to_desktop => 0 | desktop_to_mobile => 1 end.
Definition payloadKindByte (k : MobileE2EEPayloadKind) : Z :=
  match k with text => 0 | binary => 1 end.

(** The loop of [writeUint64], for the indices [n-1 .. 0]. *)
Fixpoint writeUint64_loop (n : nat) (target : list Z) (offset : nat) (remaining : Z) : list Z :=
  match n with
  | O => target
  | S n =>
      writeUint64_loop n (<[(offset + n)%nat := Z.land remaining 0xff]> target) offset
        (Z.shiftr remaining 8)
  end.
Definition writeUint64 (target : list Z) (offset : nat) (value : Z) : list Z :=
  writeUint64_loop 8 target offset value.

(** The loop of [concatBytes] over the parts, writing each at its offset. *)
Fixpoint concatBytes_loop (result : list Z) (offset : nat) (parts : list (list Z)) : list Z :=
  match parts with
  | [] => result
  | part :: parts => concatBytes_loop (buf_set result offset part) (offset + length part) parts
  end.
Definition concatBytes (parts : list (list Z)) : list Z :=
  concatBytes_loop (new_buf (foldl (fun total part => (total + length part)%nat) O parts)) 0 parts.

(** The constant-time comparison. *)
Definition equalBytes (left right : list Z) : bool :=
  if negb (length left =? length right)%nat then false
  else foldl (fun difference '(x, y) => Z.lor difference (Z.lxor x y)) 0 (zip left right) =? 0.

(** The fields a header and a nonce are made of. *)
Record FrameFields := {
  ff_sessionId : list Z;
  ff_direction : MobileE2EEDirection;
  ff_payloadKind : MobileE2EEPayloadKind;
  ff_counter : Z;
}.
#[export] Instance FrameFields_eq_dec : EqDecision FrameFields.
Proof. solve_decision. Defined.

Definition encodeHeader (args : FrameFields) : list Z :=
  let header := new_buf HEADER_LENGTH in
  let header := buf_set header 0 (ff_sessionId args) in
  let header := <[SESSION_ID_LENGTH := directionByte (ff_direction args)]> header in
  let header := <[S SESSION_ID_LENGTH := payloadKindByte (ff_payloadKind args)]> header in
  writeUint64 header (SESSION_ID_LENGTH + 2) (ff_counter args).

Definition encodeNonce (args : FrameFields) : list Z :=
  let nonce := new_buf NONCE_LENGTH in
  let nonce := buf_set nonce 0 (subarray 0 12 (ff_sessionId args)) in
  let nonce := <[12%nat := FRAME_VERSION]> nonce in
  let nonce := <[13%nat := directionByte (ff_direction args)]> nonce in
  let nonce := <[14%nat := payloadKindByte (ff_payloadKind args)]> nonce in
  let nonce := <[15%nat := 0]> nonce in
  writeUint64 nonce 16 (ff_counter args).

(** What the code relies on of [nacl.secretbox]. *)
Record SecretBox := {
  secretbox : list Z -> list Z -> list Z -> list Z;
  secretbox_open : list Z -> list Z -> list Z -> option (list Z);
  overheadLength : nat;
  keyLength : nat;
}.

Class SecretBoxLaws (nacl : SecretBox) := {
  (** opening what was sealed under the same nonce and key gives it back *)
  open_secretbox m n k : secretbox_open nacl (secretbox nacl m n k) n k = Some m;
  (** the box is the message and a tag *)
  length_secretbox m n k : length (secretbox nacl m n k) = (overheadLength nacl + length m)%nat;
  (** it is a byte array *)
  secretbox_bytes m n k : bytes_ok m -> bytes_ok (secretbox nacl m n k);
}.

Section Framing.
Context (nacl : SecretBox).

Definition validateFrameInputs (key sessionId : list Z) (counter : Z) : result unit :=
  if negb (length key =? keyLength nacl)%nat then
    Throw ("Invalid E2EE v2 key length: " +:+ int_string (Z.of_nat (length key)))
  else if negb (length sessionId =? SESSION_ID_LENGTH)%nat then
    Throw ("Invalid E2EE v2 session ID length: " +:+ int_string (Z.of_nat (length sessionId)))
  else if (counter <? 0) || (MAX_COUNTER <? counter) then
    Throw ("Invalid E2EE v2 counter: " +:+ int_string counter)
  else Ok tt.

Definition sealMobileE2EEV2Frame (payload key : list Z) (args : FrameFields) : result (list Z) :=
  _ ← validateFrameInputs key (ff_sessionId args) (ff_counter args);
  let header := encodeHeader args in
  let nonce := encodeNonce args in
  let plaintext := concatBytes [header; payload] in
  let ciphertext := secretbox nacl plaintext nonce key in
  Ok (concatBytes [nonce; ciphertext]).

Definition openMobileE2EEV2Frame (frame key : list Z) (expected : FrameFields)
    : result (option (list Z)) :=
  _ ← validateFrameInputs key (ff_sessionId expected) (ff_counter expected);
  if (length frame <? NONCE_LENGTH + overheadLength nacl + HEADER_LENGTH)%nat then Ok None
  else
    let nonce := encodeNonce expected in
    if negb (equalBytes (subarray 0 NONCE_LENGTH frame) nonce) then Ok None
    else
      match secretbox_open nacl (drop NONCE_LENGTH frame) nonce key with
      | None => Ok None
      | Some plaintext =>
          let header := encodeHeader expected in
          if negb (equalBytes (subarray 0 HEADER_LENGTH plaintext) header) then Ok None
          else Ok (Some (drop HEADER_LENGTH plaintext))
      end.
End Framing.

(** ** Lemmas *)

Lemma concat_sizes parts n :
  foldl (fun total part => (total + length part)%nat) n parts = (n + length (mjoin (M:=list) (A:=Z) parts))%nat.
Proof.
  revert n; induction parts as [|p parts IH]; intros n; simpl; [lia|].
  rewrite IH, length_app. lia.
Qed.

Lemma concatBytes_loop_spec parts pre rest :
  (length (mjoin parts) <= length rest)%nat ->
  concatBytes_loop (pre ++ rest) (length pre) parts =
  pre ++ mjoin parts ++ drop (length (mjoin parts)) rest.
Proof.
  revert pre rest; induction parts as [|p parts IH]; intros pre rest H; simpl in *.
  - by rewrite drop_0.
  - rewrite length_app in H. rewrite (buf_set_append pre rest p (length pre)) by (done || lia).
    rewrite app_assoc, <- length_app, IH by (rewrite length_drop; lia).
    by rewrite drop_drop, length_app, <- !app_assoc.
Qed.

(** [concatBytes] is concatenation. *)
Lemma concatBytes_join parts : concatBytes parts = mjoin parts.
Proof.
  unfold concatBytes. rewrite concat_sizes, Nat.add_0_l.
  pose proof (concatBytes_loop_spec parts [] (new_buf (length (mjoin parts)))) as H.
  cbn [app length] in H. rewrite H by (by rewrite length_new_buf).
  rewrite drop_ge by (by rewrite length_new_buf). by rewrite app_nil_r.
Qed.

Lemma lor_zero a b : Z.lor a b = 0 <-> a = 0 /\ b = 0.
Proof. apply Z.lor_eq_0_iff. Qed.

Lemma equalBytes_fold left right d :
  length left = length right ->
  foldl (fun difference '(x, y) => Z.lor difference (Z.lxor x y)) d (zip left right) = 0 <->
  d = 0 /\ left = right.
Proof.
  revert right d; induction left as [|x left IH]; intros [|y right] d Hl; simpl in *; try done.
  - naive_solver.
  - rewrite IH, lor_zero, Z.lxor_eq_0_iff by lia. naive_solver.
Qed.

(** The constant-time comparison decides equality. *)
Lemma equalBytes_true left right : equalBytes left right = true <-> left = right.
Proof.
  unfold equalBytes. destruct (Nat.eqb_spec (length left) (length right)) as [Hl|Hl]; simpl.
  - rewrite Z.eqb_eq, equalBytes_fold by done. naive_solver.
  - split; [done|congruence].
Qed.

Lemma equalBytes_refl l : equalBytes l l = true.
Proof. by apply equalBytes_true. Qed.

Lemma land_255 z : Z.land z 0xff = z mod 256.
Proof. change 0xff with (Z.ones 8). by rewrite Z.land_ones by lia. Qed.

(** Eight stores of [writeUint64] are one store of the big-endian bytes. *)
Lemma writeUint64_append pre a0 a1 a2 a3 a4 a5 a6 a7 rest value off :
  off = length pre ->
  writeUint64 (pre ++ a0 :: a1 :: a2 :: a3 :: a4 :: a5 :: a6 :: a7 :: rest) off value =
  pre ++ be_bytes 8 value ++ rest.
Proof.
  intros ->. unfold writeUint64, be_bytes. cbn [writeUint64_loop].
  rewrite !land_255, !Z.shiftr_shiftr by lia. rewrite !Z.shiftr_div_pow2 by lia.
  rewrite !insert_app_r. cbn [insert list_insert]. cbn [le_bytes].
  rewrite !Z.div_div by lia. reflexivity.
Qed.

Lemma encodeHeader_bytes args :
  length (ff_sessionId args) = SESSION_ID_LENGTH ->
  encodeHeader args = ff_sessionId args ++
    [directionByte (ff_direction args); payloadKindByte (ff_payloadKind args)] ++
    be_bytes 8 (ff_counter args).
Proof.
  intros Hl. unfold encodeHeader, new_buf.
  rewrite (buf_set_append [] (replicate HEADER_LENGTH 0) _ 0) by (done || (rewrite Hl; unfold HEADER_LENGTH, SESSION_ID_LENGTH; simpl; lia)).
  rewrite Hl. simpl app. change (drop SESSION_ID_LENGTH (replicate HEADER_LENGTH 0)) with (replicate 10 0).
  replace (<[SESSION_ID_LENGTH := _]> (ff_sessionId args ++ replicate 10 0)) with
    (ff_sessionId args ++ directionByte (ff_direction args) :: replicate 9 0)
    by (rewrite <- Hl, insert_app_r_alt, Nat.sub_diag by lia; done).
  replace (<[S SESSION_ID_LENGTH := _]> _) with
    ((ff_sessionId args ++ [directionByte (ff_direction args); payloadKindByte (ff_payloadKind args)])
       ++ replicate 8 0)
    by (rewrite insert_app_r_alt, Hl by (unfold SESSION_ID_LENGTH in *; lia); rewrite <- app_assoc; done).
  simpl replicate. rewrite writeUint64_append by (rewrite length_app, Hl; done).
  by rewrite app_nil_r, <- app_assoc.
Qed.

Lemma encodeNonce_bytes args :
  length (ff_sessionId args) = SESSION_ID_LENGTH ->
  encodeNonce args = take 12 (ff_sessionId args) ++
    [FRAME_VERSION; directionByte (ff_direction args); payloadKindByte (ff_payloadKind args); 0] ++
    be_bytes 8 (ff_counter args).
Proof.
  intros Hl. unfold encodeNonce, new_buf, subarray. rewrite drop_0, Nat.sub_0_r.
  assert (Hp : length (take 12 (ff_sessionId args)) = 12%nat)
    by (rewrite length_take, Hl; done).
  generalize dependent (take 12 (ff_sessionId args)). intros p Hp.
  rewrite (buf_set_append [] (replicate NONCE_LENGTH 0) _ 0) by (done || (rewrite Hp; unfold NONCE_LENGTH; simpl; lia)).
  rewrite Hp. simpl app. change (drop 12 (replicate NONCE_LENGTH 0)) with (replicate 12 0).
  do 12 (destruct p as [|? p]; [done|]). destruct p; [|done]. simpl app. cbn [insert list_insert].
  simpl replicate.
  match goal with |- writeUint64 ?l _ _ = _ =>
    exact (writeUint64_append (take 16 l) 0 0 0 0 0 0 0 0 [] (ff_counter args) 16 eq_refl) end.
Qed.

Lemma fields_bytes (d : MobileE2EEDirection) (k : MobileE2EEPayloadKind) :
  byte_ok (directionByte d) /\ byte_ok (payloadKindByte k).
Proof. unfold byte_ok. by destruct d, k. Qed.

Lemma encodeHeader_ok args :
  length (ff_sessionId args) = SESSION_ID_LENGTH -> bytes_ok (ff_sessionId args) ->
  bytes_ok (encodeHeader args).
Proof.
  intros Hl Hb. rewrite encodeHeader_bytes by done.
  destruct (fields_bytes (ff_direction args) (ff_payloadKind args)).
  apply Forall_app. split; [done|]. apply Forall_app. split; [|auto with pie].
  constructor; [done|]. constructor; [done|constructor].
Qed.

Lemma encodeNonce_ok args :
  length (ff_sessionId args) = SESSION_ID_LENGTH -> bytes_ok (ff_sessionId args) ->
  bytes_ok (encodeNonce args).
Proof.
  intros Hl Hb. rewrite encodeNonce_bytes by done.
  destruct (fields_bytes (ff_direction args) (ff_payloadKind args)).
  apply Forall_app. split; [by apply Forall_take|]. apply Forall_app. split; [|auto with pie].
  do 3 (constructor; [done|]). constructor; [done|constructor].
Qed.

Lemma length_encodeHeader args :
  length (ff_sessionId args) = SESSION_ID_LENGTH -> length (encodeHeader args) = HEADER_LENGTH.
Proof. intros H. by rewrite encodeHeader_bytes, !length_app, H, length_be_bytes. Qed.

Lemma length_encodeNonce args :
  length (ff_sessionId args) = SESSION_ID_LENGTH -> length (encodeNonce args) = NONCE_LENGTH.
Proof.
  intros H. rewrite encodeNonce_bytes, !length_app, length_take, length_be_bytes, H by done. done.
Qed.

Lemma direction_kind_inj d d' k k' :
  directionByte d = directionByte d' -> payloadKindByte k = payloadKindByte k' -> d = d' /\ k = k'.
Proof. by destruct d, d', k, k'. Qed.

Definition counter_ok (n : Z) : Prop := 0 <= n <= MAX_COUNTER.

Lemma counter_inj n n' :
  counter_ok n -> counter_ok n' -> be_bytes 8 n = be_bytes 8 n' -> n = n'.
Proof.
  unfold counter_ok. change MAX_COUNTER with (2 ^ 64 - 1). intros Hn Hn' H.
  apply (be_bytes_inj 8); [| |exact H]; change (256 ^ Z.of_nat 8) with (2 ^ 64); lia.
Qed.


(** Under one session, the nonce determines direction, kind and counter. *)
Lemma encodeNonce_inj a b :
  length (ff_sessionId a) = SESSION_ID_LENGTH -> length (ff_sessionId b) = SESSION_ID_LENGTH ->
  counter_ok (ff_counter a) -> counter_ok (ff_counter b) ->
  encodeNonce a = encodeNonce b ->
  take 12 (ff_sessionId a) = take 12 (ff_sessionId b) /\ ff_direction a = ff_direction b /\
  ff_payloadKind a = ff_payloadKind b /\ ff_counter a = ff_counter b.
Proof.
  intros Ha Hb Hca Hcb. rewrite !encodeNonce_bytes by done. intros H.
  apply app_inj_1 in H as [Hs H]; [|by rewrite !length_take, Ha, Hb].
  apply (app_inj_1 [_; _; _; _] [_; _; _; _]) in H as [Hdk Hn]; [|done].
  injection Hdk as Hd Hk. split; [done|].
  destruct (direction_kind_inj (ff_direction a) (ff_direction b) (ff_payloadKind a) (ff_payloadKind b));
    [done|done|]. split_and!; [done|done|]. by apply counter_inj.
Qed.

Lemma encodeHeader_inj a b :
  length (ff_sessionId a) = SESSION_ID_LENGTH -> length (ff_sessionId b) = SESSION_ID_LENGTH ->
  counter_ok (ff_counter a) -> counter_ok (ff_counter b) ->
  encodeHeader a = encodeHeader b -> a = b.
Proof.
  intros Ha Hb Hca Hcb. rewrite !encodeHeader_bytes by done. intros H.
  apply app_inj_1 in H as [Hs H]; [|by rewrite Ha, Hb].
  apply (app_inj_1 [_; _] [_; _]) in H as [Hdk Hn]; [|done]. injection Hdk as Hd Hk.
  destruct a as [s d k n], b as [s' d' k' n']. simpl in *. subst s'.
  destruct (direction_kind_inj d d' k k') as [-> ->]; [done..|].
  by rewrite (counter_inj n n').
Qed.

Section FramingLaws.
Context (nacl : SecretBox) `{HN : !SecretBoxLaws nacl}.

(** What [validateFrameInputs] lets through. *)
Definition inputs_ok (key : list Z) (a : FrameFields) : Prop :=
  length key = keyLength nacl /\ length (ff_sessionId a) = SESSION_ID_LENGTH /\
  counter_ok (ff_counter a).

Lemma validateFrameInputs_ok key a :
  inputs_ok key a -> validateFrameInputs nacl key (ff_sessionId a) (ff_counter a) = Ok tt.
Proof.
  intros (Hk & Hs & Hc). unfold validateFrameInputs. rewrite Hk, Hs, !Nat.eqb_refl. simpl.
  unfold counter_ok in Hc. destruct (Z.ltb_spec (ff_counter a) 0), (Z.ltb_spec MAX_COUNTER (ff_counter a));
    simpl; done || lia.
Qed.

Lemma validateFrameInputs_cases key a :
  validateFrameInputs nacl key (ff_sessionId a) (ff_counter a) = Ok tt /\ inputs_ok key a \/
  exists m, validateFrameInputs nacl key (ff_sessionId a) (ff_counter a) = Throw m /\ ~ inputs_ok key a.
Proof.
  unfold validateFrameInputs, inputs_ok, counter_ok.
  destruct (Nat.eqb_spec (length key) (keyLength nacl)); simpl; [|right; naive_solver].
  destruct (Nat.eqb_spec (length (ff_sessionId a)) SESSION_ID_LENGTH); simpl; [|right; naive_solver].
  destruct (Z.ltb_spec (ff_counter a) 0); simpl; [right; eexists; split; [done|lia]|].
  destruct (Z.ltb_spec MAX_COUNTER (ff_counter a)); simpl; [right; eexists; split; [done|lia]|].
  left. split; [done|lia].
Qed.

Lemma seal_ok payload key a :
  inputs_ok key a ->
  sealMobileE2EEV2Frame nacl payload key a =
  Ok (encodeNonce a ++ secretbox nacl (encodeHeader a ++ payload) (encodeNonce a) key).
Proof.
  intros H. unfold sealMobileE2EEV2Frame. rewrite validateFrameInputs_ok by done. simpl.
  rewrite !concatBytes_join. simpl. by rewrite !app_nil_r.
Qed.

Lemma open_sealed payload key a b :
  inputs_ok key a -> inputs_ok key b ->
  openMobileE2EEV2Frame nacl
    (encodeNonce a ++ secretbox nacl (encodeHeader a ++ payload) (encodeNonce a) key) key b =
  Ok (if bool_decide (a = b) then Some payload else None).
Proof.
  intros Ha Hb. pose proof Ha as (_ & Hsa & Hca). pose proof Hb as (_ & Hsb & Hcb).
  unfold openMobileE2EEV2Frame. rewrite validateFrameInputs_ok by done. cbn [mbind result_bind].
  pose proof (length_encodeNonce a Hsa) as Hna. pose proof (length_encodeHeader a Hsa) as Hha.
  rewrite length_app, length_secretbox, length_app, Hna, Hha.
  rewrite (proj2 (Nat.ltb_ge _ _)) by lia.
  unfold subarray at 1. rewrite drop_0, Nat.sub_0_r, take_app_length' by done.
  rewrite drop_app_length' by done.
  destruct (equalBytes (encodeNonce a) (encodeNonce b)) eqn:En; simpl; cycle 1.
  { rewrite bool_decide_false; [done|]. intros ->. by rewrite equalBytes_refl in En. }
  apply equalBytes_true in En. rewrite <- En, open_secretbox.
  unfold subarray. rewrite drop_0, Nat.sub_0_r, take_app_length', drop_app_length' by done.
  destruct (equalBytes (encodeHeader a) (encodeHeader b)) eqn:Eh; simpl.
  - apply equalBytes_true in Eh. rewrite bool_decide_true; [done|]. by apply encodeHeader_inj.
  - rewrite bool_decide_false; [done|]. intros ->. by rewrite equalBytes_refl in Eh.
Qed.

(** C35. Sealing then opening, under any pair of parameters. With valid inputs sealing
    succeeds, and the frame opens to the payload exactly when the receiver expects
    the same session, direction, payload kind and counter the sender used: a frame
    replayed at another position, reflected in the other direction, presented as
    the other kind or moved to another session under the same key is refused, and
    refusal is a null, never an exception. *)
Theorem open_seal_exact payload key a b :
  length key = keyLength nacl ->
  length (ff_sessionId a) = SESSION_ID_LENGTH -> length (ff_sessionId b) = SESSION_ID_LENGTH ->
  0 <= ff_counter a <= MAX_COUNTER -> 0 <= ff_counter b <= MAX_COUNTER ->
  exists frame, sealMobileE2EEV2Frame nacl payload key a = Ok frame /\
    openMobileE2EEV2Frame nacl frame key b = Ok (if bool_decide (a = b) then Some payload else None).
Proof.
  intros Hk Ha Hb Hca Hcb. eexists. split; [by apply seal_ok|]. by apply open_sealed.
Qed.

(** Nonces never repeat: under one key and session, two frames sealed with the
    same nonce prefix have the same direction, payload kind and counter; the
    exceptions are only bad lengths and counters out of the 64-bit range. *)
Theorem seal_nonce_unique payload payload' key a b frame frame' :
  sealMobileE2EEV2Frame nacl payload key a = Ok frame ->
  sealMobileE2EEV2Frame nacl payload' key b = Ok frame' ->
  take NONCE_LENGTH frame = take NONCE_LENGTH frame' ->
  ff_direction a = ff_direction b /\ ff_payloadKind a = ff_payloadKind b /\
  ff_counter a = ff_counter b /\ (ff_sessionId a = ff_sessionId b -> a = b).
Proof.
  intros Hf Hf' Heq.
  assert (Hok : forall p x fr, sealMobileE2EEV2Frame nacl p key x = Ok fr ->
    inputs_ok key x /\ take NONCE_LENGTH fr = encodeNonce x).
  { intros p x fr Hx. destruct (validateFrameInputs_cases key x) as [[_ Hi]|(m & Hv & _)].
    - split; [done|]. rewrite seal_ok in Hx by done. injection Hx as <-.
      apply take_app_length'. symmetry. apply length_encodeNonce, Hi.
    - unfold sealMobileE2EEV2Frame in Hx. by rewrite Hv in Hx. }
  apply Hok in Hf as [(_ & Ha & Hca) Hna]. apply Hok in Hf' as [(_ & Hb & Hcb) Hnb].
  rewrite Hna, Hnb in Heq. apply encodeNonce_inj in Heq as (_ & Hd & Hk & Hc); [|done..].
  split_and!; [done..|]. intros Hs. destruct a, b. simpl in *. congruence.
Qed.
End FramingLaws.

(** ** A concrete secret box, for evaluation *)

(** A box that prefixes nonce and key: nothing secret, but it obeys the laws. *)
Definition demo_box : SecretBox := {|
  secretbox m n k := replicate 16 ((sumZ n + sumZ k) mod 256) ++ m;
  secretbox_open c n k :=
    if bool_decide (take 16 c = replicate 16 ((sumZ n + sumZ k) mod 256)) then Some (drop 16 c) else None;
  overheadLength := 16; keyLength := 32 |}.

#[export] Instance demo_box_laws : SecretBoxLaws demo_box.
Proof.
  split; intros m n k; cbn [secretbox secretbox_open overheadLength demo_box].
  - rewrite take_app_length' by done. rewrite bool_decide_true by done. by rewrite drop_app_length'.
  - by rewrite length_app, length_replicate.
  - intros Hm. apply Forall_app. split; [|done]. apply Forall_replicate. apply Z.mod_pos_bound. lia.
Defined.

Definition demo_fields (d : MobileE2EEDirection) (n : Z) : FrameFields :=
  {| ff_sessionId := replicate 32 7; ff_direction := d; ff_payloadKind := text; ff_counter := n |}.

Lemma open_seal_exact_witness :
  exists frame, sealMobileE2EEV2Frame demo_box [1; 2] (replicate 32 9) (demo_fields mobile_to_desktop 3) = Ok frame /\
    openMobileE2EEV2Frame demo_box frame (replicate 32 9) (demo_fields mobile_to_desktop 4) = Ok None.
Proof.
  destruct (open_seal_exact demo_box [1; 2] (replicate 32 9) (demo_fields mobile_to_desktop 3)
    (demo_fields mobile_to_desktop 4)) as (frame & Hs & Ho);
    [reflexivity|reflexivity|reflexivity|vm_compute; split; discriminate|vm_compute; split; discriminate|].
  exists frame. split; [exact Hs|exact Ho].
Defined.

Lemma seal_nonce_unique_witness :
  exists frame, sealMobileE2EEV2Frame demo_box [1] (replicate 32 9) (demo_fields desktop_to_mobile 0) = Ok frame /\
    ff_counter (demo_fields desktop_to_mobile 0) = 0.
Proof.
  eexists. split; [vm_compute; reflexivity|].
  apply (seal_nonce_unique demo_box [1] [2] (replicate 32 9) (demo_fields desktop_to_mobile 0)
    (demo_fields desktop_to_mobile 0) (default [] (match sealMobileE2EEV2Frame demo_box [1]
      (replicate 32 9) (demo_fields desktop_to_mobile 0) with Ok f => Some f | Throw _ => None end))
    (default [] (match sealMobileE2EEV2Frame demo_box [2]
      (replicate 32 9) (demo_fields desktop_to_mobile 0) with Ok f => Some f | Throw _ => None end)));
    vm_compute; reflexivity.
Defined.
