(* ===== verification/E2eeContract.v ===== *)
(** * The E2EE v2 handshake contract

    Models [src/shared/mobile-e2ee-v2-contract.ts]: the strict validation of a
    hello and a ready message, and the transcript both ends hash. Text is UTF-8
    bytes, so [utf8] is the identity on them. *)

From stdpp Require Import sorting.
From S2P Require Import Prelude Json Base64 E2eeFraming.
Local Open Scope Z_scope.

Definition MOBILE_E2EE_V2_PROTOCOL : string := "orca-mobile-e2ee".
Definition MOBILE_E2EE_V2_TRANSCRIPT_DOMAIN : string := "orca-mobile-e2ee/v2/transcript".

Inductive MobileE2EETransport := direct | relay.
#[export] Instance MobileE2EETransport_eq_dec : EqDecision MobileE2EETransport.
Proof. solve_decision. Defined.

Definition transport_string (t : MobileE2EETransport) : string :=
  match t with direct => "direct" | relay => "relay" end.

Record MobileE2EEV2Context := {
  ctx_protocol : string;
  ctx_initiator : string;
  ctx_responder : string;
  ctx_transport : MobileE2EETransport;
  ctx_relayHostId : option string;
}.
#[export] Instance MobileE2EEV2Context_eq_dec : EqDecision MobileE2EEV2Context.
Proof. solve_decision. Defined.

Record MobileE2EEV2Hello := {
  hello_type : string;
  hello_v : Z;
  hello_clientPublicKeyB64 : string;
  hello_clientNonceB64 : string;
  hello_framing : list Z;
  hello_payloadKinds : list string;
  hello_context : MobileE2EEV2Context;
}.

Record MobileE2EEV2Ready := {
  ready_type : string;
  ready_v : Z;
  ready_desktopPublicKeyB64 : string;
  ready_clientNonceB64 : string;
  ready_desktopNonceB64 : string;
  ready_framing : Z;
  ready_payloadKinds : list string;
  ready_context : MobileE2EEV2Context;
}.

Record MobileE2EEV2Handshake := {
  hs_hello : MobileE2EEV2Hello;
  hs_ready : MobileE2EEV2Ready;
  hs_clientPublicKey : list Z;
  hs_desktopPublicKey : list Z;
  hs_clientNonce : list Z;
  hs_desktopNonce : list Z;
}.

(** The JSON of the two messages, in the key order their builders use. *)
Definition context_json (c : MobileE2EEV2Context) : json :=
  JObj (app [("protocol", JStr (ctx_protocol c)); ("initiator", JStr (ctx_initiator c));
             ("responder", JStr (ctx_responder c));
             ("transport", JStr (transport_string (ctx_transport c)))]%string
    match ctx_relayHostId c with Some i => [("relayHostId"%string, JStr i)] | None => [] end).

Definition hello_json (h : MobileE2EEV2Hello) : json :=
  JObj [("type", JStr (hello_type h)); ("v", JNum (NInt (hello_v h)));
        ("clientPublicKeyB64", JStr (hello_clientPublicKeyB64 h));
        ("clientNonceB64", JStr (hello_clientNonceB64 h));
        ("capabilities", JObj [("framing", JArr (map (fun z => JNum (NInt z)) (hello_framing h)));
                               ("payloadKinds", JArr (map JStr (hello_payloadKinds h)))]);
        ("context", context_json (hello_context h))]%string.

Definition ready_json (r : MobileE2EEV2Ready) : json :=
  JObj [("type", JStr (ready_type r)); ("v", JNum (NInt (ready_v r)));
        ("desktopPublicKeyB64", JStr (ready_desktopPublicKeyB64 r));
        ("clientNonceB64", JStr (ready_clientNonceB64 r));
        ("desktopNonceB64", JStr (ready_desktopNonceB64 r));
        ("selection", JObj [("framing", JNum (NInt (ready_framing r)));
                            ("payloadKinds", JArr (map JStr (ready_payloadKinds r)))]);
        ("context", context_json (ready_context r))]%string.

(** ** Validation *)

Definition isRecord (v : option json) : option (list (string * json)) :=
  match v with Some (JObj fields) => Some fields | _ => None end.

Definition string_le (a b : string) : Prop := String.leb a b = true.
#[export] Instance string_le_dec a b : Decision (string_le a b).
Proof. unfold string_le. apply _. Defined.

Definition js_sort (l : list string) : list string := merge_sort string_le l.

(** [isExactRecord(value, keys)], returning the record. *)
Definition isExactRecord (v : option json) (keys : list string) : option (list (string * json)) :=
  fields ← isRecord v;
  let actual := js_sort (map fst fields) in
  let expected := js_sort keys in
  if bool_decide (actual = expected) then Some fields else None.

Definition is_string (v : option json) (s : string) : bool :=
  match v with Some (JStr s') => String.eqb s' s | _ => false end.
Definition is_int (v : option json) (z : Z) : bool :=
  match v with Some (JNum (NInt z')) => z' =? z | _ => false end.

(** [value.payloadKinds] is exactly [['text', 'binary']] *)
Definition exact_kinds (v : option json) : bool :=
  match v with
  | Some (JArr [k0; k1]) => is_string (Some k0) "text" && is_string (Some k1) "binary"
  | _ => false
  end.

Definition hasExactCapabilities (v : option json) : bool :=
  match isExactRecord v ["framing"; "payloadKinds"]%string with
  | Some fields =>
      match assoc "framing" fields with
      | Some (JArr [f0]) => is_int (Some f0) 2
      | _ => false
      end && exact_kinds (assoc "payloadKinds" fields)
  | None => false
  end.

Definition hasExactSelection (v : option json) : bool :=
  match isExactRecord v ["framing"; "payloadKinds"]%string with
  | Some fields => is_int (assoc "framing" fields) 2 && exact_kinds (assoc "payloadKinds" fields)
  | None => false
  end.

(** [/^[A-Za-z0-9_-]{16}$/] *)
Definition base64url_char (c : Ascii.ascii) : bool :=
  let n := Ascii.nat_of_ascii c in
  ((65 <=? n) && (n <=? 90) || (97 <=? n) && (n <=? 122) || (48 <=? n) && (n <=? 57)
   || (n =? 95) || (n =? 45))%nat.
Definition BASE64URL_16_PATTERN (s : string) : bool :=
  (String.length s =? 16)%nat && forallb base64url_char (chars s).

Definition parseContext (v : option json) : option MobileE2EEV2Context :=
  fields0 ← isRecord v;
  let transport := assoc "transport" fields0 in
  let keys :=
    (if is_string transport "relay"
     then ["protocol"; "initiator"; "responder"; "transport"; "relayHostId"]
     else ["protocol"; "initiator"; "responder"; "transport"])%string in
  value ← isExactRecord v keys;
  if negb (is_string (assoc "protocol" value) MOBILE_E2EE_V2_PROTOCOL)
     || negb (is_string (assoc "initiator" value) "mobile")
     || negb (is_string (assoc "responder" value) "desktop")
  then None
  else if is_string transport "relay" then
    match assoc "relayHostId" value with
    | Some (JStr i) =>
        if BASE64URL_16_PATTERN i then
          Some {| ctx_protocol := MOBILE_E2EE_V2_PROTOCOL; ctx_initiator := "mobile";
                  ctx_responder := "desktop"; ctx_transport := relay; ctx_relayHostId := Some i |}
        else None
    | _ => None
    end
  else if is_string transport "direct" then
    Some {| ctx_protocol := MOBILE_E2EE_V2_PROTOCOL; ctx_initiator := "mobile";
            ctx_responder := "desktop"; ctx_transport := direct; ctx_relayHostId := None |}
  else None.

Definition contextsEqual (left right : MobileE2EEV2Context) : bool :=
  String.eqb (ctx_protocol left) (ctx_protocol right) &&
  String.eqb (ctx_initiator left) (ctx_initiator right) &&
  String.eqb (ctx_responder left) (ctx_responder right) &&
  bool_decide (ctx_transport left = ctx_transport right) &&
  bool_decide (ctx_relayHostId left = ctx_relayHostId right).

Definition b64_alpha (c : Ascii.ascii) : bool :=
  match b64_val c with Some _ => true | None => false end.

(** [/^(?:[A-Za-z0-9+/]{4})*(?:[A-Za-z0-9+/]{2}==|[A-Za-z0-9+/]{3}=)?$/] *)
Fixpoint canonical_shape (l : list Ascii.ascii) : bool :=
  match l with
  | [] => true
  | [a; b; c; d] =>
      b64_alpha a && b64_alpha b &&
      (b64_alpha c && b64_alpha d || b64_alpha c && Ascii.eqb d pad_char
       || Ascii.eqb c pad_char && Ascii.eqb d pad_char)
  | a :: b :: c :: d :: l =>
      b64_alpha a && b64_alpha b && b64_alpha c && b64_alpha d && canonical_shape l
  | _ => false
  end.

Definition decodeCanonicalBase64Bytes (v : option json) (len : nat) : option (list Z) :=
  match v with
  | Some (JStr value) =>
      if negb (canonical_shape (chars value)) then None
      else
        bytes ← atob value;
        if (length bytes =? len)%nat && String.eqb (btoa bytes) value then Some bytes else None
  | _ => None
  end.

Definition hello_keys : list string :=
  ["type"; "v"; "clientPublicKeyB64"; "clientNonceB64"; "capabilities"; "context"]%string.
Definition ready_keys : list string :=
  ["type"; "v"; "desktopPublicKeyB64"; "clientNonceB64"; "desktopNonceB64"; "selection";
   "context"]%string.

(** The string of a property already known to be one. *)
Definition str (v : option json) : string := default ""%string (as_string v).

Definition validateMobileE2EEV2Handshake (helloValue readyValue : json) : option MobileE2EEV2Handshake :=
  hello ← isExactRecord (Some helloValue) hello_keys;
  ready ← isExactRecord (Some readyValue) ready_keys;
  if negb (is_string (assoc "type" hello) "e2ee_hello") || negb (is_int (assoc "v" hello) 2) then None
  else if negb (is_string (assoc "type" ready) "e2ee_ready") || negb (is_int (assoc "v" ready) 2) then None
  else if negb (hasExactCapabilities (assoc "capabilities" hello))
          || negb (hasExactSelection (assoc "selection" ready)) then None
  else
    helloContext ← parseContext (assoc "context" hello);
    readyContext ← parseContext (assoc "context" ready);
    if negb (contextsEqual helloContext readyContext) then None
    else
      (* a hello without a string nonce fails the decoding below in either case *)
      clientNonceB64 ← as_string (assoc "clientNonceB64" hello);
      if negb (is_string (assoc "clientNonceB64" ready) clientNonceB64) then None
      else
        clientPublicKey ← decodeCanonicalBase64Bytes (assoc "clientPublicKeyB64" hello) 32;
        desktopPublicKey ← decodeCanonicalBase64Bytes (assoc "desktopPublicKeyB64" ready) 32;
        clientNonce ← decodeCanonicalBase64Bytes (assoc "clientNonceB64" hello) 32;
        desktopNonce ← decodeCanonicalBase64Bytes (assoc "desktopNonceB64" ready) 32;
        Some {|
          hs_hello := {| hello_type := "e2ee_hello"; hello_v := 2;
            hello_clientPublicKeyB64 := str (assoc "clientPublicKeyB64" hello);
            hello_clientNonceB64 := clientNonceB64; hello_framing := [2];
            hello_payloadKinds := ["text"; "binary"]%string; hello_context := helloContext |};
          hs_ready := {| ready_type := "e2ee_ready"; ready_v := 2;
            ready_desktopPublicKeyB64 := str (assoc "desktopPublicKeyB64" ready);
            ready_clientNonceB64 := clientNonceB64;
            ready_desktopNonceB64 := str (assoc "desktopNonceB64" ready); ready_framing := 2;
            ready_payloadKinds := ["text"; "binary"]%string; ready_context := readyContext |};
          hs_clientPublicKey := clientPublicKey; hs_desktopPublicKey := desktopPublicKey;
          hs_clientNonce := clientNonce; hs_desktopNonce := desktopNonce |}.

(** ** The transcript *)

Definition utf8 (s : string) : list Z := map (fun c => Z.of_nat (Ascii.nat_of_ascii c)) (chars s).
Definition uint32 (value : Z) : list Z := be_bytes 4 (ToUint32 value).

Definition encodeNumberList (values : list Z) : list Z :=
  concatBytes (uint32 (Z.of_nat (length values)) :: map uint32 values).

Definition encodeStringList (values : list string) : list Z :=
  concatBytes (uint32 (Z.of_nat (length values)) ::
    map (fun value => let bytes := utf8 value in
                      concatBytes [uint32 (Z.of_nat (length bytes)); bytes]) values).

Definition transcript_fields (h : MobileE2EEV2Handshake) : list (string * list Z) :=
  let hello := hs_hello h in
  let ready := hs_ready h in
  [("domain", utf8 MOBILE_E2EE_V2_TRANSCRIPT_DOMAIN);
   ("mobile-to-desktop.type", utf8 (hello_type hello));
   ("mobile-to-desktop.version", uint32 (hello_v hello));
   ("mobile-to-desktop.client-public-key", hs_clientPublicKey h);
   ("mobile-to-desktop.client-nonce", hs_clientNonce h);
   ("mobile-to-desktop.capabilities.framing", encodeNumberList (hello_framing hello));
   ("mobile-to-desktop.capabilities.payload-kinds", encodeStringList (hello_payloadKinds hello));
   ("mobile-to-desktop.context.protocol", utf8 (ctx_protocol (hello_context hello)));
   ("mobile-to-desktop.context.initiator", utf8 (ctx_initiator (hello_context hello)));
   ("mobile-to-desktop.context.responder", utf8 (ctx_responder (hello_context hello)));
   ("mobile-to-desktop.context.transport", utf8 (transport_string (ctx_transport (hello_context hello))));
   ("mobile-to-desktop.context.relay-host-id",
     utf8 (default "" (ctx_relayHostId (hello_context hello))));
   ("desktop-to-mobile.type", utf8 (ready_type ready));
   ("desktop-to-mobile.version", uint32 (ready_v ready));
   ("desktop-to-mobile.desktop-public-key", hs_desktopPublicKey h);
   ("desktop-to-mobile.client-nonce-echo", hs_clientNonce h);
   ("desktop-to-mobile.desktop-nonce", hs_desktopNonce h);
   ("desktop-to-mobile.selection.framing", uint32 (ready_framing ready));
   ("desktop-to-mobile.selection.payload-kinds", encodeStringList (ready_payloadKinds ready));
   ("desktop-to-mobile.context.protocol", utf8 (ctx_protocol (ready_context ready)));
   ("desktop-to-mobile.context.initiator", utf8 (ctx_initiator (ready_context ready)));
   ("desktop-to-mobile.context.responder", utf8 (ctx_responder (ready_context ready)));
   ("desktop-to-mobile.context.transport", utf8 (transport_string (ctx_transport (ready_context ready))));
   ("desktop-to-mobile.context.relay-host-id",
     utf8 (default "" (ctx_relayHostId (ready_context ready))))]%string.

Definition encodeMobileE2EEV2Transcript (h : MobileE2EEV2Handshake) : list Z :=
  concatBytes (map (fun '(name, value) =>
    concatBytes [uint32 (Z.of_nat (length (utf8 name))); utf8 name;
                 uint32 (Z.of_nat (length value)); value]) (transcript_fields h)).

(** ** Lemmas *)

Lemma utf8_ok s : bytes_ok (utf8 s).
Proof.
  apply Forall_map, Forall_true. intros c. unfold byte_ok. pose proof (Ascii.nat_ascii_bounded c). lia.
Qed.

Lemma utf8_inj s t : utf8 s = utf8 t -> s = t.
Proof.
  unfold utf8. revert t; induction s as [|c s IH]; intros [|c' t]; simpl; intros H; try done.
  injection H as Hc H. f_equal; [|by apply IH].
  apply Nat2Z.inj in Hc. by rewrite <- (Ascii.ascii_nat_embedding c), Hc, Ascii.ascii_nat_embedding.
Qed.

Lemma uint32_inj y z : 0 <= y < 2 ^ 32 -> 0 <= z < 2 ^ 32 -> uint32 y = uint32 z -> y = z.
Proof.
  intros Hy Hz. unfold uint32, ToUint32. rewrite !Z.mod_small by lia.
  apply (be_bytes_inj 4); change (256 ^ Z.of_nat 4) with (2 ^ 32); lia.
Qed.

Lemma length_uint32 z : length (uint32 z) = 4%nat.
Proof. apply length_be_bytes. Qed.

(** One transcript field: name and value, each with its length before it. *)
Definition tlv (f : string * list Z) : list Z :=
  uint32 (Z.of_nat (length (utf8 f.1))) ++ utf8 f.1 ++ uint32 (Z.of_nat (length f.2)) ++ f.2.

Lemma transcript_tlv h : encodeMobileE2EEV2Transcript h = mjoin (map tlv (transcript_fields h)).
Proof.
  unfold encodeMobileE2EEV2Transcript. rewrite concatBytes_join. f_equal.
  apply map_ext. intros [n v]. rewrite concatBytes_join. unfold tlv. simpl. by rewrite app_nil_r.
Qed.

Definition short (f : string * list Z) : Prop := Z.of_nat (length f.2) < 2 ^ 32.

(** A sequence of fields with given names is determined by its encoding. *)
Lemma tlvs_inj fs fs' :
  map fst fs = map fst fs' -> Forall short fs -> Forall short fs' ->
  mjoin (map tlv fs) = mjoin (map tlv fs') -> fs = fs'.
Proof.
  revert fs'; induction fs as [|[n v] fs IH]; intros [|[n' v'] fs']; try done.
  intros [= <- Hn] [Hs Hfs]%Forall_cons [Hs' Hfs']%Forall_cons H.
  change (tlv (n, v) ++ mjoin (map tlv fs) = tlv (n, v') ++ mjoin (map tlv fs')) in H.
  unfold tlv at 1 3 in H. cbn [fst snd] in H. rewrite <- !app_assoc in H.
  do 2 apply app_inv_head in H.
  apply app_inj_1 in H as [Hlen H]; [|by rewrite !length_uint32].
  apply uint32_inj in Hlen; [|unfold short in *; simpl in *; lia..].
  apply app_inj_1 in H as [-> H]; [|lia]. f_equal. by apply IH.
Qed.

Definition context_ok (c : MobileE2EEV2Context) : Prop :=
  ctx_protocol c = MOBILE_E2EE_V2_PROTOCOL /\ ctx_initiator c = "mobile"%string /\
  ctx_responder c = "desktop"%string /\
  match ctx_transport c with
  | direct => ctx_relayHostId c = None
  | relay => exists i, ctx_relayHostId c = Some i /\ BASE64URL_16_PATTERN i = true
  end.

Definition key_ok (bs : list Z) : Prop := bytes_ok bs /\ length bs = 32%nat.

(** The messages of a handshake are determined by the keys, nonces and context. *)
Definition make_hello (pk nonce : list Z) (c : MobileE2EEV2Context) : MobileE2EEV2Hello :=
  {| hello_type := "e2ee_hello"; hello_v := 2; hello_clientPublicKeyB64 := btoa pk;
     hello_clientNonceB64 := btoa nonce; hello_framing := [2];
     hello_payloadKinds := ["text"; "binary"]%string; hello_context := c |}.
Definition make_ready (pk clientNonce nonce : list Z) (c : MobileE2EEV2Context) : MobileE2EEV2Ready :=
  {| ready_type := "e2ee_ready"; ready_v := 2; ready_desktopPublicKeyB64 := btoa pk;
     ready_clientNonceB64 := btoa clientNonce; ready_desktopNonceB64 := btoa nonce;
     ready_framing := 2; ready_payloadKinds := ["text"; "binary"]%string; ready_context := c |}.

Definition make_handshake (cpk dpk cn dn : list Z) (c : MobileE2EEV2Context) : MobileE2EEV2Handshake :=
  {| hs_hello := make_hello cpk cn c; hs_ready := make_ready dpk cn dn c;
     hs_clientPublicKey := cpk; hs_desktopPublicKey := dpk;
     hs_clientNonce := cn; hs_desktopNonce := dn |}.

Lemma is_string_eqb v s : is_string v s = true -> v = Some (JStr s).
Proof. destruct v as [[]|]; simpl; try done. by intros ->%String.eqb_eq. Qed.

Lemma parseContext_ok v c : parseContext v = Some c -> context_ok c.
Proof.
  unfold parseContext. destruct (isRecord v) as [f0|]; [|done]. cbn [mbind option_bind].
  destruct (isExactRecord _ _) as [f|]; [|done]. cbn [mbind option_bind].
  case_match; [done|]. case_match.
  - destruct (assoc "relayHostId" f) as [[]|]; try done. case_match; [|done].
    intros [= <-]. split_and!; simpl; eauto.
  - case_match; [|done]. intros [= <-]. by split_and!.
Qed.

Lemma decodeCanonical_ok v bs n :
  decodeCanonicalBase64Bytes v n = Some bs ->
  v = Some (JStr (btoa bs)) /\ bytes_ok bs /\ length bs = n.
Proof.
  unfold decodeCanonicalBase64Bytes. destruct v as [[]|]; try done. case_match; [done|].
  intros Hb. apply bind_Some in Hb as (bs' & Hat & Hb). case_match eqn:E; [|done].
  injection Hb as ->. bool_to_prop. apply Nat.eqb_eq in H0. apply String.eqb_eq in H1 as <-.
  split_and!; [done| |done]. by eapply atob_ok.
Qed.

Lemma contextsEqual_eq a b : contextsEqual a b = true -> a = b.
Proof.
  unfold contextsEqual. intros H. bool_to_prop.
  destruct a, b; simpl in *. repeat match goal with H : String.eqb _ _ = true |- _ =>
    apply String.eqb_eq in H end. congruence.
Qed.

(** Whatever validates is a handshake of canonical keys, nonces and context. *)
Lemma validate_ok a b h :
  validateMobileE2EEV2Handshake a b = Some h ->
  exists cpk dpk cn dn c, h = make_handshake cpk dpk cn dn c /\
    key_ok cpk /\ key_ok dpk /\ key_ok cn /\ key_ok dn /\ context_ok c /\
    exists hello ready, a = JObj hello /\ b = JObj ready /\
      js_sort (map fst hello) = js_sort hello_keys /\ js_sort (map fst ready) = js_sort ready_keys /\
      assoc "clientPublicKeyB64" hello = Some (JStr (btoa cpk)) /\
      assoc "clientNonceB64" hello = Some (JStr (btoa cn)) /\
      assoc "desktopPublicKeyB64" ready = Some (JStr (btoa dpk)) /\
      assoc "desktopNonceB64" ready = Some (JStr (btoa dn)) /\
      assoc "clientNonceB64" ready = Some (JStr (btoa cn)) /\
      parseContext (assoc "context" hello) = Some c /\ parseContext (assoc "context" ready) = Some c.
Proof.
  unfold validateMobileE2EEV2Handshake. intros H.
  apply bind_Some in H as (hello & Ha & H). apply bind_Some in H as (ready & Hb & H).
  do 3 (case_match; [done|]).
  apply bind_Some in H as (hc & Hhc & H). apply bind_Some in H as (rc & Hrc & H).
  case_match eqn:Hctx; [done|]. apply negb_false_iff, contextsEqual_eq in Hctx as <-.
  apply bind_Some in H as (cn64 & Hcn64 & H). case_match eqn:Hecho; [done|].
  apply negb_false_iff, is_string_eqb in Hecho.
  apply bind_Some in H as (cpk & Hcpk & H). apply bind_Some in H as (dpk & Hdpk & H).
  apply bind_Some in H as (cn & Hcn & H). apply bind_Some in H as (dn & Hdn & [= <-]).
  apply decodeCanonical_ok in Hcpk as (Hcpk & ? & ?), Hdpk as (Hdpk & ? & ?),
    Hcn as (Hcn & ? & ?), Hdn as (Hdn & ? & ?).
  rewrite Hcpk, Hdpk, Hdn. rewrite Hcn in Hcn64. injection Hcn64 as <-.
  exists cpk, dpk, cn, dn, hc.
  split; [done|]. do 4 (split; [by split|]). split; [by eapply parseContext_ok|].
  unfold isExactRecord in Ha, Hb. destruct a as [| | | | |fa], b as [| | | | |fb]; try done.
  simpl in Ha, Hb. case_bool_decide; [|done]. case_bool_decide; [|done]. simplify_eq.
  exists hello, ready. split_and!; done.
Qed.

Lemma canonical_shape_cons a b c d l :
  b64_alpha a = true -> b64_alpha b = true -> b64_alpha c = true -> b64_alpha d = true ->
  canonical_shape l = true -> canonical_shape (a :: b :: c :: d :: l) = true.
Proof. intros Ha Hb Hc Hd Hl. simpl. rewrite Ha, Hb, Hc, Hd. simpl. by destruct l. Qed.

Lemma b64_alpha_char v : sextet_ok v -> b64_alpha (b64_char v) = true.
Proof. intros H. unfold b64_alpha. by rewrite b64_val_char. Qed.

Lemma canonical_shape_btoa bs : bytes_ok bs -> canonical_shape (chars (btoa bs)) = true.
Proof.
  rewrite chars_btoa. induction bs as [|a|a b|a b c l IH] using list_ind3; intros H; [done|..].
  - rewrite !Forall_cons in H. destruct_and?. simpl.
    rewrite !b64_alpha_char by byte_arith. simpl. done.
  - rewrite !Forall_cons in H. destruct_and?. simpl.
    rewrite !b64_alpha_char by byte_arith. simpl. done.
  - rewrite !Forall_cons in H. destruct_and?.
    change (map b64_char (sextets (a :: b :: c :: l)) ++ ?p) with
      (b64_char (a / 4) :: b64_char (a mod 4 * 16 + b / 16) :: b64_char (b mod 16 * 4 + c / 64)
        :: b64_char (c mod 64) :: (map b64_char (sextets l) ++ p)).
    replace (pad_count (length (a :: b :: c :: l))) with (pad_count (length l)).
    + apply canonical_shape_cons; try (apply b64_alpha_char; byte_arith). by apply IH.
    + unfold pad_count. simpl length. replace (S (S (S (length l)))) with (length l + 1 * 3)%nat by lia.
      by rewrite Nat.Div0.mod_add.
Qed.

Lemma decodeCanonical_btoa bs n :
  bytes_ok bs -> length bs = n -> decodeCanonicalBase64Bytes (Some (JStr (btoa bs))) n = Some bs.
Proof.
  intros Hb Hn. unfold decodeCanonicalBase64Bytes.
  rewrite canonical_shape_btoa, atob_btoa by done. cbn [negb mbind option_bind].
  by rewrite Hn, Nat.eqb_refl, String.eqb_refl.
Qed.

Lemma parseContext_json c : context_ok c -> parseContext (Some (context_json c)) = Some c.
Proof.
  destruct c as [p i r t h]. unfold context_ok. simpl. intros (-> & -> & -> & Ht). destruct t.
  - subst h. reflexivity.
  - destruct Ht as (id & -> & Hp). unfold parseContext. cbn -[js_sort BASE64URL_16_PATTERN].
    rewrite bool_decide_true by reflexivity. cbn -[BASE64URL_16_PATTERN]. by rewrite Hp.
Qed.

Lemma validate_make cpk dpk cn dn c :
  key_ok cpk -> key_ok dpk -> key_ok cn -> key_ok dn -> context_ok c ->
  validateMobileE2EEV2Handshake (hello_json (make_hello cpk cn c)) (ready_json (make_ready dpk cn dn c)) =
  Some (make_handshake cpk dpk cn dn c).
Proof.
  intros [H1 L1] [H2 L2] [H3 L3] [H4 L4] Hc. unfold validateMobileE2EEV2Handshake.
  replace (isExactRecord (Some (hello_json _)) hello_keys) with
    (isRecord (Some (hello_json (make_hello cpk cn c)))) by reflexivity.
  replace (isExactRecord (Some (ready_json _)) ready_keys) with
    (isRecord (Some (ready_json (make_ready dpk cn dn c)))) by reflexivity.
  cbn [isRecord hello_json ready_json mbind option_bind make_hello make_ready hello_context ready_context
    hello_type ready_type hello_v ready_v hello_framing hello_payloadKinds ready_framing
    ready_payloadKinds hello_clientPublicKeyB64 hello_clientNonceB64 ready_desktopPublicKeyB64
    ready_clientNonceB64 ready_desktopNonceB64 assoc String.eqb Ascii.eqb Bool.eqb].
  cbn [is_string is_int]. rewrite !String.eqb_refl, Z.eqb_refl. cbn [negb orb].
  replace (hasExactCapabilities _) with true by reflexivity.
  replace (hasExactSelection _) with true by reflexivity. cbn [negb orb].
  rewrite parseContext_json by done. cbn [mbind option_bind].
  replace (contextsEqual c c) with true.
  - cbn [negb as_string mbind option_bind]. rewrite String.eqb_refl. cbn [negb].
    rewrite !decodeCanonical_btoa by done. reflexivity.
  - symmetry. unfold contextsEqual. by rewrite !String.eqb_refl, !bool_decide_true.
Qed.

(** The validator is exact on encoded handshakes and sound on everything. It
    accepts the JSON of a hello and a ready message built from any 32-byte keys
    and nonces and any legal context, and returns them; and whatever two JSON
    values it accepts, the result is such a handshake, the base64 fields of the
    input are the canonical encodings of the bytes returned, the ready message
    echoes the client's nonce, both contexts parse to the same context, and
    neither message has a missing or extra field. *)
Theorem validate_handshake_exact :
  (forall cpk dpk cn dn c, key_ok cpk -> key_ok dpk -> key_ok cn -> key_ok dn -> context_ok c ->
    validateMobileE2EEV2Handshake (hello_json (make_hello cpk cn c))
      (ready_json (make_ready dpk cn dn c)) = Some (make_handshake cpk dpk cn dn c)) /\
  (forall a b h, validateMobileE2EEV2Handshake a b = Some h ->
    exists cpk dpk cn dn c, h = make_handshake cpk dpk cn dn c /\
      key_ok cpk /\ key_ok dpk /\ key_ok cn /\ key_ok dn /\ context_ok c /\
      exists hello ready, a = JObj hello /\ b = JObj ready /\
        js_sort (map fst hello) = js_sort hello_keys /\ js_sort (map fst ready) = js_sort ready_keys /\
        assoc "clientPublicKeyB64" hello = Some (JStr (btoa cpk)) /\
        assoc "clientNonceB64" hello = Some (JStr (btoa cn)) /\
        assoc "desktopPublicKeyB64" ready = Some (JStr (btoa dpk)) /\
        assoc "desktopNonceB64" ready = Some (JStr (btoa dn)) /\
        assoc "clientNonceB64" ready = Some (JStr (btoa cn)) /\
        parseContext (assoc "context" hello) = Some c /\
        parseContext (assoc "context" ready) = Some c).
Proof. split; [intros; by apply validate_make|exact validate_ok]. Qed.

Lemma length_utf8 s : length (utf8 s) = String.length s.
Proof. unfold utf8. by rewrite length_map, length_chars. Qed.

Lemma transcript_short cpk dpk cn dn c :
  key_ok cpk -> key_ok dpk -> key_ok cn -> key_ok dn -> context_ok c ->
  Forall short (transcript_fields (make_handshake cpk dpk cn dn c)).
Proof.
  intros [_ H1] [_ H2] [_ H3] [_ H4] (Hp & Hi & Hr & Ht).
  assert (Hid : Z.of_nat (length (utf8 (default "" (ctx_relayHostId c))%string)) < 2 ^ 32).
  { rewrite length_utf8. destruct (ctx_transport c).
    - by rewrite Ht.
    - destruct Ht as (i & -> & Hpat). unfold BASE64URL_16_PATTERN in Hpat. bool_to_prop.
      apply Nat.eqb_eq in H. simpl. rewrite H. done. }
  unfold transcript_fields, make_handshake, short.
  repeat apply Forall_cons_2; [..|constructor];
    cbn [fst snd hs_hello hs_ready make_hello make_ready hello_context ready_context hello_type
      ready_type hello_v ready_v hello_framing hello_payloadKinds ready_framing ready_payloadKinds
      hs_clientPublicKey hs_desktopPublicKey hs_clientNonce hs_desktopNonce];
    rewrite ?Hp, ?Hi, ?Hr, ?H1, ?H2, ?H3, ?H4; try done.
  all: by destruct (ctx_transport c).
Qed.

Lemma context_ok_inj c c' :
  context_ok c -> context_ok c' -> ctx_transport c = ctx_transport c' ->
  default ""%string (ctx_relayHostId c) = default ""%string (ctx_relayHostId c') -> c = c'.
Proof.
  destruct c as [p i r t h], c' as [p' i' r' t' h']. unfold context_ok. simpl.
  intros (-> & -> & -> & Ht) (-> & -> & -> & Ht') <- Hh.
  destruct t; [congruence|]. destruct Ht as (? & -> & _), Ht' as (? & -> & _). simpl in Hh. congruence.
Qed.

(** The transcript binds the whole handshake: two handshakes that validate and
    have the same transcript are the same, so a transcript hash commits to both
    public keys, both nonces and the transport context, and no byte of one field
    can be shifted into another. *)
Theorem transcript_injective a b a' b' h h' :
  validateMobileE2EEV2Handshake a b = Some h -> validateMobileE2EEV2Handshake a' b' = Some h' ->
  encodeMobileE2EEV2Transcript h = encodeMobileE2EEV2Transcript h' -> h = h'.
Proof.
  intros (cpk & dpk & cn & dn & c & -> & H1 & H2 & H3 & H4 & Hc & _)%validate_ok
    (cpk' & dpk' & cn' & dn' & c' & -> & H1' & H2' & H3' & H4' & Hc' & _)%validate_ok.
  rewrite !transcript_tlv. intros Ht. apply tlvs_inj in Ht; [|done|by apply transcript_short..].
  assert (Hn : forall n x y, transcript_fields (make_handshake cpk dpk cn dn c) !! n = Some x ->
    transcript_fields (make_handshake cpk' dpk' cn' dn' c') !! n = Some y -> x.2 = y.2)
    by (intros n x y Hx Hy; rewrite Ht in Hx; congruence).
  pose proof (Hn 3%nat _ _ eq_refl eq_refl) as E1. pose proof (Hn 14%nat _ _ eq_refl eq_refl) as E2.
  pose proof (Hn 4%nat _ _ eq_refl eq_refl) as E3. pose proof (Hn 16%nat _ _ eq_refl eq_refl) as E4.
  pose proof (Hn 10%nat _ _ eq_refl eq_refl) as E5. pose proof (Hn 11%nat _ _ eq_refl eq_refl) as E6.
  cbn [snd hs_clientPublicKey hs_desktopPublicKey hs_clientNonce hs_desktopNonce make_handshake
    hs_hello make_hello hello_context] in *.
  apply utf8_inj in E5, E6. rewrite (context_ok_inj c c'); [congruence|done|done| |done].
  destruct (ctx_transport c), (ctx_transport c'); done.
Qed.

Lemma transcript_injective_witness :
  let c := {| ctx_protocol := MOBILE_E2EE_V2_PROTOCOL; ctx_initiator := "mobile";
              ctx_responder := "desktop"; ctx_transport := direct; ctx_relayHostId := None |}%string in
  let k := replicate 32 5 in
  exists h, validateMobileE2EEV2Handshake (hello_json (make_hello k k c)) (ready_json (make_ready k k k c)) = Some h
    /\ h = h.
Proof.
  intros c k. exists (make_handshake k k k k c).
  assert (Hv : validateMobileE2EEV2Handshake (hello_json (make_hello k k c))
    (ready_json (make_ready k k k c)) = Some (make_handshake k k k k c)) by (vm_compute; reflexivity).
  split; [exact Hv|]. exact (transcript_injective _ _ _ _ _ _ Hv Hv eq_refl).
Defined.
