(* ===== verification/E2eeSession.v ===== *)
(** * E2EE v2 sessions: handshake, key schedule, the two ends of the channel

    Models the desktop end ([mobile-e2ee-v2-desktop-session.ts]), the mobile end
    ([mobile-e2ee-v2-client-session.ts]) and the key schedule both derive
    ([mobile-e2ee-v2-key-schedule.ts]). The primitives (NaCl's box and secretbox,
    SHA-256, HKDF) are a parameter. Text is UTF-8 bytes. *)

From S2P Require Import Prelude Json Base64 E2eeFraming E2eeContract.
Local Open Scope Z_scope.

(** The primitives, with what the sessions rely on. *)
Record Crypto := {
  nacl_secretbox : SecretBox;
  box_publicKey : list Z -> list Z;
  box_before : list Z -> list Z -> list Z;
  sha256 : list Z -> list Z;
  hkdf : list Z -> list Z -> list Z -> nat -> list Z;
}.

Class CryptoLaws (C : Crypto) := {
  crypto_secretbox :: SecretBoxLaws (nacl_secretbox C);
  (** documented sizes *)
  crypto_keyLength : keyLength (nacl_secretbox C) = 32%nat;
  crypto_publicKey sk : key_ok sk -> key_ok (box_publicKey C sk);
  crypto_before pk sk : key_ok pk -> key_ok sk -> length (box_before C pk sk) = 32%nat;
  crypto_hkdf ikm salt info n : length (hkdf C ikm salt info n) = n;
  crypto_hkdf_bytes ikm salt info n : bytes_ok (hkdf C ikm salt info n);
  (** Diffie-Hellman *)
  crypto_dh a b : key_ok a -> key_ok b ->
    box_before C (box_publicKey C a) b = box_before C (box_publicKey C b) a;
}.

Record KeySchedule := {
  mobileToDesktopKey : list Z;
  desktopToMobileKey : list Z;
  sessionId : list Z;
  transcriptHash : list Z;
}.

Definition SALT_LABEL : list Z := utf8 "orca-mobile-e2ee/v2/salt" ++ [0].
Definition INFO_LABEL : list Z := utf8 "orca-mobile-e2ee/v2/session" ++ [0].

(** [new TextDecoder().decode(bytes)] on well-formed UTF-8. *)
Definition text_of (bytes : list Z) : string :=
  of_chars (map (fun b => Ascii.ascii_of_nat (Z.to_nat b)) bytes).

Section Sessions.
Context (C : Crypto).

Definition deriveSharedKey (ourSecretKey peerPublicKey : list Z) : list Z :=
  box_before C peerPublicKey ourSecretKey.

Definition requireLength (bytes : list Z) (expected : nat) (label : string) : result unit :=
  if negb (length bytes =? expected)%nat then
    Throw ("Invalid " +:+ label +:+ ": expected " +:+ int_string (Z.of_nat expected) +:+
           " bytes, got " +:+ int_string (Z.of_nat (length bytes)))
  else Ok tt.

Definition deriveMobileE2EEV2KeySchedule (sharedSecret transcript clientNonce desktopNonce : list Z)
    : result KeySchedule :=
  _ ← requireLength sharedSecret 32 "shared secret";
  _ ← requireLength clientNonce 32 "client nonce";
  _ ← requireLength desktopNonce 32 "desktop nonce";
  let th := sha256 C transcript in
  let salt := sha256 C (concatBytes [SALT_LABEL; clientNonce; desktopNonce]) in
  let info := concatBytes [INFO_LABEL; th] in
  let expanded := hkdf C sharedSecret salt info 96 in
  Ok {| mobileToDesktopKey := subarray 0 32 expanded;
        desktopToMobileKey := subarray 32 64 expanded;
        sessionId := subarray 64 96 expanded;
        transcriptHash := th |}.

(** ** The desktop end *)

Record DesktopSession := {
  d_ready : json;
  d_transcriptHashB64 : string;
  d_mobileToDesktopKey : list Z;
  d_desktopToMobileKey : list Z;
  d_sessionId : list Z;
  d_inboundCounter : Z;
  d_outboundCounter : Z;
}.

Definition opt_string_eq (v : option json) (s : option string) : bool :=
  match v, s with
  | None, None => true
  | Some (JStr a), Some b => String.eqb a b
  | _, _ => false
  end.

Definition hasExpectedContext (hello : json) (transport : MobileE2EETransport)
    (relayHostId : option string) : bool :=
  match prop "context" hello with
  | Some context =>
      is_object context && opt_string_eq (prop "transport" context) (Some (transport_string transport))
      && opt_string_eq (prop "relayHostId" context) relayHostId
  | None => false
  end.

(** The ready message, with the nonce and context as they came in the hello. *)
Definition desktop_ready (hello : json) (publicKey desktopNonce : list Z) : json :=
  JObj (app [("type", JStr "e2ee_ready"); ("v", JNum (NInt 2));
             ("desktopPublicKeyB64", JStr (btoa publicKey))]%string
       (app match prop "clientNonceB64" hello with Some v => [("clientNonceB64"%string, v)] | None => [] end
       (app [("desktopNonceB64", JStr (btoa desktopNonce));
             ("selection", JObj [("framing", JNum (NInt 2));
                                 ("payloadKinds", JArr [JStr "text"; JStr "binary"])])]%string
            match prop "context" hello with Some v => [("context"%string, v)] | None => [] end))).

Definition desktop_create (hello : json) (serverSecretKey : list Z) (transport : MobileE2EETransport)
    (relayHostId : option string) (desktopNonce : list Z) : result (option DesktopSession) :=
  if negb (hasExpectedContext hello transport relayHostId) then Ok None
  else
    let ready := desktop_ready hello (box_publicKey C serverSecretKey) desktopNonce in
    match validateMobileE2EEV2Handshake hello ready with
    | None => Ok None
    | Some handshake =>
        let sharedSecret := deriveSharedKey serverSecretKey (hs_clientPublicKey handshake) in
        schedule ← deriveMobileE2EEV2KeySchedule sharedSecret (encodeMobileE2EEV2Transcript handshake)
                     (hs_clientNonce handshake) (hs_desktopNonce handshake);
        Ok (Some {| d_ready := ready; d_transcriptHashB64 := btoa (transcriptHash schedule);
                    d_mobileToDesktopKey := mobileToDesktopKey schedule;
                    d_desktopToMobileKey := desktopToMobileKey schedule;
                    d_sessionId := sessionId schedule;
                    d_inboundCounter := 0; d_outboundCounter := 0 |})
    end.

Definition d_with_counters (s : DesktopSession) (i o : Z) : DesktopSession :=
  {| d_ready := d_ready s; d_transcriptHashB64 := d_transcriptHashB64 s;
     d_mobileToDesktopKey := d_mobileToDesktopKey s; d_desktopToMobileKey := d_desktopToMobileKey s;
     d_sessionId := d_sessionId s; d_inboundCounter := i; d_outboundCounter := o |}.

Definition desktop_open (s : DesktopSession) (frame : list Z) (kind : MobileE2EEPayloadKind)
    : result (option (list Z) * DesktopSession) :=
  plaintext ← openMobileE2EEV2Frame (nacl_secretbox C) frame (d_mobileToDesktopKey s)
    {| ff_sessionId := d_sessionId s; ff_direction := mobile_to_desktop; ff_payloadKind := kind;
       ff_counter := d_inboundCounter s |};
  Ok match plaintext with
     | Some _ => (plaintext, d_with_counters s (d_inboundCounter s + 1) (d_outboundCounter s))
     | None => (plaintext, s)
     end.

Definition desktop_seal (s : DesktopSession) (plaintext : list Z) (kind : MobileE2EEPayloadKind)
    : result (list Z * DesktopSession) :=
  frame ← sealMobileE2EEV2Frame (nacl_secretbox C) plaintext (d_desktopToMobileKey s)
    {| ff_sessionId := d_sessionId s; ff_direction := desktop_to_mobile; ff_payloadKind := kind;
       ff_counter := d_outboundCounter s |};
  Ok (frame, d_with_counters s (d_inboundCounter s) (d_outboundCounter s + 1)).

(** The desktop's [decodeCanonicalBase64]: the strict pattern, then the round trip. *)
Definition desktop_decodeCanonicalBase64 (value : string) : option (list Z) :=
  if negb (canonical_shape (chars value)) then None
  else bytes ← atob value; if String.eqb (btoa bytes) value then Some bytes else None.

Definition desktop_openText (s : DesktopSession) (frameB64 : string)
    : result (option string * DesktopSession) :=
  match desktop_decodeCanonicalBase64 frameB64 with
  | None => Ok (None, s)
  | Some frame =>
      '(plaintext, s) ← desktop_open s frame text;
      Ok (option_map text_of plaintext, s)
  end.
Definition desktop_openBinary (s : DesktopSession) (frame : list Z) := desktop_open s frame binary.

Definition desktop_sealText (s : DesktopSession) (plaintext : string) : result (string * DesktopSession) :=
  '(frame, s) ← desktop_seal s (utf8 plaintext) text;
  Ok (btoa frame, s).
Definition desktop_sealBinary (s : DesktopSession) (plaintext : list Z) := desktop_seal s plaintext binary.

(** ** The mobile end *)

Record ClientSession := {
  c_hello : MobileE2EEV2Hello;
  c_clientSecretKey : list Z;
  c_pinnedDesktopPublicKey : list Z;
  c_inboundCounter : Z;
  c_outboundCounter : Z;
  c_schedule : option KeySchedule;
}.

Definition publicKeyFromBase64 (b64 : string) : result (list Z) :=
  match atob b64 with
  | None => Throw "The string to be decoded is not correctly encoded."
  | Some key =>
      if negb (length key =? 32)%nat then
        Throw ("Invalid public key: expected 32 bytes, got " +:+ int_string (Z.of_nat (length key)) +:+
               " from " +:+ quoted (of_chars (take 20 (chars b64)) +:+ "..."))
      else Ok key
  end.

Definition client_create (desktopPublicKeyB64 : string) (transport : MobileE2EETransport)
    (relayHostId : option string) (clientNonce clientSecretKey : list Z) : result ClientSession :=
  if negb (length clientNonce =? 32)%nat then
    Throw ("Invalid client nonce length: " +:+ int_string (Z.of_nat (length clientNonce)))
  else
    pinned ← publicKeyFromBase64 desktopPublicKeyB64;
    Ok {| c_hello := {| hello_type := "e2ee_hello"; hello_v := 2;
            hello_clientPublicKeyB64 := btoa (box_publicKey C clientSecretKey);
            hello_clientNonceB64 := btoa clientNonce;
            hello_framing := [2]; hello_payloadKinds := ["text"; "binary"]%string;
            hello_context := {| ctx_protocol := "orca-mobile-e2ee"; ctx_initiator := "mobile";
              ctx_responder := "desktop"; ctx_transport := transport;
              ctx_relayHostId := match relayHostId with
                                 | Some i => if String.eqb i "" then None else Some i
                                 | None => None
                                 end |} |};
          c_clientSecretKey := clientSecretKey; c_pinnedDesktopPublicKey := pinned;
          c_inboundCounter := 0; c_outboundCounter := 0; c_schedule := None |}.

Definition c_with_schedule (s : ClientSession) (k : KeySchedule) : ClientSession :=
  {| c_hello := c_hello s; c_clientSecretKey := c_clientSecretKey s;
     c_pinnedDesktopPublicKey := c_pinnedDesktopPublicKey s; c_inboundCounter := c_inboundCounter s;
     c_outboundCounter := c_outboundCounter s; c_schedule := Some k |}.

Definition c_with_counters (s : ClientSession) (i o : Z) : ClientSession :=
  {| c_hello := c_hello s; c_clientSecretKey := c_clientSecretKey s;
     c_pinnedDesktopPublicKey := c_pinnedDesktopPublicKey s; c_inboundCounter := i;
     c_outboundCounter := o; c_schedule := c_schedule s |}.

Definition client_acceptReady (s : ClientSession) (ready : json) : result (bool * ClientSession) :=
  match validateMobileE2EEV2Handshake (hello_json (c_hello s)) ready with
  | None => Ok (false, s)
  | Some handshake =>
      if negb (equalBytes (hs_desktopPublicKey handshake) (c_pinnedDesktopPublicKey s)) then Ok (false, s)
      else
        schedule ← deriveMobileE2EEV2KeySchedule
          (deriveSharedKey (c_clientSecretKey s) (c_pinnedDesktopPublicKey s))
          (encodeMobileE2EEV2Transcript handshake) (hs_clientNonce handshake) (hs_desktopNonce handshake);
        Ok (true, c_with_schedule s schedule)
  end.

Definition not_accepted : string := "E2EE v2 ready has not been accepted".

Definition client_transcriptHashB64 (s : ClientSession) : result string :=
  match c_schedule s with
  | Some k => Ok (btoa (transcriptHash k))
  | None => Throw not_accepted
  end.

Definition client_open (s : ClientSession) (frame : list Z) (kind : MobileE2EEPayloadKind)
    : result (option (list Z) * ClientSession) :=
  match c_schedule s with
  | None => Ok (None, s)
  | Some k =>
      plaintext ← openMobileE2EEV2Frame (nacl_secretbox C) frame (desktopToMobileKey k)
        {| ff_sessionId := sessionId k; ff_direction := desktop_to_mobile; ff_payloadKind := kind;
           ff_counter := c_inboundCounter s |};
      Ok match plaintext with
         | Some _ => (plaintext, c_with_counters s (c_inboundCounter s + 1) (c_outboundCounter s))
         | None => (plaintext, s)
         end
  end.

Definition client_seal (s : ClientSession) (plaintext : list Z) (kind : MobileE2EEPayloadKind)
    : result (list Z * ClientSession) :=
  match c_schedule s with
  | None => Throw not_accepted
  | Some k =>
      frame ← sealMobileE2EEV2Frame (nacl_secretbox C) plaintext (mobileToDesktopKey k)
        {| ff_sessionId := sessionId k; ff_direction := mobile_to_desktop; ff_payloadKind := kind;
           ff_counter := c_outboundCounter s |};
      Ok (frame, c_with_counters s (c_inboundCounter s) (c_outboundCounter s + 1))
  end.

(** The mobile [decodeCanonicalBase64]: no pattern, only the round trip. *)
Definition client_decodeCanonicalBase64 (value : string) : option (list Z) :=
  bytes ← atob value; if String.eqb (btoa bytes) value then Some bytes else None.

Definition client_openText (s : ClientSession) (frameB64 : string)
    : result (option string * ClientSession) :=
  match client_decodeCanonicalBase64 frameB64 with
  | None => Ok (None, s)
  | Some frame =>
      '(plaintext, s) ← client_open s frame text;
      Ok (option_map text_of plaintext, s)
  end.
Definition client_openBinary (s : ClientSession) (frame : list Z) := client_open s frame binary.

Definition client_sealText (s : ClientSession) (plaintext : string) : result (string * ClientSession) :=
  '(frame, s) ← client_seal s (utf8 plaintext) text;
  Ok (btoa frame, s).
Definition client_sealBinary (s : ClientSession) (plaintext : list Z) := client_seal s plaintext binary.
End Sessions.

(** ** The channel between two ends *)

Section Channel.
Context (C : Crypto).

Abbreviation Message := (MobileE2EEPayloadKind * list Z)%type.

(** Both sessions, what each application sent, what went on the wire and what
    each end accepted, per direction. *)
Record Channel := {
  ch_client : ClientSession;
  ch_desktop : DesktopSession;
  sent_up : list Message; wire_up : list (list Z); acc_up : list Message;
  sent_down : list Message; wire_down : list (list Z); acc_down : list Message;
}.

Inductive ChannelEvent :=
  | MobileSends (kind : MobileE2EEPayloadKind) (payload : list Z)
  | DesktopSends (kind : MobileE2EEPayloadKind) (payload : list Z)
  | ToDesktop (kind : MobileE2EEPayloadKind) (frame : list Z)
  | ToMobile (kind : MobileE2EEPayloadKind) (frame : list Z).

(** A call that throws leaves the session as it was. *)
Definition channel_step (ch : Channel) (e : ChannelEvent) : Channel :=
  match e with
  | MobileSends kind payload =>
      match client_seal C (ch_client ch) payload kind with
      | Ok (frame, s) =>
          {| ch_client := s; ch_desktop := ch_desktop ch;
             sent_up := sent_up ch ++ [(kind, payload)]; wire_up := wire_up ch ++ [frame];
             acc_up := acc_up ch; sent_down := sent_down ch; wire_down := wire_down ch;
             acc_down := acc_down ch |}
      | Throw _ => ch
      end
  | DesktopSends kind payload =>
      match desktop_seal C (ch_desktop ch) payload kind with
      | Ok (frame, s) =>
          {| ch_client := ch_client ch; ch_desktop := s;
             sent_up := sent_up ch; wire_up := wire_up ch; acc_up := acc_up ch;
             sent_down := sent_down ch ++ [(kind, payload)]; wire_down := wire_down ch ++ [frame];
             acc_down := acc_down ch |}
      | Throw _ => ch
      end
  | ToDesktop kind frame =>
      match desktop_open C (ch_desktop ch) frame kind with
      | Ok (Some payload, s) =>
          {| ch_client := ch_client ch; ch_desktop := s; sent_up := sent_up ch; wire_up := wire_up ch;
             acc_up := acc_up ch ++ [(kind, payload)];
             sent_down := sent_down ch; wire_down := wire_down ch; acc_down := acc_down ch |}
      | _ => ch
      end
  | ToMobile kind frame =>
      match client_open C (ch_client ch) frame kind with
      | Ok (Some payload, s) =>
          {| ch_client := s; ch_desktop := ch_desktop ch; sent_up := sent_up ch; wire_up := wire_up ch;
             acc_up := acc_up ch; sent_down := sent_down ch; wire_down := wire_down ch;
             acc_down := acc_down ch ++ [(kind, payload)] |}
      | _ => ch
      end
  end.

(** The network delivers any bytes, to either end, in any order, any number of times, as
    either kind; it cannot forge: what opens under a key of the session was sealed by one
    of the two ends, whichever it is handed to. *)
Definition on_wire (ch : Channel) (frame : list Z) : Prop := frame ∈ wire_up ch \/ frame ∈ wire_down ch.
Definition network_allowed (ch : Channel) (e : ChannelEvent) : Prop :=
  match e with
  | ToDesktop kind frame =>
      forall p s, desktop_open C (ch_desktop ch) frame kind = Ok (Some p, s) -> on_wire ch frame
  | ToMobile kind frame =>
      forall p s, client_open C (ch_client ch) frame kind = Ok (Some p, s) -> on_wire ch frame
  | _ => True
  end.

Definition channel_transition (ch : Channel) (e : ChannelEvent) (ch' : Channel) : Prop :=
  network_allowed ch e /\ ch' = channel_step ch e.

Definition new_channel (c : ClientSession) (d : DesktopSession) : Channel :=
  {| ch_client := c; ch_desktop := d; sent_up := []; wire_up := []; acc_up := [];
     sent_down := []; wire_down := []; acc_down := [] |}.

Context `{HC : !CryptoLaws C}.
Abbreviation box := (nacl_secretbox C).

Definition fields (sid : list Z) (dir : MobileE2EEDirection) (kind : MobileE2EEPayloadKind) (n : Z)
    : FrameFields :=
  {| ff_sessionId := sid; ff_direction := dir; ff_payloadKind := kind; ff_counter := n |}.

(** The frame that carries a message at a position of a direction. *)
Definition frame_of (key sid : list Z) (dir : MobileE2EEDirection) (n : nat) (m : Message) : list Z :=
  let a := fields sid dir m.1 (Z.of_nat n) in
  encodeNonce a ++ secretbox box (encodeHeader a ++ m.2) (encodeNonce a) key.

(** One direction: the counters count, the wire carries the messages sent, and
    what was accepted is the beginning of what was sent. *)
Record link_ok (key sid : list Z) (dir : MobileE2EEDirection) (outc inc : Z)
    (sent : list Message) (wire : list (list Z)) (acc : list Message) : Prop := {
  lk_key : length key = keyLength box;
  lk_sid : length sid = SESSION_ID_LENGTH;
  lk_sid_bytes : bytes_ok sid;
  lk_out : outc = Z.of_nat (length sent);
  lk_in : inc = Z.of_nat (length acc);
  lk_acc : acc `prefix_of` sent;
  lk_bound : outc <= MAX_COUNTER + 1;
  lk_wire : wire = imap (fun n m => frame_of key sid dir n m) sent;
}.

Lemma link_inputs key sid dir outc inc sent wire acc kind n :
  link_ok key sid dir outc inc sent wire acc -> counter_ok n ->
  inputs_ok box key (fields sid dir kind n).
Proof. intros H Hn. split_and!; [apply H|apply H|done]. Qed.

Lemma link_send key sid dir outc inc sent wire acc kind p frame :
  link_ok key sid dir outc inc sent wire acc ->
  sealMobileE2EEV2Frame box p key (fields sid dir kind outc) = Ok frame ->
  link_ok key sid dir (outc + 1) inc (sent ++ [(kind, p)]) (wire ++ [frame]) acc.
Proof.
  intros H Hseal. destruct (validateFrameInputs_cases box key (fields sid dir kind outc))
    as [[_ Hi]|(m & Hv & _)]; [|unfold sealMobileE2EEV2Frame in Hseal; by rewrite Hv in Hseal].
  rewrite (seal_ok box) in Hseal by done. injection Hseal as <-.
  destruct Hi as (_ & _ & Hc). unfold counter_ok in Hc. simpl in Hc.
  destruct H as [Hk Hs Hsb Hout Hin Hacc Hb Hw]. split; try done.
  - rewrite length_app. simpl. lia.
  - by apply prefix_app_r.
  - lia.
  - rewrite imap_app, Hw. f_equal. simpl. unfold frame_of. simpl.
    by rewrite Nat.add_0_r, <- Hout.
Qed.

Lemma prefix_lookup_next {A} (l k : list A) x :
  l `prefix_of` k -> k !! length l = Some x -> (l ++ [x]) `prefix_of` k.
Proof.
  intros [r ->] Hx. rewrite lookup_app_r, Nat.sub_diag in Hx by done.
  destruct r as [|y r]; [done|]. injection Hx as ->. exists r. by rewrite <- app_assoc.
Qed.

Lemma link_deliver key sid dir outc inc sent wire acc kind frame p :
  link_ok key sid dir outc inc sent wire acc -> frame ∈ wire ->
  openMobileE2EEV2Frame box frame key (fields sid dir kind inc) = Ok (Some p) ->
  link_ok key sid dir outc (inc + 1) sent wire (acc ++ [(kind, p)]).
Proof.
  intros H Hin Hopen. pose proof H as [Hk Hs Hsb Hout Hinc Hacc Hb Hw].
  destruct (validateFrameInputs_cases box key (fields sid dir kind inc))
    as [[_ Hi]|(m & Hv & _)]; [|unfold openMobileE2EEV2Frame in Hopen; by rewrite Hv in Hopen].
  rewrite Hw in Hin. apply list_elem_of_lookup in Hin as [n Hn].
  apply list_lookup_imap_Some in Hn as ([kind' p'] & Hsent & ->).
  assert (Hlt : (n < length sent)%nat) by (by eapply lookup_lt_Some).
  unfold frame_of in Hopen. simpl in Hopen.
  rewrite (open_sealed box) in Hopen; [|eapply link_inputs; [exact H|unfold counter_ok; lia]|exact Hi].
  case_bool_decide as Heq; [|done]. injection Hopen as ->. injection Heq as -> Hcount.
  assert (n = length acc) as -> by lia.
  split; try done.
  - rewrite length_app. simpl. lia.
  - by apply prefix_lookup_next.
Qed.

(** A frame of the other direction does not open, whatever the key: its nonce names its
    direction. *)
Lemma open_direction a rest key b p : length (ff_sessionId a) = SESSION_ID_LENGTH -> counter_ok (ff_counter a) ->
  openMobileE2EEV2Frame box (encodeNonce a ++ rest) key b = Ok (Some p) -> ff_direction a = ff_direction b.
Proof.
  intros Ha Hc Hopen. unfold openMobileE2EEV2Frame in Hopen.
  destruct (validateFrameInputs_cases box key b) as [[Hv (_ & Hb & Hcb)]|(m & Hv & _)]; rewrite Hv in Hopen; [|done].
  cbn [mbind result_bind] in Hopen. destruct (_ <? _)%nat; [done|].
  unfold subarray at 1 in Hopen. rewrite drop_0, Nat.sub_0_r, take_app_length' in Hopen by (by rewrite length_encodeNonce).
  destruct (equalBytes (encodeNonce a) (encodeNonce b)) eqn:En; [|done]. apply equalBytes_true in En.
  by destruct (encodeNonce_inj a b Ha Hb Hc Hcb En) as (_ & Hd & _).
Qed.
Lemma link_reflected key sid dir outc inc sent wire acc frame key' b p :
  link_ok key sid dir outc inc sent wire acc -> frame ∈ wire ->
  openMobileE2EEV2Frame box frame key' b = Ok (Some p) -> ff_direction b = dir.
Proof.
  intros [Hk Hs Hsb Hout Hinc Hacc Hb ->] Hin Hopen. apply list_elem_of_lookup in Hin as [n Hn].
  apply list_lookup_imap_Some in Hn as (m & Hsent & ->). assert (Hlt : (n < length sent)%nat) by (by eapply lookup_lt_Some).
  unfold frame_of in Hopen. symmetry.
  eapply (open_direction (fields sid dir m.1 (Z.of_nat n))); [exact Hs| |exact Hopen]. unfold counter_ok. cbn. lia.
Qed.

Lemma link_progress key sid dir outc inc sent wire acc kind p :
  link_ok key sid dir outc inc sent wire acc -> sent !! length acc = Some (kind, p) ->
  exists frame, wire !! length acc = Some frame /\
    openMobileE2EEV2Frame box frame key (fields sid dir kind inc) = Ok (Some p).
Proof.
  intros H Hs. pose proof H as [_ _ _ Hout Hinc _ Hb ->].
  assert (Hlt : (length acc < length sent)%nat) by (by eapply lookup_lt_Some).
  eexists. rewrite list_lookup_imap, Hs. split; [done|]. unfold frame_of. simpl.
  rewrite (open_sealed box).
  - rewrite bool_decide_true; [done|]. by rewrite Hinc.
  - eapply link_inputs; [exact H|unfold counter_ok; lia].
  - eapply link_inputs; [exact H|unfold counter_ok; lia].
Qed.

(** The invariant of the channel: the two ends hold the same schedule, and each
    direction is in order. *)
Definition channel_ok (k : KeySchedule) (ch : Channel) : Prop :=
  c_schedule (ch_client ch) = Some k /\
  d_mobileToDesktopKey (ch_desktop ch) = mobileToDesktopKey k /\
  d_desktopToMobileKey (ch_desktop ch) = desktopToMobileKey k /\
  d_sessionId (ch_desktop ch) = sessionId k /\
  link_ok (mobileToDesktopKey k) (sessionId k) mobile_to_desktop
    (c_outboundCounter (ch_client ch)) (d_inboundCounter (ch_desktop ch))
    (sent_up ch) (wire_up ch) (acc_up ch) /\
  link_ok (desktopToMobileKey k) (sessionId k) desktop_to_mobile
    (d_outboundCounter (ch_desktop ch)) (c_inboundCounter (ch_client ch))
    (sent_down ch) (wire_down ch) (acc_down ch).

Lemma result_bind_Ok {A B} (r : result A) (f : A -> result B) y :
  (r ≫= f) = Ok y -> exists x, r = Ok x /\ f x = Ok y.
Proof. destruct r as [x|]; simpl; [eauto|done]. Qed.

Lemma desktop_open_Some s frame kind p s' :
  desktop_open C s frame kind = Ok (Some p, s') ->
  openMobileE2EEV2Frame box frame (d_mobileToDesktopKey s)
    (fields (d_sessionId s) mobile_to_desktop kind (d_inboundCounter s)) = Ok (Some p) /\
  s' = d_with_counters s (d_inboundCounter s + 1) (d_outboundCounter s).
Proof.
  unfold desktop_open. intros (r & Hr & H)%result_bind_Ok.
  destruct r; [|done]. injection H as -> <-. done.
Qed.

Lemma client_open_Some s k frame kind p s' :
  c_schedule s = Some k -> client_open C s frame kind = Ok (Some p, s') ->
  openMobileE2EEV2Frame box frame (desktopToMobileKey k)
    (fields (sessionId k) desktop_to_mobile kind (c_inboundCounter s)) = Ok (Some p) /\
  s' = c_with_counters s (c_inboundCounter s + 1) (c_outboundCounter s).
Proof.
  unfold client_open. intros ->. intros (r & Hr & H)%result_bind_Ok.
  destruct r; [|done]. injection H as -> <-. done.
Qed.

Lemma channel_step_ok k ch e ch' :
  channel_ok k ch -> channel_transition ch e ch' -> channel_ok k ch'.
Proof.
  intros (Hsch & Hk1 & Hk2 & Hsid & Hup & Hdown) [Hal ->].
  destruct e as [kind p|kind p|kind frame|kind frame]; simpl in *.
  - unfold client_seal. rewrite Hsch. destruct (sealMobileE2EEV2Frame _ _ _ _) as [f|] eqn:Hs; simpl;
      [|by split_and!]. split_and!; simpl; try done. by apply link_send.
  - unfold desktop_seal. rewrite Hk2, Hsid.
    destruct (sealMobileE2EEV2Frame _ _ _ _) as [f|] eqn:Hs; simpl; [|by split_and!].
    split_and!; simpl; try done. by apply link_send.
  - destruct (desktop_open _ _ _ _) as [[[p|] s]|] eqn:Ho; [|by split_and!..].
    pose proof (Hal p s eq_refl) as Hin. apply desktop_open_Some in Ho as [Ho ->].
    rewrite Hk1, Hsid in Ho. destruct Hin as [Hin|Hin]; [|by pose proof (link_reflected _ _ _ _ _ _ _ _ _ _ _ _ Hdown Hin Ho)].
    split_and!; simpl; try done. by eapply link_deliver.
  - destruct (client_open _ _ _ _) as [[[p|] s]|] eqn:Ho; [|by split_and!..].
    pose proof (Hal p s eq_refl) as Hin. apply (client_open_Some _ k) in Ho as [Ho ->]; [|done].
    destruct Hin as [Hin|Hin]; [by pose proof (link_reflected _ _ _ _ _ _ _ _ _ _ _ _ Hup Hin Ho)|].
    split_and!; simpl; try done. by eapply link_deliver.
Qed.

(** ** The handshake *)

Lemma derive_ok secret transcript cn dn :
  length secret = 32%nat -> length cn = 32%nat -> length dn = 32%nat ->
  exists k, deriveMobileE2EEV2KeySchedule C secret transcript cn dn = Ok k /\
    length (mobileToDesktopKey k) = 32%nat /\ length (desktopToMobileKey k) = 32%nat /\
    length (sessionId k) = 32%nat /\ bytes_ok (sessionId k).
Proof.
  intros Hs Hc Hd. unfold deriveMobileE2EEV2KeySchedule, requireLength.
  rewrite Hs, Hc, Hd. simpl. eexists. split; [done|]. simpl. unfold subarray.
  rewrite !length_take, !length_drop, crypto_hkdf. split_and!; [done..|].
  by apply Forall_take, Forall_drop, crypto_hkdf_bytes.
Qed.

Lemma desktop_ready_make csk cn dsk dn c :
  desktop_ready (hello_json (make_hello csk cn c)) dsk dn = ready_json (make_ready dsk cn dn c).
Proof. reflexivity. Qed.

Lemma hasExpectedContext_own pk cn c :
  hasExpectedContext (hello_json (make_hello pk cn c)) (ctx_transport c) (ctx_relayHostId c) = true.
Proof.
  unfold hasExpectedContext. cbn. rewrite String.eqb_refl. simpl.
  destruct (ctx_relayHostId c); simpl; [by rewrite String.eqb_refl|done].
Qed.

Definition own_context (transport : MobileE2EETransport) (relayHostId : option string)
    : MobileE2EEV2Context :=
  {| ctx_protocol := MOBILE_E2EE_V2_PROTOCOL; ctx_initiator := "mobile"; ctx_responder := "desktop";
     ctx_transport := transport; ctx_relayHostId := relayHostId |}.

Lemma relay_id_kept transport relayHostId :
  context_ok (own_context transport relayHostId) ->
  match relayHostId with Some i => if String.eqb i "" then None else Some i | None => None end = relayHostId.
Proof.
  intros (_ & _ & _ & H). simpl in H. destruct transport; [by subst|].
  destruct H as (i & -> & Hp). by destruct i.
Qed.

(** The handshake, from any keys, nonces and legal context. *)
Lemma handshake_agrees csk dsk cn dn transport relayHostId :
  key_ok csk -> key_ok dsk -> key_ok cn -> key_ok dn ->
  context_ok (own_context transport relayHostId) ->
  exists client d client' k,
    client_create C (btoa (box_publicKey C dsk)) transport relayHostId cn csk = Ok client /\
    desktop_create C (hello_json (c_hello client)) dsk transport relayHostId dn = Ok (Some d) /\
    client_acceptReady C client (d_ready d) = Ok (true, client') /\
    channel_ok k (new_channel client' d) /\ d_transcriptHashB64 d = btoa (transcriptHash k).
Proof.
  intros Hc Hd Hcn Hdn Hctx.
  pose proof (crypto_publicKey csk Hc) as Hcp. pose proof (crypto_publicKey dsk Hd) as Hdp.
  set (ctx := own_context transport relayHostId).
  pose proof (validate_make (box_publicKey C csk) (box_publicKey C dsk) cn dn ctx Hcp Hdp Hcn Hdn Hctx) as Hval.
  destruct (derive_ok (box_before C (box_publicKey C csk) dsk)
    (encodeMobileE2EEV2Transcript (make_handshake (box_publicKey C csk) (box_publicKey C dsk) cn dn ctx))
    cn dn) as (k & Hk & Hk1 & Hk2 & Hk3 & Hk4); [by apply crypto_before|apply Hcn|apply Hdn|].
  eexists _, _, _, k. split_and!.
  - unfold client_create, publicKeyFromBase64. rewrite (proj2 Hcn), Nat.eqb_refl.
    rewrite atob_btoa, (proj2 Hdp), Nat.eqb_refl by apply Hdp. simpl.
    by rewrite (relay_id_kept transport).
  - cbn [c_hello]. fold (own_context transport relayHostId).
    change (hello_json _) with (hello_json (make_hello (box_publicKey C csk) cn ctx)).
    unfold desktop_create. change transport with (ctx_transport ctx) at 1.
    change relayHostId with (ctx_relayHostId ctx) at 1.
    rewrite hasExpectedContext_own. cbn [negb]. rewrite desktop_ready_make, Hval.
    unfold deriveSharedKey. cbn [hs_clientPublicKey hs_clientNonce hs_desktopNonce make_handshake].
    rewrite Hk. simpl. reflexivity.
  - cbn [d_ready]. unfold client_acceptReady. cbn [c_hello c_pinnedDesktopPublicKey c_clientSecretKey].
    change (hello_json _) with (hello_json (make_hello (box_publicKey C csk) cn ctx)).
    rewrite Hval. cbn [hs_desktopPublicKey make_handshake]. rewrite equalBytes_refl. cbn [negb].
    unfold deriveSharedKey. rewrite crypto_dh by done.
    cbn [hs_clientNonce hs_desktopNonce make_handshake]. rewrite Hk. simpl. reflexivity.
  - unfold channel_ok, new_channel. simpl. split_and!; try done;
      (split; simpl; [by rewrite crypto_keyLength|done|done|done|done|apply prefix_nil|vm_compute; discriminate|done]).
  - done.
Qed.

(** C2. End to end. From any keys, nonces and legal transport context, the mobile end
    and the desktop end complete the handshake and agree on the transcript hash;
    and then, over a network that may drop, reorder, duplicate, replay, reflect (hand a
    frame back to the end that sealed it) and mislabel frames, but not forge one that
    opens under a key of the session and that neither end sealed, what each end accepts
    is always a prefix, in order and with its kinds, of what the other end sent; and the
    next message in order is accepted as soon as its frame arrives. *)
Theorem session_end_to_end csk dsk cn dn transport relayHostId :
  key_ok csk -> key_ok dsk -> key_ok cn -> key_ok dn ->
  context_ok (own_context transport relayHostId) ->
  exists client d client',
    client_create C (btoa (box_publicKey C dsk)) transport relayHostId cn csk = Ok client /\
    desktop_create C (hello_json (c_hello client)) dsk transport relayHostId dn = Ok (Some d) /\
    client_acceptReady C client (d_ready d) = Ok (true, client') /\
    client_transcriptHashB64 client' = Ok (d_transcriptHashB64 d) /\
    forall es ch, trace channel_transition (new_channel client' d) es ch ->
      acc_up ch `prefix_of` sent_up ch /\ acc_down ch `prefix_of` sent_down ch /\
      (forall kind p, sent_up ch !! length (acc_up ch) = Some (kind, p) ->
        exists frame, wire_up ch !! length (acc_up ch) = Some frame /\
          acc_up (channel_step ch (ToDesktop kind frame)) = acc_up ch ++ [(kind, p)]) /\
      (forall kind p, sent_down ch !! length (acc_down ch) = Some (kind, p) ->
        exists frame, wire_down ch !! length (acc_down ch) = Some frame /\
          acc_down (channel_step ch (ToMobile kind frame)) = acc_down ch ++ [(kind, p)]).
Proof.
  intros Hc Hd Hcn Hdn Hctx.
  destruct (handshake_agrees csk dsk cn dn transport relayHostId) as
    (client & d & client' & k & Hcl & Hde & Hac & Hok & Hhash); [done..|].
  exists client, d, client'. split_and!; [done..| |].
  - unfold client_transcriptHashB64. destruct Hok as (Hs & _). simpl in Hs. by rewrite Hs, Hhash.
  - intros es ch Htr. eapply (trace_invariant _ (channel_ok k)) in Htr;
      [|exact Hok|exact (channel_step_ok k)].
    destruct Htr as (Hsch & Hk1 & Hk2 & Hsid & Hup & Hdown). split_and!; [apply Hup|apply Hdown| |].
    + intros kind p Hs. destruct (link_progress _ _ _ _ _ _ _ _ kind p Hup Hs) as (frame & Hw & Ho).
      exists frame. split; [done|]. simpl. unfold desktop_open.
      unfold fields in Ho. by rewrite Hk1, Hsid, Ho.
    + intros kind p Hs. destruct (link_progress _ _ _ _ _ _ _ _ kind p Hdown Hs) as (frame & Hw & Ho).
      exists frame. split; [done|]. simpl. unfold client_open.
      unfold fields in Ho. by rewrite Hsch, Ho.
Qed.

(** The mobile end accepts a ready message only from the desktop it is paired
    with: acceptance means the message validates against this session's own
    hello and carries exactly the pinned public key, and then both ends' keys are
    derived; otherwise the session is unchanged, and it still neither opens nor
    seals anything. *)
Theorem acceptReady_pinned s ready b s' :
  client_acceptReady C s ready = Ok (b, s') ->
  (b = true <-> exists h, validateMobileE2EEV2Handshake (hello_json (c_hello s)) ready = Some h /\
                          hs_desktopPublicKey h = c_pinnedDesktopPublicKey s) /\
  (b = true -> is_Some (c_schedule s')) /\ (b = false -> s' = s) /\
  (c_schedule s = None -> forall frame kind payload, client_open C s frame kind = Ok (None, s) /\
     client_seal C s payload kind = Throw not_accepted).
Proof.
  unfold client_acceptReady. intros H. split_and!.
  - destruct (validateMobileE2EEV2Handshake _ _) as [h|]; [|by injection H as <- _; naive_solver].
    destruct (equalBytes _ _) eqn:E; simpl in H.
    + apply result_bind_Ok in H as (k & _ & [= <- _]). apply equalBytes_true in E. naive_solver.
    + injection H as <- _. split; [done|]. intros (h' & [= <-] & Heq). by rewrite Heq, equalBytes_refl in E.
  - intros ->. destruct (validateMobileE2EEV2Handshake _ _) as [h|]; [|done].
    destruct (negb _); [done|]. apply result_bind_Ok in H as (k & _ & [= <-]). by exists k.
  - intros ->. destruct (validateMobileE2EEV2Handshake _ _) as [h|]; [|by injection H].
    destruct (negb _); [by injection H|]. by apply result_bind_Ok in H as (k & _ & [= ]).
  - intros Hn frame kind payload. unfold client_open, client_seal. by rewrite Hn.
Qed.

(** ** Text frames *)

Lemma text_of_utf8 s : text_of (utf8 s) = s.
Proof.
  unfold text_of, utf8. rewrite map_map. rewrite <- (of_chars_chars s) at 2. f_equal.
  rewrite <- (map_id (chars s)) at 2. apply map_ext. intros c.
  by rewrite Nat2Z.id, Ascii.ascii_nat_embedding.
Qed.

Lemma frame_of_ok key sid dir n kind p :
  length sid = SESSION_ID_LENGTH -> bytes_ok sid -> bytes_ok p ->
  bytes_ok (frame_of key sid dir n (kind, p)).
Proof.
  intros Hl Hs Hp. unfold frame_of. simpl. apply Forall_app. split; [by apply encodeNonce_ok|].
  apply secretbox_bytes, Forall_app. split; [by apply encodeHeader_ok|done].
Qed.

Lemma decode_btoa bs : bytes_ok bs ->
  desktop_decodeCanonicalBase64 (btoa bs) = Some bs /\ client_decodeCanonicalBase64 (btoa bs) = Some bs.
Proof.
  intros H. unfold desktop_decodeCanonicalBase64, client_decodeCanonicalBase64.
  rewrite canonical_shape_btoa, atob_btoa by done. cbn [negb mbind option_bind].
  by rewrite String.eqb_refl.
Qed.

(** Text crosses the channel unchanged in both directions: on ends that finished
    the handshake and are in step, what one seals as text the other opens to the
    same text, both accepting the other's base64 as canonical. *)
Theorem text_roundtrip k ch s :
  channel_ok k ch ->
  (c_outboundCounter (ch_client ch) = d_inboundCounter (ch_desktop ch) ->
   d_inboundCounter (ch_desktop ch) <= MAX_COUNTER ->
    exists b64 c' d', client_sealText C (ch_client ch) s = Ok (b64, c') /\
      desktop_openText C (ch_desktop ch) b64 = Ok (Some s, d') /\
      d_inboundCounter d' = c_outboundCounter c') /\
  (d_outboundCounter (ch_desktop ch) = c_inboundCounter (ch_client ch) ->
   c_inboundCounter (ch_client ch) <= MAX_COUNTER ->
    exists b64 d' c', desktop_sealText C (ch_desktop ch) s = Ok (b64, d') /\
      client_openText C (ch_client ch) b64 = Ok (Some s, c') /\
      c_inboundCounter c' = d_outboundCounter d').
Proof.
  intros (Hsch & Hk1 & Hk2 & Hsid & Hup & Hdown). split; intros Heq Hmax.
  - pose proof (lk_in _ _ _ _ _ _ _ _ Hup) as Hin.
    assert (Hc : counter_ok (d_inboundCounter (ch_desktop ch))) by (unfold counter_ok; lia).
    pose proof (link_inputs _ _ _ _ _ _ _ _ text _ Hup Hc) as Hi. unfold fields in Hi.
    pose proof (frame_of_ok (mobileToDesktopKey k) (sessionId k) mobile_to_desktop
      (length (acc_up ch)) text (utf8 s) (lk_sid _ _ _ _ _ _ _ _ Hup)
      (lk_sid_bytes _ _ _ _ _ _ _ _ Hup) (utf8_ok s)) as Hb.
    unfold frame_of, fields in Hb. rewrite <- Hin in Hb. cbn [fst snd] in Hb.
    unfold client_sealText, client_seal, desktop_openText, desktop_open.
    rewrite Hsch, Heq, (seal_ok box) by done. simpl. eexists _, _, _. split; [done|].
    rewrite (proj1 (decode_btoa _ Hb)). rewrite Hk1, Hsid, (open_sealed box) by done.
    rewrite bool_decide_true by done. simpl. rewrite text_of_utf8. split; [done|]. simpl. lia.
  - pose proof (lk_in _ _ _ _ _ _ _ _ Hdown) as Hin.
    assert (Hc : counter_ok (c_inboundCounter (ch_client ch))) by (unfold counter_ok; lia).
    pose proof (link_inputs _ _ _ _ _ _ _ _ text _ Hdown Hc) as Hi. unfold fields in Hi.
    pose proof (frame_of_ok (desktopToMobileKey k) (sessionId k) desktop_to_mobile
      (length (acc_down ch)) text (utf8 s) (lk_sid _ _ _ _ _ _ _ _ Hdown)
      (lk_sid_bytes _ _ _ _ _ _ _ _ Hdown) (utf8_ok s)) as Hb.
    unfold frame_of, fields in Hb. rewrite <- Hin in Hb. cbn [fst snd] in Hb.
    unfold desktop_sealText, desktop_seal, client_openText, client_open.
    rewrite Hk2, Hsid, Heq, (seal_ok box) by done. simpl. eexists _, _, _. split; [done|].
    rewrite (proj2 (decode_btoa _ Hb)). rewrite Hsch, (open_sealed box) by done.
    rewrite bool_decide_true by done. simpl. rewrite text_of_utf8. split; [done|]. simpl. lia.
Qed.
End Channel.

(** ** Concrete primitives, for evaluation *)

Definition demo_crypto : Crypto := {|
  nacl_secretbox := demo_box;
  box_publicKey sk := sk;
  box_before pk sk := zip_with (fun a b => (a + b) mod 256) pk sk;
  sha256 m := replicate 32 (sumZ m mod 256);
  hkdf ikm salt info n := replicate n ((sumZ ikm + sumZ salt + sumZ info) mod 256);
|}.

#[export] Instance demo_crypto_laws : CryptoLaws demo_crypto.
Proof.
  split; simpl.
  - apply _.
  - done.
  - done.
  - intros pk sk [_ H1] [_ H2]. rewrite length_zip_with, H1, H2. done.
  - intros. apply length_replicate.
  - intros. apply Forall_replicate, Z.mod_pos_bound. lia.
  - intros a b _ _. revert b; induction a as [|x a IH]; intros [|y b]; simpl; f_equal; [|auto].
    by rewrite Z.add_comm.
Defined.

Lemma demo_key_ok n : 0 <= n < 256 -> key_ok (replicate 32 n).
Proof. intros H. split; [by apply Forall_replicate|done]. Qed.

Lemma session_end_to_end_witness :
  exists client d client',
    client_create demo_crypto (btoa (replicate 32 2)) direct None (replicate 32 3) (replicate 32 1) = Ok client /\
    desktop_create demo_crypto (hello_json (c_hello client)) (replicate 32 2) direct None (replicate 32 4) = Ok (Some d) /\
    client_acceptReady demo_crypto client (d_ready d) = Ok (true, client').
Proof.
  destruct (session_end_to_end demo_crypto (replicate 32 1) (replicate 32 2) (replicate 32 3)
    (replicate 32 4) direct None) as (client & d & client' & H1 & H2 & H3 & _);
    [apply demo_key_ok; lia|apply demo_key_ok; lia|apply demo_key_ok; lia|apply demo_key_ok; lia| |].
  - repeat split.
  - exists client, d, client'. split; [exact H1|]. split; [exact H2|exact H3].
Defined.

Definition demo_client : ClientSession :=
  match client_create demo_crypto (btoa (replicate 32 2)) direct None (replicate 32 3) (replicate 32 1) with
  | Ok c => c
  | Throw _ => {| c_hello := make_hello [] [] (own_context direct None); c_clientSecretKey := [];
                  c_pinnedDesktopPublicKey := []; c_inboundCounter := 0; c_outboundCounter := 0;
                  c_schedule := None |}
  end.

Lemma acceptReady_pinned_witness :
  client_acceptReady demo_crypto demo_client JNull = Ok (false, demo_client) /\
  client_open demo_crypto demo_client [1; 2] text = Ok (None, demo_client).
Proof.
  assert (H : client_acceptReady demo_crypto demo_client JNull = Ok (false, demo_client))
    by (vm_compute; reflexivity).
  split; [exact H|]. destruct (acceptReady_pinned demo_crypto _ _ _ _ H) as (_ & _ & _ & Hn).
  apply (Hn eq_refl [1; 2] text []).
Defined.

Definition demo_schedule : KeySchedule := {|
  mobileToDesktopKey := replicate 32 1; desktopToMobileKey := replicate 32 2;
  sessionId := replicate 32 3; transcriptHash := [] |}.

Definition demo_channel : Channel :=
  new_channel (c_with_schedule demo_client demo_schedule)
    {| d_ready := JNull; d_transcriptHashB64 := ""; d_mobileToDesktopKey := replicate 32 1;
       d_desktopToMobileKey := replicate 32 2; d_sessionId := replicate 32 3;
       d_inboundCounter := 0; d_outboundCounter := 0 |}.

Lemma text_roundtrip_witness :
  exists b64 c' d', client_sealText demo_crypto (ch_client demo_channel) "hi" = Ok (b64, c') /\
    desktop_openText demo_crypto (ch_desktop demo_channel) b64 = Ok (Some "hi"%string, d').
Proof.
  destruct (text_roundtrip demo_crypto demo_schedule demo_channel "hi") as [Hup _].
  - assert (Hb : bytes_ok (replicate 32 3)) by (apply Forall_replicate; unfold byte_ok; lia).
    repeat split; simpl; try exact Hb; try apply prefix_nil; vm_compute; discriminate.
  - destruct Hup as (b64 & c' & d' & H1 & H2 & _); [reflexivity|vm_compute; discriminate|].
    exists b64, c', d'. split; [exact H1|exact H2].
Defined.

(** A frame handed back to the end that sealed it is refused, even where both directions
    have one key. *)
Example reflected_frame_refused :
  let k := {| mobileToDesktopKey := replicate 32 1; desktopToMobileKey := replicate 32 1; sessionId := replicate 32 3; transcriptHash := [] |} in
  let ch := channel_step demo_crypto
    (new_channel (c_with_schedule demo_client k)
       {| d_ready := JNull; d_transcriptHashB64 := ""; d_mobileToDesktopKey := replicate 32 1; d_desktopToMobileKey := replicate 32 1;
          d_sessionId := replicate 32 3; d_inboundCounter := 0; d_outboundCounter := 0 |})
    (MobileSends text [1]) in
  match wire_up ch with
  | [frame] => (acc_down (channel_step demo_crypto ch (ToMobile text frame)), acc_up (channel_step demo_crypto ch (ToDesktop text frame)))
  | _ => ([], [])
  end = ([], [(text, [1])]).
Proof. vm_compute. reflexivity. Qed.
