(* ===== verification/WsBackpressure.v ===== *)
(** * The outbound backpressure queue of a WebSocket

    Models [src/shared/ws-outbound-backpressure-queue.ts]. The closure's variables
    are the state; the options' callbacks act on an environment [E] (the socket),
    which the operations thread. Timers are ids: [setTimer] returns a fresh one
    and arms it, [clearTimer] disarms it, firing it disarms it and calls [drain].
    The array is kept with its head index, as the code keeps it. *)

From S2P Require Import Prelude.
Local Open Scope Z_scope.

Definition DEFAULT_SOFT_CAP_BYTES : Z := 8 * 1024 * 1024.
Definition DEFAULT_MAX_QUEUED_BYTES : Z := 64 * 1024 * 1024.
Definition DEFAULT_DRAIN_POLL_MS : Z := 25.

Section Options.
Context {F E : Type}.

Record WsOptions := {
  opt_send : F -> E -> E;
  opt_byteLengthOf : F -> Z;
  (** [None]: not a finite number *)
  opt_getBufferedAmount : E -> option Z;
  opt_isWritable : E -> bool;
  opt_onOverflow : E -> E;
  opt_softCapBytes : option Z;
  opt_maxQueuedBytes : option Z;
  opt_drainPollMs : option Z;
}.

Record WsQueue := {
  queue : list (F * Z);
  queueHead : nat;
  queued : Z;
  timer : option nat;
  overflowed : bool;
  disposed : bool;
  (** the armed timers, each with its delay, and the next id *)
  armed : list (nat * Z);
  nextTimer : nat;
}.

Definition new_ws_queue : WsQueue :=
  {| queue := []; queueHead := 0; queued := 0; timer := None; overflowed := false;
     disposed := false; armed := []; nextTimer := 0 |}.

Context (options : WsOptions).
Implicit Types (q : WsQueue) (e : E).

Definition softCapBytes : Z := default DEFAULT_SOFT_CAP_BYTES (opt_softCapBytes options).
Definition maxQueuedBytes : Z := default DEFAULT_MAX_QUEUED_BYTES (opt_maxQueuedBytes options).
Definition drainPollMs : Z := default DEFAULT_DRAIN_POLL_MS (opt_drainPollMs options).

Definition bufferedAmount e : Z := default 0 (opt_getBufferedAmount options e).

Definition disarm (id : nat) (l : list (nat * Z)) : list (nat * Z) :=
  js_filter (fun p => negb (p.1 =? id)%nat) l.

Definition setTimer q : WsQueue :=
  {| queue := queue q; queueHead := queueHead q; queued := queued q; timer := Some (nextTimer q);
     overflowed := overflowed q; disposed := disposed q;
     armed := armed q ++ [(nextTimer q, drainPollMs)]; nextTimer := S (nextTimer q) |}.

Definition stopTimer q : WsQueue :=
  match timer q with
  | None => q
  | Some id =>
      {| queue := queue q; queueHead := queueHead q; queued := queued q; timer := None;
         overflowed := overflowed q; disposed := disposed q;
         armed := disarm id (armed q); nextTimer := nextTimer q |}
  end.

Definition with_entries q (l : list (F * Z)) (head : nat) (n : Z) : WsQueue :=
  {| queue := l; queueHead := head; queued := n; timer := timer q; overflowed := overflowed q;
     disposed := disposed q; armed := armed q; nextTimer := nextTimer q |}.

Definition dropBacklog q : WsQueue := stopTimer (with_entries q [] 0 0).

(** The [while] of [drain], on the entries not yet sent. *)
Fixpoint drain_loop (rest : list (F * Z)) q e : WsQueue * E :=
  match rest with
  | [] => (q, e)
  | (frame, bytes) :: rest =>
      if bufferedAmount e <=? softCapBytes then
        drain_loop rest (with_entries q (queue q) (S (queueHead q)) (queued q - bytes))
          (opt_send options frame e)
      else (q, e)
  end.

Definition drain q e : WsQueue * E :=
  if disposed q || overflowed q then (q, e)
  else if negb (opt_isWritable options e) then (dropBacklog q, e)
  else
    let '(q, e) := drain_loop (drop (queueHead q) (queue q)) q e in
    if (queueHead q <? length (queue q))%nat then (setTimer q, e)
    else (stopTimer (with_entries q [] 0 (queued q)), e).

Definition enqueue q (frame : F) e : WsQueue * E :=
  if disposed q || overflowed q then (q, e)
  else if (queueHead q =? length (queue q))%nat && opt_isWritable options e
          && (bufferedAmount e <=? softCapBytes)
  then (q, opt_send options frame e)
  else
    let bytes := opt_byteLengthOf options frame in
    let q := with_entries q (queue q ++ [(frame, bytes)]) (queueHead q) (queued q + bytes) in
    if maxQueuedBytes <? queued q then
      let q := {| queue := queue q; queueHead := queueHead q; queued := queued q; timer := timer q;
                  overflowed := true; disposed := disposed q; armed := armed q;
                  nextTimer := nextTimer q |} in
      (dropBacklog q, opt_onOverflow options e)
    else
      match timer q with
      | None => (setTimer q, e)
      | Some _ => (q, e)
      end.

Definition queuedBytes q : Z := queued q.

Definition dispose q : WsQueue :=
  dropBacklog {| queue := queue q; queueHead := queueHead q; queued := queued q; timer := timer q;
                 overflowed := overflowed q; disposed := true; armed := armed q;
                 nextTimer := nextTimer q |}.

(** An armed timer fires: it is disarmed and runs [drain]. *)
Definition fire (id : nat) q e : WsQueue * E :=
  drain {| queue := queue q; queueHead := queueHead q; queued := queued q; timer := timer q;
           overflowed := overflowed q; disposed := disposed q; armed := disarm id (armed q);
           nextTimer := nextTimer q |} e.

(** ** Steps *)

Inductive WsEvent :=
  | Enqueue (frame : F)
  | TimerFires (id : nat)
  | SocketChanges (g : E -> E)
  | Dispose.

Definition ws_step (s : WsQueue * E) (ev : WsEvent) : WsQueue * E :=
  let '(q, e) := s in
  match ev with
  | Enqueue frame => enqueue q frame e
  | TimerFires id => fire id q e
  | SocketChanges g => (q, g e)
  | Dispose => (dispose q, e)
  end.

(** Only an armed timer fires. *)
Definition ws_transition (s : WsQueue * E) (ev : WsEvent) (s' : WsQueue * E) : Prop :=
  (forall id, ev = TimerFires id -> id ∈ map fst (armed s.1)) /\ s' = ws_step s ev.
End Options.
Arguments WsOptions : clear implicits.
Arguments WsQueue : clear implicits.
Arguments WsEvent : clear implicits.

(** What the queue relies on of the socket: sends append to the wire, the
    overflow callback is counted, and neither makes an open socket unwritable
    or the other way round. *)
Class WsLaws {F E} (options : WsOptions F E) := {
  wire : E -> list F;
  overflows : E -> nat;
  wire_send f e : wire (opt_send options f e) = wire e ++ [f];
  overflows_send f e : overflows (opt_send options f e) = overflows e;
  writable_send f e : opt_isWritable options (opt_send options f e) = opt_isWritable options e;
  wire_overflow e : wire (opt_onOverflow options e) = wire e;
  overflows_overflow e : overflows (opt_onOverflow options e) = S (overflows e);
  byteLength_nonneg f : 0 <= opt_byteLengthOf options f;
}.

Section Laws.
Context {F E : Type} (options : WsOptions F E) `{HW : !WsLaws options}.
Implicit Types (q : WsQueue F) (e : E).

Definition parked q : list F := map fst (drop (queueHead q) (queue q)).

(** The state between operations: the byte count is that of the parked frames and
    within the bound, exactly one timer is armed while frames are parked and none
    otherwise, and a queue that is over holds nothing. *)
Record ws_ok q : Prop := {
  ws_head : (queueHead q <= length (queue q))%nat;
  ws_bytes : Forall (fun p => p.2 = opt_byteLengthOf options p.1) (queue q);
  ws_queued : queued q = sumZ (map (opt_byteLengthOf options) (parked q));
  ws_bound : queued q <= Z.max 0 (maxQueuedBytes options);
  ws_timer : match timer q with
             | Some id => armed q = [(id, drainPollMs options)] /\ parked q ≠ []
             | None => armed q = [] /\ parked q = []
             end;
  ws_over : overflowed q || disposed q = true -> parked q = [];
}.

Lemma disarm_one id d : disarm id [(id, d)] = [].
Proof. unfold disarm. simpl. by rewrite Nat.eqb_refl. Qed.

Lemma new_ws_ok : ws_ok new_ws_queue.
Proof. split; simpl; try done. lia. Qed.

(** Any queue with nothing left and its timer stopped is fine. *)
Lemma emptied_ok q :
  (forall id, timer q = Some id -> disarm id (armed q) = []) -> (timer q = None -> armed q = []) ->
  ws_ok (dropBacklog q).
Proof.
  intros H1 H2. unfold dropBacklog, stopTimer. simpl. destruct (timer q) eqn:Et; split; simpl;
    rewrite ?Et; try done; try (unfold parked; simpl; done || lia); try constructor; simpl; auto.
Qed.

Lemma ws_ok_dropBacklog q : ws_ok q -> ws_ok (dropBacklog q).
Proof.
  intros H. apply emptied_ok; intros; pose proof (ws_timer _ H) as Ht.
  - rewrite H0 in Ht. destruct Ht as [-> _]. apply disarm_one.
  - rewrite H0 in Ht. apply Ht.
Qed.

Lemma drain_loop_spec rest : forall q e,
  rest = drop (queueHead q) (queue q) ->
  (queueHead q <= length (queue q))%nat ->
  Forall (fun p => p.2 = opt_byteLengthOf options p.1) (queue q) ->
  queued q = sumZ (map (opt_byteLengthOf options) (parked q)) ->
  exists n, let '(q', e') := drain_loop options rest q e in
    queued q' <= queued q /\
    q' = with_entries q (queue q) (queueHead q + n) (queued q') /\
    (queueHead q + n <= length (queue q))%nat /\
    queued q' = sumZ (map (opt_byteLengthOf options) (parked q')) /\
    wire e' ++ parked q' = wire e ++ parked q /\
    overflows e' = overflows e /\ opt_isWritable options e' = opt_isWritable options e /\
    (parked q' = [] \/ softCapBytes options < bufferedAmount options e').
Proof.
  induction rest as [|[f b] rest IH]; intros q e Hrest Hhead Hb Hq; simpl.
  - exists 0%nat. rewrite Nat.add_0_r. split; [lia|]. split; [by destruct q|]. split; [done|].
    split_and!; try done. left. unfold parked. by rewrite <- Hrest.
  - destruct (Z.leb_spec (bufferedAmount options e) (softCapBytes options)) as [Hle|Hgt]; cycle 1.
    { exists 0%nat. rewrite Nat.add_0_r. split; [lia|]. split; [by destruct q|]. auto 10. }
    assert (Hlt : (queueHead q < length (queue q))%nat).
    { apply (f_equal length) in Hrest. rewrite length_drop in Hrest. simpl in Hrest. lia. }
    assert (Hnext : rest = drop (S (queueHead q)) (queue q)).
    { rewrite <- (Nat.add_1_r (queueHead q)), <- drop_drop, <- Hrest. done. }
    assert (Hp : parked q = f :: map fst rest) by (unfold parked; by rewrite <- Hrest).
    assert (Hfb : b = opt_byteLengthOf options f).
    { assert (Hin : (f, b) ∈ queue q).
      { apply (list_elem_of_lookup_2 _ (queueHead q)).
        rewrite <- (Nat.add_0_r (queueHead q)), <- lookup_drop, <- Hrest. done. }
      by apply (proj1 (Forall_forall _ _) Hb _ Hin). }
    edestruct (IH (with_entries q (queue q) (S (queueHead q)) (queued q - b)) (opt_send options f e))
      as (n & Hn); [done|simpl; lia|done| |].
    + simpl. unfold parked. simpl. rewrite <- Hnext, Hq, Hp. simpl. lia.
    + destruct (drain_loop _ _ _ _) as [q' e']. simpl in Hn.
      destruct Hn as (Hmono & Hq' & Hle' & Hqd & Hw & Ho & Hwr & Hend).
      exists (S n). rewrite Nat.add_succ_r. pose proof (byteLength_nonneg f).
      split; [lia|]. split; [done|]. split; [lia|]. split; [done|].
      rewrite Hw, Ho, Hwr, wire_send, overflows_send, writable_send. split_and!; try done.
      unfold parked. simpl. rewrite <- Hnext, <- Hrest. by rewrite <- app_assoc.
Qed.

Lemma stopTimer_fields q :
  queue (stopTimer q) = queue q /\ queueHead (stopTimer q) = queueHead q /\
  queued (stopTimer q) = queued q /\ timer (stopTimer q) = None /\
  overflowed (stopTimer q) = overflowed q /\ disposed (stopTimer q) = disposed q.
Proof. unfold stopTimer. destruct (timer q) eqn:Et; simpl; auto 10. Qed.

(** [drain], called with no timer armed. *)
Lemma drain_spec q e :
  (queueHead q <= length (queue q))%nat ->
  Forall (fun p => p.2 = opt_byteLengthOf options p.1) (queue q) ->
  queued q = sumZ (map (opt_byteLengthOf options) (parked q)) ->
  queued q <= Z.max 0 (maxQueuedBytes options) ->
  disposed q || overflowed q = false -> armed q = [] ->
  let '(q', e') := drain options q e in
  ws_ok q' /\ overflowed q' = overflowed q /\ disposed q' = disposed q /\
  overflows e' = overflows e /\ opt_isWritable options e' = opt_isWritable options e /\
  (if opt_isWritable options e then wire e' ++ parked q' = wire e ++ parked q
   else e' = e /\ parked q' = []).
Proof.
  intros Hhead Hb Hq Hbound Hlive Harm. unfold drain. rewrite Hlive.
  destruct (opt_isWritable options e) eqn:Hwr; simpl; cycle 1.
  { split_and!; try done.
    - apply emptied_ok; intros; by rewrite Harm.
    - unfold dropBacklog. by rewrite (proj1 (proj2 (proj2 (proj2 (proj2 (stopTimer_fields _)))))).
    - unfold dropBacklog. by rewrite (proj2 (proj2 (proj2 (proj2 (proj2 (stopTimer_fields _)))))).
    - unfold parked, dropBacklog.
      by destruct (stopTimer_fields (with_entries q [] 0 0)) as (-> & -> & _). }
  destruct (drain_loop_spec (drop (queueHead q) (queue q)) q e) as [n Hn]; [done..|].
  destruct (drain_loop _ _ _ _) as [q1 e1].
  destruct Hn as (Hmono & Hq1 & Hle & Hqd & Hw & Ho & Hwr1 & Hend).
  assert (Hl1 : queue q1 = queue q) by (by rewrite Hq1).
  assert (Hh1 : queueHead q1 = (queueHead q + n)%nat) by (by rewrite Hq1).
  assert (Ha1 : armed q1 = []) by (by rewrite Hq1).
  assert (Hd1 : disposed q1 = disposed q) by (by rewrite Hq1).
  assert (Ho1 : overflowed q1 = overflowed q) by (by rewrite Hq1).
  apply orb_false_iff in Hlive as [Hdis Hov].
  destruct (Nat.ltb_spec (queueHead q1) (length (queue q1))) as [Hlt|Hge].
  - split_and!; try (by rewrite ?Hd1, ?Ho1, ?Hwr1); try exact Hw.
    split; simpl.
    + lia.
    + by rewrite Hl1.
    + done.
    + unfold parked in *. simpl. lia.
    + rewrite Ha1. split; [done|]. unfold parked. simpl. intros Hnil.
      apply (f_equal length) in Hnil. rewrite length_map, length_drop in Hnil. simpl in Hnil. lia.
    + by rewrite Ho1, Hd1, Hdis, Hov.
  - assert (Hp1 : parked q1 = []) by (unfold parked; by rewrite drop_ge).
    destruct (stopTimer_fields (with_entries q1 [] 0 (queued q1))) as (F1 & F2 & F3 & F4 & F5 & F6).
    assert (Hpk : parked (stopTimer (with_entries q1 [] 0 (queued q1))) = [])
      by (unfold parked; by rewrite F1, F2).
    split_and!; try done.
    + split; rewrite ?Hpk, ?F1, ?F2, ?F3, ?F4; simpl; try done.
      * rewrite Hqd, Hp1. done.
      * rewrite Hqd, Hp1. simpl. lia.
      * split; [|done]. unfold stopTimer. simpl. rewrite Ha1. by destruct (timer q1).
    + by rewrite F5.
    + by rewrite F6.
    + by rewrite Hwr1.
    + rewrite Hpk. by rewrite Hp1 in Hw.
Qed.

Definition over q : bool := disposed q || overflowed q.

Lemma dropBacklog_fields q :
  parked (dropBacklog q) = [] /\ overflowed (dropBacklog q) = overflowed q /\
  disposed (dropBacklog q) = disposed q.
Proof.
  unfold dropBacklog, parked.
  by destruct (stopTimer_fields (with_entries q [] 0 0)) as (-> & -> & _ & _ & -> & ->).
Qed.

Lemma enqueue_spec q f e :
  ws_ok q ->
  let '(q', e') := enqueue options q f e in
  ws_ok q' /\ disposed q' = disposed q /\
  if over q then q' = q /\ e' = e
  else if overflowed q' then
    parked q' = [] /\ wire e' = wire e /\ overflows e' = S (overflows e) /\
    maxQueuedBytes options < sumZ (map (opt_byteLengthOf options) (parked q ++ [f]))
  else
    wire e' ++ parked q' = wire e ++ parked q ++ [f] /\ overflows e' = overflows e /\
    opt_isWritable options e' = opt_isWritable options e.
Proof.
  intros Hok. unfold enqueue. fold (over q). destruct (over q) eqn:Hover; [done|].
  unfold over in Hover. apply orb_false_iff in Hover as [Hdis Hov].
  pose proof Hok as [Hhead Hb Hq Hbound Ht _].
  destruct ((queueHead q =? length (queue q))%nat && opt_isWritable options e
          && (bufferedAmount options e <=? softCapBytes options)) eqn:Hfast.
  - apply andb_true_iff in Hfast as [[Hf _]%andb_true_iff _]. apply Nat.eqb_eq in Hf.
    rewrite Hov. split; [done|]. split; [done|].
    assert (Hp : parked q = []) by (unfold parked; rewrite drop_ge; [done|lia]).
    by rewrite Hp, app_nil_r, wire_send, overflows_send, writable_send.
  - set (b := opt_byteLengthOf options f).
    set (q1 := with_entries q (queue q ++ [(f, b)]) (queueHead q) (queued q + b)).
    assert (Hp1 : parked q1 = parked q ++ [f])
      by (unfold parked; simpl; by rewrite drop_app_le, map_app).
    assert (Hq1 : queued q1 = sumZ (map (opt_byteLengthOf options) (parked q ++ [f]))).
    { rewrite map_app, sumZ_app, <- Hq. unfold q1, sumZ, b. simpl. lia. }
    destruct (Z.ltb_spec (maxQueuedBytes options) (queued q1)) as [Hgt|Hle].
    + match goal with |- context [dropBacklog ?x] => set (q2 := x) end.
      destruct (dropBacklog_fields q2) as (F1 & F2 & F3).
      split; [|split; [by rewrite F3|]].
      * apply emptied_ok; intros; simpl in *; rewrite H in Ht; destruct Ht as [-> _]; [apply disarm_one|done].
      * rewrite F2. simpl. rewrite F1, wire_overflow, overflows_overflow, <- Hq1. done.
    + assert (Hb1 : Forall (fun p => p.2 = opt_byteLengthOf options p.1) (queue q1))
        by (apply Forall_app; split; [done|by repeat constructor]).
      assert (Hh1 : (queueHead q1 <= length (queue q1))%nat) by (simpl; rewrite length_app; simpl; lia).
      assert (Hne : parked q1 ≠ []) by (rewrite Hp1; by destruct (parked q)).
      change (timer q1) with (timer q). destruct (timer q) as [id|] eqn:Et.
      * simpl overflowed. rewrite Hov. split; [|split; [done|]].
        -- split; try done; [by rewrite Hp1|lia| |simpl; by rewrite Hov, Hdis].
           simpl. rewrite Et. by destruct Ht as [-> _].
        -- by rewrite Hp1, !app_assoc.
      * simpl overflowed. rewrite Hov. split; [|split; [done|]].
        -- split; change (parked (setTimer options q1)) with (parked q1); try done;
             [by rewrite Hp1|simpl in *; lia| |simpl; by rewrite Hov, Hdis].
           simpl. by destruct Ht as [-> _].
        -- change (parked (setTimer options q1)) with (parked q1). by rewrite Hp1, !app_assoc.
Qed.

Lemma fire_spec id q e :
  ws_ok q -> id ∈ map fst (armed q) ->
  let '(q', e') := fire options id q e in
  ws_ok q' /\ overflowed q' = overflowed q /\ disposed q' = disposed q /\
  overflows e' = overflows e /\ opt_isWritable options e' = opt_isWritable options e /\
  (if opt_isWritable options e then wire e' ++ parked q' = wire e ++ parked q
   else e' = e /\ parked q' = []).
Proof.
  intros [Hhead Hb Hq Hbound Ht Hover] Hid. unfold fire.
  destruct (timer q) as [t|] eqn:Et; destruct Ht as [Ha Hp]; [|rewrite Ha in Hid; by apply elem_of_nil in Hid].
  rewrite Ha in Hid. apply list_elem_of_singleton in Hid as ->.
  match goal with |- context [drain _ ?x _] => set (q1 := x) end.
  assert (Hlive : disposed q || overflowed q = false).
  { destruct (overflowed q || disposed q) eqn:E1; [by destruct Hp; apply Hover|].
    by rewrite orb_comm. }
  pose proof (drain_spec q1 e Hhead Hb Hq Hbound Hlive) as Hd.
  simpl in Hd. rewrite Ha in Hd. specialize (Hd (disarm_one t (drainPollMs options))).
  exact Hd.
Qed.

(** ** Runs *)

Definition enqueued (es : list (WsEvent F E)) : list F :=
  mjoin (map (fun ev => match ev with Enqueue f => [f] | _ => [] end) es).

(** No dispose, and the socket stays writable whenever it changes. *)
Definition undisturbed (es : list (WsEvent F E)) : Prop :=
  Forall (fun ev => match ev with
                    | Dispose => False
                    | SocketChanges g => forall e, opt_isWritable options (g e) = true /\
                        wire (g e) = wire e /\ overflows (g e) = overflows e
                    | _ => True
                    end) es.

Lemma enqueued_snoc es ev :
  enqueued (es ++ [ev]) = enqueued es ++ match ev with Enqueue f => [f] | _ => [] end.
Proof.
  unfold enqueued. induction es as [|x es IH]; simpl.
  - by rewrite app_nil_r.
  - rewrite IH. by rewrite app_assoc.
Qed.

Lemma ws_step_ok s ev s' :
  ws_ok s.1 -> ws_transition options s ev s' -> ws_ok s'.1.
Proof.
  destruct s as [q e]. intros Hok [Har ->]. destruct ev as [f|id|g|]; simpl in *.
  - pose proof (enqueue_spec q f e Hok) as H. destruct (enqueue _ _ _ _). apply H.
  - pose proof (fire_spec id q e Hok (Har id eq_refl)) as H. destruct (fire _ _ _ _). apply H.
  - done.
  - apply emptied_ok; simpl; intros; pose proof (ws_timer _ Hok) as Ht; rewrite H in Ht;
      destruct Ht as [-> _]; [apply disarm_one|done].
Qed.

(** Memory and timers are bounded in every reachable state: whatever frames
    arrive, timers fire, the socket does and however the queue is disposed, the
    byte count is the exact size of the parked frames, it never exceeds the hard
    cap, and one poll timer is armed exactly while frames are parked, so no
    backlog is forgotten and no timer outlives it. *)
Theorem ws_queue_bounded e0 es q e :
  trace (ws_transition options) (new_ws_queue, e0) es (q, e) ->
  queuedBytes q = sumZ (map (opt_byteLengthOf options) (parked q)) /\
  queuedBytes q <= Z.max 0 (maxQueuedBytes options) /\
  (parked q ≠ [] <-> exists id, armed q = [(id, drainPollMs options)]) /\
  (parked q = [] <-> armed q = []).
Proof.
  intros Htr. assert (Hok : ws_ok q).
  { apply (trace_invariant _ (fun s => ws_ok s.1)) in Htr; [done|apply new_ws_ok|exact ws_step_ok]. }
  pose proof (ws_timer _ Hok) as Ht. split_and!; [apply Hok|apply Hok|..];
    destruct (timer q); destruct Ht as [-> Hp]; naive_solver.
Qed.

(** C32. No loss and no reordering. While the socket stays writable and the queue is
    not disposed, the frames on the wire followed by the frames parked are exactly
    the frames enqueued, in order - unless the hard cap was exceeded, in which case
    [onOverflow] was called, exactly once, the backlog is gone and the wire is a
    prefix of what was enqueued. *)
Theorem ws_queue_fifo e0 es q e :
  trace (ws_transition options) (new_ws_queue, e0) es (q, e) -> undisturbed es ->
  opt_isWritable options e0 = true -> wire e0 = [] -> overflows e0 = 0%nat ->
  if overflowed q then wire e `prefix_of` enqueued es /\ parked q = [] /\ overflows e = 1%nat
  else wire e ++ parked q = enqueued es /\ overflows e = 0%nat.
Proof.
  intros Htr Hund Hw0 Hwire Hov0.
  set (I := fun es (s : WsQueue F * E) => undisturbed es -> ws_ok s.1 /\ disposed s.1 = false /\
    if overflowed s.1
    then wire s.2 `prefix_of` enqueued es /\ parked s.1 = [] /\ overflows s.2 = 1%nat
    else (wire s.2 ++ parked s.1 = enqueued es /\ overflows s.2 = 0%nat) /\
         opt_isWritable options s.2 = true).
  enough (H : I es (q, e)).
  { destruct (H Hund) as (_ & _ & H'). simpl in H'. destruct (overflowed q); tauto. }
  clear Hund. refine (trace_history_invariant (ws_transition options) I _ _ _ _ _ Htr); subst I; simpl.
  - intros _. simpl. rewrite Hwire, Hov0. split; [apply new_ws_ok|done].
  - intros es1 [q1 e1] ev [q2 e2] IH [Har Hstep] [Hes Hev]%Forall_app. simpl in *.
    destruct (IH Hes) as (Hok & Hdis & Hst). clear IH. rewrite enqueued_snoc.
    apply Forall_cons in Hev as [Hev _]. destruct ev as [f|id|g|]; simpl in Hstep.
    + pose proof (enqueue_spec q1 f e1 Hok) as H. rewrite <- Hstep in H.
      destruct H as (Hok2 & Hd2 & H). split; [done|]. split; [congruence|]. unfold over in H.
      rewrite Hdis in H. simpl in H. destruct (overflowed q1) eqn:Eo.
      * destruct H as [-> ->]. rewrite Eo. destruct Hst as (Hp & ? & ?).
        split; [by apply prefix_app_r|done].
      * destruct Hst as [[Hst Hn] Hwr]. destruct (overflowed q2).
        -- destruct H as (H1 & H2 & H3 & _). split_and!; [|done|congruence].
           rewrite H2, <- Hst, <- app_assoc. by apply prefix_app_r.
        -- destruct H as (H1 & H2 & H3). rewrite H1, <- Hst, <- app_assoc. split_and!; [done|congruence..].
    + pose proof (fire_spec id q1 e1 Hok (Har id eq_refl)) as H. rewrite <- Hstep in H.
      destruct H as (Hok2 & Hov2 & Hd2 & Hn2 & Hw2 & H). split; [done|]. split; [congruence|].
      rewrite Hov2. rewrite app_nil_r. destruct (overflowed q1) eqn:Eo.
      * destruct Hst as (Hp & Hpk & Hn). destruct (opt_isWritable options e1).
        -- rewrite Hpk, app_nil_r in H. rewrite <- H in Hp.
           split_and!; [by eapply prefix_app_l| |congruence].
           apply (ws_over _ Hok2). by rewrite Hov2.
        -- destruct H as [-> ->]. done.
      * destruct Hst as [[Hst Hn] Hwr]. rewrite Hwr in H. rewrite H, Hst. split_and!; congruence.
    + injection Hstep as -> ->. destruct (Hev e1) as (Hwr & Hwi & Hn). rewrite Hwi, Hn, app_nil_r.
      split; [done|]. split; [done|]. destruct (overflowed q1); [done|]. split; [|done]. apply Hst.
    + done.
Qed.
End Laws.

(** ** A concrete socket, for evaluation *)

Record DemoWs := { ws_wire : list Z; ws_buffered : Z; ws_writable : bool; ws_overflows : nat }.

Definition demo_ws_options : WsOptions Z DemoWs := {|
  opt_send f e := {| ws_wire := ws_wire e ++ [f]; ws_buffered := ws_buffered e + Z.abs f;
                     ws_writable := ws_writable e; ws_overflows := ws_overflows e |};
  opt_byteLengthOf f := Z.abs f;
  opt_getBufferedAmount e := Some (ws_buffered e);
  opt_isWritable e := ws_writable e;
  opt_onOverflow e := {| ws_wire := ws_wire e; ws_buffered := ws_buffered e;
                         ws_writable := ws_writable e; ws_overflows := S (ws_overflows e) |};
  opt_softCapBytes := Some 10; opt_maxQueuedBytes := Some 20; opt_drainPollMs := None |}.

#[export] Instance demo_ws_laws : WsLaws demo_ws_options.
Proof. refine {| wire := ws_wire; overflows := ws_overflows |}; simpl; try done. lia. Defined.

Definition demo_ws0 : DemoWs :=
  {| ws_wire := []; ws_buffered := 0; ws_writable := true; ws_overflows := 0 |}.

Definition demo_drained (e : DemoWs) : DemoWs :=
  {| ws_wire := ws_wire e; ws_buffered := 0; ws_writable := true; ws_overflows := ws_overflows e |}.

Definition demo_ws_events : list (WsEvent Z DemoWs) :=
  [Enqueue 11; Enqueue 5; Enqueue 6; SocketChanges demo_drained; TimerFires 0].

Definition demo_ws_exec (s : WsQueue Z * DemoWs) (ev : WsEvent Z DemoWs) : option (WsQueue Z * DemoWs) :=
  match ev with
  | TimerFires id => if decide (id ∈ map fst (armed s.1)) then Some (ws_step demo_ws_options s ev) else None
  | _ => Some (ws_step demo_ws_options s ev)
  end.

Lemma demo_ws_exec_transition s ev s' :
  demo_ws_exec s ev = Some s' -> ws_transition demo_ws_options s ev s'.
Proof.
  intros H. destruct ev; simpl in H; try (by injection H as <-; split; [intros ? [=]|]).
  case_decide; [|done]. injection H as <-. split; [by intros ? [= <-]|done].
Qed.

Lemma ws_queue_bounded_witness :
  exists q e, run_steps demo_ws_exec (new_ws_queue, demo_ws0) [Enqueue 11; Enqueue 5; Enqueue 6] = Some (q, e) /\
    queuedBytes q = 11 /\ queuedBytes q <= 20.
Proof.
  eexists _, _. split; [vm_compute; reflexivity|]. split; [vm_compute; reflexivity|].
  eapply (ws_queue_bounded demo_ws_options demo_ws0 [Enqueue 11; Enqueue 5; Enqueue 6]).
  apply (run_steps_trace demo_ws_exec); [apply demo_ws_exec_transition|vm_compute; reflexivity].
Defined.

Lemma ws_queue_fifo_witness :
  exists q e, run_steps demo_ws_exec (new_ws_queue, demo_ws0) demo_ws_events = Some (q, e) /\
    ws_wire e ++ parked q = [11; 5; 6].
Proof.
  eexists _, _. split; [vm_compute; reflexivity|].
  match goal with |- ws_wire ?e ++ parked ?q = _ =>
    pose proof (ws_queue_fifo demo_ws_options demo_ws0 demo_ws_events q e) as H end.
  simpl in H. apply H; try reflexivity.
  - apply (run_steps_trace demo_ws_exec); [apply demo_ws_exec_transition|vm_compute; reflexivity].
  - repeat constructor.
Defined.
