(* ===== verification/RpcCallQueue.v ===== *)
(** * Per-runtime call queues of the remote-runtime client

    Models [src/shared/runtime-rpc-call-queue.ts]: one queue per selector, at most
    [concurrency] calls running, background calls behind foreground ones and at
    most [backgroundConcurrency] of them. A call is its id; its [run] starts when
    the pump takes it and its promise settles later, as an event (a synchronous
    throw is a promise that rejects). Queue objects live in a heap, because a
    settling call keeps the reference it was started with. *)

From S2P Require Import Prelude JsMap.
Local Open Scope Z_scope.

Definition DEFAULT_REMOTE_RUNTIME_CALL_CONCURRENCY : Z := 8.
Definition DEFAULT_REMOTE_RUNTIME_BACKGROUND_CALL_CONCURRENCY : Z := 2.

Record QueuedRuntimeCall := { call_id : nat; call_background : bool }.

Record RuntimeCallQueue := {
  active : Z;
  backgroundActive : Z;
  foreground : list QueuedRuntimeCall;
  foregroundHead : nat;
  background : list QueuedRuntimeCall;
  backgroundHead : nat;
}.

Definition empty_queue : RuntimeCallQueue :=
  {| active := 0; backgroundActive := 0; foreground := []; foregroundHead := 0;
     background := []; backgroundHead := 0 |}.

Definition background_methods : list string :=
  ["hostedReview.forBranch"; "github.prForBranch"; "github.listWorkItems"; "github.countWorkItems";
   "git.status"; "git.history"; "git.conflictOperation"; "git.branchCompare"; "git.upstreamStatus";
   "worktree.prefetchCreateBase"]%string.

Definition isBackgroundRuntimeMethod (method : string) : bool :=
  existsb (String.eqb method) background_methods.

Implicit Types q : RuntimeCallQueue.

(** [compactForeground] and [compactBackground], on an array and its head. *)
Definition compact (l : list QueuedRuntimeCall) (head : nat) : list QueuedRuntimeCall * nat :=
  if ((head <=? 32) || (head * 2 <? length l))%nat then (l, head) else (drop head l, 0%nat).

Definition with_foreground q (l : list QueuedRuntimeCall) (head : nat) : RuntimeCallQueue :=
  {| active := active q; backgroundActive := backgroundActive q; foreground := l;
     foregroundHead := head; background := background q; backgroundHead := backgroundHead q |}.
Definition with_background q (l : list QueuedRuntimeCall) (head : nat) : RuntimeCallQueue :=
  {| active := active q; backgroundActive := backgroundActive q; foreground := foreground q;
     foregroundHead := foregroundHead q; background := l; backgroundHead := head |}.
Definition with_active q (a b : Z) : RuntimeCallQueue :=
  {| active := a; backgroundActive := b; foreground := foreground q;
     foregroundHead := foregroundHead q; background := background q; backgroundHead := backgroundHead q |}.

Definition takeForeground q : option (QueuedRuntimeCall * RuntimeCallQueue) :=
  call ← foreground q !! foregroundHead q;
  let '(l, head) := compact (foreground q) (S (foregroundHead q)) in
  Some (call, with_foreground q l head).

Definition takeBackground q : option (QueuedRuntimeCall * RuntimeCallQueue) :=
  call ← background q !! backgroundHead q;
  let '(l, head) := compact (background q) (S (backgroundHead q)) in
  Some (call, with_background q l head).

Definition isEmpty q : bool :=
  ((length (foreground q) <=? foregroundHead q) && (length (background q) <=? backgroundHead q))%nat.

Section Pool.
Context (concurrency backgroundConcurrency : Z).

(** The next call the pump would start. *)
Definition take_next q : option (QueuedRuntimeCall * RuntimeCallQueue) :=
  match takeForeground q with
  | Some r => Some r
  | None => if backgroundActive q <? backgroundConcurrency then takeBackground q else None
  end.

(** [pump]: the calls started, in order. *)
Fixpoint pump (fuel : nat) q : option (RuntimeCallQueue * list QueuedRuntimeCall) :=
  match fuel with
  | O => None
  | S fuel =>
      if active q <? concurrency then
        match take_next q with
        | None => Some (q, [])
        | Some (call, q) =>
            let q := with_active q (active q + 1)
                       (if call_background call then backgroundActive q + 1 else backgroundActive q) in
            '(q, started) ← pump fuel q;
            Some (q, call :: started)
        end
      else Some (q, [])
  end.

Definition waiting_foreground q : list QueuedRuntimeCall := drop (foregroundHead q) (foreground q).
Definition waiting_background q : list QueuedRuntimeCall := drop (backgroundHead q) (background q).

Definition pump_fuel q : nat := S (length (waiting_foreground q) + length (waiting_background q)).

(** A started call: the queue object and selector its [finally] will use. *)
Record RunningCall := { run_queue : nat; run_selector : string; run_call : QueuedRuntimeCall }.

Record RuntimeRpcCallQueuePool := {
  queues : jsmap string nat;
  pool_heap : gmap nat RuntimeCallQueue;
  pool_next : nat;
  running : list RunningCall;
  (** every call whose [run] was invoked, in order *)
  pool_started : list RunningCall;
}.
Implicit Types p : RuntimeRpcCallQueuePool.

Definition new_pool : RuntimeRpcCallQueuePool :=
  {| queues := ∅; pool_heap := ∅; pool_next := 0; running := [];
     pool_started := [] |}.

(** [getQueue]: the selector's queue object, created if there is none. *)
Definition getQueue p (selector : string) : nat * RuntimeRpcCallQueuePool :=
  match queues p !! selector with
  | Some ref => (ref, p)
  | None =>
      (pool_next p,
       {| queues := <[selector := pool_next p]> (queues p);
          pool_heap := <[pool_next p := empty_queue]> (pool_heap p);
          pool_next := S (pool_next p); running := running p; pool_started := pool_started p |})
  end.

Definition set_queue p (ref : nat) q (started : list RunningCall) : RuntimeRpcCallQueuePool :=
  {| queues := queues p; pool_heap := <[ref := q]> (pool_heap p); pool_next := pool_next p;
     running := running p ++ started; pool_started := pool_started p ++ started |}.

Definition pump_queue p (selector : string) (ref : nat) q : option RuntimeRpcCallQueuePool :=
  '(q, started) ← pump (pump_fuel q) q;
  Some (set_queue p ref q
    (map (fun c => {| run_queue := ref; run_selector := selector; run_call := c |}) started)).

Definition enqueue p (selector method : string) (id : nat) : option RuntimeRpcCallQueuePool :=
  let '(ref, p) := getQueue p selector in
  q ← pool_heap p !! ref;
  let call := {| call_id := id; call_background := isBackgroundRuntimeMethod method |} in
  let q := if call_background call
           then with_background q (background q ++ [call]) (backgroundHead q)
           else with_foreground q (foreground q ++ [call]) (foregroundHead q) in
  pump_queue p selector ref q.

(** The [k]-th running call settles: its [finally]. *)
Definition settle p (k : nat) : option RuntimeRpcCallQueuePool :=
  match running p !! k with
  | None => Some p
  | Some r =>
      q ← pool_heap p !! run_queue r;
      let p := {| queues := queues p; pool_heap := pool_heap p; pool_next := pool_next p;
                  running := delete k (running p); pool_started := pool_started p |} in
      let q := with_active q (Z.max 0 (active q - 1))
                 (if call_background (run_call r) then Z.max 0 (backgroundActive q - 1)
                  else backgroundActive q) in
      if (active q =? 0) && isEmpty q then
        Some {| queues := delete (run_selector r) (queues p);
                pool_heap := <[run_queue r := q]> (pool_heap p); pool_next := pool_next p;
                running := running p; pool_started := pool_started p |}
      else pump_queue p (run_selector r) (run_queue r) q
  end.

Inductive PoolEvent :=
  | PoolEnqueue (selector method : string) (id : nat)
  | PoolSettle (k : nat).

Definition pool_step p (e : PoolEvent) : option RuntimeRpcCallQueuePool :=
  match e with
  | PoolEnqueue selector method id => enqueue p selector method id
  | PoolSettle k => settle p k
  end.

(** ** Lemmas: one queue *)

Definition all_background (b : bool) (l : list QueuedRuntimeCall) : Prop :=
  Forall (fun c => call_background c = b) l.

(** Heads within their arrays, each lane of its own kind, counts within bounds. *)
Record queue_ok q : Prop := {
  q_fhead : (foregroundHead q <= length (foreground q))%nat;
  q_bhead : (backgroundHead q <= length (background q))%nat;
  q_fkind : all_background false (foreground q);
  q_bkind : all_background true (background q);
  q_active : 0 <= active q <= concurrency;
  q_bactive : 0 <= backgroundActive q <= backgroundConcurrency;
  q_le : backgroundActive q <= active q;
}.

(** Nothing waits that could run. *)
Definition saturated q : Prop :=
  (waiting_foreground q ≠ [] -> active q = concurrency) /\
  (waiting_background q ≠ [] ->
   active q = concurrency \/ backgroundActive q = backgroundConcurrency).

Lemma compact_spec l head :
  (head <= length l)%nat ->
  let '(l', head') := compact l head in
  drop head' l' = drop head l /\ (head' <= length l')%nat /\
  (forall P, Forall P l -> Forall P l').
Proof.
  intros H. unfold compact. destruct (_ || _); [done|]. rewrite drop_0.
  split; [done|]. split; [lia|]. intros P. apply Forall_drop.
Qed.

Lemma drop_head_cons {A} (l : list A) head x :
  l !! head = Some x -> drop head l = x :: drop (S head) l.
Proof. intros H. by apply drop_S. Qed.

Lemma takeForeground_spec q :
  queue_ok q ->
  match takeForeground q with
  | Some (c, q') => waiting_foreground q = c :: waiting_foreground q' /\
      waiting_background q' = waiting_background q /\ queue_ok q' /\ call_background c = false /\
      active q' = active q /\ backgroundActive q' = backgroundActive q
  | None => waiting_foreground q = []
  end.
Proof.
  intros Hok. unfold takeForeground. destruct (foreground q !! foregroundHead q) as [c|] eqn:Hc; simpl.
  - pose proof (lookup_lt_Some _ _ _ Hc) as Hlt.
    pose proof (compact_spec (foreground q) (S (foregroundHead q)) Hlt) as Hcs.
    destruct (compact _ _) as [l head]. destruct Hcs as (Hd & Hh & HP).
    split; [unfold waiting_foreground; simpl; by rewrite (drop_head_cons _ _ c), Hd|].
    split; [done|]. split_and!; try done.
    + destruct Hok. split; simpl; auto. by apply HP.
    + by apply (Forall_lookup_1 _ _ _ _ (q_fkind _ Hok) Hc).
  - apply lookup_ge_None in Hc. by apply drop_ge.
Qed.

Lemma takeBackground_spec q :
  queue_ok q ->
  match takeBackground q with
  | Some (c, q') => waiting_background q = c :: waiting_background q' /\
      waiting_foreground q' = waiting_foreground q /\ queue_ok q' /\ call_background c = true /\
      active q' = active q /\ backgroundActive q' = backgroundActive q
  | None => waiting_background q = []
  end.
Proof.
  intros Hok. unfold takeBackground. destruct (background q !! backgroundHead q) as [c|] eqn:Hc; simpl.
  - pose proof (lookup_lt_Some _ _ _ Hc) as Hlt.
    pose proof (compact_spec (background q) (S (backgroundHead q)) Hlt) as Hcs.
    destruct (compact _ _) as [l head]. destruct Hcs as (Hd & Hh & HP).
    split; [unfold waiting_background; simpl; by rewrite (drop_head_cons _ _ c), Hd|].
    split; [done|]. split_and!; try done.
    + destruct Hok. split; simpl; auto. by apply HP.
    + by apply (Forall_lookup_1 _ _ _ _ (q_bkind _ Hok) Hc).
  - apply lookup_ge_None in Hc. by apply drop_ge.
Qed.

(** What one pump starts: foreground calls from the front, then - when none is
    left - background calls from the front, as many as the bounds let. *)
Definition pumped q q' (started : list QueuedRuntimeCall) : Prop :=
  exists fs bs, started = fs ++ bs /\
    waiting_foreground q = fs ++ waiting_foreground q' /\
    waiting_background q = bs ++ waiting_background q' /\
    (bs ≠ [] -> waiting_foreground q' = []) /\
    all_background false fs /\ all_background true bs /\
    active q' = active q + Z.of_nat (length started) /\
    backgroundActive q' = backgroundActive q + Z.of_nat (length bs) /\
    queue_ok q' /\ saturated q'.

Lemma call_pump_spec fuel : forall q,
  queue_ok q -> (length (waiting_foreground q) + length (waiting_background q) < fuel)%nat ->
  exists q' started, pump fuel q = Some (q', started) /\ pumped q q' started.
Proof.
  induction fuel as [|fuel IH]; intros q Hok Hf; [lia|]. cbn [pump].
  assert (Hstop : (active q = concurrency \/ waiting_foreground q = [] /\
     (waiting_background q = [] \/ backgroundActive q = backgroundConcurrency)) -> pumped q q []).
  { intros Hs. exists [], []. rewrite !Z.add_0_r. split_and!; try done; try constructor.
    all: unfold saturated; naive_solver. }
  destruct (Z.ltb_spec (active q) concurrency) as [Hlt|Hge]; cycle 1.
  { exists q, []. split; [done|]. apply Hstop. left. pose proof (q_active _ Hok). lia. }
  unfold take_next. pose proof (takeForeground_spec q Hok) as Hfg.
  destruct (takeForeground q) as [[c q1]|].
  - destruct Hfg as (Hw & Hwb & Hok1 & Hc & Ha & Hba). rewrite Hc.
    edestruct (IH (with_active q1 (active q1 + 1) (backgroundActive q1))) as (q' & st & Hp & Hd).
    { destruct Hok1; split; simpl; try done; lia. }
    { unfold waiting_foreground, waiting_background in *. simpl. rewrite Hw, <- Hwb in Hf. simpl in Hf. lia. }
    rewrite Hp. exists q', (c :: st). split; [done|].
    destruct Hd as (fs & bs & -> & H1 & H2 & H3 & H4 & H5 & H6 & H7 & H8 & H9).
    exists (c :: fs), bs. unfold waiting_foreground, waiting_background in *. simpl in *.
    split_and!; try done; try lia; [by rewrite Hw, H1|by rewrite <- Hwb, H2|by constructor].
  - destruct (Z.ltb_spec (backgroundActive q) backgroundConcurrency) as [Hblt|Hbge]; cycle 1.
    { exists q, []. split; [done|]. apply Hstop. right. split; [done|]. right.
      pose proof (q_bactive _ Hok). lia. }
    pose proof (takeBackground_spec q Hok) as Hbg. destruct (takeBackground q) as [[c q1]|]; cycle 1.
    { exists q, []. split; [done|]. apply Hstop. auto. }
    destruct Hbg as (Hw & Hwf & Hok1 & Hc & Ha & Hba). rewrite Hc.
    edestruct (IH (with_active q1 (active q1 + 1) (backgroundActive q1 + 1))) as (q' & st & Hp & Hd).
    { destruct Hok1; split; simpl; try done; lia. }
    { unfold waiting_foreground, waiting_background in *. simpl. rewrite Hw, <- Hwf in Hf. simpl in Hf. lia. }
    rewrite Hp. exists q', (c :: st). split; [done|].
    destruct Hd as (fs & bs & -> & H1 & H2 & H3 & H4 & H5 & H6 & H7 & H8 & H9).
    assert (Hfs : fs = [] /\ waiting_foreground q' = []).
    { unfold waiting_foreground in *. simpl in H1. rewrite Hwf, Hfg in H1. symmetry in H1.
      by apply app_nil in H1. }
    destruct Hfs as [-> Hwf']. exists [], (c :: bs).
    unfold waiting_foreground, waiting_background in *. simpl in *.
    split_and!; try done; try lia; [congruence|by rewrite Hw, H2|by constructor].
Qed.

(** ** The pool *)

Definition of_queue (ref : nat) (r : RunningCall) : bool := (run_queue r =? ref)%nat.
Definition of_queue_bg (ref : nat) (r : RunningCall) : bool :=
  of_queue ref r && call_background (run_call r).

(** The counters of a queue object count its running calls. *)
Definition counted (run : list RunningCall) (ref : nat) q : Prop :=
  active q = Z.of_nat (length (js_filter (of_queue ref) run)) /\
  backgroundActive q = Z.of_nat (length (js_filter (of_queue_bg ref) run)).

Definition idle q : Prop := active q = 0 /\ waiting_foreground q = [] /\ waiting_background q = [].

(** The calls of a selector and kind, in a log. *)
Definition calls_of (selector : string) (bg : bool) (l : list RunningCall) : list QueuedRuntimeCall :=
  map run_call (js_filter (fun r => String.eqb (run_selector r) selector
                                    && Bool.eqb (call_background (run_call r)) bg) l).

Definition waiting (bg : bool) q : list QueuedRuntimeCall :=
  if bg then waiting_background q else waiting_foreground q.

Definition waiting_in p (selector : string) (bg : bool) : list QueuedRuntimeCall :=
  match queues p !! selector with
  | Some ref => match pool_heap p !! ref with Some q => waiting bg q | None => [] end
  | None => []
  end.

Record pool_inv (enq : string -> bool -> list QueuedRuntimeCall) p : Prop := {
  pi_fresh ref : is_Some (pool_heap p !! ref) -> (ref < pool_next p)%nat;
  pi_live sel ref : queues p !! sel = Some ref -> exists q, pool_heap p !! ref = Some q /\
    saturated q /\ 0 < active q;
  pi_inj sel sel' ref : queues p !! sel = Some ref -> queues p !! sel' = Some ref -> sel = sel';
  pi_queue ref q : pool_heap p !! ref = Some q -> queue_ok q /\ counted (running p) ref q;
  pi_running r : r ∈ running p -> queues p !! run_selector r = Some (run_queue r);
  pi_fifo sel bg : calls_of sel bg (pool_started p) ++ waiting_in p sel bg = enq sel bg;
}.

Context (Hc : 1 <= concurrency) (Hb : 1 <= backgroundConcurrency).

Lemma saturated_idle q : saturated q -> queue_ok q -> active q = 0 -> idle q.
Proof.
  intros [H1 H2] Hok Ha. split_and!; [done|..].
  - destruct (waiting_foreground q); [done|]. specialize (H1 ltac:(done)). lia.
  - destruct (waiting_background q); [done|]. specialize (H2 ltac:(done)).
    pose proof (q_le _ Hok). lia.
Qed.

Lemma isEmpty_spec q : isEmpty q = true <-> waiting_foreground q = [] /\ waiting_background q = [].
Proof.
  unfold isEmpty, waiting_foreground, waiting_background. rewrite andb_true_iff, !Nat.leb_le.
  split; intros [H1 H2]; split; try (by apply drop_ge).
  - apply (f_equal length) in H1. rewrite length_drop in H1. simpl in H1. lia.
  - apply (f_equal length) in H2. rewrite length_drop in H2. simpl in H2. lia.
Qed.

(** The calls a pump starts, as running calls of its queue. *)
Definition as_running (sel : string) (ref : nat) (l : list QueuedRuntimeCall) : list RunningCall :=
  map (fun c => {| run_queue := ref; run_selector := sel; run_call := c |}) l.

Lemma counted_started sel ref q q' run fs bs :
  counted run ref q -> all_background false fs -> all_background true bs ->
  active q' = active q + Z.of_nat (length (fs ++ bs)) ->
  backgroundActive q' = backgroundActive q + Z.of_nat (length bs) ->
  counted (run ++ as_running sel ref (fs ++ bs)) ref q'.
Proof.
  intros [H1 H2] Hf Hbg Ha Hba. unfold counted, as_running.
  rewrite !js_filter_app, !js_filter_map, !length_app, !length_map.
  unfold of_queue, of_queue_bg, of_queue. simpl. rewrite !Nat.eqb_refl. simpl. split.
  - rewrite (js_filter_all _ (fs ++ bs)) by (by apply Forall_true). rewrite Ha, H1.
    unfold of_queue. lia.
  - rewrite js_filter_app, (js_filter_none _ fs) by exact Hf.
    rewrite (js_filter_all _ bs) by exact Hbg. rewrite Hba, H2.
    unfold of_queue_bg, of_queue. simpl. lia.
Qed.

Lemma counted_other run ref q sel ref' l :
  ref' ≠ ref -> counted run ref q -> counted (run ++ as_running sel ref' l) ref q.
Proof.
  intros Hne [H1 H2]. unfold counted, as_running.
  rewrite !js_filter_app, !js_filter_map, !length_app, !length_map.
  rewrite !(js_filter_none _ l); [simpl; split; lia| |]; apply Forall_true; intros c;
    unfold of_queue_bg, of_queue; simpl; by rewrite (proj2 (Nat.eqb_neq _ _)).
Qed.

Lemma calls_of_app sel bg l1 l2 : calls_of sel bg (l1 ++ l2) = calls_of sel bg l1 ++ calls_of sel bg l2.
Proof. unfold calls_of. by rewrite js_filter_app, map_app. Qed.

Lemma calls_of_started sel sel' ref fs bs bg :
  all_background false fs -> all_background true bs ->
  calls_of sel bg (as_running sel' ref (fs ++ bs)) =
  if decide (sel' = sel) then (if bg then bs else fs) else [].
Proof.
  intros Hf Hbg. unfold calls_of, as_running. rewrite js_filter_map, map_map. simpl. rewrite map_id.
  destruct (decide (sel' = sel)) as [->|Hne].
  - rewrite String.eqb_refl. simpl. rewrite js_filter_app. destruct bg.
    + rewrite js_filter_none, (js_filter_all _ bs); [done|..];
        (eapply Forall_impl; [eassumption|]; intros c; simpl; by intros ->).
    + rewrite (js_filter_all _ fs), (js_filter_none _ bs); [by rewrite app_nil_r|..];
        (eapply Forall_impl; [eassumption|]; intros c; simpl; by intros ->).
  - apply js_filter_none, Forall_true. intros c. by rewrite (proj2 (String.eqb_neq _ _)).
Qed.

(** The invariant with the queue object [ref] of [sel] about to become [q]. *)
Record pool_but (enq : string -> bool -> list QueuedRuntimeCall) (sel : string) (ref : nat) q p : Prop := {
  pb_fresh ref' : is_Some (pool_heap p !! ref') -> (ref' < pool_next p)%nat;
  pb_reg : queues p !! sel = Some ref;
  pb_heap : is_Some (pool_heap p !! ref);
  pb_live sel' ref' : ref' ≠ ref -> queues p !! sel' = Some ref' ->
    exists q, pool_heap p !! ref' = Some q /\ saturated q /\ 0 < active q;
  pb_inj sel1 sel2 ref' : queues p !! sel1 = Some ref' -> queues p !! sel2 = Some ref' -> sel1 = sel2;
  pb_queue ref' q' : ref' ≠ ref -> pool_heap p !! ref' = Some q' ->
    queue_ok q' /\ counted (running p) ref' q';
  pb_this : queue_ok q /\ counted (running p) ref q;
  pb_running r : r ∈ running p -> queues p !! run_selector r = Some (run_queue r);
  pb_fifo sel' bg : calls_of sel' bg (pool_started p) ++
    (if decide (sel' = sel) then waiting bg q else waiting_in p sel' bg) = enq sel' bg;
}.

Lemma elem_of_as_running r sel ref l :
  r ∈ as_running sel ref l -> run_selector r = sel /\ run_queue r = ref.
Proof. intros Hin. by apply list_elem_of_fmap in Hin as (c & -> & _). Qed.

Lemma waiting_in_other p sel ref q l sel' bg :
  queues p !! sel = Some ref -> sel' ≠ sel ->
  (forall s1 s2 r, queues p !! s1 = Some r -> queues p !! s2 = Some r -> s1 = s2) ->
  waiting_in (set_queue p ref q l) sel' bg = waiting_in p sel' bg.
Proof.
  intros Hreg Hne Hinj. unfold waiting_in. simpl.
  destruct (queues p !! sel') as [ref'|] eqn:E; [|done].
  rewrite lookup_insert_ne; [done|]. intros ->. by destruct Hne; eapply Hinj.
Qed.

Lemma pump_queue_inv enq sel ref q p :
  pool_but enq sel ref q p -> ~ idle q ->
  exists p', pump_queue p sel ref q = Some p' /\ pool_inv enq p'.
Proof.
  intros [Hfresh Hreg Hheap Hlive Hinj Hqs [Hok Hcnt] Hrun Hfifo] Hidle.
  destruct (call_pump_spec (pump_fuel q) q Hok) as (q' & st & Hp & fs & bs & -> & Hwf & Hwb & _ & Hfk & Hbk &
    Ha & Hba & Hok' & Hsat); [unfold pump_fuel; lia|].
  unfold pump_queue. rewrite Hp. eexists. split; [done|]. fold (as_running sel ref (fs ++ bs)).
  split.
  - intros ref'. simpl. rewrite lookup_insert. case_decide; subst; auto.
  - intros sel' ref' Hs. simpl in *. rewrite lookup_insert. case_decide; subst; [|by eapply Hlive].
    exists q'. split_and!; [done|done|]. destruct (decide (active q' = 0)) as [Hz|]; cycle 1.
    { pose proof (q_active _ Hok'). lia. }
    destruct Hidle. destruct (saturated_idle q' Hsat Hok' Hz) as (_ & Hw1 & Hw2).
    pose proof (q_active _ Hok). rewrite length_app in Ha.
    assert (fs = [] /\ bs = []) as [-> ->] by (destruct fs, bs; simpl in *; (done || lia)).
    rewrite Hw1 in Hwf. rewrite Hw2 in Hwb. split_and!; [lia|done|done].
  - exact Hinj.
  - intros ref' q0. simpl. rewrite lookup_insert. case_decide; subst.
    + intros [= <-]. split; [done|]. by eapply counted_started.
    + intros Hq0. destruct (Hqs ref' q0) as [H1 H2]; [done|done|]. split; [done|].
      by apply counted_other.
  - intros r. simpl. rewrite elem_of_app. intros [Hr|Hr]; [auto|].
    apply elem_of_as_running in Hr as [-> ->]. done.
  - intros sel' bg. rewrite <- Hfifo. simpl.
    rewrite calls_of_app, calls_of_started, <- app_assoc by done. f_equal.
    destruct (decide (sel = sel')) as [<-|Hne].
    + rewrite decide_True by done. unfold waiting_in. simpl. rewrite Hreg, lookup_insert_eq.
      unfold waiting. by destruct bg.
    + rewrite decide_False by congruence. by eapply waiting_in_other.
Qed.

Lemma with_active_ok q a b :
  queue_ok q -> 0 <= a <= concurrency -> 0 <= b <= backgroundConcurrency -> b <= a ->
  queue_ok (with_active q a b).
Proof. intros [] ? ? ?. by split. Qed.

Definition push q (c : QueuedRuntimeCall) : RuntimeCallQueue :=
  if call_background c then with_background q (background q ++ [c]) (backgroundHead q)
  else with_foreground q (foreground q ++ [c]) (foregroundHead q).

Lemma push_spec q c :
  queue_ok q -> queue_ok (push q c) /\ active (push q c) = active q /\
  backgroundActive (push q c) = backgroundActive q /\ ~ idle (push q c) /\
  forall bg, waiting bg (push q c) = waiting bg q ++ (if Bool.eqb (call_background c) bg then [c] else []).
Proof.
  intros Hok. destruct Hok. unfold push. destruct (call_background c) eqn:E; simpl.
  - split_and!; try done.
    + split; simpl; auto; [rewrite length_app; simpl; lia|]. apply Forall_app. by repeat constructor.
    + intros (_ & _ & Hw). unfold waiting_background in Hw. simpl in Hw.
      rewrite drop_app_le in Hw by done. by apply app_nil in Hw as [_ Hw].
    + intros []; simpl; [|by rewrite app_nil_r]. unfold waiting_background. simpl. by rewrite drop_app_le.
  - split_and!; try done.
    + split; simpl; auto; [rewrite length_app; simpl; lia|]. apply Forall_app. by repeat constructor.
    + intros (_ & Hw & _). unfold waiting_foreground in Hw. simpl in Hw.
      rewrite drop_app_le in Hw by done. by apply app_nil in Hw as [_ Hw].
    + intros []; simpl; [by rewrite app_nil_r|]. unfold waiting_foreground. simpl. by rewrite drop_app_le.
Qed.

(** The calls enqueued so far, per selector and kind. *)
Definition enqueue_log (enq : string -> bool -> list QueuedRuntimeCall) (e : PoolEvent)
    : string -> bool -> list QueuedRuntimeCall :=
  match e with
  | PoolEnqueue sel method id => fun sel' bg =>
      enq sel' bg ++
      (if String.eqb sel sel' && Bool.eqb (isBackgroundRuntimeMethod method) bg
       then [{| call_id := id; call_background := isBackgroundRuntimeMethod method |}] else [])
  | PoolSettle _ => enq
  end.

Lemma empty_queue_ok : queue_ok empty_queue.
Proof. split; simpl; try done; try lia; constructor. Qed.

Lemma enqueue_inv enq p sel method id :
  pool_inv enq p ->
  exists p', enqueue p sel method id = Some p' /\
    pool_inv (enqueue_log enq (PoolEnqueue sel method id)) p'.
Proof.
  intros [Hfresh Hlive Hinj Hqs Hrun Hfifo]. unfold enqueue, getQueue.
  set (c := {| call_id := id; call_background := isBackgroundRuntimeMethod method |}).
  destruct (queues p !! sel) as [ref|] eqn:Hreg.
  - destruct (Hlive _ _ Hreg) as (q & Hq & Hsat & Hact). rewrite Hq. cbn [mbind option_bind].
    destruct (Hqs _ _ Hq) as [Hok Hcnt]. destruct (push_spec q c Hok) as (Hok' & Ha & Hba & Hni & Hw).
    change (if call_background c then _ else _) with (push q c).
    apply pump_queue_inv; [|done]. split; try done.
    + intros sel' ref' _. apply Hlive.
    + intros ref' q' _. apply Hqs.
    + split; [done|]. unfold counted. by rewrite Ha, Hba.
    + intros sel' bg. simpl. rewrite <- Hfifo, <- app_assoc. f_equal.
      unfold waiting_in. destruct (decide (sel' = sel)) as [->|Hne].
      * rewrite Hreg, Hq, Hw, String.eqb_refl. done.
      * rewrite (proj2 (String.eqb_neq _ _)) by congruence. simpl. by rewrite app_nil_r.
  - cbn [pool_heap]. rewrite lookup_insert_eq. cbn [mbind option_bind].
    assert (Hnone : pool_heap p !! pool_next p = None).
    { destruct (pool_heap p !! pool_next p) eqn:E; [|done]. specialize (Hfresh (pool_next p)).
      rewrite E in Hfresh. specialize (Hfresh ltac:(eauto)). lia. }
    assert (Hnew : forall s r, queues p !! s = Some r -> r ≠ pool_next p).
    { intros s r Hs ->. destruct (Hlive _ _ Hs) as (q & Hq & _). congruence. }
    destruct (push_spec empty_queue c empty_queue_ok) as (Hok' & Ha & Hba & Hni & Hw).
    change (if call_background c then _ else _) with (push empty_queue c).
    apply pump_queue_inv; [|done]. split; cbn [pool_heap queues pool_next running pool_started].
    + intros ref'. rewrite lookup_insert. case_decide; [intros; lia|]. intros Hf. apply Hfresh in Hf. lia.
    + apply jm_lookup_insert_eq.
    + rewrite lookup_insert_eq. eauto.
    + intros sel' ref' Hne. rewrite jm_lookup_insert. case_decide; [congruence|]. intros Hs.
      rewrite lookup_insert_ne by congruence. by eapply Hlive.
    + intros s1 s2 r. rewrite !jm_lookup_insert. repeat case_decide; intros H1 H2; simplify_eq; try done.
      * by apply Hnew in H2.
      * by apply Hnew in H1.
      * by eapply Hinj.
    + intros ref' q' Hne. rewrite lookup_insert_ne by congruence. apply Hqs.
    + split; [done|]. unfold counted. rewrite Ha, Hba. simpl.
      assert (Hno : forall r, r ∈ running p -> of_queue (pool_next p) r = false).
      { intros r Hr. apply Nat.eqb_neq. by eapply Hnew, Hrun. }
      rewrite !js_filter_none; [done|apply Forall_forall; intros r Hr..].
      * unfold of_queue_bg. by rewrite Hno.
      * by apply Hno.
    + intros r Hr. rewrite jm_lookup_insert. case_decide; [|by apply Hrun]. subst.
      apply Hrun in Hr. congruence.
    + intros sel' bg. simpl. rewrite <- Hfifo, <- app_assoc. f_equal. unfold waiting_in.
      cbn [queues pool_heap]. destruct (decide (sel' = sel)) as [->|Hne].
      * rewrite Hreg, Hw, String.eqb_refl. by destruct bg.
      * rewrite (proj2 (String.eqb_neq _ _)) by congruence. simpl. rewrite app_nil_r.
        rewrite jm_lookup_insert_ne by congruence.
        destruct (queues p !! sel') as [r|] eqn:Hr; [|done].
        by rewrite lookup_insert_ne by (intros <-; by apply Hnew in Hr).
Qed.

Lemma background_le ref l :
  (length (js_filter (of_queue_bg ref) l) <= length (js_filter (of_queue ref) l))%nat.
Proof.
  induction l as [|r l IH]; simpl; [done|]. unfold of_queue_bg at 1.
  destruct (of_queue ref r), (call_background (run_call r)); simpl; lia.
Qed.

Lemma settle_inv enq p k :
  pool_inv enq p -> exists p', settle p k = Some p' /\ pool_inv enq p'.
Proof.
  intros Hinv. pose proof Hinv as [Hfresh Hlive Hinj Hqs Hrun Hfifo]. unfold settle.
  destruct (running p !! k) as [r|] eqn:Hk; [|eauto].
  pose proof (Hrun r (list_elem_of_lookup_2 _ _ _ Hk)) as Hreg.
  destruct (Hlive _ _ Hreg) as (q & Hq & Hsat & Hact). rewrite Hq. cbn [mbind option_bind].
  destruct (Hqs _ _ Hq) as [Hok [Hc1 Hc2]].
  pose proof (length_js_filter_delete (of_queue (run_queue r)) _ _ _ Hk) as Hd1.
  pose proof (length_js_filter_delete (of_queue_bg (run_queue r)) _ _ _ Hk) as Hd2.
  unfold of_queue_bg at 2 in Hd2. unfold of_queue at 2 in Hd1. unfold of_queue at 1 in Hd2.
  rewrite Nat.eqb_refl in Hd1, Hd2. cbn [andb] in Hd2.
  set (q1 := with_active q _ _).
  assert (Hq1 : queue_ok q1 /\ counted (delete k (running p)) (run_queue r) q1).
  { pose proof (q_active _ Hok). pose proof (q_bactive _ Hok). pose proof (q_le _ Hok).
    pose proof (background_le (run_queue r) (delete k (running p))).
    split; [apply with_active_ok|split; simpl]; try done; destruct (call_background (run_call r)); lia. }
  assert (Hothers : forall ref' q', ref' ≠ run_queue r -> pool_heap p !! ref' = Some q' ->
    queue_ok q' /\ counted (delete k (running p)) ref' q').
  { intros ref' q' Hne Hq'. destruct (Hqs _ _ Hq') as [Hok' [H1 H2]]. split; [done|].
    pose proof (length_js_filter_delete (of_queue ref') _ _ _ Hk) as E1.
    pose proof (length_js_filter_delete (of_queue_bg ref') _ _ _ Hk) as E2.
    unfold of_queue_bg at 2 in E2. unfold of_queue at 2 in E1. unfold of_queue at 1 in E2.
    rewrite (proj2 (Nat.eqb_neq (run_queue r) ref')) in E1, E2 by done. cbn [andb] in E2.
    split; lia. }
  assert (Hsub : forall x, x ∈ delete k (running p) -> x ∈ running p)
    by (intros x Hx; eapply sublist_subseteq; [apply sublist_delete|exact Hx]).
  destruct ((active q1 =? 0) && isEmpty q1) eqn:Hend.
  - apply andb_true_iff in Hend as [Hz He]. apply Z.eqb_eq in Hz. apply isEmpty_spec in He as [Hwf Hwb].
    eexists. split; [done|].
    assert (Hnone : forall x, x ∈ delete k (running p) -> run_queue x ≠ run_queue r).
    { intros x Hx Heq. destruct Hq1 as [_ [Hcount _]]. rewrite Hz in Hcount.
      assert (Hin : x ∈ js_filter (of_queue (run_queue r)) (delete k (running p)))
        by (apply elem_of_js_filter; split; [done|by apply Nat.eqb_eq]).
      destruct (js_filter (of_queue (run_queue r)) (delete k (running p))); [by apply elem_of_nil in Hin|simpl in Hcount; lia]. }
    split; cbn [pool_heap queues pool_next running pool_started].
    + intros ref'. rewrite lookup_insert. case_decide; subst; auto.
    + intros sel ref'. rewrite jm_lookup_delete. case_decide; [done|]. intros Hs.
      rewrite lookup_insert_ne; [by eapply Hlive|]. intros <-. by eapply H, Hinj.
    + intros s1 s2 ref'. rewrite !jm_lookup_delete. repeat case_decide; try done. apply Hinj.
    + intros ref' q'. rewrite lookup_insert. case_decide; subst; [by intros [= <-]|]. by apply Hothers.
    + intros x Hx. rewrite jm_lookup_delete. case_decide as Hs; [|by apply Hrun, Hsub].
      destruct (Hnone x Hx). pose proof (Hrun x (Hsub x Hx)) as Hx'. rewrite <- Hs in Hx'. congruence.
    + intros sel bg. rewrite <- Hfifo. f_equal. unfold waiting_in. cbn [queues pool_heap].
      rewrite jm_lookup_delete. case_decide; subst.
      * rewrite Hreg, Hq. symmetry. destruct bg; [exact Hwb|exact Hwf].
      * destruct (queues p !! sel) as [ref'|] eqn:Hs; [|done].
        rewrite lookup_insert_ne; [done|]. intros <-. by eapply H, Hinj.
  - apply pump_queue_inv.
    + split; cbn [pool_heap queues pool_next running pool_started]; auto.
      * intros sel' ref' _. apply Hlive.
      * intros sel' bg. rewrite <- Hfifo. f_equal. case_decide; subst; [|done].
        unfold waiting_in. rewrite Hreg, Hq. by destruct bg.
    + intros (Hz & Hwf & Hwb). apply Z.eqb_eq in Hz. rewrite Hz in Hend.
      rewrite (proj2 (isEmpty_spec q1)) in Hend; [done|by split].
Qed.

Lemma new_pool_inv : pool_inv (fun _ _ => []) new_pool.
Proof. split; simpl; try done; try (by intros ? [? ?]). intros r Hr. by apply elem_of_nil in Hr. Qed.

Fixpoint pool_run (es : list PoolEvent) p : option RuntimeRpcCallQueuePool :=
  match es with
  | [] => Some p
  | e :: es => p ← pool_step p e; pool_run es p
  end.

Lemma pool_run_inv es : forall enq p,
  pool_inv enq p ->
  exists p', pool_run es p = Some p' /\ pool_inv (foldl enqueue_log enq es) p'.
Proof.
  induction es as [|e es IH]; intros enq p Hinv; simpl; [eauto|].
  assert (exists p', pool_step p e = Some p' /\ pool_inv (enqueue_log enq e) p') as (p1 & -> & Hinv1).
  { destruct e; simpl; [by apply enqueue_inv|by apply settle_inv]. }
  apply IH, Hinv1.
Qed.

(** Concurrency is bounded and never wasted. With positive limits, however calls
    arrive and settle, every pump ends; for every selector with a queue, the
    calls running for it number at least one and at most [concurrency], the
    background ones among them at most [backgroundConcurrency]; no foreground
    call waits while a slot is free, no background call waits while a background
    slot is free; and a call runs only for a selector that has its queue. *)
Theorem pool_bounded es :
  exists p, pool_run es new_pool = Some p /\
    (forall r, r ∈ running p -> queues p !! run_selector r = Some (run_queue r)) /\
    forall sel ref, queues p !! sel = Some ref ->
      let n := Z.of_nat (length (js_filter (of_queue ref) (running p))) in
      let nb := Z.of_nat (length (js_filter (of_queue_bg ref) (running p))) in
      1 <= n <= concurrency /\ nb <= backgroundConcurrency /\
      (waiting_in p sel false ≠ [] -> n = concurrency) /\
      (waiting_in p sel true ≠ [] -> n = concurrency \/ nb = backgroundConcurrency).
Proof.
  destruct (pool_run_inv es _ _ new_pool_inv) as (p & Hrun & Hinv). exists p. split; [done|].
  split; [apply (pi_running _ _ Hinv)|]. intros sel ref Hs n nb.
  destruct (pi_live _ _ Hinv _ _ Hs) as (q & Hq & [Hs1 Hs2] & Hact).
  destruct (pi_queue _ _ Hinv _ _ Hq) as [Hok [Hc1 Hc2]].
  pose proof (q_active _ Hok). pose proof (q_bactive _ Hok). unfold waiting_in. rewrite Hs, Hq.
  subst n nb. rewrite <- Hc1, <- Hc2. simpl. split_and!; try lia; done.
Qed.

(** C29. Calls start in order, each once. For every selector and kind, the calls whose
    [run] was invoked, followed by the calls still waiting, are exactly the calls
    enqueued for it, in order: none is lost, duplicated or overtaken by a later
    one of its kind, through every compaction and every deletion and re-creation
    of the selector's queue. *)
Theorem pool_fifo es :
  exists p, pool_run es new_pool = Some p /\
    forall sel bg, calls_of sel bg (pool_started p) ++ waiting_in p sel bg =
      foldl enqueue_log (fun _ _ => []) es sel bg.
Proof.
  destruct (pool_run_inv es _ _ new_pool_inv) as (p & Hrun & Hinv). exists p. split; [done|].
  apply (pi_fifo _ _ Hinv).
Qed.
End Pool.

Definition demo_pool_events : list PoolEvent :=
  [PoolEnqueue "h" "git.status" 1; PoolEnqueue "h" "git.history" 2; PoolEnqueue "h" "session.list" 3;
   PoolSettle 0; PoolEnqueue "k" "git.status" 4]%string.

Lemma pool_bounded_witness :
  exists p, pool_run 2 1 demo_pool_events new_pool = Some p /\ length (running p) = 3%nat /\
    forall r, r ∈ running p -> queues p !! run_selector r = Some (run_queue r).
Proof.
  destruct (pool_bounded 2 1 ltac:(lia) ltac:(lia) demo_pool_events) as (p & Hrun & Hreg & _).
  exists p. split; [exact Hrun|]. split; [|exact Hreg].
  vm_compute in Hrun. injection Hrun as <-. reflexivity.
Defined.

Lemma pool_fifo_witness :
  exists p, pool_run 2 1 demo_pool_events new_pool = Some p /\
    map call_id (calls_of "h" true (pool_started p) ++ waiting_in p "h" true) = [1; 2]%nat.
Proof.
  destruct (pool_fifo 2 1 ltac:(lia) ltac:(lia) demo_pool_events) as (p & Hrun & Hfifo).
  exists p. split; [exact Hrun|]. rewrite (Hfifo "h"%string true). reflexivity.
Defined.
