(* ===== verification/DeviceRegistry.v ===== *)
(** * The device registry (src/main/runtime/device-registry.ts)

    [Registry] is the pair of the list of devices in memory and the text of
    the registry file ([None]: there is no file). The methods are functions on
    it; random identifiers, the clock and the outcome of each write of the
    file are inputs. The entries are JavaScript objects, since [load] spreads
    whatever objects the file holds. [JSON.parse] is a parameter: [None] when
    reading or parsing the file throws.

    Theorems: the invariant of every run (scopes, relay bindings, one pending
    device per scope), the permanence of a revocation across later operations,
    failed writes and restarts, and that a restart preserves every answer. *)

From S2P Require Import Prelude JsMap Json.

Local Open Scope string_scope.

(** ** Data *)

Inductive DeviceScope := Mobile | Runtime.
#[export] Instance DeviceScope_eq_dec : EqDecision DeviceScope.
Proof. solve_decision. Defined.
Definition scope_string (s : DeviceScope) : string :=
  match s with Mobile => "mobile" | Runtime => "runtime" end.
Definition scope_value (s : DeviceScope) : option json := Some (JStr (scope_string s)).

Inductive MobilePairingConnectionMode := Automatic | LocalOnly.
Definition mode_string (m : MobilePairingConnectionMode) : string :=
  match m with Automatic => "automatic" | LocalOnly => "local-only" end.

Record RelayDeviceBinding := {
  relayHostId : string;
  relayDeviceId : string;
  ownerIdentityKey : string;
  inviteExpiresAt : option jsnum }.

Definition binding_json (b : RelayDeviceBinding) : json :=
  JObj (("relayHostId", JStr (relayHostId b)) :: ("relayDeviceId", JStr (relayDeviceId b)) ::
        ("ownerIdentityKey", JStr (ownerIdentityKey b)) ::
        match inviteExpiresAt b with
        | Some n => [("inviteExpiresAt", JNum n)]
        | None => []
        end).

Record Registry := { devices : list jsobj; file : option string }.

(** What [addDevice] draws: [randomUUID()], [randomBytes(24)] in hexadecimal
    and [Date.now()]. *)
Record Fresh := { uuid : string; token : string; now : Z }.

(** ** Loading and saving *)

Definition validRelayBinding (value deviceId : option json) : option json :=
  match value with
  | Some binding =>
      if negb (truthy value) || negb (is_object binding) then None
      else if strict_eq (prop "relayDeviceId" binding) deviceId then
        match as_string (prop "relayHostId" binding), as_string (prop "ownerIdentityKey" binding) with
        | Some host, Some owner =>
            Some (JObj ([("relayHostId", JStr host)] ++
                        defined [("relayDeviceId", prop "relayDeviceId" binding)] ++
                        [("ownerIdentityKey", JStr owner)] ++
                        match isFinite (prop "inviteExpiresAt" binding) with
                        | Some n => [("inviteExpiresAt", JNum n)]
                        | None => []
                        end))
        | _, _ => None
        end
      else None
  | None => None
  end.

(** The callback of [parsed.map]; reading a property of [null] throws. *)
Definition load_device (device : json) : option jsobj :=
  match device with
  | JNull => None
  | _ =>
      Some (<["mobilePairingConnectionMode" :=
                Some (JStr (mode_string
                  (if strict_eq (prop "mobilePairingConnectionMode" device) (Some (JStr "local-only"))
                   then LocalOnly else Automatic)))]>
            (<["relayBinding" :=
                validRelayBinding (prop "relayBinding" device) (prop "deviceId" device)]>
             (<["scope" :=
                scope_value (if strict_eq (prop "scope" device) (scope_value Runtime)
                             then Runtime else Mobile)]>
              (spread device))))
  end.

Definition registry_json (ds : list jsobj) : json := JArr (map obj_json ds).
Definition registry_text (ds : list jsobj) : string := JSON_stringify_2 0 (registry_json ds).

Section Registry.
Context (JSON_parse : string -> option json).

Definition load (file : option string) : list jsobj :=
  match file with
  | None => []
  | Some text =>
      match JSON_parse text with
      | Some (JArr parsed) =>
          match mapM load_device parsed with Some ds => ds | None => [] end
      | _ => []
      end
  end.

(** [new DeviceRegistry(userDataPath)] *)
Definition DeviceRegistry (file : option string) : Registry :=
  {| devices := load file; file := file |}.

(** [writeSecureJsonFile] publishes the text by a rename, or throws. *)
Definition save (io : bool) (r : Registry) : Registry * result unit :=
  if io then ({| devices := devices r; file := Some (registry_text (devices r)) |}, Ok tt)
  else (r, Throw "write failed").

Definition with_devices (ds : list jsobj) (r : Registry) : Registry :=
  {| devices := ds; file := file r |}.

(** [...; this.save(); return x] *)
Definition save_return {A} (io : bool) (x : A) (r : Registry) : Registry * result A :=
  let (r, saved) := save io r in (r, _ ← saved; Ok x).

(** ** Operations *)

Definition new_entry (f : Fresh) (name : string) (scope : DeviceScope) : jsobj :=
  obj_literal
    [("deviceId", Some (JStr (uuid f))); ("name", Some (JStr name));
     ("token", Some (JStr (token f))); ("scope", scope_value scope);
     ("pairedAt", Some (JNum (NInt (now f)))); ("lastSeenAt", Some (JNum (NInt 0)))].

Definition addDevice (f : Fresh) (io : bool) (name : string) (scope : DeviceScope) (r : Registry) :=
  let entry := new_entry f name scope in
  save_return io entry (with_devices (devices r ++ [entry]) r).

(** [d.lastSeenAt === 0 && d.scope === scope] *)
Definition is_pending (scope : DeviceScope) (d : jsobj) : bool :=
  strict_eq (get "lastSeenAt" d) (Some (JNum (NInt 0))) &&
  strict_eq (get "scope" d) (scope_value scope).

Definition has_id (deviceId : string) (d : jsobj) : bool :=
  strict_eq (get "deviceId" d) (Some (JStr deviceId)).
Definition has_token (token : string) (d : jsobj) : bool :=
  strict_eq (get "token" d) (Some (JStr token)).

Definition getPendingDevice (scope : DeviceScope) (r : Registry) : option jsobj :=
  js_find (is_pending scope) (devices r).
Definition getDevice (deviceId : string) (r : Registry) : option jsobj :=
  js_find (has_id deviceId) (devices r).
Definition validateToken (token : string) (r : Registry) : option jsobj :=
  js_find (has_token token) (devices r).

Definition getOrCreatePendingDevice (f : Fresh) (io : bool) (name : string) (scope : DeviceScope)
    (r : Registry) : Registry * result jsobj :=
  match getPendingDevice scope r with
  | Some existing => (r, Ok existing)
  | None => addDevice f io name scope r
  end.

Definition rotatePendingDevice (f : Fresh) (io : bool) (name : string) (scope : DeviceScope)
    (r : Registry) : Registry * result jsobj :=
  addDevice f io name scope
    (with_devices (js_filter (fun d => negb (is_pending scope d)) (devices r)) r).

Definition removeDevice (io : bool) (deviceId : string) (r : Registry) : Registry * result bool :=
  let next := js_filter (fun d => negb (has_id deviceId d)) (devices r) in
  if bool_decide (length next < length (devices r))%nat
  then save_return io true (with_devices next r)
  else (with_devices next r, Ok false).

Definition setRelayBinding (io : bool) (deviceId : string) (binding : RelayDeviceBinding)
    (r : Registry) : Registry * result bool :=
  match getDevice deviceId r with
  | Some _ =>
      if negb (String.eqb (relayDeviceId binding) deviceId) then (r, Ok false)
      else save_return io true
             (with_devices (js_update_first (has_id deviceId)
                (<["relayBinding" := Some (binding_json binding)]>) (devices r)) r)
  | None => (r, Ok false)
  end.

Definition is_mobile (d : jsobj) : bool := strict_eq (get "scope" d) (scope_value Mobile).

Definition setMobilePairingConnectionMode (io : bool) (deviceId : string)
    (mode : MobilePairingConnectionMode) (r : Registry) : Registry * result bool :=
  match getDevice deviceId r with
  | Some device =>
      if negb (is_mobile device) then (r, Ok false)
      else save_return io true
             (with_devices (js_update_first (has_id deviceId)
                (<["mobilePairingConnectionMode" := Some (JStr (mode_string mode))]>) (devices r)) r)
  | None => (r, Ok false)
  end.

Definition getMobilePairingConnectionMode (deviceId : string) (r : Registry)
    : option MobilePairingConnectionMode :=
  match getDevice deviceId r with
  | Some device =>
      if negb (is_mobile device) then None
      else Some (if strict_eq (get "mobilePairingConnectionMode" device) (Some (JStr "local-only"))
                 then LocalOnly else Automatic)
  | None => None
  end.

Definition listDevices (r : Registry) : list jsobj := devices r.

Definition updateLastSeen (now : Z) (io : bool) (deviceId : string) (r : Registry)
    : Registry * result unit :=
  match getDevice deviceId r with
  | Some _ =>
      save_return io tt
        (with_devices (js_update_first (has_id deviceId)
           (<["lastSeenAt" := Some (JNum (NInt now))]>) (devices r)) r)
  | None => (r, Ok tt)
  end.

(** ** Runs: the methods the program calls, and restarts *)

Inductive event :=
  | GetOrCreate (f : Fresh) (io : bool) (name : string) (scope : DeviceScope)
  | Rotate (f : Fresh) (io : bool) (name : string) (scope : DeviceScope)
  | Remove (io : bool) (deviceId : string)
  | SetRelayBinding (io : bool) (deviceId : string) (binding : RelayDeviceBinding)
  | SetMode (io : bool) (deviceId : string) (mode : MobilePairingConnectionMode)
  | Seen (now : Z) (io : bool) (deviceId : string)
  | RestartProcess.

Definition step (r : Registry) (e : event) : Registry :=
  match e with
  | GetOrCreate f io name scope => (getOrCreatePendingDevice f io name scope r).1
  | Rotate f io name scope => (rotatePendingDevice f io name scope r).1
  | Remove io deviceId => (removeDevice io deviceId r).1
  | SetRelayBinding io deviceId b => (setRelayBinding io deviceId b r).1
  | SetMode io deviceId m => (setMobilePairingConnectionMode io deviceId m r).1
  | Seen now io deviceId => (updateLastSeen now io deviceId r).1
  | RestartProcess => DeviceRegistry (file r)
  end.

Definition run (r : Registry) (es : list event) : Registry := foldl step r es.

(** The states a run goes through, the first included. *)
Fixpoint states (r : Registry) (es : list event) : list Registry :=
  r :: match es with [] => [] | e :: es => states (step r e) es end.
End Registry.

(** ** Invariant of the entries *)

(** A relay binding is undefined or names its own device. *)
Definition binding_ok (deviceId v : option json) : Prop :=
  v = None \/
  exists b host owner, v = Some b /\ is_object b = true /\
    strict_eq (prop "relayDeviceId" b) deviceId = true /\
    prop "relayHostId" b = Some (JStr host) /\ prop "ownerIdentityKey" b = Some (JStr owner).

Definition ok_device (d : jsobj) : Prop :=
  jm_wf d /\ (exists s, get "scope" d = scope_value s) /\
  binding_ok (get "deviceId" d) (get "relayBinding" d).

(** Two entries with the same fields, up to the normalisation of [load]. *)
Definition same_binding (v v' : option json) : Prop :=
  match v, v' with
  | None, None => True
  | Some b, Some b' =>
      (forall k, k ∈ ["relayHostId"; "relayDeviceId"; "ownerIdentityKey"] -> prop k b' = prop k b) /\
      isFinite (prop "inviteExpiresAt" b') = isFinite (prop "inviteExpiresAt" b)
  | _, _ => False
  end.
Definition local_only (d : jsobj) : bool :=
  strict_eq (get "mobilePairingConnectionMode" d) (Some (JStr "local-only")).
Definition same_device (d d' : jsobj) : Prop :=
  (forall k, k ≠ "relayBinding" -> k ≠ "mobilePairingConnectionMode" -> get k d' = get k d) /\
  same_binding (get "relayBinding" d) (get "relayBinding" d') /\ local_only d' = local_only d.

Lemma strict_eq_str v s : strict_eq v (Some (JStr s)) = true <-> v = Some (JStr s).
Proof.
  destruct v as [[]|]; simpl; try (split; congruence).
  rewrite String.eqb_eq. split; congruence.
Qed.

Lemma validRelayBinding_ok v id : binding_ok id (validRelayBinding v id).
Proof.
  unfold validRelayBinding. destruct v as [b|]; [|by left].
  destruct (_ || _); [by left|]. destruct (strict_eq _ _) eqn:Hid; [|by left].
  destruct (as_string (prop "relayHostId" b)) as [host|]; [|by left].
  destruct (as_string (prop "ownerIdentityKey" b)) as [owner|]; [|by left].
  right. eexists _, host, owner. split; [done|].
  destruct (prop "relayDeviceId" b), (isFinite _); done.
Qed.

Lemma isFinite_JNum v n : isFinite v = Some n -> isFinite (Some (JNum n)) = Some n.
Proof. destruct v as [[| |[]| | |]|]; naive_solver. Qed.

Lemma validRelayBinding_same id v :
  binding_ok id v -> same_binding v (validRelayBinding v id).
Proof.
  intros [->|(b & host & owner & -> & Hobj & Hid & Hh & Ho)]; [done|].
  unfold validRelayBinding. rewrite Hid, Hh, Ho, Hobj. cbn [as_string].
  assert (truthy (Some b) = true) as -> by (by destruct b). cbn [negb orb same_binding].
  split.
  - intros k Hk. repeat (apply elem_of_cons in Hk as [->|Hk];
      [destruct (prop "relayDeviceId" b), (isFinite _); simpl; congruence|]).
    by apply elem_of_nil in Hk.
  - destruct (isFinite (prop "inviteExpiresAt" b)) as [n|] eqn:Hn;
      destruct (prop "relayDeviceId" b); cbn; try done; by apply (isFinite_JNum _ n) in Hn.
Qed.

Lemma binding_json_ok b id :
  relayDeviceId b = id -> binding_ok (Some (JStr id)) (Some (binding_json b)).
Proof.
  intros <-. right. eexists _, _, _. split; [done|]. simpl. rewrite String.eqb_refl.
  repeat split.
Qed.

(** Reading back an entry that [save] wrote. *)
Lemma load_device_obj_json d :
  ok_device d ->
  exists d', load_device (obj_json d) = Some d' /\ ok_device d' /\ same_device d d'.
Proof.
  intros (Hwf & (s & Hs) & Hb). eexists. split; [reflexivity|].
  unfold load_device, obj_json.
  assert (Hg : forall k, get k (spread (JObj (defined (jm_entries d)))) = get k d).
  { intros k. rewrite get_spread by (by apply NoDup_defined). apply (prop_obj_json k d Hwf). }
  assert (Hp : forall k, prop k (JObj (defined (jm_entries d))) = get k d)
    by (intros k; apply (prop_obj_json k d Hwf)).
  rewrite !Hp.
  assert (Hscope : (if strict_eq (get "scope" d) (scope_value Runtime) then Runtime else Mobile) = s).
  { rewrite Hs. by destruct s. }
  rewrite Hscope. split.
  - split; [|split].
    + repeat apply jm_wf_insert. apply jm_wf_obj_literal.
    + exists s. by rewrite !get_insert.
    + rewrite !get_insert. simpl. rewrite Hg. apply validRelayBinding_ok.
  - split; [|split].
    + intros k H1 H2. rewrite !get_insert.
      repeat case_decide; subst; done.
    + rewrite !get_insert. simpl. by apply validRelayBinding_same.
    + unfold local_only. rewrite !get_insert. cbn [decide].
      destruct (strict_eq (get "mobilePairingConnectionMode" d) _); reflexivity.
Qed.

Lemma mapM_load_devices ds :
  Forall ok_device ds ->
  exists ds', mapM load_device (map obj_json ds) = Some ds' /\ Forall ok_device ds' /\
    Forall2 same_device ds ds'.
Proof.
  induction 1 as [|d ds Hd _ (ds' & IH & Hok & Hsame)]; [by exists []|].
  destruct (load_device_obj_json d Hd) as (d' & Hl & Hd' & Hs).
  exists (d' :: ds'). split; [|by auto]. apply mapM_Some. cbn [map]. constructor; [done|].
  by apply mapM_Some.
Qed.

(** ** The invariant of a run *)

Section Runs.
Context (JSON_parse : string -> option json).

(** [JSON.parse] gives back what [JSON.stringify] printed for a list of devices. *)
Definition parse_faithful (ds : list jsobj) : Prop :=
  JSON_parse (registry_text ds) = Some (registry_json ds).

Definition pending_count (scope : DeviceScope) (ds : list jsobj) : nat :=
  length (js_filter (is_pending scope) ds).

Definition ok_devices (ds : list jsobj) : Prop :=
  Forall ok_device ds /\ forall scope, (pending_count scope ds <= 1)%nat.

(** The file is absent or holds a list of devices the registry wrote. *)
Definition ok_file (P : list jsobj -> Prop) (file : option string) : Prop :=
  file = None \/
  exists ds, file = Some (registry_text ds) /\ parse_faithful ds /\ ok_devices ds /\ P ds.

Definition inv (P : list jsobj -> Prop) (r : Registry) : Prop :=
  ok_devices (devices r) /\ P (devices r) /\ ok_file P (file r).

Lemma same_device_pending scope d d' :
  same_device d d' -> is_pending scope d' = is_pending scope d.
Proof. intros [H _]. unfold is_pending. by rewrite !H. Qed.

Lemma same_device_token t d d' : same_device d d' -> has_token t d' = has_token t d.
Proof. intros [H _]. unfold has_token. by rewrite H. Qed.

Lemma same_device_id i d d' : same_device d d' -> has_id i d' = has_id i d.
Proof. intros [H _]. unfold has_id. by rewrite H. Qed.

Lemma pending_count_same scope ds ds' :
  Forall2 same_device ds ds' -> pending_count scope ds' = pending_count scope ds.
Proof.
  unfold pending_count. induction 1 as [|d d' ds ds' Hd _ IH]; simpl; [done|].
  rewrite (same_device_pending scope d d' Hd). case_match; simpl; auto.
Qed.

Lemma load_saved ds :
  Forall ok_device ds -> parse_faithful ds ->
  Forall ok_device (load JSON_parse (Some (registry_text ds))) /\
  Forall2 same_device ds (load JSON_parse (Some (registry_text ds))).
Proof.
  intros Hok Hp. unfold load. rewrite Hp. unfold registry_json.
  destruct (mapM_load_devices ds Hok) as (ds' & -> & ? & ?). done.
Qed.

Lemma ok_devices_load ds :
  ok_devices ds -> parse_faithful ds -> ok_devices (load JSON_parse (Some (registry_text ds))).
Proof.
  intros [Hok Hp] Hf. destruct (load_saved ds Hok Hf) as [H1 H2]. split; [done|].
  intros scope. by rewrite (pending_count_same scope _ _ H2).
Qed.

(** ** What each operation leaves in memory and in the file *)

(** The operation left the registry alone, or the devices are [ds] and the
    file, if it changed, holds them. *)
Definition wrote (ds : list jsobj) (r r' : Registry) : Prop :=
  devices r' = ds /\ (file r' = file r \/ file r' = Some (registry_text ds)).

Lemma save_return_wrote {A} io (x : A) ds r :
  wrote ds r (save_return io x (with_devices ds r)).1.
Proof. destruct io; split; simpl; auto. Qed.

Lemma wrote_same r : wrote (devices r) r r.
Proof. split; auto. Qed.

Definition next_devices (r : Registry) (e : event) : list jsobj :=
  match e with
  | GetOrCreate f io name scope =>
      match getPendingDevice scope r with
      | Some _ => devices r
      | None => devices r ++ [new_entry f name scope]
      end
  | Rotate f io name scope =>
      js_filter (fun d => negb (is_pending scope d)) (devices r) ++ [new_entry f name scope]
  | Remove io deviceId => js_filter (fun d => negb (has_id deviceId d)) (devices r)
  | SetRelayBinding io deviceId b =>
      if String.eqb (relayDeviceId b) deviceId
      then js_update_first (has_id deviceId) (<["relayBinding" := Some (binding_json b)]>) (devices r)
      else devices r
  | SetMode io deviceId m =>
      match getDevice deviceId r with
      | Some d =>
          if is_mobile d
          then js_update_first (has_id deviceId)
                 (<["mobilePairingConnectionMode" := Some (JStr (mode_string m))]>) (devices r)
          else devices r
      | None => devices r
      end
  | Seen now io deviceId =>
      js_update_first (has_id deviceId) (<["lastSeenAt" := Some (JNum (NInt now))]>) (devices r)
  | RestartProcess => load JSON_parse (file r)
  end.

Lemma js_update_first_none {A} (p : A -> bool) f l : js_find p l = None -> js_update_first p f l = l.
Proof.
  induction l as [|x l IH]; simpl; [done|]. destruct (p x); [done|]. intros H. by rewrite IH.
Qed.

Lemma registry_step_wrote r e : wrote (next_devices r e) r (step JSON_parse r e).
Proof.
  destruct e as [f io name scope|f io name scope|io i|io i b|io i m|now io i|]; simpl.
  - unfold getOrCreatePendingDevice. destruct (getPendingDevice _ _);
      [apply wrote_same|apply save_return_wrote].
  - destruct io; split; simpl; auto.
  - unfold removeDevice. case_bool_decide; [apply save_return_wrote|split; auto].
  - unfold setRelayBinding. destruct (getDevice i r) eqn:Hd.
    + destruct (String.eqb _ _); simpl; [apply save_return_wrote|apply wrote_same].
    + unfold getDevice in Hd. rewrite js_update_first_none by done.
      destruct (String.eqb _ _); apply wrote_same.
  - unfold setMobilePairingConnectionMode. destruct (getDevice i r) eqn:Hd; [|apply wrote_same].
    destruct (is_mobile _); simpl; [apply save_return_wrote|apply wrote_same].
  - unfold updateLastSeen. destruct (getDevice i r) eqn:Hd; [apply save_return_wrote|].
    unfold getDevice in Hd. rewrite js_update_first_none by done. apply wrote_same.
  - split; auto.
Qed.
(** ** Preservation *)

Lemma new_entry_ok f name scope : ok_device (new_entry f name scope).
Proof.
  split; [apply jm_wf_obj_literal|]. split; [by exists scope|]. by left.
Qed.

Lemma new_entry_pending f name scope s :
  is_pending s (new_entry f name scope) = bool_decide (s = scope).
Proof. by destruct s, scope. Qed.

Lemma new_entry_token f name scope t :
  has_token t (new_entry f name scope) = String.eqb (token f) t.
Proof. done. Qed.

(** The fields a method assigns keep the entry well formed. *)
Lemma insert_ok k v d :
  ok_device d -> k ≠ "scope" -> k ≠ "deviceId" ->
  (k = "relayBinding" -> binding_ok (get "deviceId" d) v) -> ok_device (<[k:=v]> d).
Proof.
  intros (Hwf & (s & Hs) & Hb) H1 H2 H3. split; [by apply jm_wf_insert|]. split.
  - exists s. rewrite get_insert. by case_decide.
  - rewrite !get_insert. repeat case_decide; try done; auto.
Qed.

Lemma pending_count_app s ds1 ds2 :
  pending_count s (ds1 ++ ds2) = (pending_count s ds1 + pending_count s ds2)%nat.
Proof. unfold pending_count. by rewrite js_filter_app, length_app. Qed.

Lemma pending_count_new s f name scope :
  pending_count s [new_entry f name scope] = if decide (s = scope) then 1%nat else 0%nat.
Proof. unfold pending_count. simpl. rewrite new_entry_pending. repeat case_decide; by case_bool_decide. Qed.

Lemma pending_count_filter s p ds : (pending_count s (js_filter p ds) <= pending_count s ds)%nat.
Proof.
  unfold pending_count. induction ds as [|d ds IH]; simpl; [done|].
  destruct (p d); simpl; destruct (is_pending s d); simpl; lia.
Qed.

Lemma pending_count_rotated s ds :
  pending_count s (js_filter (fun d => negb (is_pending s d)) ds) = 0%nat.
Proof.
  unfold pending_count. rewrite js_filter_none; [done|].
  apply Forall_forall. intros d [_ H]%elem_of_js_filter. by apply negb_true_iff.
Qed.

Lemma pending_count_update s p f ds :
  (forall d, is_pending s (f d) = true -> is_pending s d = true) ->
  (pending_count s (js_update_first p f ds) <= pending_count s ds)%nat.
Proof.
  intros Hf. unfold pending_count. induction ds as [|d ds IH]; simpl; [done|].
  specialize (Hf d). destruct (p d); simpl; destruct (is_pending s (f d)), (is_pending s d);
    simpl; try lia; by discriminate Hf.
Qed.

Lemma pending_count_none s ds : js_find (is_pending s) ds = None -> pending_count s ds = 0%nat.
Proof. intros H%js_find_None. unfold pending_count. by rewrite js_filter_none. Qed.

Lemma is_pending_insert s k v d :
  k ≠ "lastSeenAt" -> k ≠ "scope" -> is_pending s (<[k:=v]> d) = is_pending s d.
Proof. intros. unfold is_pending. rewrite !get_insert. by repeat case_decide. Qed.

Lemma is_pending_seen s now d :
  0 < now -> is_pending s (<["lastSeenAt" := Some (JNum (NInt now))]> d) = false.
Proof.
  intros. unfold is_pending. rewrite get_insert. simpl.
  rewrite bool_decide_eq_false_2; [done|]. intros [=]. lia.
Qed.

Lemma ok_devices_update p f ds :
  ok_devices ds ->
  (forall d, ok_device d -> p d = true -> ok_device (f d)) ->
  (forall s d, is_pending s (f d) = true -> is_pending s d = true) ->
  ok_devices (js_update_first p f ds).
Proof.
  intros [Hok Hp] Hf Hs. split; [by apply Forall_js_update_first|].
  intros s. eapply Nat.le_trans; [apply pending_count_update, Hs|apply Hp].
Qed.

Lemma ok_devices_add f name scope ds :
  ok_devices ds -> pending_count scope ds = 0%nat -> ok_devices (ds ++ [new_entry f name scope]).
Proof.
  intros [Hok Hp] H0. split.
  - apply Forall_app. split; [done|]. constructor; [apply new_entry_ok|done].
  - intros s. rewrite pending_count_app, pending_count_new. specialize (Hp s).
    case_decide; subst; lia.
Qed.

Lemma ok_devices_filter p ds : ok_devices ds -> ok_devices (js_filter p ds).
Proof.
  intros [Hok Hp]. split; [by apply Forall_js_filter|].
  intros s. eapply Nat.le_trans; [apply pending_count_filter|apply Hp].
Qed.

(** The clock never reads 0. *)
Definition event_ok (e : event) : Prop :=
  match e with Seen now _ _ => 0 < now | _ => True end.

Lemma next_devices_ok r e P :
  inv P r -> event_ok e -> ok_devices (next_devices r e).
Proof.
  intros (Hok & _ & Hf) He.
  destruct e as [f io name scope|f io name scope|io i|io i b|io i m|now io i|]; simpl in *.
  - destruct (getPendingDevice _ _) eqn:H; [done|].
    apply ok_devices_add; [done|]. by apply pending_count_none.
  - apply ok_devices_add; [by apply ok_devices_filter|apply pending_count_rotated].
  - by apply ok_devices_filter.
  - destruct (String.eqb_spec (relayDeviceId b) i); [|done]. apply ok_devices_update; [done| |].
    + intros d Hd Hi. apply insert_ok; [done|done|done|]. intros _.
      apply strict_eq_str in Hi. rewrite Hi. by apply binding_json_ok.
    + intros s d. by rewrite is_pending_insert.
  - destruct (getDevice i r); [|done]. destruct (is_mobile _); [|done].
    apply ok_devices_update; [done| |].
    + intros d Hd _. by apply insert_ok.
    + intros s d. by rewrite is_pending_insert.
  - apply ok_devices_update; [done| |].
    + intros d Hd _. by apply insert_ok.
    + intros s d. by rewrite is_pending_seen.
  - destruct Hf as [->|(ds & -> & Hp & Hds & _)].
    + split; [done|]. intros s. cbn. lia.
    + by apply ok_devices_load.
Qed.

Lemma registry_step_inv P r e :
  inv P r -> event_ok e -> P (next_devices r e) ->
  parse_faithful (devices (step JSON_parse r e)) -> inv P (step JSON_parse r e).
Proof.
  intros Hinv He HP Hp. pose proof (next_devices_ok r e P Hinv He) as Hok.
  destruct (registry_step_wrote r e) as [Hd Hf]. destruct Hinv as (_ & _ & Hfile).
  split; [by rewrite Hd|]. split; [by rewrite Hd|].
  destruct Hf as [->| ->]; [done|]. right. exists (next_devices r e).
  split; [done|]. split; [by rewrite <-Hd|]. done.
Qed.

Lemma registry_run_inv P r es :
  (forall r e, e ∈ es -> inv P r -> P (next_devices r e)) ->
  inv P r -> Forall event_ok es ->
  Forall (fun r => parse_faithful (devices r)) (states JSON_parse r es) ->
  inv P (run JSON_parse r es).
Proof.
  revert r. induction es as [|e es IH]; intros r HP Hinv He Hs; [done|].
  apply Forall_cons in He as [He1 He]. cbn [states] in Hs. apply Forall_cons in Hs as [_ Hs].
  simpl. apply IH; [intros; apply HP; [by right|done]| |done|done].
  apply registry_step_inv; [done|done|by apply HP; [left|]|].
  destruct es; cbn [states] in Hs; by apply Forall_cons in Hs as [? _].
Qed.

Lemma inv_empty P : P [] -> inv P (DeviceRegistry JSON_parse None).
Proof.
  intros H. split; [|split]; [|done|by left]. split; [constructor|]. intros s. cbn. lia.
Qed.

Lemma states_app r es1 es2 :
  Forall (fun r => parse_faithful (devices r)) (states JSON_parse r (es1 ++ es2)) ->
  Forall (fun r => parse_faithful (devices r)) (states JSON_parse r es1) /\
  Forall (fun r => parse_faithful (devices r)) (states JSON_parse (run JSON_parse r es1) es2).
Proof.
  revert r. induction es1 as [|e es1 IH]; intros r H.
  - split; [|done]. destruct es2; cbn [app states] in *; by apply Forall_cons in H as [? _]; constructor.
  - cbn [app states] in H. apply Forall_cons in H as [H1 H]. destruct (IH _ H).
    split; [by constructor|done].
Qed.
End Runs.

(** ** Properties *)

(** Whatever pairings, rotations, removals, bindings, failed writes and
    restarts follow the first start, every entry has a known scope, a relay
    binding names the entry's own device, and each scope has at most one
    device that was never seen. *)
Theorem registry_invariant JSON_parse es :
  Forall event_ok es ->
  Forall (fun r => parse_faithful JSON_parse (devices r))
    (states JSON_parse (DeviceRegistry JSON_parse None) es) ->
  let ds := devices (run JSON_parse (DeviceRegistry JSON_parse None) es) in
  Forall ok_device ds /\ forall scope, (length (js_filter (is_pending scope) ds) <= 1)%nat.
Proof.
  intros He Hs. apply (registry_run_inv JSON_parse (fun _ => True)); [done| |done|done].
  by apply inv_empty.
Qed.

(** The event takes the token out of the registry, and its write succeeds. *)
Definition revokes (t : string) (r : Registry) (e : event) : Prop :=
  match e with
  | Rotate f io _ scope =>
      io = true /\ token f ≠ t /\
      forall d, d ∈ devices r -> has_token t d = true -> is_pending scope d = true
  | Remove io deviceId =>
      io = true /\ (exists d, d ∈ devices r /\ has_id deviceId d = true) /\
      forall d, d ∈ devices r -> has_token t d = true -> has_id deviceId d = true
  | _ => False
  end.

(** The event does not draw the token again. *)
Definition draws_other (t : string) (e : event) : Prop :=
  match e with
  | GetOrCreate f _ _ _ | Rotate f _ _ _ => token f ≠ t
  | _ => True
  end.

Definition without_token (t : string) (ds : list jsobj) : Prop :=
  Forall (fun d => has_token t d = false) ds.

Lemma has_token_insert t k v d : k ≠ "token" -> has_token t (<[k:=v]> d) = has_token t d.
Proof. intros H. unfold has_token. rewrite get_insert. by case_decide. Qed.

Lemma without_token_add t f name scope ds :
  without_token t ds -> token f ≠ t -> without_token t (ds ++ [new_entry f name scope]).
Proof.
  intros H Hne. apply Forall_app. split; [done|]. constructor; [|done].
  rewrite new_entry_token. by apply String.eqb_neq.
Qed.

Lemma without_token_next JSON_parse t r e :
  inv JSON_parse (without_token t) r -> draws_other t e ->
  without_token t (next_devices JSON_parse r e).
Proof.
  intros (Hok & Ht & Hf) He.
  assert (Hup : forall p k v, k ≠ "token" ->
    without_token t (js_update_first p (<[k:=v]>) (devices r))).
  { intros p k v Hk. apply Forall_js_update_first; [done|]. intros d Hd _.
    by rewrite has_token_insert. }
  destruct e as [f io name scope|f io name scope|io i|io i b|io i m|now io i|]; simpl in *.
  - destruct (getPendingDevice _ _); [done|]. by apply without_token_add.
  - apply without_token_add; [|done]. by apply Forall_js_filter.
  - by apply Forall_js_filter.
  - destruct (String.eqb _ _); auto.
  - destruct (getDevice i r); [|done]. destruct (is_mobile _); auto.
  - auto.
  - destruct Hf as [->|(ds & -> & Hp & [Hds _] & Hno)]; [constructor|].
    destruct (load_saved JSON_parse ds Hds Hp) as [_ Hsame].
    unfold without_token in *. clear -Hno Hsame. induction Hsame as [|d d' ds ds' Hd _ IH]; [done|].
    apply Forall_cons in Hno as [H1 H2]. constructor; [|auto].
    by rewrite (same_device_token t d d').
Qed.

Lemma revokes_inv JSON_parse t r e :
  inv JSON_parse (fun _ => True) r -> revokes t r e ->
  parse_faithful JSON_parse (devices (step JSON_parse r e)) ->
  inv JSON_parse (without_token t) (step JSON_parse r e).
Proof.
  intros Hinv Hr Hp.
  assert (He : event_ok e) by (by destruct e).
  pose proof (next_devices_ok JSON_parse r e _ Hinv He) as Hok.
  destruct (registry_step_wrote JSON_parse r e) as [Hd _].
  assert (Hw : file (step JSON_parse r e) = Some (registry_text (next_devices JSON_parse r e)) /\
               without_token t (next_devices JSON_parse r e)).
  { destruct e as [|f io name scope|io i| | | |]; try done; destruct Hr as (-> & Hr & Ht).
    - split; [done|]. apply without_token_add; [|done]. apply Forall_forall.
      intros d [Hin Hn]%elem_of_js_filter. apply negb_true_iff in Hn.
      destruct (has_token t d) eqn:E; [|done]. by rewrite (Ht d Hin E) in Hn.
    - destruct Hr as (d & Hin & Hid). split.
      + simpl. unfold removeDevice. rewrite bool_decide_eq_true_2; [done|].
        pose proof (js_filter_length (fun d => negb (has_id i d)) (devices r)).
        destruct (decide (length (js_filter (fun d => negb (has_id i d)) (devices r))
                          = length (devices r))) as [Heq|]; [|lia].
        apply js_filter_id in Heq. rewrite <-Heq in Hin.
        apply elem_of_js_filter in Hin as [_ Hn]. by rewrite Hid in Hn.
      + apply Forall_forall. intros d' [Hin' Hn]%elem_of_js_filter. apply negb_true_iff in Hn.
        destruct (has_token t d') eqn:E; [|done]. by rewrite (Ht d' Hin' E) in Hn. }
  destruct Hw as [Hfile Hno]. split; [by rewrite Hd|]. split; [by rewrite Hd|].
  right. exists (next_devices JSON_parse r e). rewrite <-Hd at 2. done.
Qed.

(** A token revoked by a rotation or a removal whose write succeeded never
    validates again, whatever operations, failed writes and restarts follow,
    as long as the random source does not draw it again. *)
Theorem revocation_permanent JSON_parse t es e es' :
  let r0 := DeviceRegistry JSON_parse None in
  Forall event_ok (es ++ e :: es') ->
  Forall (fun r => parse_faithful JSON_parse (devices r)) (states JSON_parse r0 (es ++ e :: es')) ->
  revokes t (run JSON_parse r0 es) e ->
  Forall (draws_other t) es' ->
  validateToken t (run JSON_parse (step JSON_parse (run JSON_parse r0 es) e) es') = None.
Proof.
  intros r0 He Hs Hr Hdraws.
  apply Forall_app in He as [He1 He2]. apply Forall_cons in He2 as [He2 He3].
  apply states_app in Hs as [Hs1 Hs2]. cbn [states] in Hs2. apply Forall_cons in Hs2 as [_ Hs2].
  assert (Hinv : inv JSON_parse (fun _ => True) (run JSON_parse r0 es))
    by (apply registry_run_inv; [done|by apply inv_empty|done|done]).
  assert (Hp : parse_faithful JSON_parse (devices (step JSON_parse (run JSON_parse r0 es) e)))
    by (destruct es'; cbn [states] in Hs2; by apply Forall_cons in Hs2 as [? _]).
  pose proof (revokes_inv JSON_parse t _ e Hinv Hr Hp) as Hinv'.
  assert (Hfin : inv JSON_parse (without_token t)
    (run JSON_parse (step JSON_parse (run JSON_parse r0 es) e) es')).
  { apply registry_run_inv; [|done|done|done]. intros r e' Hin Hi.
    apply without_token_next; [done|]. rewrite Forall_forall in Hdraws. by apply Hdraws. }
  destruct Hfin as (_ & Hno & _). by apply js_find_None.
Qed.

(** When the file holds the registry, restarting the process keeps every
    answer: the same devices validate the same tokens and carry the same
    names, scopes, bindings and connection modes. *)
Theorem restart_preserves JSON_parse es t deviceId scope :
  let r := run JSON_parse (DeviceRegistry JSON_parse None) es in
  let r' := DeviceRegistry JSON_parse (file r) in
  Forall event_ok es ->
  Forall (fun r => parse_faithful JSON_parse (devices r))
    (states JSON_parse (DeviceRegistry JSON_parse None) es) ->
  file r = Some (registry_text (devices r)) ->
  parse_faithful JSON_parse (devices r) ->
  option_Forall2 same_device (validateToken t r) (validateToken t r') /\
  option_Forall2 same_device (getDevice deviceId r) (getDevice deviceId r') /\
  option_Forall2 same_device (getPendingDevice scope r) (getPendingDevice scope r') /\
  getMobilePairingConnectionMode deviceId r' = getMobilePairingConnectionMode deviceId r.
Proof.
  intros r r' He Hs Hf Hp.
  assert (Hinv : inv JSON_parse (fun _ => True) r)
    by (apply registry_run_inv; [done|by apply inv_empty|done|done]).
  destruct Hinv as ([Hok _] & _).
  destruct (load_saved JSON_parse (devices r) Hok Hp) as [_ Hsame].
  rewrite <-Hf in Hsame. change (load JSON_parse (file r)) with (devices r') in Hsame.
  assert (Hfind : forall p, (forall d d', same_device d d' -> p d' = p d) ->
    option_Forall2 same_device (js_find p (devices r)) (js_find p (devices r'))).
  { intros p Hpp. clear -Hsame Hpp. induction Hsame as [|d d' ds ds' Hd _ IH]; simpl; [constructor|].
    rewrite (Hpp d d' Hd). destruct (p d); [by constructor|done]. }
  pose proof (Hfind _ (same_device_id deviceId)) as Hid.
  split_and!; [by apply Hfind, same_device_token|done|by apply Hfind, same_device_pending|].
  unfold getMobilePairingConnectionMode, getDevice.
  destruct Hid as [d d' (Hg & _ & Hm)|]; [|done].
  unfold is_mobile. rewrite Hg by done. unfold local_only in Hm. by rewrite Hm.
Qed.

(** ** Witnesses *)

(** A parser that knows the texts of the values [vs]. *)
Definition parse_of (vs : list json) (text : string) : option json :=
  js_find (fun v => String.eqb (JSON_stringify_2 0 v) text) vs.

Definition demo_draw (i t : string) : Fresh := {| uuid := i; token := t; now := 1000 |}.
Definition demo_events : list event :=
  [GetOrCreate (demo_draw "a" "t1") true "phone" Mobile;
   SetRelayBinding true "a" {| relayHostId := "h"; relayDeviceId := "a"; ownerIdentityKey := "o";
                               inviteExpiresAt := Some (NInt 5000) |}].
Definition demo_rotate : event := Rotate (demo_draw "b" "t2") true "phone" Mobile.
Definition demo_after : list event :=
  [Seen 2000 true "b"; SetMode false "b" LocalOnly; RestartProcess;
   GetOrCreate (demo_draw "c" "t3") true "cli" Runtime; RestartProcess].

(** The values the demo run writes, computed with the parser of the values
    written before. *)
Definition demo_values : list json :=
  let extend vs := map (fun r => registry_json (devices r))
    (states (parse_of vs) (DeviceRegistry (parse_of vs) None)
       (demo_events ++ demo_rotate :: demo_after)) in
  Nat.iter 4 extend [].
Definition demo_parse : string -> option json := parse_of demo_values.

Definition demo_states : list Registry :=
  Eval vm_compute in
    states demo_parse (DeviceRegistry demo_parse None) (demo_events ++ demo_rotate :: demo_after).

Lemma demo_states_eq :
  states demo_parse (DeviceRegistry demo_parse None) (demo_events ++ demo_rotate :: demo_after)
  = demo_states.
Proof. vm_compute. reflexivity. Qed.

Lemma demo_faithful :
  Forall (fun r => parse_faithful demo_parse (devices r))
    (states demo_parse (DeviceRegistry demo_parse None) (demo_events ++ demo_rotate :: demo_after)).
Proof.
  rewrite demo_states_eq. unfold demo_states, parse_faithful.
  repeat (constructor; [vm_compute; reflexivity|]). constructor.
Qed.

Lemma registry_invariant_witness :
  exists ds, length ds = 2%nat /\ Forall ok_device ds.
Proof.
  destruct (registry_invariant demo_parse (demo_events ++ demo_rotate :: demo_after))
    as [H _].
  - repeat constructor; lia.
  - apply demo_faithful.
  - eexists. split; [|exact H]. vm_compute. reflexivity.
Defined.

Lemma revocation_permanent_witness :
  is_Some (validateToken "t1" (run demo_parse (DeviceRegistry demo_parse None) demo_events)) /\
  validateToken "t1" (run demo_parse (step demo_parse
    (run demo_parse (DeviceRegistry demo_parse None) demo_events) demo_rotate) demo_after) = None.
Proof.
  split; [vm_compute; eauto|]. apply (revocation_permanent demo_parse "t1").
  - repeat constructor; lia.
  - apply demo_faithful.
  - split; [done|]. split; [done|]. intros d.
    replace (devices (run demo_parse (DeviceRegistry demo_parse None) demo_events))
      with [<["relayBinding" := Some (binding_json
              {| relayHostId := "h"; relayDeviceId := "a"; ownerIdentityKey := "o";
                 inviteExpiresAt := Some (NInt 5000) |})]>
              (new_entry (demo_draw "a" "t1") "phone" Mobile)] by (by vm_compute).
    intros [->|Hd]%elem_of_cons; [done|]. by apply elem_of_nil in Hd.
  - repeat constructor; simpl; congruence.
Defined.

Lemma restart_preserves_witness :
  let r := run demo_parse (DeviceRegistry demo_parse None) demo_events in
  is_Some (validateToken "t1" r) /\
  option_Forall2 same_device (validateToken "t1" r)
    (validateToken "t1" (DeviceRegistry demo_parse (file r))).
Proof.
  split; [vm_compute; eauto|].
  destruct (restart_preserves demo_parse demo_events "t1" "a" Mobile) as [H _].
  - repeat constructor.
  - apply (states_app demo_parse _ demo_events (demo_rotate :: demo_after)), demo_faithful.
  - vm_compute. reflexivity.
  - vm_compute. reflexivity.
  - exact H.
Defined.
