(* ===== verification/RevokeOutbox.v ===== *)
(** * The revocation outbox (src/main/runtime/relay/relay-revoke-outbox.ts)

    The revocations the relay has not confirmed yet, in memory and in a file.
    An item is an object the code never mutates, so its JSON value stands for
    it. As in the registry, identifiers, the clock and the outcome of each
    write are inputs and [JSON.parse] is a parameter.

    Theorems: a revocation that was written is pending until it is removed,
    across failed writes and restarts, and is queued once; retrying after a
    failed write does not write. *)

From S2P Require Import Prelude JsMap Json DeviceRegistry.

Local Open Scope string_scope.

Definition finite_number (v : option json) : bool :=
  match isFinite v with Some _ => true | None => false end.

(** [isItem(value)] *)
Definition isItem (value : json) : bool :=
  truthy (Some value) && is_object value &&
  bool_decide (is_Some (as_string (prop "reqId" value))) &&
  bool_decide (is_Some (as_string (prop "relayHostId" value))) &&
  bool_decide (is_Some (as_string (prop "relayDeviceId" value))) &&
  bool_decide (is_Some (as_string (prop "ownerIdentityKey" value))) &&
  (match prop "inviteExpiresAt" value with None => true | v => finite_number v end) &&
  finite_number (prop "createdAt" value).

Record Outbox := { items : list json; file : option string }.

Definition items_text (l : list json) : string := JSON_stringify_2 0 (JArr l).

Section Outbox.
Context (JSON_parse : string -> option json).

Definition load (file : option string) : list json :=
  match file with
  | None => []
  | Some text =>
      match JSON_parse text with
      | Some (JArr parsed) => js_filter isItem parsed
      | _ => []
      end
  end.

(** [new RelayRevokeOutbox(userDataPath)] *)
Definition RelayRevokeOutbox (file : option string) : Outbox :=
  {| items := load file; file := file |}.

Definition save_return {A} (io : bool) (x : A) (o : Outbox) : Outbox * result A :=
  if io then ({| items := items o; file := Some (items_text (items o)) |}, Ok x)
  else (o, Throw "write failed").

Definition with_items (l : list json) (o : Outbox) : Outbox := {| items := l; file := file o |}.

(** [item.k === s] *)
Definition field_is (k s : string) (item : json) : bool :=
  strict_eq (prop k item) (Some (JStr s)).

Definition same_target (b : RelayDeviceBinding) (item : json) : bool :=
  field_is "relayHostId" (relayHostId b) item &&
  field_is "relayDeviceId" (relayDeviceId b) item &&
  field_is "ownerIdentityKey" (ownerIdentityKey b) item.

(** [{ ...binding, reqId, createdAt }] *)
Definition new_item (b : RelayDeviceBinding) (reqId : string) (now : Z) : json :=
  match binding_json b with
  | JObj fields => JObj (fields ++ [("reqId", JStr reqId); ("createdAt", JNum (NInt now))])
  | j => j
  end.

Definition enqueue (reqId : string) (now : Z) (io : bool) (b : RelayDeviceBinding) (o : Outbox)
    : Outbox * result json :=
  match js_find (same_target b) (items o) with
  | Some existing => (o, Ok existing)
  | None =>
      let item := new_item b reqId now in
      save_return io item (with_items (items o ++ [item]) o)
  end.

Definition pendingFor (ownerIdentityKey relayHostId : string) (o : Outbox) : list json :=
  js_filter (fun item => field_is "ownerIdentityKey" ownerIdentityKey item &&
                         field_is "relayHostId" relayHostId item) (items o).

Definition remove (io : bool) (reqId : string) (o : Outbox) : Outbox * result unit :=
  let next := js_filter (fun item => negb (field_is "reqId" reqId item)) (items o) in
  if bool_decide (length next = length (items o)) then (o, Ok tt)
  else save_return io tt (with_items next o).

(** ** Runs *)

Inductive event :=
  | Enqueue (reqId : string) (now : Z) (io : bool) (b : RelayDeviceBinding)
  | Remove (io : bool) (reqId : string)
  | RestartProcess.

Definition step (o : Outbox) (e : event) : Outbox :=
  match e with
  | Enqueue reqId now io b => (enqueue reqId now io b o).1
  | Remove io reqId => (remove io reqId o).1
  | RestartProcess => RelayRevokeOutbox (file o)
  end.
Definition run (o : Outbox) (es : list event) : Outbox := foldl step o es.

Fixpoint states (o : Outbox) (es : list event) : list Outbox :=
  o :: match es with [] => [] | e :: es => states (step o e) es end.

(** [JSON.parse] gives back what [JSON.stringify] printed for these items. *)
Definition parse_faithful (l : list json) : Prop := JSON_parse (items_text l) = Some (JArr l).

(** An invariant of the items that holds of memory and of the file. *)
Definition inv (P : list json -> Prop) (o : Outbox) : Prop :=
  Forall (fun j => isItem j = true) (items o) /\ P (items o) /\
  (file o = None /\ P [] \/
   exists l, file o = Some (items_text l) /\ parse_faithful l /\
     Forall (fun j => isItem j = true) l /\ P l).
End Outbox.

(** ** Lemmas *)

Section Lemmas.
Context (JSON_parse : string -> option json).

(** A binding whose expiry, if any, is a finite number. *)
Definition finite_binding (b : RelayDeviceBinding) : Prop :=
  match inviteExpiresAt b with Some (NInf _) => False | _ => True end.

Lemma new_item_ok b reqId now : finite_binding b -> isItem (new_item b reqId now) = true.
Proof.
  unfold finite_binding, isItem, new_item, binding_json.
  destruct b as [h d o [[| |]|]]; simpl; done.
Qed.

Lemma new_item_target b reqId now : same_target b (new_item b reqId now) = true.
Proof.
  unfold same_target, field_is, new_item, binding_json. destruct b as [h d o [|]]; simpl;
    by rewrite !String.eqb_refl.
Qed.

Lemma new_item_reqId b reqId now r :
  field_is "reqId" r (new_item b reqId now) = String.eqb reqId r.
Proof. unfold field_is, new_item, binding_json. by destruct b as [h d o [|]]. Qed.

Definition event_ok (e : event) : Prop :=
  match e with Enqueue _ _ _ b => finite_binding b | _ => True end.

Definition next_items (o : Outbox) (e : event) : list json :=
  match e with
  | Enqueue reqId now _ b =>
      match js_find (same_target b) (items o) with
      | Some _ => items o
      | None => items o ++ [new_item b reqId now]
      end
  | Remove _ reqId => js_filter (fun item => negb (field_is "reqId" reqId item)) (items o)
  | RestartProcess => load JSON_parse (file o)
  end.

Lemma outbox_step_wrote o e :
  items (step JSON_parse o e) = next_items o e /\
  (file (step JSON_parse o e) = file o \/
   file (step JSON_parse o e) = Some (items_text (next_items o e))).
Proof.
  destruct e as [reqId now io b|io reqId|]; simpl; [| |by auto].
  - unfold enqueue. destruct (js_find _ _); [by auto|]. destruct io; simpl; auto.
  - unfold remove. case_bool_decide as H; simpl.
    + rewrite js_filter_id by done. auto.
    + destruct io; simpl; auto.
Qed.

Lemma outbox_step_inv P o e :
  inv JSON_parse P o -> event_ok e -> P (next_items o e) ->
  parse_faithful JSON_parse (items (step JSON_parse o e)) ->
  inv JSON_parse P (step JSON_parse o e).
Proof.
  intros (Hit & HP & Hf) He HP' Hp. destruct (outbox_step_wrote o e) as [Hi Hfile].
  assert (Hok : Forall (fun j => isItem j = true) (next_items o e)).
  { destruct e as [reqId now io b|io reqId|]; simpl.
    - destruct (js_find _ _); [done|]. apply Forall_app. split; [done|].
      constructor; [by apply new_item_ok|done].
    - by apply Forall_js_filter.
    - destruct Hf as [[-> _]|(l & -> & Hl & Hok & _)]; [constructor|].
      unfold load. rewrite Hl. by rewrite js_filter_all. }
  split; [by rewrite Hi|]. split; [by rewrite Hi|].
  destruct Hfile as [->| ->]; [done|]. right. eexists. split; [done|].
  split; [by rewrite <-Hi|]. done.
Qed.

Lemma outbox_run_inv P o es :
  (forall o e, e ∈ es -> inv JSON_parse P o -> P (next_items o e)) ->
  inv JSON_parse P o -> Forall event_ok es ->
  Forall (fun o => parse_faithful JSON_parse (items o)) (states JSON_parse o es) ->
  inv JSON_parse P (run JSON_parse o es).
Proof.
  revert o. induction es as [|e es IH]; intros o HP Hinv He Hs; [done|].
  apply Forall_cons in He as [He1 He]. cbn [states] in Hs. apply Forall_cons in Hs as [_ Hs].
  simpl. apply IH; [intros; apply HP; [by right|done]| |done|done].
  apply outbox_step_inv; [done|done|by apply HP; [left|]|].
  destruct es; cbn [states] in Hs; by apply Forall_cons in Hs as [? _].
Qed.

(** A restart gives an invariant of the file to memory. *)
Lemma load_inv P o : inv JSON_parse P o -> P (load JSON_parse (file o)).
Proof.
  intros (_ & _ & [[-> ?]|(l & -> & Hl & Hok & ?)]); [done|].
  unfold load. rewrite Hl. by rewrite js_filter_all.
Qed.
End Lemmas.

(** ** Properties *)

Lemma js_filter_comm {A} (p q : A -> bool) l : js_filter p (js_filter q l) = js_filter q (js_filter p l).
Proof.
  induction l as [|x l IH]; simpl; [done|].
  destruct (p x) eqn:Hp, (q x) eqn:Hq; simpl; rewrite ?Hp, ?Hq, IH; done.
Qed.

Lemma same_target_trans b b' reqId now item :
  same_target b (new_item b' reqId now) = true -> same_target b item = same_target b' item.
Proof.
  unfold same_target, field_is, new_item, binding_json.
  destruct b as [h d o x], b' as [h' d' o' [|]]; simpl; intros H;
    apply andb_true_iff in H as [[H1 H2]%andb_true_iff H3];
    apply String.eqb_eq in H1, H2, H3; by subst.
Qed.

(** The items of the list for the target of [b] are exactly [item]. *)
Definition queued_once (b : RelayDeviceBinding) (item : json) (l : list json) : Prop :=
  js_filter (same_target b) l = [item].

Lemma queued_once_next JSON_parse b reqId now o e :
  inv JSON_parse (queued_once b (new_item b reqId now)) o ->
  (match e with Remove _ r => r ≠ reqId | _ => True end) ->
  queued_once b (new_item b reqId now) (next_items JSON_parse o e).
Proof.
  intros Hinv He. pose proof Hinv as (_ & Hq & _). unfold queued_once in *.
  destruct e as [reqId' now' io b'|io r|]; simpl.
  - destruct (js_find (same_target b') (items o)) eqn:Hf; [done|].
    rewrite js_filter_app, Hq. simpl. destruct (same_target b (new_item b' reqId' now')) eqn:E; [|done].
    exfalso. apply js_find_None in Hf.
    assert (Hin : new_item b reqId now ∈ js_filter (same_target b) (items o)) by (rewrite Hq; left).
    apply elem_of_js_filter in Hin as [Hin Ht]. rewrite Forall_forall in Hf.
    specialize (Hf _ Hin). by rewrite (same_target_trans _ _ _ _ _ E), Hf in Ht.
  - rewrite js_filter_comm, Hq. simpl. rewrite new_item_reqId.
    destruct (String.eqb_spec reqId r); [congruence|done].
  - by apply load_inv in Hinv.
Qed.

(** A revocation queued by an [enqueue] whose write succeeded is pending
    for its owner and host, exactly once, after any later operations, failed
    writes and restarts that do not remove its request. *)
Theorem revocation_queued JSON_parse es es' reqId now b :
  let o := run JSON_parse (RelayRevokeOutbox JSON_parse None) es in
  let e := Enqueue reqId now true b in
  js_find (same_target b) (items o) = None ->
  Forall event_ok (es ++ e :: es') ->
  Forall (fun o => parse_faithful JSON_parse (items o))
    (states JSON_parse (RelayRevokeOutbox JSON_parse None) es) ->
  Forall (fun o => parse_faithful JSON_parse (items o))
    (states JSON_parse (step JSON_parse o e) es') ->
  Forall (fun e => match e with Remove _ r => r ≠ reqId | _ => True end) es' ->
  js_filter (same_target b)
    (pendingFor (ownerIdentityKey b) (relayHostId b) (run JSON_parse (step JSON_parse o e) es'))
  = [new_item b reqId now].
Proof.
  intros o e Hnew He Hs Hs' Hr.
  apply Forall_app in He as [He1 He2]. apply Forall_cons in He2 as [He2 He3].
  assert (Hinv : inv JSON_parse (fun _ => True) o).
  { apply outbox_run_inv; [done| |done|done]. repeat split; try constructor; done. }
  assert (Hp : parse_faithful JSON_parse (items (step JSON_parse o e)))
    by (destruct es'; cbn [states] in Hs'; by apply Forall_cons in Hs' as [? _]).
  assert (Hq : inv JSON_parse (queued_once b (new_item b reqId now)) (step JSON_parse o e)).
  { pose proof (outbox_step_inv JSON_parse _ o e Hinv He2 I Hp) as (Hok & _ & _).
    assert (Ho : queued_once b (new_item b reqId now) (items (step JSON_parse o e))).
    { unfold queued_once. simpl. unfold enqueue. rewrite Hnew. simpl.
      rewrite js_filter_app, js_filter_none by (by apply js_find_None).
      simpl. by rewrite new_item_target. }
    split; [done|]. split; [done|]. right. exists (items (step JSON_parse o e)).
    split; [|done]. simpl. unfold enqueue. by rewrite Hnew. }
  assert (Hf : inv JSON_parse (queued_once b (new_item b reqId now))
    (run JSON_parse (step JSON_parse o e) es')).
  { apply outbox_run_inv; [|done|done|done]. intros o' e' Hin Hi. apply queued_once_next; [done|].
    rewrite Forall_forall in Hr. by apply Hr. }
  destruct Hf as (_ & Hf & _). unfold pendingFor. rewrite js_filter_comm, Hf. simpl.
  pose proof (new_item_target b reqId now) as Ht. unfold same_target in Ht.
  apply andb_true_iff in Ht as [[-> _]%andb_true_iff ->]. done.
Qed.

(** After an [enqueue] whose write failed, enqueueing the same revocation
    again reports success without writing the file, even when a write would
    succeed: the revocation is not in the file. *)
Theorem enqueue_retry_not_written JSON_parse reqId reqId' now now' io b o :
  js_find (same_target b) (items o) = None ->
  let o1 := step JSON_parse o (Enqueue reqId now false b) in
  enqueue reqId' now' io b o1 = (o1, Ok (new_item b reqId now)) /\ file o1 = file o.
Proof.
  intros H. simpl. unfold enqueue. rewrite H. simpl. split; [|done].
  rewrite js_find_app, H. simpl. by rewrite new_item_target.
Qed.

(** ** Witnesses *)

Definition demo_binding : RelayDeviceBinding :=
  {| relayHostId := "h"; relayDeviceId := "d"; ownerIdentityKey := "o"; inviteExpiresAt := None |}.
Definition demo_other : RelayDeviceBinding :=
  {| relayHostId := "h"; relayDeviceId := "d2"; ownerIdentityKey := "o"; inviteExpiresAt := None |}.
Definition demo_parse : string -> option json :=
  let a := new_item demo_other "r1" 5 in
  let b := new_item demo_binding "r2" 6 in
  parse_of [JArr []; JArr [a]; JArr [a; b]; JArr [b]].

Lemma revocation_queued_witness :
  js_filter (same_target demo_binding) (pendingFor "o" "h"
    (run demo_parse
      (step demo_parse (run demo_parse (RelayRevokeOutbox demo_parse None)
        [Enqueue "r1" 5 true demo_other]) (Enqueue "r2" 6 true demo_binding))
      [RestartProcess; Remove true "r1"; Enqueue "r3" 7 true demo_binding; RestartProcess]))
  = [new_item demo_binding "r2" 6].
Proof.
  apply (revocation_queued demo_parse).
  - vm_compute. reflexivity.
  - repeat constructor.
  - repeat (constructor; [vm_compute; reflexivity|]). constructor.
  - repeat (constructor; [vm_compute; reflexivity|]). constructor.
  - repeat constructor; congruence.
Defined.

Lemma enqueue_retry_not_written_witness :
  let o := RelayRevokeOutbox demo_parse None in
  let o1 := step demo_parse o (Enqueue "r1" 5 false demo_other) in
  (enqueue "r2" 6 true demo_other o1).2 = Ok (new_item demo_other "r1" 5) /\ file o1 = None.
Proof.
  intros o o1.
  destruct (enqueue_retry_not_written demo_parse "r1" "r2" 5 6 true demo_other o eq_refl) as [H1 H2].
  split; [exact (f_equal snd H1)|exact H2].
Defined.
