(* ===== verification/DemandLedger.v ===== *)
(** * The relay demand ledger (src/main/runtime/relay/relay-demand-ledger.ts)

    Whether the host has a reason to keep a relay connection: a transient hold,
    a pending revocation, or a paired device with a live binding. The state
    is the counter per hold key and, for every closure [acquireTransient]
    returned, its key and its [released] flag. The registry and the outbox are
    read only.

    Theorems: each counter is the number of holds not yet released, and demand
    does not change before the instant [nextPendingExpiry] returns. *)

From S2P Require Import Prelude JsMap Json DeviceRegistry RevokeOutbox.
From Stdlib Require Import QArith.

Local Open Scope string_scope.
Local Open Scope list_scope.
Local Open Scope Z_scope.

(** ** Comparison of JSON numbers *)

Definition finite_value (n : jsnum) : Q :=
  match n with
  | NInt z => inject_Z z
  | NFrac m e => Qmake m (10 ^ e)
  | NInf _ => 0
  end.

(** [a < b] *)
Definition jsnum_ltb (a b : jsnum) : bool :=
  match a, b with
  | NInf true, NInf true => false
  | NInf true, _ => true
  | NInf false, _ => false
  | _, NInf negative => negb negative
  | _, _ => negb (Qle_bool (finite_value b) (finite_value a))
  end.

Lemma jsnum_ltb_finite a b :
  (forall s, a ≠ NInf s) -> (forall s, b ≠ NInf s) ->
  jsnum_ltb a b = true <-> (finite_value a < finite_value b)%Q.
Proof.
  intros Ha Hb.
  assert (H : negb (Qle_bool (finite_value b) (finite_value a)) = true <->
              (finite_value a < finite_value b)%Q).
  { rewrite negb_true_iff, <-not_true_iff_false, Qle_bool_iff. split; [apply Qnot_le_lt|apply Qlt_not_le]. }
  destruct a as [| |s], b as [| |s']; try done; try (by destruct (Ha s)); by destruct (Hb s').
Qed.

(** [<] is a strict weak order: if [a < b] and not [c < b] then [a < c]. *)
Lemma jsnum_ltb_le a b c : jsnum_ltb a b = true -> jsnum_ltb c b = false -> jsnum_ltb a c = true.
Proof.
  intros H1 H2.
  destruct a as [| |[]], b as [| |[]], c as [| |[]]; try done;
    apply jsnum_ltb_finite in H1; try done;
    apply jsnum_ltb_finite; try done;
    (eapply Qlt_le_trans; [exact H1|]); apply Qnot_lt_le; intros H3;
    apply jsnum_ltb_finite in H3; try done; congruence.
Qed.

Lemma jsnum_ltb_int x y : jsnum_ltb (NInt x) (NInt y) = (x <? y).
Proof.
  apply eq_true_iff_eq. rewrite jsnum_ltb_finite by done. simpl.
  rewrite <-Zlt_Qlt. by rewrite Z.ltb_lt.
Qed.

(** ** State *)

Record Ledger := {
  transientRefs : jsmap string Z;
  closures : list (string * bool) }.

Definition new_ledger : Ledger := {| transientRefs := ∅; closures := [] |}.

Definition acquireTransient (key : string) (l : Ledger) : Ledger :=
  {| transientRefs := <[key := default 0 (transientRefs l !! key) + 1]> (transientRefs l);
     closures := closures l ++ [(key, false)] |}.

(** Calling the closure number [i]. *)
Definition release (i : nat) (l : Ledger) : Ledger :=
  match (closures l !! i : option (string * bool)) with
  | Some (key, released) =>
      if released then l
      else
        let count := default 0 (transientRefs l !! key) in
        {| transientRefs :=
             if count <=? 1 then delete key (transientRefs l)
             else <[key := count - 1]> (transientRefs l);
           closures := <[i := (key, true)]> (closures l) |}
  | None => l
  end.

(** ** Demand *)

(** [a !== s] on a property of the binding; [!binding] is [negb (truthy _)]. *)
Definition differs (k s : string) (binding : json) : bool :=
  negb (strict_eq (prop k binding) (Some (JStr s))).

(** [binding.inviteExpiresAt > now]; the registry only stores numbers there. *)
Definition expires_after (now : Z) (v : option json) : bool :=
  match v with Some (JNum n) => jsnum_ltb (NInt now) n | _ => false end.

Definition device_demand (owner host : string) (now : Z) (device : jsobj) : bool :=
  match get "relayBinding" device with
  | Some binding =>
      if negb (strict_eq (get "scope" device) (scope_value Mobile)) ||
         negb (truthy (Some binding)) ||
         differs "ownerIdentityKey" owner binding ||
         differs "relayHostId" host binding
      then false
      else match prop "inviteExpiresAt" binding with
           | None => true
           | v => expires_after now v
           end
  | None => false
  end.

Definition hasDemand (registry : Registry) (outbox : Outbox) (relayHostId : string) (now : Z)
    (ownerIdentityKey : string) (l : Ledger) : bool :=
  if 0 <? jm_size (transientRefs l) then true
  else if negb (Nat.eqb (length (pendingFor ownerIdentityKey relayHostId outbox)) 0) then true
  else existsb (device_demand ownerIdentityKey relayHostId now) (listDevices registry).

(** One iteration of the loop of [nextPendingExpiry]. *)
Definition next_expiry_step (now : Z) (next : option jsnum) (device : jsobj) : option jsnum :=
  match mjoin (prop "inviteExpiresAt" <$> get "relayBinding" device) with
  | Some (JNum expiresAt) =>
      if truthy (Some (JNum expiresAt)) && jsnum_ltb (NInt now) expiresAt &&
         match next with None => true | Some n => jsnum_ltb expiresAt n end
      then Some expiresAt else next
  | _ => next
  end.

Definition nextPendingExpiry (registry : Registry) (now : Z) : option jsnum :=
  foldl (next_expiry_step now) None (listDevices registry).

(** ** Reference counts *)

Inductive event := Acquire (key : string) | Release (i : nat).
Definition step (l : Ledger) (e : event) : Ledger :=
  match e with Acquire key => acquireTransient key l | Release i => release i l end.
Definition run (es : list event) : Ledger := foldl step new_ledger es.

(** The number of closures of a key not called yet. *)
Definition held (key : string) (cs : list (string * bool)) : nat :=
  length (js_filter (fun c => String.eqb (fst c) key && negb (snd c)) cs).

Definition refs_ok (l : Ledger) : Prop :=
  jm_wf (transientRefs l) /\
  forall key, transientRefs l !! key =
    match held key (closures l) with O => None | n => Some (Z.of_nat n) end.

Lemma held_app key cs1 cs2 : held key (cs1 ++ cs2) = (held key cs1 + held key cs2)%nat.
Proof. unfold held. by rewrite js_filter_app, length_app. Qed.

Lemma held_new key k : held key [(k, false)] = if decide (k = key) then 1%nat else 0%nat.
Proof. unfold held. simpl. destruct (String.eqb_spec k key); by case_decide. Qed.

Lemma held_insert key cs i k :
  cs !! i = Some (k, false) ->
  held key cs = (held key (<[i := (k, true)]> cs) + if decide (k = key) then 1 else 0)%nat.
Proof.
  revert i. induction cs as [|[k' b] cs IH]; intros [|i]; simpl; try done.
  - intros [= -> ->]. unfold held. simpl.
    destruct (String.eqb_spec k key); case_decide; simpl; try done; lia.
  - intros H. specialize (IH i H). unfold held in *. simpl.
    destruct (_ && _); simpl; lia.
Qed.

Lemma refs_ok_step l e : refs_ok l -> refs_ok (step l e).
Proof.
  intros [Hwf Hr]. destruct e as [k|i]; simpl.
  - split; [by apply jm_wf_insert|]. intros key. simpl.
    rewrite jm_lookup_insert, held_app, held_new, !Hr.
    case_decide as Hk.
    + subst key. rewrite Nat.add_1_r.
      destruct (held k (closures l)); cbn [from_option]; unfold id; f_equal; lia.
    + by rewrite Nat.add_0_r.
  - unfold release. destruct (closures l !! i) as [[k []]|] eqn:Hi; [done| |done].
    pose proof (fun key => held_insert key _ _ _ Hi) as Hh. split; simpl.
    + case_match; [by apply jm_wf_delete|by apply jm_wf_insert].
    + intros key. pose proof (Hh key) as Hkey. pose proof (Hh k) as Hk.
      rewrite decide_True in Hk by done.
      assert (Hc : default 0 (transientRefs l !! k) = Z.of_nat (held k (closures l)))
        by (rewrite Hr; by destruct (held k (closures l))).
      rewrite Hc. destruct (Z.leb_spec (Z.of_nat (held k (closures l))) 1).
      * rewrite jm_lookup_delete. case_decide as Heq.
        -- subst key. destruct (held k (<[i:=(k, true)]> (closures l))) eqn:E; [done|lia].
        -- rewrite Hr, Hkey. try rewrite decide_False by done. by rewrite Nat.add_0_r.
      * rewrite jm_lookup_insert. case_decide as Heq.
        -- subst key. destruct (held k (<[i:=(k, true)]> (closures l))) eqn:E; [lia|].
           f_equal. lia.
        -- rewrite Hr, Hkey. try rewrite decide_False by done. by rewrite Nat.add_0_r.
Qed.

Lemma refs_ok_run es : refs_ok (run es).
Proof.
  unfold run. assert (H : refs_ok new_ledger) by (split; [apply jm_wf_empty|done]).
  revert H. generalize new_ledger. induction es as [|e es IH]; intros l H; simpl; [done|].
  apply IH. by apply refs_ok_step.
Qed.

(** After any calls of [acquireTransient] and of the closures it returned,
    in any order and repeated, the counter of every key is the number of its
    closures not called yet, and a key without any has no entry. *)
Theorem transient_counts es key :
  transientRefs (run es) !! key =
  match held key (closures (run es)) with O => None | n => Some (Z.of_nat n) end.
Proof. apply refs_ok_run. Qed.


(** ** The next expiry *)

(** [n] is at most [m]. *)
Definition jsnum_le (n m : jsnum) : Prop := jsnum_ltb m n = false.

Lemma jsnum_lt_le n m : jsnum_ltb n m = true -> jsnum_le n m.
Proof.
  unfold jsnum_le. intros H. destruct (jsnum_ltb m n) eqn:H'; [|done]. exfalso.
  destruct n as [| |[]], m as [| |[]]; try done;
    apply jsnum_ltb_finite in H, H'; try done; by apply (Qlt_irrefl _ (Qlt_trans _ _ _ H H')).
Qed.

Lemma jsnum_le_refl n : jsnum_le n n.
Proof.
  unfold jsnum_le. destruct (jsnum_ltb n n) eqn:H; [|done].
  pose proof (jsnum_lt_le _ _ H) as H'. unfold jsnum_le in H'. congruence.
Qed.

Lemma jsnum_le_trans n m p : jsnum_le n m -> jsnum_le m p -> jsnum_le n p.
Proof.
  unfold jsnum_le. intros H1 H2. destruct (jsnum_ltb p n) eqn:H; [|done].
  pose proof (jsnum_ltb_le p n m H H1). congruence.
Qed.

Definition below (n : jsnum) (next : option jsnum) : Prop :=
  exists m, next = Some m /\ jsnum_le m n.

(** A step keeps a bound it had and takes the device's own expiry as one. *)
Lemma next_expiry_step_keeps now next d n :
  below n next -> below n (next_expiry_step now next d).
Proof.
  intros (m & -> & Hm). unfold next_expiry_step.
  destruct (mjoin _) as [[| |x| | |]|]; try (by exists m).
  destruct (truthy _ && _ && jsnum_ltb x m) eqn:E; [|by exists m].
  apply andb_true_iff in E as [_ E]. exists x. split; [done|].
  apply (jsnum_le_trans _ m); [by apply jsnum_lt_le|done].
Qed.

Lemma next_expiry_step_takes now next d n :
  mjoin (prop "inviteExpiresAt" <$> get "relayBinding" d) = Some (JNum n) ->
  truthy (Some (JNum n)) = true -> jsnum_ltb (NInt now) n = true ->
  below n (next_expiry_step now next d).
Proof.
  intros Hn Ht Hlt. unfold next_expiry_step. rewrite Hn, Hlt, Ht. simpl.
  destruct next as [m|]; [destruct (jsnum_ltb n m) eqn:E|];
    [exists n|exists m|exists n]; auto using jsnum_le_refl.
Qed.

Lemma nextPendingExpiry_below registry now d n :
  d ∈ listDevices registry ->
  mjoin (prop "inviteExpiresAt" <$> get "relayBinding" d) = Some (JNum n) ->
  truthy (Some (JNum n)) = true -> jsnum_ltb (NInt now) n = true ->
  below n (nextPendingExpiry registry now).
Proof.
  intros Hd Hn Ht Hlt. unfold nextPendingExpiry.
  apply list_elem_of_split in Hd as (ds1 & ds2 & ->).
  rewrite foldl_app. simpl.
  assert (H := next_expiry_step_takes now (foldl (next_expiry_step now) None ds1) d n Hn Ht Hlt).
  revert H. generalize (next_expiry_step now (foldl (next_expiry_step now) None ds1) d).
  induction ds2 as [|d' ds2 IH]; intros next H; simpl; [done|].
  apply IH. by apply next_expiry_step_keeps.
Qed.

(** Until the instant [nextPendingExpiry] returned, the demand of any owner
    on any host is what it was: waking up at that instant misses no change. *)
Theorem demand_stable registry outbox host owner l now t :
  0 <= now <= t ->
  (forall next, nextPendingExpiry registry now = Some next -> jsnum_ltb (NInt t) next = true) ->
  hasDemand registry outbox host t owner l = hasDemand registry outbox host now owner l.
Proof.
  intros Ht Hnext. unfold hasDemand. do 2 (case_match; [done|]).
  apply eq_true_iff_eq. rewrite !existsb_exists.
  enough (Hd : forall d, d ∈ listDevices registry ->
    device_demand owner host t d = device_demand owner host now d).
  { split; intros (d & Hin & Hdd); exists d; (split; [done|]);
      apply list_elem_of_In in Hin; rewrite <-Hdd; by rewrite Hd. }
  intros d Hin. unfold device_demand. destruct (get "relayBinding" d) as [b|] eqn:Hb; [|done].
  destruct (_ || _); [done|].
  destruct (prop "inviteExpiresAt" b) as [[| |n| | |]|] eqn:Hn; try done.
  change (jsnum_ltb (NInt t) n = jsnum_ltb (NInt now) n).
  destruct (jsnum_ltb (NInt now) n) eqn:Hlt.
  - assert (Htr : truthy (Some (JNum n)) = true).
    { destruct n as [z| |]; try done. rewrite jsnum_ltb_int in Hlt. bool_to_prop. simpl.
      destruct (Z.eqb_spec z 0); [lia|done]. }
    destruct (nextPendingExpiry_below registry now d n Hin) as (m & Hm & Hle);
      [by rewrite Hb|done|done|].
    apply (jsnum_ltb_le _ m); [by apply Hnext|exact Hle].
  - destruct (jsnum_ltb (NInt t) n) eqn:E; [|done].
    assert (Hc : jsnum_ltb (NInt t) (NInt now) = true) by (by apply (jsnum_ltb_le _ n)).
    rewrite jsnum_ltb_int in Hc. bool_to_prop. lia.
Qed.

Definition demo_registry : Registry :=
  {| devices := [<["relayBinding" := Some (binding_json
       {| relayHostId := "h"; relayDeviceId := "d"; ownerIdentityKey := "o";
          inviteExpiresAt := Some (NInt 100) |})]>
       (new_entry {| uuid := "d"; token := "t"; now := 1 |} "phone" Mobile)];
     DeviceRegistry.file := None |}.
Definition demo_outbox : Outbox := {| items := []; file := None |}.

Lemma demand_stable_witness :
  nextPendingExpiry demo_registry 10 = Some (NInt 100) /\
  hasDemand demo_registry demo_outbox "h" 100 "o" new_ledger = false /\
  hasDemand demo_registry demo_outbox "h" 99 "o" new_ledger
  = hasDemand demo_registry demo_outbox "h" 10 "o" new_ledger /\
  hasDemand demo_registry demo_outbox "h" 10 "o" new_ledger = true.
Proof.
  split; [vm_compute; reflexivity|]. split; [vm_compute; reflexivity|].
  split; [|vm_compute; reflexivity].
  apply (demand_stable demo_registry demo_outbox "h" "o" new_ledger 10 99); [lia|].
  vm_compute. intros next [= <-]. reflexivity.
Defined.
