(* ===== verification/ControlRequests.v ===== *)
(** * Requests on the control channel
    (src/main/runtime/relay/relay-control-requests.ts)

    Every call of [request] creates a promise, numbered in order, and a timer of
    the same number. [settled] lists the calls of [resolve] and [reject] in
    order, [timers] the armed timers with their deadline and the request they
    belong to. The Zod schemas are parameters.

    Theorems: every promise settles exactly once or is pending, a timer is
    armed exactly while its request is pending, and no request outlives its
    ten seconds once the due timers have fired. *)

From S2P Require Import Prelude JsMap Json.

Local Open Scope string_scope.
Local Open Scope list_scope.
Local Open Scope Z_scope.

Inductive RequestKind := Invite | Revoke | Install | InstallStatus | Confirm.

Record PendingRequest := { kind : RequestKind; promise : nat; timer : nat }.

Inductive outcome := Resolved (value : option json) | Rejected (message : string).

Record RelayControlRequests := {
  pending : jsmap string PendingRequest;
  timers : jsmap nat (Z * string);
  next_promise : nat;
  settled : list (nat * outcome) }.
Implicit Types s : RelayControlRequests.

Definition new_requests : RelayControlRequests :=
  {| pending := ∅; timers := ∅; next_promise := 0; settled := [] |}.

Definition REQUEST_TIMEOUT : Z := 10000.

(** What the schemas of [relay-control-protocol.ts] accept: the code of a
    control error, the data of the answer to a request of each kind. *)
Class Schemas := {
  RelayControlErrorMessageSchema : json -> option string;
  answer_schema : RequestKind -> json -> option json }.

(** [finish(reqId)] *)
Definition finish (reqId : string) s : RelayControlRequests :=
  match pending s !! reqId with
  | Some p =>
      {| pending := delete reqId (pending s); timers := delete (timer p) (timers s);
         next_promise := next_promise s; settled := settled s |}
  | None => s
  end.

(** [pending.resolve(...)] and [pending.reject(...)] *)
Definition settle_promise (i : nat) (o : outcome) s : RelayControlRequests :=
  {| pending := pending s; timers := timers s; next_promise := next_promise s;
     settled := settled s ++ [(i, o)] |}.

(** The state in which [send(payload)] runs: the request is registered. *)
Definition register (now : Z) (reqId : string) (k : RequestKind) s : RelayControlRequests :=
  let i := next_promise s in
  {| pending := <[reqId := {| kind := k; promise := i; timer := i |}]> (pending s);
     timers := <[i := (now + REQUEST_TIMEOUT, reqId)]> (timers s);
     next_promise := S i; settled := settled s |}.

(** [request(reqId, kind, payload, send)]; [sent] is how [send] ended. The
    promise returned is number [next_promise s]. *)
Definition request (now : Z) (reqId : string) (k : RequestKind) (sent : result unit) s
    : RelayControlRequests :=
  if jm_has reqId (pending s) then
    settle_promise (next_promise s) (Rejected "duplicate_relay_request_id")
      {| pending := pending s; timers := timers s; next_promise := S (next_promise s);
         settled := settled s |}
  else
    let i := next_promise s in
    let s := register now reqId k s in
    match sent with
    | Ok _ => s
    | Throw error => settle_promise i (Rejected error) (finish reqId s)
    end.

(** The timer callback of promise [i]. *)
Definition timer_fires (i : nat) s : RelayControlRequests :=
  match timers s !! i with
  | Some (_, reqId) =>
      settle_promise i (Rejected "relay_control_request_timeout")
        {| pending := delete reqId (pending s); timers := delete i (timers s);
           next_promise := next_promise s; settled := settled s |}
  | None => s
  end.

Definition resolveMessage `{Schemas} (message : json) s : RelayControlRequests * bool :=
  match as_string (prop "reqId" message) with
  | None => (s, false)
  | Some reqId =>
      match (if String.eqb reqId "" then None else pending s !! reqId) with
      | None => (s, false)
      | Some p =>
          match RelayControlErrorMessageSchema message with
          | Some code => (settle_promise (promise p) (Rejected code) (finish reqId s), true)
          | None =>
              match answer_schema (kind p) message with
              | None => (s, false)
              | Some data =>
                  let value := match kind p with Revoke => None | _ => Some data end in
                  (settle_promise (promise p) (Resolved value) (finish reqId s), true)
              end
          end
      end
  end.

(** [rejectAll(error)]: the loop deletes the entry it visits. *)
Definition rejectAll (error : string) s : RelayControlRequests :=
  foldl (fun s '(reqId, p) => settle_promise (promise p) (Rejected error) (finish reqId s))
    s (jm_entries (pending s)).

(** The payload of each public method. *)
Definition createInvite_payload (reqId relayDeviceId : string) : json :=
  JObj [("type", JStr "invite-create"); ("reqId", JStr reqId); ("relayDeviceId", JStr relayDeviceId)].
Definition revokeDevice_payload (reqId relayDeviceId : string) : json :=
  JObj [("type", JStr "device-revoke"); ("reqId", JStr reqId); ("relayDeviceId", JStr relayDeviceId)].
Definition installCredential_payload (reqId : string) (input : list (string * json)) : json :=
  JObj ([("type", JStr "device-credential-install"); ("v", JNum (NInt 1)); ("reqId", JStr reqId)]
        ++ input).
Definition credentialInstallStatus_payload (reqId relayDeviceId : string) : json :=
  JObj [("type", JStr "device-credential-install-status"); ("v", JNum (NInt 1));
        ("reqId", JStr reqId); ("relayDeviceId", JStr relayDeviceId)].
Definition confirmResume_payload (reqId basisConnId : string) : json :=
  JObj [("type", JStr "device-resume-confirm"); ("v", JNum (NInt 1)); ("reqId", JStr reqId);
        ("basisConnId", JStr basisConnId)].

(** ** Invariant *)

Record requests_ok s : Prop := {
  r_pending_wf : jm_wf (pending s);
  r_timers_wf : jm_wf (timers s);
  r_timer : forall r p, pending s !! r = Some p ->
    timer p = promise p /\ exists d, timers s !! promise p = Some (d, r);
  r_armed : forall i d r, timers s !! i = Some (d, r) ->
    exists p, pending s !! r = Some p /\ promise p = i;
  r_partition :
    map fst (settled s) ++ map promise (jm_values (pending s)) ≡ₚ seq 0 (next_promise s) }.

Lemma requests_ok_new : requests_ok new_requests.
Proof. split; try done; apply jm_wf_empty. Qed.

(** What settling a pending request leaves. *)
Definition settled_state (r : string) (p : PendingRequest) (o : outcome) s : RelayControlRequests :=
  {| pending := delete r (pending s); timers := delete (promise p) (timers s);
     next_promise := next_promise s; settled := settled s ++ [(promise p, o)] |}.

Lemma settle_ok r p o s :
  requests_ok s -> pending s !! r = Some p -> requests_ok (settled_state r p o s).
Proof.
  intros [Hw1 Hw2 Ht Ha Hp] Hr.
  destruct (Ht r p Hr) as [_ [d Hd]].
  assert (Hother : forall r' p', r' ≠ r -> pending s !! r' = Some p' -> promise p' ≠ promise p).
  { intros r' p' Hne Hp' Heq. destruct (Ht r' p' Hp') as [_ [d' Hd']]. congruence. }
  split; simpl.
  - by apply jm_wf_delete.
  - by apply jm_wf_delete.
  - intros r' p'. rewrite jm_lookup_delete. case_decide as Hne; [done|]. intros Hp'.
    destruct (Ht r' p' Hp') as [? [d' Hd']]. split; [done|]. exists d'.
    rewrite jm_lookup_delete_ne; [done|]. intros Heq. by apply (Hother r' p').
  - intros i d' r'. rewrite jm_lookup_delete. case_decide as Hne; [done|]. intros Hi.
    destruct (Ha i d' r' Hi) as (p' & Hp' & <-). exists p'. split; [|done].
    rewrite jm_lookup_delete_ne; [done|]. intros ->. congruence.
  - rewrite <-Hp. pose proof (jm_delete_perm _ _ _ Hw1 Hr) as Hperm.
    apply (fmap_Permutation (fun x => promise x.2)) in Hperm.
    unfold jm_values. rewrite map_app. simpl. rewrite <-(app_assoc _ [_]). apply Permutation_app_head.
    rewrite !list_fmap_compose in Hperm || rewrite !map_map.
    symmetry. exact Hperm.
Qed.

Lemma finish_settle r p o s :
  requests_ok s -> pending s !! r = Some p ->
  settle_promise (promise p) o (finish r s) = settled_state r p o s.
Proof.
  intros Hok Hr. destruct (r_timer s Hok r p Hr) as [Ht _].
  unfold finish. rewrite Hr. unfold settled_state, settle_promise. simpl. by rewrite Ht.
Qed.

Lemma timer_settle i d r p o s :
  timers s !! i = Some (d, r) -> promise p = i ->
  settle_promise i o
    {| pending := delete r (pending s); timers := delete i (timers s);
       next_promise := next_promise s; settled := settled s |} = settled_state r p o s.
Proof. intros H <-. done. Qed.

(** The next promise is none of those made so far. *)
Lemma promise_lt r p s : requests_ok s -> pending s !! r = Some p -> (promise p < next_promise s)%nat.
Proof.
  intros Hok Hr%jm_lookup_values.
  assert (Hin : promise p ∈ map fst (settled s) ++ map promise (jm_values (pending s))).
  { apply elem_of_app. right. by apply list_elem_of_fmap_2. }
  rewrite (r_partition s Hok) in Hin. apply elem_of_seq in Hin. lia.
Qed.

Lemma timer_lt i d r s : requests_ok s -> timers s !! i = Some (d, r) -> (i < next_promise s)%nat.
Proof.
  intros Hok Hi. destruct (r_armed s Hok i d r Hi) as (p & Hp & <-). by apply (promise_lt r).
Qed.

Lemma next_seq s :
  0%nat :: seq 1 (next_promise s) = seq 0 (next_promise s) ++ [next_promise s].
Proof. apply (seq_S (next_promise s) 0). Qed.

Lemma register_ok now r k s :
  requests_ok s -> pending s !! r = None -> requests_ok (register now r k s).
Proof.
  intros Hok Hr. pose proof Hok as [Hw1 Hw2 Ht Ha Hp].
  assert (Hfresh : timers s !! next_promise s = None).
  { destruct (timers s !! next_promise s) as [[d r']|] eqn:E; [|done].
    pose proof (timer_lt _ _ _ _ Hok E). lia. }
  split; simpl.
  - by apply jm_wf_insert.
  - by apply jm_wf_insert.
  - intros r' p'. rewrite jm_lookup_insert. case_decide as Heq.
    + intros [= <-]. subst r'. split; [done|]. simpl. exists (now + REQUEST_TIMEOUT).
      apply jm_lookup_insert_eq.
    + intros Hp'. destruct (Ht r' p' Hp') as [? [d Hd]]. split; [done|]. exists d.
      rewrite jm_lookup_insert_ne; [done|]. intros Hn. rewrite <-Hn in Hd. congruence.
  - intros i d r'. rewrite jm_lookup_insert. case_decide as Heq.
    + intros [= <- <-]. eexists. split; [apply jm_lookup_insert_eq|]. by simpl.
    + intros Hi. destruct (Ha i d r' Hi) as (p' & Hp' & <-). exists p'. split; [|done].
      rewrite jm_lookup_insert_ne; [done|]. congruence.
  - unfold jm_values. rewrite jm_insert_fresh by done. rewrite fmap_app, map_app, app_assoc, next_seq.
    by rewrite <-Hp.
Qed.

Lemma reject_new_ok o s :
  requests_ok s ->
  requests_ok (settle_promise (next_promise s) o
    {| pending := pending s; timers := timers s; next_promise := S (next_promise s);
       settled := settled s |}).
Proof.
  intros [Hw1 Hw2 Ht Ha Hp]. split; try done. simpl. rewrite map_app, next_seq, <-Hp. simpl. rewrite <-!app_assoc. apply Permutation_app_head.
  apply Permutation_app_comm.
Qed.

Lemma request_ok now r k sent s : requests_ok s -> requests_ok (request now r k sent s).
Proof.
  intros Hok. unfold request, jm_has. destruct (pending s !! r) eqn:Hr.
  - by apply reject_new_ok.
  - pose proof (register_ok now r k s Hok Hr) as Hreg. destruct sent as [_u|e]; [done|].
    assert (Hp : pending (register now r k s) !! r =
      Some {| kind := k; promise := next_promise s; timer := next_promise s |})
      by apply jm_lookup_insert_eq.
    pose proof (finish_settle r _ (Rejected e) _ Hreg Hp) as Hf. cbn [promise] in Hf.
    rewrite Hf. by apply settle_ok.
Qed.

Lemma timer_fires_ok i s : requests_ok s -> requests_ok (timer_fires i s).
Proof.
  intros Hok. unfold timer_fires. destruct (timers s !! i) as [[d r]|] eqn:Hi; [|done].
  destruct (r_armed s Hok i d r Hi) as (p & Hp & Hi').
  rewrite (timer_settle i d r p) by done. by apply settle_ok.
Qed.

Lemma resolveMessage_ok `{Schemas} message s :
  requests_ok s -> requests_ok (resolveMessage message s).1.
Proof.
  intros Hok. unfold resolveMessage. destruct (as_string _) as [r|]; [|done].
  destruct (if String.eqb r "" then None else pending s !! r) as [p|] eqn:Hr; [|done].
  assert (Hp : pending s !! r = Some p) by (by destruct (String.eqb r "")).
  destruct (RelayControlErrorMessageSchema message); simpl.
  - rewrite finish_settle by done. by apply settle_ok.
  - destruct (answer_schema _ _); simpl; [|done].
    rewrite finish_settle by done. by apply settle_ok.
Qed.

(** ** [rejectAll] *)

Lemma jm_entries_delete_head {K V} `{EqDecision K} (m : jsmap K V) k v l :
  jm_wf m -> jm_entries m = (k, v) :: l -> m !! k = Some v /\ jm_entries (delete k m) = l.
Proof.
  destruct m as [l']. unfold jm_wf, jm_keys, lookup, jm_lookup, delete, jm_delete. simpl.
  intros Hwf ->. simpl in *. rewrite !decide_True by done. split; [done|].
  apply NoDup_cons in Hwf as [? ?]. by apply al_delete_notin.
Qed.

(** It rejects the pending promises in the order they were made pending. *)
Lemma rejectAll_spec error s :
  requests_ok s ->
  requests_ok (rejectAll error s) /\
  jm_entries (pending (rejectAll error s)) = [] /\
  settled (rejectAll error s) =
    settled s ++ map (fun p => (promise p, Rejected error)) (jm_values (pending s)) /\
  next_promise (rejectAll error s) = next_promise s.
Proof.
  unfold rejectAll. intros Hok. unfold jm_values.
  remember (jm_entries (pending s)) as l eqn:Hl. symmetry in Hl.
  revert s Hok Hl. induction l as [|[r p] l IH]; intros s Hok Hl; cbn [foldl].
  - simpl. by rewrite app_nil_r.
  - destruct (jm_entries_delete_head _ r p l (r_pending_wf s Hok) Hl) as [Hp Hrest].
    rewrite (finish_settle r p (Rejected error) s Hok Hp).
    destruct (IH (settled_state r p (Rejected error) s)) as (H1 & H2 & H3 & H4);
      [by apply settle_ok|done|].
    split; [done|]. split; [done|]. split; [|done].
    rewrite H3. simpl. by rewrite <-app_assoc.
Qed.

Lemma no_pending_no_timers s :
  requests_ok s -> jm_entries (pending s) = [] -> jm_entries (timers s) = [].
Proof.
  intros Hok Hp. destruct (jm_entries (timers s)) as [|[i [d r]] l] eqn:E; [done|]. exfalso.
  destruct (jm_entries_delete_head _ i (d, r) l (r_timers_wf s Hok) E) as [Hi _].
  destruct (r_armed s Hok i d r Hi) as (p & Hr & _). apply jm_lookup_Some_elem in Hr.
  rewrite Hp in Hr. by apply elem_of_nil in Hr.
Qed.

(** ** Runs *)

Inductive event :=
  | Request (now : Z) (reqId : string) (k : RequestKind) (sent : result unit)
  | Message (message : json)
  | RejectAll (error : string)
  | TimerFires (i : nat).

Definition step `{Schemas} s (e : event) : RelayControlRequests :=
  match e with
  | Request now reqId k sent => request now reqId k sent s
  | Message m => (resolveMessage m s).1
  | RejectAll error => rejectAll error s
  | TimerFires i => timer_fires i s
  end.
Definition run `{Schemas} (es : list event) : RelayControlRequests := foldl step new_requests es.

Lemma requests_step_ok `{Schemas} s e : requests_ok s -> requests_ok (step s e).
Proof.
  intros Hok. destruct e; simpl; auto using request_ok, resolveMessage_ok, timer_fires_ok.
  by apply rejectAll_spec.
Qed.

Lemma requests_run_ok `{Schemas} es : requests_ok (run es).
Proof.
  unfold run. pose proof requests_ok_new as H0. revert H0. generalize new_requests.
  induction es as [|e es IH]; intros s Hs; simpl; [done|]. apply IH. by apply requests_step_ok.
Qed.

(** C34. In every run the promises split into those settled, each by exactly one
    call of [resolve] or [reject], and those pending, each under one request id
    with its own timer armed; no other timer is armed. *)
Theorem requests_settle_once `{Schemas} es :
  let s := run es in
  map fst (settled s) ++ map promise (jm_values (pending s)) ≡ₚ seq 0 (next_promise s) /\
  NoDup (map fst (settled s)) /\
  (forall i, is_Some (timers s !! i) <->
     exists r p, pending s !! r = Some p /\ promise p = i /\ timer p = i).
Proof.
  intros s. pose proof (requests_run_ok es) as Hok. split; [apply Hok|]. split.
  - assert (Hnd : NoDup (map fst (settled s) ++ map promise (jm_values (pending s)))).
    { rewrite (r_partition s Hok). apply NoDup_seq. }
    by apply NoDup_app in Hnd as [? _].
  - intros i. split.
    + intros [[d r] Hi]. destruct (r_armed s Hok i d r Hi) as (p & Hp & Hpi).
      exists r, p. split; [done|]. split; [done|].
      destruct (r_timer s Hok r p Hp) as [-> _]. done.
    + intros (r & p & Hp & <- & _). destruct (r_timer s Hok r p Hp) as [_ [d Hd]]. by eexists.
Qed.

(** ** Time-outs *)

(** The event loop runs the callbacks of the timers that are due. *)
Definition fire_due (now : Z) s : RelayControlRequests :=
  foldl (fun s i => timer_fires i s) s
    (map fst (js_filter (fun x => fst (snd x) <=? now) (jm_entries (timers s)))).

Lemma timer_fires_timers i s j :
  timers (timer_fires i s) !! j = if decide (i = j) then None else timers s !! j.
Proof.
  unfold timer_fires. destruct (timers s !! i) as [[d r]|] eqn:Hi; simpl.
  - by rewrite jm_lookup_delete.
  - case_decide; [by subst|done].
Qed.

Lemma fire_all ids s j :
  timers (foldl (fun s i => timer_fires i s) s ids) !! j = None \/
  ((j ∉ ids) /\ timers (foldl (fun s i => timer_fires i s) s ids) !! j = timers s !! j).
Proof.
  revert s. induction ids as [|i ids IH]; intros s; simpl; [right; by split; [apply not_elem_of_nil|]|].
  destruct (IH (timer_fires i s)) as [H|[Hni H]]; [by left|].
  rewrite timer_fires_timers in H. case_decide as Hij; [by left|]. right. split; [|done].
  rewrite not_elem_of_cons. split; [congruence|done].
Qed.

Lemma fire_all_ok ids s : requests_ok s -> requests_ok (foldl (fun s i => timer_fires i s) s ids).
Proof. revert s. induction ids; intros s Hs; simpl; [done|]. auto using timer_fires_ok. Qed.

(** The deadlines set so far are within ten seconds of the calls' clock. *)
Definition called_by (now : Z) (e : event) : Prop :=
  match e with Request t _ _ _ => t <= now | _ => True end.

Lemma deadline_bound `{Schemas} es now i d r :
  Forall (called_by now) es -> timers (run es) !! i = Some (d, r) -> d <= now + REQUEST_TIMEOUT.
Proof.
  assert (Hdel : forall (m : jsmap nat (Z * string)) k,
    Forall (fun x => x.1 <= now + REQUEST_TIMEOUT) (jm_values m) ->
    Forall (fun x => x.1 <= now + REQUEST_TIMEOUT) (jm_values (delete k m)))
    by (intros; by apply jm_Forall_delete).
  assert (Hfin : forall r s, Forall (fun x => x.1 <= now + REQUEST_TIMEOUT) (jm_values (timers s)) ->
    Forall (fun x => x.1 <= now + REQUEST_TIMEOUT) (jm_values (timers (finish r s)))).
  { intros r' s Hs. unfold finish. destruct (pending s !! r'); simpl; auto. }
  intros Hes Hi. apply jm_lookup_values in Hi.
  enough (Hall : Forall (fun x => x.1 <= now + REQUEST_TIMEOUT) (jm_values (timers (run es)))).
  { rewrite Forall_forall in Hall. by apply (Hall (d, r)). }
  clear Hi. unfold run. assert (H0 : Forall (fun x => x.1 <= now + REQUEST_TIMEOUT)
    (jm_values (timers new_requests))) by constructor.
  revert H0. generalize new_requests. induction Hes as [|e es He _ IH]; intros s Hs; simpl; [done|].
  apply IH. destruct e as [t r' k sent|m|err|j]; simpl in *.
  - unfold request. destruct (jm_has _ _); simpl; [done|].
    assert (Hreg : Forall (fun x => x.1 <= now + REQUEST_TIMEOUT)
      (jm_values (timers (register t r' k s)))).
    { apply jm_Forall_insert; [done|]. simpl. lia. }
    destruct sent; [done|]. simpl. by apply Hfin.
  - unfold resolveMessage. repeat (case_match; simpl; try done); by apply Hfin.
  - unfold rejectAll. clear -Hs Hfin. revert s Hs.
    enough (forall l s, Forall (fun x => x.1 <= now + REQUEST_TIMEOUT) (jm_values (timers s)) ->
      Forall (fun x => x.1 <= now + REQUEST_TIMEOUT) (jm_values (timers
        (foldl (fun s '(reqId, p) => settle_promise (promise p) (Rejected err) (finish reqId s)) s l))))
      by auto.
    induction l as [|[r' p] l IH]; intros s Hs; simpl; [done|]. apply IH. simpl. by apply Hfin.
  - unfold timer_fires. destruct (timers s !! j) as [[d' r']|]; simpl; auto.
Qed.

(** Ten seconds after the last call, once the event loop has run the due
    timers, every promise ever returned has settled, each once. *)
Theorem requests_time_out `{Schemas} es now :
  Forall (called_by now) es ->
  let s := fire_due (now + REQUEST_TIMEOUT) (run es) in
  jm_entries (pending s) = [] /\ map fst (settled s) ≡ₚ seq 0 (next_promise (run es)).
Proof.
  intros Hes s. pose proof (requests_run_ok es) as Hok.
  assert (Hs : requests_ok s) by (by apply fire_all_ok).
  assert (Hnone : jm_entries (pending s) = []).
  { destruct (jm_entries (pending s)) as [|[r p] l] eqn:E; [done|]. exfalso.
    destruct (jm_entries_delete_head _ r p l (r_pending_wf s Hs) E) as [Hp _].
    destruct (r_timer s Hs r p Hp) as [_ [d Hd]]. unfold s, fire_due in Hd.
    destruct (fire_all (map fst (js_filter (fun x => fst (snd x) <=? now + REQUEST_TIMEOUT)
      (jm_entries (timers (run es))))) (run es) (promise p)) as [H0|[Hni H0]]; [congruence|].
    rewrite H0 in Hd. apply Hni. apply list_elem_of_fmap. exists (promise p, (d, r)).
    split; [done|]. apply elem_of_js_filter. split; [by apply jm_lookup_Some_elem|].
    simpl. apply Z.leb_le. by eapply deadline_bound. }
  split; [done|]. pose proof (r_partition s Hs) as Hp. unfold jm_values in Hp.
  rewrite Hnone in Hp. simpl in Hp. rewrite app_nil_r in Hp. rewrite Hp. f_equiv.
  unfold s, fire_due. generalize (map fst (js_filter (fun x => fst (snd x) <=? now + REQUEST_TIMEOUT)
    (jm_entries (timers (run es))))) as ids. generalize (run es) as s0. clear.
  intros s0 ids. revert s0. induction ids as [|i ids IH]; intros s0; simpl; [done|].
  rewrite IH. unfold timer_fires. by destruct (timers s0 !! i) as [[d r]|].
Qed.

(** ** Witness *)

Definition demo_schemas : Schemas :=
  {| RelayControlErrorMessageSchema m := as_string (prop "code" m);
     answer_schema k m :=
       match as_string (prop "type" m) with
       | Some "invite-created" => Some m
       | _ => None
       end |}.
Definition demo_events : list event :=
  [Request 0 "a" Invite (Ok tt); Request 5 "b" Revoke (Ok tt); Request 6 "a" Confirm (Ok tt);
   Request 7 "c" Install (Throw "relay_control_not_active");
   Message (JObj [("type", JStr "invite-created"); ("reqId", JStr "a")])].

Lemma requests_time_out_witness :
  jm_size (pending (run (H := demo_schemas) demo_events)) = 1 /\
  map fst (settled (fire_due (7 + REQUEST_TIMEOUT) (run (H := demo_schemas) demo_events)))
  ≡ₚ seq 0 4.
Proof.
  split; [vm_compute; reflexivity|].
  apply (requests_time_out (H := demo_schemas) demo_events 7).
  repeat constructor; simpl; lia.
Defined.
