(* ===== verification/ControlClient.v ===== *)
(** * The control channel client (src/main/runtime/relay/relay-control-client.ts)

    One WebSocket to the relay cell, used once: [connect], the host hello and
    the optional challenge, then control messages and requests until it closes.
    Socket events, calls of the public methods and timer callbacks are the
    events of a step function; what the client does to the socket, to the
    connect promise and to its owner is a log of effects, in order. The
    requests are those of ControlRequests.v. Schemas, [JSON.parse] and the
    host proof are parameters.

    Theorems: the closed state is final and leaves no request and no timer, the
    client writes requests only while active or draining, the connect promise
    settles at most once, it settles when the socket closes, and it never
    settles when [closeNow] comes while connecting. *)

From S2P Require Import Prelude JsMap Json ControlRequests.

Local Open Scope string_scope.
Local Open Scope list_scope.
Local Open Scope Z_scope.

Inductive RelayControlState := Idle | Opening | Proving | Active | Draining | Closed.
#[export] Instance RelayControlState_eq_dec : EqDecision RelayControlState.
Proof. solve_decision. Defined.

Definition BAD_OUTER_CREDENTIAL : Z := 4401.

(** What the client does, in order. *)
Inductive effect :=
  | Send (text : string)
  | CloseSocket (code : Z) (reason : string)
  | Terminate
  | ConnectResolved (ack : json)
  | ConnectRejected (error : string)
  | OnConnectionOpen (message : json)
  | OnDrain (message : json)
  | OnClose (code : Z).

(** [connectResolve] and [connectReject] are set and cleared together. The
    [once] listeners of the socket are those not called yet; [attached]: the
    listeners were installed, the one for messages for good. *)
Record RelayControlClient := {
  state : RelayControlState;
  socket : bool;
  connecting : bool;
  on_open : bool;
  on_error : bool;
  on_close : bool;
  attached : bool;
  requests : RelayControlRequests;
  effects : list effect }.
Implicit Types c : RelayControlClient.

Definition new_client : RelayControlClient :=
  {| state := Idle; socket := false; connecting := false; on_open := false; on_error := false;
     on_close := false; attached := false; requests := new_requests; effects := [] |}.

Definition with_state (st : RelayControlState) c : RelayControlClient :=
  {| state := st; socket := socket c; connecting := connecting c; on_open := on_open c;
     on_error := on_error c; on_close := on_close c; attached := attached c;
     requests := requests c; effects := effects c |}.
Definition with_socket (b : bool) c : RelayControlClient :=
  {| state := state c; socket := b; connecting := connecting c; on_open := on_open c;
     on_error := on_error c; on_close := on_close c; attached := attached c;
     requests := requests c; effects := effects c |}.
Definition with_connecting (b : bool) c : RelayControlClient :=
  {| state := state c; socket := socket c; connecting := b; on_open := on_open c;
     on_error := on_error c; on_close := on_close c; attached := attached c;
     requests := requests c; effects := effects c |}.
Definition with_listeners (op er cl : bool) c : RelayControlClient :=
  {| state := state c; socket := socket c; connecting := connecting c; on_open := op;
     on_error := er; on_close := cl; attached := attached c; requests := requests c; effects := effects c |}.
Definition attach c : RelayControlClient :=
  {| state := state c; socket := true; connecting := connecting c; on_open := true;
     on_error := true; on_close := true; attached := true; requests := requests c;
     effects := effects c |}.
Definition with_requests (r : RelayControlRequests) c : RelayControlClient :=
  {| state := state c; socket := socket c; connecting := connecting c; on_open := on_open c;
     on_error := on_error c; on_close := on_close c; attached := attached c; requests := r; effects := effects c |}.
Definition emit (e : effect) c : RelayControlClient :=
  {| state := state c; socket := socket c; connecting := connecting c; on_open := on_open c;
     on_error := on_error c; on_close := on_close c; attached := attached c; requests := requests c;
     effects := effects c ++ [e] |}.

(** The remaining schemas of [relay-control-protocol.ts]: whether a message is
    accepted, and the data it carries. *)
Class ControlSchemas := {
  request_schemas :: Schemas;
  RelayPingMessageSchema : json -> bool;
  RelayConnectionOpenMessageSchema : json -> option json;
  RelayDrainMessageSchema : json -> option json;
  RelayHostChallengeMessageSchema : json -> option json;
  RelayHostHelloAckMessageSchema : json -> option json }.

(** The constructor's options, as far as the messages sent depend on them. *)
Record Options := {
  relayHostId : string;
  assignmentEpoch : Z;
  hostPublicKeyB64 : string;
  appVersion : string;
  previousGeneration : option Z;
  controlResumeSecret : option json }.  (** whatever the last acknowledgement held *)

Section Client.
Context `{ControlSchemas}.
Context (JSON_parse : string -> option json).
(** [answerRelayHostChallenge(challenge, context)] for this client's options. *)
Context (answerRelayHostChallenge : json -> option string).
Context (options : Options).

(** [this.socket?.send(...)] *)
Definition socket_send (message : json) c : RelayControlClient :=
  if socket c then emit (Send (JSON_stringify message)) c else c.

(** [this.connectResolve?.(ack)], [this.connectReject?.(error)], then
    [clearConnectPromise()]. *)
Definition connect_settle (e : effect) c : RelayControlClient :=
  with_connecting false (if connecting c then emit e c else c).

(** [createSocket] returns a socket, or throws. *)
Definition connect (created : bool) c : RelayControlClient * result unit :=
  if negb (bool_decide (state c = Idle)) then (c, Throw "relay_control_already_started")
  else
    let c := with_state Opening c in
    if created then (with_connecting true (attach c), Ok tt)
    else (c, Throw "createSocket").

Definition host_hello : json :=
  JObj ([("type", JStr "host-hello"); ("v", JNum (NInt 1));
         ("relayHostId", JStr (relayHostId options));
         ("assignmentEpoch", JNum (NInt (assignmentEpoch options)));
         ("hostPublicKeyB64", JStr (hostPublicKeyB64 options));
         ("appVersion", JStr (appVersion options))] ++
        match previousGeneration options with
        | None => []
        | Some g => [("previousGeneration", JNum (NInt g))]
        end ++
        (if truthy (controlResumeSecret options)
         then defined [("controlResumeSecret", controlResumeSecret options)] else [])).

Definition sendHostHello c : RelayControlClient :=
  if negb (socket c) || negb (bool_decide (state c = Opening)) then c
  else socket_send host_hello (with_state Proving c).

Definition failProtocol (reason : string) c : RelayControlClient :=
  let c := connect_settle (ConnectRejected reason) c in
  if socket c then emit (CloseSocket BAD_OUTER_CREDENTIAL reason) c else c.

(** The state in which a request can be sent. *)
Definition can_send c : bool :=
  socket c && (bool_decide (state c = Active) || bool_decide (state c = Draining)).

Definition sendActive (payload : json) c : RelayControlClient * result unit :=
  if can_send c then (emit (Send (JSON_stringify payload)) c, Ok tt)
  else (c, Throw "relay_control_not_active").

(** A request method of the client: [request] with [sendActive] as [send]. *)
Definition client_request (now : Z) (reqId : string) (k : RequestKind) (payload : json) c
    : RelayControlClient :=
  if jm_has reqId (pending (requests c)) then
    with_requests (request now reqId k (Ok tt) (requests c)) c
  else
    let (c', sent) := sendActive payload c in
    with_requests (request now reqId k sent (requests c)) c'.

Definition refreshAuthorization (relayJwt : string) c : RelayControlClient * result unit :=
  sendActive (JObj [("type", JStr "auth-refresh"); ("relayJwt", JStr relayJwt)]) c.

Definition closeNow c : RelayControlClient :=
  let c := with_state Closed c in
  let c := with_requests (rejectAll "relay_control_closed" (requests c)) c in
  let c := if socket c then emit Terminate c else c in
  with_socket false c.

Definition activate (ack : json) c : RelayControlClient :=
  connect_settle (ConnectResolved ack) (with_state Active c).

Definition handleProofMessage (message : json) c : RelayControlClient :=
  match RelayHostHelloAckMessageSchema message with
  | Some ack => activate ack c
  | None =>
      if strict_eq (prop "type" message) (Some (JStr "host-hello-ack")) &&
         (match prop "generation" message with Some (JNum _) => true | _ => false end)
      then activate message c
      else
        match RelayHostChallengeMessageSchema message with
        | Some challenge =>
            match answerRelayHostChallenge challenge with
            | None => failProtocol "invalid host challenge" c
            | Some proofB64 =>
                if String.eqb proofB64 "" then failProtocol "invalid host challenge" c
                else socket_send
                  (JObj ([("type", JStr "host-challenge-ack")] ++
                         defined [("challengeId", prop "challengeId" challenge)] ++
                         [("proofB64", JStr proofB64)])) c
            end
        | None => failProtocol "invalid host proof message" c
        end
  end.

(** [parseRelayControlMessage(raw)] *)
Definition parseRelayControlMessage (raw : string) : option json :=
  match JSON_parse raw with
  | Some (JObj fields) => Some (JObj fields)
  | _ => None
  end.

Definition handleMessage (raw : string) c : RelayControlClient :=
  match parseRelayControlMessage raw with
  | None => failProtocol "invalid control JSON" c
  | Some message =>
      if bool_decide (state c = Proving) then handleProofMessage message c
      else if negb (bool_decide (state c = Active)) && negb (bool_decide (state c = Draining)) then
        failProtocol "control message before activation" c
      else if RelayPingMessageSchema message then
        socket_send (JObj ([("type", JStr "pong")] ++ defined [("t", prop "t" message)])) c
      else
        match RelayConnectionOpenMessageSchema message, bool_decide (state c = Active) with
        | Some connection, true => emit (OnConnectionOpen connection) c
        | _, _ =>
            match RelayDrainMessageSchema message with
            | Some drain => emit (OnDrain drain) (with_state Draining c)
            | None =>
                let (r, resolved) := resolveMessage message (requests c) in
                let c := with_requests r c in
                if resolved then c else failProtocol "unknown control message" c
            end
        end
  end.

Definition handleClose (code : Z) c : RelayControlClient :=
  let wasConnecting := bool_decide (state c = Opening) || bool_decide (state c = Proving) in
  let error := "relay_control_closed_" +:+ int_string code in
  let c := with_state Closed c in
  let c := if wasConnecting then connect_settle (ConnectRejected error) c else c in
  let c := with_requests (rejectAll error (requests c)) c in
  emit (OnClose code) c.

Definition handleError (message : string) c : RelayControlClient :=
  if bool_decide (state c = Opening) || bool_decide (state c = Proving)
  then connect_settle (ConnectRejected message) c else c.

(** ** Events *)

Inductive client_event :=
  | Connect (created : bool)
  | SocketOpen
  | SocketMessage (raw : string) (isBinary : bool)
  | SocketError (message : string)
  | SocketClose (code : Z)
  | Call (now : Z) (reqId : string) (k : RequestKind) (payload : json)
  | RefreshAuthorization (relayJwt : string)
  | CloseNow
  | RequestTimer (i : nat).

Definition client_step c (e : client_event) : RelayControlClient :=
  match e with
  | Connect created => (connect created c).1
  | SocketOpen =>
      if on_open c then sendHostHello (with_listeners false (on_error c) (on_close c) c) else c
  | SocketMessage raw isBinary =>
      if attached c then
        if isBinary then failProtocol "binary control message" c else handleMessage raw c
      else c
  | SocketError message =>
      if on_error c then handleError message (with_listeners (on_open c) false (on_close c) c) else c
  | SocketClose code =>
      if on_close c then handleClose code (with_listeners (on_open c) (on_error c) false c) else c
  | Call now reqId k payload => client_request now reqId k payload c
  | RefreshAuthorization jwt => (refreshAuthorization jwt c).1
  | CloseNow => closeNow c
  | RequestTimer i => with_requests (timer_fires i (requests c)) c
  end.

Definition client_run c (es : list client_event) : RelayControlClient := foldl client_step c es.
End Client.

(** ** Invariants *)

Definition is_connect (e : effect) : bool :=
  match e with ConnectResolved _ | ConnectRejected _ => true | _ => false end.
Definition is_send (e : effect) : bool := match e with Send _ => true | _ => false end.
(** How often the connect promise was settled. *)
Definition connect_count (es : list effect) : nat := length (js_filter is_connect es).

Definition nat_of_bool (b : bool) : nat := if b then 1%nat else 0%nat.

(** The connect promise of an attached client is waiting or was settled once. *)
Record client_ok c : Prop := {
  c_requests : requests_ok (requests c);
  c_closed : state c = Closed -> jm_entries (pending (requests c)) = [];
  c_connect : (connect_count (effects c) + nat_of_bool (connecting c) = nat_of_bool (attached c))%nat;
  c_attached : attached c = true -> state c ≠ Idle;
  c_idle : state c = Idle -> jm_entries (pending (requests c)) = [] }.

(** ** The primitives preserve it *)

Lemma connect_count_app es es' :
  connect_count (es ++ es') = (connect_count es + connect_count es')%nat.
Proof. unfold connect_count. by rewrite js_filter_app, length_app. Qed.

Lemma emit_ok e c : is_connect e = false -> client_ok c -> client_ok (emit e c).
Proof.
  intros He [H1 H2 H3 H4 H5]. split; try done. simpl. rewrite connect_count_app.
  unfold connect_count at 2. simpl. rewrite He. simpl. lia.
Qed.

Lemma with_requests_ok r c :
  client_ok c -> requests_ok r ->
  (jm_entries (pending (requests c)) = [] -> jm_entries (pending r) = []) ->
  client_ok (with_requests r c).
Proof. intros [H1 H2 H3 H4 H5] Hr Hp. split; simpl; auto. Qed.

(** A change of state that neither enters nor leaves the idle state. *)
Lemma with_state_ok st c :
  client_ok c -> st ≠ Closed -> st ≠ Idle -> client_ok (with_state st c).
Proof. intros [H1 H2 H3 H4 H5] ? ?. split; simpl; try done. Qed.

Lemma close_state_ok c :
  client_ok c -> jm_entries (pending (requests c)) = [] -> client_ok (with_state Closed c).
Proof. intros [H1 H2 H3 H4 H5] ?. split; simpl; try done. Qed.

Lemma connect_settle_ok e c :
  is_connect e = true -> client_ok c -> client_ok (connect_settle e c).
Proof.
  intros He [H1 H2 H3 H4 H5]. unfold connect_settle.
  destruct (connecting c) eqn:Hc; split; simpl; try done.
  rewrite connect_count_app. unfold connect_count at 2. simpl. rewrite He. simpl in *. lia.
Qed.

Lemma with_listeners_ok op er cl c : client_ok c -> client_ok (with_listeners op er cl c).
Proof. intros [H1 H2 H3 H4 H5]. by split. Qed.

Lemma with_socket_ok b c : client_ok c -> client_ok (with_socket b c).
Proof. intros [H1 H2 H3 H4 H5]. by split. Qed.

Create HintDb client.
#[export] Hint Resolve connect_settle_ok with_listeners_ok with_socket_ok : client.
#[export] Hint Extern 1 (client_ok (emit _ _)) => apply emit_ok; [reflexivity|] : client.
#[export] Hint Extern 1 (client_ok (with_state _ _)) => apply with_state_ok; [|discriminate|discriminate] : client.

Lemma request_pending_closed now r k e (s : RelayControlRequests) :
  requests_ok s ->
  jm_entries (pending s) = [] -> jm_entries (pending (request now r k (Throw e) s)) = [].
Proof.
  intros Hok Hp. assert (Hn : pending s !! r = None).
  { destruct (pending s !! r) eqn:E; [|done]. apply jm_lookup_Some_elem in E.
    rewrite Hp in E. by apply elem_of_nil in E. }
  unfold request, jm_has. rewrite Hn. cbn [settle_promise pending].
  unfold finish, register. cbn [pending]. rewrite jm_lookup_insert_eq. cbn [pending].
  destruct (pending s) as [l]. simpl in *. subst l. unfold delete, jm_delete. simpl.
  by rewrite decide_True.
Qed.

Lemma resolveMessage_pending `{Schemas} m (s : RelayControlRequests) :
  jm_entries (pending s) = [] -> (resolveMessage m s) = (s, false).
Proof.
  intros Hp. unfold resolveMessage. destruct (as_string _) as [r|]; [|done].
  destruct (String.eqb r ""); [done|]. destruct (pending s !! r) eqn:E; [|done].
  apply jm_lookup_Some_elem in E. rewrite Hp in E. by apply elem_of_nil in E.
Qed.

Lemma timer_fires_pending i (s : RelayControlRequests) :
  requests_ok s -> jm_entries (pending s) = [] -> timer_fires i s = s.
Proof.
  intros Hok Hp. unfold timer_fires. destruct (timers s !! i) eqn:E; [|done].
  apply jm_lookup_Some_elem in E. rewrite no_pending_no_timers in E by done.
  by apply elem_of_nil in E.
Qed.

Section Preservation.
Context `{ControlSchemas}.
Context (JSON_parse : string -> option json).
Context (answerRelayHostChallenge : json -> option string).
Context (options : Options).
Abbreviation step := (client_step JSON_parse answerRelayHostChallenge options).
Abbreviation run := (client_run JSON_parse answerRelayHostChallenge options).

Lemma socket_send_ok m c : client_ok c -> client_ok (socket_send m c).
Proof. intros ?. unfold socket_send. case_match; auto with client. Qed.

Lemma failProtocol_ok reason c : client_ok c -> client_ok (failProtocol reason c).
Proof. intros ?. unfold failProtocol. case_match; auto with client. Qed.

Lemma closeNow_ok c : client_ok c -> client_ok (closeNow c).
Proof.
  intros Hok. unfold closeNow. apply with_socket_ok.
  destruct (rejectAll_spec "relay_control_closed" (requests c) (c_requests c Hok)) as (H1 & H2 & _).
  enough (client_ok (with_state Closed (with_requests
    (rejectAll "relay_control_closed" (requests c)) c))) by (simpl; case_match; auto with client).
  apply close_state_ok; [|done]. by apply with_requests_ok.
Qed.

Lemma handleClose_ok code c : client_ok c -> client_ok (handleClose code c).
Proof.
  intros Hok. unfold handleClose. apply emit_ok; [done|].
  set (error := ("relay_control_closed_" +:+ int_string code)%string).
  set (b := _ || _). clearbody b.
  destruct (rejectAll_spec error (requests c) (c_requests c Hok)) as (H1 & H2 & _).
  assert (Hc : client_ok (with_state Closed (with_requests (rejectAll error (requests c)) c))).
  { apply close_state_ok; [|done]. by apply with_requests_ok. }
  destruct b; [|done].
  pose proof (connect_settle_ok (ConnectRejected error) _ eq_refl Hc) as Hs. revert Hs.
  unfold connect_settle. simpl. by destruct (connecting c).
Qed.

Lemma handleProofMessage_ok m c :
  client_ok c -> client_ok (handleProofMessage answerRelayHostChallenge m c).
Proof.
  intros ?. unfold handleProofMessage, activate.
  repeat (case_match; auto using failProtocol_ok, socket_send_ok with client).
Qed.

Lemma handleMessage_ok raw c :
  client_ok c -> client_ok (handleMessage JSON_parse answerRelayHostChallenge raw c).
Proof.
  intros Hok. unfold handleMessage.
  destruct (parseRelayControlMessage _ _) as [m|]; [|by apply failProtocol_ok].
  destruct (bool_decide (state c = Proving)); [by apply handleProofMessage_ok|].
  destruct (_ && _); [by apply failProtocol_ok|].
  destruct (RelayPingMessageSchema m); [by apply socket_send_ok|].
  assert (Hrest : client_ok
    (match RelayDrainMessageSchema m with
     | Some drain => emit (OnDrain drain) (with_state Draining c)
     | None =>
         let (r, resolved) := resolveMessage m (requests c) in
         let c := with_requests r c in
         if resolved then c else failProtocol "unknown control message" c
     end)).
  { destruct (RelayDrainMessageSchema m); [auto with client|].
    pose proof (resolveMessage_ok m (requests c) (c_requests c Hok)) as Hr.
    pose proof (resolveMessage_pending m (requests c)) as Hp.
    destruct (resolveMessage m (requests c)) as [r b]. simpl in *.
    assert (client_ok (with_requests r c)).
    { apply with_requests_ok; [done..|]. intros E. specialize (Hp E). by simplify_eq. }
    destruct b; [done|by apply failProtocol_ok]. }
  destruct (RelayConnectionOpenMessageSchema m), (bool_decide (state c = Active));
    auto with client.
Qed.

Lemma client_step_ok c e : client_ok c -> client_ok (step c e).
Proof.
  intros Hok. destruct e as [created| |raw b|msg|code|now r k payload|jwt| |i]; simpl.
  - unfold connect. case_bool_decide as Hi; [|done]. simpl.
    destruct Hok as [H1 H2 H3 H4 H5]. destruct created; simpl.
    + assert (Ha : attached c = false).
      { destruct (attached c); [|done]. by destruct (H4 eq_refl). }
      rewrite Ha in H3. simpl in H3. split; simpl; try done. lia.
    + split; simpl; try done.
  - case_match; [|done]. unfold sendHostHello. case_match; [auto with client|].
    apply socket_send_ok. auto with client.
  - case_match; [|done]. case_match; [by apply failProtocol_ok|by apply handleMessage_ok].
  - case_match; [|done]. unfold handleError. case_match; auto with client.
  - case_match; [|done]. apply handleClose_ok. auto with client.
  - unfold client_request. pose proof (c_requests c Hok) as Hr.
    destruct (jm_has r (pending (requests c))) eqn:Hh.
    + apply with_requests_ok; [done|by apply request_ok|]. unfold request. by rewrite Hh.
    + unfold sendActive. destruct (can_send c) eqn:Hcs.
      * destruct Hok as [H1 H2 H3 H4 H5]. unfold can_send in Hcs.
        apply andb_true_iff in Hcs as [_ Hcs].
        split; simpl; [by apply request_ok| | |done|].
        -- intros Hst. by rewrite Hst in Hcs.
        -- rewrite connect_count_app. unfold connect_count at 2. simpl. lia.
        -- intros Hst. by rewrite Hst in Hcs.
      * apply with_requests_ok; [done|by apply request_ok|].
        intros Hp. by apply request_pending_closed.
  - unfold refreshAuthorization, sendActive. case_match; simpl; auto with client.
  - by apply closeNow_ok.
  - apply with_requests_ok; [done|apply timer_fires_ok, (c_requests c Hok)|].
    intros Hp. by rewrite timer_fires_pending by (done || apply (c_requests c Hok)).
Qed.

Lemma new_client_ok : client_ok new_client.
Proof. split; try done. apply requests_ok_new. Qed.

Lemma client_run_ok c es : client_ok c -> client_ok (run c es).
Proof. revert c. induction es as [|e es IH]; intros c Hc; simpl; [done|]. auto using client_step_ok. Qed.
End Preservation.

(** ** Properties *)

Section Properties.
Context `{ControlSchemas}.
Context (JSON_parse : string -> option json).
Context (answerRelayHostChallenge : json -> option string).
Context (options : Options).
Abbreviation step := (client_step JSON_parse answerRelayHostChallenge options).
Abbreviation run := (client_run JSON_parse answerRelayHostChallenge options).

(** In the closed state a client stays closed and writes nothing. *)
Lemma closed_step c e :
  client_ok c -> state c = Closed ->
  state (step c e) = Closed /\
  js_filter is_send (effects (step c e)) = js_filter is_send (effects c).
Proof.
  intros Hok Hst.
  assert (Hfail : forall reason c, state c = Closed ->
    state (failProtocol reason c) = Closed /\
    js_filter is_send (effects (failProtocol reason c)) = js_filter is_send (effects c)).
  { intros reason c' Hc'. unfold failProtocol, connect_settle.
    destruct (connecting c'), (socket c') eqn:E; simpl; rewrite ?E; simpl;
      rewrite ?js_filter_app; simpl; by rewrite ?app_nil_r. }
  destruct e as [created| |raw b|msg|code|now r k payload|jwt| |i]; simpl.
  - unfold connect. by rewrite Hst.
  - case_match; [|done]. unfold sendHostHello. simpl. rewrite Hst. by rewrite orb_true_r.
  - case_match; [|done]. case_match; [by apply Hfail|]. unfold handleMessage.
    destruct (parseRelayControlMessage _ _); [|by apply Hfail]. rewrite Hst. simpl. by apply Hfail.
  - case_match; [|done]. unfold handleError. simpl. by rewrite Hst.
  - case_match; [|done]. unfold handleClose. simpl. rewrite Hst. simpl.
    rewrite js_filter_app. simpl. by rewrite app_nil_r.
  - unfold client_request. case_match; [done|]. unfold sendActive, can_send. rewrite Hst. simpl.
    by rewrite andb_false_r.
  - unfold refreshAuthorization, sendActive, can_send. rewrite Hst. simpl. by rewrite andb_false_r.
  - unfold closeNow. simpl. case_match; simpl; [|done]. rewrite js_filter_app. simpl.
    by rewrite app_nil_r.
  - done.
Qed.

(** A client that is closed, by [closeNow] or by its socket, stays closed:
    whatever happens afterwards it writes nothing to the socket and holds no
    pending request and no armed timer. *)
Theorem closed_is_final es es' :
  let c := run new_client es in
  let c' := run new_client (es ++ es') in
  state c = Closed ->
  state c' = Closed /\
  jm_entries (pending (requests c')) = [] /\ jm_entries (timers (requests c')) = [] /\
  js_filter is_send (effects c') = js_filter is_send (effects c).
Proof.
  intros c c' Hc.
  assert (Hok' : client_ok c') by (apply client_run_ok, new_client_ok).
  assert (Hst : state c' = Closed /\ js_filter is_send (effects c') = js_filter is_send (effects c)).
  { subst c'. unfold client_run. rewrite foldl_app. fold (run new_client es). fold c.
    assert (Hok : client_ok c) by (apply client_run_ok, new_client_ok). clear Hok'.
    revert Hok Hc. generalize c. clear c.
    induction es' as [|e es' IH]; intros c Hok Hc; simpl; [done|].
    destruct (closed_step c e Hok Hc) as [H1 H2]. rewrite <-H2.
    apply IH; [by apply client_step_ok|done]. }
  destruct Hst as [H1 H2]. pose proof (c_closed c' Hok' H1) as H3.
  split; [done|]. split; [done|]. split; [|done].
  by apply no_pending_no_timers; [apply (c_requests c')|].
Qed.

(** Without [closeNow] the connect promise waits only while the handshake runs,
    and a client whose socket closed is closed. *)
Definition connect_ok c : Prop :=
  (connecting c = true -> state c = Opening \/ state c = Proving) /\
  (attached c = true -> on_close c = false -> state c = Closed).

Lemma connect_settle_done e c : connecting (connect_settle e c) = false.
Proof. done. Qed.

Lemma connect_ok_keep c c' :
  connect_ok c -> (connecting c' = true -> connecting c = true) ->
  (state c' = state c) -> attached c' = attached c -> on_close c' = on_close c ->
  connect_ok c'.
Proof. intros [H1 H2] Hc Hs Ha Ho. unfold connect_ok. rewrite Hs, Ha, Ho. auto. Qed.

Lemma failProtocol_connect reason c : connect_ok c -> connect_ok (failProtocol reason c).
Proof.
  intros Hok. apply (connect_ok_keep c); [done|..];
    unfold failProtocol, connect_settle; by destruct (connecting c), (socket c) eqn:E; simpl; rewrite ?E.
Qed.

Lemma socket_send_connect m c : connect_ok c -> connect_ok (socket_send m c).
Proof. intros Hok. unfold socket_send. case_match; [|done]. by apply (connect_ok_keep c). Qed.

(** A change to a live state once the promise is settled. *)
Lemma settled_connect st c :
  connect_ok c -> state c ≠ Closed -> connecting c = false -> connect_ok (with_state st c).
Proof.
  intros [H1 H2] Hne Hc. split; simpl; [congruence|]. intros Ha Ho. by destruct (Hne (H2 Ha Ho)).
Qed.

Lemma handleProof_connect m c :
  connect_ok c -> state c = Proving ->
  connect_ok (handleProofMessage answerRelayHostChallenge m c).
Proof.
  intros Hok Hst. unfold handleProofMessage, activate.
  assert (Hact : forall ack, connect_ok (connect_settle (ConnectResolved ack) (with_state Active c))).
  { intros ack. destruct Hok as [H1 H2]. split; simpl; [done|].
    unfold connect_settle. simpl. destruct (connecting c); simpl;
      intros Ha Ho; specialize (H2 Ha Ho); congruence. }
  repeat (case_match; auto using failProtocol_connect, socket_send_connect).
Qed.

Lemma handleMessage_connect raw c :
  connect_ok c -> connect_ok (handleMessage JSON_parse answerRelayHostChallenge raw c).
Proof.
  intros Hok. unfold handleMessage.
  destruct (parseRelayControlMessage _ _) as [m|]; [|by apply failProtocol_connect].
  destruct (bool_decide (state c = Proving)) eqn:Hp.
  { apply bool_decide_eq_true in Hp. by apply handleProof_connect. }
  destruct (_ && _) eqn:Hact; [by apply failProtocol_connect|].
  assert (Hlive : state c = Active \/ state c = Draining).
  { apply andb_false_iff in Hact as [Ha|Ha]; apply negb_false_iff, bool_decide_eq_true in Ha; auto. }
  assert (Hnc : connecting c = false).
  { destruct (connecting c) eqn:E; [|done]. destruct Hok as [H1 _].
    destruct (H1 E), Hlive; congruence. }
  destruct (RelayPingMessageSchema m); [by apply socket_send_connect|].
  assert (Hdrain : forall d, connect_ok (emit (OnDrain d) (with_state Draining c))).
  { intros d. apply (connect_ok_keep (with_state Draining c)); try done.
    apply settled_connect; [done| |done]. destruct Hlive; congruence. }
  assert (Hreq : forall r, connect_ok (with_requests r c))
    by (intros r; by apply (connect_ok_keep c)).
  destruct (resolveMessage m (requests c)) as [r b].
  assert (Hopen : forall x, connect_ok (emit (OnConnectionOpen x) c))
    by (intros x; by apply (connect_ok_keep c)).
  repeat (case_match; auto using failProtocol_connect).
Qed.

Lemma step_connect c e :
  client_ok c -> connect_ok c -> e ≠ CloseNow -> connect_ok (step c e).
Proof.
  intros Hcok Hok Hne. destruct e as [created| |raw b|msg|code|now r k payload|jwt| |i]; simpl.
  - unfold connect. case_bool_decide as Hi; [|done]. simpl. destruct Hok as [H1 H2].
    destruct created; split; simpl; auto; try done.
    intros Ha. by destruct (c_attached c Hcok Ha).
  - case_match; [|done]. unfold sendHostHello.
    assert (Hl : connect_ok (with_listeners false (on_error c) (on_close c) c))
      by (by apply (connect_ok_keep c)).
    case_match eqn:Ho; [done|]. apply socket_send_connect.
    apply orb_false_iff in Ho as [_ Ho%negb_false_iff%bool_decide_eq_true].
    destruct Hl as [H1 H2]. simpl in *. split; simpl; [auto|].
    intros Ha Hc. specialize (H2 Ha Hc). congruence.
  - case_match; [|done]. case_match; [by apply failProtocol_connect|by apply handleMessage_connect].
  - case_match; [|done]. unfold handleError.
    assert (Hl : connect_ok (with_listeners (on_open c) false (on_close c) c))
      by (by apply (connect_ok_keep c)).
    case_match; [|done]. apply (connect_ok_keep _ _ Hl); unfold connect_settle; by case_match.
  - case_match; [|done]. unfold handleClose. destruct Hok as [H1 H2]. simpl.
    destruct (_ || _) eqn:Hc; split; simpl; try done; unfold connect_settle; simpl; try done.
    + by destruct (connecting c).
    + intros Hcon. apply orb_false_iff in Hc as [Ho%bool_decide_eq_false Hp%bool_decide_eq_false].
      by destruct (H1 Hcon).
  - unfold client_request. case_match; [by apply (connect_ok_keep c)|].
    unfold sendActive. destruct (can_send c); by apply (connect_ok_keep c).
  - unfold refreshAuthorization, sendActive. destruct (can_send c); by apply (connect_ok_keep c).
  - done.
  - by apply (connect_ok_keep c).
Qed.

(** The connect promise settles at most once in any run; without a call of
    [closeNow] it has settled exactly once by the time the socket's close event
    has been handled. *)
Theorem connect_settles es :
  let c := run new_client es in
  (connect_count (effects c) <= 1)%nat /\
  (CloseNow ∉ es -> attached c = true -> on_close c = false -> connect_count (effects c) = 1%nat).
Proof.
  intros c. assert (Hok : client_ok c) by (apply client_run_ok, new_client_ok).
  pose proof (c_connect c Hok) as Hc. split.
  - destruct (attached c), (connecting c); simpl in Hc; lia.
  - intros Hno Ha Ho. rewrite Ha in Hc.
    assert (Hcon : connect_ok c).
    { subst c. clear Hok Hc Ha Ho. pose proof new_client_ok as Hok.
      assert (Hcon : connect_ok new_client) by done.
      revert Hok Hcon. generalize new_client.
      induction es as [|e es IH]; intros c Hok Hcon; simpl; [done|].
      apply not_elem_of_cons in Hno as [Hne Hno].
      apply IH; [done|by apply client_step_ok|apply step_connect; congruence]. }
    destruct Hcon as [H1 H2]. specialize (H2 Ha Ho).
    destruct (connecting c); simpl in Hc; [|lia]. destruct (H1 eq_refl); congruence.
Qed.

(** What a closed client with a waiting connect promise can do to it. *)
Lemma hang_step c e :
  state c = Closed -> connecting c = true ->
  (forall raw b, e ≠ SocketMessage raw b) ->
  state (step c e) = Closed /\ connecting (step c e) = true /\
  js_filter is_connect (effects (step c e)) = js_filter is_connect (effects c).
Proof.
  intros Hst Hc Hne. destruct e as [created| |raw b|msg|code|now r k payload|jwt| |i]; simpl.
  - unfold connect. by rewrite Hst.
  - case_match; [|done]. unfold sendHostHello. simpl. rewrite Hst. by rewrite orb_true_r.
  - by destruct (Hne raw b).
  - case_match; [|done]. unfold handleError. simpl. by rewrite Hst.
  - case_match; [|done]. unfold handleClose. simpl. rewrite Hst. simpl.
    rewrite js_filter_app. simpl. by rewrite app_nil_r.
  - unfold client_request. case_match; [done|]. unfold sendActive, can_send. rewrite Hst. simpl.
    by rewrite andb_false_r.
  - unfold refreshAuthorization, sendActive, can_send. rewrite Hst. simpl. by rewrite andb_false_r.
  - unfold closeNow. simpl. case_match; simpl; [|done]. rewrite js_filter_app. simpl.
    by rewrite app_nil_r.
  - done.
Qed.

(** [closeNow] while the connection is being set up strands the promise of
    [connect]: if no message arrives on the terminated socket, no later event,
    its error and close events included, ever settles it. *)
Theorem closeNow_strands_connect es es' :
  let c := run new_client es in
  connecting c = true ->
  Forall (fun e => forall raw b, e ≠ SocketMessage raw b) es' ->
  connect_count (effects (run (closeNow c) es')) = 0%nat.
Proof.
  intros c Hc Hes.
  assert (H0 : connect_count (effects (closeNow c)) = 0%nat).
  { assert (Hok : client_ok c) by (apply client_run_ok, new_client_ok).
    pose proof (c_connect c Hok) as Hsum. rewrite Hc in Hsum. simpl in Hsum.
    unfold closeNow. simpl. case_match; simpl; rewrite ?connect_count_app;
      unfold connect_count at 2 || idtac; destruct (attached c); simpl in *; lia. }
  rewrite <-H0. unfold connect_count. f_equal.
  assert (Hst : state (closeNow c) = Closed) by (unfold closeNow; simpl; by case_match).
  assert (Hcon : connecting (closeNow c) = true) by (unfold closeNow; simpl; by case_match).
  revert Hst Hcon. generalize (closeNow c). clear H0 Hc c.
  induction Hes as [|e es' He _ IH]; intros c Hst Hcon; simpl; [done|].
  destruct (hang_step c e Hst Hcon He) as (H1 & H2 & H3). rewrite <-H3. auto.
Qed.
End Properties.

(** ** Witnesses *)

Definition typed (t : string) (m : json) : option json :=
  if strict_eq (prop "type" m) (Some (JStr t)) then Some m else None.
Definition demo_control : ControlSchemas :=
  {| request_schemas := demo_schemas;
     RelayPingMessageSchema m := bool_decide (is_Some (typed "ping" m));
     RelayConnectionOpenMessageSchema := typed "conn-open";
     RelayDrainMessageSchema := typed "drain";
     RelayHostChallengeMessageSchema := typed "host-challenge";
     RelayHostHelloAckMessageSchema := typed "host-hello-ack" |}.
Definition demo_message (text : string) : option json :=
  if String.eqb text "ack" then Some (JObj [("type", JStr "host-hello-ack")])
  else if String.eqb text "drain" then Some (JObj [("type", JStr "drain")])
  else None.
Definition demo_options : Options :=
  {| relayHostId := "h"; assignmentEpoch := 1; hostPublicKeyB64 := "k"; appVersion := "1";
     previousGeneration := None; controlResumeSecret := None |}.
Definition demo_session : list client_event :=
  [Connect true; SocketOpen; SocketMessage "ack" false;
   Call 0 "r" Invite (createInvite_payload "r" "d"); SocketMessage "drain" false; SocketClose 1006].
Abbreviation demo_run := (client_run (H := demo_control) demo_message (fun _ => None) demo_options).

Lemma closed_is_final_witness :
  length (js_filter is_send (effects (demo_run new_client demo_session))) = 2%nat /\
  length (js_filter is_send (effects (demo_run new_client
    (demo_session ++ [Call 5 "s" Revoke (revokeDevice_payload "s" "d"); CloseNow])))) = 2%nat.
Proof.
  split; [vm_compute; reflexivity|].
  destruct (closed_is_final (H := demo_control) demo_message (fun _ => None) demo_options
    demo_session [Call 5 "s" Revoke (revokeDevice_payload "s" "d"); CloseNow])
    as (_ & _ & _ & H); [vm_compute; reflexivity|].
  rewrite H. vm_compute. reflexivity.
Defined.

Lemma connect_settles_witness :
  connect_count (effects (demo_run new_client demo_session)) = 1%nat.
Proof.
  apply (connect_settles (H := demo_control) demo_message (fun _ => None) demo_options demo_session).
  - unfold demo_session. set_solver.
  - vm_compute. reflexivity.
  - vm_compute. reflexivity.
Defined.

Lemma closeNow_strands_connect_witness :
  connect_count (effects (demo_run (closeNow (demo_run new_client [Connect true; SocketOpen]))
    [SocketError "closed"; SocketClose 1006])) = 0%nat.
Proof.
  apply (closeNow_strands_connect (H := demo_control) demo_message (fun _ => None) demo_options
    [Connect true; SocketOpen]).
  - vm_compute. reflexivity.
  - repeat constructor; discriminate.
Defined.
