(* ===== verification/HostProof.v ===== *)
(** * The host proof (src/main/runtime/relay/relay-host-proof.ts)

    The relay proves a host's identity by a challenge only the holder of the
    host's secret key can open: a transcript that names every field of the
    connection, and a secret. The host answers with an HMAC of the transcript,
    after checking that the transcript is about this very connection. The box,
    the HMAC, [Buffer.from(_, 'base64')] and [TextDecoder] are parameters.

    Theorems: an answer is given only to a transcript that holds exactly the
    sixteen expected fields, within its time window; and every challenge built
    by the reference encoder is answered. *)

From S2P Require Import Prelude JsMap Base64 E2eeContract.

Local Open Scope string_scope.
Local Open Scope list_scope.
Local Open Scope Z_scope.

Definition HOST_PROOF_TRANSCRIPT_DOMAIN : string := "orca-relay-host-proof/v1".
Definition HOST_CHALLENGE_PLAINTEXT_DOMAIN : string := "orca-relay-host-challenge/v1".

Record RelayHostChallenge := {
  challengeId : string;
  relayEphemeralPublicKeyB64 : string;
  nonceB64 : string;
  ciphertextB64 : string;
  ch_expiresAt : Z }.

Record RelayHostProofContext := {
  relayOrigin : string;
  userId : string;
  profileId : string;
  organizationId : string;
  relayHostId : string;
  hostPublicKey : list Z;
  hostSecretKey : list Z;
  assignmentEpoch : Z;
  previousGeneration : option Z;
  resumeRequested : bool;
  ctx_now : Z }.

Section HostProof.
(** [Buffer.from(s, 'base64')], [textDecoder.decode], [nacl.box.open] and
    [createHmac('sha256', key).update(...).digest()]. *)
Context (buffer_from : string -> list Z).
Context (textDecode : list Z -> string).
Context (box_open : list Z -> list Z -> list Z -> list Z -> option (list Z)).
Context (hmac_sha256 : list Z -> list Z -> list Z).

Definition decodeCanonicalBase64 (value : string) (expectedBytes : nat) : option (list Z) :=
  if negb (canonical_shape (chars value)) then None
  else
    let decoded := buffer_from value in
    if (length decoded =? expectedBytes)%nat && String.eqb (btoa decoded) value
    then Some decoded else None.

Definition uint64 (value : Z) : list Z := be_bytes 8 value.

Definition equal (left : option (list Z)) (right : list Z) : bool :=
  match left with Some l => bool_decide (l = right) | None => false end.

(** [view.getUint32(offset, false)] throws outside the buffer. *)
Definition getUint32 (buf : list Z) (offset : Z) : option Z :=
  if offset + 4 <=? Z.of_nat (length buf)
  then Some (be_value (take 4 (drop (Z.to_nat offset) buf))) else None.

(** [buf.slice(from, from + len)], clamped to the buffer. *)
Definition slice (buf : list Z) (from len : Z) : list Z :=
  take (Z.to_nat len) (drop (Z.to_nat from) buf).

(** The loop from [offset] on; the outer option is the fuel's. *)
Fixpoint parse_loop (fuel : nat) (transcript : list Z) (offset : Z) (fields : jsmap string (list Z))
    : option (option (jsmap string (list Z))) :=
  match fuel with
  | O => None
  | S fuel =>
      if offset <? Z.of_nat (length transcript) then
        match getUint32 transcript offset with
        | None => Some None
        | Some nameLength =>
            let name := textDecode (slice transcript (offset + 4) nameLength) in
            let offset := offset + 4 + nameLength in
            match getUint32 transcript offset with
            | None => Some None
            | Some valueLength =>
                let offset := offset + 4 in
                if jm_has name fields || (Z.of_nat (length transcript) <? offset + valueLength)
                then Some None
                else parse_loop fuel transcript (offset + valueLength)
                       (<[name := slice transcript offset valueLength]> fields)
            end
        end
      else if offset =? Z.of_nat (length transcript) then Some (Some fields) else Some None
  end.

Definition parseTranscript (transcript : list Z) : option (jsmap string (list Z)) :=
  mjoin (parse_loop (S (length transcript)) transcript 0 ∅).

Definition readUint64 (value : option (list Z)) : option Z :=
  match value with
  | Some value =>
      if (length value =? 8)%nat then
        let parsed := be_value value in
        if parsed <=? MAX_SAFE_INTEGER then Some parsed else None
      else None
  | None => None
  end.

Definition validateTranscript (transcript : list Z) (challenge : RelayHostChallenge)
    (context : RelayHostProofContext) (relayKey nonce : list Z) : bool :=
  match parseTranscript transcript with
  | None => false
  | Some fields =>
      if negb (jm_size fields =? 16) then false
      else
        let now := ctx_now context in
        let expectedPrevious :=
          match previousGeneration context with None => [] | Some g => uint64 g end in
        match readUint64 (fields !! "issuedAt") with
        | None => false
        | Some issuedAt =>
            (issuedAt <=? now) && (now <=? ch_expiresAt challenge) &&
            (ch_expiresAt challenge - issuedAt <=? 10000) &&
            bool_decide (readUint64 (fields !! "expiresAt") = Some (ch_expiresAt challenge)) &&
            equal (fields !! "protocol") (utf8 HOST_PROOF_TRANSCRIPT_DOMAIN) &&
            equal (fields !! "version") [1] &&
            equal (fields !! "relayOrigin") (utf8 (relayOrigin context)) &&
            equal (fields !! "relayEphemeralPublicKey") relayKey &&
            equal (fields !! "challengeNonce") nonce &&
            equal (fields !! "challengeId") (utf8 (challengeId challenge)) &&
            equal (fields !! "userId") (utf8 (userId context)) &&
            equal (fields !! "profileId") (utf8 (profileId context)) &&
            equal (fields !! "organizationId") (utf8 (organizationId context)) &&
            equal (fields !! "relayHostId") (utf8 (relayHostId context)) &&
            equal (fields !! "hostPublicKey") (hostPublicKey context) &&
            equal (fields !! "assignmentEpoch") (uint64 (assignmentEpoch context)) &&
            equal (fields !! "previousGeneration") expectedPrevious &&
            equal (fields !! "resumeRequested") [if resumeRequested context then 1 else 0]
        end
  end.

Definition plaintext_domain : list Z := utf8 (HOST_CHALLENGE_PLAINTEXT_DOMAIN +:+ nul)%string.
Definition ack_domain : list Z := utf8 (HOST_PROOF_TRANSCRIPT_DOMAIN +:+ nul +:+ "ack" +:+ nul)%string.

Definition answerRelayHostChallenge (challenge : RelayHostChallenge)
    (context : RelayHostProofContext) : option string :=
  let ciphertext := buffer_from (ciphertextB64 challenge) in
  match decodeCanonicalBase64 (relayEphemeralPublicKeyB64 challenge) 32,
        decodeCanonicalBase64 (nonceB64 challenge) 24 with
  | Some relayKey, Some nonce =>
      if negb (String.eqb (btoa ciphertext) (ciphertextB64 challenge)) then None
      else
        match box_open ciphertext nonce relayKey (hostSecretKey context) with
        | None => None
        | Some plaintext =>
            let domain := plaintext_domain in
            let start := Z.of_nat (length domain) in
            if negb (equal (Some (take (length domain) plaintext)) domain) ||
               (Z.of_nat (length plaintext) <? start + 36)
            then None
            else
              match getUint32 plaintext start with
              | None => None
              | Some transcriptLength =>
                  let transcriptStart := start + 4 in
                  let secretStart := transcriptStart + transcriptLength in
                  if negb (secretStart + 32 =? Z.of_nat (length plaintext)) then None
                  else
                    let transcript := slice plaintext transcriptStart transcriptLength in
                    if negb (validateTranscript transcript challenge context relayKey nonce) then None
                    else
                      let secret := drop (Z.to_nat secretStart) plaintext in
                      Some (btoa (hmac_sha256 secret (ack_domain ++ transcript)))
              end
        end
  | _, _ => None
  end.

(** ** The specification *)

(** The fields the transcript must hold, issued at [issuedAt]. *)
Definition expected_fields (challenge : RelayHostChallenge) (context : RelayHostProofContext)
    (relayKey nonce : list Z) (issuedAt : Z) : list (string * list Z) :=
  [("issuedAt", uint64 issuedAt); ("expiresAt", uint64 (ch_expiresAt challenge));
   ("protocol", utf8 HOST_PROOF_TRANSCRIPT_DOMAIN); ("version", [1]);
   ("relayOrigin", utf8 (relayOrigin context)); ("relayEphemeralPublicKey", relayKey);
   ("challengeNonce", nonce); ("challengeId", utf8 (challengeId challenge));
   ("userId", utf8 (userId context)); ("profileId", utf8 (profileId context));
   ("organizationId", utf8 (organizationId context)); ("relayHostId", utf8 (relayHostId context));
   ("hostPublicKey", hostPublicKey context); ("assignmentEpoch", uint64 (assignmentEpoch context));
   ("previousGeneration",
      match previousGeneration context with None => [] | Some g => uint64 g end);
   ("resumeRequested", [if resumeRequested context then 1 else 0])].

(** A field on the wire, its name as bytes. *)
Definition raw_tlv (f : list Z * list Z) : list Z :=
  be_bytes 4 (Z.of_nat (length f.1)) ++ f.1 ++ be_bytes 4 (Z.of_nat (length f.2)) ++ f.2.

(** The time window of a challenge. *)
Definition fresh_at (issuedAt expiresAt now : Z) : Prop :=
  issuedAt <= now <= expiresAt /\ expiresAt <= issuedAt + 10000.

(** ** Parsing *)

Lemma getUint32_some buf offset n :
  bytes_ok buf -> 0 <= offset -> getUint32 buf offset = Some n ->
  0 <= n < 2 ^ 32 /\ offset + 4 <= Z.of_nat (length buf) /\
  take 4 (drop (Z.to_nat offset) buf) = be_bytes 4 n.
Proof.
  intros Hb Ho. unfold getUint32. destruct (Z.leb_spec (offset + 4) (Z.of_nat (length buf))); [|done].
  intros [= <-]. set (w := take 4 _).
  assert (Hw : bytes_ok w) by (by apply Forall_take, Forall_drop).
  assert (Hl : length w = 4%nat) by (unfold w; rewrite length_take, length_drop; lia).
  pose proof (be_value_bound w Hw) as Hv. rewrite Hl in Hv.
  split; [exact Hv|]. split; [done|]. by rewrite <-Hl, be_bytes_value.
Qed.

(** What one iteration consumed. *)
Lemma slice_split buf off n :
  0 <= off -> 0 <= n -> off + n <= Z.of_nat (length buf) ->
  drop (Z.to_nat off) buf = slice buf off n ++ drop (Z.to_nat (off + n)) buf /\
  Z.of_nat (length (slice buf off n)) = n.
Proof.
  intros Ho Hn Hl. unfold slice. split.
  - rewrite Z2Nat.inj_add by lia. rewrite <-drop_drop. by rewrite take_drop.
  - rewrite length_take, length_drop. lia.
Qed.

Lemma word_split buf off n :
  bytes_ok buf -> 0 <= off -> getUint32 buf off = Some n ->
  0 <= n < 2 ^ 32 /\ off + 4 <= Z.of_nat (length buf) /\
  drop (Z.to_nat off) buf = be_bytes 4 n ++ drop (Z.to_nat (off + 4)) buf.
Proof.
  intros Hb Ho Hg. destruct (getUint32_some buf off n Hb Ho Hg) as (H1 & H2 & H3).
  split; [done|]. split; [done|]. rewrite <-H3, Z2Nat.inj_add by lia.
  rewrite <-drop_drop. by rewrite take_drop.
Qed.

(** The loop returns: enough fuel is the remaining length. *)
Lemma parse_loop_total fuel t off fields :
  bytes_ok t -> 0 <= off <= Z.of_nat (length t) -> Z.of_nat (length t) - off < Z.of_nat fuel ->
  is_Some (parse_loop fuel t off fields).
Proof.
  intros Hb. revert off fields. induction fuel as [|fuel IH]; intros off fields Ho Hf; [lia|].
  cbn [parse_loop]. destruct (Z.ltb_spec off (Z.of_nat (length t))); [|case_match; by eexists].
  destruct (getUint32 t off) as [n|] eqn:Hn; [|by eexists].
  destruct (word_split t off n Hb (proj1 Ho) Hn) as (Hn1 & Hn2 & _).
  destruct (getUint32 t (off + 4 + n)) as [m|] eqn:Hm; [|by eexists].
  destruct (word_split t (off + 4 + n) m Hb) as (Hm1 & Hm2 & _); [lia|done|].
  destruct (jm_has _ fields || _) eqn:E; [by eexists|].
  apply orb_false_iff in E as [_ E]. bool_to_prop. apply IH; lia.
Qed.

(** What an accepted parse says of the bytes. *)
Lemma parse_loop_sound fuel t off fields fields' :
  bytes_ok t -> 0 <= off <= Z.of_nat (length t) ->
  parse_loop fuel t off fields = Some (Some fields') ->
  exists fs, drop (Z.to_nat off) t = mjoin (map raw_tlv fs) /\
    jm_entries fields' = jm_entries fields ++ map (fun f => (textDecode f.1, f.2)) fs /\
    Forall (fun f => Z.of_nat (length f.1) < 2 ^ 32 /\ Z.of_nat (length f.2) < 2 ^ 32) fs.
Proof.
  intros Hb. revert off fields. induction fuel as [|fuel IH]; intros off fields Ho; [done|].
  cbn [parse_loop]. destruct (Z.ltb_spec off (Z.of_nat (length t))) as [Hlt|Hge].
  - destruct (getUint32 t off) as [n|] eqn:Hn; [|done].
    destruct (word_split t off n Hb (proj1 Ho) Hn) as (Hn1 & Hn2 & Hn3).
    destruct (getUint32 t (off + 4 + n)) as [m|] eqn:Hm; [|done].
    destruct (word_split t (off + 4 + n) m Hb) as (Hm1 & Hm2 & Hm3); [lia|done|].
    destruct (jm_has _ fields || _) eqn:E; [done|].
    apply orb_false_iff in E as [Hfresh E]. bool_to_prop.
    destruct (slice_split t (off + 4) n) as [Hs1 Hs2]; [lia..|].
    destruct (slice_split t (off + 4 + n + 4) m) as [Hv1 Hv2]; [lia..|].
    intros H. apply IH in H as (fs & Hd & Hent & Hall); [|lia].
    set (name := slice t (off + 4) n) in *. set (value := slice t (off + 4 + n + 4) m) in *.
    exists ((name, value) :: fs). split; [|split].
    + cbn [map]. change (mjoin (raw_tlv (name, value) :: map raw_tlv fs))
        with (raw_tlv (name, value) ++ mjoin (map raw_tlv fs)).
      unfold raw_tlv at 1. cbn [fst snd]. rewrite Hs2, Hv2, <-Hd.
      rewrite <-!app_assoc, <-Hv1, <-Hm3, <-Hs1. exact Hn3.
    + rewrite Hent. rewrite jm_insert_fresh.
      * by rewrite <-app_assoc.
      * unfold jm_has in Hfresh. by destruct (fields !! textDecode name).
    + constructor; [|done]. simpl. lia.
  - destruct (Z.eqb_spec off (Z.of_nat (length t))) as [->|]; [|done]. intros [= <-].
    exists []. split; [|split; [by rewrite app_nil_r|constructor]].
    rewrite drop_ge; [done|lia].
Qed.

(** And conversely for fields with short, distinct, decodable names. *)
Lemma be_bytes_4_value n : 0 <= n < 2 ^ 32 -> be_value (be_bytes 4 n) = n.
Proof. intros H. rewrite be_value_bytes. by apply Z.mod_small. Qed.

Lemma getUint32_app pre n rest :
  0 <= n < 2 ^ 32 ->
  getUint32 (pre ++ be_bytes 4 n ++ rest) (Z.of_nat (length pre)) = Some n.
Proof.
  intros Hn. unfold getUint32. rewrite !length_app, length_be_bytes.
  rewrite (proj2 (Z.leb_le _ _)) by lia. rewrite Nat2Z.id, drop_app_length.
  rewrite take_app_le by (by rewrite length_be_bytes).
  rewrite take_ge by (by rewrite length_be_bytes). by rewrite be_bytes_4_value.
Qed.

Lemma slice_app pre v rest :
  slice (pre ++ v ++ rest) (Z.of_nat (length pre)) (Z.of_nat (length v)) = v.
Proof. unfold slice. by rewrite !Nat2Z.id, drop_app_length, take_app_length. Qed.

Lemma parse_loop_complete fuel pre fs fields :
  (length fs < fuel)%nat ->
  Forall (fun f => Z.of_nat (length (utf8 f.1)) < 2 ^ 32 /\ Z.of_nat (length f.2) < 2 ^ 32) fs ->
  Forall (fun f => textDecode (utf8 f.1) = f.1) fs ->
  NoDup (map fst (jm_entries fields) ++ map fst fs) ->
  parse_loop fuel (pre ++ mjoin (map raw_tlv (map (fun f => (utf8 f.1, f.2)) fs)))
    (Z.of_nat (length pre)) fields
  = Some (Some (JsMap (jm_entries fields ++ fs))).
Proof.
  revert pre fs fields. induction fuel as [|fuel IH]; intros pre fs fields Hf Hs Hd Hnd; [lia|].
  destruct fs as [|[n v] fs].
  - cbn [map parse_loop]. change (mjoin []) with (@nil Z). rewrite !app_nil_r.
    rewrite Z.ltb_irrefl, Z.eqb_refl. by destruct fields.
  - apply Forall_cons in Hs as [[Hs1 Hs2] Hs]. apply Forall_cons in Hd as [Hd1 Hd]. cbn [fst snd] in *.
    set (rest := mjoin (map raw_tlv (map (fun f => (utf8 f.1, f.2)) fs))).
    set (t := pre ++ mjoin _).
    assert (Ht : t = pre ++ be_bytes 4 (Z.of_nat (length (utf8 n))) ++ utf8 n ++
                     be_bytes 4 (Z.of_nat (length v)) ++ v ++ rest).
    { unfold t, rest. cbn [map]. change (mjoin (?x :: ?l)) with (x ++ mjoin l).
      unfold raw_tlv at 1. cbn [fst snd]. by rewrite <-!app_assoc. }
    cbn [parse_loop]. rewrite (proj2 (Z.ltb_lt _ _)) by (rewrite Ht, !length_app, length_be_bytes; lia).
    rewrite Ht at 1. rewrite getUint32_app by lia.
    assert (Hn : slice t (Z.of_nat (length pre) + 4) (Z.of_nat (length (utf8 n))) = utf8 n).
    { rewrite Ht, app_assoc.
      replace (Z.of_nat (length pre) + 4)
        with (Z.of_nat (length (pre ++ be_bytes 4 (Z.of_nat (length (utf8 n))))))
        by (rewrite length_app, length_be_bytes; lia). apply slice_app. }
    rewrite Hn, Hd1.
    assert (Hm : getUint32 t (Z.of_nat (length pre) + 4 + Z.of_nat (length (utf8 n)))
                 = Some (Z.of_nat (length v))).
    { rewrite Ht, app_assoc, app_assoc.
      replace (Z.of_nat (length pre) + 4 + Z.of_nat (length (utf8 n)))
        with (Z.of_nat (length ((pre ++ be_bytes 4 (Z.of_nat (length (utf8 n)))) ++ utf8 n)))
        by (rewrite !length_app, length_be_bytes; lia). apply getUint32_app. lia. }
    rewrite Hm.
    set (pre' := ((pre ++ be_bytes 4 (Z.of_nat (length (utf8 n)))) ++ utf8 n)
                 ++ be_bytes 4 (Z.of_nat (length v))).
    assert (Hpre' : Z.of_nat (length pre') =
      Z.of_nat (length pre) + 4 + Z.of_nat (length (utf8 n)) + 4)
      by (unfold pre'; rewrite !length_app, !length_be_bytes; lia).
    assert (Ht' : t = pre' ++ v ++ rest) by (rewrite Ht; unfold pre'; by rewrite <-!app_assoc).
    rewrite <-Hpre'.
    assert (Hfresh : fields !! n = None).
    { destruct (fields !! n) eqn:E; [|done]. exfalso.
      apply NoDup_app in Hnd as (_ & Hni & _). apply (Hni n); [|left].
      apply jm_is_Some_key. by eexists. }
    unfold jm_has. rewrite Hfresh. cbn [orb].
    rewrite (proj2 (Z.ltb_ge _ _)) by (rewrite Ht', !length_app; lia).
    rewrite Ht' at 2. rewrite slice_app.
    replace (Z.of_nat (length pre') + Z.of_nat (length v)) with (Z.of_nat (length (pre' ++ v)))
      by (rewrite length_app; lia).
    rewrite Ht', app_assoc. unfold rest. rewrite IH; [|simpl in Hf; lia|done|done|].
    + rewrite jm_insert_fresh by done. by rewrite <-app_assoc.
    + rewrite jm_insert_fresh by done. rewrite map_app, <-app_assoc. exact Hnd.
Qed.
End HostProof.

(** ** Validation *)

Section Validation.
Context (textDecode : list Z -> string).

Lemma equal_true v r : equal v r = true <-> v = Some r.
Proof.
  unfold equal. destruct v as [l|]; [|done]. rewrite bool_decide_eq_true. split; congruence.
Qed.

Lemma parse_loop_wf fuel t off fields fields' :
  jm_wf fields -> parse_loop textDecode fuel t off fields = Some (Some fields') -> jm_wf fields'.
Proof.
  revert off fields. induction fuel as [|fuel IH]; intros off fields Hwf; [done|].
  cbn [parse_loop]. repeat (case_match; try done); intros H'; simplify_eq; [|done].
  eapply IH; [|exact H']. by apply jm_wf_insert.
Qed.

(** A well-formed map with the entries of [l] and as many entries is [l]. *)
Lemma entries_perm {K V} `{EqDecision K} (m : jsmap K V) (l : list (K * V)) :
  jm_wf m -> NoDup l.*1 -> length (jm_entries m) = length l ->
  Forall (fun x => m !! x.1 = Some x.2) l -> jm_entries m ≡ₚ l.
Proof.
  intros Hwf Hnd Hlen Hall.
  assert (Hsub : l ⊆+ jm_entries m).
  { apply NoDup_submseteq; [by apply NoDup_fmap_1 in Hnd|]. intros [k v] Hin.
    rewrite Forall_forall in Hall. apply jm_lookup_Some_elem. by apply (Hall (k, v)). }
  symmetry. apply submseteq_length_Permutation; [done|lia].
Qed.

Lemma raw_tlv_bytes fs n v :
  bytes_ok (mjoin (map raw_tlv fs)) -> (n, v) ∈ fs -> bytes_ok v.
Proof.
  induction fs as [|f fs IH]; [by intros _ ?%elem_of_nil|].
  cbn [map]. change (mjoin (?x :: ?l)) with (x ++ mjoin l).
  intros [H1 H2]%Forall_app [<-|Hin]%elem_of_cons; [|auto].
  unfold raw_tlv in H1. by repeat (apply Forall_app in H1 as [? H1]).
Qed.

Lemma readUint64_some v z :
  readUint64 v = Some z -> (forall bs, v = Some bs -> bytes_ok bs) -> v = Some (uint64 z).
Proof.
  unfold readUint64. destruct v as [bs|]; [|done]. destruct (Nat.eqb_spec (length bs) 8) as [Hl|]; [|done].
  destruct (_ <=? _); [|done]. intros [= <-] Hb. unfold uint64. by rewrite <-Hl, be_bytes_value by auto.
Qed.

Lemma NoDup_expected ch ctx rk nonce issuedAt : NoDup (expected_fields ch ctx rk nonce issuedAt).*1.
Proof. apply (bool_decide_unpack _). vm_compute. exact I. Qed.

Lemma validateTranscript_sound t ch ctx rk nonce :
  bytes_ok t -> validateTranscript textDecode t ch ctx rk nonce = true ->
  exists issuedAt fs,
    t = mjoin (map raw_tlv fs) /\
    map (fun f => (textDecode f.1, f.2)) fs ≡ₚ expected_fields ch ctx rk nonce issuedAt /\
    fresh_at issuedAt (ch_expiresAt ch) (ctx_now ctx).
Proof.
  intros Hb. unfold validateTranscript.
  destruct (parseTranscript textDecode t) as [fields|] eqn:Hp; [|done].
  unfold parseTranscript in Hp. revert Hp. generalize (S (length t)). intros fuel Hp.
  destruct (parse_loop textDecode fuel t 0 ∅) as [[r|]|] eqn:Hl; simplify_eq/=.
  pose proof (parse_loop_wf _ _ _ _ _ (jm_wf_empty (K:=string)) Hl) as Hwf.
  apply parse_loop_sound in Hl as (fs & Hd & Hent & _); [|done|lia]. cbn in Hd, Hent.
  destruct (Z.eqb_spec (jm_size fields) 16) as [Hsz|]; [|done]. cbn [negb].
  destruct (readUint64 (fields !! "issuedAt")) as [issuedAt|] eqn:Hi; [|done].
  intros Hv. repeat (apply andb_true_iff in Hv as [Hv ?]).
  repeat match goal with H : equal _ _ = true |- _ => apply equal_true in H end.
  bool_to_prop.
  exists issuedAt, fs. split; [done|]. split; [|unfold fresh_at; lia].
  rewrite <-Hent.
  assert (Hbytes : forall k bs, fields !! k = Some bs -> bytes_ok bs).
  { intros k bs Hk%jm_lookup_Some_elem. rewrite Hent in Hk.
    apply list_elem_of_fmap in Hk as ([n v] & [= -> ->] & Hin).
    apply (raw_tlv_bytes fs n); [by rewrite <-Hd|done]. }
  apply readUint64_some in Hi; [|by apply Hbytes].
  match goal with H : readUint64 (fields !! "expiresAt") = _ |- _ =>
    apply readUint64_some in H; [|by apply Hbytes] end.
  apply entries_perm; [done|apply NoDup_expected| |].
  - unfold jm_size in Hsz. change (length (expected_fields ch ctx rk nonce issuedAt)) with 16%nat. lia.
  - unfold expected_fields. repeat (constructor; [assumption|]). constructor.
Qed.
End Validation.

(** ** Properties *)

Section Properties.
Context (buffer_from : string -> list Z).
Context (textDecode : list Z -> string).
Context (box_open : list Z -> list Z -> list Z -> list Z -> option (list Z)).
Context (hmac_sha256 : list Z -> list Z -> list Z).
Abbreviation answer := (answerRelayHostChallenge buffer_from textDecode box_open hmac_sha256).

Lemma decodeCanonicalBase64_some value n bs :
  decodeCanonicalBase64 buffer_from value n = Some bs -> btoa bs = value /\ length bs = n.
Proof.
  unfold decodeCanonicalBase64. destruct (negb _); [done|]. destruct (_ && _) eqn:E; [|done].
  intros [= <-]. apply andb_true_iff in E as [E1 E2]. by apply String.eqb_eq in E2; apply Nat.eqb_eq in E1.
Qed.

(** The plaintext of a challenge. *)
Definition challenge_plaintext (transcript secret : list Z) : list Z :=
  plaintext_domain ++ be_bytes 4 (Z.of_nat (length transcript)) ++ transcript ++ secret.

(** The host answers a challenge only if the box opens, with its own key, to
    a transcript that consists of exactly the sixteen fields of this very
    connection and challenge, inside the ten-second window; the answer is then
    the HMAC of that transcript under the boxed secret. *)
Theorem answer_binds_connection ch ctx proof :
  (forall c n k sk p, box_open c n k sk = Some p -> bytes_ok p) ->
  answer ch ctx = Some proof ->
  exists ciphertext relayKey nonce transcript secret issuedAt fs,
    box_open ciphertext nonce relayKey (hostSecretKey ctx)
      = Some (challenge_plaintext transcript secret) /\
    btoa ciphertext = ciphertextB64 ch /\ btoa relayKey = relayEphemeralPublicKeyB64 ch /\
    btoa nonce = nonceB64 ch /\ length secret = 32%nat /\
    transcript = mjoin (map raw_tlv fs) /\
    map (fun f => (textDecode f.1, f.2)) fs ≡ₚ expected_fields ch ctx relayKey nonce issuedAt /\
    fresh_at issuedAt (ch_expiresAt ch) (ctx_now ctx) /\
    proof = btoa (hmac_sha256 secret (ack_domain ++ transcript)).
Proof.
  intros Hbox. unfold answerRelayHostChallenge.
  destruct (decodeCanonicalBase64 _ (relayEphemeralPublicKeyB64 ch) _) as [rk|] eqn:Hrk; [|done].
  destruct (decodeCanonicalBase64 _ (nonceB64 ch) _) as [nonce|] eqn:Hnonce; [|done].
  apply decodeCanonicalBase64_some in Hrk as [Hrk _].
  apply decodeCanonicalBase64_some in Hnonce as [Hnonce _].
  destruct (String.eqb_spec (btoa (buffer_from (ciphertextB64 ch))) (ciphertextB64 ch)) as [Hc|]; [|done].
  destruct (box_open _ nonce rk (hostSecretKey ctx)) as [p|] eqn:Hopen; [|done].
  pose proof (Hbox _ _ _ _ _ Hopen) as Hp. cbn [negb].
  destruct (equal (Some (take (length plaintext_domain) p)) plaintext_domain) eqn:Hdom; [|done].
  apply equal_true in Hdom. apply (inj Some) in Hdom.
  destruct (Z.ltb_spec (Z.of_nat (length p)) (Z.of_nat (length plaintext_domain) + 36)); [done|].
  cbn [negb orb]. destruct (getUint32 p _) as [len|] eqn:Hlen; [|done].
  destruct (word_split p _ len Hp (Nat2Z.is_nonneg _) Hlen) as (Hl1 & Hl2 & Hl3).
  destruct (Z.eqb_spec (Z.of_nat (length plaintext_domain) + 4 + len + 32) (Z.of_nat (length p)))
    as [Htot|]; [|done]. cbn [negb].
  destruct (slice_split p (Z.of_nat (length plaintext_domain) + 4) len) as [Hs1 Hs2]; [lia..|].
  set (transcript := slice p (Z.of_nat (length plaintext_domain) + 4) len) in *.
  destruct (validateTranscript _ transcript ch ctx rk nonce) eqn:Hv; [|done]. intros [= <-].
  assert (Hbt : bytes_ok transcript) by (by apply Forall_take, Forall_drop).
  destruct (validateTranscript_sound textDecode transcript ch ctx rk nonce Hbt Hv)
    as (issuedAt & fs & Ht & Hperm & Hfresh).
  eexists _, rk, nonce, transcript, _, issuedAt, fs. split_and!; try done.
  - rewrite Hopen. f_equal. unfold challenge_plaintext. rewrite Hs2.
    rewrite <-(take_drop (length plaintext_domain) p) at 1. rewrite Hdom. f_equal.
    rewrite Nat2Z.id in Hl3. rewrite Hl3, Hs1. reflexivity.
  - change (length plaintext_domain) with 29%nat in Htot, Hl1. rewrite length_drop. lia.
Qed.

(** The challenge a relay makes for a connection. *)
Definition make_transcript (ch : RelayHostChallenge) (ctx : RelayHostProofContext)
    (relayKey nonce : list Z) (issuedAt : Z) : list Z :=
  mjoin (map raw_tlv (map (fun f => (utf8 f.1, f.2)) (expected_fields ch ctx relayKey nonce issuedAt))).

Definition short_fields (fs : list (string * list Z)) : Prop :=
  Forall (fun f => Z.of_nat (length (utf8 f.1)) < 2 ^ 32 /\ Z.of_nat (length f.2) < 2 ^ 32) fs.

Lemma readUint64_uint64 z :
  0 <= z <= MAX_SAFE_INTEGER -> readUint64 (Some (uint64 z)) = Some z.
Proof.
  intros Hz. unfold readUint64, uint64. rewrite length_be_bytes, be_value_bytes. cbn [Nat.eqb].
  unfold MAX_SAFE_INTEGER in *. rewrite Z.mod_small by (change (256 ^ Z.of_nat 8) with (2 ^ 64); lia).
  by rewrite (proj2 (Z.leb_le _ _)) by lia.
Qed.

Lemma validateTranscript_complete ch ctx rk nonce issuedAt :
  short_fields (expected_fields ch ctx rk nonce issuedAt) ->
  Forall (fun f => textDecode (utf8 f.1) = f.1) (expected_fields ch ctx rk nonce issuedAt) ->
  0 <= issuedAt <= MAX_SAFE_INTEGER -> 0 <= ch_expiresAt ch <= MAX_SAFE_INTEGER ->
  fresh_at issuedAt (ch_expiresAt ch) (ctx_now ctx) ->
  validateTranscript textDecode (make_transcript ch ctx rk nonce issuedAt) ch ctx rk nonce = true.
Proof.
  intros Hs Hd Hi He Hf. unfold validateTranscript, parseTranscript.
  set (fs := expected_fields ch ctx rk nonce issuedAt) in *.
  assert (Hp : parse_loop textDecode (S (length (make_transcript ch ctx rk nonce issuedAt)))
    (make_transcript ch ctx rk nonce issuedAt) 0 ∅ = Some (Some (JsMap fs))).
  { pose proof (parse_loop_complete textDecode (S (length (make_transcript ch ctx rk nonce issuedAt)))
      [] fs ∅) as Hc. apply Hc; clear Hc; [|done|done|by apply NoDup_expected].
    unfold make_transcript. fold fs.
    assert (Hlen : forall l : list (string * list Z),
      (length l <= length (mjoin (map raw_tlv (map (fun f => (utf8 f.1, f.2)) l))))%nat).
    { induction l as [|f l IH]; [done|]. cbn [map length]. change (mjoin (?x :: ?y)) with (x ++ mjoin y).
      unfold raw_tlv at 1. rewrite !length_app, length_be_bytes. lia. }
    specialize (Hlen fs). lia. }
  rewrite Hp. cbn [mjoin option_join]. change (jm_size (JsMap fs)) with 16. cbn [Z.eqb Pos.eqb negb].
  assert (Hl : forall k v, al_lookup k fs = v -> JsMap fs !! k = v) by done.
  rewrite (Hl "issuedAt" (Some (uint64 issuedAt)) eq_refl), readUint64_uint64 by done.
  rewrite (Hl "expiresAt" (Some (uint64 (ch_expiresAt ch))) eq_refl), readUint64_uint64 by done.
  destruct Hf as [Hf1 Hf2].
  rewrite !(proj2 (Z.leb_le _ _)) by lia. rewrite bool_decide_eq_true_2 by done. cbn [andb].
  repeat (apply andb_true_iff; split); by apply equal_true, Hl.
Qed.

(** Every challenge a relay makes for this connection, boxed to the host's
    key and within its time window, is answered with the HMAC of its
    transcript. *)
Theorem answer_complete ch ctx ciphertext relayKey nonce secret issuedAt :
  let transcript := make_transcript ch ctx relayKey nonce issuedAt in
  (forall bs, bytes_ok bs -> buffer_from (btoa bs) = bs) ->
  Forall (fun f => textDecode (utf8 f.1) = f.1) (expected_fields ch ctx relayKey nonce issuedAt) ->
  box_open ciphertext nonce relayKey (hostSecretKey ctx)
    = Some (challenge_plaintext transcript secret) ->
  bytes_ok ciphertext -> bytes_ok relayKey -> bytes_ok nonce ->
  length relayKey = 32%nat -> length nonce = 24%nat -> length secret = 32%nat ->
  ciphertextB64 ch = btoa ciphertext -> relayEphemeralPublicKeyB64 ch = btoa relayKey ->
  nonceB64 ch = btoa nonce ->
  short_fields (expected_fields ch ctx relayKey nonce issuedAt) ->
  Z.of_nat (length transcript) < 2 ^ 32 ->
  0 <= issuedAt <= MAX_SAFE_INTEGER -> 0 <= ch_expiresAt ch <= MAX_SAFE_INTEGER ->
  fresh_at issuedAt (ch_expiresAt ch) (ctx_now ctx) ->
  answer ch ctx = Some (btoa (hmac_sha256 secret (ack_domain ++ transcript))).
Proof.
  intros transcript Hbuf Hdec Hopen Hc Hrk Hn Hlrk Hln Hls Ec Erk En Hshort Hlt Hi He Hf.
  unfold answerRelayHostChallenge.
  assert (Hcan : forall bs n, bytes_ok bs -> length bs = n ->
    decodeCanonicalBase64 buffer_from (btoa bs) n = Some bs).
  { intros bs n Hb <-. unfold decodeCanonicalBase64. rewrite canonical_shape_btoa, Hbuf by done.
    cbn [negb]. by rewrite Nat.eqb_refl, String.eqb_refl. }
  rewrite Erk, En, Ec, !Hcan, Hbuf, String.eqb_refl, Hopen by done. cbn [negb].
  pose proof (validateTranscript_complete ch ctx relayKey nonce issuedAt Hshort Hdec Hi He Hf) as Hv.
  fold transcript in Hv. clearbody transcript.
  assert (Hp : length (challenge_plaintext transcript secret)
    = (length plaintext_domain + 4 + length transcript + 32)%nat).
  { unfold challenge_plaintext. rewrite !length_app, length_be_bytes. lia. }
  rewrite Hp. unfold challenge_plaintext at 1. rewrite take_app_length.
  replace (equal (Some plaintext_domain) plaintext_domain) with true by (symmetry; by apply equal_true).
  rewrite (proj2 (Z.ltb_ge _ _)) by lia. cbn [negb orb].
  unfold challenge_plaintext at 1. rewrite getUint32_app by lia.
  rewrite (proj2 (Z.eqb_eq _ _)) by lia. cbn [negb].
  assert (Hs : challenge_plaintext transcript secret =
    (plaintext_domain ++ be_bytes 4 (Z.of_nat (length transcript))) ++ transcript ++ secret)
    by (unfold challenge_plaintext; by rewrite <-app_assoc).
  assert (Hoff : Z.of_nat (length plaintext_domain) + 4 =
    Z.of_nat (length (plaintext_domain ++ be_bytes 4 (Z.of_nat (length transcript)))))
    by (rewrite length_app, length_be_bytes; lia).
  rewrite Hs, Hoff, slice_app, Hv. cbn [negb]. do 3 f_equal.
  rewrite app_assoc. rewrite drop_app_length'; [done|]. rewrite (length_app _ transcript). lia.
Qed.
End Properties.

(** ** Witnesses *)

Definition demo_key : list Z := replicate 32 7.
Definition demo_nonce : list Z := replicate 24 9.
Definition demo_secret : list Z := replicate 32 5.
Definition demo_cipher : list Z := [1; 2; 3].
Definition demo_challenge : RelayHostChallenge :=
  {| challengeId := "c"; relayEphemeralPublicKeyB64 := btoa demo_key; nonceB64 := btoa demo_nonce;
     ciphertextB64 := btoa demo_cipher; ch_expiresAt := 1700000009000 |}.
Definition demo_context : RelayHostProofContext :=
  {| relayOrigin := "https://cell"; userId := "u"; profileId := "p"; organizationId := "o";
     relayHostId := "h"; hostPublicKey := replicate 32 3; hostSecretKey := replicate 32 4;
     assignmentEpoch := 2; previousGeneration := None; resumeRequested := false;
     ctx_now := 1700000001000 |}.
Definition demo_transcript : list Z :=
  make_transcript demo_challenge demo_context demo_key demo_nonce 1700000000000.
Definition demo_buffer (s : string) : list Z := default [] (atob s).
Definition demo_decode (bs : list Z) : string :=
  of_chars (map (fun b => Ascii.ascii_of_nat (Z.to_nat b)) bs).
Definition demo_box (c n k sk : list Z) : option (list Z) :=
  if bool_decide (n = demo_nonce) then Some (challenge_plaintext demo_transcript demo_secret) else None.
Definition demo_hmac (key msg : list Z) : list Z := take 3 key.

Lemma demo_bytes : bytes_ok (challenge_plaintext demo_transcript demo_secret).
Proof.
  assert (H : forallb (fun b => (0 <=? b) && (b <? 256)) (challenge_plaintext demo_transcript demo_secret)
              = true) by (vm_compute; reflexivity).
  rewrite forallb_forall in H. apply Forall_forall. intros b Hb%list_elem_of_In.
  specialize (H b Hb). bool_to_prop. unfold byte_ok. lia.
Qed.

Lemma answer_complete_witness :
  answerRelayHostChallenge demo_buffer demo_decode demo_box demo_hmac demo_challenge demo_context
  = Some (btoa (demo_hmac demo_secret (ack_domain ++ demo_transcript))).
Proof.
  apply (answer_complete demo_buffer demo_decode demo_box demo_hmac demo_challenge demo_context
    demo_cipher demo_key demo_nonce demo_secret 1700000000000); try reflexivity.
  - intros bs Hb. unfold demo_buffer. by rewrite atob_btoa.
  - repeat (constructor; [vm_compute; reflexivity|]). constructor.
  - repeat (constructor; [unfold byte_ok; lia|]). constructor.
  - repeat (constructor; [unfold byte_ok; lia|]). constructor.
  - repeat (constructor; [unfold byte_ok; lia|]). constructor.
  - repeat (constructor; [split; vm_compute; reflexivity|]). constructor.
  - split; vm_compute; discriminate.
  - split; vm_compute; discriminate.
  - split; [split|]; vm_compute; discriminate.
Defined.

Lemma answer_binds_connection_witness :
  exists ciphertext transcript secret,
    demo_box ciphertext demo_nonce demo_key (hostSecretKey demo_context)
    = Some (challenge_plaintext transcript secret) /\ length secret = 32%nat.
Proof.
  destruct (answer_binds_connection demo_buffer demo_decode demo_box demo_hmac demo_challenge
    demo_context (btoa (demo_hmac demo_secret (ack_domain ++ demo_transcript))))
    as (c & rk & n & t & s & i & fs & H & _ & _ & _ & Hs & _).
  - unfold demo_box. intros c n k sk p. case_bool_decide; [|done]. intros [= <-]. apply demo_bytes.
  - vm_compute. reflexivity.
  - exists c, t, s. split; [|exact Hs]. revert H. unfold demo_box.
    destruct (bool_decide (n = demo_nonce)); [|discriminate].
    rewrite bool_decide_eq_true_2 by reflexivity. intros H. exact H.
Defined.
