(* ===== verification/AuthCoordinator.v ===== *)
(** * The relay auth coordinator (src/main/runtime/relay/relay-auth-coordinator.ts)

    It keeps at most one broker, for the signed-in identity, while there is
    demand. Every [reconcile] starts an asynchronous task with a new epoch; a
    task waits for the auth context, then possibly for the broker it opens.
    Ownership objects are shared by the coordinator, the pending set and the
    callbacks of the broker, so they live in a heap ([owners]) and are named by
    their position; tasks and brokers are numbered in the order they start.
    Contexts, demand and the outcome of opening a broker are inputs.

    Theorems: every broker ever opened is the active one or was closed exactly
    once, so nothing survives a fence or a stop; the active broker is of the
    identity last read; a broker is told it is current exactly while it is the
    active one. *)

From S2P Require Import Prelude JsMap.

Local Open Scope string_scope.
Local Open Scope list_scope.
Local Open Scope Z_scope.

Record RelayAuthIdentity := { userId : string; profileId : string; organizationId : string }.
Record RelayAuthContext := {
  identity : RelayAuthIdentity; accessToken : string; relayEntitled : bool }.

Inductive RelayBrokerStatus := Offline | Standby | Connecting | Registered.

Definition identityKey (i : RelayAuthIdentity) : string :=
  (userId i +:+ nul +:+ profileId i +:+ nul +:+ organizationId i)%string.

Record BrokerOwnership := { own_key : string; own_broker : option nat; own_valid : bool }.

Inductive Task :=
  | AwaitContext (epoch : Z)
  | AwaitBroker (epoch : Z) (owner : nat)
  | Done.

Inductive effect := OnStatus (s : RelayBrokerStatus) | CloseNow (broker : nat).

Record RelayAuthCoordinator := {
  authEpoch : Z;
  ownership : option nat;
  pendingOwnerships : list nat;
  latestReconcile : option nat;
  lingerTimer : option nat;
  stopped : bool;
  owners : list BrokerOwnership;
  tasks : list Task;
  brokers : nat;
  effects : list effect }.
Implicit Types c : RelayAuthCoordinator.

Definition new_coordinator : RelayAuthCoordinator :=
  {| authEpoch := 0; ownership := None; pendingOwnerships := []; latestReconcile := None;
     lingerTimer := None; stopped := false; owners := []; tasks := []; brokers := 0;
     effects := [] |}.

(** ** Updates of one field *)

Definition with_epoch (e : Z) c : RelayAuthCoordinator :=
  {| authEpoch := e; ownership := ownership c; pendingOwnerships := pendingOwnerships c;
     latestReconcile := latestReconcile c; lingerTimer := lingerTimer c; stopped := stopped c;
     owners := owners c; tasks := tasks c; brokers := brokers c; effects := effects c |}.
Definition with_ownership (o : option nat) c : RelayAuthCoordinator :=
  {| authEpoch := authEpoch c; ownership := o; pendingOwnerships := pendingOwnerships c;
     latestReconcile := latestReconcile c; lingerTimer := lingerTimer c; stopped := stopped c;
     owners := owners c; tasks := tasks c; brokers := brokers c; effects := effects c |}.
Definition with_pending (l : list nat) c : RelayAuthCoordinator :=
  {| authEpoch := authEpoch c; ownership := ownership c; pendingOwnerships := l;
     latestReconcile := latestReconcile c; lingerTimer := lingerTimer c; stopped := stopped c;
     owners := owners c; tasks := tasks c; brokers := brokers c; effects := effects c |}.
Definition with_linger (t : option nat) c : RelayAuthCoordinator :=
  {| authEpoch := authEpoch c; ownership := ownership c; pendingOwnerships := pendingOwnerships c;
     latestReconcile := latestReconcile c; lingerTimer := t; stopped := stopped c;
     owners := owners c; tasks := tasks c; brokers := brokers c; effects := effects c |}.
Definition with_owners (l : list BrokerOwnership) c : RelayAuthCoordinator :=
  {| authEpoch := authEpoch c; ownership := ownership c; pendingOwnerships := pendingOwnerships c;
     latestReconcile := latestReconcile c; lingerTimer := lingerTimer c; stopped := stopped c;
     owners := l; tasks := tasks c; brokers := brokers c; effects := effects c |}.
Definition with_tasks (latest : option nat) (l : list Task) c : RelayAuthCoordinator :=
  {| authEpoch := authEpoch c; ownership := ownership c; pendingOwnerships := pendingOwnerships c;
     latestReconcile := latest; lingerTimer := lingerTimer c; stopped := stopped c;
     owners := owners c; tasks := l; brokers := brokers c; effects := effects c |}.
Definition with_brokers (n : nat) c : RelayAuthCoordinator :=
  {| authEpoch := authEpoch c; ownership := ownership c; pendingOwnerships := pendingOwnerships c;
     latestReconcile := latestReconcile c; lingerTimer := lingerTimer c; stopped := stopped c;
     owners := owners c; tasks := tasks c; brokers := n; effects := effects c |}.
Definition with_stopped c : RelayAuthCoordinator :=
  {| authEpoch := authEpoch c; ownership := ownership c; pendingOwnerships := pendingOwnerships c;
     latestReconcile := latestReconcile c; lingerTimer := lingerTimer c; stopped := true;
     owners := owners c; tasks := tasks c; brokers := brokers c; effects := effects c |}.
Definition emit (e : effect) c : RelayAuthCoordinator :=
  {| authEpoch := authEpoch c; ownership := ownership c; pendingOwnerships := pendingOwnerships c;
     latestReconcile := latestReconcile c; lingerTimer := lingerTimer c; stopped := stopped c;
     owners := owners c; tasks := tasks c; brokers := brokers c; effects := effects c ++ [e] |}.

Definition onStatus (s : RelayBrokerStatus) c : RelayAuthCoordinator := emit (OnStatus s) c.

Definition invalid (o : BrokerOwnership) : BrokerOwnership :=
  {| own_key := own_key o; own_broker := own_broker o; own_valid := false |}.
Definition with_broker (b : nat) (o : BrokerOwnership) : BrokerOwnership :=
  {| own_key := own_key o; own_broker := Some b; own_valid := own_valid o |}.

(** ** Private methods *)

Definition isEpochCurrent (epoch : Z) c : bool := negb (stopped c) && (authEpoch c =? epoch).

Definition cancelLinger c : RelayAuthCoordinator := with_linger None c.

(** [ownership.valid = false] for each pending one, then [clear()]. *)
Definition invalidatePendingOwnerships c : RelayAuthCoordinator :=
  with_pending [] (with_owners (foldl (fun l r => alter invalid r l) (owners c) (pendingOwnerships c)) c).

Definition invalidateOwnership c : RelayAuthCoordinator :=
  match ownership c with
  | None => with_ownership None c
  | Some r =>
      let c := with_owners (alter invalid r (owners c)) (with_ownership None c) in
      match owners c !! r with
      | Some o => match own_broker o with Some b => emit (CloseNow b) c | None => c end
      | None => c
      end
  end.

(** [this.ownership?.valid], with the object. *)
Definition valid_ownership c : option (nat * BrokerOwnership) :=
  r ← ownership c; o ← owners c !! r; if own_valid o then Some (r, o) else None.

Definition getActiveBroker c : option nat :=
  match valid_ownership c with Some (_, o) => own_broker o | None => None end.

(** The timer captures the ownership it was armed for. *)
Definition scheduleLinger (r : nat) c : RelayAuthCoordinator :=
  match lingerTimer c with Some _ => c | None => with_linger (Some r) c end.

(** ** Public methods *)

Definition reconcile c : RelayAuthCoordinator :=
  if stopped c then c
  else
    let epoch := authEpoch c + 1 in
    let c := invalidatePendingOwnerships (with_epoch epoch c) in
    with_tasks (Some (length (tasks c))) (tasks c ++ [AwaitContext epoch]) c.

Definition fenceAndCloseNow c : RelayAuthCoordinator :=
  onStatus Offline (invalidateOwnership (invalidatePendingOwnerships (cancelLinger
    (with_epoch (authEpoch c + 1) c)))).

Definition stop c : RelayAuthCoordinator := fenceAndCloseNow (with_stopped c).

(** [waitForActiveBroker]: the head of the loop returns or awaits the latest
    task, and continues when that task has ended. *)
Inductive waiter := Returns (broker : option nat) | Awaits (task : option nat).
Definition wait_check c : waiter :=
  if stopped c then Returns None
  else match getActiveBroker c with
       | Some b => Returns (Some b)
       | None => Awaits (latestReconcile c)
       end.
Definition wait_resume (task : option nat) c : waiter :=
  if bool_decide (task = latestReconcile c) then Returns (getActiveBroker c) else wait_check c.

(** ** [reconcileEpoch] *)

(** The [catch] block. *)
Definition failed (epoch : Z) c : RelayAuthCoordinator :=
  if isEpochCurrent epoch c then onStatus Offline c else c.

(** How a promise ended. *)
Inductive settled (A : Type) := Fulfilled (x : A) | RejectedWith.
Arguments Fulfilled {A} _.
Arguments RejectedWith {A}.

(** After [await readContext()]: what the task awaits next. [demand] is what
    [hasDemand] returns when it is asked; [RejectedWith] if it throws. *)
Definition context_ready (epoch : Z) (context : settled (option RelayAuthContext))
    (demand : settled bool) c : RelayAuthCoordinator * Task :=
  match context with
  | RejectedWith => (failed epoch c, Done)
  | Fulfilled context =>
      if negb (isEpochCurrent epoch c) then (c, Done)
      else
        match context with
        | Some context =>
            if negb (relayEntitled context)
            then (onStatus Offline (invalidateOwnership (cancelLinger c)), Done)
            else
              let nextIdentityKey := identityKey (identity context) in
              match demand with
              | RejectedWith => (failed epoch c, Done)
              | Fulfilled false =>
                  let c :=
                    match valid_ownership c with
                    | Some (r, o) =>
                        if String.eqb (own_key o) nextIdentityKey then scheduleLinger r c
                        else invalidateOwnership (cancelLinger c)
                    | None => c
                    end in
                  (onStatus Standby c, Done)
              | Fulfilled true =>
                  let c := cancelLinger c in
                  let same := match valid_ownership c with
                              | Some (_, o) => String.eqb (own_key o) nextIdentityKey
                              | None => false
                              end in
                  if same then (onStatus Registered c, Done)
                  else
                    let c := onStatus Connecting (invalidateOwnership c) in
                    let r := length (owners c) in
                    let o := {| own_key := nextIdentityKey; own_broker := None; own_valid := true |} in
                    let c := with_owners (owners c ++ [o]) c in
                    (with_pending (pendingOwnerships c ++ [r]) c, AwaitBroker epoch r)
              end
        | None => (onStatus Offline (invalidateOwnership (cancelLinger c)), Done)
        end
  end.

(** After [await openBroker(...)]; a broker that opened is the next number. *)
Definition broker_ready (epoch : Z) (r : nat) (opened : bool) c : RelayAuthCoordinator :=
  let c := with_pending (js_filter (fun r' => negb (r' =? r)%nat) (pendingOwnerships c)) c in
  if opened then
    let b := brokers c in
    let c := with_owners (alter (with_broker b) r (owners c)) (with_brokers (S b) c) in
    let valid := match owners c !! r with Some o => own_valid o | None => false end in
    if negb (isEpochCurrent epoch c) || negb valid then emit (CloseNow b) c
    else onStatus Registered (with_ownership (Some r) c)
  else failed epoch c.

(** [isCurrent()] of the broker opened by the task of [epoch] for [r]. *)
Definition isCurrent (epoch : Z) (r : nat) c : bool :=
  match owners c !! r with
  | Some o =>
      own_valid o && negb (stopped c) &&
      match own_broker o with
      | Some _ => bool_decide (ownership c = Some r)
      | None => isEpochCurrent epoch c
      end
  | None => false
  end.

(** [refreshAccessToken]: the epoch it starts with, unless it ends at once, and
    its result once the context is read. *)
Definition refresh_start (r : nat) c : option Z :=
  match owners c !! r with
  | Some o => if negb (own_valid o) || stopped c then None else Some (authEpoch c)
  | None => None
  end.
Definition refresh_finish (r : nat) (epoch : Z) (expectedIdentityKey : string)
    (context : option RelayAuthContext) c : option string :=
  match owners c !! r, context with
  | Some o, Some context =>
      if negb (own_valid o) || negb (isEpochCurrent epoch c) || negb (relayEntitled context) ||
         negb (String.eqb (identityKey (identity context)) expectedIdentityKey)
      then None else Some (accessToken context)
  | _, _ => None
  end.

(** The linger timer's callback. *)
Definition linger_fires (demand : bool) c : RelayAuthCoordinator :=
  match lingerTimer c with
  | None => c
  | Some r =>
      let c := with_linger None c in
      let valid := match owners c !! r with Some o => own_valid o | None => false end in
      if bool_decide (ownership c = Some r) && valid && negb demand
      then onStatus Standby (invalidateOwnership c) else c
  end.

(** ** Events *)

Inductive event :=
  | Reconcile
  | Fence
  | Stop
  | ContextReady (task : nat) (context : settled (option RelayAuthContext)) (demand : settled bool)
  | BrokerReady (task : nat) (opened : bool)
  | LingerFires (demand : bool).

Definition step c (e : event) : RelayAuthCoordinator :=
  match e with
  | Reconcile => reconcile c
  | Fence => fenceAndCloseNow c
  | Stop => stop c
  | ContextReady t context demand =>
      match tasks c !! t with
      | Some (AwaitContext epoch) =>
          let (c, next) := context_ready epoch context demand c in
          with_tasks (latestReconcile c) (<[t := next]> (tasks c)) c
      | _ => c
      end
  | BrokerReady t opened =>
      match tasks c !! t with
      | Some (AwaitBroker epoch r) =>
          let c := broker_ready epoch r opened c in
          with_tasks (latestReconcile c) (<[t := Done]> (tasks c)) c
      | _ => c
      end
  | LingerFires demand => linger_fires demand c
  end.
Definition run (es : list event) : RelayAuthCoordinator := foldl step new_coordinator es.

(** ** Invariant *)

Definition is_close (b : nat) (e : effect) : bool :=
  match e with CloseNow b' => (b =? b')%nat | OnStatus _ => false end.
(** How often [closeNow] was called on a broker. *)
Definition closes (b : nat) c : nat := length (js_filter (is_close b) (effects c)).

Definition task_epoch (t : Task) : option Z :=
  match t with AwaitContext e | AwaitBroker e _ => Some e | Done => None end.

Definition active_count (b : nat) c : nat := if decide (getActiveBroker c = Some b) then 1%nat else 0%nat.

(** The state [c] with the tasks [ts] in flight. *)
Record ok (ts : list Task) c : Prop := {
  k_epoch : forall t s e, ts !! t = Some s -> task_epoch s = Some e -> e <= authEpoch c;
  k_unique : forall t1 t2 s1 s2 e, ts !! t1 = Some s1 -> ts !! t2 = Some s2 ->
    task_epoch s1 = Some e -> task_epoch s2 = Some e -> t1 = t2;
  k_await : forall t e r, ts !! t = Some (AwaitBroker e r) ->
    (e = authEpoch c -> ownership c = None) /\
    exists o, owners c !! r = Some o /\ own_broker o = None;
  k_pending : forall r, r ∈ pendingOwnerships c -> exists o, owners c !! r = Some o /\ own_broker o = None;
  k_owned : forall r, ownership c = Some r ->
    exists o b, owners c !! r = Some o /\ own_valid o = true /\ own_broker o = Some b;
  k_broker : forall r o b, owners c !! r = Some o -> own_broker o = Some b -> (b < brokers c)%nat;
  k_inj : forall r1 r2 o1 o2 b, owners c !! r1 = Some o1 -> owners c !! r2 = Some o2 ->
    own_broker o1 = Some b -> own_broker o2 = Some b -> r1 = r2;
  k_closed : forall b, (closes b c + active_count b c = if decide (b < brokers c)%nat then 1 else 0)%nat }.

Lemma active_owned ts c b :
  ok ts c -> getActiveBroker c = Some b <->
    exists r o, ownership c = Some r /\ owners c !! r = Some o /\ own_broker o = Some b.
Proof.
  intros Hok. unfold getActiveBroker, valid_ownership. split.
  - destruct (ownership c) as [r|] eqn:Hr; [|done]. simpl.
    destruct (owners c !! r) as [o|] eqn:Ho; [|done]. simpl.
    destruct (own_valid o); [|done]. eauto.
  - intros (r & o & Hr & Ho & Hb). rewrite Hr. simpl. rewrite Ho. simpl.
    destruct (k_owned ts c Hok r Hr) as (o' & b' & Ho' & Hv & _). simplify_eq. by rewrite Hv.
Qed.

Lemma active_none c : ownership c = None -> getActiveBroker c = None.
Proof. unfold getActiveBroker, valid_ownership. by intros ->. Qed.

Lemma active_count_none b c : ownership c = None -> active_count b c = 0%nat.
Proof. intros H. unfold active_count. by rewrite active_none. Qed.

Lemma closes_emit b e c : closes b (emit e c) = (closes b c + if is_close b e then 1 else 0)%nat.
Proof.
  unfold closes. simpl. rewrite js_filter_app, length_app. simpl. by destruct (is_close b e).
Qed.

(** Changes of the status and of the linger timer are invisible to [ok]. *)
Lemma onStatus_ok ts s c : ok ts c -> ok ts (onStatus s c).
Proof.
  intros [H1 H2 H3 H4 H5 H6 H7 H8]. split; try done.
  intros b. unfold onStatus. rewrite closes_emit. simpl. rewrite Nat.add_0_r. apply H8.
Qed.

Lemma with_linger_ok ts t c : ok ts c -> ok ts (with_linger t c).
Proof. intros [H1 H2 H3 H4 H5 H6 H7 H8]. by split. Qed.

Lemma scheduleLinger_ok ts r c : ok ts c -> ok ts (scheduleLinger r c).
Proof. intros H. unfold scheduleLinger. case_match; auto using with_linger_ok. Qed.

(** ** Invalidation *)

Lemma lookup_alter_invalid r r' (l : list BrokerOwnership) o :
  alter invalid r l !! r' = Some o ->
  exists o', l !! r' = Some o' /\ own_broker o = own_broker o' /\ own_key o = own_key o' /\
    (r ≠ r' -> o = o').
Proof.
  destruct (decide (r = r')) as [->|Hne].
  - rewrite list_lookup_alter_eq. destruct (l !! r') as [o'|]; [|done]. simpl.
    intros [= <-]. exists o'. by repeat split.
  - rewrite list_lookup_alter_ne by done. intros H. exists o. by repeat split.
Qed.

Lemma lookup_alter_is (r r' : nat) (f : BrokerOwnership -> BrokerOwnership) (l : list BrokerOwnership) o' :
  l !! r' = Some o' -> exists o, alter f r l !! r' = Some o /\ o = (if decide (r = r') then f o' else o').
Proof.
  intros H. case_decide as Hr.
  - subst. rewrite list_lookup_alter_eq, H. eauto.
  - rewrite list_lookup_alter_ne by done. eauto.
Qed.

Lemma invalidateOwnership_ok ts c :
  ok ts c -> ok ts (invalidateOwnership c) /\ ownership (invalidateOwnership c) = None /\
    authEpoch (invalidateOwnership c) = authEpoch c /\ stopped (invalidateOwnership c) = stopped c.
Proof.
  intros Hok. pose proof Hok as [H1 H2 H3 H4 H5 H6 H7 H8]. unfold invalidateOwnership.
  destruct (ownership c) as [r|] eqn:Hr.
  2:{ assert (with_ownership None c = c) as -> by (destruct c; simpl in *; by subst). done. }
  destruct (H5 r eq_refl) as (o & b & Ho & Hv & Hb).
  destruct (lookup_alter_is r r invalid (owners c) o Ho) as (o' & Ho' & Heq). simpl.
  rewrite decide_True in Heq by done. rewrite Ho'. subst o'. cbn [own_broker invalid]. rewrite Hb.
  split_and!; [|done..]. split; try done; simpl.
  - intros t e r' Ht. split; [done|]. destruct (H3 t e r' Ht) as (_ & o1 & Ho1 & Hb1).
    destruct (lookup_alter_is r r' invalid (owners c) o1 Ho1) as (o2 & Ho2 & ->).
    exists (if decide (r = r') then invalid o1 else o1). split; [done|]. by case_decide.
  - intros r' Hin. destruct (H4 r' Hin) as (o1 & Ho1 & Hb1).
    destruct (lookup_alter_is r r' invalid (owners c) o1 Ho1) as (o2 & Ho2 & ->).
    exists (if decide (r = r') then invalid o1 else o1). split; [done|]. by case_decide.
  - intros r' o1 b1 Ho1 Hb1. apply lookup_alter_invalid in Ho1 as (o2 & Ho2 & E & _).
    apply (H6 r' o2); congruence.
  - intros r1 r2 o1 o2 b1 Ho1 Ho2 Hb1 Hb2.
    apply lookup_alter_invalid in Ho1 as (o3 & Ho3 & E3 & _).
    apply lookup_alter_invalid in Ho2 as (o4 & Ho4 & E4 & _).
    apply (H7 r1 r2 o3 o4 b1); congruence.
  - intros b'. rewrite closes_emit, active_count_none by done. rewrite <-(H8 b').
    change (closes b' (with_owners _ _)) with (closes b' c). simpl.
    assert (Hact : getActiveBroker c = Some b) by (apply (active_owned ts); eauto).
    unfold active_count. rewrite Hact. destruct (Nat.eqb_spec b' b) as [->|Hne].
    + rewrite decide_True by done. lia.
    + rewrite decide_False by congruence. lia.
Qed.

Lemma lookup_invalidate_all rs (l : list BrokerOwnership) r :
  foldl (fun l r => alter invalid r l) l rs !! r =
  if decide (r ∈ rs) then invalid <$> l !! r else l !! r.
Proof.
  revert l. induction rs as [|r' rs IH]; intros l; cbn [foldl].
  - rewrite decide_False; [done|]. apply not_elem_of_nil.
  - rewrite IH. destruct (decide (r' = r)) as [->|Hne].
    + rewrite (decide_True (P := r ∈ r :: rs)) by left. rewrite list_lookup_alter_eq.
      case_decide; [|done]. destruct (l !! r); [|done]. simpl. by destruct b.
    + rewrite list_lookup_alter_ne by done.
      destruct (decide (r ∈ rs)); [rewrite decide_True by (by right)|rewrite decide_False]; try done.
      intros [->|]%elem_of_cons; done.
Qed.

(** A new epoch: the start of [reconcile] and of [fenceAndCloseNow]. *)
Definition new_epoch c : RelayAuthCoordinator :=
  invalidatePendingOwnerships (with_epoch (authEpoch c + 1) c).

Lemma new_epoch_lookup c r o :
  owners (new_epoch c) !! r = Some o ->
  exists o', owners c !! r = Some o' /\ own_broker o = own_broker o' /\
    (r ∉ pendingOwnerships c -> o = o').
Proof.
  simpl. rewrite lookup_invalidate_all. case_decide as Hin.
  - destruct (owners c !! r) as [o'|]; [|done]. intros [= <-]. exists o'. by repeat split.
  - intros H. exists o. by repeat split.
Qed.

Lemma new_epoch_some c r o' :
  owners c !! r = Some o' ->
  exists o, owners (new_epoch c) !! r = Some o /\ own_broker o = own_broker o' /\
    (r ∉ pendingOwnerships c -> o = o').
Proof.
  intros H. simpl. rewrite lookup_invalidate_all, H. case_decide; eexists; by repeat split.
Qed.

Lemma new_epoch_ok ts c : ok ts c -> ok ts (new_epoch c).
Proof.
  intros Hok. pose proof Hok as [H1 H2 H3 H4 H5 H6 H7 H8].
  assert (Hown : forall r, ownership c = Some r -> r ∉ pendingOwnerships c).
  { intros r Hr Hin. destruct (H4 r Hin) as (o & Ho & Hb). destruct (H5 r Hr) as (o' & b & Ho' & _ & Hb').
    congruence. }
  split; try done.
  - intros t s e Ht He. specialize (H1 t s e Ht He). simpl. lia.
  - intros t e r Ht. split.
    + intros He. simpl in He. specialize (H1 t _ e Ht eq_refl). lia.
    + destruct (H3 t e r Ht) as (_ & o & Ho & Hb).
      destruct (new_epoch_some c r o Ho) as (o' & Ho' & E & _). exists o'. split; [done|congruence].
  - intros r. simpl. by intros ?%elem_of_nil.
  - intros r Hr. destruct (H5 r Hr) as (o & b & Ho & Hv & Hb).
    destruct (new_epoch_some c r o Ho) as (o' & Ho' & E & Hs). rewrite Hs in Ho' by (by apply Hown).
    exists o, b. done.
  - intros r o b Ho Hb. apply new_epoch_lookup in Ho as (o' & Ho' & E & _).
    apply (H6 r o'); congruence.
  - intros r1 r2 o1 o2 b Ho1 Ho2 Hb1 Hb2.
    apply new_epoch_lookup in Ho1 as (o3 & Ho3 & E3 & _).
    apply new_epoch_lookup in Ho2 as (o4 & Ho4 & E4 & _).
    apply (H7 r1 r2 o3 o4 b); congruence.
  - intros b. etrans; [|apply (H8 b)]. change (closes b (new_epoch c)) with (closes b c). f_equal.
    unfold active_count. assert (getActiveBroker (new_epoch c) = getActiveBroker c) as ->; [|done].
    unfold getActiveBroker, valid_ownership.
    change (ownership (new_epoch c)) with (ownership c).
    destruct (ownership c) as [r|] eqn:Hr; [|done]. simpl.
    rewrite lookup_invalidate_all. rewrite decide_False by (by apply Hown). done.
Qed.

(** ** Tasks *)

Lemma insert_done_ok ts t c : ok ts c -> ok (<[t := Done]> ts) c.
Proof.
  intros [H1 H2 H3 H4 H5 H6 H7 H8].
  assert (Hl : forall t' s, <[t := Done]> ts !! t' = Some s -> s ≠ Done -> ts !! t' = Some s).
  { intros t' s Hs Hne. apply list_lookup_insert_Some in Hs as [(_ & <- & _)|[_ Hs]]; done. }
  split; try done.
  - intros t' s e Hs He. apply (H1 t' s e); [|done]. apply Hl; [done|]. by intros ->.
  - intros t1 t2 s1 s2 e Hs1 Hs2 He1 He2.
    apply (H2 t1 t2 s1 s2 e); try done; apply Hl; try done; by intros ->.
  - intros t' e r Hs. apply (H3 t'). by apply Hl.
Qed.

Lemma reconcile_ok ts c : ok ts c -> ok (ts ++ [AwaitContext (authEpoch c + 1)]) (new_epoch c).
Proof.
  intros Hok. pose proof (new_epoch_ok ts c Hok) as [H1 H2 H3 H4 H5 H6 H7 H8].
  pose proof (k_epoch ts c Hok) as Hold.
  assert (Hl : forall t s, (ts ++ [AwaitContext (authEpoch c + 1)]) !! t = Some s ->
    ts !! t = Some s \/ (t = length ts /\ s = AwaitContext (authEpoch c + 1))).
  { intros t s Hs. apply lookup_app_Some in Hs as [Hs|[Hle Hs]]; [by left|right].
    apply list_lookup_singleton_Some in Hs as [? <-]. split; [lia|done]. }
  split; try done.
  - intros t s e Hs He. destruct (Hl t s Hs) as [Hs'|[_ ->]]; [by apply (H1 t s)|].
    simplify_eq/=. lia.
  - intros t1 t2 s1 s2 e Hs1 Hs2 He1 He2.
    destruct (Hl t1 s1 Hs1) as [Hs1'|[-> ->]], (Hl t2 s2 Hs2) as [Hs2'|[-> ->]]; simplify_eq/=.
    + by apply (H2 t1 t2 s1 s2 e).
    + specialize (Hold t1 s1 _ Hs1' He1). lia.
    + specialize (Hold t2 s2 _ Hs2' He2). lia.
    + done.
  - intros t e r Hs. destruct (Hl t _ Hs) as [Hs'|[_ ?]]; [by apply (H3 t)|done].
Qed.

(** The state in which the broker of a new ownership is awaited. *)
Definition opening (key : string) c : RelayAuthCoordinator :=
  let r := length (owners c) in
  let o := {| own_key := key; own_broker := None; own_valid := true |} in
  let c := with_owners (owners c ++ [o]) c in
  with_pending (pendingOwnerships c ++ [r]) c.

Lemma opening_ok ts t e key c :
  ok ts c -> ownership c = None -> ts !! t = Some (AwaitContext e) ->
  ok (<[t := AwaitBroker e (length (owners c))]> ts) (opening key c).
Proof.
  intros Hok Hnone Ht. pose proof Hok as [H1 H2 H3 H4 H5 H6 H7 H8].
  assert (Hl : forall t' s, <[t := AwaitBroker e (length (owners c))]> ts !! t' = Some s ->
    (t' = t /\ s = AwaitBroker e (length (owners c))) \/ (t' ≠ t /\ ts !! t' = Some s)).
  { intros t' s Hs. apply list_lookup_insert_Some in Hs as [(-> & <- & _)|[? Hs]]; auto. }
  assert (Ho : forall r o, owners c !! r = Some o -> owners (opening key c) !! r = Some o).
  { intros r o Hr. simpl. by apply lookup_app_l_Some. }
  assert (Hnew : forall r o b, owners (opening key c) !! r = Some o -> own_broker o = Some b ->
    owners c !! r = Some o).
  { intros r o b Hr Hb. simpl in Hr. apply lookup_app_Some in Hr as [Hr|[_ Hr]]; [done|].
    apply list_lookup_singleton_Some in Hr as [_ <-]. done. }
  assert (Hlast : owners (opening key c) !! length (owners c) =
    Some {| own_key := key; own_broker := None; own_valid := true |}).
  { simpl. rewrite lookup_app_r by lia. by rewrite Nat.sub_diag. }
  split.
  - intros t' s e' Hs He. destruct (Hl t' s Hs) as [[-> ->]|[_ Hs']]; [|by apply (H1 t' s)].
    apply (H1 t (AwaitContext e)); [done|]. by simplify_eq/=.
  - intros t1 t2 s1 s2 e' Hs1 Hs2 He1 He2.
    assert (Hback : forall t' s, <[t := AwaitBroker e (length (owners c))]> ts !! t' = Some s ->
      task_epoch s = Some e' -> exists s', ts !! t' = Some s' /\ task_epoch s' = Some e').
    { intros t' s Hs He. destruct (Hl t' s Hs) as [[-> ->]|[_ Hs']]; [|eauto].
      exists (AwaitContext e). by simplify_eq/=. }
    destruct (Hback _ _ Hs1 He1) as (s1' & ? & ?), (Hback _ _ Hs2 He2) as (s2' & ? & ?).
    by apply (H2 t1 t2 s1' s2' e').
  - intros t' e' r Hs. split; [done|]. destruct (Hl t' _ Hs) as [[-> [= -> ->]]|[_ Hs']].
    + eexists. split; [exact Hlast|done].
    + destruct (H3 t' e' r Hs') as (_ & o & Hr & Hb). exists o. auto.
  - intros r Hr. simpl in Hr. apply elem_of_app in Hr as [Hr|Hr]; [|apply list_elem_of_singleton in Hr as ->].
    + destruct (H4 r Hr) as (o & Hro & Hb). exists o. auto.
    + eexists. split; [exact Hlast|done].
  - intros r Hr. simpl in Hr. congruence.
  - intros r o b Hr Hb. by apply (H6 r o b); [apply (Hnew r o b)|].
  - intros r1 r2 o1 o2 b Hr1 Hr2 Hb1 Hb2.
    apply (H7 r1 r2 o1 o2 b); try done; by eapply Hnew.
  - intros b. etrans; [|apply (H8 b)]. f_equal. by rewrite !active_count_none.
Qed.

Lemma failed_ok ts e c : ok ts c -> ok ts (failed e c).
Proof. intros H. unfold failed. case_match; auto using onStatus_ok. Qed.

Lemma invalidate_cancel_ok ts c : ok ts c -> ok ts (invalidateOwnership (cancelLinger c)).
Proof. intros H. by apply invalidateOwnership_ok, with_linger_ok. Qed.

Lemma context_ready_ok ts t e context demand c :
  ok ts c -> ts !! t = Some (AwaitContext e) ->
  let (c', next) := context_ready e context demand c in ok (<[t := next]> ts) c'.
Proof.
  intros Hok Ht. unfold context_ready.
  destruct context as [context|]; [|by apply insert_done_ok, failed_ok].
  destruct (negb (isEpochCurrent e c)); [by apply insert_done_ok|].
  destruct context as [context|]; [|by apply insert_done_ok, onStatus_ok, invalidate_cancel_ok].
  destruct (negb (relayEntitled context)); [by apply insert_done_ok, onStatus_ok, invalidate_cancel_ok|].
  destruct demand as [[|]|]; [| |by apply insert_done_ok, failed_ok].
  - set (c1 := cancelLinger c). assert (Hok1 : ok ts c1) by (by apply with_linger_ok).
    destruct (match valid_ownership c1 with Some (_, o) => _ | None => false end).
    + by apply insert_done_ok, onStatus_ok.
    + destruct (invalidateOwnership_ok ts c1 Hok1) as (Hinv & Hnone & _).
      apply (opening_ok ts t e (identityKey (identity context))
        (onStatus Connecting (invalidateOwnership c1))); [by apply onStatus_ok|done|done].
  - apply insert_done_ok, onStatus_ok. destruct (valid_ownership c) as [[r o]|]; [|done].
    destruct (String.eqb _ _); [by apply scheduleLinger_ok|by apply invalidate_cancel_ok].
Qed.

(** ** The broker *)

Lemma drop_pending_ok ts r c :
  ok ts c -> ok ts (with_pending (js_filter (fun r' => negb (r' =? r)%nat) (pendingOwnerships c)) c).
Proof.
  intros [H1 H2 H3 H4 H5 H6 H7 H8]. split; try done.
  intros r' [Hr _]%elem_of_js_filter. by apply H4.
Qed.

(** The broker of [r] has opened and is number [brokers c]. *)
Definition opened_broker (r : nat) c : RelayAuthCoordinator :=
  with_owners (alter (with_broker (brokers c)) r (owners c)) (with_brokers (S (brokers c)) c).

Lemma opened_broker_ok ts t e r c (owned : bool) :
  ok ts c -> ts !! t = Some (AwaitBroker e r) -> r ∉ pendingOwnerships c ->
  (owned = true -> e = authEpoch c /\ exists o, owners c !! r = Some o /\ own_valid o = true) ->
  (forall t' e', ts !! t' = Some (AwaitBroker e' r) -> t' = t) ->
  ok (<[t := Done]> ts)
    (if owned then with_ownership (Some r) (opened_broker r c)
     else emit (CloseNow (brokers c)) (opened_broker r c)).
Proof.
  intros Hok Ht Hnp Howned Hr1. pose proof Hok as [H1 H2 H3 H4 H5 H6 H7 H8].
  destruct (H3 t e r Ht) as (Hcur & o & Ho & Hb).
  set (c' := if owned then _ else _).
  assert (Hown : owners c' = alter (with_broker (brokers c)) r (owners c)) by (by destruct owned).
  assert (Hbr : brokers c' = S (brokers c)) by (by destruct owned).
  assert (Hep : authEpoch c' = authEpoch c) by (by destruct owned).
  assert (Hpe : pendingOwnerships c' = pendingOwnerships c) by (by destruct owned).
  assert (Hor : owners c' !! r = Some (with_broker (brokers c) o))
    by (by rewrite Hown, list_lookup_alter_eq, Ho).
  assert (Hother : forall r', r' ≠ r -> owners c' !! r' = owners c !! r')
    by (intros r' Hne; rewrite Hown; by apply list_lookup_alter_ne).
  assert (Hl : forall t' s, <[t := Done]> ts !! t' = Some s -> s ≠ Done -> t' ≠ t /\ ts !! t' = Some s).
  { intros t' s Hs Hne. apply list_lookup_insert_Some in Hs as [(_ & <- & _)|[? Hs]]; done. }
  assert (Hact : forall b', getActiveBroker c = Some b' -> (b' < brokers c)%nat /\ owned = false).
  { intros b' Hb'. apply (active_owned ts) in Hb' as (r' & o' & Hr' & Ho' & Hb'); [|done].
    split; [by apply (H6 r' o')|]. destruct owned; [|done].
    destruct (Howned eq_refl) as [He _]. by rewrite (Hcur He) in Hr'. }
  split; rewrite ?Hep, ?Hbr, ?Hpe.
  - intros t' s e' Hs He. apply (H1 t' s); [|done]. apply Hl; [done|]. by intros ->.
  - intros t1 t2 s1 s2 e' Hs1 Hs2 He1 He2.
    apply (H2 t1 t2 s1 s2 e'); try done; apply Hl; try done; by intros ->.
  - intros t' e' r' Hs. destruct (Hl t' _ Hs) as [Hne Hs']; [done|].
    destruct (H3 t' e' r' Hs') as (Hc & o' & Ho' & Hb'). split.
    + intros He. destruct owned; [|by apply Hc]. exfalso. destruct (Howned eq_refl) as [He0 _].
      apply Hne. apply (H2 t' t _ _ e' Hs' Ht); simpl; congruence.
    + exists o'. split; [|done]. rewrite Hother; [done|]. intros ->.
      by apply Hne, (Hr1 t' e').
  - intros r' Hin. destruct (H4 r' Hin) as (o' & Ho' & Hb'). exists o'. split; [|done].
    rewrite Hother; [done|]. by intros ->.
  - intros r' Hr'. destruct owned.
    + simpl in Hr'. injection Hr' as <-. destruct (Howned eq_refl) as (_ & o' & Ho' & Hv).
      exists (with_broker (brokers c) o), (brokers c). split; [done|]. simplify_eq. by split.
    + simpl in Hr'. destruct (H5 r' Hr') as (o' & b' & Ho' & Hv & Hb'). exists o', b'.
      split; [|done]. rewrite Hother; [done|]. intros ->. congruence.
  - intros r' o' b' Ho' Hb'. destruct (decide (r' = r)) as [->|Hne].
    + rewrite Hor in Ho'. injection Ho' as <-. simpl in Hb'. injection Hb' as <-. lia.
    + rewrite Hother in Ho' by done. specialize (H6 r' o' b' Ho' Hb'). lia.
  - intros r1 r2 o1 o2 b' Ho1 Ho2 Hb1 Hb2.
    destruct (decide (r1 = r)) as [->|Hn1], (decide (r2 = r)) as [->|Hn2]; [done|..].
    + rewrite Hor in Ho1. rewrite Hother in Ho2 by done. injection Ho1 as <-. simpl in Hb1.
      injection Hb1 as <-. specialize (H6 r2 o2 _ Ho2 Hb2). lia.
    + rewrite Hor in Ho2. rewrite Hother in Ho1 by done. injection Ho2 as <-. simpl in Hb2.
      injection Hb2 as <-. specialize (H6 r1 o1 _ Ho1 Hb1). lia.
    + rewrite Hother in Ho1, Ho2 by done. by apply (H7 r1 r2 o1 o2 b').
  - intros b'. specialize (H8 b').
    assert (Hclose : closes b' c' =
      (closes b' c + if owned then 0 else if decide (b' = brokers c) then 1 else 0)%nat).
    { unfold c'. destruct owned; [by rewrite Nat.add_0_r|]. rewrite closes_emit. f_equal. simpl.
      destruct (Nat.eqb_spec b' (brokers c)); by destruct (decide (b' = brokers c)). }
    assert (Hactive : active_count b' c' =
      (active_count b' c + if owned then if decide (b' = brokers c) then 1 else 0 else 0)%nat).
    { unfold active_count. destruct owned.
      - destruct (Howned eq_refl) as (He & o' & Ho' & Hv).
        assert (getActiveBroker c' = Some (brokers c)) as ->.
        { unfold getActiveBroker, valid_ownership. unfold c'. simpl.
          rewrite list_lookup_alter_eq, Ho'. simpl. by rewrite Hv. }
        rewrite (active_none c) by (by apply Hcur). simpl.
        destruct (decide (Some (brokers c) = Some b')), (decide (b' = brokers c));
          rewrite ?decide_False by done; congruence.
      - rewrite Nat.add_0_r. assert (getActiveBroker c' = getActiveBroker c) as ->; [|done].
        unfold getActiveBroker, valid_ownership. unfold c'. simpl.
        destruct (ownership c) as [r'|] eqn:Hr'; [|done]. simpl.
        destruct (H5 r' eq_refl) as (o' & b0 & Ho' & _ & Hb').
        rewrite list_lookup_alter_ne; [done|]. intros <-. congruence. }
    rewrite Hclose, Hactive. destruct (decide (b' = brokers c)) as [->|Hne].
    + rewrite (decide_False (P := (brokers c < brokers c)%nat)) in H8 by lia.
      rewrite (decide_True (P := (brokers c < S (brokers c))%nat)) by lia.
      destruct owned; lia.
    + repeat case_decide; destruct owned; lia.
Qed.

(** ** Every step *)

Definition refs_distinct (ts : list Task) : Prop :=
  forall t1 t2 e1 e2 r, ts !! t1 = Some (AwaitBroker e1 r) -> ts !! t2 = Some (AwaitBroker e2 r) ->
    t1 = t2.

Record inv c : Prop := {
  i_ok : ok (tasks c) c;
  i_refs : refs_distinct (tasks c);
  i_stopped : stopped c = true -> ownership c = None }.

Lemma with_tasks_inv latest ts c :
  ok ts c -> refs_distinct ts -> (stopped c = true -> ownership c = None) ->
  inv (with_tasks latest ts c).
Proof. intros [H1 H2 H3 H4 H5 H6 H7 H8] Hr Hs. by split. Qed.

Lemma refs_distinct_done ts t : refs_distinct ts -> refs_distinct (<[t := Done]> ts).
Proof.
  intros H t1 t2 e1 e2 r H1 H2.
  apply list_lookup_insert_Some in H1 as [(_ & ? & _)|[_ H1]]; [done|].
  apply list_lookup_insert_Some in H2 as [(_ & ? & _)|[_ H2]]; [done|]. by apply (H t1 t2 e1 e2 r).
Qed.

Lemma refs_distinct_new ts t e c :
  ok ts c -> refs_distinct ts -> refs_distinct (<[t := AwaitBroker e (length (owners c))]> ts).
Proof.
  intros Hok H t1 t2 e1 e2 r H1 H2.
  assert (Hold : forall t' e', ts !! t' = Some (AwaitBroker e' (length (owners c))) -> False).
  { intros t' e' Ht. destruct (k_await ts c Hok t' e' _ Ht) as (_ & o & Ho & _).
    apply lookup_lt_Some in Ho. lia. }
  apply list_lookup_insert_Some in H1 as [(-> & ? & _)|[_ H1]];
    apply list_lookup_insert_Some in H2 as [(-> & ? & _)|[_ H2]]; simplify_eq; try done.
  - by destruct (Hold _ _ H2).
  - by destruct (Hold _ _ H1).
  - by apply (H t1 t2 e1 e2 r).
Qed.

(** [context_ready] neither stops nor takes an ownership, and reuses no ref. *)
Lemma length_invalidateOwnership c : length (owners (invalidateOwnership c)) = length (owners c).
Proof.
  unfold invalidateOwnership. destruct (ownership c) as [r|]; [|done]. simpl.
  destruct (alter invalid r (owners c) !! r) as [o|]; [destruct (own_broker o)|]; simpl;
    apply length_alter.
Qed.

Lemma invalidateOwnership_keeps c :
  stopped (invalidateOwnership c) = stopped c /\ ownership (invalidateOwnership c) = None.
Proof.
  unfold invalidateOwnership. destruct (ownership c) as [r|]; [|done]. simpl.
  by destruct (alter invalid r (owners c) !! r) as [o|]; [destruct (own_broker o)|].
Qed.

Lemma context_ready_keeps e context demand c :
  let (c', next) := context_ready e context demand c in
  stopped c' = stopped c /\ (ownership c' = ownership c \/ ownership c' = None) /\
  (next = Done \/ next = AwaitBroker e (length (owners c))).
Proof.
  unfold context_ready, failed.
  pose proof (invalidateOwnership_keeps (cancelLinger c)) as [Hi1 Hi2].
  destruct context as [context|]; [|destruct (isEpochCurrent e c); auto].
  destruct (negb (isEpochCurrent e c)); [by auto|].
  destruct context as [context|]; [|simpl; by rewrite Hi1, Hi2; auto].
  destruct (negb (relayEntitled context)); [simpl; by rewrite Hi1, Hi2; auto|].
  destruct demand as [[|]|]; [| |destruct (isEpochCurrent e c); auto].
  - destruct (match valid_ownership (cancelLinger c) with Some (_, o) => _ | None => false end);
      [by auto|].
    simpl. rewrite Hi1, Hi2, length_invalidateOwnership. auto.
  - destruct (valid_ownership c) as [[r o]|]; [|by auto].
    destruct (String.eqb _ _); [|simpl; by rewrite Hi1, Hi2; auto].
    unfold scheduleLinger. destruct (lingerTimer c); auto.
Qed.

Lemma length_tasks_context_ready e context demand c : tasks (context_ready e context demand c).1 = tasks c.
Proof.
  assert (Hi : forall c, tasks (invalidateOwnership c) = tasks c).
  { intros c'. unfold invalidateOwnership. destruct (ownership c') as [r|]; [|done]. simpl.
    by destruct (alter invalid r (owners c') !! r) as [o|]; [destruct (own_broker o)|]. }
  unfold context_ready, failed, scheduleLinger.
  repeat (case_match; simplify_eq/=; rewrite ?Hi; try done).
Qed.

Lemma tasks_broker_ready e r opened c : tasks (broker_ready e r opened c) = tasks c.
Proof. unfold broker_ready, failed. repeat (case_match; simplify_eq/=; try done). Qed.

Lemma broker_ready_inv t e r opened c :
  inv c -> tasks c !! t = Some (AwaitBroker e r) ->
  ok (<[t := Done]> (tasks c)) (broker_ready e r opened c) /\
  (stopped (broker_ready e r opened c) = true -> ownership (broker_ready e r opened c) = None).
Proof.
  intros [Hok Hrefs Hst] Ht. unfold broker_ready.
  set (c1 := with_pending _ c). assert (Hok1 : ok (tasks c) c1) by (by apply drop_pending_ok).
  destruct opened; [|split; [by apply insert_done_ok, failed_ok|
                             unfold failed; by destruct (isEpochCurrent e c1)]].
  change (with_owners _ (with_brokers (S (brokers c1)) c1)) with (opened_broker r c1).
  set (v := match owners (opened_broker r c1) !! r with Some o => own_valid o | None => false end).
  assert (Hnp : r ∉ pendingOwnerships c1).
  { simpl. intros [_ H]%elem_of_js_filter. by rewrite Nat.eqb_refl in H. }
  assert (Hd : forall t' e', tasks c !! t' = Some (AwaitBroker e' r) -> t' = t)
    by (intros t' e' Ht'; by apply (Hrefs t' t e' e r)).
  destruct (negb (isEpochCurrent e (opened_broker r c1)) || negb v) eqn:E.
  - split; [|done]. by apply (opened_broker_ok (tasks c) t e r c1 false).
  - apply orb_false_iff in E as [E1%negb_false_iff E2%negb_false_iff].
    unfold isEpochCurrent in E1. apply andb_true_iff in E1 as [Es Ee]. simpl in Es, Ee.
    apply negb_true_iff in Es. apply Z.eqb_eq in Ee. split; [|simpl; congruence].
    apply onStatus_ok. apply (opened_broker_ok (tasks c) t e r c1 true); try done.
    intros _. split; [by symmetry|]. unfold v in E2. simpl in E2. rewrite list_lookup_alter_eq in E2.
    destruct (owners c !! r) as [o|] eqn:Ho; [|done]. exists o. split; [exact Ho|exact E2].
Qed.

Lemma coordinator_step_inv c e : inv c -> inv (step c e).
Proof.
  intros Hi. pose proof Hi as [Hok Hrefs Hst]. destruct e as [| | |t context demand|t opened|demand]; simpl.
  - unfold reconcile. destruct (stopped c) eqn:Hs; [done|].
    apply with_tasks_inv; [by apply reconcile_ok| |simpl; congruence].
    intros t1 t2 e1 e2 r H1 H2.
    apply lookup_app_Some in H1 as [H1|[_ [_ ?]%list_lookup_singleton_Some]]; [|done].
    apply lookup_app_Some in H2 as [H2|[_ [_ ?]%list_lookup_singleton_Some]]; [|done].
    by apply (Hrefs t1 t2 e1 e2 r).
  - unfold fenceAndCloseNow.
    assert (Hn : ok (tasks c) (new_epoch (cancelLinger c))) by (by apply new_epoch_ok, with_linger_ok).
    destruct (invalidateOwnership_ok _ _ Hn) as (H1 & H2 & _ & _).
    assert (Ht : tasks (invalidateOwnership (new_epoch (cancelLinger c))) = tasks c).
    { unfold invalidateOwnership. repeat (case_match; try done). }
    change (invalidatePendingOwnerships (cancelLinger (with_epoch (authEpoch c + 1) c)))
      with (new_epoch (cancelLinger c)).
    split; simpl; rewrite ?Ht; [by apply onStatus_ok|done|done].
  - unfold stop, fenceAndCloseNow.
    assert (Hn : ok (tasks c) (new_epoch (cancelLinger (with_stopped c)))).
    { apply new_epoch_ok, with_linger_ok. destruct Hok as [H1 H2 H3 H4 H5 H6 H7 H8]. by split. }
    destruct (invalidateOwnership_ok _ _ Hn) as (H1 & H2 & _ & _).
    assert (Ht : tasks (invalidateOwnership (new_epoch (cancelLinger (with_stopped c)))) = tasks c).
    { unfold invalidateOwnership. repeat (case_match; try done). }
    change (invalidatePendingOwnerships (cancelLinger
      (with_epoch (authEpoch (with_stopped c) + 1) (with_stopped c))))
      with (new_epoch (cancelLinger (with_stopped c))).
    split; simpl; rewrite ?Ht; [by apply onStatus_ok|done|done].
  - destruct (tasks c !! t) as [[e|e r|]|] eqn:Ht; try done.
    pose proof (context_ready_ok (tasks c) t e context demand c Hok Ht) as Hc.
    pose proof (context_ready_keeps e context demand c) as Hk.
    pose proof (length_tasks_context_ready e context demand c) as Hts.
    destruct (context_ready e context demand c) as [c' next]. simpl in Hts. rewrite Hts.
    destruct Hk as (Hk1 & Hk2 & Hk3). apply with_tasks_inv; [done| |].
    + destruct Hk3 as [->| ->]; [by apply refs_distinct_done|by apply refs_distinct_new].
    + rewrite Hk1. intros Hs. destruct Hk2 as [->| ->]; auto.
  - destruct (tasks c !! t) as [[e|e r|]|] eqn:Ht; try done.
    destruct (broker_ready_inv t e r opened c Hi Ht) as [H1 H2].
    rewrite tasks_broker_ready. by apply with_tasks_inv; [|apply refs_distinct_done|].
  - unfold linger_fires. destruct (lingerTimer c) as [r|]; [|done].
    assert (Hl : inv (with_linger None c)) by (split; [by apply with_linger_ok|done|done]).
    destruct (_ && _); [|done].
    destruct (invalidateOwnership_ok _ _ (i_ok _ Hl)) as (H1 & H2 & _ & _).
    assert (Ht : tasks (invalidateOwnership (with_linger None c)) = tasks c).
    { unfold invalidateOwnership. repeat (case_match; try done). }
    split; simpl; rewrite ?Ht; [by apply onStatus_ok|done|done].
Qed.

Lemma coordinator_run_inv es : inv (run es).
Proof.
  unfold run. assert (H0 : inv new_coordinator).
  { split; [split; try done|done|done]. intros r. by intros ?%elem_of_nil. }
  revert H0. generalize new_coordinator.
  induction es as [|e es IH]; intros c H; simpl; [done|]. by apply IH, coordinator_step_inv.
Qed.

(** ** Properties *)

(** C4. In every interleaving of reconciliations, context reads, broker
    openings, fences, stops and linger timers, every broker opened so far is
    the active one or has been closed, by exactly one call, and the active one
    has not; a stopped coordinator has none. *)
Theorem no_broker_leaks es :
  let c := run es in
  (forall b, (b < brokers c)%nat ->
     closes b c = if decide (getActiveBroker c = Some b) then 0%nat else 1%nat) /\
  (stopped c = true -> getActiveBroker c = None).
Proof.
  intros c. pose proof (coordinator_run_inv es) as [Hok _ Hst]. fold c in Hok, Hst. split.
  - intros b Hb. pose proof (k_closed _ c Hok b) as H. unfold active_count in H.
    rewrite (decide_True (P := (b < brokers c)%nat)) in H by done.
    destruct (decide (getActiveBroker c = Some b)); lia.
  - intros Hs. apply active_none. auto.
Qed.

(** A broker is told that it is current exactly while it is the broker the
    coordinator hands out: the one it replaces, a fenced or a stopped one is
    told it is not, from whatever task it was opened. *)
Theorem isCurrent_exact es epoch r o b :
  let c := run es in
  owners c !! r = Some o -> own_broker o = Some b ->
  isCurrent epoch r c = bool_decide (getActiveBroker c = Some b).
Proof.
  intros c Ho Hb. pose proof (coordinator_run_inv es) as [Hok _ Hst]. fold c in Hok, Hst.
  apply eq_true_iff_eq. rewrite bool_decide_eq_true, (active_owned (tasks c)) by done.
  unfold isCurrent. rewrite Ho, Hb, !andb_true_iff, bool_decide_eq_true, negb_true_iff. split.
  - intros [_ Hr]. by exists r, o.
  - intros (r' & o' & Hr' & Ho' & Hb').
    assert (r' = r) as -> by (by apply (k_inj _ c Hok r' r o' o b)).
    destruct (k_owned _ c Hok r Hr') as (o'' & b' & Ho'' & Hv & _). simplify_eq.
    split; [split|]; [done| |done]. destruct (stopped c); [|done]. by rewrite Hst in Hr'.
Qed.

(** The key is that of the identity: its parts contain no NUL character. *)
Lemma identityKey_inj i i' :
  no_nul (userId i) = true -> no_nul (profileId i) = true ->
  no_nul (userId i') = true -> no_nul (profileId i') = true ->
  identityKey i = identityKey i' -> i = i'.
Proof.
  destruct i as [u p o], i' as [u' p' o']. unfold identityKey. simpl. intros Hu Hp Hu' Hp' H.
  apply nul_join_inj in H as [-> H]; [|done|done].
  apply nul_join_inj in H as [-> ->]; done.
Qed.

(** An ownership for the identity of an entitled context. *)
Definition owned_by (context : option RelayAuthContext) (o : BrokerOwnership) : Prop :=
  exists ctx, context = Some ctx /\ relayEntitled ctx = true /\ own_key o = identityKey (identity ctx).

Lemma valid_ownership_none c : ownership c = None -> valid_ownership c = None.
Proof. unfold valid_ownership. by intros ->. Qed.

Lemma context_ready_identity epoch context demand c :
  isEpochCurrent epoch c = true -> demand ≠ RejectedWith ->
  let (c', next) := context_ready epoch (Fulfilled context) demand c in
  (forall r o, valid_ownership c' = Some (r, o) -> owned_by context o) /\
  (forall e r, next = AwaitBroker e r -> exists o, owners c' !! r = Some o /\ owned_by context o).
Proof.
  intros Hcur Hd. unfold context_ready. rewrite Hcur. cbn [negb].
  assert (Hoff : forall s c1, valid_ownership (onStatus s (invalidateOwnership c1)) = None).
  { intros s c1. apply valid_ownership_none. apply (invalidateOwnership_keeps c1). }
  destruct context as [ctx|]; [|rewrite Hoff; by split].
  destruct (relayEntitled ctx) eqn:Hent; cbn [negb]; [|rewrite Hoff; by split].
  destruct demand as [[|]|]; [| |done].
  - destruct (valid_ownership (cancelLinger c)) as [[r o]|] eqn:Hv;
      [destruct (String.eqb_spec (own_key o) (identityKey (identity ctx))) as [Hk|_]|].
    { split; [|done]. intros r' o'.
      change (valid_ownership _) with (valid_ownership (cancelLinger c)). rewrite Hv.
      intros [= <- <-]. by exists ctx. }
    all: split;
      [intros r' o'; rewrite valid_ownership_none by (apply (invalidateOwnership_keeps (cancelLinger c))); done
      |intros e r' [= <- <-]; simpl; rewrite lookup_app_r by lia; rewrite Nat.sub_diag;
       eexists; split; [reflexivity|by exists ctx]].
  - split; [|done]. intros r' o'.
    change (valid_ownership (onStatus Standby ?x)) with (valid_ownership x).
    destruct (valid_ownership c) as [[r o]|] eqn:Hv; [|by rewrite Hv].
    destruct (String.eqb_spec (own_key o) (identityKey (identity ctx))) as [Hk|_].
    + assert (Hs : valid_ownership (scheduleLinger r c) = valid_ownership c)
        by (unfold scheduleLinger; by destruct (lingerTimer c)).
      rewrite Hs, Hv. intros [= <- <-]. by exists ctx.
    + rewrite valid_ownership_none by (apply (invalidateOwnership_keeps (cancelLinger c))). done.
Qed.

(** Once the task of the current epoch has read a context, the broker the
    coordinator hands out was opened for the identity of that context, and
    there is none if there is no context or it is not entitled to the relay;
    and the broker the task then opens, if any, is for that identity. *)
Theorem active_broker_identity es t epoch context demand :
  let c := run es in
  let c' := step c (ContextReady t (Fulfilled context) demand) in
  tasks c !! t = Some (AwaitContext epoch) -> isEpochCurrent epoch c = true ->
  demand ≠ RejectedWith ->
  (forall r o, valid_ownership c' = Some (r, o) -> owned_by context o) /\
  (forall e r, tasks c' !! t = Some (AwaitBroker e r) ->
     exists o, owners c' !! r = Some o /\ owned_by context o).
Proof.
  intros c c' Ht Hcur Hd. subst c'. cbn [step]. rewrite Ht.
  pose proof (context_ready_identity epoch context demand c Hcur Hd) as H.
  pose proof (length_tasks_context_ready epoch (Fulfilled context) demand c) as Hts.
  destruct (context_ready epoch (Fulfilled context) demand c) as [c' next]. simpl in Hts.
  destruct H as [H1 H2]. split; [exact H1|]. intros e r. simpl.
  rewrite Hts, list_lookup_insert_eq by (by eapply lookup_lt_Some). intros [= ->]. by apply (H2 e).
Qed.

(** ** Witnesses *)

Definition demo_ctx (u : string) : RelayAuthContext :=
  {| identity := {| userId := u; profileId := "p"; organizationId := "o" |};
     accessToken := "t"; relayEntitled := true |}.
(** User [a] connects; a second reconciliation, for user [b], replaces it. *)
Definition demo_events : list event :=
  [Reconcile; ContextReady 0 (Fulfilled (Some (demo_ctx "a"))) (Fulfilled true); BrokerReady 0 true;
   Reconcile; Reconcile; ContextReady 1 (Fulfilled (Some (demo_ctx "a"))) (Fulfilled true);
   ContextReady 2 (Fulfilled (Some (demo_ctx "b"))) (Fulfilled true); BrokerReady 2 true].

Lemma isCurrent_exact_witness :
  getActiveBroker (run demo_events) = Some 1%nat /\
  isCurrent 1 0 (run demo_events) = false /\ isCurrent 3 1 (run demo_events) = true.
Proof.
  split; [vm_compute; reflexivity|]. split.
  - rewrite (isCurrent_exact demo_events 1 0
      {| own_key := identityKey (identity (demo_ctx "a")); own_broker := Some 0%nat; own_valid := false |} 0);
      vm_compute; reflexivity.
  - rewrite (isCurrent_exact demo_events 3 1
      {| own_key := identityKey (identity (demo_ctx "b")); own_broker := Some 1%nat; own_valid := true |} 1);
      vm_compute; reflexivity.
Defined.

Lemma active_broker_identity_witness :
  let c' := step (run (demo_events ++ [Reconcile]))
    (ContextReady 3 (Fulfilled (Some (demo_ctx "b"))) (Fulfilled true)) in
  getActiveBroker c' = Some 1%nat /\
  (forall r o, valid_ownership c' = Some (r, o) -> owned_by (Some (demo_ctx "b")) o).
Proof.
  split; [vm_compute; reflexivity|].
  destruct (active_broker_identity (demo_events ++ [Reconcile]) 3 4 (Some (demo_ctx "b"))
    (Fulfilled true)) as [H _].
  - vm_compute. reflexivity.
  - vm_compute. reflexivity.
  - discriminate.
  - exact H.
Defined.
