(* ===== verification/EscapeTail.v ===== *)
(** * The partial escape tail (src/shared/terminal-partial-escape-tail.ts)

    A terminal stream, as UTF-16 code units, is scanned by a small copy of the
    VT500 parser; what remains unparsed at its end is the tail. [scan] is the
    loop of [extractPartialEscapeTail], by structural recursion on the rest of
    the stream: [start] is an index into the stream, [i] the current one.

    Theorems: the fold law of the module's comment, exact on the streams where
    no ESC, CAN or SUB follows an ESC inside a string; two streams on which it
    fails; and the tail is a suffix of the stream and bounded. *)

From S2P Require Import Prelude.
Local Open Scope Z_scope.

Inductive ScanState :=
  | ground | esc | escIntermediate | csi | osc | oscEsc | string_ | stringEsc.
#[export] Instance ScanState_eq_dec : EqDecision ScanState.
Proof. solve_decision. Defined.

Definition ESC : Z := 0x1b.
Definition CAN : Z := 0x18.
Definition SUB : Z := 0x1a.
Definition BEL : Z := 0x07.

Definition MAX_PARTIAL_ESCAPE_TAIL_LENGTH : Z := 4096.

Definition stateAfterEscByte (code : Z) : ScanState :=
  if code =? 0x5b then csi
  else if code =? 0x5d then osc
  else if (code =? 0x50) || (code =? 0x58) || (code =? 0x5e) || (code =? 0x5f) then string_
  else if (0x20 <=? code) && (code <=? 0x2f) then escIntermediate
  else if (code <? 0x20) || (code =? 0x7f) then esc
  else ground.

(** Inside an ST-terminated string, its ESC included. *)
Definition in_string (s : ScanState) : bool :=
  match s with osc | string_ | oscEsc | stringEsc => true | _ => false end.

(** One iteration of the loop: the new state and [start]. *)
Definition scan_step (s : ScanState) (start i : nat) (code : Z) : ScanState * nat :=
  match s with
  | ground => if code =? ESC then (esc, i) else (ground, start)
  | _ =>
      if (code =? ESC) && negb (in_string s) then (esc, i)
      else if ((code =? CAN) || (code =? SUB)) &&
              match s with esc | escIntermediate => true | _ => false end
      then (ground, start)
      else
        match s with
        | ground => (ground, start)
        | esc => (stateAfterEscByte code, start)
        | escIntermediate =>
            if (0x30 <=? code) && (code <=? 0x7e) then (ground, start) else (s, start)
        | csi =>
            if (code =? CAN) || (code =? SUB) then (ground, start)
            else if (0x40 <=? code) && (code <=? 0x7e) then (ground, start)
            else (s, start)
        | osc =>
            if (code =? BEL) || (code =? CAN) || (code =? SUB) then (ground, start)
            else if code =? ESC then (oscEsc, start)
            else (s, start)
        | string_ =>
            if (code =? CAN) || (code =? SUB) then (ground, start)
            else if code =? ESC then (stringEsc, start)
            else (s, start)
        | oscEsc | stringEsc =>
            if code =? 0x5c then (ground, start)
            else (if code =? ESC then esc else stateAfterEscByte code, (i - 1)%nat)
        end
  end.

Fixpoint scan (s : ScanState) (start i : nat) (rest : list Z) : ScanState * nat :=
  match rest with
  | [] => (s, start)
  | code :: rest => let '(s', start') := scan_step s start i code in scan s' start' (S i) rest
  end.

Definition extractPartialEscapeTail (stream : list Z) : list Z :=
  let '(s, start) := scan ground 0 0 stream in
  match s with ground => [] | _ => drop start stream end.

Definition advancePartialEscapeTail (pendingTail chunk : list Z) : list Z :=
  let tail := extractPartialEscapeTail (pendingTail ++ chunk) in
  if MAX_PARTIAL_ESCAPE_TAIL_LENGTH <? Z.of_nat (length tail) then [] else tail.

(** ** The scan, position by position *)

(** The state alone does not depend on the positions. *)
Definition next_state (s : ScanState) (code : Z) : ScanState := (scan_step s 0 0 code).1.
Definition run_state (s : ScanState) (l : list Z) : ScanState := foldl next_state s l.

Lemma scan_step_state s start i code : (scan_step s start i code).1 = next_state s code.
Proof.
  unfold next_state, scan_step. destruct s; simpl; repeat (case_match; simplify_eq; try done).
Qed.

Lemma scan_state s start i l : (scan s start i l).1 = run_state s l.
Proof.
  revert s start i. induction l as [|code l IH]; intros s start i; [done|].
  cbn [scan]. pose proof (scan_step_state s start i code) as H.
  destruct (scan_step s start i code) as [s' start']. simpl in H. subst s'. apply IH.
Qed.

Lemma scan_app s start i l1 l2 :
  scan s start i (l1 ++ l2) =
  let '(s', start') := scan s start i l1 in scan s' start' (i + length l1)%nat l2.
Proof.
  revert s start i. induction l1 as [|code l1 IH]; intros s start i; cbn [app scan length].
  - by rewrite Nat.add_0_r.
  - destruct (scan_step s start i code) as [s' start']. rewrite IH.
    destruct (scan s' start' (S i) l1). f_equal. lia.
Qed.

(** Where a step puts [start]: kept, the current index or the one before. *)
Inductive moved := Kept | Here | Before.
Definition start_move (s : ScanState) (code : Z) : moved :=
  match s with
  | ground => if code =? ESC then Here else Kept
  | esc | escIntermediate | csi => if code =? ESC then Here else Kept
  | osc | string_ => Kept
  | oscEsc | stringEsc => if code =? 0x5c then Kept else Before
  end.
Definition move (m : moved) (start i : nat) : nat :=
  match m with Kept => start | Here => i | Before => (i - 1)%nat end.

Lemma scan_step_move s start i code :
  scan_step s start i code = (next_state s code, move (start_move s code) start i) \/
  next_state s code = ground.
Proof.
  rewrite <-(scan_step_state s start i code).
  unfold scan_step, start_move, in_string, move.
  destruct s; simpl; destruct (code =? ESC) eqn:E; simpl; auto;
    try (apply Z.eqb_eq in E; subst code; simpl; auto);
    repeat (case_match; simplify_eq/=; auto).
Qed.

(** ** The tail as the state of the scanner *)

(** The state and the tail so far, one code at a time. *)
Definition tail_step (x : ScanState * list Z) (code : Z) : ScanState * list Z :=
  let '(s, t) := x in
  let s' := next_state s code in
  (s', match s' with
       | ground => []
       | _ => match start_move s code with
              | Kept => t ++ [code]
              | Here => [code]
              | Before => [ESC; code]
              end
       end).
Definition tail_run (l : list Z) : ScanState * list Z := foldl tail_step (ground, []) l.

Lemma tail_run_app l1 l2 : tail_run (l1 ++ l2) = foldl tail_step (tail_run l1) l2.
Proof. unfold tail_run. apply foldl_app. Qed.

(** In [oscEsc] and [stringEsc] the last code was the ESC. *)
Lemma next_state_esc s code :
  next_state s code = oscEsc \/ next_state s code = stringEsc -> code = ESC.
Proof.
  unfold next_state, scan_step, stateAfterEscByte.
  destruct s; simpl; repeat (case_match; simplify_eq/=; try (by intros [?|?])); intros _;
    bool_to_prop; naive_solver.
Qed.

Definition positions_ok (p : list Z) (s : ScanState) (start : nat) (t : list Z) : Prop :=
  s = ground \/
  (start <= length p)%nat /\ drop start p = t /\
  (s = oscEsc \/ s = stringEsc -> exists q, p = q ++ [ESC]).

Lemma tail_run_scan p :
  let '(s, start) := scan ground 0 0 p in
  let '(s', t) := tail_run p in
  s' = s /\ (s = ground -> t = []) /\ positions_ok p s start t.
Proof.
  induction p as [|code p IH] using rev_ind; [split; [done|split; [done|by left]]|].
  rewrite scan_app, tail_run_app. cbn [foldl].
  destruct (scan ground 0 0 p) as [s start]. destruct (tail_run p) as [s' t].
  destruct IH as (-> & Hg & Hpos). cbn [scan Nat.add].
  pose proof (scan_step_state s start (length p) code) as Hst.
  pose proof (scan_step_move s start (length p) code) as Hmv.
  destruct (scan_step s start (length p) code) as [s1 start1]. simpl in Hst. subst s1.
  unfold tail_step. split; [done|]. split; [by intros ->|].
  destruct (decide (next_state s code = ground)) as [Hn|Hn]; [by left|].
  destruct Hmv as [[= ->]|]; [|done]. right.
  assert (Ht : forall x y : list Z, match next_state s code with ground => x | _ => y end = y)
    by (intros; by destruct (next_state s code)).
  rewrite Ht, length_app. simpl.
  split; [|split; [|intros Hs; exists p; by rewrite (next_state_esc s code Hs)]].
  - destruct Hpos as [->|(Hle & _ & _)]; [|destruct (start_move s code); simpl; lia].
    unfold start_move in *. destruct (code =? ESC) eqn:E; simpl; [lia|].
    exfalso. apply Hn. unfold next_state, scan_step. by rewrite E.
  - destruct (start_move s code) eqn:Em; simpl.
    + destruct Hpos as [->|(Hle & <- & _)]; [|by rewrite drop_app_le by done].
      exfalso. apply Hn. unfold start_move in Em. unfold next_state, scan_step.
      by destruct (code =? ESC).
    + by rewrite drop_app_length.
    + assert (Hs : s = oscEsc \/ s = stringEsc).
      { unfold start_move in Em. destruct s; try (by destruct (code =? ESC)); auto. }
      destruct Hpos as [->|(_ & _ & Hq)]; [by destruct Hs|].
      destruct (Hq Hs) as [q ->]. rewrite length_app. simpl.
      replace (length q + 1 - 1)%nat with (length q) by lia.
      rewrite <-app_assoc. by rewrite drop_app_length.
Qed.

Lemma extract_tail_run l : extractPartialEscapeTail l = (tail_run l).2.
Proof.
  unfold extractPartialEscapeTail. pose proof (tail_run_scan l) as H.
  destruct (scan ground 0 0 l) as [s start]. destruct (tail_run l) as [s' t].
  destruct H as (-> & Hg & [->|(_ & Hd & _)]); simpl; [by rewrite Hg|].
  destruct s; try done. by rewrite Hg.
Qed.

(** ** The fold law *)

(** No ESC, CAN or SUB comes right after an ESC inside a string. *)
Fixpoint clean_from (s : ScanState) (l : list Z) : bool :=
  match l with
  | [] => true
  | code :: l =>
      negb (bool_decide (s = oscEsc \/ s = stringEsc) &&
            ((code =? ESC) || (code =? CAN) || (code =? SUB))) &&
      clean_from (next_state s code) l
  end.
Definition clean (l : list Z) : bool := clean_from ground l.

Lemma clean_from_app s l1 l2 :
  clean_from s (l1 ++ l2) = clean_from s l1 && clean_from (run_state s l1) l2.
Proof.
  revert s. induction l1 as [|code l1 IH]; intros s; [done|].
  cbn [app clean_from]. rewrite IH. by rewrite andb_assoc.
Qed.

Lemma tail_run_state l : (tail_run l).1 = run_state ground l.
Proof.
  unfold tail_run, run_state. change ground with (ground, @nil Z).1 at 2.
  generalize (ground, @nil Z). induction l as [|code l IH]; intros [s t]; [done|].
  cbn [foldl]. by rewrite IH.
Qed.

(** A clean stream's tail is scanned to the stream's state and to itself. *)
Lemma tail_run_idem l : clean l = true -> tail_run (tail_run l).2 = tail_run l.
Proof.
  unfold clean. induction l as [|code l IH] using rev_ind; [done|].
  rewrite clean_from_app. intros [Hc Hc']%andb_true_iff. specialize (IH Hc).
  rewrite <-tail_run_state in Hc'. rewrite !tail_run_app. cbn [foldl].
  destruct (tail_run l) as [s t] eqn:Hl. simpl in IH, Hc'.
  apply andb_true_iff in Hc' as [Hc' _]. apply negb_true_iff in Hc'.
  destruct (decide (next_state s code = ground)) as [Hn|Hn].
  { unfold tail_step. rewrite Hn. done. }
  assert (Hs : forall x y : list Z, match next_state s code with ground => x | _ => y end = y)
    by (intros; by destruct (next_state s code)).
  assert (Hstep : tail_step (s, t) code =
    (next_state s code, match start_move s code with
                        | Kept => t ++ [code] | Here => [code] | Before => [ESC; code] end))
    by (unfold tail_step; by rewrite Hs).
  rewrite Hstep. cbn [snd].
  destruct (start_move s code) eqn:Em.
  - rewrite tail_run_app, IH. cbn [foldl]. unfold tail_step. by rewrite Hs, Em.
  - assert (code = ESC /\ next_state s code = esc) as [-> ->]; [|done].
    unfold start_move in Em.
    destruct (Z.eqb_spec code ESC) as [->|]; [split; [done|]|by destruct s; repeat case_match].
    destruct s; try done; by case_match.
  - destruct (code =? 0x5c) eqn:E5; [by destruct s; simpl in Em; rewrite ?E5 in Em; case_match|].
    assert (Hstr : s = oscEsc \/ s = stringEsc)
      by (unfold start_move in Em; destruct s; auto; by case_match).
    rewrite bool_decide_eq_true_2 in Hc' by done. cbn [andb] in Hc'.
    apply orb_false_iff in Hc' as [[Hesc Hcan]%orb_false_iff Hsub].
    assert (Hst : next_state s code = stateAfterEscByte code).
    { unfold next_state, scan_step, in_string.
      destruct Hstr as [-> | ->]; cbn [negb andb]; by rewrite Hesc, Hcan, Hsub, E5. }
    unfold tail_run. cbn [foldl].
    change (tail_step (ground, []) ESC) with (esc, [ESC]). unfold tail_step.
    assert (He : next_state esc code = stateAfterEscByte code).
    { unfold next_state, scan_step. by rewrite Hesc, Hcan, Hsub. }
    rewrite He, <-Hst, Hs. unfold start_move. by rewrite Hesc.
Qed.

(** C36. The fold law: on a stream where no ESC, CAN or SUB directly follows an
    ESC inside an OSC, DCS, SOS, PM or APC string, the tail of the tail and
    the rest is the tail of the whole, and so scanning chunk by chunk equals
    scanning the whole stream at once, as long as the tail of what came so far never
    exceeds the cap of 4096. *)
Theorem chunked_tail_equals_whole chunks :
  clean (mjoin chunks) = true ->
  (forall k, Z.of_nat (length (extractPartialEscapeTail (mjoin (take k chunks))))
             <= MAX_PARTIAL_ESCAPE_TAIL_LENGTH) ->
  foldl advancePartialEscapeTail [] chunks = extractPartialEscapeTail (mjoin chunks).
Proof.
  induction chunks as [|chunk chunks IH] using rev_ind; [done|].
  assert (Hj : mjoin (chunks ++ [chunk]) = mjoin chunks ++ chunk)
    by (rewrite join_app; simpl; by rewrite app_nil_r).
  intros Hc Hcap. rewrite Hj in Hc. unfold clean in Hc. rewrite clean_from_app in Hc.
  apply andb_true_iff in Hc as [Hc _].
  rewrite foldl_app. cbn [foldl]. rewrite IH; [|done|].
  - unfold advancePartialEscapeTail.
    assert (Hfold : extractPartialEscapeTail (extractPartialEscapeTail (mjoin chunks) ++ chunk)
                    = extractPartialEscapeTail (mjoin (chunks ++ [chunk]))).
    { rewrite Hj, !extract_tail_run, !tail_run_app. by rewrite tail_run_idem. }
    rewrite Hfold. specialize (Hcap (length (chunks ++ [chunk]))). rewrite firstn_all in Hcap.
    by rewrite (proj2 (Z.ltb_ge _ _)).
  - intros k. destruct (decide (k <= length chunks)%nat) as [Hk|Hk].
    + specialize (Hcap k). by rewrite take_app_le in Hcap.
    + specialize (Hcap (length chunks)). rewrite take_app_length in Hcap.
      rewrite take_ge by lia. done.
Qed.

(** Without that condition the fold law fails: after an ESC inside an OSC,
    a CAN leaves a tail that scans to nothing, and a second ESC one that loses
    its first byte, so [extract (a ++ b) = extract (extract a ++ b)] is false
    already for an empty [b]. *)
Theorem fold_law_fails :
  (let a := [ESC; 0x5d; ESC; CAN] in
   extractPartialEscapeTail a = [ESC; CAN] /\
   extractPartialEscapeTail (extractPartialEscapeTail a) = []) /\
  (let a := [ESC; 0x5d; ESC; ESC] in
   extractPartialEscapeTail a = [ESC; ESC] /\
   extractPartialEscapeTail (extractPartialEscapeTail a) = [ESC]).
Proof. repeat split. Qed.

Lemma advance_bounded pendingTail chunk :
  Z.of_nat (length (advancePartialEscapeTail pendingTail chunk)) <= MAX_PARTIAL_ESCAPE_TAIL_LENGTH.
Proof.
  unfold advancePartialEscapeTail. destruct (Z.ltb_spec MAX_PARTIAL_ESCAPE_TAIL_LENGTH
    (Z.of_nat (length (extractPartialEscapeTail (pendingTail ++ chunk))))); done.
Qed.

(** The tail is a suffix of the stream, and the tracked tail never exceeds
    the cap. *)
Theorem tail_suffix_bounded stream chunks :
  (exists pre, stream = pre ++ extractPartialEscapeTail stream) /\
  Z.of_nat (length (foldl advancePartialEscapeTail [] chunks)) <= MAX_PARTIAL_ESCAPE_TAIL_LENGTH.
Proof.
  split.
  - unfold extractPartialEscapeTail. destruct (scan ground 0 0 stream) as [s start].
    destruct s; try (exists (take start stream); by rewrite take_drop).
    exists stream. by rewrite app_nil_r.
  - induction chunks as [|chunk chunks _] using rev_ind; [done|]. rewrite foldl_app. simpl.
    apply advance_bounded.
Qed.

(** An OSC title cut inside its terminator, then a CSI cut inside. *)
Definition demo_chunks : list (list Z) :=
  [[0x61; ESC; 0x5d; 0x30; 0x3b; 0x61; ESC]; [0x5c; 0x62; ESC; 0x5b]; [0x31; 0x3b]].

Lemma chunked_tail_equals_whole_witness :
  foldl advancePartialEscapeTail [] demo_chunks = [ESC; 0x5b; 0x31; 0x3b].
Proof.
  rewrite (chunked_tail_equals_whole demo_chunks); [vm_compute; reflexivity|reflexivity|].
  intros [|[|[|k]]]; [| | |rewrite take_ge by (simpl; lia)]; by vm_compute.
Defined.
