(* ===== verification/DoubleTap.v ===== *)
(** * The modifier double-tap detector (src/shared/modifier-double-tap-detector.ts)

    A three-state machine over normalized key events. The theorem
    characterises detection by the history: a fresh press, its release and a
    second press of the same modifier within the window, with nothing but bare
    releases of other modifiers in between. *)

From S2P Require Import Prelude.

Local Open Scope string_scope.
Local Open Scope list_scope.
Local Open Scope Z_scope.

Inductive PhysicalModifierToken := Shift | Ctrl | Alt | Cmd.
#[export] Instance PhysicalModifierToken_eq_dec : EqDecision PhysicalModifierToken.
Proof. solve_decision. Defined.

Definition DOUBLE_TAP_WINDOW_MS : Z := 300.

Inductive ModifierDoubleTapEventType := KeyDown | KeyUp.
#[export] Instance EventType_eq_dec : EqDecision ModifierDoubleTapEventType.
Proof. solve_decision. Defined.

Record ModifierDoubleTapEvent := {
  ev_type : ModifierDoubleTapEventType;
  ev_modifier : option PhysicalModifierToken;
  isModifierOnly : bool;
  isAutoRepeat : bool }.

Record ModifierKeyEventLike := {
  k_type : ModifierDoubleTapEventType;
  k_code : option string;
  k_key : option string;
  k_shift : bool; k_control : bool; k_alt : bool; k_meta : bool;
  k_isAutoRepeat : bool }.

Fixpoint table_lookup (k : string) (l : list (string * PhysicalModifierToken))
    : option PhysicalModifierToken :=
  match l with
  | [] => None
  | (k', v) :: l => if String.eqb k k' then Some v else table_lookup k l
  end.

Definition MODIFIER_BY_CODE : list (string * PhysicalModifierToken) :=
  [("ShiftLeft", Shift); ("ShiftRight", Shift); ("ControlLeft", Ctrl); ("ControlRight", Ctrl);
   ("AltLeft", Alt); ("AltRight", Alt); ("MetaLeft", Cmd); ("MetaRight", Cmd)].
Definition MODIFIER_BY_KEY : list (string * PhysicalModifierToken) :=
  [("Shift", Shift); ("Control", Ctrl); ("Alt", Alt); ("Meta", Cmd)].

(** An empty string and [undefined] are both falsy, and in neither table. (A key
    event never carries the name of a property every object has.) *)
Definition modifierFromKeyEvent (code key : option string) : option PhysicalModifierToken :=
  match code ≫= (fun c => table_lookup c MODIFIER_BY_CODE) with
  | Some m => Some m
  | None => key ≫= (fun k => table_lookup k MODIFIER_BY_KEY)
  end.

Definition otherModifierHeld (event : ModifierKeyEventLike) (m : PhysicalModifierToken) : bool :=
  (negb (bool_decide (m = Shift)) && k_shift event) ||
  (negb (bool_decide (m = Ctrl)) && k_control event) ||
  (negb (bool_decide (m = Alt)) && k_alt event) ||
  (negb (bool_decide (m = Cmd)) && k_meta event).

Definition toModifierDoubleTapEvent (event : ModifierKeyEventLike) : ModifierDoubleTapEvent :=
  let modifier := modifierFromKeyEvent (k_code event) (k_key event) in
  {| ev_type := k_type event;
     ev_modifier := modifier;
     isModifierOnly :=
       match modifier with Some m => negb (otherModifierHeld event m) | None => false end;
     isAutoRepeat := k_isAutoRepeat event |}.

Inductive DetectorState :=
  | Idle
  | Down1 (modifier : PhysicalModifierToken)
  | Armed (modifier : PhysicalModifierToken) (deadlineMs : Z).

Definition onModifierDown (s : DetectorState) (m : PhysicalModifierToken) (repeat : bool) (t : Z)
    : DetectorState * option PhysicalModifierToken :=
  let completes :=
    match s with
    | Armed m' deadline => bool_decide (m' = m) && negb repeat && (t <=? deadline)
    | _ => false
    end in
  if completes then (Idle, Some m)
  else if repeat then (Idle, None)
  else (Down1 m, None).

Definition onModifierUp (s : DetectorState) (m : PhysicalModifierToken) (t : Z) : DetectorState :=
  match s with
  | Down1 m' => if bool_decide (m' = m) then Armed m (t + DOUBLE_TAP_WINDOW_MS) else s
  | Armed m' _ => if bool_decide (m' = m) then Idle else s
  | Idle => s
  end.

Definition process (s : DetectorState) (event : ModifierDoubleTapEvent) (t : Z)
    : DetectorState * option PhysicalModifierToken :=
  match ev_modifier event with
  | None => (Idle, None)
  | Some m =>
      if negb (isModifierOnly event) then (Idle, None)
      else match ev_type event with
           | KeyUp => (onModifierUp s m t, None)
           | KeyDown => onModifierDown s m (isAutoRepeat event) t
           end
  end.

Definition reset : DetectorState := Idle.

(** ** Runs *)

Abbreviation timed := (ModifierDoubleTapEvent * Z)%type.

(** A call of [process] with an event and its timestamp, or of [reset]. *)
Inductive input := Key (e : timed) | Reset.

Definition step (s : DetectorState) (x : input) : DetectorState :=
  match x with Key e => (process s e.1 e.2).1 | Reset => reset end.
(** The state after a history. *)
Definition run (es : list input) : DetectorState := foldl step Idle es.
(** What the detector returns for [e] after the history [es]. *)
Definition detects (es : list input) (e : timed) : option PhysicalModifierToken :=
  (process (run es) e.1 e.2).2.

(** ** Histories *)

Definition is_down (m : PhysicalModifierToken) (e : timed) : Prop :=
  ev_modifier e.1 = Some m /\ isModifierOnly e.1 = true /\ ev_type e.1 = KeyDown /\
  isAutoRepeat e.1 = false.
Definition is_up (m : PhysicalModifierToken) (e : timed) : Prop :=
  ev_modifier e.1 = Some m /\ isModifierOnly e.1 = true /\ ev_type e.1 = KeyUp.
(** A bare release of another modifier. *)
Definition other_up (m : PhysicalModifierToken) (e : timed) : Prop :=
  exists m', m' ≠ m /\ is_up m' e.

(** A first tap of [m] is in progress: pressed, not released. *)
Definition pressed (m : PhysicalModifierToken) (es : list input) : Prop :=
  exists pre d ups, es = pre ++ Key d :: map Key ups /\ is_down m d /\ detects pre d = None /\
    Forall (other_up m) ups.

(** The first tap of [m] is complete, released at [t]. *)
Definition tapped (m : PhysicalModifierToken) (t : Z) (es : list input) : Prop :=
  exists es1 u ups, es = es1 ++ Key u :: map Key ups /\ pressed m es1 /\ is_up m u /\ u.2 = t /\
    Forall (other_up m) ups.

Lemma run_snoc es e : run (es ++ [e]) = step (run es) e.
Proof. unfold run. by rewrite foldl_app. Qed.

Lemma pressed_snoc m es e : pressed m es -> other_up m e -> pressed m (es ++ [Key e]).
Proof.
  intros (pre & d & ups & -> & Hd & Hn & Hu) He. exists pre, d, (ups ++ [e]).
  rewrite map_app, <-app_assoc. split; [done|]. split; [done|]. split; [done|].
  apply Forall_app. by split; [|constructor].
Qed.

Lemma tapped_snoc m t es e : tapped m t es -> other_up m e -> tapped m t (es ++ [Key e]).
Proof.
  intros (es1 & u & ups & -> & Hp & Hu & Ht & Hups) He. exists es1, u, (ups ++ [e]).
  rewrite map_app, <-app_assoc. split; [done|]. split; [done|]. split; [done|]. split; [done|].
  apply Forall_app. by split; [|constructor].
Qed.

(** The state says what the history is, and conversely. *)
Lemma run_sound es :
  match run es with
  | Idle => True
  | Down1 m => pressed m es
  | Armed m d => tapped m (d - DOUBLE_TAP_WINDOW_MS) es
  end.
Proof.
  induction es as [|[e|] es IH] using rev_ind; [done| |by rewrite run_snoc].
  rewrite run_snoc. unfold step, process.
  destruct (ev_modifier e.1) as [m|] eqn:Hm; [|done].
  destruct (isModifierOnly e.1) eqn:Ho; [|done]. cbn [negb].
  destruct (ev_type e.1) eqn:Ht.
  - destruct (onModifierDown (run es) m (isAutoRepeat e.1) e.2) as [s r] eqn:Hd. cbn [fst].
    assert (Hdet : detects es e = r)
      by (unfold detects, process; rewrite Hm, Ho, Ht; cbn [negb]; by rewrite Hd).
    unfold onModifierDown in Hd. destruct (match run es with Armed _ _ => _ | _ => false end);
      simplify_eq; [done|]. destruct (isAutoRepeat e.1) eqn:Hr; simplify_eq; [done|].
    exists es, e, []. by repeat split.
  - cbn [fst]. unfold onModifierUp. destruct (run es) as [|m'|m' d]; [done| |].
    + case_bool_decide as Heq; [|by apply pressed_snoc; [|exists m]].
      subst m'. replace (e.2 + DOUBLE_TAP_WINDOW_MS - DOUBLE_TAP_WINDOW_MS) with e.2 by lia.
      exists es, e, []. by repeat split.
    + case_bool_decide as Heq; [done|]. by apply tapped_snoc; [|exists m].
Qed.

Lemma run_other_ups s m ups :
  Forall (other_up m) ups -> (s = Down1 m \/ exists d, s = Armed m d) ->
  foldl step s (map Key ups) = s.
Proof.
  intros Hups Hs. induction Hups as [|e ups (m' & Hne & Hm & Ho & Ht) _ IH]; [done|]. cbn [map foldl step].
  assert (process s e.1 e.2 = (s, None)) as ->; [|done].
  unfold process. rewrite Hm, Ho, Ht. cbn [negb]. unfold onModifierUp.
  destruct Hs as [->|[d ->]]; by rewrite bool_decide_eq_false_2 by congruence.
Qed.

Lemma pressed_run m es : pressed m es -> run es = Down1 m.
Proof.
  intros (pre & d & ups & -> & (Hm & Ho & Ht & Hr) & Hn & Hups).
  unfold run. rewrite foldl_app. cbn [foldl step]. fold (run pre).
  assert ((process (run pre) d.1 d.2).1 = Down1 m) as ->; [|by apply (run_other_ups _ m); [|left]].
  unfold detects, process in *. rewrite Hm, Ho, Ht in *. cbn [negb] in *.
  unfold onModifierDown in *. rewrite Hr in *.
  by destruct (match run pre with Armed _ _ => _ | _ => false end).
Qed.

Lemma tapped_run m t es : tapped m t es -> run es = Armed m (t + DOUBLE_TAP_WINDOW_MS).
Proof.
  intros (es1 & u & ups & -> & Hp & (Hm & Ho & Ht) & <- & Hups).
  unfold run. rewrite foldl_app. cbn [foldl step]. fold (run es1). rewrite (pressed_run m es1 Hp).
  assert ((process (Down1 m) u.1 u.2).1 = Armed m (u.2 + DOUBLE_TAP_WINDOW_MS)) as ->;
    [|apply (run_other_ups _ m); eauto].
  unfold process. rewrite Hm, Ho, Ht. cbn [negb fst]. unfold onModifierUp.
  by rewrite bool_decide_eq_true_2.
Qed.

(** The detector reports a double tap of [m] exactly when the event is a
    fresh bare press of [m] and the history ends with a complete first tap of
    [m]: a fresh bare press that was not itself a second tap, its release at
    most 300 ms before, and between them and after nothing but bare releases
    of other modifiers, and no reset. *)
Theorem double_tap_exact es e m :
  detects es e = Some m <->
  is_down m e /\ exists t, tapped m t es /\ e.2 <= t + DOUBLE_TAP_WINDOW_MS.
Proof.
  split.
  - unfold detects, process. destruct (ev_modifier e.1) as [m'|] eqn:Hm; [|done].
    destruct (isModifierOnly e.1) eqn:Ho; [|done]. cbn [negb].
    destruct (ev_type e.1) eqn:Ht; [|done]. unfold onModifierDown.
    pose proof (run_sound es) as Hrun.
    destruct (run es) as [|m''|m'' d]; try (by destruct (isAutoRepeat e.1)).
    destruct (_ && _) eqn:E; [|by destruct (isAutoRepeat e.1)]. intros [= ->]. bool_to_prop. subst m''.
    split; [by repeat split|]. exists (d - DOUBLE_TAP_WINDOW_MS). split; [done|lia].
  - intros [(Hm & Ho & Ht & Hr) (t & Htap & Hle)]. unfold detects, process.
    rewrite (tapped_run m t es Htap), Hm, Ho, Ht. cbn [negb]. unfold onModifierDown.
    rewrite bool_decide_eq_true_2, Hr by done. cbn [negb andb].
    by rewrite (proj2 (Z.leb_le _ _)) by done.
Qed.

Example double_tap_ex :
  let ev t := {| ev_type := t; ev_modifier := Some Shift; isModifierOnly := true; isAutoRepeat := false |} in
  detects [Key (ev KeyDown, 0); Key (ev KeyUp, 80)] (ev KeyDown, 380) = Some Shift /\
  detects [Key (ev KeyDown, 0); Key (ev KeyUp, 80)] (ev KeyDown, 381) = None /\
  detects [Key (ev KeyDown, 0); Key (ev KeyUp, 80); Reset] (ev KeyDown, 100) = None.
Proof. repeat split; reflexivity. Qed.
