(* ===== verification/DesktopTerminal.v ===== *)
(** * The desktop terminal: stream tracking and paced output
    (src/desktop/src/terminal-stream.ts, terminal-output-scheduler.ts)

    [TerminalStreamTracker] decides which output frames may be painted.
    [TerminalOutputScheduler] feeds the terminal in bounded chunks, one at a
    time; the terminal's callbacks and the timers are the events of its runs.
    What it does is a log of effects, the bytes accepted from its callers
    included.

    Theorems: what the tracker lets through is contiguous; the scheduler writes
    the accepted bytes in order, within its budget, one chunk at a time, and
    always has a callback, a timer or nothing to do. *)

From S2P Require Import Prelude Json.

Local Open Scope string_scope.
Local Open Scope list_scope.
Local Open Scope Z_scope.

(** ** The stream tracker *)

Module Tracker.

Record SequencedTerminalFrame := { f_incarnationId : option string; f_seq : option jsnum }.

Inductive StreamDecision := Apply | Snapshot | Duplicate | Gap.
#[export] Instance StreamDecision_eq_dec : EqDecision StreamDecision.
Proof. solve_decision. Defined.

Record TerminalStreamTracker := { incarnationId : string; lastSeq : Z; awaitingSnapshot : bool }.
Definition new_tracker : TerminalStreamTracker :=
  {| incarnationId := ""; lastSeq := 0; awaitingSnapshot := false |}.

(** A non-empty incarnation with a safe integer not below [least]. *)
Definition metadata (least : Z) (f : SequencedTerminalFrame) : option (string * Z) :=
  match f_incarnationId f, f_seq f with
  | Some i, Some (NInt z) =>
      if negb (String.eqb i "") && isSafeInteger z && (least <=? z) then Some (i, z) else None
  | _, _ => None
  end.

Definition acceptOutput (frame : SequencedTerminalFrame) (t : TerminalStreamTracker)
    : TerminalStreamTracker * StreamDecision :=
  match metadata 1 frame with
  | None => (t, Apply)
  | Some (i, seq) =>
      if String.eqb (incarnationId t) "" then
        if negb (seq =? 1)
        then ({| incarnationId := i; lastSeq := lastSeq t; awaitingSnapshot := true |}, Gap)
        else ({| incarnationId := i; lastSeq := seq; awaitingSnapshot := awaitingSnapshot t |}, Apply)
      else if negb (String.eqb i (incarnationId t)) then
        ({| incarnationId := i; lastSeq := 0; awaitingSnapshot := true |}, Gap)
      else if awaitingSnapshot t then (t, Duplicate)
      else if seq <=? lastSeq t then (t, Duplicate)
      else if negb (seq =? lastSeq t + 1) then
        ({| incarnationId := incarnationId t; lastSeq := lastSeq t; awaitingSnapshot := true |}, Gap)
      else ({| incarnationId := incarnationId t; lastSeq := seq;
               awaitingSnapshot := awaitingSnapshot t |}, Apply)
  end.

Definition acceptSnapshot (frame : SequencedTerminalFrame) (t : TerminalStreamTracker)
    : TerminalStreamTracker * StreamDecision :=
  match metadata 0 frame with
  | Some (i, seq) => ({| incarnationId := i; lastSeq := seq; awaitingSnapshot := false |}, Snapshot)
  | None => ({| incarnationId := incarnationId t; lastSeq := lastSeq t;
                awaitingSnapshot := false |}, Snapshot)
  end.

(** [{}] when nothing was tracked yet. *)
Definition resumeCursor (t : TerminalStreamTracker) : option (string * Z) :=
  if String.eqb (incarnationId t) "" then None else Some (incarnationId t, lastSeq t).

Inductive event := Output (f : SequencedTerminalFrame) | SnapshotFrame (f : SequencedTerminalFrame).

Definition step (t : TerminalStreamTracker) (e : event) : TerminalStreamTracker :=
  match e with
  | Output f => (acceptOutput f t).1
  | SnapshotFrame f => (acceptSnapshot f t).1
  end.
Definition run (es : list event) : TerminalStreamTracker := foldl step new_tracker es.

(** The position of the screen: what the last painted frame with metadata says. *)
Definition painted_step (x : TerminalStreamTracker * option (string * Z)) (e : event)
    : TerminalStreamTracker * option (string * Z) :=
  let '(t, p) := x in
  (step t e,
   match e with
   | Output f =>
       match (acceptOutput f t).2, metadata 1 f with
       | Apply, Some m => Some m
       | _, _ => p
       end
   | SnapshotFrame f => match metadata 0 f with Some m => Some m | None => p end
   end).
Definition painted (es : list event) : option (string * Z) :=
  (foldl painted_step (new_tracker, None) es).2.

(** Snapshots of the current protocol carry their incarnation and position. *)
Definition sequenced_snapshot (e : event) : Prop :=
  match e with SnapshotFrame f => is_Some (metadata 0 f) | Output _ => True end.

Lemma metadata_some least f i z :
  metadata least f = Some (i, z) -> i ≠ "" /\ least <= z.
Proof.
  unfold metadata. destruct (f_incarnationId f) as [i'|]; [|done].
  destruct (f_seq f) as [[z'| |]|]; try done. destruct (_ && _) eqn:E; [|done]. intros [= <- <-].
  apply andb_true_iff in E as [[Hi _]%andb_true_iff Hz]. apply negb_true_iff, String.eqb_neq in Hi.
  apply Z.leb_le in Hz. done.
Qed.

(** The tracker's fields, against what was painted. *)
Definition tracks (t : TerminalStreamTracker) (p : option (string * Z)) : Prop :=
  (incarnationId t = "" -> p = None /\ awaitingSnapshot t = false) /\
  (incarnationId t ≠ "" -> awaitingSnapshot t = false -> p = Some (incarnationId t, lastSeq t)).

Lemma painted_run es : (foldl painted_step (new_tracker, None) es).1 = run es.
Proof.
  unfold run. generalize (None : option (string * Z)), new_tracker.
  induction es as [|e es IH]; intros p t; [done|]. cbn [foldl]. unfold painted_step at 2. apply IH.
Qed.

Lemma run_tracks es : Forall sequenced_snapshot es -> tracks (run es) (painted es).
Proof.
  intros Hes. unfold painted. pose proof (painted_run es) as Hrun.
  destruct (foldl painted_step (new_tracker, None) es) as [t p] eqn:Hp. simpl in Hrun. subst t.
  simpl. revert p Hp. induction es as [|e es IH] using rev_ind; intros p Hp.
  { injection Hp as <-. done. }
  apply Forall_app in Hes as [Hes [He _]%Forall_cons]. rewrite foldl_app in Hp. simpl in Hp.
  pose proof (painted_run es) as Hr. destruct (foldl painted_step _ es) as [t p0]. simpl in Hr. subst t.
  specialize (IH Hes p0 eq_refl). unfold painted_step in Hp. injection Hp as Hst <-.
  unfold run. rewrite foldl_app. cbn [foldl]. fold (run es). clear Hst.
  destruct IH as [H1 H2]. destruct e as [f|f]; simpl.
  - unfold acceptOutput. destruct (metadata 1 f) as [[i z]|] eqn:Hm; [|done].
    destruct (metadata_some _ _ _ _ Hm) as [Hi Hz].
    destruct (String.eqb_spec (incarnationId (run es)) "") as [He0|He0].
    + destruct (H1 He0) as [-> Ha]. destruct (Z.eqb_spec z 1); simpl; split; simpl; congruence.
    + destruct (String.eqb_spec i (incarnationId (run es))) as [->|]; [|split; simpl; congruence].
      cbn [negb]. destruct (awaitingSnapshot (run es)) eqn:Ha; [split; simpl; congruence|].
      destruct (z <=? lastSeq (run es)); [split; simpl; auto; congruence|].
      destruct (z =? lastSeq (run es) + 1); split; simpl; congruence.
  - destruct He as [[i z] Hm]. unfold acceptSnapshot. rewrite Hm. simpl.
    destruct (metadata_some _ _ _ _ Hm). split; simpl; [congruence|done].
Qed.

(** C37. A sequenced output frame is painted only as the first frame of the first
    incarnation or directly after the last painted position of its incarnation:
    no gap, duplicate or reordered frame, and none of another incarnation,
    reaches the screen without a snapshot in between. Frames without a sequence
    number are always painted, and are not meant here. *)
Theorem painted_contiguous es f i z :
  Forall sequenced_snapshot es -> metadata 1 f = Some (i, z) ->
  (acceptOutput f (run es)).2 = Apply ->
  (painted es = None /\ z = 1) \/ painted es = Some (i, z - 1).
Proof.
  intros Hes Hm. destruct (run_tracks es Hes) as [H1 H2]. unfold acceptOutput. rewrite Hm.
  destruct (String.eqb_spec (incarnationId (run es)) "") as [He|He].
  - destruct (Z.eqb_spec z 1); [|done]. destruct (H1 He). auto.
  - destruct (String.eqb_spec i (incarnationId (run es))) as [->|]; [|done]. cbn [negb].
    destruct (awaitingSnapshot (run es)); [done|].
    destruct (Z.leb_spec z (lastSeq (run es))); [done|].
    destruct (Z.eqb_spec z (lastSeq (run es) + 1)); [|done]. intros _. right.
    rewrite H2 by done. do 2 f_equal. lia.
Qed.

Definition demo_frame (i : string) (z : Z) : SequencedTerminalFrame :=
  {| f_incarnationId := Some i; f_seq := Some (NInt z) |}.
Definition demo_events : list event :=
  [Output (demo_frame "a" 1); Output (demo_frame "a" 2); Output (demo_frame "a" 4);
   Output (demo_frame "a" 5); SnapshotFrame (demo_frame "a" 5)].

Lemma painted_contiguous_witness :
  (acceptOutput (demo_frame "a" 6) (run demo_events)).2 = Apply /\
  painted demo_events = Some ("a", 5).
Proof.
  split; [reflexivity|].
  destruct (painted_contiguous demo_events (demo_frame "a" 6) "a" 6) as [[H _]|H].
  - repeat constructor; by eexists.
  - reflexivity.
  - reflexivity.
  - exfalso. vm_compute in H. discriminate.
  - exact H.
Defined.

End Tracker.

(** ** The output scheduler *)

Module Scheduler.

Record Options := {
  maxForegroundBytes : Z; maxBackgroundBytes : Z; chunkBytes : nat }.
Definition default_options : Options :=
  {| maxForegroundBytes := 4 * 1024 * 1024; maxBackgroundBytes := 1024 * 1024;
     chunkBytes := 16 * 1024 |}.

(** What happens, in order. [Accepted] marks the push of a copy of [data]. *)
Inductive effect :=
  | Accepted (data : list Z)
  | Write (chunk : list Z)
  | Recovered
  | OnOverflow
  | OnStall.

(** [stallTimer]: the generation captured by the armed stall timer.
    [in_flight]: the writes whose callback has not been called, by the
    generation each captured. [pumpTimers]: the pending [setTimeout(pump, 0)]. *)
Record TerminalOutputScheduler := {
  queue : list (list Z);
  queuedBytes : Z;
  writing : bool;
  disposed : bool;
  generation : Z;
  stallTimer : option Z;
  in_flight : list Z;
  pumpTimers : nat;
  log : list effect }.
Implicit Types s : TerminalOutputScheduler.

Definition new_scheduler : TerminalOutputScheduler :=
  {| queue := []; queuedBytes := 0; writing := false; disposed := false; generation := 0;
     stallTimer := None; in_flight := []; pumpTimers := 0; log := [] |}.

Definition byteLength (data : list Z) : Z := Z.of_nat (length data).

Section Scheduler.
Context (options : Options).

Definition emit (e : effect) s : TerminalOutputScheduler :=
  {| queue := queue s; queuedBytes := queuedBytes s; writing := writing s; disposed := disposed s;
     generation := generation s; stallTimer := stallTimer s; in_flight := in_flight s;
     pumpTimers := pumpTimers s; log := log s ++ [e] |}.

Definition recover s : TerminalOutputScheduler :=
  {| queue := []; queuedBytes := 0; writing := false; disposed := disposed s;
     generation := generation s + 1; stallTimer := None; in_flight := in_flight s;
     pumpTimers := pumpTimers s; log := log s ++ [Recovered] |}.

Definition dispose s : TerminalOutputScheduler :=
  recover {| queue := queue s; queuedBytes := queuedBytes s; writing := writing s; disposed := true;
             generation := generation s; stallTimer := stallTimer s; in_flight := in_flight s;
             pumpTimers := pumpTimers s; log := log s |}.

Definition pump s : TerminalOutputScheduler :=
  match queue s with
  | [] => s
  | head :: rest =>
      if disposed s || writing s then s
      else
        let chunk := if (length head <=? chunkBytes options)%nat then head
                     else take (chunkBytes options) head in
        let queue' := if (length chunk =? length head)%nat then rest
                      else drop (length chunk) head :: rest in
        {| queue := queue'; queuedBytes := queuedBytes s - byteLength chunk; writing := true;
           disposed := disposed s; generation := generation s; stallTimer := Some (generation s);
           in_flight := in_flight s ++ [generation s]; pumpTimers := pumpTimers s;
           log := log s ++ [Write chunk] |}
  end.

Definition enqueue (data : list Z) (background : bool) s : TerminalOutputScheduler * bool :=
  if disposed s || (byteLength data =? 0) then (s, negb (disposed s))
  else
    let limit := if background then maxBackgroundBytes options else maxForegroundBytes options in
    if limit <? queuedBytes s + byteLength data then (emit OnOverflow (recover s), false)
    else
      let s := {| queue := queue s ++ [data]; queuedBytes := queuedBytes s + byteLength data;
                  writing := writing s; disposed := disposed s; generation := generation s;
                  stallTimer := stallTimer s; in_flight := in_flight s;
                  pumpTimers := pumpTimers s; log := log s ++ [Accepted data] |} in
      (pump s, true).

(** The callback of the [i]-th write in flight. *)
Definition write_done (i : nat) s : TerminalOutputScheduler :=
  match in_flight s !! i with
  | None => s
  | Some g =>
      let current := (g =? generation s) && negb (disposed s) in
      {| queue := queue s; queuedBytes := queuedBytes s;
         writing := if current then false else writing s; disposed := disposed s;
         generation := generation s;
         stallTimer := if current then None else stallTimer s;
         in_flight := delete i (in_flight s);
         pumpTimers := if current then S (pumpTimers s) else pumpTimers s; log := log s |}
  end.

(** The callbacks of the armed stall timer and of a pending pump timer. *)
Definition stall_fires s : TerminalOutputScheduler :=
  match stallTimer s with
  | None => s
  | Some g =>
      let s := {| queue := queue s; queuedBytes := queuedBytes s; writing := writing s;
                  disposed := disposed s; generation := generation s; stallTimer := None;
                  in_flight := in_flight s; pumpTimers := pumpTimers s; log := log s |} in
      if disposed s || negb (g =? generation s) || negb (writing s) then s
      else emit OnStall (recover s)
  end.

Definition pump_fires s : TerminalOutputScheduler :=
  match pumpTimers s with
  | O => s
  | S n =>
      pump {| queue := queue s; queuedBytes := queuedBytes s; writing := writing s;
              disposed := disposed s; generation := generation s; stallTimer := stallTimer s;
              in_flight := in_flight s; pumpTimers := n; log := log s |}
  end.

Inductive event :=
  | Enqueue (data : list Z) (background : bool)
  | Recover
  | Dispose
  | WriteDone (i : nat)
  | StallFires
  | PumpFires.

Definition step s (e : event) : TerminalOutputScheduler :=
  match e with
  | Enqueue data background => (enqueue data background s).1
  | Recover => recover s
  | Dispose => dispose s
  | WriteDone i => write_done i s
  | StallFires => stall_fires s
  | PumpFires => pump_fires s
  end.
Definition run (es : list event) : TerminalOutputScheduler := foldl step new_scheduler es.

(** ** The specification *)

(** The bytes accepted and the bytes written since the last recovery. *)
Definition io_step (x : list Z * list Z) (e : effect) : list Z * list Z :=
  match e with
  | Accepted data => (x.1 ++ data, x.2)
  | Write chunk => (x.1, x.2 ++ chunk)
  | Recovered => ([], [])
  | OnOverflow | OnStall => x
  end.
Definition io_since_recovery (es : list effect) : list Z * list Z := foldl io_step ([], []) es.

(** The chunks in flight of the current generation. *)
Definition current_writes s : nat := length (js_filter (fun g => g =? generation s) (in_flight s)).

Definition budget : Z := Z.max (maxForegroundBytes options) (maxBackgroundBytes options).

Record scheduler_ok s : Prop := {
  s_io : let '(accepted, written) := io_since_recovery (log s) in
         accepted = written ++ mjoin (queue s);
  s_bytes : queuedBytes s = byteLength (mjoin (queue s));
  s_nonempty : Forall (fun d => d ≠ []) (queue s);
  s_budget : queuedBytes s <= Z.max 0 budget;
  s_gen : Forall (fun g => g <= generation s) (in_flight s);
  s_writing : disposed s = false -> current_writes s = if writing s then 1%nat else 0%nat;
  s_stall : disposed s = false -> stallTimer s = if writing s then Some (generation s) else None;
  s_idle : disposed s = false -> writing s = false -> queue s ≠ [] -> (0 < pumpTimers s)%nat;
  s_disposed : disposed s = true -> queue s = [] /\ writing s = false }.

Lemma io_snoc es e : io_since_recovery (es ++ [e]) = io_step (io_since_recovery es) e.
Proof. unfold io_since_recovery. by rewrite foldl_app. Qed.

Lemma no_current (l : list Z) g :
  Forall (fun g' => g' <= g) l -> length (js_filter (fun g' => g' =? g + 1) l) = 0%nat.
Proof.
  intros H. rewrite js_filter_none; [done|]. eapply Forall_impl; [exact H|].
  intros g' Hg. simpl in *. apply Z.eqb_neq. lia.
Qed.

Lemma recover_ok s : scheduler_ok s -> scheduler_ok (recover s).
Proof.
  intros [H1 H2 H3 H4 H5 H6 H7 H8 H9]. split; simpl; try done.
  - by rewrite io_snoc.
  - lia.
  - eapply Forall_impl; [exact H5|]. simpl. intros. lia.
  - intros _. by apply no_current.
Qed.

Lemma sched_emit_ok e s :
  scheduler_ok s -> e = OnOverflow \/ e = OnStall -> scheduler_ok (emit e s).
Proof.
  intros [H1 H2 H3 H4 H5 H6 H7 H8 H9] He. split; simpl; try done.
  rewrite io_snoc. by destruct He as [-> | ->]; destruct (io_since_recovery (log s)).
Qed.

(** The state a pump works on: like [scheduler_ok], the timer apart. *)
Definition pumpable s : Prop :=
  forall timers, scheduler_ok {| queue := queue s; queuedBytes := queuedBytes s; writing := writing s;
    disposed := disposed s; generation := generation s; stallTimer := stallTimer s;
    in_flight := in_flight s; pumpTimers := S timers; log := log s |}.

Lemma byteLength_app l1 l2 : byteLength (l1 ++ l2) = byteLength l1 + byteLength l2.
Proof. unfold byteLength. rewrite length_app. lia. Qed.

(** A chunk off the head: what was queued is the chunk and what stays. *)
Lemma pump_split (head : list Z) (rest : list (list Z)) :
  (0 < chunkBytes options)%nat -> head ≠ [] -> Forall (fun d => d ≠ []) rest ->
  let chunk := if (length head <=? chunkBytes options)%nat then head
               else take (chunkBytes options) head in
  let queue' := if (length chunk =? length head)%nat then rest
                else drop (length chunk) head :: rest in
  mjoin (head :: rest) = chunk ++ mjoin queue' /\ Forall (fun d => d ≠ []) queue' /\ chunk ≠ [].
Proof.
  intros Hc Hne Hrest. cbn zeta. destruct (Nat.leb_spec (length head) (chunkBytes options)).
  - rewrite Nat.eqb_refl. done.
  - assert (Hl : length (take (chunkBytes options) head) = chunkBytes options)
      by (rewrite length_take; lia).
    rewrite Hl. destruct (Nat.eqb_spec (chunkBytes options) (length head)); [lia|].
    split; [|split].
    + change (mjoin (?x :: ?l)) with (x ++ mjoin l). by rewrite app_assoc, take_drop.
    + constructor; [|done]. intros Hd%(f_equal length). rewrite length_drop in Hd. simpl in Hd. lia.
    + intros Ht%(f_equal length). rewrite Hl in Ht. simpl in Ht. lia.
Qed.

Lemma pump_ok s : (0 < chunkBytes options)%nat -> pumpable s -> scheduler_ok (pump s).
Proof.
  intros Hc Hs. pose proof (Hs 0%nat) as [H1 H2 H3 H4 H5 H6 H7 H8 H9]. simpl in *.
  unfold pump. destruct (queue s) as [|head rest] eqn:Hq; [split; rewrite ?Hq; try done|].
  destruct (disposed s) eqn:Hd; [by destruct (H9 eq_refl)|]. cbn [orb].
  destruct (writing s) eqn:Hw; [split; rewrite ?Hq, ?Hw, ?Hd; try done|].
  inversion H3 as [|? ? Hne Hrest]; subst.
  destruct (pump_split head rest Hc Hne Hrest) as (Hj & Hq' & Hchunk).
  revert Hj Hq' Hchunk. set (chunk := if (length head <=? _)%nat then _ else _).
  set (queue' := if (_ =? _)%nat then _ else _). intros Hj Hq' Hchunk.
  split; simpl; try done.
  - rewrite io_snoc. destruct (io_since_recovery (log s)) as [acc wr]. simpl.
    by rewrite H1, Hj, app_assoc.
  - rewrite H2, Hj, byteLength_app. lia.
  - rewrite Hj in H2. rewrite byteLength_app in H2. unfold byteLength in *. lia.
  - apply Forall_app. split; [done|]. constructor; [lia|done].
  - intros _. unfold current_writes in *. simpl in *. rewrite js_filter_app, length_app, H6 by done.
    simpl. by rewrite Z.eqb_refl.
Qed.

Lemma scheduler_pumpable s : scheduler_ok s -> pumpable s.
Proof. intros [H1 H2 H3 H4 H5 H6 H7 H8 H9] timers. split; simpl; try done. intros. lia. Qed.

Lemma step_scheduler_ok s e :
  (0 < chunkBytes options)%nat -> scheduler_ok s -> scheduler_ok (step s e).
Proof.
  intros Hc Hs. destruct e as [data background| | |i| |]; simpl.
  - unfold enqueue. destruct (disposed s || (byteLength data =? 0)) eqn:E; [done|].
    apply orb_false_iff in E as [Ed En]. apply Z.eqb_neq in En.
    set (limit := if background then _ else _).
    destruct (Z.ltb_spec limit (queuedBytes s + byteLength data)) as [|Hle];
      [by apply sched_emit_ok; [apply recover_ok|left]|].
    apply pump_ok; [done|]. intros timers. destruct Hs as [H1 H2 H3 H4 H5 H6 H7 H8 H9].
    split; simpl; try done.
    + rewrite io_snoc. destruct (io_since_recovery (log s)) as [acc wr]. simpl.
      rewrite join_app. simpl. by rewrite H1, <-app_assoc, app_nil_r.
    + rewrite join_app, byteLength_app, H2. simpl. by rewrite app_nil_r.
    + apply Forall_app. split; [done|]. constructor; [by intros ->|done].
    + assert (limit <= budget) by (unfold limit, budget; destruct background; lia). lia.
    + intros. lia.
    + congruence.
  - by apply recover_ok.
  - destruct Hs as [H1 H2 H3 H4 H5 H6 H7 H8 H9]. unfold dispose. split; simpl; try done.
    + by rewrite io_snoc.
    + lia.
    + eapply Forall_impl; [exact H5|]. simpl. intros. lia.
  - unfold write_done. destruct (in_flight s !! i) as [g|] eqn:Hi; [|done].
    destruct Hs as [H1 H2 H3 H4 H5 H6 H7 H8 H9].
    assert (Hdel : Forall (fun g => g <= generation s) (delete i (in_flight s)))
      by (by apply Forall_delete).
    pose proof (length_js_filter_delete (fun g => g =? generation s) (in_flight s) i g Hi) as Hcount.
    destruct (disposed s) eqn:Hd; rewrite ?andb_false_r, ?andb_true_r; cbn [negb].
    + split; simpl; done.
    + specialize (H6 eq_refl). unfold current_writes in H6.
      destruct (g =? generation s) eqn:Hg; split; simpl; try done; unfold current_writes; simpl.
      * intros _. destruct (writing s); lia.
      * intros. lia.
      * intros _. rewrite H6 in Hcount. destruct (writing s); lia.
  - unfold stall_fires. destruct (stallTimer s) as [g|] eqn:Hst; [|done].
    destruct Hs as [H1 H2 H3 H4 H5 H6 H7 H8 H9]. simpl.
    destruct (disposed s) eqn:Hd; cbn [orb].
    { split; simpl; done. }
    specialize (H7 eq_refl). rewrite Hst in H7. destruct (writing s) eqn:Hw; [|done].
    injection H7 as ->. rewrite Z.eqb_refl. cbn [negb orb].
    apply sched_emit_ok; [|by right]. split; simpl; try done.
    + by rewrite io_snoc.
    + lia.
    + eapply Forall_impl; [exact H5|]. simpl. intros. lia.
    + intros _. by apply no_current.
  - unfold pump_fires. destruct (pumpTimers s) as [|n]; [done|]. apply pump_ok; [done|].
    pose proof (scheduler_pumpable s Hs) as Hp. intros timers. apply (Hp timers).
Qed.

Lemma run_scheduler_ok es : (0 < chunkBytes options)%nat -> scheduler_ok (run es).
Proof.
  intros Hc. unfold run. assert (H0 : scheduler_ok new_scheduler).
  { split; simpl; try done; unfold budget; lia. }
  revert H0. generalize new_scheduler. induction es as [|e es IH]; intros s Hs; simpl; [done|].
  by apply IH, step_scheduler_ok.
Qed.

(** In every run the bytes written since the last recovery, followed by
    those still queued, are the bytes accepted since then, in order, and the
    queue stays within the budget. While the scheduler is not disposed, one
    chunk at most awaits its callback, with the stall timer armed for it, and a
    waiting queue without one has a pump scheduled: output never sticks. *)
Theorem scheduler_paced es :
  (0 < chunkBytes options)%nat ->
  let s := run es in
  let '(accepted, written) := io_since_recovery (log s) in
  accepted = written ++ mjoin (queue s) /\
  queuedBytes s = byteLength (mjoin (queue s)) /\ queuedBytes s <= Z.max 0 budget /\
  (disposed s = false ->
   if writing s then current_writes s = 1%nat /\ stallTimer s = Some (generation s)
   else current_writes s = 0%nat /\ stallTimer s = None /\
        (queue s ≠ [] -> (0 < pumpTimers s)%nat)).
Proof.
  intros Hc s. pose proof (run_scheduler_ok es Hc) as [H1 H2 H3 H4 H5 H6 H7 H8 H9].
  fold s in H1, H2, H3, H4, H5, H6, H7, H8, H9.
  destruct (io_since_recovery (log s)) as [accepted written].
  split; [done|]. split; [done|]. split; [done|]. intros Hd. specialize (H6 Hd). specialize (H7 Hd).
  destruct (writing s) eqn:Hw; [done|]. split; [done|]. split; [done|]. by apply H8.
Qed.
End Scheduler.

Definition demo_options : Options :=
  {| maxForegroundBytes := 10; maxBackgroundBytes := 4; chunkBytes := 3 |}.
Definition demo_events : list event :=
  [Enqueue [1; 2; 3; 4] false; Enqueue [5] false; WriteDone 0; PumpFires].

Lemma scheduler_paced_witness :
  log (run demo_options demo_events) = [Accepted [1; 2; 3; 4]; Write [1; 2; 3]; Accepted [5]; Write [4]] /\
  queue (run demo_options demo_events) = [[5]] /\
  queuedBytes (run demo_options demo_events) <= 10.
Proof.
  split; [vm_compute; reflexivity|]. split; [vm_compute; reflexivity|].
  pose proof (scheduler_paced demo_options demo_events) as H.
  specialize (H ltac:(simpl; lia)). cbv zeta in H.
  destruct (io_since_recovery (log (run demo_options demo_events))).
  destruct H as (_ & _ & H & _). exact H.
Defined.
End Scheduler.
