(* ===== verification/DesktopFrames.v ===== *)
(** * The desktop client: frames it reads and writes, and what a token tells it
    (src/desktop/src/protocol.ts)

    The parsers turn one line of the WebSocket into an event or nothing; the builders
    write the frames; [keyToSequence] and [isScrollSeq] sort keys and mouse reports;
    the token functions read the unverified payload of a JWT. [JSON.parse] is a
    parameter. Terminal input is a list of UTF-16 code units.

    Theorems: a size that reaches the grid is positive, a key never yields text the
    input event also delivers, a token's claims are read back when they are ASCII. *)

From S2P Require Import Prelude JsMap Json JsText Base64.

Local Open Scope string_scope.
Local Open Scope list_scope.
Local Open Scope Z_scope.

(** ** Events *)

(** Fields the code casts without a check are any JSON value. *)
Inductive ServerEvent :=
  | SessionId (sessionId : json)
  | Text (text : json)
  | Thinking (text : json)
  | TurnDone (sessionId : json)
  | ErrorEvent (message : json)
  | Aborted
  | PeerChat (from text : json)
  | HostStatus (connected : bool)
  | Unavailable (reason : json)
  | ToolCall (name : json) (input : option json)
  | ToolResult (content : option json)
  | PermissionRequest (requestId toolName : json) (input : option json).

Inductive RoomMode := ChatMode | TerminalMode.
#[export] Instance RoomMode_eq_dec : EqDecision RoomMode.
Proof. solve_decision. Defined.

Record ParticipantPresence := {
  userId : string; role : string; access : string; connectionId : string; connectedAt : jsnum }.

(** [streamId], [incarnationId] and [seq] of a terminal frame. *)
Record Sequence := { streamId : option string; incarnationId : option string; seq : option Z }.

Inductive TerminalEvent :=
  | RoomModeEvent (mode : RoomMode)
  | PtyOutput (data : string) (at_ : Sequence)
  | PtySnapshot (data : string) (at_ : Sequence) (cols rows : option jsnum)
  | PtyExit (code : option jsnum)
  | Driver (from : string)
  | DriverState (driver : string) (generation : Z) (expiresAt : option jsnum)
  | DriverRequest (from : string)
  | ParticipantRoster (participants : list ParticipantPresence) (driver : string) (generation : Z)
  | PtySize (cols rows : jsnum)
  | RoomChat (from text : json).

Section Parse.
Context (parse_json : string -> option json).

(** A frame is read when it is an object; an array has no [type]. *)
Definition parse_frame (raw : string) : option json :=
  e ← parse_json raw; if is_object e then Some e else None.
Definition is_type (t : string) (e : json) : bool := strict_eq (prop "type" e) (Some (JStr t)).

Definition server_event (e : json) : option ServerEvent :=
  let field k := nullish (prop k e) (JStr "") in
  if is_type "session_id" e then Some (SessionId (field "sessionId"))
  else if is_type "text" e then Some (Text (field "text"))
  else if is_type "thinking" e then Some (Thinking (field "text"))
  else if is_type "done" e then Some (TurnDone (field "sessionId"))
  else if is_type "error" e then Some (ErrorEvent (field "message"))
  else if is_type "aborted" e then Some Aborted
  else if is_type "peer_chat" e then Some (PeerChat (field "from") (field "text"))
  else if is_type "host:status" e || is_type "agent:status" e then Some (HostStatus (truthy (prop "connected" e)))
  else if is_type "agent:unavailable" e then Some (Unavailable (field "reason"))
  else if is_type "tool_call" e then Some (ToolCall (field "name") (prop "input" e))
  else if is_type "tool_result" e then Some (ToolResult (prop "content" e))
  else if is_type "permission_request" e then
    match prop "requestId" e with
    | Some r => if truthy (Some r) then Some (PermissionRequest r (field "toolName") (prop "input" e)) else None
    | None => None
    end
  else None.
Definition parseServerEvent (raw : string) : option ServerEvent := e ← parse_frame raw; server_event e.

(** [Number.isFinite(v) && v > 0] *)
Definition positive (v : option json) : option jsnum :=
  n ← isFinite v; if jsnum_pos n then Some n else None.
Definition text_field (k : string) (e : json) : string := default "" (as_string (prop k e)).

Definition terminalSequence (e : json) (allowZero : bool) : Sequence :=
  {| streamId := as_string (prop "streamId" e); incarnationId := as_string (prop "incarnationId" e);
     seq := z ← safeInteger (prop "seq" e); if (if allowZero then 0 else 1) <=? z then Some z else None |}.

Definition participant (raw : json) : option ParticipantPresence :=
  u ← as_string (prop "userId" raw);
  c ← as_string (prop "connectionId" raw);
  Some {| userId := u; role := default "participant" (as_string (prop "role" raw));
          access := default "view" (as_string (prop "access" raw)); connectionId := c;
          connectedAt := default (NInt 0) (as_number (prop "connectedAt" raw)) |}.
Definition generation_field (e : json) : Z := default 0 (safeInteger (prop "generation" e)).

Definition terminal_event (e : json) : option TerminalEvent :=
  if is_type "room_mode" e then
    if strict_eq (prop "mode" e) (Some (JStr "terminal")) then Some (RoomModeEvent TerminalMode)
    else if strict_eq (prop "mode" e) (Some (JStr "chat")) then Some (RoomModeEvent ChatMode) else None
  else if is_type "pty_output" e then Some (PtyOutput (text_field "data" e) (terminalSequence e false))
  else if is_type "pty_snapshot" e then
    Some (PtySnapshot (text_field "data" e) (terminalSequence e true) (positive (prop "cols" e)) (positive (prop "rows" e)))
  else if is_type "pty_exit" e then Some (PtyExit (as_number (prop "code" e)))
  else if is_type "driver" e then Some (Driver (text_field "from" e))
  else if is_type "driver_state" e then
    Some (DriverState (text_field "driver" e) (generation_field e) (positive (prop "expiresAt" e)))
  else if is_type "driver_request" e then Some (DriverRequest (text_field "from" e))
  else if is_type "participant_roster" e then
    Some (ParticipantRoster
            (match prop "participants" e with Some (JArr l) => omap participant l | _ => [] end)
            (text_field "driver" e) (generation_field e))
  else if is_type "pty_size" e then
    match positive (prop "cols" e), positive (prop "rows" e) with
    | Some cols, Some rows => Some (PtySize cols rows)
    | _, _ => None
    end
  else if is_type "room_chat" e then Some (RoomChat (nullish (prop "from" e) (JStr "")) (nullish (prop "text" e) (JStr "")))
  else None.
Definition parseTerminalEvent (raw : string) : option TerminalEvent := e ← parse_frame raw; terminal_event e.

Definition peekRoomMode (raw : string) : option RoomMode :=
  match parseTerminalEvent raw with Some (RoomModeEvent mode) => Some mode | _ => None end.
End Parse.

(** ** Frames written *)

Definition typed_frame (t : string) (fields : list (string * option json)) : string :=
  JSON_stringify (JObj (("type", JStr t) :: defined fields)).

(** [sessionId] is what the session last said it is. *)
Definition buildChat (prompt : string) (sessionId : json) : string :=
  typed_frame "chat" [("prompt", Some (JStr prompt)); ("sessionId", if truthy (Some sessionId) then Some sessionId else None)].
Definition buildPermissionResponse (requestId : json) (allow : bool) : string :=
  typed_frame "permission_response" [("requestId", Some requestId); ("allow", Some (JBool allow))].
Definition buildPtyInput (data : string) : string := typed_frame "pty_input" [("data", Some (JStr data))].
Definition buildPtyScroll (data : string) : string := typed_frame "pty_scroll" [("data", Some (JStr data))].
Definition buildPtyResize (cols rows : Z) : string :=
  typed_frame "pty_resize" [("cols", Some (JNum (NInt cols))); ("rows", Some (JNum (NInt rows)))].
Definition buildSetDriver (target : string) : string :=
  typed_frame "set_driver" [("target", Some (JStr target)); ("driver", Some (JStr target))].
Definition buildRequestScreen (cursor : option (string * Z)) : string :=
  typed_frame "request_screen"
    [("incarnationId", (fun c => JStr c.1) <$> cursor); ("seq", (fun c => JNum (NInt c.2)) <$> cursor)].
Definition buildDriverHeartbeat : string := typed_frame "driver_heartbeat" [].
Definition buildDriverRequest : string := typed_frame "driver_request" [].
Definition buildRoomChat (text : string) : string := typed_frame "room_chat" [("text", Some (JStr text))].

Definition shouldSendInput (driver mySub : string) : bool := negb (String.eqb mySub "") && String.eqb driver mySub.

Definition base64ToBytes (b64 : string) : list Z := default [] (atob b64).

(** ** Names *)

(** A JavaScript [.]: not a line terminator. *)
Definition line_terminators : list (list Ascii.ascii) :=
  map (map chr) ([[10]; [13]; [226; 128; 168]; [226; 128; 169]])%nat.
Fixpoint one_line (l : list Ascii.ascii) : bool :=
  match l with
  | [] => true
  | _ :: l' => negb (existsb (fun w => list_prefixb w l) line_terminators) && one_line l'
  end.
(** The text before and after the last hyphen. *)
Definition last_hyphen (l : list Ascii.ascii) : option (list Ascii.ascii * list Ascii.ascii) :=
  match list_find (fun c => c = chr 45) (reverse l) with
  | Some (i, _) => Some (reverse (drop (S i) (reverse l)), reverse (take i (reverse l)))
  | None => None
  end.
(** [/^guest:(.+)-[^-]+$/] *)
Definition GUEST_SUB (from : string) : option string :=
  if starts_with "guest:" from then
    match last_hyphen (drop 6 (chars from)) with
    | Some (name, suffix) =>
        if negb (bool_decide (name = [])) && one_line name && negb (bool_decide (suffix = [])) then Some (of_chars name) else None
    | None => None
    end
  else None.
Definition speakerName (from : json) : json :=
  if negb (truthy (Some from)) then JStr "?"
  else match GUEST_SUB (to_text from) with Some name => JStr name | None => from end.

(** ** Keys and mouse reports *)

Definition units (s : string) : list Z := map (fun c => Z.of_nat (Ascii.nat_of_ascii c)) (chars s).
Definition ESC : Z := 27.
Definition CSI : list Z := [ESC; 91].

Definition is_digit (c : Z) : bool := (48 <=? c) && (c <=? 57).
(** [\d+], greedily. *)
Fixpoint digits (l : list Z) : list Z * list Z :=
  match l with
  | c :: l' => if is_digit c then let '(ds, r) := digits l' in (c :: ds, r) else ([], l)
  | [] => ([], [])
  end.
(** [Number] of a run of digits, before it is rounded to a double. *)
Definition digits_value (ds : list Z) : Z := foldl (fun n d => 10 * n + (d - 48)) 0 ds.

(** [/^\x1b\[<(\d+);\d+;\d+[Mm]$/]: the button. *)
Definition sgr_button (data : list Z) : option (list Z) :=
  match data with
  | 27 :: 91 :: 60 :: l =>
      let '(btn, l) := digits l in
      match btn, l with
      | _ :: _, 59 :: l =>
          let '(x, l) := digits l in
          match x, l with
          | _ :: _, 59 :: l =>
              let '(y, l) := digits l in
              match y, l with
              | _ :: _, [m] => if (m =? 77) || (m =? 109) then Some btn else None
              | _, _ => None
              end
          | _, _ => None
          end
      | _, _ => None
      end
  | _ => None
  end.

(** [btn & 0x40] on a double; bit 6 of one too large to hold it is clear. *)
Definition wheel_bit (n : Z) : bool := Z.testbit (js_round n) 6.

Definition isScrollSeq (data : list Z) : bool :=
  match sgr_button data with
  | Some btn => wheel_bit (digits_value btn)
  | None =>
      match data with
      | [27; 91; 77; cb; _; _] => Z.testbit (cb - 32) 6
      | _ => bool_decide (data ∈ [[27; 79; 65]; [27; 79; 66]; [27; 91; 65]; [27; 91; 66]])
      end
  end.

Record KeyEventLike := { key : list Z; ctrlKey : bool; altKey : bool; metaKey : bool }.

Definition named_keys : list (string * list Z) :=
  [("Enter", [13]); ("Backspace", [127]); ("Tab", [9]); ("Escape", [27]);
   ("ArrowUp", CSI ++ [65]); ("ArrowDown", CSI ++ [66]); ("ArrowRight", CSI ++ [67]); ("ArrowLeft", CSI ++ [68]);
   ("Home", CSI ++ [72]); ("End", CSI ++ [70]); ("PageUp", CSI ++ [53; 126]); ("PageDown", CSI ++ [54; 126]);
   ("Delete", CSI ++ [51; 126])].

(** The first unit of [toLowerCase()] of a single unit, if the result is between
    [a] and [z] as text: the letters, the Kelvin sign and the dotted capital I. *)
Definition lower_letter (u : Z) : option Z :=
  if (97 <=? u) && (u <=? 122) then Some u
  else if (65 <=? u) && (u <=? 90) then Some (u + 32)
  else if u =? 8490 then Some 107
  else if u =? 304 then Some 105
  else None.

Definition keyToSequence (e : KeyEventLike) : option (list Z) :=
  match js_find (fun '(name, _) => bool_decide (key e = units name)) named_keys with
  | Some (_, s) => Some s
  | None =>
      match ctrlKey e && negb (metaKey e), key e with
      | true, [u] =>
          match lower_letter u with
          | Some c => Some [c - 96]
          | None =>
              if u =? 91 then Some [27] else if u =? 93 then Some [29]
              else if u =? 92 then Some [28] else if u =? 32 then Some [0] else None
          end
      | _, _ => None
      end
  end.

(** ** What a token says *)

Fixpoint split_on (sep : Ascii.ascii) (l : list Ascii.ascii) : list (list Ascii.ascii) :=
  match l with
  | [] => [[]]
  | c :: l =>
      if Ascii.eqb c sep then [] :: split_on sep l
      else match split_on sep l with w :: ws => (c :: w) :: ws | [] => [[c]] end
  end.

(** The text [atob] returns has a character per byte. *)
Definition latin1 (bs : list Z) : string :=
  of_chars (map (fun b => chr (Z.to_nat b)) (bs ≫= (fun b => if b <? 128 then [b] else [192 + b / 64; 128 + b mod 64]))).

Definition from_url (c : Ascii.ascii) : Ascii.ascii :=
  if Ascii.eqb c (chr 45) then chr 43 else if Ascii.eqb c (chr 95) then chr 47 else c.

Section Token.
Context (parse_json : string -> option json).

Definition jwtPayload (token : string) : option json :=
  match split_on (chr 46) (chars token) with
  | _ :: part :: _ =>
      let b64 := map from_url part in
      let padded := b64 ++ replicate ((4 - length b64 mod 4) mod 4) pad_char in
      bytes ← atob (of_chars padded);
      j ← parse_json (latin1 bytes);
      if is_object j then Some j else None
  | _ => None
  end.

Definition claim (k token : string) : option string := p ← jwtPayload token; as_string (prop k p).
Definition non_empty_claim (k token : string) : option string :=
  s ← claim k token; if String.eqb s "" then None else Some s.

Definition subFromToken (token : string) : string := default "" (claim "sub" token).
Definition accessFromToken (token : string) : string :=
  match jwtPayload token with
  | None => ""
  | Some p => if strict_eq (prop "access" p) (Some (JStr "view")) then "view" else "control"
  end.
Definition roomFromToken (token : string) : string :=
  match non_empty_claim "room" token with Some r => r | None => subFromToken token end.
Definition executionTargetFromToken (token : string) : option string :=
  v ← claim "execution_target" token; if bool_decide (v ∈ ["local"; "docker"]) then Some v else None.
Definition deviceIdFromToken (token : string) : option string := non_empty_claim "device_id" token.
Definition relaySessionIdFromToken (token : string) : option string := non_empty_claim "session_id" token.
End Token.

(** ** The terminal screen: what input becomes
    (src/desktop/src/TerminalScreen.tsx) *)

(** A frame handed to the connection. *)
Inductive InputFrame := InputSent (data : list Z) | ScrollSent (data : list Z).

Inductive ScreenInput :=
  | TerminalData (data : list Z)  (** what xterm makes of the mouse and the keyboard *)
  | KeyDown (e : KeyEventLike) (composing : bool)
  | Inserted (data : list Z) (composing : bool)
  | Pasted (text : list Z).

Section Screen.
Context (driver mySub : string).

Definition sendKey (data : list Z) : option InputFrame :=
  if bool_decide (data = []) then None
  else if shouldSendInput driver mySub then Some (InputSent data) else None.

Definition onData (data : list Z) : option InputFrame :=
  match data with
  | 27 :: _ =>
      if isScrollSeq data then Some (ScrollSent data)
      else if shouldSendInput driver mySub then Some (InputSent data) else None
  | _ => None
  end.

Definition onKeyDown (e : KeyEventLike) (composing : bool) : option InputFrame :=
  if composing then None else s ← keyToSequence e; sendKey s.
Definition onInput (data : list Z) (composing : bool) : option InputFrame := if composing then None else sendKey data.

Definition screen_input (i : ScreenInput) : option InputFrame :=
  match i with
  | TerminalData data => onData data
  | KeyDown e composing => onKeyDown e composing
  | Inserted data composing => onInput data composing
  | Pasted text => sendKey text
  end.
End Screen.

(** ** Wheel reports *)

Definition number (ds : list Z) : Prop := ds ≠ [] /\ Forall (fun c => is_digit c = true) ds.

(** What a terminal reports for a wheel: an SGR or X10 mouse report with the wheel bit,
    or the cursor key an alternate screen gets for it. *)
Inductive scroll_report : list Z -> Prop :=
  | SgrWheel btn x y m :
      number btn -> number x -> number y -> m = 77 \/ m = 109 -> wheel_bit (digits_value btn) = true ->
      scroll_report (CSI ++ 60 :: btn ++ 59 :: x ++ 59 :: y ++ [m])
  | X10Wheel cb x y : Z.testbit (cb - 32) 6 = true -> scroll_report [ESC; 91; 77; cb; x; y]
  | AlternateScroll s : s ∈ [[ESC; 79; 65]; [ESC; 79; 66]; CSI ++ [65]; CSI ++ [66]] -> scroll_report s.

Lemma digits_spec l ds r : digits l = (ds, r) -> l = ds ++ r /\ Forall (fun c => is_digit c = true) ds.
Proof.
  revert ds r. induction l as [|c l IH]; intros ds r; simpl; [by intros [= <- <-]|].
  destruct (is_digit c) eqn:Hc; [|by intros [= <- <-]]. destruct (digits l) as [ds' r'].
  intros [= <- <-]. destruct (IH ds' r' eq_refl) as [-> Hf]. split; [done|]. by constructor.
Qed.

Lemma digits_app ds c r :
  Forall (fun c => is_digit c = true) ds -> is_digit c = false -> digits (ds ++ c :: r) = (ds, c :: r).
Proof. induction 1 as [|d ds Hd _ IH]; intros Hc; simpl; [by rewrite Hc|]. by rewrite Hd, IH. Qed.

Lemma sgr_button_spec data btn :
  sgr_button data = Some btn <->
  exists x y m, number btn /\ number x /\ number y /\ (m = 77 \/ m = 109) /\
    data = CSI ++ 60 :: btn ++ 59 :: x ++ 59 :: y ++ [m].
Proof.
  split.
  - unfold sgr_button. intros Hd.
    repeat (case_match; try discriminate Hd). simplify_eq.
    repeat match goal with H : digits _ = _ |- _ => apply digits_spec in H as [-> ?] end.
    eexists _, _, _. split_and!; [..|reflexivity]; try (by split). lia.
  - intros (x & y & m & [B1 B2] & [X1 X2] & [Y1 Y2] & Hm & ->). unfold sgr_button, CSI. simpl.
    assert (Hd : is_digit 59 = false /\ is_digit m = false) by (split; [done|]; by destruct Hm as [-> | ->]).
    destruct Hd as [Hd1 Hd2]. rewrite digits_app by done. destruct btn; [done|].
    rewrite digits_app by done. destruct x; [done|]. rewrite digits_app by done. destruct y; [done|].
    by destruct Hm as [-> | ->].
Qed.

Lemma scroll_report_iff data : isScrollSeq data = true <-> scroll_report data.
Proof.
  unfold isScrollSeq. destruct (sgr_button data) as [btn|] eqn:Hs.
  - apply sgr_button_spec in Hs as (x & y & m & B & X & Y & Hm & ->). split; [by constructor|].
    assert (Hb : sgr_button (CSI ++ 60 :: btn ++ 59 :: x ++ 59 :: y ++ [m]) = Some btn)
      by (apply sgr_button_spec; eauto 10).
    intros Hr. remember (CSI ++ 60 :: btn ++ 59 :: x ++ 59 :: y ++ [m]) as data eqn:Hd.
    destruct Hr as [btn' x' y' m' B' X' Y' Hm' Hw|cb x' y' _|s Hin].
    + assert (Hb' : sgr_button (CSI ++ 60 :: btn' ++ 59 :: x' ++ 59 :: y' ++ [m']) = Some btn')
        by (apply sgr_button_spec; eauto 10). congruence.
    + by unfold CSI in Hd.
    + exfalso. subst s. revert Hin. unfold CSI. simpl. rewrite !elem_of_cons, elem_of_nil.
      by intros [?|[?|[?|[?|[]]]]].
  - split.
    + intros Ht. destruct (decide (data ∈ [[27; 79; 65]; [27; 79; 66]; [27; 91; 65]; [27; 91; 66]])) as [Hin|Hn];
        [by apply AlternateScroll|].
      rewrite bool_decide_false in Ht by done. repeat (case_match; try discriminate Ht). by apply X10Wheel.
    + intros Hr. revert Hs. destruct Hr as [btn' x' y' m' B' X' Y' Hm' Hw|cb x y Hb|s Hin]; intros Hs.
      * assert (Hb' : sgr_button (CSI ++ 60 :: btn' ++ 59 :: x' ++ 59 :: y' ++ [m']) = Some btn')
          by (apply sgr_button_spec; eauto 10). congruence.
      * done.
      * revert Hin. unfold CSI. simpl. rewrite !elem_of_cons, elem_of_nil.
        by intros [-> |[-> |[-> |[-> |[]]]]].
Qed.

(** ** Properties *)

(** Who may type. A participant that is not the driver sends nothing but wheel
    reports, whatever it types, pastes or clicks; the driver's input is sent whole, and
    only wheel reports leave on the path that is not gated. *)
Theorem viewer_only_scrolls driver mySub i f :
  screen_input driver mySub i = Some f ->
  match f with
  | ScrollSent data => scroll_report data /\ i = TerminalData data
  | InputSent data => data ≠ [] /\ driver = mySub /\ mySub ≠ "" /\
      match i with
      | TerminalData d => data = d /\ ~ scroll_report d
      | KeyDown e composing => composing = false /\ keyToSequence e = Some data
      | Inserted d composing => composing = false /\ data = d
      | Pasted d => data = d
      end
  end.
Proof.
  assert (Hsend : forall d f, sendKey driver mySub d = Some f -> f = InputSent d /\ d ≠ [] /\ driver = mySub /\ mySub ≠ "").
  { intros d f'. unfold sendKey, shouldSendInput. case_bool_decide; [done|].
    destruct (String.eqb_spec mySub ""), (String.eqb_spec driver mySub); try done. by intros [= <-]. }
  destruct i as [d|e composing|d composing|d]; simpl.
  - unfold onData, shouldSendInput. destruct (isScrollSeq d) eqn:Hs.
    + apply scroll_report_iff in Hs as Hr. repeat (case_match; try done); by intros [= <-].
    + assert (Hr : ~ scroll_report d) by (intros Hr; apply scroll_report_iff in Hr; congruence).
      destruct d as [|c d]; [done|]. destruct (String.eqb_spec mySub ""), (String.eqb_spec driver mySub);
        simpl; repeat (case_match; try done); intros [= <-]; done.
  - unfold onKeyDown. destruct composing; [done|]. destruct (keyToSequence e) as [s|]; simpl; [|done].
    intros (-> & ? & ? & ?)%Hsend. done.
  - unfold onInput. destruct composing; [done|]. by intros (-> & ? & ? & ?)%Hsend.
  - by intros (-> & ? & ? & ?)%Hsend.
Qed.

(** A key becomes a control sequence, never text: text comes with the input event. *)
Lemma key_is_control e s : keyToSequence e = Some s -> exists c l, s = c :: l /\ (0 <= c < 32 \/ c = 127).
Proof.
  unfold keyToSequence. destruct (js_find _ named_keys) as [[name s']|] eqn:Hf.
  - intros [= ->]. apply js_find_Some in Hf as [Hin _]. revert Hin. unfold named_keys, CSI, ESC. simpl.
    rewrite !elem_of_cons, elem_of_nil.
    intros Hin. repeat destruct Hin as [[= -> ->]|Hin]; try done; by (eexists _, _; split; [done|lia]).
  - destruct (ctrlKey e && negb (metaKey e)); [|done]. destruct (key e) as [|u [|]]; try done.
    destruct (lower_letter u) as [c|] eqn:Hl.
    + intros [= <-]. eexists _, _. split; [done|]. left. revert Hl. unfold lower_letter.
      repeat case_match; intros [= <-]; bool_to_prop; lia.
    + repeat case_match; intros [= <-]; eexists _, _; (split; [done|lia]).
Qed.

Lemma scroll_length s : isScrollSeq s = true -> (3 <= length s)%nat.
Proof.
  intros [btn x y m _ _ _ _ _|cb x y _|s' Hin]%scroll_report_iff; [..|revert Hin]; unfold CSI; simpl.
  - rewrite length_app. simpl. lia.
  - lia.
  - rewrite !elem_of_cons, elem_of_nil. by intros [-> |[-> |[-> |[-> |[]]]]].
Qed.

(** The wheel reports among the keys are the vertical arrows: from the keyboard they
    are input, and only the driver's. *)
Lemma key_scrolls e s :
  keyToSequence e = Some s -> isScrollSeq s = true -> s = CSI ++ [65] \/ s = CSI ++ [66].
Proof.
  unfold keyToSequence. destruct (js_find _ named_keys) as [[name s']|] eqn:Hf.
  - intros [= ->]. apply js_find_Some in Hf as [Hin _]. revert Hin. unfold named_keys. simpl.
    rewrite !elem_of_cons, elem_of_nil. intros Hin.
    repeat destruct Hin as [[= -> ->]|Hin]; try done; auto.
  - destruct (ctrlKey e && negb (metaKey e)); [|done]. destruct (key e) as [|u [|]]; try done.
    repeat case_match; intros [= <-] Hs%scroll_length; simpl in Hs; lia.
Qed.

(** What the screens rely on. *)
Definition event_ok (ev : TerminalEvent) : Prop :=
  let positive n := jsnum_pos n = true /\ forall b, n ≠ NInf b in
  match ev with
  | PtyOutput _ at_ => forall z, seq at_ = Some z -> 1 <= z <= MAX_SAFE_INTEGER
  | PtySnapshot _ at_ cols rows =>
      (forall z, seq at_ = Some z -> 0 <= z <= MAX_SAFE_INTEGER) /\
      (forall n, cols = Some n \/ rows = Some n -> positive n)
  | PtySize cols rows => positive cols /\ positive rows
  | DriverState _ g expires => isSafeInteger g = true /\ forall n, expires = Some n -> positive n
  | ParticipantRoster _ _ g => isSafeInteger g = true
  | _ => True
  end.

Lemma positive_ok v n : positive v = Some n -> jsnum_pos n = true /\ forall b, n ≠ NInf b.
Proof.
  unfold positive, isFinite. destruct v as [[| |m| | |]|]; try done. destruct m as [z|m e|b]; simpl; try done.
  - destruct (0 <? z) eqn:Hz; [|done]. by intros [= <-].
  - destruct (0 <? m) eqn:Hz; [|done]. by intros [= <-].
Qed.

Lemma sequence_ok e b z :
  seq (terminalSequence e b) = Some z -> (if b then 0 else 1) <= z <= MAX_SAFE_INTEGER.
Proof.
  unfold terminalSequence, safeInteger, isSafeInteger. simpl. destruct (prop "seq" e) as [[| |[y| |]| | |]|]; try done. simpl.
  destruct (Z.abs y <=? _) eqn:Ha; simpl; [|done]. destruct (_ <=? y) eqn:Hz; [|done]. intros [= <-]. bool_to_prop. lia.
Qed.

Lemma generation_ok e : isSafeInteger (generation_field e) = true.
Proof.
  unfold generation_field, safeInteger. destruct (prop "generation" e) as [[| |[y| |]| | |]|]; try done. simpl.
  by destruct (isSafeInteger y) eqn:E.
Qed.

Lemma terminal_event_ok e ev : terminal_event e = Some ev -> event_ok ev.
Proof.
  unfold terminal_event. repeat (case_match; try discriminate); intros [= <-]; cbn [event_ok]; cbv zeta;
    try done; try apply generation_ok.
  - apply sequence_ok.
  - split; [apply sequence_ok|]. intros n [Hn|Hn]; by eapply positive_ok.
  - split; [apply generation_ok|]. intros n Hn. by eapply positive_ok.
  - split; by eapply positive_ok.
Qed.

(** ** Tokens *)

Definition to_url (c : Ascii.ascii) : Ascii.ascii :=
  if Ascii.eqb c (chr 43) then chr 45 else if Ascii.eqb c (chr 47) then chr 95 else c.
(** base64url without padding, as a JWT has it. *)
Definition b64url (bs : list Z) : list Ascii.ascii := map (fun v => to_url (b64_char v)) (sextets bs).
Definition jwt (header payload signature : string) : string :=
  of_chars (chars header ++ chr 46 :: b64url (units payload) ++ chr 46 :: chars signature).

Lemma split_on_app sep a r : sep ∉ a -> split_on sep (a ++ sep :: r) = a :: split_on sep r.
Proof.
  induction a as [|c a IH]; simpl; [by rewrite Ascii.eqb_refl|]. intros [Hc Ha]%not_elem_of_cons.
  destruct (Ascii.eqb_spec c sep) as [->|]; [done|]. by rewrite IH.
Qed.

Lemma url_char v : sextet_ok v -> from_url (to_url (b64_char v)) = b64_char v /\ to_url (b64_char v) ≠ chr 46.
Proof.
  revert v. apply sextet_cases. intros n Hn.
  do 64 (destruct n as [|n]; [split; [reflexivity|intros [=]]|]). lia.
Qed.

Lemma units_ok s : bytes_ok (units s).
Proof.
  unfold units. apply Forall_map, Forall_true. intros c. unfold byte_ok. cbn.
  pose proof (Ascii.nat_ascii_bounded c). lia.
Qed.

Lemma padding bs : ((4 - length (sextets bs) mod 4) mod 4 = pad_count (length bs))%nat.
Proof.
  pose proof (length_sextets bs) as Hl. pose proof (pad_count_le (length bs)) as Hp.
  set (n := length (sextets bs)) in *. set (p := pad_count (length bs)) in *. clearbody n p.
  assert (Hn : (n mod 4 = (4 - p) mod 4)%nat).
  { replace n with (4 * ((length bs + 2) / 3) - p)%nat by lia. destruct ((length bs + 2) / 3)%nat as [|k].
    { by assert (p = 0%nat) as -> by lia. }
    replace (4 * S k - p)%nat with ((4 - p) + k * 4)%nat by lia. by rewrite Nat.Div0.mod_add. }
  rewrite Hn. destruct p as [|[|[|]]]; [done..|lia].
Qed.

Lemma latin1_ascii s : Forall (fun b => b < 128) (units s) -> latin1 (units s) = s.
Proof.
  intros Hs. unfold latin1. rewrite <-(of_chars_chars s) at 2. f_equal.
  replace (units s ≫= _) with (units s).
  - unfold units. rewrite map_map. rewrite <-(map_id (chars s)) at 2. apply map_ext. intros c.
    rewrite Nat2Z.id. apply Ascii.ascii_nat_embedding.
  - induction Hs as [|b bs Hb _ IH]; [done|]. rewrite bind_cons, <-IH. by rewrite (proj2 (Z.ltb_lt _ _)).
Qed.

(** A token whose claims are written in ASCII is read back. *)
Lemma jwt_ascii parse_json header payload signature claims :
  chr 46 ∉ chars header -> Forall (fun b => b < 128) (units payload) ->
  parse_json payload = Some claims -> is_object claims = true ->
  jwtPayload parse_json (jwt header payload signature) = Some claims.
Proof.
  intros Hh Ha Hp Ho. unfold jwtPayload, jwt. rewrite chars_of_chars, split_on_app by done.
  pose proof (sextets_ok (units payload) (units_ok payload)) as Hs.
  assert (Hdot : chr 46 ∉ b64url (units payload)).
  { unfold b64url. intros (v & Hv & Hin)%list_elem_of_fmap. rewrite Forall_forall in Hs. by destruct (url_char v (Hs v Hin)). }
  rewrite split_on_app by done.
  assert (Hb : map from_url (b64url (units payload)) = map b64_char (sextets (units payload))).
  { unfold b64url. rewrite map_map. apply map_ext_in. intros v Hin. rewrite Forall_forall in Hs.
    by apply url_char, Hs, list_elem_of_In. }
  rewrite Hb, length_map, padding. fold (btoa (units payload)). rewrite atob_btoa by apply units_ok. simpl.
  rewrite latin1_ascii, Hp by done. simpl. by rewrite Ho.
Qed.

(** What a client reads in its token. When the claims are written in ASCII, the
    client recovers the identity the relay puts on its frames, so it takes itself for the
    driver exactly when the relay names it. *)
Theorem driver_recognised parse_json header payload signature claims sub from :
  chr 46 ∉ chars header -> Forall (fun b => b < 128) (units payload) ->
  parse_json payload = Some (JObj claims) -> prop "sub" (JObj claims) = Some (JStr sub) ->
  let token := jwt header payload signature in
  subFromToken parse_json token = sub /\
  (shouldSendInput from (subFromToken parse_json token) = true <-> from = sub /\ sub ≠ "").
Proof.
  intros Hh Ha Hp Hs token. assert (Hsub : subFromToken parse_json token = sub).
  { unfold subFromToken, claim, token. rewrite (jwt_ascii _ _ _ _ (JObj claims)) by done. cbn [mbind option_bind].
    by rewrite Hs. }
  split; [done|]. rewrite Hsub. unfold shouldSendInput.
  destruct (String.eqb_spec sub ""), (String.eqb_spec from sub); naive_solver.
Qed.

(** Claims that are not ASCII are read a character per byte: a user whose identity has
    an accent is never recognised as the driver. *)
Definition demo_parse (s : string) : option json := Some (JObj [("sub", JStr s)]).
Example accented_driver :
  let sub := of_chars (map chr [195; 169])%nat in
  shouldSendInput sub (subFromToken demo_parse (jwt "e30" sub "s")) = false.
Proof. vm_compute. reflexivity. Qed.

Definition demo_claims (s : string) : option json :=
  if String.eqb s "{sub:bob}" then Some (JObj [("sub", JStr "bob")]) else None.
Lemma driver_recognised_witness : shouldSendInput "bob" (subFromToken demo_claims (jwt "e30" "{sub:bob}" "s")) = true.
Proof.
  apply (driver_recognised demo_claims "e30" "{sub:bob}" "s" [("sub", JStr "bob")] "bob" "bob");
    [|vm_compute; repeat constructor|reflexivity|reflexivity|done].
  simpl. set_solver.
Defined.

Lemma viewer_only_scrolls_witness : scroll_report [27; 91; 65].
Proof. apply (viewer_only_scrolls "bob" "eve" (TerminalData [27; 91; 65]) (ScrollSent [27; 91; 65]) eq_refl). Defined.
