(* ===== verification/DesktopChat.v ===== *)
(** * The desktop client: the chat transcript (src/desktop/src/protocol.ts, chatReducer)

    The state of a chat room is a fold of [chatReducer] over its actions: what the
    server sent, what the user sent and what the user decided. Text the code casts
    without a check is JSON; concatenation converts it. Two contents are the same
    when [===] says so, an object only with itself.

    Theorems: the transcript only grows, and it is exactly what the history of actions
    prescribes. *)

From S2P Require Import Prelude JsMap Json JsText DesktopFrames.

Local Open Scope string_scope.
Local Open Scope list_scope.
Local Open Scope Z_scope.

(** ** Tool results *)

Definition summarizeJson (value : option json) : string :=
  match value with None => "" | Some v => JSON_stringify_2 0 v end.

Definition result_block (b : json) : string :=
  match b with
  | JStr s => s
  | _ => match as_string (prop "text" b) with Some s => s | None => summarizeJson (Some b) end
  end.
Definition renderToolResultContent (content : option json) : string :=
  match content with
  | None | Some JNull => ""
  | Some (JStr s) => s
  | Some (JArr l) => join newline (js_filter (fun s => negb (String.eqb s "")) (map result_block l))
  | Some v => summarizeJson (Some v)
  end.

(** ** State *)

Inductive SpeakerKind := Claude | Me | Peer | System | ErrorLine | Activity | Permission.
Record ToolActivity := { tool : json; args : option json; result_text : option string; hasResult : bool }.
Inductive PermissionDecision := Pending | Allowed | Denied.
Record PermissionCard := {
  card_request : json; toolName : json; card_input : option json; decision : PermissionDecision }.
Record ChatMessage := {
  msg_id : Z; kind : SpeakerKind; name : option json; text : json;
  activity : option ToolActivity; permission : option PermissionCard }.
#[export] Instance eta_ChatMessage : Eta ChatMessage :=
  fun m => Build_ChatMessage (msg_id m) (kind m) (name m) (text m) (activity m) (permission m).
#[export] Instance eta_PermissionCard : Eta PermissionCard :=
  fun c => Build_PermissionCard (card_request c) (toolName c) (card_input c) (decision c).
#[export] Instance eta_ToolActivity : Eta ToolActivity :=
  fun a => Build_ToolActivity (tool a) (args a) (result_text a) (hasResult a).
#[export] Instance SpeakerKind_eq_dec : EqDecision SpeakerKind.
Proof. solve_decision. Defined.

Record ChatState := {
  messages : list ChatMessage; streaming : string; responding : bool; thinking : string;
  chat_session : json; hostUp : bool; nextId : Z }.
#[export] Instance eta_ChatState : Eta ChatState :=
  fun s => Build_ChatState (messages s) (streaming s) (responding s) (thinking s) (chat_session s) (hostUp s) (nextId s).
Implicit Types s : ChatState.

Definition initialChatState : ChatState :=
  {| messages := []; streaming := ""; responding := false; thinking := ""; chat_session := JStr "";
     hostUp := false; nextId := 1 |}.

Inductive ChatAction :=
  | Event (e : ServerEvent)
  | SendChat (who prompt : string)
  | SystemLine (line : string)
  | Decide (requestId : json) (allow : bool).

(** ** The reducer *)

Definition push (k : SpeakerKind) (who : option json) (what : json) (act : option ToolActivity)
    (card : option PermissionCard) s : ChatState :=
  s <| messages := messages s ++ [{| msg_id := nextId s; kind := k; name := who; text := what; activity := act; permission := card |}] |>
    <| nextId := nextId s + 1 |>.
Definition push_text (k : SpeakerKind) (line : string) : ChatState -> ChatState := push k None (JStr line) None None.

Definition flushStreaming (keepResponding : bool) s : ChatState :=
  let trimmed := trim (streaming s) in
  let flushed := if String.eqb trimmed "" then s else push_text Claude trimmed s in
  flushed <| streaming := "" |> <| responding := keepResponding |>
          <| thinking := if keepResponding then thinking flushed else "" |>.
Definition finalizeStreaming : ChatState -> ChatState := flushStreaming false.

Definition decided (allow : bool) : PermissionDecision := if allow then Allowed else Denied.
Definition decide_card (requestId : json) (allow : bool) (m : ChatMessage) : ChatMessage :=
  match kind m, permission m with
  | Permission, Some c =>
      match decision c with
      | Pending =>
          if strict_eq (Some (card_request c)) (Some requestId)
          then m <| permission := Some (c <| decision := decided allow |>) |> else m
      | _ => m
      end
  | _, _ => m
  end.
Definition decidePermission (requestId : json) (allow : bool) s : ChatState :=
  s <| messages := map (decide_card requestId allow) (messages s) |>.

(** The last message that still awaits a result gets it. *)
Definition awaits_result (m : ChatMessage) : bool :=
  match kind m, activity m with Activity, Some a => negb (hasResult a) | _, _ => false end.
Definition with_result (content : option json) (m : ChatMessage) : ChatMessage :=
  m <| activity := (fun a => a <| hasResult := true |> <| result_text := Some (renderToolResultContent content) |>) <$> activity m |>.
Fixpoint update_last (p : ChatMessage -> bool) (f : ChatMessage -> ChatMessage) (l : list ChatMessage) : list ChatMessage :=
  match l with
  | [] => []
  | m :: l => if existsb p l then m :: update_last p f l else if p m then f m :: l else m :: l
  end.
Definition attachToolResult (content : option json) s : ChatState :=
  s <| messages := update_last awaits_result (with_result content) (messages s) |>.

Definition learn_session (sessionId : json) s : ChatState :=
  if truthy (Some sessionId) then s <| chat_session := sessionId |> else s.

Definition error_prefix : string := "오류: ".
Definition stopped_line : string := "응답이 중단되었습니다.".
Definition unavailable_line : string := "호스트가 연결되어 있지 않습니다 — 노트북 데몬이 실행 중인지 확인하세요.".

Definition applyEvent (e : ServerEvent) s : ChatState :=
  match e with
  | SessionId sessionId => learn_session sessionId s
  | Text t => s <| responding := true |> <| streaming := streaming s +:+ to_text t |>
  | Thinking t => s <| responding := true |> <| thinking := thinking s +:+ to_text t |>
  | TurnDone sessionId => finalizeStreaming (learn_session sessionId s)
  | ErrorEvent message => push_text ErrorLine (error_prefix +:+ to_text message) (finalizeStreaming s)
  | Aborted => push_text System stopped_line (finalizeStreaming s)
  | PeerChat from t => push Peer (Some (speakerName from)) t None None s
  | HostStatus connected => s <| hostUp := connected |>
  | Unavailable _ => push_text System unavailable_line (s <| responding := false |>)
  | ToolCall n input =>
      push Activity None (JStr "") (Some {| tool := n; args := input; result_text := None; hasResult := false |}) None
        (flushStreaming true s)
  | ToolResult content => attachToolResult content s
  | PermissionRequest requestId n input =>
      push Permission None (JStr "") None
        (Some {| card_request := requestId; toolName := n; card_input := input; decision := Pending |}) s
  end.

Definition chatReducer s (a : ChatAction) : ChatState :=
  match a with
  | Event e => applyEvent e s
  | SendChat who prompt => (push Me (Some (JStr who)) (JStr prompt) None None s) <| responding := true |> <| thinking := "" |>
  | SystemLine line => push_text System line s
  | Decide requestId allow => decidePermission requestId allow s
  end.
Definition chat_run (actions : list ChatAction) : ChatState := foldl chatReducer initialChatState actions.

(** ** The transcript only grows *)

(** What can happen to a message: a pending card is decided, a tool call gets its
    result; either happens once. *)
Inductive evolves (m : ChatMessage) : ChatMessage -> Prop :=
  | Unchanged : evolves m m
  | CardDecided c allow :
      kind m = Permission -> permission m = Some c -> decision c = Pending ->
      evolves m (m <| permission := Some (c <| decision := decided allow |>) |>)
  | CallAnswered content : awaits_result m = true -> evolves m (with_result content m).

Lemma answer_is_once m content : awaits_result m = true -> awaits_result (with_result content m) = false.
Proof. unfold awaits_result. simpl. destruct (kind m), (activity m); try done. Qed.

#[export] Instance evolves_trans : Transitive evolves.
Proof.
  intros m1 m2 m3 H1 H2. destruct H2 as [|c allow Hk Hp Hd|content Ha]; [done|..];
    destruct H1 as [|c1 allow1 Hk1 Hp1 Hd1|content1 Ha1]; try by econstructor.
  - exfalso. simpl in Hp. injection Hp as <-. simpl in Hd. by destruct allow1.
  - exfalso. simpl in Hk. unfold awaits_result in Ha1. by rewrite Hk in Ha1.
  - exfalso. unfold awaits_result in Ha. simpl in Ha. by rewrite Hk1 in Ha.
  - rewrite answer_is_once in Ha by done. discriminate Ha.
Qed.

Lemma evolves_refl (l : list ChatMessage) : Forall2 evolves l l.
Proof. induction l; constructor; [constructor|done]. Qed.

Lemma decide_evolves r allow m : evolves m (decide_card r allow m).
Proof.
  unfold decide_card. destruct (kind m) eqn:Hk; try constructor. destruct (permission m) as [c|] eqn:Hp; [|constructor].
  destruct (decision c) eqn:Hd; try constructor. destruct (strict_eq _ _); constructor; done.
Qed.

Lemma update_last_evolves content l : Forall2 evolves l (update_last awaits_result (with_result content) l).
Proof.
  induction l as [|m l IH]; simpl; [constructor|]. destruct (existsb awaits_result l); [by constructor; [constructor|]|].
  destruct (awaits_result m) eqn:Ha; constructor; try apply evolves_refl; by constructor.
Qed.

(** One action: the messages evolve and at most two are appended, numbered on. *)
Record grows_to s s' : Prop := {
  gt_messages : exists new, Forall2 evolves (messages s) (take (length (messages s)) (messages s')) /\
    messages s' = take (length (messages s)) (messages s') ++ new /\
    map msg_id new = seqZ (nextId s) (nextId s' - nextId s);
  gt_next : nextId s <= nextId s' }.

Lemma evolved_same s s' : messages s' = messages s -> nextId s' = nextId s -> grows_to s s'.
Proof.
  intros E1 E2. split; [|lia]. exists []. rewrite E1, E2, Z.sub_diag, firstn_all, app_nil_r.
  split_and!; [apply evolves_refl|done|done].
Qed.

Lemma evolved_map s s' : Forall2 evolves (messages s) (messages s') -> nextId s' = nextId s -> grows_to s s'.
Proof.
  intros E1 E2. split; [|lia]. exists []. rewrite E2, Z.sub_diag, (Forall2_length _ _ _ E1), firstn_all, app_nil_r. done.
Qed.

Lemma push_grows k who what act card s : grows_to s (push k who what act card s).
Proof.
  split; simpl; [|lia]. eexists. rewrite take_app_length. split_and!; [apply evolves_refl|done|].
  replace (nextId s + 1 - nextId s) with 1 by lia. done.
Qed.

Lemma Forall2_evolves_trans (l1 l2 l3 : list ChatMessage) : Forall2 evolves l1 l2 -> Forall2 evolves l2 l3 -> Forall2 evolves l1 l3.
Proof.
  intros F1. revert l3. induction F1 as [|x y l1 l2 Hxy _ IH]; intros l3 F2; inversion F2; subst; constructor; [by etrans|auto].
Qed.

#[export] Instance grows_to_trans : Transitive grows_to.
Proof.
  intros s1 s2 s3 [(n1 & F1 & A1 & I1) L1] [(n2 & F2 & A2 & I2) L2]. split; [|lia].
  set (k := length (messages s1)) in *.
  assert (Hk : (k <= length (messages s2))%nat).
  { pose proof (Forall2_length _ _ _ F1) as Hl. rewrite length_take in Hl. unfold k in *. lia. }
  assert (Ht : take k (messages s3) = take k (take (length (messages s2)) (messages s3)))
    by (rewrite take_take; f_equal; lia).
  exists (drop k (messages s3)). split_and!; [|by rewrite take_drop|].
  - rewrite Ht. eapply Forall2_evolves_trans; [exact F1|]. by apply Forall2_take.
  - assert (Hd : drop k (messages s3) = drop k (take (length (messages s2)) (messages s3)) ++ n2).
    { rewrite A2 at 1. rewrite drop_app_le; [done|]. rewrite <-(Forall2_length _ _ _ F2). done. }
    rewrite Hd, map_app, I2.
    replace (map msg_id (drop k (take (length (messages s2)) (messages s3)))) with (map msg_id n1).
    + rewrite I1. replace (nextId s3 - nextId s1) with ((nextId s2 - nextId s1) + (nextId s3 - nextId s2)) by lia.
      rewrite seqZ_app by lia. do 2 f_equal. lia.
    + assert (Hn : n1 = drop k (messages s2)) by (rewrite A1 at 1; rewrite drop_app_length'; [done|]; by rewrite <-(Forall2_length _ _ _ F1)).
      rewrite Hn. apply (Forall2_drop _ _ _ k) in F2. clear -F2. induction F2 as [|m m' l l' He _ IH]; [done|].
      simpl. f_equal; [|done]. by destruct He.
Qed.

Lemma flush_grows keep s : grows_to s (flushStreaming keep s).
Proof.
  unfold flushStreaming. cbv zeta. destruct (String.eqb _ ""); [by apply evolved_same|].
  etrans; [apply push_grows|by apply evolved_same].
Qed.

Lemma reducer_grows s a : grows_to s (chatReducer s a).
Proof.
  assert (Hl : forall sid s, grows_to s (learn_session sid s))
    by (intros sid s'; unfold learn_session; destruct (truthy _); by apply evolved_same).
  destruct a as [e|who prompt|line|r allow]; simpl.
  - destruct e; simpl; try (by apply evolved_same); try apply push_grows; try apply Hl.
    + etrans; [apply Hl|apply flush_grows].
    + etrans; [apply flush_grows|apply push_grows].
    + etrans; [apply flush_grows|apply push_grows].
    + etrans; [|apply push_grows]. by apply evolved_same.
    + etrans; [apply flush_grows|apply push_grows].
    + apply evolved_map; [apply update_last_evolves|done].
  - etrans; [apply push_grows|by apply evolved_same].
  - apply push_grows.
  - apply evolved_map; [|done]. simpl. induction (messages s); constructor; [apply decide_evolves|done].
Qed.

Lemma chat_run_app l1 l2 : chat_run (l1 ++ l2) = foldl chatReducer (chat_run l1) l2.
Proof. apply foldl_app. Qed.

Lemma run_grows s l : grows_to s (foldl chatReducer s l).
Proof.
  revert s. induction l as [|a l IH]; intros s; simpl; [by apply evolved_same|].
  etrans; [apply reducer_grows|apply IH].
Qed.

(** The transcript only grows: whatever comes later, a line keeps its place, its
    number and what it says, except that a pending approval is decided and a tool call
    gets its result, each at most once; the lines are numbered from 1 without a gap. *)
Theorem transcript_only_grows l1 l2 :
  let ms := messages (chat_run l1) in
  let ms' := messages (chat_run (l1 ++ l2)) in
  Forall2 evolves ms (take (length ms) ms') /\
  map msg_id ms' = seqZ 1 (Z.of_nat (length ms')) /\ nextId (chat_run (l1 ++ l2)) = Z.of_nat (length ms') + 1.
Proof.
  cbv zeta. split.
  - rewrite chat_run_app. by destruct (run_grows (chat_run l1) l2) as [(new & H & _) _].
  - destruct (run_grows initialChatState (l1 ++ l2)) as [(new & _ & Hn & Hi) Hl]. fold (chat_run (l1 ++ l2)) in Hn, Hi, Hl.
    simpl in Hn, Hi, Hl. rewrite <-Hn in Hi.
    assert (Hlen : Z.of_nat (length (messages (chat_run (l1 ++ l2)))) = nextId (chat_run (l1 ++ l2)) - 1).
    { rewrite <-(length_map msg_id), Hi, length_seqZ. lia. }
    rewrite Hlen. split; [done|lia].
Qed.

(** ** What the history prescribes *)

(** Claude's words: the deltas up to an end of turn or a tool call are one line. *)
Definition turn_step (p : list string * string) (a : ChatAction) : list string * string :=
  match a with
  | Event (Text t) => (p.1, p.2 +:+ to_text t)
  | Event (TurnDone _ | ErrorEvent _ | Aborted | ToolCall _ _) => (p.1 ++ [p.2], "")
  | _ => p
  end.
Definition turns (l : list ChatAction) : list string * string := foldl turn_step ([], "") l.
Definition spoken (blocks : list string) : list json :=
  map JStr (js_filter (fun t => negb (String.eqb t "")) (map trim blocks)).
Definition claude_line (m : ChatMessage) : option json := if decide (kind m = Claude) then Some (text m) else None.

(** An approval carries the first decision that names it after it was asked for. *)
Fixpoint verdict (r : json) (l : list ChatAction) : PermissionDecision :=
  match l with
  | [] => Pending
  | Decide r' allow :: l => if strict_eq (Some r) (Some r') then decided allow else verdict r l
  | _ :: l => verdict r l
  end.
Fixpoint approvals (l : list ChatAction) : list PermissionCard :=
  match l with
  | [] => []
  | Event (PermissionRequest r n i) :: l =>
      {| card_request := r; toolName := n; card_input := i; decision := verdict r l |} :: approvals l
  | _ :: l => approvals l
  end.

(** Each result goes to the most recent call that has none. *)
Fixpoint answer (r : string) (calls : list ToolActivity) : list ToolActivity :=
  match calls with
  | [] => []
  | c :: earlier => if hasResult c then c :: answer r earlier else (c <| hasResult := true |> <| result_text := Some r |>) :: earlier
  end.
Definition call_step (latest_first : list ToolActivity) (a : ChatAction) : list ToolActivity :=
  match a with
  | Event (ToolCall n i) => {| tool := n; args := i; result_text := None; hasResult := false |} :: latest_first
  | Event (ToolResult content) => answer (renderToolResultContent content) latest_first
  | _ => latest_first
  end.
Definition calls (l : list ChatAction) : list ToolActivity := rev (foldl call_step [] l).

(** The payload of a message is the one of its kind. *)
Definition payload_fits (m : ChatMessage) : Prop :=
  (kind m = Permission <-> is_Some (permission m)) /\ (kind m = Activity <-> is_Some (activity m)).
Definition fits s : Prop := Forall payload_fits (messages s).

Definition resolve (l : list ChatAction) (c : PermissionCard) : PermissionCard :=
  match decision c with Pending => c <| decision := verdict (card_request c) l |> | _ => c end.

Lemma spoken_snoc bs b : spoken (bs ++ [b]) = spoken bs ++ spoken [b].
Proof. unfold spoken. by rewrite map_app, js_filter_app, map_app. Qed.

Lemma evolves_claude l l' : Forall2 evolves l l' -> omap claude_line l' = omap claude_line l.
Proof.
  induction 1 as [|m m' l l' He _ IH]; [done|]. csimpl.
  assert (claude_line m' = claude_line m) as -> by (by destruct He). by rewrite IH.
Qed.

Lemma flush_spoken keep s :
  omap claude_line (messages (flushStreaming keep s)) = omap claude_line (messages s) ++ spoken [streaming s] /\
  streaming (flushStreaming keep s) = "".
Proof.
  unfold flushStreaming, spoken. cbv zeta. simpl.
  destruct (String.eqb (trim (streaming s)) ""); simpl; [by rewrite app_nil_r|]. by rewrite omap_app.
Qed.

Lemma push_silent k who what act card s :
  k <> Claude -> omap claude_line (messages (push k who what act card s)) = omap claude_line (messages s).
Proof.
  intros Hk. simpl. rewrite omap_app. simpl. unfold claude_line at 2. simpl. rewrite decide_False by done. by rewrite app_nil_r.
Qed.

Lemma learn_messages sid s : messages (learn_session sid s) = messages s /\ streaming (learn_session sid s) = streaming s.
Proof. unfold learn_session. by destruct (truthy _). Qed.

Definition says s (p : list string * string) : Prop :=
  omap claude_line (messages s) = spoken p.1 /\ streaming s = p.2.

Lemma flush_says keep s p : says s p -> says (flushStreaming keep s) (p.1 ++ [p.2], "").
Proof. intros [E1 E2]. destruct (flush_spoken keep s) as [F1 F2]. split; [|done]. cbn [fst snd]. by rewrite F1, spoken_snoc, E1, E2. Qed.

Lemma push_says k who what act card s p : k <> Claude -> says s p -> says (push k who what act card s) p.
Proof. intros Hk [E1 E2]. split; [|done]. by rewrite push_silent. Qed.

Lemma evolved_says s s' p : Forall2 evolves (messages s) (messages s') -> streaming s' = streaming s -> says s p -> says s' p.
Proof. intros F E [E1 E2]. split; [|by rewrite E]. by rewrite (evolves_claude _ _ F). Qed.

Lemma same_says s s' p : messages s' = messages s -> streaming s' = streaming s -> says s p -> says s' p.
Proof. intros E1 E2. apply evolved_says; [|done]. rewrite E1. apply evolves_refl. Qed.

Lemma decide_evolve r allow s : Forall2 evolves (messages s) (messages (decidePermission r allow s)).
Proof. simpl. induction (messages s); constructor; [apply decide_evolves|done]. Qed.

Lemma reducer_says s a p : says s p -> says (chatReducer s a) (turn_step p a).
Proof.
  intros Hs. destruct a as [e|who prompt|line|r allow].
  - destruct e; cbn [chatReducer applyEvent turn_step].
    + apply (same_says s); [apply learn_messages..|done].
    + destruct Hs as [E1 E2]. split; [done|]. simpl. by rewrite E2.
    + by apply (same_says s).
    + apply flush_says. apply (same_says s); [apply learn_messages..|done].
    + apply push_says; [done|]. by apply flush_says.
    + apply push_says; [done|]. by apply flush_says.
    + by apply push_says.
    + by apply (same_says s).
    + apply push_says; [done|]. by apply (same_says s).
    + apply push_says; [done|]. by apply flush_says.
    + apply (evolved_says s); [apply update_last_evolves|done|done].
    + by apply push_says.
  - apply (same_says (push Me (Some (JStr who)) (JStr prompt) None None s)); [done..|]. by apply push_says.
  - by apply push_says.
  - apply (evolved_says s); [apply decide_evolve|done|done].
Qed.

(** Only a request adds a card, only a decision changes one. *)
Definition fitting (l : list ChatMessage) : Prop := Forall payload_fits l.

Lemma evolves_fits l l' : Forall2 evolves l l' -> fitting l -> fitting l'.
Proof.
  induction 1 as [|m m' l l' He _ IH]; intros Hf; [done|]. inversion Hf as [|?? [P1 P2] Hl]; subst. constructor; [|by apply IH].
  destruct He as [|c allow Hk Hp _|content Ha]; [done|..]; split; simpl; try done.
  by rewrite P2, fmap_is_Some.
Qed.

Lemma push_fits k who what act card s :
  fits s -> payload_fits {| msg_id := nextId s; kind := k; name := who; text := what; activity := act; permission := card |} ->
  fits (push k who what act card s).
Proof. intros Hs Hm. apply Forall_app. by split; [|constructor]. Qed.

Lemma push_plain_fits k who what s : k <> Permission -> k <> Activity -> fits s -> fits (push k who what None None s).
Proof.
  intros H1 H2 Hs. apply push_fits; [done|]. split; simpl; (split; [done|]); intros Hx; by apply is_Some_None in Hx.
Qed.

Lemma flush_fits keep s : fits s -> fits (flushStreaming keep s).
Proof. intros Hs. unfold flushStreaming. cbv zeta. destruct (String.eqb _ ""); [done|]. by apply push_plain_fits. Qed.

Lemma reducer_fits s a : fits s -> fits (chatReducer s a).
Proof.
  intros Hs. destruct a as [e|who prompt|line|r allow].
  - destruct e; cbn [chatReducer applyEvent]; try done; try (by apply push_plain_fits);
      try (apply push_plain_fits; [done..|]; by apply flush_fits).
    + unfold fits. by rewrite (proj1 (learn_messages _ _)).
    + apply flush_fits. unfold fits. by rewrite (proj1 (learn_messages _ _)).
    + apply push_fits; [by apply flush_fits|]. split; simpl; split; try done; by intros [].
    + eapply evolves_fits; [apply update_last_evolves|exact Hs].
    + apply push_fits; [done|]. split; simpl; split; try done; by intros [].
  - by apply push_plain_fits.
  - by apply push_plain_fits.
  - eapply evolves_fits; [apply decide_evolve|exact Hs].
Qed.

Definition cards (l : list ChatMessage) : list PermissionCard := omap permission l.
Definition activities (l : list ChatMessage) : list ToolActivity := omap activity l.

Lemma flush_payloads keep s :
  cards (messages (flushStreaming keep s)) = cards (messages s) /\ activities (messages (flushStreaming keep s)) = activities (messages s).
Proof.
  unfold flushStreaming, cards, activities. cbv zeta. destruct (String.eqb _ ""); [done|].
  split; (etrans; [apply omap_app|]; apply app_nil_r).
Qed.

Lemma push_payloads k who what act card s :
  cards (messages (push k who what act card s)) = cards (messages s) ++ option_list card /\
  activities (messages (push k who what act card s)) = activities (messages s) ++ option_list act.
Proof. unfold cards, activities. split; (etrans; [apply omap_app|]); [by destruct card|by destruct act]. Qed.

Lemma map_idle (l : list PermissionCard) : map (resolve []) l = l.
Proof. rewrite <-(map_id l) at 2. apply map_ext. intros [r n i d]. by destruct d. Qed.

Lemma decide_permission r allow m :
  payload_fits m -> permission (decide_card r allow m) = resolve [Decide r allow] <$> permission m.
Proof.
  intros [P1 _]. unfold decide_card, resolve. destruct (permission m) as [c|] eqn:Hp; [|by destruct (kind m)].
  rewrite (proj2 P1) by done. destruct c as [r' n i d]. destruct d; csimpl; [|exact Hp..].
  match goal with |- context [if ?b then _ else m] => destruct b end; [done|exact Hp].
Qed.

Lemma decide_cards r allow l :
  fitting l -> cards (map (decide_card r allow) l) = map (resolve [Decide r allow]) (cards l).
Proof.
  intros Hf. induction Hf as [|m l Hm _ IH]; [done|]. unfold cards in *. csimpl. rewrite IH, decide_permission by done.
  by destruct (permission m).
Qed.

Lemma decide_activities r allow l : activities (map (decide_card r allow) l) = activities l.
Proof.
  unfold activities. induction l as [|m l IH]; [done|]. csimpl. rewrite IH.
  assert (activity (decide_card r allow m) = activity m) as ->; [|done].
  unfold decide_card. destruct (kind m), (permission m) as [c|]; try done. destruct (decision c); try done. by destruct (strict_eq _ _).
Qed.

Lemma result_cards content l : cards (update_last awaits_result (with_result content) l) = cards l.
Proof.
  unfold cards. induction l as [|m l IH]; [done|]. simpl update_last.
  destruct (existsb _ l); [csimpl; by rewrite IH|]. by destruct (awaits_result m); csimpl.
Qed.

Lemma update_last_snoc p f l m :
  update_last p f (l ++ [m]) = if p m then l ++ [f m] else update_last p f l ++ [m].
Proof.
  induction l as [|x l IH]; simpl; [by destruct (p m)|]. rewrite IH, existsb_app. simpl.
  destruct (p m); rewrite ?orb_false_r, ?orb_true_r; simpl; [done|]. by destruct (existsb p l); [|destruct (p x)].
Qed.

Lemma awaits_activity m :
  payload_fits m -> awaits_result m = match activity m with Some a => negb (hasResult a) | None => false end.
Proof.
  intros [_ P2]. unfold awaits_result. destruct (activity m) as [a|]; [by rewrite (proj2 P2)|by destruct (kind m)].
Qed.

Lemma result_activities content l :
  fitting l ->
  rev (activities (update_last awaits_result (with_result content) l)) = answer (renderToolResultContent content) (rev (activities l)).
Proof.
  unfold activities, fitting. induction l as [|m l IH] using rev_ind; intros Hf; [done|].
  apply Forall_app in Hf as [Hl Hf]. inversion_clear Hf as [|?? Hm _]. rewrite update_last_snoc, (awaits_activity m Hm).
  destruct (activity m) as [a|] eqn:Ha.
  - destruct (hasResult a) eqn:Hr; simpl negb; cbn match; rewrite !omap_app, !rev_app_distr; csimpl; rewrite !Ha; csimpl; rewrite Hr; [|done].
    by rewrite IH.
  - rewrite !omap_app, !rev_app_distr. csimpl. rewrite Ha. csimpl. by apply IH.
Qed.

(** One action: the cards it resolves and adds, the calls it makes or answers. *)
Lemma reducer_payloads s a :
  fits s ->
  cards (messages (chatReducer s a)) = map (resolve [a]) (cards (messages s)) ++ approvals [a] /\
  rev (activities (messages (chatReducer s a))) = call_step (rev (activities (messages s))) a.
Proof.
  intros Hf.
  assert (Hidle : forall b, (forall r, verdict r [b] = Pending) -> map (resolve [b]) (cards (messages s)) = cards (messages s)).
  { intros b Hb. etrans; [|apply map_idle]. apply map_ext. intros [r n i d]. destruct d; [|done..]. unfold resolve. cbn [decision card_request]. by rewrite Hb. }
  assert (Hplain : forall k who what s', cards (messages s') = cards (messages s) -> activities (messages s') = activities (messages s) ->
    cards (messages (push k who what None None s')) = cards (messages s) /\
    activities (messages (push k who what None None s')) = activities (messages s)).
  { intros k who what s' E1 E2. destruct (push_payloads k who what None None s') as [-> ->]. by rewrite E1, E2, !app_nil_r. }
  destruct a as [e|who prompt|line|r allow].
  - rewrite Hidle by done. destruct e as [sid|t|t|sid|msg| |from t|up|why|n i|content|r n i]; cbn [chatReducer applyEvent approvals call_step]; unfold finalizeStreaming; rewrite ?app_nil_r.
    + by rewrite (proj1 (learn_messages _ _)).
    + done.
    + done.
    + destruct (flush_payloads false (learn_session sid s)) as [-> ->]. by rewrite (proj1 (learn_messages _ _)).
    + destruct (flush_payloads false s) as [E1 E2]. unfold push_text. by destruct (Hplain ErrorLine None (JStr (error_prefix +:+ to_text msg)) _ E1 E2) as [-> ->].
    + destruct (flush_payloads false s) as [E1 E2]. unfold push_text. by destruct (Hplain System None (JStr stopped_line) _ E1 E2) as [-> ->].
    + by destruct (Hplain Peer (Some (speakerName from)) t s) as [-> ->].
    + done.
    + unfold push_text. by destruct (Hplain System None (JStr unavailable_line) (s <| responding := false |>)) as [-> ->].
    + destruct (flush_payloads true s) as [E1 E2].
      destruct (push_payloads Activity None (JStr "") (Some {| tool := n; args := i; result_text := None; hasResult := false |}) None (flushStreaming true s)) as [-> ->].
      rewrite E1, E2. simpl option_list. by rewrite rev_app_distr, app_nil_r.
    + split; [apply result_cards|]. by apply result_activities.
    + match goal with |- context [push ?k ?w ?t ?a ?c s] => destruct (push_payloads k w t a c s) as [-> ->] end.
      by rewrite app_nil_r.
  - rewrite Hidle, app_nil_r by done. destruct (Hplain Me (Some (JStr who)) (JStr prompt) s) as [E1 E2]; [done..|].
    cbn [call_step]. by split; [|f_equal].
  - rewrite Hidle, app_nil_r by done. cbn [chatReducer]. unfold push_text. by destruct (Hplain System None (JStr line) s) as [-> ->].
  - rewrite app_nil_r. split; [by apply decide_cards|]. simpl. by rewrite decide_activities.
Qed.

Lemma verdict_cons r a l :
  verdict r (a :: l) = match verdict r [a] with Pending => verdict r l | d => d end.
Proof.
  destruct a as [|? ?|?|r' allow]; [done..|]. cbn [verdict]. destruct (strict_eq (Some r) (Some r')); [by destruct allow|done].
Qed.

Lemma resolve_cons a l c : resolve (a :: l) c = resolve l (resolve [a] c).
Proof.
  destruct c as [r n i d]. unfold resolve. destruct d; cbn [decision card_request]; [|done..].
  rewrite verdict_cons. by destruct (verdict r [a]).
Qed.

Lemma approvals_cons a l : approvals (a :: l) = map (resolve l) (approvals [a]) ++ approvals l.
Proof. by destruct a as [[]| | |]. Qed.

Lemma run_payloads s l :
  fits s ->
  cards (messages (foldl chatReducer s l)) = map (resolve l) (cards (messages s)) ++ approvals l /\
  rev (activities (messages (foldl chatReducer s l))) = foldl call_step (rev (activities (messages s))) l.
Proof.
  revert s. induction l as [|a l IH]; intros s Hf; [by rewrite map_idle, app_nil_r|].
  cbn [foldl]. destruct (IH (chatReducer s a)) as [-> ->]; [by apply reducer_fits|].
  destruct (reducer_payloads s a Hf) as [-> ->]. split; [|done].
  rewrite map_app, map_map, <-app_assoc, <-approvals_cons. f_equal. apply map_ext. intros c. symmetry. apply resolve_cons.
Qed.

Lemma run_says s p l : says s p -> says (foldl chatReducer s l) (foldl turn_step p l).
Proof. revert s p. induction l as [|a l IH]; intros s p Hs; [done|]. by apply IH, reducer_says. Qed.

(** C38. The transcript is exactly what the history prescribes. Claude's lines are the
    non-blank turns of the text stream, trimmed, a tool call ending a line, and what is
    still streaming is the rest; there is one approval card per request, in order, with
    the first decision made on it after it was asked for; and there is one activity per
    tool call, each result given to the latest call that had none. *)
Theorem chat_transcript_exact l :
  let s := chat_run l in
  omap claude_line (messages s) = spoken (turns l).1 /\ streaming s = (turns l).2 /\
  omap permission (messages s) = approvals l /\ omap activity (messages s) = calls l.
Proof.
  cbv zeta. destruct (run_says initialChatState ([], "") l) as [E1 E2]; [done|].
  destruct (run_payloads initialChatState l) as [E3 E4]; [constructor|].
  split_and!; [exact E1|exact E2|exact E3|]. unfold calls. simpl in E4. rewrite <-E4. by rewrite rev_involutive.
Qed.

(** A decision that is given too early is lost: the card it names stays pending. *)
Example early_decision :
  map decision (cards (messages (chat_run [Decide (JStr "r1") true; Event (PermissionRequest (JStr "r1") (JStr "Bash") None)]))) = [Pending].
Proof. reflexivity. Qed.

Example two_turns :
  omap claude_line (messages (chat_run [Event (Text (JStr " hel")); Event (Text (JStr "lo ")); Event (ToolCall (JStr "Read") None);
    Event (Text (JStr "  ")); Event (ToolResult (Some (JStr "ok"))); Event (TurnDone (JStr "s1"))])) = [JStr "hello"].
Proof. reflexivity. Qed.
