(* ===== verification/DesktopRooms.v ===== *)
(** * The desktop client: the open rooms (src/desktop/src/rooms.ts)

    The shell keeps every joined room open: the rooms in the order they were joined,
    the one shown and the hidden ones with news, as a reducer over actions; and it
    keeps the list in [localStorage]. [JSON.parse] is a parameter. [Set] is a [gset];
    the ids [makeRoomId] draws are arguments.

    Theorems: rooms keep distinct ids and the active one is open, a join of an open
    room renews it instead of opening another, the stored list is read back. *)

From S2P Require Import Prelude JsMap Json DesktopFrames.

Local Open Scope string_scope.
Local Open Scope list_scope.

(** ** State *)

(** [None] is ["unknown"]. *)
Definition RoomKind : Type := option RoomMode.

Record Room := {
  id : string; wsUrl : string; token : string; room : string; name : string; asHost : bool;
  label : option string; executionTarget : option string; deviceId : option string;
  relaySessionId : option string; mode : RoomKind }.
#[export] Instance eta_Room : Eta Room := fun r =>
  Build_Room (id r) (wsUrl r) (token r) (room r) (name r) (asHost r) (label r) (executionTarget r) (deviceId r)
    (relaySessionId r) (mode r).
#[export] Instance Room_eq_dec : EqDecision Room.
Proof. solve_decision. Defined.
Implicit Types r : Room.

Record RoomsState := { rooms : list Room; activeRoomId : option string; unread : gset string }.
#[export] Instance eta_RoomsState : Eta RoomsState := fun s => Build_RoomsState (rooms s) (activeRoomId s) (unread s).
Implicit Types s : RoomsState.

Inductive RoomsAction :=
  | Add (r : Room)
  | Close (i : string)
  | Activate (i : option string)
  | NewActivity (i : string)
  | SetMode (i : string) (m : RoomMode)
  | Rename (i newLabel newName : option string).

Definition initialRoomsState (rs : list Room) (active : option string) : RoomsState :=
  {| rooms := rs; activeRoomId := active; unread := ∅ |}.

(** ** The reducer *)

Definition sameRoomIdentity (a b : Room) : bool :=
  String.eqb (wsUrl a) (wsUrl b) && String.eqb (room a) (room b) && String.eqb (name a) (name b) && Bool.eqb (asHost a) (asHost b).
Definition findRoom (rs : list Room) (session : Room) : option Room := js_find (fun r => sameRoomIdentity r session) rs.
Definition withoutUnread (u : gset string) (i : string) : gset string := if bool_decide (i ∈ u) then u ∖ {[i]} else u.
Definition has_id (i : string) (r : Room) : bool := String.eqb (id r) i.
(** [list.map((r) => (r.id === i ? f(r) : r))] *)
Definition map_room (i : string) (f : Room -> Room) (rs : list Room) : list Room := map (fun r => if has_id i r then f r else r) rs.

Definition add_room (r : Room) s : RoomsState :=
  match findRoom (rooms s) r with
  | Some existing =>
      let tokenChanged := negb (String.eqb (token existing) (token r)) in
      let nextLabel := match label r with Some l => Some l | None => label existing end in
      let labelChanged := negb (bool_decide (nextLabel = label existing)) in
      {| rooms := if tokenChanged || labelChanged
                  then map_room (id existing) (fun r' => r' <| token := token r |> <| label := nextLabel |>) (rooms s)
                  else rooms s;
         activeRoomId := Some (id existing); unread := withoutUnread (unread s) (id existing) |}
  | None =>
      {| rooms := rooms s ++ [r]; activeRoomId := Some (id r); unread := withoutUnread (unread s) (id r) |}
  end.

Definition close_room (i : string) s : RoomsState :=
  let rs := js_filter (fun r => negb (has_id i r)) (rooms s) in
  {| rooms := rs;
     activeRoomId := if bool_decide (activeRoomId s = Some i) then id <$> head rs else activeRoomId s;
     unread := withoutUnread (unread s) i |}.

Definition activate_room (i : option string) s : RoomsState :=
  match i with
  | None => s <| activeRoomId := None |>
  | Some i => s <| activeRoomId := Some i |> <| unread := withoutUnread (unread s) i |>
  end.

Definition note_activity (i : string) s : RoomsState :=
  if bool_decide (Some i = activeRoomId s) || bool_decide (i ∈ unread s) then s else s <| unread := {[i]} ∪ unread s |>.

Definition set_mode (i : string) (m : RoomMode) s : RoomsState :=
  if existsb (fun r => has_id i r && negb (bool_decide (mode r = Some m))) (rooms s)
  then s <| rooms := map_room i (fun r => if bool_decide (mode r = Some m) then r else r <| mode := Some m |>) (rooms s) |>
  else s.

Definition rename_target (i : option string) s : option Room :=
  match i with Some i => js_find (has_id i) (rooms s) | None => js_find asHost (reverse (rooms s)) end.
Definition rename_room (i newLabel newName : option string) s : RoomsState :=
  match rename_target i s with
  | None => s
  | Some target =>
      let nextLabel := match newLabel with Some l => Some l | None => label target end in
      let nextName := default (name target) newName in
      if bool_decide (nextLabel = label target) && String.eqb nextName (name target) then s
      else s <| rooms := map_room (id target) (fun r => r <| label := nextLabel |> <| name := nextName |>) (rooms s) |>
  end.

Definition roomsReducer s (a : RoomsAction) : RoomsState :=
  match a with
  | Add r => add_room r s
  | Close i => close_room i s
  | Activate i => activate_room i s
  | NewActivity i => note_activity i s
  | SetMode i m => set_mode i m s
  | Rename i newLabel newName => rename_room i newLabel newName s
  end.

(** ** Storage *)

Definition ROOMS_LS_KEY : string := "pie-relay.rooms".
Definition LEGACY_ROOMS_LS_KEY : string := "cli-relay.rooms".

Definition kind_text (m : RoomKind) : string :=
  match m with Some TerminalMode => "terminal" | Some ChatMode => "chat" | None => "unknown" end.
Definition kind_of (v : option json) : RoomKind :=
  match as_string v with
  | Some t => if String.eqb t "terminal" then Some TerminalMode else if String.eqb t "chat" then Some ChatMode else None
  | None => None
  end.

Definition slim (r : Room) : json :=
  JObj ([("id", JStr (id r)); ("wsUrl", JStr (wsUrl r)); ("token", JStr (token r)); ("room", JStr (room r)); ("name", JStr (name r));
         ("asHost", JBool (asHost r)); ("mode", JStr (kind_text (mode r)))] ++
        match label r with Some l => [("label", JStr l)] | None => [] end).
Definition saveRooms (rs : list Room) (localStorage : gmap string string) : gmap string string :=
  <[ROOMS_LS_KEY := JSON_stringify (JArr (map slim rs))]> localStorage.

(** One stored room; a value of another shape is passed over. *)
Definition restore (v : json) : option Room :=
  i ← as_string (prop "id" v); u ← as_string (prop "wsUrl" v); n ← as_string (prop "name" v);
  Some {| id := i; wsUrl := u; token := default "" (as_string (prop "token" v)); room := default "" (as_string (prop "room" v));
          name := n; asHost := truthy (prop "asHost" v); label := as_string (prop "label" v);
          executionTarget := None; deviceId := None; relaySessionId := None; mode := kind_of (prop "mode" v) |}.

Section Load.
Context (parse_json : string -> option json).

(** [a || b] on what [getItem] returns *)
Definition stored (k : string) (localStorage : gmap string string) : option string :=
  raw ← localStorage !! k; if String.eqb raw "" then None else Some raw.
Definition loadRooms (localStorage : gmap string string) : list Room :=
  match (match stored ROOMS_LS_KEY localStorage with Some raw => Some raw | None => stored LEGACY_ROOMS_LS_KEY localStorage end) with
  | None => []
  | Some raw => match parse_json raw with Some (JArr l) => omap restore l | _ => [] end
  end.
End Load.

(** ** Rooms stay apart *)

Definition ids s : list string := map id (rooms s).
Definition apart (rs : list Room) : Prop := forall r1 r2, r1 ∈ rs -> r2 ∈ rs -> sameRoomIdentity r1 r2 = true -> r1 = r2.
Record sound s : Prop := {
  sound_ids : NoDup (ids s);
  sound_active : forall i, activeRoomId s = Some i -> i ∈ ids s;
  sound_unread : forall i, i ∈ unread s -> i ∈ ids s;
  sound_apart : apart (rooms s) }.

(** What the shell asks: a fresh id for a join, open rooms otherwise, and no alias
    that makes two rooms one. *)
Definition orderly s (a : RoomsAction) : Prop :=
  match a with
  | Add r => id r ∉ ids s
  | Activate (Some i) => i ∈ ids s
  | NewActivity i => i ∈ ids s
  | Rename _ _ _ => apart (rooms (roomsReducer s a))
  | _ => True
  end.
Fixpoint orderly_run s (l : list RoomsAction) : Prop :=
  match l with [] => True | a :: l => orderly s a /\ orderly_run (roomsReducer s a) l end.

Lemma sameRoomIdentity_spec a b :
  sameRoomIdentity a b = true <-> wsUrl a = wsUrl b /\ room a = room b /\ name a = name b /\ asHost a = asHost b.
Proof. unfold sameRoomIdentity. rewrite !andb_true_iff, !String.eqb_eq, Bool.eqb_true_iff. tauto. Qed.

Lemma has_id_true i r : has_id i r = true <-> id r = i.
Proof. apply String.eqb_eq. Qed.

Lemma elem_withoutUnread u i x : x ∈ withoutUnread u i <-> x ∈ u /\ x <> i.
Proof. unfold withoutUnread. case_bool_decide; set_solver. Qed.

Lemma map_room_ids i f rs : (forall r, id (f r) = id r) -> map id (map_room i f rs) = map id rs.
Proof. intros Hf. unfold map_room. rewrite map_map. apply map_ext. intros r. by destruct (has_id i r). Qed.

(** A change that leaves ids and identities leaves soundness. *)
Lemma map_room_apart i f rs :
  (forall r, sameRoomIdentity r (f r) = true) -> apart rs -> apart (map_room i f rs).
Proof.
  intros Hf Ha r1 r2 (x1 & -> & H1)%list_elem_of_fmap (x2 & -> & H2)%list_elem_of_fmap E.
  enough (x1 = x2) by (by subst). apply Ha; [done..|].
  assert (Hg : forall x, sameRoomIdentity x (if has_id i x then f x else x) = true)
    by (intros x; destruct (has_id i x); [apply Hf|by apply sameRoomIdentity_spec]).
  pose proof (Hg x1) as E1. pose proof (Hg x2) as E2. rewrite sameRoomIdentity_spec in *. intuition congruence.
Qed.

Lemma sound_focus s i rs :
  sound s -> map id rs = ids s -> apart rs -> i ∈ ids s ->
  sound {| rooms := rs; activeRoomId := Some i; unread := withoutUnread (unread s) i |}.
Proof.
  intros [S1 S2 S3 S4] E Ha Hi. unfold ids in *. split; unfold ids; simpl; rewrite ?E; try done; [by intros ? [= <-]|].
  intros x [Hx _]%elem_withoutUnread. by apply S3.
Qed.

Definition renew r (r' : Room) : Room :=
  r' <| token := token r |> <| label := match label r with Some l => Some l | None => label r' end |>.

Lemma NoDup_map_inj {A B} (f : A -> B) l x y : NoDup (map f l) -> x ∈ l -> y ∈ l -> f x = f y -> x = y.
Proof.
  induction l as [|z l IH]; intros Hn Hx Hy E; [by apply elem_of_nil in Hx|]. inversion Hn as [|? ? Hz Hn']; subst.
  apply elem_of_cons in Hx as [->|Hx], Hy as [->|Hy]; [done| | |by apply IH].
  - exfalso. apply Hz. rewrite E. by apply list_elem_of_fmap_2.
  - exfalso. apply Hz. rewrite <-E. by apply list_elem_of_fmap_2.
Qed.

(** Whether the list is rebuilt or kept, the room joined again is renewed and no other
    one touched. *)
Lemma rejoin_rooms s r old :
  NoDup (ids s) -> findRoom (rooms s) r = Some old -> rooms (add_room r s) = map_room (id old) (renew r) (rooms s).
Proof.
  intros Hn Hf. unfold add_room. rewrite Hf. cbv zeta. apply js_find_Some in Hf as [Hin _].
  assert (Hold : forall x, x ∈ rooms s -> has_id (id old) x = true -> x = old)
    by (intros x Hx E%has_id_true; by eapply (NoDup_map_inj id)).
  destruct (negb _ || negb _) eqn:E; simpl.
  - apply map_ext_in. intros x Hx%list_elem_of_In. destruct (has_id (id old) x) eqn:Ei; [|done].
    apply Hold in Ei; [|done]. by subst x.
  - apply orb_false_iff in E as [E1%negb_false_iff%String.eqb_eq E2%negb_false_iff%bool_decide_eq_true].
    symmetry. rewrite <-(map_id (rooms s)) at 2. apply map_ext_in. intros x Hx%list_elem_of_In.
    destruct (has_id (id old) x) eqn:Ei; [|done]. apply Hold in Ei; [|done]. subst x.
    unfold renew. rewrite E2, <-E1. by destruct old.
Qed.

Lemma rejoin_state s r old :
  NoDup (ids s) -> findRoom (rooms s) r = Some old ->
  add_room r s = {| rooms := map_room (id old) (renew r) (rooms s); activeRoomId := Some (id old);
                    unread := withoutUnread (unread s) (id old) |}.
Proof. intros Hn Hf. rewrite <-(rejoin_rooms s r old Hn Hf). unfold add_room. by rewrite Hf. Qed.

Lemma renew_same r x : sameRoomIdentity x (renew r x) = true.
Proof. by apply sameRoomIdentity_spec. Qed.

Lemma head_id_in rs i : id <$> head rs = Some i -> i ∈ map id rs.
Proof. destruct rs as [|r rs]; [done|]. intros [= <-]. left. Qed.

Lemma ids_without i rs x : x ∈ map id (js_filter (fun r => negb (has_id i r)) rs) <-> x ∈ map id rs /\ x <> i.
Proof.
  rewrite !list_elem_of_fmap. split.
  - intros (r & -> & [Hr E]%elem_of_js_filter). apply negb_true_iff in E. split; [by exists r|].
    intros Hi%has_id_true. congruence.
  - intros [(r & -> & Hr) Hi]. exists r. split; [done|]. apply elem_of_js_filter. split; [done|].
    apply negb_true_iff. destruct (has_id i r) eqn:E; [by apply has_id_true in E|done].
Qed.

Lemma NoDup_ids_filter p rs : NoDup (map id rs) -> NoDup (map id (js_filter p rs)).
Proof.
  induction rs as [|r rs IH]; [done|]. intros Hn. inversion Hn as [|? ? Hr Hrs]; subst. simpl. destruct (p r); [|by apply IH].
  constructor; [|by apply IH]. intros (x & E & [Hx _]%elem_of_js_filter)%list_elem_of_fmap. apply Hr. rewrite E. by apply list_elem_of_fmap_2.
Qed.

Lemma add_sound r s : id r ∉ ids s -> sound s -> sound (add_room r s).
Proof.
  intros Hr Hs. destruct (findRoom (rooms s) r) as [old|] eqn:Hf.
  - rewrite (rejoin_state s r old) by (done || apply Hs). apply sound_focus; [done|by apply map_room_ids| |].
    + apply map_room_apart; [apply renew_same|apply Hs].
    + apply js_find_Some in Hf as [Hin _]. by apply list_elem_of_fmap_2.
  - unfold add_room. rewrite Hf. destruct Hs as [S1 S2 S3 S4]. unfold ids in *. split; unfold ids; simpl; rewrite ?map_app.
    + apply NoDup_app. split; [done|]. split; [|apply NoDup_singleton]. intros x Hx ->%list_elem_of_singleton. done.
    + intros i [= <-]. apply elem_of_app. right. left.
    + intros x [Hx _]%elem_withoutUnread. apply elem_of_app. left. by apply S3.
    + apply js_find_None in Hf. rewrite Forall_forall in Hf.
      assert (Hsym : forall a b, sameRoomIdentity a b = sameRoomIdentity b a)
        by (intros a b; apply eq_true_iff_eq; rewrite !sameRoomIdentity_spec; intuition congruence).
      intros r1 r2 [H1|H1%list_elem_of_singleton]%elem_of_app [H2|H2%list_elem_of_singleton]%elem_of_app E; subst; [by apply S4| | |done].
      * by rewrite Hf in E.
      * by rewrite Hsym, Hf in E.
Qed.

Lemma close_sound i s : sound s -> sound (close_room i s).
Proof.
  intros [S1 S2 S3 S4]. unfold close_room. cbv zeta. split; simpl.
  - by apply NoDup_ids_filter.
  - unfold ids. simpl. case_bool_decide as Ei; intros x Hx; [by apply head_id_in|]. apply ids_without.
    split; [by apply S2|]. congruence.
  - unfold ids. simpl. intros x [Hx Hne]%elem_withoutUnread. apply ids_without. split; [by apply S3|done].
  - intros r1 r2 [H1 _]%elem_of_js_filter [H2 _]%elem_of_js_filter. by apply S4.
Qed.

Lemma relabel_sound s rs : sound s -> map id rs = ids s -> apart rs -> sound (s <| rooms := rs |>).
Proof. intros [S1 S2 S3 S4] E Ha. split; unfold ids; simpl; rewrite ?E; done. Qed.

Lemma reducer_sound s a : orderly s a -> sound s -> sound (roomsReducer s a).
Proof.
  intros Ho Hs. destruct a as [r|i|[i|]|i|i m|i l n]; simpl in *.
  - by apply add_sound.
  - by apply close_sound.
  - by apply (sound_focus s i (rooms s)); [|done|apply Hs|].
  - destruct Hs as [S1 S2 S3 S4]. by split.
  - unfold note_activity. destruct (_ || _); [done|]. destruct Hs as [S1 S2 S3 S4]. split; try done.
    simpl. intros x [->%elem_of_singleton|Hx]%elem_of_union; [done|by apply S3].
  - unfold set_mode. destruct (existsb _ _); [|done]. apply relabel_sound; [done|apply map_room_ids|apply map_room_apart; [|apply Hs]].
    + intros r. by case_bool_decide.
    + intros r. apply sameRoomIdentity_spec. by case_bool_decide.
  - unfold rename_room in *. destruct (rename_target i s) as [t|]; [|done]. destruct (_ && _); [done|].
    apply relabel_sound; [done|by apply map_room_ids|exact Ho].
Qed.

(** Whatever orderly sequence of joins, closes, switches, news and renames follows,
    open rooms have distinct ids and distinct identities (relay, room, name and role:
    never two sockets for one seat), the active one is an open room, and only open
    rooms carry a badge. *)
Theorem rooms_stay_apart s l : sound s -> orderly_run s l -> sound (foldl roomsReducer s l).
Proof.
  revert s. induction l as [|a l IH]; intros s Hs Ho; [done|]. destruct Ho as [Ha Hl]. apply IH; [by apply reducer_sound|done].
Qed.

(** Joining a room that is open renews it: the list keeps its rooms and their
    order, the joined one gets the fresh token (and the new label, if one is given) and
    keeps its id, mode and runtime identity, the others are untouched, it becomes the
    active room and loses its badge; and a further join of the same identity finds it. *)
Theorem rejoin_renews s r old :
  sound s -> findRoom (rooms s) r = Some old ->
  let s' := roomsReducer s (Add r) in
  rooms s' = map_room (id old) (renew r) (rooms s) /\ ids s' = ids s /\
  activeRoomId s' = Some (id old) /\ ~ (id old ∈ unread s') /\
  (forall i, i <> id old -> (i ∈ unread s' <-> i ∈ unread s)) /\
  findRoom (rooms s') r = Some (renew r old).
Proof.
  intros Hs Hf. cbv zeta. simpl. rewrite (rejoin_state s r old) by (done || apply Hs). unfold ids. simpl. split_and!; try done.
  - by apply map_room_ids.
  - by intros [_ ?]%elem_withoutUnread.
  - intros i Hi. rewrite elem_withoutUnread. tauto.
  - assert (Hn : NoDup (ids s)) by apply Hs. clear Hs. unfold ids, findRoom in *. revert Hf Hn.
    assert (Hold : has_id (id old) old = true) by by apply has_id_true.
    induction (rooms s) as [|x rs IH]; [done|]. simpl. intros Hf Hn. inversion Hn as [|? ? Hx Hrs]; subst.
    destruct (sameRoomIdentity x r) eqn:E.
    + injection Hf as ->. rewrite Hold. assert (sameRoomIdentity (renew r old) r = true) as ->; [|done].
      pose proof (renew_same r old) as E2. rewrite sameRoomIdentity_spec in *. intuition congruence.
    + assert (has_id (id old) x = false) as ->; [|rewrite E; by apply IH].
      destruct (has_id (id old) x) eqn:Ei; [|done]. apply has_id_true in Ei. exfalso. apply Hx. rewrite Ei.
      apply js_find_Some in Hf as [Hin _]. by apply list_elem_of_fmap_2.
Qed.

(** ** The stored list *)

(** What a restart keeps of a room. *)
Definition forget (r : Room) : Room := r <| executionTarget := None |> <| deviceId := None |> <| relaySessionId := None |>.

Lemma restore_slim r : restore (slim r) = Some (forget r).
Proof. destruct r as [i u t rm n h [l|] e d rs [[|]|]]; by destruct h. Qed.

(** The stored list is read back: after a restart the rooms are those that were
    saved, in order, with their ids, tokens, names, labels and modes, whatever was
    stored before; only the runtime identity is lost. *)
Theorem saved_rooms_restored parse_json rs localStorage :
  parse_json (JSON_stringify (JArr (map slim rs))) = Some (JArr (map slim rs)) ->
  loadRooms parse_json (saveRooms rs localStorage) = map forget rs.
Proof.
  intros Hp. unfold loadRooms, saveRooms, stored at 1. rewrite lookup_insert. rewrite decide_True by done. cbn [mbind option_bind].
  assert (String.eqb (JSON_stringify (JArr (map slim rs))) "" = false) as -> by done. rewrite Hp.
  clear Hp. induction rs as [|r rs IH]; [done|]. cbn [map omap list_omap]. rewrite restore_slim. f_equal. exact IH.
Qed.

(** ** Runs *)

Definition seat (i n t : string) : Room :=
  {| id := i; wsUrl := "wss://r"; token := t; room := "p"; name := n; asHost := false; label := None;
     executionTarget := Some "docker"; deviceId := None; relaySessionId := None; mode := None |}.

(** Closing the active room shows the first one left, with its badge on. *)
Example closing_keeps_badge :
  let s := foldl roomsReducer (initialRoomsState [seat "a" "x" "t"; seat "b" "y" "t"] (Some "b")) [NewActivity "a"; Close "b"] in
  activeRoomId s = Some "a" /\ bool_decide ("a" ∈ unread s) = true.
Proof. by vm_compute. Qed.

(** After an alias is edited, joining again under the name the relay knows opens a
    second room for the same seat. *)
Example renamed_room_joined_twice :
  ids (foldl roomsReducer (initialRoomsState [] None) [Add (seat "a" "x" "t"); Rename (Some "a") None (Some "z"); Add (seat "b" "x" "t2")])
    = ["a"; "b"].
Proof. reflexivity. Qed.

Lemma initial_sound : sound (initialRoomsState [] None).
Proof. split; cbn; [apply NoDup_nil_2|done|set_solver|]. intros r1 r2 []%elem_of_nil. Qed.

(** [rooms_stay_apart] on a run that joins twice, changes modes and closes. *)
Example rooms_stay_apart_witness :
  let l := [Add (seat "a" "x" "t"); Add (seat "b" "y" "t"); NewActivity "a"; SetMode "a" TerminalMode;
            Add (seat "c" "x" "fresh"); Close "b"; Activate None] in
  orderly_run (initialRoomsState [] None) l /\ sound (foldl roomsReducer (initialRoomsState [] None) l).
Proof.
  assert (Ho : orderly_run (initialRoomsState [] None) [Add (seat "a" "x" "t"); Add (seat "b" "y" "t"); NewActivity "a"; SetMode "a" TerminalMode;
            Add (seat "c" "x" "fresh"); Close "b"; Activate None]) by (cbn; set_solver).
  split; [exact Ho|]. apply rooms_stay_apart; [apply initial_sound|exact Ho].
Defined.

(** [rejoin_renews] on the second join of room a. *)
Example rejoin_renews_witness :
  let s := roomsReducer (initialRoomsState [] None) (Add (seat "a" "x" "t")) in
  findRoom (rooms s) (seat "b" "x" "fresh") = Some (seat "a" "x" "t") /\
  activeRoomId (roomsReducer s (Add (seat "b" "x" "fresh"))) = Some "a".
Proof.
  split; [reflexivity|]. apply (rejoin_renews _ (seat "b" "x" "fresh") (seat "a" "x" "t")); [|reflexivity].
  apply add_sound; [cbn; set_solver|apply initial_sound].
Defined.

(** [saved_rooms_restored] with an engine that reads this text. *)
Example saved_rooms_restored_witness :
  let rs := [seat "a" "x" "t"] in
  loadRooms (fun _ => Some (JArr (map slim rs))) (saveRooms rs ∅) = map forget rs.
Proof. apply saved_rooms_restored. reflexivity. Defined.
