(* ===== verification/DesktopConnection.v ===== *)
(** * The desktop client: the reconnecting participant socket
    (src/desktop/src/connection.ts)

    [RelayConnection] dials, redials with a growing delay after every close, and says
    "auth-expired" after three attempts in a row that never opened. Sockets and timers
    are numbered by creation; a socket's closure variables are kept under its number.
    What a call does is [outputs], cleared by the caller. Socket events, timers and
    whether the constructor throws are the events of a run. The random factor of a
    delay is an argument.

    Theorems: one live socket or one timer at any time, reconnection from every state,
    the meaning of "auth-expired", silence after [close]. *)

From Stdlib Require Import QArith Qminmax Lqa.
From S2P Require Import Prelude JsMap Json DesktopFrames.

Local Open Scope string_scope.
Local Open Scope list_scope.
Local Open Scope Z_scope.

Definition RELAY_PROTOCOL_VERSION : string := "2.0".
Definition BACKOFF_MIN_MS : Z := 1000.
Definition BACKOFF_MAX_MS : Z := 30000.
Definition AUTH_FAILURE_THRESHOLD : Z := 3.

(** ** The delay *)

(** [Math.pow(2, attempt)] is exact until it is past the cap. *)
Definition capped_delay (attempt : Z) : Z := Z.min (BACKOFF_MIN_MS * 2 ^ attempt) BACKOFF_MAX_MS.
Definition backoffDelay (attempt : Z) (random : Q) : Q :=
  let capped := inject_Z (capped_delay attempt) in capped / 2 + random * (capped / 2).

(** ** State *)

Inductive ConnStatus := Connecting | Opened | Reconnecting | AuthExpired | Closed.
#[export] Instance ConnStatus_eq_dec : EqDecision ConnStatus.
Proof. solve_decision. Defined.

Inductive ReadyState := CONNECTING | OPEN | CLOSING | CLOSED.
#[export] Instance ReadyState_eq_dec : EqDecision ReadyState.
Proof. solve_decision. Defined.

(** [listening]: the four handlers are set. *)
Record Socket := { readyState : ReadyState; listening : bool; openedThisAttempt : bool }.
#[export] Instance eta_Socket : Eta Socket := fun k => Build_Socket (readyState k) (listening k) (openedThisAttempt k).

Inductive Output :=
  | OnStatus (status : ConnStatus) (attempt : Z)
  | OnMessage (raw : string)
  | Dial (k : nat)
  | Frame (k : nat) (payload : string)
  | Shut (k : nat)
  | Arm (timer : nat) (attempt : Z).

Record Conn := {
  ws : option nat; timer : option nat; attempt : Z; stopped : bool; preOpenFailures : Z;
  sockets : list Socket; pending : gset nat; timers : nat; outputs : list Output }.
#[export] Instance eta_Conn : Eta Conn := fun c =>
  Build_Conn (ws c) (timer c) (attempt c) (stopped c) (preOpenFailures c) (sockets c) (pending c) (timers c) (outputs c).
Implicit Types (c : Conn) (k t : nat).

Definition new_conn : Conn :=
  {| ws := None; timer := None; attempt := 0; stopped := false; preOpenFailures := 0; sockets := []; pending := ∅;
     timers := 0; outputs := [] |}.

Definition emit (o : Output) c : Conn := c <| outputs := outputs c ++ [o] |>.
Definition set_socket k (f : Socket -> Socket) c : Conn := c <| sockets := alter f k (sockets c) |>.

(** ** Operations *)

Definition currentStatus c : ConnStatus :=
  if AUTH_FAILURE_THRESHOLD <=? preOpenFailures c then AuthExpired
  else if attempt c =? 0 then Connecting else Reconnecting.

Definition scheduleReconnect c : Conn :=
  if stopped c then c
  else
    let c' := c <| attempt := attempt c + 1 |> in
    let c' := emit (OnStatus (currentStatus c') (attempt c')) c' in
    (emit (Arm (timers c) (attempt c)) c') <| timer := Some (timers c) |> <| pending := {[timers c]} ∪ pending c |>
      <| timers := S (timers c) |>.

(** [constructed]: the constructor did not throw. *)
Definition open_conn (constructed : bool) c : Conn :=
  if stopped c then c
  else
    let c := emit (OnStatus (currentStatus c) (attempt c)) c in
    if constructed then
      (emit (Dial (length (sockets c))) c) <| ws := Some (length (sockets c)) |>
        <| sockets := sockets c ++ [{| readyState := CONNECTING; listening := true; openedThisAttempt := false |}] |>
    else scheduleReconnect (c <| preOpenFailures := preOpenFailures c + 1 |>).

Definition start (constructed : bool) c : Conn := open_conn constructed (c <| stopped := false |>).

Definition state_of c k : option ReadyState := readyState <$> sockets c !! k.
Definition isOpen c : bool :=
  match ws c with Some k => bool_decide (state_of c k = Some OPEN) | None => false end.
Definition send (payload : string) c : Conn * bool :=
  match ws c with
  | Some k => if isOpen c then (emit (Frame k payload) c, true) else (c, false)
  | None => (c, false)
  end.

Definition shut (x : Socket) : Socket :=
  {| readyState := match readyState x with CLOSED => CLOSED | _ => CLOSING end; listening := false; openedThisAttempt := openedThisAttempt x |}.
Definition close c : Conn :=
  let c := c <| stopped := true |> in
  let c := match timer c with Some t => c <| pending := pending c ∖ {[t]} |> <| timer := None |> | None => c end in
  let c := match ws c with Some k => (emit (Shut k) (set_socket k shut c)) <| ws := None |> | None => c end in
  emit (OnStatus Closed (attempt c)) c.

Definition relay_join (clientId : string) : string :=
  typed_frame "relay_join" [("protocolVersion", Some (JStr RELAY_PROTOCOL_VERSION)); ("streamId", Some (JStr "room"));
                            ("clientId", Some (JStr clientId))].

(** ** The handlers of socket [k] *)

Definition onopen (clientId : string) k c : Conn :=
  let c := (set_socket k (fun x => x <| openedThisAttempt := true |>) c) <| attempt := 0 |> <| preOpenFailures := 0 |> in
  emit (OnStatus Opened 0) (emit (Frame k (relay_join clientId)) c).
Definition onmessage (data : option string) c : Conn :=
  match data with Some raw => emit (OnMessage raw) c | None => c end.
Definition onclose (wasOpen : bool) c : Conn :=
  if stopped c then c
  else scheduleReconnect (c <| ws := None |> <| preOpenFailures := if wasOpen then 0 else preOpenFailures c + 1 |>).

(** ** Runs *)

Inductive NetEvent :=
  | Start (constructed : bool)
  | Send (payload : string)
  | CloseCall
  | SocketOpened k
  | SocketData k (data : option string)
  | SocketClosing k
  | SocketClosed k
  | Fire t (constructed : bool).

Definition enabled (e : NetEvent) c : Prop :=
  match e with
  | SocketOpened k => state_of c k = Some CONNECTING
  | SocketData k _ => state_of c k = Some OPEN
  | SocketClosing k => state_of c k = Some CONNECTING \/ state_of c k = Some OPEN
  | SocketClosed k => exists r, state_of c k = Some r /\ r <> CLOSED
  | Fire t _ => t ∈ pending c
  | _ => True
  end.

Definition conn_event (clientId : string) (e : NetEvent) c : Conn :=
  match e with
  | Start constructed => start constructed c
  | Send payload => (send payload c).1
  | CloseCall => close c
  | SocketOpened k =>
      match sockets c !! k with
      | Some x => let c := set_socket k (fun x => x <| readyState := OPEN |>) c in if listening x then onopen clientId k c else c
      | None => c
      end
  | SocketData k data =>
      match sockets c !! k with Some x => if listening x then onmessage data c else c | None => c end
  | SocketClosing k => set_socket k (fun x => x <| readyState := CLOSING |>) c
  | SocketClosed k =>
      match sockets c !! k with
      | Some x =>
          let c := set_socket k (fun x => x <| readyState := CLOSED |>) c in
          if listening x then onclose (openedThisAttempt x) c else c
      | None => c
      end
  | Fire t constructed => open_conn constructed (c <| pending := pending c ∖ {[t]} |>)
  end.
(** One event, and what it made the connection do. *)
Definition conn_step (clientId : string) c (e : NetEvent) : Conn := conn_event clientId e (c <| outputs := [] |>).

Fixpoint possible (clientId : string) c (es : list NetEvent) : Prop :=
  match es with [] => True | e :: es => enabled e c /\ possible clientId (conn_step clientId c e) es end.
Definition conn_run (clientId : string) (es : list NetEvent) : Conn := foldl (conn_step clientId) new_conn es.

(** ** One socket or one timer *)

Definition dead (x : Socket) : Prop := readyState x = CLOSED.
Definition alive (x : Socket) : bool := negb (bool_decide (readyState x = CLOSED)).

Record live c (old : list Socket) (x : Socket) : Prop := {
  lv_sockets : sockets c = old ++ [x]; lv_ws : ws c = Some (length old); lv_old : Forall dead old;
  lv_alive : readyState x <> CLOSED; lv_listening : listening x = true; lv_pending : pending c = ∅; lv_on : stopped c = false }.
Record waiting c t : Prop := {
  wt_ws : ws c = None; wt_timer : timer c = Some t; wt_pending : pending c = {[t]};
  wt_dead : Forall dead (sockets c); wt_on : stopped c = false }.
Record off c : Prop := {
  of_ws : ws c = None; of_pending : pending c = ∅; of_stopped : stopped c = true;
  of_deaf : Forall (fun x => (listening x = false /\ readyState x = CLOSING) \/ dead x) (sockets c); of_one : (length (js_filter alive (sockets c)) <= 1)%nat }.
Definition phase c : Prop := (exists old x, live c old x) \/ (exists t, waiting c t) \/ off c.

Definition is_start (e : NetEvent) : bool := match e with Start _ => true | _ => false end.

Lemma alter_snoc {A} (f : A -> A) (l : list A) x : alter f (length l) (l ++ [x]) = l ++ [f x].
Proof. induction l as [|y l IH]; [done|]. simpl. by f_equal. Qed.

Lemma lookup_snoc {A} (l : list A) x k y : (l ++ [x]) !! k = Some y -> (k = length l /\ y = x) \/ l !! k = Some y.
Proof. intros [H1|[H1 E]]%lookup_app_Some; [by right|]. left. apply list_lookup_singleton_Some in E as [E ->]. split; [lia|done]. Qed.

Lemma lookup_last {A} (l : list A) x : (l ++ [x]) !! length l = Some x.
Proof. by rewrite lookup_app_r, Nat.sub_diag by done. Qed.

(** In a live phase the only socket that is not closed is the current one. *)
Lemma live_state c old x k r : live c old x -> state_of c k = Some r -> r <> CLOSED -> k = length old /\ r = readyState x.
Proof.
  intros Hl E Hr. unfold state_of in E. rewrite (lv_sockets _ _ _ Hl) in E. apply fmap_Some in E as (y & E & ->).
  apply lookup_snoc in E as [[-> ->]|E]; [done|]. pose proof (lv_old _ _ _ Hl) as Hd. rewrite Forall_lookup in Hd. by apply Hd in E.
Qed.

Lemma dead_state c k r : Forall dead (sockets c) -> state_of c k = Some r -> r = CLOSED.
Proof. intros Hd E. apply fmap_Some in E as (y & E & ->). rewrite Forall_lookup in Hd. by apply Hd in E. Qed.

Lemma no_alive l : Forall dead l -> js_filter alive l = [].
Proof. intros Hd. apply js_filter_none. eapply Forall_impl; [exact Hd|]. intros x Hx. unfold alive. by rewrite bool_decide_eq_true_2. Qed.

Lemma open_phase constructed c :
  Forall dead (sockets c) -> ws c = None -> pending c = ∅ -> stopped c = false -> phase (open_conn constructed c).
Proof.
  intros Hd Hw Hp Hs. unfold open_conn. rewrite Hs. cbv zeta. destruct constructed.
  - left. exists (sockets c), {| readyState := CONNECTING; listening := true; openedThisAttempt := false |}. by split.
  - right. left. exists (timers c). unfold scheduleReconnect. simpl. rewrite Hs. split; simpl; try done. rewrite Hp. set_solver.
Qed.

Lemma schedule_waiting c :
  Forall dead (sockets c) -> ws c = None -> pending c = ∅ -> stopped c = false -> waiting (scheduleReconnect c) (timers c).
Proof. intros Hd Hw Hp Hs. unfold scheduleReconnect. rewrite Hs. split; simpl; try done. rewrite Hp. set_solver. Qed.

(** The current socket changes without dying. *)
Lemma live_alter c c' old x f :
  live c old x -> readyState (f x) <> CLOSED -> listening (f x) = listening x ->
  sockets c' = alter f (length old) (sockets c) -> ws c' = ws c -> pending c' = pending c -> stopped c' = stopped c ->
  live c' old (f x).
Proof.
  intros [L1 L2 L3 L4 L5 L6 L7] Hf1 Hf2 E1 E2 E3 E4. split; try congruence. by rewrite E1, L1, alter_snoc.
Qed.

Lemma live_same c c' old x :
  live c old x -> sockets c' = sockets c -> ws c' = ws c -> pending c' = pending c -> stopped c' = stopped c -> live c' old x.
Proof. intros [L1 L2 L3 L4 L5 L6 L7] E1 E2 E3 E4. split; congruence. Qed.

Section Facts.
Context (clientId : string).
Abbreviation step := (conn_step clientId).

Lemma clear_outputs c : phase c -> phase (c <| outputs := [] |>).
Proof.
  intros [(old & x & H1)|[(t & H1)|H1]]; [left; exists old, x|right; left; exists t|right; right]; by destruct H1; split.
Qed.

Lemma close_fields c :
  ws (close c) = None /\ stopped (close c) = true /\ pending (close c) ⊆ pending c /\
  sockets (close c) = match ws c with Some k => alter shut k (sockets c) | None => sockets c end /\
  (forall t, timer c = Some t -> ~ (t ∈ pending (close c))).
Proof. destruct c as [w tm a st f ss p n o]. destruct w, tm; split_and!; try done; cbn; set_solver. Qed.

Lemma close_off c : phase c -> off (close c).
Proof.
  intros Hp. destruct (close_fields c) as (C1 & C2 & C3 & C4 & C5).
  destruct Hp as [(old & x & [L1 L2 L3 L4 L5 L6 L7])|[(t & [W1 W2 W3 W4 W5])|[O1 O2 O3 O4 O5]]].
  - rewrite L2, L1, alter_snoc in C4. split; [done|set_solver|done|rewrite C4..].
    + apply Forall_app; split; [by eapply Forall_impl; [exact L3|]; intros y Hy; right|constructor; [|done]].
      left. split; [done|]. simpl. by destruct (readyState x).
    + rewrite js_filter_app, (no_alive old) by done. cbn [js_filter app]. destruct (alive (shut x)); simpl; lia.
  - rewrite W1 in C4. split; [done| |done|rewrite C4..].
    + rewrite W3 in C3. specialize (C5 _ W2). apply set_eq. intros y. split; [|set_solver].
      intros Hy. pose proof (C3 _ Hy) as ->%elem_of_singleton. by destruct C5.
    + eapply Forall_impl; [exact W4|]. by right.
    + rewrite no_alive by done; simpl; lia.
  - rewrite O1 in C4. split; [done|set_solver|done|by rewrite C4..].
Qed.

Lemma opened_live c old x k : live c old x -> state_of c k = Some CONNECTING -> live (conn_event clientId (SocketOpened k) c) old (x <| readyState := OPEN |> <| openedThisAttempt := true |>).
Proof.
  intros Hl E. destruct (live_state _ _ _ _ _ Hl E) as [-> Hr]; [done|]. simpl. rewrite (lv_sockets _ _ _ Hl), lookup_last, (lv_listening _ _ _ Hl).
  destruct Hl as [L1 L2 L3 L4 L5 L6 L7]. split; simpl; try done. by rewrite L1, !alter_snoc.
Qed.

Lemma closed_waiting c old x k :
  live c old x -> (exists r, state_of c k = Some r /\ r <> CLOSED) ->
  k = length old /\ waiting (conn_event clientId (SocketClosed k) c) (timers c) /\
  length (sockets (conn_event clientId (SocketClosed k) c)) = length (sockets c) /\
  preOpenFailures (conn_event clientId (SocketClosed k) c) = if openedThisAttempt x then 0 else preOpenFailures c + 1.
Proof.
  intros Hl (r & E & Hr). destruct (live_state _ _ _ _ _ Hl E) as [-> ->]; [done|]. split; [done|].
  cbn [conn_event]. rewrite (lv_sockets _ _ _ Hl), lookup_last, (lv_listening _ _ _ Hl). destruct Hl as [L1 L2 L3 L4 L5 L6 L7].
  unfold onclose. match goal with |- context [if stopped ?c' then _ else _] => change (stopped c') with (stopped c) end. rewrite L7. cbv zeta.
  match goal with |- waiting (scheduleReconnect ?c') _ /\ _ => change (timers c) with (timers c') end.
  split; [apply schedule_waiting; simpl; try done|].
  - rewrite L1, alter_snoc. apply Forall_app. split; [done|]. by constructor.
  - unfold scheduleReconnect. simpl. rewrite L7. simpl. split; [by rewrite L1, !length_alter|done].
Qed.

Lemma send_same payload c :
  sockets (send payload c).1 = sockets c /\ ws (send payload c).1 = ws c /\ pending (send payload c).1 = pending c /\
  stopped (send payload c).1 = stopped c /\ timer (send payload c).1 = timer c /\ preOpenFailures (send payload c).1 = preOpenFailures c.
Proof. unfold send. destruct (ws c) eqn:E; [|done]. by destruct (isOpen c). Qed.

Lemma live_event e c old x : live c old x -> is_start e = false -> enabled e c -> phase (conn_event clientId e c).
Proof.
  intros Hl Hs He. destruct e as [b|p| |k|k data|k|k|t b]; [done|..].
  - left. exists old, x. destruct (send_same p c) as (? & ? & ? & ? & _). by eapply live_same.
  - right. right. apply close_off. left. by exists old, x.
  - left. eexists old, _. by eapply opened_live.
  - left. exists old, x. destruct (live_state _ _ _ _ _ Hl He) as [-> _]; [done|]. simpl.
    rewrite (lv_sockets _ _ _ Hl), lookup_last, (lv_listening _ _ _ Hl). destruct data; simpl; [|done]. by eapply live_same.
  - assert (k = length old) as -> by (destruct He as [He|He]; by destruct (live_state _ _ _ _ _ Hl He)).
    left. exists old, (x <| readyState := CLOSING |>). by eapply live_alter.
  - right. left. eexists. by eapply closed_waiting.
  - exfalso. simpl in He. rewrite (lv_pending _ _ _ Hl) in He. set_solver.
Qed.

Lemma waiting_event e c t : waiting c t -> is_start e = false -> enabled e c -> phase (conn_event clientId e c).
Proof.
  intros Hw Hs He. pose proof Hw as [W1 W2 W3 W4 W5]. destruct e as [b|p| |k|k data|k|k|t' b]; [done|..].
  - right. left. exists t. unfold conn_event, send. by rewrite W1.
  - right. right. apply close_off. right. left. by exists t.
  - by apply dead_state in He.
  - by apply dead_state in He.
  - destruct He as [He|He]; by apply dead_state in He.
  - destruct He as (r & He & Hr). by apply dead_state in He.
  - simpl in He. rewrite W3 in He. apply elem_of_singleton in He as ->. apply open_phase; simpl; try done. rewrite W3. set_solver.
Qed.

Lemma off_state c k r : off c -> state_of c k = Some r -> r = CLOSING \/ r = CLOSED.
Proof.
  intros Ho E. apply fmap_Some in E as (y & E & ->). pose proof (of_deaf _ Ho) as Hd. rewrite Forall_lookup in Hd.
  destruct (Hd _ _ E) as [[_ H1]|H1]; [by left|by right].
Qed.

Lemma alive_alter f k l :
  (forall x, alive (f x) = true -> alive x = true) -> (length (js_filter alive (alter f k l)) <= length (js_filter alive l))%nat.
Proof.
  intros Hf. revert k. induction l as [|x l IH]; intros [|k]; simpl; [lia..| |].
  - destruct (alive (f x)) eqn:E; [by rewrite (Hf _ E)|]. destruct (alive x); simpl; lia.
  - specialize (IH k). unfold alter in IH. destruct (alive x); simpl; lia.
Qed.

(** After [close] the only thing that can still happen to a socket is its end. *)
Lemma off_event e c :
  off c -> is_start e = false -> enabled e c ->
  off (conn_event clientId e c) /\
  outputs (conn_event clientId e c) = outputs c ++ match e with CloseCall => [OnStatus Closed (attempt c)] | _ => [] end.
Proof.
  intros Ho Hs He. pose proof Ho as [O1 O2 O3 O4 O5]. destruct e as [b|p| |k|k data|k|k|t b]; [done|..].
  - unfold conn_event, send. by rewrite O1, app_nil_r.
  - split; [apply close_off; by right; right|]. destruct c as [w tm a st f ss pn n o]. simpl in O1. subst w. by destruct tm.
  - destruct (off_state _ _ _ Ho He); done.
  - destruct (off_state _ _ _ Ho He); done.
  - destruct He as [He|He]; destruct (off_state _ _ _ Ho He); done.
  - destruct He as (r & He & Hr). apply fmap_Some in He as (x & Ex & ->). cbn [conn_event]. rewrite Ex, app_nil_r.
    assert (listening x = false) as ->.
    { rewrite Forall_lookup in O4. by destruct (O4 _ _ Ex) as [[H1 _]|H1]. }
    split; [|done]. split; try done.
    + simpl. apply Forall_alter; [done|]. intros y _ Hy. by right.
    + simpl. etrans; [apply alive_alter|done]. done.
  - simpl in He. rewrite O2 in He. set_solver.
Qed.

Lemma step_phase e c : phase c -> is_start e = false -> enabled e c -> phase (step c e).
Proof.
  intros Hp Hs He. apply clear_outputs in Hp. unfold conn_step.
  assert (He' : enabled e (c <| outputs := [] |>)) by (by destruct e).
  destruct Hp as [(old & x & H1)|[(t & H1)|H1]].
  - by eapply live_event.
  - by eapply waiting_event.
  - right. right. by apply off_event.
Qed.

Lemma run_phase es c :
  phase c -> Forall (fun e => is_start e = false) es -> possible clientId c es -> phase (foldl step c es).
Proof.
  revert c. induction es as [|e es IH]; intros c Hp Hs Hv; [done|]. inversion_clear Hs. destruct Hv as [He Hv].
  apply IH; [by apply step_phase|done..].
Qed.

Lemma started_phase b : phase (step new_conn (Start b)).
Proof. by apply open_phase. Qed.

Definition started_once (es : list NetEvent) : Prop :=
  exists b es', es = Start b :: es' /\ Forall (fun e => is_start e = false) es' /\ possible clientId (step new_conn (Start b)) es'.

Lemma started_once_phase es : started_once es -> phase (conn_run clientId es).
Proof. intros (b & es' & -> & Hs & Hv). apply (run_phase es' (step new_conn (Start b))); [apply started_phase|done..]. Qed.

(** Started once, a connection never has two sockets that are not closed, nor a
    socket beside a pending redial, whatever the sockets and timers do. *)
Theorem one_socket_or_one_timer es :
  started_once es ->
  (length (js_filter alive (sockets (conn_run clientId es))) + size (pending (conn_run clientId es)) <= 1)%nat.
Proof.
  intros [(old & x & [L1 L2 L3 L4 L5 L6 L7])|[(t & [W1 W2 W3 W4 W5])|[O1 O2 O3 O4 O5]]]%started_once_phase.
  - rewrite L1, L6, js_filter_app, (no_alive old), size_empty by done. cbn [js_filter app]. destruct (alive x); simpl; lia.
  - rewrite W3, no_alive, size_singleton by done. simpl. lia.
  - rewrite O2, size_empty. lia.
Qed.

(** The socket is open, nothing is counted against it, and both sides were told. *)
Definition greeted c : Prop :=
  isOpen c = true /\ attempt c = 0 /\ preOpenFailures c = 0 /\
  exists k, ws c = Some k /\ outputs c = [Frame k (relay_join clientId); OnStatus Opened 0].

Lemma dialled_opens c old x :
  live c old x -> readyState x = CONNECTING ->
  enabled (SocketOpened (length old)) c /\ greeted (step c (SocketOpened (length old))).
Proof.
  intros [L1 L2 L3 L4 L5 L6 L7] Hx. split; [unfold enabled, state_of; by rewrite L1, lookup_last, <-Hx|].
  assert (E : step c (SocketOpened (length old)) =
    onopen clientId (length old) (set_socket (length old) (fun x => x <| readyState := OPEN |>) (c <| outputs := [] |>))).
  { unfold conn_step. cbn [conn_event]. change (sockets (c <| outputs := [] |>)) with (sockets c). by rewrite L1, lookup_last, L5. }
  unfold greeted. rewrite E. split_and!; [|done|done|by exists (length old)]. unfold isOpen, state_of. simpl. by rewrite L2, L1, !alter_snoc, lookup_last.
Qed.

Lemma timer_dials c t :
  waiting c t ->
  enabled (Fire t true) c /\ live (step c (Fire t true)) (sockets c) {| readyState := CONNECTING; listening := true; openedThisAttempt := false |}.
Proof.
  intros [W1 W2 W3 W4 W5]. split; [simpl; rewrite W3; set_solver|]. unfold conn_step. cbn [conn_event]. unfold open_conn.
  match goal with |- context [if stopped ?c' then _ else _] => change (stopped c') with (stopped c) end. rewrite W5.
  split; simpl; try done. rewrite W3. set_solver.
Qed.

(** A connection that was started and not closed always gets back, whatever
    happened before: within three events (a close in progress ends, the timer it armed
    fires, the new socket opens) it is open, with no failure counted, having told the
    relay who it is and its user that it is connected. *)
Theorem desktop_reconnects es :
  started_once es -> stopped (conn_run clientId es) = false ->
  isOpen (conn_run clientId es) = true \/
  exists more, (length more <= 3)%nat /\ possible clientId (conn_run clientId es) more /\
    greeted (foldl step (conn_run clientId es) more).
Proof.
  intros Hes Hon. apply started_once_phase in Hes. set (c := conn_run clientId es) in *. clearbody c.
  assert (Hredial : forall c t, waiting c t -> exists k, possible clientId c [Fire t true; SocketOpened k] /\
    greeted (foldl step c [Fire t true; SocketOpened k])).
  { intros c' t [He Hl]%timer_dials. apply dialled_opens in Hl as [Ho Hg]; [|done]. exists (length (sockets c')). by split_and!. }
  destruct Hes as [(old & x & Hl)|[(t & Hw)|Ho]]; [| |by rewrite (of_stopped _ Ho) in Hon].
  - destruct (readyState x) eqn:Hx; [right|left|right|by destruct (lv_alive _ _ _ Hl)].
    + destruct (dialled_opens _ _ _ Hl Hx) as [He Hg]. exists [SocketOpened (length old)]. split; [simpl; lia|split; [done|exact Hg]].
    + destruct Hl as [L1 L2 L3 L4 L5 L6 L7]. unfold isOpen, state_of. rewrite L2, L1, lookup_last. simpl. by rewrite Hx.
    + assert (He : exists r, state_of c (length old) = Some r /\ r <> CLOSED).
      { exists CLOSING. split; [|done]. unfold state_of. by rewrite (lv_sockets _ _ _ Hl), lookup_last, <-Hx. }
      assert (Hl' : live (c <| outputs := [] |>) old x) by (by eapply live_same).
      destruct (closed_waiting _ _ _ _ Hl' He) as (_ & Hw & _). destruct (Hredial _ _ Hw) as (k & Hp & Hg).
      exists [SocketClosed (length old); Fire (timers c) true; SocketOpened k]. split; [simpl; lia|split; [split; [done|exact Hp]|exact Hg]].
  - right. destruct (Hredial _ _ Hw) as (k & Hp & Hg). exists [Fire t true; SocketOpened k]. split; [simpl; lia|split; [exact Hp|exact Hg]].
Qed.

(** [close] is final: afterwards nothing is dialled, sent, delivered or armed and no
    status is reported but "closed" itself, whatever still happens to the socket or is
    asked of the connection, and [send] fails. *)
Theorem close_is_final es more :
  started_once es -> Forall (fun e => is_start e = false) more ->
  possible clientId (step (conn_run clientId es) CloseCall) more ->
  forall e payload, is_start e = false -> enabled e (foldl step (step (conn_run clientId es) CloseCall) more) ->
  Forall (fun o => exists n, o = OnStatus Closed n) (outputs (step (foldl step (step (conn_run clientId es) CloseCall) more) e)) /\
  (send payload (foldl step (step (conn_run clientId es) CloseCall) more)).2 = false.
Proof.
  intros Hes Hs Hv. apply started_once_phase in Hes.
  assert (Hclear : forall c, off c -> off (c <| outputs := [] |>)) by (intros c []; by split).
  assert (Ho : off (step (conn_run clientId es) CloseCall)) by (apply close_off; by apply clear_outputs).
  revert Ho Hv. generalize (step (conn_run clientId es) CloseCall). induction Hs as [|e more He Hs IH]; intros c Ho Hv e' payload Hs' He'.
  - split; [|unfold send; simpl; by rewrite (of_ws _ Ho)]. assert (He'' : enabled e' (c <| outputs := [] |>)) by (by destruct e').
    destruct (off_event e' _ (Hclear _ Ho) Hs' He'') as [_ E]. cbn [foldl]. unfold conn_step. rewrite E. destruct e'; simpl; try constructor; [by eexists|constructor].
  - destruct Hv as [Hev Hv]. apply IH; [|done..]. assert (He'' : enabled e (c <| outputs := [] |>)) by (by destruct e).
    by apply (off_event e _ (Hclear _ Ho) He He'').
Qed.

(** ** The meaning of "auth-expired" *)

(** Socket [k] opened. *)
Definition opened_in (past : list NetEvent) k : bool :=
  existsb (fun e => match e with SocketOpened k' => (k =? k')%nat | _ => false end) past.

(** Attempts in a row that ended without opening, by the history alone, latest event
    first: a constructor that throws, or a close of a socket that never opened. *)
Fixpoint streak (past : list NetEvent) : Z :=
  match past with
  | [] => 0
  | (Start false | Fire _ false) :: past => streak past + 1
  | SocketOpened _ :: _ => 0
  | SocketClosed k :: past => if opened_in past k then 0 else streak past + 1
  | _ :: past => streak past
  end.

Record tracked (past : list NetEvent) c : Prop := {
  tr_phase : (exists old x, live c old x /\ openedThisAttempt x = opened_in past (length old) /\
    (openedThisAttempt x = true -> preOpenFailures c = 0)) \/ (exists t, waiting c t);
  tr_new : forall k, (length (sockets c) <= k)%nat -> opened_in past k = false;
  tr_streak : preOpenFailures c = streak past }.

Lemma open_tracked past constructed c e :
  Forall dead (sockets c) -> ws c = None -> pending c = ∅ -> stopped c = false ->
  (forall k, (length (sockets c) <= k)%nat -> opened_in past k = false) -> preOpenFailures c = streak past ->
  (e = Start constructed \/ exists t, e = Fire t constructed) ->
  tracked (e :: past) (open_conn constructed c).
Proof.
  intros Hd Hw Hp Hs Hn Hk He.
  assert (Ho : forall k, opened_in (e :: past) k = opened_in past k) by (intros k; by destruct He as [->|[t ->]]).
  unfold open_conn. rewrite Hs. cbv zeta. destruct constructed.
  - split; simpl.
    + left. exists (sockets c), {| readyState := CONNECTING; listening := true; openedThisAttempt := false |}.
      split; [by split|]. split; [|done]. symmetry. etrans; [apply Ho|]. apply Hn. lia.
    + intros k Hlen. rewrite length_app in Hlen. etrans; [apply (Ho k)|]. apply Hn. simpl in Hlen. lia.
    + by destruct He as [->|[t ->]].
  - unfold scheduleReconnect. simpl. rewrite Hs. split.
    + right. exists (timers c). split; simpl; try done. rewrite Hp. set_solver.
    + intros k Hlen. etrans; [apply (Ho k)|by apply Hn].
    + simpl. rewrite Hk. by destruct He as [->|[t ->]].
Qed.

(** Events that open or close nothing leave the record. *)
Lemma tracked_quiet past e c c' :
  tracked past c -> (forall k, opened_in (e :: past) k = opened_in past k) -> streak (e :: past) = streak past ->
  sockets c' = sockets c -> ws c' = ws c -> pending c' = pending c -> stopped c' = stopped c -> timer c' = timer c ->
  preOpenFailures c' = preOpenFailures c -> tracked (e :: past) c'.
Proof.
  intros [T1 T2 T3] Ho Hst E1 E2 E3 E4 E5 E6. split; [|rewrite E1; intros k; rewrite Ho; apply T2|congruence].
  destruct T1 as [(old & x & Hl & Hx & Hz)|(t & [W1 W2 W3 W4 W5])].
  - left. exists old, x. split; [by eapply live_same|by rewrite Ho, E6].
  - right. exists t. split; congruence.
Qed.

Lemma tracked_event past e c :
  tracked past c -> is_start e = false -> e <> CloseCall -> enabled e c -> tracked (e :: past) (conn_event clientId e c).
Proof.
  intros Ht Hs Hc He. pose proof Ht as [T1 T2 T3]. destruct e as [b|p| |k|k data|k|k|t b]; [done| |done|..].
  - destruct (send_same p c) as (?&?&?&?&?&?). by eapply tracked_quiet.
  - destruct T1 as [(old & x & Hl & Hx & Hz)|(t & Hw)]; [|by apply dead_state in He; [|apply Hw]].
    destruct (live_state _ _ _ _ _ Hl He) as [-> Hr]; [done|]. pose proof (opened_live _ _ _ _ Hl He) as Hl'. split.
    + left. eexists old, _. split; [exact Hl'|]. simpl. rewrite Nat.eqb_refl. split; [done|]. intros _.
      by rewrite (lv_sockets _ _ _ Hl), lookup_last, (lv_listening _ _ _ Hl).
    + intros k Hk. rewrite (lv_sockets _ _ _ Hl'), length_app in Hk. simpl in Hk |- *.
      rewrite (proj2 (Nat.eqb_neq _ _)) by lia. simpl. apply T2. rewrite (lv_sockets _ _ _ Hl), length_app. simpl. lia.
    + simpl. rewrite (lv_sockets _ _ _ Hl), lookup_last, (lv_listening _ _ _ Hl). done.
  - destruct T1 as [(old & x & Hl & Hx & Hz)|(t & Hw)]; [|by apply dead_state in He; [|apply Hw]].
    destruct (live_state _ _ _ _ _ Hl He) as [-> _]; [done|]. cbn [conn_event].
    rewrite (lv_sockets _ _ _ Hl), lookup_last, (lv_listening _ _ _ Hl). destruct data; by eapply tracked_quiet.
  - destruct T1 as [(old & x & Hl & Hx & Hz)|(t & Hw)]; [|by destruct He as [He|He]; apply dead_state in He; [|apply Hw| |apply Hw]].
    assert (k = length old) as -> by (destruct He as [He|He]; by destruct (live_state _ _ _ _ _ Hl He)).
    split; [left; exists old, (x <| readyState := CLOSING |>); split; [by eapply live_alter|done]| |done].
    intros k Hk. simpl in Hk |- *. rewrite length_alter in Hk. by apply T2.
  - destruct T1 as [(old & x & Hl & Hx & Hz)|(t & Hw)]; [|destruct He as (r & He & Hr); by apply dead_state in He; [|apply Hw]].
    destruct (closed_waiting _ _ _ _ Hl He) as (-> & Hw & Hlen & Hf). split.
    + right. by eexists.
    + intros k Hk. rewrite Hlen in Hk. simpl. by apply T2.
    + rewrite Hf, T3, Hx. done.
  - destruct T1 as [(old & x & Hl & Hx & Hz)|(t' & Hw)]; [exfalso; simpl in He; rewrite (lv_pending _ _ _ Hl) in He; set_solver|].
    destruct Hw as [W1 W2 W3 W4 W5]. simpl in He. rewrite W3 in He. apply elem_of_singleton in He as ->.
    apply (open_tracked past b (c <| pending := pending c ∖ {[t']} |>)); simpl; try done; [rewrite W3; set_solver|right; by eexists].
Qed.

Lemma tracked_step past e c :
  tracked past c -> is_start e = false -> e <> CloseCall -> enabled e c -> tracked (e :: past) (step c e).
Proof.
  intros [T1 T2 T3] Hs Hc He. apply tracked_event; [|done|done|by destruct e]. split; [|done|done].
  destruct T1 as [(old & x & Hl & Hx & Hz)|(t & [])]; [left; exists old, x; split; [by eapply live_same|done]|right; exists t; by split].
Qed.

Lemma run_tracked es past c :
  tracked past c -> Forall (fun e => is_start e = false /\ e <> CloseCall) es -> possible clientId c es ->
  tracked (rev es ++ past) (foldl step c es).
Proof.
  revert past c. induction es as [|e es IH]; intros past c Ht Hs Hv; [done|]. inversion_clear Hs as [|? ? [Hs1 Hs2] Hs']. destruct Hv as [He Hv].
  simpl. rewrite <-app_assoc. apply IH; [by apply tracked_step|done..].
Qed.

Lemma started_tracked b : tracked [Start b] (step new_conn (Start b)).
Proof. apply (open_tracked [] b ((new_conn <| outputs := [] |>) <| stopped := false |>) (Start b)); try done. by left. Qed.

Lemma schedule_outputs c :
  outputs (scheduleReconnect c) = outputs c ++
    (if stopped c then [] else [OnStatus (currentStatus (c <| attempt := attempt c + 1 |>)) (attempt c + 1); Arm (timers c) (attempt c)]).
Proof. unfold scheduleReconnect. destruct (stopped c); [by rewrite app_nil_r|]. simpl. by rewrite <-app_assoc. Qed.

Lemma currentStatus_auth c : currentStatus c = AuthExpired <-> 3 <= preOpenFailures c.
Proof.
  unfold currentStatus, AUTH_FAILURE_THRESHOLD. destruct (3 <=? preOpenFailures c) eqn:E; [apply Z.leb_le in E; tauto|].
  apply Z.leb_gt in E. split; [by destruct (attempt c =? 0)|lia].
Qed.

(** Which statuses one event reports. *)
Definition reports (past : list NetEvent) (e : NetEvent) (st : ConnStatus) : Prop :=
  st = Opened \/
  ((st = AuthExpired -> 3 <= streak (e :: past)) /\ (st <> AuthExpired -> streak past < 3)).

Lemma open_reports past constructed c st n e :
  (e = Start constructed \/ exists t, e = Fire t constructed) -> preOpenFailures c = streak past -> outputs c = [] ->
  OnStatus st n ∈ outputs (open_conn constructed c) -> reports past e st.
Proof.
  intros He Hk Ho Hin. right.
  assert (Hmono : streak past <= streak (e :: past)) by (destruct He as [->|[t ->]]; destruct constructed; simpl; lia).
  assert (Hst : forall c', preOpenFailures c' = streak past \/ preOpenFailures c' = streak (e :: past) -> st = currentStatus c' ->
    (st = AuthExpired -> 3 <= streak (e :: past)) /\ (st <> AuthExpired -> streak past < 3)).
  { intros c' Hc' ->. rewrite currentStatus_auth. lia. }
  unfold open_conn in Hin. destruct (stopped c); [rewrite Ho in Hin; by apply elem_of_nil in Hin|]. cbv zeta in Hin. destruct constructed.
  - simpl in Hin. rewrite Ho in Hin. apply elem_of_cons in Hin as [[= -> ->]|Hin]; [apply (Hst c); [by left|done]|].
    by apply list_elem_of_singleton in Hin.
  - rewrite schedule_outputs in Hin. apply elem_of_app in Hin as [Hin|Hin].
    + simpl in Hin. rewrite Ho in Hin. apply list_elem_of_singleton in Hin as [= -> ->]. apply (Hst c); [by left|done].
    + destruct (stopped _); [by apply elem_of_nil in Hin|]. apply elem_of_cons in Hin as [[= E _]|Hin]; [|by apply list_elem_of_singleton in Hin].
      eapply Hst; [right|exact E]. simpl. rewrite Hk. by destruct He as [->|[t ->]].
Qed.

(** The events that report no status. *)
Lemma quiet_event c e st n :
  match e with Send _ | SocketData _ _ | SocketClosing _ => True | _ => False end ->
  outputs c = [] -> ~ (OnStatus st n ∈ outputs (conn_event clientId e c)).
Proof.
  intros Hq Ho. destruct c as [w tm a sp f ss pn m o]. simpl in Ho. subst o. destruct e as [|p| | |k data|k| |]; try done; simpl.
  - unfold send. simpl. destruct w; [|by intros ?%elem_of_nil]. destruct (isOpen _); simpl; [|by intros ?%elem_of_nil].
    by intros ?%list_elem_of_singleton.
  - destruct (ss !! k) as [x|]; [|by intros ?%elem_of_nil].
    destruct (listening x), data; simpl; try (by intros ?%elem_of_nil). by intros ?%list_elem_of_singleton.
  - by intros ?%elem_of_nil.
Qed.

Lemma opened_reports c k st n :
  outputs c = [] -> OnStatus st n ∈ outputs (conn_event clientId (SocketOpened k) c) -> st = Opened.
Proof.
  intros Ho. simpl. destruct (sockets c !! k) as [x|]; [|rewrite Ho; by intros ?%elem_of_nil].
  destruct (listening x); simpl; rewrite Ho; [|by intros ?%elem_of_nil].
  intros [?|[= -> _]%list_elem_of_singleton]%elem_of_cons; done.
Qed.

Lemma event_reports past e c st n :
  tracked past c -> is_start e = false -> e <> CloseCall -> enabled e c -> outputs c = [] ->
  OnStatus st n ∈ outputs (conn_event clientId e c) -> reports past e st.
Proof.
  intros Ht Hs Hc He Ho Hin. pose proof Ht as [T1 T2 T3].
  destruct e as [b|p| |k|k data|k|k|t b]; [done|by apply quiet_event in Hin|done|left; by apply opened_reports in Hin|by apply quiet_event in Hin..| |].
  - destruct T1 as [(old & x & Hl & Hx & Hz)|(t & Hw)]; [|destruct He as (r & He & Hr); by apply dead_state in He; [|apply Hw]].
    destruct (closed_waiting _ _ _ _ Hl He) as (-> & _ & _ & Hf). right.
    simpl streak. rewrite <-Hx. cbn [conn_event] in Hin. rewrite (lv_sockets _ _ _ Hl), lookup_last, (lv_listening _ _ _ Hl) in Hin.
    unfold onclose in Hin. destruct (stopped _); [simpl in Hin; rewrite Ho in Hin; by apply elem_of_nil in Hin|].
    rewrite schedule_outputs in Hin. simpl outputs in Hin. rewrite Ho in Hin. simpl app in Hin. destruct (stopped _); [by apply elem_of_nil in Hin|].
    apply elem_of_cons in Hin as [[= -> _]|Hin]; [|by apply list_elem_of_singleton in Hin]. rewrite currentStatus_auth. simpl preOpenFailures.
    destruct (openedThisAttempt x); [specialize (Hz eq_refl)|]; lia.
  - eapply (open_reports past b (c <| pending := pending c ∖ {[t]} |>)); [right; by eexists|done|done|exact Hin].
Qed.

(** C39. "auth-expired" means what it says. On a connection that was started once and not
    closed, it is reported only when at least three attempts in a row, the latest
    included, ended without ever opening; and as soon as three have, nothing but
    "auth-expired" is reported until an attempt opens, when "open" is. *)
Theorem auth_expired_exact b es e st n :
  Forall (fun e => is_start e = false /\ e <> CloseCall) (es ++ [e]) -> possible clientId new_conn (Start b :: es ++ [e]) ->
  OnStatus st n ∈ outputs (conn_run clientId (Start b :: es ++ [e])) ->
  st = Opened \/
  ((st = AuthExpired -> 3 <= streak (e :: rev (Start b :: es))) /\ (st <> AuthExpired -> streak (rev (Start b :: es)) < 3)).
Proof.
  intros Hs [_ Hv] Hin. apply Forall_app in Hs as [Hs He]. inversion_clear He as [|? ? [He1 He2] _].
  assert (Hv' : possible clientId (step new_conn (Start b)) es /\ enabled e (foldl step (step new_conn (Start b)) es)).
  { revert Hv. generalize (step new_conn (Start b)). clear. induction es as [|e' es IH]; intros c; simpl; [tauto|]. intros [He Hv].
    destruct (IH _ Hv). tauto. }
  destruct Hv' as [Hv1 Hv2]. pose proof (run_tracked es [Start b] _ (started_tracked b) Hs Hv1) as Ht.
  unfold conn_run in Hin. cbn [foldl] in Hin. rewrite foldl_app in Hin. cbn [foldl] in Hin. unfold conn_step at 1 in Hin.
  simpl rev. eapply event_reports; [|exact He1|exact He2| | |exact Hin]; [|by destruct e|done].
  destruct Ht as [T1 T2 T3]. split; [|done|done].
  destruct T1 as [(old & x & Hl & Hx & Hz)|(t & [])]; [left; exists old, x; split; [by eapply live_same|done]|right; exists t; by split].
Qed.
End Facts.

Lemma capped_bounds n : 0 <= n -> BACKOFF_MIN_MS <= capped_delay n <= BACKOFF_MAX_MS.
Proof.
  intros Hn. unfold capped_delay, BACKOFF_MIN_MS, BACKOFF_MAX_MS. pose proof (Z.pow_pos_nonneg 2 n ltac:(lia) Hn). lia.
Qed.

(** A delay lies in the upper half of its step: between half a second and thirty. *)
Lemma backoff_bounds n random :
  0 <= n -> (0 <= random < 1)%Q ->
  (inject_Z (capped_delay n) / 2 <= backoffDelay n random < inject_Z (capped_delay n))%Q /\
  BACKOFF_MIN_MS <= capped_delay n <= BACKOFF_MAX_MS.
Proof.
  intros Hn [Hr1 Hr2]. pose proof (capped_bounds n Hn) as Hc. split; [|done]. unfold backoffDelay. cbv zeta.
  assert (Hq : (0 < inject_Z (capped_delay n))%Q) by (change 0%Q with (inject_Z 0); rewrite <-Zlt_Qlt; unfold BACKOFF_MIN_MS in Hc; lia).
  set (q := inject_Z (capped_delay n)) in *. clearbody q. assert (Hd : (q / 2 == q * (1 # 2))%Q) by field. rewrite Hd. split; nra.
Qed.

(** ** Runs *)

Ltac possible_run := repeat (split; [first [reflexivity | exact I | (apply bool_decide_unpack; reflexivity) | (eexists; split; [reflexivity|done])]|]); exact I.

(** A drop, a failed redial and a socket that opens. *)
Definition bumpy : list NetEvent := [Start true; SocketOpened 0; SocketClosing 0; SocketClosed 0; Fire 0 false; Fire 1 true].

Lemma bumpy_started clientId : started_once clientId bumpy.
Proof.
  exists true, [SocketOpened 0; SocketClosing 0; SocketClosed 0; Fire 0 false; Fire 1 true].
  split; [reflexivity|]. split; [by repeat constructor|]. split; [reflexivity|]. split; [by right|]. possible_run.
Qed.

(** [one_socket_or_one_timer] on that run. *)
Example one_socket_or_one_timer_witness :
  (length (js_filter alive (sockets (conn_run "c" bumpy))) + size (pending (conn_run "c" bumpy)) <= 1)%nat.
Proof. apply one_socket_or_one_timer, bumpy_started. Defined.

(** [desktop_reconnects] on that run: the new socket opens. *)
Example desktop_reconnects_witness :
  isOpen (conn_run "c" bumpy) = true \/
  exists more, (length more <= 3)%nat /\ possible "c" (conn_run "c" bumpy) more /\ greeted "c" (foldl (conn_step "c") (conn_run "c" bumpy) more).
Proof. apply desktop_reconnects; [apply bumpy_started|reflexivity]. Defined.

(** [close_is_final] on that run, when the socket that was shut ends. *)
Example close_is_final_witness :
  outputs (foldl (conn_step "c") (conn_run "c" bumpy) [CloseCall]) = [Shut 1; OnStatus Closed 2] /\
  Forall (fun o => exists n, o = OnStatus Closed n) (outputs (conn_step "c" (foldl (conn_step "c") (conn_step "c" (conn_run "c" bumpy) CloseCall) []) (SocketClosed 1))).
Proof.
  split; [reflexivity|]. apply (close_is_final "c" bumpy [] (bumpy_started "c") (Forall_nil_2 _) I (SocketClosed 1) ""); [reflexivity|].
  eexists. split; [reflexivity|done].
Defined.

(** [auth_expired_exact]: the third refusal in a row. *)
Example auth_expired_exact_witness :
  OnStatus AuthExpired 3 ∈ outputs (conn_run "c" (Start true :: [SocketClosed 0; Fire 0 false] ++ [Fire 1 false])) /\
  3 <= streak (Fire 1 false :: rev (Start true :: [SocketClosed 0; Fire 0 false])).
Proof.
  assert (Hin : OnStatus AuthExpired 3 ∈ outputs (conn_run "c" (Start true :: [SocketClosed 0; Fire 0 false] ++ [Fire 1 false]))) by (vm_compute; right; left).
  split; [exact Hin|]. destruct (auth_expired_exact "c" true [SocketClosed 0; Fire 0 false] (Fire 1 false) AuthExpired 3) as [E|[E _]].
  - by repeat constructor.
  - possible_run.
  - exact Hin.
  - discriminate E.
  - by apply E.
Defined.

(** Started twice, a connection keeps two sockets, and [close] leaves the first open. *)
Example started_twice :
  let c := foldl (conn_step "c") new_conn [Start true; Start true; SocketOpened 0; SocketOpened 1; CloseCall] in
  map readyState (sockets c) = [OPEN; CLOSING] /\ map listening (sockets c) = [true; false].
Proof. split; reflexivity. Qed.
