(* ===== verification/DesktopChatScreen.v ===== *)
(** * The desktop client: the chat screen (src/desktop/src/ChatScreen.tsx)

    The screen owns one connection and one transcript: it feeds the frames that arrive
    to the reducer, sends what the user types or decides, and shows as said or decided
    only what left. A callback sees the last state dispatched; the room modes handed to
    the shell and the frames that left are logs.

    Theorem: the transcript's own lines and decisions are the frames that were sent. *)

From S2P Require Import Prelude JsMap Json JsText DesktopFrames DesktopChat DesktopConnection.

Local Open Scope string_scope.
Local Open Scope list_scope.
Local Open Scope Z_scope.

Section Screen.
Context (parse_json : string -> option json) (clientId sessionName : string).

Record ChatScreen := { conn : Conn; chat : ChatState; status : ConnStatus; draft : string; modes : list RoomMode; sent : list string }.
#[export] Instance eta_ChatScreen : Eta ChatScreen :=
  fun s => Build_ChatScreen (conn s) (chat s) (status s) (draft s) (modes s) (sent s).
Implicit Types s : ChatScreen.

Definition dispatch (a : ChatAction) s : ChatScreen := s <| chat := chatReducer (chat s) a |>.

Definition handle_message (raw : string) s : ChatScreen :=
  let s := match peekRoomMode parse_json raw with Some m => s <| modes := modes s ++ [m] |> | None => s end in
  match parseServerEvent parse_json raw with Some e => dispatch (Event e) s | None => s end.
Definition handle_status (st : ConnStatus) s : ChatScreen :=
  let s := s <| status := st |> in
  match st with Reconnecting | Connecting | AuthExpired => dispatch (Event (HostStatus false)) s | _ => s end.

(** The handlers the screen gives its connection, and the frames that left. *)
Definition handle s (o : Output) : ChatScreen :=
  match o with
  | OnMessage raw => handle_message raw s
  | OnStatus st _ => handle_status st s
  | Frame _ payload => s <| sent := sent s ++ [payload] |>
  | _ => s
  end.
Definition with_conn (f : Conn -> Conn) s : ChatScreen :=
  let c := f ((conn s) <| outputs := [] |>) in foldl handle (s <| conn := c |>) (outputs c).

Definition unsent_line : string := "연결이 끊겨 전송하지 못했습니다. 재접속을 기다리는 중…".
Definition unanswered_line : string := "연결이 끊겨 승인 응답을 보내지 못했습니다.".

Definition sendDraft s : ChatScreen :=
  let text := trim (draft s) in
  if String.eqb text "" then s
  else
    let payload := buildChat text (chat_session (chat s)) in
    let ok := (send payload (conn s)).2 in
    let s := with_conn (fun c => (send payload c).1) s in
    if negb ok then dispatch (SystemLine unsent_line) s
    else (dispatch (SendChat sessionName text) s) <| draft := "" |>.

Definition decidePermission (requestId : json) (allow : bool) s : ChatScreen :=
  let payload := buildPermissionResponse requestId allow in
  let ok := (send payload (conn s)).2 in
  let s := with_conn (fun c => (send payload c).1) s in
  if negb ok then dispatch (SystemLine unanswered_line) s else dispatch (Decide requestId allow) s.

(** Mounting, the connection's own events, typing, Enter, and the two buttons of a card. *)
Inductive ScreenEvent :=
  | ConnEvent (e : NetEvent)
  | TypeDraft (text : string)
  | SendDraft
  | DecideCard (requestId : json) (allow : bool).
Definition screen_step s (e : ScreenEvent) : ChatScreen :=
  match e with
  | ConnEvent (Send _) => s
  | ConnEvent e => with_conn (conn_event clientId e) s
  | TypeDraft text => s <| draft := text |>
  | SendDraft => sendDraft s
  | DecideCard requestId allow => decidePermission requestId allow s
  end.
Definition new_screen : ChatScreen :=
  {| conn := new_conn; chat := initialChatState; status := Connecting; draft := ""; modes := []; sent := [] |}.
Definition screen_run (es : list ScreenEvent) : ChatScreen := foldl screen_step new_screen es.

(** ** What was sent *)

(** A frame that left, as the screen meant it. *)
Inductive sent_item := Joined | Said (text : string) (session : json) | Answered (requestId : json) (allow : bool).
Definition render (i : sent_item) : string :=
  match i with
  | Joined => relay_join clientId
  | Said text session => buildChat text session
  | Answered requestId allow => buildPermissionResponse requestId allow
  end.
Definition said (i : sent_item) : option json := match i with Said text _ => Some (JStr text) | _ => None end.
Definition my_line (m : ChatMessage) : option json := if decide (kind m = Me) then Some (text m) else None.

(** A decided card was answered that way. *)
Definition answered_by (items : list sent_item) (c : PermissionCard) : Prop :=
  forall allow, decision c = decided allow -> exists r, strict_eq (Some (card_request c)) (Some r) = true /\ Answered r allow ∈ items.

Record honest s (items : list sent_item) : Prop := {
  hn_sent : sent s = map render items;
  hn_mine : omap my_line (messages (chat s)) = omap said items;
  hn_cards : Forall (answered_by items) (omap permission (messages (chat s)));
  hn_fits : fits (chat s) }.

Implicit Types ch : ChatState.

Lemma evolves_mine l l' : Forall2 evolves l l' -> omap my_line l' = omap my_line l.
Proof.
  induction 1 as [|m m' l l' He _ IH]; [done|]. csimpl. assert (my_line m' = my_line m) as -> by (by destruct He). by rewrite IH.
Qed.

Lemma push_mine k who what act card ch :
  omap my_line (messages (push k who what act card ch)) = omap my_line (messages ch) ++ (if decide (k = Me) then [what] else []).
Proof. etrans; [apply omap_app|]. f_equal. csimpl. unfold my_line. simpl. by destruct (decide (k = Me)). Qed.

Lemma push_other k who what act card ch :
  k <> Me -> omap my_line (messages (push k who what act card ch)) = omap my_line (messages ch).
Proof. intros Hk. by rewrite push_mine, decide_False, app_nil_r. Qed.

Lemma flush_mine keep ch : omap my_line (messages (flushStreaming keep ch)) = omap my_line (messages ch).
Proof. unfold flushStreaming. cbv zeta. destruct (String.eqb _ ""); [done|]. by apply (push_other Claude). Qed.

(** Nothing the server sends is shown as mine. *)
Lemma event_mine e ch : omap my_line (messages (applyEvent e ch)) = omap my_line (messages ch).
Proof.
  destruct e; cbn [applyEvent]; unfold finalizeStreaming, push_text; rewrite ?push_other by done; rewrite ?flush_mine; try done.
  - by rewrite (proj1 (learn_messages _ _)).
  - by rewrite (proj1 (learn_messages _ _)).
  - apply evolves_mine, update_last_evolves.
Qed.

Lemma answered_more items more c : answered_by items c -> answered_by (items ++ more) c.
Proof. intros Ha allow Hd. destruct (Ha allow Hd) as (r & E & Hr). exists r. split; [done|]. apply elem_of_app. by left. Qed.

Lemma pending_answered items c : decision c = Pending -> answered_by items c.
Proof. intros E allow Hd. rewrite E in Hd. by destruct allow. Qed.

(** An action keeps the cards honest when it is no decision, or one that was sent. *)
Lemma action_cards items ch a :
  fits ch -> match a with Decide r allow => Answered r allow ∈ items | _ => True end ->
  Forall (answered_by items) (omap permission (messages ch)) ->
  Forall (answered_by items) (omap permission (messages (chatReducer ch a))).
Proof.
  intros Hf Ha Hc. destruct (reducer_payloads ch a Hf) as [E _]. unfold cards in E. rewrite E. apply Forall_app. split.
  - apply Forall_map. eapply Forall_impl; [exact Hc|]. intros c Hb. unfold resolve. destruct (decision c) eqn:Hd; [|done..].
    destruct a as [| | |r allow]; [by apply pending_answered..|]. intros allow' Hd'. cbn [decision verdict] in Hd'. 
    destruct (strict_eq (Some (card_request c)) (Some r)) eqn:Eq; [|by destruct allow'].
    exists r. split; [done|]. by destruct allow, allow'.
  - destruct a as [[]| | |]; try constructor; [by apply pending_answered|done].
Qed.

Lemma dispatch_honest a s items :
  honest s items ->
  match a with Decide r allow => Answered r allow ∈ items | SendChat _ _ => False | _ => True end ->
  honest (dispatch a s) items.
Proof.
  intros [H1 H2 H3 H4] Ha. split; [done| |apply action_cards; [done|by destruct a|done]|by apply reducer_fits].
  simpl. rewrite <-H2. destruct a as [e|who t|l|r allow]; [apply event_mine|done|by apply (push_other System)|apply evolves_mine, decide_evolve].
Qed.

Lemma handle_honest s items o :
  honest s items -> match o with Frame _ payload => payload = relay_join clientId | _ => True end ->
  exists more, honest (handle s o) (items ++ more).
Proof.
  intros Hs Ho. destruct o as [st n|raw|k|k payload|k|t n]; simpl; try (by exists []; rewrite app_nil_r).
  - exists []. rewrite app_nil_r. assert (Hs' : honest (s <| status := st |>) items) by (by destruct Hs).
    destruct st; simpl; try done; by apply dispatch_honest.
  - exists []. rewrite app_nil_r. unfold handle_message. cbv zeta.
    assert (Hs' : honest (match peekRoomMode parse_json raw with Some m => s <| modes := modes s ++ [m] |> | None => s end) items)
      by (destruct (peekRoomMode parse_json raw); by destruct Hs).
    destruct (parseServerEvent parse_json raw); [by apply dispatch_honest|done].
  - exists [Joined]. subst payload. destruct Hs as [H1 H2 H3 H4]. split; simpl; [by rewrite map_app, H1| | |done].
    + by rewrite omap_app, app_nil_r.
    + eapply Forall_impl; [exact H3|]. intros c. apply answered_more.
Qed.

(** On its own the connection sends nothing but its greeting. *)
Definition greeting (o : Output) : Prop := match o with Frame _ payload => payload = relay_join clientId | _ => True end.

Lemma schedule_greets c : Forall greeting (outputs c) -> Forall greeting (outputs (scheduleReconnect c)).
Proof.
  intros Ho. rewrite schedule_outputs. apply Forall_app. split; [done|]. destruct (stopped c); [done|]. by repeat constructor.
Qed.

Lemma open_greets b c : Forall greeting (outputs c) -> Forall greeting (outputs (open_conn b c)).
Proof.
  intros Ho. unfold open_conn. destruct (stopped c); [done|]. cbv zeta.
  assert (Ho' : Forall greeting (outputs (emit (OnStatus (currentStatus c) (attempt c)) c))) by (apply Forall_app; split; [done|by repeat constructor]).
  destruct b; [|by apply schedule_greets]. apply Forall_app. split; [exact Ho'|by repeat constructor].
Qed.

Lemma event_greets e c :
  match e with Send _ => False | _ => True end -> Forall greeting (outputs c) -> Forall greeting (outputs (conn_event clientId e c)).
Proof.
  intros He Ho. destruct e as [b|p| |k|k data|k|k|t b]; [|done|..]; cbn [conn_event].
  - by apply open_greets.
  - destruct c as [w tm a sp f ss pn m o]. destruct w, tm; simpl; rewrite ?Forall_app; split_and!; try done; by repeat constructor.
  - destruct (sockets c !! k) as [x|]; [|done]. cbv zeta. destruct (listening x); [|done].
    simpl. rewrite !Forall_app. split_and!; [done|by repeat constructor..].
  - destruct (sockets c !! k) as [x|]; [|done]. destruct (listening x), data; try done. apply Forall_app. split; [done|by repeat constructor].
  - done.
  - destruct (sockets c !! k) as [x|]; [|done]. cbv zeta. destruct (listening x); [|done]. unfold onclose. destruct (stopped _); [done|].
    by apply schedule_greets.
  - by apply open_greets.
Qed.

Lemma handles_honest os s items :
  honest s items -> Forall greeting os -> exists more, honest (foldl handle s os) (items ++ more).
Proof.
  intros Hs Hg. revert s items Hs. induction Hg as [|o os Ho Hg IH]; intros s items Hs; [by exists []; rewrite app_nil_r|].
  destruct (handle_honest s items o Hs Ho) as [more1 H1]. destruct (IH _ _ H1) as [more2 H2]. exists (more1 ++ more2). by rewrite app_assoc.
Qed.

(** A frame the user sends leaves, or nothing does. *)
Lemma send_outputs payload c :
  outputs c = [] -> outputs (send payload c).1 = if (send payload c).2 then match ws c with Some k => [Frame k payload] | None => [] end else [].
Proof. intros Ho. unfold send. destruct (ws c) as [k|]; [|done]. destruct (isOpen c); simpl; by rewrite Ho. Qed.

Lemma send_ok payload c : (send payload c).2 = true -> exists k, ws c = Some k.
Proof. unfold send. destruct (ws c) as [k|]; [by exists k|done]. Qed.

Definition sends payload s : ChatScreen := with_conn (fun c => (send payload c).1) s.

Lemma sends_spec payload s :
  sends payload s = (s <| conn := (send payload ((conn s) <| outputs := [] |>)).1 |>)
    <| sent := sent s ++ (if (send payload (conn s)).2 then [payload] else []) |>.
Proof.
  unfold sends, with_conn. cbv zeta. rewrite send_outputs by done.
  assert ((send payload ((conn s) <| outputs := [] |>)).2 = (send payload (conn s)).2) as ->.
  { unfold send. change (ws ((conn s) <| outputs := [] |>)) with (ws (conn s)). destruct (ws (conn s)) as [k|]; [|done].
    change (isOpen ((conn s) <| outputs := [] |>)) with (isOpen (conn s)). by destruct (isOpen (conn s)). }
  destruct (send payload (conn s)).2 eqn:E; [|by destruct s; simpl; rewrite app_nil_r].
  destruct (send_ok _ _ E) as [k Hk]. change (ws ((conn s) <| outputs := [] |>)) with (ws (conn s)). by rewrite Hk.
Qed.

Lemma sends_honest s items i :
  honest s items -> said i = None -> (send (render i) (conn s)).2 = true -> honest (sends (render i) s) (items ++ [i]).
Proof.
  intros [H1 H2 H3 H4] Hi Hok. rewrite sends_spec, Hok. split; simpl; [by rewrite map_app, H1| | |done].
  - rewrite omap_app. csimpl. by rewrite Hi, app_nil_r.
  - eapply Forall_impl; [exact H3|]. intros c. apply answered_more.
Qed.

Lemma unsent_honest s items payload : honest s items -> (send payload (conn s)).2 = false -> honest (sends payload s) items.
Proof. intros [H1 H2 H3 H4] Hok. rewrite sends_spec, Hok. split; simpl; [by rewrite app_nil_r|done..]. Qed.

Lemma step_honest e s items : honest s items -> exists more, honest (screen_step s e) (items ++ more).
Proof.
  intros Hs. assert (Hsame : exists more, honest s (items ++ more)) by (exists []; by rewrite app_nil_r).
  destruct e as [e|t| |r allow].
  - assert (He : match e with Send _ => False | _ => True end -> exists more, honest (with_conn (conn_event clientId e) s) (items ++ more)).
    { intros He. apply handles_honest; [by destruct Hs|]. by apply event_greets; [|constructor]. }
    destruct e; by apply He || exact Hsame.
  - exists []. rewrite app_nil_r. by destruct Hs.
  - unfold screen_step, sendDraft. cbv zeta. destruct (String.eqb _ ""); [exact Hsame|].
    set (txt := trim (draft s)). set (sid := chat_session (chat s)). fold (sends (buildChat txt sid) s).
    destruct (send (buildChat txt sid) (conn s)).2 eqn:Hok; simpl negb; cbn match.
    + exists [Said txt sid]. rewrite sends_spec, Hok. destruct Hs as [H1 H2 H3 H4]. split; simpl.
      * by rewrite map_app, H1.
      * etrans; [apply (push_mine Me)|]. rewrite H2, omap_app. done.
      * apply (action_cards _ _ (SendChat sessionName txt)); [done|done|]. eapply Forall_impl; [exact H3|]. intros c. apply answered_more.
      * by apply (reducer_fits _ (SendChat sessionName txt)).
    + exists []. rewrite app_nil_r. apply dispatch_honest; [by apply unsent_honest|done].
  - unfold screen_step, decidePermission. cbv zeta. fold (sends (buildPermissionResponse r allow) s).
    destruct (send (buildPermissionResponse r allow) (conn s)).2 eqn:Hok; simpl negb; cbn match.
    + exists [Answered r allow]. apply dispatch_honest; [by apply (sends_honest s items (Answered r allow))|].
      apply elem_of_app. right. left.
    + exists []. rewrite app_nil_r. apply dispatch_honest; [by apply unsent_honest|done].
Qed.

(** The screen shows as mine what left and nothing else. Whatever arrives, fails or
    is typed, the frames that left are the connection's greetings, chat frames and
    answers; the transcript's own lines are the texts of the chat frames, in order; and
    an approval card shows a decision only if an answer with that decision, for its
    request, was sent. *)
Theorem screen_says_what_it_sent es :
  let s := screen_run es in
  exists items, sent s = map render items /\ omap my_line (messages (chat s)) = omap said items /\
    Forall (answered_by items) (omap permission (messages (chat s))).
Proof.
  enough (H : exists items, honest (screen_run es) items) by (destruct H as (items & [H1 H2 H3 _]); by exists items).
  unfold screen_run. assert (H0 : exists items, honest new_screen items) by (exists []; by repeat split; constructor).
  revert H0. generalize new_screen. induction es as [|e es IH]; intros s [items Hs]; [by exists items|].
  apply IH. destruct (step_honest e s items Hs) as [more Hm]. by eexists.
Qed.
End Screen.

(** A line typed while the socket is down stays in the draft; an answer goes out once it is up. *)
Example down_then_up :
  let parse raw := if String.eqb raw "ask" then Some (JObj [("type", JStr "permission_request"); ("requestId", JStr "r1"); ("toolName", JStr "Bash")]) else None in
  let s := screen_run parse "c" "me" [ConnEvent (Start true); TypeDraft " hi "; SendDraft] in
  let s' := foldl (screen_step parse "c" "me") s [ConnEvent (SocketOpened 0); SendDraft; ConnEvent (SocketData 0 (Some "ask")); DecideCard (JStr "r1") true] in
  draft s = " hi " /\ map kind (messages (chat s)) = [System] /\
  draft s' = "" /\ map kind (messages (chat s')) = [System; Me; Permission] /\
  map decision (omap permission (messages (chat s'))) = [Allowed] /\
  sent s' = [relay_join "c"; buildChat "hi" (JStr ""); buildPermissionResponse (JStr "r1") true].
Proof. repeat split. Qed.
