(* ===== verification/SharedControlFrames.v ===== *)
(** * Frames of the shared control connection
    (src/shared/remote-runtime-request-frames.ts, e2ee-crypto.ts,
    runtime-rpc-envelope.ts, remote-runtime-shared-control-protocol.ts)

    What the connection reads and writes: the NaCl box format of a text frame,
    the handshake replies, the RPC envelope, the subscription ids and the
    cleanup request of a subscription. The box, [JSON.parse], [TextDecoder], Node's base64
    decoder and the Zod envelope schema are parameters, gathered in a class.

    Theorems: a frame decrypts exactly when it carries a nonce and a box made
    under the key, and a frame made by the other end decrypts to its text. *)

From S2P Require Import Prelude JsMap Json JsText Base64 E2eeContract.

Local Open Scope string_scope.
Local Open Scope list_scope.
Local Open Scope Z_scope.

(** ** Errors *)

(** An [Error]; a [RemoteRuntimeClientError] also has a code. *)
Record Error := { code : option string; message : string }.
#[export] Instance Error_eq_dec : EqDecision Error.
Proof. solve_decision. Defined.

Definition RemoteRuntimeClientError (c m : string) : Error := {| code := Some c; message := m |}.

Definition closed_message : string := "Remote Orca runtime closed the connection.".
Definition remoteRuntimeUnavailableError (m : string) : Error :=
  RemoteRuntimeClientError "remote_runtime_unavailable" m.
Definition remoteRuntimeTimeoutError : Error :=
  RemoteRuntimeClientError "runtime_timeout"
    "Timed out waiting for the remote Orca runtime to respond.".
Definition invalidRemoteRuntimeResponseError (m : string) : Error :=
  RemoteRuntimeClientError "invalid_runtime_response" m.

(** An [Error] that is not a [RemoteRuntimeClientError] is wrapped in one. *)
Definition toRemoteRuntimeClientError (e : Error) : Error :=
  match code e with
  | Some _ => e
  | None => RemoteRuntimeClientError "runtime_error" (message e)
  end.

(** ** The RPC envelope *)

(** [result] is [unknown] and may be absent. *)
Inductive RuntimeRpcResponse :=
  | RpcSuccess (id : string) (value : option json)
  | RpcFailure (id : string) (c m : string).

Definition response_id (r : RuntimeRpcResponse) : string :=
  match r with RpcSuccess id _ | RpcFailure id _ _ => id end.
Definition response_ok (r : RuntimeRpcResponse) : bool :=
  match r with RpcSuccess _ _ => true | RpcFailure _ _ _ => false end.
Definition response_result (r : RuntimeRpcResponse) : option json :=
  match r with RpcSuccess _ v => v | RpcFailure _ _ _ => None end.

(** What [RuntimeRpcEnvelopeSchema.safeParse] yields. *)
Inductive RuntimeRpcEnvelope :=
  | Response (r : RuntimeRpcResponse)
  | KeepaliveEnvelope.

Definition isKeepaliveFrame (frame : json) : bool :=
  is_object frame &&
  match prop "_keepalive" frame with Some (JBool true) => true | _ => false end.

(** ** The environment: code outside the repository *)

Class RuntimeEnv := {
  JSON_parse : string -> option json;
  RuntimeRpcEnvelopeSchema_safeParse : json -> option RuntimeRpcEnvelope;
  (** [nacl.box.after(m, nonce, k)], [nacl.box.open.after(c, nonce, k)] *)
  box_after : list Z -> list Z -> list Z -> list Z;
  box_open_after : list Z -> list Z -> list Z -> option (list Z);
  (** [Buffer.from(s, 'base64')], [new TextDecoder().decode(bytes)] *)
  buffer_from_base64 : string -> list Z;
  textDecode : list Z -> string;
  (** the successive values of [randomUUID()] *)
  randomUUID : nat -> string }.

Section Frames.
Context `{RuntimeEnv}.

(** ** Encryption *)

(** [nacl.box.nonceLength], [nacl.box.overheadLength] *)
Definition nonceLength : nat := 24.
Definition overheadLength : nat := 16.

(** [nonce] is what [nacl.randomBytes] draws. *)
Definition encryptBytes (nonce plaintext sharedKey : list Z) : list Z :=
  nonce ++ box_after plaintext nonce sharedKey.
Definition encrypt (nonce : list Z) (plaintext : string) (sharedKey : list Z) : string :=
  btoa (encryptBytes nonce (utf8 plaintext) sharedKey).

Definition decryptBytes (bundle sharedKey : list Z) : option (list Z) :=
  if (length bundle <? nonceLength + overheadLength)%nat then None
  else box_open_after (drop nonceLength bundle) (take nonceLength bundle) sharedKey.
Definition decrypt (encrypted : string) (sharedKey : list Z) : option string :=
  textDecode <$> decryptBytes (buffer_from_base64 encrypted) sharedKey.

(** ** Handshake replies: [None] is acceptance *)

Definition parseReadyFrame (frame : string) : option Error :=
  match JSON_parse frame with
  | None => Some (invalidRemoteRuntimeResponseError
                    "Remote Orca runtime returned an invalid E2EE handshake frame.")
  | Some ready =>
      if is_object ready && strict_eq (prop "type" ready) (Some (JStr "e2ee_ready")) then None
      else Some (invalidRemoteRuntimeResponseError
                   "Remote Orca runtime returned an unexpected E2EE handshake frame.")
  end.

(** Reading [.type] of [null] throws. *)
Definition parseAuthenticatedFrame (plaintext : string) : result (option Error) :=
  match JSON_parse plaintext with
  | None => Ok (Some (invalidRemoteRuntimeResponseError
                        "Remote Orca runtime returned an invalid E2EE auth frame."))
  | Some JNull => Throw "Cannot read properties of null (reading 'type')"
  | Some authenticated =>
      if strict_eq (prop "type" authenticated) (Some (JStr "e2ee_authenticated")) then Ok None
      else
        let errorCode := prop "error" authenticated ≫= prop "code" in
        let c := if is_object authenticated && strict_eq errorCode (Some (JStr "unauthorized"))
                 then "unauthorized" else "invalid_runtime_response" in
        Ok (Some (RemoteRuntimeClientError c "Remote Orca runtime rejected the pairing token."))
  end.

Inductive ParsedRemoteRuntimeFrame :=
  | KeepaliveFrame
  | ResponseFrame (response : RuntimeRpcResponse)
  | ErrorFrame (error : Error).

Definition invalid_response_frame : ParsedRemoteRuntimeFrame :=
  ErrorFrame (invalidRemoteRuntimeResponseError
                "Remote Orca runtime returned an invalid response frame.").

Definition parseRemoteRuntimeRpcFrame (plaintext : string) : ParsedRemoteRuntimeFrame :=
  match JSON_parse plaintext with
  | None => invalid_response_frame
  | Some raw =>
      if isKeepaliveFrame raw then KeepaliveFrame
      else match RuntimeRpcEnvelopeSchema_safeParse raw with
           | Some (Response r) => ResponseFrame r
           | _ => invalid_response_frame
           end
  end.

(** ** [remote-runtime-shared-control-protocol.ts] *)

Inductive SharedControlConnectionState := Closed | AwaitingReady | AwaitingAuthenticated | Ready.
#[export] Instance SharedControlConnectionState_eq_dec : EqDecision SharedControlConnectionState.
Proof. solve_decision. Defined.

Inductive ParsedSharedControlFrame :=
  | AuthText (plaintext : string)
  | RpcKeepalive
  | RpcResponse (response : RuntimeRpcResponse)
  | FrameError (error : Error).

Definition parseSharedControlFrame (frame : string) (sharedKey : option (list Z))
    (state : SharedControlConnectionState) : ParsedSharedControlFrame :=
  match sharedKey with
  | None => FrameError (invalidRemoteRuntimeResponseError
                          "Remote Orca runtime returned a frame before E2EE.")
  | Some key =>
      match decrypt frame key with
      | None => FrameError (invalidRemoteRuntimeResponseError
                              "Remote Orca runtime returned an undecryptable frame.")
      | Some plaintext =>
          if bool_decide (state = AwaitingAuthenticated) then AuthText plaintext
          else match parseRemoteRuntimeRpcFrame plaintext with
               | ErrorFrame e => FrameError e
               | KeepaliveFrame => RpcKeepalive
               | ResponseFrame r => RpcResponse r
               end
      end
  end.

Definition getSubscriptionId (value : option json) : option string :=
  match value with
  | Some v =>
      match as_string (prop "subscriptionId" v) with
      | Some s => if String.eqb s "" then None else Some s
      | None => None
      end
  | None => None
  end.

Definition isEndResult (value : option json) : bool :=
  match value with
  | Some v => is_object v && strict_eq (prop "type" v) (Some (JStr "end"))
  | None => false
  end.

Definition cleanupBySubscriptionId (method subscriptionId : string) : string * option json :=
  (method, Some (JObj [("subscriptionId", JStr subscriptionId)])).

(** The unsubscribe method of a subscription cleaned up by the server's id. *)
Definition unsubscribe_method (method : string) : option string :=
  if String.eqb method "accounts.subscribe" then Some "accounts.unsubscribe"
  else if String.eqb method "notifications.subscribe" then Some "notifications.unsubscribe"
  else if String.eqb method "runtime.clientEvents.subscribe" then Some "runtime.clientEvents.unsubscribe"
  else if String.eqb method "files.watch" then Some "files.unwatch"
  else None.

Definition getCleanupRequest (requestId method : string) (params : option json)
    (remoteSubscriptionId : option string) : option (string * option json) :=
  match unsubscribe_method method, remoteSubscriptionId with
  | Some unsubscribe, Some id => Some (cleanupBySubscriptionId unsubscribe id)
  | _, _ =>
      if String.eqb method "session.tabs.subscribe" then
        Some ("session.tabs.unsubscribe",
              match params with
              | Some v => if is_object v
                          then Some (obj_json (<["subscriptionId" := Some (JStr requestId)]> (spread v)))
                          else params
              | None => params
              end)
      else if String.eqb method "session.tabs.subscribeAll" then
        Some ("session.tabs.unsubscribeAll", Some (JObj [("subscriptionId", JStr requestId)]))
      else None
  end.

Definition cleanupNeedsRemoteSubscriptionId (method : string) : bool :=
  String.eqb method "accounts.subscribe" || String.eqb method "notifications.subscribe" ||
  String.eqb method "runtime.clientEvents.subscribe" || String.eqb method "files.watch".

(** [reason] is [reason.toString()]. *)
Definition formatSharedControlCloseMessage (closeCode : Z) (reason : string) : string :=
  let reasonText := trim reason in
  let abnormal := (closeCode =? 1005) || (closeCode =? 1006) in
  if negb abnormal && negb (String.eqb reasonText "") then
    "Remote Orca runtime closed the connection (" +:+ int_string closeCode +:+ ": " +:+ reasonText +:+ ")."
  else if negb abnormal then
    "Remote Orca runtime closed the connection (" +:+ int_string closeCode +:+ ")."
  else closed_message.

(** ** What is sent *)

(** The objects passed to [sendEncrypted]. *)
Inductive Payload :=
  | AuthPayload (deviceToken : string)
  | CallPayload (id deviceToken method : string) (params : option json).

Definition payload_json (p : Payload) : json :=
  match p with
  | AuthPayload deviceToken => JObj [("type", JStr "e2ee_auth"); ("deviceToken", JStr deviceToken)]
  | CallPayload id deviceToken method params =>
      JObj (defined [("id", Some (JStr id)); ("deviceToken", Some (JStr deviceToken));
                     ("method", Some (JStr method)); ("params", params)])
  end.

(** The text [sendEncrypted] gives to the socket. *)
Definition payload_text (nonce : list Z) (p : Payload) (sharedKey : list Z) : string :=
  encrypt nonce (JSON_stringify (payload_json p)) sharedKey.

(** ** What the box format promises *)

(** The box is authenticated: what opens under a key was boxed under it. *)
Hypothesis box_exact : forall c nonce k m, box_open_after c nonce k = Some m <-> c = box_after m nonce k.
Hypothesis box_length : forall m nonce k, length (box_after m nonce k) = (length m + overheadLength)%nat.
Hypothesis box_bytes : forall m nonce k, bytes_ok m -> bytes_ok (box_after m nonce k).
Hypothesis base64_bytes : forall bs, bytes_ok bs -> buffer_from_base64 (btoa bs) = bs.

(** A frame decrypts exactly when it carries a nonce and a box under the key. *)
Theorem decrypt_exact frame key t :
  decrypt frame key = Some t <->
  exists nonce m, length nonce = nonceLength /\ textDecode m = t /\
    buffer_from_base64 frame = encryptBytes nonce m key.
Proof.
  unfold decrypt, decryptBytes, encryptBytes. set (b := buffer_from_base64 frame). split.
  - destruct (Nat.ltb_spec (length b) (nonceLength + overheadLength)) as [|Hl]; [done|].
    destruct (box_open_after _ _ key) as [m|] eqn:E; [|done]. intros [= <-].
    apply box_exact in E. exists (take nonceLength b), m. split; [|split; [done|]].
    + rewrite length_take. unfold nonceLength, overheadLength in *. lia.
    + by rewrite <-E, take_drop.
  - intros (nonce & m & Hn & <- & ->). rewrite length_app, box_length, Hn.
    destruct (Nat.ltb_spec (nonceLength + (length m + overheadLength)) (nonceLength + overheadLength)); [lia|].
    rewrite <-Hn, drop_app_length, take_app_length, (proj2 (box_exact _ _ _ m) eq_refl). done.
Qed.

(** What one end encrypts the other end reads. *)
Theorem decrypt_encrypt nonce s key :
  length nonce = nonceLength -> bytes_ok nonce -> textDecode (utf8 s) = s ->
  decrypt (encrypt nonce s key) key = Some s.
Proof.
  intros Hn Hb Ht. apply decrypt_exact. exists nonce, (utf8 s). split; [done|]. split; [done|].
  apply base64_bytes, Forall_app. split; [done|]. by apply box_bytes, utf8_ok.
Qed.
End Frames.
