(* ===== verification/SocketLiveness.v ===== *)
(** * The socket liveness monitor (src/shared/remote-runtime-socket-liveness.ts)

    An interval timer checks, at each tick, how long the socket has been
    silent. Time is in milliseconds, as [Date.now()] returns it.

    Theorem: a socket that falls silent is declared dead once, more than the
    timeout and at most the timeout and one interval after it was last heard. *)

From S2P Require Import Prelude.
Local Open Scope Z_scope.

Definition REMOTE_RUNTIME_SOCKET_PING_INTERVAL_MS : Z := 10000.
Definition REMOTE_RUNTIME_SOCKET_LIVENESS_TIMEOUT_MS : Z := 25000.

Record LivenessOptions := { opt_pingIntervalMs : option Z; opt_livenessTimeoutMs : option Z }.

Definition pingIntervalMs (o : LivenessOptions) : Z :=
  default REMOTE_RUNTIME_SOCKET_PING_INTERVAL_MS (opt_pingIntervalMs o).
Definition livenessTimeoutMs (o : LivenessOptions) : Z :=
  default REMOTE_RUNTIME_SOCKET_LIVENESS_TIMEOUT_MS (opt_livenessTimeoutMs o).

(** The interval is armed while the monitor is not stopped. *)
Record Monitor := { lastActivityAt : Z; stopped : bool }.

Definition start_monitor (now : Z) : Monitor := {| lastActivityAt := now; stopped := false |}.
Definition stop (m : Monitor) : Monitor := {| lastActivityAt := lastActivityAt m; stopped := true |}.
Definition noteActivity (now : Z) (m : Monitor) : Monitor :=
  {| lastActivityAt := now; stopped := stopped m |}.

Inductive TickResult := Nothing | CallOnDead | CallPing.

(** The callback of the interval. *)
Definition tick (o : LivenessOptions) (now : Z) (m : Monitor) : Monitor * TickResult :=
  if stopped m then (m, Nothing)
  else if livenessTimeoutMs o <? now - lastActivityAt m then (stop m, CallOnDead)
  else (m, CallPing).

(** ** A run: activity between the ticks *)

Section Run.
Context (o : LivenessOptions).

(** The [k]-th tick of a monitor started at [t0]. *)
Definition tick_time (t0 : Z) (k : nat) : Z := t0 + Z.of_nat k * pingIntervalMs o.

(** [heard k] lists the times of the activity between tick [k - 1] and tick [k].
    The monitor after [n] ticks and the ticks that declared the socket dead. *)
Fixpoint monitor_run (t0 : Z) (heard : nat -> list Z) (n : nat) : Monitor * list nat :=
  match n with
  | O => (start_monitor t0, [])
  | S n' =>
      let '(m, dead) := monitor_run t0 heard n' in
      let m := foldl (fun m t => noteActivity t m) m (heard n) in
      match tick o (tick_time t0 n) m with
      | (m, CallOnDead) => (m, dead ++ [n])
      | (m, _) => (m, dead)
      end
  end.

(** The last time the socket was heard before tick [n]. *)
Definition last_heard (t0 : Z) (heard : nat -> list Z) (n : nat) : Z :=
  default t0 (last (mjoin (map heard (seq 1 n)))).

Lemma noted_activity m ts :
  stopped (foldl (fun m t => noteActivity t m) m ts) = stopped m /\
  lastActivityAt (foldl (fun m t => noteActivity t m) m ts) = default (lastActivityAt m) (last ts).
Proof.
  induction ts as [|t ts IH] using rev_ind; [done|].
  rewrite foldl_app, last_snoc. simpl. destruct IH. done.
Qed.

Lemma last_heard_S t0 heard n :
  last_heard t0 heard (S n) = default (last_heard t0 heard n) (last (heard (S n))).
Proof.
  unfold last_heard. rewrite seq_S, map_app, join_app. simpl. rewrite app_nil_r, last_app.
  by destruct (last (heard (S n))).
Qed.

Lemma monitor_run_spec t0 heard n :
  let '(m, dead) := monitor_run t0 heard n in
  lastActivityAt m = last_heard t0 heard n /\
  (stopped m = false -> dead = [] /\
     forall k, (0 < k <= n)%nat -> tick_time t0 k - last_heard t0 heard k <= livenessTimeoutMs o) /\
  (stopped m = true -> exists k, dead = [k] /\ (0 < k <= n)%nat /\
     livenessTimeoutMs o < tick_time t0 k - last_heard t0 heard k /\
     forall k', (0 < k' < k)%nat -> tick_time t0 k' - last_heard t0 heard k' <= livenessTimeoutMs o).
Proof.
  induction n as [|n IH]; [split; [done|]; split; [|done]; intros _; split; [done|lia]|].
  cbn [monitor_run]. destruct (monitor_run t0 heard n) as [m dead]. destruct IH as (Hl & Hf & Ht).
  destruct (noted_activity m (heard (S n))) as [Hs Ha]. unfold tick. rewrite Hs, Ha, Hl, <-last_heard_S.
  destruct (stopped m) eqn:Hst.
  - split; [by rewrite Ha, Hl, <-last_heard_S|]. rewrite Hs. split; [done|]. intros _.
    destruct (Ht eq_refl) as (k & -> & Hk & Hd & Hb). exists k. repeat split; auto; lia.
  - destruct (Hf eq_refl) as [-> Hb].
    destruct (Z.ltb_spec (livenessTimeoutMs o) (tick_time t0 (S n) - last_heard t0 heard (S n))).
    + split; [simpl; by rewrite Ha, Hl, <-last_heard_S|]. split; [done|]. intros _. exists (S n).
      repeat split; [lia|lia|done|]. intros k' Hk'. apply Hb. lia.
    + split; [by rewrite Ha, Hl, <-last_heard_S|]. rewrite Hs. split; [|done]. intros _. split; [done|].
      intros k Hk. destruct (decide (k = S n)) as [->|]; [lia|]. apply Hb. lia.
Qed.

(** How long the socket has been silent at tick [k]. *)
Definition silence (t0 : Z) (heard : nat -> list Z) (k : nat) : Z :=
  tick_time t0 k - last_heard t0 heard k.

(** Under a monotone clock a monitored socket is declared dead at most once,
    at the first tick that finds it silent for more than the timeout, and by
    then it has been silent for at most the timeout and one interval; while
    it is not declared dead every tick found it heard in time. *)
Theorem silence_detected t0 heard n :
  0 < pingIntervalMs o -> 0 <= livenessTimeoutMs o ->
  (forall k, last_heard t0 heard k <= last_heard t0 heard (S k)) ->
  (exists k, (monitor_run t0 heard n).2 = [k] /\ (0 < k <= n)%nat /\
     livenessTimeoutMs o < silence t0 heard k <= livenessTimeoutMs o + pingIntervalMs o) \/
  ((monitor_run t0 heard n).2 = [] /\
     forall k, (0 < k <= n)%nat -> silence t0 heard k <= livenessTimeoutMs o).
Proof.
  intros Hi Ht Hmono. pose proof (monitor_run_spec t0 heard n) as H.
  destruct (monitor_run t0 heard n) as [m dead]. destruct H as (_ & Hf & Hs).
  destruct (stopped m); [left|right; by apply Hf].
  destruct (Hs eq_refl) as (k & -> & Hk & Hd & Hb). exists k. split; [done|]. split; [done|].
  unfold silence. split; [done|]. destruct k as [|k]; [lia|].
  assert (Hstep : tick_time t0 (S k) = tick_time t0 k + pingIntervalMs o) by (unfold tick_time; lia).
  specialize (Hmono k). destruct k as [|k].
  - change (last_heard t0 heard 0) with t0 in Hmono. unfold tick_time in *. lia.
  - specialize (Hb (S k) ltac:(lia)). lia.
Qed.
End Run.

Definition demo_options : LivenessOptions :=
  {| opt_pingIntervalMs := None; opt_livenessTimeoutMs := Some 15000 |}.
(** Heard once, 7 s after the start. *)
Definition demo_heard (k : nat) : list Z := if (k =? 1)%nat then [7000] else [].

Lemma silence_detected_witness :
  (monitor_run demo_options 0 demo_heard 4).2 = [3%nat] /\
  (forall k, (0 < k <= 2)%nat -> silence demo_options 0 demo_heard k <= 15000).
Proof.
  assert (Hm : forall k, last_heard 0 demo_heard k <= last_heard 0 demo_heard (S k)).
  { intros k. rewrite last_heard_S. destruct k as [|k]; [by vm_compute|]. simpl. lia. }
  split; [reflexivity|].
  destruct (silence_detected demo_options 0 demo_heard 2 ltac:(by vm_compute) ltac:(by vm_compute) Hm)
    as [(k & Hk & _)|[_ H]]; [|exact H].
  vm_compute in Hk. discriminate.
Defined.
