(* ===== verification/SharedControl.v ===== *)
(** * The shared control connection
    (src/shared/remote-runtime-shared-control-*.ts, remote-runtime-request-websocket.ts)

    One WebSocket to a remote runtime carries all calls and subscriptions.
    [SharedControl] is the connection object with the objects it refers to:
    sockets, subscriptions and ready waiters are heaps indexed by reference,
    promises are numbered, and [log] lists what the connection did, in order.
    Calls of its methods, socket events and timer callbacks are the events of a
    run; a promise continuation ([Job]) runs when the event that queued it is
    done, as a microtask does. A callback of a subscription that calls back into
    the connection is a later event. Random jitter is not part of a delay. *)

From stdpp Require Import pretty.
From S2P Require Import Prelude JsMap Json Base64 SharedControlFrames SocketLiveness.

Local Open Scope string_scope.
Local Open Scope list_scope.
Local Open Scope Z_scope.

(** ** State *)

Inductive ReadyState := CONNECTING | OPEN | CLOSING | CLOSED.
#[export] Instance ReadyState_eq_dec : EqDecision ReadyState.
Proof. solve_decision. Defined.

(** [listening]: the listeners are attached, [cleanup] has not run. *)
Record Socket := {
  readyState : ReadyState; socketKey : list Z; listening : bool; monitor : Monitor }.
#[export] Instance eta_Socket : Eta Socket :=
  fun x => Build_Socket (readyState x) (socketKey x) (listening x) (monitor x).

Record Pending := { p_method : string; promise : nat; refreshTimeoutOnKeepalive : bool }.

(** An armed timer. *)
Record Timeout := { delay : Z; deadline : Z }.

Record Subscription := {
  requestId : string; sub_method : string; sub_params : option json;
  sent : bool; closed : bool; closeAfterReady : bool;
  remoteSubscriptionId : option string; pendingReplayTag : bool; awaitingResubscribe : bool }.
#[export] Instance eta_Subscription : Eta Subscription :=
  fun x => Build_Subscription (requestId x) (sub_method x) (sub_params x) (sent x) (closed x)
    (closeAfterReady x) (remoteSubscriptionId x) (pendingReplayTag x) (awaitingResubscribe x).

(** What follows [ensureReady()]: the call of a request, the start of a subscription. *)
Inductive Continuation :=
  | SendRequest (reqId method : string) (params : option json)
  | StartSubscription (ref : nat).

Record Waiter := { continuation : Continuation; settled : bool; armed : bool }.

(** A continuation of a fulfilled or rejected promise. *)
Record Job := { job_continuation : Continuation; job_error : option Error }.

Inductive Outcome := Resolved (response : RuntimeRpcResponse) | Rejected (error : Error).

Inductive Effect :=
  | SocketOpened (sock : nat)
  | HelloSent (sock : nat)
  | Send (sock : nat) (payload : Payload)
  | PingSent (sock : nat)
  | SocketClose (sock : nat)
  | SocketTerminate (sock : nat)
  | BecameReady (sock : nat)
  | Received (response : RuntimeRpcResponse)
  | Settled (i : nat) (o : Outcome)
  | OnResponse (ref : nat) (response : RuntimeRpcResponse) (replayed : bool)
  | OnError (ref : nat) (error : Error)
  | OnClose (ref : nat)
  | Subscribed (ref : nat)
  | SubscribeRejected (ref : nat) (error : Error)
  | UncaughtException (message : string).

Record SharedControl := {
  state : SharedControlConnectionState;
  ws : option nat;
  sharedKey : option (list Z);
  socketCleanup : option nat;
  reconnectTimer : option Z;  (** the delay of the armed timer *)
  readyStableReset : bool;  (** armed *)
  reconnectAttempt : nat;
  intentionallyClosed : bool;
  lastConnectedAt : option Z;
  lastClose : option (Z * string);
  lastError : option string;
  pendingRequests : jsmap string Pending;
  timeouts : jsmap string Timeout;
  subscriptions : jsmap string nat;
  readyWaiters : list nat;
  everReady : bool;
  sockets : list Socket;
  subs : list Subscription;
  waiters : list Waiter;
  jobs : list Job;
  uuids : nat;
  promises : nat;
  log : list Effect }.
#[export] Instance eta_SharedControl : Eta SharedControl :=
  fun x => Build_SharedControl (state x) (ws x) (sharedKey x) (socketCleanup x) (reconnectTimer x)
    (readyStableReset x) (reconnectAttempt x) (intentionallyClosed x) (lastConnectedAt x)
    (lastClose x) (lastError x) (pendingRequests x) (timeouts x) (subscriptions x) (readyWaiters x)
    (everReady x) (sockets x) (subs x) (waiters x) (jobs x) (uuids x) (promises x) (log x).
Implicit Types c : SharedControl.

Definition new_connection : SharedControl :=
  {| state := Closed; ws := None; sharedKey := None; socketCleanup := None; reconnectTimer := None;
     readyStableReset := false; reconnectAttempt := 0; intentionallyClosed := false;
     lastConnectedAt := None; lastClose := None; lastError := None; pendingRequests := ∅;
     timeouts := ∅; subscriptions := ∅; readyWaiters := []; everReady := false; sockets := [];
     subs := []; waiters := []; jobs := []; uuids := 0; promises := 0; log := [] |}.

(** The options and the pairing offer of the constructor. *)
Class Config := { deviceToken : string; liveness : LivenessOptions }.

Definition delaysMs : list Z := [250; 500; 1000; 2000; 4000; 8000; 15000].

Section SharedControl.
Context `{RuntimeEnv} `{Config}.

Definition emit (e : Effect) c : SharedControl := c <| log := log c ++ [e] |>.

(** A write to a field of the subscription object [ref]. *)
Definition update_sub (ref : nat) (f : Subscription -> Subscription) c : SharedControl :=
  c <| subs := alter f ref (subs c) |>.
Definition update_socket (sock : nat) (f : Socket -> Socket) c : SharedControl :=
  c <| sockets := alter f sock (sockets c) |>.

Definition socket_in (sock : option nat) (st : ReadyState) c : bool :=
  match sock ≫= fun i => sockets c !! i with
  | Some s => bool_decide (readyState s = st)
  | None => false
  end.

(** ** Sending *)

Definition sendEncrypted (payload : Payload) c : SharedControl * bool :=
  if negb (bool_decide (state c = Ready) || bool_decide (state c = AwaitingAuthenticated)) then (c, false)
  else
    match ws c, sharedKey c with
    | Some sock, Some _ =>
        if socket_in (Some sock) OPEN c then (emit (Send sock payload) c, true) else (c, false)
    | _, _ => (c, false)
    end.

(** [sendSharedControlCleanupRequest] *)
Definition sendCleanupRequest (request : string * option json) c : SharedControl :=
  let id := randomUUID (uuids c) in
  (sendEncrypted (CallPayload id deviceToken request.1 request.2) (c <| uuids := S (uuids c) |>)).1.

(** ** Pending requests *)

Definition forget (reqId : string) c : SharedControl :=
  c <| pendingRequests := delete reqId (pendingRequests c) |>
    <| timeouts := delete reqId (timeouts c) |>.

(** [pending.resolve] or [pending.reject], once removed with its timer. *)
Definition settlePending (reqId : string) (o : Outcome) c : SharedControl :=
  match pendingRequests c !! reqId with
  | None => c
  | Some p => emit (Settled (promise p) o) (forget reqId c)
  end.

(** [refreshSharedControlPendingRequestTimeouts]: a timer restarts at [now]. *)
Definition refreshTimeouts (now : Z) c : SharedControl :=
  foldl (fun c '(reqId, p) =>
    if refreshTimeoutOnKeepalive p then
      match timeouts c !! reqId with
      | Some t => c <| timeouts := <[reqId := {| delay := delay t; deadline := now + delay t |}]> (timeouts c) |>
      | None => c
      end
    else c) c (jm_entries (pendingRequests c)).

Definition rejectAllPending (error : option Error) c : SharedControl :=
  let e := default (remoteRuntimeUnavailableError closed_message) error in
  foldl (fun c reqId => settlePending reqId (Rejected e) c) c (jm_keys (pendingRequests c)).

(** ** Subscriptions *)

Definition finishSubscription (ref : nat) (notifyClose : bool) (error : option Error) c : SharedControl :=
  match subs c !! ref with
  | None => c
  | Some s =>
      if closed s then c
      else
        let c := update_sub ref (fun s => s <| closed := true |>) c in
        let c := c <| subscriptions := delete (requestId s) (subscriptions c) |> in
        let c := match error with Some e => emit (OnError ref e) c | None => c end in
        if notifyClose then emit (OnClose ref) c else c
  end.

Definition markUnsent c : SharedControl :=
  foldl (fun c ref => update_sub ref (fun s => s <| sent := false |>) c) c (jm_values (subscriptions c)).

Definition sub_cleanup (s : Subscription) : option (string * option json) :=
  getCleanupRequest (requestId s) (sub_method s) (sub_params s) (remoteSubscriptionId s).

(** [sendSharedControlSubscription] *)
Definition sendSubscription (ref : nat) c : SharedControl :=
  match subs c !! ref with
  | None => c
  | Some s =>
      if closed s || sent s then c
      else
        let '(c, ok) :=
          sendEncrypted (CallPayload (requestId s) deviceToken (sub_method s) (sub_params s)) c in
        if ok then update_sub ref (fun s => s <| sent := true |>) c
        else finishSubscription ref true (Some (remoteRuntimeUnavailableError closed_message)) c
  end.

Definition replay_one (tag : bool) (ref : nat) c : SharedControl :=
  match subs c !! ref with
  | None => c
  | Some s =>
      if closeAfterReady s then c
      else
        sendSubscription ref
          (update_sub ref (fun s =>
             let s := s <| sent := false |> <| remoteSubscriptionId := None |>
                        <| awaitingResubscribe := true |> in
             if tag then s <| pendingReplayTag := true |> else s) c)
  end.

(** [replaySubscriptions()]: the loop deletes at most the entry it visits. *)
Definition replaySubscriptions c : SharedControl :=
  let c := foldl (fun c' ref => replay_one (everReady c) ref c') c (jm_values (subscriptions c)) in
  c <| everReady := true |>.

(** [closeSharedControlLogicalSubscription] *)
Definition closeLogicalSubscription (ref : nat) (s : Subscription) c : SharedControl :=
  match sub_cleanup s with
  | Some cleanup => sendCleanupRequest cleanup (finishSubscription ref false None c)
  | None =>
      if (sent s || awaitingResubscribe s) && cleanupNeedsRemoteSubscriptionId (sub_method s)
      then update_sub ref (fun s => s <| closeAfterReady := true |>) c
      else finishSubscription ref false None c
  end.

Definition closeSubscription (reqId : string) c : SharedControl :=
  match subscriptions c !! reqId with
  | None => c
  | Some ref =>
      match subs c !! ref with
      | None => c
      | Some s => closeLogicalSubscription ref s c
      end
  end.

Definition note_id (response : RuntimeRpcResponse) (s : Subscription) : Subscription :=
  match response_ok response, getSubscriptionId (response_result response) with
  | true, Some id => s <| remoteSubscriptionId := Some id |>
  | _, _ => s
  end.

(** [handleSharedControlSubscriptionResponse] *)
Definition handleSubscriptionResponse (ref : nat) (s : Subscription) (response : RuntimeRpcResponse) c
    : SharedControl :=
  let ok := response_ok response in
  let c := update_sub ref (fun s =>
    let s := s <| awaitingResubscribe := false |> in
    let s := if negb ok then s <| sent := false |> else s in
    note_id response s <| pendingReplayTag := false |>) c in
  let c := emit (OnResponse ref response (pendingReplayTag s && ok)) c in
  if ok && isEndResult (response_result response) then finishSubscription ref false None c else c.

(** [handleSharedControlLogicalResponse] *)
Definition handleLogicalResponse (ref : nat) (s : Subscription) (response : RuntimeRpcResponse) c
    : SharedControl :=
  if negb (closeAfterReady s) then handleSubscriptionResponse ref s response c
  else
    let c :=
      if response_ok response then
        let c := update_sub ref (note_id response) c in
        match sub_cleanup (note_id response s) with
        | Some cleanup => sendCleanupRequest cleanup c
        | None => c
        end
      else c in
    finishSubscription ref false None c.

Definition finishCloseAfterReady c : SharedControl :=
  foldl (fun c ref =>
    match subs c !! ref with
    | Some s => if closeAfterReady s then finishSubscription ref false None c else c
    | None => c
    end) c (jm_values (subscriptions c)).

(** ** Ready waiters *)

Definition queueJob (k : Continuation) (error : option Error) c : SharedControl :=
  c <| jobs := jobs c ++ [{| job_continuation := k; job_error := error |}] |>.

(** [waiter.resolve()] and [waiter.reject(error)] *)
Definition settleWaiter (i : nat) (error : option Error) c : SharedControl :=
  match waiters c !! i with
  | None => c
  | Some w =>
      if settled w then c
      else queueJob (continuation w) error
             (c <| waiters := <[i := {| continuation := continuation w; settled := true; armed := false |}]>
                                (waiters c) |>)
  end.

Definition settleReadyWaiters (error : option Error) c : SharedControl :=
  foldl (fun c i => settleWaiter i error c) (c <| readyWaiters := [] |>) (readyWaiters c).

(** ** Closing the socket *)

(** The [cleanup] of an opened socket, then [ws.close()]. *)
Definition detach (sock : nat) c : SharedControl :=
  update_socket sock (fun s => s <| monitor := stop (monitor s) |> <| listening := false |>) c.
Definition close_socket_object (sock : nat) c : SharedControl :=
  emit (SocketClose sock)
    (update_socket sock (fun s =>
       if bool_decide (readyState s = CLOSED) then s else s <| readyState := CLOSING |>) c).

(** [closeSharedControlSocketState] *)
Definition closeSocketState (error : option Error) c : SharedControl :=
  let c := settleReadyWaiters
             (Some (default (remoteRuntimeUnavailableError closed_message) error)) c in
  let c := markUnsent (rejectAllPending error c) in
  let c := match socketCleanup c with Some sock => detach sock c | None => c end in
  match ws c with Some sock => close_socket_object sock c | None => c end.

(** [closeSocket(error)], with [closeSharedControlSocket] inlined, its logging apart. *)
Definition closeSocket (error : option Error) c : SharedControl :=
  let c := c <| readyStableReset := false |> in
  let c := closeSocketState error (finishCloseAfterReady c) in
  c <| ws := None |> <| sharedKey := None |> <| socketCleanup := None |> <| state := Closed |>.

(** [scheduleReconnect()]: [scheduleSharedControlReconnectOrFinish] *)
Definition restore_error : Error :=
  remoteRuntimeUnavailableError "Remote Orca runtime connection could not be restored.".
Definition scheduleReconnect c : SharedControl :=
  if (length delaysMs <=? reconnectAttempt c)%nat then
    let c := foldl (fun c ref => finishSubscription ref true (Some restore_error) c) c
               (jm_values (subscriptions c)) in
    c <| reconnectTimer := None |>
  else
    match reconnectTimer c, intentionallyClosed c with
    | Some _, _ | _, true => c
    | None, false =>
        c <| reconnectTimer := delaysMs !! Nat.min (reconnectAttempt c) (length delaysMs - 1) |>
          <| reconnectAttempt := S (reconnectAttempt c) |>
    end.

Definition handleSocketClosed (error : Error) c : SharedControl :=
  let c := closeSocket (Some error) (c <| lastError := Some (message error) |>) in
  if (0 <? jm_size (subscriptions c)) && negb (intentionallyClosed c) then scheduleReconnect c else c.

(** ** Opening *)

(** How [openSharedControlSocket] ended: a socket with its shared key, or an error. *)
Inductive OpenOutcome := Opened (key : list Z) | OpenFailed (error : Error).

Definition open (now : Z) (outcome : OpenOutcome) c : SharedControl :=
  if intentionallyClosed c then
    settleReadyWaiters (Some (remoteRuntimeUnavailableError closed_message)) c
  else
    let c := c <| reconnectTimer := None |> in
    match outcome with
    | OpenFailed error => handleSocketClosed error c
    | Opened key =>
        let sock := length (sockets c) in
        emit (SocketOpened sock)
          (c <| sockets := sockets c ++ [{| readyState := CONNECTING; socketKey := key;
                                            listening := true; monitor := start_monitor now |}] |>
             <| ws := Some sock |> <| sharedKey := Some key |> <| socketCleanup := Some sock |>
             <| state := AwaitingReady |>)
    end.

Definition isSharedControlReady c : bool :=
  bool_decide (state c = Ready) && socket_in (ws c) OPEN c && bool_decide (is_Some (sharedKey c)).

(** [ensureReadyWithTimeout(timeoutMs)], then [k]. *)
Definition ensureReady (now : Z) (outcome : OpenOutcome) (k : Continuation) c : SharedControl :=
  if isSharedControlReady c then queueJob k None c
  else
    let i := length (waiters c) in
    let c := c <| waiters := waiters c ++ [{| continuation := k; settled := false; armed := true |}] |>
               <| readyWaiters := readyWaiters c ++ [i] |> in
    match ws c with
    | None => open now outcome c
    | Some sock =>
        if socket_in (Some sock) CLOSED c || socket_in (Some sock) CLOSING c
        then open now outcome c else c
    end.

(** ** The methods *)

(** [requestSharedControl], which the connection calls without opting into
    keepalives ([keepalive] is then [undefined]). *)
Definition requestSharedControl (keepalive : option bool) (now timeoutMs : Z) (outcome : OpenOutcome)
    (method : string) (params : option json) c : SharedControl :=
  let reqId := randomUUID (uuids c) in
  let p := {| p_method := method; promise := promises c;
              refreshTimeoutOnKeepalive := default false keepalive |} in
  ensureReady now outcome (SendRequest reqId method params)
    (c <| uuids := S (uuids c) |> <| promises := S (promises c) |>
       <| timeouts := <[reqId := {| delay := timeoutMs; deadline := now + timeoutMs |}]> (timeouts c) |>
       <| pendingRequests := <[reqId := p]> (pendingRequests c) |>).
Definition request (now timeoutMs : Z) (outcome : OpenOutcome) (method : string)
    (params : option json) c : SharedControl :=
  requestSharedControl None now timeoutMs outcome method params c.

(** [createSharedControlSubscription] *)
Definition createSubscription (reqId method : string) (params : option json) : Subscription :=
  {| requestId := reqId; sub_method := method; sub_params := params; sent := false; closed := false;
     closeAfterReady := false; remoteSubscriptionId := None; pendingReplayTag := false;
     awaitingResubscribe := false |}.

(** [startSharedControlSubscription] up to its [await]. *)
Definition subscribe (now : Z) (outcome : OpenOutcome) (method : string) (params : option json) c
    : SharedControl :=
  let reqId := randomUUID (uuids c) in
  let ref := length (subs c) in
  ensureReady now outcome (StartSubscription ref)
    (c <| uuids := S (uuids c) |> <| subs := subs c ++ [createSubscription reqId method params] |>
       <| subscriptions := <[reqId := ref]> (subscriptions c) |>).

Definition close (error : option Error) c : SharedControl :=
  let c := c <| intentionallyClosed := true |> <| reconnectTimer := None |> in
  closeSocket error
    (foldl (fun c reqId => closeSubscription reqId c) c (jm_keys (subscriptions c))).

(** ** Promise continuations *)

Definition not_started_error : Error :=
  remoteRuntimeUnavailableError "Remote runtime subscription closed before it started.".

(** [sendSharedControlRequest] *)
Definition sendRequest (reqId method : string) (params : option json) c : SharedControl :=
  if negb (jm_has reqId (pendingRequests c)) then c
  else
    let '(c, ok) := sendEncrypted (CallPayload reqId deviceToken method params) c in
    if ok then c
    else settlePending reqId (Rejected (remoteRuntimeUnavailableError closed_message)) c.

Definition run_job (j : Job) c : SharedControl :=
  match job_continuation j, job_error j with
  | SendRequest reqId method params, None => sendRequest reqId method params c
  | SendRequest reqId _ _, Some e =>
      settlePending reqId (Rejected (toRemoteRuntimeClientError e)) c
  | StartSubscription ref, None =>
      match subs c !! ref with
      | None => c
      | Some s =>
          if bool_decide (subscriptions c !! requestId s = Some ref)
          then emit (Subscribed ref) (sendSubscription ref c)
          else emit (SubscribeRejected ref not_started_error) c
      end
  | StartSubscription ref, Some e =>
      emit (SubscribeRejected ref e) (finishSubscription ref false None c)
  end.

(** The microtask queue: no continuation queues another. *)
Definition drain c : SharedControl := foldl (fun c j => run_job j c) (c <| jobs := [] |>) (jobs c).

(** ** Socket events *)

(** [dispatchSharedControlFrame] on a response; an unknown id is only logged. *)
Definition dispatchResponse (response : RuntimeRpcResponse) c : SharedControl :=
  let c := emit (Received response) c in
  match subscriptions c !! response_id response with
  | Some ref =>
      match subs c !! ref with
      | Some s => handleLogicalResponse ref s response c
      | None => c
      end
  | None => settlePending (response_id response) (Resolved response) c
  end.

Definition handleTextFrame (now : Z) (sock : nat) (frame : string) c : SharedControl :=
  if bool_decide (state c = AwaitingReady) then
    match parseReadyFrame frame with
    | Some error => handleSocketClosed error c
    | None => (sendEncrypted (AuthPayload deviceToken) (c <| state := AwaitingAuthenticated |>)).1
    end
  else
    match parseSharedControlFrame frame (sharedKey c) (state c) with
    | AuthText plaintext =>
        match parseAuthenticatedFrame plaintext with
        | Throw m => emit (UncaughtException m) c
        | Ok (Some error) => handleSocketClosed error c
        | Ok None =>
            let c := emit (BecameReady sock) (c <| state := Ready |>) in
            let c := c <| lastConnectedAt := Some now |> <| readyStableReset := true |> in
            replaySubscriptions (settleReadyWaiters None c)
        end
    | FrameError error => handleSocketClosed error c
    | RpcKeepalive => refreshTimeouts now c
    | RpcResponse response => dispatchResponse response c
    end.

(** [getCurrentSocket() === ws], for a socket whose listeners are attached. *)
Definition current (sock : nat) c : bool :=
  bool_decide (ws c = Some sock) &&
  match sockets c !! sock with Some s => listening s | None => false end.

(** A socket delivers frames once it is open, until it is closed. *)
Definition delivers (sock : nat) c : bool :=
  current sock c && (socket_in (Some sock) OPEN c || socket_in (Some sock) CLOSING c).

Definition note_activity (now : Z) (sock : nat) c : SharedControl :=
  update_socket sock (fun s => s <| monitor := noteActivity now (monitor s) |>) c.

Definition connect_error : Error :=
  remoteRuntimeUnavailableError "Could not connect to the remote Orca runtime.".
Definition binary_error : Error :=
  invalidRemoteRuntimeResponseError "Remote Orca runtime returned an unexpected binary frame.".
Definition unanswered_error : Error :=
  remoteRuntimeUnavailableError
    "Remote Orca runtime did not answer in time; resetting the control connection.".
Definition dead_error : Error :=
  remoteRuntimeUnavailableError
    "Remote Orca runtime stopped responding; resetting the control connection.".

(** [onError(error)] *)
Definition socket_error (error : Error) c : SharedControl :=
  handleSocketClosed error (c <| lastError := Some (message error) |>).

(** A tick of the monitor of [sock]. *)
Definition monitor_tick (now : Z) (sock : nat) c : SharedControl :=
  match sockets c !! sock with
  | None => c
  | Some s =>
      let '(m, r) := tick liveness now (monitor s) in
      let c := update_socket sock (fun s => s <| monitor := m |>) c in
      match r with
      | Nothing => c
      | CallPing => if bool_decide (readyState s = OPEN) then emit (PingSent sock) c else c
      | CallOnDead =>
          if negb (bool_decide (ws c = Some sock)) then c
          else
            let c := emit (SocketTerminate sock)
                       (update_socket sock (fun s =>
                          if bool_decide (readyState s = CLOSED) then s
                          else s <| readyState := CLOSING |>) c) in
            handleSocketClosed dead_error c
      end
  end.

(** ** Timer callbacks *)

Definition request_times_out (reqId : string) c : SharedControl :=
  match pendingRequests c !! reqId with
  | None => c
  | Some p =>
      handleSocketClosed unanswered_error
        (emit (Settled (promise p) (Rejected remoteRuntimeTimeoutError)) (forget reqId c))
  end.

Definition waiter_times_out (i : nat) c : SharedControl :=
  match waiters c !! i with
  | None => c
  | Some w =>
      if armed w && negb (settled w) then
        settleWaiter i (Some (remoteRuntimeUnavailableError closed_message))
          (c <| readyWaiters := js_filter (fun j => negb (j =? i)%nat) (readyWaiters c) |>)
      else c
  end.

(** ** Events *)

Inductive Event :=
  | CallRequest (now timeoutMs : Z) (outcome : OpenOutcome) (method : string) (params : option json)
  | CallSubscribe (now : Z) (outcome : OpenOutcome) (method : string) (params : option json)
  | CallCloseSubscription (reqId : string)
  | CallClose (error : option Error)
  | SocketOpens (sock : nat)
  | SocketCloses (sock : nat) (closeCode : Z) (reason : string)
  | SocketClosing (sock : nat)
  | SocketError (sock : nat)
  | TextFrame (now : Z) (sock : nat) (frame : string)
  | BinaryFrame (sock : nat)
  | PingOrPong (now : Z) (sock : nat)
  | MonitorTick (now : Z) (sock : nat)
  | RequestTimer (now : Z) (reqId : string)
  | WaiterTimer (i : nat)
  | ReconnectTimer (now : Z) (outcome : OpenOutcome)
  | StableTimer.

(** The transport moves a socket's ready state forward only. *)
Definition transport (sock : nat) (st : ReadyState) c : SharedControl :=
  update_socket sock (fun s =>
    match readyState s, st with
    | CONNECTING, (OPEN | CLOSING | CLOSED) | OPEN, (CLOSING | CLOSED) | CLOSING, CLOSED =>
        s <| readyState := st |>
    | _, _ => s
    end) c.

Definition handle (e : Event) c : SharedControl :=
  match e with
  | CallRequest now timeoutMs outcome method params => request now timeoutMs outcome method params c
  | CallSubscribe now outcome method params => subscribe now outcome method params c
  | CallCloseSubscription reqId => closeSubscription reqId c
  | CallClose error => close error c
  | SocketOpens sock =>
      match sockets c !! sock with
      | Some s =>
          if bool_decide (readyState s = CONNECTING) then
            let c := transport sock OPEN c in
            if listening s then emit (HelloSent sock) c else c
          else c
      | None => c
      end
  | SocketCloses sock closeCode reason =>
      let c := transport sock CLOSED c in
      if current sock c then
        handleSocketClosed
          (remoteRuntimeUnavailableError (formatSharedControlCloseMessage closeCode reason))
          (c <| lastClose := Some (closeCode, reason) |>)
      else c
  | SocketClosing sock => transport sock CLOSING c
  | SocketError sock => if current sock c then socket_error connect_error c else c
  | TextFrame now sock frame =>
      if delivers sock c then handleTextFrame now sock frame (note_activity now sock c) else c
  | BinaryFrame sock => if delivers sock c then socket_error binary_error c else c
  | PingOrPong now sock => if delivers sock c then note_activity now sock c else c
  | MonitorTick now sock => monitor_tick now sock c
  | RequestTimer now reqId =>
      match timeouts c !! reqId with
      | Some t => if deadline t <=? now then request_times_out reqId c else c
      | None => c
      end
  | WaiterTimer i => waiter_times_out i c
  | ReconnectTimer now outcome =>
      match reconnectTimer c with
      | Some _ => open now outcome (c <| reconnectTimer := None |>)
      | None => c
      end
  | StableTimer =>
      if readyStableReset c then
        let c := c <| readyStableReset := false |> in
        if bool_decide (state c = Ready) && socket_in (ws c) OPEN c
        then c <| reconnectAttempt := 0%nat |> else c
      else c
  end.

Definition step c (e : Event) : SharedControl := drain (handle e c).
Definition run (es : list Event) : SharedControl := foldl step new_connection es.

(** [getDiagnostics()]: the state it reports, and its counters. *)
Definition reported_state c : option SharedControlConnectionState :=
  match reconnectTimer c with Some _ => None | None => Some (state c) end.
End SharedControl.

(** ** A run, computed *)

Module Demo.

(** Boxes that prepend sixteen zeros, and a parser that knows the frames of the demo. *)
Definition demo_parse (s : string) : option json :=
  if String.eqb s "ready" then Some (JObj [("type", JStr "e2ee_ready")])
  else if String.eqb s "authenticated" then Some (JObj [("type", JStr "e2ee_authenticated")])
  else if String.eqb s "null" then Some JNull
  else if String.eqb s "keepalive" then Some (JObj [("_keepalive", JBool true)])
  else if startsWith s "ok " then Some (JArr [JStr "ok"; JStr (of_chars (drop 3 (chars s)))])
  else None.
Definition demo_schema (j : json) : option RuntimeRpcEnvelope :=
  match j with
  | JArr [JStr _; JStr id] =>
      Some (Response (RpcSuccess id (Some (JObj [("subscriptionId", JStr ("s" +:+ id))]))))
  | _ => None
  end.
#[export] Instance demo_env : RuntimeEnv :=
  {| JSON_parse := demo_parse; RuntimeRpcEnvelopeSchema_safeParse := demo_schema;
     box_after := fun m n k => replicate 16 0 ++ m;
     box_open_after := fun b n k => Some (drop 16 b);
     buffer_from_base64 := fun s => default [] (atob s);
     textDecode := fun bs => of_chars (map (fun b => Ascii.ascii_of_nat (Z.to_nat b)) bs);
     randomUUID := fun n => "u" +:+ pretty n |}.
#[export] Instance demo_uuid_inj : Inj (=) (=) (@randomUUID demo_env).
Proof. intros n m [= He]. by apply (inj pretty). Qed.
#[export] Instance demo_config : Config :=
  {| deviceToken := "token"; liveness := {| opt_pingIntervalMs := None; opt_livenessTimeoutMs := None |} |}.

Definition sealed (s : string) : string := encrypt (replicate 24 0) s [].
Definition handshake (sock : nat) : list Event :=
  [SocketOpens sock; TextFrame 1 sock "ready"; TextFrame 2 sock (sealed "authenticated")].

(** A subscription, a call, a reconnect, a close before the replayed ready response. *)
Definition demo_run : list Event :=
  [CallSubscribe 0 (Opened []) "files.watch" None] ++ handshake 0 ++
  [TextFrame 3 0 (sealed "ok u0"); CallRequest 4 1000 (Opened []) "status" None;
   TextFrame 5 0 (sealed "ok u1"); SocketCloses 0 1006 ""; ReconnectTimer 300 (Opened [])] ++
  handshake 1 ++ [CallCloseSubscription "u0"; TextFrame 9 1 (sealed "ok u0")].

Example demo_log :
  let response := RpcSuccess "u0" (Some (JObj [("subscriptionId", JStr "su0")])) in
  let c := run demo_run in
  js_filter (fun e => match e with Send 1 _ | OnResponse _ _ _ | SocketClose _ => true | _ => false end)
    (log c) =
  [OnResponse 0 response false; SocketClose 0; Send 1 (AuthPayload "token");
   Send 1 (CallPayload "u0" "token" "files.watch" None);
   Send 1 (CallPayload "u2" "token" "files.unwatch" (Some (JObj [("subscriptionId", JStr "su0")])))] /\
  reconnectAttempt c = 1%nat /\ jm_entries (subscriptions c) = [].
Proof. repeat split; vm_compute; reflexivity. Qed.

(** An authenticated reply [null] throws out of the message handler, and the
    connection stays between authentication and ready. *)
Example null_reply_throws :
  let c := run ([CallSubscribe 0 (Opened []) "files.watch" None] ++
                [SocketOpens 0; TextFrame 1 0 "ready"; TextFrame 2 0 (sealed "null")]) in
  last (log c) = Some (UncaughtException "Cannot read properties of null (reading 'type')") /\
  state c = AwaitingAuthenticated.
Proof. split; vm_compute; reflexivity. Qed.
End Demo.
