(* ===== verification/SharedControlFacts.v ===== *)
(** * The shared control connection: what each operation may change

    [inner_step] is a preorder on states: it relates a state to one reached by
    handling subscriptions and settling calls. The socket and the waiters are
    untouched, subscriptions close and never reopen, a closed one gets no
    callback, calls are settled and none is added. Every operation below opening
    and closing the socket is an [inner_step], and the invariants need no more. *)

From S2P Require Import Prelude JsMap Json SharedControlFrames SocketLiveness SharedControl.

Local Open Scope string_scope.
Local Open Scope list_scope.
Local Open Scope Z_scope.

Create Rewrite HintDb shared.

Lemma foldl_inv {A B} (P : A -> Prop) (f : A -> B -> A) (l : list B) a :
  P a -> (forall a x, x ∈ l -> P a -> P (f a x)) -> P (foldl f a l).
Proof.
  revert a. induction l as [|x l IH]; intros a Ha Hf; [done|]. simpl. apply IH.
  - apply Hf; [left|done].
  - intros a' x' Hx. apply Hf. by right.
Qed.

Section Facts.
Context `{RuntimeEnv} `{Config}.
Implicit Types c : SharedControl.

(** ** Parts of the state *)

Definition core c :=
  (state c, ws c, sharedKey c, socketCleanup c, reconnectTimer c, readyStableReset c,
   reconnectAttempt c, intentionallyClosed c).
Definition calls c := (pendingRequests c, timeouts c, promises c).
Definition settlements (es : list Effect) : list nat :=
  omap (fun e => match e with Settled i _ => Some i | _ => None end) es.
Definition waiting c := (readyWaiters c, waiters c, jobs c).

(** Is the subscription closed? *)
Definition is_closed c (ref : nat) : bool :=
  match subs c !! ref with Some s => closed s | None => false end.

(** The callbacks made for [ref], and the closes among them. *)
Definition callbacks (ref : nat) (es : list Effect) : list Effect :=
  js_filter (fun e => match e with
    | OnResponse r _ _ | OnError r _ | OnClose r => (r =? ref)%nat
    | _ => false
    end) es.
Definition closes (ref : nat) (es : list Effect) : nat :=
  length (js_filter (fun e => match e with OnClose r => (r =? ref)%nat | _ => false end) es).

Definition cleanup_methods : list string :=
  ["accounts.unsubscribe"; "notifications.unsubscribe"; "runtime.clientEvents.unsubscribe";
   "files.unwatch"; "session.tabs.unsubscribe"; "session.tabs.unsubscribeAll"].
Definition is_cleanup (p : Payload) : Prop :=
  match p with
  | CallPayload _ token m _ => token = deviceToken /\ m ∈ cleanup_methods
  | AuthPayload _ => False
  end.

(** What a subscription operation may do: send on the current, open socket, any
    call once ready, a cleanup already before; and call back. *)
Definition sub_effect c (e : Effect) : Prop :=
  match e with
  | Send i p =>
      ws c = Some i /\ socket_in (Some i) OPEN c = true /\
      match p with CallPayload _ token _ _ => token = deviceToken | AuthPayload _ => False end /\
      (state c = Ready \/ state c = AwaitingAuthenticated /\ is_cleanup p)
  | OnResponse _ _ _ | OnError _ _ | OnClose _ | Subscribed _ | SubscribeRejected _ _ | Received _
  | Settled _ _ => True
  | _ => False
  end.

(** The map of subscriptions lists the open ones under their own ids. *)
Record tracked_ok c : Prop := {
  t_wf : jm_wf (subscriptions c);
  t_open : forall r ref, subscriptions c !! r = Some ref <->
    exists s, subs c !! ref = Some s /\ requestId s = r /\ closed s = false;
  t_distinct : forall ref ref' s s', subs c !! ref = Some s -> subs c !! ref' = Some s' ->
    requestId s = requestId s' -> ref = ref';
  t_ids : forall ref s, subs c !! ref = Some s -> exists n, (n < uuids c)%nat /\ requestId s = randomUUID n }.

(** Every promise is settled once or pending, with its timer armed. *)
Record calls_ok c : Prop := {
  q_pending : jm_wf (pendingRequests c);
  q_timeouts : jm_wf (timeouts c);
  q_timed : forall r, is_Some (timeouts c !! r) <-> is_Some (pendingRequests c !! r);
  q_ids : forall r, is_Some (pendingRequests c !! r) -> exists n, (n < uuids c)%nat /\ r = randomUUID n;
  q_promises : settlements (log c) ++ map promise (jm_values (pendingRequests c)) ≡ₚ seq 0 (promises c) }.

(** A subscription keeps its identity and does not reopen. *)
Definition same_subscription (s s' : Subscription) : Prop :=
  requestId s' = requestId s /\ sub_method s' = sub_method s /\ sub_params s' = sub_params s /\
  (closed s = true -> closed s' = true).

Record inner_step c c' : Prop := {
  ss_core : core c' = core c;
  ss_sockets : sockets c' = sockets c;
  ss_promises : promises c' = promises c;
  ss_pending : forall r p, pendingRequests c' !! r = Some p -> pendingRequests c !! r = Some p;
  ss_calls : calls_ok c -> calls_ok c';
  ss_waiting : waiting c' = waiting c;
  ss_uuids : (uuids c <= uuids c')%nat;
  ss_log : exists es, log c' = log c ++ es /\ Forall (sub_effect c) es;
  ss_subs : Forall2 same_subscription (subs c) (subs c');
  ss_map : forall r ref, subscriptions c' !! r = Some ref -> subscriptions c !! r = Some ref;
  ss_tracked : tracked_ok c -> tracked_ok c';
  ss_once : forall ref, (closes ref (log c') + (if is_closed c ref then 1 else 0) <=
                         closes ref (log c) + (if is_closed c' ref then 1 else 0))%nat;
  ss_quiet : tracked_ok c -> forall ref, is_closed c ref = true ->
    callbacks ref (log c') = callbacks ref (log c) }.

Lemma same_subscription_refl s : same_subscription s s.
Proof. by repeat split. Qed.
Lemma same_subscription_trans s1 s2 s3 :
  same_subscription s1 s2 -> same_subscription s2 s3 -> same_subscription s1 s3.
Proof. unfold same_subscription. intros (?&?&?&?) (?&?&?&?). repeat split; try congruence. auto. Qed.

Lemma core_fields c c' :
  core c' = core c ->
  state c' = state c /\ ws c' = ws c /\ sharedKey c' = sharedKey c /\
  socketCleanup c' = socketCleanup c /\ reconnectTimer c' = reconnectTimer c /\
  readyStableReset c' = readyStableReset c /\ reconnectAttempt c' = reconnectAttempt c /\
  intentionallyClosed c' = intentionallyClosed c.
Proof. unfold core. intros. by simplify_eq. Qed.

Lemma socket_in_same sock st c c' : sockets c' = sockets c -> socket_in sock st c' = socket_in sock st c.
Proof. unfold socket_in. by intros ->. Qed.

Lemma sub_effect_same c c' e :
  core c' = core c -> sockets c' = sockets c -> sub_effect c' e -> sub_effect c e.
Proof.
  intros (Hs & Hw & _)%core_fields Hk. destruct e; simpl; try done.
  rewrite (socket_in_same _ _ _ _ Hk), Hs, Hw. done.
Qed.

Lemma is_closed_mono c c' ref :
  Forall2 same_subscription (subs c) (subs c') -> is_closed c ref = true -> is_closed c' ref = true.
Proof.
  intros Hs. unfold is_closed. destruct (subs c !! ref) as [s|] eqn:Hr; [|done]. intros Hc.
  destruct (Forall2_lookup_l _ _ _ _ _ Hs Hr) as (s' & -> & _ & _ & _ & Hm). auto.
Qed.

#[export] Instance inner_step_preorder : PreOrder inner_step.
Proof.
  split.
  - intros c. split; try done.
    + exists []. by rewrite app_nil_r.
    + induction (subs c); constructor; auto using same_subscription_refl.
  - intros c1 c2 c3 [A1 A2 AP AR A3 A4 A5 A6 A7 A8 A9 A10 A11] [B1 B2 BP BR B3 B4 B5 B6 B7 B8 B9 B10 B11].
    split.
    + congruence.
    + congruence.
    + congruence.
    + auto.
    + auto.
    + congruence.
    + lia.
    + destruct A6 as (es1 & He1 & Hf1), B6 as (es2 & He2 & Hf2). exists (es1 ++ es2).
      rewrite He2, He1, app_assoc. split; [done|]. apply Forall_app. split; [done|].
      eapply Forall_impl; [exact Hf2|]. intros e. by apply sub_effect_same.
    + revert B7. generalize (subs c3). revert A7. generalize (subs c2). intros l2 H12.
      induction H12 as [|x y l l' Hxy _ IH]; intros l3 H23; inversion H23; subst; constructor.
      * by eapply same_subscription_trans.
      * auto.
    + auto.
    + auto.
    + intros ref. specialize (A10 ref). specialize (B10 ref). lia.
    + intros Ht ref Hc. rewrite B11; auto. by eapply is_closed_mono.
Qed.

(** ** Primitive steps *)

Lemma calls_same c c' :
  calls c' = calls c -> settlements (log c') = settlements (log c) -> (uuids c <= uuids c')%nat ->
  calls_ok c -> calls_ok c'.
Proof.
  unfold calls. intros Hc Hl Hu [H1 H2 H3 H4 H5]. injection Hc as Hp Ht Hn. split; rewrite ?Hp, ?Ht, ?Hn, ?Hl; auto.
  intros r Hr. destruct (H4 r Hr) as (n & ? & ->). exists n. split; [lia|done].
Qed.

Lemma settlements_app es es' : settlements (es ++ es') = settlements es ++ settlements es'.
Proof. apply omap_app. Qed.

Lemma callbacks_snoc ref es e :
  callbacks ref (es ++ [e]) = callbacks ref es ++ callbacks ref [e].
Proof. unfold callbacks. apply js_filter_app. Qed.
Lemma closes_snoc ref es e : closes ref (es ++ [e]) = (closes ref es + closes ref [e])%nat.
Proof. unfold closes. by rewrite js_filter_app, length_app. Qed.

Lemma same_subs c c' : subs c' = subs c -> Forall2 same_subscription (subs c) (subs c').
Proof. intros ->. induction (subs c); constructor; auto using same_subscription_refl. Qed.

(** An effect that is no close and, for a callback, of an open subscription. *)
Lemma emit_inner_step e c :
  sub_effect c e -> match e with Settled _ _ => False | _ => True end ->
  match e with OnResponse ref _ _ | OnError ref _ => is_closed c ref = false | OnClose _ => False | _ => True end ->
  inner_step c (emit e c).
Proof.
  intros He Hs Hc. split; try done; simpl.
  - apply calls_same; [done| |done]. simpl. rewrite settlements_app.
    assert (settlements [e] = []) as -> by (by destruct e). apply app_nil_r.
  - exists [e]. split; [done|]. by constructor.
  - by apply same_subs.
  - intros [? ? ? ?]. by split.
  - intros ref. rewrite closes_snoc. unfold is_closed. simpl.
    assert (closes ref [e] = 0%nat) as -> by (by destruct e). lia.
  - intros _ ref Hr. rewrite callbacks_snoc.
    assert (callbacks ref [e] = []) as ->; [|by rewrite app_nil_r].
    destruct e; try done; simpl in *; unfold callbacks; simpl;
      (destruct (Nat.eqb_spec ref0 ref); [|done]); subst; congruence.
Qed.

Definition keeps (f : Subscription -> Subscription) : Prop :=
  forall s, requestId (f s) = requestId s /\ sub_method (f s) = sub_method s /\
            sub_params (f s) = sub_params s /\ closed (f s) = closed s.

Lemma lookup_update_sub ref f c ref' :
  subs (update_sub ref f c) !! ref' = (if decide (ref = ref') then f <$> subs c !! ref' else subs c !! ref').
Proof.
  simpl. case_decide as Hd; [subst; by rewrite list_lookup_alter_eq|by rewrite list_lookup_alter_ne].
Qed.

Lemma is_closed_update ref f c ref' :
  keeps f -> is_closed (update_sub ref f c) ref' = is_closed c ref'.
Proof.
  intros Hf. unfold is_closed. rewrite lookup_update_sub.
  destruct (decide (ref = ref')); [|done]. destruct (subs c !! ref') as [s|]; [|done]. simpl. by apply Hf.
Qed.

Lemma subs_tracked_same c c' :
  subscriptions c' = subscriptions c -> (uuids c <= uuids c')%nat ->
  Forall2 (fun s s' => requestId s' = requestId s /\ closed s' = closed s) (subs c) (subs c') ->
  tracked_ok c -> tracked_ok c'.
Proof.
  intros Hm Hu Hs [Hw Ho Hd Hi].
  assert (Hl : forall ref s', subs c' !! ref = Some s' -> exists s, subs c !! ref = Some s /\
            requestId s' = requestId s /\ closed s' = closed s).
  { intros ref s' Hr. by destruct (Forall2_lookup_r _ _ _ _ _ Hs Hr) as (s & ? & ?); exists s. }
  assert (Hl' : forall ref s, subs c !! ref = Some s -> exists s', subs c' !! ref = Some s' /\
            requestId s' = requestId s /\ closed s' = closed s).
  { intros ref s Hr. by destruct (Forall2_lookup_l _ _ _ _ _ Hs Hr) as (s' & ? & ?); exists s'. }
  split.
  - by rewrite Hm.
  - intros r ref. rewrite Hm, Ho. split.
    + intros (s & Hr & <- & Hc). destruct (Hl' _ _ Hr) as (s' & ? & ? & ?). exists s'. split; [done|]. by split; congruence.
    + intros (s' & Hr & <- & Hc). destruct (Hl _ _ Hr) as (s & ? & ? & ?). exists s. split; [done|]. by split; congruence.
  - intros ref ref' s s' Hr Hr' Heq. destruct (Hl _ _ Hr) as (s1 & ? & ? & _), (Hl _ _ Hr') as (s2 & ? & ? & _).
    eapply Hd; eauto. congruence.
  - intros ref s Hr. destruct (Hl _ _ Hr) as (s1 & Hr1 & -> & _). destruct (Hi _ _ Hr1) as (n & ? & ?).
    exists n. split; [lia|done].
Qed.

Lemma Forall2_alter_same {A} (R : A -> A -> Prop) (f : A -> A) i (l : list A) :
  (forall x, R x x) -> (forall x, R x (f x)) -> Forall2 R l (alter f i l).
Proof.
  intros Hr Hf. revert i. induction l as [|x l IH]; intros i; [by destruct i; constructor|].
  destruct i as [|i]; constructor; auto. by apply Forall_Forall2_diag, Forall_true.
Qed.

Lemma update_inner_step ref f c : keeps f -> inner_step c (update_sub ref f c).
Proof.
  intros Hf. split; try done.
  - by apply calls_same.
  - exists []. by rewrite app_nil_r.
  - apply Forall2_alter_same; [apply same_subscription_refl|].
    intros s. unfold same_subscription. destruct (Hf s) as (-> & -> & -> & ->). by repeat split.
  - apply subs_tracked_same; [done|done|]. apply Forall2_alter_same; [done|].
    intros s. by destruct (Hf s) as (-> & _ & _ & ->).
  - intros r. rewrite is_closed_update by done. simpl. lia.
Qed.

Lemma sendEncrypted_step p c :
  match p with CallPayload _ token _ _ => token = deviceToken | AuthPayload _ => False end ->
  (state c = Ready \/ is_cleanup p) -> inner_step c (sendEncrypted p c).1.
Proof.
  intros Hp Hs. unfold sendEncrypted.
  destruct (decide (state c = Ready \/ state c = AwaitingAuthenticated)) as [Hst|Hst].
  - assert (negb (bool_decide (state c = Ready) || bool_decide (state c = AwaitingAuthenticated)) = false) as ->.
    { apply negb_false_iff, orb_true_iff. rewrite !bool_decide_eq_true. done. }
    destruct (ws c) as [i|] eqn:Hw; [|done]. destruct (sharedKey c); [|done].
    destruct (socket_in (Some i) OPEN c) eqn:Ho; [|done]. apply emit_inner_step; [|done|done]. simpl.
    split; [done|]. split; [done|]. split; [done|]. tauto.
  - by rewrite !bool_decide_eq_false_2 by tauto.
Qed.

(** Drawing an id. *)
Lemma uuid_step n c : (uuids c <= n)%nat -> inner_step c (c <| uuids := n |>).
Proof.
  intros Hn. split; try done.
  - by apply calls_same.
  - exists []. by rewrite app_nil_r.
  - by apply same_subs.
  - apply subs_tracked_same; [done|done|]. by apply Forall_Forall2_diag, Forall_true.
Qed.

Lemma sub_cleanup_method s m params : sub_cleanup s = Some (m, params) -> m ∈ cleanup_methods.
Proof.
  unfold sub_cleanup, getCleanupRequest, unsubscribe_method, cleanupBySubscriptionId, cleanup_methods.
  repeat case_match; intros; simplify_eq; set_solver.
Qed.

Lemma sendCleanup_step s cleanup c : sub_cleanup s = Some cleanup -> inner_step c (sendCleanupRequest cleanup c).
Proof.
  destruct cleanup as [m params]. intros Hs%sub_cleanup_method. unfold sendCleanupRequest. etrans.
  - apply uuid_step. apply Nat.le_succ_diag_r.
  - by apply sendEncrypted_step; [|right].
Qed.

Lemma finish_fields ref notify error c s :
  subs c !! ref = Some s -> closed s = false ->
  exists es, finishSubscription ref notify error c =
    c <| subs := alter (fun s => s <| closed := true |>) ref (subs c) |>
      <| subscriptions := delete (requestId s) (subscriptions c) |> <| log := log c ++ es |> /\
  es = match error with Some e => [OnError ref e] | None => [] end ++ (if notify then [OnClose ref] else []).
Proof.
  intros Hr Hc. unfold finishSubscription. rewrite Hr, Hc. eexists. split; [|done].
  destruct error, notify; unfold emit; simpl; by rewrite ?app_nil_r, <-?app_assoc.
Qed.

Lemma finish_closed_tracked ref c s :
  subs c !! ref = Some s -> tracked_ok c -> forall es,
  tracked_ok (c <| subs := alter (fun s => s <| closed := true |>) ref (subs c) |>
      <| subscriptions := delete (requestId s) (subscriptions c) |> <| log := es |>).
Proof.
  intros Hr [Hw Ho Hd Hi] es.
  assert (Hl : forall ref', alter (fun s => s <| closed := true |>) ref (subs c) !! ref' =
     if decide (ref = ref') then Some (s <| closed := true |>) else subs c !! ref').
  { intros ref'. case_decide as Hn; [subst; by rewrite list_lookup_alter_eq, Hr|by rewrite list_lookup_alter_ne]. }
  split; simpl.
  - by apply jm_wf_delete.
  - intros r ref'. rewrite jm_lookup_delete, Hl. case_decide as Hn.
    + split; [done|]. intros (s' & Hs' & <- & Hc'). exfalso. case_decide as Hn'; [by simplify_eq/=|].
      apply Hn'. by apply (Hd ref ref' s s').
    + rewrite Ho. case_decide as Hn'; [|done]. subst ref'. split.
      * intros (s' & Hs' & <- & _). congruence.
      * intros (s' & [= <-] & _ & Hc'). done.
  - intros r1 r2 s1 s2. rewrite !Hl. intros H1 H2 Heq.
    repeat case_decide; simplify_eq/=; try done; eauto using eq_sym.
  - intros r1 s1. rewrite Hl. case_decide; intros; simplify_eq/=; eauto.
Qed.

Lemma finish_step ref notify error c : inner_step c (finishSubscription ref notify error c).
Proof.
  destruct (subs c !! ref) as [s|] eqn:Hr; [|unfold finishSubscription; by rewrite Hr].
  destruct (closed s) eqn:Hc; [unfold finishSubscription; by rewrite Hr, Hc|].
  destruct (finish_fields ref notify error c s Hr Hc) as (es & -> & Hes).
  assert (Hcl : forall r, is_closed c r = true -> (ref =? r)%nat = false).
  { intros r. unfold is_closed. destruct (Nat.eqb_spec ref r); [subst|done]. rewrite Hr. congruence. }
  split; try done; simpl.
  - apply calls_same; [done| |done]. simpl. rewrite settlements_app.
    assert (settlements es = []) as -> by (subst es; by destruct error, notify). apply app_nil_r.
  - exists es. split; [done|]. subst es. destruct error, notify; repeat constructor.
  - apply Forall2_alter_same; [apply same_subscription_refl|]. by repeat split.
  - intros r ref'. rewrite jm_lookup_delete. by case_decide.
  - intros Ht. by apply finish_closed_tracked.
  - intros r. unfold closes. rewrite js_filter_app, length_app. unfold is_closed. simpl.
    destruct (Nat.eqb_spec ref r) as [->|Hn].
    + rewrite list_lookup_alter_eq, Hr. simpl. rewrite Hc. subst es. destruct error, notify; simpl;
        rewrite ?Nat.eqb_refl; simpl; lia.
    + rewrite list_lookup_alter_ne by done.
      assert (length (js_filter (fun e => match e with OnClose r' => (r' =? r)%nat | _ => false end) es) = 0%nat) as ->; [|lia].
      apply Nat.eqb_neq in Hn. subst es. destruct error, notify; simpl; by rewrite ?Hn.
  - intros _ r Hrc. apply Hcl in Hrc. unfold callbacks. rewrite js_filter_app.
    assert (js_filter (fun e => match e with OnResponse r' _ _ | OnError r' _ | OnClose r' => (r' =? r)%nat | _ => false end) es = []) as ->; [|by rewrite app_nil_r].
    subst es. destruct error, notify; simpl; by rewrite ?Hrc.
Qed.

(** ** The operations on subscriptions *)

Lemma foldl_inner_step {A} (f : SharedControl -> A -> SharedControl) l c :
  (forall c' x, x ∈ l -> inner_step c c' -> inner_step c' (f c' x)) -> inner_step c (foldl f c l).
Proof.
  intros Hf. apply (foldl_inv (inner_step c)); [done|]. intros c' x Hx Hc. etrans; [exact Hc|]. by apply Hf.
Qed.

Lemma ready_step c c' : inner_step c c' -> state c = Ready -> state c' = Ready.
Proof. intros Hs. destruct (core_fields _ _ (ss_core _ _ Hs)) as (-> & _). done. Qed.

Lemma markUnsent_step c : inner_step c (markUnsent c).
Proof. apply foldl_inner_step. intros c' ref _ _. by apply update_inner_step. Qed.

Lemma sendSubscription_step ref c : state c = Ready -> inner_step c (sendSubscription ref c).
Proof.
  intros Hr. unfold sendSubscription. destruct (subs c !! ref) as [s|]; [|done].
  destruct (closed s || sent s); [done|].
  pose proof (sendEncrypted_step (CallPayload (requestId s) deviceToken (sub_method s) (sub_params s))
                c eq_refl (or_introl Hr)) as Hs.
  destruct (sendEncrypted _ c) as [c1 ok]. simpl in Hs. etrans; [exact Hs|].
  destruct ok; [by apply update_inner_step|apply finish_step].
Qed.

Lemma replay_one_step tag ref c : state c = Ready -> inner_step c (replay_one tag ref c).
Proof.
  intros Hr. unfold replay_one. destruct (subs c !! ref) as [s|]; [|done].
  destruct (closeAfterReady s); [done|]. etrans; [|by apply sendSubscription_step].
  apply update_inner_step. intros s'. by destruct tag.
Qed.

Lemma everReady_step b c : inner_step c (c <| everReady := b |>).
Proof.
  split; try done.
  - by apply calls_same.
  - exists []. by rewrite app_nil_r.
  - by apply same_subs.
  - apply subs_tracked_same; [done|done|]. by apply Forall_Forall2_diag, Forall_true.
Qed.

Lemma replaySubscriptions_step c : state c = Ready -> inner_step c (replaySubscriptions c).
Proof.
  intros Hr. unfold replaySubscriptions. etrans; [|apply everReady_step].
  apply foldl_inner_step. intros c' ref _ Hc'. apply replay_one_step. by eapply ready_step.
Qed.

Lemma closeLogicalSubscription_step ref s c : inner_step c (closeLogicalSubscription ref s c).
Proof.
  unfold closeLogicalSubscription. destruct (sub_cleanup s) as [cleanup|] eqn:Hs.
  - etrans; [apply finish_step|]. by eapply sendCleanup_step.
  - destruct (_ && _); [by apply update_inner_step|apply finish_step].
Qed.

Lemma closeSubscription_step r c : inner_step c (closeSubscription r c).
Proof.
  unfold closeSubscription. destruct (subscriptions c !! r) as [ref|]; [|done].
  destruct (subs c !! ref); [|done]. apply closeLogicalSubscription_step.
Qed.

Lemma note_id_keeps response : keeps (note_id response).
Proof.
  intros s. unfold note_id. by destruct (response_ok response), (getSubscriptionId (response_result response)).
Qed.

(** What a response writes to its subscription. *)
Definition respond (response : RuntimeRpcResponse) (s : Subscription) : Subscription :=
  let s := s <| awaitingResubscribe := false |> in
  let s := if negb (response_ok response) then s <| sent := false |> else s in
  note_id response s <| pendingReplayTag := false |>.

Lemma respond_keeps response : keeps (respond response).
Proof.
  intros s. unfold respond, note_id. by destruct (response_ok response), (getSubscriptionId (response_result response)).
Qed.

Lemma handleSubscriptionResponse_step ref s response c :
  is_closed c ref = false -> inner_step c (handleSubscriptionResponse ref s response c).
Proof.
  intros Hc. unfold handleSubscriptionResponse.
  change (fun s : Subscription => _) with (respond response).
  set (c1 := update_sub ref (respond response) c).
  assert (H1 : inner_step c c1) by (apply update_inner_step, respond_keeps).
  set (c2 := emit _ c1).
  assert (H2 : inner_step c1 c2).
  { apply emit_inner_step; [done|done|]. unfold c1. rewrite is_closed_update; [done|apply respond_keeps]. }
  transitivity c2; [by transitivity c1|].
  destruct (response_ok response && isEndResult _); [apply finish_step|done].
Qed.

Lemma handleLogicalResponse_step ref s response c :
  is_closed c ref = false -> inner_step c (handleLogicalResponse ref s response c).
Proof.
  intros Hc. unfold handleLogicalResponse.
  destruct (negb (closeAfterReady s)); [by apply handleSubscriptionResponse_step|].
  etrans; [|apply finish_step]. destruct (response_ok response); [|done].
  etrans; [apply update_inner_step, note_id_keeps|].
  destruct (sub_cleanup (note_id response s)) as [cleanup|] eqn:Hs; [|done]. by eapply sendCleanup_step.
Qed.

Lemma finishCloseAfterReady_step c : inner_step c (finishCloseAfterReady c).
Proof.
  apply foldl_inner_step. intros c' ref _ _. destruct (subs c' !! ref) as [s|]; [|done].
  destruct (closeAfterReady s); [apply finish_step|done].
Qed.

Lemma finish_all_step error c :
  inner_step c (foldl (fun c ref => finishSubscription ref true error c) c (jm_values (subscriptions c))).
Proof. apply foldl_inner_step. intros c' ref _ _. apply finish_step. Qed.

Lemma close_all_step c l : inner_step c (foldl (fun c r => closeSubscription r c) c l).
Proof. apply foldl_inner_step. intros c' r _ _. apply closeSubscription_step. Qed.

Lemma start_step ref error c :
  (error = None -> state c = Ready) ->
  inner_step c (run_job {| job_continuation := StartSubscription ref; job_error := error |} c).
Proof.
  intros Hr. unfold run_job. simpl. destruct error as [e|].
  - etrans; [apply finish_step|]. by apply emit_inner_step.
  - destruct (subs c !! ref) as [s|]; [|done]. case_bool_decide.
    + etrans; [by apply (sendSubscription_step ref), Hr|]. by apply emit_inner_step.
    + by apply emit_inner_step.
Qed.

Lemma finish_closes ref notify error c :
  is_Some (subs c !! ref) -> is_closed (finishSubscription ref notify error c) ref = true.
Proof.
  intros [s Hr]. destruct (closed s) eqn:Hc.
  - unfold finishSubscription. rewrite Hr, Hc. unfold is_closed. by rewrite Hr.
  - destruct (finish_fields ref notify error c s Hr Hc) as (es & -> & _). unfold is_closed. simpl.
    by rewrite list_lookup_alter_eq, Hr.
Qed.

Lemma finish_all_closes error l c ref :
  ref ∈ l -> is_Some (subs c !! ref) ->
  is_closed (foldl (fun c ref => finishSubscription ref true error c) c l) ref = true.
Proof.
  revert c. induction l as [|x l IH]; intros c; [by rewrite elem_of_nil|]. simpl.
  intros [->|Hin]%elem_of_cons Hs.
  - eapply is_closed_mono; [|by apply (finish_closes x true error c)].
    apply ss_subs, foldl_inner_step. intros. apply finish_step.
  - apply IH; [done|]. destruct Hs as [s Hs].
    destruct (Forall2_lookup_l _ _ _ _ _ (ss_subs _ _ (finish_step x true error c)) Hs) as (s' & -> & _).
    done.
Qed.

(** After finishing every tracked subscription, none is left. *)
Lemma finish_all_empty error c :
  tracked_ok c ->
  subscriptions (foldl (fun c ref => finishSubscription ref true error c) c (jm_values (subscriptions c))) = ∅.
Proof.
  intros Ht. pose proof (finish_all_step error c) as Hs.
  set (c' := foldl _ c _) in *. apply jm_no_lookup. intros r.
  destruct (subscriptions c' !! r) as [ref|] eqn:Hr; [|done]. exfalso.
  destruct (proj1 (t_open _ (ss_tracked _ _ Hs Ht) r ref) Hr) as (s & Hs' & _ & Hc).
  assert (Hin : ref ∈ jm_values (subscriptions c)) by (eapply jm_lookup_values, ss_map; eauto).
  assert (Hcl : is_closed c' ref = true).
  { apply finish_all_closes; [done|]. apply (ss_map _ _ Hs) in Hr.
    destruct (proj1 (t_open _ Ht r ref) Hr) as (s0 & -> & _). done. }
  unfold is_closed in Hcl. rewrite Hs' in Hcl. congruence.
Qed.

(** ** The operations on calls *)

(** A step that touches pending calls, timers and the log of settlements only. *)
Lemma pending_step pending timers es c :
  (forall r p, pending !! r = Some p -> pendingRequests c !! r = Some p) ->
  (calls_ok c -> calls_ok (c <| pendingRequests := pending |> <| timeouts := timers |> <| log := log c ++ es |>)) ->
  Forall (fun e => match e with Settled _ _ => True | _ => False end) es ->
  inner_step c (c <| pendingRequests := pending |> <| timeouts := timers |> <| log := log c ++ es |>).
Proof.
  intros Hp Hc He.
  assert (Hfilter : forall f : Effect -> bool, (forall e, match e with Settled _ _ => True | _ => False end -> f e = false) ->
    js_filter f (log c ++ es) = js_filter f (log c)).
  { intros f Hf. rewrite js_filter_app, (js_filter_none f es), app_nil_r; [done|].
    eapply Forall_impl; [exact He|]. auto. }
  split; try done; simpl.
  - exists es. split; [done|]. eapply Forall_impl; [exact He|]. by intros [].
  - by apply same_subs.
  - by apply subs_tracked_same; [done|done|apply Forall_Forall2_diag, Forall_true].
  - intros ref. unfold closes. rewrite Hfilter by (by intros []). unfold is_closed. simpl. lia.
  - intros _ ref _. apply Hfilter. by intros [].
Qed.

Lemma settlePending_step r o c : inner_step c (settlePending r o c).
Proof.
  unfold settlePending. destruct (pendingRequests c !! r) as [p|] eqn:Hr; [|done].
  refine (pending_step (delete r (pendingRequests c)) (delete r (timeouts c)) [Settled (promise p) o] c _ _ _).
  - intros r' p'. rewrite jm_lookup_delete. by case_decide.
  - intros [H1 H2 H3 H4 H5]. split; simpl.
    + by apply jm_wf_delete.
    + by apply jm_wf_delete.
    + intros r'. rewrite !jm_lookup_delete. by case_decide.
    + intros r'. rewrite jm_lookup_delete. case_decide; [by intros []|auto].
    + rewrite <-H5, settlements_app. pose proof (jm_delete_perm _ _ _ H1 Hr) as Hperm.
      apply (fmap_Permutation (fun x => promise x.2)) in Hperm.
      change (settlements [Settled (promise p) o]) with [promise p].
      unfold jm_values. rewrite <-(app_assoc _ [_]). apply Permutation_app_head.
      rewrite !map_map. symmetry. exact Hperm.
  - by constructor.
Qed.

Lemma rejectAllPending_step error c : inner_step c (rejectAllPending error c).
Proof. apply foldl_inner_step. intros c' r _ _. apply settlePending_step. Qed.

Lemma settle_all_gone (o : Outcome) l c r :
  r ∈ l -> pendingRequests (foldl (fun c r => settlePending r o c) c l) !! r = None.
Proof.
  revert c. induction l as [|x l IH]; intros c; [by rewrite elem_of_nil|]. simpl.
  intros [->|Hin]%elem_of_cons; [|by apply IH].
  assert (Hs : inner_step (settlePending x o c) (foldl (fun c r => settlePending r o c) (settlePending x o c) l))
    by (apply foldl_inner_step; intros; apply settlePending_step).
  destruct (pendingRequests (foldl _ _ l) !! x) as [p|] eqn:Hp; [|done]. exfalso.
  apply (ss_pending _ _ Hs) in Hp. unfold settlePending in Hp.
  destruct (pendingRequests c !! x) eqn:Hx; [|congruence].
  unfold emit, forget in Hp. simpl in Hp. by rewrite jm_lookup_delete_eq in Hp.
Qed.

Lemma rejectAllPending_empty error c : pendingRequests (rejectAllPending error c) = ∅.
Proof.
  apply jm_no_lookup. intros r.
  destruct (pendingRequests (rejectAllPending error c) !! r) as [p|] eqn:Hr; [|done]. exfalso.
  pose proof (ss_pending _ _ (rejectAllPending_step error c) r p Hr) as Hp.
  unfold rejectAllPending in Hr. rewrite settle_all_gone in Hr; [done|].
  apply (jm_is_Some_key (pendingRequests c)). by eexists.
Qed.

Lemma refreshTimeouts_step now c : inner_step c (refreshTimeouts now c).
Proof.
  apply foldl_inner_step. intros c' [r p] _ _. destruct (refreshTimeoutOnKeepalive p); [|done].
  destruct (timeouts c' !! r) as [t|] eqn:Ht; [|done].
  pose proof (pending_step (pendingRequests c') (<[r := {| delay := delay t; deadline := now + delay t |}]> (timeouts c')) [] c') as Hs.
  rewrite app_nil_r in Hs. apply Hs; [done| |constructor].
  intros [H1 H2 H3 H4 H5]. split; simpl; auto.
  - by apply jm_wf_insert.
  - intros r'. rewrite jm_lookup_insert. case_decide as Hr; [|done]. subst. rewrite <-H3, Ht. done.
Qed.

Lemma sendRequest_step r m params c : state c = Ready -> inner_step c (sendRequest r m params c).
Proof.
  intros Hr. unfold sendRequest. destruct (negb (jm_has r (pendingRequests c))); [done|].
  pose proof (sendEncrypted_step (CallPayload r deviceToken m params) c eq_refl (or_introl Hr)) as Hs.
  destruct (sendEncrypted _ c) as [c1 ok]. simpl in Hs. destruct ok; [done|].
  etrans; [exact Hs|apply settlePending_step].
Qed.

(** ** Continuations and responses *)

Lemma run_job_step j c : (job_error j = None -> state c = Ready) -> inner_step c (run_job j c).
Proof.
  destruct j as [[r m params|ref] error]; intros Hr; simpl in Hr.
  - unfold run_job. simpl. destruct error; [apply settlePending_step|by apply sendRequest_step, Hr].
  - by apply start_step.
Qed.

(** A continuation of a fulfilled promise runs on a ready connection. *)
Definition jobs_ok c : Prop := Forall (fun j => job_error j = None -> state c = Ready) (jobs c).

Lemma drain_inner c : jobs_ok c -> inner_step (c <| jobs := [] |>) (drain c).
Proof.
  intros Hj. apply foldl_inner_step. intros c' j Hin Hs. apply run_job_step.
  unfold jobs_ok in Hj. rewrite Forall_forall in Hj. intros He. eapply ready_step; [exact Hs|]. exact (Hj j Hin He).
Qed.

Lemma dispatchResponse_step response c :
  tracked_ok c -> inner_step c (dispatchResponse response c).
Proof.
  intros Ht. unfold dispatchResponse. set (c1 := emit (Received response) c).
  assert (H1 : inner_step c c1) by (by apply emit_inner_step).
  destruct (subscriptions c1 !! response_id response) as [ref|] eqn:Hr.
  - destruct (proj1 (t_open _ Ht _ ref) Hr) as (s & Hs & _ & Hc).
    change (subs c1 !! ref) with (subs c !! ref). rewrite Hs.
    etrans; [exact H1|]. apply handleLogicalResponse_step. unfold is_closed. simpl. by rewrite Hs.
  - etrans; [exact H1|]. apply settlePending_step.
Qed.
End Facts.
