(* ===== verification/SharedControlRuns.v ===== *)
(** * The shared control connection: invariants of its runs

    [outer_step] is the preorder every handler respects; [net_ok] and [idle_ok] say
    how the socket, the reconnect timer, the calls and the waiters go together. The
    theorems: calls settle once, the connection recovers or finishes, a finished
    subscription stays silent. *)

From S2P Require Import Prelude JsMap Json SharedControlFrames SocketLiveness SharedControl.
From S2P Require Import SharedControlFacts.

Local Open Scope string_scope.
Local Open Scope list_scope.
Local Open Scope Z_scope.

Section Runs.
Context `{RuntimeEnv} `{Config}.
Implicit Types c : SharedControl.

(** ** What every handler preserves *)

(** A waiter that is not settled is listed, with its timer armed. *)
Definition waiters_ok c : Prop :=
  forall i w, waiters c !! i = Some w ->
    armed w = negb (settled w) /\ (settled w = false -> i ∈ readyWaiters c).

Record outer_step c c' : Prop := {
  o_calls : calls_ok c -> calls_ok c';
  o_tracked : tracked_ok c -> tracked_ok c';
  o_waiters : waiters_ok c -> waiters_ok c';
  o_closed : forall ref, is_closed c ref = true -> is_closed c' ref = true;
  o_once : forall ref, (closes ref (log c') + (if is_closed c ref then 1 else 0) <=
                        closes ref (log c) + (if is_closed c' ref then 1 else 0))%nat;
  o_quiet : tracked_ok c -> forall ref, is_closed c ref = true ->
    callbacks ref (log c') = callbacks ref (log c) }.

#[export] Instance outer_step_preorder : PreOrder outer_step.
Proof.
  split; [by intros c; split|].
  intros c1 c2 c3 [A1 A2 A3 A4 A5 A6] [B1 B2 B3 B4 B5 B6]. split; auto.
  - intros ref. specialize (A5 ref). specialize (B5 ref). lia.
  - intros Ht ref Hc. rewrite B6; auto.
Qed.

Lemma inner_outer c c' : inner_step c c' -> outer_step c c'.
Proof.
  intros Hs. split.
  - apply (ss_calls _ _ Hs).
  - apply (ss_tracked _ _ Hs).
  - pose proof (ss_waiting _ _ Hs) as Hw. injection Hw as E1 E2 E3. unfold waiters_ok.
    by rewrite E1, E2.
  - intros ref. apply is_closed_mono, Hs.
  - apply Hs.
  - apply Hs.
Qed.

(** A write outside the calls, the subscriptions and the waiters, and effects that
    are neither callbacks nor settlements. *)
Definition plain (e : Effect) : Prop :=
  match e with
  | SocketOpened _ | HelloSent _ | Send _ _ | PingSent _ | SocketClose _ | SocketTerminate _
  | BecameReady _ | UncaughtException _ => True
  | _ => False
  end.

Lemma plain_filter (f : Effect -> bool) es :
  (forall e, plain e -> f e = false) -> Forall plain es -> js_filter f es = [].
Proof. intros Hf Hes. apply js_filter_none. eapply Forall_impl; [exact Hes|]. auto. Qed.

Lemma plain_settlements es : Forall plain es -> settlements es = [].
Proof. unfold settlements. induction 1 as [|e es He _ IH]; [done|]. by destruct e. Qed.

Lemma plain_outer c c' es :
  calls c' = calls c -> subscriptions c' = subscriptions c -> subs c' = subs c ->
  readyWaiters c' = readyWaiters c -> waiters c' = waiters c -> uuids c' = uuids c ->
  log c' = log c ++ es -> Forall plain es -> outer_step c c'.
Proof.
  intros Hc Hm Hs Hr Hw Hu Hl Hes. unfold is_closed. split.
  - apply calls_same; [done| |lia]. rewrite Hl, settlements_app.
    rewrite (plain_settlements es Hes). apply app_nil_r.
  - apply subs_tracked_same; [done|lia|]. rewrite Hs. by apply Forall_Forall2_diag, Forall_true.
  - unfold waiters_ok. by rewrite Hw, Hr.
  - unfold is_closed. by rewrite Hs.
  - intros ref. unfold is_closed. rewrite Hs, Hl. unfold closes. rewrite js_filter_app, length_app.
    rewrite (plain_filter _ es); [simpl; lia| |done].
    by intros [].
  - intros _ ref _. rewrite Hl. unfold callbacks. rewrite js_filter_app, (plain_filter _ es), app_nil_r; [done| |done].
    by intros [].
Qed.

(** The special case of a record update. *)
Ltac plain_step es := apply (plain_outer _ _ es); try done; [by rewrite ?app_nil_r|repeat constructor].

(** ** Waiters *)

(** [c'] is [c] but for its waiters, listed or settled, and the queued jobs. *)
Definition settled_state c c' : Prop :=
  exists ws' js, c' = c <| readyWaiters := [] |> <| waiters := ws' |> <| jobs := jobs c ++ js |>.

Lemma settleWaiter_fields i error c :
  exists ws' js, settleWaiter i error c = c <| waiters := ws' |> <| jobs := jobs c ++ js |> /\
    (forall j, j ∈ js -> job_error j = error /\
       exists w, waiters c !! i = Some w /\ settled w = false /\ job_continuation j = continuation w) /\
    (forall k w', ws' !! k = Some w' -> exists w, waiters c !! k = Some w /\
       continuation w' = continuation w /\
       (if decide (k = i) then settled w' = true /\ armed w' = false \/ w' = w /\ settled w = true else w' = w)).
Proof.
  unfold settleWaiter. destruct (waiters c !! i) as [w|] eqn:Hi.
  - destruct (settled w) eqn:Hs.
    + exists (waiters c), []. rewrite app_nil_r. split; [by destruct c|]. split; [by intros j ?%elem_of_nil|].
      intros k w' Hk. exists w'. split; [done|]. split; [done|].
      case_decide; [|done]. right. split; [done|]. congruence.
    + eexists _, [_]. split; [reflexivity|]. split.
      * intros j ->%list_elem_of_singleton. split; [done|]. by exists w.
      * intros k w'. destruct (decide (k = i)) as [->|Hn].
        -- rewrite list_lookup_insert_eq by (by eapply lookup_lt_Some). intros [= <-].
           exists w. split; [done|]. split; [done|]. by left.
        -- rewrite list_lookup_insert_ne by done. eauto.
  - exists (waiters c), []. rewrite app_nil_r. split; [by destruct c|]. split; [by intros j ?%elem_of_nil|].
    intros k w' Hk. exists w'. split; [done|]. split; [done|]. case_decide; [congruence|done].
Qed.

Lemma settleWaiters_fields l error c :
  exists ws' js,
    foldl (fun c i => settleWaiter i error c) c l = c <| waiters := ws' |> <| jobs := jobs c ++ js |> /\
    (forall j, j ∈ js -> job_error j = error /\
       exists i w, i ∈ l /\ waiters c !! i = Some w /\ settled w = false /\ job_continuation j = continuation w) /\
    (forall k w', ws' !! k = Some w' -> exists w, waiters c !! k = Some w /\
       continuation w' = continuation w /\
       ((settled w' = true /\ armed w' = false) \/ w' = w /\ (k ∉ l \/ settled w = true))).
Proof.
  revert c. induction l as [|i l IH]; intros c; simpl.
  - exists (waiters c), []. rewrite app_nil_r. split; [by destruct c|]. split; [by intros j ?%elem_of_nil|].
    intros k w' Hk. exists w'. split; [done|]. split; [done|]. right. split; [done|]. left. by apply not_elem_of_nil.
  - destruct (settleWaiter_fields i error c) as (ws1 & js1 & E1 & J1 & W1). rewrite E1.
    set (c1 := c <| waiters := ws1 |> <| jobs := jobs c ++ js1 |>).
    destruct (IH c1) as (ws2 & js2 & E2 & J2 & W2). rewrite E2.
    exists ws2, (js1 ++ js2). split; [unfold c1; simpl; by rewrite app_assoc|]. split.
    + intros j [Hj|Hj]%elem_of_app.
      * destruct (J1 j Hj) as (He & w & Hw & Hs & Hk). split; [done|]. exists i, w. set_solver.
      * destruct (J2 j Hj) as (He & k & w' & Hin & Hw' & Hs' & Hk'). split; [done|].
        destruct (W1 k w' Hw') as (w & Hw & Hc & Hd). exists k, w. split; [set_solver|].
        split; [done|]. split; [|congruence].
        case_decide; [destruct Hd as [[? ?]|[-> ?]]; congruence|congruence].
    + intros k w2 Hk2. destruct (W2 k w2 Hk2) as (w1 & Hk1 & Hc1 & H1).
      destruct (W1 k w1 Hk1) as (w & Hk & Hc & Hd). exists w. split; [done|]. split; [congruence|].
      destruct H1 as [H1|[-> H1]]; [by left|].
      destruct (decide (k = i)) as [->|Hn].
      * destruct Hd as [?|[-> ?]]; [by left|]. right. split; [done|]. by right.
      * subst w1. right. split; [done|]. destruct H1; [left; set_solver|by right].
Qed.

Lemma settleReadyWaiters_fields error c :
  exists ws' js,
    settleReadyWaiters error c =
      c <| readyWaiters := [] |> <| waiters := ws' |> <| jobs := jobs c ++ js |> /\
    (forall j, j ∈ js -> job_error j = error /\
       exists i w, i ∈ readyWaiters c /\ waiters c !! i = Some w /\ settled w = false /\
                   job_continuation j = continuation w) /\
    (forall k w', ws' !! k = Some w' -> exists w, waiters c !! k = Some w /\ continuation w' = continuation w) /\
    (waiters_ok c -> forall k w', ws' !! k = Some w' -> settled w' = true /\ armed w' = false).
Proof.
  unfold settleReadyWaiters.
  destruct (settleWaiters_fields (readyWaiters c) error (c <| readyWaiters := [] |>)) as (ws' & js & E & J & W).
  exists ws', js. split; [exact E|]. split; [exact J|]. split.
  - intros k w' Hk. destruct (W k w' Hk) as (w & ? & ? & _). by exists w.
  - intros Hok k w' Hk. destruct (W k w' Hk) as (w & Hw & _ & [?|[-> Hd]]); [done|].
    simpl in Hw. destruct (Hok k w Hw) as [Ha Hl]. destruct (settled w) eqn:Hs; [by rewrite Ha|].
    destruct Hd as [Hd|]; [|done]. by destruct (Hd (Hl eq_refl)).
Qed.

Lemma settleReadyWaiters_outer error c : outer_step c (settleReadyWaiters error c).
Proof.
  destruct (settleReadyWaiters_fields error c) as (ws' & js & -> & _ & _ & Hok). split; try done; simpl.
  - by apply calls_same.
  - by apply subs_tracked_same; [done|done|apply Forall_Forall2_diag, Forall_true].
  - intros Hw k w' Hk. destruct (Hok Hw k w' Hk) as [-> ->]. done.
Qed.

(** ** Closing the socket *)

(** The socket's own state does not matter to the calls and subscriptions. *)
Lemma socket_update_outer sock f c es :
  Forall plain es -> outer_step c (update_socket sock f c <| log := log c ++ es |>).
Proof. intros Hes. by apply (plain_outer _ _ es). Qed.

Lemma detach_outer sock c : outer_step c (detach sock c).
Proof. unfold detach. apply (plain_outer _ _ []); try done. by rewrite app_nil_r. Qed.

Lemma close_object_outer sock c : outer_step c (close_socket_object sock c).
Proof. apply (plain_outer _ _ [SocketClose sock]); try done. by repeat constructor. Qed.

(** The error every waiter and call gets. *)
Definition closing_error (error : option Error) : Error :=
  default (remoteRuntimeUnavailableError closed_message) error.

(** The state once the socket's users are told. *)
Definition told (error : option Error) c : SharedControl :=
  markUnsent (rejectAllPending error
    (settleReadyWaiters (Some (closing_error error)) (finishCloseAfterReady (c <| readyStableReset := false |>)))).

Lemma closeSocket_told error c :
  closeSocket error c =
    (let c := told error c in
     let c := match socketCleanup c with Some sock => detach sock c | None => c end in
     match ws c with Some sock => close_socket_object sock c | None => c end)
    <| ws := None |> <| sharedKey := None |> <| socketCleanup := None |> <| state := Closed |>.
Proof. done. Qed.

Lemma told_outer error c : outer_step c (told error c).
Proof.
  unfold told. etrans; [|apply inner_outer, markUnsent_step].
  etrans; [|apply inner_outer, rejectAllPending_step].
  etrans; [|apply settleReadyWaiters_outer].
  etrans; [|apply inner_outer, finishCloseAfterReady_step].
  apply (plain_outer _ _ []); try done. by rewrite app_nil_r.
Qed.

(** A job that tells a waiter of the connection the error. *)
Definition telling (error : option Error) c (j : Job) : Prop :=
  job_error j = error /\
  exists i w, i ∈ readyWaiters c /\ waiters c !! i = Some w /\ settled w = false /\
              job_continuation j = continuation w.

Lemma told_fields error c :
  let c' := told error c in
  core c' = core (c <| readyStableReset := false |>) /\ sockets c' = sockets c /\
  pendingRequests c' = ∅ /\ readyWaiters c' = [] /\
  (forall r ref, subscriptions c' !! r = Some ref -> subscriptions c !! r = Some ref) /\
  (forall j, j ∈ jobs c' -> j ∈ jobs c \/ telling (Some (closing_error error)) c j).
Proof.
  unfold told. set (c1 := c <| readyStableReset := false |>).
  pose proof (finishCloseAfterReady_step c1) as S2. set (c2 := finishCloseAfterReady c1) in *.
  destruct (settleReadyWaiters_fields (Some (closing_error error)) c2) as (ws' & js & E3 & J3 & _).
  set (c3 := settleReadyWaiters _ c2) in *.
  pose proof (rejectAllPending_step error c3) as S4. pose proof (rejectAllPending_empty error c3) as P4.
  set (c4 := rejectAllPending error c3) in *. pose proof (markUnsent_step c4) as S5.
  set (c5 := markUnsent c4) in *. cbn zeta.
  assert (Hw2 : waiting c2 = waiting c1) by apply S2. injection Hw2 as R2 W2 Jb2.
  assert (Hw5 : waiting c5 = waiting c3) by (rewrite (ss_waiting _ _ S5); apply S4).
  injection Hw5 as R5 W5 Jb5.
  split; [|split; [|split; [|split; [|split]]]].
  - rewrite (ss_core _ _ S5), (ss_core _ _ S4), E3. change (core (_ <| readyWaiters := _ |> <| waiters := _ |> <| jobs := _ |>)) with (core c2).
    apply S2.
  - rewrite (ss_sockets _ _ S5), (ss_sockets _ _ S4), E3. simpl. rewrite (ss_sockets _ _ S2). done.
  - apply jm_no_lookup. intros r. destruct (pendingRequests c5 !! r) eqn:Hr; [|done].
    apply (ss_pending _ _ S5) in Hr. rewrite P4 in Hr. done.
  - rewrite R5, E3. done.
  - intros r ref Hr. apply (ss_map _ _ S5), (ss_map _ _ S4) in Hr. rewrite E3 in Hr. by apply (ss_map _ _ S2) in Hr.
  - intros j. rewrite Jb5, E3. simpl. rewrite Jb2. intros [Hj|Hj]%elem_of_app; [by left|right].
    destruct (J3 j Hj) as (He & k & w & Hk). unfold telling. rewrite R2, W2 in Hk. eauto.
Qed.

Lemma closeSocket_outer error c : outer_step c (closeSocket error c).
Proof.
  rewrite closeSocket_told. cbn zeta. etrans; [apply (told_outer error)|].
  set (c1 := told error c). set (c2 := match socketCleanup c1 with Some sock => detach sock c1 | None => c1 end).
  transitivity c2; [unfold c2; destruct (socketCleanup c1); [apply detach_outer|done]|].
  set (c3 := match ws c2 with Some sock => close_socket_object sock c2 | None => c2 end).
  transitivity c3; [unfold c3; destruct (ws c2); [apply close_object_outer|done]|].
  apply (plain_outer _ _ []); try done. by rewrite app_nil_r.
Qed.

(** The rest of the state is as [told] leaves it. *)
Lemma closeSocket_fields error c :
  let c' := closeSocket error c in
  state c' = Closed /\ ws c' = None /\ sharedKey c' = None /\ socketCleanup c' = None /\
  readyStableReset c' = false /\ pendingRequests c' = ∅ /\ readyWaiters c' = [] /\
  reconnectTimer c' = reconnectTimer c /\ reconnectAttempt c' = reconnectAttempt c /\
  intentionallyClosed c' = intentionallyClosed c /\
  (forall r ref, subscriptions c' !! r = Some ref -> subscriptions c !! r = Some ref) /\
  (forall j, j ∈ jobs c' -> j ∈ jobs c \/ telling (Some (closing_error error)) c j).
Proof.
  rewrite closeSocket_told. cbn zeta.
  destruct (told_fields error c) as (Hc & _ & Hp & Hw & Hm & Hj).
  set (c1 := told error c) in *. destruct (core_fields _ _ Hc) as (_ & _ & _ & _ & Hr & Hs & Ha & Hi).
  destruct (socketCleanup c1), (ws c1) eqn:Ew; simpl; rewrite ?Ew; simpl; repeat split; auto.
Qed.

(** ** How the parts go together *)

Record net_ok c : Prop := {
  n_attempt : (reconnectAttempt c <= length delaysMs)%nat;
  n_socket : forall i, ws c = Some i ->
    state c ≠ Closed /\ is_Some (sharedKey c) /\ socketCleanup c = Some i /\ reconnectTimer c = None /\
    intentionallyClosed c = false /\ (readyWaiters c ≠ [] -> state c ≠ Ready) /\
    exists s, sockets c !! i = Some s /\ listening s = true /\
              (state c ≠ AwaitingReady -> readyState s ≠ CONNECTING);
  n_none : ws c = None ->
    state c = Closed /\ sharedKey c = None /\ socketCleanup c = None /\ readyStableReset c = false /\
    readyWaiters c = [] /\ (intentionallyClosed c = true -> reconnectTimer c = None) }.

(** Without a socket no call waits, and a subscription waits for the timer. *)
Definition idle_ok c : Prop :=
  ws c = None ->
  pendingRequests c = ∅ /\
  (subscriptions c ≠ ∅ -> intentionallyClosed c = false /\ is_Some (reconnectTimer c)).

(** Between events. *)
Record conn_ok c : Prop := {
  k_jobs : jobs c = [];
  k_calls : calls_ok c;
  k_tracked : tracked_ok c;
  k_waiters : waiters_ok c;
  k_net : net_ok c;
  k_idle : idle_ok c }.

(** At the end of a handler. *)
Record handled c c' : Prop := {
  h_outer : outer_step c c';
  h_jobs : jobs_ok c';
  h_net : net_ok c';
  h_idle : idle_ok c' }.

Lemma net_ok_inner c c' : inner_step c c' -> net_ok c -> net_ok c'.
Proof.
  intros Hs [H1 H2 H3]. destruct (core_fields _ _ (ss_core _ _ Hs)) as (E1 & E2 & E3 & E4 & E5 & E6 & E7 & E8).
  pose proof (ss_waiting _ _ Hs) as Hw. injection Hw as R _ _.
  split; rewrite ?E1, ?E2, ?E3, ?E4, ?E5, ?E6, ?E7, ?E8, ?(ss_sockets _ _ Hs), ?R; done.
Qed.

Lemma map_empty_inner {V} (m m' : jsmap string V) :
  (forall r x, m' !! r = Some x -> m !! r = Some x) -> m = ∅ -> m' = ∅.
Proof.
  intros Hm ->. apply jm_no_lookup. intros r. destruct (m' !! r) eqn:E; [|done]. by apply Hm in E.
Qed.

Lemma idle_ok_inner c c' : inner_step c c' -> idle_ok c -> idle_ok c'.
Proof.
  intros Hs Hi. destruct (core_fields _ _ (ss_core _ _ Hs)) as (E1 & E2 & E3 & E4 & E5 & E6 & E7 & E8).
  unfold idle_ok. rewrite E2, E5, E8. intros Hw. destruct (Hi Hw) as [Hp Hm]. split.
  - eapply map_empty_inner; [apply Hs|done].
  - intros Hne. apply Hm. intros He. apply Hne. eapply map_empty_inner; [apply Hs|done].
Qed.

Lemma drain_conn_ok c c' : conn_ok c -> handled c c' -> conn_ok (drain c').
Proof.
  intros [_ K1 K2 K3 _ _] [Ho Hj Hn Hi]. pose proof (drain_inner c' Hj) as Hd.
  assert (Hclear : net_ok (c' <| jobs := [] |>)) by (by destruct Hn; split).
  split.
  - pose proof (ss_waiting _ _ Hd) as Hw. by injection Hw.
  - apply (ss_calls _ _ Hd). eapply calls_same; [| | |by apply (o_calls _ _ Ho)]; done.
  - apply (ss_tracked _ _ Hd). eapply subs_tracked_same; [| | |by apply (o_tracked _ _ Ho)]; [done|done|].
    by apply Forall_Forall2_diag, Forall_true.
  - apply (o_waiters _ _ (inner_outer _ _ Hd)). by apply (o_waiters _ _ Ho).
  - by eapply net_ok_inner.
  - by eapply idle_ok_inner.
Qed.

Lemma inner_handled c c' : conn_ok c -> inner_step c c' -> handled c c'.
Proof.
  intros [K0 K1 K2 K3 K4 K5] Hs. split.
  - by apply inner_outer.
  - unfold jobs_ok. pose proof (ss_waiting _ _ Hs) as Hw. injection Hw as _ _ ->. by rewrite K0.
  - by eapply net_ok_inner.
  - by eapply idle_ok_inner.
Qed.

(** ** Losing the socket *)

Definition jobs_failed c : Prop := Forall (fun j => is_Some (job_error j)) (jobs c).

Lemma jobs_failed_ok c : jobs_failed c -> jobs_ok c.
Proof. intros Hj. eapply Forall_impl; [exact Hj|]. by intros j [e He] Hn; rewrite Hn in He. Qed.

Lemma size_nonempty {V} (m : jsmap string V) : (0 <? jm_size m) = false -> m = ∅.
Proof. intros Hs%Z.ltb_ge. apply jm_size_zero. pose proof (jm_size_nonneg m). lia. Qed.

Lemma scheduleReconnect_spec c :
  tracked_ok c -> ws c = None -> pendingRequests c = ∅ -> intentionallyClosed c = false -> net_ok c ->
  (subscriptions c ≠ ∅) -> jobs_failed c ->
  let c' := scheduleReconnect c in outer_step c c' /\ net_ok c' /\ idle_ok c' /\ jobs_failed c'.
Proof.
  intros Ht Hw Hp Hi Hn Hne Hj. cbn zeta. unfold scheduleReconnect.
  destruct (Nat.leb_spec (length delaysMs) (reconnectAttempt c)) as [Hle|Hlt].
  - pose proof (finish_all_step (Some restore_error) c) as Hs.
    pose proof (finish_all_empty (Some restore_error) c Ht) as He. set (c1 := foldl _ c _) in *.
    pose proof (net_ok_inner _ _ Hs Hn) as [N1 N2 N3].
    destruct (core_fields _ _ (ss_core _ _ Hs)) as (_ & E2 & _ & _ & _ & _ & _ & E8).
    pose proof (ss_waiting _ _ Hs) as Hwt. injection Hwt as R W J.
    split; [|split; [|split]].
    + etrans; [by apply inner_outer|]. apply (plain_outer _ _ []); try done. by rewrite app_nil_r.
    + split; simpl; [done|congruence|]. intros Hw1. destruct (N3 Hw1) as (?&?&?&?&?&?). auto 10.
    + intros _. simpl. split; [|by rewrite He]. eapply map_empty_inner; [apply Hs|done].
    + unfold jobs_failed. simpl. by rewrite J.
  - destruct (n_none c Hn Hw) as (?&?&?&?&?&?).
    destruct (reconnectTimer c) as [d|] eqn:Hr; [split; [done|]; split; [done|]; split; [|done]|rewrite Hi].
    { intros _. rewrite Hr. done. }
    split; [|split; [|split]].
    + apply (plain_outer _ _ []); try done. by rewrite app_nil_r.
    + split; [exact Hlt|simpl; congruence|]. intros _. simpl. by rewrite Hi.
    + intros _. split; [done|]. intros _. split; [done|].
      assert (0 < length delaysMs)%nat by (simpl; lia). apply lookup_lt_is_Some_2. lia.
    + done.
Qed.

Lemma handleSocketClosed_spec error c :
  calls_ok c -> tracked_ok c -> intentionallyClosed c = false -> (reconnectAttempt c <= length delaysMs)%nat ->
  jobs_failed c ->
  let c' := handleSocketClosed error c in outer_step c c' /\ net_ok c' /\ idle_ok c' /\ jobs_failed c'.
Proof.
  intros Hq Ht Hi Ha Hj. unfold handleSocketClosed. cbn zeta.
  set (c0 := c <| lastError := Some (message error) |>).
  destruct (closeSocket_fields (Some error) c0) as (F1&F2&F3&F4&F5&F6&F7&F8&F9&F10&F11&F12).
  pose proof (closeSocket_outer (Some error) c0) as Ho0. set (c1 := closeSocket (Some error) c0) in *.
  assert (Ho : outer_step c c1).
  { etrans; [|exact Ho0]. apply (plain_outer _ _ []); try done. by rewrite app_nil_r. }
  assert (Hn : net_ok c1).
  { split; [by rewrite F9|congruence|]. intros _. repeat split; auto. rewrite F10. simpl. congruence. }
  assert (Hf : jobs_failed c1).
  { apply Forall_forall. intros j Hin. destruct (F12 j Hin) as [Hin'|[He _]]; [|by rewrite He].
    unfold jobs_failed in Hj. rewrite Forall_forall in Hj. by apply Hj. }
  assert (Hi1 : intentionallyClosed c1 = false) by (by rewrite F10).
  rewrite Hi1, andb_true_r. destruct (0 <? jm_size (subscriptions c1)) eqn:Hs.
  - destruct (scheduleReconnect_spec c1) as (?&?&?&?); auto.
    + by apply (o_tracked _ _ Ho).
    + intros He. rewrite He in Hs. done.
    + split; [by etrans|done].
  - split; [done|]. split; [done|]. split; [|done]. intros _. split; [done|].
    apply size_nonempty in Hs. congruence.
Qed.

(** ** Opening *)

Lemma reconnect_timer_outer d c : outer_step c (c <| reconnectTimer := d |>).
Proof. apply (plain_outer _ _ []); try done. by rewrite app_nil_r. Qed.

(** A new socket replaces whatever there was. *)
Lemma opened_spec now key c :
  intentionallyClosed c = false -> (reconnectAttempt c <= length delaysMs)%nat ->
  let c' := open now (Opened key) c in outer_step c c' /\ net_ok c' /\ idle_ok c' /\ jobs c' = jobs c.
Proof.
  intros Hi Ha. unfold open. rewrite Hi. cbn zeta. split; [|split; [|split]]; [| |done|done].
  - apply (plain_outer _ _ [SocketOpened (length (sockets c))]); try done. by repeat constructor.
  - split; [done| |done]. intros i [= <-]. repeat split; try done. eexists.
    split; [by apply list_lookup_middle|]. done.
Qed.

Lemma open_spec now outcome c :
  calls_ok c -> tracked_ok c -> intentionallyClosed c = false -> (reconnectAttempt c <= length delaysMs)%nat ->
  jobs_failed c ->
  let c' := open now outcome c in outer_step c c' /\ net_ok c' /\ idle_ok c' /\ jobs_failed c'.
Proof.
  intros Hq Ht Hi Ha Hj. destruct outcome as [key|error].
  - destruct (opened_spec now key c Hi Ha) as (?&?&?&E). unfold jobs_failed. by rewrite E.
  - unfold open. rewrite Hi. cbn zeta.
    destruct (handleSocketClosed_spec error (c <| reconnectTimer := None |>)) as (?&?&?&?); auto.
    + by apply (o_calls _ _ (reconnect_timer_outer None c)).
    + by apply (o_tracked _ _ (reconnect_timer_outer None c)).
    + split; [|done]. etrans; [apply reconnect_timer_outer|done].
Qed.

Definition push_waiter (k : Continuation) c : SharedControl :=
  c <| waiters := waiters c ++ [{| continuation := k; settled := false; armed := true |}] |>
    <| readyWaiters := readyWaiters c ++ [length (waiters c)] |>.

Lemma push_waiter_outer k c : outer_step c (push_waiter k c).
Proof.
  split; try done; simpl.
  - by apply calls_same.
  - by apply subs_tracked_same; [done|done|apply Forall_Forall2_diag, Forall_true].
  - intros Hw i w. simpl. intros [Hi|[Hge Hi]]%lookup_app_Some.
    + destruct (Hw i w Hi) as [-> Hl]. split; [done|]. intros Hs. apply elem_of_app. auto.
    + destruct (i - length (waiters c))%nat as [|n] eqn:E; [|done]. injection Hi as <-.
      split; [done|]. intros _. apply elem_of_app. right. apply list_elem_of_singleton. lia.
Qed.

Lemma queueJob_outer k e c : outer_step c (queueJob k e c).
Proof. apply (plain_outer _ _ []); try done. by rewrite app_nil_r. Qed.

Lemma ensureReady_spec now outcome k c :
  calls_ok c -> tracked_ok c -> net_ok c -> jobs c = [] -> intentionallyClosed c = false ->
  let c' := ensureReady now outcome k c in
  outer_step c c' /\ net_ok c' /\ idle_ok c' /\ jobs_ok c'.
Proof.
  intros Hq Ht Hn Hj Hi. cbn zeta. unfold ensureReady. destruct (isSharedControlReady c) eqn:Hr.
  - unfold isSharedControlReady in Hr. apply andb_true_iff in Hr as [[Hr Ho]%andb_true_iff _].
    apply bool_decide_eq_true in Hr. split; [apply queueJob_outer|]. split; [by destruct Hn|]. split.
    + intros Hw. simpl in Hw. rewrite Hw in Ho. done.
    + unfold jobs_ok. simpl. rewrite Hj. by repeat constructor.
  - change (c <| waiters := _ |> <| readyWaiters := _ |>) with (push_waiter k c).
    set (c1 := push_waiter k c). pose proof (push_waiter_outer k c) as Ho1.
    assert (Hopen : let c' := open now outcome c1 in outer_step c c' /\ net_ok c' /\ idle_ok c' /\ jobs_ok c').
    { destruct (open_spec now outcome c1) as (?&?&?&?).
      - by apply (o_calls _ _ Ho1).
      - by apply (o_tracked _ _ Ho1).
      - done.
      - apply Hn.
      - unfold jobs_failed. simpl. by rewrite Hj.
      - split; [by etrans|]. split; [done|]. split; [done|]. by apply jobs_failed_ok. }
    change (ws c1) with (ws c). destruct (ws c) as [sock|] eqn:Hw; [|exact Hopen].
    destruct (socket_in (Some sock) CLOSED c1 || socket_in (Some sock) CLOSING c1) eqn:Hst; [exact Hopen|].
    split; [exact Ho1|]. split; [|split; [intros Hw'; simpl in Hw'; congruence|]].
    + destruct Hn as [N1 N2 N3]. split; [done| |simpl; congruence]. intros i Hi'. simpl in Hi'.
      destruct (N2 i Hi') as (A&B&C&D&E&F&s&G&I&J). repeat split; try done; [|by exists s].
      intros _ HR. simpl in HR. rewrite Hw in Hi'. injection Hi' as <-.
      unfold isSharedControlReady in Hr. rewrite Hw, HR, bool_decide_eq_true_2 in Hr by done.
      rewrite (bool_decide_eq_true_2 _ B), andb_true_r in Hr. simpl in Hr.
      unfold socket_in in Hst, Hr. simpl in Hst, Hr. rewrite G in Hst, Hr.
      apply orb_false_iff in Hst as [H1%bool_decide_eq_false H2%bool_decide_eq_false].
      apply bool_decide_eq_false in Hr. assert (readyState s ≠ CONNECTING) by (apply J; congruence).
      by destruct (readyState s).
    + unfold jobs_ok. simpl. rewrite Hj. constructor.
Qed.

(** ** Closing for good *)

(** The subscription of [r] is gone or waits for its ready response to close. *)
Definition closing c (r : string) : Prop :=
  forall ref, subscriptions c !! r = Some ref ->
    exists s, subs c !! ref = Some s /\ closeAfterReady s = true.

Lemma sendCleanup_subs cleanup c :
  subs (sendCleanupRequest cleanup c) = subs c /\ subscriptions (sendCleanupRequest cleanup c) = subscriptions c.
Proof. unfold sendCleanupRequest, sendEncrypted. by repeat case_match. Qed.

Lemma closeSubscription_subs r c ref s :
  tracked_ok c -> subscriptions c !! r = Some ref -> subs c !! ref = Some s ->
  let c' := closeSubscription r c in
  (subscriptions c' = delete r (subscriptions c) /\
   subs c' = alter (fun s => s <| closed := true |>) ref (subs c)) \/
  (subscriptions c' = subscriptions c /\
   subs c' = alter (fun s => s <| closeAfterReady := true |>) ref (subs c)).
Proof.
  intros Ht Hr Hs. destruct (proj1 (t_open _ Ht r ref) Hr) as (s' & Hs' & Hid & Hc).
  rewrite Hs in Hs'. injection Hs' as <-. cbn zeta. unfold closeSubscription. rewrite Hr, Hs.
  assert (Hfin : forall n e, subscriptions (finishSubscription ref n e c) = delete r (subscriptions c) /\
     subs (finishSubscription ref n e c) = alter (fun s => s <| closed := true |>) ref (subs c)).
  { intros n e. destruct (finish_fields ref n e c s Hs Hc) as (es & -> & _). simpl. by rewrite Hid. }
  unfold closeLogicalSubscription. destruct (sub_cleanup s) as [cleanup|].
  - left. destruct (sendCleanup_subs cleanup (finishSubscription ref false None c)) as [-> ->]. apply Hfin.
  - destruct (_ && _); [by right|left; apply Hfin].
Qed.

Lemma closeSubscription_closing r r' c :
  tracked_ok c -> r = r' \/ closing c r' -> closing (closeSubscription r c) r'.
Proof.
  intros Ht Hr'. destruct (subscriptions c !! r) as [ref|] eqn:Hr.
  2:{ unfold closeSubscription. rewrite Hr. destruct Hr' as [<-|?]; [|done]. intros ref. by rewrite Hr. }
  destruct (proj1 (t_open _ Ht r ref) Hr) as (s & Hs & Hid & Hc).
  destruct (closeSubscription_subs r c ref s Ht Hr Hs) as [[E1 E2]|[E1 E2]]; intros ref'; rewrite E1, E2.
  - rewrite jm_lookup_delete. case_decide as Hn; [done|]. intros Hl.
    destruct Hr' as [?|Hcl]; [done|]. destruct (Hcl ref' Hl) as (s' & Hs' & Hb). exists s'.
    rewrite list_lookup_alter_ne; [done|]. intros <-.
    destruct (proj1 (t_open _ Ht r' ref) Hl) as (s2 & Hs2 & Hid2 & _). congruence.
  - intros Hl. destruct (decide (ref = ref')) as [<-|Hne].
    + exists (s <| closeAfterReady := true |>). by rewrite list_lookup_alter_eq, Hs.
    + rewrite list_lookup_alter_ne by done. destruct Hr' as [<-|Hcl]; [congruence|]. by apply Hcl.
Qed.

Lemma close_all_closing c l :
  tracked_ok c ->
  (forall r, r ∈ l -> closing (foldl (fun c r => closeSubscription r c) c l) r) /\
  (forall r, closing c r -> closing (foldl (fun c r => closeSubscription r c) c l) r).
Proof.
  revert c. induction l as [|x l IH]; intros c Ht; simpl; [split; [by intros r ?%elem_of_nil|done]|].
  destruct (IH (closeSubscription x c)) as [H1 H2].
  { by apply (ss_tracked _ _ (closeSubscription_step x c)). }
  split.
  - intros r [->|Hin]%elem_of_cons; [|auto]. apply H2, closeSubscription_closing; auto.
  - intros r Hr. apply H2, closeSubscription_closing; auto.
Qed.

Lemma finish_closeAfterReady ref n e c ref' s' :
  subs (finishSubscription ref n e c) !! ref' = Some s' ->
  exists s, subs c !! ref' = Some s /\ closeAfterReady s = closeAfterReady s'.
Proof.
  destruct (subs c !! ref) as [s|] eqn:Hr; [|unfold finishSubscription; rewrite Hr; eauto].
  destruct (closed s) eqn:Hc; [unfold finishSubscription; rewrite Hr, Hc; eauto|].
  destruct (finish_fields ref n e c s Hr Hc) as (es & -> & _). simpl.
  destruct (decide (ref = ref')) as [<-|Hne].
  - rewrite list_lookup_alter_eq, Hr. intros [= <-]. by exists s.
  - rewrite list_lookup_alter_ne by done. eauto.
Qed.

Lemma finishCloseAfterReady_empty c :
  tracked_ok c -> (forall r, closing c r) -> subscriptions (finishCloseAfterReady c) = ∅.
Proof.
  intros Ht Hcl. pose proof (finishCloseAfterReady_step c) as Hs.
  apply jm_no_lookup. intros r. destruct (subscriptions (finishCloseAfterReady c) !! r) as [ref|] eqn:Hr; [|done].
  exfalso. destruct (proj1 (t_open _ (ss_tracked _ _ Hs Ht) r ref) Hr) as (s & Hs' & _ & Hc).
  apply (ss_map _ _ Hs) in Hr. pose proof (jm_lookup_values _ _ _ Hr) as Hin.
  assert (Hall : forall ref', ref' ∈ jm_values (subscriptions c) ->
            exists s, subs c !! ref' = Some s /\ closeAfterReady s = true).
  { intros ref' Hin'. unfold jm_values in Hin'. apply list_elem_of_fmap in Hin' as ([r' ?] & -> & Hin').
    apply (jm_elem_lookup _ _ _ (t_wf _ Ht)) in Hin'. by apply (Hcl r'). }
  revert Hs' Hc Hin Hall. unfold finishCloseAfterReady. clear -H H0.
  generalize (jm_values (subscriptions c)) as l. intros l. revert c.
  induction l as [|x l IH]; intros c; simpl; [intros ? ? ?%elem_of_nil; done|].
  intros Hs' Hc Hin Hall. destruct (Hall x (list_elem_of_here _ _)) as (sx & Hx & Hxc).
  rewrite Hx, Hxc in Hs'. set (c1 := finishSubscription x false None c) in *.
  assert (Hstep : inner_step c c1) by apply finish_step.
  apply elem_of_cons in Hin as [->|Hin].
  - assert (Hcl : is_closed c1 x = true) by (apply finish_closes; by rewrite Hx).
    assert (Hrest : inner_step c1 (foldl (fun c ref => match subs c !! ref with
       | Some s => if closeAfterReady s then finishSubscription ref false None c else c
       | None => c end) c1 l)).
    { apply foldl_inner_step. intros c2 y _ _. destruct (subs c2 !! y) as [sy|]; [|done].
      destruct (closeAfterReady sy); [apply finish_step|done]. }
    apply (is_closed_mono _ _ _ (ss_subs _ _ Hrest)) in Hcl. unfold is_closed in Hcl. rewrite Hs' in Hcl. congruence.
  - apply (IH c1); auto. intros ref' Hin'. destruct (Hall ref' (list_elem_of_further _ _ _ Hin')) as (s' & Hs2 & Hb).
    destruct (Forall2_lookup_l _ _ _ _ _ (ss_subs _ _ Hstep) Hs2) as (s3 & Hs3 & _). exists s3. split; [done|].
    destruct (finish_closeAfterReady _ _ _ _ _ _ Hs3) as (s4 & Hs4 & <-). congruence.
Qed.

Lemma told_empty error c :
  tracked_ok c -> (forall r, closing c r) -> subscriptions (told error c) = ∅.
Proof.
  intros Ht Hcl. unfold told. set (c1 := c <| readyStableReset := false |>).
  assert (He : subscriptions (finishCloseAfterReady c1) = ∅).
  { apply finishCloseAfterReady_empty; [|exact Hcl].
    apply (subs_tracked_same c); [done|done|by apply Forall_Forall2_diag, Forall_true|done]. }
  destruct (settleReadyWaiters_fields (Some (closing_error error)) (finishCloseAfterReady c1)) as (ws' & js & -> & _).
  eapply map_empty_inner; [apply (ss_map _ _ (markUnsent_step _))|].
  eapply map_empty_inner; [apply (ss_map _ _ (rejectAllPending_step _ _))|]. exact He.
Qed.

Lemma closeSocket_subscriptions error c : subscriptions (closeSocket error c) = subscriptions (told error c).
Proof.
  rewrite closeSocket_told. cbn zeta. set (c1 := told error c).
  destruct (socketCleanup c1); simpl; [change (ws (detach n c1)) with (ws c1)|]; by destruct (ws c1).
Qed.

Lemma close_spec error c :
  calls_ok c -> tracked_ok c -> (reconnectAttempt c <= length delaysMs)%nat -> jobs_failed c ->
  let c' := close error c in
  outer_step c c' /\ net_ok c' /\ pendingRequests c' = ∅ /\ subscriptions c' = ∅ /\
  jobs_failed c' /\ intentionallyClosed c' = true /\ ws c' = None.
Proof.
  intros Hq Ht Ha Hj. unfold close. cbn zeta.
  set (c0 := c <| intentionallyClosed := true |> <| reconnectTimer := None |>).
  assert (Ho0 : outer_step c c0) by (apply (plain_outer _ _ []); try done; by rewrite app_nil_r).
  assert (Ht0 : tracked_ok c0) by (by apply (o_tracked _ _ Ho0)).
  set (c1 := foldl _ c0 _). change (subscriptions c) with (subscriptions c0) in c1.
  pose proof (close_all_step c0 (jm_keys (subscriptions c0))) as Hs1. fold c1 in Hs1.
  destruct (core_fields _ _ (ss_core _ _ Hs1)) as (_ & _ & _ & _ & E5 & _ & E7 & E8).
  pose proof (ss_waiting _ _ Hs1) as Hw. injection Hw as R1 W1 J1.
  destruct (closeSocket_fields error c1) as (F1&F2&F3&F4&F5&F6&F7&F8&F9&F10&_&F12).
  pose proof (closeSocket_outer error c1) as Ho2. pose proof (closeSocket_subscriptions error c1) as Hm.
  set (c2 := closeSocket error c1) in *.
  split; [etrans; [exact Ho0|]; etrans; [by apply inner_outer|done]|].
  split; [|split; [done|]; split; [|split; [|split; [|done]]]].
  - split; [by rewrite F9, E7|congruence|]. intros _. repeat split; auto. intros _. by rewrite F8, E5.
  - rewrite Hm. apply told_empty; [by apply (ss_tracked _ _ Hs1)|].
    intros r. destruct (subscriptions c0 !! r) as [ref|] eqn:Hr.
    + destruct (close_all_closing c0 (jm_keys (subscriptions c0)) Ht0) as [Hall _]. apply Hall.
      apply (proj1 (jm_is_Some_key (subscriptions c0) r)). by rewrite Hr.
    + intros ref Hr1. apply (ss_map _ _ Hs1) in Hr1. congruence.
  - apply Forall_forall. intros j Hin. destruct (F12 j Hin) as [Hin'|[He _]]; [|by rewrite He].
    rewrite J1 in Hin'. unfold jobs_failed in Hj. rewrite Forall_forall in Hj. by apply Hj.
  - by rewrite F10, E8.
Qed.

(** ** The methods *)

(** [randomUUID()] does not repeat itself. *)
Context {uuid_inj : Inj (=) (=) randomUUID}.

Definition add_request (timeout : Timeout) (p_keepalive : bool) (method : string) c : SharedControl :=
  let reqId := randomUUID (uuids c) in
  c <| uuids := S (uuids c) |> <| promises := S (promises c) |>
    <| timeouts := <[reqId := timeout]> (timeouts c) |>
    <| pendingRequests := <[reqId := {| p_method := method; promise := promises c;
                                        refreshTimeoutOnKeepalive := p_keepalive |}]> (pendingRequests c) |>.

Lemma fresh_request c : calls_ok c -> pendingRequests c !! randomUUID (uuids c) = None.
Proof.
  intros Hq. destruct (pendingRequests c !! randomUUID (uuids c)) eqn:E; [|done].
  destruct (q_ids c Hq (randomUUID (uuids c))) as (n & Hn & He); [by rewrite E|].
  apply uuid_inj in He. lia.
Qed.

Lemma add_request_outer timeout ka method c : outer_step c (add_request timeout ka method c).
Proof.
  split; try done; simpl.
  - intros Hq. pose proof (fresh_request c Hq) as Hf. destruct Hq as [H1 H2 H3 H4 H5]. split; simpl.
    + by apply jm_wf_insert.
    + by apply jm_wf_insert.
    + intros r. rewrite !jm_lookup_insert. by case_decide.
    + intros r. rewrite jm_lookup_insert. case_decide as Hr.
      * intros _. exists (uuids c). split; [lia|done].
      * intros Hs. destruct (H4 r Hs) as (n & ? & ?). exists n. split; [lia|done].
    + unfold jm_values. rewrite jm_insert_fresh by done. rewrite fmap_app, map_app, app_assoc.
      simpl. rewrite H5. change (0%nat :: seq 1 (promises c)) with (seq 0 (S (promises c))).
      by rewrite seq_S.
  - apply subs_tracked_same; [done|simpl; lia|]. by apply Forall_Forall2_diag, Forall_true.
Qed.

Definition add_subscription (method : string) (params : option json) c : SharedControl :=
  let reqId := randomUUID (uuids c) in
  c <| uuids := S (uuids c) |> <| subs := subs c ++ [createSubscription reqId method params] |>
    <| subscriptions := <[reqId := length (subs c)]> (subscriptions c) |>.

Lemma fresh_subscription c ref s :
  tracked_ok c -> subs c !! ref = Some s -> requestId s ≠ randomUUID (uuids c).
Proof. intros Ht Hs He. destruct (t_ids c Ht ref s Hs) as (n & Hn & Hi). rewrite He in Hi. apply uuid_inj in Hi. lia. Qed.

Lemma add_subscription_tracked method params c :
  tracked_ok c -> tracked_ok (add_subscription method params c).
Proof.
  intros Ht. pose proof (fresh_subscription c) as Hf. pose proof Ht as [H1 H2 H3 H4].
  assert (Hl : forall ref s, (subs c ++ [createSubscription (randomUUID (uuids c)) method params]) !! ref = Some s <->
     subs c !! ref = Some s \/ ref = length (subs c) /\ s = createSubscription (randomUUID (uuids c)) method params).
  { intros ref s. rewrite lookup_app_Some. split.
    - intros [?|[Hge Hs]]; [by left|right]. destruct (ref - length (subs c))%nat eqn:Ed; [|done].
      injection Hs as <-. split; [lia|done].
    - intros [?|[-> ->]]; [by left|right]. by rewrite Nat.sub_diag. }
  split; simpl.
  - by apply jm_wf_insert.
  - intros r ref. rewrite jm_lookup_insert. case_decide as Hr.
    + subst r. split.
      * intros [= <-]. eexists. split; [apply Hl; by right|]. done.
      * intros (s & [Hs|[-> _]]%Hl & Hi & _); [|done]. by destruct (Hf ref s Ht Hs).
    + rewrite H2. split.
      * intros (s & Hs & ? & ?). exists s. split; [apply Hl; by left|done].
      * intros (s & [Hs|[-> ->]]%Hl & Hi & Hc); [eauto|by destruct Hr].
  - intros ref ref' s s' [Hs|[-> ->]]%Hl [Hs'|[-> ->]]%Hl He; eauto.
    + by destruct (Hf ref s Ht Hs).
    + symmetry in He. by destruct (Hf ref' s' Ht Hs').
  - intros ref s [Hs|[-> ->]]%Hl.
    + destruct (H4 ref s Hs) as (n & ? & ?). exists n. simpl. split; [lia|done].
    + exists (uuids c). simpl. split; [lia|done].
Qed.

Lemma add_subscription_outer method params c : outer_step c (add_subscription method params c).
Proof.
  assert (Hc : forall ref, is_closed (add_subscription method params c) ref = is_closed c ref).
  { intros ref. unfold is_closed, add_subscription. simpl.
    destruct (subs c !! ref) eqn:E; [by rewrite (lookup_app_l_Some _ _ _ _ E)|].
    destruct ((subs c ++ _) !! ref) as [s|] eqn:E'; [|done].
    apply lookup_app_Some in E' as [?|[_ E']]; [congruence|].
    by destruct (ref - length (subs c))%nat; simplify_eq/=. }
  split; try done; simpl.
  - apply calls_same; [done|done|simpl; lia].
  - apply add_subscription_tracked.
  - intros ref. by rewrite Hc.
  - intros ref. rewrite Hc. lia.
Qed.

Lemma request_handled now ms outcome method params c :
  conn_ok c -> intentionallyClosed c = false -> handled c (request now ms outcome method params c).
Proof.
  intros [K0 K1 K2 K3 K4 K5] Hi. unfold request, requestSharedControl.
  set (c1 := add_request {| delay := ms; deadline := now + ms |} false method c).
  pose proof (add_request_outer {| delay := ms; deadline := now + ms |} false method c) as Ho. fold c1 in Ho.
  destruct (ensureReady_spec now outcome (SendRequest (randomUUID (uuids c)) method params) c1) as (?&?&?&?).
  - by apply (o_calls _ _ Ho).
  - by apply (o_tracked _ _ Ho).
  - by destruct K4.
  - done.
  - done.
  - split; try done. by etrans.
Qed.

Lemma subscribe_handled now outcome method params c :
  conn_ok c -> intentionallyClosed c = false -> handled c (subscribe now outcome method params c).
Proof.
  intros [K0 K1 K2 K3 K4 K5] Hi. unfold subscribe.
  set (c1 := add_subscription method params c).
  pose proof (add_subscription_outer method params c) as Ho. fold c1 in Ho.
  destruct (ensureReady_spec now outcome (StartSubscription (length (subs c))) c1) as (?&?&?&?).
  - by apply (o_calls _ _ Ho).
  - by apply (o_tracked _ _ Ho).
  - by destruct K4.
  - done.
  - done.
  - split; try done. by etrans.
Qed.

(** ** Socket events *)

(** A change of a socket that keeps its listeners and never goes back to connecting. *)
Definition keeps_listening (f : Socket -> Socket) : Prop :=
  forall s, listening (f s) = listening s /\
            (readyState s ≠ CONNECTING -> readyState (f s) ≠ CONNECTING).

Lemma update_socket_outer sock f c : outer_step c (update_socket sock f c).
Proof. apply (plain_outer _ _ []); try done. by rewrite app_nil_r. Qed.

Lemma update_socket_net sock f c : keeps_listening f -> net_ok c -> net_ok (update_socket sock f c).
Proof.
  intros Hf [N1 N2 N3]. split; [done| |exact N3]. intros i Hi.
  destruct (N2 i Hi) as (?&?&?&?&?&?&s&Hs&Hl&Hr). repeat split; try done. simpl.
  destruct (decide (sock = i)) as [->|Hne].
  - exists (f s). rewrite list_lookup_alter_eq, Hs. destruct (Hf s) as [-> ?]. auto.
  - exists s. by rewrite list_lookup_alter_ne.
Qed.

Lemma transport_forward st :
  keeps_listening (fun s => match readyState s, st with
    | CONNECTING, (OPEN | CLOSING | CLOSED) | OPEN, (CLOSING | CLOSED) | CLOSING, CLOSED =>
        s <| readyState := st |>
    | _, _ => s
    end).
Proof. intros s. by destruct (readyState s) eqn:E, st; simpl; rewrite ?E. Qed.

(** Handled so far: the state may still change. *)
Record going c c' : Prop := {
  g_outer : outer_step c c';
  g_jobs : jobs c' = [];
  g_net : net_ok c';
  g_idle : idle_ok c' }.

Lemma going_handled c c' : going c c' -> handled c c'.
Proof. intros [? Hj ? ?]. split; try done. unfold jobs_ok. by rewrite Hj. Qed.

Lemma going_refl c : conn_ok c -> going c c.
Proof. intros [? ? ? ? ? ?]. by split. Qed.

Lemma update_socket_going sock f c c' : keeps_listening f -> going c c' -> going c (update_socket sock f c').
Proof.
  intros Hf [? ? ? ?]. split; try done; [|by apply update_socket_net].
  etrans; [done|apply update_socket_outer].
Qed.

Lemma transport_going sock st c c' : going c c' -> going c (transport sock st c').
Proof. exact (update_socket_going sock _ c c' (transport_forward st)). Qed.

(** A write or an effect that none of the invariants looks at. *)
Lemma plain_going c c1 c2 es :
  going c c1 -> calls c2 = calls c1 -> subscriptions c2 = subscriptions c1 -> subs c2 = subs c1 ->
  waiting c2 = waiting c1 -> uuids c2 = uuids c1 -> log c2 = log c1 ++ es -> Forall plain es ->
  core c2 = core c1 -> sockets c2 = sockets c1 -> going c c2.
Proof.
  intros [Ho Hj [N1 N2 N3] Hi] Hc Hm Hs Hw Hu Hl Hes Hk Hsk.
  destruct (core_fields _ _ Hk) as (E1 & E2 & E3 & E4 & E5 & E6 & E7 & E8). injection Hw as R W J.
  split.
  - etrans; [exact Ho|]. by apply (plain_outer _ _ es).
  - congruence.
  - split; rewrite ?E1, ?E2, ?E3, ?E4, ?E5, ?E6, ?E7, ?E8, ?Hsk, ?R; done.
  - unfold idle_ok. injection Hc as -> _ _. by rewrite E2, E5, E8, Hm.
Qed.

Lemma emit_going e c c' : plain e -> going c c' -> going c (emit e c').
Proof. intros He Hg. eapply (plain_going _ _ _ [e]); try done. by repeat constructor. Qed.

(** Closing the current socket, whatever was done before. *)
Lemma going_closed error c c' :
  conn_ok c -> going c c' -> is_Some (ws c') -> handled c (handleSocketClosed error c').
Proof.
  intros [K0 K1 K2 K3 K4 K5] [Ho Hj Hn Hi] [i Hw].
  destruct (n_socket _ Hn i Hw) as (_&_&_&_&Hint&_).
  destruct (handleSocketClosed_spec error c') as (?&?&?&?).
  - by apply (o_calls _ _ Ho).
  - by apply (o_tracked _ _ Ho).
  - done.
  - apply Hn.
  - unfold jobs_failed. by rewrite Hj.
  - split; try done; [by etrans|by apply jobs_failed_ok].
Qed.

Lemma current_ws sock c : current sock c = true -> ws c = Some sock.
Proof. unfold current. by intros [Hw%bool_decide_eq_true _]%andb_true_iff. Qed.

Lemma note_activity_forward now :
  keeps_listening (fun s => s <| monitor := noteActivity now (monitor s) |>).
Proof. by intros s. Qed.

Lemma sendEncrypted_cases p c :
  (sendEncrypted p c = (c, false)) \/
  exists i, ws c = Some i /\ socket_in (Some i) OPEN c = true /\
    (state c = Ready \/ state c = AwaitingAuthenticated) /\ sendEncrypted p c = (emit (Send i p) c, true).
Proof.
  unfold sendEncrypted. destruct (negb _) eqn:Es; [by left|].
  apply negb_false_iff, orb_true_iff in Es. rewrite !bool_decide_eq_true in Es.
  destruct (ws c) as [i|]; [|by left]. destruct (sharedKey c); [|by left].
  destruct (socket_in (Some i) OPEN c) eqn:Ho; [|by left]. right. by exists i.
Qed.

(** The handshake moves on: a socket that delivers is not connecting. *)
Lemma state_going st sock c c' :
  going c c' -> ws c' = Some sock -> socket_in (Some sock) CONNECTING c' = false ->
  st ≠ Closed -> (readyWaiters c' ≠ [] -> st ≠ Ready) -> going c (c' <| state := st |>).
Proof.
  intros [Ho Hj [N1 N2 N3] Hi] Hw Hs Hst Hr. split.
  - etrans; [exact Ho|]. apply (plain_outer _ _ []); try done. by rewrite app_nil_r.
  - done.
  - split; [done| |simpl; congruence]. intros i Hi'. simpl in Hi'.
    destruct (N2 i Hi') as (?&?&?&?&?&?&s&Hsk&Hl&_). repeat split; try done.
    exists s. split; [done|]. split; [done|]. intros _. rewrite Hw in Hi'. injection Hi' as <-.
    unfold socket_in in Hs. simpl in Hs, Hsk. rewrite Hsk in Hs. by apply bool_decide_eq_false in Hs.
  - exact Hi.
Qed.

Lemma settle_going error c c' :
  going c c' ->
  outer_step c (settleReadyWaiters error c') /\ net_ok (settleReadyWaiters error c') /\
  idle_ok (settleReadyWaiters error c').
Proof.
  intros [Ho Hj [N1 N2 N3] Hi]. split; [etrans; [exact Ho|apply settleReadyWaiters_outer]|].
  destruct (settleReadyWaiters_fields error c') as (ws' & js & -> & _). split; [|exact Hi].
  split; [done| |].
  - intros i Hw. destruct (N2 i Hw) as (?&?&?&?&?&?&?). by repeat split.
  - intros Hw. destruct (N3 Hw) as (?&?&?&?&?&?). by repeat split.
Qed.

Lemma inner_after c c1 c2 :
  outer_step c c1 -> net_ok c1 -> idle_ok c1 -> jobs_ok c1 -> inner_step c1 c2 -> handled c c2.
Proof.
  intros Ho Hn Hi Hj Hs. split.
  - etrans; [exact Ho|]. by apply inner_outer.
  - pose proof (ss_waiting _ _ Hs) as Hw. injection Hw as _ _ Hjobs. unfold jobs_ok. rewrite Hjobs.
    destruct (core_fields _ _ (ss_core _ _ Hs)) as (-> & _). exact Hj.
  - by eapply net_ok_inner.
  - by eapply idle_ok_inner.
Qed.

Definition became_ready (now : Z) (sock : nat) c : SharedControl :=
  let c := emit (BecameReady sock) (c <| state := Ready |>) in
  c <| lastConnectedAt := Some now |> <| readyStableReset := true |>.

Lemma became_ready_handled now sock c c' :
  going c c' -> ws c' = Some sock -> socket_in (Some sock) CONNECTING c' = false ->
  handled c (replaySubscriptions (settleReadyWaiters None (became_ready now sock c'))).
Proof.
  intros [Ho Hj [N1 N2 N3] Hi] Hw Hs.
  set (c1 := became_ready now sock c').
  assert (Ho1 : outer_step c c1).
  { etrans; [exact Ho|]. apply (plain_outer _ _ [BecameReady sock]); try done. by repeat constructor. }
  destruct (settleReadyWaiters_fields None c1) as (ws' & js & E & _ & _).
  pose proof (settleReadyWaiters_outer None c1) as Ho2. set (c2 := settleReadyWaiters None c1) in *.
  apply (inner_after c c2).
  - by etrans.
  - rewrite E. split; [done| |simpl; congruence]. intros i Hi'. simpl in Hi'.
    destruct (N2 i Hi') as (?&?&?&?&?&?&s&Hsk&Hl&_). repeat split; try done.
    exists s. split; [done|]. split; [done|]. intros _. rewrite Hw in Hi'. injection Hi' as <-.
    unfold socket_in in Hs. simpl in Hs. rewrite Hsk in Hs. by apply bool_decide_eq_false in Hs.
  - rewrite E. intros Hn. simpl in Hn. congruence.
  - rewrite E. unfold jobs_ok. simpl. apply Forall_true. done.
  - apply replaySubscriptions_step. by rewrite E.
Qed.

Lemma handleTextFrame_handled now sock frame c c' :
  conn_ok c -> going c c' -> ws c' = Some sock -> socket_in (Some sock) CONNECTING c' = false ->
  handled c (handleTextFrame now sock frame c').
Proof.
  intros Hk Hg Hw Hs. assert (Hsome : is_Some (ws c')) by (by rewrite Hw).
  unfold handleTextFrame. destruct (bool_decide (state c' = AwaitingReady)).
  - destruct (parseReadyFrame frame); [by apply going_closed|].
    assert (Hg1 : going c (c' <| state := AwaitingAuthenticated |>)) by (by eapply state_going).
    apply going_handled.
    destruct (sendEncrypted_cases (AuthPayload deviceToken) (c' <| state := AwaitingAuthenticated |>))
      as [->|(i & _ & _ & _ & ->)]; [done|]. by apply emit_going.
  - destruct (parseSharedControlFrame frame (sharedKey c') (state c')) as [plaintext| |response|error].
    + destruct (parseAuthenticatedFrame plaintext) as [[error|]|m].
      * by apply going_closed.
      * by apply (became_ready_handled now sock).
      * by apply going_handled, emit_going.
    + destruct Hg as [Ho Hj Hn Hi]. apply (inner_after c c'); try done; [|apply refreshTimeouts_step].
      unfold jobs_ok. by rewrite Hj.
    + destruct Hg as [Ho Hj Hn Hi]. apply (inner_after c c'); try done.
      * unfold jobs_ok. by rewrite Hj.
      * apply dispatchResponse_step. apply (o_tracked _ _ Ho), Hk.
    + by apply going_closed.
Qed.

Lemma monitor_tick_handled now sock c : conn_ok c -> handled c (monitor_tick now sock c).
Proof.
  intros Hk. pose proof (going_refl c Hk) as Hg. unfold monitor_tick.
  destruct (sockets c !! sock) as [s|]; [|by apply going_handled].
  destruct (tick liveness now (monitor s)) as [m r].
  set (c1 := update_socket sock (fun s => s <| monitor := m |>) c).
  assert (Hg1 : going c c1) by (by apply update_socket_going).
  destruct r; [by apply going_handled| |].
  - destruct (negb (bool_decide (ws c1 = Some sock))) eqn:Hw; [by apply going_handled|].
    apply negb_false_iff, bool_decide_eq_true in Hw. apply going_closed; [done| |change (is_Some (ws c1)); by rewrite Hw].
    apply emit_going; [done|]. apply update_socket_going; [|done].
    intros s'. by destruct (bool_decide_reflect (readyState s' = CLOSED)).
  - apply going_handled. destruct (bool_decide _); [by apply emit_going|done].
Qed.

(** ** Timers *)

Lemma request_times_out_handled r c : conn_ok c -> handled c (request_times_out r c).
Proof.
  intros Hk. pose proof Hk as [K0 K1 K2 K3 K4 K5]. unfold request_times_out.
  destruct (pendingRequests c !! r) as [p|] eqn:Hr; [|by apply going_handled, going_refl].
  assert (Heq : emit (Settled (promise p) (Rejected remoteRuntimeTimeoutError)) (forget r c) =
                settlePending r (Rejected remoteRuntimeTimeoutError) c) by (unfold settlePending; by rewrite Hr).
  rewrite Heq. pose proof (settlePending_step r (Rejected remoteRuntimeTimeoutError) c) as Hs.
  apply going_closed; [done| |].
  - destruct (inner_handled c _ Hk Hs) as [? ? ? ?]. split; try done.
    pose proof (ss_waiting _ _ Hs) as Hw. injection Hw as _ _ ->. done.
  - destruct (core_fields _ _ (ss_core _ _ Hs)) as (_ & -> & _).
    destruct (ws c) eqn:Hw; [done|]. destruct (K5 Hw) as [Hp _]. rewrite Hp in Hr. done.
Qed.

Lemma waiter_times_out_handled i c : conn_ok c -> handled c (waiter_times_out i c).
Proof.
  intros Hk. pose proof Hk as [K0 K1 K2 K3 K4 K5]. unfold waiter_times_out.
  destruct (waiters c !! i) as [w|] eqn:Hi; [|by apply going_handled, going_refl].
  destruct (armed w && negb (settled w)) eqn:Hs; [|by apply going_handled, going_refl].
  apply andb_true_iff in Hs as [_ Hs%negb_true_iff].
  set (l := js_filter _ (readyWaiters c)). set (c1 := c <| readyWaiters := l |>).
  assert (Hsub : readyWaiters c = [] -> l = []) by (unfold l; by intros ->).
  unfold settleWaiter. change (waiters c1 !! i) with (waiters c !! i). rewrite Hi, Hs.
  split.
  - split; try done; simpl.
    + by apply calls_same.
    + by apply subs_tracked_same; [done|done|apply Forall_Forall2_diag, Forall_true].
    + intros Hw k w'. simpl. destruct (decide (k = i)) as [->|Hne].
      * rewrite list_lookup_insert_eq by (by eapply lookup_lt_Some). by intros [= <-].
      * rewrite list_lookup_insert_ne by done. intros Hk'. destruct (Hw k w' Hk') as [-> Hin].
        split; [done|]. intros Hst. apply elem_of_js_filter. split; [auto|].
        apply negb_true_iff. by apply Nat.eqb_neq.
  - unfold jobs_ok. simpl. rewrite K0. by repeat constructor.
  - destruct K4 as [N1 N2 N3]. split; [done| |].
    + intros k Hw. destruct (N2 k Hw) as (?&?&?&?&?&Hr&?). repeat split; try done.
      simpl. intros Hne. apply Hr. auto.
    + intros Hw. destruct (N3 Hw) as (?&?&?&?&?&?). repeat split; try done. simpl. auto.
  - exact K5.
Qed.

(** ** Events *)

Lemma delivers_spec sock c :
  delivers sock c = true -> ws c = Some sock /\ socket_in (Some sock) CONNECTING c = false.
Proof.
  unfold delivers. intros [Hc%current_ws Ho]%andb_true_iff. split; [done|].
  unfold socket_in in *. simpl in *. destruct (sockets c !! sock) as [s|]; [|done].
  apply orb_true_iff in Ho. rewrite !bool_decide_eq_true in Ho. apply bool_decide_eq_false.
  by destruct Ho as [-> | ->].
Qed.

Lemma delivers_noted now sock c :
  delivers sock c = true ->
  ws (note_activity now sock c) = Some sock /\
  socket_in (Some sock) CONNECTING (note_activity now sock c) = false.
Proof.
  intros [Hw Hs]%delivers_spec. split; [done|]. unfold socket_in in *. simpl in *.
  rewrite list_lookup_alter_eq. by destruct (sockets c !! sock).
Qed.

Lemma socket_error_handled error c :
  conn_ok c -> is_Some (ws c) -> handled c (socket_error error c).
Proof.
  intros Hk Hw. unfold socket_error. apply going_closed; [done| |exact Hw].
  eapply (plain_going c c _ []); try done; [by apply going_refl|by rewrite app_nil_r].
Qed.

(** A call on an open connection; the closed one has its own lemma. *)
Definition is_call (e : Event) : bool :=
  match e with CallRequest _ _ _ _ _ | CallSubscribe _ _ _ _ => true | _ => false end.

Lemma handle_handled e c :
  conn_ok c -> intentionallyClosed c = false \/ is_call e = false -> handled c (handle e c).
Proof.
  intros Hk Hc. pose proof (going_refl c Hk) as Hg. pose proof Hk as [K0 K1 K2 K3 K4 K5].
  destruct e; simpl.
  - apply request_handled; [done|]. by destruct Hc.
  - apply subscribe_handled; [done|]. by destruct Hc.
  - apply inner_handled; [done|]. apply closeSubscription_step.
  - destruct (close_spec error c K1 K2 (n_attempt _ K4)) as (?&?&Hp&Hm&?&?&?).
    + unfold jobs_failed. by rewrite K0.
    + split; [done|by apply jobs_failed_ok|done|]. intros _. split; [done|]. by rewrite Hm.
  - destruct (sockets c !! sock) as [s|]; [|by apply going_handled].
    destruct (bool_decide (readyState s = CONNECTING)); [|by apply going_handled].
    assert (Hg1 : going c (transport sock OPEN c)) by (by apply transport_going).
    apply going_handled. destruct (listening s); [by apply emit_going|done].
  - assert (Hg1 : going c (transport sock CLOSED c)) by (by apply transport_going).
    destruct (current sock (transport sock CLOSED c)) eqn:Hcur; [|by apply going_handled].
    apply current_ws in Hcur. apply going_closed; [done| |exact (ex_intro _ sock Hcur)].
    eapply (plain_going _ _ _ []); try done. by rewrite app_nil_r.
  - by apply going_handled, transport_going.
  - destruct (current sock c) eqn:Hcur; [|by apply going_handled]. apply current_ws in Hcur.
    apply socket_error_handled; [done|by rewrite Hcur].
  - destruct (delivers sock c) eqn:Hd; [|by apply going_handled].
    destruct (delivers_noted now sock c Hd). apply handleTextFrame_handled; try done.
    apply update_socket_going; [apply note_activity_forward|done].
  - destruct (delivers sock c) eqn:Hd; [|by apply going_handled]. apply delivers_spec in Hd as [Hw _].
    apply socket_error_handled; [done|by rewrite Hw].
  - destruct (delivers sock c); [|by apply going_handled].
    apply going_handled, update_socket_going; [apply note_activity_forward|done].
  - by apply monitor_tick_handled.
  - destruct (timeouts c !! reqId) as [tm|]; [|by apply going_handled].
    destruct (deadline tm <=? now); [by apply request_times_out_handled|by apply going_handled].
  - by apply waiter_times_out_handled.
  - destruct (reconnectTimer c) as [d|] eqn:Hr; [|by apply going_handled].
    assert (Hw : ws c = None).
    { destruct (ws c) as [i|] eqn:Hw; [|done]. destruct (n_socket _ K4 i Hw) as (_&_&_&?&_). congruence. }
    destruct (n_none _ K4 Hw) as (_&_&_&_&_&Hi).
    destruct (open_spec now outcome (c <| reconnectTimer := None |>)) as (?&?&?&?).
    + by apply (o_calls _ _ (reconnect_timer_outer None c)).
    + by apply (o_tracked _ _ (reconnect_timer_outer None c)).
    + simpl. destruct (intentionallyClosed c); [|done]. specialize (Hi eq_refl). congruence.
    + apply K4.
    + unfold jobs_failed. simpl. by rewrite K0.
    + split; try done; [|by apply jobs_failed_ok]. etrans; [apply reconnect_timer_outer|done].
  - destruct (readyStableReset c); [|by apply going_handled].
    assert (Hb : forall n, (n <= length delaysMs)%nat ->
              handled c (c <| readyStableReset := false |> <| reconnectAttempt := n |>)).
    { intros n Hn. split.
      - apply (plain_outer _ _ []); try done. by rewrite app_nil_r.
      - unfold jobs_ok. simpl. by rewrite K0.
      - destruct K4 as [N1 N2 N3]. split; [done|exact N2|]. intros Hw. destruct (N3 Hw) as (?&?&?&?&?&?). by repeat split.
      - exact K5. }
    destruct (_ && _); [apply (Hb 0%nat); lia|apply (Hb (reconnectAttempt c)), K4].
Qed.

(** A closed connection holds nothing. *)
Lemma conn_closed c :
  conn_ok c -> intentionallyClosed c = true ->
  ws c = None /\ reconnectTimer c = None /\ readyStableReset c = false /\ pendingRequests c = ∅ /\
  timeouts c = ∅ /\ subscriptions c = ∅ /\ readyWaiters c = [].
Proof.
  intros [K0 K1 K2 K3 K4 K5] Hc.
  assert (Hw : ws c = None).
  { destruct (ws c) as [i|] eqn:Hw; [|done]. destruct (n_socket _ K4 i Hw) as (_&_&_&_&?&_). congruence. }
  destruct (n_none _ K4 Hw) as (?&?&?&?&?&?). destruct (K5 Hw) as [Hp Hm].
  repeat split; auto.
  - apply jm_no_lookup. intros r. destruct (timeouts c !! r) eqn:E; [|done].
    assert (Ht : is_Some (pendingRequests c !! r)) by (apply (q_timed _ K1); by rewrite E).
    rewrite Hp in Ht. by destruct Ht.
  - apply jm_size_zero. destruct (decide (jm_size (subscriptions c) = 0)) as [|Hne]; [done|].
    destruct Hm as [? _]; [intros He; by rewrite He in Hne|congruence].
Qed.

(** The waiter of a call on a closed connection is rejected at once. *)
Lemma closed_ensureReady now outcome k c :
  intentionallyClosed c = true -> ws c = None -> readyWaiters c = [] -> jobs c = [] ->
  exists ws', ensureReady now outcome k c =
    c <| readyWaiters := [] |> <| waiters := ws' |>
      <| jobs := [{| job_continuation := k;
                     job_error := Some (remoteRuntimeUnavailableError closed_message) |}] |>.
Proof.
  intros Hc Hw Hr Hj. unfold ensureReady, isSharedControlReady. rewrite Hw. simpl.
  rewrite andb_false_r, Hw. simpl. unfold open. simpl. rewrite Hc. unfold settleReadyWaiters. simpl.
  rewrite Hr. simpl. unfold settleWaiter. simpl. rewrite list_lookup_middle by done. simpl.
  unfold queueJob. simpl. rewrite Hj. eexists. reflexivity.
Qed.

Lemma closed_call_ok c c1 k :
  conn_ok c -> intentionallyClosed c = true -> outer_step c c1 ->
  core c1 = core c -> sockets c1 = sockets c -> waiting c1 = waiting c ->
  (forall now outcome, let c' := drain (ensureReady now outcome k c1) in
     pendingRequests c' = ∅ /\ subscriptions c' = ∅) ->
  forall now outcome, conn_ok (drain (ensureReady now outcome k c1)).
Proof.
  intros Hk Hc Ho Hcore Hsock Hwait Hend now outcome. specialize (Hend now outcome).
  destruct (conn_closed c Hk Hc) as (C1&C2&C3&C4&C5&C6&C7). destruct Hk as [K0 K1 K2 K3 K4 K5].
  destruct (core_fields _ _ Hcore) as (E1&E2&E3&E4&E5&E6&E7&E8). injection Hwait as R W J.
  assert (Ho2 : outer_step c1 (ensureReady now outcome k c1)).
  { unfold ensureReady. destruct (isSharedControlReady c1); [apply queueJob_outer|].
    change (c1 <| waiters := _ |> <| readyWaiters := _ |>) with (push_waiter k c1).
    etrans; [apply (push_waiter_outer k)|]. change (ws (push_waiter k c1)) with (ws c1).
    rewrite E2, C1. unfold open. change (intentionallyClosed (push_waiter k c1)) with (intentionallyClosed c1).
    rewrite E8, Hc. apply settleReadyWaiters_outer. }
  destruct (closed_ensureReady now outcome k c1) as [ws' E]; [congruence..|].
  rewrite E in Ho2 |- *. set (m := _ <| jobs := _ |>) in *. rewrite E in Hend. fold m in Hend.
  assert (Hj : jobs_ok m) by (by repeat constructor).
  pose proof (drain_inner m Hj) as Hd.
  assert (Hnet : net_ok (m <| jobs := [] |>)).
  { destruct K4 as [N1 N2 N3]. split; simpl.
    - by rewrite E7.
    - rewrite E2. congruence.
    - intros _. destruct (N3 C1) as (?&?&?&?&?&?). rewrite E1, E3, E4, E5, E6, E8. by repeat split. }
  split.
  - pose proof (ss_waiting _ _ Hd) as Hwd. by injection Hwd.
  - apply (ss_calls _ _ Hd). eapply calls_same; [| | |apply (o_calls _ _ Ho2), (o_calls _ _ Ho), K1]; done.
  - apply (ss_tracked _ _ Hd). eapply subs_tracked_same; [| | |apply (o_tracked _ _ Ho2), (o_tracked _ _ Ho), K2]; [done|done|].
    by apply Forall_Forall2_diag, Forall_true.
  - apply (o_waiters _ _ (inner_outer _ _ Hd)). apply (o_waiters _ _ Ho2), (o_waiters _ _ Ho), K3.
  - by eapply net_ok_inner.
  - intros _. destruct Hend as [-> ->]. done.
Qed.

Lemma closed_request_ok now ms outcome method params c :
  conn_ok c -> intentionallyClosed c = true -> conn_ok (drain (request now ms outcome method params c)).
Proof.
  intros Hk Hc. destruct (conn_closed c Hk Hc) as (C1&C2&C3&C4&C5&C6&C7). unfold request, requestSharedControl.
  set (c1 := add_request {| delay := ms; deadline := now + ms |} false method c).
  apply (closed_call_ok c c1); try done; [apply add_request_outer|].
  intros now' outcome'. cbn zeta.
  destruct (closed_ensureReady now' outcome' (SendRequest (randomUUID (uuids c)) method params) c1) as [ws' ->];
    [done|done|done|apply Hk|].
  unfold drain. simpl. unfold run_job, settlePending. simpl. rewrite C4, jm_lookup_insert_eq. simpl.
  rewrite C4. split; [|done]. apply jm_no_lookup. intros r.
  rewrite jm_lookup_delete, jm_lookup_insert. by repeat case_decide.
Qed.

Lemma closed_subscribe_ok now outcome method params c :
  conn_ok c -> intentionallyClosed c = true -> conn_ok (drain (subscribe now outcome method params c)).
Proof.
  intros Hk Hc. destruct (conn_closed c Hk Hc) as (C1&C2&C3&C4&C5&C6&C7). unfold subscribe.
  set (c1 := add_subscription method params c).
  apply (closed_call_ok c c1); try done; [apply add_subscription_outer|].
  intros now' outcome'. cbn zeta.
  destruct (closed_ensureReady now' outcome' (StartSubscription (length (subs c))) c1) as [ws' E];
    [done|done|done|apply Hk|]. rewrite E.
  unfold drain. simpl. unfold run_job. simpl. set (m := _ <| jobs := [] |>).
  assert (Hs : subs m !! length (subs c) = Some (createSubscription (randomUUID (uuids c)) method params))
    by (by apply list_lookup_middle).
  destruct (finish_fields (length (subs c)) false None m _ Hs eq_refl) as (es & -> & _).
  simpl. rewrite C4, C6. split; [done|]. apply jm_no_lookup. intros r.
  rewrite jm_lookup_delete, jm_lookup_insert. by repeat case_decide.
Qed.

Lemma step_conn_ok c e : conn_ok c -> conn_ok (step c e).
Proof.
  intros Hk. unfold step. destruct (intentionallyClosed c) eqn:Hc.
  - destruct (is_call e) eqn:He.
    + destruct e; try done; [by apply closed_request_ok|by apply closed_subscribe_ok].
    + apply (drain_conn_ok c); [done|]. apply handle_handled; auto.
  - apply (drain_conn_ok c); [done|]. apply handle_handled; auto.
Qed.

Lemma new_conn_ok : conn_ok new_connection.
Proof.
  split.
  - done.
  - split; [apply jm_wf_empty|apply jm_wf_empty|intros r; split; by intros [? ?]|by intros r [? ?]|done].
  - split; try done; [apply jm_wf_empty|]. intros r ref. split; [done|]. by intros (s & ? & _).
  - done.
  - split; simpl; try done. lia.
  - by intros _.
Qed.

Lemma run_conn_ok es : conn_ok (run es).
Proof.
  unfold run. pose proof new_conn_ok as Hn. revert Hn. generalize new_connection.
  induction es as [|e es IH]; intros c Hc; simpl; [done|]. by apply IH, step_conn_ok.
Qed.

Lemma run_app es es' : run (es ++ es') = foldl step (run es) es'.
Proof. apply foldl_app. Qed.

Lemma closed_jobs c now outcome k :
  intentionallyClosed c = true -> ws c = None -> readyWaiters c = [] -> jobs c = [] ->
  jobs_ok (ensureReady now outcome k c).
Proof.
  intros H1 H2 H3 H4. destruct (closed_ensureReady now outcome k c H1 H2 H3 H4) as [ws' ->].
  by repeat constructor.
Qed.

Lemma handle_jobs_ok e c : conn_ok c -> jobs_ok (handle e c).
Proof.
  intros Hk. destruct (intentionallyClosed c) eqn:Hc; [destruct (is_call e) eqn:He|].
  2, 3: apply (h_jobs _ _ (handle_handled e c Hk ltac:(auto))).
  destruct (conn_closed c Hk Hc) as (C1&_&_&_&_&_&C7).
  destruct e; try done; simpl; unfold request, requestSharedControl, subscribe.
  - apply (closed_jobs (add_request {| delay := timeoutMs; deadline := now + timeoutMs |} false method c)); try done. apply Hk.
  - apply (closed_jobs (add_subscription method params c)); try done. apply Hk.
Qed.

(** ** The redials of the reconnect timer *)

(** The attempts dialled since the count was last reset; one is due when the timer is armed. *)
Definition spent c : Z := Z.of_nat (reconnectAttempt c) - (if reconnectTimer c is Some _ then 1 else 0).
Definition spends c c' : Prop := spent c <= spent c'.

#[export] Instance spends_preorder : PreOrder spends.
Proof. unfold spends. split; [by intros c|]. intros c1 c2 c3. lia. Qed.

Lemma spends_same c c' :
  reconnectTimer c' = reconnectTimer c -> reconnectAttempt c' = reconnectAttempt c -> spends c c'.
Proof. unfold spends, spent. by intros -> ->. Qed.

Lemma spends_core c c' : core c' = core c -> spends c c'.
Proof. intros (_&_&_&_&E5&_&E7&_)%core_fields. by apply spends_same. Qed.
Lemma inner_spends c c' : inner_step c c' -> spends c c'.
Proof. intros Hs. by apply spends_core, Hs. Qed.

(** Giving the timer up. *)
Lemma disarmed_spends c : spends c (c <| reconnectTimer := None |>).
Proof. unfold spends, spent. simpl. destruct (reconnectTimer c); lia. Qed.

Lemma settleReadyWaiters_spends error c : spends c (settleReadyWaiters error c).
Proof. destruct (settleReadyWaiters_fields error c) as (ws' & js & -> & _). by apply spends_same. Qed.

Lemma closeSocket_spends error c : spends c (closeSocket error c).
Proof. destruct (closeSocket_fields error c) as (_&_&_&_&_&_&_&E1&E2&_). by apply spends_same. Qed.

Lemma scheduleReconnect_spends c : spends c (scheduleReconnect c).
Proof.
  unfold scheduleReconnect. destruct (_ <=? _)%nat.
  - etrans; [apply inner_spends, (finish_all_step (Some restore_error))|apply disarmed_spends].
  - destruct (reconnectTimer c) eqn:Ht; [done|]. destruct (intentionallyClosed c); [done|].
    unfold spends, spent. cbn -[delaysMs]. rewrite Ht. destruct (delaysMs !! _); lia.
Qed.

Lemma handleSocketClosed_spends error c : spends c (handleSocketClosed error c).
Proof.
  unfold handleSocketClosed. set (c0 := c <| lastError := _ |>).
  transitivity c0; [by apply spends_same|]. etrans; [apply (closeSocket_spends (Some error))|].
  destruct (_ && _); [apply scheduleReconnect_spends|done].
Qed.

Lemma socket_error_spends error c : spends c (socket_error error c).
Proof. unfold socket_error. etrans; [|apply handleSocketClosed_spends]. by apply spends_same. Qed.

Lemma open_spends now outcome c : spends c (open now outcome c).
Proof.
  unfold open. destruct (intentionallyClosed c); [apply settleReadyWaiters_spends|].
  destruct outcome; (etrans; [apply disarmed_spends|]); [by apply spends_same|apply handleSocketClosed_spends].
Qed.

Lemma ensureReady_spends now outcome k c : spends c (ensureReady now outcome k c).
Proof.
  unfold ensureReady. destruct (isSharedControlReady c); [by apply spends_same|].
  change (c <| waiters := _ |> <| readyWaiters := _ |>) with (push_waiter k c).
  transitivity (push_waiter k c); [by apply spends_same|].
  destruct (ws (push_waiter k c)); [|apply open_spends]. destruct (_ || _); [apply open_spends|done].
Qed.

Lemma handleTextFrame_spends now sock frame c : tracked_ok c -> spends c (handleTextFrame now sock frame c).
Proof.
  intros Ht. unfold handleTextFrame. destruct (bool_decide _).
  - destruct (parseReadyFrame frame); [apply handleSocketClosed_spends|].
    unfold sendEncrypted. simpl. repeat case_match; by apply spends_same.
  - destruct (parseSharedControlFrame _ _ _) as [plaintext| |response|error].
    + destruct (parseAuthenticatedFrame plaintext) as [[error|]|m];
        [apply handleSocketClosed_spends| |by apply spends_same].
      change (spends c (replaySubscriptions (settleReadyWaiters None (became_ready now sock c)))).
      transitivity (settleReadyWaiters None (became_ready now sock c)).
      { etrans; [|apply settleReadyWaiters_spends]. by apply spends_same. }
      destruct (settleReadyWaiters_fields None (became_ready now sock c)) as (ws' & js & E & _).
      apply inner_spends, replaySubscriptions_step. by rewrite E.
    + apply inner_spends, refreshTimeouts_step.
    + by apply inner_spends, dispatchResponse_step.
    + apply handleSocketClosed_spends.
Qed.

Lemma monitor_tick_spends now sock c : spends c (monitor_tick now sock c).
Proof.
  unfold monitor_tick. destruct (sockets c !! sock) as [s|]; [|done].
  destruct (tick liveness now (monitor s)) as [m r]. destruct r; [by apply spends_same| |].
  - destruct (negb _); [by apply spends_same|]. etrans; [|apply handleSocketClosed_spends]. by apply spends_same.
  - destruct (bool_decide _); by apply spends_same.
Qed.

(** The timer fires, armed: a redial. *)
Definition redial c (e : Event) : bool :=
  match e with ReconnectTimer _ _ => bool_decide (is_Some (reconnectTimer c)) | _ => false end.
Fixpoint redials c (es : list Event) : nat :=
  match es with
  | [] => 0
  | e :: es => (if redial c e then 1 else 0) + redials (step c e) es
  end.

Lemma handle_spends e c :
  conn_ok c -> e ≠ StableTimer -> spent c + (if redial c e then 1 else 0) <= spent (handle e c).
Proof.
  intros [_ _ K2 _ _ _] He.
  assert (Hplain : forall c', spends c c' -> spent c + 0 <= spent c') by (unfold spends; intros; lia).
  destruct e; try done; cbn [handle redial]; try apply Hplain.
  - unfold request, requestSharedControl. etrans; [|apply ensureReady_spends]. by apply spends_same.
  - unfold subscribe. etrans; [|apply ensureReady_spends]. by apply spends_same.
  - apply inner_spends, closeSubscription_step.
  - unfold close. etrans; [|apply closeSocket_spends]. etrans; [|apply inner_spends, close_all_step].
    etrans; [apply disarmed_spends|by apply spends_same].
  - destruct (sockets c !! sock) as [s|]; [|done]. destruct (bool_decide _); [|done].
    destruct (listening s); by apply spends_same.
  - destruct (current sock _); [|by apply spends_same].
    etrans; [|apply handleSocketClosed_spends]. by apply spends_same.
  - by apply spends_same.
  - destruct (current sock c); [apply socket_error_spends|done].
  - destruct (delivers sock c) eqn:Hd; [|done].
    etrans; [|apply handleTextFrame_spends]; [by apply spends_same|].
    by apply (subs_tracked_same c); [| |apply Forall_Forall2_diag, Forall_true|].
  - destruct (delivers sock c); [apply socket_error_spends|done].
  - destruct (delivers sock c); [by apply spends_same|done].
  - apply monitor_tick_spends.
  - destruct (timeouts c !! reqId) as [tm|]; [|done]. destruct (deadline tm <=? now); [|done].
    unfold request_times_out. destruct (pendingRequests c !! reqId) as [p|]; [|done].
    etrans; [|apply handleSocketClosed_spends]. by apply spends_same.
  - unfold waiter_times_out. destruct (waiters c !! i) as [w|]; [|done]. destruct (_ && _); [|done].
    unfold settleWaiter. simpl. repeat case_match; by apply spends_same.
  - pose proof (open_spends now outcome (c <| reconnectTimer := None |>)) as Ho. unfold spends, spent in *.
    simpl in Ho. destruct (reconnectTimer c) as [d|] eqn:Hr; [|rewrite Hr; simpl; lia].
    rewrite bool_decide_true by done. lia.
Qed.

Lemma drain_spends c : jobs_ok c -> spends c (drain c).
Proof.
  intros Hj. transitivity (c <| jobs := [] |>); [by apply spends_same|]. by apply inner_spends, drain_inner.
Qed.

Lemma step_spends e c :
  conn_ok c -> e ≠ StableTimer -> spent c + (if redial c e then 1 else 0) <= spent (step c e).
Proof.
  intros Hk He. etrans; [by apply handle_spends|]. unfold step.
  by apply drain_spends, handle_jobs_ok.
Qed.

Lemma step_spent e c : conn_ok c -> 0 <= spent c -> 0 <= spent (step c e).
Proof.
  intros Hk Hs. assert (e = StableTimer \/ e ≠ StableTimer) as [->|He] by (destruct e; auto).
  2:{ pose proof (step_spends e c Hk He). destruct (redial c e); lia. }
  pose proof (handle_jobs_ok StableTimer c Hk) as Hj.
  transitivity (spent (handle StableTimer c)); [|by apply drain_spends].
  simpl. destruct (readyStableReset c) eqn:Hr; [|done]. destruct (_ && _); [|done].
  unfold spent. simpl. destruct Hk as [_ _ _ _ [_ N2 N3] _]. destruct (ws c) as [i|].
  - by destruct (N2 i eq_refl) as (_&_&_&->&_).
  - destruct (N3 eq_refl) as (_&_&_&?&_). congruence.
Qed.

Lemma run_spent es : 0 <= spent (run es).
Proof.
  induction es as [|e es IH] using rev_ind; [done|]. rewrite run_app. simpl.
  apply step_spent; [apply run_conn_ok|done].
Qed.

Lemma redials_spent c es :
  conn_ok c -> StableTimer ∉ es -> spent c + Z.of_nat (redials c es) <= Z.of_nat (length delaysMs).
Proof.
  revert c. induction es as [|e es IH]; intros c Hk Hes.
  - pose proof (n_attempt _ (k_net _ Hk)) as Ha. cbn in Ha |- *. unfold spent. destruct (reconnectTimer c); lia.
  - rewrite not_elem_of_cons in Hes. destruct Hes as [He Hes].
    pose proof (step_spends e c Hk (not_eq_sym He)). specialize (IH _ (step_conn_ok c e Hk) Hes). simpl redials.
    destruct (redial c e); lia.
Qed.

(** ** Theorems *)

(** Calls settle once: in every run the promises of the calls made so far are
    exactly those settled, each once, and those pending; a pending call has its
    timer armed, and no timer is armed for anything else. *)
Theorem calls_settle_once es :
  let c := run es in
  settlements (log c) ++ map promise (jm_values (pendingRequests c)) ≡ₚ seq 0 (promises c) /\
  NoDup (settlements (log c)) /\
  (forall r, is_Some (timeouts c !! r) <-> is_Some (pendingRequests c !! r)).
Proof.
  cbn zeta. destruct (run_conn_ok es) as [_ [_ _ H3 _ H5] _ _ _ _]. split; [done|]. split; [|done].
  assert (Hnd : NoDup (settlements (log (run es)) ++ map promise (jm_values (pendingRequests (run es)))))
    by (rewrite H5; apply NoDup_seq).
  by apply NoDup_app in Hnd as [? _].
Qed.

(** C9. The connection never strands its users. In every run a subscription that is
    not finished has a socket or an armed reconnect timer behind it, a pending
    call or a waiter has a socket; the timer is armed only without a socket, a
    call or a waiter; every waiter not settled is listed, with its own timer. From any
    point on the timer redials at most seven times before the timer that marks a stable
    period fires; the count of attempts never passes seven. *)
Theorem connection_recovers es :
  let c := run es in
  (forall ref s, subs c !! ref = Some s -> closed s = false ->
     subscriptions c !! requestId s = Some ref /\
     (is_Some (ws c) \/ is_Some (reconnectTimer c))) /\
  (forall r, is_Some (pendingRequests c !! r) -> is_Some (ws c)) /\
  (forall i w, waiters c !! i = Some w -> settled w = false ->
     armed w = true /\ i ∈ readyWaiters c /\ is_Some (ws c) /\ state c ≠ Ready) /\
  (is_Some (reconnectTimer c) -> ws c = None /\ intentionallyClosed c = false) /\
  (forall es', StableTimer ∉ es' -> (redials c es' <= 7)%nat) /\
  (reconnectAttempt c <= 7)%nat.
Proof.
  cbn zeta. set (c := run es). destruct (run_conn_ok es) as [K0 K1 K2 K3 K4 K5]. fold c in K0, K1, K2, K3, K4, K5.
  split; [|split; [|split; [|split; [|split]]]].
  - intros ref s Hs Hc. assert (Hm : subscriptions c !! requestId s = Some ref) by (apply (t_open _ K2); eauto).
    split; [done|]. destruct (ws c) as [i|] eqn:Hw; [by left|right]. destruct (K5 Hw) as [_ Hi].
    apply Hi. intros He. by rewrite He in Hm.
  - intros r Hr. destruct (ws c) as [i|] eqn:Hw; [done|]. destruct (K5 Hw) as [Hp _].
    rewrite Hp in Hr. by destruct Hr.
  - intros i w Hi Hs. destruct (K3 i w Hi) as [Ha Hin]. rewrite Hs in Ha. specialize (Hin Hs).
    assert (Hne : readyWaiters c ≠ []) by (intros He; rewrite He in Hin; by apply elem_of_nil in Hin).
    destruct (ws c) as [k|] eqn:Hw.
    + destruct (n_socket _ K4 k Hw) as (_&_&_&_&_&Hr&_). auto.
    + destruct (n_none _ K4 Hw) as (_&_&_&_&?&_). done.
  - intros Ht. destruct (ws c) as [k|] eqn:Hw.
    + destruct (n_socket _ K4 k Hw) as (_&_&_&Hr&_). rewrite Hr in Ht. by destruct Ht.
    + split; [done|]. destruct (n_none _ K4 Hw) as (_&_&_&_&_&Hr).
      destruct (intentionallyClosed c); [|done]. rewrite Hr in Ht by done. by destruct Ht.
  - intros es' Hes. pose proof (redials_spent c es' (run_conn_ok es) Hes) as Hr. pose proof (run_spent es) as Hs.
    fold c in Hs, Hr. simpl length in Hr. lia.
  - apply K4.
Qed.

(** Every step is an [outer_step]. *)
Lemma step_outer c e : conn_ok c -> outer_step c (step c e).
Proof.
  intros Hk. unfold step.
  assert (Hd : forall c', outer_step c c' -> jobs_ok c' -> outer_step c (drain c')).
  { intros c' Ho Hj. transitivity (c' <| jobs := [] |>); [|by apply inner_outer, drain_inner].
    etrans; [exact Ho|]. apply (plain_outer _ _ []); try done. by rewrite app_nil_r. }
  destruct (intentionallyClosed c) eqn:Hc; [destruct (is_call e) eqn:He|].
  2:{ destruct (handle_handled e c Hk) as [? ? _ _]; auto. }
  2:{ destruct (handle_handled e c Hk) as [? ? _ _]; auto. }
  destruct (conn_closed c Hk Hc) as (C1&C2&C3&C4&C5&C6&C7).
  assert (Hcall : forall c1 k now outcome, outer_step c c1 -> core c1 = core c -> waiting c1 = waiting c ->
    outer_step c (drain (ensureReady now outcome k c1))).
  { intros c1 k now outcome Ho Hcore Hwait.
    destruct (core_fields _ _ Hcore) as (_&E2&_&_&_&_&_&E8). injection Hwait as R W J.
    destruct (closed_ensureReady now outcome k c1) as [ws' E]; [congruence|congruence|congruence|rewrite J; apply Hk|].
    apply Hd; [|rewrite E; by repeat constructor]. etrans; [exact Ho|].
    unfold ensureReady. destruct (isSharedControlReady c1); [apply queueJob_outer|].
    change (c1 <| waiters := _ |> <| readyWaiters := _ |>) with (push_waiter k c1).
    etrans; [apply (push_waiter_outer k)|]. change (ws (push_waiter k c1)) with (ws c1).
    rewrite E2, C1. unfold open. change (intentionallyClosed (push_waiter k c1)) with (intentionallyClosed c1).
    rewrite E8, Hc. apply settleReadyWaiters_outer. }
  destruct e; try done; simpl; unfold request, requestSharedControl, subscribe.
  - apply (Hcall (add_request {| delay := timeoutMs; deadline := now + timeoutMs |} false method c)); try done.
    apply add_request_outer.
  - apply (Hcall (add_subscription method params c)); try done. apply add_subscription_outer.
Qed.

Lemma run_outer c es : conn_ok c -> outer_step c (foldl step c es) /\ conn_ok (foldl step c es).
Proof.
  revert c. induction es as [|e es IH]; intros c Hc; simpl; [done|].
  pose proof (step_outer c e Hc). destruct (IH (step c e)) as [? ?]; [by apply step_conn_ok|].
  split; [|done]. by etrans.
Qed.

(** A finished subscription is silent: its owner is told of the close at most
    once, and once it is closed no response, error or close reaches it any more,
    whatever the server sends and however often the connection reconnects. *)
Theorem finished_subscription_silent es es' ref :
  (closes ref (log (run es)) <= 1)%nat /\
  (is_closed (run es) ref = true ->
   is_closed (run (es ++ es')) ref = true /\
   callbacks ref (log (run (es ++ es'))) = callbacks ref (log (run es))).
Proof.
  split.
  - destruct (run_outer new_connection es new_conn_ok) as [Ho _]. pose proof (o_once _ _ Ho ref) as Hc.
    change (foldl step new_connection es) with (run es) in Hc.
    change (closes ref (log new_connection)) with 0%nat in Hc.
    change (is_closed new_connection ref) with false in Hc. destruct (is_closed (run es) ref); lia.
  - intros Hc. rewrite run_app. pose proof (run_conn_ok es) as Hk.
    destruct (run_outer (run es) es' Hk) as [Ho _]. split; [by apply (o_closed _ _ Ho)|].
    apply (o_quiet _ _ Ho); [apply Hk|done].
Qed.
End Runs.

(** The theorems at the demonstration run. *)
Import Demo.

Lemma calls_settle_once_witness :
  let c := run demo_run in
  settlements (log c) = [0%nat] /\ promises c = 1%nat /\ NoDup (settlements (log c)).
Proof.
  split; [vm_compute; reflexivity|]. split; [vm_compute; reflexivity|].
  exact (proj1 (proj2 (calls_settle_once demo_run))).
Defined.

(** After the socket closed under the subscription. *)
Lemma connection_recovers_witness :
  let c := run (take 8 demo_run) in
  match subs c !! 0%nat with Some s => closed s = false | None => False end /\
  ws c = None /\ (is_Some (ws c) \/ is_Some (reconnectTimer c)).
Proof.
  split; [vm_compute; reflexivity|]. split; [vm_compute; reflexivity|].
  destruct (connection_recovers (take 8 demo_run)) as [Hs _].
  eapply (Hs 0%nat); vm_compute; reflexivity.
Defined.

Lemma finished_subscription_silent_witness :
  let late := [TextFrame 10 1 (sealed "ok u0")] in
  is_closed (run demo_run) 0 = true /\
  callbacks 0 (log (run (demo_run ++ late))) = callbacks 0 (log (run demo_run)).
Proof.
  assert (Hc : is_closed (run demo_run) 0 = true) by (vm_compute; reflexivity).
  split; [exact Hc|].
  exact (proj2 (proj2 (finished_subscription_silent demo_run
    [TextFrame 10 1 (sealed "ok u0")] 0) Hc)).
Defined.
