(* ===== verification/SharedControlTraffic.v ===== *)
(** * The shared control connection: what goes over its sockets

    [traffic] is the preorder of the steps that open no socket and send only what
    the state they start from allows. Opening and the two replies of the
    handshake are the steps outside it. The theorems: authentication comes
    first on every socket, and a closed connection sends nothing. *)

From S2P Require Import Prelude JsMap Json SharedControlFrames SocketLiveness SharedControl.
From S2P Require Import SharedControlFacts SharedControlRuns.

Local Open Scope string_scope.
Local Open Scope list_scope.
Local Open Scope Z_scope.

Section Traffic.
Context `{RuntimeEnv} `{Config}.
Context {uuid_inj : Inj (=) (=) randomUUID}.
Implicit Types c : SharedControl.

(** ** Steps that open nothing *)

Definition no_send (e : Effect) : Prop :=
  match e with Send _ _ | SocketOpened _ => False | _ => True end.

Record traffic c c' : Prop := {
  tr_log : exists es, log c' = log c ++ es /\ Forall (fun e => sub_effect c e \/ no_send e) es;
  tr_ws : ws c' = None \/ ws c' = ws c /\ state c' = state c;
  tr_open : forall i, ws c' = Some i -> state c' ≠ AwaitingReady ->
    socket_in (Some i) OPEN c' = true -> socket_in (Some i) OPEN c = true;
  tr_len : length (sockets c') = length (sockets c);
  tr_closed : intentionallyClosed c = true -> intentionallyClosed c' = true }.

Lemma traffic_effect c c' e : traffic c c' -> sub_effect c' e -> sub_effect c e \/ no_send e.
Proof.
  intros [_ Hw Ho _ _]. destruct e; simpl; auto. intros (Hws & Hopen & Hp & Hst). left.
  destruct Hw as [Hw|[Hw Hs]]; [congruence|]. rewrite <-Hw, <-Hs. split; [done|]. split; [|done].
  apply Ho; [done| |done]. intros He. rewrite He in Hst. by destruct Hst as [?|[? _]].
Qed.

#[export] Instance traffic_preorder : PreOrder traffic.
Proof.
  split.
  - intros c. split; auto. exists []. by rewrite app_nil_r.
  - intros c1 c2 c3 H12 H23. pose proof H12 as [(es1 & E1 & F1) W1 O1 L1 C1].
    pose proof H23 as [(es2 & E2 & F2) W2 O2 L2 C2]. split.
    + exists (es1 ++ es2). rewrite E2, E1, app_assoc. split; [done|]. apply Forall_app. split; [done|].
      eapply Forall_impl; [exact F2|]. intros e [He|?]; [|by right]. by apply (traffic_effect c1 c2).
    + destruct W2 as [?|[-> ->]]; [by left|]. exact W1.
    + intros i Hi Hst Hop. specialize (O2 i Hi Hst Hop).
      destruct W2 as [W2|[W2 S2]]; [congruence|]. apply O1; congruence.
    + congruence.
    + auto.
Qed.

Lemma inner_traffic c c' : inner_step c c' -> traffic c c'.
Proof.
  intros Hs. destruct (core_fields _ _ (ss_core _ _ Hs)) as (E1 & E2 & _ & _ & _ & _ & _ & E8).
  destruct (ss_log _ _ Hs) as (es & El & Hes). split.
  - exists es. split; [done|]. eapply Forall_impl; [exact Hes|]. by left.
  - by right.
  - intros i _ _. by rewrite (socket_in_same _ _ _ _ (ss_sockets _ _ Hs)).
  - by rewrite (ss_sockets _ _ Hs).
  - by rewrite E8.
Qed.

(** A write that leaves the sockets, and effects that send nothing. *)
Lemma silent_traffic c c' es :
  sockets c' = sockets c -> ws c' = None \/ ws c' = ws c /\ state c' = state c ->
  (intentionallyClosed c = true -> intentionallyClosed c' = true) ->
  log c' = log c ++ es -> Forall no_send es -> traffic c c'.
Proof.
  intros Hs Hw Hc Hl Hes. split; [|done| |by rewrite Hs|done].
  - exists es. split; [done|]. eapply Forall_impl; [exact Hes|]. by right.
  - intros i _ _. by rewrite (socket_in_same _ _ _ _ Hs).
Qed.

(** A socket that is not opened by it. *)
Lemma update_socket_traffic sock f c :
  (forall s, sockets c !! sock = Some s -> readyState (f s) = OPEN -> readyState s = OPEN) ->
  traffic c (update_socket sock f c).
Proof.
  intros Hf. split.
  - exists []. by rewrite app_nil_r.
  - by right.
  - intros i _ _. unfold socket_in. simpl. destruct (decide (sock = i)) as [->|Hne].
    + rewrite list_lookup_alter_eq. destruct (sockets c !! i) as [s|]; [|done]. simpl.
      rewrite !bool_decide_eq_true. by apply Hf.
    + by rewrite list_lookup_alter_ne.
  - simpl. by rewrite length_alter.
  - done.
Qed.

Lemma settleReadyWaiters_traffic error c : traffic c (settleReadyWaiters error c).
Proof.
  destruct (settleReadyWaiters_fields error c) as (ws' & js & -> & _).
  apply (silent_traffic _ _ []); auto. by rewrite app_nil_r.
Qed.

Lemma told_traffic error c : traffic c (told error c).
Proof.
  unfold told. etrans; [|apply inner_traffic, markUnsent_step].
  etrans; [|apply inner_traffic, rejectAllPending_step].
  etrans; [|apply settleReadyWaiters_traffic].
  etrans; [|apply inner_traffic, finishCloseAfterReady_step].
  apply (silent_traffic _ _ []); auto. by rewrite app_nil_r.
Qed.

Lemma closeSocket_traffic error c : traffic c (closeSocket error c).
Proof.
  rewrite closeSocket_told. cbn zeta. etrans; [apply (told_traffic error)|].
  set (c1 := told error c). set (c2 := match socketCleanup c1 with Some sock => detach sock c1 | None => c1 end).
  transitivity c2.
  { unfold c2. destruct (socketCleanup c1); [|done]. by apply update_socket_traffic. }
  set (c3 := match ws c2 with Some sock => close_socket_object sock c2 | None => c2 end).
  transitivity c3.
  { unfold c3. destruct (ws c2) as [i|]; [|done]. unfold close_socket_object.
    set (c4 := update_socket i _ c2). transitivity c4.
    - apply update_socket_traffic. intros s _. by destruct (bool_decide_reflect (readyState s = CLOSED)).
    - apply (silent_traffic _ _ [SocketClose i]); auto; by repeat constructor. }
  apply (silent_traffic _ _ []); auto. by rewrite app_nil_r.
Qed.

Lemma scheduleReconnect_traffic c : traffic c (scheduleReconnect c).
Proof.
  unfold scheduleReconnect. destruct (length delaysMs <=? reconnectAttempt c)%nat.
  - etrans; [apply inner_traffic, (finish_all_step (Some restore_error))|].
    apply (silent_traffic _ _ []); auto. by rewrite app_nil_r.
  - destruct (reconnectTimer c), (intentionallyClosed c) eqn:Hi; try done.
    apply (silent_traffic _ _ []); auto. by rewrite app_nil_r.
Qed.

Lemma handleSocketClosed_traffic error c : traffic c (handleSocketClosed error c).
Proof.
  unfold handleSocketClosed. set (c0 := c <| lastError := _ |>).
  transitivity c0; [apply (silent_traffic _ _ []); auto; by rewrite app_nil_r|].
  etrans; [apply (closeSocket_traffic (Some error))|]. generalize (closeSocket (Some error) c0). intros c1.
  destruct (_ && _); [apply scheduleReconnect_traffic|done].
Qed.

Lemma drain_traffic c : jobs_ok c -> traffic c (drain c).
Proof.
  intros Hj. etrans; [|by apply inner_traffic, drain_inner].
  apply (silent_traffic _ _ []); auto. by rewrite app_nil_r.
Qed.

Lemma transport_traffic sock st c : net_ok c -> traffic c (transport sock st c).
Proof.
  intros Hn. split.
  - exists []. by rewrite app_nil_r.
  - by right.
  - intros i Hw Hst. simpl in Hw, Hst. destruct (n_socket _ Hn i Hw) as (_&_&_&_&_&_&s&Hs&_&Hr).
    unfold socket_in. simpl. destruct (decide (sock = i)) as [->|Hne].
    + rewrite list_lookup_alter_eq, Hs. simpl. specialize (Hr Hst).
      rewrite !bool_decide_eq_true. by destruct (readyState s) eqn:E, st; simpl; rewrite ?E.
    + by rewrite list_lookup_alter_ne.
  - simpl. by rewrite length_alter.
  - done.
Qed.

(** ** The order of what is sent *)

Definition sends (i : nat) (es : list Effect) : list Payload :=
  omap (fun e => match e with Send j p => if (j =? i)%nat then Some p else None | _ => None end) es.

(** [p] may follow the effects [before]. *)
Definition send_ok (i : nat) (p : Payload) (before : list Effect) : Prop :=
  match p with
  | AuthPayload token => token = deviceToken /\ sends i before = []
  | CallPayload _ token _ _ =>
      token = deviceToken /\ sends i before ≠ [] /\ (BecameReady i ∈ before \/ is_cleanup p)
  end.
Definition ordered (es : list Effect) : Prop :=
  forall before i p after, es = before ++ Send i p :: after -> send_ok i p before.

Record log_ok c : Prop := {
  l_ordered : ordered (log c);
  l_fresh : forall i, (length (sockets c) <= i)%nat -> sends i (log c) = [];
  l_current : forall i, ws c = Some i ->
    (i < length (sockets c))%nat /\
    (state c = AwaitingReady -> sends i (log c) = []) /\
    (state c = Ready -> BecameReady i ∈ log c) /\
    (state c ≠ AwaitingReady -> socket_in (Some i) OPEN c = true -> sends i (log c) ≠ []) }.

Lemma sends_app i es es' : sends i (es ++ es') = sends i es ++ sends i es'.
Proof. apply omap_app. Qed.

Lemma no_sends i es : Forall no_send es -> sends i es = [].
Proof. unfold sends. induction 1 as [|e es He _ IH]; [done|]. by destruct e. Qed.

Lemma sends_none i es : (forall p, Send i p ∉ es) -> sends i es = [].
Proof.
  induction es as [|e es IH]; intros Hi; [done|]. change (e :: es) with ([e] ++ es).
  rewrite sends_app, IH by (intros p Hp; apply (Hi p); by right). rewrite app_nil_r.
  destruct e; try done. unfold sends. simpl. destruct (Nat.eqb_spec sock i) as [->|]; [|done].
  destruct (Hi payload). left.
Qed.

Lemma ordered_app es es' :
  ordered es ->
  (forall before i p after, es' = before ++ Send i p :: after -> send_ok i p (es ++ before)) ->
  ordered (es ++ es').
Proof.
  intros Ho Hn before i p after Heq. apply app_eq_inv in Heq as [(k & -> & Heq)|(k & -> & Heq)].
  - destruct k as [|e k]; simpl in Heq.
    + subst es'. specialize (Hn [] i p after eq_refl). by rewrite !app_nil_r in *.
    + injection Heq as <- ->. by eapply Ho.
  - by apply (Hn k i p after).
Qed.

Lemma traffic_log_ok c c' : traffic c c' -> log_ok c -> log_ok c'.
Proof.
  intros [(es & El & Hes) Hw Ho Hlen _] [L1 L2 L3].
  assert (Hsend : forall i p, Send i p ∈ es -> ws c = Some i /\ state c ≠ AwaitingReady /\ sends i (log c) ≠ [] /\
            match p with CallPayload _ token _ _ => token = deviceToken | AuthPayload _ => False end /\
            (BecameReady i ∈ log c \/ is_cleanup p)).
  { intros i p Hin. rewrite Forall_forall in Hes. destruct (Hes _ Hin) as [(Hi & Hop & Hp & Hst)|[]].
    assert (Hne : state c ≠ AwaitingReady) by (by destruct Hst as [-> | [-> _]]).
    destruct (L3 i Hi) as (_ & _ & Hr & Hs). split; [done|]. split; [done|]. split; [by apply Hs|].
    split; [done|]. destruct Hst as [Hst|[_ Hc]]; [left; by apply Hr|by right]. }
  split; rewrite ?El.
  - apply ordered_app; [done|]. intros before i p after ->.
    destruct (Hsend i p) as (_ & _ & Hne & Hp & Hr); [apply elem_of_app; right; left|]. destruct p; [done|]. simpl.
    split; [done|]. split; [rewrite sends_app; by destruct (sends i (log c))|].
    destruct Hr; [left; apply elem_of_app; by left|by right].
  - intros i Hi. rewrite sends_app, L2 by lia. simpl. apply sends_none. intros p Hin.
    destruct (Hsend i p Hin) as (Hwi & _). destruct (L3 i Hwi) as (Hlt & _). lia.
  - intros i Hi. destruct Hw as [Hw|[Hw Hst]]; [congruence|]. rewrite Hw in Hi.
    destruct (L3 i Hi) as (A & B & C & D). rewrite Hlen, Hst. split; [done|]. split; [|split].
    + intros Ha. rewrite sends_app, B by done. simpl. apply sends_none. intros p Hin.
      by destruct (Hsend i p Hin) as (_ & ? & _).
    + intros Hr. apply elem_of_app. left. by apply C.
    + intros Hn Hop. rewrite sends_app. specialize (D Hn). rewrite <-Hw in Hi. rewrite <-Hst in Hn.
      specialize (D (Ho i Hi Hn Hop)). by destruct (sends i (log c)).
Qed.

(** ** The steps outside it *)

Lemma log_ok_silent c c' : traffic c c' -> log_ok c -> log_ok c'.
Proof. apply traffic_log_ok. Qed.

Lemma opened_log_ok now key c : intentionallyClosed c = false -> log_ok c -> log_ok (open now (Opened key) c).
Proof.
  intros Hi [L1 L2 L3]. unfold open. rewrite Hi. set (i := length (sockets c)).
  assert (Hs : forall j, sends j (log c ++ [SocketOpened i]) = sends j (log c))
    by (intros j; rewrite sends_app; apply app_nil_r).
  split; simpl.
  - apply ordered_app; [done|]. intros before j p after Heq.
    destruct before as [|? [|? ?]]; by simplify_eq/=.
  - intros j. rewrite length_app. simpl. intros Hj. rewrite Hs. apply L2. lia.
  - intros j [= <-]. rewrite length_app. simpl. split; [lia|]. split; [|by split].
    intros _. rewrite Hs. by apply L2.
Qed.

Lemma open_log_ok now outcome c : log_ok c -> log_ok (open now outcome c).
Proof.
  intros Hl. destruct (intentionallyClosed c) eqn:Hi.
  - unfold open. rewrite Hi. apply (traffic_log_ok c); [apply settleReadyWaiters_traffic|done].
  - destruct outcome as [key|error]; [by apply opened_log_ok|].
    unfold open. rewrite Hi. apply (traffic_log_ok c); [|done].
    etrans; [|apply handleSocketClosed_traffic].
    apply (silent_traffic _ _ []); auto. by rewrite app_nil_r.
Qed.

Lemma ensureReady_log_ok now outcome k c : log_ok c -> log_ok (ensureReady now outcome k c).
Proof.
  intros Hl. unfold ensureReady. destruct (isSharedControlReady c).
  { apply (traffic_log_ok c); [|done]. apply (silent_traffic _ _ []); auto. by rewrite app_nil_r. }
  change (c <| waiters := _ |> <| readyWaiters := _ |>) with (push_waiter k c).
  assert (Hp : log_ok (push_waiter k c)).
  { apply (traffic_log_ok c); [|done]. apply (silent_traffic _ _ []); auto. by rewrite app_nil_r. }
  destruct (ws (push_waiter k c)); [|by apply open_log_ok].
  destruct (_ || _); [by apply open_log_ok|done].
Qed.

(** The first reply: the device token goes out. *)
Lemma authenticating_log_ok c sock :
  net_ok c -> log_ok c -> ws c = Some sock -> state c = AwaitingReady ->
  log_ok (sendEncrypted (AuthPayload deviceToken) (c <| state := AwaitingAuthenticated |>)).1.
Proof.
  intros Hn [L1 L2 L3] Hw Hst. destruct (L3 sock Hw) as (Hlt & Hs & _ & _). specialize (Hs Hst).
  destruct (n_socket _ Hn sock Hw) as (_ & [key Hkey] & _).
  unfold sendEncrypted. simpl. rewrite Hw, Hkey.
  destruct (socket_in (Some sock) OPEN (c <| state := AwaitingAuthenticated |>)) eqn:Ho; split; simpl.
  - apply ordered_app; [done|]. intros before j p after Heq.
    destruct before as [|? [|? ?]]; simplify_eq/=. by rewrite app_nil_r.
  - intros j Hj. rewrite sends_app, L2 by done. unfold sends. simpl.
    by destruct (Nat.eqb_spec sock j); [lia|].
  - intros j Hj. rewrite Hw in Hj. injection Hj as <-. split; [done|]. split; [done|]. split; [done|].
    intros _ _. rewrite sends_app, Hs. unfold sends. simpl. by rewrite Nat.eqb_refl.
  - done.
  - done.
  - intros j Hj. rewrite Hw in Hj. injection Hj as <-. split; [done|]. split; [done|]. split; [done|].
    intros _ Hopen. unfold socket_in in *. simpl in *. congruence.
Qed.

Lemma became_ready_log_ok now sock c :
  log_ok c -> ws c = Some sock -> state c ≠ AwaitingReady -> log_ok (became_ready now sock c).
Proof.
  intros [L1 L2 L3] Hw Hst. destruct (L3 sock Hw) as (Hlt & _ & _ & Hs). specialize (Hs Hst).
  assert (Hb : forall j, sends j (log c ++ [BecameReady sock]) = sends j (log c))
    by (intros j; rewrite sends_app; apply app_nil_r).
  split; simpl.
  - apply ordered_app; [done|]. intros before j p after Heq.
    destruct before as [|? [|? ?]]; by simplify_eq/=.
  - intros j Hj. rewrite Hb. by apply L2.
  - intros j Hj. rewrite Hw in Hj. injection Hj as <-. split; [done|]. split; [done|].
    split; [intros _; apply elem_of_app; right; left|]. intros _. by rewrite Hb.
Qed.

Lemma handleTextFrame_log_ok now sock frame c :
  net_ok c -> tracked_ok c -> log_ok c -> ws c = Some sock -> log_ok (handleTextFrame now sock frame c).
Proof.
  intros Hn Ht Hl Hw. unfold handleTextFrame. destruct (bool_decide_reflect (state c = AwaitingReady)) as [Hst|Hst].
  - destruct (parseReadyFrame frame).
    + by apply (traffic_log_ok c); [apply handleSocketClosed_traffic|].
    + by apply (authenticating_log_ok c sock).
  - destruct (parseSharedControlFrame frame (sharedKey c) (state c)) as [plaintext| |response|error].
    + destruct (parseAuthenticatedFrame plaintext) as [[error|]|m].
      * by apply (traffic_log_ok c); [apply handleSocketClosed_traffic|].
      * apply (traffic_log_ok (became_ready now sock c)); [|by apply became_ready_log_ok].
        destruct (settleReadyWaiters_fields None (became_ready now sock c)) as (ws' & js & E & _).
        transitivity (settleReadyWaiters None (became_ready now sock c)); [apply settleReadyWaiters_traffic|].
        assert (Hr : state (settleReadyWaiters None (became_ready now sock c)) = Ready) by (by rewrite E).
        exact (inner_traffic _ _ (replaySubscriptions_step _ Hr)).
      * apply (traffic_log_ok c); [|done]. apply (silent_traffic _ _ [UncaughtException m]); auto. by repeat constructor.
    + apply (traffic_log_ok c); [|done]. apply inner_traffic, refreshTimeouts_step.
    + apply (traffic_log_ok c); [|done]. by apply inner_traffic, dispatchResponse_step.
    + by apply (traffic_log_ok c); [apply handleSocketClosed_traffic|].
Qed.

Lemma noted_net now sock c : net_ok c -> net_ok (note_activity now sock c).
Proof. apply update_socket_net, note_activity_forward. Qed.

Lemma note_activity_traffic now sock c : traffic c (note_activity now sock c).
Proof. apply update_socket_traffic. by intros s _. Qed.

Lemma monitor_tick_traffic now sock c : traffic c (monitor_tick now sock c).
Proof.
  unfold monitor_tick. destruct (sockets c !! sock) as [s|]; [|done].
  destruct (tick liveness now (monitor s)) as [m r]. set (c1 := update_socket sock _ c).
  transitivity c1; [apply update_socket_traffic; by intros ? _|]. destruct r; [done| |].
  - destruct (negb _); [done|]. etrans; [|apply handleSocketClosed_traffic].
    set (c2 := update_socket sock _ c1). transitivity c2.
    + apply update_socket_traffic. intros s' _. by destruct (bool_decide_reflect (readyState s' = CLOSED)).
    + apply (silent_traffic _ _ [SocketTerminate sock]); auto. by repeat constructor.
  - destruct (bool_decide _); [|done]. apply (silent_traffic _ _ [PingSent sock]); auto. by repeat constructor.
Qed.

Lemma socket_error_traffic error c : traffic c (socket_error error c).
Proof.
  unfold socket_error. etrans; [|apply handleSocketClosed_traffic].
  apply (silent_traffic _ _ []); auto. by rewrite app_nil_r.
Qed.

Lemma close_traffic error c : traffic c (close error c).
Proof.
  unfold close. set (c0 := c <| intentionallyClosed := true |> <| reconnectTimer := None |>).
  etrans; [|apply closeSocket_traffic]. etrans; [|apply inner_traffic, close_all_step].
  apply (silent_traffic _ _ []); auto. by rewrite app_nil_r.
Qed.

(** Every event but a call, a frame and the reconnect timer only passes traffic. *)
Definition opens_or_reads (e : Event) : bool :=
  match e with CallRequest _ _ _ _ _ | CallSubscribe _ _ _ _ | TextFrame _ _ _ | ReconnectTimer _ _ => true | _ => false end.

Lemma handle_traffic e c : net_ok c -> opens_or_reads e = false -> traffic c (handle e c).
Proof.
  intros Hn He. destruct e; try done; simpl.
  - apply inner_traffic, closeSubscription_step.
  - apply close_traffic.
  - destruct (sockets c !! sock) as [s|]; [|done]. destruct (bool_decide _); [|done].
    destruct (listening s); [|by apply transport_traffic].
    etrans; [by apply (transport_traffic sock OPEN)|].
    apply (silent_traffic _ _ [HelloSent sock]); auto. by repeat constructor.
  - set (c1 := transport sock CLOSED c). transitivity c1; [by apply transport_traffic|].
    destruct (current sock c1); [|done]. etrans; [|apply handleSocketClosed_traffic].
    apply (silent_traffic _ _ []); auto. by rewrite app_nil_r.
  - by apply transport_traffic.
  - destruct (current sock c); [apply socket_error_traffic|done].
  - destruct (delivers sock c); [apply socket_error_traffic|done].
  - destruct (delivers sock c); [apply note_activity_traffic|done].
  - apply monitor_tick_traffic.
  - destruct (timeouts c !! reqId) as [tm|]; [|done]. destruct (deadline tm <=? now); [|done].
    unfold request_times_out. destruct (pendingRequests c !! reqId) as [p|]; [|done].
    etrans; [|apply handleSocketClosed_traffic].
    apply (silent_traffic _ _ [Settled (promise p) (Rejected remoteRuntimeTimeoutError)]); auto. by repeat constructor.
  - unfold waiter_times_out. destruct (waiters c !! i) as [w|]; [|done]. destruct (_ && _); [|done].
    unfold settleWaiter. simpl. repeat case_match; apply (silent_traffic _ _ []); auto; by rewrite app_nil_r.
  - destruct (readyStableReset c); [|done].
    destruct (_ && _); apply (silent_traffic _ _ []); auto; by rewrite app_nil_r.
Qed.

Lemma handle_log_ok e c : conn_ok c -> log_ok c -> log_ok (handle e c).
Proof.
  intros [K0 K1 K2 K3 K4 K5] Hl. destruct (opens_or_reads e) eqn:He.
  2:{ by apply (traffic_log_ok c); [apply handle_traffic|]. }
  assert (Hsame : forall c', sockets c' = sockets c -> ws c' = ws c -> state c' = state c ->
    intentionallyClosed c' = intentionallyClosed c -> log c' = log c -> log_ok c').
  { intros c' Hs Hw Hst Hi Hlog. apply (traffic_log_ok c); [|done].
    apply (silent_traffic _ _ []); auto; [by rewrite Hi|]. by rewrite app_nil_r. }
  destruct e; try done; simpl.
  - unfold request, requestSharedControl. apply ensureReady_log_ok. by apply Hsame.
  - unfold subscribe. apply ensureReady_log_ok. by apply Hsame.
  - destruct (delivers sock c) eqn:Hd; [|done]. destruct (delivers_noted now sock c Hd) as [Hw _].
    apply handleTextFrame_log_ok; [by apply noted_net| |by apply (traffic_log_ok c); [apply note_activity_traffic|]|done].
    apply (subs_tracked_same c); [done|done|by apply Forall_Forall2_diag, Forall_true|done].
  - destruct (reconnectTimer c); [|done]. apply open_log_ok. by apply Hsame.
Qed.

Lemma step_log_ok c e : conn_ok c -> log_ok c -> log_ok (step c e).
Proof.
  intros Hk Hl. apply (traffic_log_ok (handle e c)); [|by apply handle_log_ok].
  by apply drain_traffic, handle_jobs_ok.
Qed.

Lemma run_log_ok es : log_ok (run es).
Proof.
  unfold run. assert (Hn : log_ok new_connection).
  { split; [|done|done]. intros before i p after Heq. symmetry in Heq. by apply app_nil in Heq as [_ ?]. }
  pose proof new_conn_ok as Hk. revert Hn Hk. generalize new_connection.
  induction es as [|e es IH]; intros c Hl Hk; simpl; [done|]. apply IH; [by apply step_log_ok|by apply step_conn_ok].
Qed.

Lemma ordered_prefix es es' : ordered (es ++ es') -> ordered es.
Proof. intros Ho b i p a ->. apply (Ho b i p (a ++ es')). by rewrite <-app_assoc. Qed.

Lemma first_sent i es :
  ordered es -> sends i es ≠ [] -> head (sends i es) = Some (AuthPayload deviceToken).
Proof.
  induction es as [|e es IH] using rev_ind; intros Ho Hne; [done|]. rewrite sends_app in *.
  specialize (IH (ordered_prefix _ _ Ho)). destruct (sends i es) as [|q l] eqn:Hs; [|by apply IH].
  unfold sends in Hne |- *. destruct e; try done. simpl in *. destruct (Nat.eqb_spec sock i) as [->|]; [|done].
  specialize (Ho es i payload [] eq_refl). destruct payload; simpl in *.
  - by destruct Ho as [-> _].
  - by destruct Ho as (_ & ? & _).
Qed.

(** ** Theorems *)

(** C21. Authentication comes first: in every run, whatever the peer and the timers do,
    the first encrypted message of each socket presents the device token of the
    pairing, it is presented once per socket, every later message is a call
    that carries it, and a call other than a cleanup is sent only once the
    connection became ready on that very socket. *)
Theorem authentication_first es before sock payload after :
  log (run es) = before ++ Send sock payload :: after ->
  match payload with
  | AuthPayload token => token = deviceToken /\ sends sock before = []
  | CallPayload _ token method _ =>
      token = deviceToken /\ head (sends sock before) = Some (AuthPayload deviceToken) /\
      (BecameReady sock ∈ before \/ method ∈ cleanup_methods)
  end.
Proof.
  intros Hlog. pose proof (l_ordered _ (run_log_ok es)) as Ho. pose proof (Ho _ _ _ _ Hlog) as Hp.
  destruct payload as [token|r token method params]; [done|]. destruct Hp as (-> & Hne & Hr).
  split; [done|]. split; [|destruct Hr as [?|[_ ?]]; auto].
  apply first_sent; [|done]. eapply ordered_prefix. by rewrite <-Hlog.
Qed.

Lemma closed_handle_traffic e c :
  conn_ok c -> intentionallyClosed c = true -> traffic c (handle e c).
Proof.
  intros Hk Hc. destruct (conn_closed c Hk Hc) as (C1&C2&_). destruct (opens_or_reads e) eqn:He.
  2:{ apply handle_traffic; [apply Hk|done]. }
  assert (Hcall : forall c1 k now outcome, ws c1 = None -> intentionallyClosed c1 = true -> traffic c c1 ->
            traffic c (ensureReady now outcome k c1)).
  { intros c1 k now outcome Hw Hi Ht. etrans; [exact Ht|]. unfold ensureReady.
    destruct (isSharedControlReady c1); [apply (silent_traffic _ _ []); auto; by rewrite app_nil_r|].
    change (c1 <| waiters := _ |> <| readyWaiters := _ |>) with (push_waiter k c1).
    transitivity (push_waiter k c1); [apply (silent_traffic _ _ []); auto; by rewrite app_nil_r|].
    change (ws (push_waiter k c1)) with (ws c1). rewrite Hw. unfold open.
    change (intentionallyClosed (push_waiter k c1)) with (intentionallyClosed c1). rewrite Hi.
    apply settleReadyWaiters_traffic. }
  destruct e; try done; simpl.
  - unfold request, requestSharedControl. apply Hcall; try done.
    apply (silent_traffic _ _ []); auto. by rewrite app_nil_r.
  - unfold subscribe. apply Hcall; try done. apply (silent_traffic _ _ []); auto. by rewrite app_nil_r.
  - destruct (delivers sock c) eqn:Hd; [|done]. apply delivers_spec in Hd as [Hw _]. congruence.
  - by rewrite C2.
Qed.

Lemma closed_run_traffic c es :
  conn_ok c -> intentionallyClosed c = true -> traffic c (foldl step c es) /\ conn_ok (foldl step c es).
Proof.
  revert c. induction es as [|e es IH]; intros c Hk Hc; simpl; [done|].
  assert (Ht : traffic c (step c e)).
  { etrans; [by apply closed_handle_traffic|]. by apply drain_traffic, handle_jobs_ok. }
  destruct (IH (step c e)) as [? ?]; [by apply step_conn_ok|by apply (tr_closed _ _ Ht)|].
  split; [by etrans|done].
Qed.

Lemma drain_closed c : jobs_ok c -> intentionallyClosed (drain c) = intentionallyClosed c.
Proof. intros Hj. by destruct (core_fields _ _ (ss_core _ _ (drain_inner _ Hj))) as (_&_&_&_&_&_&_&->). Qed.

Lemma close_intentionally error c : conn_ok c -> intentionallyClosed (close error c) = true.
Proof.
  intros Hk. apply (close_spec error c (k_calls _ Hk) (k_tracked _ Hk) (n_attempt _ (k_net _ Hk))).
  unfold jobs_failed. by rewrite (k_jobs _ Hk).
Qed.

Lemma close_step error c : conn_ok c -> intentionallyClosed (step c (CallClose error)) = true.
Proof.
  intros Hk. unfold step. rewrite drain_closed by (by apply handle_jobs_ok).
  exact (close_intentionally error c Hk).
Qed.

(** A closed connection is inert. After [close] nothing is ever sent or opened
    again, whatever events follow: calls made later, late frames, sockets that
    open or timers that fire. It holds no socket, timer, pending call or
    subscription, and every call made before or after is settled. *)
Theorem closed_connection_inert es error es' :
  let c := run (es ++ [CallClose error]) in
  let c' := run (es ++ CallClose error :: es') in
  (exists later, log c' = log c ++ later /\ Forall no_send later) /\
  ws c' = None /\ reconnectTimer c' = None /\ readyStableReset c' = false /\ timeouts c' = ∅ /\
  pendingRequests c' = ∅ /\ subscriptions c' = ∅ /\ readyWaiters c' = [] /\
  settlements (log c') ≡ₚ seq 0 (promises c').
Proof.
  cbn zeta. set (c := run (es ++ [CallClose error])).
  assert (E : run (es ++ CallClose error :: es') = foldl step c es').
  { rewrite cons_middle, app_assoc. apply run_app. }
  rewrite E. assert (Hk : conn_ok c) by apply run_conn_ok.
  assert (Hc : intentionallyClosed c = true).
  { unfold c. rewrite run_app. exact (close_step error (run es) (run_conn_ok es)). }
  destruct (closed_run_traffic c es' Hk Hc) as [Ht Hk']. set (c' := foldl step c es') in *.
  destruct (conn_closed c' Hk' (tr_closed _ _ Ht Hc)) as (C1&C2&C3&C4&C5&C6&C7).
  split; [|do 7 (split; [assumption|])].
  - destruct (conn_closed c Hk Hc) as (W&_). destruct (tr_log _ _ Ht) as (later & El & Hl).
    exists later. split; [done|]. eapply Forall_impl; [exact Hl|]. intros e [He|?]; [|done].
    destruct e; try done. destruct He as [He _]. congruence.
  - pose proof (q_promises _ (k_calls _ Hk')) as Hq. rewrite C4 in Hq. simpl in Hq. by rewrite app_nil_r in Hq.
Qed.
End Traffic.

(** The theorems at the demonstration run. *)
Import Demo.

Lemma authentication_first_witness :
  let es := log (run demo_run) in
  let before := take 18 es in
  es = before ++ Send 1 (CallPayload "u2" "token" "files.unwatch"
                          (Some (JObj [("subscriptionId", JStr "su0")]))) :: drop 19 es /\
  head (sends 1 before) = Some (AuthPayload "token").
Proof.
  cbn zeta.
  assert (He : log (run demo_run) = take 18 (log (run demo_run)) ++
            Send 1 (CallPayload "u2" "token" "files.unwatch" (Some (JObj [("subscriptionId", JStr "su0")]))) ::
            drop 19 (log (run demo_run))) by (vm_compute; reflexivity).
  split; [exact He|]. exact (proj1 (proj2 (authentication_first _ _ _ _ _ He))).
Defined.

(** Closed before the handshake is over; the rest of the run follows. *)
Lemma closed_connection_inert_witness :
  let c := run (take 3 demo_run ++ [CallClose None]) in
  let c' := run (take 3 demo_run ++ CallClose None :: drop 3 demo_run) in
  (exists later, log c' = log c ++ later /\ Forall no_send later) /\ promises c' = 1%nat /\
  settlements (log c') ≡ₚ [0%nat].
Proof.
  destruct (closed_connection_inert (take 3 demo_run) None (drop 3 demo_run))
    as (Hl & _ & _ & _ & _ & _ & _ & _ & Hs).
  split; [exact Hl|]. split; [vm_compute; reflexivity|exact Hs].
Defined.
