(* ===== verification/E2eeChannel.v ===== *)
(** * The E2EE channel of a mobile socket
    (src/main/runtime/rpc/e2ee-channel.ts, mobile-e2ee-v2-desktop-inbound.ts,
    mobile-e2ee-v2-desktop-outbound.ts, mobile-e2ee-auth-validation.ts)

    It owns the handshake and stands between a socket and the RPC handler.
    [Link] is what the channel and its outbound queues share: the socket, the
    keys and the calls made so far ([out]): sends, callbacks and exceptions that
    leave the channel. The owner's [onError] destroys the channel; nothing in the
    channel runs after [onError] but returns, so the owner acts on [out] when the
    call is over. [onReady] may throw, so whether it returns is an argument.

    The lemmas say how a channel may change: what reaches the handler was
    decrypted by an authenticated channel. *)

From S2P Require Import Prelude JsMap Json Base64 E2eeFraming E2eeContract E2eeSession WsBackpressure.
From S2P Require Import SharedControlFrames.

Local Open Scope string_scope.
Local Open Scope list_scope.
Local Open Scope Z_scope.

(** ** State *)

Inductive ChannelState := AwaitingHello | AwaitingAuth | ChannelReady.
#[export] Instance ChannelState_eq_dec : EqDecision ChannelState.
Proof. solve_decision. Defined.

Definition HANDSHAKE_TIMEOUT_MS : Z := 10000.
Definition MAX_CONSECUTIVE_DECRYPT_FAILURES : nat := 5.
Definition MAX_BINARY_BUFFERED_AMOUNT : Z := 8 * 1024 * 1024.

(** A WebSocket message. *)
Inductive Raw := RawText (s : string) | RawBinary (bytes : list Z).

(** [E2EEAuthenticatedDevice]: its fields come from the registry's file. *)
Record Device := { deviceId : option json; deviceToken : option json; scope : option json }.

Inductive ChannelEffect :=
  | Sent (data : Raw)
  | OnError (closeCode : Z) (reason : string)
  | OnReady (device : Device)
  | MessageHandler (plaintext : string)
  | BinaryMessageHandler (bytes : list Z)
  | Thrown (message : string).

(** [DesktopMobileE2EEV2OutboundItem] *)
Inductive OutboundItem := TextItem (plaintext : string) | BinaryItem (plaintext : list Z).

Record Link := {
  ws_open : bool;  (** [ws.readyState === ws.OPEN] *)
  ws_buffered : option Z;
  sharedKey : option (list Z);
  v2Session : option DesktopSession;
  draws : nat;
  out : list ChannelEffect }.
#[export] Instance eta_Link : Eta Link :=
  fun x => Build_Link (ws_open x) (ws_buffered x) (sharedKey x) (v2Session x) (draws x) (out x).

(** The options that differ between sockets. *)
Record ChannelOptions := {
  transport : MobileE2EETransport; relayHostId : option string; requireV2 : bool }.

Record E2EEChannel := {
  options : ChannelOptions;
  state : ChannelState;
  link : Link;
  consecutiveFailures : nat;
  handshakeTimer : bool;  (** armed *)
  handlers : bool;  (** the owner sets both handlers *)
  textReplyQueue : option (WsQueue string);
  v2OutboundQueue : option (WsQueue OutboundItem);
  authToken : option json;  (** the channel's [deviceToken] *)
  authenticatedDevice : option Device }.
#[export] Instance eta_E2EEChannel : Eta E2EEChannel :=
  fun x => Build_E2EEChannel (options x) (state x) (link x) (consecutiveFailures x) (handshakeTimer x)
    (handlers x) (textReplyQueue x) (v2OutboundQueue x) (authToken x)
    (authenticatedDevice x).
Implicit Types (c : E2EEChannel) (k : Link).

(** The keys of the host, its random numbers, and what [ws.bufferedAmount] reads
    after a send. *)
Class ChannelEnv := {
  crypto : Crypto;
  serverSecretKey : list Z;
  randomBytes : nat -> nat -> list Z;
  buffered_after : Raw -> option Z -> option Z }.

Section Channel.
Context `{RuntimeEnv} `{ChannelEnv}.

(** ** The link *)

Definition call (e : ChannelEffect) k : Link := k <| out := out k ++ [e] |>.
Definition ws_send (data : Raw) k : Link :=
  let k := k <| ws_buffered := buffered_after data (ws_buffered k) |> in call (Sent data) k.

(** The random bytes of the next draw. *)
Definition random (n : nat) k : list Z := randomBytes (draws k) n.
Definition drawn k : Link := k <| draws := S (draws k) |>.

Definition on_link (f : Link -> Link) c : E2EEChannel := c <| link := f (link c) |>.
Definition onError (closeCode : Z) (reason : string) : E2EEChannel -> E2EEChannel :=
  on_link (call (OnError closeCode reason)).
Definition throws (m : string) : E2EEChannel -> E2EEChannel := on_link (call (Thrown m)).

(** ** Outbound queues *)

Definition overflow : Link -> Link := call (OnError 1013 "Outbound reply buffer overflow").

(** [createDesktopMobileE2EEV2OutboundQueue]: an item is sealed when it is sent.
    Sealing throws only at 2^64 frames. *)
Definition send_item (item : OutboundItem) k : Link :=
  match v2Session k with
  | None => k
  | Some s =>
      match item with
      | TextItem plaintext =>
          match desktop_sealText crypto s plaintext with
          | Ok (frame, s) => let k := k <| v2Session := Some s |> in ws_send (RawText frame) k
          | Throw m => call (Thrown m) k
          end
      | BinaryItem plaintext =>
          match desktop_sealBinary crypto s plaintext with
          | Ok (frame, s) => let k := k <| v2Session := Some s |> in ws_send (RawBinary frame) k
          | Throw m => call (Thrown m) k
          end
      end
  end.

Definition v2_queue_options : WsOptions OutboundItem Link :=
  {| opt_send := send_item;
     opt_byteLengthOf := fun item =>
       match item with
       | TextItem plaintext => Z.of_nat (length (utf8 plaintext)) + 82
       | BinaryItem plaintext => Z.of_nat (length plaintext) + 82
       end;
     opt_getBufferedAmount := ws_buffered;
     opt_isWritable := ws_open;
     opt_onOverflow := overflow;
     opt_softCapBytes := None; opt_maxQueuedBytes := None; opt_drainPollMs := None |}.

Definition text_queue_options : WsOptions string Link :=
  {| opt_send := fun frame => ws_send (RawText frame);
     opt_byteLengthOf := fun frame => Z.of_nat (String.length frame);
     opt_getBufferedAmount := ws_buffered;
     opt_isWritable := fun k => bool_decide (is_Some (sharedKey k)) && ws_open k;
     opt_onOverflow := overflow;
     opt_softCapBytes := None; opt_maxQueuedBytes := None; opt_drainPollMs := None |}.

Definition enqueueV2 (item : OutboundItem) c : E2EEChannel :=
  match v2Session (link c) with
  | None => c
  | Some _ =>
      if negb (ws_open (link c)) then c
      else
        let q := default new_ws_queue (v2OutboundQueue c) in
        let '(q, k) := enqueue v2_queue_options q item (link c) in
        c <| v2OutboundQueue := Some q |> <| link := k |>
  end.

(** [this.ensureTextReplyQueue().enqueue(frame)] *)
Definition enqueueText (frame : string) c : E2EEChannel :=
  let q := default new_ws_queue (textReplyQueue c) in
  let '(q, k) := enqueue text_queue_options q frame (link c) in
  c <| textReplyQueue := Some q |> <| link := k |>.

(** A poll timer of a queue. *)
Definition v2_queue_timer (id : nat) c : E2EEChannel :=
  match v2OutboundQueue c with
  | Some q =>
      if bool_decide (id ∈ map fst (armed q)) then
        let '(q, k) := fire v2_queue_options id q (link c) in
        c <| v2OutboundQueue := Some q |> <| link := k |>
      else c
  | None => c
  end.
Definition text_queue_timer (id : nat) c : E2EEChannel :=
  match textReplyQueue c with
  | Some q =>
      if bool_decide (id ∈ map fst (armed q)) then
        let '(q, k) := fire text_queue_options id q (link c) in
        c <| textReplyQueue := Some q |> <| link := k |>
      else c
  | None => c
  end.

(** ** Replies: the closures a message handler is given *)

Definition encryptedReply (response : string) c : E2EEChannel :=
  match sharedKey (link c) with
  | Some key =>
      if negb (ws_open (link c)) then c
      else enqueueText (encrypt (random 24 (link c)) response key) (on_link drawn c)
  | None => c
  end.

Definition encryptedBinaryReply (response : list Z) c : E2EEChannel * bool :=
  match sharedKey (link c) with
  | Some key =>
      if negb (ws_open (link c)) then (c, false)
      else if match ws_buffered (link c) with Some n => MAX_BINARY_BUFFERED_AMOUNT <? n | None => false end
      then (c, false)
      else (on_link (fun k => ws_send (RawBinary (encryptBytes (random 24 k) response key)) (drawn k)) c, true)
  | None => (c, false)
  end.

Definition v2Reply (item : OutboundItem) : E2EEChannel -> E2EEChannel := enqueueV2 item.

Definition sendEncryptedControl (message : json) c : E2EEChannel :=
  match v2Session (link c) with
  | Some _ => enqueueV2 (TextItem (JSON_stringify message)) c
  | None =>
      match sharedKey (link c) with
      | Some key =>
          if ws_open (link c)
          then on_link (fun k => ws_send (RawText (encrypt (random 24 k) (JSON_stringify message) key)) (drawn k)) c
          else c
      | None => c
      end
  end.

(** ** The handshake *)

Definition new_channel (o : ChannelOptions) (k : Link) : E2EEChannel :=
  {| options := o; state := AwaitingHello; link := k; consecutiveFailures := 0; handshakeTimer := true;
     handlers := true; textReplyQueue := None; v2OutboundQueue := None; authToken := None;
     authenticatedDevice := None |}.

Definition handshake_timeout c : E2EEChannel :=
  if handshakeTimer c
  then onError 4002 "E2EE handshake timeout" (c <| handshakeTimer := false |>) else c.

Definition trackDecryptFailure c : E2EEChannel :=
  let c := c <| consecutiveFailures := S (consecutiveFailures c) |> in
  if (MAX_CONSECUTIVE_DECRYPT_FAILURES <=? consecutiveFailures c)%nat
  then onError 4003 "Too many decryption failures" c else c.

Definition type_is (t : string) (v : json) : bool := strict_eq (prop "type" v) (Some (JStr t)).
Definition e2ee_ready : json := JObj [("type", JStr "e2ee_ready")].
Definition null_type : string := "Cannot read properties of null (reading 'type')".

(** The legacy hello: a public key. *)
Definition handleHelloV1 (hello : json) c : E2EEChannel :=
  if requireV2 (options c) then onError 4001 "E2EE v2 required" c
  else
    match type_is "e2ee_hello" hello, as_string (prop "publicKeyB64" hello) with
    | true, Some publicKeyB64 =>
        let clientPublicKey := buffer_from_base64 publicKeyB64 in
        if negb (length clientPublicKey =? 32)%nat then onError 4001 "Invalid public key" c
        else
          let key := deriveSharedKey crypto serverSecretKey clientPublicKey in
          let c := on_link (fun k => k <| sharedKey := Some key |>) (c <| state := AwaitingAuth |>) in
          if ws_open (link c) then on_link (ws_send (RawText (JSON_stringify e2ee_ready))) c else c
    | _, _ => onError 4001 "Invalid e2ee_hello" c
    end.

Definition handleHelloV2 (hello : json) c : E2EEChannel :=
  let nonce := random 32 (link c) in
  let c := on_link drawn c in
  match desktop_create crypto hello serverSecretKey (transport (options c)) (relayHostId (options c)) nonce with
  | Throw m => throws m c
  | Ok None => onError 4001 "Invalid e2ee_hello v2" c
  | Ok (Some session) =>
      let c := on_link (fun k => k <| v2Session := Some session |>) (c <| state := AwaitingAuth |>) in
      if ws_open (link c) then on_link (ws_send (RawText (JSON_stringify (d_ready session)))) c else c
  end.

Definition handleHello (raw : string) c : E2EEChannel :=
  match JSON_parse raw with
  | None => onError 4001 "Invalid handshake message" c
  | Some JNull => throws null_type c
  | Some hello =>
      if type_is "e2ee_hello" hello && strict_eq (prop "v" hello) (Some (JNum (NInt 2)))
      then handleHelloV2 hello c else handleHelloV1 hello c
  end.

(** [Object.keys(auth).sort().join(',')]; text sorts by bytes, which for the
    ASCII keys compared with is the order of code units. *)
Fixpoint insert_key (k : string) (l : list string) : list string :=
  match l with
  | [] => [k]
  | k' :: l => if String.leb k k' then k :: k' :: l else k' :: insert_key k l
  end.
Definition sorted_keys (v : json) : string :=
  join "," (foldr insert_key [] ((own_properties v).*1)).

Definition isValidMobileE2EEAuthVersion (auth : json) (session : option DesktopSession) : bool :=
  match session with
  | None =>
      bool_decide (prop "v" auth = None) && bool_decide (prop "transcriptHashB64" auth = None)
  | Some s =>
      String.eqb (sorted_keys auth) "deviceToken,transcriptHashB64,type,v" &&
      strict_eq (prop "v" auth) (Some (JNum (NInt 2))) &&
      strict_eq (prop "transcriptHashB64" auth) (Some (JStr (d_transcriptHashB64 s)))
  end.

Definition auth_error (code : string) : json :=
  JObj [("type", JStr "e2ee_error"); ("error", JObj [("code", JStr code)])].
Definition e2ee_authenticated (session : option DesktopSession) : json :=
  match session with
  | Some s => JObj [("type", JStr "e2ee_authenticated"); ("v", JNum (NInt 2));
                    ("transcriptHashB64", JStr (d_transcriptHashB64 s))]
  | None => JObj [("type", JStr "e2ee_authenticated")]
  end.

Definition bad_auth c : E2EEChannel :=
  onError 4001 "Invalid e2ee_auth" (sendEncryptedControl (auth_error "bad_auth") c).

(** [resolveAuthenticatedDevice], and what [onReady] throws for a device, if it does. *)
Context (resolve : option json -> option Device) (ready_throws : Device -> option string).

Definition auth_ok (auth : json) (session : option DesktopSession) : bool :=
  type_is "e2ee_auth" auth && truthy (prop "deviceToken" auth) &&
  isValidMobileE2EEAuthVersion auth session.

Definition handleAuth (plaintext : string) c : E2EEChannel :=
  match JSON_parse plaintext with
  | None => bad_auth c
  | Some JNull => throws null_type c
  | Some auth =>
      if negb (auth_ok auth (v2Session (link c))) then bad_auth c
      else
        match resolve (prop "deviceToken" auth) with
        | Some device =>
            if negb (strict_eq (deviceToken device) (prop "deviceToken" auth))
            then onError 4001 "Unauthorized" (sendEncryptedControl (auth_error "unauthorized") c)
            else
              let c := on_link (call (OnReady device))
                         (c <| authToken := prop "deviceToken" auth |>
                            <| authenticatedDevice := Some device |> <| state := ChannelReady |>
                            <| handshakeTimer := false |>) in
              match ready_throws device with
              | Some m => throws m c
              | None => sendEncryptedControl (e2ee_authenticated (v2Session (link c))) c
              end
        | None => onError 4001 "Unauthorized" (sendEncryptedControl (auth_error "unauthorized") c)
        end
  end.

(** ** Messages *)

Definition deliver (e : ChannelEffect) c : E2EEChannel := if handlers c then on_link (call e) c else c.

(** Opening a message advances the session's counter when it succeeds. *)
Definition handleDesktopMobileE2EEV2Inbound (session : DesktopSession) (raw : Raw) (awaitingAuth : bool)
    (onDecryptFailure onDecryptSuccess : E2EEChannel -> E2EEChannel)
    (onAuth : string -> E2EEChannel -> E2EEChannel) (onBinary : list Z -> E2EEChannel -> E2EEChannel)
    (onText : string -> E2EEChannel -> E2EEChannel) (onProtocolError : E2EEChannel -> E2EEChannel) c : E2EEChannel :=
  match raw with
  | RawText s =>
      match desktop_openText crypto session s with
      | Throw m => throws m c
      | Ok (None, _) => onDecryptFailure c
      | Ok (Some plaintext, session) =>
          let c := onDecryptSuccess (on_link (fun k => k <| v2Session := Some session |>) c) in
          if awaitingAuth then onAuth plaintext c else onText plaintext c
      end
  | RawBinary bytes =>
      match desktop_openBinary crypto session bytes with
      | Throw m => throws m c
      | Ok (None, _) => onDecryptFailure c
      | Ok (Some plaintext, session) =>
          let c := onDecryptSuccess (on_link (fun k => k <| v2Session := Some session |>) c) in
          if awaitingAuth then onProtocolError c else onBinary plaintext c
      end
  end.

Definition handleV2RawMessage (session : DesktopSession) (raw : Raw) c : E2EEChannel :=
  handleDesktopMobileE2EEV2Inbound session raw (bool_decide (state c = AwaitingAuth))
    trackDecryptFailure (fun c => c <| consecutiveFailures := 0%nat |>)
    handleAuth (fun plaintext => deliver (BinaryMessageHandler plaintext))
    (fun plaintext => deliver (MessageHandler plaintext))
    (onError 4001 "Invalid binary message before authentication") c.

Definition handleV1RawMessage (key : list Z) (raw : Raw) c : E2EEChannel :=
  match raw with
  | RawBinary bytes =>
      match decryptBytes bytes key with
      | None => trackDecryptFailure c
      | Some plaintext =>
          let c := c <| consecutiveFailures := 0%nat |> in
          if negb (bool_decide (state c = ChannelReady))
          then onError 4001 "Invalid binary message before authentication" c
          else deliver (BinaryMessageHandler plaintext) c
      end
  | RawText s =>
      match decrypt s key with
      | None => trackDecryptFailure c
      | Some plaintext =>
          let c := c <| consecutiveFailures := 0%nat |> in
          if bool_decide (state c = AwaitingAuth) then handleAuth plaintext c
          else deliver (MessageHandler plaintext) c
      end
  end.

Definition handleRawMessage (raw : Raw) c : E2EEChannel :=
  match state c, raw with
  | AwaitingHello, RawBinary _ => onError 4001 "Invalid handshake message" c
  | AwaitingHello, RawText s => handleHello s c
  | _, _ =>
      match v2Session (link c) with
      | Some session => handleV2RawMessage session raw c
      | None =>
          match sharedKey (link c) with
          | Some key => handleV1RawMessage key raw c
          | None => c
          end
      end
  end.

(** The queues are disposed of before they are dropped, with their timers. *)
Definition destroy c : E2EEChannel :=
  let k := (link c) <| sharedKey := None |> <| v2Session := None |> in
  c <| handshakeTimer := false |> <| authenticatedDevice := None |> <| handlers := false |>
    <| textReplyQueue := None |> <| v2OutboundQueue := None |>
    <| link := k |>.
End Channel.
