(* ===== verification/E2eeChannelFacts.v ===== *)
(** * The E2EE channel: what a call may do

    [quiet_step] is the preorder of the calls that authenticate nobody and hand
    nothing to the handlers; queues and replies are quiet. [outcome] is what a
    message does: it is quiet, or it authenticates the device whose token it
    presents, or it is handed over by a channel that is ready. *)

From S2P Require Import Prelude JsMap Json Base64 E2eeFraming E2eeContract E2eeSession WsBackpressure.
From S2P Require Import SharedControlFrames E2eeChannel.

Local Open Scope list_scope.
Local Open Scope Z_scope.

(** ** A queue does to its environment what its callbacks do *)

Section Queue.
Context {F E : Type} (o : WsOptions F E) (R : E -> E -> Prop) `{!PreOrder R}.
Hypothesis send_R : forall f e, R e (opt_send o f e).
Hypothesis overflow_R : forall e, R e (opt_onOverflow o e).

Lemma drain_loop_R rest q e : R e (drain_loop o rest q e).2.
Proof.
  revert q e. induction rest as [|[f b] rest IH]; intros q e; simpl; [done|].
  destruct (_ <=? _); [|done]. etrans; [apply (send_R f)|apply IH].
Qed.

Lemma drain_R q e : R e (drain o q e).2.
Proof.
  unfold drain. destruct (_ || _); [done|]. destruct (negb _); [done|].
  pose proof (drain_loop_R (drop (queueHead q) (queue q)) q e) as Hl.
  destruct (drain_loop _ _ _ _) as [q' e']. by destruct (_ <? _)%nat.
Qed.

Lemma enqueue_R q f e : R e (enqueue o q f e).2.
Proof.
  unfold enqueue. destruct (_ || _); [done|]. destruct (_ && _); [apply send_R|].
  destruct (_ <? _); [apply overflow_R|]. by destruct (timer _).
Qed.

Lemma fire_R id q e : R e (fire o id q e).2.
Proof. apply drain_R. Qed.
End Queue.

Section Channel.
Context `{RuntimeEnv} `{ChannelEnv}.
Implicit Types (c : E2EEChannel) (k : Link).

(** ** Quiet steps *)

Definition quiet (x : ChannelEffect) : Prop :=
  match x with Sent _ | OnError _ _ | Thrown _ => True | _ => False end.

(** Two states of one session: only the counters differ. *)
Definition same_session (s s' : DesktopSession) : Prop :=
  s' = d_with_counters s (d_inboundCounter s') (d_outboundCounter s').

Lemma same_session_refl s : same_session s s.
Proof. by destruct s. Qed.
Lemma same_session_trans s1 s2 s3 : same_session s1 s2 -> same_session s2 s3 -> same_session s1 s3.
Proof. unfold same_session. intros -> ->. done. Qed.

Record link_step k k' : Prop := {
  ls_key : sharedKey k' = sharedKey k;
  ls_session : option_Forall2 same_session (v2Session k) (v2Session k');
  ls_out : exists es, out k' = out k ++ es /\ Forall quiet es }.

#[export] Instance link_step_preorder : PreOrder link_step.
Proof.
  split.
  - intros k. split; [done| |exists []; by rewrite app_nil_r].
    destruct (v2Session k); constructor. apply same_session_refl.
  - intros k1 k2 k3 [A1 A2 (es1 & A3 & A4)] [B1 B2 (es2 & B3 & B4)]. split; [congruence| |].
    + destruct A2 as [s1 s2 Hs|]; inversion B2; subst; constructor. by eapply same_session_trans.
    + exists (es1 ++ es2). rewrite B3, A3, app_assoc. split; [done|]. by apply Forall_app.
Qed.

Lemma call_link x k : quiet x -> link_step k (call x k).
Proof.
  intros Hx. split; [done| |exists [x]; split; [done|by constructor]].
  simpl. destruct (v2Session k); constructor. apply same_session_refl.
Qed.

Lemma overflow_link k : link_step k (overflow k).
Proof. by apply call_link. Qed.

(** A write to the socket's readings or the random stream. *)
Lemma link_same k k' :
  sharedKey k' = sharedKey k -> v2Session k' = v2Session k -> out k' = out k -> link_step k k'.
Proof.
  intros H1 H2 H3. split; [done| |exists []; by rewrite app_nil_r].
  rewrite H2. destruct (v2Session k); constructor. apply same_session_refl.
Qed.

Lemma ws_send_link data k : link_step k (ws_send data k).
Proof. unfold ws_send. etrans; [|by apply call_link]. by apply link_same. Qed.

Lemma drawn_link k : link_step k (drawn k).
Proof. by apply link_same. Qed.

Lemma desktop_seal_same s p kind frame s' :
  desktop_seal crypto s p kind = Ok (frame, s') -> same_session s s'.
Proof.
  unfold desktop_seal, mbind, result_bind. destruct (sealMobileE2EEV2Frame _ _ _ _); [|done].
  intros [= <- <-]. done.
Qed.

Lemma sealText_same s p frame s' : desktop_sealText crypto s p = Ok (frame, s') -> same_session s s'.
Proof.
  unfold desktop_sealText, mbind, result_bind.
  destruct (desktop_seal crypto s (utf8 p) text) as [[f s1]|] eqn:Hs; [|done].
  intros [= <- <-]. by eapply desktop_seal_same.
Qed.

Lemma session_link s s' k :
  v2Session k = Some s -> same_session s s' -> link_step k (k <| v2Session := Some s' |>).
Proof.
  intros Hk Hs. split; [done| |exists []; by rewrite app_nil_r]. simpl. rewrite Hk. by constructor.
Qed.

Lemma send_item_link item k : link_step k (send_item item k).
Proof.
  unfold send_item. destruct (v2Session k) as [s|] eqn:Hs; [|done]. destruct item as [p|p].
  - destruct (desktop_sealText crypto s p) as [[frame s']|m] eqn:Hf; [|by apply call_link].
    etrans; [apply (session_link s s' k Hs); by eapply sealText_same|apply ws_send_link].
  - destruct (desktop_sealBinary crypto s p) as [[frame s']|m] eqn:Hf; [|by apply call_link].
    etrans; [apply (session_link s s' k Hs); by eapply desktop_seal_same|apply ws_send_link].
Qed.

Definition is_error (x : ChannelEffect) : Prop := match x with OnError _ _ => True | _ => False end.
(** The owner was told to close; it will destroy the channel. *)
Definition failed k : Prop := Exists is_error (out k).

Lemma failed_mono k k' : link_step k k' -> failed k -> failed k'.
Proof. intros [_ _ (es & He & _)] Hf. unfold failed. rewrite He. apply Exists_app. by left. Qed.

(** A channel in use: few failures, and the deadline runs until it is ready. *)
Definition live c : Prop :=
  (consecutiveFailures c < MAX_CONSECUTIVE_DECRYPT_FAILURES)%nat /\
  handshakeTimer c = negb (bool_decide (state c = ChannelReady)) \/ failed (link c).

Record quiet_step c c' : Prop := {
  qs_options : options c' = options c;
  qs_handlers : handlers c' = handlers c;
  qs_state : state c' = state c;
  qs_device : authenticatedDevice c' = authenticatedDevice c;
  qs_live : live c -> live c';
  qs_link : link_step (link c) (link c') }.

#[export] Instance quiet_step_preorder : PreOrder quiet_step.
Proof.
  split; [intros c; by split|].
  intros c1 c2 c3 [] []. split; [congruence..|auto|by etrans].
Qed.

(** A step that leaves the failures and the timer alone. *)
Lemma quiet_link c c' :
  options c' = options c -> handlers c' = handlers c -> state c' = state c ->
  authenticatedDevice c' = authenticatedDevice c -> handshakeTimer c' = handshakeTimer c ->
  (consecutiveFailures c' = consecutiveFailures c \/ consecutiveFailures c' = 0%nat) ->
  link_step (link c) (link c') -> quiet_step c c'.
Proof.
  intros H1 H2 H3 H4 H5 H6 Hl. split; try done. intros [[Hf Ht]|Hf]; [left|right; by eapply failed_mono].
  rewrite H3, H5. split; [|done]. unfold MAX_CONSECUTIVE_DECRYPT_FAILURES in *. destruct H6; lia.
Qed.

Lemma on_link_quiet f c : link_step (link c) (f (link c)) -> quiet_step c (on_link f c).
Proof. intros Hl. apply quiet_link; auto. Qed.

Lemma onError_quiet closeCode reason c : quiet_step c (onError closeCode reason c).
Proof. by apply on_link_quiet, call_link. Qed.
Lemma throws_quiet m c : quiet_step c (throws m c).
Proof. by apply on_link_quiet, call_link. Qed.

Lemma enqueueV2_quiet item c : quiet_step c (enqueueV2 item c).
Proof.
  unfold enqueueV2. destruct (v2Session (link c)); [|done]. destruct (negb _); [done|].
  pose proof (enqueue_R v2_queue_options link_step send_item_link overflow_link
    (default new_ws_queue (v2OutboundQueue c)) item (link c)) as Hl.
  destruct (enqueue _ _ _ _) as [q k]. apply quiet_link; auto.
Qed.

Lemma enqueueText_quiet frame c : quiet_step c (enqueueText frame c).
Proof.
  unfold enqueueText.
  pose proof (enqueue_R text_queue_options link_step (fun f => ws_send_link (RawText f))
    overflow_link (default new_ws_queue (textReplyQueue c)) frame (link c)) as Hl.
  destruct (enqueue _ _ _ _) as [q k]. apply quiet_link; auto.
Qed.

Lemma v2_queue_timer_quiet id c : quiet_step c (v2_queue_timer id c).
Proof.
  unfold v2_queue_timer. destruct (v2OutboundQueue c) as [q|]; [|done]. destruct (bool_decide _); [|done].
  pose proof (fire_R v2_queue_options link_step send_item_link id q (link c)) as Hl.
  destruct (fire _ _ _ _) as [q' k]. apply quiet_link; auto.
Qed.

Lemma text_queue_timer_quiet id c : quiet_step c (text_queue_timer id c).
Proof.
  unfold text_queue_timer. destruct (textReplyQueue c) as [q|]; [|done]. destruct (bool_decide _); [|done].
  pose proof (fire_R text_queue_options link_step (fun f => ws_send_link (RawText f)) id q (link c)) as Hl.
  destruct (fire _ _ _ _) as [q' k]. apply quiet_link; auto.
Qed.

Lemma encryptedReply_quiet s c : quiet_step c (encryptedReply s c).
Proof.
  unfold encryptedReply. destruct (sharedKey (link c)); [|done]. destruct (negb _); [done|].
  etrans; [|apply enqueueText_quiet]. apply on_link_quiet, drawn_link.
Qed.

Lemma encryptedBinaryReply_quiet bytes c : quiet_step c (encryptedBinaryReply bytes c).1.
Proof.
  unfold encryptedBinaryReply. destruct (sharedKey (link c)); [|done]. destruct (negb _); [done|].
  destruct (ws_buffered (link c)) as [n|]; [destruct (_ <? _); [done|]|];
    apply on_link_quiet; (etrans; [apply drawn_link|apply ws_send_link]).
Qed.

Lemma sendEncryptedControl_quiet m c : quiet_step c (sendEncryptedControl m c).
Proof.
  unfold sendEncryptedControl. destruct (v2Session (link c)); [apply enqueueV2_quiet|].
  destruct (sharedKey (link c)); [|done]. destruct (ws_open (link c)); [|done].
  apply on_link_quiet. etrans; [apply drawn_link|apply ws_send_link].
Qed.

Lemma failed_onError closeCode reason c : failed (link (onError closeCode reason c)).
Proof. unfold failed. simpl. apply Exists_app. right. by constructor. Qed.

(** Closing, whatever was counted before. *)
Lemma failing_quiet closeCode reason c c' :
  options c' = options c -> handlers c' = handlers c -> state c' = state c ->
  authenticatedDevice c' = authenticatedDevice c -> link c' = link c ->
  quiet_step c (onError closeCode reason c').
Proof.
  intros H1 H2 H3 H4 H5. split; try done.
  - intros _. right. apply failed_onError.
  - simpl. rewrite H5. by apply call_link.
Qed.

Lemma handshake_timeout_quiet c : quiet_step c (handshake_timeout c).
Proof. unfold handshake_timeout. destruct (handshakeTimer c); [|done]. by apply failing_quiet. Qed.

Lemma trackDecryptFailure_quiet c : quiet_step c (trackDecryptFailure c).
Proof.
  unfold trackDecryptFailure. set (c1 := c <| consecutiveFailures := _ |>).
  change (consecutiveFailures c1) with (S (consecutiveFailures c)).
  destruct (Nat.leb_spec MAX_CONSECUTIVE_DECRYPT_FAILURES (S (consecutiveFailures c))) as [|Hlt].
  - by apply failing_quiet.
  - split; try done. intros [[Hf Ht]|Hf]; [left; by split|by right].
Qed.

(** ** What a channel knows about its keys *)

(** The session answers a hello of the expected context. *)
Definition session_for (o : ChannelOptions) (s : DesktopSession) : Prop :=
  exists hello nonce s0,
    desktop_create crypto hello serverSecretKey (transport o) (relayHostId o) nonce = Ok (Some s0) /\
    same_session s0 s.

Record chan_ok c : Prop := {
  ch_hello : state c = AwaitingHello -> sharedKey (link c) = None /\ v2Session (link c) = None;
  ch_device : is_Some (authenticatedDevice c) <-> state c = ChannelReady;
  ch_v2 : requireV2 (options c) = true -> sharedKey (link c) = None;
  ch_session : forall s, v2Session (link c) = Some s -> session_for (options c) s }.

Lemma option_Forall2_none {A} (R : A -> A -> Prop) o o' : option_Forall2 R o o' -> o = None -> o' = None.
Proof. by intros []. Qed.

Lemma session_for_same o s s' : session_for o s -> same_session s s' -> session_for o s'.
Proof. intros (hello & nonce & s0 & Hc & Hs) Hs'. exists hello, nonce, s0. split; [done|]. by eapply same_session_trans. Qed.

Lemma quiet_chan_ok c c' : quiet_step c c' -> chan_ok c -> chan_ok c'.
Proof.
  intros [Q1 Q2 Q3 Q4 Q5 [L1 L2 _]] [C1 C2 C3 C4]. split; rewrite ?Q1, ?Q3, ?Q4, ?L1; auto.
  - intros Ha. destruct (C1 Ha) as [-> Hn]. split; [done|]. by eapply option_Forall2_none.
  - intros s' Hs'. rewrite Hs' in L2. inversion L2 as [s ? Hs|]; subst. eapply session_for_same; [|done].
    apply C4. congruence.
Qed.

(** [raw] decrypts to [plaintext] on this channel. *)
Definition opens c (raw : Raw) (plaintext : string) : Prop :=
  match raw with
  | RawText s =>
      (exists session session', v2Session (link c) = Some session /\
         desktop_openText crypto session s = Ok (Some plaintext, session')) \/
      (v2Session (link c) = None /\ exists key, sharedKey (link c) = Some key /\ decrypt s key = Some plaintext)
  | RawBinary _ => False
  end.

Section Message.
Context (resolve : option json -> option Device) (ready_throws : Device -> option string).

(** [raw] presents the token of [d] while the channel waits for one. *)
Definition presents c (raw : Raw) (d : Device) : Prop :=
  exists plaintext auth,
    state c = AwaitingAuth /\ opens c raw plaintext /\ JSON_parse plaintext = Some auth /\
    type_is "e2ee_auth" auth = true /\ truthy (prop "deviceToken" auth) = true /\
    resolve (prop "deviceToken" auth) = Some d /\
    strict_eq (deviceToken d) (prop "deviceToken" auth) = true.

Definition handled_over (x : ChannelEffect) : Prop :=
  match x with MessageHandler _ | BinaryMessageHandler _ => True | _ => False end.

(** What a step does with the calls it makes. *)
Inductive outcome (shown : Device -> Prop) c c' : Prop :=
  | outcome_quiet es :
      out (link c') = out (link c) ++ es -> Forall quiet es ->
      (state c' = ChannelReady <-> state c = ChannelReady) ->
      authenticatedDevice c' = authenticatedDevice c -> outcome shown c c'
  | outcome_ready d es :
      shown d -> state c ≠ ChannelReady -> state c' = ChannelReady -> authenticatedDevice c' = Some d ->
      out (link c') = out (link c) ++ OnReady d :: es -> Forall quiet es -> outcome shown c c'
  | outcome_deliver x es :
      state c = ChannelReady -> state c' = ChannelReady -> authenticatedDevice c' = authenticatedDevice c ->
      out (link c') = out (link c) ++ x :: es -> Forall quiet es -> handled_over x -> outcome shown c c'.

Record message_step (shown : Device -> Prop) c c' : Prop := {
  ms_options : options c' = options c;
  ms_handlers : handlers c' = handlers c;
  ms_ok : chan_ok c -> chan_ok c';
  ms_live : live c -> live c';
  ms_outcome : outcome shown c c' }.

Lemma quiet_message shown c c' : quiet_step c c' -> message_step shown c c'.
Proof.
  intros Hq. pose proof Hq as [Q1 Q2 Q3 Q4 Q5 [L1 L2 (es & L3 & L4)]].
  split; [done|done|by apply quiet_chan_ok|done|]. eapply outcome_quiet; [done|done|by rewrite Q3|done].
Qed.

(** A quiet step first. *)
Lemma quiet_then shown c c1 c' :
  quiet_step c c1 -> out (link c1) = out (link c) -> message_step shown c1 c' -> message_step shown c c'.
Proof.
  intros Hq Ho [M1 M2 M3 M4 M5]. pose proof Hq as [Q1 Q2 Q3 Q4 Q5 Q6].
  split; [congruence|congruence| |auto|].
  - intros Hc. by apply M3, (quiet_chan_ok c c1).
  - destruct M5 as [es A B C D|d es S0 A B C D E|x es A B C D E G]; rewrite ?Q3, ?Q4, ?Ho in *.
    + by eapply outcome_quiet.
    + by eapply outcome_ready.
    + by eapply outcome_deliver.
Qed.

Lemma then_quiet shown c c1 c' : message_step shown c c1 -> quiet_step c1 c' -> message_step shown c c'.
Proof.
  intros [M1 M2 M3 M4 M5] Hq. pose proof Hq as [Q1 Q2 Q3 Q4 Q5 [_ _ (es' & Q6 & Q7)]].
  split; [congruence|congruence|intros Hc; by apply (quiet_chan_ok c1), M3|auto|].
  destruct M5 as [es A B C D|d es S0 A B C D E|x es A B C D E G].
  - apply (outcome_quiet _ _ _ (es ++ es')); [by rewrite Q6, A, app_assoc|by apply Forall_app|by rewrite Q3|congruence].
  - apply (outcome_ready _ _ _ d (es ++ es')); [done|done|congruence|congruence| |by apply Forall_app].
    by rewrite Q6, D, <-app_assoc.
  - apply (outcome_deliver _ _ _ x (es ++ es')); [done|congruence|congruence| |by apply Forall_app|done].
    by rewrite Q6, D, <-app_assoc.
Qed.

(** The handshake's first reply: a key or a session, and a state that waits for the token. *)
Lemma awaiting_message shown c (f : Link -> Link) :
  state c = AwaitingHello -> out (f (link c)) = out (link c) ->
  (chan_ok c -> (requireV2 (options c) = true -> sharedKey (f (link c)) = None) /\
                forall s, v2Session (f (link c)) = Some s -> session_for (options c) s) ->
  message_step shown c (on_link f (c <| state := AwaitingAuth |>)).
Proof.
  intros Hst Ho Hc. split; try done.
  - intros Hok. destruct (Hc Hok) as [H1 H2]. destruct Hok as [C1 C2 C3 C4]. split; simpl; try done.
    rewrite C2, Hst. done.
  - intros [[Hf Ht]|Hf]; [left|right].
    + split; [done|]. simpl. rewrite Ht, Hst. done.
    + unfold failed. simpl. by rewrite Ho.
  - apply (outcome_quiet _ _ _ []); simpl; [by rewrite app_nil_r|done|by rewrite Hst|done].
Qed.

Lemma handleHello_message shown raw c : state c = AwaitingHello -> message_step shown c (handleHello raw c).
Proof.
  intros Hst. unfold handleHello.
  assert (Herr : forall n m, message_step shown c (onError n m c)) by (intros; apply quiet_message, onError_quiet).
  destruct (JSON_parse raw) as [hello|]; [|done].
  assert (Hv1 : message_step shown c (handleHelloV1 hello c)).
  { unfold handleHelloV1. destruct (requireV2 (options c)) eqn:Hv2; [done|].
    destruct (type_is "e2ee_hello" hello); [|done].
    destruct (as_string (prop "publicKeyB64" hello)) as [b64|]; [|done].
    destruct (negb _); [done|]. set (key := deriveSharedKey _ _ _). set (c1 := on_link _ _).
    assert (Hm : message_step shown c c1).
    { apply awaiting_message; [done|done|]. intros Hok. simpl. split; [by rewrite Hv2|]. apply Hok. }
    destruct (ws_open (link c1)); [|done]. eapply then_quiet; [exact Hm|]. apply on_link_quiet, ws_send_link. }
  assert (Hv2 : message_step shown c (handleHelloV2 hello c)).
  { unfold handleHelloV2. set (c1 := on_link drawn c).
    assert (Hd : quiet_step c c1) by apply on_link_quiet, drawn_link.
    destruct (desktop_create _ _ _ _ _ _) as [[session|]|m] eqn:Hc.
    - set (c2 := on_link (fun k => k <| v2Session := Some session |>) _).
      assert (Hm : message_step shown c c2).
      { apply (quiet_then shown c c1); [done|done|]. apply awaiting_message; [done|done|].
        intros Hok. split; [apply Hok|]. simpl. intros s [= <-]. exists hello, (random 32 (link c)), session.
        split; [done|apply same_session_refl]. }
      destruct (ws_open (link c2)); [|done]. eapply then_quiet; [exact Hm|]. apply on_link_quiet, ws_send_link.
    - apply quiet_message. etrans; [done|apply onError_quiet].
    - apply quiet_message. etrans; [done|apply throws_quiet]. }
  destruct hello; try (destruct (_ && _); done). apply quiet_message, throws_quiet.
Qed.

(** Waiting for the token: a step on an opened plaintext. *)
Lemma handleAuth_message (shown : Device -> Prop) plaintext c :
  state c = AwaitingAuth ->
  (forall auth d, JSON_parse plaintext = Some auth -> type_is "e2ee_auth" auth = true ->
     truthy (prop "deviceToken" auth) = true -> resolve (prop "deviceToken" auth) = Some d ->
     strict_eq (deviceToken d) (prop "deviceToken" auth) = true -> shown d) ->
  message_step shown c (handleAuth resolve ready_throws plaintext c).
Proof.
  intros Hst Hshown. unfold handleAuth.
  assert (Hbad : forall code n m, quiet_step c (onError n m (sendEncryptedControl (auth_error code) c))).
  { intros. etrans; [apply sendEncryptedControl_quiet|apply onError_quiet]. }
  destruct (JSON_parse plaintext) as [auth|] eqn:Hp; [|by apply quiet_message, Hbad].
  set (body := if negb (auth_ok auth _) then _ else _).
  assert (Hbody : message_step shown c body).
  { unfold body. destruct (auth_ok auth (v2Session (link c))) eqn:Hok; [simpl|by apply quiet_message, Hbad].
    unfold auth_ok in Hok. apply andb_true_iff in Hok as [[Hty Htr]%andb_true_iff _].
    destruct (resolve (prop "deviceToken" auth)) as [d|] eqn:Hr; [|by apply quiet_message, Hbad].
    destruct (strict_eq (deviceToken d) (prop "deviceToken" auth)) eqn:He; [simpl|by apply quiet_message, Hbad].
    set (c1 := on_link (call (OnReady d)) _).
    assert (Hm : message_step shown c c1).
    { split; try done.
      - intros [C1 C2 C3 C4]. split; simpl; try done.
      - intros [[Hf Ht]|Hf]; [left; by split|right]. unfold failed in *. simpl. apply Exists_app. by left.
      - apply (outcome_ready _ _ _ d []); [by eapply Hshown|by rewrite Hst|done|done|done|constructor]. }
    destruct (ready_throws d); eapply then_quiet; [exact Hm|apply throws_quiet|exact Hm|apply sendEncryptedControl_quiet]. }
  destruct auth; try exact Hbody. apply quiet_message, throws_quiet.
Qed.

Lemma deliver_message shown x c : state c = ChannelReady -> handled_over x -> message_step shown c (deliver x c).
Proof.
  intros Hst Hx. unfold deliver. destruct (handlers c); [|by apply quiet_message].
  split; try done.
  - intros [C1 C2 C3 C4]. by split.
  - intros [[Hf Ht]|Hf]; [left; by split|right]. unfold failed in *. simpl. apply Exists_app. by left.
  - by apply (outcome_deliver _ _ _ x []).
Qed.

Lemma opened_quiet c : quiet_step c (c <| consecutiveFailures := 0%nat |>).
Proof. apply quiet_link; auto. done. Qed.

Lemma desktop_open_same s frame kind p s' :
  desktop_open crypto s frame kind = Ok (Some p, s') -> same_session s s'.
Proof.
  unfold desktop_open, mbind, result_bind. destruct (openMobileE2EEV2Frame _ _ _ _) as [[|]|]; [|done..].
  by intros [= _ <-].
Qed.

Lemma openText_same s frame p s' : desktop_openText crypto s frame = Ok (Some p, s') -> same_session s s'.
Proof.
  unfold desktop_openText, mbind, result_bind. destruct (desktop_decodeCanonicalBase64 frame); [|done].
  destruct (desktop_open crypto s l text) as [[[q|] s1]|] eqn:Ho; try done.
  intros [= _ <-]. by eapply desktop_open_same.
Qed.

(** A plaintext the channel read: the token, or a message for the handler. *)
Lemma plaintext_message raw plaintext x c c1 :
  state c ≠ AwaitingHello -> quiet_step c c1 -> out (link c1) = out (link c) -> opens c raw plaintext ->
  handled_over x ->
  message_step (presents c raw) c
    (if bool_decide (state c1 = AwaitingAuth) then handleAuth resolve ready_throws plaintext c1
     else deliver x c1).
Proof.
  intros Hst Hq Ho Hop Hx. assert (Hs : state c1 = state c) by apply Hq.
  apply (quiet_then _ _ c1); [done|done|].
  destruct (bool_decide_reflect (state c1 = AwaitingAuth)) as [Ha|Ha].
  - apply handleAuth_message; [done|]. intros auth d Hp Hty Htr Hr He.
    exists plaintext, auth. by rewrite <-Hs.
  - apply deliver_message; [|done]. rewrite Hs in *. by destruct (state c).
Qed.

(** Binary messages are for the handler of a ready channel only. *)
Lemma binary_message shown bytes b c c1 :
  quiet_step c c1 -> out (link c1) = out (link c) -> b = negb (bool_decide (state c = ChannelReady)) ->
  message_step shown c
    (if b then onError 4001 "Invalid binary message before authentication" c1
     else deliver (BinaryMessageHandler bytes) c1).
Proof.
  intros Hq Ho ->. apply (quiet_then _ _ c1); [done|done|].
  destruct (bool_decide_reflect (state c = ChannelReady)) as [Hr|Hr]; simpl.
  - apply deliver_message; [|done]. by rewrite (qs_state _ _ Hq).
  - apply quiet_message, onError_quiet.
Qed.

Definition opened_with (s : DesktopSession) c : E2EEChannel :=
  (on_link (fun k => k <| v2Session := Some s |>) c) <| consecutiveFailures := 0%nat |>.

Lemma session_opened_quiet s s' c :
  v2Session (link c) = Some s -> same_session s s' ->
  quiet_step c (opened_with s' c).
Proof. intros Hs Hss. unfold opened_with. etrans; [|by apply opened_quiet]. apply on_link_quiet. by apply (session_link s). Qed.

Lemma handleV2_message session raw c :
  state c ≠ AwaitingHello -> v2Session (link c) = Some session ->
  message_step (presents c raw) c (handleV2RawMessage resolve ready_throws session raw c).
Proof.
  intros Hst Hs. destruct raw as [s|bytes]; unfold handleV2RawMessage, handleDesktopMobileE2EEV2Inbound.
  - destruct (desktop_openText crypto session s) as [[[p|] s']|m] eqn:Ho.
    + apply (plaintext_message _ p (MessageHandler p) c (opened_with s' c)); [done| |done| |done].
      { apply (session_opened_quiet session); [done|by eapply openText_same]. }
      left. by exists session, s'.
    + apply quiet_message, trackDecryptFailure_quiet.
    + apply quiet_message, throws_quiet.
  - unfold desktop_openBinary. destruct (desktop_open crypto session bytes binary) as [[[p|] s']|m] eqn:Ho.
    + apply (binary_message _ p _ c (opened_with s' c)); [|done|].
      { apply (session_opened_quiet session); [done|by eapply desktop_open_same]. }
      simpl. by destruct (state c).
    + apply quiet_message, trackDecryptFailure_quiet.
    + apply quiet_message, throws_quiet.
Qed.

Lemma handleV1_message key raw c :
  state c ≠ AwaitingHello -> v2Session (link c) = None -> sharedKey (link c) = Some key ->
  message_step (presents c raw) c (handleV1RawMessage resolve ready_throws key raw c).
Proof.
  intros Hst Hs Hk. destruct raw as [s|bytes]; unfold handleV1RawMessage.
  - destruct (decrypt s key) as [p|] eqn:Hd; [|apply quiet_message, trackDecryptFailure_quiet].
    apply plaintext_message; [done|apply opened_quiet|done| |done]. right. eauto.
  - destruct (decryptBytes bytes key) as [p|]; [|apply quiet_message, trackDecryptFailure_quiet].
    by apply binary_message; [apply opened_quiet| |].
Qed.

(** A message, whatever it is. *)
Lemma handleRawMessage_message raw c :
  message_step (presents c raw) c (handleRawMessage resolve ready_throws raw c).
Proof.
  unfold handleRawMessage. destruct (state c) eqn:Hst.
  { destruct raw; [by apply handleHello_message|apply quiet_message, onError_quiet]. }
  all: destruct (v2Session (link c)) as [session|] eqn:Hs; [apply handleV2_message; congruence|].
  all: destruct (sharedKey (link c)) as [key|] eqn:Hk; [apply handleV1_message; congruence|by apply quiet_message].
Qed.

(** A channel that awaits the token and opens anything else closes. *)
Lemma early_message_rejected key s plaintext auth c :
  state c = AwaitingAuth -> v2Session (link c) = None -> sharedKey (link c) = Some key ->
  decrypt s key = Some plaintext -> JSON_parse plaintext = Some auth -> auth <> JNull -> type_is "e2ee_auth" auth = false ->
  handleRawMessage resolve ready_throws (RawText s) c = bad_auth (c <| consecutiveFailures := 0%nat |>).
Proof.
  intros Hst Hs Hk Hd Hp Hn Ht. unfold handleRawMessage. rewrite Hst, Hs, Hk. unfold handleV1RawMessage. rewrite Hd. cbv zeta.
  rewrite bool_decide_true by done. unfold handleAuth. rewrite Hp. unfold auth_ok. rewrite Ht. by destruct auth.
Qed.
End Message.
End Channel.
