(* ===== verification/MobileSockets.v ===== *)
(** * Mobile sockets (src/main/runtime/rpc/mobile-socket-wiring.ts)

    [MobileSocketWiring] gives every socket of its transports an E2EE channel,
    authenticates the device behind it against the device registry and hands
    its messages to the RPC handler. Sockets are numbers; channel objects live in
    a heap, since the closures a handler keeps outlive their channel. Messages,
    closes, timers, replies and changes of the registry are the events of a run;
    what the wiring calls is a log of effects. Random ids are a stream. *)

From S2P Require Import Prelude JsMap Json E2eeContract E2eeSession WsBackpressure SharedControlFrames.
From S2P Require Import DeviceRegistry E2eeChannel.

Local Open Scope string_scope.
Local Open Scope list_scope.
Local Open Scope Z_scope.

(** ** State *)

Inductive CredentialKind := Invite | Resume.

(** [MobileSocketTransportMetadata] *)
Inductive Metadata :=
  | DirectSocket
  | RelaySocket (hostId deviceId basisConnId : string) (kind : CredentialKind).

Record AuthenticatedMobileSocket := {
  s_ws : nat; connectionId : string; device : Device; s_transport : Metadata }.

(** A channel with the variables its callbacks close over. *)
Record Entry := { e_ws : nat; e_connectionId : string; e_metadata : Metadata; channel : E2EEChannel }.
#[export] Instance eta_Entry : Eta Entry :=
  fun x => Build_Entry (e_ws x) (e_connectionId x) (e_metadata x) (channel x).

Inductive Effect :=
  | SocketSend (ws : nat) (data : Raw)
  | SocketClose (ws : nat) (closeCode : Z) (reason : string)
  | Authenticated (s : AuthenticatedMobileSocket)  (** [authenticatedSockets.set] *)
  | SetClientId (ws : nat) (clientId : option json)
  | WiringReady (s : AuthenticatedMobileSocket)  (** the option [onReady] *)
  | OnText (s : AuthenticatedMobileSocket) (plaintext : string)
  | OnBinary (s : AuthenticatedMobileSocket) (bytes : list Z)
  | OnClose (ws : nat) (s : option AuthenticatedMobileSocket) (hasOtherConnections : bool)
  | TerminateClients (transport : nat) (clientId : option json)
  | UncaughtException (message : string).

Record Wiring := {
  registry : Registry;
  heap : list Entry;
  channels : jsmap nat nat;
  connectionIds : jsmap nat string;
  authenticatedSockets : jsmap nat AuthenticatedMobileSocket;
  transports : list nat;
  world : nat -> bool * option Z;  (** is the socket open, and its [bufferedAmount] *)
  random_draws : nat;
  log : list Effect }.
#[export] Instance eta_Wiring : Eta Wiring :=
  fun x => Build_Wiring (registry x) (heap x) (channels x) (connectionIds x) (authenticatedSockets x)
    (transports x) (world x) (random_draws x) (log x).
Implicit Types (w : Wiring) (ws ref : nat).

(** [randomBytes(8).toString('hex')] *)
Class WiringEnv := { randomConnectionId : nat -> string }.

Section Wiring.
Context `{RuntimeEnv} `{ChannelEnv} `{WiringEnv}.

Definition emit (e : Effect) w : Wiring := w <| log := log w ++ [e] |>.

Definition new_wiring (r : Registry) : Wiring :=
  {| registry := r; heap := []; channels := ∅; connectionIds := ∅; authenticatedSockets := ∅;
     transports := []; world := fun _ => (true, Some 0); random_draws := 0; log := [] |}.

(** ** The registry, asked for values a message or the file may hold *)

Definition validateToken_value (token : option json) (r : Registry) : option jsobj :=
  js_find (fun d => strict_eq (get "token" d) token) (devices r).

Definition updateLastSeen_value (now : Z) (io : bool) (id : option json) (r : Registry)
    : Registry * result unit :=
  match js_find (fun d => strict_eq (get "deviceId" d) id) (devices r) with
  | Some _ =>
      save_return io tt
        (with_devices (js_update_first (fun d => strict_eq (get "deviceId" d) id)
           (<["lastSeenAt" := Some (JNum (NInt now))]>) (devices r)) r)
  | None => (r, Ok tt)
  end.

Definition toAuthenticatedDevice (d : jsobj) : Device :=
  {| deviceId := get "deviceId" d; deviceToken := get "token" d; scope := get "scope" d |}.

(** [resolveAuthenticatedDevice] *)
Definition resolveAuthenticatedDevice (metadata : Metadata) (r : Registry) (token : option json)
    : option Device :=
  match validateToken_value token r with
  | None => None
  | Some d =>
      match metadata with
      | RelaySocket _ relayDeviceId _ _ =>
          if negb (strict_eq (Some (JStr relayDeviceId)) (get "deviceId" d)) then None
          else Some (toAuthenticatedDevice d)
      | DirectSocket => Some (toAuthenticatedDevice d)
      end
  end.

Definition channel_options (metadata : Metadata) : ChannelOptions :=
  match metadata with
  | RelaySocket hostId _ _ _ => {| transport := relay; relayHostId := Some hostId; requireV2 := true |}
  | DirectSocket => {| transport := direct; relayHostId := None; requireV2 := false |}
  end.

(** ** The callbacks of a channel *)

Definition update_channel ref (f : E2EEChannel -> E2EEChannel) w : Wiring :=
  w <| heap := alter (fun e => e <| channel := f (channel e) |>) ref (heap w) |>.

(** [this.channels.get(ws)?.destroy()], then [this.channels.delete(ws)] *)
Definition drop_channel ws w : Wiring :=
  let w := match channels w !! ws with Some ref => update_channel ref destroy w | None => w end in
  w <| channels := delete ws (channels w) |>.

Definition set_world ws (x : bool * option Z) w : Wiring :=
  w <| world := fun i => if (i =? ws)%nat then x else world w i |>.

Definition onError ws (closeCode : Z) (reason : string) w : Wiring :=
  let w := drop_channel ws w in
  emit (SocketClose ws closeCode reason) (set_world ws (false, (world w ws).2) w).

Definition onReady (now : Z) (io : bool) (e : Entry) (d : Device) w : Wiring :=
  let socket := {| s_ws := e_ws e; connectionId := e_connectionId e; device := d;
                   s_transport := e_metadata e |} in
  let w := emit (Authenticated socket)
             (w <| authenticatedSockets := <[e_ws e := socket]> (authenticatedSockets w) |>) in
  let w := emit (SetClientId (e_ws e) (deviceToken d)) w in
  let '(r, saved) := updateLastSeen_value now io (deviceId d) (registry w) in
  let w := w <| registry := r |> in
  match saved with
  | Ok _ => emit (WiringReady socket) w
  | Throw _ => w
  end.

Definition perform (now : Z) (io : bool) (e : Entry) (x : ChannelEffect) w : Wiring :=
  match x with
  | Sent data => emit (SocketSend (e_ws e) data) w
  | E2eeChannel.OnError closeCode reason => onError (e_ws e) closeCode reason w
  | E2eeChannel.OnReady d => onReady now io e d w
  | MessageHandler plaintext =>
      match authenticatedSockets w !! e_ws e with
      | Some socket => emit (OnText socket plaintext) w
      | None => w
      end
  | BinaryMessageHandler bytes =>
      match authenticatedSockets w !! e_ws e with
      | Some socket => emit (OnBinary socket bytes) w
      | None => w
      end
  | Thrown m => emit (UncaughtException m) w
  end.

(** A call of the channel [ref], on the socket as it is now; then what it called. *)
Definition in_world ws w (c : E2EEChannel) : E2EEChannel :=
  let k := (link c) <| ws_open := (world w ws).1 |> <| ws_buffered := (world w ws).2 |>
                    <| draws := random_draws w |> in
  c <| link := k |>.
Definition emptied (c : E2EEChannel) : E2EEChannel :=
  let k := (link c) <| out := [] |> in c <| link := k |>.

Definition enter (now : Z) (io : bool) ref (f : E2EEChannel -> E2EEChannel) w : Wiring :=
  match heap w !! ref with
  | None => w
  | Some e =>
      let c := f (in_world (e_ws e) w (channel e)) in
      let w := update_channel ref (fun _ => emptied c) w in
      let w := set_world (e_ws e) ((world w (e_ws e)).1, ws_buffered (link c)) w in
      let w := w <| random_draws := draws (link c) |> in
      foldl (fun w x => perform now io e x w) w (out (link c))
  end.

(** ** The methods *)

Definition ready_throws (now : Z) (io : bool) (r : Registry) (d : Device) : option string :=
  match (updateLastSeen_value now io (deviceId d) r).2 with Throw m => Some m | Ok _ => None end.

Definition initial_link w : Link :=
  {| ws_open := true; ws_buffered := None; sharedKey := None; v2Session := None;
     draws := random_draws w; out := [] |}.

(** The channel of a socket, made on its first message. *)
Definition open_channel ws (metadata : Metadata) w : Wiring * nat :=
  match channels w !! ws with
  | Some ref => (w, ref)
  | None =>
      let id := randomConnectionId (random_draws w) in
      let ref := length (heap w) in
      (w <| random_draws := S (random_draws w) |>
         <| connectionIds := <[ws := id]> (connectionIds w) |>
         <| heap := heap w ++ [{| e_ws := ws; e_connectionId := id; e_metadata := metadata;
              channel := new_channel (channel_options metadata) (initial_link w) |}] |>
         <| channels := <[ws := ref]> (channels w) |>, ref)
  end.

(** The channel's callbacks use the metadata it was made with. *)
Definition handleRawMessage (now : Z) (io : bool) ws (metadata : Metadata) (raw : Raw) w : Wiring :=
  let '(w, ref) := open_channel ws metadata w in
  match heap w !! ref with
  | None => w
  | Some e =>
      enter now io ref
        (E2eeChannel.handleRawMessage (resolveAuthenticatedDevice (e_metadata e) (registry w))
           (ready_throws now io (registry w)) raw) w
  end.

Definition handleClose ws w : Wiring :=
  let socket := authenticatedSockets w !! ws in
  let w := drop_channel ws (w <| authenticatedSockets := delete ws (authenticatedSockets w) |>) in
  let w := w <| connectionIds := delete ws (connectionIds w) |> in
  let hasOtherConnections :=
    match socket with
    | Some s => existsb (fun candidate => strict_eq (deviceToken (device candidate)) (deviceToken (device s)))
                  (jm_values (authenticatedSockets w))
    | None => false
    end in
  emit (OnClose ws socket hasOtherConnections) w.

Definition terminateDeviceConnections (token : option json) w : Wiring :=
  foldl (fun w t => emit (TerminateClients t token) w) w (transports w).

Definition attachTransport (t : nat) w : Wiring :=
  if bool_decide (t ∈ transports w) then w else w <| transports := transports w ++ [t] |>.
Definition detachTransport (t : nat) w : Wiring :=
  w <| transports := js_filter (fun t' => negb (t' =? t)%nat) (transports w) |>.

(** ** Events *)

Inductive Event :=
  | Message (now : Z) (io : bool) (ws : nat) (metadata : Metadata) (raw : Raw)
  | ConnectionClose (ws : nat)
  | HandshakeTimer (ref : nat)
  | TextQueueTimer (ref id : nat)
  | V2QueueTimer (ref id : nat)
  | ReplyText (ref : nat) (response : string)
  | ReplyBinary (ref : nat) (response : list Z)
  | ReplyV2 (ref : nat) (item : OutboundItem)
  | SocketChanges (ws : nat) (is_open : bool) (buffered : option Z)
  | RegistryCall (e : DeviceRegistry.event)
  | Terminate (token : option json)
  | Attach (t : nat)
  | Detach (t : nat).

Context (registry_parse : string -> option json).

Definition step w (e : Event) : Wiring :=
  match e with
  | Message now io ws metadata raw => handleRawMessage now io ws metadata raw w
  | ConnectionClose ws => handleClose ws w
  | HandshakeTimer ref => enter 0 true ref handshake_timeout w
  | TextQueueTimer ref id => enter 0 true ref (text_queue_timer id) w
  | V2QueueTimer ref id => enter 0 true ref (v2_queue_timer id) w
  | ReplyText ref response => enter 0 true ref (encryptedReply response) w
  | ReplyBinary ref response => enter 0 true ref (fun c => (encryptedBinaryReply response c).1) w
  | ReplyV2 ref item => enter 0 true ref (v2Reply item) w
  | SocketChanges ws is_open buffered => set_world ws (is_open, buffered) w
  | RegistryCall e => w <| registry := DeviceRegistry.step registry_parse (registry w) e |>
  | Terminate token => terminateDeviceConnections token w
  | Attach t => attachTransport t w
  | Detach t => detachTransport t w
  end.

Definition run_from w (es : list Event) : Wiring := foldl step w es.
End Wiring.
