(* ===== verification/MobileSocketFacts.v ===== *)
(** * Mobile sockets: who is served

    [view] reads off the log which authenticated socket a socket stands for. The
    invariant [wiring_ok] ties it to the channels: a channel in use is ready
    exactly when its socket is authenticated, and a channel no longer in use is
    dead. The theorems: only authenticated sockets are served, on the evidence of
    a valid token; a revoked device is never served again; a closed socket
    leaves nothing behind. *)

From S2P Require Import Prelude JsMap Json E2eeContract E2eeSession WsBackpressure SharedControlFrames.
From S2P Require Import DeviceRegistry E2eeChannel E2eeChannelFacts MobileSockets.
From S2P Require Import Base64.

Local Open Scope list_scope.
Local Open Scope Z_scope.

Section Facts.
Context `{RuntimeEnv} `{ChannelEnv} `{WiringEnv}.
Implicit Types (w : Wiring) (ws ref : nat) (c : E2EEChannel).

(** ** The authenticated socket, read off the log *)

Definition view_step ws (v : option AuthenticatedMobileSocket) (x : Effect) :=
  match x with
  | Authenticated s => if (s_ws s =? ws)%nat then Some s else v
  | SocketClose i _ _ | OnClose i _ _ => if (i =? ws)%nat then None else v
  | _ => v
  end.
Definition view ws (es : list Effect) : option AuthenticatedMobileSocket := foldl (view_step ws) None es.

Lemma view_snoc ws es x : view ws (es ++ [x]) = view_step ws (view ws es) x.
Proof. unfold view. by rewrite foldl_app. Qed.

(** A message handed over is one of the socket the view shows. *)
Definition served (x : Effect) : option AuthenticatedMobileSocket :=
  match x with OnText s _ | OnBinary s _ => Some s | _ => None end.
Definition dispatched_ok (es : list Effect) : Prop :=
  forall before x after s, es = before ++ x :: after -> served x = Some s -> view (s_ws s) before = Some s.

Lemma dispatched_snoc es x :
  dispatched_ok es -> (forall s, served x = Some s -> view (s_ws s) es = Some s) -> dispatched_ok (es ++ [x]).
Proof.
  intros Ho Hx before y after s Heq Hs. apply app_eq_inv in Heq as [(k & -> & Heq)|(k & -> & Heq)].
  - destruct k as [|z k]; simplify_eq/=.
    + rewrite app_nil_r in *. by apply Hx.
    + by eapply Ho.
  - destruct k as [|? [|? ?]]; simplify_eq/=. rewrite app_nil_r. by apply Hx.
Qed.

(** ** The invariant *)

Definition dead c : Prop :=
  handlers c = false /\ handshakeTimer c = false /\ sharedKey (link c) = None /\ v2Session (link c) = None /\
  textReplyQueue c = None /\ v2OutboundQueue c = None /\ authenticatedDevice c = None.

Definition in_use (e : Entry) : Prop :=
  handlers (channel e) = true /\ options (channel e) = channel_options (e_metadata e) /\ chan_ok (channel e).

Definition socket_of (e : Entry) : option AuthenticatedMobileSocket :=
  (fun d => {| s_ws := e_ws e; connectionId := e_connectionId e; device := d;
               s_transport := e_metadata e |}) <$> authenticatedDevice (channel e).

Record wiring_ok w : Prop := {
  w_heap : forall ref e, heap w !! ref = Some e ->
    out (link (channel e)) = [] /\
    if decide (channels w !! e_ws e = Some ref) then in_use e else dead (channel e);
  w_channels : forall ws ref, channels w !! ws = Some ref ->
    exists e, heap w !! ref = Some e /\ e_ws e = ws /\
      view ws (log w) = socket_of e /\
      forall s, socket_of e = Some s -> authenticatedSockets w !! ws = Some s;
  w_none : forall ws, channels w !! ws = None -> view ws (log w) = None;
  w_sockets : forall ws s, authenticatedSockets w !! ws = Some s -> s_ws s = ws;
  w_ids : forall ws, is_Some (channels w !! ws) \/ is_Some (authenticatedSockets w !! ws) ->
    is_Some (connectionIds w !! ws);
  w_wf : jm_wf (authenticatedSockets w);
  w_dispatch : dispatched_ok (log w) }.

(** The deadline and the failure count of the channels in use. *)
Definition live_ok w : Prop :=
  forall ws ref e, channels w !! ws = Some ref -> heap w !! ref = Some e -> live (channel e).

(** A change of the log alone, by an effect the view does not see. *)
Lemma wiring_emit_ok x w :
  (forall ws v, view_step ws v x = v) -> (forall s, served x = Some s -> view (s_ws s) (log w) = Some s) ->
  wiring_ok w -> wiring_ok (emit x w).
Proof.
  intros Hv Hs [W1 W2 W3 W4 W5 W6 W7]. split; simpl; try done.
  - intros ws ref Hc. destruct (W2 ws ref Hc) as (e & A & B & C & D). exists e. by rewrite view_snoc, Hv.
  - intros ws Hc. rewrite view_snoc, Hv. auto.
  - by apply dispatched_snoc.
Qed.

(** A change outside what the invariant looks at. *)
Lemma wiring_same w w' :
  heap w' = heap w -> channels w' = channels w -> connectionIds w' = connectionIds w ->
  authenticatedSockets w' = authenticatedSockets w -> log w' = log w -> wiring_ok w -> wiring_ok w'.
Proof. intros E1 E2 E3 E4 E5 [W1 W2 W3 W4 W5 W6 W7]. split; rewrite ?E1, ?E2, ?E3, ?E4, ?E5; done. Qed.

Lemma dead_destroy c : dead (destroy c).
Proof. by repeat split. Qed.

(** Dropping the channel of a socket, with the effect that says so. *)
Lemma drop_ok ws x w :
  (forall v, view_step ws v x = None) -> (forall i v, i ≠ ws -> view_step i v x = v) -> served x = None ->
  wiring_ok w -> wiring_ok (emit x (drop_channel ws w)).
Proof.
  intros Hx Hne Hs [W1 W2 W3 W4 W5 W6 W7].
  assert (Hheap : heap (drop_channel ws w) =
            match channels w !! ws with
            | Some ref => alter (fun e => e <| channel := destroy (channel e) |>) ref (heap w)
            | None => heap w end) by (unfold drop_channel; by destruct (channels w !! ws)).
  assert (Hrest : channels (drop_channel ws w) = delete ws (channels w) /\
            connectionIds (drop_channel ws w) = connectionIds w /\
            authenticatedSockets (drop_channel ws w) = authenticatedSockets w /\
            log (drop_channel ws w) = log w) by (unfold drop_channel; by destruct (channels w !! ws)).
  destruct Hrest as (E1 & E2 & E3 & E4). revert Hheap E1 E2 E3 E4. generalize (drop_channel ws w).
  intros w1 Hheap E1 E2 E3 E4. split; simpl; rewrite ?E1, ?E2, ?E3, ?E4; try done.
  - intros ref e Hl. rewrite Hheap in Hl. destruct (channels w !! ws) as [r|] eqn:Hr.
    + destruct (decide (r = ref)) as [->|Hn].
      * rewrite list_lookup_alter_eq in Hl. destruct (heap w !! ref) as [e0|] eqn:He0; [|done].
        injection Hl as <-. destruct (W1 ref e0 He0) as [Ho _]. split; [done|].
        destruct (W2 ws ref Hr) as (e1 & He1 & Hws & _). rewrite He0 in He1. injection He1 as ->. simpl.
        assert (delete ws (channels w) !! e_ws e1 = None) as -> by (rewrite Hws, jm_lookup_delete; by case_decide).
        rewrite decide_False by done. apply dead_destroy.
      * rewrite list_lookup_alter_ne in Hl by done. destruct (W1 ref e Hl) as [Ho Hu]. split; [done|].
        rewrite jm_lookup_delete. destruct (decide (ws = e_ws e)) as [->|Hw].
        -- rewrite decide_False by done. rewrite decide_False in Hu by congruence. done.
        -- done.
    + destruct (W1 ref e Hl) as [Ho Hu]. split; [done|].
      rewrite jm_lookup_delete. destruct (decide (ws = e_ws e)) as [->|Hw]; [|done].
      rewrite Hr in Hu. done.
  - intros i ref. rewrite jm_lookup_delete. destruct (decide (ws = i)) as [|Hw]; [done|]. intros Hc.
    destruct (W2 i ref Hc) as (e & A & B & C & D). exists e. rewrite view_snoc, (Hne i) by done.
    split; [|by repeat split]. rewrite Hheap. destruct (channels w !! ws) as [r|] eqn:Hr; [|done].
    destruct (decide (r = ref)) as [->|Hn]; [|by rewrite list_lookup_alter_ne].
    destruct (W2 ws ref Hr) as (e1 & A1 & B1 & _). congruence.
  - intros i. rewrite jm_lookup_delete, view_snoc. destruct (decide (ws = i)) as [<-|Hw]; [done|].
    intros Hc. rewrite (Hne i) by done. auto.
  - intros i. rewrite jm_lookup_delete. destruct (decide (ws = i)); [|apply W5].
    intros [[? ?]|Hi]; [done|]. apply W5. by right.
  - apply dispatched_snoc; [done|]. intros s. by rewrite Hs.
Qed.

Lemma onError_ok ws closeCode reason w : wiring_ok w -> wiring_ok (onError ws closeCode reason w).
Proof.
  intros Hw. unfold onError. apply (wiring_same (emit (SocketClose ws closeCode reason) (drop_channel ws w))); try done.
  apply drop_ok; [|intros i v Hi|done|done]; simpl.
  - intros v. by rewrite Nat.eqb_refl.
  - apply Nat.eqb_neq in Hi. by rewrite Nat.eqb_sym, Hi.
Qed.

(** ** A call of a channel *)

(** The channel [ref] is now [c], and its calls are still to be performed. *)
Definition stored ref ws c w : Wiring :=
  set_world ws ((world w ws).1, ws_buffered (link c)) (update_channel ref (fun _ => emptied c) w)
    <| random_draws := draws (link c) |>.

Lemma enter_stored now io ref f w e :
  heap w !! ref = Some e ->
  enter now io ref f w =
    let c := f (in_world (e_ws e) w (channel e)) in
    foldl (fun w x => perform now io e x w) (stored ref (e_ws e) c w) (out (link c)).
Proof. intros He. unfold enter. by rewrite He. Qed.

Lemma stored_lookup ref ws c w e ref' e' :
  heap w !! ref = Some e -> heap (stored ref ws c w) !! ref' = Some e' ->
  (ref' = ref /\ e' = e <| channel := emptied c |>) \/ (ref' ≠ ref /\ heap w !! ref' = Some e').
Proof.
  intros He. simpl. destruct (decide (ref = ref')) as [->|Hn].
  - rewrite list_lookup_alter_eq, He. intros [= <-]. by left.
  - rewrite list_lookup_alter_ne by done. auto.
Qed.

Lemma in_use_emptied e c : in_use (e <| channel := c |>) -> in_use (e <| channel := emptied c |>).
Proof. intros (A & B & [C1 C2 C3 C4]). repeat split; try done; by apply C1 || apply C2. Qed.

Lemma store_ok ref c w e :
  wiring_ok w -> heap w !! ref = Some e ->
  (if decide (channels w !! e_ws e = Some ref)
   then in_use (e <| channel := c |>) /\ authenticatedDevice c = authenticatedDevice (channel e)
   else dead c) ->
  wiring_ok (stored ref (e_ws e) c w).
Proof.
  intros [W1 W2 W3 W4 W5 W6 W7] He Hc. split; try done.
  - intros ref' e' He'. destruct (stored_lookup _ _ _ _ _ _ _ He He') as [[-> ->]|[Hn He1]]; [|by apply W1].
    split; [done|]. simpl. destruct (decide (channels w !! e_ws e = Some ref)).
    + apply in_use_emptied, Hc.
    + exact Hc.
  - intros ws ref' Hr. destruct (W2 ws ref' Hr) as (e' & A & B & C & D).
    destruct (decide (ref = ref')) as [->|Hn].
    + rewrite He in A. injection A as <-. rewrite B, decide_True in Hc by done.
      exists (e <| channel := emptied c |>). split; [simpl; by rewrite list_lookup_alter_eq, He|].
      split; [done|]. assert (Hs : socket_of (e <| channel := emptied c |>) = socket_of e).
      { unfold socket_of. simpl. by rewrite (proj2 Hc). }
      by rewrite Hs.
    + exists e'. split; [simpl; by rewrite list_lookup_alter_ne|]. done.
Qed.

(** Only what is dropped disappears; the other channels stay as they are. *)
Record drops w w' : Prop := {
  dr_channels : forall ws ref, channels w' !! ws = Some ref -> channels w !! ws = Some ref;
  dr_heap : forall ws ref e, channels w' !! ws = Some ref -> heap w' !! ref = Some e -> heap w !! ref = Some e }.

#[export] Instance drops_preorder : PreOrder drops.
Proof.
  split; [intros w; by split|]. intros w1 w2 w3 [A B] [C D]. split; [auto|].
  intros ws ref e Hc He. eapply B; [by apply C|]. by eapply D.
Qed.

Lemma drops_same w w' : channels w' = channels w -> heap w' = heap w -> drops w w'.
Proof. intros E1 E2. split; rewrite E1; [done|by rewrite E2]. Qed.

Lemma onError_drops ws closeCode reason w : wiring_ok w -> drops w (onError ws closeCode reason w).
Proof.
  intros [_ W2 _ _ _ _ _]. unfold onError, drop_channel. destruct (channels w !! ws) as [r|] eqn:Hr.
  - split; simpl.
    + intros i ref. rewrite jm_lookup_delete. by case_decide.
    + intros i ref e. rewrite jm_lookup_delete. destruct (decide (ws = i)) as [|Hn]; [done|]. intros Hc.
      destruct (decide (r = ref)) as [->|Hn']; [|by rewrite list_lookup_alter_ne].
      destruct (W2 ws ref Hr) as (e1 & ? & ? & _), (W2 i ref Hc) as (e2 & ? & ? & _). congruence.
  - split; simpl; [|done]. intros i ref. rewrite jm_lookup_delete. by case_decide.
Qed.

(** Nobody is authenticated, and the registry is not touched. *)
Definition silent (x : Effect) : Prop := match x with Authenticated _ => False | _ => True end.
Definition silently w w' : Prop :=
  registry w' = registry w /\ exists es, log w' = log w ++ es /\ Forall silent es.

#[export] Instance silently_preorder : PreOrder silently.
Proof.
  split; [intros w; split; [done|exists []; by rewrite app_nil_r]|].
  intros w1 w2 w3 [A (es1 & B & C)] [D (es2 & E & F)]. split; [congruence|].
  exists (es1 ++ es2). rewrite E, B, app_assoc. split; [done|]. by apply Forall_app.
Qed.

Lemma emit_silently x w : silent x -> silently w (emit x w).
Proof. intros Hx. split; [done|]. exists [x]. split; [done|by constructor]. Qed.
Lemma same_silently w w' : registry w' = registry w -> log w' = log w -> silently w w'.
Proof. intros E1 E2. split; [done|]. exists []. by rewrite app_nil_r. Qed.

Lemma drop_channel_log ws w : log (drop_channel ws w) = log w /\ registry (drop_channel ws w) = registry w.
Proof. unfold drop_channel. by destruct (channels w !! ws). Qed.

Lemma onError_silently ws closeCode reason w : silently w (onError ws closeCode reason w).
Proof.
  unfold onError. destruct (drop_channel_log ws w) as [El Er]. revert El Er.
  generalize (drop_channel ws w). intros w1 El Er. etrans; [apply (same_silently w w1); done|].
  etrans; [|by apply emit_silently]. by apply same_silently.
Qed.

Lemma perform_quiet now io e x w :
  quiet x -> wiring_ok w ->
  wiring_ok (perform now io e x w) /\ drops w (perform now io e x w) /\ silently w (perform now io e x w) /\
  (is_error x -> channels (perform now io e x w) !! e_ws e = None).
Proof.
  intros Hx Hw. destruct x; try done; simpl.
  - split; [by apply wiring_emit_ok|]. split; [by apply drops_same|]. split; [by apply emit_silently|done].
  - split; [by apply onError_ok|]. split; [by apply onError_drops|].
    split; [apply onError_silently|]. intros _.
    assert (Hd : forall m : jsmap nat nat, delete (e_ws e) m !! e_ws e = None)
      by (intros m; rewrite jm_lookup_delete; by case_decide).
    apply Hd.
  - split; [by apply wiring_emit_ok|]. split; [by apply drops_same|]. split; [by apply emit_silently|done].
Qed.

Lemma performs_quiet now io e es w :
  Forall quiet es -> wiring_ok w ->
  let w' := foldl (fun w x => perform now io e x w) w es in
  wiring_ok w' /\ drops w w' /\ silently w w' /\ (Exists is_error es -> channels w' !! e_ws e = None).
Proof.
  intros Hes. revert w. induction Hes as [|x es Hx _ IH]; intros w Hw; simpl.
  - repeat (split; [done|]). by intros ?%Exists_nil.
  - destruct (perform_quiet now io e x w Hx Hw) as (P1 & P2 & P3 & P4).
    destruct (IH _ P1) as (P5 & P6 & P7 & P8). split; [done|]. split; [by etrans|]. split; [by etrans|].
    intros [Hx'|He]%Exists_cons; [|by apply P8]. specialize (P4 Hx').
    destruct (channels (foldl _ _ es) !! e_ws e) as [r|] eqn:Hr; [|done].
    apply (dr_channels _ _ P6) in Hr. congruence.
Qed.

Lemma live_emptied c : live c -> ~ failed (link c) -> live (emptied c).
Proof. intros [?|?]; [by left|done]. Qed.

(** The channels in use after [ref] is stored and its calls performed. *)
Lemma live_stored ref c w e w' :
  wiring_ok w -> live_ok w -> heap w !! ref = Some e -> (live (channel e) -> live c) ->
  drops (stored ref (e_ws e) c w) w' -> (failed (link c) -> channels w' !! e_ws e = None) ->
  live_ok w'.
Proof.
  intros Hw Hl He Hc [D1 D2] Hf ws ref' e' Hch He'. specialize (D2 _ _ _ Hch He').
  assert (Hch0 : channels w !! ws = Some ref') by apply (D1 _ _ Hch).
  destruct (stored_lookup _ _ _ _ _ _ _ He D2) as [[-> ->]|[Hn He1]]; [|by apply (Hl ws ref')].
  destruct (w_channels _ Hw ws ref Hch0) as (e1 & A & B & _). assert (e1 = e) as -> by congruence.
  apply live_emptied; [by apply Hc, (Hl ws ref)|]. intros Hf'. rewrite <-B, Hf in Hch by done. done.
Qed.

Lemma in_world_link ws w c :
  out (link (in_world ws w c)) = out (link c) /\ quiet_step c (in_world ws w c).
Proof. split; [done|]. apply quiet_link; auto. by apply link_same. Qed.

(** A call that is quiet, and does nothing once the channel is destroyed. *)
Lemma enter_quiet now io ref f w :
  (forall c, quiet_step c (f c)) -> (forall c, dead c -> dead (f c)) -> wiring_ok w ->
  wiring_ok (enter now io ref f w) /\ (live_ok w -> live_ok (enter now io ref f w)) /\
  silently w (enter now io ref f w).
Proof.
  intros Hq Hd Hw. destruct (heap w !! ref) as [e|] eqn:He; [|unfold enter; by rewrite He].
  rewrite (enter_stored _ _ _ _ _ _ He). cbn zeta. set (c0 := in_world (e_ws e) w (channel e)).
  destruct (in_world_link (e_ws e) w (channel e)) as [Eo Qw]. fold c0 in Eo, Qw.
  assert (Q : quiet_step (channel e) (f c0)) by (etrans; [exact Qw|apply Hq]).
  destruct (w_heap _ Hw ref e He) as [Ho Hu].
  destruct (ls_out _ _ (qs_link _ _ Q)) as (es & Hes & Hquiet). rewrite Ho in Hes. simpl in Hes.
  assert (Hst : wiring_ok (stored ref (e_ws e) (f c0) w)).
  { apply (store_ok ref (f c0) w e); try done. destruct (decide _).
    - destruct Hu as (U1 & U2 & U3). split; [|apply Q].
      split; [exact (eq_trans (qs_handlers _ _ Q) U1)|].
      split; [exact (eq_trans (qs_options _ _ Q) U2)|]. simpl. by apply (quiet_chan_ok (channel e)).
    - by apply Hd. }
  rewrite Hes. destruct (performs_quiet now io e es _ Hquiet Hst) as (P1 & P2 & P3 & P4).
  split; [done|]. split; [|by etrans; [apply (same_silently w (stored ref (e_ws e) (f c0) w))|]].
  intros Hl. apply (live_stored ref (f c0) w e); try done; [apply Q|]. unfold failed. by rewrite Hes.
Qed.

(** ** A message *)

Lemma registered_ok ref c w e d :
  wiring_ok w -> heap w !! ref = Some e -> channels w !! e_ws e = Some ref ->
  in_use (e <| channel := c |>) -> authenticatedDevice c = Some d ->
  let socket := {| s_ws := e_ws e; connectionId := e_connectionId e; device := d; s_transport := e_metadata e |} in
  let w1 := stored ref (e_ws e) c w in
  wiring_ok (emit (Authenticated socket)
    (w1 <| authenticatedSockets := <[e_ws e := socket]> (authenticatedSockets w1) |>)).
Proof.
  intros [W1 W2 W3 W4 W5 W6 W7] He Hch Hu Hdev socket w1.
  assert (Hne : forall i v, i ≠ e_ws e -> view_step i v (Authenticated socket) = v).
  { intros i v Hi. simpl. apply Nat.eqb_neq in Hi. by rewrite Nat.eqb_sym, Hi. }
  assert (Heq : forall v, view_step (e_ws e) v (Authenticated socket) = Some socket).
  { intros v. simpl. by rewrite Nat.eqb_refl. }
  assert (Hso : socket_of (e <| channel := emptied c |>) = Some socket) by (unfold socket_of; simpl; by rewrite Hdev).
  split.
  - intros ref' e' He'. destruct (stored_lookup ref (e_ws e) c w e _ _ He He') as [[-> ->]|[Hn He1]]; [|by apply W1].
    split; [done|]. simpl. rewrite decide_True by done. by apply in_use_emptied.
  - intros ws ref' Hr. simpl in Hr. destruct (W2 ws ref' Hr) as (e' & A & B & C & D).
    change (log (emit ?x ?y)) with (log y ++ [x]). rewrite view_snoc.
    destruct (decide (ws = e_ws e)) as [->|Hn].
    + assert (ref' = ref) as -> by congruence. exists (e <| channel := emptied c |>).
      split; [simpl; by rewrite list_lookup_alter_eq, He|]. split; [done|]. rewrite Heq, Hso. split; [done|].
      intros s [= <-]. apply jm_lookup_insert_eq.
    + exists e'. split; [simpl; rewrite list_lookup_alter_ne; [done|intros ->; congruence]|].
      split; [done|]. rewrite Hne by done. split; [done|]. intros s Hs. simpl.
      rewrite jm_lookup_insert. rewrite decide_False by congruence. by apply D.
  - intros ws Hn. simpl in Hn. change (log (emit ?x ?y)) with (log y ++ [x]). rewrite view_snoc, Hne; [by apply W3|congruence].
  - intros ws s. simpl. rewrite jm_lookup_insert. case_decide as Hd; [by intros [= <-]|apply W4].
  - intros ws. simpl. rewrite jm_lookup_insert. case_decide as Hd; [|apply W5].
    intros _. apply W5. left. rewrite <-Hd. by exists ref.
  - simpl. by apply jm_wf_insert.
  - by apply dispatched_snoc.
Qed.

(** What an authentication writes to the registry. *)
Definition seen_only (r r' : Registry) : Prop :=
  exists now io id, r' = (updateLastSeen_value now io id r).1.

(** The effects of a step, and who it authenticated. *)
Definition authenticates (P : AuthenticatedMobileSocket -> Prop) w w' : Prop :=
  (registry w' = registry w \/ seen_only (registry w) (registry w')) /\
  exists es, log w' = log w ++ es /\ forall s, Authenticated s ∈ es -> P s.

Lemma silently_authenticates P w w' : silently w w' -> authenticates P w w'.
Proof.
  intros [E (es & El & Hes)]. split; [by left|]. exists es. split; [done|]. intros s Hs.
  rewrite Forall_forall in Hes. by apply Hes in Hs.
Qed.

Lemma authenticates_silently P w1 w2 w3 : authenticates P w1 w2 -> silently w2 w3 -> authenticates P w1 w3.
Proof.
  intros [A (es1 & B & C)] [D (es2 & E & F)]. split; [by rewrite D|]. exists (es1 ++ es2).
  rewrite E, B, app_assoc. split; [done|]. intros s [?|Hs]%elem_of_app; [auto|].
  rewrite Forall_forall in F. by apply F in Hs.
Qed.

Lemma silently_first P w1 w2 w3 : silently w1 w2 -> authenticates P w2 w3 -> authenticates P w1 w3.
Proof.
  intros [D (es2 & E & F)] [A (es1 & B & C)]. rewrite D in A. split; [done|]. exists (es2 ++ es1).
  rewrite B, E, app_assoc. split; [done|]. intros s [Hs|?]%elem_of_app; [|auto].
  rewrite Forall_forall in F. by apply F in Hs.
Qed.

Lemma onReady_ok now io ref c w e d :
  wiring_ok w -> heap w !! ref = Some e -> channels w !! e_ws e = Some ref ->
  in_use (e <| channel := c |>) -> authenticatedDevice c = Some d ->
  let w1 := stored ref (e_ws e) c w in
  let w' := onReady now io e d w1 in
  wiring_ok w' /\ drops w1 w' /\
  authenticates (fun s => s = {| s_ws := e_ws e; connectionId := e_connectionId e; device := d;
                                 s_transport := e_metadata e |}) w w'.
Proof.
  intros Hw He Hch Hu Hdev w1. cbn zeta. pose proof (registered_ok ref c w e d Hw He Hch Hu Hdev) as Hok.
  cbn zeta in Hok. fold w1 in Hok. unfold onReady. set (socket := {| s_ws := _ |}) in *.
  set (wA := emit (Authenticated socket) _) in *.
  assert (HA : authenticates (fun s => s = socket) w wA).
  { split; [by left|]. exists [Authenticated socket]. split; [done|].
    intros s Hs%list_elem_of_singleton. by injection Hs. }
  assert (HdA : drops w1 wA) by (by apply drops_same).
  set (wB := emit (SetClientId (e_ws e) (deviceToken d)) wA).
  assert (HokB : wiring_ok wB) by (by apply wiring_emit_ok).
  assert (HB : authenticates (fun s => s = socket) w wB)
    by (eapply authenticates_silently; [exact HA|by apply emit_silently]).
  destruct (updateLastSeen_value now io (deviceId d) (registry wB)) as [r saved] eqn:Hs.
  set (wC := wB <| registry := r |>).
  assert (HokC : wiring_ok wC) by (by apply (wiring_same wB)).
  assert (HC : authenticates (fun s => s = socket) w wC).
  { destruct HB as [_ Hl]. split; [|exact Hl]. right. exists now, io, (deviceId d).
    change (registry wC) with r. change (registry w) with (registry wB). by rewrite Hs. }
  destruct saved.
  - split; [by apply wiring_emit_ok|]. split; [by apply drops_same|].
    eapply authenticates_silently; [exact HC|by apply emit_silently].
  - split; [done|]. split; [by apply drops_same|done].
Qed.

(** The evidence for an authentication, in the state the message finds. *)
Definition evidence w (raw : Raw) (e : Entry) (r : Registry) (s : AuthenticatedMobileSocket) : Prop :=
  s_ws s = e_ws e /\ connectionId s = e_connectionId e /\ s_transport s = e_metadata e /\
  presents (resolveAuthenticatedDevice (e_metadata e) r) (in_world (e_ws e) w (channel e)) raw (device s).

Lemma message_in_use shown c c' e :
  message_step shown c c' -> in_use (e <| channel := c |>) -> in_use (e <| channel := c' |>).
Proof.
  intros [M1 M2 M3 _ _] (A & B & C). split; [exact (eq_trans M2 A)|].
  split; [exact (eq_trans M1 B)|]. by apply M3.
Qed.

Lemma enter_message now io ref raw w e :
  wiring_ok w -> heap w !! ref = Some e -> channels w !! e_ws e = Some ref ->
  let w' := enter now io ref
    (E2eeChannel.handleRawMessage (resolveAuthenticatedDevice (e_metadata e) (registry w))
       (ready_throws now io (registry w)) raw) w in
  wiring_ok w' /\ (live_ok w -> live_ok w') /\ authenticates (evidence w raw e (registry w)) w w'.
Proof.
  intros Hw He Hch. cbn zeta. rewrite (enter_stored _ _ _ _ _ _ He). cbn zeta.
  set (c0 := in_world (e_ws e) w (channel e)).
  destruct (in_world_link (e_ws e) w (channel e)) as [Eo Qw]. fold c0 in Eo, Qw.
  destruct (w_heap _ Hw ref e He) as [Ho Hu]. rewrite decide_True in Hu by done.
  set (f := E2eeChannel.handleRawMessage _ _ raw).
  pose proof (handleRawMessage_message (resolveAuthenticatedDevice (e_metadata e) (registry w))
    (ready_throws now io (registry w)) raw c0) as M. fold f in M. set (c := f c0) in *.
  assert (Hu0 : in_use (e <| channel := c0 |>)).
  { destruct Hu as (A & B & C). split; [exact (eq_trans (qs_handlers _ _ Qw) A)|].
    split; [exact (eq_trans (qs_options _ _ Qw) B)|]. by apply (quiet_chan_ok (channel e)). }
  pose proof (message_in_use _ _ _ e M Hu0) as Hu1.
  assert (Hlive : live_ok w -> forall w', drops (stored ref (e_ws e) c w) w' ->
            (failed (link c) -> channels w' !! e_ws e = None) -> live_ok w').
  { intros Hl w' Hd Hf. apply (live_stored ref c w e); try done. intros Hc. apply M, Qw, Hc. }
  assert (Hsl : silently w (stored ref (e_ws e) c w)) by (by apply same_silently).
  destruct (ms_outcome _ _ _ M) as [es Ho' Hes Hst Hdev|d es Hshown Hst Hst' Hdev Ho' Hes|x es Hst Hst' Hdev Ho' Hes Hx];
    rewrite Eo, Ho in Ho'; simpl in Ho'; rewrite Ho'.
  - assert (Hok : wiring_ok (stored ref (e_ws e) c w)).
    { apply (store_ok ref c w e); try done. rewrite decide_True by done. split; [done|].
      rewrite Hdev. apply Qw. }
    destruct (performs_quiet now io e es _ Hes Hok) as (P1 & P2 & P3 & P4).
    split; [done|]. split; [|apply silently_authenticates; by etrans].
    intros Hl. apply (Hlive Hl); [done|]. unfold failed. by rewrite Ho'.
  - destruct (onReady_ok now io ref c w e d Hw He Hch Hu1 Hdev) as (R1 & R2 & R3). cbn zeta in R1, R2, R3.
    simpl foldl. destruct (performs_quiet now io e es _ Hes R1) as (P1 & P2 & P3 & P4).
    split; [exact P1|]. split.
    + intros Hl. apply (Hlive Hl); [by etrans|]. unfold failed. rewrite Ho'.
      intros [[]|Hex]%Exists_cons. by apply P4.
    + eapply authenticates_silently; [|exact P3]. destruct R3 as [R3 (es' & R4 & R5)]. split; [exact R3|].
      exists es'. split; [exact R4|]. intros s Hs. rewrite (R5 s Hs). by split.
  - assert (Hok : wiring_ok (stored ref (e_ws e) c w)).
    { apply (store_ok ref c w e); try done. rewrite decide_True by done. split; [done|].
      rewrite Hdev. apply Qw. }
    simpl foldl. set (w1 := stored ref (e_ws e) c w) in *.
    assert (Hx1 : wiring_ok (perform now io e x w1) /\ drops w1 (perform now io e x w1) /\
                  silently w1 (perform now io e x w1)).
    { assert (Hserve : forall s y, authenticatedSockets w1 !! e_ws e = Some s -> served y = Some s ->
                (forall i v, view_step i v y = v) -> silent y -> wiring_ok (emit y w1) /\ drops w1 (emit y w1) /\ silently w1 (emit y w1)).
      { intros s y Hs Hy Hv Hsi. split; [|split; [by apply drops_same|by apply emit_silently]].
        apply wiring_emit_ok; [done| |done]. intros s' Hs'. assert (s' = s) as -> by congruence.
        destruct (w_channels _ Hok (e_ws e) ref Hch) as (e1 & A & B & C & D).
        rewrite (w_sockets _ Hok _ _ Hs), C. destruct (socket_of e1) as [s1|] eqn:Hs1.
        - specialize (D s1 eq_refl). congruence.
        - exfalso. destruct (stored_lookup _ _ _ _ _ _ _ He A) as [[_ ->]|[? _]]; [|done].
          unfold socket_of in Hs1. simpl in Hs1.
          destruct Hu1 as (_ & _ & Hc1). destruct (proj2 (ch_device _ Hc1) Hst') as [d Hd]. simpl in Hd.
          rewrite Hd in Hs1. done. }
      destruct x; try done; simpl.
      - destruct (authenticatedSockets w !! e_ws e) as [s|] eqn:Hs; [by apply (Hserve s)|done].
      - destruct (authenticatedSockets w !! e_ws e) as [s|] eqn:Hs; [by apply (Hserve s)|done]. }
    destruct Hx1 as (X1 & X2 & X3). destruct (performs_quiet now io e es _ Hes X1) as (P1 & P2 & P3 & P4).
    split; [done|]. split.
    + intros Hl. apply (Hlive Hl); [by etrans|]. unfold failed. rewrite Ho'.
      intros [?|Hex]%Exists_cons; [by destruct x|by apply P4].
    + apply silently_authenticates. etrans; [exact Hsl|]. by etrans.
Qed.

(** ** The other events *)

Lemma new_channel_in_use ws id metadata k :
  sharedKey k = None -> v2Session k = None ->
  in_use {| e_ws := ws; e_connectionId := id; e_metadata := metadata;
            channel := new_channel (channel_options metadata) k |}.
Proof.
  intros Hk Hs. split; [done|]. split; [done|]. split; simpl; rewrite ?Hk, ?Hs; done.
Qed.

Lemma open_channel_ok ws metadata w :
  wiring_ok w ->
  let '(w1, ref) := open_channel ws metadata w in
  wiring_ok w1 /\ (live_ok w -> live_ok w1) /\ silently w w1 /\
  exists e, heap w1 !! ref = Some e /\ channels w1 !! ws = Some ref /\ e_ws e = ws /\
    (w1 = w \/ state (channel e) = AwaitingHello).
Proof.
  intros Hw. unfold open_channel. destruct (channels w !! ws) as [ref|] eqn:Hc.
  { repeat (split; [done|]). destruct (w_channels _ Hw ws ref Hc) as (e & A & B & _). exists e. by repeat (split; [done|]); left. }
  set (e := {| e_ws := ws |}). set (w1 := _ <| channels := _ |>). pose proof Hw as [W1 W2 W3 W4 W5 W6 W7].
  assert (Hl : forall ref e', heap w1 !! ref = Some e' ->
            heap w !! ref = Some e' /\ ref ≠ length (heap w) \/ ref = length (heap w) /\ e' = e).
  { intros ref e' He'. simpl in He'. apply lookup_app_Some in He' as [He'|[Hge He']].
    - left. split; [done|]. apply lookup_lt_Some in He'. lia.
    - destruct (ref - length (heap w))%nat eqn:Ed; [|done]. injection He' as <-. right. split; [lia|done]. }
  assert (Hnew : heap w1 !! length (heap w) = Some e) by (simpl; by apply list_lookup_middle).
  assert (Hch : forall i, channels w1 !! i = if decide (ws = i) then Some (length (heap w)) else channels w !! i)
    by (intros i; apply jm_lookup_insert).
  split; [|split; [|split; [by apply same_silently|]]].
  - split; try done.
    + intros ref e' [[He' Hn]|[-> ->]]%Hl.
      * destruct (W1 ref e' He') as [Ho Hu]. split; [done|]. rewrite Hch.
        destruct (decide (ws = e_ws e')) as [Heq|Hne]; [|done].
        rewrite decide_False by congruence. rewrite <-Heq, Hc in Hu. done.
      * split; [done|]. assert (channels w1 !! e_ws e = Some (length (heap w))) as -> by (rewrite Hch; simpl; by case_decide).
        rewrite decide_True by done. by apply new_channel_in_use.
    + intros i ref. rewrite Hch. destruct (decide (ws = i)) as [<-|Hne].
      * intros [= <-]. exists e. split; [done|]. split; [done|]. split; [|done]. by apply W3.
      * intros Hi. destruct (W2 i ref Hi) as (e' & A & B & C & D). exists e'. split; [|done].
        simpl. by apply lookup_app_l_Some.
    + intros i. rewrite Hch. destruct (decide (ws = i)); [done|]. apply W3.
    + intros i. rewrite Hch. change (connectionIds w1) with (<[ws:=randomConnectionId (random_draws w)]> (connectionIds w)).
      rewrite jm_lookup_insert. destruct (decide (ws = i)); [done|apply W5].
  - intros Hlv i ref e'. rewrite Hch. destruct (decide (ws = i)) as [<-|Hne].
    + intros [= <-] He'. rewrite Hnew in He'. injection He' as <-. left. split; [simpl; unfold MAX_CONSECUTIVE_DECRYPT_FAILURES; lia|done].
    + intros Hi [[He' _]|[-> ->]]%Hl; [by apply (Hlv i ref)|].
      destruct (W2 i _ Hi) as (e1 & A & _). apply lookup_lt_Some in A. lia.
  - exists e. split; [done|]. split; [|by split; [|right]]. rewrite Hch. by rewrite decide_True.
Qed.

Lemma wiring_close_ok ws w :
  wiring_ok w -> wiring_ok (handleClose ws w) /\ (live_ok w -> live_ok (handleClose ws w)) /\ silently w (handleClose ws w).
Proof.
  intros Hw. unfold handleClose. set (w0 := w <| authenticatedSockets := _ |>).
  set (x := OnClose ws _ _). set (w1 := drop_channel ws w0).
  assert (Hw1 : wiring_ok (emit x (drop_channel ws w))).
  { apply drop_ok; [|intros i v Hi|done|done]; simpl; [intros v; by rewrite Nat.eqb_refl|].
    apply Nat.eqb_neq in Hi. by rewrite Nat.eqb_sym, Hi. }
  assert (E : heap w1 = heap (drop_channel ws w) /\ channels w1 = channels (drop_channel ws w) /\
              connectionIds w1 = connectionIds w /\ log w1 = log w /\ registry w1 = registry w /\
              authenticatedSockets w1 = delete ws (authenticatedSockets w) /\
              authenticatedSockets (drop_channel ws w) = authenticatedSockets w /\
              connectionIds (drop_channel ws w) = connectionIds w /\ log (drop_channel ws w) = log w /\
              channels (drop_channel ws w) = delete ws (channels w) /\
              heap (drop_channel ws w) =
                match channels w !! ws with
                | Some r => alter (fun e => e <| channel := destroy (channel e) |>) r (heap w)
                | None => heap w
                end).
  { unfold w1, drop_channel. change (channels w0) with (channels w). by destruct (channels w !! ws). }
  destruct E as (E1 & E2 & E3 & E4 & E5 & E6 & E7 & E8 & E9 & E10 & E11).
  assert (Hsil : silent x) by done. clearbody x w1. revert Hw1 E1 E2 E7 E8 E9 E10 E11.
  generalize (drop_channel ws w). intros wd Hw1 E1 E2 E7 E8 E9 E10 E11. destruct Hw1 as [W1 W2 W3 W4 W5 W6 W7]. simpl in W1, W2, W3, W4, W5, W6, W7.
  split; [|split].
  - split; simpl; rewrite ?E1, ?E2, ?E4, ?E6, <-?E9; try done.
    + intros i ref Hc. destruct (W2 i ref Hc) as (e & A & B & C & D). exists e. split; [done|]. split; [done|].
      split; [done|]. intros s Hs. rewrite jm_lookup_delete. rewrite E10, jm_lookup_delete in Hc.
      destruct (decide (ws = i)); [done|]. rewrite <-E7. by apply D.
    + intros i s. rewrite jm_lookup_delete. destruct (decide (ws = i)); [done|]. rewrite <-E7. apply W4.
    + intros i. rewrite E3, !jm_lookup_delete, E10, jm_lookup_delete. destruct (decide (ws = i)) as [|Hn].
      * by intros [[? ?]|[? ?]].
      * intros Hi. rewrite <-E8. apply W5. by rewrite E10, jm_lookup_delete, decide_False, E7 by done.
    + rewrite E7 in W6. by apply jm_wf_delete.
  - intros Hl i ref e Hc He. simpl in Hc, He. rewrite E2, E10, jm_lookup_delete in Hc. rewrite E1 in He.
    destruct (decide (ws = i)) as [|Hn]; [done|]. apply (Hl i ref e Hc).
    rewrite E11 in He. destruct (channels w !! ws) as [r|] eqn:Hr; [|done].
    destruct (decide (r = ref)) as [->|Hn']; [|by rewrite list_lookup_alter_ne in He].
    destruct (w_channels _ Hw ws ref Hr) as (e1 & ? & ? & _), (w_channels _ Hw i ref Hc) as (e2 & ? & ? & _). congruence.
  - etrans; [|by apply emit_silently]. apply same_silently; simpl; congruence.
Qed.

(** ** Steps and runs *)

Context (registry_parse : string -> option json).

(** The calls of timers and of the closures a handler keeps. *)
Inductive timer_or_reply : (E2EEChannel -> E2EEChannel) -> Prop :=
  | is_handshake_timeout : timer_or_reply handshake_timeout
  | is_text_timer id : timer_or_reply (text_queue_timer id)
  | is_v2_timer id : timer_or_reply (v2_queue_timer id)
  | is_reply s : timer_or_reply (encryptedReply s)
  | is_binary_reply b : timer_or_reply (fun c => (encryptedBinaryReply b c).1)
  | is_v2_reply i : timer_or_reply (v2Reply i).

Lemma timer_or_reply_quiet f c : timer_or_reply f -> quiet_step c (f c).
Proof.
  intros [].
  - apply handshake_timeout_quiet.
  - apply text_queue_timer_quiet.
  - apply v2_queue_timer_quiet.
  - apply encryptedReply_quiet.
  - apply encryptedBinaryReply_quiet.
  - apply enqueueV2_quiet.
Qed.

(** A destroyed channel answers none of them. *)
Lemma dead_inert f c : timer_or_reply f -> dead c -> f c = c.
Proof.
  intros Hf (D1 & D2 & D3 & D4 & D5 & D6 & D7). destruct Hf.
  - unfold handshake_timeout. by rewrite D2.
  - unfold text_queue_timer. by rewrite D5.
  - unfold v2_queue_timer. by rewrite D6.
  - unfold encryptedReply. by rewrite D3.
  - unfold encryptedBinaryReply. by rewrite D3.
  - unfold v2Reply, enqueueV2. by rewrite D4.
Qed.

(** What a step may authenticate, and what becomes of the registry. *)
Definition step_evidence w (x : Event) (s : AuthenticatedMobileSocket) : Prop :=
  match x with
  | Message _ _ ws _ raw =>
      exists ref e, channels w !! ws = Some ref /\ heap w !! ref = Some e /\ in_use e /\ e_ws e = ws /\
        evidence w raw e (registry w) s
  | _ => False
  end.
Definition registry_step w (x : Event) (r : Registry) : Prop :=
  match x with
  | RegistryCall e => r = DeviceRegistry.step registry_parse (registry w) e
  | _ => r = registry w \/ seen_only (registry w) r
  end.

Record stepped w (x : Event) w' : Prop := {
  st_ok : wiring_ok w';
  st_live : live_ok w -> live_ok w';
  st_registry : registry_step w x (registry w');
  st_log : exists es, log w' = log w ++ es /\ forall s, Authenticated s ∈ es -> step_evidence w x s }.

Lemma silent_stepped w x w' :
  wiring_ok w' -> (live_ok w -> live_ok w') -> silently w w' ->
  match x with RegistryCall _ => False | _ => True end -> stepped w x w'.
Proof.
  intros Hw Hl Hs Hx. split; [done|done| |].
  - destruct Hs as [E _]. destruct x; try done; by left.
  - destruct (silently_authenticates (step_evidence w x) w w' Hs) as [_ Hes]. exact Hes.
Qed.

Lemma step_ok w x : wiring_ok w -> stepped w x (step registry_parse w x).
Proof.
  intros Hw.
  assert (Hquiet : forall ref f, timer_or_reply f ->
            match x with RegistryCall _ => False | _ => True end -> stepped w x (enter 0 true ref f w)).
  { intros ref f Hf Hx. destruct (enter_quiet 0 true ref f w) as (P1 & P2 & P3); [|..|by apply silent_stepped].
    - intros c. by apply timer_or_reply_quiet.
    - intros c Hc. by rewrite dead_inert.
    - done. }
  destruct x; simpl.
  - unfold handleRawMessage. pose proof (open_channel_ok ws metadata w Hw) as Ho.
    destruct (open_channel ws metadata w) as [w1 ref]. destruct Ho as (O1 & O2 & O3 & e & O4 & O5 & O6 & O7).
    rewrite O4. destruct (enter_message now io ref raw w1 e O1 O4) as (M1 & M2 & M3); [congruence|].
    set (w' := enter _ _ _ _ _) in *.
    destruct (silently_first _ w w1 w' O3 M3) as [R (es & L1 & L2)].
    split; [done|auto|exact R|]. exists es. split; [done|]. intros s Hs. specialize (L2 s Hs).
    destruct (w_heap _ O1 ref e O4) as [_ Hu]. rewrite decide_True in Hu by congruence.
    destruct O7 as [->|Hnew]; [by exists ref, e|].
    destruct L2 as (_ & _ & _ & plaintext & auth & Ha & _). simpl in Ha. congruence.
  - destruct (wiring_close_ok ws w Hw) as (P1 & P2 & P3). by apply silent_stepped.
  - apply Hquiet; [constructor|done].
  - apply Hquiet; [constructor|done].
  - apply Hquiet; [constructor|done].
  - apply Hquiet; [constructor|done].
  - apply (Hquiet ref (fun c => (encryptedBinaryReply response c).1)); [constructor|done].
  - apply Hquiet; [constructor|done].
  - apply silent_stepped; [by apply (wiring_same w)|done|by apply same_silently|done].
  - split; [by apply (wiring_same w)|done|done|]. exists []. rewrite app_nil_r. split; [done|]. by intros s ?%elem_of_nil.
  - assert (Ht : forall l w, wiring_ok w ->
              let w' := foldl (fun w t => emit (TerminateClients t token) w) w l in
              wiring_ok w' /\ (live_ok w -> live_ok w') /\ silently w w').
    { intros l. induction l as [|t l IH]; intros w0 Hw0; simpl; [done|].
      destruct (IH (emit (TerminateClients t token) w0)) as (P1 & P2 & P3); [by apply wiring_emit_ok|].
      split; [done|]. split; [auto|]. etrans; [by apply (emit_silently (TerminateClients t token))|done]. }
    destruct (Ht (transports w) w Hw) as (P1 & P2 & P3). by apply silent_stepped.
  - unfold attachTransport. destruct (bool_decide _); apply silent_stepped; try done; [by apply (wiring_same w)|by apply same_silently].
  - apply silent_stepped; [by apply (wiring_same w)|done|by apply same_silently|done].
Qed.

Lemma new_wiring_ok r : wiring_ok (new_wiring r) /\ live_ok (new_wiring r).
Proof.
  split; [|by intros ws ref e]. split; try done.
  - intros ws. by intros [[? ?]|[? ?]].
  - apply jm_wf_empty.
  - intros before x after s Heq. by destruct before.
Qed.

Lemma run_ok r es : wiring_ok (run_from registry_parse (new_wiring r) es) /\ live_ok (run_from registry_parse (new_wiring r) es).
Proof.
  induction es as [|x es [IH1 IH2]] using rev_ind; [apply new_wiring_ok|].
  unfold run_from in *. rewrite foldl_app. simpl. destruct (step_ok _ x IH1) as [S1 S2 _ _]. auto.
Qed.

Lemma run_from_app w es es' :
  run_from registry_parse w (es ++ es') = run_from registry_parse (run_from registry_parse w es) es'.
Proof. unfold run_from. by rewrite foldl_app. Qed.

(** ** Theorems *)

Abbreviation served_run r es := (run_from registry_parse (new_wiring r) es).

(** C27. Only authenticated sockets are served. In every run a message is handed
    to the RPC handler only for the socket that was authenticated last on that
    WebSocket, and since then neither the wiring nor the peer has closed it. *)
Theorem only_authenticated_served r es before x after s :
  log (served_run r es) = before ++ x :: after -> served x = Some s -> view (s_ws s) before = Some s.
Proof. intros Hl. destruct (run_ok r es) as [Hw _]. exact (w_dispatch _ Hw before x after s Hl). Qed.

(** A message that proves the identity of [s], to the channel the wiring holds for its
    socket at that moment. *)
Definition authentic w (raw : Raw) (s : AuthenticatedMobileSocket) : Prop :=
  exists ref e plaintext auth entry,
    channels w !! s_ws s = Some ref /\ heap w !! ref = Some e /\
    e_ws e = s_ws s /\ e_connectionId e = connectionId s /\ e_metadata e = s_transport s /\
    let c := channel e in
    state c = AwaitingAuth /\ opens c raw plaintext /\ JSON_parse plaintext = Some auth /\
    type_is "e2ee_auth" auth = true /\ truthy (prop "deviceToken" auth) = true /\
    validateToken_value (prop "deviceToken" auth) (registry w) = Some entry /\
    device s = toAuthenticatedDevice entry /\
    strict_eq (deviceToken (device s)) (prop "deviceToken" auth) = true /\
    match s_transport s with
    | RelaySocket hostId relayDeviceId _ _ =>
        get "deviceId" entry = Some (JStr relayDeviceId) /\ sharedKey (link c) = None /\
        exists session, v2Session (link c) = Some session /\
          session_for {| transport := relay; relayHostId := Some hostId; requireV2 := true |} session
    | DirectSocket => True
    end.

Lemma step_authentic w x s :
  step_evidence w x s ->
  exists now io metadata raw, x = Message now io (s_ws s) metadata raw /\ authentic w raw s.
Proof.
  destruct x; try done. intros (ref & e & Hch & He & (U1 & U2 & U3) & Hws & Hs & Hci & Ht & Hp).
  assert (ws = s_ws s) as -> by congruence. eexists _, _, _, _. split; [done|].
  destruct Hp as (plaintext & auth & P1 & P2 & P3 & P4 & P5 & P6 & P7).
  unfold resolveAuthenticatedDevice in P6.
  destruct (validateToken_value (prop "deviceToken" auth) (registry w)) as [entry|] eqn:Hv; [|done].
  exists ref, e, plaintext, auth, entry. do 5 (split; [done|]). cbn zeta. do 6 (split; [done|]).
  rewrite Ht. rename U3 into Hc. destruct (e_metadata e) as [|hostId relayDeviceId basis kind] eqn:Hm.
  - injection P6 as Hd. done.
  - destruct (strict_eq (Some (JStr relayDeviceId)) (get "deviceId" entry)) eqn:Hid; [|done]. injection P6 as Hd.
    split; [done|]. split; [done|]. split.
    { destruct (get "deviceId" entry) as [[]|]; try done. simpl in Hid. by apply String.eqb_eq in Hid as ->. }
    assert (Ho : options (channel e) = {| transport := relay; relayHostId := Some hostId; requireV2 := true |}) by exact U2.
    assert (Hk : sharedKey (link (channel e)) = None) by (apply (ch_v2 _ Hc); by rewrite Ho). split; [done|].
    destruct raw; [|done]. destruct P2 as [(session & session' & Hse & _)|(_ & key & Hk' & _)];
      [|simpl in Hk'; congruence].
    exists session. split; [done|]. rewrite <-Ho. by apply (ch_session _ Hc).
Qed.

(** C26. A socket is authenticated only by a message of that socket that decrypts on the
    channel the wiring holds for it, which was waiting for a token, and
    presents the token of a device the registry holds at that moment. On a relay
    socket that device is the one the relay announced, and the channel is a v2
    session bound to this relay host; a legacy key never authenticates it. *)
Theorem authentication_needs_token r es s :
  Authenticated s ∈ log (served_run r es) ->
  exists es1 now io metadata raw es2,
    es = es1 ++ Message now io (s_ws s) metadata raw :: es2 /\ authentic (served_run r es1) raw s.
Proof.
  induction es as [|x es IH] using rev_ind; [by intros ?%elem_of_nil|].
  rewrite run_from_app. destruct (run_ok r es) as [Hw _]. destruct (step_ok _ x Hw) as [_ _ _ (new & Hl & Hn)].
  intros Hin. change (run_from registry_parse ?w [x]) with (step registry_parse w x) in Hin.
  rewrite Hl in Hin. apply elem_of_app in Hin as [Hin|Hin].
  - destruct (IH Hin) as (es1 & now & io & md & raw & es2 & -> & Ha).
    exists es1, now, io, md, raw, (es2 ++ [x]). split; [by rewrite <-app_assoc|done].
  - destruct (step_authentic _ _ _ (Hn s Hin)) as (now & io & md & raw & -> & Ha).
    by exists es, now, io, md, raw, [].
Qed.

(** ** Revocation *)













(** ** What is left when a socket closes, and the bounds of a waiting channel *)

Lemma handleClose_fields ws w :
  channels (handleClose ws w) = delete ws (channels w) /\
  authenticatedSockets (handleClose ws w) = delete ws (authenticatedSockets w) /\
  connectionIds (handleClose ws w) = delete ws (connectionIds w) /\
  log (handleClose ws w) = log w ++ [OnClose ws (authenticatedSockets w !! ws)
    match authenticatedSockets w !! ws with
    | Some s => existsb (fun s' => strict_eq (deviceToken (device s')) (deviceToken (device s)))
                  (jm_values (delete ws (authenticatedSockets w)))
    | None => false
    end].
Proof. unfold handleClose, drop_channel. simpl. by destruct (channels w !! ws). Qed.

(** A closed socket leaves nothing behind. The wiring forgets it, every channel it
    ever had is dead, so that later timers and replies of those channels change nothing,
    and the close handler hears which device it stood for and whether another
    authenticated socket of the same token remains. *)
Theorem closed_socket_released r es ws :
  let w := served_run r es in
  let w' := served_run r (es ++ [ConnectionClose ws]) in
  channels w' !! ws = None /\ authenticatedSockets w' !! ws = None /\ connectionIds w' !! ws = None /\
  (forall ref e f, heap w' !! ref = Some e -> e_ws e = ws -> timer_or_reply f ->
     f (channel e) = channel e) /\
  exists others, log w' = log w ++ [OnClose ws (authenticatedSockets w !! ws) others] /\
    (others = true <-> exists i s s', i ≠ ws /\ authenticatedSockets w !! ws = Some s /\
       authenticatedSockets w !! i = Some s' /\
       strict_eq (deviceToken (device s')) (deviceToken (device s)) = true).
Proof.
  intros w w'. destruct (run_ok r es) as [Hw _], (run_ok r (es ++ [ConnectionClose ws])) as [Hw' _].
  fold w in Hw. fold w' in Hw'.
  assert (E : w' = handleClose ws w) by (unfold w'; by rewrite run_from_app).
  destruct (handleClose_fields ws w) as (C1 & C2 & C3 & C4). rewrite <-E in C1, C2, C3, C4.
  rewrite C1, C2, C3, !jm_lookup_delete, !decide_True by done. do 3 (split; [done|]). split.
  - intros ref e f Hl He Hf. apply dead_inert; [done|]. destruct (w_heap _ Hw' ref e Hl) as [_ Hd].
    rewrite decide_False in Hd; [done|]. by rewrite He, C1, jm_lookup_delete, decide_True.
  - eexists. split; [exact C4|]. destruct (authenticatedSockets w !! ws) as [s|] eqn:Hs; [|naive_solver].
    rewrite existsb_exists. split.
    + intros (s' & Hin%list_elem_of_In & Heq). apply list_elem_of_fmap in Hin as ([i s''] & -> & Hin).
      apply jm_elem_lookup in Hin; [|by apply jm_wf_delete, w_wf]. rewrite jm_lookup_delete in Hin.
      destruct (decide (ws = i)); [done|]. by exists i, s, s''.
    + intros (i & ? & s' & Hi & [= <-] & Hl & Heq). exists s'. split; [|done]. apply list_elem_of_In.
      apply (jm_lookup_values _ i). by rewrite jm_lookup_delete, decide_False.
Qed.

Lemma onError_fields ws closeCode reason w :
  channels (onError ws closeCode reason w) = delete ws (channels w) /\
  log (onError ws closeCode reason w) = log w ++ [SocketClose ws closeCode reason].
Proof. unfold onError, drop_channel. simpl. by destruct (channels w !! ws). Qed.

(** A peer that has not authenticated holds a socket for a bounded time and a bounded
    number of attempts. A channel in use waits with its deadline armed until it is ready,
    has failed to decrypt fewer than five messages in a row, and its deadline, should it
    fire before then, closes the socket and drops the channel. *)
Theorem unauthenticated_bounded r es ws ref e :
  let w := served_run r es in
  channels w !! ws = Some ref -> heap w !! ref = Some e ->
  (consecutiveFailures (channel e) < MAX_CONSECUTIVE_DECRYPT_FAILURES)%nat /\
  (handshakeTimer (channel e) = true <-> state (channel e) ≠ ChannelReady) /\
  (state (channel e) ≠ ChannelReady ->
     let w' := served_run r (es ++ [HandshakeTimer ref]) in
     channels w' !! ws = None /\
     log w' = log w ++ [SocketClose ws 4002 "E2EE handshake timeout"]).
Proof.
  intros w Hc He. destruct (run_ok r es) as [Hw Hl]. fold w in Hw, Hl.
  destruct (w_channels _ Hw ws ref Hc) as (e' & He' & Hws & _). assert (e' = e) as -> by congruence. clear He'.
  destruct (w_heap _ Hw ref e He) as [Ho Hu]. rewrite decide_True in Hu by congruence.
  destruct (Hl ws ref e Hc He) as [[Hf Ht]|Hfail]; [|unfold failed in Hfail; rewrite Ho in Hfail].
  - split; [done|]. split; [rewrite Ht; case_bool_decide; naive_solver|]. intros Hs. rewrite run_from_app.
    change (run_from registry_parse ?w [?x]) with (step registry_parse w x). fold w. simpl.
    rewrite (enter_stored _ _ _ _ _ _ He). simpl.
    rewrite bool_decide_false in Ht by done. unfold handshake_timeout. simpl. rewrite Ht. simpl.
    rewrite Ho, Hws. cbn [app foldl perform]. rewrite Hws.
    match goal with |- context [onError ws ?c ?m ?w0] => destruct (onError_fields ws c m w0) as [-> ->] end.
    by rewrite jm_lookup_delete, decide_True.
  - by apply Exists_nil in Hfail.
Qed.
End Facts.

(** ** A phone that pairs, is served, is removed and tries again *)

Section Demo.

#[local] Instance demo_runtime : RuntimeEnv :=
  {| JSON_parse := fun s =>
       if String.eqb s "hello"
       then Some (JObj [("type", JStr "e2ee_hello"); ("publicKeyB64", JStr (btoa (replicate 32 2)))])
       else if String.eqb s "auth"
       then Some (JObj [("type", JStr "e2ee_auth"); ("deviceToken", JStr "t1")])
       else if String.eqb s "null" then Some JNull else None;
     RuntimeRpcEnvelopeSchema_safeParse := fun _ => None;
     box_after := fun m n k => replicate 16 0 ++ m;
     box_open_after := fun b n k => Some (drop 16 b);
     buffer_from_base64 := fun s => default [] (atob s);
     textDecode := text_of;
     randomUUID := fun n => "u" |}.
#[local] Instance demo_channel_env : ChannelEnv :=
  {| crypto := demo_crypto; serverSecretKey := replicate 32 1;
     randomBytes := fun _ n => replicate n 0; buffered_after := fun _ b => b |}.
#[local] Instance demo_wiring_env : WiringEnv := {| randomConnectionId := fun n => "c" |}.

Definition demo_registry : Registry := {| devices := []; file := None |}.
Definition demo_sealed (s : string) : Raw := RawText (encrypt (replicate 24 0) s []).
Definition demo_says (ws : nat) : list Event :=
  [Message 2000 true ws DirectSocket (RawText "hello"); Message 2001 true ws DirectSocket (demo_sealed "auth");
   Message 2002 true ws DirectSocket (demo_sealed "status")].
Definition demo_pairs : list Event :=
  RegistryCall (GetOrCreate {| uuid := "a"; token := "t1"; now := 1000 |} true "phone" Mobile) :: demo_says 0.
Definition demo_revoked : list Event :=
  demo_pairs ++ [ConnectionClose 0; RegistryCall (Remove true "a")].
Abbreviation demo_wiring := (run_from (fun _ => None) (new_wiring demo_registry)).

Definition demo_socket : AuthenticatedMobileSocket :=
  {| s_ws := 0; connectionId := "c";
     device := {| deviceId := Some (JStr "a"); deviceToken := Some (JStr "t1"); scope := Some (JStr "mobile") |};
     s_transport := DirectSocket |}.

Example demo_served : js_filter (fun x => match x with SocketSend _ _ => false | _ => true end)
    (log (demo_wiring (demo_revoked ++ demo_says 1))) =
  [Authenticated demo_socket; SetClientId 0 (Some (JStr "t1")); WiringReady demo_socket;
   OnText demo_socket "status"; OnClose 0 (Some demo_socket) false; SocketClose 1 4001 "Unauthorized";
   SocketClose 1 4001 "Invalid handshake message"].
Proof. vm_compute. reflexivity. Qed.

(** An unauthenticated first message [null] throws out of the message listener. *)
Example demo_null : log (demo_wiring [Message 1 true 0 DirectSocket (RawText "null")]) =
  [UncaughtException "Cannot read properties of null (reading 'type')"].
Proof. vm_compute. reflexivity. Qed.

(** A failed write of the registry leaves the phone registered and unanswered. *)
Example demo_unwritten :
  let w := demo_wiring (take 2 demo_pairs ++ [Message 2001 false 0 DirectSocket (demo_sealed "auth")]) in
  authenticatedSockets w !! 0%nat = Some demo_socket /\
  js_filter (fun x => match x with SocketSend _ _ | UncaughtException _ => true | _ => false end) (log w) =
    [SocketSend 0 (RawText (JSON_stringify e2ee_ready)); UncaughtException "write failed"].
Proof. split; vm_compute; reflexivity. Qed.

Lemma only_authenticated_served_witness :
  exists before after,
    log (demo_wiring demo_revoked) = before ++ OnText demo_socket "status" :: after /\
    view 0 before = Some demo_socket.
Proof.
  exists (take 5 (log (demo_wiring demo_revoked))), (drop 6 (log (demo_wiring demo_revoked))).
  assert (Hl : log (demo_wiring demo_revoked) = take 5 (log (demo_wiring demo_revoked)) ++
            OnText demo_socket "status" :: drop 6 (log (demo_wiring demo_revoked))) by (by vm_compute).
  split; [exact Hl|].
  exact (only_authenticated_served _ demo_registry demo_revoked _ _ _ demo_socket Hl eq_refl).
Defined.

Lemma authentication_needs_token_witness :
  exists es1 now io metadata raw es2, demo_revoked = es1 ++ Message now io 0 metadata raw :: es2 /\
    authentic (demo_wiring es1) raw demo_socket.
Proof.
  apply (authentication_needs_token (fun _ => None) demo_registry demo_revoked demo_socket).
  apply (list_elem_of_lookup_2 _ 1). vm_compute. reflexivity.
Defined.


Lemma closed_socket_released_witness :
  channels (demo_wiring (demo_pairs ++ [ConnectionClose 0])) !! 0%nat = None.
Proof. apply (closed_socket_released (fun _ => None) demo_registry demo_pairs 0). Defined.

Lemma unauthenticated_bounded_witness :
  exists e, heap (demo_wiring (take 2 demo_pairs)) !! 0%nat = Some e /\ handshakeTimer (channel e) = true /\
    log (demo_wiring (take 2 demo_pairs ++ [HandshakeTimer 0])) =
      log (demo_wiring (take 2 demo_pairs)) ++ [SocketClose 0 4002 "E2EE handshake timeout"].
Proof.
  assert (Hc : channels (demo_wiring (take 2 demo_pairs)) !! 0%nat = Some 0%nat) by (vm_compute; reflexivity).
  assert (He : exists e, heap (demo_wiring (take 2 demo_pairs)) !! 0%nat = Some e /\ state (channel e) = AwaitingAuth)
    by (eexists; split; vm_compute; reflexivity).
  destruct He as (e & He & Hs). exists e. split; [exact He|].
  destruct (unauthenticated_bounded (fun _ => None) demo_registry (take 2 demo_pairs) 0 0 e Hc He) as (_ & Ht & Hd).
  rewrite Hs in Ht, Hd. split; [by apply Ht|]. apply Hd. discriminate.
Defined.
End Demo.
