(* ===== verification/HostTerminal.v ===== *)
(** * The host gateway's terminal
    (src/pie-mobile/adapter/host-gateway/src/terminal-session.ts)

    One pseudo-terminal with its listeners and a bounded scrollback. Terminal
    output is text as JavaScript holds it, a list of UTF-16 code units; what is
    written to the terminal came from JSON and is UTF-8 bytes. The pty (node-pty)
    is the log of the calls made to it; how a call ended is an input.

    Theorem: the scrollback is the longest-kept end of the output, within its
    bound. *)

From S2P Require Import Prelude Json.

Local Open Scope string_scope.
Local Open Scope list_scope.
Local Open Scope Z_scope.

Definition DEFAULT_COLS : Z := 120.
Definition DEFAULT_ROWS : Z := 34.
Definition MAX_SCROLLBACK_BYTES : Z := 256 * 1024.

(** ** Text *)

Definition is_high (u : Z) : bool := (55296 <=? u) && (u <? 56320).
Definition is_low (u : Z) : bool := (56320 <=? u) && (u <? 57344).

(** [Buffer.byteLength(s, 'utf8')]: a lone surrogate is encoded as U+FFFD. *)
Fixpoint byteLength (s : list Z) : Z :=
  match s with
  | [] => 0
  | u :: s =>
      if u <? 128 then 1 + byteLength s
      else if u <? 2048 then 2 + byteLength s
      else
        match s with
        | v :: s' => if is_high u && is_low v then 4 + byteLength s' else 3 + byteLength s
        | [] => 3
        end
  end.

(** ** Errors of the pty *)

(** [error.code] when the error is an object that has it, and the message. *)
Record PtyError := { pty_code : string; pty_message : list Z }.

Definition units (s : string) : list Z := map (fun c => Z.of_nat (Ascii.nat_of_ascii c)) (String.list_ascii_of_string s).

(** Case folding of [/i] on ASCII: no other code unit folds to one. *)
Definition fold_case (u : Z) : Z := if (97 <=? u) && (u <=? 122) then u - 32 else u.

(** What follows the first occurrence of [pat], ignoring case. *)
Fixpoint strip (pat s : list Z) : option (list Z) :=
  match pat, s with
  | [], _ => Some s
  | p :: pat, u :: s => if fold_case p =? fold_case u then strip pat s else None
  | _ :: _, [] => None
  end.
Fixpoint occurs (pat s : list Z) : bool :=
  match strip pat s, s with
  | Some _, _ => true
  | None, _ :: s => occurs pat s
  | None, [] => false
  end.
Definition line_end (u : Z) : bool := bool_decide (u ∈ [10; 13; 8232; 8233]).
Fixpoint line (s : list Z) : list Z :=
  match s with
  | u :: s => if line_end u then [] else u :: line s
  | [] => []
  end.
(** [pat.*rest]: [.] matches all but a line terminator. *)
Fixpoint occurs_then (pat : list Z) (rest : list Z -> bool) (s : list Z) : bool :=
  match strip pat s with
  | Some s' => rest (line s')
  | None => false
  end ||
  match s with
  | _ :: s => occurs_then pat rest s
  | [] => false
  end.

Definition isClosedTerminalError (error : PtyError) : bool :=
  bool_decide (pty_code error ∈ ["EBADF"; "EIO"; "ENOTTY"]) ||
  (let m := pty_message error in
   occurs (units "EBADF") m || occurs (units "EIO") m || occurs (units "ENOTTY") m ||
   occurs_then (units "process") (fun s => occurs (units "closed") s || occurs (units "exited") s) m ||
   occurs_then (units "pty") (occurs (units "closed")) m).

(** ** The session *)

Inductive PtyCall := PtyWrite (text : string) | PtyResize (cols rows : Z) | PtyKill.

Record TerminalSession := {
  listeners : list nat;
  scrollback : list Z;
  cols : Z;
  rows : Z;
  alive : bool;
  pty : list PtyCall }.
#[export] Instance eta_TerminalSession : Eta TerminalSession :=
  fun x => Build_TerminalSession (listeners x) (scrollback x) (cols x) (rows x) (alive x) (pty x).
Implicit Types t : TerminalSession.

Definition handle : string := "pie-relay-terminal-1".
Definition title : string := "Pie Relay".

Definition new_terminal : TerminalSession :=
  {| listeners := []; scrollback := []; cols := DEFAULT_COLS; rows := DEFAULT_ROWS; alive := true; pty := [] |}.

Definition pty_call (x : PtyCall) t : TerminalSession := t <| pty := pty t ++ [x] |>.

(** How a call of the pty ends. *)
Abbreviation pty_result := (option PtyError).

Definition write (text : string) (outcome : pty_result) t : TerminalSession * pty_result :=
  (pty_call (PtyWrite text) t, outcome).

(** [Math.floor] of a finite number. *)
Definition jsnum_floor (n : jsnum) : Z :=
  match n with NInt z => z | NFrac m e => m / 10 ^ Zpos e | NInf _ => 0 end.

Definition resize (c r : jsnum) (outcome : pty_result) t : TerminalSession * pty_result :=
  let nextCols := Z.max 20 (Z.min 240 (jsnum_floor c)) in
  let nextRows := Z.max 8 (Z.min 120 (jsnum_floor r)) in
  if (nextCols =? cols t) && (nextRows =? rows t) then (t, None)
  else if negb (alive t) then (t, None)
  else
    let t := pty_call (PtyResize nextCols nextRows) t in
    match outcome with
    | Some error => if isClosedTerminalError error then (t <| alive := false |>, None) else (t, Some error)
    | None => (t <| cols := nextCols |> <| rows := nextRows |>, None)
    end.

(** A [Set]: adding a member again changes nothing. *)
Definition onData (listener : nat) t : TerminalSession :=
  if bool_decide (listener ∈ listeners t) then t else t <| listeners := listeners t ++ [listener] |>.
Definition removeListener (listener : nat) t : TerminalSession :=
  t <| listeners := js_filter (fun l => negb (l =? listener)%nat) (listeners t) |>.

Definition clear t : TerminalSession := t <| scrollback := [] |>.

Definition close (outcome : pty_result) t : TerminalSession * pty_result :=
  let t := t <| listeners := [] |> in
  if negb (alive t) then (t, None)
  else
    let t := pty_call PtyKill (t <| alive := false |>) in
    match outcome with
    | Some error => if isClosedTerminalError error then (t, None) else (t, Some error)
    | None => (t, None)
    end.

(** The loop of [appendScrollback]; every turn removes at least one unit. *)
Fixpoint trim (fuel : nat) (s : list Z) : list Z :=
  match fuel with
  | O => s
  | S fuel =>
      if MAX_SCROLLBACK_BYTES <? byteLength s then trim fuel (drop (max 1 (length s / 8)) s) else s
  end.
Definition appendScrollback (chunk : list Z) t : TerminalSession :=
  let s := scrollback t ++ chunk in
  t <| scrollback := trim (length s) s |>.

(** The callbacks of the pty; the listeners are then called in order. *)
Definition onPtyData (chunk : list Z) t : TerminalSession := appendScrollback chunk t.
Definition onPtyExit t : TerminalSession := t <| alive := false |>.

(** ** Events *)

Inductive TerminalEvent :=
  | PtyData (chunk : list Z)
  | PtyExit
  | CallWrite (text : string) (outcome : pty_result)
  | CallResize (c r : jsnum) (outcome : pty_result)
  | CallOnData (listener : nat)
  | CallRemoveListener (listener : nat)
  | CallClear
  | CallClose (outcome : pty_result).

Definition terminal_step t (e : TerminalEvent) : TerminalSession :=
  match e with
  | PtyData chunk => onPtyData chunk t
  | PtyExit => onPtyExit t
  | CallWrite text outcome => (write text outcome t).1
  | CallResize c r outcome => (resize c r outcome t).1
  | CallOnData l => onData l t
  | CallRemoveListener l => removeListener l t
  | CallClear => clear t
  | CallClose outcome => (close outcome t).1
  end.
Definition terminal_run (es : list TerminalEvent) : TerminalSession := foldl terminal_step new_terminal es.

(** ** The scrollback *)

(** The output since the terminal was last cleared. *)
Fixpoint output_since (acc : list Z) (es : list TerminalEvent) : list Z :=
  match es with
  | [] => acc
  | PtyData chunk :: es => output_since (acc ++ chunk) es
  | CallClear :: es => output_since [] es
  | _ :: es => output_since acc es
  end.

Lemma byteLength_cons u s :
  byteLength (u :: s) =
    if u <? 128 then 1 + byteLength s
    else if u <? 2048 then 2 + byteLength s
    else match s with
         | v :: s' => if is_high u && is_low v then 4 + byteLength s' else 3 + byteLength s
         | [] => 3
         end.
Proof. done. Qed.

Lemma byteLength_nonneg s : 0 <= byteLength s.
Proof.
  induction s as [[|u [|v s]] IH] using (induction_ltof1 _ (@length Z)); unfold ltof in IH.
  - done.
  - simpl. repeat case_match; lia.
  - rewrite byteLength_cons. pose proof (IH s) as H1. pose proof (IH (v :: s)) as H2.
    simpl length in H1, H2. repeat case_match; try lia; specialize (H1 ltac:(lia)); specialize (H2 ltac:(lia)); lia.
Qed.

(** Two induction steps at a time, as [byteLength] reads surrogate pairs. *)
Lemma units_ind (P : list Z -> Prop) :
  P [] -> (forall u, P [u]) -> (forall u v s, P s -> P (v :: s) -> P (u :: v :: s)) -> forall s, P s.
Proof.
  intros H0 H1 H2 s. enough (P s /\ forall u, P (u :: s)) by tauto.
  induction s as [|v s [IH1 IH2]]; [done|]. split; auto.
Qed.

Lemma byteLength_grows a b : byteLength a <= byteLength (a ++ b).
Proof.
  induction a as [|u|u v a IH1 IH2] using units_ind.
  - apply byteLength_nonneg.
  - destruct b as [|w b]; [rewrite app_nil_r; lia|]. cbn [app].
    rewrite (byteLength_cons u []), (byteLength_cons u (w :: b)).
    pose proof (byteLength_nonneg (w :: b)). pose proof (byteLength_nonneg b).
    assert (byteLength [] = 0) by done. repeat case_match; lia.
  - simpl app in *. rewrite (byteLength_cons u (v :: a)), (byteLength_cons u (v :: a ++ b)).
    repeat case_match; lia.
Qed.

Lemma trim_spec fuel s :
  (length s <= fuel)%nat ->
  trim fuel s `suffix_of` s /\ byteLength (trim fuel s) <= MAX_SCROLLBACK_BYTES /\
  (byteLength s <= MAX_SCROLLBACK_BYTES -> trim fuel s = s).
Proof.
  revert s. induction fuel as [|fuel IH]; intros s Hs; simpl.
  - destruct s; [|simpl in Hs; lia]. repeat split; [done|]. vm_compute. discriminate.
  - destruct (Z.ltb_spec MAX_SCROLLBACK_BYTES (byteLength s)) as [Hb|Hb]; [|by repeat split].
    destruct s as [|u s]; [vm_compute in Hb; discriminate|].
    destruct (IH (drop (max 1 (length (u :: s) / 8)) (u :: s))) as (H1 & H2 & _).
    { rewrite length_drop. simpl in Hs |- *. lia. }
    split; [|split]; [|done|lia]. etrans; [exact H1|]. eexists. symmetry. apply take_drop.
Qed.

Lemma output_since_app acc es es' : output_since acc (es ++ es') = output_since (output_since acc es) es'.
Proof. revert acc. induction es as [|[] es IH]; intros acc; simpl; auto. Qed.

Lemma scrollback_other t e :
  match e with PtyData _ | CallClear => True | _ => scrollback (terminal_step t e) = scrollback t end.
Proof.
  destruct e; simpl; try done.
  - unfold resize. by repeat (case_match; simpl).
  - unfold onData. by case_match.
  - unfold close. by repeat (case_match; simpl).
Qed.

(** The scrollback is the end of the output since the terminal was last cleared,
    it never takes more than 256 KiB, and nothing is cut off while the output fits;
    the loop that cuts it terminates. *)
Theorem scrollback_bounded es :
  let out := output_since [] es in
  let s := scrollback (terminal_run es) in
  s `suffix_of` out /\ byteLength s <= MAX_SCROLLBACK_BYTES /\
  (byteLength out <= MAX_SCROLLBACK_BYTES -> s = out).
Proof.
  induction es as [|e es IH] using rev_ind; [repeat split; [done|vm_compute; discriminate]|].
  unfold terminal_run in *. rewrite foldl_app, output_since_app. cbn [foldl].
  revert IH. generalize (foldl terminal_step new_terminal es), (output_since [] es).
  intros t out (H1 & H2 & H3). pose proof (scrollback_other t e) as Ho.
  destruct e; try (by rewrite Ho); cbn [output_since]; [|simpl; repeat split; [done|vm_compute; discriminate]].
  simpl. destruct (trim_spec (length (scrollback t ++ chunk)) (scrollback t ++ chunk)) as (T1 & T2 & T3); [lia|].
  split; [|split]; [|done|].
  - etrans; [exact T1|]. destruct H1 as [k ->]. exists k. by rewrite app_assoc.
  - intros Hb. pose proof (byteLength_grows out chunk). rewrite H3 in T3 |- * by lia. auto.
Qed.

Example demo_clamp :
  let t := terminal_run [CallResize (NFrac 1999 1) (NInt 500) None; CallResize (NInt 0) (NInt 9) None] in
  pty t = [PtyResize 199 120; PtyResize 20 9].
Proof. reflexivity. Qed.

(** An exited shell: the failed resize marks the session, it does not throw. *)
Example demo_exited :
  let e := {| pty_code := ""; pty_message := units "the PTY is Closed" |} in
  (resize (NInt 100) (NInt 30) (Some e) new_terminal).2 = None /\
  alive (resize (NInt 100) (NInt 30) (Some e) new_terminal).1 = false /\
  isClosedTerminalError {| pty_code := ""; pty_message := units "closed pty" |} = false.
Proof. repeat split; vm_compute; reflexivity. Qed.
