(* ===== verification/MobileRpc.v ===== *)
(** * The host gateway's RPC handler
    (src/pie-mobile/adapter/host-gateway/src/rpc-handler.ts, rpc-response.ts)

    What an authenticated phone may ask of the host: a fixed set of methods over
    one terminal, with subscriptions to its output and the relay's credential
    calls. A reply goes to the channel the request came from, which is named by
    its connection id; responses are kept unserialised, and each carries the
    runtime's id besides. The relay is the gateway of RelayGateway.v: a call of it
    is an effect, its outcome an event. [JSON.parse] and the request schema are
    parameters. Methods that throw leave the handler without an answer.

    Theorems: every message is answered once unless its terminal call throws, and only
    its sender's token opens the terminal; a subscriber gets the output chunk by chunk. *)

From S2P Require Import Prelude JsMap Json E2eeChannel MobileSockets HostTerminal.

Local Open Scope string_scope.
Local Open Scope list_scope.
Local Open Scope Z_scope.

(** ** Requests and responses *)

Record RpcRequest := { id : string; request_token : string; method : string; params : option json }.

(** Results hold terminal text as code units. *)
Inductive value :=
  | Plain (v : json)
  | Scrollback (lines : list Z) (cols rows seq : Z)
  | TerminalTail (tail : list Z)
  | TerminalData (chunk : list Z) (seq : Z).

Inductive RpcResponse :=
  | Success (id : string) (result : value) (streaming : bool)
  | Failure (id code message : string).

Record Subscription := { connectionId : string; requestId : string }.
#[export] Instance Subscription_eq_dec : EqDecision Subscription.
Proof. solve_decision. Defined.

Inductive RelayCall :=
  | GetEndpoints (socket : AuthenticatedMobileSocket) (installReqId resumeConfirmReqId : option string)
  | ProvisionRelay (socket : AuthenticatedMobileSocket) (reqId newResumeTokenHash : string)
      (expectedCurrentHash : option string).

Inductive Effect :=
  | Reply (connectionId : string) (response : RpcResponse)
  | CallRelay (call : nat) (what : RelayCall)
  | Escaped (connectionId : string) (requestId : string) (error : PtyError).

Record MobileRpcHandler := {
  terminal : TerminalSession;
  subscriptions : jsmap string Subscription;
  lastOutputAt : Z;
  terminalSeq : Z;
  relayCalls : jsmap nat (string * string);  (** awaited: where the answer goes *)
  next_call : nat;
  log : list Effect }.
#[export] Instance eta_MobileRpcHandler : Eta MobileRpcHandler :=
  fun x => Build_MobileRpcHandler (terminal x) (subscriptions x) (lastOutputAt x) (terminalSeq x)
    (relayCalls x) (next_call x) (log x).
Implicit Types h : MobileRpcHandler.

Class RpcEnv := {
  JSON_parse : string -> option json;
  RequestSchema : json -> option RpcRequest;
  runtimeId : string;
  cwd : string;
  startedAt : Z;
  has_relay : bool }.

(** [basename(path)] of node:path on POSIX. *)
Definition slash : Ascii.ascii := Ascii.ascii_of_nat 47.
Fixpoint last_part (part : list Ascii.ascii) (s : list Ascii.ascii) : list Ascii.ascii :=
  match s with
  | [] => part
  | c :: s => if Ascii.eqb c slash then last_part [] s else last_part (part ++ [c]) s
  end.
Fixpoint drop_slashes (s : list Ascii.ascii) : list Ascii.ascii :=
  match s with
  | c :: s' => if Ascii.eqb c slash then drop_slashes s' else s
  | [] => []
  end.
Definition basename (path : string) : string :=
  String.string_of_list_ascii
    (last_part [] (reverse (drop_slashes (reverse (String.list_ascii_of_string path))))).

Section Handler.
Context `{RpcEnv}.

Definition LISTENER : nat := 0.

Definition new_handler : MobileRpcHandler :=
  {| terminal := onData LISTENER new_terminal; subscriptions := ∅; lastOutputAt := startedAt;
     terminalSeq := 1; relayCalls := ∅; next_call := 0; log := [] |}.

Definition emit (x : Effect) h : MobileRpcHandler := h <| log := log h ++ [x] |>.
Definition send (reply : string) (response : RpcResponse) h : MobileRpcHandler := emit (Reply reply response) h.

(** ** Summaries *)

Definition repoId : string := "pie-relay-repo".
Definition worktreeId : string := repoId +:+ "::" +:+ cwd.
Definition str (s : string) : json := JStr s.
Definition int (z : Z) : json := JNum (NInt z).

(** [basename(this.cwd) || 'pie-relay'] *)
Definition directory : string := if String.eqb (basename cwd) "" then "pie-relay" else basename cwd.

Definition repoSummary : json :=
  JObj [("id", str repoId);
        ("displayName", str directory);
        ("path", str cwd); ("badgeColor", str "#2563eb"); ("connectionId", JNull)].

Definition worktreeSummary h : json :=
  JObj [("worktreeId", str worktreeId); ("repoId", str repoId); ("repo", str directory);
        ("path", str cwd); ("branch", str "local"); ("isArchived", JBool false);
        ("isMainWorktree", JBool true); ("hasHostSidebarActivity", JBool true);
        ("parentWorktreeId", JNull); ("childWorktreeIds", JArr []);
        ("displayName", str "Pie Relay terminal"); ("workspaceStatus", str "in-progress");
        ("sortOrder", int startedAt); ("linkedIssue", JNull); ("linkedPR", JNull);
        ("linkedLinearIssue", JNull); ("linkedGitLabMR", JNull); ("linkedGitLabIssue", JNull);
        ("comment", str ""); ("isPinned", JBool true); ("isActive", JBool true); ("unread", JBool false);
        ("liveTerminalCount", int 1); ("hasAttachedPty", JBool true); ("lastOutputAt", int (lastOutputAt h));
        ("preview", str "Pie Relay mobile terminal"); ("status", str "active"); ("agents", JArr [])].

Definition terminalSummary : json :=
  JObj [("handle", str handle); ("worktreeId", str worktreeId); ("title", str title);
        ("isActive", JBool true); ("hasRunningProcess", JBool true)].

Definition sessionTabs : list (string * json) :=
  [("worktree", str worktreeId); ("snapshotVersion", int 1);
   ("tabs", JArr [JObj [("type", str "terminal"); ("id", str "pie-relay-tab-1"); ("title", str title);
                        ("status", str "ready"); ("terminal", str handle); ("isActive", JBool true)]]);
   ("activeTabId", str "pie-relay-tab-1"); ("activeTabType", str "terminal")].

(** The methods that only read: the result, and whether it is a streaming one. *)
Definition status_get (socket : AuthenticatedMobileSocket) : json :=
  JObj ([("runtimeId", str runtimeId); ("protocolVersion", int 3); ("minCompatibleMobileVersion", int 2);
         ("graphStatus", str "ready"); ("windowCount", int 1); ("tabCount", int 1); ("terminalCount", int 1);
         ("capabilities", JArr [str "runtime.status.compat.v1"])] ++
        match scope (device socket) with Some v => [("clientScope", v)] | None => [] end).
Definition ok : json := JObj [("ok", JBool true)].

Definition read_method (socket : AuthenticatedMobileSocket) (m : string) h : option (value * bool) :=
  let plain v := Some (Plain v, false) in
  if String.eqb m "status.get" then plain (status_get socket)
  else if String.eqb m "repo.list" then plain (JObj [("repos", JArr [repoSummary])])
  else if String.eqb m "worktree.ps" then
    plain (JObj [("worktrees", JArr [worktreeSummary h]); ("totalCount", int 1); ("truncated", JBool false)])
  else if String.eqb m "worktree.show" then plain (JObj [("worktree", worktreeSummary h)])
  else if String.eqb m "worktree.activate" then plain ok
  else if String.eqb m "settings.get" then
    plain (JObj [("settings", JObj [("defaultTuiAgent", str "codex"); ("disabledTuiAgents", JArr []);
                                    ("agentCmdOverrides", JObj [])])])
  else if String.eqb m "ui.get" then
    plain (JObj [("ui", JObj [("groupBy", str "repo"); ("sortBy", str "recent");
                              ("hideSleepingWorkspaces", JBool false);
                              ("hideDefaultBranchWorkspace", JBool false); ("filterRepoIds", JArr []);
                              ("collapsedGroups", JArr []); ("trustedOrcaHooks", JObj [])])])
  else if bool_decide (m ∈ ["ui.set"; "session.tabs.activate"; "terminal.setDisplayMode"]) then plain ok
  else if bool_decide (m ∈ ["preflight.detectAgents"; "preflight.detectRemoteAgents"]) then
    plain (JArr [str "codex"])
  else if String.eqb m "accounts.list" then plain (JObj [("accounts", JArr [])])
  else if String.eqb m "stats.summary" then plain (JObj [("totals", JObj [])])
  else if String.eqb m "linear.status" then plain (JObj [("configured", JBool false)])
  else if String.eqb m "session.tabs.list" then plain (JObj sessionTabs)
  else if String.eqb m "session.tabs.subscribe" then
    Some (Plain (JObj (("type", str "snapshot") :: sessionTabs)), true)
  else if String.eqb m "session.tabs.unsubscribe" then plain (JObj [("unsubscribed", JBool true)])
  else if String.eqb m "terminal.list" then
    plain (JObj [("terminals", JArr [terminalSummary]); ("totalCount", int 1); ("truncated", JBool false)])
  else if String.eqb m "terminal.resolveActive" then plain (JObj [("handle", str handle)])
  else if String.eqb m "terminal.show" then plain (JObj [("terminal", terminalSummary)])
  else if String.eqb m "terminal.read" then Some (TerminalTail (scrollback (terminal h)), false)
  else if String.eqb m "terminal.rename" then plain (JObj [("rename", ok)])
  else None.

(** ** The terminal *)

Definition with_terminal (f : TerminalSession -> TerminalSession * pty_result) h : MobileRpcHandler * pty_result :=
  let '(t, thrown) := f (terminal h) in (h <| terminal := t |>, thrown).

Definition applyViewport (p : json) (outcome : pty_result) h : MobileRpcHandler * pty_result :=
  match prop "viewport" p with
  | Some viewport =>
      if negb (is_object viewport) then (h, None)
      else
        match isFinite (prop "cols" viewport), isFinite (prop "rows" viewport) with
        | Some c, Some r => with_terminal (resize c r outcome) h
        | _, _ => (h, None)
        end
  | None => (h, None)
  end.

(** A method that applies a viewport first; when that throws, nothing else runs. *)
Definition after_viewport (socket : AuthenticatedMobileSocket) (request : RpcRequest) (outcome : pty_result)
    (f : MobileRpcHandler -> MobileRpcHandler) h : MobileRpcHandler :=
  match applyViewport (default (JObj []) (params request)) outcome h with
  | (h, None) => f h
  | (h, Some error) => emit (Escaped (MobileSockets.connectionId socket) (id request) error) h
  end.

Definition subscription_key (connectionId requestId : string) : string := connectionId +:+ ":" +:+ requestId.

Definition handleTerminalSubscribe (socket : AuthenticatedMobileSocket) (request : RpcRequest)
    (outcome : pty_result) h : MobileRpcHandler :=
  let conn := MobileSockets.connectionId socket in
  after_viewport socket request outcome
    (fun h =>
       let h := h <| subscriptions := <[subscription_key conn (id request) :=
                        {| connectionId := conn; requestId := id request |}]> (subscriptions h) |> in
       let t := terminal h in
       let seq := terminalSeq h in
       send conn (Success (id request) (Scrollback (scrollback t) (cols t) (rows t) seq) true)
         (h <| terminalSeq := seq + 1 |>)) h.

(** [for (const [key, s] of subscriptions) if (s.connectionId === c) delete(key)] *)
Definition delete_connection (conn : string) (m : jsmap string Subscription) : jsmap string Subscription :=
  foldl (fun m '(key, s) => if String.eqb (connectionId s) conn then delete key m else m) m (jm_entries m).

Definition handleTerminalUnsubscribe (socket : AuthenticatedMobileSocket) (request : RpcRequest) h
    : MobileRpcHandler :=
  let conn := MobileSockets.connectionId socket in
  let h :=
    match as_string (prop "subscriptionId" (default (JObj []) (params request))) with
    | Some subscriptionId =>
        h <| subscriptions := delete (subscription_key conn subscriptionId) (subscriptions h) |>
    | None => h <| subscriptions := delete_connection conn (subscriptions h) |>
    end in
  send conn (Success (id request) (Plain (JObj [("unsubscribed", JBool true)])) false) h.

Definition is_true (v : option json) : bool := match v with Some (JBool true) => true | _ => false end.
Definition MAX_INPUT_BYTES : Z := 64 * 1024.

(** The text a [terminal.send] types. *)
Definition input_text (p : json) : string :=
  default "" (as_string (prop "text" p)) +:+
  (if is_true (prop "interrupt" p) then String (Ascii.ascii_of_nat 3) "" else "") +:+
  (if is_true (prop "enter" p) then String (Ascii.ascii_of_nat 13) "" else "").

Definition handleTerminalSend (socket : AuthenticatedMobileSocket) (request : RpcRequest)
    (outcome written : pty_result) h : MobileRpcHandler :=
  let conn := MobileSockets.connectionId socket in
  after_viewport socket request outcome
    (fun h =>
       let text := input_text (default (JObj []) (params request)) in
       let bytes := Z.of_nat (String.length text) in
       if MAX_INPUT_BYTES <? bytes
       then send conn (Failure (id request) "invalid_argument" "Input too large") h
       else
         let '(h, thrown) := if String.eqb text "" then (h, None) else with_terminal (write text written) h in
         match thrown with
         | Some error => emit (Escaped conn (id request) error) h
         | None =>
             send conn (Success (id request)
               (Plain (JObj [("send", JObj [("handle", str handle); ("accepted", JBool true);
                                            ("bytesWritten", int bytes)])])) false) h
         end) h.

(** ** The relay *)

Definition call_relay (socket : AuthenticatedMobileSocket) (request : RpcRequest) (what : RelayCall) h
    : MobileRpcHandler :=
  emit (CallRelay (next_call h) what)
    (h <| relayCalls := <[next_call h := (MobileSockets.connectionId socket, id request)]> (relayCalls h) |>
       <| next_call := S (next_call h) |>).

Definition handleGetEndpoints (socket : AuthenticatedMobileSocket) (request : RpcRequest) h : MobileRpcHandler :=
  let p := default (JObj []) (params request) in
  if negb has_relay then
    send (MobileSockets.connectionId socket)
      (Success (id request) (Plain (JObj [("v", int 1); ("relay", JNull)])) false) h
  else
    call_relay socket request
      (GetEndpoints socket (as_string (prop "installReqId" p)) (as_string (prop "resumeConfirmReqId" p))) h.

Definition handleProvisionRelay (socket : AuthenticatedMobileSocket) (request : RpcRequest) h : MobileRpcHandler :=
  let p := default (JObj []) (params request) in
  match has_relay, as_string (prop "reqId" p), as_string (prop "newResumeTokenHash" p) with
  | true, Some reqId, Some newResumeTokenHash =>
      call_relay socket request
        (ProvisionRelay socket reqId newResumeTokenHash (as_string (prop "expectedCurrentHash" p))) h
  | _, _, _ =>
      send (MobileSockets.connectionId socket)
        (Failure (id request) "relay_unavailable" "Pie Relay is not configured") h
  end.

(** The [then] or [catch] of a relay call. *)
Definition relay_settles (call : nat) (outcome : result json) h : MobileRpcHandler :=
  match relayCalls h !! call with
  | None => h
  | Some (conn, requestId) =>
      send conn
        match outcome with
        | Ok v => Success requestId (Plain v) false
        | Throw message => Failure requestId "relay_error" message
        end (h <| relayCalls := delete call (relayCalls h) |>)
  end.

(** ** The handler *)

(** The two calls of the pty a method may make end as [outcome] and [written] say. *)
Definition dispatch (socket : AuthenticatedMobileSocket) (request : RpcRequest) (outcome written : pty_result) h
    : MobileRpcHandler :=
  let conn := MobileSockets.connectionId socket in
  let m := method request in
  match read_method socket m h with
  | Some (v, streaming) => send conn (Success (id request) v streaming) h
  | None =>
      if String.eqb m "terminal.subscribe" then handleTerminalSubscribe socket request outcome h
      else if String.eqb m "terminal.unsubscribe" then handleTerminalUnsubscribe socket request h
      else if String.eqb m "terminal.send" then handleTerminalSend socket request outcome written h
      else if String.eqb m "terminal.updateViewport" then
        after_viewport socket request outcome
          (send conn (Success (id request) (Plain (JObj [("updated", JBool true)])) false)) h
      else if String.eqb m "terminal.clearBuffer" then
        send conn (Success (id request) (Plain (JObj [("clear", ok)])) false) (h <| terminal := clear (terminal h) |>)
      else if String.eqb m "pairing.getEndpoints" then handleGetEndpoints socket request h
      else if String.eqb m "pairing.provisionRelay" then handleProvisionRelay socket request h
      else send conn (Failure (id request) "method_not_found" ("Unknown method: " +:+ m)) h
  end.

Definition handle_message (socket : AuthenticatedMobileSocket) (plaintext : string) (outcome written : pty_result) h
    : MobileRpcHandler :=
  let conn := MobileSockets.connectionId socket in
  match JSON_parse plaintext with
  | None => send conn (Failure "unknown" "bad_request" "Invalid JSON") h
  | Some raw =>
      match RequestSchema raw with
      | None =>
          send conn (Failure (default "unknown" (as_string (prop "id" raw))) "bad_request" "Invalid RPC request") h
      | Some request =>
          if negb (strict_eq (Some (JStr (request_token request))) (deviceToken (device socket)))
          then send conn (Failure (id request) "unauthorized" "Device token mismatch") h
          else dispatch socket request outcome written h
      end
  end.

Definition closeConnection (conn : string) h : MobileRpcHandler :=
  h <| subscriptions := delete_connection conn (subscriptions h) |>.

Definition publish_to (chunk : list Z) h (s : Subscription) : MobileRpcHandler :=
  let seq := terminalSeq h in
  send (connectionId s) (Success (requestId s) (TerminalData chunk seq) true) (h <| terminalSeq := seq + 1 |>).

Definition publishTerminalData (now : Z) (chunk : list Z) h : MobileRpcHandler :=
  let h := h <| lastOutputAt := now |> in
  foldl (publish_to chunk) h (jm_values (subscriptions h)).

(** ** Events *)

Inductive Event :=
  | Handle (socket : AuthenticatedMobileSocket) (plaintext : string) (outcome written : pty_result)
  | Closed (connectionId : string)
  | Output (now : Z) (chunk : list Z)
  | ShellExits
  | RelaySettles (call : nat) (outcome : result json)
  | Stop (outcome : pty_result).  (** [terminal.close()] *)

Definition step h (e : Event) : MobileRpcHandler :=
  match e with
  | Handle socket plaintext outcome written => handle_message socket plaintext outcome written h
  | Closed conn => closeConnection conn h
  | Output now chunk =>
      let h := h <| terminal := onPtyData chunk (terminal h) |> in
      foldl (fun h _ => publishTerminalData now chunk h) h (listeners (terminal h))
  | ShellExits => h <| terminal := onPtyExit (terminal h) |>
  | RelaySettles call outcome => relay_settles call outcome h
  | Stop outcome => (with_terminal (close outcome) h).1
  end.

Definition run (es : list Event) : MobileRpcHandler := foldl step new_handler es.
End Handler.
