(* ===== verification/MobileRpcFacts.v ===== *)
(** * The host gateway's RPC handler: its promises

    [account] lists the requests that were answered, that an exception left
    unanswered or that await the relay: a permutation of the requests asked.
    [quietly] relates two states with the same log and relay calls. *)

From S2P Require Import Prelude JsMap Json E2eeChannel MobileSockets HostTerminal MobileRpc.

Local Open Scope string_scope.
Local Open Scope list_scope.
Local Open Scope Z_scope.

Section Facts.
Context `{RpcEnv}.
Implicit Types (h : MobileRpcHandler) (c i : string).

(** ** Answers *)

Definition response_id (r : RpcResponse) : string := match r with Success i _ _ | Failure i _ _ => i end.
Definition is_data (r : RpcResponse) : bool := match r with Success _ (TerminalData _ _) _ => true | _ => false end.

(** The request an effect puts an end to. *)
Definition ended (x : Effect) : option (string * string) :=
  match x with
  | Reply c r => if is_data r then None else Some (c, response_id r)
  | Escaped c i _ => Some (c, i)
  | CallRelay _ _ => None
  end.
Definition account h : list (string * string) := omap ended (log h) ++ jm_values (relayCalls h).

Definition request_id (plaintext : string) : string :=
  match JSON_parse plaintext with
  | None => "unknown"
  | Some raw =>
      match RequestSchema raw with
      | Some request => id request
      | None => default "unknown" (as_string (prop "id" raw))
      end
  end.
Definition asked_by (e : Event) : option (string * string) :=
  match e with
  | Handle socket plaintext _ _ => Some (MobileSockets.connectionId socket, request_id plaintext)
  | _ => None
  end.

Record calls_ok h : Prop := {
  k_wf : jm_wf (relayCalls h);
  k_lt : forall k p, relayCalls h !! k = Some p -> (k < next_call h)%nat }.

(** Nothing answered and nothing asked of the relay. *)
Definition quietly h h' : Prop :=
  log h' = log h /\ relayCalls h' = relayCalls h /\ next_call h' = next_call h.

Lemma quietly_ok h h' : quietly h h' -> calls_ok h -> calls_ok h'.
Proof. intros (_ & E1 & E2) [H1 H2]. split; rewrite ?E1, ?E2; done. Qed.

(** The output a subscriber is sent, and the numbers of all that is streamed. *)
Definition data_to (s : Subscription) (x : Effect) : option (list Z) :=
  match x with
  | Reply c (Success i (TerminalData chunk _) _) =>
      if String.eqb c (connectionId s) && String.eqb i (requestId s) then Some chunk else None
  | _ => None
  end.
Definition seq_of (x : Effect) : option Z :=
  match x with
  | Reply _ (Success _ (TerminalData _ n) _) | Reply _ (Success _ (Scrollback _ _ _ n) _) => Some n
  | _ => None
  end.

(** An effect takes the next number or leaves it. *)
Definition numbered (x : Effect) h h' : Prop :=
  (seq_of x = None /\ terminalSeq h' = terminalSeq h) \/
  (seq_of x = Some (terminalSeq h) /\ terminalSeq h' = terminalSeq h + 1).

(** What a message does: one effect, which ends its request or asks the relay. *)
Record one_more (p : string * string) h h' : Prop := {
  o_calls : calls_ok h';
  o_account : account h' ≡ₚ p :: account h;
  o_effect : exists x, log h' = log h ++ [x] /\ numbered x h h' /\ forall s, data_to s x = None }.

Lemma account_emit x h : account (emit x h) ≡ₚ option_list (ended x) ++ account h.
Proof.
  unfold account. simpl. rewrite omap_app. simpl. destruct (ended x); simpl; [|by rewrite app_nil_r].
  rewrite <-app_assoc. simpl. by rewrite Permutation_middle.
Qed.

Lemma emit_calls_ok x h : calls_ok h -> calls_ok (emit x h).
Proof. intros [H1 H2]. by split. Qed.

Lemma ended_no_data x p s : ended x = Some p -> data_to s x = None.
Proof. by destruct x as [c [i [] b|]|?|]. Qed.

Lemma one_more_numbered x p h h' :
  ended x = Some p -> quietly h h' -> numbered x h h' -> calls_ok h -> one_more p h (emit x h').
Proof.
  intros Hx Hq Hn Hok. split; [by apply emit_calls_ok, (quietly_ok h)| |].
  - rewrite account_emit, Hx. simpl. destruct Hq as (E1 & E2 & _). unfold account. by rewrite E1, E2.
  - exists x. simpl. destruct Hq as (-> & _). split; [done|]. split; [done|]. intros s. by apply (ended_no_data _ p).
Qed.

Lemma one_more_emit x p h h' :
  ended x = Some p -> seq_of x = None -> terminalSeq h' = terminalSeq h -> quietly h h' -> calls_ok h ->
  one_more p h (emit x h').
Proof. intros. apply one_more_numbered; try done. by left. Qed.

(** The terminal is all that changes. *)
Definition terminal_only h h' : Prop := quietly h h' /\ terminalSeq h' = terminalSeq h.

Lemma with_terminal_only f h : terminal_only h (with_terminal f h).1.
Proof. unfold with_terminal. by destruct (f (terminal h)). Qed.

Lemma applyViewport_only p o h : terminal_only h (applyViewport p o h).1.
Proof. unfold applyViewport. repeat case_match; try done. apply with_terminal_only. Qed.

Lemma one_more_only p h h1 h2 : terminal_only h h1 -> one_more p h1 h2 -> one_more p h h2.
Proof.
  intros [(E1 & E2 & _) E3] [Hok Hp He]. split; [done| |].
  - rewrite Hp. unfold account. by rewrite E1, E2.
  - unfold numbered in *. by rewrite <-E1, <-E3.
Qed.

Lemma after_viewport_one socket request o f h :
  (forall h, calls_ok h -> one_more (MobileSockets.connectionId socket, id request) h (f h)) -> calls_ok h ->
  one_more (MobileSockets.connectionId socket, id request) h (after_viewport socket request o f h).
Proof.
  intros Hf Hok. unfold after_viewport.
  pose proof (applyViewport_only (default (JObj []) (params request)) o h) as Hq.
  destruct (applyViewport _ _ _) as [h' [e|]]; simpl in Hq; destruct Hq as [Hq Hs];
    [by apply one_more_emit|].
  apply (one_more_only _ _ h'); [done|]. by apply Hf, (quietly_ok h).
Qed.

Lemma call_relay_one socket request what h :
  calls_ok h -> one_more (MobileSockets.connectionId socket, id request) h (call_relay socket request what h).
Proof.
  intros Hok. assert (Hn : relayCalls h !! next_call h = None).
  { destruct (relayCalls h !! next_call h) as [p|] eqn:E; [|done]. apply (k_lt _ Hok) in E. lia. }
  split.
  - split; simpl; [apply jm_wf_insert, Hok|]. intros k p. rewrite jm_lookup_insert. case_decide; [intros _; lia|].
    intros Hk%(k_lt _ Hok). lia.
  - unfold call_relay. rewrite account_emit. simpl. unfold account. simpl. unfold jm_values.
    rewrite jm_insert_fresh by done. rewrite fmap_app. simpl. rewrite (app_assoc (omap _ _)).
    by rewrite Permutation_app_comm.
  - eexists. split; [done|]. split; [by left|done].
Qed.

Lemma read_method_plain socket m h v b :
  read_method socket m h = Some (v, b) -> match v with Plain _ | TerminalTail _ => True | _ => False end.
Proof. unfold read_method. intros E. repeat case_match; simplify_eq/=; done. Qed.

Lemma dispatch_one socket request o w h :
  calls_ok h ->
  one_more (MobileSockets.connectionId socket, id request) h (dispatch socket request o w h).
Proof.
  intros Hok. unfold dispatch. destruct (read_method _ _ _) as [[v b]|] eqn:Hr.
  { apply read_method_plain in Hr. by destruct v; try done; apply one_more_emit. }
  repeat case_match; try (by apply one_more_emit).
  - apply after_viewport_one; [|done]. intros h' Hok'. apply one_more_numbered; try done. by right.
  - unfold handleTerminalUnsubscribe. cbv zeta. by case_match; apply one_more_emit.
  - apply after_viewport_one; [|done]. intros h' Hok'. cbv zeta. destruct (_ <? _); [by apply one_more_emit|].
    destruct (String.eqb _ ""); [by apply one_more_emit|].
    pose proof (with_terminal_only (write (input_text (default (JObj []) (params request))) w) h') as [Hq Hs].
    destruct (with_terminal _ _) as [h2 [e|]]; by apply one_more_emit.
  - apply after_viewport_one; [|done]. intros h' Hok'. by apply one_more_emit.
  - unfold handleGetEndpoints. destruct (negb has_relay); [by apply one_more_emit|by apply call_relay_one].
  - unfold handleProvisionRelay. cbv zeta. repeat case_match; try (by apply one_more_emit). by apply call_relay_one.
Qed.

Lemma handle_one socket plaintext o w h :
  calls_ok h ->
  one_more (MobileSockets.connectionId socket, request_id plaintext) h (handle_message socket plaintext o w h).
Proof.
  intros Hok. unfold handle_message, request_id. destruct (JSON_parse plaintext) as [raw|]; [|by apply one_more_emit].
  destruct (RequestSchema raw) as [request|]; [|by apply one_more_emit].
  case_match; [by apply one_more_emit|by apply dispatch_one].
Qed.

(** Output ends no request. *)
Lemma publish_account chunk l h :
  let h' := foldl (publish_to chunk) h l in
  account h' = account h /\ relayCalls h' = relayCalls h /\ next_call h' = next_call h.
Proof.
  revert h. induction l as [|s l IH]; intros h; [done|]. simpl. destruct (IH (publish_to chunk h s)) as (E1 & E2 & E3).
  rewrite E1, E2, E3. split; [|done]. unfold account. simpl. by rewrite omap_app, app_nil_r.
Qed.

Lemma output_account now chunk l h :
  let h' := foldl (fun h (_ : nat) => publishTerminalData now chunk h) h l in
  account h' = account h /\ relayCalls h' = relayCalls h /\ next_call h' = next_call h.
Proof.
  revert h. induction l as [|s l IH]; intros h; [done|]. simpl. destruct (IH (publishTerminalData now chunk h)) as (E1 & E2 & E3).
  destruct (publish_account chunk (jm_values (subscriptions h)) (h <| lastOutputAt := now |>)) as (F1 & F2 & F3).
  split; [exact (eq_trans E1 F1)|]. split; [exact (eq_trans E2 F2)|exact (eq_trans E3 F3)].
Qed.

Lemma step_account h e :
  calls_ok h -> calls_ok (step h e) /\ account (step h e) ≡ₚ option_list (asked_by e) ++ account h.
Proof.
  intros Hok. destruct e as [socket plaintext o w|c|now chunk| |k outcome|o]; cbn [step asked_by option_list app].
  - by destruct (handle_one socket plaintext o w h Hok).
  - split; [by apply (quietly_ok h)|done].
  - set (h1 := h <| terminal := onPtyData chunk (terminal h) |>).
    assert (E0 : account h1 = account h) by done.
    assert (Hok1 : calls_ok h1) by (destruct Hok; by split). clearbody h1.
    destruct (output_account now chunk (listeners (terminal h1)) h1) as (E1 & E2 & E3).
    cbv zeta in E1, E2, E3. rewrite E1, E0. split; [|done].
    destruct Hok1 as [K1 K2]. split; rewrite E2, ?E3; done.
  - split; [by apply (quietly_ok h)|done].
  - unfold relay_settles. destruct (relayCalls h !! k) as [[c i]|] eqn:Hk; [|done]. split.
    + destruct Hok as [K1 K2]. split; simpl; [by apply jm_wf_delete|]. intros k' p. rewrite jm_lookup_delete.
      case_decide; [done|]. apply K2.
    + unfold send. rewrite account_emit.
      assert (Hp : jm_values (relayCalls h) ≡ₚ (c, i) :: jm_values (delete k (relayCalls h))).
      { unfold jm_values. rewrite (jm_delete_perm _ _ _ (k_wf _ Hok) Hk). done. }
      unfold account. simpl. rewrite Hp. rewrite <-Permutation_middle. by destruct outcome.
  - pose proof (with_terminal_only (close o) h) as [Hq _]. split; [by apply (quietly_ok h)|].
    destruct Hq as (E1 & E2 & _). unfold account. by rewrite E1, E2.
Qed.

(** ** Replies and exceptions *)

(** The request a reply answers, and the one an exception leaves unanswered. *)
Definition answered (x : Effect) : option (string * string) :=
  match x with Reply c r => if is_data r then None else Some (c, response_id r) | _ => None end.
Definition failure_of (x : Effect) : option (string * string * PtyError) :=
  match x with Escaped c i error => Some (c, i, error) | _ => None end.
Definition answers h : list (string * string) := omap answered (log h).
Definition failures h : list (string * string * PtyError) := omap failure_of (log h).

Lemma ended_split l : omap ended l ≡ₚ omap answered l ++ (omap failure_of l).*1.
Proof.
  induction l as [|[c r|k what|c i error] l IH]; simpl; [done| |done|].
  - destruct (is_data r); simpl; by rewrite IH.
  - rewrite IH. by rewrite Permutation_middle.
Qed.

Lemma account_split h : account h ≡ₚ answers h ++ (failures h).*1 ++ jm_values (relayCalls h).
Proof. unfold account. by rewrite ended_split, <-app_assoc. Qed.

(** The message's terminal call, a resize or a write, threw [error]. *)
Definition terminal_threw (error : PtyError) (e : Event) : Prop :=
  match e with Handle _ _ o w => o = Some error \/ w = Some error | _ => False end.

(** A step leaves at most its own request unanswered, and only when the terminal threw. *)
Definition fails_by (e : Event) (f : string * string * PtyError) : Prop :=
  asked_by e = Some f.1 /\ terminal_threw f.2 e.

Lemma resize_error (a b : jsnum) o t e : (resize a b o t).2 = Some e -> o = Some e.
Proof. unfold resize. by repeat (case_match; simpl); intros [= <-]. Qed.

Lemma applyViewport_error p o h e : (applyViewport p o h).2 = Some e -> o = Some e.
Proof.
  unfold applyViewport, with_terminal. repeat case_match; try done. simpl. intros ->.
  match goal with E : resize ?c ?r _ _ = _ |- _ => apply (resize_error c r _ (terminal h)); by rewrite E end.
Qed.

(** Nothing fails, or [p] does with an error one of [errors] holds. *)
Definition may_fail (p : string * string) (errors : list pty_result) h h' : Prop :=
  failures h' = failures h \/
  exists e, failures h' = failures h ++ [(p, e)] /\ Some e ∈ errors.

Lemma emit_failures x h : failures (emit x h) = failures h ++ option_list (failure_of x).
Proof. unfold failures. simpl. rewrite omap_app. simpl. by destruct (failure_of x). Qed.

Lemma may_fail_emit x p errors h h' : failure_of x = None -> log h' = log h -> may_fail p errors h (emit x h').
Proof. intros Hx Hl. left. rewrite emit_failures, Hx. unfold failures. by rewrite Hl, app_nil_r. Qed.

Lemma may_fail_escape c i e errors h h' :
  log h' = log h -> Some e ∈ errors -> may_fail (c, i) errors h (emit (Escaped c i e) h').
Proof. intros Hl He. right. exists e. rewrite emit_failures. unfold failures. by rewrite Hl. Qed.

Lemma after_viewport_fails socket request o w f h :
  (forall h', log h' = log h -> may_fail (MobileSockets.connectionId socket, id request) [o; w] h (f h')) ->
  may_fail (MobileSockets.connectionId socket, id request) [o; w] h (after_viewport socket request o f h).
Proof.
  intros Hf. unfold after_viewport.
  pose proof (applyViewport_only (default (JObj []) (params request)) o h) as [(E & _) _].
  pose proof (applyViewport_error (default (JObj []) (params request)) o h) as He.
  destruct (applyViewport _ _ _) as [h' [e|]]; simpl in E, He; [|by apply Hf].
  apply may_fail_escape; [done|]. rewrite (He e eq_refl). by left.
Qed.

Lemma dispatch_fails socket request o w h :
  may_fail (MobileSockets.connectionId socket, id request) [o; w] h (dispatch socket request o w h).
Proof.
  unfold dispatch. destruct (read_method _ _ _) as [[v b]|]; [by apply may_fail_emit|].
  repeat case_match; try (by apply may_fail_emit).
  - apply after_viewport_fails. intros h' E. by apply may_fail_emit.
  - unfold handleTerminalUnsubscribe. cbv zeta. by case_match; apply may_fail_emit.
  - apply after_viewport_fails. intros h' E. cbv zeta. destruct (_ <? _); [by apply may_fail_emit|].
    destruct (String.eqb _ ""); [by apply may_fail_emit|]. unfold with_terminal, write.
    destruct w as [e|]; [|by apply may_fail_emit]. apply may_fail_escape; [done|]. by right; left.
  - apply after_viewport_fails. intros h' E. by apply may_fail_emit.
  - unfold handleGetEndpoints. cbv zeta. by destruct (negb has_relay); apply may_fail_emit.
  - unfold handleProvisionRelay. cbv zeta. by repeat case_match; apply may_fail_emit.
Qed.

Lemma output_failures now chunk l h :
  failures (foldl (fun h (_ : nat) => publishTerminalData now chunk h) h l) = failures h.
Proof.
  assert (Hp : forall l h, failures (foldl (publish_to chunk) h l) = failures h).
  { clear. intros l. induction l as [|s l IH]; intros h; simpl; [done|]. rewrite IH. unfold failures. simpl.
    rewrite omap_app. simpl. by rewrite app_nil_r. }
  revert h. induction l as [|x l IH]; intros h; simpl; [done|]. rewrite IH.
  unfold publishTerminalData. cbv zeta. by rewrite Hp.
Qed.

Lemma step_failures h e : Forall (fails_by e) (drop (length (failures h)) (failures (step h e))) /\
  failures h `prefix_of` failures (step h e).
Proof.
  assert (Hsame : forall h', failures h' = failures h ->
            Forall (fails_by e) (drop (length (failures h)) (failures h')) /\ failures h `prefix_of` failures h').
  { intros h' ->. by rewrite drop_all. }
  destruct e as [socket plaintext o w|c|now chunk| |k outcome|o]; cbn [step]; try (by apply Hsame).
  - assert (Hm : may_fail (MobileSockets.connectionId socket, request_id plaintext) [o; w] h
              (handle_message socket plaintext o w h)).
    { unfold handle_message, request_id. destruct (JSON_parse plaintext) as [raw|]; [|by apply may_fail_emit].
      destruct (RequestSchema raw) as [request|]; [|by apply may_fail_emit].
      case_match; [by apply may_fail_emit|apply dispatch_fails]. }
    destruct Hm as [->|(e & -> & He)]; [by apply Hsame|]. rewrite drop_app_length. split; [|by eexists].
    constructor; [|constructor]. split; [done|]. simpl.
    rewrite !elem_of_cons, elem_of_nil in He. destruct He as [->|[->|[]]]; auto.
  - apply Hsame. by rewrite output_failures.
  - apply Hsame. unfold relay_settles. destruct (relayCalls h !! k) as [[c i]|]; [|done].
    unfold send. rewrite emit_failures. simpl. by rewrite app_nil_r.
  - apply Hsame. pose proof (with_terminal_only (close o) h) as [(E & _) _]. unfold failures. by rewrite E.
Qed.

(** C30. Every message is accounted for exactly once. The requests that got their one
    reply, those that got none because an exception left the handler and those the relay
    has yet to settle are together exactly the requests asked, each under its own
    connection and request id, whatever the messages hold and however they interleave
    with output, closes and the relay. A request is left without a reply only when the
    terminal threw during that very message. *)
Theorem answered_once es :
  answers (run es) ++ (failures (run es)).*1 ++ jm_values (relayCalls (run es)) ≡ₚ omap asked_by es /\
  Forall (fun f => Exists (fun e => fails_by e f) es) (failures (run es)).
Proof.
  enough (calls_ok (run es) /\ account (run es) ≡ₚ omap asked_by es /\
          Forall (fun f => Exists (fun e => fails_by e f) es) (failures (run es))) as (_ & Ha & Hf)
    by (by rewrite <-account_split).
  induction es as [|e es (IH1 & IH2 & IH3)] using rev_ind.
  - split; [split; [apply jm_wf_empty|done]|]. by split; [|constructor].
  - unfold run in *. rewrite foldl_app, omap_app. simpl. destruct (step_account _ e IH1) as [S1 S2].
    split; [done|]. split.
    { rewrite S2, IH2. destruct (asked_by e); simpl; [|by rewrite app_nil_r]. by rewrite Permutation_cons_append. }
    destruct (step_failures (foldl step new_handler es) e) as [Hn [k Hk]]. rewrite Hk, drop_app_length in Hn.
    rewrite Hk. apply Forall_app. split; [eapply Forall_impl; [exact IH3|]|eapply Forall_impl; [exact Hn|]].
    + intros f Hf. apply Exists_app. by left.
    + intros f Hf. apply Exists_app. right. by constructor.
Qed.

(** ** The stream *)

(** What a step adds to the log: the chunks sent to [s], and numbers in order. *)
Definition grows (s : Subscription) (chunks : list (list Z)) h h' : Prop :=
  exists new, log h' = log h ++ new /\ omap (data_to s) new = chunks /\
    omap seq_of new = seqZ (terminalSeq h) (terminalSeq h' - terminalSeq h) /\ terminalSeq h <= terminalSeq h'.

Lemma chunks_refl s h h' : log h' = log h -> terminalSeq h' = terminalSeq h -> grows s [] h h'.
Proof. intros E1 E2. exists []. by rewrite app_nil_r, E1, E2, Z.sub_diag. Qed.

Lemma chunks_trans s cs cs' h1 h2 h3 : grows s cs h1 h2 -> grows s cs' h2 h3 -> grows s (cs ++ cs') h1 h3.
Proof.
  intros (n1 & A1 & B1 & C1 & D1) (n2 & A2 & B2 & C2 & D2). exists (n1 ++ n2).
  rewrite A2, A1, !omap_app, B1, B2, C1, C2, app_assoc. repeat split; [|lia].
  replace (terminalSeq h3 - terminalSeq h1) with
    ((terminalSeq h2 - terminalSeq h1) + (terminalSeq h3 - terminalSeq h2)) by lia.
  rewrite seqZ_app by lia. do 2 f_equal. lia.
Qed.

Lemma one_more_grows s p h h' : one_more p h h' -> grows s [] h h'.
Proof.
  intros [_ _ (x & Hl & Hn & Hd)]. exists [x]. split; [done|]. simpl. rewrite Hd. split; [done|].
  destruct Hn as [[-> ->]|[-> ->]]; [by rewrite Z.sub_diag|].
  replace (terminalSeq h + 1 - terminalSeq h) with 1 by lia. split; [done|lia].
Qed.

Lemma publish_grows s chunk s' h :
  grows s (if decide (s' = s) then [chunk] else []) h (publish_to chunk h s').
Proof.
  eexists. split; [reflexivity|]. simpl. split.
  - destruct s as [c i], s' as [c' i']; simpl. case_decide as Heq.
    + injection Heq as -> ->. by rewrite !String.eqb_refl.
    + destruct (String.eqb_spec c' c), (String.eqb_spec i' i); simpl; congruence.
  - replace (terminalSeq h + 1 - terminalSeq h) with 1 by lia. split; [done|lia].
Qed.

Lemma publish_all_grows s chunk l h :
  grows s (flat_map (fun s' => if decide (s' = s) then [chunk] else []) l) h (foldl (publish_to chunk) h l).
Proof.
  revert h. induction l as [|s' l IH]; intros h; [by apply chunks_refl|]. simpl.
  eapply chunks_trans; [apply publish_grows|apply IH].
Qed.

(** The keys are those of their subscriptions, so no two of them are equal. *)
Record subs_ok h : Prop := {
  b_wf : jm_wf (subscriptions h);
  b_key : forall key s, subscriptions h !! key = Some s ->
    key = subscription_key (connectionId s) (requestId s) }.

Lemma subs_same h h' : subscriptions h' = subscriptions h -> subs_ok h -> subs_ok h'.
Proof. intros E [H1 H2]. split; by rewrite E. Qed.

Lemma flat_map_none {A B} (f : A -> list B) l : (forall x, x ∈ l -> f x = []) -> flat_map f l = [].
Proof.
  induction l as [|x l IH]; intros Hf; [done|]. simpl. rewrite Hf by (by left).
  apply IH. intros y Hy. apply Hf. by right.
Qed.

Lemma one_value (m : jsmap string Subscription) key s (chunk : list Z) :
  jm_wf m -> (forall key s, m !! key = Some s -> key = subscription_key (connectionId s) (requestId s)) ->
  m !! key = Some s ->
  flat_map (fun s' => if decide (s' = s) then [chunk] else []) (jm_values m) = [chunk].
Proof.
  intros Hwf Hk Hs. assert (Hothers : forall k, k ≠ key -> m !! k ≠ Some s).
  { intros k Hne Hks. apply Hk in Hs, Hks. congruence. }
  pose proof (jm_lookup_Some_elem _ _ _ Hs) as (l1 & l2 & El)%list_elem_of_split.
  unfold jm_values. rewrite El, fmap_app, flat_map_app. simpl. rewrite decide_True by done. simpl.
  unfold jm_wf, jm_keys in Hwf. pose proof Hwf as Hnd. rewrite El, fmap_app in Hnd. simpl in Hnd.
  apply NoDup_app in Hnd as (_ & Hd1 & Hnd). apply NoDup_cons in Hnd as [Hd2 _].
  assert (Hnone : forall l, (forall k v, (k, v) ∈ l -> (k, v) ∈ jm_entries m /\ k ≠ key) ->
            flat_map (fun s' => if decide (s' = s) then [chunk] else []) l.*2 = []).
  { intros l Hl. apply flat_map_none. intros v ([k v'] & -> & Hin)%list_elem_of_fmap.
    destruct (Hl k v' Hin) as [Hin' Hne]. case_decide as Heq; [|done]. simpl in Heq. subst v'.
    by destruct (Hothers k Hne); apply jm_elem_lookup. }
  rewrite !Hnone; [done| |].
  - intros k v Hin. rewrite El. split; [by apply elem_of_app; right; right|]. intros ->.
    apply Hd2. apply list_elem_of_fmap. by exists (key, v).
  - intros k v Hin. rewrite El. split; [by apply elem_of_app; left|]. intros ->.
    apply (Hd1 key); [apply list_elem_of_fmap; by exists (key, v)|by left].
Qed.

Lemma delete_connection_sub c (l : list (string * Subscription)) (m : jsmap string Subscription) :
  jm_wf m ->
  let m' := foldl (fun m '(key, s) => if String.eqb (connectionId s) c then delete key m else m) m l in
  jm_wf m' /\ forall key s, m' !! key = Some s -> m !! key = Some s.
Proof.
  revert m. induction l as [|[key s] l IH]; intros m Hwf; [done|]. simpl.
  destruct (String.eqb _ c); [|by apply IH].
  destruct (IH (delete key m)) as [H1 H2]; [by apply jm_wf_delete|]. split; [done|].
  intros k s' Hk%H2. rewrite jm_lookup_delete in Hk. by case_decide.
Qed.

(** The subscriptions stay well formed, the listeners the same. *)
Definition keeps h h' : Prop := (subs_ok h -> subs_ok h') /\ listeners (terminal h') = listeners (terminal h).

Lemma keeps_refl h h' :
  subscriptions h' = subscriptions h -> listeners (terminal h') = listeners (terminal h) -> keeps h h'.
Proof. intros E1 E2. split; [by apply subs_same|done]. Qed.

Lemma keeps_trans h1 h2 h3 : keeps h1 h2 -> keeps h2 h3 -> keeps h1 h3.
Proof. intros [A B] [C D]. split; [auto|congruence]. Qed.

Lemma keeps_deleted h h' c :
  subscriptions h' = delete_connection c (subscriptions h) -> listeners (terminal h') = listeners (terminal h) ->
  keeps h h'.
Proof.
  intros E1 E2. split; [|done]. intros [H1 H2].
  destruct (delete_connection_sub c (jm_entries (subscriptions h)) (subscriptions h) H1) as [W L].
  split; rewrite E1; [done|]. intros key s Hs. by apply H2, L.
Qed.

Lemma resize_listeners a b o t : listeners (resize a b o t).1 = listeners t.
Proof. unfold resize. by repeat (case_match; simpl). Qed.

Lemma after_viewport_keeps socket request o f h :
  (forall h, keeps h (f h)) -> keeps h (after_viewport socket request o f h).
Proof.
  intros Hf. unfold after_viewport.
  assert (Hv : forall p, keeps h (applyViewport p o h).1).
  { intros p. unfold applyViewport, with_terminal. repeat case_match; try (by apply keeps_refl).
    apply keeps_refl; [done|]. simpl. rewrite <-(resize_listeners j0 j1 o (terminal h)).
    match goal with E : resize _ _ _ _ = _ |- _ => by rewrite E end. }
  specialize (Hv (default (JObj []) (params request))).
  destruct (applyViewport _ _ _) as [h' [e|]]; simpl in Hv; [|by eapply keeps_trans].
  eapply keeps_trans; [exact Hv|by apply keeps_refl].
Qed.

Lemma dispatch_keeps socket request o w h : keeps h (dispatch socket request o w h).
Proof.
  unfold dispatch. destruct (read_method _ _ _) as [[v b]|]; [by apply keeps_refl|].
  repeat case_match; try (by apply keeps_refl).
  - apply after_viewport_keeps. intros h'. split; [|done]. intros [B1 B2].
    split; simpl; [by apply jm_wf_insert|]. intros key s. rewrite jm_lookup_insert.
    case_decide as Hk; [intros [= <-]; by subst|apply B2].
  - unfold handleTerminalUnsubscribe. cbv zeta. case_match; [|by apply (keeps_deleted _ _ (MobileSockets.connectionId socket))].
    split; [|done]. intros [B1 B2]. split; simpl; [by apply jm_wf_delete|]. intros key s0. rewrite jm_lookup_delete.
    case_decide; [done|apply B2].
  - apply after_viewport_keeps. intros h'. cbv zeta. destruct (_ <? _); [by apply keeps_refl|].
    destruct (String.eqb _ ""); [by apply keeps_refl|]. unfold with_terminal, write.
    by destruct w; apply keeps_refl.
  - apply after_viewport_keeps. intros h'. by apply keeps_refl.
  - unfold handleGetEndpoints. cbv zeta. by destruct (negb has_relay); apply keeps_refl.
  - unfold handleProvisionRelay. cbv zeta. by repeat case_match; apply keeps_refl.
Qed.

Lemma handle_keeps socket plaintext o w h : keeps h (handle_message socket plaintext o w h).
Proof. unfold handle_message. repeat case_match; try (by apply keeps_refl). apply dispatch_keeps. Qed.

Lemma publish_same chunk l h :
  subscriptions (foldl (publish_to chunk) h l) = subscriptions h /\
  terminal (foldl (publish_to chunk) h l) = terminal h.
Proof. revert h. induction l as [|s l IH]; intros h; [done|]. simpl. by destruct (IH (publish_to chunk h s)) as [-> ->]. Qed.

(** The handler listens until the terminal is closed. *)
Record live h : Prop := { v_subs : subs_ok h; v_listens : listeners (terminal h) = [LISTENER] }.
Definition stops (e : Event) : bool := match e with Stop _ => true | _ => false end.
Definition chunks_of (e : Event) : list (list Z) := match e with Output _ chunk => [chunk] | _ => [] end.

Lemma keeps_live h h' : keeps h h' -> live h -> live h'.
Proof. intros [A B] [V1 V2]. split; [auto|congruence]. Qed.

Lemma output_step now chunk h :
  listeners (terminal h) = [LISTENER] ->
  step h (Output now chunk) =
    publishTerminalData now chunk (h <| terminal := onPtyData chunk (terminal h) |>).
Proof. intros Hl. cbn [step]. simpl listeners. by rewrite Hl. Qed.

Lemma live_step h e : stops e = false -> live h -> live (step h e).
Proof.
  intros Hs Hv. destruct e as [socket plaintext o w|c|now chunk| |k outcome|o]; try done.
  - apply (keeps_live h); [apply handle_keeps|done].
  - apply (keeps_live h); [by apply (keeps_deleted _ _ c)|done].
  - rewrite output_step by apply Hv. unfold publishTerminalData.
    destruct (publish_same chunk (jm_values (subscriptions (h <| terminal := onPtyData chunk (terminal h) |>
      <| lastOutputAt := now |>))) (h <| terminal := onPtyData chunk (terminal h) |> <| lastOutputAt := now |>)) as [E1 E2].
    apply (keeps_live h); [|done]. apply keeps_refl; cbv zeta; [by rewrite E1|by rewrite E2].
  - apply (keeps_live h); [by apply keeps_refl|done].
  - apply (keeps_live h); [|done]. simpl. unfold relay_settles. repeat case_match; by apply keeps_refl.
Qed.

Lemma step_grows s key h e :
  calls_ok h -> live h -> stops e = false -> subscriptions h !! key = Some s ->
  grows s (chunks_of e) h (step h e).
Proof.
  intros Hc Hv Hs Hk. destruct e as [socket plaintext o w|c|now chunk| |k outcome|o]; try done.
  - eapply one_more_grows. by apply handle_one.
  - by apply chunks_refl.
  - rewrite output_step by apply Hv. unfold publishTerminalData. cbv zeta.
    pose proof (publish_all_grows s chunk (jm_values (subscriptions h))
      (h <| terminal := onPtyData chunk (terminal h) |> <| lastOutputAt := now |>)) as Hg.
    rewrite (one_value _ key) in Hg; [exact Hg|apply Hv|apply Hv|done].
  - by apply chunks_refl.
  - simpl. unfold relay_settles. destruct (relayCalls h !! k) as [[c i]|]; [|by apply chunks_refl].
    eexists. split; [reflexivity|]. simpl. by destruct outcome; simpl; rewrite Z.sub_diag.
Qed.

Lemma new_live : live new_handler.
Proof. split; [|done]. split; [apply jm_wf_empty|done]. Qed.
Lemma new_calls_ok : calls_ok new_handler.
Proof. split; [apply jm_wf_empty|done]. Qed.

Lemma rpc_run_snoc es e : run (es ++ [e]) = step (run es) e.
Proof. unfold run. by rewrite foldl_app. Qed.

Lemma run_live es : Forall (fun e => stops e = false) es -> live (run es).
Proof.
  induction es as [|e es IH] using rev_ind; intros Hs; [apply new_live|].
  apply Forall_app in Hs as [Hs He]. apply Forall_cons in He as [He _]. rewrite rpc_run_snoc. by apply live_step, IH.
Qed.

Lemma run_calls_ok es : calls_ok (run es).
Proof. induction es as [|e es IH] using rev_ind; [apply new_calls_ok|]. rewrite rpc_run_snoc. by apply step_account. Qed.

(** A subscriber gets the terminal's output exactly: as long as its subscription
    stands, the data frames sent to it are the chunks the terminal puts out, each once
    and in order, and all frames carry consecutive sequence numbers. *)
Theorem subscriber_gets_output es1 es2 key s :
  Forall (fun e => stops e = false) (es1 ++ es2) ->
  (forall es, es `prefix_of` es2 -> subscriptions (run (es1 ++ es)) !! key = Some s) ->
  exists new, log (run (es1 ++ es2)) = log (run es1) ++ new /\
    omap (data_to s) new = flat_map chunks_of es2 /\
    omap seq_of new = seqZ (terminalSeq (run es1)) (terminalSeq (run (es1 ++ es2)) - terminalSeq (run es1)).
Proof.
  intros Hs Hk.
  enough (grows s (flat_map chunks_of es2) (run es1) (run (es1 ++ es2))) as (new & A & B & C & _) by (by exists new).
  revert Hs Hk. induction es2 as [|e es2 IH] using rev_ind; intros Hs Hk.
  { rewrite app_nil_r. by apply chunks_refl. }
  rewrite app_assoc in Hs |- *. apply Forall_app in Hs as [Hs He]. apply Forall_cons in He as [He _].
  rewrite rpc_run_snoc, flat_map_app. simpl. rewrite app_nil_r. eapply chunks_trans.
  - apply IH; [done|]. intros es Hp. apply Hk. by apply prefix_app_r.
  - apply (step_grows s key); [apply run_calls_ok|by apply run_live|done|]. apply Hk. by exists [e].
Qed.

(** ** What is typed into the terminal *)

Definition writes t : list string :=
  omap (fun x => match x with PtyWrite text => Some text | _ => None end) (pty t).

(** The message types [text]: its sender presents its own token. *)
Definition types (e : Event) (text : string) : Prop :=
  exists socket plaintext o w raw request,
    e = Handle socket plaintext o w /\ JSON_parse plaintext = Some raw /\ RequestSchema raw = Some request /\
    strict_eq (Some (JStr (request_token request))) (deviceToken (device socket)) = true /\
    method request = "terminal.send" /\ input_text (default (JObj []) (params request)) = text /\
    text ≠ "" /\ Z.of_nat (String.length text) <= MAX_INPUT_BYTES.

Lemma resize_writes a b o t : writes (resize a b o t).1 = writes t.
Proof.
  unfold resize. repeat (case_match; simpl); unfold writes; simpl; rewrite ?omap_app; simpl; by rewrite ?app_nil_r.
Qed.

Lemma applyViewport_writes p o h : writes (terminal (applyViewport p o h).1) = writes (terminal h).
Proof.
  unfold applyViewport, with_terminal. repeat case_match; try done. simpl.
  rewrite <-(resize_writes j0 j1 o (terminal h)).
  match goal with E : resize _ _ _ _ = _ |- _ => by rewrite E end.
Qed.

Lemma after_viewport_writes socket request o f h :
  exists h', writes (terminal h') = writes (terminal h) /\
    (writes (terminal (after_viewport socket request o f h)) = writes (terminal h) \/
     after_viewport socket request o f h = f h').
Proof.
  unfold after_viewport. pose proof (applyViewport_writes (default (JObj []) (params request)) o h) as E.
  destruct (applyViewport _ _ _) as [h' [e|]]; simpl in E; exists h'; auto.
Qed.

Lemma dispatch_writes socket request o w h :
  writes (terminal (dispatch socket request o w h)) = writes (terminal h) \/
  exists text, writes (terminal (dispatch socket request o w h)) = writes (terminal h) ++ [text] /\
    method request = "terminal.send" /\ input_text (default (JObj []) (params request)) = text /\
    text ≠ "" /\ Z.of_nat (String.length text) <= MAX_INPUT_BYTES.
Proof.
  unfold dispatch. destruct (read_method _ _ _) as [[v b]|]; [by left|].
  destruct (String.eqb _ "terminal.subscribe").
  { left. unfold handleTerminalSubscribe. edestruct after_viewport_writes as (h' & E & [->| ->]); done. }
  destruct (String.eqb _ "terminal.unsubscribe").
  { left. unfold handleTerminalUnsubscribe. cbv zeta. by case_match. }
  destruct (String.eqb_spec (method request) "terminal.send") as [Hm|_].
  - unfold handleTerminalSend. edestruct after_viewport_writes as (h' & E & [E'|E']); rewrite E'; [by left|].
    rewrite <-E. cbv zeta. destruct (Z.ltb_spec MAX_INPUT_BYTES
      (Z.of_nat (String.length (input_text (default (JObj []) (params request)))))) as [|Hlen]; [by left|].
    destruct (String.eqb_spec (input_text (default (JObj []) (params request))) "") as [|Hne]; [by left|].
    right. eexists. split; [|by eauto]. unfold with_terminal, write. simpl.
    destruct w; simpl; unfold writes; simpl; by rewrite omap_app.
  - left. repeat case_match; try done.
    + edestruct after_viewport_writes as (h' & E & [->| ->]); done.
    + unfold handleGetEndpoints. cbv zeta. by destruct (negb has_relay).
    + unfold handleProvisionRelay. cbv zeta. by repeat case_match.
Qed.

Lemma step_writes h e text :
  text ∈ writes (terminal (step h e)) -> text ∈ writes (terminal h) \/ types e text.
Proof.
  destruct e as [socket plaintext o w|c|now chunk| |k outcome|o]; cbn [step]; [|auto| |auto|..].
  - unfold handle_message. destruct (JSON_parse plaintext) as [raw|] eqn:Hp; [|auto].
    destruct (RequestSchema raw) as [request|] eqn:Hr; [|auto].
    destruct (strict_eq _ _) eqn:Ht; [|auto]. simpl.
    destruct (dispatch_writes socket request o w h) as [->|(text' & -> & Hm & Hi & Hne & Hl)]; [auto|].
    rewrite elem_of_app, list_elem_of_singleton. intros [?| ->]; [auto|]. right.
    exists socket, plaintext, o, w, raw, request. repeat split; done.
  - assert (Hw : forall l h, writes (terminal (foldl (fun h (_ : nat) => publishTerminalData now chunk h) h l)) =
                   writes (terminal h)).
    { intros l. induction l as [|x l IH]; intros h0; [done|]. simpl. rewrite IH. unfold publishTerminalData. cbv zeta.
      destruct (publish_same chunk (jm_values (subscriptions (h0 <| lastOutputAt := now |>)))
        (h0 <| lastOutputAt := now |>)) as [_ ->]. done. }
    rewrite Hw. auto.
  - unfold relay_settles. repeat case_match; auto.
  - unfold with_terminal, close. left. revert select (text ∈ _). repeat (case_match; simpl); auto;
      simplify_eq/=; unfold writes; simpl; rewrite ?omap_app; simpl; by rewrite ?app_nil_r.
Qed.

(** C31. Only a paired device types into the terminal. Whatever reaches the terminal's
    input was the input of a [terminal.send] of at most 64 KiB that carried the token
    of the device its socket was authenticated for. *)
Theorem only_owner_types es text :
  text ∈ writes (terminal (run es)) -> exists e, e ∈ es /\ types e text.
Proof.
  induction es as [|e es IH] using rev_ind; [by intros ?%elem_of_nil|]. rewrite rpc_run_snoc.
  intros [Hin|Ht]%step_writes.
  - destruct (IH Hin) as (e' & He & Ht). exists e'. split; [apply elem_of_app; by left|done].
  - exists e. split; [apply elem_of_app; right; by left|done].
Qed.
End Facts.

(** ** A phone that subscribes, types and hangs up *)

Section Demo.

Definition demo_request (i m : string) (p : list (string * json)) : RpcRequest :=
  {| id := i; request_token := "t1"; method := m; params := Some (JObj p) |}.
#[local] Instance demo_rpc : RpcEnv :=
  {| JSON_parse := fun s => if String.eqb s "{" then None else Some (JStr s);
     RequestSchema := fun j =>
       match j with
       | JStr "sub" => Some (demo_request "1" "terminal.subscribe"
                               [("viewport", JObj [("cols", JNum (NInt 80)); ("rows", JNum (NInt 500))])])
       | JStr "type" => Some (demo_request "2" "terminal.send" [("text", JStr "ls"); ("enter", JBool true)])
       | JStr "relay" => Some (demo_request "3" "pairing.getEndpoints" [])
       | _ => None
       end;
     runtimeId := "pie-relay-1"; cwd := "/home/me/"; startedAt := 0; has_relay := true |}.
Definition demo_phone (token : string) : AuthenticatedMobileSocket :=
  {| s_ws := 0; MobileSockets.connectionId := "c0";
     device := {| deviceId := Some (JStr "d"); deviceToken := Some (JStr token); scope := None |};
     s_transport := DirectSocket |}.
Definition demo_asks (s : string) : Event := Handle (demo_phone "t1") s None None.

Definition demo_subscribed : list Event := [Output 1 [36]; demo_asks "sub"].
Definition demo_typed : list Event :=
  [demo_asks "type"; Output 2 [108; 115]; Handle (demo_phone "t2") "type" None None; demo_asks "{";
   Output 3 [120]; demo_asks "relay"; RelaySettles 0 (Throw "relay_control_not_active")].
Definition enter_text : string := String (Ascii.ascii_of_nat 13) "".

Example demo_rpc_log :
  let h := run (demo_subscribed ++ demo_typed ++ [Closed "c0"; Output 4 [121]]) in
  js_filter (fun x => match x with CallRelay _ _ => false | _ => true end) (log h) =
  [Reply "c0" (Success "1" (Scrollback [36] 80 120 1) true);
   Reply "c0" (Success "2" (Plain (JObj [("send", JObj [("handle", JStr "pie-relay-terminal-1");
     ("accepted", JBool true); ("bytesWritten", JNum (NInt 3))])])) false);
   Reply "c0" (Success "1" (TerminalData [108; 115] 2) true);
   Reply "c0" (Failure "2" "unauthorized" "Device token mismatch");
   Reply "c0" (Failure "unknown" "bad_request" "Invalid JSON");
   Reply "c0" (Success "1" (TerminalData [120] 3) true);
   Reply "c0" (Failure "3" "relay_error" "relay_control_not_active")] /\
  writes (terminal h) = ["ls" +:+ enter_text] /\ basename cwd = "me".
Proof. repeat split; vm_compute; reflexivity. Qed.

Lemma subscriber_gets_output_witness :
  exists new, log (run (demo_subscribed ++ demo_typed)) = log (run demo_subscribed) ++ new /\
    omap (data_to {| connectionId := "c0"; requestId := "1" |}) new = [[108; 115]; [120]] /\
    omap seq_of new = seqZ 2 2.
Proof.
  destruct (subscriber_gets_output demo_subscribed demo_typed "c0:1" {| connectionId := "c0"; requestId := "1" |})
    as (new & A & B & C);
    [| |exists new; split; [exact A|]; split; [rewrite B|rewrite C]; vm_compute; reflexivity].
  - repeat constructor.
  - intros es Hp. assert (Hin : es ∈ map (fun n => take n demo_typed) (seq 0 8)).
    { destruct Hp as [k Hk]. apply list_elem_of_fmap. exists (length es). split.
      - by rewrite Hk, take_app_length.
      - apply elem_of_seq. apply (f_equal length) in Hk. rewrite length_app in Hk. simpl in Hk. lia. }
    simpl in Hin. rewrite !elem_of_cons in Hin.
    repeat (destruct Hin as [->|Hin]; [vm_compute; reflexivity|]). by apply elem_of_nil in Hin.
Defined.

Lemma only_owner_types_witness :
  exists e, e ∈ demo_subscribed ++ demo_typed /\ types e ("ls" +:+ enter_text).
Proof.
  apply (only_owner_types (demo_subscribed ++ demo_typed)). apply (list_elem_of_lookup_2 _ 0). vm_compute. reflexivity.
Defined.
End Demo.
