(* ===== verification/RelayUrls.v ===== *)
(** * URLs of the relay
    (relay-http-client.ts isAllowedRelayOrigin, relay-transport.ts and
    relay-control-client.ts URL checks, relay-gateway.ts relayOrigin, relay-url.ts)

    [new URL(s)] and node's [isIP] are parameters: [parse_url] gives the parts of
    a URL, or nothing when the constructor throws. [origin] and the setters used
    are written out for the four schemes that have an origin: setting the
    protocol keeps the host, since [http] and [ws], [https] and [wss] share their
    default port. *)

From S2P Require Import Prelude JsText.

Local Open Scope string_scope.
Local Open Scope list_scope.

(** [protocol] without its colon; [host] is the host name with its port. *)
Record Url := {
  protocol : string; host : string; hostname : string; pathname : string; search : string; hash : string }.

Class UrlEnv := { parse_url : string -> option Url; isIP : string -> Z }.

Definition origin_of (p : string) (u : Url) : string :=
  if bool_decide (p ∈ ["http"; "https"; "ws"; "wss"]) then p +:+ "://" +:+ host u else "null".
Definition origin (u : Url) : string := origin_of (protocol u) u.

Section Urls.
Context `{UrlEnv}.

(** [/^172\.(1[6-9]|2\d|3[01])\./] *)
Definition digits (l : list string) (prefix : string) (s : string) : bool :=
  existsb (fun d => starts_with (prefix +:+ d) s) l.
Definition private_172 (s : string) : bool :=
  digits ["16."; "17."; "18."; "19."; "20."; "21."; "22."; "23."; "24."; "25."; "26."; "27."; "28."; "29.";
          "30."; "31."] "172." s.

Definition isAllowedRelayOrigin (value : string) : bool :=
  match parse_url value with
  | None => false
  | Some url =>
      let loopback := bool_decide (hostname url ∈ ["127.0.0.1"; "localhost"; "[::1]"]) in
      let privateIpv4 := (isIP (hostname url) =? 4)%Z &&
        (starts_with "10." (hostname url) || starts_with "192.168." (hostname url) || private_172 (hostname url)) in
      let privateIpv6 := (isIP (hostname url) =? 6)%Z &&
        (starts_with "[fc" (to_lower (hostname url)) || starts_with "[fd" (to_lower (hostname url))) in
      String.eqb (origin url) value &&
      (String.eqb (protocol url) "https" ||
       (String.eqb (protocol url) "http" && (loopback || privateIpv4 || privateIpv6)))
  end.

(** The WebSocket origin of a cell. *)
Definition relayWebSocketOrigin (cellUrl : string) : result string :=
  match parse_url cellUrl with
  | None => Throw "Invalid URL"
  | Some url =>
      if negb (String.eqb (pathname url) "/") || negb (String.eqb (search url) "") || negb (String.eqb (hash url) "")
      then Throw "relay_cell_url_must_be_an_origin"
      else if String.eqb (protocol url) "https" then Ok (origin_of "wss" url)
      else if String.eqb (protocol url) "http" then Ok (origin_of "ws" url)
      else Throw "relay_cell_url_must_use_http"
  end.

(** [controlWebSocketUrl]: the origin the host proof names, and the URL opened. *)
Definition controlWebSocketUrl (cellUrl : string) : result (string * string) :=
  match parse_url cellUrl with
  | None => Throw "Invalid URL"
  | Some url =>
      if negb (String.eqb (pathname url) "/") || negb (String.eqb (search url) "") || negb (String.eqb (hash url) "")
      then Throw "relay_cell_url_must_be_an_origin"
      else if String.eqb (protocol url) "https" then
        Ok (origin url, origin_of "wss" url +:+ "/v1/host/control")
      else if String.eqb (protocol url) "http" then
        Ok (origin url, origin_of "ws" url +:+ "/v1/host/control")
      else Throw "relay_cell_url_must_use_http"
  end.

(** [relayOrigin] of the gateway; [value] is trimmed. *)
Definition relayOrigin (value : string) : result string :=
  match parse_url value with
  | None => Throw "Invalid URL"
  | Some url =>
      let p := if String.eqb (protocol url) "ws" then "http"
               else if String.eqb (protocol url) "wss" then "https" else protocol url in
      if negb (String.eqb p "http") && negb (String.eqb p "https") then Throw "Relay URL must use http(s) or ws(s)"
      else Ok (origin_of p url)
  end.

(** [resolveRelayUrl]; the explicit URL and the variable are trimmed. *)
Definition DEFAULT_RELAY_ORIGIN : string := "https://relay.cookai.dev".
Definition non_empty (s : option string) : option string :=
  match s with Some "" => None | _ => s end.
Definition resolveRelayUrl (explicitUrl PIE_RELAY_URL : option string) : result string :=
  let relayUrl := match non_empty explicitUrl with
                  | Some s => s
                  | None => default DEFAULT_RELAY_ORIGIN (non_empty PIE_RELAY_URL)
                  end in
  match parse_url relayUrl with
  | None => Throw "Invalid URL"
  | Some url =>
      if negb (bool_decide (protocol url ∈ ["http"; "https"; "ws"; "wss"]))
      then Throw "Relay URL must use http(s) or ws(s)"
      else Ok (origin url)
  end.

(** The two checks of a cell's URL agree. *)
Lemma control_url_iff cellUrl :
  (exists o, relayWebSocketOrigin cellUrl = Ok o) <-> (exists p, controlWebSocketUrl cellUrl = Ok p).
Proof.
  unfold relayWebSocketOrigin, controlWebSocketUrl. destruct (parse_url cellUrl) as [url|]; [|naive_solver].
  destruct (_ || _); [naive_solver|]. destruct (String.eqb _ "https"); [naive_solver|].
  destruct (String.eqb _ "http"); naive_solver.
Qed.

(** A URL the director may name is one a transport accepts, if it has no path. *)
Lemma allowed_opens value url :
  parse_url value = Some url -> pathname url = "/" -> search url = "" -> hash url = "" ->
  isAllowedRelayOrigin value = true -> exists o, relayWebSocketOrigin value = Ok o.
Proof.
  intros Hp Hpath Hs Hh. unfold isAllowedRelayOrigin, relayWebSocketOrigin. rewrite Hp, Hpath, Hs, Hh. simpl.
  intros [_ Hproto]%andb_true_iff. destruct (String.eqb (protocol url) "https"); [eauto|].
  simpl in Hproto. apply andb_true_iff in Hproto as [-> _]. eauto.
Qed.

Lemma starts_with_app p q s : starts_with (p +:+ q) s = true -> starts_with p s = true.
Proof.
  revert s. induction p as [|a p IH]; intros s Hs; [done|]. destruct s as [|b s]; [done|].
  simpl in Hs |- *. apply andb_true_iff in Hs as [-> Hs]. by apply IH.
Qed.

(** A host name in brackets is not an address to [isIP], so the private IPv6 branch
    accepts nothing: plain http is allowed for no private IPv6 relay. *)
Lemma private_ipv6_refused value url :
  (forall s, starts_with "[" s = true -> isIP s = 0%Z) ->
  parse_url value = Some url -> protocol url = "http" -> starts_with "[f" (hostname url) = true ->
  isAllowedRelayOrigin value = false.
Proof.
  intros Hip Hp Hproto Hh. unfold isAllowedRelayOrigin. rewrite Hp, Hproto.
  assert (Hb : isIP (hostname url) = 0%Z) by (apply Hip, (starts_with_app "[" "f"), Hh). rewrite Hb. simpl.
  rewrite bool_decide_false; [by rewrite andb_false_r|]. intros Hin. rewrite !elem_of_cons in Hin.
  destruct Hin as [E|[E|[E|[]%elem_of_nil]]]; by rewrite E in Hh.
Qed.
End Urls.
