(* ===== verification/RelayProtocol.v ===== *)
(** * The messages of the relay's control protocol
    (src/main/runtime/relay/relay-control-protocol.ts and
    src/shared/mobile-relay-credential-contract.ts)

    What the zod schemas accept, as checks of a parsed JSON value. A strict object has no
    key that its schema does not name; [z.number().int()] takes safe integers only;
    lengths are in UTF-16 code units. An accepted value is passed on as it is: it has the
    schema's keys, whatever their order. *)

From S2P Require Import Prelude JsMap Json JsText.

Local Open Scope string_scope.
Local Open Scope list_scope.
Local Open Scope Z_scope.

(** ** Schemas *)

Abbreviation field_schema := (option json -> bool).

(** [z.string().min(lo).max(hi)] *)
Definition bounded_text (lo hi : Z) (v : option json) : option string :=
  s ← as_string v; if (lo <=? js_length s) && (js_length s <=? hi) then Some s else None.
(** [z.number().int()] between bounds. *)
Definition bounded_int (lo hi : Z) (v : option json) : option Z :=
  z ← safeInteger v; if (lo <=? z) && (z <=? hi) then Some z else None.
Definition text_field (lo hi : Z) : field_schema := fun v => is_some (bounded_text lo hi v).
Definition int_field (lo hi : Z) : field_schema := fun v => is_some (bounded_int lo hi v).
(** [z.string().regex(/^[...]{n}$/)], perhaps with a suffix. *)
Definition pattern_field (class : Ascii.ascii -> bool) (n : nat) (suffix : string) : field_schema := fun v =>
  match as_string v with
  | Some s => forallb class (take n (chars s)) && (length (take n (chars s)) =? n)%nat && String.eqb (of_chars (drop n (chars s))) suffix
  | None => false
  end.
(** [z.literal], [z.enum] and [z.boolean] *)
Definition text_literal (l : list string) : field_schema := fun v => match as_string v with Some s => bool_decide (s ∈ l) | None => false end.
Definition int_literal (z : Z) : field_schema := fun v => match v with Some (JNum (NInt z')) => z' =? z | _ => false end.
Definition boolean_field : field_schema := fun v => match v with Some (JBool _) => true | _ => false end.
Definition optional (f : field_schema) : field_schema := fun v => match v with None => true | Some _ => f v end.
(** [z.array(item).max(n)] *)
Definition array_field (item : field_schema) (n : nat) : field_schema := fun v =>
  match v with Some (JArr l) => forallb (fun x => item (Some x)) l && (length l <=? n)%nat | _ => false end.

(** [z.object(shape).strict()] *)
Definition strict_object (shape : list (string * field_schema)) : field_schema := fun v =>
  match v with
  | Some (JObj fields) => forallb (fun f => bool_decide (f.1 ∈ shape.*1)) fields && forallb (fun '(k, check) => check (assoc k fields)) shape
  | _ => false
  end.
Definition accepts (shape : list (string * field_schema)) (v : json) : option json := if strict_object shape (Some v) then Some v else None.

(** ** Fields *)

Definition between (lo hi : nat) (c : Ascii.ascii) : bool := let n := Ascii.nat_of_ascii c in ((lo <=? n) && (n <=? hi))%nat.
Definition alphanumeric (c : Ascii.ascii) : bool := between 65 90 c || between 97 122 c || between 48 57 c.
Definition OpaqueIdSchema : field_schema := text_field 1 128.
(** [/^[A-Za-z0-9_-]{43}$/], [/^[A-Za-z0-9+/]{43}=$/], [/^[A-Za-z0-9+/]{32}$/], [/^[A-Za-z0-9_-]{16}$/] *)
Definition url_char (c : Ascii.ascii) : bool := alphanumeric c || between 95 95 c || between 45 45 c.
Definition base64_char (c : Ascii.ascii) : bool := alphanumeric c || between 43 43 c || between 47 47 c.
Definition Base64Url32ByteSchema : field_schema := pattern_field url_char 43 "".
Definition Base6432ByteSchema : field_schema := pattern_field base64_char 43 "=".
Definition Base64Raw24ByteSchema : field_schema := pattern_field base64_char 32 "".
Definition EpochMsSchema : field_schema := int_field 0 MAX_SAFE_INTEGER.
Definition GenerationSchema : field_schema := int_field 0 MAX_SAFE_INTEGER.
Definition type_is (t : string) : string * field_schema := ("type", text_literal [t]).
Definition version_1 : string * field_schema := ("v", int_literal 1).

(** ** Messages of the handshake and of the cell *)

Definition RelayHostChallengeMessage : list (string * field_schema) :=
  [type_is "host-challenge"; ("challengeId", OpaqueIdSchema); ("relayEphemeralPublicKeyB64", Base6432ByteSchema);
   ("nonceB64", Base64Raw24ByteSchema); ("ciphertextB64", text_field 1 16384); ("expiresAt", EpochMsSchema)].
Definition PendingConnectionSchema : field_schema := strict_object [("connId", OpaqueIdSchema); ("connTicket", Base64Url32ByteSchema)].
Definition RelayHostHelloAckMessage : list (string * field_schema) :=
  [type_is "host-hello-ack"; version_1; ("generation", GenerationSchema); ("controlResumeSecret", Base64Url32ByteSchema);
   ("leaseExpiresAt", EpochMsSchema); ("activeConnIds", array_field OpaqueIdSchema 8); ("pendingConns", array_field PendingConnectionSchema 8)].
Definition RelayConnectionOpenMessage : list (string * field_schema) :=
  [type_is "conn-open"; ("connId", OpaqueIdSchema); ("connTicket", Base64Url32ByteSchema); ("kind", text_literal ["invite"; "resume"]);
   ("relayDeviceId", OpaqueIdSchema); ("attachDeadlineMs", int_field 1 60000)].
Definition RelayDrainMessage : list (string * field_schema) :=
  [type_is "drain"; ("graceMs", int_field 0 3600000); ("recovery", text_literal ["resolve-director"])].
Definition RelayPingMessage : list (string * field_schema) := [type_is "ping"; ("t", EpochMsSchema)].

(** ** Answers to requests *)

Definition DeviceCredentialInstalledFields : list (string * field_schema) :=
  [version_1; ("reqId", OpaqueIdSchema); ("authorizationMode", text_literal ["relay-basis"; "authenticated-direct"]);
   ("currentVersion", int_field 1 MAX_SAFE_INTEGER); ("resumeExpiresAt", EpochMsSchema); ("graceExpiresAt", optional EpochMsSchema)].
Definition DeviceResumeConfirmedFields : list (string * field_schema) :=
  [version_1; ("reqId", OpaqueIdSchema); ("currentVersion", int_field 1 MAX_SAFE_INTEGER); ("acceptedAs", text_literal ["current"; "grace"]);
   ("renewed", boolean_field); ("resumeExpiresAt", EpochMsSchema); ("graceExpiresAt", optional EpochMsSchema)].

Definition RelayInviteCreatedMessage : list (string * field_schema) :=
  [type_is "invite-created"; ("reqId", OpaqueIdSchema); ("inviteToken", Base64Url32ByteSchema); ("expiresAt", EpochMsSchema); ("maxAttempts", int_field 1 16)].
Definition RelayDeviceRevokedMessage : list (string * field_schema) := [type_is "device-revoked"; ("reqId", OpaqueIdSchema)].
Definition RelayDeviceCredentialInstalledMessage : list (string * field_schema) := DeviceCredentialInstalledFields ++ [type_is "device-credential-installed"].
Definition install_status_type : string * field_schema := type_is "device-credential-install-status-result".
Definition InstallStatusNotFound : list (string * field_schema) :=
  [install_status_type; version_1; ("reqId", OpaqueIdSchema); ("state", text_literal ["not-found"])].
Definition InstallStatusCommitted : list (string * field_schema) :=
  [install_status_type; version_1; ("reqId", OpaqueIdSchema); ("state", text_literal ["committed"]);
   ("result", strict_object DeviceCredentialInstalledFields)].
Definition RelayDeviceCredentialInstallStatusResultMessage (v : json) : option json :=
  match accepts InstallStatusNotFound v with Some v => Some v | None => accepts InstallStatusCommitted v end.
Definition RelayDeviceResumeConfirmedMessage : list (string * field_schema) := DeviceResumeConfirmedFields ++ [type_is "device-resume-confirmed"].
Definition RelayControlErrorMessage : list (string * field_schema) :=
  [type_is "control-error"; ("reqId", optional OpaqueIdSchema); ("code", text_field 1 128)].

(** ** What acceptance means *)

Lemma accepts_self shape v w : accepts shape v = Some w -> w = v /\ strict_object shape (Some v) = true.
Proof. unfold accepts. destruct (strict_object shape (Some v)); [|done]. by intros [= ->]. Qed.
(** A field that its schema names passes its check. *)
Lemma strict_field shape v k f : strict_object shape (Some v) = true -> (k, f) ∈ shape -> f (prop k v) = true.
Proof.
  cbn. destruct v as [| | | | |fields]; try done. intros [_ H]%andb_prop Hin. rewrite forallb_forall in H.
  apply (H (k, f)). by apply list_elem_of_In.
Qed.
(** No other key. *)
Lemma strict_key shape fields k x : strict_object shape (Some (JObj fields)) = true -> (k, x) ∈ fields -> k ∈ shape.*1.
Proof.
  cbn. intros [H _]%andb_prop Hin. rewrite forallb_forall in H. specialize (H (k, x) ltac:(by apply list_elem_of_In)).
  by apply bool_decide_eq_true_1 in H.
Qed.
Lemma text_literal_one t v : text_literal [t] v = true -> v = Some (JStr t).
Proof.
  unfold text_literal. destruct v as [[| | |s| |]|]; try done. cbn. intros ->%bool_decide_eq_true_1%list_elem_of_singleton. done.
Qed.
Lemma int_field_range lo hi v : int_field lo hi v = true -> exists z, v = Some (JNum (NInt z)) /\ lo <= z <= hi /\ - MAX_SAFE_INTEGER <= z <= MAX_SAFE_INTEGER.
Proof.
  unfold int_field, bounded_int, safeInteger. destruct v as [[| |[z| |]| | |]|]; try done. destruct (isSafeInteger z) eqn:E; [|done]. cbn.
  destruct ((lo <=? z) && (z <=? hi)) eqn:E2; [|done]. intros _. exists z. unfold isSafeInteger in E. split_and!; [done|lia..].
Qed.
(** Two schemas of different types accept no value in common. *)
Lemma types_apart shape shape' t t' v : (("type", text_literal [t]) : string * field_schema) ∈ shape -> (("type", text_literal [t']) : string * field_schema) ∈ shape' -> t <> t' ->
  strict_object shape (Some v) = true -> strict_object shape' (Some v) = false.
Proof.
  intros H1 H2 Hne Ha. destruct (strict_object shape' (Some v)) eqn:Hb; [|done].
  pose proof (text_literal_one _ _ (strict_field _ _ _ _ Ha H1)). pose proof (text_literal_one _ _ (strict_field _ _ _ _ Hb H2)). congruence.
Qed.
