(* ===== verification/RelayHttp.v ===== *)
(** * The calls to the relay's director
    (src/main/runtime/relay/relay-http-client.ts)

    How the exchange of a token and the request for an assignment end, given how their
    [fetch] ended. [fetch] is a parameter, as are [new URL] and [isIP] (RelayUrls.v). *)

From S2P Require Import Prelude JsMap Json JsText RelayUrls RelayProtocol.

Local Open Scope string_scope.
Local Open Scope list_scope.
Local Open Scope Z_scope.

Record RelayAssignment := { cellUrl : string; epoch : Z; lease : string }.
Record RelayAuthorization := { relayToken : string; expiresAt : Z }.

(** A response of [fetch]; [body] is what its [json()] returns, if it does. *)
Record HttpResponse := { status : Z; body : option json }.
Definition response_ok (r : HttpResponse) : bool := (200 <=? status r) && (status r <? 300).
Abbreviation FetchOutcome := (result HttpResponse).

Definition RelayTokenResponseSchema (v : json) : option RelayAuthorization :=
  v ← accepts [("relayToken", text_field 1 8192); ("expiresAt", int_field 1 MAX_SAFE_INTEGER)] v;
  token ← bounded_text 1 8192 (prop "relayToken" v);
  expiry ← bounded_int 1 MAX_SAFE_INTEGER (prop "expiresAt" v);
  Some {| relayToken := token; expiresAt := expiry |}.
Definition AssignmentResponseSchema (v : json) : option RelayAssignment :=
  v ← accepts [version_1; ("cellUrl", text_field 1 2048); ("assignmentEpoch", int_field 0 MAX_SAFE_INTEGER); ("lease", text_field 1 8192)] v;
  url ← bounded_text 1 2048 (prop "cellUrl" v);
  assignmentEpoch ← bounded_int 0 MAX_SAFE_INTEGER (prop "assignmentEpoch" v);
  l ← bounded_text 1 8192 (prop "lease" v);
  Some {| cellUrl := url; epoch := assignmentEpoch; lease := l |}.

Section Http.
Context `{UrlEnv}.

(** [RelayHttpError] *)
Definition token_exchange_failed (code : Z) : string := "relay_token-exchange_failed_" +:+ int_string code.
Definition assignment_failed (code : Z) : string := "relay_assignment_failed_" +:+ int_string code.

(** How [exchangeRelayAuthorization] ends when its [fetch] ended as [o]. *)
Definition exchangeRelayAuthorization (o : FetchOutcome) : result RelayAuthorization :=
  match o with
  | Throw m => Throw m
  | Ok response =>
      if negb (response_ok response) then Throw (token_exchange_failed (status response))
      else
        match body response with
        | None => Throw "Unexpected token"
        | Some v => match RelayTokenResponseSchema v with Some a => Ok a | None => Throw (token_exchange_failed 502) end
        end
  end.

(** How [requestRelayAssignment] ends when its [fetch] ended as [o]. *)
Definition requestRelayAssignment (directorUrl : string) (o : FetchOutcome) : result RelayAssignment :=
  if negb (isAllowedRelayOrigin directorUrl) then Throw (assignment_failed 400)
  else
    match o with
    | Throw m => Throw m
    | Ok response =>
        if negb (response_ok response) then Throw (assignment_failed (status response))
        else
          match body response with
          | None => Throw "Unexpected token"
          | Some v =>
              match AssignmentResponseSchema v with
              | Some a => if isAllowedRelayOrigin (cellUrl a) then Ok a else Throw (assignment_failed 502)
              | None => Throw (assignment_failed 502)
              end
          end
    end.

(** A cell is only dialled at an allowed origin. *)
Lemma assigned_cell directorUrl o a : requestRelayAssignment directorUrl o = Ok a -> isAllowedRelayOrigin (cellUrl a) = true.
Proof.
  unfold requestRelayAssignment. repeat case_match; try done. by intros [= ->].
Qed.
End Http.
