(* ===== verification/RelayTransport.v ===== *)
(** * The relay's data transport (src/main/runtime/rpc/relay-transport.ts)

    [CloudRelayTransport] opens one WebSocket to the relay cell for every phone
    connection the control channel announces, and hands its messages and its end
    to the wiring. Sockets are numbered by who creates them; a socket's closure
    variables are kept under its number for good. Socket events and the attach
    deadline are the events of a run; what the transport does is a log. An
    [openConnection] promise settles once: later settlements do nothing.

    Theorems: every socket is reported closed at most once, exactly when it is
    forgotten, and an [openConnection] that saw its socket fail has settled. *)

From S2P Require Import Prelude JsMap Json JsText E2eeChannel MobileSockets.

Local Open Scope string_scope.
Local Open Scope list_scope.
Local Open Scope Z_scope.

Record RelayConnectionOpen := {
  connId : string; connTicket : string; kind : CredentialKind; relayDeviceId : string; attachDeadlineMs : Z }.

(** The variables of one call of [openConnection]; [deadline]: the timer is armed. *)
Record DataSocket := {
  connection : RelayConnectionOpen;
  opened : bool;
  attached : bool;
  finalized : bool;
  deadline : bool;
  on_open : bool;
  on_error : bool;
  on_close : bool;
  settled : bool }.
#[export] Instance eta_DataSocket : Eta DataSocket :=
  fun x => Build_DataSocket (connection x) (opened x) (attached x) (finalized x) (deadline x) (on_open x)
    (on_error x) (on_close x) (settled x).

Inductive TransportEffect :=
  | CreateSocket (ws : nat) (url : string)
  | DataSend (ws : nat) (text : string)
  | Terminate (ws : nat)
  | OpenSettled (connId : string) (outcome : result unit)
  | MessageHandler (ws : nat) (metadata : Metadata) (raw : Raw)
  | OnConnectionClosed (connId : string)
  | CloseHandler (ws : nat) (clientId : option json) (hasOtherConnections : bool)
  | TransportThrows (message : string).

Record CloudRelayTransport := {
  cellWebSocketOrigin : string;
  hostId : string;
  generation : option json;  (** a number; the client's acknowledgement is not always checked *)
  socketsByConnectionId : jsmap string nat;
  metadataBySocket : jsmap nat Metadata;
  clientIds : jsmap nat (option json);
  stopped : bool;
  sockets : gmap nat DataSocket;
  transport_log : list TransportEffect }.
#[export] Instance eta_CloudRelayTransport : Eta CloudRelayTransport :=
  fun x => Build_CloudRelayTransport (cellWebSocketOrigin x) (hostId x) (generation x) (socketsByConnectionId x)
    (metadataBySocket x) (clientIds x) (stopped x) (sockets x) (transport_log x).
Implicit Types (t : CloudRelayTransport) (ws : nat).

Definition new_transport (wsOrigin relayHostId : string) (g : option json) : CloudRelayTransport :=
  {| cellWebSocketOrigin := wsOrigin; hostId := relayHostId; generation := g; socketsByConnectionId := ∅;
     metadataBySocket := ∅; clientIds := ∅; stopped := false; sockets := ∅; transport_log := [] |}.

Definition temit (x : TransportEffect) t : CloudRelayTransport := t <| transport_log := transport_log t ++ [x] |>.
Definition update_socket ws (f : DataSocket -> DataSocket) t : CloudRelayTransport :=
  t <| sockets := alter f ws (sockets t) |>.

(** ** The sockets' clients *)

Definition setClientId ws (clientId : option json) t : CloudRelayTransport :=
  if jm_has ws (metadataBySocket t) then t <| clientIds := <[ws := clientId]> (clientIds t) |> else t.

Definition setGeneration (g : option json) t : CloudRelayTransport * result unit :=
  if strict_eq g (generation t) then (t, Ok tt)
  else if (0 <? jm_size (socketsByConnectionId t)) ||
          match safeInteger g with Some z => z <=? 0 | None => true end
  then (t, Throw "invalid_relay_generation_transition")
  else (t <| generation := g |>, Ok tt).

Definition terminateClientConnections (clientId : option json) t : CloudRelayTransport :=
  foldl (fun t '(ws, candidate) => if strict_eq candidate clientId then temit (Terminate ws) t else t)
    t (jm_entries (clientIds t)).

(** [metadataFor] throws on a socket that was finalized. *)
Definition metadataFor ws t : result Metadata :=
  match metadataBySocket t !! ws with Some m => Ok m | None => Throw "unknown_relay_socket" end.

(** ** Starting and stopping *)

Definition start t : CloudRelayTransport := t <| stopped := false |>.

(** The sockets terminated are those whose close the returned promise awaits. *)
Definition stop t : CloudRelayTransport * list nat :=
  let ws := jm_keys (metadataBySocket t) in
  (foldl (fun t ws => temit (Terminate ws) t) (t <| stopped := true |>) ws, ws).

(** ** One connection *)

Definition open_settles ws (outcome : result unit) t : CloudRelayTransport :=
  match sockets t !! ws with
  | Some s =>
      if settled s then t
      else temit (OpenSettled (connId (connection s)) outcome) (update_socket ws (fun s => s <| settled := true |>) t)
  | None => t
  end.

(** [ws] is the number of the socket [createSocket] returns, if it returns. *)
Definition openConnection (connection : RelayConnectionOpen) (ws : option nat) t : CloudRelayTransport :=
  if stopped t then temit (OpenSettled (connId connection) (Throw "relay_transport_stopped")) t
  else if jm_has (connId connection) (socketsByConnectionId t) then
    temit (OpenSettled (connId connection) (Ok tt)) t
  else
    match ws with
    | None => temit (OpenSettled (connId connection) (Throw "createSocket")) t
    | Some ws =>
        let url := cellWebSocketOrigin t +:+ "/v1/host/data/" +:+ encodeURIComponent (connId connection) in
        let metadata := RelaySocket (hostId t) (relayDeviceId connection) (connId connection) (kind connection) in
        temit (CreateSocket ws url)
          (t <| socketsByConnectionId := <[connId connection := ws]> (socketsByConnectionId t) |>
             <| metadataBySocket := <[ws := metadata]> (metadataBySocket t) |>
             <| sockets := <[ws := {| connection := connection; opened := false; attached := false;
                  finalized := false; deadline := true; on_open := true; on_error := true; on_close := true;
                  settled := false |}]> (sockets t) |>)
    end.

Definition finalize ws t : CloudRelayTransport :=
  match sockets t !! ws with
  | None => t
  | Some s =>
      if finalized s then t
      else
        let clientId := default None (clientIds t !! ws) in
        let t := update_socket ws (fun s => s <| finalized := true |> <| deadline := false |>) t in
        let t := t <| socketsByConnectionId := delete (connId (connection s)) (socketsByConnectionId t) |>
                   <| metadataBySocket := delete ws (metadataBySocket t) |>
                   <| clientIds := delete ws (clientIds t) |> in
        let t := temit (OnConnectionClosed (connId (connection s))) t in
        let hasOtherConnections :=
          match clientId with
          | None | Some JNull => false
          | Some _ => existsb (fun c => strict_eq c clientId) (jm_values (clientIds t))
          end in
        temit (CloseHandler ws clientId hasOtherConnections) t
  end.

Definition host_data_auth (s : DataSocket) t : json :=
  JObj ([("type", JStr "host-data-auth"); ("v", JNum (NInt 1)); ("connTicket", JStr (connTicket (connection s)))] ++
        match generation t with Some g => [("generation", g)] | None => [] end).

Inductive SocketEvent :=
  | SocketOpen
  | SocketMessage (raw : Raw)
  | SocketError (message : string)
  | SocketClose
  | AttachDeadline.

Definition socket_step ws (e : SocketEvent) t : CloudRelayTransport :=
  match sockets t !! ws with
  | None => t
  | Some s =>
      match e with
      | SocketOpen =>
          if on_open s then
            open_settles ws (Ok tt)
              (temit (DataSend ws (JSON_stringify (host_data_auth s t)))
                 (update_socket ws (fun s => s <| on_open := false |> <| opened := true |>) t))
          else t
      | SocketMessage raw =>
          let t := update_socket ws (fun s => s <| attached := true |>
                     <| deadline := if attached s then deadline s else false |>) t in
          match metadataFor ws t with
          | Ok metadata => temit (MessageHandler ws metadata raw) t
          | Throw m => temit (TransportThrows m) t
          end
      | SocketError message =>
          if on_error s then
            let t := update_socket ws (fun s => s <| on_error := false |>) t in
            if opened s then t else open_settles ws (Throw message) (finalize ws t)
          else t
      | SocketClose =>
          if on_close s then finalize ws (update_socket ws (fun s => s <| on_close := false |>) t) else t
      | AttachDeadline =>
          if deadline s then
            let t := temit (Terminate ws) (update_socket ws (fun s => s <| deadline := false |>) t) in
            if opened s then t else open_settles ws (Throw "relay_host_data_attach_timeout") t
          else t
      end
  end.

(** ** Runs *)

Inductive TransportEvent :=
  | OpenConnection (connection : RelayConnectionOpen) (ws : option nat)
  | OnSocket (ws : nat) (e : SocketEvent)
  | SetClientId (ws : nat) (clientId : option json)
  | SetGeneration (g : option json)
  | TerminateClient (clientId : option json)
  | Start
  | Stop.

Definition transport_step t (e : TransportEvent) : CloudRelayTransport :=
  match e with
  | OpenConnection connection ws => openConnection connection ws t
  | OnSocket ws e => socket_step ws e t
  | SetClientId ws clientId => setClientId ws clientId t
  | SetGeneration g => (setGeneration g t).1
  | TerminateClient clientId => terminateClientConnections clientId t
  | Start => start t
  | Stop => (stop t).1
  end.
Definition transport_run t (es : list TransportEvent) : CloudRelayTransport := foldl transport_step t es.

(** A socket is created once. *)
Definition fresh_socket t (e : TransportEvent) : Prop :=
  match e with OpenConnection _ (Some ws) => sockets t !! ws = None | _ => True end.

(** ** The invariant of a transport *)

Definition metadata_of t (s : DataSocket) : Metadata :=
  RelaySocket (hostId t) (relayDeviceId (connection s)) (connId (connection s)) (kind (connection s)).

(** How often the wiring was told that a socket closed. *)
Definition closes ws (es : list TransportEffect) : nat :=
  length (js_filter (fun x => match x with CloseHandler ws' _ _ => (ws' =? ws)%nat | _ => false end) es).

Record transport_ok t : Prop := {
  t_metadata : forall ws m, metadataBySocket t !! ws = Some m <->
    exists s, sockets t !! ws = Some s /\ finalized s = false /\ m = metadata_of t s;
  t_connections : forall c ws, socketsByConnectionId t !! c = Some ws <->
    exists s, sockets t !! ws = Some s /\ finalized s = false /\ connId (connection s) = c;
  t_clients : forall ws, is_Some (clientIds t !! ws) -> is_Some (metadataBySocket t !! ws);
  t_closes : forall ws, closes ws (transport_log t) =
    match sockets t !! ws with Some s => if finalized s then 1%nat else 0%nat | None => 0%nat end;
  t_socket : forall ws s, sockets t !! ws = Some s ->
    finalized s = true -> deadline s = false }.

(** A promise is settled by the error of its socket, at the latest. *)
Definition promises_ok t : Prop :=
  forall ws s, sockets t !! ws = Some s -> opened s = true \/ on_error s = false -> settled s = true.

Lemma closes_app ws es es' : closes ws (es ++ es') = (closes ws es + closes ws es')%nat.
Proof. unfold closes. by rewrite js_filter_app, length_app. Qed.

Lemma temit_ok x t : (forall ws, closes ws [x] = 0%nat) -> transport_ok t -> transport_ok (temit x t).
Proof.
  intros Hx [T1 T2 T3 T4 T5]. split; try done. intros ws. simpl. rewrite closes_app, Hx, T4. lia.
Qed.

(** A change of one socket that leaves its connection and whether it is finalized. *)
Lemma update_socket_ok ws f t :
  (forall s, connection (f s) = connection s /\ finalized (f s) = finalized s) ->
  (forall s, sockets t !! ws = Some s ->
     (finalized s = true -> deadline (f s) = false)) ->
  transport_ok t -> transport_ok (update_socket ws f t).
Proof.
  intros Hf Hs [T1 T2 T3 T4 T5].
  assert (Hiff : forall i (P : DataSocket -> Prop), (forall s, P (f s) <-> P s) ->
            (exists s, alter f ws (sockets t) !! i = Some s /\ P s) <-> (exists s, sockets t !! i = Some s /\ P s)).
  { intros i P HP. destruct (decide (ws = i)) as [->|Hn]; [|by rewrite lookup_alter_ne].
    rewrite lookup_alter_eq. destruct (sockets t !! i) as [s|]; simpl; [|naive_solver].
    split; intros (s' & [= <-] & Hp); eexists; (split; [done|]); by apply HP. }
  assert (Hm : forall s, metadata_of t (f s) = metadata_of t s) by (intros s; unfold metadata_of; by rewrite (proj1 (Hf s))).
  split; simpl; try done.
  - intros i m. rewrite (Hiff i (fun s => finalized s = false /\ m = metadata_of t s)); [apply T1|].
    intros s. by rewrite (proj2 (Hf s)), Hm.
  - intros c i. rewrite (Hiff i (fun s => finalized s = false /\ connId (connection s) = c)); [apply T2|].
    intros s. by destruct (Hf s) as [-> ->].
  - intros i. rewrite T4. destruct (decide (ws = i)) as [->|Hn]; [|by rewrite lookup_alter_ne].
    rewrite lookup_alter_eq. destruct (sockets t !! i) as [s|]; simpl; [|done]. by rewrite (proj2 (Hf s)).
  - intros i s. destruct (decide (ws = i)) as [->|Hn]; [|rewrite lookup_alter_ne by done; apply T5].
    rewrite lookup_alter_eq. destruct (sockets t !! i) as [s0|] eqn:E; simpl; [|done]. intros [= <-].
    rewrite (proj2 (Hf s0)). by apply Hs.
Qed.

Lemma open_settles_ok ws outcome t : transport_ok t -> transport_ok (open_settles ws outcome t).
Proof.
  intros Ht. unfold open_settles. destruct (sockets t !! ws) as [s|] eqn:E; [|done].
  destruct (settled s); [done|]. apply temit_ok; [done|]. apply update_socket_ok; [done| |done].
  intros s' Hs'. apply (t_socket _ Ht ws s' Hs').
Qed.

Lemma setClientId_ok ws clientId t : transport_ok t -> transport_ok (setClientId ws clientId t).
Proof.
  intros [T1 T2 T3 T4 T5]. unfold setClientId, jm_has. destruct (metadataBySocket t !! ws) as [m|] eqn:E; [|done].
  split; try done. simpl. intros i. rewrite jm_lookup_insert. destruct (decide (ws = i)) as [<-|]; [by rewrite E|apply T3].
Qed.

Lemma terminate_all_ok (l : list nat) t : transport_ok t -> transport_ok (foldl (fun t ws => temit (Terminate ws) t) t l).
Proof. revert t. induction l as [|ws l IH]; intros t Ht; [done|]. by apply IH, temit_ok. Qed.

Lemma same_transport_ok t t' :
  metadataBySocket t' = metadataBySocket t -> socketsByConnectionId t' = socketsByConnectionId t ->
  clientIds t' = clientIds t -> sockets t' = sockets t -> transport_log t' = transport_log t -> hostId t' = hostId t ->
  transport_ok t -> transport_ok t'.
Proof.
  intros E1 E2 E3 E4 E5 E6 [T1 T2 T3 T4 T5].
  split; unfold metadata_of; rewrite ?E1, ?E2, ?E3, ?E4, ?E5, ?E6; done.
Qed.

Lemma openConnection_ok connection (ws : option nat) t :
  fresh_socket t (OpenConnection connection ws) -> transport_ok t -> transport_ok (openConnection connection ws t).
Proof.
  intros Hf Ht. unfold openConnection. destruct (stopped t); [by apply temit_ok|].
  unfold jm_has. destruct (socketsByConnectionId t !! connId connection) as [old|] eqn:Ec; [by apply temit_ok|].
  destruct ws as [ws|]; [|by apply temit_ok]. simpl in Hf. apply temit_ok; [done|].
  destruct Ht as [T1 T2 T3 T4 T5].
  split; simpl; unfold metadata_of; simpl.
  - intros i m. rewrite jm_lookup_insert, lookup_insert. destruct (decide (ws = i)) as [->|Hn]; [|apply T1].
    split; [intros [= <-]; by eexists|]. by intros (s & [= <-] & _ & ->).
  - intros c i. rewrite jm_lookup_insert, lookup_insert. destruct (decide (ws = i)) as [->|Hn].
    + case_decide as Hc; [split; [intros _; by eexists|done]|]. split.
      * intros (s & Hs & _)%T2. congruence.
      * intros (s & [= <-] & _ & Hc'). by destruct Hc.
    + case_decide as Hc; [|apply T2]. subst c. split; [congruence|]. intros Hi%T2. congruence.
  - intros i Hi%T3. rewrite jm_lookup_insert. by case_decide.
  - intros i. rewrite T4, lookup_insert. destruct (decide (ws = i)) as [<-|]; [by rewrite Hf|done].
  - intros i s. rewrite lookup_insert. case_decide; [by intros [= <-]|apply T5].
Qed.

Lemma finalize_ok ws t : transport_ok t -> transport_ok (finalize ws t).
Proof.
  intros Ht. unfold finalize. destruct (sockets t !! ws) as [s|] eqn:E; [|done].
  destruct (finalized s) eqn:Ef; [done|]. destruct Ht as [T1 T2 T3 T4 T5].
  assert (Hin : socketsByConnectionId t !! connId (connection s) = Some ws) by (apply T2; eauto).
  split; simpl.
  - intros i m. rewrite jm_lookup_delete. destruct (decide (ws = i)) as [->|Hn].
    + rewrite lookup_alter_eq, E. simpl. split; [done|]. by intros (s' & [= <-] & ? & _).
    + rewrite lookup_alter_ne by done. apply T1.
  - intros c i. rewrite jm_lookup_delete. destruct (decide (ws = i)) as [->|Hn].
    + rewrite lookup_alter_eq, E. simpl. split; [|by intros (s' & [= <-] & ? & _)].
      case_decide as Hc; [done|]. intros (s' & Hs' & _ & <-)%T2. congruence.
    + rewrite lookup_alter_ne by done. case_decide as Hc; [|apply T2]. split; [done|].
      intros Hi%T2. congruence.
  - intros i. rewrite !jm_lookup_delete. destruct (decide (ws = i)) as [->|]; [by intros []|apply T3].
  - intros i. rewrite !closes_app, T4. unfold closes. simpl. destruct (decide (ws = i)) as [->|Hn].
    + rewrite lookup_alter_eq, E, Nat.eqb_refl, Ef. done.
    + rewrite lookup_alter_ne by done. destruct (Nat.eqb_spec ws i); [done|]. simpl. lia.
  - intros i s'. destruct (decide (ws = i)) as [->|Hn]; [|rewrite lookup_alter_ne by done; apply T5].
    rewrite lookup_alter_eq, E. by intros [= <-].
Qed.

Lemma socket_step_ok ws e t : transport_ok t -> transport_ok (socket_step ws e t).
Proof.
  intros Ht. unfold socket_step. destruct (sockets t !! ws) as [s|] eqn:E; [|done]. pose proof (t_socket _ Ht) as Hd.
  destruct e.
  - destruct (on_open s); [|done]. apply open_settles_ok, temit_ok; [done|].
    apply update_socket_ok; [done| |done]. intros s' Hs'. apply (Hd _ _ Hs').
  - assert (Hu : transport_ok (update_socket ws (fun s0 => s0 <| attached := true |>
                   <| deadline := if attached s0 then deadline s0 else false |>) t)).
    { apply update_socket_ok; [done| |done]. intros s' Hs' Hf. simpl. destruct (attached s'); [|done].
      by apply (Hd _ _ Hs'). }
    destruct (metadataFor _ _); by apply temit_ok.
  - destruct (on_error s); [|done]. cbv zeta.
    assert (Hu : transport_ok (update_socket ws (fun s0 => s0 <| on_error := false |>) t))
      by (apply update_socket_ok; [done| |done]; intros s' Hs'; apply (Hd _ _ Hs')).
    destruct (opened s); [done|]. by apply open_settles_ok, finalize_ok.
  - destruct (on_close s); [|done]. apply finalize_ok, update_socket_ok; [done| |done].
    intros s' Hs'. apply (Hd _ _ Hs').
  - destruct (deadline s); [|done]. cbv zeta.
    assert (Hu : transport_ok (temit (Terminate ws) (update_socket ws (fun s0 => s0 <| deadline := false |>) t)))
      by (by apply temit_ok, update_socket_ok).
    destruct (opened s); [done|by apply open_settles_ok].
Qed.

Lemma terminate_clients_ok clientId (l : list (nat * option json)) t :
  transport_ok t ->
  transport_ok (foldl (fun t '(ws, candidate) => if strict_eq candidate clientId then temit (Terminate ws) t else t) t l).
Proof.
  revert t. induction l as [|[ws c] l IH]; intros t Ht; [done|]. simpl. apply IH.
  destruct (strict_eq _ _); [by apply temit_ok|done].
Qed.

Lemma transport_step_ok t e : fresh_socket t e -> transport_ok t -> transport_ok (transport_step t e).
Proof.
  intros Hf Ht. destruct e; simpl.
  - by apply openConnection_ok.
  - by apply socket_step_ok.
  - by apply setClientId_ok.
  - unfold setGeneration. destruct (strict_eq _ _); [done|]. destruct (_ || _); [done|]. by apply (same_transport_ok t).
  - by apply terminate_clients_ok.
  - by apply (same_transport_ok t).
  - by apply terminate_all_ok, (same_transport_ok t).
Qed.

(** Sockets other than the one an event is about keep their variables. *)
Lemma terminate_sockets (l : list nat) t : sockets (foldl (fun t ws => temit (Terminate ws) t) t l) = sockets t.
Proof. revert t. induction l as [|ws l IH]; intros t; [done|]. simpl. by rewrite IH. Qed.
Lemma terminate_client_sockets clientId (l : list (nat * option json)) t :
  sockets (foldl (fun t '(ws, c) => if strict_eq c clientId then temit (Terminate ws) t else t) t l) = sockets t.
Proof. revert t. induction l as [|[ws c] l IH]; intros t; [done|]. simpl. rewrite IH. by destruct (strict_eq _ _). Qed.

Lemma open_settles_sockets ws outcome t :
  sockets (open_settles ws outcome t) = alter (fun s => s <| settled := true |>) ws (sockets t).
Proof.
  unfold open_settles. destruct (sockets t !! ws) as [s|] eqn:E; [|by rewrite alter_id; [|intros ? ?; congruence]].
  destruct (settled s) eqn:Es; [|done]. symmetry. apply map_eq. intros i. destruct (decide (ws = i)) as [->|Hn].
  - rewrite lookup_alter_eq, E. simpl. destruct s. simpl in Es. by subst.
  - by rewrite lookup_alter_ne.
Qed.

Lemma finalize_sockets ws t :
  exists f, (forall s, opened (f s) = opened s /\ on_error (f s) = on_error s /\ settled (f s) = settled s) /\
    sockets (finalize ws t) = alter f ws (sockets t).
Proof.
  unfold finalize. destruct (sockets t !! ws) as [s|] eqn:E.
  - destruct (finalized s); [|by eexists (fun s => s <| finalized := true |> <| deadline := false |>)].
    exists id. split; [done|]. by rewrite alter_id.
  - exists id. split; [done|]. by rewrite alter_id.
Qed.

Lemma promises_alter ws f t t' :
  sockets t' = alter f ws (sockets t) ->
  (forall s, sockets t !! ws = Some s -> opened (f s) = true \/ on_error (f s) = false -> settled (f s) = true) ->
  promises_ok t -> promises_ok t'.
Proof.
  intros E Hf Ht i s. rewrite E. destruct (decide (ws = i)) as [->|Hn]; [|rewrite lookup_alter_ne by done; apply Ht].
  rewrite lookup_alter_eq. destruct (sockets t !! i) as [s0|] eqn:E0; [|done]. intros [= <-]. by apply Hf.
Qed.

Lemma socket_step_promises ws e t : promises_ok t -> promises_ok (socket_step ws e t).
Proof.
  intros Ht. unfold socket_step. destruct (sockets t !! ws) as [s|] eqn:E; [|done].
  destruct e.
  - destruct (on_open s); [|done].
    eapply (promises_alter ws (fun s => s <| on_open := false |> <| opened := true |> <| settled := true |>) t); [|done|done].
    rewrite open_settles_sockets. simpl. by rewrite alter_alter_eq.
  - cbv zeta. destruct (metadataFor _ _); (eapply (promises_alter ws (fun s => s <| attached := true |>
      <| deadline := if attached s then deadline s else false |>) t); [done| |done]); intros s' Hs'; apply (Ht _ _ Hs').
  - destruct (on_error s); [|done]. cbv zeta. destruct (opened s) eqn:Eo.
    + eapply (promises_alter ws (fun s => s <| on_error := false |>) t); [done| |done].
      intros s' Hs' _. apply (Ht _ _ Hs'). rewrite E in Hs'. injection Hs' as ->. by left.
    + destruct (finalize_sockets ws (update_socket ws (fun s0 => s0 <| on_error := false |>) t)) as (f & Hf & Ef).
      eapply (promises_alter ws (fun s => (f (s <| on_error := false |>)) <| settled := true |>) t); [|done|done].
      rewrite open_settles_sockets, Ef. simpl. by rewrite !alter_alter_eq.
  - destruct (on_close s); [|done].
    destruct (finalize_sockets ws (update_socket ws (fun s0 => s0 <| on_close := false |>) t)) as (f & Hf & Ef).
    eapply (promises_alter ws (fun s => f (s <| on_close := false |>)) t); [|  |done].
    + rewrite Ef. simpl. by rewrite alter_alter_eq.
    + intros s' Hs'. destruct (Hf (s' <| on_close := false |>)) as (-> & -> & ->). apply (Ht _ _ Hs').
  - destruct (deadline s); [|done]. cbv zeta. destruct (opened s).
    + eapply (promises_alter ws (fun s => s <| deadline := false |>) t); [done| |done].
      intros s' Hs'. apply (Ht _ _ Hs').
    + eapply (promises_alter ws (fun s => s <| deadline := false |> <| settled := true |>) t); [|done|done].
      rewrite open_settles_sockets. simpl. by rewrite alter_alter_eq.
Qed.

Lemma transport_step_promises t e : promises_ok t -> promises_ok (transport_step t e).
Proof.
  intros Ht. destruct e; simpl; try done.
  - unfold openConnection. destruct (stopped t); [done|]. destruct (jm_has _ _); [done|].
    destruct ws as [ws|]; [|done]. intros i s. simpl. rewrite lookup_insert.
    case_decide; [intros [= <-]; simpl; by intros []|apply Ht].
  - by apply socket_step_promises.
  - unfold setClientId. by destruct (jm_has _ _).
  - unfold setGeneration. destruct (strict_eq _ _); [done|]. by destruct (_ || _).
  - unfold promises_ok, terminateClientConnections. by rewrite terminate_client_sockets.
  - unfold promises_ok, stop. simpl. by rewrite terminate_sockets.
Qed.

(** A run that creates each socket once. *)
Fixpoint run_fresh t (es : list TransportEvent) : Prop :=
  match es with
  | [] => True
  | e :: es => fresh_socket t e /\ run_fresh (transport_step t e) es
  end.

Lemma new_transport_ok o h g : transport_ok (new_transport o h g) /\ promises_ok (new_transport o h g).
Proof.
  split; [|done]. split; simpl; try done.
  - intros ws m. split; [done|]. by intros (s & ? & _).
  - intros c ws. split; [done|]. by intros (s & ? & _).
  - intros ws. by intros [].
Qed.

Lemma transport_run_ok t es :
  transport_ok t -> promises_ok t -> run_fresh t es -> transport_ok (transport_run t es) /\ promises_ok (transport_run t es).
Proof.
  revert t. induction es as [|e es IH]; intros t Ht Hp Hf; [done|]. destruct Hf as [Hf Hes].
  simpl. apply IH; [by apply transport_step_ok|by apply transport_step_promises|done].
Qed.

(** A transport forgets a socket exactly when it reports its close, and reports it
    once. The sockets it routes to are those not reported, each under the connection
    it was opened for and with that connection's metadata; none that is forgotten keeps a
    client or an attach deadline, and an [openConnection] whose socket opened or
    failed has settled. *)
Theorem sockets_reported_once o h g es :
  let t := transport_run (new_transport o h g) es in
  run_fresh (new_transport o h g) es ->
  (forall c ws, socketsByConnectionId t !! c = Some ws <->
     exists s, sockets t !! ws = Some s /\ closes ws (transport_log t) = 0%nat /\ connId (connection s) = c) /\
  (forall ws s, sockets t !! ws = Some s -> closes ws (transport_log t) = 0%nat ->
     metadataFor ws t = Ok (metadata_of t s)) /\
  (forall ws s, sockets t !! ws = Some s -> closes ws (transport_log t) ≠ 0%nat ->
     closes ws (transport_log t) = 1%nat /\ metadataBySocket t !! ws = None /\ clientIds t !! ws = None /\
     deadline s = false) /\
  (forall ws s, sockets t !! ws = Some s -> opened s = true \/ on_error s = false -> settled s = true).
Proof.
  intros t Hf. destruct (new_transport_ok o h g) as [H1 H2].
  destruct (transport_run_ok _ es H1 H2 Hf) as [[T1 T2 T3 T4 T5] Tp]. fold t in T1, T2, T3, T4, T5, Tp.
  assert (Hlive : forall ws s, sockets t !! ws = Some s -> closes ws (transport_log t) = 0%nat <-> finalized s = false).
  { intros ws s Hs. rewrite T4, Hs. by destruct (finalized s). }
  split; [|split; [|split; [|exact Tp]]].
  - intros c ws. rewrite T2. split; intros (s & Hs & ? & ?); exists s; (split; [done|]); (split; [|done]); by apply (Hlive ws s).
  - intros ws s Hs Hc. unfold metadataFor. rewrite (proj2 (T1 ws (metadata_of t s))); [done|].
    exists s. by rewrite <-(Hlive ws s).
  - intros ws s Hs Hc. assert (Hfin : finalized s = true).
    { destruct (finalized s) eqn:E; [done|]. by apply (Hlive ws s) in E. }
    assert (Hm : metadataBySocket t !! ws = None).
    { destruct (metadataBySocket t !! ws) as [m|] eqn:Em; [|done]. apply T1 in Em as (s' & Hs' & Hn & _). congruence. }
    split; [by rewrite T4, Hs, Hfin|]. split; [done|]. split; [|by apply (T5 ws)].
    destruct (clientIds t !! ws) as [c|] eqn:Ec; [|done].
    assert (Hi : is_Some (metadataBySocket t !! ws)) by (apply T3; eauto). rewrite Hm in Hi. by destruct Hi.
Qed.

(** ** A phone that attaches, one that never does, and a stop *)

Definition demo_connection (c : string) : RelayConnectionOpen :=
  {| connId := c; connTicket := "k"; kind := Resume; relayDeviceId := "d"; attachDeadlineMs := 5000 |}.
Definition demo_transport : CloudRelayTransport := new_transport "wss://cell" "h" (Some (JNum (NInt 1))).
Definition demo_transport_run : list TransportEvent :=
  [OpenConnection (demo_connection "a/1") (Some 0%nat); OpenConnection (demo_connection "b") (Some 1%nat);
   OnSocket 0 SocketOpen; OnSocket 0 (SocketMessage (RawText "hi")); OnSocket 0 AttachDeadline;
   OnSocket 1 AttachDeadline; OnSocket 1 (SocketError "closed before open"); OnSocket 1 SocketClose; Stop;
   OpenConnection (demo_connection "c") (Some 2%nat)].

Example demo_transport_log :
  js_filter (fun x => match x with DataSend _ _ => false | _ => true end)
    (transport_log (transport_run demo_transport demo_transport_run)) =
  [CreateSocket 0 "wss://cell/v1/host/data/a%2F1"; CreateSocket 1 "wss://cell/v1/host/data/b";
   OpenSettled "a/1" (Ok tt); MessageHandler 0 (RelaySocket "h" "d" "a/1" Resume) (RawText "hi");
   Terminate 1; OpenSettled "b" (Throw "relay_host_data_attach_timeout");
   OnConnectionClosed "b"; CloseHandler 1 None false; Terminate 0;
   OpenSettled "c" (Throw "relay_transport_stopped")].
Proof. vm_compute. reflexivity. Qed.

Lemma sockets_reported_once_witness :
  closes 1 (transport_log (transport_run demo_transport demo_transport_run)) = 1%nat.
Proof.
  destruct (sockets_reported_once "wss://cell" "h" (Some (JNum (NInt 1))) demo_transport_run) as (_ & _ & Hc & _).
  - repeat split.
  - destruct (sockets (transport_run demo_transport demo_transport_run) !! 1%nat) as [s|] eqn:E; [|vm_compute in E; discriminate].
    apply (Hc 1%nat s E). vm_compute. discriminate.
Defined.
