(* ===== verification/RelayGateway.v ===== *)
(** * The relay gateway
    (src/pie-mobile/adapter/host-gateway/src/relay-gateway.ts)

    It keeps one control client (ControlClient.v) and one data transport
    (RelayTransport.v) to the relay the director assigns, reconnects with backoff and
    makes the credential calls of the RPC handler. Controls, transports and calls of
    [establishControl] ([attempts]) are heaps, since they outlive their use. Every
    [await] ends a step; promises are resumed in the step that settles them, as
    microtasks are. [fetch] outcomes, socket events, timers and the gateway's methods
    are the events of a run; what it does and reports is a log. Status callbacks do
    not call back. *)

From S2P Require Import Prelude JsMap Json ControlRequests ControlClient E2eeChannel MobileSockets.
From S2P Require Import RelayUrls RelayHttp RelayTransport.

Local Open Scope string_scope.
Local Open Scope list_scope.
Local Open Scope Z_scope.

(** ** The director *)

Record RelayIdentity := { userId : json; profileId : json; organizationId : json }.

Class GatewayEnv := {
  gateway_urls :: UrlEnv;
  gateway_schemas :: ControlSchemas;
  parse_json : string -> option json;
  answerChallenge : Options -> RelayIdentity -> json -> option string;
  relayUrl : string;  (** trimmed *)
  relayHostId : string;
  hostPublicKeyB64 : string;
  uuid : nat -> string }.

Section Http.
Context `{GatewayEnv}.

(** How [fetchRelayIdentity] ends. *)
Definition fetchRelayIdentity (fallbackUserId : string) (o : FetchOutcome) : result RelayIdentity :=
  match o with
  | Throw m => Throw m
  | Ok response =>
      if status response =? 404 then
        Ok {| userId := JStr fallbackUserId; profileId := JStr "pie-relay"; organizationId := JStr "standalone" |}
      else if negb (response_ok response) then
        Throw ("Relay identity request failed: HTTP " +:+ int_string (status response))
      else
        match body response with
        | None => Throw "Unexpected token"
        | Some JNull => Throw "Cannot read properties of null (reading 'userId')"
        | Some v =>
            if truthy (prop "userId" v) && truthy (prop "profileId" v) && truthy (prop "organizationId" v)
            then Ok {| userId := default JNull (prop "userId" v); profileId := default JNull (prop "profileId" v);
                       organizationId := default JNull (prop "organizationId" v) |}
            else Throw "Relay identity response is incomplete"
        end
  end.
End Http.

(** ** State *)

Inductive RelayGatewayStatus := Disabled | ConnectingStatus | Registered | Offline.

Inductive GatewayEffect :=
  | OnStatus (s : RelayGatewayStatus) (detail : option string)
  | OpenControlSocket (ctl : nat) (url : string)
  | ReconnectIn (delay : Z)
  | StartSettled (attempt : nat) (r : result unit)
  | CallSettled (call : nat) (r : result json).

(** A control client with what its callbacks close over. *)
Record Control := {
  client : RelayControlClient;
  c_options : Options;
  c_identity : RelayIdentity;
  c_transport : nat;
  activated : bool }.
#[export] Instance eta_Control : Eta Control :=
  fun x => Build_Control (client x) (c_options x) (c_identity x) (c_transport x) (activated x).

(** Why a call of [establishControl] awaits the end of a transport. *)
Inductive StopReason := Superseded | Failed (error : string) | Replaced.

(** Where a call of [establishControl] is. [previous]: the transport it found, which
    it uses again when [reusing]. *)
Inductive Stage :=
  | Fetching
  | Connecting (assignment : RelayAssignment) (tr : nat) (reusing : bool) (previous : option nat) (ctl : nat)
  | Stopping (why : StopReason) (sockets : list nat)
  | Done.

Record Attempt := { number : nat; from_start : bool; stage : Stage }.
#[export] Instance eta_Attempt : Eta Attempt := fun x => Build_Attempt (number x) (from_start x) (stage x).

(** A credential call: the control and promise it awaits, and what comes next. *)
Inductive Continuation :=
  | ThenPairing (endpoint : list (string * json))
  | ThenStatus (socket : AuthenticatedMobileSocket) (resumeConfirmReqId : option string)
      (endpoint : list (string * json))
  | ThenConfirmation (result : list (string * json))
  | ThenInstalled
  | ThenRevoked.
Record UserCall := { c_ctl : nat; c_promise : nat; c_then : option Continuation }.

Record RelayGateway := {
  control : option nat;
  transport : option nat;
  transportCellUrl : option string;
  endpoint : option RelayAssignment;
  gw_stopped : bool;
  connectionAttempt : nat;
  reconnectAttempt : nat;
  reconnectTimer : bool;
  connectPromise : option nat;
  previousGeneration : option Z;
  controlResumeSecret : option json;
  controls : list Control;
  transports : list CloudRelayTransport;
  attempts : list Attempt;
  stops : list (list nat);  (** calls of [stop] and the sockets they await *)
  calls : list UserCall;
  wired : list nat;  (** the transports attached to the mobile socket wiring *)
  next_socket : nat;
  gw_log : list GatewayEffect }.
#[export] Instance eta_RelayGateway : Eta RelayGateway :=
  fun x => Build_RelayGateway (control x) (transport x) (transportCellUrl x) (endpoint x) (gw_stopped x)
    (connectionAttempt x) (reconnectAttempt x) (reconnectTimer x) (connectPromise x) (previousGeneration x)
    (controlResumeSecret x) (controls x) (transports x) (attempts x) (stops x) (calls x) (wired x)
    (next_socket x) (gw_log x).
Implicit Types w : RelayGateway.

Definition RECONNECT_BASE_DELAY_MS : Z := 500.
Definition RECONNECT_MAX_DELAY_MS : Z := 15000.

Section Gateway.
Context `{GatewayEnv}.

Definition new_gateway : RelayGateway :=
  {| control := None; transport := None; transportCellUrl := None; endpoint := None; gw_stopped := true;
     connectionAttempt := 0; reconnectAttempt := 0; reconnectTimer := false; connectPromise := None;
     previousGeneration := None; controlResumeSecret := None; controls := []; transports := [];
     attempts := []; stops := []; calls := []; wired := []; next_socket := 0; gw_log := [] |}.

Definition gemit (x : GatewayEffect) w : RelayGateway := w <| gw_log := gw_log w ++ [x] |>.
Definition onStatus (s : RelayGatewayStatus) (detail : option string) w : RelayGateway := gemit (OnStatus s detail) w.

(** [relayOrigin(options.relayUrl)]; the constructor throws when this does. *)
Definition directorUrl : string := match relayOrigin relayUrl with Ok u => u | Throw _ => "" end.

(** ** Credential calls: their promises *)

Definition set_call (n : nat) (c : UserCall) w : RelayGateway := w <| calls := <[n := c]> (calls w) |>.
Definition call_settles (n : nat) (r : result json) w : RelayGateway :=
  gemit (CallSettled n r) (w <| calls := alter (fun c => {| c_ctl := c_ctl c; c_promise := c_promise c; c_then := None |}) n (calls w) |>).

Definition update_client (ctl : nat) (f : RelayControlClient -> RelayControlClient) w : RelayGateway :=
  w <| controls := alter (fun c => c <| client := f (client c) |>) ctl (controls w) |>.

(** A request on a control: the call awaits its promise, or is rejected at once. *)
Definition issue (n ctl : nat) (now : Z) (reqId : string) (k : RequestKind) (payload : json)
    (next : Continuation) w : RelayGateway :=
  match controls w !! ctl with
  | None => w
  | Some c =>
      let client' := client_request now reqId k payload (client c) in
      let i := next_promise (requests (client c)) in
      let w := update_client ctl (fun _ => client') w in
      match last (ControlRequests.settled (requests client')) with
      | Some (j, Rejected m) =>
          if (j =? i)%nat then call_settles n (Throw m) w
          else set_call n {| c_ctl := ctl; c_promise := i; c_then := Some next |} w
      | _ => set_call n {| c_ctl := ctl; c_promise := i; c_then := Some next |} w
      end
  end.

(** [const { type: _type, ...rest } = message] *)
Definition without_type (message : option json) : list (string * json) :=
  match message with
  | Some (JObj fields) => js_filter (fun '(k, _) => negb (String.eqb k "type")) fields
  | _ => []
  end.

(** [getEndpoints] after the install status, if one was asked for. *)
Definition confirm_or_return (n ctl : nat) (now : Z) (socket : AuthenticatedMobileSocket)
    (resumeConfirmReqId : option string) (result : list (string * json)) w : RelayGateway :=
  match non_empty resumeConfirmReqId with
  | None => call_settles n (Ok (JObj result)) w
  | Some reqId =>
      match s_transport socket with
      | RelaySocket _ _ basisConnId Resume =>
          issue n ctl now reqId Confirm (confirmResume_payload reqId basisConnId) (ThenConfirmation result) w
      | _ => call_settles n (Throw "resume_confirmation_unavailable") w
      end
  end.

Definition continue_call (n : nat) (c : UserCall) (now : Z) (o : outcome) w : RelayGateway :=
  match c_then c, o with
  | None, _ => w
  | Some _, Rejected m => call_settles n (Throw m) w
  | Some (ThenPairing e), Resolved invite =>
      call_settles n
        (Ok (JObj (e ++ defined [("inviteToken", invite ≫= prop "inviteToken");
                                 ("inviteExpiresAt", invite ≫= prop "expiresAt")]))) w
  | Some (ThenStatus socket resume e), Resolved s =>
      confirm_or_return n (c_ctl c) now socket resume
        ([("v", JNum (NInt 1)); ("relay", JObj e); ("installStatus", JObj (without_type s))]) w
  | Some (ThenConfirmation result), Resolved s =>
      call_settles n (Ok (JObj (result ++ [("resumeConfirmation", JObj (without_type s))]))) w
  | Some ThenInstalled, Resolved s => call_settles n (Ok (JObj (without_type s))) w
  | Some ThenRevoked, Resolved _ => call_settles n (Ok JNull) w
  end.

(** The calls that await promise [i] of control [ctl] (at most one does). *)
Definition promise_settled (now : Z) (ctl : nat) (io : nat * outcome) w : RelayGateway :=
  foldl (fun w n =>
           match calls w !! n with
           | Some c =>
               if (c_ctl c =? ctl)%nat && (c_promise c =? io.1)%nat then continue_call n c now io.2 w else w
           | None => w
           end) w (seq 0 (length (calls w))).

(** The promises a change of a client settled. *)
Definition newly_settled (c c' : RelayControlClient) : list (nat * outcome) :=
  drop (length (ControlRequests.settled (requests c))) (ControlRequests.settled (requests c')).
Definition settle_promises (now : Z) (ctl : nat) (l : list (nat * outcome)) w : RelayGateway :=
  foldl (fun w io => promise_settled now ctl io w) w l.

Definition closeControl (now : Z) (ctl : nat) w : RelayGateway :=
  match controls w !! ctl with
  | None => w
  | Some c =>
      settle_promises now ctl (newly_settled (client c) (ControlClient.closeNow (client c)))
        (update_client ctl ControlClient.closeNow w)
  end.

(** ** Transports *)

Definition detachTransport (tr : nat) w : RelayGateway :=
  w <| wired := js_filter (fun t => negb (t =? tr)%nat) (wired w) |>.
Definition attachTransport (tr : nat) w : RelayGateway :=
  if bool_decide (tr ∈ wired w) then w else w <| wired := wired w ++ [tr] |>.

(** An operation of a transport; a rejected [openConnection] is reported. *)
Definition report_rejected w (x : TransportEffect) : RelayGateway :=
  match x with OpenSettled _ (Throw m) => onStatus Offline (Some m) w | _ => w end.
Definition transport_op (tr : nat) (f : CloudRelayTransport -> CloudRelayTransport) w : RelayGateway :=
  match transports w !! tr with
  | None => w
  | Some t =>
      foldl report_rejected (w <| transports := alter f tr (transports w) |>)
        (drop (length (transport_log t)) (transport_log (f t)))
  end.

(** [transport.stop()]: the sockets whose close is awaited. *)
Definition stopTransport (tr : nat) w : RelayGateway * list nat :=
  match transports w !! tr with
  | None => (w, [])
  | Some t => (transport_op tr (fun t => (RelayTransport.stop t).1) w, (RelayTransport.stop t).2)
  end.

(** [RelayConnectionOpenMessageSchema] makes the fields what they are read as. *)
Definition connection_of (message : json) : RelayConnectionOpen :=
  let text k := default "" (as_string (prop k message)) in
  {| connId := text "connId"; connTicket := text "connTicket";
     kind := if String.eqb (text "kind") "invite" then Invite else Resume;
     relayDeviceId := text "relayDeviceId";
     attachDeadlineMs := default 0 (safeInteger (prop "attachDeadlineMs" message)) |}.

(** The URL is a checked origin followed by an escaped id, on which [new WebSocket] does
    not throw: the socket is always created. *)
Definition openData (tr : nat) (message : json) w : RelayGateway :=
  transport_op tr (openConnection (connection_of message) (Some (next_socket w)))
    (w <| next_socket := S (next_socket w) |>).

(** ** Connecting *)

Definition scheduleReconnect (detail : string) w : RelayGateway :=
  if gw_stopped w || reconnectTimer w || is_some (connectPromise w) || is_some (control w) then w
  else
    let w := onStatus Offline (Some detail) w in
    let delay := Z.min RECONNECT_MAX_DELAY_MS
                   (RECONNECT_BASE_DELAY_MS * 2 ^ Z.min (Z.of_nat (reconnectAttempt w)) 5) in
    gemit (ReconnectIn delay) (w <| reconnectAttempt := S (reconnectAttempt w) |> <| reconnectTimer := true |>).

Definition set_stage (k : nat) (s : Stage) w : RelayGateway :=
  w <| attempts := alter (fun a => a <| stage := s |>) k (attempts w) |>.

(** The call of [establishControl] is over: [start] or the reconnect timer awaits it. *)
Definition attempt_settles (k : nat) (r : result unit) w : RelayGateway :=
  match attempts w !! k with
  | None => w
  | Some a =>
      let w := set_stage k Done w in
      let w :=
        match r with
        | Ok _ => w
        | Throw m => if from_start a then w <| gw_stopped := true |> else onStatus Offline (Some m) w
        end in
      let w := if bool_decide (connectPromise w = Some k) then w <| connectPromise := None |> else w in
      if from_start a then gemit (StartSettled k r) w
      else if negb (gw_stopped w) && negb (is_some (control w)) then scheduleReconnect "Relay reconnect pending" w
      else w
  end.

(** What follows the end of the transport an attempt stopped. *)
Definition after_stop (k : nat) (why : StopReason) w : RelayGateway :=
  match why with
  | Superseded => attempt_settles k (Ok tt) w
  | Failed m => attempt_settles k (Throw m) (onStatus Offline (Some m) w)
  | Replaced => attempt_settles k (Ok tt) (onStatus Registered None (w <| reconnectAttempt := 0%nat |>))
  end.
Definition await_stop (k : nat) (why : StopReason) (sockets : list nat) w : RelayGateway :=
  match sockets with
  | [] => after_stop k why w
  | _ => set_stage k (Stopping why sockets) w
  end.

(** Detaching and stopping the attempt's own transport, then [why]. *)
Definition abandon (k : nat) (why : StopReason) (tr : nat) (reusing : bool) w : RelayGateway :=
  if reusing then after_stop k why w
  else let '(w, ws) := stopTransport tr (detachTransport tr w) in await_stop k why ws w.

(** The gateway takes the control and the transport of an attempt. *)
Definition promote (assignment : RelayAssignment) (tr ctl : nat) (ack : json) w : RelayGateway :=
  w <| previousGeneration := safeInteger (prop "generation" ack) |>
    <| controlResumeSecret := prop "controlResumeSecret" ack |>
    <| controls := alter (fun c => c <| activated := true |>) ctl (controls w) |>
    <| control := Some ctl |> <| transport := Some tr |>
    <| transportCellUrl := Some (cellUrl assignment) |> <| endpoint := Some assignment |>.

(** [control.connect()] settled. *)
Definition connect_settled (now : Z) (k : nat) (a : Attempt) (assignment : RelayAssignment) (tr : nat)
    (reusing : bool) (previous : option nat) (ctl : nat) (r : result json) w : RelayGateway :=
  let failed m w := abandon k (Failed m) tr reusing (closeControl now ctl w) in
  match r with
  | Throw m => failed m w
  | Ok ack =>
      if gw_stopped w || negb (number a =? connectionAttempt w)%nat
      then abandon k Superseded tr reusing (closeControl now ctl w)
      else
        match transports w !! tr with
        | None => w
        | Some t =>
            let '(t', r) := setGeneration (prop "generation" ack) t in
            let w := w <| transports := <[tr := t']> (transports w) |> in
            match r with
            | Throw m => failed m w
            | Ok _ =>
                let w := promote assignment tr ctl ack w in
                match previous with
                | Some p =>
                    if (p =? tr)%nat then after_stop k Replaced w
                    else let '(w, ws) := stopTransport p (detachTransport p w) in await_stop k Replaced ws w
                | None => after_stop k Replaced w
                end
            end
        end
  end.

(** The transport of an attempt: the gateway's if the cell is the same, or a new one. *)
Definition chooseTransport (assignment : RelayAssignment) w : result (RelayGateway * nat * bool) :=
  let another :=
    match relayWebSocketOrigin (cellUrl assignment) with
    | Throw m => Throw m
    | Ok o =>
        let tr := length (transports w) in
        let t := new_transport o relayHostId (Some (JNum (NInt 0))) in
        Ok (attachTransport tr (w <| transports := transports w ++ [t] |>), tr, false)
    end in
  match transport w with
  | Some tr => if bool_decide (transportCellUrl w = Some (cellUrl assignment)) then Ok (w, tr, true) else another
  | None => another
  end.

Definition control_options (assignment : RelayAssignment) w : Options :=
  {| ControlClient.relayHostId := relayHostId; assignmentEpoch := epoch assignment;
     ControlClient.hostPublicKeyB64 := hostPublicKeyB64; appVersion := "Pie Relay 0.1.0";
     ControlClient.previousGeneration := previousGeneration w;
     ControlClient.controlResumeSecret := controlResumeSecret w |}.

(** The control is created and connects; [created]: its socket could be created. *)
Definition connectControl (now : Z) (k : nat) (a : Attempt) (created : bool) (assignment : RelayAssignment)
    (who : RelayIdentity) (tr : nat) (reusing : bool) (previous : option nat) (url : string) w : RelayGateway :=
  let ctl := length (controls w) in
  let options := control_options assignment w in
  let '(c, connected) := connect created new_client in
  let w := transport_op tr RelayTransport.start w in
  let w := gemit (OpenControlSocket ctl url)
             (w <| controls := controls w ++ [{| client := c; c_options := options; c_identity := who;
                     c_transport := tr; activated := false |}] |>) in
  let w := set_stage k (Connecting assignment tr reusing previous ctl) w in
  match connected with
  | Throw m => connect_settled now k a assignment tr reusing previous ctl (Throw m) w
  | Ok _ => w
  end.

(** Both fetches of an attempt have ended. *)
Definition fetches_settle (now : Z) (k : nat) (created : bool) (assigned identified : FetchOutcome) w
    : RelayGateway :=
  match attempts w !! k with
  | Some a =>
      match stage a with
      | Fetching =>
          match requestRelayAssignment directorUrl assigned, fetchRelayIdentity relayHostId identified with
          | Throw m, _ | _, Throw m => attempt_settles k (Throw m) w
          | Ok assignment, Ok who =>
              match chooseTransport assignment w, controlWebSocketUrl (cellUrl assignment) with
              | Throw m, _ => attempt_settles k (Throw m) w
              | Ok (w, _, _), Throw m => attempt_settles k (Throw m) w
              | Ok (w', tr, reusing), Ok (_, url) =>
                  connectControl now k a created assignment who tr reusing (transport w) url w'
              end
          end
      | _ => w
      end
  | None => w
  end.

Definition establishControl (by_start : bool) w : RelayGateway :=
  let w := onStatus ConnectingStatus None w in
  let n := S (connectionAttempt w) in
  let k := length (attempts w) in
  w <| connectionAttempt := n |>
    <| attempts := attempts w ++ [{| number := n; from_start := by_start; stage := Fetching |}] |>
    <| connectPromise := Some k |>.

(** A call that finds the gateway started returns what is there. *)
Definition start w : RelayGateway :=
  if negb (gw_stopped w) && (is_some (control w) || is_some (connectPromise w)) then w
  else establishControl true (w <| gw_stopped := false |>).

Definition reconnect_fires w : RelayGateway :=
  if negb (reconnectTimer w) then w
  else
    let w := w <| reconnectTimer := false |> in
    if gw_stopped w || is_some (control w) then w else establishControl false w.

Definition stop (now : Z) w : RelayGateway :=
  let ctl := control w in
  let tr := transport w in
  let w := w <| gw_stopped := true |> <| connectionAttempt := S (connectionAttempt w) |>
             <| reconnectTimer := false |> <| control := None |> <| transport := None |>
             <| transportCellUrl := None |> <| endpoint := None |> <| previousGeneration := None |>
             <| controlResumeSecret := None |> in
  let w := match ctl with Some ctl => closeControl now ctl w | None => w end in
  match tr with
  | None => onStatus Disabled None w
  | Some tr =>
      let '(w, ws) := stopTransport tr (detachTransport tr w) in
      match ws with
      | [] => onStatus Disabled None w
      | _ => w <| stops := stops w ++ [ws] |>
      end
  end.

(** ** Socket events *)

(** The callbacks of control [ctl]. *)
Definition callback (now : Z) (ctl : nat) w (x : effect) : RelayGateway :=
  match controls w !! ctl with
  | None => w
  | Some c =>
      match x with
      | ControlClient.OnConnectionOpen message => openData (c_transport c) message w
      | ControlClient.OnDrain _ =>
          if negb (bool_decide (control w = Some ctl)) || gw_stopped w then w
          else closeControl now ctl (onStatus Offline (Some "Relay server requested migration") w)
      | ControlClient.OnClose _ =>
          if negb (activated c) || negb (bool_decide (control w = Some ctl)) || gw_stopped w then w
          else scheduleReconnect "Relay control disconnected" (w <| control := None |>)
      | _ => w
      end
  end.

Definition connect_outcome (x : effect) : option (result json) :=
  match x with
  | ConnectResolved ack => Some (Ok ack)
  | ConnectRejected m => Some (Throw m)
  | _ => None
  end.

(** The attempts that await control [ctl] (at most one does). *)
Definition resume_connect (now : Z) (ctl : nat) (r : result json) w : RelayGateway :=
  foldl (fun w k =>
           match attempts w !! k with
           | Some a =>
               match stage a with
               | Connecting assignment tr reusing previous c =>
                   if (c =? ctl)%nat then connect_settled now k a assignment tr reusing previous c r w else w
               | _ => w
               end
           | None => w
           end) w (seq 0 (length (attempts w))).

Definition is_socket_event (e : client_event) : bool :=
  match e with
  | ControlClient.SocketOpen | ControlClient.SocketMessage _ _ | ControlClient.SocketError _
  | ControlClient.SocketClose _ | RequestTimer _ => true
  | _ => false
  end.

Definition control_event (now : Z) (ctl : nat) (e : client_event) w : RelayGateway :=
  match controls w !! ctl with
  | None => w
  | Some c =>
      if negb (is_socket_event e) then w
      else
        let f := fun client => client_step parse_json (answerChallenge (c_options c) (c_identity c)) (c_options c) client e in
        let news := drop (length (effects (client c))) (effects (f (client c))) in
        let w := foldl (callback now ctl) (update_client ctl f w) news in
        let w := settle_promises now ctl (newly_settled (client c) (f (client c))) w in
        foldl (fun w r => resume_connect now ctl r w) w (omap connect_outcome news)
  end.

(** A socket of a transport closed: those that awaited it go on. *)
Definition socket_closed (ws : nat) w : RelayGateway :=
  let others := js_filter (fun i => negb (i =? ws)%nat) in
  let w := foldl (fun w k =>
             match attempts w !! k with
             | Some a =>
                 match stage a with
                 | Stopping why l => if bool_decide (ws ∈ l) then await_stop k why (others l) w else w
                 | _ => w
                 end
             | None => w
             end) w (seq 0 (length (attempts w))) in
  let done := js_filter (fun l => bool_decide (ws ∈ l) && bool_decide (others l = [])) (stops w) in
  foldl (fun w _ => onStatus Disabled None w)
    (w <| stops := js_filter (fun l => negb (bool_decide (l = []))) (map others (stops w)) |>) done.

Definition data_event (tr ws : nat) (e : SocketEvent) w : RelayGateway :=
  let w := transport_op tr (socket_step ws e) w in
  match e with SocketClose => socket_closed ws w | _ => w end.

(** ** The credential calls *)

Definition endpoint_fields (a : RelayAssignment) : list (string * json) :=
  [("v", JNum (NInt 1)); ("directorUrl", JStr directorUrl); ("cellUrl", JStr (cellUrl a));
   ("assignmentEpoch", JNum (NInt (epoch a))); ("relayHostId", JStr relayHostId); ("e2eeFraming", JNum (NInt 2))].

(** The registry's device ids are text. *)
Definition device_id (socket : AuthenticatedMobileSocket) : string :=
  default "" (as_string (deviceId (device socket))).

Inductive UserRequest :=
  | CreatePairingRelay (deviceId : string)
  | GetEndpointsFor (socket : AuthenticatedMobileSocket) (installReqId resumeConfirmReqId : option string)
  | ProvisionRelayFor (socket : AuthenticatedMobileSocket) (reqId newResumeTokenHash : string)
      (expectedCurrentHash : option string)
  | RevokeDevice (deviceId : string).

(** Who vouches for the device a credential is installed for. *)
Definition authorization (socket : AuthenticatedMobileSocket) : option json :=
  match s_transport socket with
  | DirectSocket =>
      Some (JObj [("mode", JStr "authenticated-direct"); ("directAuthId", JStr (MobileSockets.connectionId socket))])
  | RelaySocket _ _ basisConnId Invite =>
      Some (JObj [("mode", JStr "relay-basis"); ("basisConnId", JStr basisConnId)])
  | RelaySocket _ _ _ Resume => None
  end.

Definition user_call (now : Z) (r : UserRequest) w : RelayGateway :=
  let n := length (calls w) in
  let w := w <| calls := calls w ++ [{| c_ctl := 0; c_promise := 0; c_then := None |}] |> in
  match r with
  | RevokeDevice deviceId =>
      match control w with
      | None => call_settles n (Ok JNull) w
      | Some ctl => issue n ctl now (uuid n) Revoke (revokeDevice_payload (uuid n) deviceId) ThenRevoked w
      end
  | CreatePairingRelay deviceId =>
      match control w, endpoint w with
      | None, _ => call_settles n (Throw "relay_control_not_active") w
      | _, None => call_settles n (Throw "relay_endpoint_not_active") w
      | Some ctl, Some e =>
          issue n ctl now (uuid n) ControlRequests.Invite (createInvite_payload (uuid n) deviceId)
            (ThenPairing (endpoint_fields e)) w
      end
  | GetEndpointsFor socket installReqId resumeConfirmReqId =>
      match control w, endpoint w with
      | None, _ => call_settles n (Throw "relay_control_not_active") w
      | _, None => call_settles n (Throw "relay_endpoint_not_active") w
      | Some ctl, Some e =>
          match non_empty installReqId with
          | Some reqId =>
              issue n ctl now reqId InstallStatus (credentialInstallStatus_payload reqId (device_id socket))
                (ThenStatus socket resumeConfirmReqId (endpoint_fields e)) w
          | None =>
              confirm_or_return n ctl now socket resumeConfirmReqId
                [("v", JNum (NInt 1)); ("relay", JObj (endpoint_fields e))] w
          end
      end
  | ProvisionRelayFor socket reqId newResumeTokenHash expectedCurrentHash =>
      match authorization socket, control w with
      | None, _ => call_settles n (Throw "relay_provision_authorization_unavailable") w
      | _, None => call_settles n (Throw "relay_control_not_active") w
      | Some auth, Some ctl =>
          issue n ctl now reqId Install
            (installCredential_payload reqId
               (defined [("newResumeTokenHash", Some (JStr newResumeTokenHash));
                         ("expectedCurrentHash", JStr <$> expectedCurrentHash);
                         ("relayDeviceId", Some (JStr (device_id socket))); ("authorization", Some auth)]))
            ThenInstalled w
      end
  end.

(** ** Runs *)

Inductive Event :=
  | Start
  | FetchesSettle (now : Z) (k : nat) (created : bool) (assigned identified : FetchOutcome)
  | OnControl (now : Z) (ctl : nat) (e : client_event)
  | OnData (tr ws : nat) (e : SocketEvent)
  | ReconnectFires
  | Stop (now : Z)
  | WiringSetsClient (tr ws : nat) (clientId : option json)
  | WiringTerminates (tr : nat) (clientId : option json)
  | Request (now : Z) (r : UserRequest).

Definition step w (e : Event) : RelayGateway :=
  match e with
  | Start => start w
  | FetchesSettle now k created assigned identified => fetches_settle now k created assigned identified w
  | OnControl now ctl e => control_event now ctl e w
  | OnData tr ws e => data_event tr ws e w
  | ReconnectFires => reconnect_fires w
  | Stop now => stop now w
  | WiringSetsClient tr ws clientId => transport_op tr (setClientId ws clientId) w
  | WiringTerminates tr clientId => transport_op tr (terminateClientConnections clientId) w
  | Request now r => user_call now r w
  end.
Definition run_from w (es : list Event) : RelayGateway := foldl step w es.
End Gateway.
