(* ===== verification/RelayGatewayFacts.v ===== *)
(** * The relay gateway: nothing leaks and it recovers

    Theorems about RelayGateway.v for the runs in which [start] is called as the host
    gateway calls it ([orderly]): every open control and every transport attached to
    the wiring belongs to the gateway or to a call still connecting; a gateway that
    was not stopped has a control, a reconnect timer or a connect under way. Other
    runs leak or stall: see the examples. *)

From S2P Require Import Prelude JsMap Json E2eeChannel MobileSockets RelayUrls RelayHttp RelayTransport.
From S2P Require Import ControlRequests ControlClient RelayGateway.

Local Open Scope string_scope.
Local Open Scope list_scope.
Local Open Scope Z_scope.

(** ** What an event of its socket does to a control client *)

Definition is_resolved (x : effect) : bool := match x with ConnectResolved _ => true | _ => false end.

Definition is_on_close (x : effect) : bool := match x with OnClose _ => true | _ => false end.

(** [c'] did [news] more than [c], none of it reporting a close, nor resolving the
    connect promise when [quiet], and its listeners are those of [c]. *)
Definition unremarkable (quiet : bool) (x : effect) : Prop :=
  is_on_close x = false /\ (quiet = true -> is_resolved x = false).
Definition grows (quiet : bool) (c c' : RelayControlClient) : Prop :=
  exists news, effects c' = effects c ++ news /\ Forall (unremarkable quiet) news /\
    attached c' = attached c /\ on_close c' = on_close c.

Lemma client_grows_refl q c : grows q c c.
Proof. exists []. by rewrite app_nil_r. Qed.

Lemma client_grows_trans q c1 c2 c3 : grows q c1 c2 -> grows q c2 c3 -> grows q c1 c3.
Proof.
  intros (n1 & E1 & Q1 & A1 & O1) (n2 & E2 & Q2 & A2 & O2). exists (n1 ++ n2).
  rewrite E2, E1, app_assoc, A2, O2. split_and!; [done| |done..]. apply Forall_app. auto.
Qed.

Lemma grows_emit q x c : unremarkable q x -> grows q c (emit x c).
Proof. intros Hx. exists [x]. split_and!; [done| |done..]. auto. Qed.

(** Changes that leave the effects and the listeners. *)
Lemma grows_same q c c' :
  effects c' = effects c -> attached c' = attached c -> on_close c' = on_close c -> grows q c c'.
Proof. intros E1 E2 E3. exists []. by rewrite app_nil_r. Qed.

Lemma grows_settle q x c : unremarkable q x -> grows q c (connect_settle x c).
Proof.
  intros Hx. unfold connect_settle. destruct (connecting c); [|by apply grows_same].
  eapply client_grows_trans; [by apply grows_emit|by apply grows_same].
Qed.

Lemma grows_fail q reason c : grows q c (failProtocol reason c).
Proof.
  unfold failProtocol. cbv zeta. eapply client_grows_trans; [by apply (grows_settle q (ConnectRejected reason))|].
  destruct (socket _); [by apply grows_emit|apply client_grows_refl].
Qed.

Lemma grows_send q m c : grows q c (socket_send m c).
Proof. unfold socket_send. destruct (socket c); [by apply grows_emit|apply client_grows_refl]. Qed.

Section ClientSteps.
Context `{ControlSchemas}.
Context (JSON_parse : string -> option json).
Context (answerRelayHostChallenge : json -> option string).
Context (options : Options).
Abbreviation step := (client_step JSON_parse answerRelayHostChallenge options).

Lemma grows_message raw c : grows false c (handleMessage JSON_parse answerRelayHostChallenge raw c).
Proof.
  assert (Hset : forall st c, grows false c (with_state st c)) by (intros st ?; by apply grows_same).
  assert (Hact : forall m c, grows false c (activate m c)).
  { intros m c'. unfold activate. eapply client_grows_trans; [apply (Hset Active)|by apply grows_settle]. }
  unfold handleMessage, handleProofMessage.
  destruct (parseRelayControlMessage _ _) as [m|]; [|apply grows_fail].
  destruct (bool_decide (state c = Proving)).
  { repeat (case_match; auto using grows_fail, grows_send). }
  destruct (_ && _); [apply grows_fail|]. destruct (RelayPingMessageSchema m); [apply grows_send|].
  assert (Hdrain : forall d, grows false c (emit (OnDrain d) (with_state Draining c))).
  { intros d. eapply client_grows_trans; [apply (Hset Draining)|by apply grows_emit]. }
  destruct (resolveMessage m (requests c)) as [r b].
  assert (Hreq : grows false c (with_requests r c)) by (by apply grows_same).
  assert (Hbad : grows false c (failProtocol "unknown control message" (with_requests r c)))
    by (eapply client_grows_trans; [apply Hreq|apply grows_fail]).
  assert (Hopen : forall x, grows false c (emit (OnConnectionOpen x) c)) by (intros x; by apply grows_emit).
  repeat (case_match; auto).
Qed.

Definition is_close (e : client_event) : bool := match e with ControlClient.SocketClose _ => true | _ => false end.
Definition is_message (e : client_event) : bool := match e with ControlClient.SocketMessage _ _ => true | _ => false end.

(** Events of the socket other than its close. *)
Lemma grows_step c e :
  is_socket_event e = true -> is_close e = false -> grows (negb (is_message e)) c (step c e).
Proof.
  intros He Hc. destruct e as [created| |raw b|msg|code|now r k payload|jwt| |i]; try done; cbn [client_step is_message negb].
  - destruct (on_open c); [|apply client_grows_refl]. unfold sendHostHello. case_match; [by apply grows_same|].
    eapply client_grows_trans; [|apply grows_send]. by apply grows_same.
  - destruct (attached c); [|apply client_grows_refl]. destruct b; [apply grows_fail|apply grows_message].
  - destruct (on_error c); [|apply client_grows_refl]. unfold handleError.
    assert (Hl : grows true c (with_listeners (on_open c) false (on_close c) c)) by (by apply grows_same).
    case_match; [|done]. eapply client_grows_trans; [exact Hl|by apply grows_settle].
  - by apply grows_same.
Qed.

(** The close of the socket. *)
Lemma close_event_step c code :
  on_close c = true ->
  attached (step c (ControlClient.SocketClose code)) = attached c /\
  on_close (step c (ControlClient.SocketClose code)) = false /\
  state (step c (ControlClient.SocketClose code)) = Closed /\
  exists news, effects (step c (ControlClient.SocketClose code)) = effects c ++ news ++ [OnClose code] /\
    Forall (fun x => is_resolved x = false) news.
Proof.
  intros Ho. cbn [client_step]. rewrite Ho. unfold handleClose, connect_settle. cbv zeta. simpl.
  assert (Hn : forall es es' : list effect, Forall (fun x => is_resolved x = false) es ->
    es' = effects c ++ es -> exists news, es' ++ [OnClose code] = effects c ++ news ++ [OnClose code] /\
      Forall (fun x => is_resolved x = false) news).
  { intros es es' Hes ->. exists es. by rewrite app_assoc. }
  destruct (_ || _); [destruct (connecting c)|]; simpl; (split_and!; [done..|]).
  - eapply Hn; [|reflexivity]. by repeat constructor.
  - by apply (Hn []); [constructor|rewrite app_nil_r].
  - by apply (Hn []); [constructor|rewrite app_nil_r].
Qed.
End ClientSteps.

(** A client whose connect promise is awaited. *)
Definition awaiting (c : RelayControlClient) : Prop := client_ok c /\ connect_ok c /\ connecting c = true.

Lemma awaiting_listens c : awaiting c -> attached c = true /\ on_close c = true /\ state c ≠ Closed.
Proof.
  intros (Hok & [C1 C2] & Hc). pose proof (c_connect c Hok) as Hn. rewrite Hc in Hn. simpl in Hn.
  assert (Ha : attached c = true) by (destruct (attached c); simpl in Hn; [done|lia]).
  assert (Hs : state c ≠ Closed) by (destruct (C1 Hc); congruence).
  split_and!; [done| |done]. destruct (on_close c); [done|]. by destruct (Hs (C2 Ha eq_refl)).
Qed.

(** What a step emitted. *)
Definition emitted (c c' : RelayControlClient) : list effect := drop (length (effects c)) (effects c').

Section ClientEvents.
Context `{ControlSchemas}.
Context (JSON_parse : string -> option json).
Context (answerRelayHostChallenge : json -> option string).
Context (options : Options).
Abbreviation step := (client_step JSON_parse answerRelayHostChallenge options).

Lemma event_cases c e :
  is_socket_event e = true ->
  attached (step c e) = attached c /\ effects (step c e) = effects c ++ emitted c (step c e).
Proof.
  intros He. destruct (is_close e) eqn:Hc.
  - destruct e as [| | | |code| | | |]; try done. destruct (on_close c) eqn:Ho.
    + destruct (close_event_step JSON_parse answerRelayHostChallenge options c code Ho) as (Ha & _ & _ & news & E & _).
      split; [done|]. unfold emitted. by rewrite E, drop_app_length.
    + cbn [client_step]. rewrite Ho. split; [done|]. unfold emitted. by rewrite drop_all, app_nil_r.
  - destruct (grows_step JSON_parse answerRelayHostChallenge options c e He Hc) as (news & E & _ & Ha & _).
    split; [done|]. unfold emitted. by rewrite E, drop_app_length.
Qed.

Lemma omap_outcomes es : length (omap connect_outcome es) = connect_count es.
Proof. unfold connect_count. induction es as [|[] es IH]; [done|cbn in *; lia..]. Qed.

(** An awaited promise stays awaited or is settled. *)
Lemma awaiting_event c e :
  is_socket_event e = true -> awaiting c ->
  awaiting (step c e) \/ omap connect_outcome (emitted c (step c e)) ≠ [].
Proof.
  intros He (Hok & Hcon & Hc). destruct (event_cases c e He) as [Ha Hn].
  assert (Hok' : client_ok (step c e)) by (by apply client_step_ok).
  assert (Hcon' : connect_ok (step c e)) by (apply step_connect; [done..|intros ->; done]).
  destruct (connecting (step c e)) eqn:Hc'; [by left|right].
  pose proof (c_connect _ Hok) as N. pose proof (c_connect _ Hok') as N'.
  rewrite Hn, connect_count_app, Ha, Hc', <-(omap_outcomes (emitted _ _)) in N'. rewrite Hc in N.
  intros Hnil. rewrite Hnil in N'. simpl in *. lia.
Qed.

(** It resolves without touching the close listener. *)
Lemma resolved_listens c e ack :
  is_socket_event e = true -> Ok ack ∈ omap connect_outcome (emitted c (step c e)) ->
  on_close (step c e) = on_close c.
Proof.
  intros He (x & Hx & Ho)%list_elem_of_omap. destruct x; try done.
  assert (Hno : forall news, effects (step c e) = effects c ++ news ->
            Forall (fun x => is_resolved x = false) news -> False).
  { intros news E Hf. unfold emitted in Hx. rewrite E, drop_app_length in Hx.
    rewrite Forall_forall in Hf. by discriminate (Hf _ Hx). }
  destruct (is_close e) eqn:Hc.
  - destruct e as [| | | |code| | | |]; try done. destruct (on_close c) eqn:Hl.
    + destruct (close_event_step JSON_parse answerRelayHostChallenge options c code Hl) as (_ & _ & _ & news & E & Hf).
      destruct (Hno _ E). apply Forall_app. split; [done|]. by constructor.
    + cbn [client_step]. by rewrite Hl.
  - by destruct (grows_step JSON_parse answerRelayHostChallenge options c e He Hc) as (news & _ & _ & _ & ->).
Qed.

(** Its close listener is called or left. *)
Lemma listener_event c e :
  is_socket_event e = true -> on_close c = true ->
  on_close (step c e) = true \/ exists news code, emitted c (step c e) = news ++ [OnClose code].
Proof.
  intros He Hl. destruct (is_close e) eqn:Hc.
  - destruct e as [| | | |code| | | |]; try done. right.
    destruct (close_event_step JSON_parse answerRelayHostChallenge options c code Hl) as (_ & _ & _ & news & E & _).
    exists news, code. unfold emitted. by rewrite E, drop_app_length.
  - left. by destruct (grows_step JSON_parse answerRelayHostChallenge options c e He Hc) as (news & _ & _ & _ & ->).
Qed.

(** A reported close is the client's. *)
Lemma close_reported c e code :
  is_socket_event e = true -> OnClose code ∈ emitted c (step c e) -> state (step c e) = Closed.
Proof.
  intros He Hx. destruct (is_close e) eqn:Hc.
  - destruct e as [| | | |code'| | | |]; try done. destruct (on_close c) eqn:Hl.
    + by destruct (close_event_step JSON_parse answerRelayHostChallenge options c code' Hl) as (_ & _ & ? & _).
    + cbn [client_step] in Hx. rewrite Hl in Hx. unfold emitted in Hx. rewrite drop_all in Hx. set_solver.
  - destruct (grows_step JSON_parse answerRelayHostChallenge options c e He Hc) as (news & E & Hf & _).
    unfold emitted in Hx. rewrite E, drop_app_length in Hx. rewrite Forall_forall in Hf. by destruct (Hf _ Hx).
Qed.

(** At most one outcome. *)
Lemma awaiting_outcomes c e :
  is_socket_event e = true -> awaiting c -> (length (omap connect_outcome (emitted c (step c e))) <= 1)%nat.
Proof.
  intros He (Hok & _ & Hc). destruct (event_cases c e He) as [Ha Hn].
  assert (Hok' : client_ok (step c e)) by (by apply client_step_ok).
  pose proof (c_connect _ Hok') as N'. rewrite Hn, connect_count_app, <-(omap_outcomes (emitted _ _)) in N'.
  destruct (attached (step c e)); simpl in N'; lia.
Qed.
End ClientEvents.

(** ** Changes that do not concern who owns what *)

(** A client after requests: its connection is the same. *)
Record same_client (c c' : RelayControlClient) : Prop := {
  sc_state : state c' = state c;
  sc_connecting : connecting c' = connecting c;
  sc_attached : attached c' = attached c;
  sc_on_close : on_close c' = on_close c;
  sc_ok : client_ok c -> client_ok c' }.
Record same_control (c c' : Control) : Prop := {
  sco_client : same_client (client c) (client c');
  sco_transport : c_transport c' = c_transport c;
  sco_activated : activated c' = activated c }.

#[export] Instance same_client_preorder : PreOrder same_client.
Proof.
  split; [by intros c|]. intros c1 c2 c3 [A1 A2 A3 A4 A5] [B1 B2 B3 B4 B5]. split; try congruence. auto.
Qed.
#[export] Instance same_control_preorder : PreOrder same_control.
Proof. split; [by intros c|]. intros c1 c2 c3 [A1 A2 A3] [B1 B2 B3]. split; [by etrans|congruence..]. Qed.

Lemma request_same `{ControlSchemas} now r k payload c : same_client c (client_request now r k payload c).
Proof.
  assert (Hok : client_ok c -> client_ok (client_request now r k payload c)).
  { intros Hc. by apply (client_step_ok (fun _ => None) (fun _ => None)
      {| ControlClient.relayHostId := ""; assignmentEpoch := 0; ControlClient.hostPublicKeyB64 := ""; appVersion := "";
         ControlClient.previousGeneration := None; ControlClient.controlResumeSecret := None |} c (Call now r k payload)). }
  unfold client_request in *. destruct (jm_has _ _); [by split|]. unfold sendActive in *. by destruct (can_send c); split.
Qed.

Record gsame (w w' : RelayGateway) : Prop := {
  gs_control : control w' = control w;
  gs_transport : RelayGateway.transport w' = RelayGateway.transport w;
  gs_stopped : gw_stopped w' = gw_stopped w;
  gs_attempt : connectionAttempt w' = connectionAttempt w;
  gs_timer : reconnectTimer w' = reconnectTimer w;
  gs_promise : connectPromise w' = connectPromise w;
  gs_attempts : attempts w' = attempts w;
  gs_wired : wired w' = wired w;
  gs_transports : length (transports w') = length (transports w);
  gs_controls : Forall2 same_control (controls w) (controls w') }.

#[export] Instance gsame_preorder : PreOrder gsame.
Proof.
  split; [by intros w; split|]. intros w1 w2 w3 [] []. split; try congruence. by etrans.
Qed.

Lemma gsame_fold {A} (f : RelayGateway -> A -> RelayGateway) l w :
  (forall w x, gsame w (f w x)) -> gsame w (foldl f w l).
Proof. intros Hf. revert w. induction l as [|x l IH]; intros w; [done|]. simpl. etrans; [apply Hf|apply IH]. Qed.

Lemma gsame_fields w w' :
  control w' = control w -> RelayGateway.transport w' = RelayGateway.transport w -> gw_stopped w' = gw_stopped w ->
  connectionAttempt w' = connectionAttempt w -> reconnectTimer w' = reconnectTimer w ->
  connectPromise w' = connectPromise w -> attempts w' = attempts w -> wired w' = wired w ->
  length (transports w') = length (transports w) -> controls w' = controls w -> gsame w w'.
Proof. intros. split; try done. by replace (controls w') with (controls w). Qed.

Create HintDb gsame.
Ltac gfields := apply gsame_fields; try done.

Section Same.
Context `{GatewayEnv}.
Implicit Types w : RelayGateway.

Lemma gsame_gemit x w : gsame w (gemit x w).
Proof. gfields. Qed.
Lemma gsame_set_call n c w : gsame w (set_call n c w).
Proof. gfields. Qed.
Lemma gsame_call_settles n r w : gsame w (call_settles n r w).
Proof. gfields. Qed.

Lemma gsame_update ctl f w :
  (forall c, controls w !! ctl = Some c -> same_client (client c) (f (client c))) -> gsame w (update_client ctl f w).
Proof.
  intros Hf. split; try done. simpl. apply Forall2_same_length_lookup. split; [by rewrite length_alter|].
  intros i c c' Hc. destruct (decide (i = ctl)) as [->|Hn].
  - rewrite list_lookup_alter_eq, Hc. intros [= <-]. split; [by apply Hf|done..].
  - rewrite list_lookup_alter_ne by done. rewrite Hc. by intros [= <-].
Qed.

Lemma gsame_issue n ctl now r k payload next w : gsame w (issue n ctl now r k payload next w).
Proof.
  unfold issue. destruct (controls w !! ctl) as [c|] eqn:Hc; [|done]. cbv zeta.
  assert (Hu : gsame w (update_client ctl (fun _ => client_request now r k payload (client c)) w)).
  { apply gsame_update. intros c'. rewrite Hc. intros [= <-]. apply request_same. }
  repeat case_match; (etrans; [exact Hu|]); apply gsame_call_settles || apply gsame_set_call.
Qed.

Lemma gsame_confirm n ctl now socket resume result w : gsame w (confirm_or_return n ctl now socket resume result w).
Proof. unfold confirm_or_return. repeat case_match; apply gsame_call_settles || apply gsame_issue. Qed.

Lemma gsame_continue n c now o w : gsame w (continue_call n c now o w).
Proof.
  unfold continue_call.
  repeat case_match; first [apply gsame_call_settles | apply gsame_confirm | apply gsame_issue | done].
Qed.

Lemma gsame_settle now ctl l w : gsame w (settle_promises now ctl l w).
Proof.
  apply gsame_fold. intros w' io. apply gsame_fold. intros w'' n.
  destruct (calls w'' !! n) as [c|]; [|done]. destruct (_ && _); [apply gsame_continue|done].
Qed.

Lemma gsame_transport_op tr f w : gsame w (transport_op tr f w).
Proof.
  unfold transport_op. destruct (transports w !! tr) as [t|]; [|done].
  etrans; [|apply gsame_fold; intros w' x; unfold report_rejected; repeat case_match; try done; apply gsame_gemit].
  gfields. simpl. by rewrite length_alter.
Qed.

Lemma gsame_stopTransport tr w : gsame w (stopTransport tr w).1.
Proof. unfold stopTransport. destruct (transports w !! tr); [apply gsame_transport_op|done]. Qed.

Lemma gsame_openData tr m w : gsame w (openData tr m w).
Proof. unfold openData. etrans; [|apply gsame_transport_op]. gfields. Qed.

Lemma gsame_user_call now r w : gsame w (user_call now r w).
Proof.
  unfold user_call. cbv zeta. set (w' := w <| calls := _ |>). assert (Hw : gsame w w') by gfields.
  clearbody w'. etrans; [exact Hw|].
  destruct r; repeat case_match;
    first [apply gsame_call_settles | apply gsame_confirm | apply gsame_issue].
Qed.
End Same.

(** ** Who owns controls and transports *)

(** Attempt [k] awaits control [ctl] and will give the gateway transport [tr]; a
    transport that is not reused is its own until then. *)
Definition awaits (w : RelayGateway) (k ctl tr : nat) (reusing : bool) (previous : option nat) : Prop :=
  exists a assignment, attempts w !! k = Some a /\ stage a = Connecting assignment tr reusing previous ctl.
(** The attempt whose outcome the gateway will take. *)
Definition live (w : RelayGateway) (a : Attempt) : Prop := gw_stopped w = false /\ number a = connectionAttempt w.

Definition stage_ok (w : RelayGateway) (a : Attempt) : Prop :=
  match stage a with
  | Fetching => live w a -> control w = None
  | Connecting _ tr reusing previous ctl =>
      (live w a -> control w = None /\ transport w = previous) /\
      (reusing = true -> previous = Some tr) /\
      (from_start a = true -> previous = None) /\
      (reusing = false -> tr ∈ wired w /\ transport w ≠ Some tr) /\
      (tr < length (transports w))%nat /\
      (exists c, controls w !! ctl = Some c /\ c_transport c = tr /\ activated c = false)
  | Stopping Superseded ws => ws ≠ [] /\ (number a = connectionAttempt w -> gw_stopped w = true)
  | Stopping (Failed _) ws => ws ≠ [] /\ (live w a -> control w = None)
  | Stopping Replaced ws => ws ≠ [] /\ from_start a = false
  | Done => True
  end.

(** [x]: the control whose event is being handled, its listeners not settled yet. *)
Record ginv (x : option nat) (w : RelayGateway) : Prop := {
  g_number : forall k a, attempts w !! k = Some a -> (number a <= connectionAttempt w)%nat;
  g_numbers : forall k k' a a', attempts w !! k = Some a -> attempts w !! k' = Some a' ->
    number a = number a' -> k = k';
  g_promise : forall k, connectPromise w = Some k -> exists a, attempts w !! k = Some a /\ stage a ≠ Done /\
    (gw_stopped w = false -> number a = connectionAttempt w);
  g_stopped : gw_stopped w = true -> control w = None /\ transport w = None /\ reconnectTimer w = false;
  g_start : forall k a, attempts w !! k = Some a -> from_start a = true -> stage a ≠ Done ->
    gw_stopped w = true \/ (number a = connectionAttempt w /\ connectPromise w = Some k /\
      reconnectTimer w = false /\ transport w = None);
  g_stage : forall k a, attempts w !! k = Some a -> stage_ok w a;
  g_one_control : forall k k' ctl tr tr' r r' p p',
    awaits w k ctl tr r p -> awaits w k' ctl tr' r' p' -> k = k';
  g_one_transport : forall k k' ctl ctl' tr p p',
    awaits w k ctl tr false p -> awaits w k' ctl' tr false p' -> k = k';
  g_wired : forall tr, tr ∈ wired w -> transport w = Some tr \/ exists k ctl p, awaits w k ctl tr false p;
  g_transport : forall tr, transport w = Some tr -> tr ∈ wired w /\ (tr < length (transports w))%nat;
  g_control : forall ctl, control w = Some ctl -> exists c, controls w !! ctl = Some c /\ activated c = true /\
    transport w = Some (c_transport c) /\ (x ≠ Some ctl -> on_close (client c) = true);
  g_closed : forall ctl c, controls w !! ctl = Some c -> state (client c) = Closed \/ control w = Some ctl \/
    exists k tr r p, awaits w k ctl tr r p;
  g_client : forall ctl c, controls w !! ctl = Some c -> client_ok (client c);
  g_awaiting : forall k ctl tr r p, awaits w k ctl tr r p -> x ≠ Some ctl ->
    exists c, controls w !! ctl = Some c /\ awaiting (client c) }.

(** A gateway that was not stopped has a control, or something that will bring one. *)
Definition recovers (w : RelayGateway) : Prop :=
  gw_stopped w = false -> is_Some (control w) \/ reconnectTimer w = true \/ is_Some (connectPromise w).

Lemma same_control_lookup w w' ctl c' :
  gsame w w' -> controls w' !! ctl = Some c' -> exists c, controls w !! ctl = Some c /\ same_control c c'.
Proof. intros [] Hc. eapply Forall2_lookup_r in Hc; [|done]. naive_solver. Qed.
Lemma same_control_lookup' w w' ctl c :
  gsame w w' -> controls w !! ctl = Some c -> exists c', controls w' !! ctl = Some c' /\ same_control c c'.
Proof. intros [] Hc. eapply Forall2_lookup_l in Hc; [|done]. naive_solver. Qed.

Lemma awaits_same w w' k ctl tr r p : attempts w' = attempts w -> awaits w' k ctl tr r p <-> awaits w k ctl tr r p.
Proof. unfold awaits. by intros ->. Qed.

Lemma same_awaiting c c' : same_client c c' -> awaiting c -> awaiting c'.
Proof.
  intros [A1 A2 A3 A4 A5] (B1 & [B2 B3] & B4). unfold awaiting, connect_ok.
  rewrite A1, A2, A3, A4. split_and!; auto.
Qed.

Lemma stage_ok_same w w' a : gsame w w' -> stage_ok w a -> stage_ok w' a.
Proof.
  intros Hs. pose proof (same_control_lookup' w w') as Hl. destruct (Hs) as [S1 S2 S3 S4 S5 S6 S7 S8 S9 _].
  unfold stage_ok, live. rewrite S1, S2, S3, S4, S8, S9.
  destruct (stage a) as [|assignment tr reusing previous ctl|why ws|]; [done| |done..].
  intros (B1 & B2 & B3 & B4 & B5 & c & B6 & B7 & B8). split_and!; auto.
  destruct (Hl _ _ Hs B6) as (c' & Hc' & [C1 C2 C3]). exists c'. by rewrite C2, C3.
Qed.

Lemma ginv_same x w w' : gsame w w' -> ginv x w -> ginv x w'.
Proof.
  intros Hs [G1 G2 G3 G4 G5 G6 G7 G8 G9 G10 G11 G12 G13 G14].
  pose proof (fun a => stage_ok_same w w' a Hs) as Hst.
  pose proof (fun ctl c => same_control_lookup w w' ctl c Hs) as Hr.
  pose proof (fun ctl c => same_control_lookup' w w' ctl c Hs) as Hl.
  assert (Ha : forall k ctl tr r p, awaits w' k ctl tr r p <-> awaits w k ctl tr r p)
    by (intros; apply awaits_same, Hs).
  destruct Hs as [S1 S2 S3 S4 S5 S6 S7 S8 S9 _].
  split; rewrite ?S1, ?S2, ?S3, ?S4, ?S5, ?S6, ?S7, ?S8, ?S9; try done.
  - intros k a Hk. eauto.
  - intros k k' ctl tr tr' r r' p p' H1%Ha H2%Ha. eauto.
  - intros k k' ctl ctl' tr p p' H1%Ha H2%Ha. eauto.
  - intros tr [?|(k & ctl & p & Hk)]%G9; [by left|right]. exists k, ctl, p. by apply Ha.
  - intros ctl (c & B1 & B2 & B3 & B4)%G11. destruct (Hl _ _ B1) as (c' & Hc' & [[D1 D2 D3 D4 D5] C2 C3]).
    exists c'. rewrite C2, C3. split_and!; [done..|]. intros Hx. rewrite D4. auto.
  - intros ctl c' Hc'. destruct (Hr _ _ Hc') as (c & Hc & [[D1 D2 D3 D4 D5] _ _]).
    destruct (G12 _ _ Hc) as [Hst'|[?|(k & tr & r & p & Hk)]]; [left; by rewrite D1|right; by left|].
    right; right. exists k, tr, r, p. by apply Ha.
  - intros ctl c' Hc'. destruct (Hr _ _ Hc') as (c & Hc & [[D1 D2 D3 D4 D5] _ _]). eauto.
  - intros k ctl tr r p Hk%Ha Hx. destruct (G14 _ _ _ _ _ Hk Hx) as (c & Hc & Hw).
    destruct (Hl _ _ Hc) as (c' & Hc' & [C1 _ _]). exists c'. split; [done|]. by eapply same_awaiting.
Qed.

Lemma recovers_same w w' : gsame w w' -> recovers w -> recovers w'.
Proof. unfold recovers. intros [E1 _ E3 _ E5 E6 _ _ _ _]. by rewrite E1, E3, E5, E6. Qed.

(** Closing a control nobody awaits. *)
Lemma closeNow_fields c :
  state (closeNow c) = Closed /\ connecting (closeNow c) = connecting c /\ on_close (closeNow c) = on_close c.
Proof. unfold closeNow. cbv zeta. simpl. by destruct (socket c). Qed.
#[local] Opaque closeNow.

Lemma alter_control ctl f w i c' :
  alter f ctl (controls w) !! i = Some c' ->
  exists c, controls w !! i = Some c /\ c' = if decide (i = ctl) then f c else c.
Proof.
  destruct (decide (i = ctl)) as [->|Hn].
  - rewrite list_lookup_alter_eq. destruct (controls w !! ctl); [|done]. intros [= <-]. eauto.
  - rewrite list_lookup_alter_ne by done. eauto.
Qed.
Lemma alter_control' ctl (f : Control -> Control) w i c :
  controls w !! i = Some c -> alter f ctl (controls w) !! i = Some (if decide (i = ctl) then f c else c).
Proof.
  intros Hc. destruct (decide (i = ctl)) as [->|Hn]; [by rewrite list_lookup_alter_eq, Hc|].
  by rewrite list_lookup_alter_ne.
Qed.

Lemma ginv_close x ctl w :
  ginv x w -> x = Some ctl \/ (forall k tr r p, ~ awaits w k ctl tr r p) ->
  ginv x (update_client ctl closeNow w).
Proof.
  intros [G1 G2 G3 G4 G5 G6 G7 G8 G9 G10 G11 G12 G13 G14] Hx. split; try done; cbn [update_client]; simpl.
  - intros k a Hk. specialize (G6 k a Hk). unfold stage_ok, live in *. simpl.
    destruct (stage a) as [|assignment tr reusing previous ctl'|why ws|]; [done| |done..].
    destruct G6 as (B1 & B2 & B3 & B4 & B5 & c & B6 & B7 & B8). split_and!; [done..|].
    eexists. split; [by apply alter_control'|]. by destruct (decide (ctl' = ctl)).
  - intros i Hi. destruct (G11 i Hi) as (c & B1 & B2 & B3 & B4). eexists. split; [by apply alter_control'|].
    destruct (decide (i = ctl)); [|done]. simpl. by rewrite (proj2 (proj2 (closeNow_fields _))).
  - intros i c' (c & Hc & ->)%alter_control. destruct (decide (i = ctl)); [|eauto].
    left. apply closeNow_fields.
  - intros i c' (c & Hc & ->)%alter_control. destruct (decide (i = ctl)); [|eauto]. apply closeNow_ok. eauto.
  - intros k i tr r p Hk Hi. destruct (G14 _ _ _ _ _ Hk Hi) as (c & Hc & Hw). eexists.
    split; [by apply alter_control'|]. destruct (decide (i = ctl)) as [->|]; [|done].
    destruct Hx as [->|Hx]; [done|by destruct (Hx _ _ _ _ Hk)].
Qed.

(** ** Moves *)

(** A list changed at one place. *)
Lemma alter_attempt (f : Attempt -> Attempt) k (l : list Attempt) i a' :
  alter f k l !! i = Some a' -> exists a, l !! i = Some a /\ a' = if decide (i = k) then f a else a.
Proof.
  destruct (decide (i = k)) as [->|Hn].
  - rewrite list_lookup_alter_eq. destruct (l !! k); [|done]. intros [= <-]. eauto.
  - rewrite list_lookup_alter_ne by done. eauto.
Qed.
Lemma alter_attempt' (f : Attempt -> Attempt) k (l : list Attempt) i a :
  l !! i = Some a -> alter f k l !! i = Some (if decide (i = k) then f a else a).
Proof.
  intros Ha. destruct (decide (i = k)) as [->|Hn]; [by rewrite list_lookup_alter_eq, Ha|].
  by rewrite list_lookup_alter_ne.
Qed.

Definition detach_own (own : option nat) (w : RelayGateway) : RelayGateway :=
  match own with Some tr => detachTransport tr w | None => w end.
Definition is_connecting (s : Stage) : bool := match s with Connecting _ _ _ _ _ => true | _ => false end.

(** Attempt [k] goes on to [s], without its own transport; the promise of one that is
    done is forgotten. *)
Definition moved (k : nat) (s : Stage) (own : option nat) (w : RelayGateway) : RelayGateway :=
  let w := set_stage k s (detach_own own w) in
  match s with
  | Done => if bool_decide (connectPromise w = Some k) then w <| connectPromise := None |> else w
  | _ => w
  end.

Record moves (k : nat) (s : Stage) (own : option nat) (w w' : RelayGateway) : Prop := {
  m_control : control w' = control w;
  m_transport : transport w' = transport w;
  m_stopped : gw_stopped w' = gw_stopped w;
  m_attempt : connectionAttempt w' = connectionAttempt w;
  m_timer : reconnectTimer w' = reconnectTimer w;
  m_transports : transports w' = transports w;
  m_controls : controls w' = controls w;
  m_attempts : attempts w' = alter (fun a => a <| stage := s |>) k (attempts w);
  m_wired : forall tr, tr ∈ wired w' <-> tr ∈ wired w /\ own ≠ Some tr;
  m_promise : connectPromise w' =
    match s with Done => if bool_decide (connectPromise w = Some k) then None else connectPromise w | _ => connectPromise w end }.

Lemma detach_wired own w tr : tr ∈ wired (detach_own own w) <-> tr ∈ wired w /\ own ≠ Some tr.
Proof.
  destruct own as [t|]; simpl; [|by split; [|intros []]]. rewrite elem_of_js_filter, negb_true_iff, Nat.eqb_neq.
  split; intros []; split; congruence.
Qed.

Lemma moved_moves k s own w : moves k s own w (moved k s own w).
Proof.
  pose proof (detach_wired own w) as Hw.
  split; destruct own, s; simpl in *; try done; by destruct (bool_decide _).
Qed.

Lemma awaits_moved k s own w w' i ctl tr r p :
  is_connecting s = false -> moves k s own w w' ->
  awaits w' i ctl tr r p <-> awaits w i ctl tr r p /\ i ≠ k.
Proof.
  intros Hs Hm. unfold awaits. rewrite (m_attempts _ _ _ _ _ Hm). split.
  - intros (a' & assignment & (a & Hi & ->)%alter_attempt & Hst). destruct (decide (i = k)); [|eauto].
    simpl in Hst. by rewrite Hst in Hs.
  - intros [(a & assignment & Hi & Hst) Hn]. exists a, assignment. by rewrite list_lookup_alter_ne.
Qed.

Lemma moves_promise k s own w w' i :
  moves k s own w w' -> connectPromise w' = Some i <-> connectPromise w = Some i /\ (s = Done -> i ≠ k).
Proof.
  intros Hm. rewrite (m_promise _ _ _ _ _ Hm). destruct s; try (split; [by split|by intros []]).
  case_bool_decide as Hpk; split; [done|..].
  - intros [Hi Hn]. destruct (Hn eq_refl). congruence.
  - intros Hi. split; [done|]. congruence.
  - by intros [].
Qed.

(** Where attempt [k] is, seen by its control [x] and its own transport [own]. *)
Definition leaves (x own : option nat) (a : Attempt) (w : RelayGateway) : Prop :=
  match stage a with
  | Connecting _ tr reusing _ ctl =>
      x = Some ctl /\ own = (if reusing then None else Some tr) /\
      (forall c, controls w !! ctl = Some c -> state (client c) = Closed)
  | Done => False
  | _ => x = None /\ own = None
  end.

Lemma leaves_awaits x own a w k ctl tr r p :
  leaves x own a w -> attempts w !! k = Some a -> awaits w k ctl tr r p ->
  x = Some ctl /\ own = (if r then None else Some tr) /\
  (forall c, controls w !! ctl = Some c -> state (client c) = Closed).
Proof. intros Hl Hk (a' & assignment & Hk' & Hs). simplify_eq. unfold leaves in Hl. by rewrite Hs in Hl. Qed.

(** An attempt's own transport is neither the gateway's nor another attempt's. *)
Lemma leaves_own x own a w k tr :
  ginv x w -> leaves x own a w -> attempts w !! k = Some a -> own = Some tr ->
  transport w ≠ Some tr /\ exists ctl p, awaits w k ctl tr false p.
Proof.
  intros Hg Hl Hk ->. pose proof (g_stage x w Hg k a Hk) as Hs. unfold leaves, stage_ok in *.
  destruct (stage a) as [|assignment tr' reusing previous ctl|why ws|] eqn:E; try by destruct Hl.
  destruct Hl as (-> & Ho & _). destruct reusing; [done|]. injection Ho as ->.
  destruct Hs as (_ & _ & _ & B4 & _). split; [by apply B4|]. by exists ctl, previous, a, assignment.
Qed.

(** Nobody else awaits the control of an attempt that leaves it, nor is it current. *)
Lemma leaves_control x own a w k ctl :
  ginv x w -> leaves x own a w -> attempts w !! k = Some a -> x = Some ctl ->
  control w ≠ Some ctl /\ (forall i tr r p, awaits w i ctl tr r p -> i = k) /\
  (forall c, controls w !! ctl = Some c -> state (client c) = Closed).
Proof.
  intros Hg Hl Hk ->. pose proof (g_stage _ w Hg k a Hk) as Hs. unfold leaves, stage_ok in *.
  destruct (stage a) as [|assignment tr' reusing previous ctl'|why ws|] eqn:E; try by destruct Hl.
  destruct Hl as ([= <-] & _ & Hcl). destruct Hs as (_ & _ & _ & _ & _ & c & Hc & _ & Ha). split_and!; [| |done].
  - intros (c' & Hc' & Ha' & _)%(g_control _ w Hg). congruence.
  - intros i tr r p Hi. eapply (g_one_control _ w Hg); [done|]. by exists a, assignment.
Qed.

Lemma stage_ok_moves k s own w w' b :
  moves k s own w w' -> stage_ok w b ->
  (forall assignment tr p ctl, stage b = Connecting assignment tr false p ctl -> own ≠ Some tr) -> stage_ok w' b.
Proof.
  intros [M1 M2 M3 M4 M5 M6 M7 M8 M9 M10] Hb Hn. unfold stage_ok, live in *.
  rewrite M1, M2, M3, M4, M6, M7. destruct (stage b) as [|assignment tr reusing previous ctl|why ws|]; [done| |done..].
  destruct Hb as (B1 & B2 & B3 & B4 & B5 & B6). split_and!; try done. intros ->. rewrite M9.
  destruct (B4 eq_refl). eauto.
Qed.

Lemma ginv_leave x own k a s w :
  ginv x w -> attempts w !! k = Some a -> leaves x own a w ->
  is_connecting s = false -> stage_ok w (a <| stage := s |>) -> ginv None (moved k s own w).
Proof.
  intros Hg Hk Hl Hs Hok. pose proof (fun tr => leaves_own x own a w k tr Hg Hl Hk) as Hown.
  pose proof (fun ctl => leaves_control x own a w k ctl Hg Hl Hk) as Hctl.
  pose proof (moved_moves k s own w) as Hm. set (w' := moved k s own w) in *. clearbody w'.
  pose proof (fun i ctl tr r p => awaits_moved k s own w w' i ctl tr r p Hs Hm) as Haw.
  pose proof (fun b => stage_ok_moves k s own w w' b Hm) as Hst.
  assert (Hna : forall ctl tr r p, awaits w k ctl tr r p -> x = Some ctl /\ own = (if r then None else Some tr))
    by (intros ctl tr r p Hw; destruct (leaves_awaits _ _ _ _ _ _ _ _ _ Hl Hk Hw) as (? & ? & _); done).
  pose proof (fun i => moves_promise k s own w w' i Hm) as Hp.
  assert (Hd : stage a ≠ Done) by (unfold leaves in Hl; by destruct (stage a)).
  destruct Hm as [M1 M2 M3 M4 M5 M6 M7 M8 M9 M10].
  destruct Hg as [G1 G2 G3 G4 G5 G6 G7 G8 G9 G10 G11 G12 G13 G14].
  assert (Hlk : forall i b, attempts w' !! i = Some b -> exists b0, attempts w !! i = Some b0 /\
            number b = number b0 /\ from_start b = from_start b0 /\ (i ≠ k -> b = b0) /\ (i = k -> b = a <| stage := s |>)).
  { intros i b. rewrite M8. intros (b0 & Hb0 & ->)%alter_attempt. exists b0. destruct (decide (i = k)) as [->|]; [|done].
    split_and!; try done. intros _. by simplify_eq. }
  split; rewrite ?M1, ?M2, ?M3, ?M4, ?M5, ?M6, ?M7; try done.
  - intros i b (b0 & Hb0 & -> & _)%Hlk. eauto.
  - intros i j b b' (b0 & Hb0 & -> & _)%Hlk (b1 & Hb1 & -> & _)%Hlk. eauto.
  - intros i [Hi Hn]%Hp. destruct (G3 i Hi) as (b0 & Hb0 & Hd0 & Hnum).
    eexists. split; [rewrite M8; by apply alter_attempt'|]. destruct (decide (i = k)) as [->|]; [|done].
    split; [|done]. intros Hdone. by destruct (Hn Hdone).
  - intros i b (b0 & Hb0 & -> & -> & E1 & E2)%Hlk Hf Hn.
    assert (Hd0 : stage b0 ≠ Done) by (destruct (decide (i = k)) as [->|Hik]; [by simplify_eq|by rewrite <-(E1 Hik)]).
    destruct (G5 i b0 Hb0 Hf Hd0) as [?|(B1 & B2 & B3 & B4)]; [by left|right]. split_and!; try done.
    apply Hp. split; [done|]. intros Hdone ->. apply Hn. by rewrite (E2 eq_refl).
  - intros i b Hi. destruct (Hlk i b Hi) as (b0 & Hb0 & _ & _ & E1 & E2). destruct (decide (i = k)) as [->|Hn].
    + rewrite (E2 eq_refl). apply Hst; [done|]. simpl. intros assignment tr p ctl ->. done.
    + rewrite (E1 Hn). apply Hst; [eauto|]. intros assignment tr p ctl Hs' Ho.
      destruct (Hown tr Ho) as (_ & ctl' & p' & Hk'). apply Hn. eapply G8; [|exact Hk']. by exists b0, assignment.
  - intros i j ctl tr tr' r r' p p' [H1 _]%Haw [H2 _]%Haw. eauto.
  - intros i j ctl ctl' tr p p' [H1 _]%Haw [H2 _]%Haw. eauto.
  - intros tr [Hw Ho]%M9. destruct (G9 tr Hw) as [|(i & ctl & p & Hi)]; [by left|right].
    exists i, ctl, p. apply Haw. split; [done|]. intros ->. by destruct (Hna _ _ _ _ Hi) as [_ ->].
  - intros tr Ht. rewrite M9. destruct (G10 tr Ht). split_and!; [done| |done]. intros Ho. by destruct (Hown tr Ho).
  - intros ctl Hc. destruct (G11 ctl Hc) as (c & B1 & B2 & B3 & B4). exists c. split_and!; [done..|]. intros _.
    apply B4. intros Hx. by destruct (Hctl ctl Hx).
  - intros ctl c Hc. destruct (G12 ctl c Hc) as [?|[?|(i & tr & r & p & Hi)]]; [by left|right; by left|].
    destruct (decide (i = k)) as [->|Hn]; [|right; right; exists i, tr, r, p; by apply Haw].
    left. destruct (Hna _ _ _ _ Hi) as [Hx _]. destruct (Hctl ctl Hx) as (_ & _ & Hcl). eauto.
  - intros i ctl tr r p [Hi Hn]%Haw _. apply (G14 i ctl tr r p Hi). intros Hx.
    destruct (Hctl ctl Hx) as (_ & Hu & _). by destruct (Hn (Hu _ _ _ _ Hi)).
Qed.

(** ** Attempts settle *)

Definition gok (w : RelayGateway) : Prop := ginv None w /\ recovers w.

Lemma gok_same w w' : gsame w w' -> gok w -> gok w'.
Proof. intros Hs [H1 H2]. split; [by eapply ginv_same|by eapply recovers_same]. Qed.

Lemma gsame_moved k s own w w' : gsame w w' -> gsame (moved k s own w) (moved k s own w').
Proof.
  intros [S1 S2 S3 S4 S5 S6 S7 S8 S9 S10].
  destruct own as [tr|]; destruct s; split; cbn; rewrite ?S1, ?S2, ?S3, ?S4, ?S5, ?S6, ?S7, ?S8; try done;
    case_bool_decide; simpl; rewrite ?S1, ?S2, ?S3, ?S4, ?S5, ?S6, ?S7, ?S8; done.
Qed.

(** Marking the gateway stopped when it holds nothing. *)
Lemma ginv_stopped x w :
  ginv x w -> control w = None -> transport w = None -> reconnectTimer w = false ->
  ginv x (w <| gw_stopped := true |>).
Proof.
  intros [G1 G2 G3 G4 G5 G6 G7 G8 G9 G10 G11 G12 G13 G14] Hc Ht Hr. split; try done; simpl.
  - intros k Hk. destruct (G3 k Hk) as (a & Ha & Hd & _). exists a. by split_and!.
  - intros k a Ha Hf Hd. by left.
  - intros k a Ha. specialize (G6 k a Ha). unfold stage_ok, live in *. simpl. rewrite Hc, Ht in *.
    destruct (stage a) as [|assignment tr reusing previous ctl|[]|]; try done; try naive_solver.
Qed.

Section Settle.
Context `{GatewayEnv}.
Implicit Types w : RelayGateway.

(** The end of [attempt_settles]. *)
Definition finish_attempt (a : Attempt) (k : nat) (r : result unit) w : RelayGateway :=
  let w :=
    match r with
    | Ok _ => w
    | Throw m => if from_start a then w <| gw_stopped := true |> else onStatus Offline (Some m) w
    end in
  if from_start a then gemit (StartSettled k r) w
  else if negb (gw_stopped w) && negb (is_some (control w)) then scheduleReconnect "Relay reconnect pending" w
  else w.

Lemma attempt_settles_eq k a r w :
  attempts w !! k = Some a -> attempt_settles k r w = finish_attempt a k r (moved k Done None w).
Proof.
  intros Hk. unfold attempt_settles, finish_attempt, moved. rewrite Hk. cbn [detach_own]. cbv zeta.
  destruct r, (from_start a); cbn; by case_bool_decide.
Qed.

Lemma ginv_schedule x detail w : ginv x w -> ginv x (scheduleReconnect detail w).
Proof.
  intros Hg. unfold scheduleReconnect. destruct (_ || _) eqn:E; [done|].
  apply orb_false_iff in E as [[[E1 E2]%orb_false_iff E3]%orb_false_iff E4].
  cbv zeta. eapply ginv_same; [apply gsame_gemit|].
  destruct Hg as [G1 G2 G3 G4 G5 G6 G7 G8 G9 G10 G11 G12 G13 G14]. split; try done; simpl.
  - by rewrite E1.
  - intros k a Ha Hf Hd. destruct (G5 k a Ha Hf Hd) as [?|(_ & Hp & _)]; [by left|]. by rewrite Hp in E3.
Qed.

Lemma recovers_schedule detail w : recovers (scheduleReconnect detail w).
Proof.
  unfold scheduleReconnect, recovers. destruct (_ || _) eqn:E; [|by right; left].
  intros Hs. rewrite Hs in E. simpl in E. destruct (reconnectTimer w); [by right; left|]. simpl in E.
  destruct (connectPromise w); [right; right; by eexists|]. destruct (control w); [left; by eexists|done].
Qed.

Lemma schedule_ok detail w : ginv None w -> gok (scheduleReconnect detail w).
Proof. intros Hg. split; [by apply ginv_schedule|apply recovers_schedule]. Qed.

(** A [start] that succeeds has a control or was overtaken by [stop]; one that fails
    leaves a gateway that holds nothing. *)
Definition settle_ok (a : Attempt) (r : result unit) w : Prop :=
  from_start a = true ->
  match r with
  | Ok _ => gw_stopped w = true \/ is_Some (control w)
  | Throw _ => control w = None /\ transport w = None /\ reconnectTimer w = false
  end.

Lemma finish_attempt_ok a k r w : ginv None w -> settle_ok a r w -> gok (finish_attempt a k r w).
Proof.
  intros Hg Hr. unfold settle_ok, finish_attempt in *. destruct (from_start a).
  - apply (gok_same (match r with Ok _ => w | Throw _ => w <| gw_stopped := true |> end)); [by destruct r; gfields|].
    specialize (Hr eq_refl). destruct r as [|m].
    + split; [done|]. intros Hs. destruct Hr; [congruence|by left].
    + destruct Hr as (H1 & H2 & H3). split; [by apply ginv_stopped|done].
  - set (w' := match r with Ok _ => w | Throw m => _ end). cbv zeta.
    assert (Hg' : ginv None w') by (eapply ginv_same; [|exact Hg]; destruct r; gfields). clearbody w'.
    destruct (gw_stopped w') eqn:Hs; simpl; [split; [done|by unfold recovers; rewrite Hs]|].
    destruct (control w') as [ctl|] eqn:Hc; simpl; [|by apply schedule_ok]. split; [done|].
    intros _. left. by rewrite Hc.
Qed.

(** Why an attempt that awaits the end of a transport does. *)
Definition why_ok (a : Attempt) (why : StopReason) w : Prop :=
  match why with
  | Superseded => number a = connectionAttempt w -> gw_stopped w = true
  | Failed _ => live w a -> control w = None
  | Replaced => from_start a = false
  end.

Lemma why_settles x own a k why w :
  ginv x w -> attempts w !! k = Some a -> leaves x own a w -> why_ok a why w ->
  settle_ok a (match why with Failed m => Throw m | _ => Ok tt end) w.
Proof.
  intros Hg Hk Hl Hw Hf. assert (Hd : stage a ≠ Done) by (unfold leaves in Hl; by destruct (stage a)).
  assert (Hst : gw_stopped w = true \/ live w a /\ reconnectTimer w = false /\ transport w = None).
  { destruct (gw_stopped w) eqn:Hs; [by left|right].
    destruct (g_start x w Hg k a Hk Hf Hd) as [|(? & _ & ? & ?)]; [congruence|by split_and!]. }
  destruct why as [|m|]; simpl in *.
  - destruct Hst as [|[[_ Hn] _]]; auto.
  - destruct Hst as [Hs|(Hn & Hr & Ht)]; [by apply (g_stopped x w Hg)|auto].
  - congruence.
Qed.

Lemma settles_ok x own k a r w w1 :
  ginv x w -> attempts w !! k = Some a -> leaves x own a w -> settle_ok a r w ->
  gsame (detach_own own w) w1 -> gok (attempt_settles k r w1).
Proof.
  intros Hg Hk Hl Hr Hs.
  assert (Hk1 : attempts w1 !! k = Some a) by (rewrite (gs_attempts _ _ Hs); by destruct own).
  rewrite (attempt_settles_eq k a r w1 Hk1).
  assert (Hs' : gsame (moved k Done own w) (moved k Done None w1)) by exact (gsame_moved k Done None _ _ Hs).
  apply finish_attempt_ok.
  - eapply ginv_same; [exact Hs'|]. by eapply ginv_leave.
  - destruct Hs' as [S1 S2 S3 S4 S5 _ _ _ _ _]. destruct (moved_moves k Done own w) as [M1 M2 M3 M4 M5 _ _ _ _ _].
    unfold settle_ok in *. by rewrite S1, S2, S3, S5, M1, M2, M3, M5.
Qed.

Lemma after_stop_ok x own k a why w w1 :
  ginv x w -> attempts w !! k = Some a -> leaves x own a w -> why_ok a why w ->
  gsame (detach_own own w) w1 -> gok (after_stop k why w1).
Proof.
  intros Hg Hk Hl Hw Hs. pose proof (why_settles x own a k why w Hg Hk Hl Hw) as Hr.
  unfold after_stop. destruct why; eapply settles_ok; try done; (etrans; [exact Hs|]); gfields.
Qed.

Lemma await_stop_ok x own k a why ws w w1 :
  ginv x w -> recovers w -> attempts w !! k = Some a -> leaves x own a w -> why_ok a why w ->
  gsame (detach_own own w) w1 -> gok (await_stop k why ws w1).
Proof.
  intros Hg Hrec Hk Hl Hw Hs. unfold await_stop. destruct ws as [|i ws]; [by eapply after_stop_ok|].
  apply (gok_same (moved k (Stopping why (i :: ws)) own w)); [exact (gsame_moved k (Stopping why (i :: ws)) None _ _ Hs)|].
  destruct (moved_moves k (Stopping why (i :: ws)) own w) as [M1 M2 M3 M4 M5 _ _ _ _ M10].
  split; [|unfold recovers in *; by rewrite M1, M3, M5, M10].
  eapply ginv_leave; [done..|]. unfold stage_ok. simpl. by destruct why.
Qed.
End Settle.

(** ** A control that connected, or did not *)

Section Connects.
Context `{GatewayEnv}.
Implicit Types w : RelayGateway.

Lemma closeControl_same now ctl w : gsame (update_client ctl closeNow w) (closeControl now ctl w).
Proof.
  unfold closeControl. destruct (controls w !! ctl) as [c|] eqn:Hc; [apply gsame_settle|].
  gfields. apply list_eq. intros i. simpl. destruct (decide (i = ctl)) as [->|Hn];
    [by rewrite list_lookup_alter_eq, Hc|by rewrite list_lookup_alter_ne].
Qed.

Lemma closed_control now ctl w c :
  controls (closeControl now ctl w) !! ctl = Some c -> state (client c) = Closed.
Proof.
  intros Hc. destruct (same_control_lookup _ _ _ _ (closeControl_same now ctl w) Hc) as (c' & Hc' & [[D1 _ _ _ _] _ _]).
  rewrite D1. apply alter_control in Hc' as (c'' & _ & ->). rewrite decide_True by done. apply closeNow_fields.
Qed.

Lemma close_ok now x ctl w :
  ginv x w -> recovers w -> x = Some ctl \/ (forall k tr r p, ~ awaits w k ctl tr r p) ->
  ginv x (closeControl now ctl w) /\ recovers (closeControl now ctl w) /\
  attempts (closeControl now ctl w) = attempts w.
Proof.
  intros Hg Hr Hx. pose proof (closeControl_same now ctl w) as Hs. split_and!.
  - eapply ginv_same; [exact Hs|]. by apply ginv_close.
  - by apply (recovers_same _ _ Hs).
  - apply (gs_attempts _ _ Hs).
Qed.

Lemma stop_same tr w : gsame w (stopTransport tr w).1.
Proof. apply gsame_stopTransport. Qed.

Lemma abandon_ok k a assignment tr reusing previous ctl why w :
  ginv (Some ctl) w -> recovers w -> attempts w !! k = Some a ->
  stage a = Connecting assignment tr reusing previous ctl ->
  (forall c, controls w !! ctl = Some c -> state (client c) = Closed) -> why_ok a why w ->
  gok (abandon k why tr reusing w).
Proof.
  intros Hg Hr Hk Hs Hcl Hw. unfold abandon.
  assert (Hl : leaves (Some ctl) (if reusing then None else Some tr) a w) by (unfold leaves; by rewrite Hs).
  destruct reusing; [by eapply after_stop_ok|]. pose proof (gsame_stopTransport tr (detachTransport tr w)) as Hst.
  destruct (stopTransport tr (detachTransport tr w)) as [w1 ws]. by eapply await_stop_ok.
Qed.

(** Taking over: the previous transport, if another, is let go. *)
Lemma promote_ok k a assignment tr reusing previous ctl ack s own w :
  ginv (Some ctl) w -> attempts w !! k = Some a -> stage a = Connecting assignment tr reusing previous ctl ->
  live w a -> (forall c, controls w !! ctl = Some c -> on_close (client c) = true) ->
  match s with Done => True | Stopping Replaced ws => ws ≠ [] /\ from_start a = false | _ => False end ->
  own = match previous with Some p => if (p =? tr)%nat then None else Some p | None => None end ->
  ginv None (moved k s own (promote assignment tr ctl ack w)).
Proof.
  intros Hg Hk Hs [Hlive Hnum] Hon Hok Hown. assert (Hns : is_connecting s = false) by (by destruct s).
  pose proof (moved_moves k s own (promote assignment tr ctl ack w)) as Hm. set (w' := moved _ _ _ _) in *. clearbody w'.
  assert (Haw : forall i c t r p, awaits w' i c t r p <-> awaits w i c t r p /\ i ≠ k)
    by (intros; apply (awaits_moved _ _ _ _ _ _ _ _ _ _ Hns Hm)).
  pose proof (fun i => moves_promise k s own _ w' i Hm) as Hp.
  assert (Hka : awaits w k ctl tr reusing previous) by (by exists a, assignment).
  pose proof (g_stage _ w Hg k a Hk) as Hsa. unfold stage_ok in Hsa. rewrite Hs in Hsa.
  destruct Hsa as ([Hcn Htp]%(fun f => f (conj Hlive Hnum)) & Hre & _ & Hnr & Htr & c & Hc & Hct & _).
  assert (Hnew : transport w ≠ Some tr -> reusing = false) by (intros Hn; destruct reusing; [|done]; destruct Hn; rewrite Htp; auto).
  assert (Ho : own = if decide (transport w = Some tr) then None else transport w).
  { rewrite Hown, Htp. destruct previous as [p|]; [|by case_decide]. destruct (Nat.eqb_spec p tr) as [->|]; case_decide; congruence. }
  destruct Hm as [M1 M2 M3 M4 M5 M6 M7 M8 M9 M10]. cbn in M1, M2, M3, M4, M5, M6, M7, M8, M9, M10.
  destruct Hg as [G1 G2 G3 G4 G5 G6 G7 G8 G9 G10 G11 G12 G13 G14].
  assert (Hlk : forall i b, attempts w' !! i = Some b -> exists b0, attempts w !! i = Some b0 /\
            number b = number b0 /\ from_start b = from_start b0 /\ (i ≠ k -> b = b0 /\ ~ live w b0) /\
            (i = k -> b = a <| stage := s |>)).
  { intros i b. rewrite M8. intros (b0 & Hb0 & ->)%alter_attempt. exists b0. destruct (decide (i = k)) as [->|Hn].
    - split_and!; try done. intros _. by simplify_eq.
    - split_and!; try done. intros _. split; [done|]. intros [_ Hn0]. apply Hn. eapply G2; [done..|congruence]. }
  assert (Hw : forall t, t ∈ wired w -> transport w = Some t -> own ≠ Some t -> t = tr).
  { intros t _ Ht. rewrite Ho. case_decide; congruence. }
  split; rewrite ?M1, ?M2, ?M3, ?M4, ?M5, ?M6, ?M7; try done.
  - intros i b (b0 & Hb0 & -> & _)%Hlk. eauto.
  - intros i j b b' (b0 & Hb0 & -> & _)%Hlk (b1 & Hb1 & -> & _)%Hlk. eauto.
  - intros i [Hi Hn]%Hp. destruct (G3 i Hi) as (b0 & Hb0 & Hd0 & Hnum0).
    eexists. split; [rewrite M8; by apply alter_attempt'|]. destruct (decide (i = k)) as [->|]; [|done].
    simplify_eq. split; [|done]. intros Hdone. by destruct (Hn Hdone).
  - congruence.
  - intros i b (b0 & Hb0 & -> & -> & E1 & E2)%Hlk Hf Hn. exfalso. destruct (decide (i = k)) as [->|Hik].
    + rewrite (E2 eq_refl) in Hn. simplify_eq. simpl in Hn. destruct s as [| |[] ?|]; try done. destruct Hok. congruence.
    + destruct (E1 Hik) as [-> Hnl]. apply Hnl. destruct (G5 i b0 Hb0 Hf Hn) as [|(? & _)]; [congruence|done].
  - intros i b Hi. destruct (Hlk i b Hi) as (b0 & Hb0 & _ & _ & E1 & E2). destruct (decide (i = k)) as [->|Hn].
    + rewrite (E2 eq_refl). unfold stage_ok. simpl. by destruct s as [| |[] ?|].
    + destruct (E1 Hn) as [-> Hnl]. pose proof (G6 i b0 Hb0) as Hsi. unfold stage_ok in *.
      assert (Hnl' : ~ live w' b0) by (unfold live in *; by rewrite M3, M4).
      rewrite M2, M3, M4, M6, M7. destruct (stage b0) as [|assignment' tr' reusing' previous' ctl'|[] ws|] eqn:Hsb; try done;
        [|by destruct Hsi].
      destruct Hsi as (_ & B2 & B3 & B4 & B5 & c' & Hc' & B6 & B7).
      assert (Hi' : awaits w i ctl' tr' reusing' previous') by (by exists b0, assignment').
      split_and!; try done.
      * intros ->. destruct (B4 eq_refl) as [B8 B9]. rewrite M9. split; [split; [done|]|].
        -- rewrite Ho. case_decide; congruence.
        -- intros [= ->]. apply Hn. rewrite (Hnew B9) in Hka. by eapply G8.
      * eexists. split; [by apply alter_control'|]. rewrite decide_False; [done|]. intros ->. apply Hn. by eapply G7.
  - intros i j c1 t t' r r' p p' [H1 _]%Haw [H2 _]%Haw. eauto.
  - intros i j c1 c2 t p p' [H1 _]%Haw [H2 _]%Haw. eauto.
  - intros t [Ht Hot]%M9. destruct (G9 t Ht) as [Hpt|(i & c1 & p & Hi)]; [left; f_equal; symmetry; by apply Hw|].
    destruct (decide (i = k)) as [->|Hn]; [left|right; exists i, c1, p; by apply Haw].
    destruct Hi as (a' & as' & Hk' & Hs'). congruence.
  - intros t [= <-]. rewrite M9. split; [|done]. rewrite Ho. case_decide as Hd; [by split; [apply G10|]|].
    split; [by apply Hnr, Hnew|done].
  - intros i [= <-]. eexists. split; [by apply alter_control'|]. rewrite decide_True by done. simpl.
    split_and!; [done|congruence|]. intros _. by apply Hon.
  - intros i c' (c0 & Hc0 & ->)%alter_control. destruct (decide (i = ctl)) as [->|Hi]; [right; by left|].
    destruct (G12 i c0 Hc0) as [?|[?|(j & t & r & p & Hj)]]; [by left|congruence|right; right].
    exists j, t, r, p. apply Haw. split; [done|]. intros ->. destruct Hj as (a' & as' & Hk' & Hs'). congruence.
  - intros i c' (c0 & Hc0 & ->)%alter_control. destruct (decide (i = ctl)); simpl; eauto.
  - intros i c1 t r p [Hi Hn]%Haw _. assert (Hne : c1 ≠ ctl) by (intros ->; apply Hn; by eapply G7).
    destruct (G14 i c1 t r p Hi) as (c0 & Hc0 & Hw0); [congruence|]. exists c0. split; [|done].
    by rewrite (alter_control' _ _ _ _ _ Hc0), decide_False.
Qed.

Lemma took_over k a assignment tr reusing previous ctl ack ws own w w1 :
  ginv (Some ctl) w -> attempts w !! k = Some a -> stage a = Connecting assignment tr reusing previous ctl ->
  live w a -> (forall c, controls w !! ctl = Some c -> on_close (client c) = true) ->
  (ws ≠ [] -> from_start a = false) ->
  own = match previous with Some p => if (p =? tr)%nat then None else Some p | None => None end ->
  gsame (detach_own own (promote assignment tr ctl ack w)) w1 -> gok (await_stop k Replaced ws w1).
Proof.
  intros Hg Hk Hs Hl Hon Hws Hown Hs1.
  pose proof (fun s Hok => promote_ok k a assignment tr reusing previous ctl ack s own w Hg Hk Hs Hl Hon Hok Hown) as Hp.
  assert (Hk1 : attempts w1 !! k = Some a) by (rewrite (gs_attempts _ _ Hs1); by destruct own).
  assert (Hc1 : control w1 = Some ctl) by (rewrite (gs_control _ _ Hs1); by destruct own).
  unfold await_stop. destruct ws as [|i ws].
  - unfold after_stop. set (w2 := onStatus _ _ _). assert (Hs2 : gsame w1 w2) by gfields.
    rewrite (attempt_settles_eq k a) by done. apply finish_attempt_ok.
    + eapply ginv_same; [exact (gsame_moved k Done None _ _ (transitivity Hs1 Hs2))|by apply (Hp Done)].
    + intros _. right. exists ctl. by rewrite (m_control _ _ _ _ _ (moved_moves k Done None w2)).
  - split; [|intros _; left; exists ctl; exact Hc1].
    eapply ginv_same; [exact (gsame_moved k (Stopping Replaced (i :: ws)) None _ _ Hs1)|].
    apply (Hp (Stopping Replaced (i :: ws))). split; [done|by apply Hws].
Qed.

Lemma await_stop_nil k why w : await_stop k why [] w = after_stop k why w.
Proof. done. Qed.

Lemma connect_settled_ok now k a assignment tr reusing previous ctl r w :
  ginv (Some ctl) w -> recovers w -> attempts w !! k = Some a ->
  stage a = Connecting assignment tr reusing previous ctl ->
  (forall ack c, r = Ok ack -> controls w !! ctl = Some c -> on_close (client c) = true) ->
  gok (connect_settled now k a assignment tr reusing previous ctl r w).
Proof.
  intros Hg Hr Hk Hs Hon. unfold connect_settled. cbv zeta.
  assert (Hup : forall w1 why, gsame w w1 -> why_ok a why w ->
            gok (abandon k why tr reusing (closeControl now ctl w1))).
  { intros w1 why Hs1 Hw. apply (ginv_same _ _ _ Hs1) in Hg as Hg1. apply (recovers_same _ _ Hs1) in Hr as Hr1.
    destruct (close_ok now (Some ctl) ctl w1 Hg1 Hr1) as (Hg2 & Hr2 & Ha2); [by left|].
    eapply abandon_ok; [done..| |done| |].
    - by rewrite Ha2, (gs_attempts _ _ Hs1).
    - apply closed_control.
    - pose proof (closeControl_same now ctl w1) as [D1 _ D3 D4 _ _ _ _ _ _]. destruct Hs1 as [E1 _ E3 E4 _ _ _ _ _ _].
      unfold why_ok, live in *. rewrite D1, D3, D4. cbn. by rewrite E1, E3, E4. }
  pose proof (g_stage _ w Hg k a Hk) as Hsa. unfold stage_ok in Hsa. rewrite Hs in Hsa.
  destruct Hsa as (Hl & Hre & Hfs & _ & Htr & _).
  assert (Hfail : forall w1 m, gsame w w1 -> gok (abandon k (Failed m) tr reusing (closeControl now ctl w1))).
  { intros w1 m Hs1. apply Hup; [done|]. intros Hlive. by apply Hl. }
  destruct r as [ack|m]; [|by apply Hfail].
  destruct (gw_stopped w || negb (number a =? connectionAttempt w)%nat) eqn:E.
  { apply Hup; [done|]. intros Hn. rewrite Hn, Nat.eqb_refl in E. by rewrite orb_false_r in E. }
  apply orb_false_iff in E as [Hst Hn%negb_false_iff%Nat.eqb_eq].
  destruct (lookup_lt_is_Some_2 _ _ Htr) as [t ->]. destruct (setGeneration _ t) as [t' [u|m]].
  2: { apply Hfail. gfields. simpl. by rewrite length_insert. }
  set (w1 := w <| transports := _ |>). assert (Hs1 : gsame w w1) by (gfields; simpl; by rewrite length_insert).
  pose proof (fun own ws w2 => took_over k a assignment tr reusing previous ctl ack ws own w1 w2
    (ginv_same _ _ _ Hs1 Hg) Hk Hs (conj Hst Hn) (fun c Hc => Hon ack c eq_refl Hc)) as Hto.
  assert (Hself : (forall p, previous = Some p -> (p =? tr)%nat = true) ->
            gok (after_stop k Replaced (promote assignment tr ctl ack w1))).
  { intros Hp. rewrite <-await_stop_nil. refine (Hto None [] _ _ _ _); [done| |reflexivity]. destruct previous as [p|]; [by rewrite (Hp p eq_refl)|done]. }
  clearbody w1.
  destruct previous as [p|]; [|by apply Hself]. destruct (p =? tr)%nat eqn:Hp; [apply Hself; by intros ? [= <-]|].
  pose proof (gsame_stopTransport p (detachTransport p (promote assignment tr ctl ack w1))) as Hsp.
  destruct (stopTransport _ _) as [w2 ws]. apply (Hto (Some p)); [|done..].
  intros _. destruct (from_start a); [|done]. by discriminate Hfs.
Qed.
End Connects.

(** ** Connecting *)

Section Begins.
Context `{GatewayEnv}.
Implicit Types w : RelayGateway.

Lemma awaits_transport x w k ctl tr r p : ginv x w -> awaits w k ctl tr r p -> (tr < length (transports w))%nat.
Proof.
  intros Hg (a & assignment & Hk & Hs). pose proof (g_stage x w Hg k a Hk) as Hsa. unfold stage_ok in Hsa.
  rewrite Hs in Hsa. by destruct Hsa as (_ & _ & _ & _ & ? & _).
Qed.
Lemma awaits_control x w k ctl tr r p :
  ginv x w -> awaits w k ctl tr r p -> exists c, controls w !! ctl = Some c /\ activated c = false.
Proof.
  intros Hg (a & assignment & Hk & Hs). pose proof (g_stage x w Hg k a Hk) as Hsa. unfold stage_ok in Hsa.
  rewrite Hs in Hsa. destruct Hsa as (_ & _ & _ & _ & _ & c & ? & _ & ?). eauto.
Qed.
Lemma wired_transport x w tr : ginv x w -> tr ∈ wired w -> (tr < length (transports w))%nat.
Proof.
  intros Hg [Ht|(k & ctl & p & Hk)]%(g_wired x w Hg); [by apply (g_transport x w Hg)|by eapply awaits_transport].
Qed.
Lemma current_not_awaited x w ctl k tr r p : ginv x w -> control w = Some ctl -> ~ awaits w k ctl tr r p.
Proof.
  intros Hg (c & Hc & Ha & _)%(g_control x w Hg) (c' & Hc' & Ha')%(awaits_control _ _ _ _ _ _ _ Hg). congruence.
Qed.

(** [w'] is [w] where attempt [k] connects a new control over transport [tr]. *)
Record begins (k : nat) (assignment : RelayAssignment) (tr : nat) (reusing : bool) (c : Control) w w' : Prop := {
  b_control : control w' = control w;
  b_transport : transport w' = transport w;
  b_stopped : gw_stopped w' = gw_stopped w;
  b_attempt : connectionAttempt w' = connectionAttempt w;
  b_timer : reconnectTimer w' = reconnectTimer w;
  b_promise : connectPromise w' = connectPromise w;
  b_controls : controls w' = controls w ++ [c];
  b_attempts : attempts w' =
    alter (fun a => a <| stage := Connecting assignment tr reusing (transport w) (length (controls w)) |>) k (attempts w);
  b_transports : (length (transports w) <= length (transports w'))%nat /\ (tr < length (transports w'))%nat;
  b_wired : forall t, t ∈ wired w' <-> t ∈ wired w \/ reusing = false /\ t = tr;
  b_reusing : if reusing then transport w = Some tr else tr = length (transports w) }.

Lemma ginv_begins k a assignment tr reusing c w w' :
  gok w -> attempts w !! k = Some a -> stage a = Fetching -> begins k assignment tr reusing c w w' ->
  client_ok (client c) -> c_transport c = tr -> activated c = false ->
  (forall x, x = Some (length (controls w)) \/ awaiting (client c) -> ginv x w') /\ recovers w'.
Proof.
  intros [Hg Hr] Hk Hs [B1 B2 B3 B4 B5 B6 B7 B8 [B9 B10] B11 B12] Hcok Hct Hca.
  split; [intros x Hx|unfold recovers in *; by rewrite B1, B3, B5, B6].
  set (ctl := length (controls w)) in *. set (s := Connecting assignment tr reusing (transport w) ctl) in *.
  pose proof (fun i ctl' t r p => awaits_transport None w i ctl' t r p Hg) as Hat.
  assert (Hac : forall i ctl' t r p, awaits w i ctl' t r p -> (ctl' < ctl)%nat).
  { intros i ctl' t r p Hi. destruct (awaits_control _ _ _ _ _ _ _ Hg Hi) as (c' & Hc' & _).
    by apply lookup_lt_Some in Hc'. }
  assert (Haw : forall i ctl' t r p, awaits w' i ctl' t r p <->
            awaits w i ctl' t r p \/ i = k /\ ctl' = ctl /\ t = tr /\ r = reusing /\ p = transport w).
  { intros i ctl' t r p. unfold awaits. rewrite B8. split.
    - intros (b & as' & (b0 & Hb0 & ->)%alter_attempt & Hsb). destruct (decide (i = k)) as [->|]; [|eauto].
      right. by injection Hsb as <- <- <- <- <-.
    - intros [(b & as' & Hb & Hsb)|(-> & -> & -> & -> & ->)].
      + assert (i ≠ k) by (intros ->; congruence). exists b, as'. by rewrite list_lookup_alter_ne.
      + eexists _, assignment. rewrite list_lookup_alter_eq, Hk. done. }
  assert (Hl1 : forall i c0, controls w !! i = Some c0 -> controls w' !! i = Some c0)
    by (intros i c0 Hc0; rewrite B7; by apply lookup_app_l_Some).
  assert (Hnew : controls w' !! ctl = Some c) by (rewrite B7; by apply list_lookup_middle).
  destruct Hg as [G1 G2 G3 G4 G5 G6 G7 G8 G9 G10 G11 G12 G13 G14].
  assert (Hfresh : reusing = false -> transport w ≠ Some tr).
  { intros -> Ht. destruct (G10 tr Ht). lia. }
  assert (Hlk : forall i b, attempts w' !! i = Some b -> exists b0, attempts w !! i = Some b0 /\
            number b = number b0 /\ from_start b = from_start b0 /\ (stage b ≠ Done -> stage b0 ≠ Done) /\
            (i ≠ k -> b = b0) /\ (i = k -> b = a <| stage := s |>)).
  { intros i b. rewrite B8. intros (b0 & Hb0 & ->)%alter_attempt. exists b0.
    destruct (decide (i = k)) as [->|]; [|by split_and!]. simplify_eq. split_and!; try done. by rewrite Hs. }
  split; rewrite ?B1, ?B2, ?B3, ?B4, ?B5, ?B6; try done.
  - intros i b (b0 & Hb0 & -> & _)%Hlk. eauto.
  - intros i j b b' (b0 & Hb0 & -> & _)%Hlk (b1 & Hb1 & -> & _)%Hlk. eauto.
  - intros i Hi. destruct (G3 i Hi) as (b0 & Hb0 & Hd0 & Hn). eexists.
    split; [rewrite B8; by apply alter_attempt'|]. by destruct (decide (i = k)).
  - intros i b (b0 & Hb0 & -> & -> & Hd & _)%Hlk Hf Hn. eauto.
  - intros i b Hi. destruct (Hlk i b Hi) as (b0 & Hb0 & _ & _ & _ & E1 & E2). destruct (decide (i = k)) as [->|Hn].
    + rewrite (E2 eq_refl). unfold stage_ok. cbn. rewrite B1, B2. split_and!.
      * intros Hlive. split; [|done]. pose proof (G6 k a Hk) as Ha. unfold stage_ok in Ha. rewrite Hs in Ha.
        apply Ha. unfold live in *. by rewrite <-B3, <-B4.
      * intros ->. done.
      * intros Hf. destruct (G5 k a Hk Hf) as [Hst|(_ & _ & _ & ?)]; [by rewrite Hs|by apply (G4 Hst)|done].
      * intros Hre. rewrite B11. auto.
      * done.
      * exists c. done.
    + rewrite (E1 Hn). pose proof (G6 i b0 Hb0) as Hsi. unfold stage_ok, live in *. rewrite B1, B2, B3, B4.
      destruct (stage b0) as [|as' t r p ctl'|[] ws|]; try done.
      destruct Hsi as (C1 & C2 & C3 & C4 & C5 & c' & C6 & C7). split_and!; try done; [|lia|].
      * intros Hre. destruct (C4 Hre). rewrite B11. auto.
      * exists c'. auto.
  - intros i j ctl' t t' r r' p p' [H1|H1]%Haw [H2|H2]%Haw; [eauto|..].
    + apply Hac in H1. destruct H2 as (_ & -> & _). lia.
    + apply Hac in H2. destruct H1 as (_ & -> & _). lia.
    + destruct H1 as [-> _], H2 as [-> _]. done.
  - intros i j ctl1 ctl2 t p p' [H1|H1]%Haw [H2|H2]%Haw; [eauto|..].
    + apply Hat in H1. destruct H2 as (_ & _ & -> & <- & _). lia.
    + apply Hat in H2. destruct H1 as (_ & _ & -> & <- & _). lia.
    + destruct H1 as [-> _], H2 as [-> _]. done.
  - intros t [Ht|[Hre ->]]%B11.
    + destruct (G9 t Ht) as [?|(i & ctl' & p & Hi)]; [by left|right]. exists i, ctl', p. apply Haw. by left.
    + right. exists k, ctl, (transport w). apply Haw. right. by rewrite Hre.
  - intros t Ht. rewrite B11. destruct (G10 t Ht). split; [by left|lia].
  - intros i Hi. destruct (G11 i Hi) as (c0 & C1 & C2 & C3 & C4). exists c0. split_and!; auto.
  - intros i c0 Hc0. rewrite B7 in Hc0. apply lookup_app_Some in Hc0 as [Hc0|[Hle Hc0]].
    + destruct (G12 i c0 Hc0) as [?|[?|(j & t & r & p & Hj)]]; [by left|right; by left|right; right].
      exists j, t, r, p. apply Haw. by left.
    + apply list_lookup_singleton_Some in Hc0 as [Hi <-]. right; right. exists k, tr, reusing, (transport w).
      apply Haw. right. split_and!; try done. unfold ctl. lia.
  - intros i c0 Hc0. rewrite B7 in Hc0. apply lookup_app_Some in Hc0 as [Hc0|[_ Hc0]]; [eauto|].
    by apply list_lookup_singleton_Some in Hc0 as [_ <-].
  - intros i ctl' t r p [Hi|(-> & -> & _)]%Haw Hne.
    + destruct (G14 i ctl' t r p Hi) as (c0 & Hc0 & Hw); [done|]. eauto.
    + destruct Hx as [->|Hx]; [done|]. eauto.
Qed.

Lemma connect_new created :
  client_ok (connect created new_client).1 /\
  (if created then awaiting (connect created new_client).1 /\ (connect created new_client).2 = Ok tt
   else exists m, (connect created new_client).2 = Throw m).
Proof.
  assert (Hok : client_ok (connect created new_client).1).
  { exact (client_step_ok (fun _ => None) (fun _ => None)
      {| ControlClient.relayHostId := ""; assignmentEpoch := 0; ControlClient.hostPublicKeyB64 := ""; appVersion := "";
         ControlClient.previousGeneration := None; ControlClient.controlResumeSecret := None |}
      new_client (Connect created) new_client_ok). }
  split; [done|]. destruct created; [|by eexists]. split; [|done]. split; [done|]. split; [|done].
  split; [by left|done].
Qed.

(** A call that fails before it has a control. *)
Lemma fetch_fails_ok k a m w :
  gok w -> attempts w !! k = Some a -> stage a = Fetching -> gok (attempt_settles k (Throw m) w).
Proof.
  intros [Hg Hr] Hk Hs. assert (Hl : leaves None None a w) by (unfold leaves; by rewrite Hs).
  eapply (settles_ok None None k a); [done..| |done].
  apply (why_settles None None a k (Failed m) w Hg Hk Hl).
  pose proof (g_stage _ w Hg k a Hk) as Hsa. unfold stage_ok in Hsa. by rewrite Hs in Hsa.
Qed.

Lemma attach_wired tr w t : t ∈ wired (attachTransport tr w) <-> t ∈ wired w \/ t = tr.
Proof.
  unfold attachTransport. case_bool_decide as Hin; simpl.
  - split; [by left|]. by intros [? | ->].
  - rewrite elem_of_app, list_elem_of_singleton. done.
Qed.

(** What [chooseTransport] gives. *)
Definition chosen (assignment : RelayAssignment) (tr : nat) (reusing : bool) w w' : Prop :=
  if reusing then w' = w /\ transport w = Some tr
  else tr = length (transports w) /\ (exists p, controlWebSocketUrl (cellUrl assignment) = Ok p) /\
    exists t, w' = attachTransport tr (w <| transports := transports w ++ [t] |>).

Lemma choose_transport assignment w w' tr reusing :
  chooseTransport assignment w = Ok (w', tr, reusing) -> chosen assignment tr reusing w w'.
Proof.
  unfold chooseTransport. cbv zeta. pose proof (proj1 (control_url_iff (cellUrl assignment))) as Hu.
  destruct (relayWebSocketOrigin (cellUrl assignment)) as [o|m].
  - assert (Hok : exists p, controlWebSocketUrl (cellUrl assignment) = Ok p) by eauto.
    destruct (transport w) as [t|] eqn:Ht; [case_bool_decide|]; intros [= <- <- <-]; [done|..]; (split_and!; [done..|]);
      by eexists.
  - destruct (transport w) as [t|] eqn:Ht; [case_bool_decide|]; intros; simplify_eq. done.
Qed.

Lemma transport_op_controls tr f w : controls (transport_op tr f w) = controls w.
Proof.
  unfold transport_op. destruct (transports w !! tr) as [t|]; [|done]. set (w' := w <| transports := _ |>).
  change (controls w) with (controls w'). generalize w'. induction (drop _ _) as [|x l IH]; intros w0; [done|].
  simpl. rewrite IH. unfold report_rejected. by repeat case_match.
Qed.

Lemma chosen_begins k assignment tr reusing x c w w' :
  ginv None w -> chosen assignment tr reusing w w' ->
  begins k assignment tr reusing c w
    (set_stage k (Connecting assignment tr reusing (transport w) (length (controls w')))
      (gemit x ((transport_op tr RelayTransport.start w') <| controls := controls (transport_op tr RelayTransport.start w') ++ [c] |>))).
Proof.
  intros Hg Hc.
  assert (Hf : control w' = control w /\ transport w' = transport w /\ gw_stopped w' = gw_stopped w /\
            connectionAttempt w' = connectionAttempt w /\ reconnectTimer w' = reconnectTimer w /\
            connectPromise w' = connectPromise w /\ controls w' = controls w /\ attempts w' = attempts w /\
            (length (transports w) <= length (transports w'))%nat /\ (tr < length (transports w'))%nat /\
            (forall t, t ∈ wired w' <-> t ∈ wired w \/ reusing = false /\ t = tr)).
  { destruct reusing; simpl in Hc.
    - destruct Hc as [-> Ht]. split_and!; try done; [by apply (g_transport _ w Hg)|]. intros t. split; [by left|by intros [|[]]].
    - destruct Hc as (-> & _ & t & ->). unfold attachTransport. rewrite bool_decide_false.
      + simpl. rewrite length_app. simpl. split_and!; try done; try lia.
        intros t'. rewrite elem_of_app, list_elem_of_singleton. naive_solver.
      + intros Hin. apply (wired_transport _ _ _ Hg) in Hin. lia. }
  destruct Hf as (F1 & F2 & F3 & F4 & F5 & F6 & F7 & F8 & F9 & F10 & F11).
  destruct (gsame_transport_op tr RelayTransport.start w') as [S1 S2 S3 S4 S5 S6 S7 S8 S9 _].
  split; cbn; rewrite ?S1, ?S2, ?S3, ?S4, ?S5, ?S6, ?S7, ?S8, ?S9, ?transport_op_controls, ?F7; try congruence.
  - split; lia.
  - done.
  - destruct reusing; simpl in Hc; by destruct Hc as (? & ?).
Qed.

Lemma connect_settled_number now k a a' assignment tr reusing previous ctl r w :
  number a = number a' ->
  connect_settled now k a assignment tr reusing previous ctl r w = connect_settled now k a' assignment tr reusing previous ctl r w.
Proof. intros Hn. unfold connect_settled. by rewrite Hn. Qed.

Lemma connectControl_ok now k a created assignment who tr reusing url w w' :
  gok w -> attempts w !! k = Some a -> stage a = Fetching -> chosen assignment tr reusing w w' ->
  gok (connectControl now k a created assignment who tr reusing (transport w) url w').
Proof.
  intros Hg Hk Hs Hc. unfold connectControl. cbv zeta. destruct (connect_new created) as [Hok Hcon].
  destruct (connect created new_client) as [c connected]. simpl in Hok, Hcon.
  set (ctl := {| client := c |}). set (w3 := set_stage _ _ _).
  assert (Hb : begins k assignment tr reusing ctl w w3) by (apply chosen_begins; [apply Hg|done]).
  assert (Hcs : controls w' = controls w).
  { destruct reusing; simpl in Hc; [by destruct Hc as [-> _]|]. destruct Hc as (_ & _ & t & ->).
    unfold attachTransport. by case_bool_decide. }
  assert (Hk3 : attempts w3 !! k = Some (a <| stage := Connecting assignment tr reusing (transport w) (length (controls w)) |>))
    by (by rewrite (b_attempts _ _ _ _ _ _ _ Hb), list_lookup_alter_eq, Hk).
  destruct (ginv_begins k a assignment tr reusing ctl w w3 Hg Hk Hs Hb Hok eq_refl eq_refl) as [Hi Hr]. clearbody w3.
  destruct created.
  - destruct Hcon as [Hw ->]. split; [|done]. apply Hi. by right.
  - destruct Hcon as [m ->]. rewrite Hcs.
    rewrite (connect_settled_number now k a (a <| stage := Connecting assignment tr reusing (transport w) (length (controls w)) |>)) by done.
    apply connect_settled_ok; try done. apply Hi. by left.
Qed.

Lemma fetches_ok now k created assigned identified w :
  gok w -> gok (fetches_settle now k created assigned identified w).
Proof.
  intros Hg. unfold fetches_settle. destruct (attempts w !! k) as [a|] eqn:Hk; [|done].
  destruct (stage a) eqn:Hs; try done.
  destruct (requestRelayAssignment _ _) as [assignment|m]; [|by eapply fetch_fails_ok].
  destruct (fetchRelayIdentity _ _) as [who|m]; [|by eapply fetch_fails_ok].
  pose proof (choose_transport assignment w) as Hch.
  destruct (chooseTransport assignment w) as [[[w' tr] reusing]|m]; [|by eapply fetch_fails_ok].
  specialize (Hch _ _ _ eq_refl). destruct (controlWebSocketUrl (cellUrl assignment)) as [[b url]|m] eqn:Hu.
  - by eapply connectControl_ok.
  - destruct reusing; simpl in Hch; [|rewrite Hu in Hch; destruct Hch as (_ & [p Hp] & _); done].
    destruct Hch as [-> _]. by eapply fetch_fails_ok.
Qed.
End Begins.

(** ** Starting and stopping *)

Section Starts.
Context `{GatewayEnv}.
Implicit Types w : RelayGateway.

Lemma establish_ok by_start w :
  ginv None w -> control w = None -> reconnectTimer w = false -> (by_start = true -> transport w = None) ->
  (forall k a, attempts w !! k = Some a -> from_start a = true -> stage a = Done) ->
  gok (establishControl by_start (w <| gw_stopped := false |>)).
Proof.
  intros Hg Hc Hr Ht Hno. unfold establishControl. cbv zeta. split; [|intros _; right; right; by eexists].
  set (w' := _ <| connectPromise := _ |>).
  set (a0 := {| number := S (connectionAttempt w); from_start := by_start; stage := Fetching |}).
  assert (Hlk : forall i b, attempts w' !! i = Some b <-> attempts w !! i = Some b \/ i = length (attempts w) /\ b = a0).
  { intros i b. change (attempts w') with (attempts w ++ [a0]). rewrite lookup_app_Some. split.
    - intros [?|[Hle [Hi <-]%list_lookup_singleton_Some]]; [by left|right]. split; [lia|done].
    - intros [?|[-> ->]]; [by left|right]. by rewrite Nat.sub_diag. }
  assert (Haw : forall i ctl tr r p, awaits w' i ctl tr r p <-> awaits w i ctl tr r p).
  { intros i ctl tr r p. unfold awaits. split; intros (b & as' & Hb & Hs).
    - apply Hlk in Hb as [Hb|[_ ->]]; [eauto|done].
    - exists b, as'. split; [|done]. apply Hlk. by left. }
  destruct Hg as [G1 G2 G3 G4 G5 G6 G7 G8 G9 G10 G11 G12 G13 G14].
  split; cbn [w']; simpl; try done.
  - intros k a [Hk|[_ ->]]%Hlk; [|done]. specialize (G1 k a Hk). lia.
  - intros i j b b' [Hb|[-> ->]]%Hlk [Hb'|[-> ->]]%Hlk Hn; [eauto| | |done].
    + specialize (G1 i b Hb). simpl in Hn. lia.
    + specialize (G1 j b' Hb'). simpl in Hn. lia.
  - intros k [= <-]. exists a0. split; [|done]. apply Hlk. by right.
  - intros k a [Hk|[-> ->]]%Hlk Hf Hd; [by destruct (Hd (Hno k a Hk Hf))|right]. split_and!; try done. by apply Ht.
  - intros k a [Hk|[_ ->]]%Hlk; [|by intros _]. pose proof (G6 k a Hk) as Hs. specialize (G1 k a Hk).
    assert (Hn : ~ live w' a) by (intros [_ Hn]; simpl in Hn; lia). unfold stage_ok in *.
    destruct (stage a) as [|as' tr r p ctl|[] ws|]; try done.
    + by destruct Hs as (_ & ?).
    + destruct Hs as [? _]. split; [done|]. simpl. lia.
    + by destruct Hs as [? _].
  - intros i j ctl t t' r r' p p' H1%Haw H2%Haw. eauto.
  - intros i j c1 c2 t p p' H1%Haw H2%Haw. eauto.
  - intros t [?|(i & ctl & p & Hi)]%G9; [by left|right]. exists i, ctl, p. by apply Haw.
  - intros ctl c Hctl. destruct (G12 ctl c Hctl) as [?|[?|(j & t & r & p & Hj)]]; [by left|right; by left|right; right].
    exists j, t, r, p. by apply Haw.
  - intros k ctl t r p Hk%Haw. eauto.
Qed.

(** When [start] may be called: not while a former call of it is settling after
    [stop], nor while the gateway waits to reconnect. *)
Definition is_done (s : Stage) : bool := match s with Done => true | _ => false end.
Definition start_allowed w : bool :=
  if gw_stopped w then forallb (fun a => negb (from_start a) || is_done (stage a)) (attempts w)
  else is_some (control w) || is_some (connectPromise w).

Lemma start_ok w : gok w -> start_allowed w = true -> gok (start w).
Proof.
  intros Hg Ha. unfold start, start_allowed in *. destruct (gw_stopped w) eqn:Hs; cbn [negb andb]; [|by rewrite Ha].
  destruct Hg as [Hg _]. destruct (g_stopped _ w Hg Hs) as (Hc & Ht & Hr).
  apply establish_ok; try done. intros k a Hk Hf. rewrite forallb_forall in Ha.
  specialize (Ha a (proj1 (list_elem_of_In _ _) (list_elem_of_lookup_2 _ _ _ Hk))). rewrite Hf in Ha. by destruct (stage a).
Qed.

Lemma reconnect_ok w : gok w -> gok (reconnect_fires w).
Proof.
  intros [Hg Hr]. unfold reconnect_fires. destruct (reconnectTimer w) eqn:Ht; [|done]. cbn [negb]. cbv zeta.
  assert (Hno : gw_stopped w = false /\ forall k a, attempts w !! k = Some a -> from_start a = true -> stage a = Done).
  { assert (Hs : gw_stopped w = false).
    { destruct (gw_stopped w) eqn:Hs; [|done]. destruct (g_stopped _ w Hg Hs) as (_ & _ & ?). congruence. }
    split; [done|]. intros k a Hk Hf. destruct (stage a) eqn:Hst; [| | |done];
      (destruct (g_start _ w Hg k a Hk Hf) as [|(_ & _ & ? & _)]; congruence). }
  destruct Hno as [Hs Hno]. set (w1 := w <| reconnectTimer := false |>).
  assert (Hg1 : ginv None w1).
  { destruct Hg as [G1 G2 G3 G4 G5 G6 G7 G8 G9 G10 G11 G12 G13 G14]. split; try done; simpl.
    - by rewrite Hs.
    - intros k a Hk Hf Hd. destruct (G5 k a Hk Hf Hd) as [?|(? & ? & _ & ?)]; [by left|by right]. }
  change (gw_stopped w1) with (gw_stopped w). rewrite Hs. cbn [orb].
  destruct (control w1) as [ctl|] eqn:Hc; cbn [is_some].
  - split; [done|]. intros _. left. by rewrite Hc.
  - replace w1 with (w1 <| gw_stopped := false |>) by (subst w1; destruct w; simpl in *; by subst).
    by apply establish_ok.
Qed.

(** What [stop] leaves. *)
Definition stopped_gateway w : RelayGateway :=
  let w0 := w <| gw_stopped := true |> <| connectionAttempt := S (connectionAttempt w) |>
              <| reconnectTimer := false |> <| control := None |> <| transport := None |> in
  detach_own (transport w) (match control w with Some ctl => update_client ctl closeNow w0 | None => w0 end).

Lemma ginv_stopped_gateway w : ginv None w -> ginv None (stopped_gateway w).
Proof.
  intros Hg. pose proof (fun ctl k tr r p => current_not_awaited None w ctl k tr r p Hg) as Hna.
  set (w' := stopped_gateway w).
  assert (Hf : control w' = None /\ transport w' = None /\ gw_stopped w' = true /\
            connectionAttempt w' = S (connectionAttempt w) /\ reconnectTimer w' = false /\
            connectPromise w' = connectPromise w /\ attempts w' = attempts w /\ transports w' = transports w /\
            forall t, t ∈ wired w' <-> t ∈ wired w /\ transport w ≠ Some t).
  { pose proof (fun t => detach_wired (transport w) (match control w with Some ctl => update_client ctl closeNow
      (w <| gw_stopped := true |> <| connectionAttempt := S (connectionAttempt w) |>
         <| reconnectTimer := false |> <| control := None |> <| transport := None |>) | None => w end) t) as Hw.
    unfold w', stopped_gateway. cbv zeta. destruct (transport w), (control w); split_and!; done. }
  assert (Hcs : forall i c', controls w' !! i = Some c' <-> exists c, controls w !! i = Some c /\
            c' = if decide (control w = Some i) then c <| client := closeNow (client c) |> else c).
  { intros i c'. replace (controls w') with (match control w with Some ctl => alter (fun c => c <| client := closeNow (client c) |>) ctl (controls w) | None => controls w end)
      by (unfold w', stopped_gateway; cbv zeta; by destruct (transport w), (control w)).
    destruct (control w) as [ctl|].
    - split.
      + intros (c & Hc & ->)%alter_control. exists c. split; [done|]. by destruct (decide (i = ctl)) as [->|]; case_decide; simplify_eq.
      + intros (c & Hc & ->). rewrite (alter_control' _ _ _ _ _ Hc). f_equal.
        by destruct (decide (i = ctl)) as [->|]; case_decide; simplify_eq.
    - split; [|by intros (c & Hc & ->)]. intros Hc. exists c'. by split. }
  destruct Hf as (F1 & F2 & F3 & F4 & F5 & F6 & F7 & F8 & F9). clearbody w'.
  assert (Haw : forall i ctl tr r p, awaits w' i ctl tr r p <-> awaits w i ctl tr r p) by (intros; by apply awaits_same).
  destruct Hg as [G1 G2 G3 G4 G5 G6 G7 G8 G9 G10 G11 G12 G13 G14].
  split; rewrite ?F1, ?F2, ?F3, ?F4, ?F5, ?F6, ?F7, ?F8; try done.
  - intros k a Hk. specialize (G1 k a Hk). lia.
  - intros k Hk. destruct (G3 k Hk) as (a & Ha & Hd & _). exists a. by split_and!.
  - intros k a Hk Hf Hd. by left.
  - intros k a Hk. pose proof (G6 k a Hk) as Hs. unfold stage_ok, live in *. rewrite F1, F2, F3, F8.
    destruct (stage a) as [|as' tr r p ctl|[] ws|] eqn:Hst; try done; try (by destruct Hs as [? _]; split; intros; done).
    destruct Hs as (B1 & B2 & B3 & B4 & B5 & c & B6 & B7 & B8). split_and!; try done; [by intros []| |].
    + intros Hr. destruct (B4 Hr). split; [by apply F9|done].
    + eexists. split; [apply Hcs; eauto|]. by case_decide.
  - intros i j ctl t t' r r' p p' H1%Haw H2%Haw. eauto.
  - intros i j c1 c2 t p p' H1%Haw H2%Haw. eauto.
  - intros t [Ht Hn]%F9. destruct (G9 t Ht) as [|(i & ctl & p & Hi)]; [done|right]. exists i, ctl, p. by apply Haw.
  - intros i c' (c & Hc & ->)%Hcs. case_decide as Hi; [left; apply closeNow_fields|].
    destruct (G12 i c Hc) as [?|[?|(j & t & r & p & Hj)]]; [by left|done|right; right]. exists j, t, r, p. by apply Haw.
  - intros i c' (c & Hc & ->)%Hcs. case_decide; [apply closeNow_ok|]; eauto.
  - intros i ctl t r p Hi%Haw _. destruct (G14 i ctl t r p Hi) as (c & Hc & Hw); [done|]. exists c.
    split; [|done]. apply Hcs. exists c. split; [done|]. rewrite decide_False; [done|]. intros Hctl. by apply (Hna ctl i t r p).
Qed.

Lemma gsame_detach own w w' : gsame w w' -> gsame (detach_own own w) (detach_own own w').
Proof. intros []. destruct own; [|by split]. split; try done. simpl. congruence. Qed.

Lemma stop_ok now w : gok w -> gok (stop now w).
Proof.
  intros [Hg _]. apply (gok_same (stopped_gateway w)).
  - unfold stop, stopped_gateway. cbv zeta.
    set (w1 := match control w with Some ctl => closeControl now ctl _ | None => _ end).
    assert (H1 : gsame (match control w with Some ctl => update_client ctl closeNow
        (w <| gw_stopped := true |> <| connectionAttempt := S (connectionAttempt w) |>
         <| reconnectTimer := false |> <| control := None |> <| transport := None |>) | None =>
        w <| gw_stopped := true |> <| connectionAttempt := S (connectionAttempt w) |>
         <| reconnectTimer := false |> <| control := None |> <| transport := None |> end) w1).
    { unfold w1. destruct (control w); [etrans; [|apply closeControl_same]; gfields|gfields]. }
    clearbody w1. apply (gsame_detach (transport w)) in H1. etrans; [exact H1|].
    destruct (transport w) as [tr|]; [|apply gsame_gemit]. cbn [detach_own].
    pose proof (gsame_stopTransport tr (detachTransport tr w1)) as Hst.
    destruct (stopTransport tr (detachTransport tr w1)) as [w2 ws]. simpl in Hst. etrans; [exact Hst|].
    destruct ws; [apply gsame_gemit|gfields].
  - split; [by apply ginv_stopped_gateway|]. intros Hs. exfalso. revert Hs. unfold stopped_gateway. cbv zeta.
    by destruct (transport w), (control w).
Qed.
End Starts.

(** ** Socket events *)

Section Sockets.
Context `{GatewayEnv}.
Implicit Types w : RelayGateway.

Lemma foldl_ok {A} (P : RelayGateway -> Prop) (f : RelayGateway -> A -> RelayGateway) l w :
  (forall w x, P w -> P (f w x)) -> P w -> P (foldl f w l).
Proof. intros Hf. revert w. induction l as [|x l IH]; intros w Hw; simpl; auto. Qed.

Lemma socket_closed_ok ws w : gok w -> gok (socket_closed ws w).
Proof.
  intros Hg. unfold socket_closed. cbv zeta. apply (foldl_ok gok).
  { intros w' x Hw'. by eapply gok_same; [apply gsame_gemit|]. }
  set (w1 := foldl _ w _). eapply (gok_same w1); [gfields|]. apply (foldl_ok gok); [|done].
  clear. intros w k [Hg Hr]. destruct (attempts w !! k) as [a|] eqn:Hk; [|done].
  destruct (stage a) as [| |why l|] eqn:Hs; try done. case_bool_decide; [|done].
  eapply (await_stop_ok None None k a); try done; [by unfold leaves; rewrite Hs|].
  pose proof (g_stage _ w Hg k a Hk) as Hsa. unfold stage_ok in Hsa. rewrite Hs in Hsa. by destruct why, Hsa.
Qed.

Lemma data_event_ok tr ws e w : gok w -> gok (data_event tr ws e w).
Proof.
  intros Hg. unfold data_event. cbv zeta. assert (Hg' : gok (transport_op tr (socket_step ws e) w))
    by (by eapply gok_same; [apply gsame_transport_op|]).
  destruct e; try done. by apply socket_closed_ok.
Qed.

(** A live control ends: the gateway goes back to waiting. *)
Lemma ginv_drop x ctl w :
  ginv x w -> control w = Some ctl -> (forall c, controls w !! ctl = Some c -> state (client c) = Closed) ->
  ginv x (w <| control := None |>).
Proof.
  intros [G1 G2 G3 G4 G5 G6 G7 G8 G9 G10 G11 G12 G13 G14] Hc Hcl. split; try done; simpl.
  - intros Hs. by destruct (G4 Hs) as (? & ? & ?).
  - intros k a Hk. specialize (G6 k a Hk). unfold stage_ok, live in *. simpl.
    destruct (stage a) as [|as' tr r p i|[] ws|]; try done; [|naive_solver].
    destruct G6 as (B1 & B). split; [|done]. intros Hl. by destruct (B1 Hl).
  - intros i c Hi. destruct (G12 i c Hi) as [?|[?|?]]; [by left|left|by right; right]. simplify_eq. eauto.
Qed.

(** While the events of control [ctl] are handled: what is known of it. *)
Record handling (ctl : nat) (closed listens : bool) w0 w : Prop := {
  h_inv : ginv (Some ctl) w;
  h_recovers : recovers w;
  h_attempts : attempts w = attempts w0;
  h_control : control w = control w0 \/ control w = None;
  h_client : forall c, controls w !! ctl = Some c -> on_close (client c) = listens /\
    (closed = true -> state (client c) = Closed) }.

Lemma handling_same ctl b l w0 w w' : gsame w w' -> handling ctl b l w0 w -> handling ctl b l w0 w'.
Proof.
  intros Hs [H1 H2 H3 H4 H5]. split; [by eapply ginv_same|by eapply recovers_same|..].
  - by rewrite (gs_attempts _ _ Hs).
  - by rewrite (gs_control _ _ Hs).
  - intros c' Hc'. destruct (same_control_lookup _ _ _ _ Hs Hc') as (c & Hc & [[D1 D2 D3 D4 D5] _ _]).
    rewrite D1, D4. eauto.
Qed.

Lemma schedule_fields detail w :
  attempts (scheduleReconnect detail w) = attempts w /\ control (scheduleReconnect detail w) = control w /\
  controls (scheduleReconnect detail w) = controls w.
Proof. unfold scheduleReconnect. by destruct (_ || _). Qed.

Lemma callback_ok now ctl closed listens w0 w x :
  (is_on_close x = true -> closed = true) -> handling ctl closed listens w0 w ->
  handling ctl closed listens w0 (callback now ctl w x).
Proof.
  intros Hx Hh. unfold callback. destruct (controls w !! ctl) as [c|] eqn:Hc; [|done].
  destruct x; try done.
  - eapply handling_same; [apply gsame_openData|done].
  - case_bool_decide as Hctl; [|done]. cbn [negb orb]. destruct (gw_stopped w); [done|].
    set (w1 := onStatus _ _ w). assert (H1 : handling ctl closed listens w0 w1) by (eapply handling_same; [|exact Hh]; gfields).
    clearbody w1. clear Hh Hctl Hc. pose proof (closeControl_same now ctl w1) as Hs.
    eapply handling_same; [exact Hs|]. destruct H1 as [H1 H2 H3 H4 H5].
    split; [by apply ginv_close; [|left]|done..|]. intros c' (c0 & Hc0 & ->)%alter_control. rewrite decide_True by done.
    cbn. destruct (closeNow_fields (client c0)) as (-> & _ & ->). destruct (H5 c0 Hc0). done.
  - destruct (activated c); [|done]. case_bool_decide as Hctl; [|done]. cbn [negb orb].
    destruct (gw_stopped w) eqn:Hs; [done|]. destruct Hh as [H1 H2 H3 H4 H5].
    assert (Hd : ginv (Some ctl) (w <| control := None |>))
      by (apply (ginv_drop _ ctl); [done..|]; intros c0 Hc0; destruct (H5 c0 Hc0); auto).
    destruct (schedule_fields "Relay control disconnected" (w <| control := None |>)) as (E1 & E2 & E3).
    split; [by apply ginv_schedule|apply recovers_schedule|..].
    + by rewrite E1.
    + right. by rewrite E2.
    + intros c0. rewrite E3. apply H5.
Qed.

(** The close callback leaves the control. *)
Lemma close_callback_drops now ctl closed listens w0 w code :
  handling ctl closed listens w0 w -> control (callback now ctl w (OnClose code)) ≠ Some ctl.
Proof.
  intros Hh Hctl. assert (Hc : control w = Some ctl).
  { revert Hctl. unfold callback. destruct (controls w !! ctl); [|done]. destruct (_ || _); [done|].
    by destruct (schedule_fields "Relay control disconnected" (w <| control := None |>)) as (_ & -> & _). }
  revert Hctl. destruct (g_control _ w (h_inv _ _ _ _ _ Hh) ctl Hc) as (c & Hl & Ha & _).
  assert (Hs : gw_stopped w = false).
  { destruct (gw_stopped w) eqn:Hs; [|done]. destruct (g_stopped _ w (h_inv _ _ _ _ _ Hh) Hs). congruence. }
  unfold callback. rewrite Hl, Ha, Hs, bool_decide_true by done. cbn [negb orb].
  by destruct (schedule_fields "Relay control disconnected" (w <| control := None |>)) as (_ & -> & _).
Qed.

Lemma ginv_update ctl f w :
  ginv None w -> (forall c, controls w !! ctl = Some c -> client_ok (f (client c)) /\
    (state (client c) = Closed -> state (f (client c)) = Closed)) -> ginv (Some ctl) (update_client ctl f w).
Proof.
  intros [G1 G2 G3 G4 G5 G6 G7 G8 G9 G10 G11 G12 G13 G14] Hf. split; try done; cbn [update_client]; simpl.
  - intros k a Hk. specialize (G6 k a Hk). unfold stage_ok, live in *. simpl.
    destruct (stage a) as [|assignment tr reusing previous ctl'|why ws|]; [done| |done..].
    destruct G6 as (B1 & B2 & B3 & B4 & B5 & c & B6 & B7 & B8). split_and!; [done..|].
    eexists. split; [by apply alter_control'|]. by destruct (decide (ctl' = ctl)).
  - intros i Hi. destruct (G11 i Hi) as (c & B1 & B2 & B3 & B4). eexists. split; [by apply alter_control'|].
    destruct (decide (i = ctl)) as [->|]; [|by split_and!; auto]. simpl. by split_and!.
  - intros i c' (c & Hc & ->)%alter_control. destruct (decide (i = ctl)) as [->|]; [|eauto].
    destruct (G12 ctl c Hc) as [Hs|?]; [left; simpl; by apply Hf|by right].
  - intros i c' (c & Hc & ->)%alter_control. destruct (decide (i = ctl)) as [->|]; [|eauto]. by apply Hf.
  - intros k i tr r p Hk Hi. destruct (G14 k i tr r p Hk) as (c & Hc & Hw); [done|]. exists c. split; [|done].
    rewrite (alter_control' _ _ _ _ _ Hc), decide_False; [done|congruence].
Qed.

(** The events of a control are handled. *)
Lemma ginv_handled x ctl w :
  ginv (Some ctl) w -> (control w = Some ctl -> forall c, controls w !! ctl = Some c -> on_close (client c) = true) ->
  (forall k tr r p, awaits w k ctl tr r p -> exists c, controls w !! ctl = Some c /\ awaiting (client c)) -> ginv x w.
Proof.
  intros [G1 G2 G3 G4 G5 G6 G7 G8 G9 G10 G11 G12 G13 G14] Hc Ha. split; try done.
  - intros i Hi. destruct (G11 i Hi) as (c & B1 & B2 & B3 & B4). exists c. split_and!; [done..|]. intros _.
    destruct (decide (i = ctl)) as [->|]; [by apply Hc|]. apply B4. congruence.
  - intros k i tr r p Hk _. destruct (decide (i = ctl)) as [->|]; [by eapply Ha|]. eapply G14; [done|congruence].
Qed.

(** [resume_connect] resumes the one attempt that awaits the control. *)
Lemma foldl_one {A} (f : RelayGateway -> A -> RelayGateway) l k w :
  NoDup l -> k ∈ l -> (forall j, j ≠ k -> f w j = w) -> (forall j, j ≠ k -> f (f w k) j = f w k) -> foldl f w l = f w k.
Proof.
  intros Hn (l1 & l2 & ->)%list_elem_of_split H1 H2.
  apply NoDup_app in Hn as (_ & Hn1 & [Hn2 _]%NoDup_cons).
  assert (Hid : forall w' l, (forall j, j ∈ l -> f w' j = w') -> foldl f w' l = w').
  { intros w' l. induction l as [|j l IH]; intros Hj; [done|]. simpl. rewrite Hj by left. apply IH. intros j' Hj'. apply Hj. by right. }
  rewrite foldl_app. rewrite (Hid w l1) by (intros j Hj; apply H1; intros ->; apply (Hn1 _ Hj), list_elem_of_here).
  simpl. apply Hid. intros j Hj. apply H2. intros ->. done.
Qed.

(** Only the attempt that settles changes its stage. *)
Definition only_attempt (k : nat) w w' : Prop := forall j, j ≠ k -> attempts w' !! j = attempts w !! j.
Lemma only_settles k r w : only_attempt k w (attempt_settles k r w).
Proof.
  intros j Hj. unfold attempt_settles. destruct (attempts w !! k) as [a|] eqn:Hk; [|done]. cbv zeta.
  assert (Hs : forall d w1, attempts (scheduleReconnect d w1) = attempts w1) by (intros d w1; by destruct (schedule_fields d w1)).
  destruct r, (from_start a); cbn; (case_bool_decide; cbn); try case_match; rewrite ?Hs; cbn; by rewrite list_lookup_alter_ne.
Qed.
Lemma only_await k why ws w : only_attempt k w (await_stop k why ws w).
Proof.
  intros j Hj. destruct ws; [|cbn; by rewrite list_lookup_alter_ne]. unfold await_stop, after_stop.
  destruct why; by rewrite only_settles.
Qed.
Lemma only_abandon k why tr reusing w : only_attempt k w (abandon k why tr reusing w).
Proof.
  intros j Hj. unfold abandon. destruct reusing; [rewrite <-await_stop_nil; by apply only_await|].
  pose proof (gs_attempts _ _ (gsame_stopTransport tr (detachTransport tr w))) as Hs.
  destruct (stopTransport tr (detachTransport tr w)) as [w1 ws]. rewrite only_await by done. simpl in Hs. by rewrite Hs.
Qed.
Lemma only_connects now k a assignment tr reusing previous ctl r w :
  only_attempt k w (connect_settled now k a assignment tr reusing previous ctl r w).
Proof.
  intros j Hj. unfold connect_settled. cbv zeta.
  assert (Hc : forall why w1, attempts w1 = attempts w ->
            attempts (abandon k why tr reusing (closeControl now ctl w1)) !! j = attempts w !! j).
  { intros why w1 E. rewrite only_abandon by done. rewrite (gs_attempts _ _ (closeControl_same now ctl w1)). cbn. by rewrite E. }
  destruct r as [ack|m]; [|by apply Hc]. destruct (_ || _); [by apply Hc|].
  destruct (transports w !! tr) as [t|]; [|done]. destruct (setGeneration _ t) as [t' [u|m]]; [|by apply Hc].
  set (w1 := promote _ _ _ _ _). assert (E : attempts w1 = attempts w) by done. clearbody w1.
  assert (Hw : forall ws w2, attempts w2 = attempts w1 -> attempts (await_stop k Replaced ws w2) !! j = attempts w !! j)
    by (intros ws w2 E2; rewrite only_await by done; by rewrite E2, E).
  destruct previous as [p|]; [|by apply (Hw [])]. destruct (p =? tr)%nat; [by apply (Hw [])|].
  pose proof (gs_attempts _ _ (gsame_stopTransport p (detachTransport p w1))) as Hs.
  destruct (stopTransport p (detachTransport p w1)) as [w2 ws]. by apply Hw.
Qed.

Lemma resume_one now ctl r w k a assignment tr reusing previous :
  ginv (Some ctl) w -> attempts w !! k = Some a -> stage a = Connecting assignment tr reusing previous ctl ->
  resume_connect now ctl r w = connect_settled now k a assignment tr reusing previous ctl r w.
Proof.
  intros Hg Hk Hs.
  set (f := fun w k => match attempts w !! k with
           | Some a => match stage a with
               | Connecting assignment tr reusing previous c =>
                   if (c =? ctl)%nat then connect_settled now k a assignment tr reusing previous c r w else w
               | _ => w end
           | None => w end).
  assert (Hf : f w k = connect_settled now k a assignment tr reusing previous ctl r w) by (unfold f; by rewrite Hk, Hs, Nat.eqb_refl).
  assert (Hother : forall w', only_attempt k w w' -> forall j, j ≠ k -> f w' j = w').
  { intros w' Ho j Hj. unfold f. rewrite (Ho j Hj). destruct (attempts w !! j) as [b|] eqn:Hb; [|done].
    destruct (stage b) as [|as' t r' p c| |] eqn:Hsb; try done. destruct (Nat.eqb_spec c ctl) as [->|]; [|done].
    destruct Hj. eapply (g_one_control _ w Hg); [by exists b, as'|by exists a, assignment]. }
  rewrite <-Hf. change (resume_connect now ctl r w) with (foldl f w (seq 0 (length (attempts w)))).
  clearbody f. apply foldl_one.
  - apply NoDup_seq.
  - apply elem_of_seq. split; [lia|]. apply lookup_lt_Some in Hk. simpl. lia.
  - by apply Hother.
  - rewrite Hf. apply Hother. apply only_connects.
Qed.

Lemma resume_none now ctl r w :
  (forall k tr r p, ~ awaits w k ctl tr r p) -> resume_connect now ctl r w = w.
Proof.
  intros Hn. unfold resume_connect. generalize (seq 0 (length (attempts w))). intros l. induction l as [|k l IH]; [done|].
  simpl. replace (match attempts w !! k with Some a => _ | None => w end) with w; [exact IH|].
  destruct (attempts w !! k) as [a|] eqn:Hk; [|done]. destruct (stage a) as [|as' t r' p c| |] eqn:Hs; try done.
  destruct (Nat.eqb_spec c ctl) as [->|]; [|done]. destruct (Hn k t r' p). by exists a, as'.
Qed.
End Sockets.

Section ControlEvents.
Context `{GatewayEnv}.
Implicit Types w : RelayGateway.

Lemma awaited_or_not w ctl :
  (exists k tr r p, awaits w k ctl tr r p) \/ (forall k tr r p, ~ awaits w k ctl tr r p).
Proof.
  destruct (existsb (fun a => match stage a with Connecting _ _ _ _ c => (c =? ctl)%nat | _ => false end) (attempts w)) eqn:E.
  - left. apply existsb_exists in E as (a & Ha & Hs). apply list_elem_of_In, list_elem_of_lookup in Ha as [k Hk].
    destruct (stage a) as [|as' tr r p c| |] eqn:Hst; try done. apply Nat.eqb_eq in Hs as ->.
    exists k, tr, r, p, a, as'. done.
  - right. intros k tr r p (a & as' & Hk & Hs). apply list_elem_of_lookup_2, list_elem_of_In in Hk.
    assert (Ht : existsb (fun a => match stage a with Connecting _ _ _ _ c => (c =? ctl)%nat | _ => false end) (attempts w) = true).
    { apply existsb_exists. exists a. split; [done|]. by rewrite Hs, Nat.eqb_refl. }
    congruence.
Qed.

(** Callbacks of a control that is not current only open data sockets. *)
Lemma callback_same now ctl w x :
  control w ≠ Some ctl -> (forall c, controls w !! ctl = Some c -> activated c = false) -> gsame w (callback now ctl w x).
Proof.
  intros Hn Ha. unfold callback. destruct (controls w !! ctl) as [c|] eqn:Hc; [|done].
  rewrite (Ha c eq_refl), bool_decide_false by done. destruct x; try done. apply gsame_openData.
Qed.
Lemma callbacks_same now ctl l w :
  control w ≠ Some ctl -> (forall c, controls w !! ctl = Some c -> activated c = false) ->
  gsame w (foldl (callback now ctl) w l).
Proof.
  revert w. induction l as [|x l IH]; intros w Hn Ha; [done|]. simpl. pose proof (callback_same now ctl w x Hn Ha) as Hs.
  etrans; [exact Hs|]. apply IH.
  - by rewrite (gs_control _ _ Hs).
  - intros c' Hc'. destruct (same_control_lookup _ _ _ _ Hs Hc') as (c & Hc & [_ _ ->]). auto.
Qed.
Lemma callbacks_ok now ctl closed listens w0 l w :
  (forall x, x ∈ l -> is_on_close x = true -> closed = true) -> handling ctl closed listens w0 w ->
  handling ctl closed listens w0 (foldl (callback now ctl) w l).
Proof.
  revert w. induction l as [|x l IH]; intros w Hl Hh; [done|]. simpl. apply IH.
  - intros y Hy. apply Hl. by right.
  - apply callback_ok; [|done]. apply Hl. by left.
Qed.

Lemma control_event_ok now ctl e w : gok w -> gok (control_event now ctl e w).
Proof.
  intros [Hg Hr]. unfold control_event. destruct (controls w !! ctl) as [c|] eqn:Hc; [|done].
  destruct (is_socket_event e) eqn:He; [|done]. cbn [negb]. cbv zeta.
  set (f := fun client => client_step parse_json (answerChallenge (c_options c) (c_identity c)) (c_options c) client e).
  set (news := emitted (client c) (f (client c))).
  set (outs := omap connect_outcome news). set (closed := existsb is_on_close news).
  set (w1 := update_client ctl f w).
  change (gok (foldl (fun w r => resume_connect now ctl r w)
    (settle_promises now ctl (newly_settled (client c) (f (client c))) (foldl (callback now ctl) w1 news)) outs)).
  assert (Hc1 : controls w1 !! ctl = Some (c <| client := f (client c) |>))
    by (unfold w1; cbn; by rewrite list_lookup_alter_eq, Hc).
  pose proof (g_client _ w Hg ctl c Hc) as Hok.
  assert (H1 : handling ctl closed (on_close (f (client c))) w w1).
  { split; [|done|done|by left|].
    - apply ginv_update; [done|]. intros c0 Hc0. simplify_eq. split; [by apply client_step_ok|]. intros Hst. by apply closed_step.
    - intros c0. rewrite Hc1. intros [= <-]. split; [done|]. intros (x & Hx & Hcl)%existsb_exists.
      destruct x as [| | | | | | |code]; try done. eapply close_reported; [done|]. by apply list_elem_of_In. }
  assert (Hl : forall x, x ∈ news -> is_on_close x = true -> closed = true).
  { intros x Hx Hcl. apply existsb_exists. exists x. split; [by apply list_elem_of_In|done]. }
  destruct (awaited_or_not w ctl) as [(k & tr & r & p & Hk)|Hno].
  - assert (Hk1 : awaits w1 k ctl tr r p) by done.
    destruct (g_awaiting _ w Hg k ctl tr r p Hk) as (c0 & Hc0 & Hw); [done|]. simplify_eq.
    pose proof (h_inv _ _ _ _ _ H1) as Hg1.
    assert (Hs3 : gsame w1 (settle_promises now ctl (newly_settled (client c) (f (client c))) (foldl (callback now ctl) w1 news))).
    { etrans; [|apply gsame_settle]. apply callbacks_same.
      - intros Hctl. by apply (current_not_awaited _ w1 ctl k tr r p Hg1 Hctl).
      - intros c1 Hl1. destruct (awaits_control _ _ _ _ _ _ _ Hg1 Hk1) as (c2 & Hl2 & Ha). congruence. }
    set (w3 := settle_promises _ _ _ _) in *. clearbody w3.
    apply (ginv_same _ _ _ Hs3) in Hg1 as Hg3. apply (recovers_same _ _ Hs3) in Hr as Hr3.
    destruct (same_control_lookup' _ _ _ _ Hs3 Hc1) as (c3 & Hc3 & [Hsc _ _]). simpl in Hsc.
    assert (Hk3 : awaits w3 k ctl tr r p) by (by apply (awaits_same _ _ _ _ _ _ _ (gs_attempts _ _ Hs3))).
    pose proof (awaiting_outcomes parse_json (answerChallenge (c_options c) (c_identity c)) (c_options c) (client c) e He Hw) as Hle.
    pose proof (awaiting_event parse_json (answerChallenge (c_options c) (c_identity c)) (c_options c) (client c) e He Hw) as Hor.
    pose proof (fun ack => resolved_listens parse_json (answerChallenge (c_options c) (c_identity c)) (c_options c) (client c) e ack He) as Hon.
    fold f in Hle, Hor, Hon. change (omap connect_outcome (emitted _ _)) with outs in Hle, Hor, Hon.
    destruct outs as [|o [|o' os]]; [| |simpl in Hle; lia]; cbn [foldl].
    + destruct Hor as [Haw|]; [|done]. split; [|done]. apply (ginv_handled _ ctl); [done|..].
      * intros Hctl. by destruct (current_not_awaited _ w3 ctl k tr r p Hg3 Hctl).
      * intros k' tr' r' p' _. exists c3. split; [done|]. by eapply same_awaiting.
    + destruct Hk3 as (a & as' & Hk3 & Hs). rewrite (resume_one _ _ _ _ _ _ _ _ _ _ Hg3 Hk3 Hs).
      apply connect_settled_ok; try done. intros ack c1 -> Hc1'. simplify_eq. rewrite (sc_on_close _ _ Hsc).
      
      transitivity (on_close (client c)); [by apply (Hon ack), list_elem_of_singleton|by apply awaiting_listens].
  - pose proof (callbacks_ok now ctl _ _ w news w1 Hl H1) as H2.
    assert (Hdrop : control (foldl (callback now ctl) w1 news) = Some ctl -> on_close (f (client c)) = true).
    { intros Hctl. assert (Hcw : control w = Some ctl) by (destruct (h_control _ _ _ _ _ H2); congruence).
      destruct (g_control _ w Hg ctl Hcw) as (c0 & Hc0 & _ & _ & Hon). simplify_eq.
      destruct (listener_event parse_json (answerChallenge (c_options c) (c_identity c)) (c_options c) (client c) e He (Hon ltac:(done)))
        as [?|(n0 & code & Hn)]; [done|]. fold f in Hn. change (emitted _ _) with news in Hn.
      rewrite Hn, foldl_app in Hctl. cbn [foldl] in Hctl. exfalso. revert Hctl.
      eapply close_callback_drops, callbacks_ok; [|exact H1]. intros x Hx. apply Hl. rewrite Hn. by apply elem_of_app; left. }
    set (w2 := foldl _ w1 news) in *. set (w3 := settle_promises _ _ _ w2).
    assert (Hs3 : gsame w2 w3) by apply gsame_settle. clearbody w3.
    apply (handling_same _ _ _ _ _ _ Hs3) in H2 as [G1 G2 G3 G4 G5].
    assert (Hno3 : forall k tr r p, ~ awaits w3 k ctl tr r p)
      by (intros k tr r p Hk; apply (Hno k tr r p); by apply (awaits_same _ _ _ _ _ _ _ G3)).
    replace (foldl _ w3 _) with w3.
    + split; [|done]. apply (ginv_handled _ ctl); [done| |].
      * rewrite (gs_control _ _ Hs3). intros Hctl c0 Hc0. destruct (G5 c0 Hc0) as [-> _]. auto.
      * intros k tr r p Hk. by destruct (Hno3 k tr r p).
    + clear -Hno3. induction outs as [|o l IH]; [done|].
      simpl. by rewrite resume_none.
Qed.
End ControlEvents.

(** ** Runs *)

Section Runs.
Context `{GatewayEnv}.
Implicit Types w : RelayGateway.

(** [start] is called only when [start_allowed]; anything else may happen. *)
Fixpoint orderly w (es : list Event) : bool :=
  match es with
  | [] => true
  | e :: es => (match e with Start => start_allowed w | _ => true end) && orderly (step w e) es
  end.

Lemma gateway_step_ok w e : gok w -> (match e with Start => start_allowed w | _ => true end) = true -> gok (step w e).
Proof.
  intros Hg Ho. destruct e; simpl.
  - by apply start_ok.
  - by apply fetches_ok.
  - by apply control_event_ok.
  - by apply data_event_ok.
  - by apply reconnect_ok.
  - by apply stop_ok.
  - by eapply gok_same; [apply gsame_transport_op|].
  - by eapply gok_same; [apply gsame_transport_op|].
  - by eapply gok_same; [apply gsame_user_call|].
Qed.

Lemma new_gateway_ok : gok new_gateway.
Proof.
  split; [|done]. assert (Hno : forall k ctl tr r p, ~ awaits new_gateway k ctl tr r p)
    by (intros k ctl tr r p (a & as' & Hk & _); done).
  split; try done; simpl.
  - intros k k' ctl tr tr' r r' p p' Hk. by destruct (Hno _ _ _ _ _ Hk).
  - intros k k' ctl ctl' tr p p' Hk. by destruct (Hno _ _ _ _ _ Hk).
  - intros tr Htr. by apply elem_of_nil in Htr.
  - intros k ctl tr r p Hk. by destruct (Hno _ _ _ _ _ Hk).
Qed.

Lemma gateway_run_ok es w : gok w -> orderly w es = true -> gok (run_from w es).
Proof.
  revert w. induction es as [|e es IH]; intros w Hg Ho; [done|]. simpl in Ho.
  apply andb_true_iff in Ho as [H1 H2]. simpl. apply IH; [by apply gateway_step_ok|done].
Qed.

(** C5. Nothing leaks: however fetches, sockets, timers, stops, wiring and credential
    calls interleave with orderly starts, a control client that is not closed is the
    gateway's or is awaited by a call that is still connecting, and a transport
    attached to the mobile wiring is the gateway's or such a call's; the gateway's
    control runs over its transport, which is attached; a stopped gateway holds no
    control, no transport and no reconnect timer. *)
Theorem gateway_leaks_nothing es :
  orderly new_gateway es = true ->
  let w := run_from new_gateway es in
  (forall ctl c, controls w !! ctl = Some c -> state (client c) ≠ Closed ->
     control w = Some ctl \/ exists k tr r p, awaits w k ctl tr r p) /\
  (forall tr, tr ∈ wired w -> transport w = Some tr \/ exists k ctl p, awaits w k ctl tr false p) /\
  (forall ctl, control w = Some ctl -> exists c, controls w !! ctl = Some c /\
     transport w = Some (c_transport c) /\ c_transport c ∈ wired w) /\
  (gw_stopped w = true -> control w = None /\ transport w = None /\ reconnectTimer w = false).
Proof.
  intros Ho w. destruct (gateway_run_ok es new_gateway new_gateway_ok Ho) as [Hg _]. fold w in Hg. split_and!.
  - intros ctl c Hc Hn. destruct (g_closed _ w Hg ctl c Hc) as [?|[?|?]]; [done|by left|by right].
  - apply (g_wired _ w Hg).
  - intros ctl Hctl. destruct (g_control _ w Hg ctl Hctl) as (c & Hc & _ & Ht & _). exists c.
    split_and!; [done..|]. by apply (g_transport _ w Hg).
  - apply (g_stopped _ w Hg).
Qed.


End Runs.

(** ** Witnesses and the runs that are not orderly *)

Definition demo_url (s : string) : option Url :=
  let at_host h := Some {| protocol := "https"; host := h; hostname := h; pathname := "/"; search := ""; hash := "" |} in
  if String.eqb s "https://relay" then at_host "relay"
  else if String.eqb s "https://cell" then at_host "cell"
  else if String.eqb s "wss://cell" then at_host "cell" else None.
Definition demo_text (s : string) : option json :=
  if String.eqb s "ack" then Some (JObj [("type", JStr "host-hello-ack"); ("generation", JNum (NInt 1))]) else None.
#[local] Instance demo_gateway : GatewayEnv :=
  {| gateway_urls := {| parse_url := demo_url; isIP := fun _ => 0 |};
     gateway_schemas := demo_control;
     parse_json := demo_text;
     answerChallenge := fun _ _ _ => None;
     relayUrl := "https://relay"; RelayGateway.relayHostId := "h"; RelayGateway.hostPublicKeyB64 := "k";
     uuid := fun _ => "u" |}.

Abbreviation found := (Ok {| status := 200; body := Some (JObj
  [("v", JNum (NInt 1)); ("cellUrl", JStr "https://cell"); ("assignmentEpoch", JNum (NInt 1)); ("lease", JStr "l")]) |}).
Abbreviation not_found := (Ok {| status := 404; body := None |}).
Abbreviation fetched k := (FetchesSettle 0 k true found not_found).
Abbreviation control_opens ctl := (OnControl 0 ctl ControlClient.SocketOpen).
Abbreviation control_acks ctl := (OnControl 0 ctl (ControlClient.SocketMessage "ack" false)).
Abbreviation control_closes ctl := (OnControl 0 ctl (ControlClient.SocketClose 1006)).
(** A start, a lost control and its replacement. *)
Abbreviation demo_events :=
  [Start; fetched 0; control_opens 0; control_acks 0; control_closes 0; ReconnectFires; fetched 1;
   control_opens 1; control_acks 1].

Lemma gateway_leaks_nothing_witness :
  control (run_from new_gateway demo_events) = Some 1%nat /\
  exists c, controls (run_from new_gateway demo_events) !! 1%nat = Some c /\ c_transport c ∈ wired (run_from new_gateway demo_events).
Proof.
  destruct (gateway_leaks_nothing demo_events) as (_ & _ & H & _); [vm_compute; reflexivity|].
  destruct (H 1%nat) as (c & Hc & _ & Hw); [vm_compute; reflexivity|]. split; [vm_compute; reflexivity|]. exists c. by split.
Defined.


(** A start that fails after [stop] and another [start] marks the gateway stopped: the
    newer start then closes its control and succeeds without one. *)
Example overlapping_start_lost :
  let w := run_from new_gateway
    [Start; Stop 0; Start; FetchesSettle 0 0 true (Throw "net") (Throw "net"); fetched 1; control_opens 0; control_acks 0] in
  (control w, gw_stopped w, last (gw_log w)) = (None, true, Some (StartSettled 1 (Ok tt))).
Proof. vm_compute. reflexivity. Qed.

(** If the newer start had already connected, the next one leaks its control. *)
Example overlapping_start_leaks :
  let w := run_from new_gateway
    [Start; Stop 0; Start; fetched 1; control_opens 0; control_acks 0;
     FetchesSettle 0 0 true (Throw "net") (Throw "net"); Start; fetched 2; control_opens 1; control_acks 1] in
  (control w, map (fun c => state (client c)) (controls w)) = (Some 1%nat, [Active; Active]).
Proof. vm_compute. reflexivity. Qed.
