(* ===== verification/LogicalClient.v ===== *)
(** * The phone's stable client (mobile/src/transport/stable-logical-rpc-client.ts)

    The application talks to one client while the physical session under it is
    replaced: requests go to the active session, subscriptions are replayed on each
    replacement. Physical sessions, physical subscriptions, requests and waiting
    migrations are numbered; a closure's record is kept under its number for good. What
    a physical session does (its state changes, answers, emissions) and the timeouts are
    the events of a run; what the client does is a log. A promise that is settled again
    stays as it was.

    Theorems: every subscription is attached exactly once, to the active session; a
    request is pending only on the active session and settles once; no session leaks;
    nothing stale is delivered. *)

From S2P Require Import Prelude JsMap Json.

Local Open Scope string_scope.
Local Open Scope list_scope.
Local Open Scope nat_scope.

(** ** State *)

Inductive ConnectionState := Connecting | Handshaking | Connected | Disconnected | Reconnecting | AuthFailed.
#[export] Instance ConnectionState_eq_dec : EqDecision ConnectionState.
Proof. solve_decision. Defined.
Inductive MobileConnectionPath := Lan | Tailscale | Relay.
#[export] Instance MobileConnectionPath_eq_dec : EqDecision MobileConnectionPath.
Proof. solve_decision. Defined.

Record SubscriptionRecord := { method : string; params : option json; disposePhysical : option nat; cancelled : bool }.
#[export] Instance eta_SubscriptionRecord : Eta SubscriptionRecord :=
  fun x => Build_SubscriptionRecord (method x) (params x) (disposePhysical x) (cancelled x).

(** A subscription on a physical session: its callback's record and generation, and
    whether it was not disposed. *)
Record PhysicalSubscription := { on_session : nat; for_record : nat; at_generation : nat; attached : bool }.
#[export] Instance eta_PhysicalSubscription : Eta PhysicalSubscription :=
  fun x => Build_PhysicalSubscription (on_session x) (for_record x) (at_generation x) (attached x).

(** A promise of [sendRequest]: [None] while it is pending. *)
Inductive Outcome := Resolved (response : json) | Rejected (message : string).
Record PendingRequest := { sent_on : nat; requestGeneration : nat; outcome : option Outcome }.
#[export] Instance eta_PendingRequest : Eta PendingRequest :=
  fun x => Build_PendingRequest (sent_on x) (requestGeneration x) (outcome x).

Inductive Effect :=
  | SessionSubscribe (session physical : nat) (method : string) (params : option json)
  | PhysicalDispose (physical : nat)
  | SessionSend (session request : nat) (method : string) (params : option json)
  | SessionViewport (session : nat) (terminal : string) (viewport : json)
  | SessionForeground (session : nat)
  | SessionClose (session : nat)
  | Deliver (id : nat) (result : json)
  | Published (state : ConnectionState)
  | MigrationSettled (w : nat) (outcome : result unit).

Record Client := {
  activeSession : nat;
  activePath : MobileConnectionPath;
  generation : nat;
  closed : bool;
  suspended : bool;
  nextSubscriptionId : nat;
  activeStateListener : option (nat * nat);  (** session and generation [bindActiveState] was called with *)
  subscriptions : list nat;  (** the keys of the map, in order *)
  records : gmap nat SubscriptionRecord;
  pendingRequests : list nat;
  requests : gmap nat PendingRequest;
  cstate : ConnectionState;
  waiting : jsmap nat (nat * MobileConnectionPath);  (** calls of [migrateTo] that wait for their session *)
  nextWaiter : nat;
  physicals : list PhysicalSubscription;
  nextRequest : nat;
  sessionState : gmap nat ConnectionState;
  handed : gset nat;  (** sessions the client was given *)
  closedSessions : gset nat;
  effects : list Effect }.
#[export] Instance eta_Client : Eta Client := fun c =>
  Build_Client (activeSession c) (activePath c) (generation c) (closed c) (suspended c) (nextSubscriptionId c)
    (activeStateListener c) (subscriptions c) (records c) (pendingRequests c) (requests c) (cstate c) (waiting c)
    (nextWaiter c) (physicals c) (nextRequest c) (sessionState c) (handed c) (closedSessions c) (effects c).
Implicit Types (c : Client) (id s p r w : nat).

Definition emit (e : Effect) c : Client := c <| effects := effects c ++ [e] |>.
Definition getSessionState s c : ConnectionState := default Disconnected (sessionState c !! s).
Definition close_session s c : Client := emit (SessionClose s) (c <| closedSessions := {[s]} ∪ closedSessions c |>).
Definition alter_record id (f : SubscriptionRecord -> SubscriptionRecord) c : Client := c <| records := alter f id (records c) |>.

Definition bindActiveState s g c : Client := c <| activeStateListener := Some (s, g) |>.
Definition publishState (next : ConnectionState) c : Client :=
  if decide (cstate c = next) then c else emit (Published next) (c <| cstate := next |>).

Definition createStableLogicalRpcClient (s : nat) (initialState : ConnectionState) (path : MobileConnectionPath) : Client :=
  bindActiveState s 1
    {| activeSession := s; activePath := path; generation := 1; closed := false; suspended := false; nextSubscriptionId := 0;
       activeStateListener := None; subscriptions := []; records := ∅; pendingRequests := []; requests := ∅; cstate := initialState;
       waiting := ∅; nextWaiter := 0; physicals := []; nextRequest := 0; sessionState := {[s := initialState]}; handed := {[s]};
       closedSessions := ∅; effects := [] |}.

(** ** Requests *)

(** The promise of request [r] settles, if it is still pending. *)
Definition settle r (o : Outcome) c : Client :=
  c <| requests := alter (fun q => match outcome q with None => q <| outcome := Some o |> | Some _ => q end) r (requests c) |>.
Definition reject_pending (message : string) c : Client :=
  (foldl (fun c r => settle r (Rejected message) c) c (pendingRequests c)) <| pendingRequests := [] |>.

Definition sendRequest (m : string) (ps : option json) c : Client * (string + nat) :=
  if closed c then (c, inl "Client closed")
  else if suspended c then (c, inl "Client suspended")
  else
    let r := nextRequest c in
    let c := c <| nextRequest := S r |> <| pendingRequests := pendingRequests c ++ [r] |>
               <| requests := <[r := {| sent_on := activeSession c; requestGeneration := generation c; outcome := None |}]> (requests c) |> in
    (emit (SessionSend (activeSession c) r m ps) c, inr r).

Definition cutover_error : string := "RPC interrupted by connection migration".

(** The physical session settles request [r]. *)
Definition request_settles r (o : Outcome) c : Client :=
  match requests c !! r with
  | None => c
  | Some q =>
      let c := c <| pendingRequests := js_filter (fun r' => negb (r' =? r)) (pendingRequests c) |> in
      match o with
      | Rejected _ => settle r o c
      | Resolved _ =>
          if closed c then settle r (Rejected "Client closed") c
          else if negb (requestGeneration q =? generation c) then settle r (Rejected cutover_error) c
          else settle r o c
      end
  end.

(** ** Subscriptions *)

Definition dispose p c : Client :=
  emit (PhysicalDispose p) (c <| physicals := alter (fun x => x <| attached := false |>) p (physicals c) |>).
Definition dispose_opt (p : option nat) c : Client := match p with Some p => dispose p c | None => c end.
Definition physical_of id c : option nat := x ← records c !! id; disposePhysical x.

Definition attachSubscription id s g c : Client :=
  match records c !! id with
  | None => c
  | Some x =>
      let p := length (physicals c) in
      let c := c <| physicals := physicals c ++ [{| on_session := s; for_record := id; at_generation := g; attached := true |}] |> in
      alter_record id (fun x => x <| disposePhysical := Some p |>) (emit (SessionSubscribe s p (method x) (params x)) c)
  end.

(** The returned number stands for the function that unsubscribes. *)
Definition subscribe (m : string) (ps : option json) c : Client * option nat :=
  if closed c then (c, None)
  else
    let id := S (nextSubscriptionId c) in
    let c := c <| nextSubscriptionId := id |> <| subscriptions := subscriptions c ++ [id] |>
               <| records := <[id := {| method := m; params := ps; disposePhysical := None; cancelled := false |}]> (records c) |> in
    (if negb (suspended c) then attachSubscription id (activeSession c) (generation c) c else c, Some id).

Definition unsubscribe id c : Client :=
  match records c !! id with
  | None => c
  | Some x =>
      if cancelled x then c
      else
        let c := alter_record id (fun x => x <| cancelled := true |>) c in
        let c := alter_record id (fun x => x <| disposePhysical := None |>) (dispose_opt (disposePhysical x) c) in
        c <| subscriptions := js_filter (fun id' => negb (id' =? id)) (subscriptions c) |>
  end.

(** The callback of physical subscription [p]. *)
Definition emission p (result : json) c : Client :=
  match physicals c !! p with
  | None => c
  | Some x =>
      match records c !! for_record x with
      | None => c
      | Some y =>
          if negb (closed c) && negb (cancelled y) && (generation c =? at_generation x) then emit (Deliver (for_record x) result) c else c
      end
  end.

(** [{ ...params, viewport }] when the subscription names the terminal. *)
Definition with_viewport (terminal : string) (viewport : json) (x : SubscriptionRecord) : SubscriptionRecord :=
  match params x with
  | Some (JObj fields) =>
      if strict_eq (assoc "terminal" fields) (Some (JStr terminal)) then x <| params := Some (JObj (al_insert "viewport" viewport fields)) |> else x
  | _ => x
  end.
Definition updateTerminalSubscriptionViewport (terminal : string) (viewport : json) c : Client :=
  let c := foldl (fun c id => alter_record id (with_viewport terminal viewport) c) c (subscriptions c) in
  if negb (suspended c) then emit (SessionViewport (activeSession c) terminal viewport) c else c.

(** ** Closing, suspending, migrating *)

Definition notifyForeground c : Client := if negb (suspended c) then emit (SessionForeground (activeSession c)) c else c.

Definition close c : Client :=
  if closed c then c
  else
    let c := c <| closed := true |> <| activeStateListener := None |> in
    let c := reject_pending "Client closed" c in
    let c := foldl (fun c id => dispose_opt (physical_of id c) c) c (subscriptions c) in
    let c := c <| subscriptions := [] |> in
    publishState Disconnected (close_session (activeSession c) c).

Definition suspendActiveSession c : Client :=
  if closed c || suspended c then c
  else
    let c := c <| suspended := true |> <| activeStateListener := None |> in
    let c := reject_pending "Client suspended" c in
    let c := foldl (fun c id => alter_record id (fun x => x <| disposePhysical := None |>) (dispose_opt (physical_of id c) c)) c (subscriptions c) in
    publishState Disconnected (close_session (activeSession c) c).

(** One subscription of the replay: attached to the replacement, then detached. *)
Definition replay (next g : nat) c id : Client :=
  let disposePrevious := physical_of id c in
  dispose_opt disposePrevious (attachSubscription id next g c).

(** [migrateTo] once its session has authenticated. *)
Definition cutover w (next : nat) (path : MobileConnectionPath) c : Client :=
  if closed c then emit (MigrationSettled w (Throw "Client closed")) (close_session next c)
  else
    let previous := activeSession c in
    let nextGeneration := S (generation c) in
    let c := foldl (replay next nextGeneration) c (subscriptions c) in
    let c := c <| generation := nextGeneration |> <| activeSession := next |> <| activePath := path |> <| suspended := false |> in
    let c := bindActiveState next nextGeneration c in
    let c := reject_pending cutover_error c in
    let c := c <| cstate := getSessionState next c |> in
    let c := emit (Published (cstate c)) c in
    emit (MigrationSettled w (Ok tt)) (close_session previous c).

(** Its session fails, or the wait times out. *)
Definition migration_fails w (next : nat) (message : string) c : Client :=
  emit (MigrationSettled w (Throw message)) (close_session next c).

Definition migrateTo (next : nat) (path : MobileConnectionPath) c : Client * nat :=
  let w := nextWaiter c in
  let c := c <| nextWaiter := S w |> <| handed := {[next]} ∪ handed c |> in
  if closed c then (migration_fails w next "Client closed" c, w)
  else if decide (getSessionState next c = Connected) then (cutover w next path c, w)
  else (c <| waiting := <[w := (next, path)]> (waiting c) |>, w).

Definition state_text (st : ConnectionState) : string :=
  match st with
  | Connecting => "connecting" | Handshaking => "handshaking" | Connected => "connected" | Disconnected => "disconnected"
  | Reconnecting => "reconnecting" | AuthFailed => "auth-failed"
  end.

(** A wait sees its session in state [st]. *)
Definition wait_sees (st : ConnectionState) w c : Client :=
  match waiting c !! w with
  | None => c
  | Some (next, path) =>
      match st with
      | Connected => cutover w next path (c <| waiting := delete w (waiting c) |>)
      | AuthFailed | Disconnected =>
          migration_fails w next ("replacement session " +:+ state_text st) (c <| waiting := delete w (waiting c) |>)
      | _ => c
      end
  end.
Definition wait_times_out w c : Client :=
  match waiting c !! w with
  | None => c
  | Some (next, _) => migration_fails w next "replacement session authentication timed out" (c <| waiting := delete w (waiting c) |>)
  end.

(** Session [s] enters state [st]: its listeners run, the client's own first, then the
    continuations of the waits they settled. *)
Definition session_enters s (st : ConnectionState) c : Client :=
  let c := c <| sessionState := <[s := st]> (sessionState c) |> in
  let c := match activeStateListener c with
           | Some (s', g) =>
               if (s' =? s) && negb (closed c) && (generation c =? g) && (s' =? activeSession c) then publishState st c else c
           | None => c
           end in
  foldl (fun c '(w, (next, _)) => if next =? s then wait_sees st w c else c) c (jm_entries (waiting c)).

(** ** Runs *)

Inductive Event :=
  | SendRequest (m : string) (ps : option json)
  | Subscribe (m : string) (ps : option json)
  | Unsubscribe id
  | UpdateViewport (terminal : string) (viewport : json)
  | NotifyForeground
  | Close
  | Suspend
  | MigrateTo (next : nat) (path : MobileConnectionPath)
  | RequestSettles r (o : Outcome)
  | Emission p (result : json)
  | SessionEnters s (st : ConnectionState)
  | WaitTimesOut w.

(** A replacement is a session the client was not given before. *)
Definition enabled (e : Event) c : Prop :=
  match e with MigrateTo next _ => ~ (next ∈ handed c) | _ => True end.

Definition client_step c (e : Event) : Client :=
  match e with
  | SendRequest m ps => (sendRequest m ps c).1
  | Subscribe m ps => (subscribe m ps c).1
  | Unsubscribe id => unsubscribe id c
  | UpdateViewport terminal viewport => updateTerminalSubscriptionViewport terminal viewport c
  | NotifyForeground => notifyForeground c
  | Close => close c
  | Suspend => suspendActiveSession c
  | MigrateTo next path => (migrateTo next path c).1
  | RequestSettles r o => request_settles r o c
  | Emission p result => emission p result c
  | SessionEnters s st => session_enters s st c
  | WaitTimesOut w => wait_times_out w c
  end.
Fixpoint possible c (es : list Event) : Prop :=
  match es with [] => True | e :: es => enabled e c /\ possible (client_step c e) es end.
