(* ===== verification/LogicalClientFacts.v ===== *)
(** * The phone's stable client: its theorems (about LogicalClient.v)

    Three invariants, each of every operation: subscriptions are attached exactly to the
    active session, pending requests are on it, and no other session is left open. *)

From S2P Require Import Prelude JsMap Json LogicalClient.

Local Open Scope string_scope.
Local Open Scope list_scope.
Local Open Scope nat_scope.

Implicit Types (c : Client) (id s p r w g : nat).

(** ** Subscriptions *)

Definition attached_to c id s g : Prop :=
  exists x p, records c !! id = Some x /\ disposePhysical x = Some p /\
    physicals c !! p = Some {| on_session := s; for_record := id; at_generation := g; attached := true |}.

(** Nobody but the record of a subscription holds an attached physical one. *)
Record owned c : Prop := {
  ow_held : forall p x, physicals c !! p = Some x -> attached x = true ->
    for_record x ∈ subscriptions c /\ exists y, records c !! for_record x = Some y /\ disposePhysical y = Some p;
  ow_known : forall id y p, records c !! id = Some y -> disposePhysical y = Some p ->
    exists x, physicals c !! p = Some x /\ for_record x = id }.

Definition quiet id c : Prop := forall p x, physicals c !! p = Some x -> attached x = true -> for_record x <> id.

Record subs_ok c : Prop := {
  so_fresh : forall id, is_Some (records c !! id) -> id <= nextSubscriptionId c;
  so_nodup : NoDup (subscriptions c);
  so_live : forall id, id ∈ subscriptions c -> exists x, records c !! id = Some x /\ cancelled x = false;
  so_owned : owned c;
  so_attached : closed c = false -> suspended c = false -> forall id, id ∈ subscriptions c -> attached_to c id (activeSession c) (generation c);
  so_down : closed c || suspended c = true -> forall id, quiet id c }.

(** Operations on the other fields. *)
Record same_subs c c' : Prop := {
  ss_subs : subscriptions c' = subscriptions c; ss_records : records c' = records c; ss_physicals : physicals c' = physicals c;
  ss_ids : nextSubscriptionId c' = nextSubscriptionId c; ss_closed : closed c' = closed c; ss_suspended : suspended c' = suspended c;
  ss_active : activeSession c' = activeSession c; ss_generation : generation c' = generation c }.

Lemma subs_frame c c' : same_subs c c' -> subs_ok c -> subs_ok c'.
Proof.
  intros [E1 E2 E3 E4 E5 E6 E7 E8] [S1 S2 S3 [S4 S5] S6 S7].
  split; unfold attached_to, quiet in *; rewrite ?E1, ?E2, ?E3, ?E4, ?E5, ?E6, ?E7, ?E8; try done.
  split; rewrite ?E1, ?E2, ?E3; done.
Qed.

Lemma dispose_lookup p c p' x :
  physicals (dispose p c) !! p' = Some x ->
  (p' <> p /\ physicals c !! p' = Some x) \/ (p' = p /\ attached x = false /\ exists x0, physicals c !! p = Some x0 /\ for_record x0 = for_record x).
Proof.
  simpl. destruct (decide (p = p')) as [->|Hne].
  - rewrite list_lookup_alter, decide_True by done. intros (x0 & E & ->)%fmap_Some. right. split; [done|]. split; [done|]. by exists x0.
  - rewrite list_lookup_alter_ne by done. intros E. by left.
Qed.

Lemma dispose_owned q c : owned c -> owned (dispose_opt q c).
Proof.
  destruct q as [q|]; [|done]. intros [O1 O2]. split.
  - intros p x [[_ E]|(-> & E & _)]%dispose_lookup Hx; [by apply O1|congruence].
  - intros id y p Hy Hp. destruct (O2 _ _ _ Hy Hp) as (x & E & Hf). simpl. destruct (decide (q = p)) as [->|Hne].
    + rewrite list_lookup_alter, decide_True by done. rewrite E. by eexists.
    + rewrite list_lookup_alter_ne by done. by exists x.
Qed.

Lemma dispose_quiet q id c : quiet id c -> quiet id (dispose_opt q c).
Proof.
  destruct q as [q|]; [|done]. intros Hq p x [[_ E]|(-> & E & _)]%dispose_lookup Hx; [by eapply Hq|congruence].
Qed.

Lemma disposed_quiet id c : owned c -> quiet id (dispose_opt (physical_of id c) c).
Proof.
  intros [O1 O2] p x E Hx Hid.
  assert (E' : physicals c !! p = Some x) by (destruct (physical_of id c); [apply dispose_lookup in E as [[_ ?]|(_ & ? & _)]; congruence|done]).
  destruct (O1 _ _ E' Hx) as (_ & y & Hy & Hp). subst id. unfold physical_of in E. rewrite Hy in E. simpl in E. rewrite Hp in E.
  apply dispose_lookup in E as [[? _]|(_ & ? & _)]; congruence.
Qed.

Lemma forget_owned id c :
  owned c -> quiet id c -> owned (alter_record id (fun x => x <| disposePhysical := None |>) c).
Proof.
  intros [O1 O2] Hq. split; simpl.
  - intros p x E Hx. destruct (O1 _ _ E Hx) as (Hs & y & Hy & Hp). split; [done|]. exists y. split; [|done].
    rewrite lookup_alter_ne; [done|]. intros Heq. by apply (Hq _ _ E Hx).
  - intros id' y p Hy Hp. destruct (decide (id = id')) as [<-|Hne].
    + rewrite lookup_alter, decide_True in Hy by done. apply fmap_Some in Hy as (y0 & _ & ->). done.
    + rewrite lookup_alter_ne in Hy by done. by eapply O2.
Qed.

Lemma unowned_quiet c : owned c -> (forall id, id ∈ subscriptions c -> quiet id c) -> forall id, quiet id c.
Proof. intros [O1 O2] Hq id p x E Hx Hid. destruct (O1 _ _ E Hx) as [Hs _]. by apply (Hq _ Hs _ _ E Hx). Qed.

(** Disposing every subscription silences them all. *)
Lemma dispose_all_quiet (l : list nat) c :
  owned c ->
  let c' := foldl (fun c id => dispose_opt (physical_of id c) c) c l in
  owned c' /\ (forall id, id ∈ l -> quiet id c') /\ (forall id, quiet id c -> quiet id c').
Proof.
  revert c. induction l as [|id l IH]; intros c Ho; simpl; [split_and!; [done|by intros ? ?%elem_of_nil|done]|].
  destruct (IH _ (dispose_owned (physical_of id c) c Ho)) as (H1 & H2 & H3). split_and!; [done| |].
  - intros id' [->|Hin]%elem_of_cons; [by apply H3, disposed_quiet|by apply H2].
  - intros id' Hq. by apply H3, dispose_quiet.
Qed.

Lemma forget_all_quiet (l : list nat) c :
  owned c ->
  let c' := foldl (fun c id => alter_record id (fun x => x <| disposePhysical := None |>) (dispose_opt (physical_of id c) c)) c l in
  owned c' /\ (forall id, id ∈ l -> quiet id c') /\ (forall id, quiet id c -> quiet id c').
Proof.
  revert c. induction l as [|id l IH]; intros c Ho; simpl; [split_and!; [done|by intros ? ?%elem_of_nil|done]|].
  pose proof (dispose_owned (physical_of id c) c Ho) as Ho1. pose proof (disposed_quiet id c Ho) as Hq1.
  destruct (IH _ (forget_owned id _ Ho1 Hq1)) as (H1 & H2 & H3). split_and!; [done| |].
  - intros id' [->|Hin]%elem_of_cons; [by apply H3|by apply H2].
  - intros id' Hq. apply H3. by apply (dispose_quiet (physical_of id c)).
Qed.

(** *** Attaching *)

Lemma attach_spec id s g c x :
  records c !! id = Some x ->
  let c' := attachSubscription id s g c in
  let n := length (physicals c) in
  physicals c' = physicals c ++ [{| on_session := s; for_record := id; at_generation := g; attached := true |}] /\
  records c' = <[id := x <| disposePhysical := Some n |>]> (records c) /\ subscriptions c' = subscriptions c.
Proof.
  intros Hx. cbv zeta. unfold attachSubscription. rewrite Hx. cbv zeta. split_and!; [done| |done].
  simpl. apply map_eq. intros i. destruct (decide (id = i)) as [<-|Hne].
  - by rewrite lookup_alter, lookup_insert, !decide_True, Hx.
  - by rewrite lookup_alter_ne, lookup_insert_ne.
Qed.

Lemma known_lt c id y p : owned c -> records c !! id = Some y -> disposePhysical y = Some p -> p < length (physicals c).
Proof. intros [_ O2] Hy Hp. destruct (O2 _ _ _ Hy Hp) as (x & E & _). by apply lookup_lt_Some in E. Qed.

Lemma attached_frame c c' id s g :
  records c' !! id = records c !! id ->
  (forall p x, physicals c !! p = Some x -> for_record x = id -> physicals c' !! p = Some x) ->
  attached_to c id s g -> attached_to c' id s g.
Proof. intros E Hp (x & p & Hx & Hd & Hph). exists x, p. rewrite E. split_and!; [done|done|]. by apply (Hp _ _ Hph). Qed.

(** One subscription is replayed: it is attached to the replacement and nowhere else. *)
Lemma replay_spec next g c id x :
  owned c -> id ∈ subscriptions c -> records c !! id = Some x ->
  let c' := replay next g c id in
  owned c' /\ attached_to c' id next g /\
  (forall id' s' g', id' <> id -> attached_to c id' s' g' -> attached_to c' id' s' g') /\
  (forall i, (exists y, records c !! i = Some y /\ cancelled y = false) -> exists y, records c' !! i = Some y /\ cancelled y = false) /\
  (forall i, is_Some (records c' !! i) <-> is_Some (records c !! i)).
Proof.
  intros Ho Hin Hx. cbv zeta. unfold replay. cbv zeta. destruct (attach_spec id next g c x Hx) as (E1 & E2 & E3).
  set (c1 := attachSubscription id next g c) in *. set (n := length (physicals c)) in *.
  set (new := {| on_session := next; for_record := id; at_generation := g; attached := true |}) in *.
  set (prev := physical_of id c). assert (Hprev : prev = disposePhysical x) by (unfold prev, physical_of; by rewrite Hx).
  assert (Hold : forall p y, physicals c !! p = Some y -> for_record y <> id -> physicals (dispose_opt prev c1) !! p = Some y).
  { intros p y Hp Hf. rewrite Hprev. destruct (disposePhysical x) as [q|] eqn:Hq; [|simpl; rewrite E1; by apply lookup_app_l_Some].
    simpl. rewrite E1, list_lookup_alter_ne; [by apply lookup_app_l_Some|]. intros ->.
    destruct (ow_known _ Ho _ _ _ Hx Hq) as (x0 & E & Hr). congruence. }
  assert (Hnew : physicals (dispose_opt prev c1) !! n = Some new).
  { rewrite Hprev. destruct (disposePhysical x) as [q|] eqn:Hq; [|simpl; rewrite E1; by apply list_lookup_middle].
    simpl. rewrite E1, list_lookup_alter_ne; [by apply list_lookup_middle|]. pose proof (known_lt _ _ _ _ Ho Hx Hq). unfold n. lia. }
  assert (Hrec : records (dispose_opt prev c1) = records c1 /\ subscriptions (dispose_opt prev c1) = subscriptions c1) by (by destruct prev).
  destruct Hrec as [Hr1 Hr2].
  assert (Hback : forall p y, physicals (dispose_opt prev c1) !! p = Some y -> attached y = true ->
    (p = n /\ y = new) \/ (physicals c !! p = Some y /\ prev <> Some p)).
  { intros p y Hp Hy. assert (physicals c1 !! p = Some y /\ prev <> Some p) as [Hp1 Hne].
    { destruct prev as [q|]; [|done]. apply dispose_lookup in Hp as [[Hpq Hp]|(_ & Hf & _)]; [split; congruence|congruence]. }
    rewrite E1 in Hp1. apply lookup_app_Some in Hp1 as [Hp1|[Hlen Hp1]]; [by right|]. left.
    apply list_lookup_singleton_Some in Hp1 as [Hp1 <-]. unfold n. split; [lia|done]. }
  split_and!.
  - split.
    + intros p y Hp Hy. rewrite Hr1, Hr2, E2, E3. destruct (Hback _ _ Hp Hy) as [[-> ->]|[Hp1 Hne]].
      * split; [done|]. eexists. simpl. by rewrite lookup_insert, decide_True.
      * destruct (ow_held _ Ho _ _ Hp1 Hy) as (Hs & z & Hz & Hd). split; [done|]. exists z. split; [|done].
        rewrite lookup_insert_ne; [done|]. intros Heq. rewrite <-Heq, Hx in Hz. injection Hz as <-. congruence.
    + intros id' y p Hy Hp. rewrite Hr1, E2 in Hy. destruct (decide (id = id')) as [<-|Hne].
      * rewrite lookup_insert, decide_True in Hy by done. injection Hy as <-. injection Hp as <-. by exists new.
      * rewrite lookup_insert_ne in Hy by done. destruct (ow_known _ Ho _ _ _ Hy Hp) as (z & Hz & Hf). exists z. split; [|done].
        apply Hold; [done|congruence].
  - eexists _, n. rewrite Hr1, E2, lookup_insert, decide_True by done. by split_and!.
  - intros id' s' g' Hne. apply attached_frame; [rewrite Hr1, E2; by rewrite lookup_insert_ne|]. intros p y Hp Hf. apply Hold; [done|congruence].
  - intros i (y & Hy & Hc). rewrite Hr1, E2. destruct (decide (id = i)) as [<-|Hne]; [|exists y; by rewrite lookup_insert_ne].
    eexists. rewrite lookup_insert, decide_True by done. split; [done|]. simpl. congruence.
  - intros i. rewrite Hr1, E2. destruct (decide (id = i)) as [<-|Hne]; [|by rewrite lookup_insert_ne].
    rewrite lookup_insert, decide_True, Hx by done. done.
Qed.

(** The other fields of a replay. *)
Record same_client c c' : Prop := {
  sm_active : activeSession c' = activeSession c; sm_path : activePath c' = activePath c; sm_generation : generation c' = generation c;
  sm_closed : closed c' = closed c; sm_suspended : suspended c' = suspended c; sm_ids : nextSubscriptionId c' = nextSubscriptionId c;
  sm_subs : subscriptions c' = subscriptions c; sm_pending : pendingRequests c' = pendingRequests c; sm_requests : requests c' = requests c;
  sm_next : nextRequest c' = nextRequest c; sm_waiting : waiting c' = waiting c; sm_waiter : nextWaiter c' = nextWaiter c;
  sm_handed : handed c' = handed c; sm_closedSessions : closedSessions c' = closedSessions c; sm_listener : activeStateListener c' = activeStateListener c;
  sm_state : cstate c' = cstate c; sm_sessions : sessionState c' = sessionState c }.

Lemma same_refl c : same_client c c.
Proof. by split. Qed.
Lemma same_trans c1 c2 c3 : same_client c1 c2 -> same_client c2 c3 -> same_client c1 c3.
Proof. intros [] []. split; congruence. Qed.

Lemma dispose_same q c : same_client c (dispose_opt q c).
Proof. by destruct q. Qed.
Lemma attach_same id s g c : same_client c (attachSubscription id s g c).
Proof. unfold attachSubscription. destruct (records c !! id); by split. Qed.
Lemma replay_same next g c id : same_client c (replay next g c id).
Proof. unfold replay. cbv zeta. eapply same_trans; [apply attach_same|apply dispose_same]. Qed.

Lemma fold_same (f : Client -> nat -> Client) l c : (forall c id, same_client c (f c id)) -> same_client c (foldl f c l).
Proof. intros Hf. revert c. induction l as [|id l IH]; intros c; [apply same_refl|]. eapply same_trans; [apply Hf|apply IH]. Qed.

(** The whole replay. *)
Lemma replay_all next g l c :
  owned c -> NoDup l -> (forall id, id ∈ l -> id ∈ subscriptions c /\ exists x, records c !! id = Some x /\ cancelled x = false) ->
  let c' := foldl (replay next g) c l in
  owned c' /\ (forall id, id ∈ l -> attached_to c' id next g) /\
  (forall id s' g', ~ (id ∈ l) -> attached_to c id s' g' -> attached_to c' id s' g') /\
  (forall i, (exists y, records c !! i = Some y /\ cancelled y = false) -> exists y, records c' !! i = Some y /\ cancelled y = false) /\
  (forall i, is_Some (records c' !! i) <-> is_Some (records c !! i)).
Proof.
  revert c. induction l as [|id l IH]; intros c Ho Hn Hl; cbn [foldl].
  { split_and!; [done|by intros ? ?%elem_of_nil|done|done|done]. }
  apply NoDup_cons in Hn as [Hid Hn]. destruct (Hl id) as (Hin & x & Hx & Hc); [left|].
  destruct (replay_spec next g c id x Ho Hin Hx) as (R1 & R2 & R3 & R4 & R5).
  destruct (IH (replay next g c id) R1 Hn) as (I1 & I2 & I3 & I4 & I5).
  { intros i Hi. destruct (Hl i) as [Hs Hr]; [by right|]. split; [by rewrite (sm_subs _ _ (replay_same next g c id))|by apply R4]. }
  split_and!; [done| | | |].
  - intros i [->|Hi]%elem_of_cons; [by apply I3|by apply I2].
  - intros i s' g' [Hne Hi]%not_elem_of_cons Ha. apply I3; [done|]. by apply R3.
  - intros i Hi. by apply I4, R4.
  - intros i. by rewrite I5, R5.
Qed.

Lemma same_subs_trans c1 c2 c3 : same_subs c1 c2 -> same_subs c2 c3 -> same_subs c1 c3.
Proof. intros [] []. split; congruence. Qed.

Lemma reject_subs m c : same_subs c (reject_pending m c).
Proof.
  unfold reject_pending. set (l := pendingRequests c). clearbody l. assert (H : same_subs c (foldl (fun c r => settle r (Rejected m) c) c l)).
  { revert c. induction l as [|r l IH]; intros c; simpl; [by split|]. eapply same_subs_trans; [|apply IH]. by split. }
  by destruct H; split.
Qed.

Lemma publish_subs st c : same_subs c (publishState st c).
Proof. unfold publishState. destruct (decide _); by split. Qed.

Lemma attach_subs_ok id c :
  subs_ok c -> closed c = false -> suspended c = false -> id = S (nextSubscriptionId c) ->
  forall x, cancelled x = false -> disposePhysical x = None ->
  subs_ok (attachSubscription id (activeSession c) (generation c)
    (c <| nextSubscriptionId := id |> <| subscriptions := subscriptions c ++ [id] |> <| records := <[id := x]> (records c) |>)).
Proof.
  intros [S1 S2 S3 S4 S5 S6] Hcl Hsu Hid x Hx Hd.
  set (c0 := c <| nextSubscriptionId := id |> <| subscriptions := subscriptions c ++ [id] |> <| records := <[id := x]> (records c) |>).
  assert (Hnew : forall i, i ∈ subscriptions c -> i <> id) by (intros i Hi ->; destruct (S3 _ Hi) as (y & Hy & _); assert (id <= nextSubscriptionId c) by (apply S1; by eexists); lia).
  assert (Hnone : records c !! id = None).
  { destruct (records c !! id) eqn:E; [|done]. assert (id <= nextSubscriptionId c) by (apply S1; by eexists). lia. }
  assert (Hx0 : records c0 !! id = Some x) by (simpl; by rewrite lookup_insert, decide_True).
  assert (Ho : owned c0).
  { split; simpl.
    - intros p y Hp Hy. destruct (ow_held _ S4 _ _ Hp Hy) as (Hs & z & Hz & Hdz). split; [apply elem_of_app; by left|].
      exists z. split; [|done]. rewrite lookup_insert_ne; [done|]. by intros Heq; apply (Hnew _ Hs).
    - intros i y p Hy Hp. destruct (decide (id = i)) as [<-|Hne]; [rewrite lookup_insert, decide_True in Hy by done; congruence|].
      rewrite lookup_insert_ne in Hy by done. by eapply ow_known. }
  assert (Hrep : attachSubscription id (activeSession c) (generation c) c0 = replay (activeSession c) (generation c) c0 id).
  { unfold replay, physical_of. rewrite Hx0. simpl. by rewrite Hd. }
  rewrite Hrep. destruct (replay_spec (activeSession c) (generation c) c0 id x Ho) as (R1 & R2 & R3 & R4 & R5); [apply elem_of_app; right; left|done|].
  pose proof (replay_same (activeSession c) (generation c) c0 id) as [M1 M2 M3 M4 M5 M6 M7 _ _ _ _ _ _ _ _ _ _].
  split; rewrite ?M1, ?M3, ?M4, ?M5, ?M6, ?M7.
  - intros i Hi%R5. simpl in Hi |- *. destruct (decide (id = i)) as [<-|Hne]; [done|]. rewrite lookup_insert_ne in Hi by done. specialize (S1 _ Hi). lia.
  - simpl. apply NoDup_app. split; [done|]. split; [|apply NoDup_singleton]. intros i Hi ->%list_elem_of_singleton. by apply (Hnew _ Hi).
  - intros i Hi. apply R4. simpl in Hi |- *. apply elem_of_app in Hi as [Hi| ->%list_elem_of_singleton].
    + destruct (S3 _ Hi) as (y & Hy & Hc). exists y. rewrite lookup_insert_ne; [done|]. intros Heq. by apply (Hnew _ Hi).
    + exists x. by rewrite lookup_insert, decide_True.
  - done.
  - intros _ _ i Hi. simpl in Hi |- *. apply elem_of_app in Hi as [Hi| ->%list_elem_of_singleton]; [|done]. apply R3; [by apply Hnew|].
    destruct (S5 Hcl Hsu _ Hi) as (y & p & Hy & Hp & Hph). exists y, p. split_and!; [|done|done]. simpl. rewrite lookup_insert_ne; [done|].
    intros Heq. by apply (Hnew _ Hi).
  - simpl. rewrite Hcl, Hsu. done.
Qed.

Lemma subscribe_subs_ok m ps c : subs_ok c -> subs_ok (subscribe m ps c).1.
Proof.
  intros Hs. unfold subscribe. destruct (closed c) eqn:Hcl; [done|]. cbv zeta. cbn [fst].
  match goal with |- context [negb (suspended ?c')] => change (suspended c') with (suspended c) end.
  destruct (suspended c) eqn:Hsu; cbn [negb]; [|by refine (attach_subs_ok _ c Hs Hcl Hsu eq_refl {| method := m; params := ps; disposePhysical := None; cancelled := false |} _ _)].
  destruct Hs as [S1 S2 S3 S4 S5 S6]. set (id := S (nextSubscriptionId c)).
  assert (Hnew : forall i, is_Some (records c !! i) -> i <> id) by (intros i Hi ->; specialize (S1 _ Hi); unfold id in S1; lia).
  assert (Hin : forall i, i ∈ subscriptions c -> i <> id) by (intros i Hi; apply Hnew; destruct (S3 _ Hi) as (y & Hy & _); by eexists).
  split; simpl.
  - intros i Hi. destruct (decide (id = i)) as [<-|Hne]; [done|]. rewrite lookup_insert_ne in Hi by done. specialize (S1 _ Hi). lia.
  - apply NoDup_app. split; [done|]. split; [|apply NoDup_singleton]. intros i Hi ->%list_elem_of_singleton. by apply (Hin _ Hi).
  - intros i Hi. apply elem_of_app in Hi as [Hi| ->%list_elem_of_singleton].
    + destruct (S3 _ Hi) as (y & Hy & Hc). exists y. rewrite lookup_insert_ne; [done|]. intros Heq. by apply (Hin _ Hi).
    + eexists. by rewrite lookup_insert, decide_True.
  - split; simpl.
    + intros p y Hp Hy. destruct (ow_held _ S4 _ _ Hp Hy) as (Hs & z & Hz & Hd). split; [apply elem_of_app; by left|].
      exists z. split; [|done]. rewrite lookup_insert_ne; [done|]. intros Heq. by apply (Hin _ Hs).
    + intros i y p Hy Hp. destruct (decide (id = i)) as [<-|Hne]; [rewrite lookup_insert, decide_True in Hy by done; by injection Hy as <-|].
      rewrite lookup_insert_ne in Hy by done. by eapply ow_known.
  - congruence.
  - rewrite Hcl, Hsu. intros _. exact (S6 ltac:(by rewrite Hcl, Hsu)).
Qed.

(** A change of a record that keeps what it is attached to. *)
Lemma relabel_subs_ok f id c :
  (forall x, disposePhysical (f x) = disposePhysical x /\ cancelled (f x) = cancelled x) -> subs_ok c -> subs_ok (alter_record id f c).
Proof.
  intros Hf [S1 S2 S3 [O1 O2] S5 S6].
  assert (Hget : forall i y, records c !! i = Some y -> exists y', records (alter_record id f c) !! i = Some y' /\
    disposePhysical y' = disposePhysical y /\ cancelled y' = cancelled y).
  { intros i y Hy. simpl. destruct (decide (id = i)) as [<-|Hne]; [|exists y; by rewrite lookup_alter_ne].
    exists (f y). rewrite lookup_alter, decide_True, Hy by done. destruct (Hf y). by split_and!. }
  assert (Hback : forall i y', records (alter_record id f c) !! i = Some y' -> exists y, records c !! i = Some y /\
    disposePhysical y' = disposePhysical y /\ cancelled y' = cancelled y).
  { intros i y' Hy. simpl in Hy. destruct (decide (id = i)) as [<-|Hne]; [|rewrite lookup_alter_ne in Hy by done; by exists y'].
    rewrite lookup_alter, decide_True in Hy by done. apply fmap_Some in Hy as (y & Hy & ->). exists y. destruct (Hf y). by split_and!. }
  split; [|done|..|done].
  - intros i [y' Hy']. destruct (Hback _ _ Hy') as (y & Hy & _). apply S1. by eexists.
  - intros i Hi. destruct (S3 _ Hi) as (y & Hy & Hc). destruct (Hget _ _ Hy) as (y' & Hy' & _ & Hc'). exists y'. split; [done|congruence].
  - split.
    + intros p x Hp Hx. destruct (O1 _ _ Hp Hx) as (Hs & y & Hy & Hd). split; [done|]. destruct (Hget _ _ Hy) as (y' & Hy' & Hd' & _).
      exists y'. split; [done|congruence].
    + intros i y' p Hy' Hp. destruct (Hback _ _ Hy') as (y & Hy & Hd & _). apply (O2 i y p); [done|congruence].
  - intros Hcl Hsu i Hi. destruct (S5 Hcl Hsu _ Hi) as (y & p & Hy & Hp & Hph). destruct (Hget _ _ Hy) as (y' & Hy' & Hd' & _).
    exists y', p. split_and!; [done|congruence|done].
Qed.

Lemma fold_pres {A} (P : Client -> Prop) (f : Client -> A -> Client) l c : (forall c x, P c -> P (f c x)) -> P c -> P (foldl f c l).
Proof. intros Hf. revert c. induction l as [|x l IH]; intros c Hs; [done|]. by apply IH, Hf. Qed.

Lemma unsubscribe_subs_ok id c : subs_ok c -> subs_ok (unsubscribe id c).
Proof.
  intros [S1 S2 S3 S4 S5 S6]. unfold unsubscribe. destruct (records c !! id) as [x|] eqn:Hx; [|by split].
  destruct (cancelled x) eqn:Hc; [by split|]. cbv zeta.
  set (c1 := alter_record id (fun x => x <| cancelled := true |>) c).
  assert (Hrec : forall i, i <> id -> records c1 !! i = records c !! i) by (intros i Hne; simpl; by rewrite lookup_alter_ne).
  assert (Hx1 : records c1 !! id = Some (x <| cancelled := true |>)) by (simpl; by rewrite lookup_alter, decide_True, Hx).
  assert (Ho1 : owned c1).
  { split; simpl.
    - intros p y Hp Hy. destruct (ow_held _ S4 _ _ Hp Hy) as (Hs & z & Hz & Hd). split; [done|].
      destruct (decide (for_record y = id)) as [E|Hne]; [|exists z; by rewrite lookup_alter_ne].
      rewrite E in Hz |- *. rewrite lookup_alter, decide_True, Hz by done. simpl. by eexists.
    - intros i y p Hy Hp. destruct (decide (id = i)) as [<-|Hne]; [|rewrite lookup_alter_ne in Hy by done; by eapply ow_known].
      rewrite lookup_alter, decide_True, Hx in Hy by done. injection Hy as <-. by apply (ow_known _ S4 id x). }
  assert (Hphys : disposePhysical x = physical_of id c1) by (unfold physical_of; by rewrite Hx1).
  rewrite Hphys. set (q := physical_of id c1).
  pose proof (dispose_owned q c1 Ho1) as Ho2. pose proof (disposed_quiet id c1 Ho1) as Hq. fold q in Hq.
  pose proof (forget_owned id _ Ho2 Hq) as Ho3. set (c3 := alter_record id (fun x => x <| disposePhysical := None |>) (dispose_opt q c1)) in *.
  assert (Hrec3 : forall i, i <> id -> records c3 !! i = records c !! i).
  { intros i Hne. simpl. rewrite lookup_alter_ne by done. destruct q; simpl; by rewrite lookup_alter_ne. }
  assert (Hsub3 : subscriptions c3 = subscriptions c) by (unfold c3; by destruct q).
  assert (Hfil : forall i, i ∈ js_filter (fun id' => negb (id' =? id)) (subscriptions c) <-> i ∈ subscriptions c /\ i <> id).
  { intros i. rewrite elem_of_js_filter, negb_true_iff, Nat.eqb_neq. done. }
  assert (Hat3 : forall i s g, i <> id -> attached_to c i s g -> attached_to c3 i s g).
  { intros i s g Hne. apply attached_frame; [by apply Hrec3|]. intros p y Hp Hf. unfold c3. destruct q as [qp|] eqn:Eq; [|done]. simpl.
    rewrite list_lookup_alter_ne; [done|]. intros ->. assert (Hd : disposePhysical (x <| cancelled := true |>) = Some p) by exact (eq_trans Hphys Eq).
    destruct (ow_known _ Ho1 _ _ _ Hx1 Hd) as (z & Hz & Hfz). simpl in Hz. congruence. }
  assert (Hfields : closed c3 = closed c /\ suspended c3 = suspended c /\ activeSession c3 = activeSession c /\ generation c3 = generation c /\
    nextSubscriptionId c3 = nextSubscriptionId c) by (unfold c3; by destruct q).
  destruct Hfields as (F1 & F2 & F3 & F4 & F5). assert (Hq3 : quiet id c3) by exact Hq.
  assert (Hph3 : forall p y, physicals c3 !! p = Some y -> attached y = true -> physicals c !! p = Some y).
  { intros p y Hp Hy. unfold c3 in Hp. destruct q as [qp|]; [|done]. apply (dispose_lookup qp c1) in Hp as [[_ ?]|(_ & ? & _)]; [done|congruence]. }
  clearbody c3. split; simpl.
  - intros i Hi. rewrite F5. destruct (decide (i = id)) as [->|Hne]; [apply S1; by eexists|]. apply S1. by rewrite <-Hrec3.
  - rewrite Hsub3. apply NoDup_js_filter. done.
  - rewrite Hsub3. intros i [Hi Hne]%Hfil. rewrite Hrec3 by done. by apply S3.
  - split; simpl.
    + intros p y Hp Hy. destruct (ow_held _ Ho3 _ _ Hp Hy) as (Hs & z & Hz & Hd). rewrite Hsub3 in Hs |- *. split; [|by exists z].
      apply Hfil. split; [done|]. intros Heq. by apply (Hq3 _ _ Hp Hy).
    + intros i y p. apply (ow_known _ Ho3).
  - rewrite F1, F2, F3, F4, Hsub3. intros Hcl Hsu i [Hi Hne]%Hfil. by apply Hat3, S5.
  - rewrite F1, F2. intros Hdown i p y Hp Hy Hi. by apply (S6 Hdown i p y (Hph3 _ _ Hp Hy) Hy).
Qed.

Lemma silent_subs_ok c :
  (forall id, is_Some (records c !! id) -> id <= nextSubscriptionId c) -> NoDup (subscriptions c) ->
  (forall id, id ∈ subscriptions c -> exists x, records c !! id = Some x /\ cancelled x = false) ->
  owned c -> (forall id, quiet id c) -> closed c || suspended c = true -> subs_ok c.
Proof.
  intros S1 S2 S3 S4 Hq Hd. split; try done. intros Hcl Hsu. by rewrite Hcl, Hsu in Hd.
Qed.

(** What a loop over the subscriptions does to the records. *)
Definition same_records c c' : Prop :=
  forall i, (exists y, records c !! i = Some y /\ cancelled y = false) -> exists y, records c' !! i = Some y /\ cancelled y = false.
Definition no_new_records c c' : Prop := forall i, is_Some (records c' !! i) -> is_Some (records c !! i).

Lemma forget_records l c :
  let c' := foldl (fun c id => alter_record id (fun x => x <| disposePhysical := None |>) (dispose_opt (physical_of id c) c)) c l in
  same_records c c' /\ no_new_records c c'.
Proof.
  revert c. induction l as [|id l IH]; intros c; [by split; intros i|]. cbn [foldl].
  set (c1 := alter_record id _ _). destruct (IH c1) as [H1 H2].
  assert (Hr : records c1 = alter (fun x => x <| disposePhysical := None |>) id (records c)) by (unfold c1; by destruct (physical_of id c)).
  split; intros i Hi.
  - apply H1. destruct Hi as (y & Hy & Hc). rewrite Hr. destruct (decide (id = i)) as [<-|Hne]; [|exists y; by rewrite lookup_alter_ne].
    rewrite lookup_alter, decide_True, Hy by done. by eexists.
  - specialize (H2 i Hi). rewrite Hr in H2. destruct (decide (id = i)) as [<-|Hne]; [|by rewrite lookup_alter_ne in H2].
    rewrite lookup_alter, decide_True in H2 by done. by apply fmap_is_Some in H2.
Qed.

Lemma dispose_records l c : records (foldl (fun c id => dispose_opt (physical_of id c) c) c l) = records c.
Proof. revert c. induction l as [|id l IH]; intros c; [done|]. cbn [foldl]. rewrite IH. by destruct (physical_of id c). Qed.

Lemma owned_frame c c' : subscriptions c' = subscriptions c -> records c' = records c -> physicals c' = physicals c -> owned c -> owned c'.
Proof. intros E1 E2 E3 [O1 O2]. split; rewrite ?E1, ?E2, ?E3; done. Qed.

Lemma emptied_owned c : owned c -> (forall id, quiet id c) -> owned (c <| subscriptions := [] |>).
Proof. intros [O1 O2] Hq. split; simpl; [|done]. intros p x Hp Hx. by destruct (Hq (for_record x) p x Hp Hx). Qed.

Lemma close_subs_ok c : subs_ok c -> subs_ok (close c).
Proof.
  intros Hs. unfold close. destruct (closed c); [done|]. cbv zeta.
  set (c1 := reject_pending "Client closed" (c <| closed := true |> <| activeStateListener := None |>)).
  assert (H1 : same_subs (c <| closed := true |>) c1) by (eapply same_subs_trans; [|apply reject_subs]; by split).
  destruct H1 as [E1 E2 E3 E4 E5 E6 E7 E8]. destruct Hs as [S1 S2 S3 S4 S5 S6].
  assert (Ho1 : owned c1) by (by apply (owned_frame c)).
  destruct (dispose_all_quiet (subscriptions c1) c1 Ho1) as (Ho2 & Hq & _). pose proof (dispose_records (subscriptions c1) c1) as Hr.
  pose proof (fold_same (fun c id => dispose_opt (physical_of id c) c) (subscriptions c1) c1 (fun c id => dispose_same _ c)) as Hm.
  set (c2 := foldl _ c1 (subscriptions c1)) in *. clearbody c2.
  assert (Hall : forall id, quiet id c2) by (apply unowned_quiet; [done|]; rewrite (sm_subs _ _ Hm); exact Hq).
  eapply subs_frame; [eapply same_subs_trans; [|apply publish_subs]; by split|].
  apply silent_subs_ok; simpl; [|constructor|by intros ? ?%elem_of_nil| |exact Hall|].
  - rewrite Hr, E2, (sm_ids _ _ Hm), E4. exact S1.
  - apply (owned_frame (c2 <| subscriptions := [] |>)); [done..|by apply emptied_owned].
  - by rewrite (sm_closed _ _ Hm), E5.
Qed.

Lemma suspend_subs_ok c : subs_ok c -> subs_ok (suspendActiveSession c).
Proof.
  intros Hs. unfold suspendActiveSession. destruct (closed c || suspended c); [done|]. cbv zeta.
  set (c1 := reject_pending "Client suspended" (c <| suspended := true |> <| activeStateListener := None |>)).
  assert (H1 : same_subs (c <| suspended := true |>) c1) by (eapply same_subs_trans; [|apply reject_subs]; by split).
  destruct H1 as [E1 E2 E3 E4 E5 E6 E7 E8]. destruct Hs as [S1 S2 S3 S4 S5 S6].
  assert (Ho1 : owned c1) by (by apply (owned_frame c)).
  destruct (forget_all_quiet (subscriptions c1) c1 Ho1) as (Ho2 & Hq & _). destruct (forget_records (subscriptions c1) c1) as [Hr1 Hr2].
  assert (Hm : same_client c1 (foldl (fun c id => alter_record id (fun x => x <| disposePhysical := None |>) (dispose_opt (physical_of id c) c)) c1 (subscriptions c1))).
  { apply fold_same. intros c' id. destruct (physical_of id c'); by split. }
  set (c2 := foldl _ c1 (subscriptions c1)) in *. clearbody c2.
  assert (Hall : forall id, quiet id c2) by (apply unowned_quiet; [done|]; rewrite (sm_subs _ _ Hm); exact Hq).
  apply (subs_frame c2); [eapply same_subs_trans; [|apply publish_subs]; by split|].
  apply silent_subs_ok.
  - intros i Hi%Hr2. rewrite E2 in Hi. rewrite (sm_ids _ _ Hm), E4. by apply S1.
  - by rewrite (sm_subs _ _ Hm), E1.
  - intros i. rewrite (sm_subs _ _ Hm), E1. intros Hi. apply Hr1. rewrite E2. by apply S3.
  - done.
  - exact Hall.
  - by rewrite (sm_closed _ _ Hm), (sm_suspended _ _ Hm), E6, orb_true_r.
Qed.

(** The part of [cutover] after the replay, and its last part. *)
Definition announce w (next previous : nat) c : Client :=
  let c := c <| cstate := getSessionState next c |> in
  let c := LogicalClient.emit (Published (cstate c)) c in
  LogicalClient.emit (MigrationSettled w (Ok tt)) (close_session previous c).
Definition switch w (next : nat) (path : MobileConnectionPath) (previous g : nat) c : Client :=
  let c := c <| generation := g |> <| activeSession := next |> <| activePath := path |> <| suspended := false |> in
  announce w next previous (reject_pending cutover_error (bindActiveState next g c)).

Lemma cutover_switch w next path c :
  cutover w next path c =
  if closed c then LogicalClient.emit (MigrationSettled w (Throw "Client closed")) (close_session next c)
  else switch w next path (activeSession c) (S (generation c)) (foldl (replay next (S (generation c))) c (subscriptions c)).
Proof. reflexivity. Qed.

Lemma announce_subs w next previous c : same_subs c (announce w next previous c).
Proof. by split. Qed.

Lemma switch_subs w next path previous g c :
  same_subs (c <| generation := g |> <| activeSession := next |> <| suspended := false |>) (switch w next path previous g c).
Proof.
  unfold switch. cbv zeta. eapply same_subs_trans; [|eapply same_subs_trans; [apply reject_subs|apply announce_subs]]. by split.
Qed.

Lemma cutover_subs_ok w next path c : subs_ok c -> subs_ok (cutover w next path c).
Proof.
  intros Hs. rewrite cutover_switch. destruct (closed c) eqn:Hcl; [eapply subs_frame; [|exact Hs]; by split|].
  destruct Hs as [S1 S2 S3 S4 S5 S6].
  destruct (replay_all next (S (generation c)) (subscriptions c) c S4 S2) as (R1 & R2 & _ & R4 & R5); [by intros id Hi; split; [|apply S3]|].
  pose proof (fold_same _ (subscriptions c) c (replay_same next (S (generation c)))) as Hm.
  set (c1 := foldl (replay next (S (generation c))) c (subscriptions c)) in *. clearbody c1.
  eapply subs_frame; [apply switch_subs|]. split; simpl.
  - intros i Hi%R5. rewrite (sm_ids _ _ Hm). by apply S1.
  - by rewrite (sm_subs _ _ Hm).
  - intros i. rewrite (sm_subs _ _ Hm). intros Hi. by apply R4, S3.
  - by apply (owned_frame c1).
  - intros _ _ i. rewrite (sm_subs _ _ Hm). apply R2.
  - by rewrite (sm_closed _ _ Hm), Hcl.
Qed.

Lemma migration_fails_subs w next m c : same_subs c (migration_fails w next m c).
Proof. by split. Qed.

Lemma wait_sees_subs_ok st w c : subs_ok c -> subs_ok (wait_sees st w c).
Proof.
  intros Hs. unfold wait_sees. destruct (waiting c !! w) as [[next path]|]; [|done].
  assert (Hd : subs_ok (c <| waiting := delete w (waiting c) |>)) by (eapply subs_frame; [|exact Hs]; by split).
  destruct st; try done; [by apply cutover_subs_ok|eapply subs_frame; [apply migration_fails_subs|exact Hd]..].
Qed.

Lemma settle_subs r o c : same_subs c (settle r o c).
Proof. by split. Qed.

Lemma request_settles_subs r o c : same_subs c (request_settles r o c).
Proof.
  unfold request_settles. destruct (requests c !! r) as [q|]; [|by split]. cbv zeta.
  destruct o; [|by split]. destruct (closed _); [by split|]. destruct (negb _); by split.
Qed.

Lemma step_subs_ok c e : subs_ok c -> subs_ok (client_step c e).
Proof.
  intros Hs. destruct e as [m ps|m ps|id|t v| | | |next path|r o|p res|s st|w]; cbn [client_step].
  - unfold sendRequest. destruct (closed c); [done|]. destruct (suspended c) eqn:E; [done|]. eapply subs_frame; [|exact Hs]. by split.
  - by apply subscribe_subs_ok.
  - by apply unsubscribe_subs_ok.
  - unfold updateTerminalSubscriptionViewport. cbv zeta. set (f := fun c id => alter_record id (with_viewport t v) c).
    assert (Hf : subs_ok (foldl f c (subscriptions c))).
    { apply (fold_pres subs_ok); [|done]. intros c' id. apply relabel_subs_ok. intros x. unfold with_viewport.
      destruct (params x) as [[]|]; try done. by destruct (strict_eq _ _). }
    destruct (negb _); [|done]. eapply subs_frame; [|exact Hf]. by split.
  - unfold notifyForeground. destruct (negb _); [|done]. eapply subs_frame; [|exact Hs]. by split.
  - by apply close_subs_ok.
  - by apply suspend_subs_ok.
  - unfold migrateTo. cbv zeta. set (c1 := c <| nextWaiter := _ |> <| handed := _ |>).
    assert (H1 : subs_ok c1) by (eapply subs_frame; [|exact Hs]; by split).
    destruct (closed c1); [eapply subs_frame; [apply migration_fails_subs|exact H1]|].
    destruct (decide _); [by apply cutover_subs_ok|]. eapply subs_frame; [|exact H1]. by split.
  - eapply subs_frame; [apply request_settles_subs|done].
  - unfold emission. destruct (physicals c !! p) as [x|]; [|done]. destruct (records c !! for_record x) as [y|]; [|done].
    destruct (_ && _); [|done]. eapply subs_frame; [|exact Hs]. by split.
  - unfold session_enters. cbv zeta. apply (fold_pres subs_ok).
    + intros c' [w' [next path]] Hc'. destruct (next =? s); [by apply wait_sees_subs_ok|done].
    + set (c1 := c <| sessionState := _ |>). assert (H1 : subs_ok c1) by (eapply subs_frame; [|exact Hs]; by split).
      destruct (activeStateListener c1) as [[s' g]|]; [|done]. destruct (_ && _); [|done]. eapply subs_frame; [apply publish_subs|done].
  - unfold wait_times_out. destruct (waiting c !! w) as [[next path]|]; [|done]. eapply subs_frame; [|exact Hs]. by split.
Qed.

(** ** Requests *)

Record reqs_ok c : Prop := {
  rq_fresh : forall r, is_Some (requests c !! r) -> r < nextRequest c;
  rq_pending : forall r q, requests c !! r = Some q -> outcome q = None -> r ∈ pendingRequests c;
  rq_unsettled : forall r, r ∈ pendingRequests c -> exists q, requests c !! r = Some q /\ outcome q = None;
  rq_current : forall r q, requests c !! r = Some q -> outcome q = None ->
    sent_on q = activeSession c /\ requestGeneration q = generation c /\ closed c = false /\ suspended c = false }.

Record same_reqs c c' : Prop := {
  sr_pending : pendingRequests c' = pendingRequests c; sr_requests : requests c' = requests c; sr_next : nextRequest c' = nextRequest c;
  sr_active : activeSession c' = activeSession c; sr_generation : generation c' = generation c;
  sr_closed : closed c' = closed c; sr_suspended : suspended c' = suspended c }.

Lemma reqs_frame c c' : same_reqs c c' -> reqs_ok c -> reqs_ok c'.
Proof. intros [E1 E2 E3 E4 E5 E6 E7] [R1 R2 R3 R4]. split; rewrite ?E1, ?E2, ?E3, ?E4, ?E5, ?E6, ?E7; done. Qed.

Lemma same_client_reqs c c' : same_client c c' -> same_reqs c c'.
Proof. intros []. by split. Qed.
Lemma same_reqs_trans c1 c2 c3 : same_reqs c1 c2 -> same_reqs c2 c3 -> same_reqs c1 c3.
Proof. intros [] []. split; congruence. Qed.

(** Every request is settled, and known. *)
Definition all_settled c : Prop := forall r q, requests c !! r = Some q -> outcome q <> None.

Lemma settled_reqs_ok c :
  (forall r, is_Some (requests c !! r) -> r < nextRequest c) -> pendingRequests c = [] -> all_settled c -> reqs_ok c.
Proof.
  intros H1 H2 H3. split; [done|..].
  - intros r q Hq Ho. by apply H3 in Hq.
  - rewrite H2. by intros r ?%elem_of_nil.
  - intros r q Hq Ho. by apply H3 in Hq.
Qed.

Lemma settle_lookup r o c r' q :
  requests (settle r o c) !! r' = Some q ->
  exists q0, requests c !! r' = Some q0 /\ sent_on q = sent_on q0 /\ requestGeneration q = requestGeneration q0 /\
    (outcome q0 = outcome q \/ (r' = r /\ outcome q0 = None /\ outcome q = Some o)).
Proof.
  simpl. destruct (decide (r = r')) as [<-|Hne].
  - rewrite lookup_alter, decide_True by done. intros (q0 & E & ->)%fmap_Some. exists q0. split; [done|]. destruct (outcome q0) eqn:Eo; [by split_and!; [..|left]|].
    by split_and!; [..|right].
  - rewrite lookup_alter_ne by done. intros E. exists q. by split_and!; [..|left].
Qed.

Lemma reject_settles m l c r q :
  requests (foldl (fun c r => settle r (Rejected m) c) c l) !! r = Some q ->
  exists q0, requests c !! r = Some q0 /\ sent_on q = sent_on q0 /\ requestGeneration q = requestGeneration q0 /\
    (outcome q0 = outcome q \/ (outcome q0 = None /\ outcome q = Some (Rejected m))) /\ (r ∈ l -> outcome q <> None).
Proof.
  revert c. induction l as [|r1 l IH]; intros c; cbn [foldl].
  - intros E. exists q. split_and!; [done..|by left|by intros ?%elem_of_nil].
  - intros (q1 & E1 & Es1 & Eg1 & Eo1 & Hl)%IH. apply settle_lookup in E1 as E0. destruct E0 as (q0 & E0 & Es & Eg & Eo).
    exists q0. split_and!; [done|congruence|congruence| |].
    + destruct Eo as [Eo|(-> & Eo0 & Eo')].
      * rewrite Eo. done.
      * right. split; [done|]. destruct Eo1 as [Eo1|[? ?]]; congruence.
    + intros [->|Hin]%elem_of_cons; [|by apply Hl]. simpl in E1. rewrite lookup_alter, decide_True, E0 in E1 by done.
      injection E1 as E1. assert (outcome q1 <> None) by (rewrite <-E1; destruct (outcome q0) eqn:E; [by rewrite E|done]).
      destruct Eo1 as [Eo1|[? ?]]; congruence.
Qed.

Lemma reject_same m c :
  nextRequest (reject_pending m c) = nextRequest c /\ pendingRequests (reject_pending m c) = [] /\
  activeSession (reject_pending m c) = activeSession c /\ generation (reject_pending m c) = generation c /\
  closed (reject_pending m c) = closed c /\ suspended (reject_pending m c) = suspended c /\
  handed (reject_pending m c) = handed c /\ closedSessions (reject_pending m c) = closedSessions c /\ waiting (reject_pending m c) = waiting c.
Proof.
  unfold reject_pending. set (l := pendingRequests c). clearbody l. split_and!; try done; simpl;
    (revert c; induction l as [|r l IH]; intros c; [done|]; cbn [foldl]; by rewrite IH).
Qed.

(** Cutover, suspension and close reject what is pending, and nothing stays pending. *)
Lemma reject_all m c : reqs_ok c -> reqs_ok (reject_pending m c) /\ all_settled (reject_pending m c).
Proof.
  intros [R1 R2 R3 R4]. destruct (reject_same m c) as (E1 & E2 & _).
  assert (Ha : all_settled (reject_pending m c)).
  { intros r q Hq. unfold reject_pending in Hq. simpl in Hq. apply reject_settles in Hq as (q0 & E0 & _ & _ & Eo & Hl).
    destruct (outcome q0) eqn:Eq0; [destruct Eo as [Eo|[? ?]]; congruence|]. apply Hl. by eapply R2. }
  split; [|done]. apply settled_reqs_ok; [|done|done]. intros r [q Hq]. rewrite E1. unfold reject_pending in Hq. simpl in Hq.
  apply reject_settles in Hq as (q0 & E0 & _). apply R1. by eexists.
Qed.

Lemma settle_other r o r' c : r <> r' -> requests (settle r o c) !! r' = requests c !! r'.
Proof. intros Hne. simpl. by rewrite lookup_alter_ne. Qed.

Lemma settle_here r o c q : requests c !! r = Some q -> exists q', requests (settle r o c) !! r = Some q' /\ outcome q' <> None.
Proof.
  intros Hq. simpl. rewrite lookup_alter, decide_True, Hq by done. eexists. split; [done|]. by destruct (outcome q) eqn:E; [rewrite E|].
Qed.

Lemma settled_pending_ok r o c :
  reqs_ok c -> is_Some (requests c !! r) ->
  reqs_ok (settle r o (c <| pendingRequests := js_filter (fun r' => negb (r' =? r)) (pendingRequests c) |>)).
Proof.
  intros [R1 R2 R3 R4] [q0 Hq0]. set (c1 := c <| pendingRequests := _ |>).
  assert (Hback : forall r' q, requests (settle r o c1) !! r' = Some q -> outcome q = None ->
    r' <> r /\ requests c !! r' = Some q).
  { intros r' q Hq Ho. destruct (decide (r' = r)) as [->|Hne].
    - destruct (settle_here r o c1 q0 Hq0) as (q' & Hq' & Hn). congruence.
    - rewrite settle_other in Hq by congruence. done. }
  split.
  - intros r' [q Hq]. apply settle_lookup in Hq as (q1 & Hq1 & _). apply R1. by eexists.
  - intros r' q Hq Ho. destruct (Hback _ _ Hq Ho) as [Hne Hq']. simpl. apply elem_of_js_filter. split; [by eapply R2|].
    by apply negb_true_iff, Nat.eqb_neq.
  - intros r' Hr'. simpl in Hr'. apply elem_of_js_filter in Hr' as [Hin Hne%negb_true_iff%Nat.eqb_neq].
    destruct (R3 _ Hin) as (q & Hq & Ho). exists q. split; [|done]. by rewrite settle_other.
  - intros r' q Hq Ho. destruct (Hback _ _ Hq Ho) as [_ Hq']. by apply (R4 r').
Qed.

Lemma publish_reqs st c : same_reqs c (publishState st c).
Proof. unfold publishState. destruct (decide _); by split. Qed.
Lemma announce_reqs w next previous c : same_reqs c (announce w next previous c).
Proof. by split. Qed.
Lemma migration_fails_reqs w next m c : same_reqs c (migration_fails w next m c).
Proof. by split. Qed.

(** The three fields a mass rejection and what follows it leave. *)
Record same_books c c' : Prop := {
  sb_pending : pendingRequests c' = pendingRequests c; sb_requests : requests c' = requests c; sb_next : nextRequest c' = nextRequest c }.
Lemma books_of c c' : same_reqs c c' -> same_books c c'.
Proof. intros []. by split. Qed.
Lemma books_trans c1 c2 c3 : same_books c1 c2 -> same_books c2 c3 -> same_books c1 c3.
Proof. intros [] []. split; congruence. Qed.

Lemma rejected_reqs_ok m c c1 c' : reqs_ok c -> same_books c c1 -> same_books (reject_pending m c1) c' -> reqs_ok c'.
Proof.
  intros [R1 R2 R3 R4] [E1 E2 E3] [F1 F2 F3]. destruct (reject_same m c1) as (N1 & N2 & _).
  assert (Hback : forall r q, requests c' !! r = Some q -> exists q0, requests c !! r = Some q0 /\ outcome q <> None).
  { intros r q Hq. rewrite F2 in Hq. unfold reject_pending in Hq. simpl in Hq. apply reject_settles in Hq as (q0 & E0 & _ & _ & Eo & Hl).
    rewrite E2 in E0. exists q0. split; [done|]. destruct (outcome q0) eqn:Eq0; [destruct Eo as [Eo|[? ?]]; congruence|].
    apply Hl. rewrite E1. by eapply R2. }
  apply settled_reqs_ok.
  - intros r [q Hq]. rewrite F3, N1, E3. destruct (Hback _ _ Hq) as (q0 & E0 & _). apply R1. by eexists.
  - by rewrite F1.
  - intros r q Hq. by destruct (Hback _ _ Hq) as (q0 & _ & Ho).
Qed.

Lemma fold_books (f : Client -> nat -> Client) l c : (forall c id, same_client c (f c id)) -> same_books c (foldl f c l).
Proof. intros Hf. by apply books_of, same_client_reqs, fold_same. Qed.

Lemma down_books st s c c' : same_books c c' -> same_books c (publishState st (close_session s c')).
Proof. intros Hb. eapply books_trans; [exact Hb|]. eapply books_trans; [|apply books_of, publish_reqs]. by split. Qed.

Lemma close_reqs_ok c : reqs_ok c -> reqs_ok (close c).
Proof.
  intros Hr. unfold close. destruct (closed c); [done|]. cbv zeta. set (c0 := c <| closed := true |> <| activeStateListener := None |>).
  apply (rejected_reqs_ok "Client closed" c c0); [done|by split|]. set (c1 := reject_pending _ c0). apply down_books.
  set (f := fun c id => dispose_opt (physical_of id c) c).
  assert (Hb : same_books c1 (foldl f c1 (subscriptions c1))) by (apply fold_books; intros c' id; apply dispose_same). by destruct Hb; split.
Qed.

Lemma suspend_reqs_ok c : reqs_ok c -> reqs_ok (suspendActiveSession c).
Proof.
  intros Hr. unfold suspendActiveSession. destruct (closed c || suspended c); [done|]. cbv zeta.
  set (c0 := c <| suspended := true |> <| activeStateListener := None |>).
  apply (rejected_reqs_ok "Client suspended" c c0); [done|by split|]. apply down_books, fold_books. intros c' id. destruct (physical_of id c'); by split.
Qed.

Lemma cutover_reqs_ok w next path c : reqs_ok c -> reqs_ok (cutover w next path c).
Proof.
  intros Hr. rewrite cutover_switch. destruct (closed c); [eapply reqs_frame; [|exact Hr]; by split|].
  unfold switch. cbv zeta. match goal with |- context [bindActiveState next ?g ?c'] => set (c1 := bindActiveState next g c') end.
  apply (rejected_reqs_ok cutover_error c c1); [done| |apply books_of, announce_reqs].
  assert (Hb : same_books c (foldl (replay next (S (generation c))) c (subscriptions c))) by (apply fold_books; intros c' id; apply replay_same).
  by destruct Hb; split.
Qed.

Lemma wait_sees_reqs_ok st w c : reqs_ok c -> reqs_ok (wait_sees st w c).
Proof.
  intros Hs. unfold wait_sees. destruct (waiting c !! w) as [[next path]|]; [|done].
  assert (Hd : reqs_ok (c <| waiting := delete w (waiting c) |>)) by (eapply reqs_frame; [|exact Hs]; by split).
  destruct st; try done; [by apply cutover_reqs_ok|eapply reqs_frame; [apply migration_fails_reqs|exact Hd]..].
Qed.

Lemma sendRequest_reqs_ok m ps c : reqs_ok c -> reqs_ok (sendRequest m ps c).1.
Proof.
  intros Hr. unfold sendRequest. destruct (closed c) eqn:Hcl; [done|]. destruct (suspended c) eqn:Hsu; [done|]. cbv zeta. cbn [fst].
  destruct Hr as [R1 R2 R3 R4]. set (n := nextRequest c). assert (Hnone : forall q, requests c !! n <> Some q).
  { intros q Hq. assert (n < nextRequest c) by (apply R1; by eexists). unfold n in *. lia. }
  split; simpl.
  - intros r [q Hq]. destruct (decide (n = r)) as [<-|Hne]; [lia|]. rewrite lookup_insert_ne in Hq by done.
    assert (r < nextRequest c) by (apply R1; by eexists). lia.
  - intros r q Hq Ho. apply elem_of_app. destruct (decide (n = r)) as [<-|Hne]; [right; left|]. rewrite lookup_insert_ne in Hq by done.
    left. by eapply R2.
  - intros r [Hr| ->%list_elem_of_singleton]%elem_of_app; [|eexists; by rewrite lookup_insert, decide_True].
    destruct (R3 _ Hr) as (q & Hq & Ho). exists q. split; [|done]. rewrite lookup_insert_ne; [done|]. intros <-. by apply Hnone in Hq.
  - intros r q Hq Ho. destruct (decide (n = r)) as [<-|Hne]; [rewrite lookup_insert, decide_True in Hq by done; injection Hq as <-; done|].
    rewrite lookup_insert_ne in Hq by done. by eapply R4.
Qed.

Lemma step_reqs_ok c e : reqs_ok c -> reqs_ok (client_step c e).
Proof.
  intros Hs. destruct e as [m ps|m ps|id|t v| | | |next path|r o|p res|s st|w]; cbn [client_step].
  - by apply sendRequest_reqs_ok.
  - unfold subscribe. destruct (closed c); [done|]. cbv zeta. destruct (negb _); cbn [fst]; (eapply reqs_frame; [|exact Hs]); [|by split].
    eapply same_reqs_trans; [|apply same_client_reqs, attach_same]. by split.
  - unfold unsubscribe. destruct (records c !! id) as [x|]; [|done]. destruct (cancelled x); [done|]. cbv zeta.
    eapply reqs_frame; [|exact Hs]. destruct (disposePhysical x); by split.
  - unfold updateTerminalSubscriptionViewport. cbv zeta.
    assert (Hf : reqs_ok (foldl (fun c id => alter_record id (with_viewport t v) c) c (subscriptions c))).
    { apply (fold_pres reqs_ok); [|done]. intros c' id Hc'. eapply reqs_frame; [|exact Hc']. by split. }
    destruct (negb _); [|done]. eapply reqs_frame; [|exact Hf]. by split.
  - unfold notifyForeground. destruct (negb _); [|done]. eapply reqs_frame; [|exact Hs]. by split.
  - by apply close_reqs_ok.
  - by apply suspend_reqs_ok.
  - unfold migrateTo. cbv zeta. set (c1 := c <| nextWaiter := _ |> <| handed := _ |>).
    assert (H1 : reqs_ok c1) by (eapply reqs_frame; [|exact Hs]; by split).
    destruct (closed c1); [eapply reqs_frame; [apply migration_fails_reqs|exact H1]|].
    destruct (decide _); [by apply cutover_reqs_ok|]. eapply reqs_frame; [|exact H1]. by split.
  - unfold request_settles. destruct (requests c !! r) as [q|] eqn:Hq; [|done]. cbv zeta.
    destruct o; [destruct (closed _); [|destruct (negb _)]|]; apply settled_pending_ok; done.
  - unfold emission. destruct (physicals c !! p) as [x|]; [|done]. destruct (records c !! for_record x) as [y|]; [|done].
    destruct (_ && _); [|done]. eapply reqs_frame; [|exact Hs]. by split.
  - unfold session_enters. cbv zeta. apply (fold_pres reqs_ok).
    + intros c' [w' [next path]] Hc'. destruct (next =? s); [by apply wait_sees_reqs_ok|done].
    + set (c1 := c <| sessionState := _ |>). assert (H1 : reqs_ok c1) by (eapply reqs_frame; [|exact Hs]; by split).
      destruct (activeStateListener c1) as [[s' g]|]; [|done]. destruct (_ && _); [|done]. eapply reqs_frame; [apply publish_reqs|done].
  - unfold wait_times_out. destruct (waiting c !! w) as [[next path]|]; [|done]. eapply reqs_frame; [|exact Hs]. by split.
Qed.

(** ** Sessions *)

(** The sessions but [next], which the client holds apart. *)
Record sessions_but (next : option nat) c : Prop := {
  se_owner : forall s, s ∈ handed c -> ~ (s ∈ closedSessions c) -> Some s <> next ->
    (s = activeSession c /\ closed c = false /\ suspended c = false) \/ exists w path, waiting c !! w = Some (s, path);
  se_closed : closedSessions c ⊆ handed c;
  se_waiting : forall w s path, waiting c !! w = Some (s, path) ->
    s ∈ handed c /\ ~ (s ∈ closedSessions c) /\ s <> activeSession c /\ Some s <> next;
  se_inj : forall w w' s path path', waiting c !! w = Some (s, path) -> waiting c !! w' = Some (s, path') -> w = w';
  se_given : activeSession c ∈ handed c;
  se_active : closed c = false -> suspended c = false -> ~ (activeSession c ∈ closedSessions c);
  se_fresh : forall w, is_Some (waiting c !! w) -> w < nextWaiter c;
  se_next : forall s, next = Some s -> s ∈ handed c /\ ~ (s ∈ closedSessions c) /\ s <> activeSession c }.
Definition sess_ok c : Prop := sessions_but None c.

Record same_sess c c' : Prop := {
  sn_handed : handed c' = handed c; sn_closedSessions : closedSessions c' = closedSessions c; sn_waiting : waiting c' = waiting c;
  sn_waiter : nextWaiter c' = nextWaiter c; sn_active : activeSession c' = activeSession c; sn_closed : closed c' = closed c;
  sn_suspended : suspended c' = suspended c }.

Lemma sess_frame n c c' : same_sess c c' -> sessions_but n c -> sessions_but n c'.
Proof. intros [E1 E2 E3 E4 E5 E6 E7] [S1 S2 S3 S4 S5 S6 S7 S8]. split; rewrite ?E1, ?E2, ?E3, ?E4, ?E5, ?E6, ?E7; done. Qed.
Lemma same_sess_trans c1 c2 c3 : same_sess c1 c2 -> same_sess c2 c3 -> same_sess c1 c3.
Proof. intros [] []. split; congruence. Qed.
Lemma same_client_sess c c' : same_client c c' -> same_sess c c'.
Proof. intros []. by split. Qed.

Lemma reject_sess m c : same_sess c (reject_pending m c).
Proof.
  destruct (reject_same m c) as (_ & _ & E1 & _ & E2 & E3 & E4 & E5 & E6). split; try done.
  unfold reject_pending. simpl. generalize (pendingRequests c). intros l. revert c E1 E2 E3 E4 E5 E6. induction l as [|r l IH]; [done|].
  intros c _ _ _ _ _ _. cbn [foldl]. rewrite IH; try done; apply (reject_same m (settle r (Rejected m) c)).
Qed.

Lemma publish_sess st c : same_sess c (publishState st c).
Proof. unfold publishState. destruct (decide _); by split. Qed.

(** The session held apart is closed. *)
Lemma close_next_sess s c : sessions_but (Some s) c -> sess_ok (close_session s c).
Proof.
  intros [S1 S2 S3 S4 S5 S6 S7 S8]. destruct (S8 s eq_refl) as (N1 & N2 & N3). split; simpl.
  - intros s' Hs' Hc _. apply S1; [done|set_solver|]. intros [= ->]. set_solver.
  - set_solver.
  - intros w s' path Hw. destruct (S3 _ _ _ Hw) as (W1 & W2 & W3 & W4). split_and!; [done| |done|done].
    intros [->%elem_of_singleton|?]%elem_of_union; done.
  - done.
  - done.
  - intros Hcl Hsu. specialize (S6 Hcl Hsu). intros [E%elem_of_singleton|?]%elem_of_union; [|done]. congruence.
  - done.
  - done.
Qed.

(** The session held apart becomes the active one. *)
Lemma switch_sess w s path g c :
  closed c = false -> sessions_but (Some s) c -> sess_ok (switch w s path (activeSession c) g c).
Proof.
  intros Hcl [S1 S2 S3 S4 S5 S6 S7 S8]. destruct (S8 s eq_refl) as (N1 & N2 & N3).
  set (c1 := c <| activeSession := s |> <| suspended := false |> <| closedSessions := {[activeSession c]} ∪ closedSessions c |>).
  assert (H1 : same_sess c1 (switch w s path (activeSession c) g c)).
  { unfold switch. cbv zeta. match goal with |- context [bindActiveState s g ?c'] => set (c2 := bindActiveState s g c') end.
    pose proof (reject_sess cutover_error c2) as [E1 E2 E3 E4 E5 E6 E7]. set (c3 := reject_pending cutover_error c2) in *. clearbody c3.
    split; cbn [announce]; simpl; rewrite ?E1, ?E2, ?E3, ?E4, ?E5, ?E6, ?E7; done. }
  eapply sess_frame; [exact H1|]. split; simpl.
  - intros s' Hs' Hc _. destruct (decide (s' = s)) as [->|Hne]; [by left|].
    destruct (S1 s' Hs') as [(-> & _ & _)|Hw]; [set_solver|congruence|set_solver|by right].
  - set_solver.
  - intros w' s' path' Hw. destruct (S3 _ _ _ Hw) as (W1 & W2 & W3 & W4). split_and!; [done|set_solver|congruence|done].
  - done.
  - done.
  - intros _ _. set_solver.
  - done.
  - done.
Qed.

Lemma cutover_sess w s path c : sessions_but (Some s) c -> sess_ok (cutover w s path c).
Proof.
  intros Hs. rewrite cutover_switch. destruct (closed c) eqn:Hcl.
  - eapply sess_frame; [|apply close_next_sess; exact Hs]. by split.
  - pose proof (fold_same _ (subscriptions c) c (replay_same s (S (generation c)))) as Hm. set (c1 := foldl _ c _) in *. clearbody c1.
    rewrite <-(sm_active _ _ Hm). apply switch_sess; [by rewrite (sm_closed _ _ Hm)|]. eapply sess_frame; [apply same_client_sess; exact Hm|done].
Qed.

Lemma fails_sess w s m c : sessions_but (Some s) c -> sess_ok (migration_fails w s m c).
Proof. intros Hs. eapply sess_frame; [|apply close_next_sess; exact Hs]. by split. Qed.

(** A wait is over: its session is held apart. *)
Lemma unwait_sess w s path c : sess_ok c -> waiting c !! w = Some (s, path) -> sessions_but (Some s) (c <| waiting := delete w (waiting c) |>).
Proof.
  intros [S1 S2 S3 S4 S5 S6 S7 S8] Hw. destruct (S3 _ _ _ Hw) as (W1 & W2 & W3 & _). split; simpl.
  - intros s' Hs' Hc Hne. destruct (S1 s' Hs' Hc) as [Ha|(w' & path' & Hw')]; [done|by left|]. right. exists w', path'.
    rewrite jm_lookup_delete_ne; [done|]. intros <-. rewrite Hw in Hw'. congruence.
  - done.
  - intros w' s' path' Hw'. rewrite jm_lookup_delete in Hw'. destruct (decide (w = w')) as [|Hne]; [done|].
    destruct (S3 _ _ _ Hw') as (V1 & V2 & V3 & _). split_and!; [done|done|done|]. intros [= ->]. by apply Hne, (S4 _ _ _ _ _ Hw Hw').
  - intros w1 w2 s' p1 p2 H1 H2. rewrite jm_lookup_delete in H1, H2. destruct (decide (w = w1)), (decide (w = w2)); try done. by eapply S4.
  - done.
  - done.
  - intros w' Hw'. rewrite jm_lookup_delete in Hw'. destruct (decide (w = w')) as [|Hne]; [by destruct Hw'|by apply S7].
  - by intros s' [= <-].
Qed.

Lemma wait_sees_sess st w c : sess_ok c -> sess_ok (wait_sees st w c).
Proof.
  intros Hs. unfold wait_sees. destruct (waiting c !! w) as [[next path]|] eqn:Hw; [|done].
  pose proof (unwait_sess _ _ _ _ Hs Hw) as Hd. destruct st; try done; [by apply cutover_sess|by apply fails_sess..].
Qed.

(** The active session is let go. *)
Lemma down_sess c c' :
  sess_ok c -> closed c' || suspended c' = true -> (closed c = true -> closed c' = true) ->
  handed c' = handed c -> closedSessions c' = {[activeSession c]} ∪ closedSessions c -> waiting c' = waiting c -> nextWaiter c' = nextWaiter c ->
  activeSession c' = activeSession c -> sess_ok c'.
Proof.
  intros [S1 S2 S3 S4 S5 S6 S7 S8] Hd Hcl E1 E2 E3 E4 E5. split; rewrite ?E1, ?E2, ?E3, ?E4, ?E5; try done.
  - intros s Hs [Hc1 Hc2]%not_elem_of_union Hn. destruct (S1 s Hs Hc2 Hn) as [(-> & _)|Hw]; [|by right].
    destruct Hc1. by apply elem_of_singleton.
  - set_solver.
  - intros w s path Hw. destruct (S3 _ _ _ Hw) as (W1 & W2 & W3 & W4). split_and!; [done| |done|done]. apply not_elem_of_union.
    split; [|done]. by rewrite elem_of_singleton.
  - intros H1 H2. by rewrite H1, H2 in Hd.
Qed.

Lemma close_sess c : sess_ok c -> sess_ok (close c).
Proof.
  intros Hs. unfold close. destruct (closed c) eqn:Hcl; [done|]. cbv zeta. set (c0 := c <| closed := true |> <| activeStateListener := None |>).
  pose proof (reject_sess "Client closed" c0) as [E1 E2 E3 E4 E5 E6 E7]. set (c1 := reject_pending _ c0) in *. clearbody c1.
  set (f := fun c id => dispose_opt (physical_of id c) c).
  pose proof (same_client_sess _ _ (fold_same f (subscriptions c1) c1 (fun c id => dispose_same _ c))) as [F1 F2 F3 F4 F5 F6 F7].
  set (c2 := foldl f c1 _) in *. clearbody c2. eapply sess_frame; [apply publish_sess|].
  apply (down_sess c); simpl; rewrite ?F1, ?F2, ?F3, ?F4, ?F5, ?F6, ?E1, ?E2, ?E3, ?E4, ?E5, ?E6; done.
Qed.

Lemma suspend_sess c : sess_ok c -> sess_ok (suspendActiveSession c).
Proof.
  intros Hs. unfold suspendActiveSession. destruct (closed c || suspended c) eqn:Hcl; [done|]. cbv zeta.
  set (c0 := c <| suspended := true |> <| activeStateListener := None |>).
  pose proof (reject_sess "Client suspended" c0) as [E1 E2 E3 E4 E5 E6 E7]. set (c1 := reject_pending _ c0) in *. clearbody c1.
  set (f := fun c id => alter_record id (fun x => x <| disposePhysical := None |>) (dispose_opt (physical_of id c) c)).
  assert (Hm : same_client c1 (foldl f c1 (subscriptions c1))) by (apply fold_same; intros c' id; unfold f; destruct (physical_of id c'); by split).
  apply same_client_sess in Hm as [F1 F2 F3 F4 F5 F6 F7].
  set (c2 := foldl f c1 _) in *. clearbody c2. eapply sess_frame; [apply publish_sess|].
  apply orb_false_iff in Hcl as [Hcl Hsu].
  apply (down_sess c); simpl; rewrite ?F1, ?F2, ?F3, ?F4, ?F5, ?F6, ?F7, ?E1, ?E2, ?E3, ?E4, ?E5, ?E6, ?E7; simpl; rewrite ?Hcl; done.
Qed.

Lemma migrateTo_sess next path c : sess_ok c -> ~ (next ∈ handed c) -> sess_ok (migrateTo next path c).1.
Proof.
  intros [S1 S2 S3 S4 S5 S6 S7 S8] Hn. unfold migrateTo. cbv zeta. set (c1 := c <| nextWaiter := _ |> <| handed := _ |>).
  assert (H1 : sessions_but (Some next) c1).
  { split; simpl.
    - intros s Hs Hc Hne. apply S1; [set_solver|done|done].
    - set_solver.
    - intros w s p Hw. destruct (S3 _ _ _ Hw) as (W1 & W2 & W3 & _). split_and!; [set_solver|done|done|]. intros [= ->]. done.
    - done.
    - set_solver.
    - done.
    - intros w Hw. specialize (S7 _ Hw). lia.
    - intros s [= <-]. split_and!; [set_solver|set_solver|]. intros ->. done. }
  destruct (closed c1); [by apply fails_sess|]. destruct (decide _); [by apply cutover_sess|].
  destruct H1 as [T1 T2 T3 T4 T5 T6 T7 T8]. destruct (T8 next eq_refl) as (N1 & N2 & N3). set (w0 := nextWaiter c).
  assert (Hnone : waiting c1 !! w0 = None).
  { destruct (waiting c1 !! w0) eqn:E; [|done]. assert (w0 < nextWaiter c) by (apply S7; by eexists). unfold w0 in *. lia. }
  split; cbn [fst]; simpl; try done.
  - intros s Hs Hc _. destruct (decide (s = next)) as [->|Hne]; [right; exists w0, path; by rewrite jm_lookup_insert_eq|].
    destruct (T1 s Hs Hc) as [Ha|(w' & p' & Hw')]; [congruence|by left|]. right. exists w', p'. rewrite jm_lookup_insert_ne; [done|].
    intros <-. change (waiting c !! w0 = None) in Hnone. change (waiting c !! w0 = Some (s, p')) in Hw'. congruence.
  - intros w s p. rewrite jm_lookup_insert. destruct (decide (w0 = w)) as [<-|Hne]; [intros [= <- <-]; done|].
    intros Hw. by destruct (T3 _ _ _ Hw) as (W1 & W2 & W3 & W4).
  - intros w w' s p p'. rewrite !jm_lookup_insert. destruct (decide (w0 = w)) as [<-|Hne], (decide (w0 = w')) as [<-|Hne']; try done.
    + intros [= <- <-] Hw'. by destruct (T3 _ _ _ Hw') as (_ & _ & _ & ?).
    + intros Hw [= <- <-]. by destruct (T3 _ _ _ Hw) as (_ & _ & _ & ?).
    + by apply T4.
  - intros w [v Hv]. rewrite jm_lookup_insert in Hv. destruct (decide (w0 = w)) as [<-|Hne]; [unfold w0; lia|]. apply T7. by eexists.
Qed.

Lemma step_sess_ok c e : sess_ok c -> enabled e c -> sess_ok (client_step c e).
Proof.
  intros Hs He. destruct e as [m ps|m ps|id|t v| | | |next path|r o|p res|s st|w]; cbn [client_step].
  - unfold sendRequest. destruct (closed c); [done|]. destruct (suspended c); [done|]. eapply sess_frame; [|exact Hs]. by split.
  - unfold subscribe. destruct (closed c); [done|]. cbv zeta. destruct (negb _); cbn [fst]; (eapply sess_frame; [|exact Hs]); [|by split].
    eapply same_sess_trans; [|apply same_client_sess, attach_same]. by split.
  - unfold unsubscribe. destruct (records c !! id) as [x|]; [|done]. destruct (cancelled x); [done|]. cbv zeta.
    eapply sess_frame; [|exact Hs]. destruct (disposePhysical x); by split.
  - unfold updateTerminalSubscriptionViewport. cbv zeta.
    assert (Hf : sess_ok (foldl (fun c id => alter_record id (with_viewport t v) c) c (subscriptions c))).
    { apply (fold_pres sess_ok); [|done]. intros c' id Hc'. eapply sess_frame; [|exact Hc']. by split. }
    destruct (negb _); [|done]. eapply sess_frame; [|exact Hf]. by split.
  - unfold notifyForeground. destruct (negb _); [|done]. eapply sess_frame; [|exact Hs]. by split.
  - by apply close_sess.
  - by apply suspend_sess.
  - by apply migrateTo_sess.
  - unfold request_settles. destruct (requests c !! r) as [q|]; [|done]. cbv zeta. eapply sess_frame; [|exact Hs].
    destruct o; [destruct (closed _); [by split|]; destruct (negb _); by split|by split].
  - unfold emission. destruct (physicals c !! p) as [x|]; [|done]. destruct (records c !! for_record x) as [y|]; [|done].
    destruct (_ && _); [|done]. eapply sess_frame; [|exact Hs]. by split.
  - unfold session_enters. cbv zeta. apply (fold_pres sess_ok).
    + intros c' [w' [next path]] Hc'. destruct (next =? s); [by apply wait_sees_sess|done].
    + set (c1 := c <| sessionState := _ |>). assert (H1 : sess_ok c1) by (eapply sess_frame; [|exact Hs]; by split).
      destruct (activeStateListener c1) as [[s' g]|]; [|done]. destruct (_ && _); [|done]. eapply sess_frame; [apply publish_sess|done].
  - unfold wait_times_out. destruct (waiting c !! w) as [[next path]|] eqn:Hw; [|done]. apply fails_sess. eapply unwait_sess; [exact Hs|exact Hw].
Qed.

(** *** How a promise moves *)

(** From [c] to [c'] no request is forgotten; a settled one stays as it was; a pending
    one may be rejected, and request [r] (if one is named) resolved with [v]. *)
Definition moves (v : option (nat * json)) (c c' : Client) : Prop :=
  forall r q, requests c !! r = Some q -> exists q', requests c' !! r = Some q' /\ sent_on q' = sent_on q /\
    (outcome q' = outcome q \/ (outcome q = None /\ exists o, outcome q' = Some o /\
      match o with Resolved res => v = Some (r, res) | Rejected _ => True end)).

Lemma moves_refl v c : moves v c c.
Proof. intros r q Hq. exists q. by split_and!; [..|left]. Qed.

Lemma moves_trans v c1 c2 c3 : moves v c1 c2 -> moves v c2 c3 -> moves v c1 c3.
Proof.
  intros H12 H23 r q Hq. destruct (H12 _ _ Hq) as (q2 & Hq2 & E2 & M2). destruct (H23 _ _ Hq2) as (q3 & Hq3 & E3 & M3).
  exists q3. split_and!; [done|congruence|]. destruct M2 as [M2|(N2 & o & M2 & P2)], M3 as [M3|(N3 & o' & M3 & P3)].
  - left. congruence.
  - right. split; [congruence|]. by exists o'.
  - right. split; [done|]. exists o. split; [congruence|done].
  - congruence.
Qed.

Lemma moves_books v c c' : requests c' = requests c -> moves v c c'.
Proof. intros E r q Hq. exists q. rewrite E. by split_and!; [..|left]. Qed.

Lemma settle_moves v r o c : match o with Resolved res => v = Some (r, res) | Rejected _ => True end -> moves v c (settle r o c).
Proof.
  intros Ho r' q Hq. destruct (decide (r = r')) as [<-|Hne]; [|exists q; rewrite settle_other by done; by split_and!; [..|left]].
  simpl. rewrite lookup_alter, decide_True, Hq by done. simpl. eexists. split; [done|]. destruct (outcome q) eqn:E; [by split_and!; [..|left]|].
  split_and!; [done|]. right. split; [done|]. by exists o.
Qed.

Lemma reject_moves v m c : moves v c (reject_pending m c).
Proof.
  intros r q Hq. assert (H : forall l c, moves v c (foldl (fun c r => settle r (Rejected m) c) c l)).
  { intros l. induction l as [|r' l IH]; intros c'; [apply moves_refl|]. eapply moves_trans; [by apply (settle_moves v r' (Rejected m))|apply IH]. }
  exact (H (pendingRequests c) c r q Hq).
Qed.

Lemma fold_moves {A} v (f : Client -> A -> Client) l c : (forall c x, moves v c (f c x)) -> moves v c (foldl f c l).
Proof. intros Hf. revert c. induction l as [|x l IH]; intros c; [apply moves_refl|]. eapply moves_trans; [apply Hf|apply IH]. Qed.

Lemma cutover_moves v w next path c : moves v c (cutover w next path c).
Proof.
  rewrite cutover_switch. destruct (closed c); [by apply moves_books|]. unfold switch. cbv zeta.
  eapply moves_trans; [|eapply moves_trans; [apply reject_moves|by apply moves_books, announce_reqs]].
  apply moves_books, (fold_books (replay next (S (generation c)))). intros c' id. apply replay_same.
Qed.

Lemma wait_sees_moves v st w c : moves v c (wait_sees st w c).
Proof.
  unfold wait_sees. destruct (waiting c !! w) as [[next path]|]; [|apply moves_refl].
  assert (Hd : moves v c (c <| waiting := delete w (waiting c) |>)) by (by apply moves_books).
  destruct st; try apply moves_refl; (eapply moves_trans; [exact Hd|]); [apply cutover_moves|by apply moves_books..].
Qed.

Lemma publish_moves v st c : moves v c (publishState st c).
Proof. apply moves_books, publish_reqs. Qed.

Lemma down_moves v m c0 c (f : Client -> nat -> Client) l :
  requests c0 = requests c -> (forall c id, same_client c (f c id)) ->
  moves v c (foldl f (reject_pending m c0) l).
Proof.
  intros E Hf. eapply moves_trans; [by apply moves_books|]. eapply moves_trans; [apply reject_moves|]. apply moves_books. by apply fold_books.
Qed.

Lemma step_moves c e :
  reqs_ok c -> moves (match e with RequestSettles r (Resolved v) => Some (r, v) | _ => None end) c (client_step c e).
Proof.
  intros Hr. destruct e as [m ps|m ps|id|t v| | | |next path|r o|p res|s st|w]; cbn [client_step].
  - unfold sendRequest. destruct (closed c); [apply moves_refl|]. destruct (suspended c); [apply moves_refl|].
    intros r q Hq. exists q. simpl. rewrite lookup_insert_ne; [by split_and!; [..|left]|].
    intros <-. assert (nextRequest c < nextRequest c) by (apply (rq_fresh _ Hr); by eexists). lia.
  - unfold subscribe. destruct (closed c); [apply moves_refl|]. cbv zeta. destruct (negb _); cbn [fst]; apply moves_books; [|done].
    match goal with |- context [attachSubscription ?i ?n ?g ?c'] => exact (sr_requests c' _ (same_client_reqs _ _ (attach_same i n g c'))) end.
  - unfold unsubscribe. destruct (records c !! id) as [x|]; [|apply moves_refl]. destruct (cancelled x); [apply moves_refl|]. cbv zeta.
    apply moves_books. by destruct (disposePhysical x).
  - unfold updateTerminalSubscriptionViewport. cbv zeta.
    assert (Hf : moves None c (foldl (fun c id => alter_record id (with_viewport t v) c) c (subscriptions c)))
      by (apply fold_moves; intros c' id; by apply moves_books).
    destruct (negb _); [|done]. eapply moves_trans; [exact Hf|]. by apply moves_books.
  - unfold notifyForeground. destruct (negb _); by apply moves_books.
  - unfold close. destruct (closed c); [apply moves_refl|]. cbv zeta. set (c0 := c <| closed := true |> <| activeStateListener := None |>).
    pose proof (down_moves None "Client closed" c0 c (fun c id => dispose_opt (physical_of id c) c) (subscriptions (reject_pending "Client closed" c0))
      eq_refl (fun c id => dispose_same _ c)) as H1.
    eapply moves_trans; [exact H1|]. eapply moves_trans; [|apply publish_moves]. by apply moves_books.
  - unfold suspendActiveSession. destruct (closed c || suspended c); [apply moves_refl|]. cbv zeta.
    set (c0 := c <| suspended := true |> <| activeStateListener := None |>). set (f := fun c id => alter_record id _ _).
    assert (Hf : forall c id, same_client c (f c id)) by (intros c' id; unfold f; destruct (physical_of id c'); by split).
    pose proof (down_moves None "Client suspended" c0 c f (subscriptions (reject_pending "Client suspended" c0)) eq_refl Hf) as H1.
    eapply moves_trans; [exact H1|]. eapply moves_trans; [|apply publish_moves]. by apply moves_books.
  - unfold migrateTo. cbv zeta. set (c1 := c <| nextWaiter := _ |> <| handed := _ |>).
    assert (H1 : moves None c c1) by (by apply moves_books). eapply moves_trans; [exact H1|].
    destruct (closed c1); [by apply moves_books|]. destruct (decide _); [apply cutover_moves|by apply moves_books].
  - unfold request_settles. destruct (requests c !! r) as [q|]; [|apply moves_refl]. cbv zeta.
    set (c1 := c <| pendingRequests := _ |>). assert (H1 : forall v, moves v c c1) by (intros v; by apply moves_books).
    destruct o as [res|m]; [|eapply moves_trans; [apply H1|]; by apply settle_moves].
    eapply moves_trans; [apply H1|]. destruct (closed c1); [by apply settle_moves|]. destruct (negb _); by apply settle_moves.
  - unfold emission. destruct (physicals c !! p) as [x|]; [|apply moves_refl]. destruct (records c !! for_record x) as [y|]; [|apply moves_refl].
    destruct (_ && _); by apply moves_books.
  - unfold session_enters. cbv zeta. set (c1 := c <| sessionState := _ |>). assert (H1 : moves None c c1) by (by apply moves_books).
    eapply moves_trans; [exact H1|]. eapply moves_trans; [|apply fold_moves; intros c' [w' [next path]]; destruct (next =? s); [apply wait_sees_moves|apply moves_refl]].
    destruct (activeStateListener c1) as [[s' g]|]; [|apply moves_refl]. destruct (_ && _); [apply publish_moves|apply moves_refl].
  - unfold wait_times_out. destruct (waiting c !! w) as [[next path]|]; by apply moves_books.
Qed.

(** ** Runs *)

Section Runs.
Context (s0 : nat) (st0 : ConnectionState) (path0 : MobileConnectionPath).
Definition client_run (es : list Event) : Client := foldl client_step (createStableLogicalRpcClient s0 st0 path0) es.

Lemma run_subs_ok es : subs_ok (client_run es).
Proof.
  apply (fold_pres subs_ok); [apply step_subs_ok|]. split; simpl; [by intros ? []|constructor|by intros ? ?%elem_of_nil| |by intros _ _ ? ?%elem_of_nil|done].
  split; simpl; by intros.
Qed.

Lemma run_reqs_ok es : reqs_ok (client_run es).
Proof.
  apply (fold_pres reqs_ok); [apply step_reqs_ok|]. by apply settled_reqs_ok; [intros ? []| |intros ? ? ?].
Qed.

Lemma run_sess_ok es : possible (createStableLogicalRpcClient s0 st0 path0) es -> sess_ok (client_run es).
Proof.
  unfold client_run. assert (H0 : sess_ok (createStableLogicalRpcClient s0 st0 path0)).
  { split; simpl; try done; try set_solver. intros w [? Hw]. done. }
  revert H0. generalize (createStableLogicalRpcClient s0 st0 path0). induction es as [|e es IH]; intros c Hc Hp; [done|].
  destruct Hp as [He Hp]. apply IH; [by apply step_sess_ok|done].
Qed.

(** C19. The application's subscriptions survive every change of session. Whatever is
    requested, migrated, suspended, lost or closed, while the client is up each of them
    is attached exactly once, to the active session in its current generation; nothing
    else is attached anywhere; and while the client is suspended or closed nothing is. *)
Theorem subscriptions_follow es :
  let c := client_run es in
  (closed c = false -> suspended c = false -> forall id, id ∈ subscriptions c ->
    exists p, physicals c !! p = Some {| on_session := activeSession c; for_record := id; at_generation := generation c; attached := true |}) /\
  (forall p x, physicals c !! p = Some x -> attached x = true ->
    closed c = false /\ suspended c = false /\ on_session x = activeSession c /\ at_generation x = generation c /\ for_record x ∈ subscriptions c /\
    forall p' x', physicals c !! p' = Some x' -> attached x' = true -> for_record x' = for_record x -> p' = p).
Proof.
  cbv zeta. destruct (run_subs_ok es) as [S1 S2 S3 [O1 O2] S5 S6]. set (c := client_run es) in *. clearbody c. split.
  - intros Hcl Hsu id Hid. destruct (S5 Hcl Hsu _ Hid) as (x & p & _ & _ & Hp). by exists p.
  - intros p x Hp Hx. destruct (closed c || suspended c) eqn:Hd; [by destruct (S6 eq_refl (for_record x) _ _ Hp Hx)|].
    apply orb_false_iff in Hd as [Hcl Hsu]. destruct (O1 _ _ Hp Hx) as (Hin & y & Hy & Hd).
    destruct (S5 Hcl Hsu _ Hin) as (y' & p' & Hy' & Hd' & Hp'). assert (p' = p) as -> by congruence.
    assert (x = {| on_session := activeSession c; for_record := for_record x; at_generation := generation c; attached := true |}) as -> by congruence.
    split_and!; try done. simpl. intros p2 x2 H2 Hx2 Hf. destruct (O1 _ _ H2 Hx2) as (_ & y2 & Hy2 & Hd2). rewrite Hf in Hy2. congruence.
Qed.

(** C20. No physical session is left open behind the client. When every replacement is
    a new session, each session it was ever given is closed unless it is the active one
    of a client that is up or a migration still waits for it; the active session of a
    client that is up is not closed; so once the client is closed and no migration
    waits, all are closed. *)
Theorem no_session_leaks es :
  possible (createStableLogicalRpcClient s0 st0 path0) es ->
  let c := client_run es in
  (closed c = false -> suspended c = false -> ~ (activeSession c ∈ closedSessions c)) /\
  (forall s, s ∈ handed c -> ~ (s ∈ closedSessions c) ->
    (s = activeSession c /\ closed c = false /\ suspended c = false) \/ exists w path, waiting c !! w = Some (s, path)) /\
  (closed c = true -> waiting c = ∅ -> handed c = closedSessions c).
Proof.
  intros [S1 S2 S3 S4 S5 S6 S7 S8]%run_sess_ok. cbv zeta. split_and!; [done|intros s Hs Hc; by apply S1|].
  intros Hcl Hw. apply set_eq. intros s. split; [|apply S2]. intros Hs. destruct (decide (s ∈ closedSessions (client_run es))) as [|Hn]; [done|].
  destruct (S1 s Hs Hn) as [(_ & ? & _)|(w & path & Hw')]; [done|congruence|]. by rewrite Hw in Hw'.
Qed.

(** C18. A request made of the stable client is never answered by, nor left hanging on, a
    session that is gone: while it is pending the client is up and the session it was
    sent on is the active one (so a migration, a suspension and a close leave none of
    the earlier ones pending); once it settles it stays as it is; and it is resolved only
    with a response that comes while that session is active. *)
Theorem requests_stay_current es e r q :
  let c := client_run es in
  requests c !! r = Some q ->
  (outcome q = None -> closed c = false /\ suspended c = false /\ sent_on q = activeSession c /\ requestGeneration q = generation c) /\
  exists q', requests (client_step c e) !! r = Some q' /\ sent_on q' = sent_on q /\
    (outcome q <> None -> outcome q' = outcome q) /\
    (forall v, outcome q = None -> outcome q' = Some (Resolved v) -> e = RequestSettles r (Resolved v)).
Proof.
  cbv zeta. intros Hq. pose proof (run_reqs_ok es) as Hr. split.
  - intros Ho. by destruct (rq_current _ Hr _ _ Hq Ho) as (? & ? & ? & ?).
  - destruct (step_moves _ e Hr r q Hq) as (q' & Hq' & Es & Hm). exists q'. split_and!; [done|done| |].
    + intros Ho. by destruct Hm as [Hm|[? _]].
    + intros v Ho Hv. destruct Hm as [Hm|(_ & o & Ho' & Hres)]; [congruence|]. rewrite Hv in Ho'. injection Ho' as <-.
      destruct e as [| | | | | | | |r' [v'|]| | |]; try done. by injection Hres as -> ->.
Qed.
End Runs.

(** A direct session with a subscription and a request, replaced by the relay's. *)
Definition handover : list Event :=
  [SessionEnters 0 Connected; Subscribe "terminal.subscribe" None; SendRequest "status.get" None;
   MigrateTo 1 Relay; SessionEnters 1 Handshaking; SessionEnters 1 Connected].

(** [no_session_leaks] on that run: the direct session is closed. *)
Example no_session_leaks_witness :
  possible (createStableLogicalRpcClient 0 Connecting Lan) handover /\
  ~ (activeSession (client_run 0 Connecting Lan handover) ∈ closedSessions (client_run 0 Connecting Lan handover)).
Proof.
  assert (Hp : possible (createStableLogicalRpcClient 0 Connecting Lan) handover) by (repeat split; vm_compute; congruence).
  split; [exact Hp|]. apply (no_session_leaks 0 Connecting Lan handover Hp); reflexivity.
Defined.

(** [requests_stay_current] on that run: a late answer changes nothing. *)
Example requests_stay_current_witness :
  let c := client_run 0 Connecting Lan handover in
  requests c !! 0%nat = Some {| sent_on := 0; requestGeneration := 1; outcome := Some (Rejected cutover_error) |} /\
  exists q', requests (client_step c (RequestSettles 0 (Resolved JNull))) !! 0%nat = Some q' /\ outcome q' = Some (Rejected cutover_error).
Proof.
  split; [reflexivity|].
  destruct (requests_stay_current 0 Connecting Lan handover (RequestSettles 0 (Resolved JNull)) 0
    {| sent_on := 0; requestGeneration := 1; outcome := Some (Rejected cutover_error) |} eq_refl) as (_ & q' & Hq & _ & Hk & _).
  exists q'. split; [exact Hq|]. apply Hk. discriminate.
Defined.
