(* ===== verification/EndpointSupervisor.v ===== *)
(** * The phone's endpoint supervisor (mobile/src/transport)

    MobileEndpointSupervisor (mobile-endpoint-supervisor.ts, -support.ts), its hysteresis
    (mobile-endpoint-hysteresis.ts), the direct probe (mobile-direct-endpoint-probe.ts)
    and the credential rules (mobile-relay-credential-rotation.ts) decide which physical
    session carries the stable client of LogicalClient.v: the relay when the direct one
    fails, the direct one again when it has proved itself.

    An asynchronous method is cut at its awaits: [operation] is what is left of the one
    that runs, [rotation] of the credential rotation. The outcomes of storage, of the
    director and of the rotation's exchange with the host, the states of sessions,
    timers and the application's calls are the events of a run, each with its time.
    [openRelay] and [openDirect] return a new session; what a session reports when it
    succeeded or failed is a parameter of its number. A listener the stable client
    notifies runs when the call that notified it has returned.

    Facts about this model are in EndpointSupervisorFacts.v. *)

From S2P Require Import Prelude JsMap Json JsText RelayUrls LogicalClient.

Local Open Scope string_scope.
Local Open Scope list_scope.
Local Open Scope Z_scope.

(** ** Hysteresis *)

Record EndpointHysteresisOptions := {
  directSuccessesRequired : Z; directObservationMs : Z; failureCooldownMs : Z; minimumDwellMs : Z }.
Record MobileEndpointHysteresis := {
  consecutiveDirectSuccesses : Z; directObservationStartedAt : option Z; cooldownUntil : Z; lastMigrationAt : Z }.
#[export] Instance eta_MobileEndpointHysteresis : Eta MobileEndpointHysteresis := fun h =>
  Build_MobileEndpointHysteresis (consecutiveDirectSuccesses h) (directObservationStartedAt h) (cooldownUntil h) (lastMigrationAt h).
Implicit Types h : MobileEndpointHysteresis.

Definition new_hysteresis (startedAt : Z) : MobileEndpointHysteresis :=
  {| consecutiveDirectSuccesses := 0; directObservationStartedAt := None; cooldownUntil := 0; lastMigrationAt := startedAt |}.
Definition recordDirectSuccess (o : EndpointHysteresisOptions) (now : Z) h : MobileEndpointHysteresis * bool :=
  if now <? cooldownUntil h then (h, false)
  else
    let h := if consecutiveDirectSuccesses h =? 0 then h <| directObservationStartedAt := Some now |> else h in
    let h := h <| consecutiveDirectSuccesses := consecutiveDirectSuccesses h + 1 |> in
    (h, (directSuccessesRequired o <=? consecutiveDirectSuccesses h) &&
        match directObservationStartedAt h with Some t => directObservationMs o <=? now - t | None => false end &&
        (minimumDwellMs o <=? now - lastMigrationAt h)).
Definition recordDirectFailure (o : EndpointHysteresisOptions) (now : Z) h : MobileEndpointHysteresis :=
  h <| consecutiveDirectSuccesses := 0 |> <| directObservationStartedAt := None |> <| cooldownUntil := now + failureCooldownMs o |>.
Definition recordMigration (now : Z) h : MobileEndpointHysteresis :=
  h <| lastMigrationAt := now |> <| consecutiveDirectSuccesses := 0 |> <| directObservationStartedAt := None |>.
Definition canProbe (now : Z) h : bool := cooldownUntil h <=? now.

Definition DIRECT_PROBE_INTERVAL_MS : Z := 15000.
Definition DIRECT_OBSERVATION_MS : Z := 30000.
Definition MINIMUM_DWELL_MS : Z := 60000.
Definition FAILURE_COOLDOWN_MS : Z := 60000.
Definition LEASE_ROTATION_MARGIN_MS : Z := 30000.
Definition supervisor_options : EndpointHysteresisOptions :=
  {| directSuccessesRequired := 3; directObservationMs := DIRECT_OBSERVATION_MS; failureCooldownMs := FAILURE_COOLDOWN_MS;
     minimumDwellMs := MINIMUM_DWELL_MS |}.

(** ** Credentials *)

Record ResumeCredential := { token : string; hash : string; version : Z; expiresAt : Z }.
#[export] Instance eta_ResumeCredential : Eta ResumeCredential :=
  fun x => Build_ResumeCredential (token x) (hash x) (version x) (expiresAt x).
Record PendingCredential := { pending_token : string; pending_hash : string; pending_reqId : string }.
Record MobileRelayCredentialBundle := {
  current : ResumeCredential; grace : option ResumeCredential; bundle_pending : option PendingCredential }.
#[export] Instance eta_MobileRelayCredentialBundle : Eta MobileRelayCredentialBundle :=
  fun x => Build_MobileRelayCredentialBundle (current x) (grace x) (bundle_pending x).

Inductive AcceptedAs := AsCurrent | AsGrace.
Record DeviceResumeConfirmed := {
  currentVersion : Z; acceptedAs : AcceptedAs; renewed : bool; resumeExpiresAt : Z; graceExpiresAt : option Z }.

Record DeviceCredentialInstalled := {
  installed_reqId : string; authorizationMode : string; installed_version : Z; installed_expiresAt : Z; installed_grace : option Z }.
#[export] Instance DeviceCredentialInstalled_eq_dec : EqDecision DeviceCredentialInstalled.
Proof. solve_decision. Defined.

Definition CREDENTIAL_ROTATION_WINDOW_MS : Z := 7 * 24 * 60 * 60 * 1000.
Definition mobileRelayCredentialNeedsRotation (hashOf : string -> string) (b : MobileRelayCredentialBundle) (now : Z) : bool :=
  let malformedCurrentHash := negb (String.eqb (hash (current b)) (hashOf (token (current b)))) in
  match bundle_pending b with Some _ => true | None => false end || malformedCurrentHash ||
  (expiresAt (current b) - now <=? CREDENTIAL_ROTATION_WINDOW_MS).

(** [graceExpiresAt] counts when it is neither missing nor zero. *)
Definition applyResumeConfirmation (b : MobileRelayCredentialBundle) (usedCredentialVersion : Z) (c : DeviceResumeConfirmed)
    : MobileRelayCredentialBundle :=
  if match acceptedAs c with AsCurrent => true | AsGrace => false end && renewed c &&
     (version (current b) =? usedCredentialVersion) && (currentVersion c =? usedCredentialVersion)
  then b <| current := (current b) <| expiresAt := resumeExpiresAt c |> |>
  else
    match acceptedAs c, grace b, graceExpiresAt c with
    | AsGrace, Some g, Some t =>
        if (version g =? usedCredentialVersion) && negb (t =? 0) then b <| grace := Some (g <| expiresAt := t |>) |> else b
    | _, _, _ => b
    end.

(** The bundle once [installed] is committed: the old credential stays in grace for as
    long as the host says (zero is no grace). *)
Definition rotated_bundle (b : MobileRelayCredentialBundle) (p : PendingCredential) (i : DeviceCredentialInstalled) : MobileRelayCredentialBundle :=
  {| current := {| token := pending_token p; hash := pending_hash p; version := installed_version i; expiresAt := installed_expiresAt i |};
     grace := match installed_grace i with Some t => if t =? 0 then None else Some ((current b) <| expiresAt := t |>) | None => None end;
     bundle_pending := None |}.

(** ** Hosts and their endpoints *)

Record MobileRelayEndpoint := { directorUrl : string; cellUrl : string; assignmentEpoch : Z; relay_hostId : string }.
Inductive ConnectionMode := Automatic | LocalOnly | RelayOnly.
#[export] Instance ConnectionMode_eq_dec : EqDecision ConnectionMode.
Proof. solve_decision. Defined.
Record MobileAccessEndpoint := { endpoint_id : string; endpoint_kind : MobileConnectionPath; endpoint_url : string }.
Record HostProfile := {
  endpoint : string; endpoints : option (list MobileAccessEndpoint); relayHostId : option string;
  relay : option MobileRelayEndpoint; connectionMode : option ConnectionMode }.
#[export] Instance eta_HostProfile : Eta HostProfile :=
  fun x => Build_HostProfile (endpoint x) (endpoints x) (relayHostId x) (relay x) (connectionMode x).

(** What [pairing.getEndpoints] returns; [committed]: the install status, when it says so. *)
Record PairingEndpoints := { endpoints_relay : option MobileRelayEndpoint; committed : option DeviceCredentialInstalled }.

Definition is_relay (e : MobileAccessEndpoint) : bool := bool_decide (endpoint_kind e = Relay).
Definition relay_only (x : HostProfile) : bool := bool_decide (connectionMode x = Some RelayOnly).

Fixpoint unique (seen l : list string) : list string :=
  match l with
  | [] => []
  | x :: l => if existsb (String.eqb x) seen then unique seen l else x :: unique (x :: seen) l
  end.
Definition directEndpointUrls (x : HostProfile) : list string :=
  if relay_only x then []
  else unique [] (endpoint x :: map endpoint_url (js_filter (fun e => negb (is_relay e)) (default [] (endpoints x)))).

Definition octet (l : list Ascii.ascii) : bool := ((1 <=? length l) && (length l <=? 3))%nat && forallb digit_char l.
(** [/^100\.(?:\d{1,3}\.){2}\d{1,3}$/] *)
Definition tailscale_ip (s : string) : bool :=
  match split_char (chr 46) (chars s) with
  | [a; b; c; d] => bool_decide (of_chars a = "100") && octet b && octet c && octet d
  | _ => false
  end.

(** Why a relay session failed: end-to-end authentication, an error of the relay with
    its code, or anything else. *)
Inductive SessionFailure := AuthenticationError | OuterError (code : Z) | OtherError.
Definition isDirectorResolutionFailure (e : SessionFailure) : bool :=
  match e with
  | AuthenticationError => false
  | OuterError code => bool_decide (code ∈ [4409; 4503; 1006])
  | OtherError => true
  end.

Section Supervisor.
(** [new URL], the hash of a token, and what a relay session says after it connected
    ([getResumeConfirmation], [getLeaseExpiresAt]) or failed ([getFailure]). *)
Context `{UrlEnv} (hashOf : string -> string).
Context (resumeConfirmation : nat -> option DeviceResumeConfirmed) (leaseExpiresAt : nat -> option Z) (failure : nat -> SessionFailure).
(** The random credentials drawn for a rotation, and the schemas of its responses. *)
Context (freshPending : nat -> PendingCredential).
Context (parseEndpoints : option json -> option PairingEndpoints) (parseInstalled : option json -> option DeviceCredentialInstalled).

Definition directPathForEndpoint (x : HostProfile) (url : string) : MobileConnectionPath :=
  let configured := js_find (fun e => String.eqb (endpoint_url e) url) (default [] (endpoints x)) in
  if match configured with Some e => bool_decide (endpoint_kind e = Tailscale) | None => false end then Tailscale
  else
    match parse_url url with
    | Some u => if endsWith (hostname u) ".ts.net" || tailscale_ip (hostname u) then Tailscale else Lan
    | None => Lan
    end.

(** The cell's URL is an origin, http or https. *)
Definition relayWebSocketUrl (r : MobileRelayEndpoint) : option string :=
  match parse_url (cellUrl r) with
  | Some u =>
      Some ((if String.eqb (protocol u) "http" then "ws" else "wss") +:+ "://" +:+ RelayUrls.host u +:+
            "/v1/connect/" +:+ encodeURIComponent (relay_hostId r) +:+ search u +:+ RelayUrls.hash u)
  | None => None
  end.

(** The profile [persistRelayHost] saves and returns, or nothing when it throws before. *)
Definition relayHost (x : HostProfile) (r : MobileRelayEndpoint) : option HostProfile :=
  let es :=
    if relay_only x then []
    else js_filter (fun e => negb (is_relay e))
           (default [{| endpoint_id := "direct-primary"; endpoint_kind := Lan; endpoint_url := endpoint x |}] (endpoints x)) in
  match relayWebSocketUrl r with
  | Some url =>
      Some (x <| endpoints := Some (es ++ [{| endpoint_id := "relay-primary"; endpoint_kind := Relay; endpoint_url := url |}]) |>
              <| relayHostId := Some (relay_hostId r) |> <| relay := Some r |>)
  | None => None
  end.

(** ** State *)

(** What is left of [recoverRelay] or [probeDirect]: [rest] is the credentials still to
    try, [first] whether the session is the first one opened with this credential. *)
Inductive Operation :=
  | RecoverMigrating (force : bool) (rest : list ResumeCredential) (c : ResumeCredential) (first : bool) (session w : nat)
  | RecoverWriting (force : bool) (rest : list ResumeCredential) (c : ResumeCredential) (first : bool) (session : nat)
  | RecoverResolving (force : bool) (rest : list ResumeCredential) (c : ResumeCredential)
  | RecoverSaving (force : bool) (rest : list ResumeCredential) (c : ResumeCredential) (resolved : HostProfile)
  | ProbeWaiting (rest : list string) (url : string) (session : nat)
  | ProbeRotating.
(** What is left of [rotateCredentialIfNeeded] and [rotateMobileRelayCredential]: the
    bundle is the one with the pending credential, [request] a request of the stable
    client. *)
Inductive Rotation :=
  | WritingPending (b : MobileRelayCredentialBundle) (p : PendingCredential)
  | AskingStatus (b : MobileRelayCredentialBundle) (p : PendingCredential) (request : nat)
  | Provisioning (b : MobileRelayCredentialBundle) (p : PendingCredential) (request : nat)
  | ConfirmingStatus (b : MobileRelayCredentialBundle) (p : PendingCredential) (i : DeviceCredentialInstalled) (request : nat)
  | WritingRotated (next : MobileRelayCredentialBundle) (r : MobileRelayEndpoint)
  | SavingRotated (updated : HostProfile).
(** A timer calls [probeDirect], or [recoverRelay(true)] after the lease asked for a
    rotation or again. *)
Inductive TimerKind := ProbeTimer | LeaseTimer | RetryTimer.

Record MobileEndpointSupervisor := {
  logical : Client;
  host : HostProfile;
  bundle : option MobileRelayCredentialBundle;
  stopped : bool;
  foreground : bool;
  operationInFlight : bool;
  credentialRotationInFlight : bool;
  relayRotationPending : bool;
  probeTimer : option nat;
  leaseTimer : option nat;
  subscribed : bool;
  hysteresis : MobileEndpointHysteresis;
  starting : bool;  (** [start] awaits [readBundle] *)
  operation : option Operation;
  rotation : option Rotation;
  timers : gmap nat (TimerKind * Z);  (** with the delay each was set with *)
  nextTimer : nat;
  nextSession : nat;
  closedProbes : gset nat;
  drawn : nat;  (** pending credentials drawn so far *)
  stored : option MobileRelayCredentialBundle  (** what secure storage holds *) }.
#[export] Instance eta_MobileEndpointSupervisor : Eta MobileEndpointSupervisor := fun x =>
  Build_MobileEndpointSupervisor (logical x) (host x) (bundle x) (stopped x) (foreground x) (operationInFlight x)
    (credentialRotationInFlight x) (relayRotationPending x) (probeTimer x) (leaseTimer x) (subscribed x) (hysteresis x)
    (starting x) (operation x) (rotation x) (timers x) (nextTimer x) (nextSession x) (closedProbes x) (drawn x) (stored x).
Implicit Types v : MobileEndpointSupervisor.

(** Built on a stable client whose first session is number 0, and started. *)
Definition new_supervisor (now : Z) (x : HostProfile) (kept : option MobileRelayCredentialBundle) (initialState : ConnectionState) (path : MobileConnectionPath) : MobileEndpointSupervisor :=
  {| logical := createStableLogicalRpcClient 0 initialState path; host := x; bundle := None; stopped := false; foreground := true;
     operationInFlight := false; credentialRotationInFlight := false; relayRotationPending := false; probeTimer := None; leaseTimer := None;
     subscribed := false; hysteresis := new_hysteresis now; starting := true; operation := None; rotation := None; timers := ∅; nextTimer := 0;
     nextSession := 1; closedProbes := ∅; drawn := 0; stored := kept |}.

Definition set_timer (k : TimerKind) (delay : Z) v : MobileEndpointSupervisor :=
  v <| timers := <[nextTimer v := (k, delay)]> (timers v) |> <| nextTimer := S (nextTimer v) |>.
Definition clear_timer (t : option nat) v : MobileEndpointSupervisor :=
  match t with Some t => v <| timers := delete t (timers v) |> | None => v end.
Definition clearLeaseTimer v : MobileEndpointSupervisor := (clear_timer (leaseTimer v) v) <| leaseTimer := None |>.
Definition set_lease_timer (k : TimerKind) (delay : Z) v : MobileEndpointSupervisor :=
  (set_timer k delay v) <| leaseTimer := Some (nextTimer v) |>.

Definition on_relay v : bool := bool_decide (activePath (logical v) = Relay).

Definition scheduleDirectProbe (delayMs : Z) v : MobileEndpointSupervisor :=
  if stopped v || negb (foreground v) || relay_only (host v) || negb (on_relay v) || is_some (probeTimer v) then v
  else (set_timer ProbeTimer delayMs v) <| probeTimer := Some (nextTimer v) |>.

Definition scheduleLeaseRotation (now : Z) (session : nat) v : MobileEndpointSupervisor :=
  let v := clearLeaseTimer v in
  match leaseExpiresAt session with
  | Some deadline => if deadline =? 0 then v else set_lease_timer LeaseTimer (Z.max 1000 (deadline - now - LEASE_ROTATION_MARGIN_MS)) v
  | None => v
  end.

(** ** Recovery through the relay *)

(** The [finally] of [recoverRelay]. *)
Definition recover_ends (force : bool) v : MobileEndpointSupervisor :=
  let v := v <| operationInFlight := false |> <| operation := None |> in
  if force && relayRotationPending v && negb (stopped v) && negb (is_some (leaseTimer v)) then set_lease_timer RetryTimer 5000 v else v.

(** [openAndMigrateRelay] up to its first await. A closed client refuses at once: the
    continuation of a failed attempt runs. *)
Inductive Attempt := Waits (v : MobileEndpointSupervisor) | Refused (session : nat) (v : MobileEndpointSupervisor) | NoRelay.
Definition open_relay (force : bool) (rest : list ResumeCredential) (c : ResumeCredential) (first : bool) v : Attempt :=
  match relay (host v), bundle v with
  | Some _, Some _ =>
      let n := nextSession v in
      let '(l, w) := migrateTo n Relay (logical v) in
      let v := v <| nextSession := S n |> <| logical := l |> in
      if closed l then Refused n v else Waits (v <| operation := Some (RecoverMigrating force rest c first n w) |>)
  | _, _ => NoRelay
  end.

(** The loop of [recoverRelay] over the credentials that are left. *)
Fixpoint try_credentials (force : bool) (cs : list ResumeCredential) v : MobileEndpointSupervisor :=
  match cs with
  | [] => recover_ends force v
  | c :: rest =>
      match open_relay force rest c true v with
      | Waits v => v
      | Refused n v =>
          if isDirectorResolutionFailure (failure n) then v <| operation := Some (RecoverResolving force rest c) |> else try_credentials force rest v
      | NoRelay => recover_ends force v
      end
  end.

(** An attempt failed. *)
Definition attempt_fails (force : bool) (rest : list ResumeCredential) (c : ResumeCredential) (first : bool) (session : nat) v : MobileEndpointSupervisor :=
  if first && isDirectorResolutionFailure (failure session) && is_some (relay (host v))
  then v <| operation := Some (RecoverResolving force rest c) |>
  else try_credentials force rest v.

Definition recoverRelay (now : Z) (forceReplacement : bool) v : MobileEndpointSupervisor :=
  match bundle v, relay (host v) with
  | Some b, Some _ =>
      if stopped v || negb (foreground v) || operationInFlight v ||
         (negb forceReplacement && bool_decide (cstate (logical v) = Connected))
      then v
      else
        let cs := js_filter (fun c => now <? expiresAt c) (current b :: match grace b with Some g => [g] | None => [] end) in
        try_credentials forceReplacement cs (v <| operationInFlight := true |>)
  | _, _ => v
  end.

(** ** The rotation of the credential *)

Definition getEndpoints_params (p : PendingCredential) : option json := Some (JObj [("installReqId", JStr (pending_reqId p))]).
Definition provision_params (b : MobileRelayCredentialBundle) (p : PendingCredential) : option json :=
  Some (JObj [("reqId", JStr (pending_reqId p)); ("newResumeTokenHash", JStr (pending_hash p)); ("expectedCurrentHash", JStr (hash (current b)))]).

(** The [finally] of the rotation; a rotation that failed changed nothing in memory. *)
Definition rotation_ends v : MobileEndpointSupervisor := v <| credentialRotationInFlight := false |> <| rotation := None |>.

(** A request of the rotation: the stable client may refuse it at once. *)
Definition rotation_asks (m : string) (ps : option json) (next : nat -> Rotation) v : MobileEndpointSupervisor :=
  let '(l, answer) := sendRequest m ps (logical v) in
  match answer with
  | inr r => v <| logical := l |> <| rotation := Some (next r) |>
  | inl _ => rotation_ends (v <| logical := l |>)
  end.
Definition ask_status (b : MobileRelayCredentialBundle) (p : PendingCredential) v : MobileEndpointSupervisor :=
  rotation_asks "pairing.getEndpoints" (getEndpoints_params p) (AskingStatus b p) v.

Definition rotateCredentialIfNeeded (now : Z) v : MobileEndpointSupervisor :=
  match bundle v with
  | Some b =>
      if stopped v || credentialRotationInFlight v || on_relay v || negb (mobileRelayCredentialNeedsRotation hashOf b now) then v
      else
        let v := v <| credentialRotationInFlight := true |> in
        match bundle_pending b with
        | Some p => ask_status b p v
        | None =>
            let p := freshPending (drawn v) in
            v <| drawn := S (drawn v) |> <| rotation := Some (WritingPending (b <| bundle_pending := Some p |>) p) |>
        end
  | None => v
  end.

(** [!response.ok] throws; the result is parsed. *)
Definition ok_result (o : Outcome) : option (option json) :=
  match o with
  | Resolved response => if truthy (prop "ok" response) then Some (prop "result" response) else None
  | Rejected _ => None
  end.

Definition status_known (b : MobileRelayCredentialBundle) (p : PendingCredential) (e : PairingEndpoints) v : MobileEndpointSupervisor :=
  match endpoints_relay e, committed e with
  | Some r, Some i => v <| rotation := Some (WritingRotated (rotated_bundle b p i) r) |>
  | _, _ => rotation_ends v
  end.

(** The request the rotation waits for has settled. *)
Definition rotation_answered (k : Rotation) (o : Outcome) v : MobileEndpointSupervisor :=
  match k with
  | AskingStatus b p _ =>
      match (ok_result o ≫= parseEndpoints) with
      | Some e =>
          match committed e with
          | Some _ => status_known b p e v
          | None => rotation_asks "pairing.provisionRelay" (provision_params b p) (Provisioning b p) v
          end
      | None => rotation_ends v
      end
  | Provisioning b p _ =>
      match (ok_result o ≫= parseInstalled) with
      | Some i => rotation_asks "pairing.getEndpoints" (getEndpoints_params p) (ConfirmingStatus b p i) v
      | None => rotation_ends v
      end
  | ConfirmingStatus b p i _ =>
      match (ok_result o ≫= parseEndpoints) with
      | Some e => if bool_decide (committed e = Some i) then status_known b p e v else rotation_ends v
      | None => rotation_ends v
      end
  | _ => v
  end.
Definition awaited_request (k : Rotation) : option nat :=
  match k with AskingStatus _ _ r | Provisioning _ _ r | ConfirmingStatus _ _ _ r => Some r | _ => None end.

(** ** What the stable client reports *)

(** The listener [start] adds. *)
Definition on_state (now : Z) v (st : ConnectionState) : MobileEndpointSupervisor :=
  if negb (subscribed v) then v
  else
    match st with
    | Connected =>
        let v := if negb (on_relay v) then rotateCredentialIfNeeded now v else v in
        scheduleDirectProbe DIRECT_PROBE_INTERVAL_MS v
    | Reconnecting | Disconnected | AuthFailed => recoverRelay now false v
    | _ => v
    end.
(** The states published from the log's position [k] on. *)
Definition published (k : nat) (l : Client) : list ConnectionState :=
  omap (fun e => match e with Published st => Some st | _ => None end) (drop k (effects l)).
(** A call of the stable client, and its listener. *)
Definition on_logical (now : Z) (f : Client -> Client) v : MobileEndpointSupervisor :=
  let l := f (logical v) in foldl (on_state now) (v <| logical := l |>) (published (length (effects (logical v))) l).
Definition suspend (now : Z) v : MobileEndpointSupervisor := on_logical now suspendActiveSession v.

(** ** The rest of a recovery *)

Definition attempt_succeeds (now : Z) (force : bool) (session : nat) v : MobileEndpointSupervisor :=
  recover_ends force (scheduleDirectProbe DIRECT_PROBE_INTERVAL_MS (scheduleLeaseRotation now session v)).

(** [migrateTo] resolved. *)
Definition relay_migrated (now : Z) (force : bool) (rest : list ResumeCredential) (c : ResumeCredential) (first : bool) (session : nat) v
    : MobileEndpointSupervisor :=
  let v := if negb (foreground v) then suspend now v else v in
  let v := v <| relayRotationPending := false |> <| hysteresis := recordMigration now (hysteresis v) |> in
  match resumeConfirmation session, bundle v with
  | Some confirmation, Some b =>
      v <| bundle := Some (applyResumeConfirmation b (version c) confirmation) |> <| operation := Some (RecoverWriting force rest c first session) |>
  | _, _ => attempt_succeeds now force session v
  end.

(** The session of the attempt reaches the stable client's [migrateTo]. *)
Definition migration_settles (now : Z) (w : nat) (o : result unit) v : MobileEndpointSupervisor :=
  match operation v with
  | Some (RecoverMigrating force rest c first session w') =>
      if (w =? w')%nat then
        match o with
        | Ok _ => relay_migrated now force rest c first session v
        | Throw _ => attempt_fails force rest c first session v
        end
      else v
  | _ => v
  end.

(** ** The direct probe *)

Definition probe_ends (now : Z) v : MobileEndpointSupervisor :=
  let v := v <| operationInFlight := false |> <| operation := None |> in
  let v := if relayRotationPending v then recoverRelay now true v else v in
  scheduleDirectProbe DIRECT_PROBE_INTERVAL_MS v.

(** [openAuthenticatedDirectEndpoint] on the endpoints that are left. *)
Definition probe_next (now : Z) (urls : list string) v : MobileEndpointSupervisor :=
  match urls with
  | url :: rest => v <| operation := Some (ProbeWaiting rest url (nextSession v)) |> <| nextSession := S (nextSession v) |>
  | [] => probe_ends now (v <| hysteresis := recordDirectFailure supervisor_options now (hysteresis v) |>)
  end.
Definition probeDirect (now : Z) v : MobileEndpointSupervisor :=
  if stopped v || negb (foreground v) || relay_only (host v) || operationInFlight v || negb (canProbe now (hysteresis v))
  then scheduleDirectProbe DIRECT_PROBE_INTERVAL_MS v
  else probe_next now (directEndpointUrls (host v)) (v <| operationInFlight := true |>).

Definition close_probe (session : nat) v : MobileEndpointSupervisor := v <| closedProbes := {[session]} ∪ closedProbes v |>.

(** The probe is promoted: its session is connected, so [migrateTo] does not wait. *)
Definition promote (now : Z) (url : string) (session : nat) v : MobileEndpointSupervisor :=
  if closed (logical v) then probe_ends now (close_probe session (on_logical now (fun l => (migrateTo session (directPathForEndpoint (host v) url) l).1) v))
  else
    let v := on_logical now (fun l => (migrateTo session (directPathForEndpoint (host v) url) l).1) v in
    let v := v <| hysteresis := recordMigration now (hysteresis v) |> in
    let v := (clearLeaseTimer v) <| relayRotationPending := false |> in
    let v' := rotateCredentialIfNeeded now v in
    if negb (credentialRotationInFlight v) && credentialRotationInFlight v'
    then v' <| operation := Some ProbeRotating |> else probe_ends now v'.

Definition probe_sees (now : Z) (session : nat) (st : ConnectionState) v : MobileEndpointSupervisor :=
  match operation v with
  | Some (ProbeWaiting rest url session') =>
      if (session =? session')%nat then
        match st with
        | Connected =>
            let '(hy, ready) := recordDirectSuccess supervisor_options now (hysteresis v) in
            let v := v <| hysteresis := hy |> in
            if ready then promote now url session v else probe_ends now (close_probe session v)
        | Disconnected | AuthFailed => probe_next now rest (close_probe session v)
        | _ => v
        end
      else v
  | _ => v
  end.

(** A rotation the probe awaits is over. *)
Definition after_rotation (now : Z) v : MobileEndpointSupervisor :=
  match operation v, rotation v with Some ProbeRotating, None => probe_ends now v | _, _ => v end.

(** ** Starting, stopping, the foreground *)

Definition start_read (now : Z) (read : bool) v : MobileEndpointSupervisor :=
  if negb (starting v) then v
  else
    let v := v <| starting := false |> <| bundle := if read then stored v else None |> in
    if stopped v || negb (is_some (bundle v)) || negb (is_some (relay (host v))) then v
    else
      let v := v <| subscribed := true |> in
      match cstate (logical v) with
      | Reconnecting | Disconnected | AuthFailed => recoverRelay now false v
      | _ => scheduleDirectProbe DIRECT_PROBE_INTERVAL_MS v
      end.

Definition setForeground (now : Z) (b : bool) v : MobileEndpointSupervisor :=
  let v := v <| foreground := b |> in
  if b then scheduleDirectProbe 0 (recoverRelay now (relayRotationPending v) v)
  else
    let v := if on_relay v then suspend now v else v in
    (clear_timer (probeTimer v) v) <| probeTimer := None |>.

Definition stop v : MobileEndpointSupervisor :=
  let v := v <| stopped := true |> <| subscribed := false |> in
  let v := (clear_timer (probeTimer v) v) <| probeTimer := None |> in
  clearLeaseTimer v.

(** ** Runs *)

Inductive Event :=
  | BundleRead (read : bool)
  | SetForeground (b : bool)
  | Stop
  | TimerFires (t : nat)
  | ProbeTimesOut
  | DirectorResolves (r : option MobileRelayEndpoint)
  | HostSaved (saved : bool)  (** by a recovery *)
  | BundleWritten (written : bool)  (** by a recovery *)
  | RotationWritten (written : bool)
  | RotationSaved (saved : bool)
  | OnClient (e : LogicalClient.Event).  (** the application, or what its sessions do *)

Definition timer_fires (now : Z) (t : nat) v : MobileEndpointSupervisor :=
  match timers v !! t with
  | None => v
  | Some (k, _) =>
      let v := v <| timers := delete t (timers v) |> in
      match k with
      | ProbeTimer => probeDirect now (v <| probeTimer := None |>)
      | LeaseTimer => recoverRelay now true (v <| leaseTimer := None |> <| relayRotationPending := true |>)
      | RetryTimer => recoverRelay now true (v <| leaseTimer := None |>)
      end
  end.

Definition director_resolves (r : option MobileRelayEndpoint) v : MobileEndpointSupervisor :=
  match operation v with
  | Some (RecoverResolving force rest c) =>
      match (r ≫= relayHost (host v)) with
      | Some updated => v <| operation := Some (RecoverSaving force rest c updated) |>
      | None => try_credentials force rest v
      end
  | _ => v
  end.

Definition host_saved (saved : bool) v : MobileEndpointSupervisor :=
  match operation v with
  | Some (RecoverSaving force rest c updated) =>
      if saved then
        match open_relay force rest c false (v <| host := updated |>) with
        | Waits v => v
        | Refused _ v => try_credentials force rest v
        | NoRelay => try_credentials force rest (v <| host := updated |>)
        end
      else try_credentials force rest v
  | _ => v
  end.

Definition bundle_written (now : Z) (written : bool) v : MobileEndpointSupervisor :=
  match operation v with
  | Some (RecoverWriting force rest c first session) =>
      if written then attempt_succeeds now force session (v <| stored := bundle v |>) else attempt_fails force rest c first session v
  | _ => v
  end.

Definition rotation_written (written : bool) v : MobileEndpointSupervisor :=
  match rotation v with
  | Some (WritingPending b p) => if written then ask_status b p (v <| stored := Some b |>) else rotation_ends v
  | Some (WritingRotated next r) =>
      if written then
        let v := v <| stored := Some next |> <| bundle := Some next |> in
        match relayHost (host v) r with
        | Some updated => v <| rotation := Some (SavingRotated updated) |>
        | None => rotation_ends v
        end
      else rotation_ends v
  | _ => v
  end.
Definition rotation_saved (saved : bool) v : MobileEndpointSupervisor :=
  match rotation v with
  | Some (SavingRotated updated) => rotation_ends (if saved then v <| host := updated |> else v)
  | _ => v
  end.

(** What a call of the stable client or its sessions settle for the supervisor, after
    its listener ran: its migration, the probe's session, a request of the rotation. *)
Definition settled_migrations (k : nat) (l : Client) : list (nat * result unit) :=
  omap (fun e => match e with MigrationSettled w o => Some (w, o) | _ => None end) (drop k (effects l)).
Definition rotation_check v : MobileEndpointSupervisor :=
  match rotation v with
  | Some k =>
      match (r ← awaited_request k; q ← requests (logical v) !! r; outcome q) with
      | Some o => rotation_answered k o v
      | None => v
      end
  | None => v
  end.
Definition on_client (now : Z) (e : LogicalClient.Event) v : MobileEndpointSupervisor :=
  let k := length (effects (logical v)) in
  let settled := settled_migrations k (client_step (logical v) e) in
  let v := on_logical now (fun l => client_step l e) v in
  let v := foldl (fun v '(w, o) => migration_settles now w o v) v settled in
  match e with SessionEnters s st => probe_sees now s st v | _ => v end.

Definition supervisor_event (now : Z) (e : Event) v : MobileEndpointSupervisor :=
  match e with
  | BundleRead read => start_read now read v
  | SetForeground b => setForeground now b v
  | Stop => stop v
  | TimerFires t => timer_fires now t v
  | ProbeTimesOut =>
      match operation v with
      | Some (ProbeWaiting rest _ session) => probe_next now rest (close_probe session v)
      | _ => v
      end
  | DirectorResolves r => director_resolves r v
  | HostSaved saved => host_saved saved v
  | BundleWritten written => bundle_written now written v
  | RotationWritten written => rotation_written written v
  | RotationSaved saved => rotation_saved saved v
  | OnClient e => on_client now e v
  end.
(** An event, and the continuations of the promises it settled. *)
Definition supervisor_step v (x : Z * Event) : MobileEndpointSupervisor :=
  after_rotation x.1 (rotation_check (supervisor_event x.1 x.2 v)).

(** Sessions are made by the supervisor alone, and only its own enter states. *)
Definition enabled (e : Event) v : Prop :=
  match e with
  | OnClient (MigrateTo _ _) => False
  | OnClient (SessionEnters s _) => (s < nextSession v)%nat
  | _ => True
  end.
Fixpoint possible v (es : list (Z * Event)) : Prop :=
  match es with [] => True | x :: es => enabled x.2 v /\ possible (supervisor_step v x) es end.
Definition supervisor_run v (es : list (Z * Event)) : MobileEndpointSupervisor := foldl supervisor_step v es.
End Supervisor.
