(* ===== verification/EndpointSupervisorFacts.v ===== *)
(** * The phone's endpoint supervisor: its theorems (about EndpointSupervisor.v)

    One operation at a time drives the stable client, and the migration that waits is
    the operation's own ([wired]); every step of a run keeps it. From it: no relay
    session is held in the background, the direct path is taken back only after the
    dwell time, and a foreground reconnects through the relay. The hysteresis is equal
    to a function of the history of observations. *)

From S2P Require Import Prelude JsMap Json JsText RelayUrls LogicalClient LogicalClientFacts EndpointSupervisor.

Local Open Scope string_scope.
Local Open Scope list_scope.
Local Open Scope Z_scope.

(** ** What the stable client says, and what it keeps *)

Definition state_said (e : Effect) : option ConnectionState := match e with Published st => Some st | _ => None end.
Definition migration_said (e : Effect) : option (nat * result unit) := match e with MigrationSettled w o => Some (w, o) | _ => None end.

(** From [c] to [c'] the log grew by the states [pubs] and the settled migrations [ms]. *)
Definition told (pubs : list ConnectionState) (ms : list (nat * result unit)) (c c' : Client) : Prop :=
  exists new, effects c' = effects c ++ new /\ omap state_said new = pubs /\ omap migration_said new = ms.

Lemma told_refl c c' : effects c' = effects c -> told [] [] c c'.
Proof. intros E. exists []. by rewrite E, app_nil_r. Qed.
Lemma told_trans p1 p2 m1 m2 c1 c2 c3 : told p1 m1 c1 c2 -> told p2 m2 c2 c3 -> told (p1 ++ p2) (m1 ++ m2) c1 c3.
Proof.
  intros (n1 & E1 & <- & <-) (n2 & E2 & <- & <-). exists (n1 ++ n2). rewrite E2, E1, !omap_app, app_assoc. done.
Qed.
Lemma told_emit e c c' : effects c' = effects c ++ [e] -> told (option_list (state_said e)) (option_list (migration_said e)) c c'.
Proof. intros E. exists [e]. split; [done|]. by destruct e. Qed.
Lemma told_quiet e c c' : effects c' = effects c ++ [e] -> state_said e = None -> migration_said e = None -> told [] [] c c'.
Proof. intros E H1 H2. exists [e]. split; [done|]. cbn. by rewrite H1, H2. Qed.
Lemma told_last e pubs ms c c' :
  told pubs ms c c' -> told (pubs ++ option_list (state_said e)) (ms ++ option_list (migration_said e)) c (LogicalClient.emit e c').
Proof. intros Ht. eapply told_trans; [exact Ht|by apply told_emit]. Qed.
Lemma told_close s pubs ms c c' : told pubs ms c c' -> told pubs ms c (close_session s c').
Proof. intros (new & E & <- & <-). exists (new ++ [SessionClose s]). cbn. by rewrite E, !omap_app, !app_nil_r, app_assoc. Qed.
Lemma told_fold (f : Client -> nat -> Client) l c : (forall c id, told [] [] c (f c id)) -> told [] [] c (foldl f c l).
Proof. intros Hf. revert c. induction l as [|id l IH]; intros c; [by apply told_refl|]. exact (told_trans [] [] [] [] _ _ _ (Hf c id) (IH _)). Qed.
Lemma told_published pubs ms c c' :
  told pubs ms c c' -> published (length (effects c)) c' = pubs /\ settled_migrations (length (effects c)) c' = ms.
Proof. intros (new & E & <- & <-). unfold published, settled_migrations. by rewrite E, drop_app_length. Qed.

(** What decides where the client is connected. *)
Definition view c := (activePath c, suspended c, closed c, cstate c, waiting c, nextWaiter c, sessionState c, activeSession c).

Lemma same_view c c' : same_client c c' -> view c' = view c.
Proof. intros []. unfold view. congruence. Qed.

Lemma dispose_told q c : told [] [] c (dispose_opt q c).
Proof. destruct q as [q|]; [by apply (told_emit (PhysicalDispose q))|by apply told_refl]. Qed.
Lemma replay_told next g c id : told [] [] c (replay next g c id).
Proof.
  unfold replay. cbv zeta. refine (told_trans [] [] [] [] _ _ _ _ (dispose_told _ _)).
  unfold attachSubscription. destruct (records c !! id); [by eapply (told_emit (SessionSubscribe _ _ _ _))|by apply told_refl].
Qed.

Lemma reject_quiet m c : view (reject_pending m c) = view c /\ told [] [] c (reject_pending m c).
Proof.
  unfold reject_pending. set (l := pendingRequests c). clearbody l.
  enough (H : view (foldl (fun c r => settle r (Rejected m) c) c l) = view c /\ effects (foldl (fun c r => settle r (Rejected m) c) c l) = effects c).
  { destruct H as [E1 E2]. split; [exact E1|by apply told_refl]. }
  revert c. induction l as [|r l IH]; intros c; [done|]. cbn [foldl]. destruct (IH (settle r (Rejected m) c)) as [E1 E2]. by rewrite E1, E2.
Qed.

(** [close] and [suspendActiveSession] publish [Disconnected] and settle no migration. *)
Definition down_view c := (activePath c, waiting c, nextWaiter c, sessionState c, activeSession c).
Lemma view_down c c' : view c' = view c -> down_view c' = down_view c.
Proof. unfold view, down_view. intros [=]. congruence. Qed.
Lemma publish_told st c : told (if decide (cstate c = st) then [] else [st]) [] c (publishState st c).
Proof. unfold publishState. destruct (decide _); [by apply told_refl|by apply (told_emit (Published st))]. Qed.
Lemma publish_down st c :
  down_view (publishState st c) = down_view c /\ suspended (publishState st c) = suspended c /\ closed (publishState st c) = closed c /\
  cstate (publishState st c) = st.
Proof. unfold publishState. by destruct (decide _). Qed.

(** The common shape of closing and suspending: [c1] is the client with its flag set,
    [f] detaches one subscription. *)
Lemma going_down m (f : Client -> nat -> Client) l s g c1 :
  (forall c id, told [] [] c (f c id)) -> (forall c id, view (f c id) = view c) -> (forall c, view (g c) = view c /\ effects (g c) = effects c) ->
  let c' := publishState Disconnected (close_session s (g (foldl f (reject_pending m c1) l))) in
  down_view c' = down_view c1 /\ suspended c' = suspended c1 /\ closed c' = closed c1 /\ exists pubs, told pubs [] c1 c'.
Proof.
  intros Ht Hv Hg. cbv zeta. set (c2 := g (foldl f (reject_pending m c1) l)).
  assert (Hv2 : view c2 = view c1).
  { unfold c2. rewrite (proj1 (Hg _)). rewrite <-(proj1 (reject_quiet m c1)). generalize (reject_pending m c1).
    induction l as [|id l IH]; intros c; [done|]. cbn [foldl]. by rewrite IH, Hv. }
  assert (Ht2 : told [] [] c1 c2).
  { refine (told_trans [] [] [] [] _ _ _ (proj2 (reject_quiet m c1)) _). refine (told_trans [] [] [] [] _ _ _ (told_fold f l _ Ht) _).
    apply told_refl, Hg. }
  clearbody c2. destruct (publish_down Disconnected (close_session s c2)) as (D1 & D2 & D3 & _). rewrite D1, D2, D3.
  change (down_view (close_session s c2)) with (down_view c2). rewrite (view_down _ _ Hv2). split; [done|].
  unfold view in Hv2. split; [change (suspended c2 = suspended c1); congruence|]. split; [change (closed c2 = closed c1); congruence|].
  eexists. refine (told_trans _ _ [] [] _ _ _ Ht2 _).
  exact (told_trans [] _ [] [] _ _ _ (told_emit (SessionClose s) c2 (close_session s c2) eq_refl) (publish_told _ _)).
Qed.

Lemma close_down c :
  let c' := close c in down_view c' = down_view c /\ suspended c' = suspended c /\ closed c' = true /\ exists pubs, told pubs [] c c'.
Proof.
  cbv zeta. unfold close. destruct (closed c) eqn:Hc; [split_and!; [done..|exists []; by apply told_refl]|]. cbv zeta.
  refine (going_down "Client closed" (fun c id => dispose_opt (physical_of id c) c) _ _ (fun c => c <| subscriptions := [] |>)
    (c <| closed := true |> <| activeStateListener := None |>) _ _ _); [|by intros ? ?; apply same_view, dispose_same|done].
  intros ? ?; apply dispose_told.
Qed.

Lemma suspend_down c :
  let c' := suspendActiveSession c in
  down_view c' = down_view c /\ closed c' = closed c /\ closed c' || suspended c' = true /\ exists pubs, told pubs [] c c'.
Proof.
  cbv zeta. unfold suspendActiveSession. destruct (closed c || suspended c) eqn:Hc; [split_and!; [done..|exists []; by apply told_refl]|].
  cbv zeta.
  destruct (going_down "Client suspended" (fun c id => alter_record id (fun x => x <| disposePhysical := None |>) (dispose_opt (physical_of id c) c))
    (subscriptions (reject_pending "Client suspended" (c <| suspended := true |> <| activeStateListener := None |>))) (activeSession
     (foldl (fun c id => alter_record id (fun x => x <| disposePhysical := None |>) (dispose_opt (physical_of id c) c))
       (reject_pending "Client suspended" (c <| suspended := true |> <| activeStateListener := None |>))
       (subscriptions (reject_pending "Client suspended" (c <| suspended := true |> <| activeStateListener := None |>))))) id
    (c <| suspended := true |> <| activeStateListener := None |>)) as (D1 & D2 & D3 & D4); [|intros c1 id; exact (same_view _ _ (dispose_same (physical_of id c1) c1))|done|].
  { intros c1 id; exact (dispose_told (physical_of id c1) c1). }
  split_and!; [exact D1|exact D3|apply orb_true_iff; right; exact D2|exact D4].
Qed.

(** [cutover]: the replacement is active, or closed with a closed client. *)
Lemma cutover_view w next path c :
  let c' := cutover w next path c in
  waiting c' = waiting c /\ nextWaiter c' = nextWaiter c /\ sessionState c' = sessionState c /\ closed c' = closed c /\
  if closed c then view c' = view c /\ told [] [(w, Throw "Client closed")] c c'
  else activePath c' = path /\ suspended c' = false /\ activeSession c' = next /\ cstate c' = getSessionState next c /\
    told [getSessionState next c] [(w, Ok tt)] c c'.
Proof.
  cbv zeta. rewrite cutover_switch. destruct (closed c) eqn:Hc.
  - split_and!; [done..|]. exact (told_last (MigrationSettled w (Throw "Client closed")) [] [] _ _ (told_close next [] [] c c (told_refl c c eq_refl))).
  - pose proof (fold_same _ (subscriptions c) c (replay_same next (S (generation c)))) as Hm.
    pose proof (told_fold _ (subscriptions c) c (replay_told next (S (generation c)))) as Ht.
    set (c1 := foldl (replay next (S (generation c))) c (subscriptions c)) in *. clearbody c1.
    unfold switch. cbv zeta. set (c2 := bindActiveState _ _ _).
    assert (Hv : waiting c2 = waiting c /\ nextWaiter c2 = nextWaiter c /\ sessionState c2 = sessionState c /\ closed c2 = closed c /\
      activePath c2 = path /\ suspended c2 = false /\ activeSession c2 = next) by (destruct Hm; by split_and!).
    assert (Ht2 : told [] [] c c2) by exact Ht. clearbody c2. destruct (reject_quiet cutover_error c2) as [R1 R2].
    set (c3 := reject_pending cutover_error c2) in *. clearbody c3. unfold view in R1.
    assert (Ht3 : told [] [] c c3) by exact (told_trans [] [] [] [] _ _ _ Ht2 R2).
    assert (Hg : getSessionState next c3 = getSessionState next c) by (unfold getSessionState; f_equal; f_equal; intuition congruence).
    unfold announce. cbv zeta. rewrite <-Hg. split_and!; cbn; try (intuition congruence).
    set (c4 := c3 <| cstate := getSessionState next c3 |>). assert (Ht4 : told [] [] c c4) by exact Ht3.
    exact (told_last (MigrationSettled w (Ok tt)) [_] [] _ _ (told_close (activeSession c) _ _ _ _ (told_last (Published (getSessionState next c3)) [] [] c c4 Ht4))).
Qed.

Lemma fails_view w next m c : view (migration_fails w next m c) = view c /\ told [] [(w, Throw m)] c (migration_fails w next m c).
Proof. split; [done|]. exact (told_last (MigrationSettled w (Throw m)) [] [] _ _ (told_close next [] [] c c (told_refl c c eq_refl))). Qed.

(** A session's new state, as the client's own listener treats it. *)
Definition heard s (st : ConnectionState) c : Client :=
  let c := c <| sessionState := <[s := st]> (sessionState c) |> in
  match activeStateListener c with
  | Some (s', g) => if (s' =? s)%nat && negb (closed c) && (generation c =? g)%nat && (s' =? activeSession c)%nat then publishState st c else c
  | None => c
  end.
Definition heard_view c c' : Prop :=
  activePath c' = activePath c /\ suspended c' = suspended c /\ closed c' = closed c /\ waiting c' = waiting c /\ nextWaiter c' = nextWaiter c.

Lemma heard_spec s st c :
  heard_view c (heard s st c) /\ sessionState (heard s st c) = <[s := st]> (sessionState c) /\ exists pubs, told pubs [] c (heard s st c).
Proof.
  unfold heard. cbv zeta. set (c1 := c <| sessionState := <[s := st]> (sessionState c) |>).
  assert (Hv : heard_view c c1 /\ sessionState c1 = <[s := st]> (sessionState c) /\ effects c1 = effects c) by done. clearbody c1.
  destruct Hv as (Hv & Hs & He). unfold heard_view in *.
  assert (Hno : exists pubs, told pubs [] c c1) by (exists []; by apply told_refl).
  destruct (activeStateListener c1) as [[s' g]|]; [|done]. destruct (_ && _); [|done].
  destruct (publish_down st c1) as (D1 & D2 & D3 & _). unfold down_view in D1. split; [intuition congruence|]. split; [congruence|].
  eexists. exact (told_trans [] _ [] [] _ _ _ (told_refl c c1 He) (publish_told st c1)).
Qed.

Lemma session_enters_heard s st c : jm_entries (waiting c) = [] -> session_enters s st c = heard s st c.
Proof.
  intros Hw. change (session_enters s st c) with (foldl (fun c '(w, (next, _)) => if (next =? s)%nat then wait_sees st w c else c) (heard s st c) (jm_entries (waiting (heard s st c)))).
  destruct (heard_spec s st c) as ((_ & _ & _ & E & _) & _). by rewrite E, Hw.
Qed.
Lemma session_enters_waited s st c w n path :
  jm_entries (waiting c) = [(w, (n, path))] ->
  session_enters s st c = if (n =? s)%nat then wait_sees st w (heard s st c) else heard s st c.
Proof.
  intros Hw. change (session_enters s st c) with (foldl (fun c '(w, (next, _)) => if (next =? s)%nat then wait_sees st w c else c) (heard s st c) (jm_entries (waiting (heard s st c)))).
  destruct (heard_spec s st c) as ((_ & _ & _ & E & _) & _). by rewrite E, Hw.
Qed.

(** A map with one entry. *)
Section OneEntry.
Context {K V : Type} `{EqDecision K}.
Implicit Types (m : jsmap K V).
Lemma one_lookup m w x : jm_entries m = [(w, x)] -> m !! w = Some x.
Proof. destruct m as [l]. unfold lookup, jm_lookup. simpl. intros ->. simpl. by case_decide. Qed.
Lemma one_lookup_Some m w x w' x' : jm_entries m = [(w, x)] -> m !! w' = Some x' -> w' = w /\ x' = x.
Proof. destruct m as [l]. unfold lookup, jm_lookup. simpl. intros ->. simpl. case_decide; [|done]. by intros [= ->]. Qed.
Lemma one_delete m w x : jm_entries m = [(w, x)] -> jm_entries (delete w m) = [].
Proof. destruct m as [l]. unfold delete, jm_delete. simpl. intros ->. simpl. by case_decide. Qed.
Lemma none_insert m w x : jm_entries m = [] -> jm_entries (<[w := x]> m) = [(w, x)].
Proof. destruct m as [l]. simpl. by intros ->. Qed.
Lemma none_lookup m w : jm_entries m = [] -> m !! w = None.
Proof. destruct m as [l]. unfold lookup, jm_lookup. simpl. by intros ->. Qed.
End OneEntry.

(** ** One operation, and its migration *)

Definition migration_of (o : option Operation) : list (nat * (nat * MobileConnectionPath)) :=
  match o with Some (RecoverMigrating _ _ _ _ n w) => [(w, (n, Relay))] | _ => [] end.
(** No relay session is held: what a phone in the background must satisfy. *)
Definition released c : Prop := activePath c = Relay -> closed c || suspended c = true.

Record wired (v : MobileEndpointSupervisor) : Prop := {
  wi_flag : operationInFlight v = is_some (operation v);
  wi_wait : jm_entries (waiting (logical v)) = migration_of (operation v);
  wi_fresh : forall s st, sessionState (logical v) !! s = Some st -> (s < nextSession v)%nat;
  wi_back : foreground v = false -> released (logical v) }.

(** What an operation may do to the active path at time [now]: each change is a recorded
    migration, and the relay is left only after the dwell time. *)
Record paced (now : Z) (v v' : MobileEndpointSupervisor) : Prop := {
  pc_last : lastMigrationAt (hysteresis v') = lastMigrationAt (hysteresis v) \/ lastMigrationAt (hysteresis v') = now;
  pc_moved : activePath (logical v') <> activePath (logical v) -> lastMigrationAt (hysteresis v') = now;
  pc_dwell : activePath (logical v) = Relay -> activePath (logical v') <> Relay -> MINIMUM_DWELL_MS <= now - lastMigrationAt (hysteresis v) }.

Definition link (v : MobileEndpointSupervisor) := (view (logical v), operation v, operationInFlight v, foreground v, nextSession v, hysteresis v).

Lemma paced_still now v v' :
  lastMigrationAt (hysteresis v') = lastMigrationAt (hysteresis v) -> activePath (logical v') = activePath (logical v) -> paced now v v'.
Proof. intros E1 E2. split; [by left|by rewrite E2|by rewrite E2]. Qed.
Lemma paced_trans now v1 v2 v3 : paced now v1 v2 -> paced now v2 v3 -> paced now v1 v3.
Proof.
  intros [L1 M1 D1] [L2 M2 D2]. split.
  - destruct L2 as [->|]; [done|by right].
  - intros Hne. destruct (decide (activePath (logical v3) = activePath (logical v2))) as [E|]; [|auto].
    destruct L2 as [->|]; [|done]. apply M1. congruence.
  - intros H1 H3. destruct (decide (activePath (logical v2) = Relay)) as [E|]; [|auto].
    specialize (D2 E H3). destruct L1 as [<-|L1]; [done|]. rewrite L1 in D2. unfold MINIMUM_DWELL_MS in D2. lia.
Qed.

Lemma link_still now v v' : link v' = link v -> paced now v v'.
Proof. unfold link, view. intros [=]. apply paced_still; congruence. Qed.
Lemma link_wired v v' : link v' = link v -> wired v -> wired v'.
Proof.
  unfold link, view. intros [=] [W1 W2 W3 W4]. split; unfold released in *; try congruence.
  - intros s st. replace (nextSession v') with (nextSession v) by congruence.
    replace (sessionState (logical v')) with (sessionState (logical v)) by congruence. apply W3.
  - intros Hf Hp. replace (closed (logical v')) with (closed (logical v)) by congruence.
    replace (suspended (logical v')) with (suspended (logical v)) by congruence. apply W4; congruence.
Qed.

(** What an operation at [now] keeps. *)
Definition keeps (now : Z) (v v' : MobileEndpointSupervisor) : Prop := wired v' /\ paced now v v'.
Lemma keeps_after now v1 v2 v3 : paced now v1 v2 -> keeps now v2 v3 -> keeps now v1 v3.
Proof. intros P1 [W2 P2]. split; [done|by eapply paced_trans]. Qed.
Lemma link_keeps now v v' : wired v -> link v' = link v -> keeps now v v'.
Proof. intros Hw E. split; [by eapply link_wired|by apply link_still]. Qed.

(** *** Timers and the rotation leave the link alone *)

Lemma clear_timer_link t v : link (clear_timer t v) = link v.
Proof. by destruct t. Qed.
Lemma scheduleDirectProbe_link d v : link (scheduleDirectProbe d v) = link v.
Proof. unfold scheduleDirectProbe. by destruct (_ || _). Qed.

Section Supervisor.
Context `{Henv : UrlEnv} (hashOf : string -> string).
Context (resumeConfirmation : nat -> option DeviceResumeConfirmed) (leaseExpiresAt : nat -> option Z) (failure : nat -> SessionFailure).
Context (freshPending : nat -> PendingCredential).
Context (parseEndpoints : option json -> option PairingEndpoints) (parseInstalled : option json -> option DeviceCredentialInstalled).
Implicit Types v : MobileEndpointSupervisor.

Local Notation scheduleLeaseRotation := (scheduleLeaseRotation leaseExpiresAt).
Local Notation try_credentials := (try_credentials failure).
Local Notation attempt_fails := (attempt_fails failure).
Local Notation recoverRelay := (recoverRelay failure).
Local Notation rotateCredentialIfNeeded := (rotateCredentialIfNeeded hashOf freshPending).
Local Notation rotation_answered := (rotation_answered parseEndpoints parseInstalled).
Local Notation on_state := (on_state hashOf failure freshPending).
Local Notation on_logical := (on_logical hashOf failure freshPending).
Local Notation suspend := (suspend hashOf failure freshPending).
Local Notation attempt_succeeds := (attempt_succeeds leaseExpiresAt).
Local Notation relay_migrated := (relay_migrated hashOf resumeConfirmation leaseExpiresAt failure freshPending).
Local Notation migration_settles := (migration_settles hashOf resumeConfirmation leaseExpiresAt failure freshPending).
Local Notation probe_ends := (probe_ends failure).
Local Notation probe_next := (probe_next failure).
Local Notation probeDirect := (probeDirect failure).
Local Notation promote := (promote hashOf failure freshPending).
Local Notation probe_sees := (probe_sees hashOf failure freshPending).
Local Notation after_rotation := (after_rotation failure).
Local Notation start_read := (start_read failure).
Local Notation setForeground := (setForeground hashOf failure freshPending).
Local Notation timer_fires := (timer_fires failure).
Local Notation director_resolves := (director_resolves failure).
Local Notation host_saved := (host_saved failure).
Local Notation bundle_written := (bundle_written leaseExpiresAt failure).
Local Notation rotation_check := (rotation_check parseEndpoints parseInstalled).
Local Notation on_client := (on_client hashOf resumeConfirmation leaseExpiresAt failure freshPending).
Local Notation supervisor_event := (supervisor_event hashOf resumeConfirmation leaseExpiresAt failure freshPending).
Local Notation supervisor_step := (supervisor_step hashOf resumeConfirmation leaseExpiresAt failure freshPending parseEndpoints parseInstalled).
Local Notation possible := (possible hashOf resumeConfirmation leaseExpiresAt failure freshPending parseEndpoints parseInstalled).

Lemma scheduleLeaseRotation_link now n v : link (scheduleLeaseRotation now n v) = link v.
Proof. unfold EndpointSupervisor.scheduleLeaseRotation, clearLeaseTimer. cbv zeta. destruct (leaseExpiresAt n) as [t|]; [destruct (t =? 0)|]; by destruct (leaseTimer v). Qed.
Lemma sendRequest_view m ps c : view (sendRequest m ps c).1 = view c /\ effects (sendRequest m ps c).1 = effects c ++ match (sendRequest m ps c).2 with inr r => [SessionSend (activeSession c) r m ps] | inl _ => [] end.
Proof. unfold sendRequest. destruct (closed c); [by rewrite app_nil_r|]. destruct (suspended c); [by rewrite app_nil_r|done]. Qed.
Lemma rotation_asks_link m ps k v : link (rotation_asks m ps k v) = link v.
Proof.
  unfold rotation_asks. destruct (sendRequest m ps (logical v)) as [l a] eqn:E. pose proof (proj1 (sendRequest_view m ps (logical v))) as Hv.
  rewrite E in Hv. cbn [fst] in Hv. destruct a; unfold link; cbn; by rewrite Hv.
Qed.
Lemma rotateCredentialIfNeeded_link now v : link (rotateCredentialIfNeeded now v) = link v.
Proof.
  unfold EndpointSupervisor.rotateCredentialIfNeeded. destruct (bundle v); [|done]. destruct (_ || _); [done|]. cbv zeta.
  destruct (bundle_pending _); [by etransitivity; [apply rotation_asks_link|]|done].
Qed.
Lemma status_known_link b p e v : link (status_known b p e v) = link v.
Proof. unfold status_known. destruct (endpoints_relay e), (committed e); done. Qed.
Lemma rotation_answered_link k o v : link (rotation_answered k o v) = link v.
Proof.
  unfold EndpointSupervisor.rotation_answered. destruct k; try done.
  - destruct (ok_result o ≫= parseEndpoints) as [e|]; [|done]. destruct (committed e); [apply status_known_link|apply rotation_asks_link].
  - destruct (ok_result o ≫= parseInstalled); [apply rotation_asks_link|done].
  - destruct (ok_result o ≫= parseEndpoints); [|done]. destruct (bool_decide _); [apply status_known_link|done].
Qed.
Lemma rotation_check_link v : link (rotation_check v) = link v.
Proof. unfold EndpointSupervisor.rotation_check. destruct (rotation v); [|done]. destruct (_ ≫= _); [apply rotation_answered_link|done]. Qed.
Lemma rotation_written_link b v : link (rotation_written b v) = link v.
Proof.
  unfold rotation_written. destruct (rotation v) as [[]|]; try done; destruct b; try done; [by etransitivity; [apply rotation_asks_link|]|].
  cbv zeta. by destruct (relayHost _ _).
Qed.
Lemma rotation_saved_link b v : link (rotation_saved b v) = link v.
Proof. unfold rotation_saved. destruct (rotation v) as [[]|]; try done. by destruct b. Qed.
Lemma stop_link v : link (stop v) = link v.
Proof. unfold stop, clearLeaseTimer. cbv zeta. cbn. destruct (probeTimer v); cbn; by destruct (leaseTimer v). Qed.

(** *** A recovery starts *)

(** The state in which the attempts begin: the flag is set, nothing waits. *)
Record idle v : Prop := {
  id_flag : operationInFlight v = true;
  id_wait : jm_entries (waiting (logical v)) = [];
  id_fresh : forall s st, sessionState (logical v) !! s = Some st -> (s < nextSession v)%nat;
  id_back : foreground v = false -> released (logical v) }.

Lemma recover_ends_keeps now force v : idle v -> keeps now v (recover_ends force v).
Proof.
  intros [I1 I2 I3 I4]. unfold recover_ends. cbv zeta.
  set (v1 := v <| operationInFlight := false |> <| operation := None |>).
  assert (Hw : wired v1) by (by split). assert (Hp : paced now v v1) by (by apply paced_still).
  eapply keeps_after; [exact Hp|]. apply link_keeps; [done|]. by destruct (_ && _).
Qed.

Lemma open_relay_keeps now force rest c first v :
  idle v ->
  match open_relay force rest c first v with
  | Waits v' => keeps now v v'
  | Refused _ v' => idle v' /\ paced now v v' /\ (forall o, migration_of (Some o) = [] -> wired (v' <| operation := Some o |>))
  | NoRelay => True
  end.
Proof.
  intros [I1 I2 I3 I4]. unfold open_relay. destruct (relay (host v)); [|done]. destruct (bundle v); [|done]. cbv zeta.
  assert (Hn : getSessionState (nextSession v) (logical v) = Disconnected).
  { unfold getSessionState. destruct (sessionState (logical v) !! nextSession v) eqn:E; [|done]. apply I3 in E. lia. }
  unfold migrateTo. cbv zeta. match goal with |- context [if closed ?c then _ else _] => change (closed c) with (closed (logical v)) end.
  match goal with |- context [getSessionState _ ?c] => change (getSessionState (nextSession v) c) with (getSessionState (nextSession v) (logical v)) end.
  rewrite Hn. destruct (closed (logical v)) eqn:Hc.
  - cbn [fst snd]. match goal with |- context [if ?b then _ else _] => change b with (closed (logical v)); rewrite Hc end.
    split_and!; [|by apply paced_still|].
    + split; [done|done| |]; cbn; [intros s st E; specialize (I3 _ _ E); lia|]. intros Hf Hp. cbn. by rewrite Hc.
    + intros o Ho. split; [done|cbn; etransitivity; [exact I2|symmetry; exact Ho]| |]; cbn; [intros s st E; specialize (I3 _ _ E); lia|]. intros Hf Hp. cbn. by rewrite Hc.
  - rewrite decide_False by done.
    match goal with |- context [if ?b then _ else _] => change b with (closed (logical v)); rewrite Hc end.
    split; [|by apply paced_still]. split; [done|by apply none_insert| |].
    + cbn. intros s st E. specialize (I3 _ _ E). lia.
    + intros Hf. exact (I4 Hf).
Qed.

Lemma try_keeps now force cs v : idle v -> keeps now v (try_credentials force cs v).
Proof.
  revert v. induction cs as [|c rest IH]; intros v Hi; cbn [EndpointSupervisor.try_credentials]; [by apply recover_ends_keeps|].
  pose proof (open_relay_keeps now force rest c true v Hi) as Ho. destruct (open_relay force rest c true v) as [v'|n v'|]; [done| |by apply recover_ends_keeps].
  destruct Ho as (Hi' & Hp & Ho). destruct (isDirectorResolutionFailure (failure n)).
  - split; [by apply Ho|]. eapply paced_trans; [exact Hp|by apply paced_still].
  - eapply keeps_after; [exact Hp|by apply IH].
Qed.

Lemma attempt_fails_keeps now force rest c first n v : idle v -> keeps now v (attempt_fails force rest c first n v).
Proof.
  intros Hi. unfold EndpointSupervisor.attempt_fails. destruct (_ && _); [|by apply try_keeps].
  destruct Hi. split; [by split|by apply paced_still].
Qed.

Lemma recoverRelay_keeps now t force v : wired v -> keeps now v (recoverRelay t force v).
Proof.
  intros Hw. unfold EndpointSupervisor.recoverRelay. destruct (bundle v); [|by apply link_keeps]. destruct (relay (host v)); [|by apply link_keeps].
  destruct (_ || _) eqn:Hg; [by apply link_keeps|]. cbv zeta. bool_to_prop.
  destruct Hw as [W1 W2 W3 W4]. match goal with H : operationInFlight v = false |- _ => rewrite H in W1 end.
  eapply keeps_after; [|apply try_keeps]; [by apply paced_still|]. split; [done| |done|done]. cbn. rewrite W2. by destruct (operation v).
Qed.
(** While an operation is in flight, or in the background, no recovery starts. *)
Lemma recoverRelay_busy t force v : operationInFlight v = true \/ foreground v = false -> recoverRelay t force v = v.
Proof.
  intros Hb. unfold EndpointSupervisor.recoverRelay. destruct (bundle v); [|done]. destruct (relay (host v)); [|done].
  destruct Hb as [-> | ->]; by rewrite ?orb_true_r.
Qed.

(** *** The listener *)

Lemma on_state_keeps now t v st : wired v -> keeps now v (on_state t v st).
Proof.
  intros Hw. unfold EndpointSupervisor.on_state. destruct (subscribed v); cbn [negb]; [|by apply link_keeps].
  destruct st; try (by apply link_keeps); try (by apply recoverRelay_keeps).
  apply link_keeps; [done|]. rewrite scheduleDirectProbe_link. destruct (negb (on_relay v)); [apply rotateCredentialIfNeeded_link|done].
Qed.
Lemma on_state_busy t v st : operationInFlight v = true \/ foreground v = false -> link (on_state t v st) = link v.
Proof.
  intros Hb. unfold EndpointSupervisor.on_state. destruct (subscribed v); cbn [negb]; [|done].
  destruct st; try done; try (by rewrite recoverRelay_busy).
  rewrite scheduleDirectProbe_link. destruct (negb (on_relay v)); [apply rotateCredentialIfNeeded_link|done].
Qed.
Lemma on_states_keep now t l v : wired v -> keeps now v (foldl (on_state t) v l).
Proof.
  revert v. induction l as [|st l IH]; intros v Hw; cbn [foldl]; [by apply link_keeps|].
  destruct (on_state_keeps now t v st Hw) as [Hw' Hp]. eapply keeps_after; [exact Hp|by apply IH].
Qed.
Lemma link_busy v v' : link v' = link v -> operationInFlight v = true \/ foreground v = false -> operationInFlight v' = true \/ foreground v' = false.
Proof. unfold link. intros [=]. intuition congruence. Qed.
Lemma on_states_busy t l v : operationInFlight v = true \/ foreground v = false -> link (foldl (on_state t) v l) = link v.
Proof.
  revert v. induction l as [|st l IH]; intros v Hb; cbn [foldl]; [done|]. pose proof (on_state_busy t v st Hb) as E.
  rewrite IH; [done|by eapply link_busy].
Qed.

Lemma on_logical_told t f v pubs ms :
  told pubs ms (logical v) (f (logical v)) -> on_logical t f v = foldl (on_state t) (v <| logical := f (logical v) |>) pubs.
Proof. intros Ht%told_published. unfold EndpointSupervisor.on_logical. cbv zeta. by rewrite (proj1 Ht). Qed.

(** *** Suspending *)

Lemma suspend_link t v : foreground v = false -> link (suspend t v) = link (v <| logical := suspendActiveSession (logical v) |>).
Proof.
  intros Hf. destruct (suspend_down (logical v)) as (_ & _ & _ & pubs & Ht). unfold EndpointSupervisor.suspend.
  rewrite (on_logical_told _ _ _ _ _ Ht). apply on_states_busy. by right.
Qed.
(** A call that keeps the path, the waits and the sessions, and only takes the session
    down. *)
Lemma down_keeps now t f v :
  (forall c, let c' := f c in down_view c' = down_view c /\ (closed c || suspended c = true -> closed c' || suspended c' = true) /\ exists pubs, told pubs [] c c') ->
  wired v -> keeps now v (on_logical t f v).
Proof.
  intros Hf [W1 W2 W3 W4]. destruct (Hf (logical v)) as (Hv & Hd & pubs & Ht). rewrite (on_logical_told _ _ _ _ _ Ht).
  unfold down_view in Hv. injection Hv as E1 E2 E3 E4 E5. eapply keeps_after; [|apply on_states_keep].
  - by apply paced_still.
  - split; [done|by cbn; rewrite E2|cbn; by rewrite E4|]. cbn. intros Hb Hr. rewrite E1 in Hr. apply Hd. by apply W4.
Qed.
Lemma suspend_keeps now t v : wired v -> keeps now v (suspend t v).
Proof.
  apply down_keeps. intros c. destruct (suspend_down c) as (H1 & H2 & H3 & H4). by split_and!.
Qed.

(** *** The relay is taken *)

Lemma idle_link v v' : link v' = link v -> idle v -> idle v'.
Proof.
  unfold link, view. intros [=] [I1 I2 I3 I4]. split; unfold released in *; try congruence.
  - intros s st. replace (nextSession v') with (nextSession v) by congruence.
    replace (sessionState (logical v')) with (sessionState (logical v)) by congruence. apply I3.
  - intros Hf Hp. replace (closed (logical v')) with (closed (logical v)) by congruence.
    replace (suspended (logical v')) with (suspended (logical v)) by congruence. apply I4; congruence.
Qed.
Lemma idle_of_wired v : wired v -> migration_of (operation v) = [] -> operationInFlight v = true -> idle v.
Proof. intros [W1 W2 W3 W4] Hm Hf. split; [done|congruence|done|done]. Qed.

Lemma attempt_succeeds_keeps now t force n v : idle v -> keeps now v (attempt_succeeds t force n v).
Proof.
  intros Hi. unfold EndpointSupervisor.attempt_succeeds.
  set (v1 := scheduleDirectProbe DIRECT_PROBE_INTERVAL_MS (scheduleLeaseRotation t n v)).
  assert (E : link v1 = link v) by (unfold v1; by rewrite scheduleDirectProbe_link, scheduleLeaseRotation_link).
  eapply keeps_after; [by apply link_still|]. apply recover_ends_keeps. by eapply idle_link.
Qed.

(** After the cutover, or with a closed client: [v0] is the supervisor before it. *)
Lemma relay_migrated_keeps now force rest c first n v v0 :
  operationInFlight v = true -> jm_entries (waiting (logical v)) = [] ->
  (forall s st, sessionState (logical v) !! s = Some st -> (s < nextSession v)%nat) ->
  (activePath (logical v0) = Relay -> activePath (logical v) = Relay) ->
  keeps now v0 (relay_migrated now force rest c first n v).
Proof.
  intros Hf Hw Hs Hp. unfold EndpointSupervisor.relay_migrated. cbv zeta.
  set (v1 := if negb (foreground v) then suspend now v else v).
  assert (Hi : idle v1 /\ activePath (logical v1) = activePath (logical v)).
  { unfold v1. destruct (foreground v) eqn:Hfg; cbn [negb]; [split; [split; try done; congruence|done]|].
    pose proof (suspend_link now v Hfg) as E. destruct (suspend_down (logical v)) as (D1 & _ & D3 & _). unfold down_view in D1.
    split; [|unfold link, view in E; cbn in E; congruence].
    apply (idle_link _ _ E). injection D1 as D1 D2 D4 D5 D6. split; cbn; [done|by rewrite D2|by rewrite D5|]. by intros _ _. }
  clearbody v1. destruct Hi as [Hi Hp1].
  set (v2 := v1 <| relayRotationPending := false |> <| hysteresis := recordMigration now (hysteresis v1) |>).
  assert (Hi2 : idle v2) by (destruct Hi; by split).
  assert (Hp2 : paced now v0 v2).
  { split; [by right|done|]. cbn. rewrite Hp1. intros Hr Hne. exfalso. by apply Hne, Hp. }
  clearbody v2. destruct (resumeConfirmation n); [|by eapply keeps_after; [exact Hp2|apply attempt_succeeds_keeps]].
  destruct (bundle v2); [|by eapply keeps_after; [exact Hp2|apply attempt_succeeds_keeps]].
  split; [destruct Hi2; by split|]. eapply paced_trans; [exact Hp2|by apply paced_still].
Qed.

(** *** The probe *)

Lemma probe_ends_keeps now v : idle v -> keeps now v (probe_ends now v).
Proof.
  intros [I1 I2 I3 I4]. unfold EndpointSupervisor.probe_ends. cbv zeta.
  set (v1 := v <| operationInFlight := false |> <| operation := None |>).
  assert (Hw : wired v1) by (by split). assert (Hp : paced now v v1) by (by apply paced_still).
  eapply keeps_after; [exact Hp|]. clearbody v1. set (v2 := if relayRotationPending v1 then recoverRelay now true v1 else v1).
  assert (H2 : keeps now v1 v2) by (unfold v2; destruct (relayRotationPending v1); [by apply recoverRelay_keeps|by apply link_keeps]).
  destruct H2 as [W2 P2]. eapply keeps_after; [exact P2|]. apply link_keeps; [done|apply scheduleDirectProbe_link].
Qed.
Lemma probe_next_keeps now urls v : idle v -> keeps now v (probe_next now urls v).
Proof.
  intros Hi. unfold EndpointSupervisor.probe_next. destruct urls as [|url rest].
  - eapply keeps_after; [|apply probe_ends_keeps]; [by apply paced_still|]. destruct Hi; by split.
  - destruct Hi as [I1 I2 I3 I4]. split; [|by apply paced_still]. split; [done|done| |done]. cbn. intros s st E. specialize (I3 _ _ E). lia.
Qed.
Lemma probeDirect_keeps now v : wired v -> keeps now v (probeDirect now v).
Proof.
  intros Hw. unfold EndpointSupervisor.probeDirect. destruct (_ || _) eqn:Hg; [apply link_keeps; [done|apply scheduleDirectProbe_link]|].
  bool_to_prop. destruct Hw as [W1 W2 W3 W4]. eapply keeps_after; [|apply probe_next_keeps]; [by apply paced_still|].
  split; [done| |done|done]. cbn. rewrite W2. destruct (operation v); [|done]. cbn in W1. congruence.
Qed.

Lemma directPathForEndpoint_direct x url : directPathForEndpoint x url <> Relay.
Proof. unfold directPathForEndpoint. cbv zeta. destruct (match js_find _ _ with Some _ => _ | None => _ end); [done|]. destruct (parse_url url); [|done]. by destruct (_ || _). Qed.

(** [migrateTo] to a session that is connected already. *)
Lemma migrateTo_connected n path c :
  closed c = false -> getSessionState n c = Connected -> exists c1, view c1 = (activePath c, suspended c, false, cstate c, waiting c, S (nextWaiter c), sessionState c, activeSession c) /\
    effects c1 = effects c /\ (migrateTo n path c).1 = cutover (nextWaiter c) n path c1.
Proof.
  intros Hc Hn. unfold migrateTo. cbv zeta.
  match goal with |- context [if closed ?c' then _ else _] => change (closed c') with (closed c) end. rewrite Hc.
  match goal with |- context [getSessionState n ?c'] => change (getSessionState n c') with (getSessionState n c) end. rewrite Hn, decide_True by done.
  eexists. split; [|split; [|done]]; [unfold view; cbn; congruence|done].
Qed.
Lemma migrateTo_closed n path c : closed c = true -> exists w m, view (migrateTo n path c).1 = (activePath c, suspended c, true, cstate c, waiting c, S (nextWaiter c), sessionState c, activeSession c) /\
    told [] [(w, Throw m)] c (migrateTo n path c).1.
Proof.
  intros Hc. unfold migrateTo. cbv zeta.
  match goal with |- context [if closed ?c' then _ else _] => change (closed c') with (closed c) end. rewrite Hc. cbn [fst].
  match goal with |- context [migration_fails ?w ?n ?m ?c'] => exists w, m; destruct (fails_view w n m c') as [Hv Ht]; set (c1 := c') in * end.
  split; [rewrite Hv; unfold view; cbn; congruence|]. exact (told_trans [] [] [] [_] c c1 _ (told_refl c c1 eq_refl) Ht).
Qed.

Lemma promote_keeps now url n v v0 :
  idle v -> getSessionState n (logical v) = Connected -> activePath (logical v) = activePath (logical v0) ->
  lastMigrationAt (hysteresis v) = lastMigrationAt (hysteresis v0) -> MINIMUM_DWELL_MS <= now - lastMigrationAt (hysteresis v) ->
  keeps now v0 (promote now url n v).
Proof.
  intros Hi Hn Hp Hl Hd. unfold EndpointSupervisor.promote. cbv zeta. set (path := directPathForEndpoint (host v) url).
  destruct (closed (logical v)) eqn:Hc.
  - destruct (migrateTo_closed n path (logical v) Hc) as (w & m & Hv & Ht). rewrite (on_logical_told _ _ _ _ _ Ht). cbn [foldl].
    set (c1 := (migrateTo n path (logical v)).1) in *. clearbody c1. unfold view in Hv. injection Hv as V1 V2 V3 V4 V5 V6 V7 V8.
    eapply keeps_after; [|apply probe_ends_keeps]; [apply paced_still; [exact Hl|cbn; congruence]|]. destruct Hi as [I1 I2 I3 I4].
    split; [done|by cbn; rewrite V5|by cbn; rewrite V7|]. intros _ _. cbn. by rewrite V3.
  - destruct (migrateTo_connected n path (logical v) Hc Hn) as (c1 & V & E & Em).
    pose proof (cutover_view (nextWaiter (logical v)) n path c1) as (C1 & C2 & C3 & C4 & C5). unfold view in V. injection V as V1 V2 V3 V4 V5 V6 V7 V8.
    rewrite V3 in C5. destruct C5 as (C5 & C6 & C7 & C8 & Ht). rewrite <-Em in *. set (c2 := (migrateTo n path (logical v)).1) in *.
    assert (Ht' : told [getSessionState n c1] [(nextWaiter (logical v), Ok tt)] (logical v) c2) by (exact (told_trans [] [_] [] [_] _ _ _ (told_refl _ _ E) Ht)).
    rewrite (on_logical_told _ _ _ _ _ Ht'). change (migrateTo n path (logical v)).1 with c2. set (v1 := foldl (on_state now) (v <| logical := c2 |>) [getSessionState n c1]).
    assert (Hlk : link v1 = link (v <| logical := c2 |>)) by (apply on_states_busy; left; apply Hi).
    clearbody v1 c2. assert (Hi1 : idle v1 /\ activePath (logical v1) <> Relay).
    { split.
      - apply (idle_link _ _ Hlk). destruct Hi as [I1 I2 I3 I4]. split; [done|cbn; by rewrite C1, V5|cbn; by rewrite C3, V7|].
        intros _ Hr. exfalso. apply (directPathForEndpoint_direct (host v) url). cbn in Hr. rewrite C5 in Hr. exact Hr.
      - unfold link, view in Hlk. injection Hlk as -> _ _ _ _ _ _ _ _ _ _ _ _. cbn. rewrite C5. apply directPathForEndpoint_direct. }
    clear Hlk. destruct Hi1 as [Hi1 Hr1].
    set (v2 := (clearLeaseTimer (v1 <| hysteresis := recordMigration now (hysteresis v1) |>)) <| relayRotationPending := false |>).
    assert (Hi2 : idle v2 /\ lastMigrationAt (hysteresis v2) = now /\ activePath (logical v2) <> Relay).
    { unfold v2, clearLeaseTimer. destruct Hi1. cbn. destruct (leaseTimer v1); cbn; (split; [by split|done]). }
    destruct Hi2 as (Hi2 & L2 & R2). clearbody v2. pose proof (rotateCredentialIfNeeded_link now v2) as Hlk. set (v3 := rotateCredentialIfNeeded now v2) in *. clearbody v3.
    assert (Hp3 : paced now v0 v3).
    { unfold link, view in Hlk. injection Hlk as L1 _ _ _ _ _ _ _ _ _ _ L4 L5.
      split; rewrite ?L1, ?L5; [by right|done|]. intros _ _. by rewrite <-Hl. }
    pose proof (idle_link _ _ Hlk Hi2) as Hi3. destruct (_ && _).
    + destruct Hi3. split; [by split|]. eapply paced_trans; [exact Hp3|by apply paced_still].
    + eapply keeps_after; [exact Hp3|by apply probe_ends_keeps].
Qed.

Lemma recordDirectSuccess_last o now h : lastMigrationAt (recordDirectSuccess o now h).1 = lastMigrationAt h.
Proof. unfold recordDirectSuccess. destruct (now <? _); [done|]. cbv zeta. cbn [fst]. by destruct (_ =? 0). Qed.
Lemma recordDirectSuccess_dwell o now h : (recordDirectSuccess o now h).2 = true -> minimumDwellMs o <= now - lastMigrationAt h.
Proof.
  unfold recordDirectSuccess. destruct (now <? _); [done|]. cbv zeta. cbn [snd]. intros [_ H%Z.leb_le]%andb_true_iff. revert H.
  by destruct (_ =? 0).
Qed.

Lemma probe_sees_keeps now s st v : wired v -> getSessionState s (logical v) = st -> keeps now v (probe_sees now s st v).
Proof.
  intros Hw Hg. unfold EndpointSupervisor.probe_sees. destruct (operation v) as [[| | | |rest url s'|]|] eqn:Ho; try by apply link_keeps.
  destruct (s =? s')%nat; [|by apply link_keeps].
  assert (Hi : idle v) by (apply idle_of_wired; [done|by rewrite Ho|by rewrite (wi_flag _ Hw), Ho]).
  assert (Hc : forall v', idle v' -> idle (close_probe s v')) by (intros v' []; by split).
  assert (Hh : forall hy, idle (v <| hysteresis := hy |>)) by (intros hy; destruct Hi; by split).
  destruct st; try by apply link_keeps.
  - destruct (recordDirectSuccess supervisor_options now (hysteresis v)) as [hy ready] eqn:E. cbv zeta.
    pose proof (recordDirectSuccess_last supervisor_options now (hysteresis v)) as Hl. pose proof (recordDirectSuccess_dwell supervisor_options now (hysteresis v)) as Hd.
    rewrite E in Hl, Hd. cbn [fst snd] in Hl, Hd. destruct ready.
    + apply promote_keeps; [apply Hh|exact Hg|done|exact Hl|]. cbn. rewrite Hl. by apply Hd.
    + eapply keeps_after; [|apply probe_ends_keeps, Hc, Hh]. by apply paced_still.
  - eapply keeps_after; [|apply probe_next_keeps, Hc, Hi]. by apply paced_still.
  - eapply keeps_after; [|apply probe_next_keeps, Hc, Hi]. by apply paced_still.
Qed.

(** *** Calls of the application, and what sessions do *)

(** The events that only touch requests and subscriptions. *)
Lemma plain_event e c :
  match e with Close | Suspend | MigrateTo _ _ | SessionEnters _ _ | WaitTimesOut _ => False | _ => True end ->
  view (client_step c e) = view c /\ told [] [] c (client_step c e).
Proof.
  destruct e; cbn [client_step]; try done; intros _.
  - destruct (sendRequest_view m ps c) as [Hv He]. split; [done|]. destruct (sendRequest m ps c) as [c' [?|r]]; cbn in *; [apply told_refl; by rewrite He, app_nil_r|].
    by apply (told_emit (SessionSend (activeSession c) r m ps)).
  - unfold subscribe. destruct (closed c); [by split; [|by apply told_refl]|]. cbv zeta. cbn [fst]. destruct (negb _); [|by split; [|by apply told_refl]].
    match goal with |- context [attachSubscription ?i ?s ?g ?c'] => set (c1 := c'); assert (H1 : view c1 = view c /\ effects c1 = effects c) by done; clearbody c1 end.
    destruct H1 as [H1 H2]. unfold attachSubscription. destruct (records c1 !! _); [|by split; [|by apply told_refl]]. cbv zeta. split; [exact H1|].
    eapply told_quiet; [cbn; by rewrite H2|done..].
  - unfold unsubscribe. destruct (records c !! id) as [x|]; [|by split; [|by apply told_refl]]. destruct (cancelled x); [by split; [|by apply told_refl]|]. cbv zeta.
    pose proof (dispose_same (disposePhysical x) (alter_record id (fun x => x <| cancelled := true |>) c)) as Hs%same_view.
    pose proof (dispose_told (disposePhysical x) (alter_record id (fun x => x <| cancelled := true |>) c)) as Ht. split; [exact Hs|exact Ht].
  - unfold updateTerminalSubscriptionViewport. cbv zeta. set (f := fun c id => alter_record id (with_viewport terminal viewport) c).
    assert (Hf : forall l c, view (foldl f c l) = view c /\ effects (foldl f c l) = effects c).
    { induction l as [|id l IH]; intros c0; [done|]. cbn [foldl]. destruct (IH (f c0 id)) as [-> ->]. done. }
    destruct (Hf (subscriptions c) c) as [Hv He]. destruct (negb _); [|by split; [|by apply told_refl]]. split; [exact Hv|].
    eapply told_quiet; [cbn; by rewrite He|done..].
  - unfold notifyForeground. destruct (negb _); (split; [done|]); [by eapply told_quiet|by apply told_refl].
  - unfold request_settles. destruct (requests c !! r) as [q|]; [|by split; [|by apply told_refl]]. cbv zeta.
    destruct o; [|by split; [|by apply told_refl]]. destruct (closed _); [by split; [|by apply told_refl]|]. destruct (negb _); by split; [|by apply told_refl].
  - unfold emission. destruct (physicals c !! p) as [x|]; [|by split; [|by apply told_refl]]. destruct (records c !! _) as [y|]; [|by split; [|by apply told_refl]].
    destruct (_ && _); (split; [done|]); [by eapply told_quiet|by apply told_refl].
Qed.

(** *** A recovery never turns into a probe *)

Definition probing v : bool := match operation v with Some (ProbeWaiting _ _ _) => true | _ => false end.
Lemma probing_link v v' : link v' = link v -> probing v' = probing v.
Proof. unfold link, probing, view. intros [=]. by replace (operation v') with (operation v) by congruence. Qed.
Lemma recover_ends_probing force v : probing (recover_ends force v) = false.
Proof. unfold recover_ends. cbv zeta. by destruct (_ && _). Qed.
Lemma try_probing force cs v : probing (try_credentials force cs v) = false.
Proof.
  revert v. induction cs as [|c rest IH]; intros v; cbn [EndpointSupervisor.try_credentials]; [apply recover_ends_probing|].
  unfold open_relay. destruct (relay (host v)); [|apply recover_ends_probing]. destruct (bundle v); [|apply recover_ends_probing].
  destruct (migrateTo _ _ _) as [l w]. cbv zeta. destruct (closed l); [|done]. destruct (isDirectorResolutionFailure _); [done|apply IH].
Qed.
Lemma attempt_fails_probing force rest c first n v : probing (attempt_fails force rest c first n v) = false.
Proof. unfold EndpointSupervisor.attempt_fails. destruct (_ && _); [done|apply try_probing]. Qed.
Lemma recoverRelay_probing t force v : probing v = false -> probing (recoverRelay t force v) = false.
Proof.
  intros Hp. unfold EndpointSupervisor.recoverRelay. destruct (bundle v); [|done]. destruct (relay (host v)); [|done].
  destruct (_ || _); [done|apply try_probing].
Qed.
Lemma on_states_probing t l v : probing v = false -> probing (foldl (on_state t) v l) = false.
Proof.
  revert v. induction l as [|st l IH]; intros v Hp; cbn [foldl]; [done|]. apply IH. unfold EndpointSupervisor.on_state.
  destruct (subscribed v); cbn [negb]; [|done]. destruct st; try done; try by apply recoverRelay_probing.
  rewrite (probing_link _ _ (scheduleDirectProbe_link _ _)). destruct (negb (on_relay v)); [|done].
  by rewrite (probing_link _ _ (rotateCredentialIfNeeded_link _ _)).
Qed.
Lemma attempt_succeeds_probing t force n v : probing (attempt_succeeds t force n v) = false.
Proof. apply recover_ends_probing. Qed.
Lemma relay_migrated_probing now force rest c first n v : probing (relay_migrated now force rest c first n v) = false.
Proof.
  unfold EndpointSupervisor.relay_migrated. cbv zeta. destruct (resumeConfirmation n); [|apply attempt_succeeds_probing].
  match goal with |- context [bundle ?x] => destruct (bundle x) end; [done|apply attempt_succeeds_probing].
Qed.
Lemma probe_sees_id now s st v : probing v = false -> probe_sees now s st v = v.
Proof. unfold EndpointSupervisor.probe_sees, probing. by destruct (operation v) as [[]|]. Qed.

(** *** The stable client's events, for the supervisor *)

Lemma on_client_told now e v pubs ms :
  told pubs ms (logical v) (client_step (logical v) e) ->
  on_client now e v =
  let v' := foldl (fun v '(w, o) => migration_settles now w o v) (foldl (on_state now) (v <| logical := client_step (logical v) e |>) pubs) ms in
  match e with SessionEnters s st => probe_sees now s st v' | _ => v' end.
Proof.
  intros Ht. pose proof (told_published _ _ _ _ Ht) as [_ E]. unfold EndpointSupervisor.on_client. cbv zeta. rewrite E.
  by rewrite (on_logical_told now (fun l => client_step l e) v pubs ms Ht).
Qed.

(** The migration the operation waits for is over; [c1] is the client then. *)
Lemma settle_keeps now v c1 pubs w o force rest c first n :
  wired v -> operation v = Some (RecoverMigrating force rest c first n w) -> jm_entries (waiting c1) = [] ->
  (forall s st, sessionState c1 !! s = Some st -> (s < nextSession v)%nat) ->
  match o with Ok _ => activePath c1 = Relay | Throw _ => activePath c1 = activePath (logical v) /\ (released (logical v) -> released c1) end ->
  let v' := migration_settles now w o (foldl (on_state now) (v <| logical := c1 |>) pubs) in keeps now v v' /\ probing v' = false.
Proof.
  intros Hw Ho Hq Hs Hp. cbv zeta. assert (Hf : operationInFlight v = true) by (by rewrite (wi_flag _ Hw), Ho).
  set (v0 := v <| logical := c1 |>). set (v1 := foldl (on_state now) v0 pubs).
  assert (Hl : link v1 = link v0) by (apply on_states_busy; by left). clearbody v1. subst v0.
  assert (Ho1 : operation v1 = operation v) by (unfold link, view in Hl; cbn in Hl; by injection Hl).
  unfold EndpointSupervisor.migration_settles. rewrite Ho1, Ho, Nat.eqb_refl. destruct o as [x|m].
  - split; [|apply relay_migrated_probing]. unfold link, view in Hl. cbn in Hl. injection Hl as L1 L2 L3 L4 L5 L6 L7 L8 L9 L10 L11 L12 L13.
    apply relay_migrated_keeps; [by rewrite L10|by rewrite L5|rewrite L7, L12; exact Hs|by intros _; rewrite L1].
  - split; [|apply attempt_fails_probing]. destruct Hp as [Hp1 Hp2]. eapply keeps_after; [|apply attempt_fails_keeps].
    + unfold link, view in Hl. cbn in Hl. injection Hl as L1 L2 L3 L4 L5 L6 L7 L8 L9 L10 L11 L12 L13. apply paced_still; congruence.
    + apply (idle_link _ _ Hl). split; [done|done|done|]. intros Hb. by apply Hp2, (wi_back _ Hw).
Qed.

(** Nothing waited for it. *)
Lemma no_settle_keeps now v c1 pubs :
  wired v -> waiting c1 = waiting (logical v) -> (forall s st, sessionState c1 !! s = Some st -> (s < nextSession v)%nat) ->
  activePath c1 = activePath (logical v) -> (released (logical v) -> released c1) ->
  keeps now v (foldl (on_state now) (v <| logical := c1 |>) pubs).
Proof.
  intros [W1 W2 W3 W4] Hq Hs Hp Hr. apply (keeps_after now v (v <| logical := c1 |>)); [by apply paced_still|]. apply on_states_keep.
  split; [done|cbn; by rewrite Hq|done|]. cbn. intros Hb. by apply Hr, W4.
Qed.

Lemma heard_bounded s st c n :
  (forall s' st', sessionState c !! s' = Some st' -> (s' < n)%nat) -> (s < n)%nat ->
  forall s' st', sessionState (heard s st c) !! s' = Some st' -> (s' < n)%nat.
Proof.
  intros Hb Hs s' st'. rewrite (proj1 (proj2 (heard_spec s st c))). destruct (decide (s = s')) as [<-|Hne]; [done|].
  rewrite lookup_insert_ne by done. apply Hb.
Qed.
Lemma heard_released s st c : released c -> released (heard s st c).
Proof. destruct (heard_spec s st c) as [(E1 & E2 & E3 & _) _]. unfold released. by rewrite E1, E2, E3. Qed.

(** A session enters a state nobody waits for. *)
Lemma session_unawaited now s st v pubs :
  wired v -> (s < nextSession v)%nat -> client_step (logical v) (SessionEnters s st) = heard s st (logical v) ->
  told pubs [] (logical v) (heard s st (logical v)) -> keeps now v (on_client now (SessionEnters s st) v).
Proof.
  intros Hw Hs E Ht. rewrite (on_client_told now (SessionEnters s st) v pubs []) by (by rewrite E). cbv zeta. rewrite E. cbn [foldl].
  set (c1 := heard s st (logical v)) in *. destruct (heard_spec s st (logical v)) as ((H1 & H2 & H3 & H4 & H5) & H6 & _).
  assert (Hk : keeps now v (foldl (on_state now) (v <| logical := c1 |>) pubs)).
  { apply no_settle_keeps; [done|exact H4|by apply heard_bounded; [apply Hw|]|exact H1|by apply heard_released]. }
  destruct Hk as [Hw2 Hp]. destruct (operationInFlight v) eqn:Hf.
  - assert (Hl : link (foldl (on_state now) (v <| logical := c1 |>) pubs) = link (v <| logical := c1 |>)) by (apply on_states_busy; by left).
    set (v2 := foldl (on_state now) (v <| logical := c1 |>) pubs) in *. clearbody v2. eapply keeps_after; [exact Hp|]. apply probe_sees_keeps; [done|].
    unfold link, view in Hl. cbn in Hl. injection Hl as L1 L2 L3 L4 L5 L6 L7 L8 L9 L10 L11 L12 L13.
    unfold getSessionState. rewrite L7. unfold c1. by rewrite H6, lookup_insert, decide_True.
  - rewrite probe_sees_id; [by split|]. apply on_states_probing. unfold probing. cbn. pose proof (wi_flag _ Hw) as Hfl. rewrite Hf in Hfl. by destruct (operation v).
Qed.

(** The wait of the operation's migration ends in [c1]. *)
Lemma awaited_keeps now e v c1 pubs w o force rest c first n :
  wired v -> operation v = Some (RecoverMigrating force rest c first n w) -> client_step (logical v) e = c1 ->
  told pubs [(w, o)] (logical v) c1 -> jm_entries (waiting c1) = [] ->
  (forall s st, sessionState c1 !! s = Some st -> (s < nextSession v)%nat) ->
  match o with Ok _ => activePath c1 = Relay | Throw _ => activePath c1 = activePath (logical v) /\ (released (logical v) -> released c1) end ->
  keeps now v (on_client now e v).
Proof.
  intros Hw Ho <- Ht Hq Hs Hp. rewrite (on_client_told now e v pubs [(w, o)] Ht). cbv zeta. cbn [foldl].
  destruct (settle_keeps now v (client_step (logical v) e) pubs w o force rest c first n Hw Ho Hq Hs Hp) as [Hk Hb].
  destruct e; try exact Hk. by rewrite probe_sees_id.
Qed.

(** Waiting sessions that fail: closed, the client as it was. *)
Lemma failed_wait w n m c0 c path :
  heard_view c0 c -> jm_entries (waiting c) = [(w, (n, path))] ->
  let c1 := migration_fails w n m (c <| waiting := delete w (waiting c) |>) in
  jm_entries (waiting c1) = [] /\ sessionState c1 = sessionState c /\ activePath c1 = activePath c0 /\ (released c0 -> released c1) /\
  forall pubs, told pubs [] c0 c -> told pubs [(w, Throw m)] c0 c1.
Proof.
  intros (E1 & E2 & E3 & E4 & E5) Hw. cbv zeta. split_and!; [by eapply one_delete|done|exact E1| |].
  - unfold released. cbn. by rewrite E1, E2, E3.
  - intros pubs Ht. rewrite <-(app_nil_r pubs). set (c2 := c <| waiting := delete w (waiting c) |>).
    assert (Ht2 : told pubs [] c0 c2) by exact Ht. exact (told_trans pubs [] [] [_] _ _ _ Ht2 (proj2 (fails_view w n m c2))).
Qed.

Lemma session_awaited now st v force rest c first n w :
  wired v -> operation v = Some (RecoverMigrating force rest c first n w) -> (n < nextSession v)%nat ->
  keeps now v (on_client now (SessionEnters n st) v).
Proof.
  intros Hw Ho Hn. pose proof (wi_wait _ Hw) as Hq. rewrite Ho in Hq. cbn [migration_of] in Hq.
  destruct (heard_spec n st (logical v)) as (Hv & H6 & pubs & Ht). pose proof (heard_bounded n st (logical v) _ (wi_fresh _ Hw) Hn) as Hb.
  assert (E : client_step (logical v) (SessionEnters n st) = wait_sees st w (heard n st (logical v))).
  { cbn [client_step]. by rewrite (session_enters_waited _ _ _ _ _ _ Hq), Nat.eqb_refl. }
  set (h := heard n st (logical v)) in *. assert (Hqh : jm_entries (waiting h) = [(w, (n, Relay))]) by (destruct Hv as (_ & _ & _ & -> & _); exact Hq).
  unfold wait_sees in E. rewrite (one_lookup _ _ _ Hqh) in E.
  destruct st; try (by eapply session_unawaited).
  - set (h1 := h <| waiting := delete w (waiting h) |>) in *. destruct (cutover_view w n Relay h1) as (C1 & C2 & C3 & C4 & C5).
    assert (Hd : jm_entries (waiting h1) = []) by (by eapply one_delete). assert (Ht1 : told pubs [] (logical v) h1) by exact Ht.
    destruct (closed h1) eqn:Hc; [destruct C5 as [Cv Ct]|destruct C5 as (C5 & C6 & C7 & C8 & Ct)].
    + eapply (awaited_keeps now _ v _ _ w _ force rest c first n Hw Ho E (told_trans _ _ _ _ _ _ _ Ht1 Ct)); [by rewrite C1|by rewrite C3|].
      unfold view in Cv. injection Cv as V1 V2 V3 _ _ _ _ _. destruct Hv as (X1 & X2 & X3 & _). split; [rewrite V1; exact X1|].
      intros _ _. apply orb_true_iff. left. etransitivity; [exact V3|exact Hc].
    + eapply (awaited_keeps now _ v _ _ w _ force rest c first n Hw Ho E (told_trans _ _ _ _ _ _ _ Ht1 Ct)); [by rewrite C1|by rewrite C3|done].
  - destruct (failed_wait w n ("replacement session " +:+ state_text Disconnected) (logical v) h Relay Hv Hqh) as (F1 & F2 & F3 & F4 & F5).
    eapply (awaited_keeps now _ v _ _ w _ force rest c first n Hw Ho E (F5 _ Ht)); [done|by rewrite F2|done].
  - destruct (failed_wait w n ("replacement session " +:+ state_text AuthFailed) (logical v) h Relay Hv Hqh) as (F1 & F2 & F3 & F4 & F5).
    eapply (awaited_keeps now _ v _ _ w _ force rest c first n Hw Ho E (F5 _ Ht)); [done|by rewrite F2|done].
Qed.

Lemma session_keeps now s st v : wired v -> (s < nextSession v)%nat -> keeps now v (on_client now (SessionEnters s st) v).
Proof.
  intros Hw Hs. pose proof (wi_wait _ Hw) as Hq. destruct (heard_spec s st (logical v)) as (_ & _ & pubs & Ht).
  destruct (migration_of (operation v)) as [|x l] eqn:Hm.
  - eapply session_unawaited; [done|done| |exact Ht]. cbn [client_step]. by apply session_enters_heard.
  - destruct (operation v) as [[force rest c first n w| | | | |]|] eqn:Ho; try done. injection Hm as <- <-. destruct (decide (n = s)) as [<-|Hne].
    + by eapply session_awaited.
    + eapply session_unawaited; [done|done| |exact Ht]. cbn [client_step]. rewrite (session_enters_waited _ _ _ _ _ _ Hq).
      by rewrite (proj2 (Nat.eqb_neq _ _) Hne).
Qed.

Lemma timeout_keeps now w v : wired v -> keeps now v (on_client now (WaitTimesOut w) v).
Proof.
  intros Hw. pose proof (wi_wait _ Hw) as Hq.
  assert (Hno : waiting (logical v) !! w = None -> keeps now v (on_client now (WaitTimesOut w) v)).
  { intros Hn. assert (E : client_step (logical v) (WaitTimesOut w) = logical v) by (cbn [client_step]; unfold wait_times_out; by rewrite Hn).
    rewrite (on_client_told now _ v [] []) by (rewrite E; by apply told_refl). cbv zeta. rewrite E. by apply link_keeps. }
  destruct (waiting (logical v) !! w) as [x|] eqn:Hx; [|by apply Hno]. clear Hno.
  destruct (operation v) as [[force rest c first n w'| | | | |]|] eqn:Ho; cbn [migration_of] in Hq; try (by rewrite (none_lookup _ _ Hq) in Hx).
  destruct (one_lookup_Some _ _ _ _ _ Hq Hx) as [-> ->].
  destruct (failed_wait w' n "replacement session authentication timed out" (logical v) (logical v) Relay) as (F1 & F2 & F3 & F4 & F5); [by split_and!|done|].
  eapply (awaited_keeps now _ v _ [] w' _ force rest c first n Hw Ho); [|apply F5; by apply told_refl|done|rewrite F2; apply Hw|done].
  cbn [client_step]. unfold wait_times_out. by rewrite Hx.
Qed.

Lemma on_client_keeps now e v : wired v -> EndpointSupervisor.enabled (OnClient e) v -> keeps now v (on_client now e v).
Proof.
  intros Hw He.
  assert (Hplain : match e with Close | Suspend | MigrateTo _ _ | SessionEnters _ _ | WaitTimesOut _ => False | _ => True end -> keeps now v (on_client now e v)).
  { intros Hp. destruct (plain_event e (logical v) Hp) as [Hv Ht]. rewrite (on_client_told now e v [] [] Ht). cbv zeta. cbn [foldl].
    assert (Hk : keeps now v (v <| logical := client_step (logical v) e |>)) by (apply link_keeps; [done|]; unfold link; cbn; by rewrite Hv).
    by destruct e. }
  assert (Hdown : match e with Close | Suspend => True | _ => False end -> keeps now v (on_client now e v)).
  { intros Hp. assert (Hf : forall c, let c' := client_step c e in down_view c' = down_view c /\ (closed c || suspended c = true -> closed c' || suspended c' = true) /\ exists pubs, told pubs [] c c').
    { intros c. destruct e; try done; [destruct (close_down c) as (D1 & D2 & D3 & D4)|destruct (suspend_down c) as (D1 & D2 & D3 & D4)]; cbn [client_step]; split_and!; try done. by rewrite D3. }
    destruct (Hf (logical v)) as (_ & _ & pubs & Ht). pose proof (down_keeps now now (fun c => client_step c e) v Hf Hw) as Hk.
    rewrite (on_logical_told now (fun c => client_step c e) v pubs [] Ht) in Hk.
    rewrite (on_client_told now e v pubs [] Ht). cbv zeta. cbn [foldl]. by destruct e. }
  destruct e; try (by apply Hplain); try (by apply Hdown); try done; [by apply session_keeps|by apply timeout_keeps].
Qed.

(** *** Every step *)

Lemma start_read_keeps now b v : wired v -> keeps now v (start_read now b v).
Proof.
  intros Hw. unfold EndpointSupervisor.start_read. destruct (negb (starting v)); [by apply link_keeps|]. cbv zeta.
  set (v1 := v <| starting := false |> <| bundle := if b then stored v else None |>).
  assert (H1 : keeps now v v1) by (by apply link_keeps). destruct H1 as [W1 P1]. clearbody v1.
  destruct (_ || _); [by split|]. set (v2 := v1 <| subscribed := true |>).
  assert (H2 : keeps now v1 v2) by (by apply link_keeps). destruct H2 as [W2 P2]. clearbody v2.
  eapply keeps_after; [exact P1|]. eapply keeps_after; [exact P2|].
  destruct (cstate (logical v2)); try (by apply recoverRelay_keeps); apply link_keeps; try done; apply scheduleDirectProbe_link.
Qed.

Lemma setForeground_keeps now b v : wired v -> keeps now v (setForeground now b v).
Proof.
  intros Hw. unfold EndpointSupervisor.setForeground. cbv zeta. set (v1 := v <| foreground := b |>).
  assert (P1 : paced now v v1) by (by apply paced_still). eapply keeps_after; [exact P1|]. destruct b.
  - assert (W1 : wired v1) by (destruct Hw; split; try done). clearbody v1.
    destruct (recoverRelay_keeps now now (relayRotationPending v1) v1 W1) as [W2 P2]. eapply keeps_after; [exact P2|].
    apply link_keeps; [done|apply scheduleDirectProbe_link].
  - set (v2 := if on_relay v1 then suspend now v1 else v1).
    assert (H2 : keeps now v1 v2).
    { destruct Hw as [X1 X2 X3 X4]. unfold v2. destruct (on_relay v1) eqn:Hr.
      - assert (Hl : link (suspend now v1) = link (v1 <| logical := suspendActiveSession (logical v1) |>)) by (by apply suspend_link).
        destruct (suspend_down (logical v1)) as (D1 & _ & D3 & _). unfold down_view in D1. injection D1 as D1 D2 D4 D5 D6.
        apply (keeps_after now v1 (v1 <| logical := suspendActiveSession (logical v1) |>)); [by apply paced_still|].
        apply link_keeps; [|exact Hl].
        assert (Hw2 : wired (v1 <| logical := suspendActiveSession (logical v1) |>)).
        { split; [done|cbn; by rewrite D2|cbn; by rewrite D5|]. by intros _ _. }
        exact Hw2.
      - apply bool_decide_eq_false in Hr. split; [|by apply paced_still]. split; try done. by intros _ ?. }
    destruct H2 as [W2 P2]. clearbody v2. eapply keeps_after; [exact P2|]. apply link_keeps; [done|].
    pose proof (clear_timer_link (probeTimer v2) v2) as Hl. exact Hl.
Qed.

Lemma timer_fires_keeps now t v : wired v -> keeps now v (timer_fires now t v).
Proof.
  intros Hw. unfold EndpointSupervisor.timer_fires. destruct (timers v !! t) as [[k d]|]; [|by apply link_keeps]. cbv zeta.
  set (v1 := v <| timers := delete t (timers v) |>). assert (H1 : keeps now v v1) by (by apply link_keeps). destruct H1 as [W1 P1]. clearbody v1.
  eapply keeps_after; [exact P1|]. destruct k.
  - eapply keeps_after; [|apply probeDirect_keeps; eapply link_wired; [|exact W1]; done]. by apply link_still.
  - eapply keeps_after; [|apply recoverRelay_keeps; eapply link_wired; [|exact W1]; done]. by apply link_still.
  - eapply keeps_after; [|apply recoverRelay_keeps; eapply link_wired; [|exact W1]; done]. by apply link_still.
Qed.

Lemma director_resolves_keeps now r v : wired v -> keeps now v (director_resolves r v).
Proof.
  intros Hw. unfold EndpointSupervisor.director_resolves. destruct (operation v) as [[| |force rest c| | |]|] eqn:Ho; try by apply link_keeps.
  assert (Hi : idle v) by (apply idle_of_wired; [done|by rewrite Ho|by rewrite (wi_flag _ Hw), Ho]).
  destruct (r ≫= relayHost (host v)); [|by apply try_keeps]. destruct Hi. split; [by split|by apply paced_still].
Qed.

Lemma host_saved_keeps now b v : wired v -> keeps now v (host_saved b v).
Proof.
  intros Hw. unfold EndpointSupervisor.host_saved. destruct (operation v) as [[| | |force rest c updated| |]|] eqn:Ho; try by apply link_keeps.
  assert (Hi : idle v) by (apply idle_of_wired; [done|by rewrite Ho|by rewrite (wi_flag _ Hw), Ho]).
  destruct b; [|by apply try_keeps]. set (v1 := v <| host := updated |>). assert (Hi1 : idle v1) by (destruct Hi; by split).
  assert (P1 : paced now v v1) by (by apply paced_still). pose proof (open_relay_keeps now force rest c false v1 Hi1) as Hk.
  destruct (open_relay force rest c false v1) as [v'|n v'|].
  - by eapply keeps_after.
  - destruct Hk as (Hi' & P2 & _). eapply keeps_after; [exact P1|]. eapply keeps_after; [exact P2|]. by apply try_keeps.
  - eapply keeps_after; [exact P1|]. by apply try_keeps.
Qed.

Lemma bundle_written_keeps now t b v : wired v -> keeps now v (bundle_written t b v).
Proof.
  intros Hw. unfold EndpointSupervisor.bundle_written. destruct (operation v) as [[|force rest c first n| | | |]|] eqn:Ho; try by apply link_keeps.
  assert (Hi : idle v) by (apply idle_of_wired; [done|by rewrite Ho|by rewrite (wi_flag _ Hw), Ho]).
  destruct b; [|by apply attempt_fails_keeps]. eapply keeps_after; [|apply attempt_succeeds_keeps]; [by apply paced_still|]. destruct Hi; by split.
Qed.

Lemma event_keeps now e v : wired v -> EndpointSupervisor.enabled e v -> keeps now v (supervisor_event now e v).
Proof.
  intros Hw He. destruct e; cbn [EndpointSupervisor.supervisor_event].
  - by apply start_read_keeps.
  - by apply setForeground_keeps.
  - apply link_keeps; [done|apply stop_link].
  - by apply timer_fires_keeps.
  - destruct (operation v) as [[| | | |rest url n|]|] eqn:Ho; try by apply link_keeps.
    assert (Hi : idle v) by (apply idle_of_wired; [done|by rewrite Ho|by rewrite (wi_flag _ Hw), Ho]).
    eapply keeps_after; [|apply probe_next_keeps; destruct Hi; by split]. by apply paced_still.
  - by apply director_resolves_keeps.
  - by apply host_saved_keeps.
  - by apply bundle_written_keeps.
  - apply link_keeps; [done|apply rotation_written_link].
  - apply link_keeps; [done|apply rotation_saved_link].
  - by apply on_client_keeps.
Qed.

Lemma step_keeps v x : wired v -> EndpointSupervisor.enabled x.2 v -> keeps x.1 v (supervisor_step v x).
Proof.
  intros Hw He. destruct (event_keeps x.1 x.2 v Hw He) as [W1 P1]. unfold EndpointSupervisor.supervisor_step. eapply keeps_after; [exact P1|].
  pose proof (link_keeps x.1 _ _ W1 (rotation_check_link _)) as [W2 P2]. eapply keeps_after; [exact P2|].
  set (v2 := rotation_check _) in *. clearbody v2. unfold EndpointSupervisor.after_rotation.
  destruct (operation v2) as [[| | | | |]|] eqn:Ho; try by apply link_keeps. destruct (rotation v2); [by apply link_keeps|].
  apply probe_ends_keeps, idle_of_wired; [done|by rewrite Ho|by rewrite (wi_flag _ W2), Ho].
Qed.

(** *** Runs *)

Local Notation supervisor_run := (supervisor_run hashOf resumeConfirmation leaseExpiresAt failure freshPending parseEndpoints parseInstalled).

Lemma new_wired now x kept st path : wired (new_supervisor now x kept st path).
Proof.
  split; [done|done| |done]. cbn. intros s st' E. destruct (decide (s = 0)%nat) as [->|Hne]; [lia|]. by rewrite lookup_singleton_ne in E.
Qed.
Lemma run_wired es v : wired v -> possible v es -> wired (supervisor_run v es).
Proof.
  revert v. induction es as [|x es IH]; intros v Hw Hp; [done|]. cbn in Hp. destruct Hp as [He Hp]. cbn [foldl]. apply IH; [|done]. by apply step_keeps.
Qed.
Lemma possible_app es es' v : possible v (es ++ es') -> possible v es /\ possible (supervisor_run v es) es'.
Proof. revert v. induction es as [|x es IH]; intros v; [done|]. cbn. intros [He [Hp Hq]%IH]. done. Qed.

Section FromTheStart.
Context (startedAt : Z) (x0 : HostProfile) (kept : option MobileRelayCredentialBundle) (st0 : ConnectionState) (path0 : MobileConnectionPath).
Local Notation v0 := (new_supervisor startedAt x0 kept st0 path0).

(** One operation at a time: at every moment of every run the flag says whether an
    operation is under way, and the stable client waits for a replacement session exactly
    when that operation is a relay recovery, for the session that recovery opened. *)
Theorem one_migration_at_a_time es :
  possible v0 es ->
  let v := supervisor_run v0 es in
  operationInFlight v = is_some (operation v) /\ jm_entries (waiting (logical v)) = migration_of (operation v).
Proof. intros Hp. destruct (run_wired es v0 (new_wired _ _ _ _ _) Hp) as [W1 W2 _ _]. done. Qed.

(** C10. A phone in the background holds no relay session: at every moment of every run in
    which the supervisor is in the background, a client whose path is the relay is
    suspended or closed; a recovery that was under way when the phone went to the
    background included. *)
Theorem background_releases_relay es :
  possible v0 es ->
  let v := supervisor_run v0 es in
  foreground v = false -> activePath (logical v) = Relay -> closed (logical v) || suspended (logical v) = true.
Proof. intros Hp. destruct (run_wired es v0 (new_wired _ _ _ _ _) Hp) as [_ _ _ W4]. exact W4. Qed.

Lemma last_migration_since t es v :
  wired v -> possible v es -> Forall (fun x => t <= x.1) es -> t <= lastMigrationAt (hysteresis v) ->
  t <= lastMigrationAt (hysteresis (supervisor_run v es)).
Proof.
  revert v. induction es as [|x es IH]; intros v Hw Hp Ht Hl; [done|]. cbn in Hp. destruct Hp as [He Hp]. inversion Ht; subst.
  cbn [foldl]. destruct (step_keeps v x Hw He) as [Hw' [[E|E] _ _]]; apply IH; try done; rewrite E; done.
Qed.

(** C12. The connection does not flap: whenever the active path changed and later changes
    from the relay to a direct one, at least the dwell time of 60 seconds lies between
    the two, whatever sessions, timers, storage and the application do meanwhile. *)
Theorem no_flapping es1 x1 es2 x2 :
  possible v0 (es1 ++ x1 :: es2 ++ [x2]) -> Forall (fun x => x1.1 <= x.1) es2 ->
  let v1 := supervisor_run v0 es1 in
  let v2 := supervisor_run (supervisor_step v1 x1) es2 in
  activePath (logical (supervisor_step v1 x1)) <> activePath (logical v1) ->
  activePath (logical v2) = Relay -> activePath (logical (supervisor_step v2 x2)) <> Relay ->
  60000 <= x2.1 - x1.1.
Proof.
  intros Hp Ht. cbv zeta. intros Hm Hr Hd. apply possible_app in Hp as [Hp1 Hp]. cbn in Hp. destruct Hp as [He1 Hp].
  apply possible_app in Hp as [Hp2 [He2 _]]. pose proof (run_wired es1 v0 (new_wired _ _ _ _ _) Hp1) as W1.
  destruct (step_keeps _ x1 W1 He1) as [W1' [_ Hmoved _]]. specialize (Hmoved Hm).
  pose proof (run_wired es2 _ W1' Hp2) as W2. destruct (step_keeps _ x2 W2 He2) as [_ [_ _ Hdwell]]. specialize (Hdwell Hr Hd).
  pose proof (last_migration_since x1.1 es2 _ W1' Hp2 Ht) as Hl. unfold MINIMUM_DWELL_MS in Hdwell. rewrite Hmoved in Hl. lia.
Qed.
End FromTheStart.

(** ** Coming back *)

(** What can happen meanwhile without ending the attempt on session [n], whose wait is [w]. *)
Definition undisturbed (n w : nat) (e : EndpointSupervisor.Event) : Prop :=
  match e with
  | SetForeground b => b = true
  | OnClient Close | OnClient Suspend => False
  | OnClient (SessionEnters s _) => s <> n
  | OnClient (WaitTimesOut w') => w' <> w
  | _ => True
  end.
Record attempting (o : Operation) v : Prop := {
  at_wired : wired v; at_operation : operation v = Some o; at_foreground : foreground v = true; at_open : closed (logical v) = false }.

Lemma attempting_link o v v' : link v' = link v -> attempting o v -> attempting o v'.
Proof.
  intros E [A1 A2 A3 A4]. split; [by eapply link_wired|..]; unfold link, view in E; injection E as L1 L2 L3 L4 L5 L6 L7 L8 L9 L10 L11 L12 L13; congruence.
Qed.

Lemma undisturbed_event now e v force rest c first n w :
  attempting (RecoverMigrating force rest c first n w) v -> EndpointSupervisor.enabled e v -> undisturbed n w e ->
  attempting (RecoverMigrating force rest c first n w) (supervisor_event now e v).
Proof.
  intros Ha He Hu. pose proof Ha as [A1 A2 A3 A4]. assert (Hf : operationInFlight v = true) by (by rewrite (wi_flag _ A1), A2).
  destruct (event_keeps now e v A1 He) as [Hw _]. destruct e; cbn [EndpointSupervisor.supervisor_event] in *.
  - eapply attempting_link; [|exact Ha]. unfold EndpointSupervisor.start_read. destruct (negb _); [done|]. cbv zeta. destruct (_ || _); [done|].
    destruct (cstate _); try (by rewrite recoverRelay_busy; [|by left]); by rewrite scheduleDirectProbe_link.
  - cbn in Hu. subst b. eapply attempting_link; [|exact Ha]. unfold EndpointSupervisor.setForeground. cbv zeta. rewrite scheduleDirectProbe_link, recoverRelay_busy by (by left).
    unfold link. cbn. by rewrite A3.
  - eapply attempting_link; [|exact Ha]. apply stop_link.
  - eapply attempting_link; [|exact Ha]. unfold EndpointSupervisor.timer_fires. destruct (timers v !! t) as [[k d]|]; [|done]. cbv zeta.
    destruct k; try (by rewrite recoverRelay_busy; [|by left]). unfold EndpointSupervisor.probeDirect.
    match goal with |- context [if ?b then _ else _] => assert (Hb : b = true) by (cbn; rewrite Hf; by rewrite ?orb_true_r) end. rewrite Hb.
    by rewrite scheduleDirectProbe_link.
  - by rewrite A2.
  - unfold EndpointSupervisor.director_resolves. by rewrite A2.
  - unfold EndpointSupervisor.host_saved. by rewrite A2.
  - unfold EndpointSupervisor.bundle_written. by rewrite A2.
  - eapply attempting_link; [apply rotation_written_link|done].
  - eapply attempting_link; [apply rotation_saved_link|done].
  - pose proof (wi_wait _ A1) as Hq. rewrite A2 in Hq. cbn [migration_of] in Hq.
    assert (Hnp : probing v = false) by (unfold probing; by rewrite A2).
    assert (Hplain : forall c1 pubs, client_step (logical v) e = c1 -> told pubs [] (logical v) c1 -> closed c1 = false -> attempting (RecoverMigrating force rest c first n w) (on_client now e v)).
    { intros c1 pubs <- Ht Hc. rewrite (on_client_told now e v pubs [] Ht) in *. cbv zeta in *. cbn [foldl] in *.
      match goal with |- context [foldl (on_state now) ?x pubs] => set (v1 := foldl (on_state now) x pubs) in *; assert (Hl : link v1 = link x) by (apply on_states_busy; by left) end.
      clearbody v1.
      assert (Hid : match e with SessionEnters s st => probe_sees now s st v1 | _ => v1 end = v1).
      { destruct e; try done. apply probe_sees_id. rewrite (probing_link _ _ Hl). exact Hnp. }
      rewrite Hid in *. unfold link, view in Hl. injection Hl as L1 L2 L3 L4 L5 L6 L7 L8 L9 L10 L11 L12 L13. split; [done|by rewrite L9|by rewrite L11|by rewrite L3]. }
    assert (Hquiet : match e with Close | Suspend | MigrateTo _ _ | SessionEnters _ _ | WaitTimesOut _ => False | _ => True end -> attempting (RecoverMigrating force rest c first n w) (on_client now e v)).
    { intros Hp. destruct (plain_event e (logical v) Hp) as [Hv Ht]. eapply Hplain; [done|exact Ht|]. unfold view in Hv. injection Hv as _ _ -> _ _ _ _ _. done. }
    destruct e; try (by apply Hquiet); try done; cbn in Hu.
    + destruct (heard_spec s st (logical v)) as ((_ & _ & E3 & _) & _ & pubs & Ht). eapply Hplain; [|exact Ht|by rewrite E3].
      cbn [client_step]. rewrite (session_enters_waited _ _ _ _ _ _ Hq). destruct (Nat.eqb_spec n s); [congruence|done].
    + eapply (Hplain (logical v) []); [|by apply told_refl|done]. cbn [client_step]. unfold wait_times_out.
      destruct (waiting (logical v) !! w0) eqn:E; [|done]. destruct (one_lookup_Some _ _ _ _ _ Hq E); congruence.
Qed.

Lemma attempting_settled t force rest c first n w v :
  attempting (RecoverMigrating force rest c first n w) v -> attempting (RecoverMigrating force rest c first n w) (after_rotation t (rotation_check v)).
Proof.
  intros Ha. pose proof (attempting_link _ _ _ (rotation_check_link v) Ha) as Hb. set (v1 := rotation_check v) in *. clearbody v1.
  unfold EndpointSupervisor.after_rotation. by rewrite (at_operation _ _ Hb).
Qed.
Lemma undisturbed_step x v force rest c first n w :
  attempting (RecoverMigrating force rest c first n w) v -> EndpointSupervisor.enabled x.2 v -> undisturbed n w x.2 ->
  attempting (RecoverMigrating force rest c first n w) (supervisor_step v x).
Proof. intros Ha He Hu. by apply attempting_settled, undisturbed_event. Qed.
Lemma undisturbed_run es v force rest c first n w :
  attempting (RecoverMigrating force rest c first n w) v -> possible v es -> Forall (fun x => undisturbed n w x.2) es ->
  attempting (RecoverMigrating force rest c first n w) (supervisor_run v es).
Proof.
  revert v. induction es as [|x es IH]; intros v Ha Hp Hu; [done|]. cbn in Hp. destruct Hp as [He Hp]. inversion Hu; subst.
  cbn [foldl]. apply IH; [by apply undisturbed_step|done|done].
Qed.

(** In the foreground the migration ends where the cutover left the client. *)
Lemma link_view v v' : link v' = link v -> view (logical v') = view (logical v) /\ operation v' = operation v /\ foreground v' = foreground v.
Proof. unfold link, view. intros [=]. split_and!; congruence. Qed.
Lemma attempt_succeeds_view t force n v :
  view (logical (attempt_succeeds t force n v)) = view (logical v) /\ operation (attempt_succeeds t force n v) = None.
Proof.
  unfold EndpointSupervisor.attempt_succeeds, recover_ends. cbv zeta. set (v1 := scheduleDirectProbe _ _).
  assert (E : link v1 = link v) by (unfold v1; by rewrite scheduleDirectProbe_link, scheduleLeaseRotation_link). clearbody v1.
  apply link_view in E as [E _]. destruct (_ && _); cbn; (split; [exact E|done]).
Qed.
Lemma relay_migrated_view now force rest c first n v :
  foreground v = true ->
  let v' := relay_migrated now force rest c first n v in
  view (logical v') = view (logical v) /\ (operation v' = None \/ operation v' = Some (RecoverWriting force rest c first n)).
Proof.
  intros Hf. cbv zeta. unfold EndpointSupervisor.relay_migrated. rewrite Hf. cbn [negb]. cbv zeta.
  set (v1 := v <| relayRotationPending := false |> <| hysteresis := _ |>). assert (E : logical v1 = logical v) by done. clearbody v1. rewrite <-E.
  destruct (resumeConfirmation n), (bundle v1); try (by split; [|right]); destruct (attempt_succeeds_view now force n v1) as [E1 E2]; (split; [exact E1|by left]).
Qed.

Definition connected_through (n : nat) c : Prop :=
  cstate c = Connected /\ activePath c = Relay /\ activeSession c = n /\ suspended c = false /\ closed c = false.
Lemma connected_view n c c' : view c' = view c -> connected_through n c -> connected_through n c'.
Proof. unfold view, connected_through. intros [=]. intuition congruence. Qed.

Lemma attempt_connects t v force rest c first n w :
  attempting (RecoverMigrating force rest c first n w) v ->
  connected_through n (logical (supervisor_step v (t, OnClient (SessionEnters n Connected)))).
Proof.
  intros [A1 A2 A3 A4]. assert (Hf : operationInFlight v = true) by (by rewrite (wi_flag _ A1), A2).
  pose proof (wi_wait _ A1) as Hq. rewrite A2 in Hq. cbn [migration_of] in Hq.
  destruct (heard_spec n Connected (logical v)) as ((H1 & H2 & H3 & H4 & H5) & H6 & pubs & Ht).
  set (h := heard n Connected (logical v)) in *. set (h1 := h <| waiting := delete w (waiting h) |>).
  assert (E : client_step (logical v) (SessionEnters n Connected) = cutover w n Relay h1).
  { cbn [client_step]. rewrite (session_enters_waited _ _ _ _ _ _ Hq), Nat.eqb_refl. unfold wait_sees. fold h.
    rewrite (one_lookup (waiting h) w (n, Relay)); [done|by rewrite H4]. }
  pose proof (cutover_view w n Relay h1) as (C1 & C2 & C3 & C4 & C5). assert (Hc : closed h1 = false) by (etransitivity; [exact H3|exact A4]).
  rewrite Hc in C5. destruct C5 as (C5 & C6 & C7 & C8 & Ct). assert (Ht1 : told pubs [] (logical v) h1) by exact Ht.
  assert (Hg : getSessionState n h1 = Connected) by (unfold getSessionState; change (sessionState h1) with (sessionState h); by rewrite H6, lookup_insert, decide_True).
  unfold EndpointSupervisor.supervisor_step. cbn [fst snd EndpointSupervisor.supervisor_event].
  rewrite (on_client_told t (SessionEnters n Connected) v (pubs ++ [Connected]) [(w, Ok tt)]) by (rewrite E; rewrite Hg in Ct; exact (told_trans _ _ _ _ _ _ _ Ht1 Ct)).
  cbv zeta. rewrite E. cbn [foldl]. set (c2 := cutover w n Relay h1) in *.
  match goal with |- context [foldl (on_state t) ?x ?l] => set (v1 := foldl (on_state t) x l); assert (Hl : link v1 = link x) by (apply on_states_busy; by left) end.
  clearbody v1. apply link_view in Hl as (L1 & L9 & L11).
  unfold EndpointSupervisor.migration_settles. rewrite L9. cbn. rewrite A2, Nat.eqb_refl.
  destruct (relay_migrated_view t force rest c first n v1) as [R1 R2]; [by rewrite L11|].
  set (v2 := relay_migrated t force rest c first n v1) in *. clearbody v2.
  rewrite probe_sees_id by (unfold probing; by destruct R2 as [-> | ->]).
  pose proof (rotation_check_link v2) as L. set (v3 := rotation_check v2) in *. clearbody v3. apply link_view in L as (M1 & M9 & _).
  assert (Ea : after_rotation t v3 = v3) by (unfold EndpointSupervisor.after_rotation; rewrite M9; by destruct R2 as [-> | ->]).
  rewrite Ea. apply (connected_view n c2); [by rewrite M1, R1, L1|]. split_and!; [congruence|done|done|done|congruence].
Qed.

Lemma foreground_starts now v b :
  wired v -> operation v = None -> stopped v = false -> closed (logical v) = false -> is_some (relay (host v)) = true ->
  bundle v = Some b -> now < expiresAt (current b) -> (relayRotationPending v = true \/ cstate (logical v) <> Connected) ->
  exists force rest w, attempting (RecoverMigrating force rest (current b) true (nextSession v) w) (supervisor_step v (now, SetForeground true)).
Proof.
  intros Hw Ho Hs Hc Hr Hb Hx Hn. set (v1 := v <| foreground := true |>).
  assert (W1 : wired v1) by (destruct Hw; by split). destruct (recoverRelay_keeps now now (relayRotationPending v) v1 W1) as [W2 _].
  enough (exists force rest w, attempting (RecoverMigrating force rest (current b) true (nextSession v) w) (recoverRelay now (relayRotationPending v) v1)) as (force & rest & w & Ha).
  { exists force, rest, w. unfold EndpointSupervisor.supervisor_step. apply attempting_settled. cbn [fst snd EndpointSupervisor.supervisor_event].
    unfold EndpointSupervisor.setForeground. cbv zeta. eapply attempting_link; [apply scheduleDirectProbe_link|exact Ha]. }
  assert (Hop : exists force rest w, operation (recoverRelay now (relayRotationPending v) v1) = Some (RecoverMigrating force rest (current b) true (nextSession v) w) /\
     foreground (recoverRelay now (relayRotationPending v) v1) = true /\ closed (logical (recoverRelay now (relayRotationPending v) v1)) = false);
    [|destruct Hop as (force & rest & w & E1 & E2 & E3); exists force, rest, w; by split].
  clear W2. unfold EndpointSupervisor.recoverRelay. change (bundle v1) with (bundle v). change (relay (host v1)) with (relay (host v)). rewrite Hb.
  destruct (relay (host v)) as [r|] eqn:Er; [|done].
  assert (Hfl : operationInFlight v = false) by (by rewrite (wi_flag _ Hw), Ho).
  assert (Hg : stopped v1 || negb (foreground v1) || operationInFlight v1 || (negb (relayRotationPending v) && bool_decide (cstate (logical v1) = Connected)) = false).
  { change (stopped v1) with (stopped v). change (operationInFlight v1) with (operationInFlight v). rewrite Hs, Hfl. cbn.
    destruct Hn as [-> | Hn]; [done|]. by rewrite bool_decide_eq_false_2, andb_false_r. }
  rewrite Hg. cbv zeta.
  set (cs := js_filter _ _). assert (Ecs : exists rest, cs = current b :: rest).
  { unfold cs. cbn. rewrite (proj2 (Z.ltb_lt _ _) Hx). by eexists. }
  destruct Ecs as [rest ->]. cbn [EndpointSupervisor.try_credentials].
  set (v2 := v1 <| operationInFlight := true |>). assert (Hi : idle v2).
  { destruct W1 as [X1 X2 X3 X4]. split; [done| |done|done]. change (operation v1) with (operation v) in X2. rewrite Ho in X2. exact X2. }
  unfold open_relay. change (relay (host v2)) with (relay (host v)). change (bundle v2) with (bundle v). rewrite Er, Hb. cbv zeta.
  assert (Hgs : getSessionState (nextSession v2) (logical v2) = Disconnected).
  { unfold getSessionState. destruct (sessionState (logical v2) !! nextSession v2) eqn:E; [|done]. apply (id_fresh _ Hi) in E. lia. }
  unfold migrateTo. cbv zeta.
  match goal with |- context [if closed ?c then (migration_fails _ _ _ _, _) else _] => change (closed c) with (closed (logical v)) end. rewrite Hc.
  match goal with |- context [getSessionState _ ?c] => change (getSessionState (nextSession v2) c) with (getSessionState (nextSession v2) (logical v2)) end.
  rewrite Hgs, decide_False by done.
  match goal with |- context [if ?b then _ else _] => change b with (closed (logical v)); rewrite Hc end.
  eexists _, _, _. split_and!; [reflexivity|reflexivity|exact Hc].
Qed.

(** C11. Coming to the foreground reconnects: a supervisor that is not stopped and idle,
    with a relay and an unexpired credential, and a client that is not closed and not
    connected (or whose lease asked for a rotation), dials the relay at once; and after
    any run of [undisturbed] events (answers, timers, other sessions, storage,
    subscriptions, but no background and no suspension or close of the client),
    when that session connects the application's client is connected through it,
    neither suspended nor closed. *)
Theorem foreground_reconnects startedAt x0 kept st0 path0 es1 now b es2 t :
  let v := supervisor_run (new_supervisor startedAt x0 kept st0 path0) es1 in
  possible (new_supervisor startedAt x0 kept st0 path0) es1 -> operation v = None -> stopped v = false -> closed (logical v) = false ->
  is_some (relay (host v)) = true -> bundle v = Some b -> now < expiresAt (current b) ->
  (relayRotationPending v = true \/ cstate (logical v) <> Connected) ->
  let v1 := supervisor_step v (now, SetForeground true) in
  exists w, (exists path, waiting (logical v1) !! w = Some (nextSession v, path)) /\
    (possible v1 es2 -> Forall (fun x => undisturbed (nextSession v) w x.2) es2 ->
     connected_through (nextSession v) (logical (supervisor_step (supervisor_run v1 es2) (t, OnClient (SessionEnters (nextSession v) Connected))))).
Proof.
  cbv zeta. intros Hp Ho Hs Hc Hr Hb Hx Hn. pose proof (run_wired es1 _ (new_wired startedAt x0 kept st0 path0) Hp) as Hw.
  destruct (foreground_starts now _ b Hw Ho Hs Hc Hr Hb Hx Hn) as (force & rest & w & Ha). exists w. split.
  - exists Relay. apply one_lookup. by rewrite (wi_wait _ (at_wired _ _ Ha)), (at_operation _ _ Ha).
  - intros Hp2 Hu. eapply attempt_connects, undisturbed_run; [exact Ha|done|done].
Qed.
End Supervisor.

(** ** The hysteresis, from the history *)

Inductive Observation := DirectSuccess | DirectFailure | Migrated.
Definition observe (o : EndpointHysteresisOptions) h (x : Z * Observation) : MobileEndpointHysteresis :=
  match x.2 with
  | DirectSuccess => (recordDirectSuccess o x.1 h).1
  | DirectFailure => recordDirectFailure o x.1 h
  | Migrated => recordMigration x.1 h
  end.

(** What the history says, the latest observation first: the end of the cooldown, the
    last migration, and the successes counted since the last failure or migration. *)
Fixpoint cooldown_end (o : EndpointHysteresisOptions) (past : list (Z * Observation)) : Z :=
  match past with
  | [] => 0
  | (t, DirectFailure) :: _ => t + failureCooldownMs o
  | _ :: past => cooldown_end o past
  end.
Fixpoint last_migration (startedAt : Z) (past : list (Z * Observation)) : Z :=
  match past with [] => startedAt | (t, Migrated) :: _ => t | _ :: past => last_migration startedAt past end.
Fixpoint streak (o : EndpointHysteresisOptions) (past : list (Z * Observation)) : list Z :=
  match past with
  | (t, DirectSuccess) :: past => streak o past ++ (if cooldown_end o past <=? t then [t] else [])
  | _ => []
  end.
(** The direct path has earned its return with a success at [now]. *)
Definition earned (o : EndpointHysteresisOptions) (startedAt : Z) (past : list (Z * Observation)) (now : Z) : bool :=
  let successes := streak o past ++ [now] in
  (cooldown_end o past <=? now) && (directSuccessesRequired o <=? Z.of_nat (length successes)) &&
  (directObservationMs o <=? now - default now (head successes)) && (minimumDwellMs o <=? now - last_migration startedAt past).

Lemma recordDirectSuccess_fields o now h :
  recordDirectSuccess o now h =
  if now <? cooldownUntil h then (h, false)
  else
    let n := consecutiveDirectSuccesses h + 1 in
    let from := if consecutiveDirectSuccesses h =? 0 then Some now else directObservationStartedAt h in
    ({| consecutiveDirectSuccesses := n; directObservationStartedAt := from; cooldownUntil := cooldownUntil h; lastMigrationAt := lastMigrationAt h |},
     (directSuccessesRequired o <=? n) && match from with Some t => directObservationMs o <=? now - t | None => false end &&
     (minimumDwellMs o <=? now - lastMigrationAt h)).
Proof. unfold recordDirectSuccess. destruct (now <? _); [done|]. cbv zeta. by destruct (_ =? 0). Qed.

Lemma history_state o startedAt past :
  foldr (fun x h => observe o h x) (new_hysteresis startedAt) past =
  {| consecutiveDirectSuccesses := Z.of_nat (length (streak o past)); directObservationStartedAt := head (streak o past);
     cooldownUntil := cooldown_end o past; lastMigrationAt := last_migration startedAt past |}.
Proof.
  induction past as [|[t x] past IH]; [done|]. cbn [foldr]. rewrite IH. destruct x; [|done..].
  unfold observe. cbn [fst snd streak cooldown_end last_migration]. rewrite recordDirectSuccess_fields. cbn [cooldownUntil consecutiveDirectSuccesses directObservationStartedAt].
  destruct (Z.ltb_spec t (cooldown_end o past)) as [Hc|Hc]; [rewrite (proj2 (Z.leb_gt _ _) Hc), app_nil_r; done|].
  rewrite (proj2 (Z.leb_le _ _) Hc). cbv zeta. cbn [fst]. rewrite length_app. destruct (streak o past) as [|t0 l]; [done|].
  cbn [length head app]. rewrite (proj2 (Z.eqb_neq _ 0)) by lia. f_equal. lia.
Qed.

(** C13. When the direct path is taken back: after any history of successes, failures and
    migrations, the hysteresis accepts a success exactly when no failure is younger than
    its cooldown, the successes counted since the last failure or migration, with this
    one, are as many as required and reach back over the observation time, and the last
    migration is as old as the dwell time. *)
Theorem hysteresis_exact o startedAt past now :
  (recordDirectSuccess o now (foldr (fun x h => observe o h x) (new_hysteresis startedAt) past)).2 = earned o startedAt past now.
Proof.
  rewrite history_state, recordDirectSuccess_fields. cbn [cooldownUntil consecutiveDirectSuccesses directObservationStartedAt lastMigrationAt].
  unfold earned. cbv zeta. rewrite length_app. destruct (Z.ltb_spec now (cooldown_end o past)) as [Hc|Hc]; [by rewrite (proj2 (Z.leb_gt _ _) Hc)|].
  rewrite (proj2 (Z.leb_le _ _) Hc). cbn [snd andb]. destruct (streak o past) as [|t0 l]; [done|].
  cbn [length head app default]. rewrite (proj2 (Z.eqb_neq _ 0)) by lia. f_equal. f_equal. f_equal. lia.
Qed.

(** ** Concrete runs *)

(** No URL parses: no path is Tailscale's for its name. *)
Local Instance no_urls : UrlEnv := {| parse_url _ := None; isIP _ := 0 |}.

Definition sample_relay : MobileRelayEndpoint := {| directorUrl := "d"; cellUrl := "c"; assignmentEpoch := 1; relay_hostId := "h" |}.
Definition sample_host : HostProfile :=
  {| endpoint := "ws://10.0.0.2"; endpoints := None; relayHostId := Some "h"; relay := Some sample_relay; connectionMode := None |}.
(** A credential that expires at [t]. *)
Definition sample_bundle (t : Z) : MobileRelayCredentialBundle :=
  {| current := {| token := "t"; hash := "t"; version := 1; expiresAt := t |}; grace := None; bundle_pending := None |}.
Definition sample_pending (n : nat) : PendingCredential :=
  {| pending_token := of_chars [chr n]; pending_hash := of_chars [chr n]; pending_reqId := of_chars [chr n] |}.
Definition far : Z := 10 ^ 12.
Definition sample_new (t : Z) : MobileEndpointSupervisor := new_supervisor 0 sample_host (Some (sample_bundle t)) Connecting Lan.
Local Notation run := (supervisor_run (fun t => t) (fun _ => None) (fun _ => None) (fun _ => AuthenticationError) sample_pending (fun _ => None) (fun _ => None)).
Local Notation step := (supervisor_step (fun t => t) (fun _ => None) (fun _ => None) (fun _ => AuthenticationError) sample_pending (fun _ => None) (fun _ => None)).

(** The direct session fails and the relay takes over. *)
Definition failover : list (Z * EndpointSupervisor.Event) :=
  [(0, BundleRead true); (1, OnClient (SessionEnters 0 Reconnecting)); (2, OnClient (SessionEnters 1 Connected))].

Lemma background_releases_relay_witness :
  let es := [(0, BundleRead true); (1, OnClient (SessionEnters 0 Reconnecting)); (2, SetForeground false); (3, OnClient (SessionEnters 1 Connected))] in
  let v := run (sample_new far) es in
  activePath (logical v) = Relay /\ closed (logical v) || suspended (logical v) = true.
Proof.
  split; [by vm_compute|].
  apply (background_releases_relay (fun t => t) (fun _ => None) (fun _ => None) (fun _ => AuthenticationError) sample_pending
    (fun _ => None) (fun _ => None) 0 sample_host (Some (sample_bundle far)) Connecting Lan
    [(0, BundleRead true); (1, OnClient (SessionEnters 0 Reconnecting)); (2, SetForeground false); (3, OnClient (SessionEnters 1 Connected))]);
    [vm_compute; repeat split; lia|by vm_compute..].
Defined.

(** Three probes succeed, half a minute apart and more, and the direct path is back. *)
Definition probes : list (Z * EndpointSupervisor.Event) :=
  [(60002, TimerFires 0); (60003, OnClient (SessionEnters 2 Connected)); (75003, TimerFires 1); (75004, OnClient (SessionEnters 3 Connected)); (90004, TimerFires 2)].
Lemma no_flapping_witness :
  activePath (logical (run (sample_new far) (failover ++ probes ++ [(90005, OnClient (SessionEnters 4 Connected))]))) = Lan /\ 60000 <= 90005 - 2.
Proof.
  split; [by vm_compute|].
  apply (no_flapping (fun t => t) (fun _ => None) (fun _ => None) (fun _ => AuthenticationError) sample_pending
    (fun _ => None) (fun _ => None) 0 sample_host (Some (sample_bundle far)) Connecting Lan
    [(0, BundleRead true); (1, OnClient (SessionEnters 0 Reconnecting))] (2, OnClient (SessionEnters 1 Connected)) probes
    (90005, OnClient (SessionEnters 4 Connected)));
    [vm_compute; repeat split; lia|repeat constructor; cbn; lia|by vm_compute..].
Defined.

(** On the relay, to the background and back, with a request of the application meanwhile. *)
Lemma foreground_reconnects_witness :
  let v := run (sample_new far) (failover ++ [(3, SetForeground false)]) in
  suspended (logical v) = true /\ nextSession v = 2%nat /\
  connected_through (nextSession v) (logical (step (run (step v (4, SetForeground true)) [(5, OnClient (SendRequest "m" None))])
    (6, OnClient (SessionEnters (nextSession v) Connected)))).
Proof.
  cbv zeta. split; [by vm_compute|]. split; [by vm_compute|].
  destruct (foreground_reconnects (fun t => t) (fun _ => None) (fun _ => None) (fun _ => AuthenticationError) sample_pending
    (fun _ => None) (fun _ => None) 0 sample_host (Some (sample_bundle far)) Connecting Lan (failover ++ [(3, SetForeground false)]) 4 (sample_bundle far)
    [(5, OnClient (SendRequest "m" None))] 6) as (w & _ & H).
  1: vm_compute; repeat split; lia.
  1, 2, 3, 4, 5, 6: by vm_compute.
  1: right; by vm_compute.
  apply H; [vm_compute; repeat split|repeat constructor].
Defined.

(** The phone comes to the foreground while the probe it had started before it went
    to the background is still waiting: [recoverRelay] refuses because an operation is in
    flight, and the end of the probe does not make up for it. The phone is in the
    foreground, its client suspended and disconnected, and nothing but the next direct
    probe is due: away from the direct path it stays disconnected. *)
Theorem foreground_lost_while_probing :
  let v := run (sample_new far) (failover ++ [(15002, TimerFires 0); (15003, SetForeground false); (15004, SetForeground true); (27002, ProbeTimesOut)]) in
  foreground v = true /\ is_some (bundle v) = true /\ cstate (logical v) = Disconnected /\ suspended (logical v) = true /\ closed (logical v) = false /\
  operation v = None /\ leaseTimer v = None /\ map snd (map_to_list (timers v)) = [(ProbeTimer, 0)].
Proof. vm_compute. by split_and!. Qed.

(** A rotation whose first request is lost leaves its pending credential in storage
    but not in memory; the next rotation draws another one and overwrites it without
    asking the host about it. *)
Theorem pending_material_lost :
  let first := [(0, BundleRead true); (1, OnClient (SessionEnters 0 Connected)); (2, RotationWritten true); (3, OnClient (RequestSettles 0 (Rejected "lost")))] in
  let second := [(4, OnClient (SessionEnters 0 Handshaking)); (5, OnClient (SessionEnters 0 Connected)); (6, RotationWritten true)] in
  let v1 := run (sample_new 1000) first in
  let v2 := run v1 second in
  stored v1 = Some ((sample_bundle 1000) <| bundle_pending := Some (sample_pending 0) |>) /\ bundle v1 = Some (sample_bundle 1000) /\
  stored v2 = Some ((sample_bundle 1000) <| bundle_pending := Some (sample_pending 1) |>).
Proof. vm_compute. by split_and!. Qed.
