(* ===== verification/MobileFrames.v ===== *)
(** * The phone's frames (mobile/src/transport)

    What the direct client of DirectClient.v reads and writes: the NaCl box of e2ee.ts,
    the shape of a response (rpc-response-shape.ts), the binary terminal and screencast
    frames (terminal-stream-protocol.ts, rpc-client-terminal-binary-frame.ts,
    browser-screencast-protocol.ts), a subscription's parameters
    (rpc-client-terminal-subscription.ts), and the verdict the screens show
    (connection-health.ts, with src/shared/remote-runtime-tailscale-hint.ts).

    The NaCl box, [TextDecoder], [JSON.parse] and [new URL] are parameters. An [atob]
    that throws is [None], as a box that does not open: both drop the message.

    Theorems: what one end encrypts the other reads; the phone's reader accepts the
    desktop's frames but for the opcodes it does not know; a snapshot cut in chunks is
    delivered whole. *)

From Stdlib Require Import QArith.
From S2P Require Import Prelude JsMap Json JsText Base64 E2eeContract RelayUrls TerminalStream LogicalClient.

Local Open Scope string_scope.
Local Open Scope list_scope.
Local Open Scope Z_scope.

Class PhoneEnv := {
  JSON_parse : string -> option json;
  textDecode : list Z -> string;
  (** [nacl.box.after(m, nonce, k)], [nacl.box.open.after(c, nonce, k)] *)
  box_after : list Z -> list Z -> list Z -> list Z;
  box_open_after : list Z -> list Z -> list Z -> option (list Z) }.

(** ** The encrypted channel *)

Definition nonceLength : nat := 24.
Definition overheadLength : nat := 16.

(** [publicKeyFromBase64] *)
Definition publicKeyFromBase64 (b64 : string) : result (list Z) :=
  match atob b64 with
  | None => Throw "InvalidCharacterError"
  | Some key =>
      if (length key =? 32)%nat then Ok key
      else Throw ("Invalid public key: expected 32 bytes, got " +:+ nat_digits (Z.of_nat (length key)) +:+ " from " +:+
                  String quote "" +:+ of_chars (take 20 (chars b64)) +:+ "..." +:+ String quote "")
  end.

Section Channel.
Context `{PhoneEnv}.

(** [nonce] is what [nacl.randomBytes] draws. *)
Definition encryptBytes (nonce plaintext sharedKey : list Z) : list Z := nonce ++ box_after plaintext nonce sharedKey.
Definition encrypt (nonce : list Z) (plaintext : string) (sharedKey : list Z) : string :=
  btoa (encryptBytes nonce (utf8 plaintext) sharedKey).
Definition decryptBytes (bundle sharedKey : list Z) : option (list Z) :=
  if (length bundle <? nonceLength + overheadLength)%nat then None
  else box_open_after (drop nonceLength bundle) (take nonceLength bundle) sharedKey.
Definition decrypt (encrypted : string) (sharedKey : list Z) : option string :=
  match atob encrypted with
  | Some bundle => textDecode <$> decryptBytes bundle sharedKey
  | None => None
  end.

(** What one end encrypts the other end reads. *)
Theorem phone_decrypts nonce s key :
  (forall c n k m, box_open_after c n k = Some m <-> c = box_after m n k) ->
  (forall m n k, length (box_after m n k) = (length m + overheadLength)%nat) ->
  (forall m n k, bytes_ok m -> bytes_ok (box_after m n k)) ->
  length nonce = nonceLength -> bytes_ok nonce -> textDecode (utf8 s) = s ->
  decrypt (encrypt nonce s key) key = Some s.
Proof.
  intros Hbox Hlen Hok Hn Hb Ht. unfold decrypt, encrypt. rewrite atob_btoa by (apply Forall_app; split; [done|apply Hok, utf8_ok]).
  unfold decryptBytes, encryptBytes. rewrite length_app, Hlen, Hn.
  destruct (Nat.ltb_spec (nonceLength + (length (utf8 s) + overheadLength)) (nonceLength + overheadLength)); [lia|].
  rewrite <-Hn, drop_app_length, take_app_length, (proj2 (Hbox _ _ _ (utf8 s)) eq_refl). cbn. by rewrite Ht.
Qed.
End Channel.

(** ** Responses *)

Inductive RpcResponse :=
  | RpcSuccess (id : string) (result : json) (streaming : bool)
  | RpcFailure (id : string) (code message : string) (error : json).
Definition rpc_id (r : RpcResponse) : string := match r with RpcSuccess id _ _ | RpcFailure id _ _ _ => id end.

(** The response [isRpcResponse] recognises. *)
Definition isRpcResponse (value : json) : option RpcResponse :=
  match as_string (prop "id" value) with
  | None => None
  | Some id =>
      match prop "ok" value with
      | Some (JBool true) =>
          match prop "result" value with
          | Some result => Some (RpcSuccess id result (strict_eq (prop "streaming" value) (Some (JBool true))))
          | None => None
          end
      | Some (JBool false) =>
          match prop "error" value with
          | Some error =>
              match as_string (prop "code" error), as_string (prop "message" error) with
              | Some code, Some message => Some (RpcFailure id code message error)
              | _, _ => None
              end
          | None => None
          end
      | _ => None
      end
  end.

(** [isTerminalSubscribedResult], [isStreamingSubscriptionReadyResult]: the id they find. *)
Definition has_type (t : string) (value : json) : bool := strict_eq (prop "type" value) (Some (JStr t)).
Definition isTerminalSubscribedResult (value : json) : option jsnum :=
  if has_type "subscribed" value then as_number (prop "streamId" value) else None.
Definition isStreamingSubscriptionReadyResult (value : json) : option string :=
  if has_type "ready" value then as_string (prop "subscriptionId" value) else None.

(** ** A subscription's parameters *)

Definition updateTerminalSubscriptionViewport (terminal : string) (viewport : json) (method : string) (params : option json) : option json :=
  match params with
  | Some p =>
      if String.eqb method "terminal.subscribe" && is_object p && strict_eq (prop "terminal" p) (Some (JStr terminal))
      then Some (obj_json (<["viewport" := Some viewport]> (spread p)))
      else params
  | None => params
  end.
Definition buildTerminalUnsubscribeParams (params : option json) : option json :=
  match (p ← params; as_string (prop "terminal" p)) with
  | None => None
  | Some terminal =>
      match (p ← params; c ← prop "client" p; as_string (prop "id" c)) with
      | Some clientId =>
          if String.eqb clientId "" then Some (JObj [("subscriptionId", JStr terminal)])
          else Some (JObj [("subscriptionId", JStr (terminal +:+ ":" +:+ clientId)); ("client", JObj [("id", JStr clientId)])])
      | None => Some (JObj [("subscriptionId", JStr terminal)])
      end
  end.

(** ** Terminal frames *)

Definition isPhoneOpcode (o : TerminalStreamOpcode) : bool :=
  match o with Output | SnapshotStart | SnapshotChunk | SnapshotEnd | Resized | TerminalStream.Error | Metadata => true | _ => false end.
Definition isTerminalStreamOpcode (value : Z) : option TerminalStreamOpcode :=
  js_find (fun o => value =? opcode_number o) [Output; SnapshotStart; SnapshotChunk; SnapshotEnd; Resized; TerminalStream.Error; Metadata].
Definition decodeTerminalStreamFrame (bytes : list Z) : option TerminalStreamFrame :=
  if (length bytes <? HEADER_BYTES)%nat then None
  else if negb (getUint8 bytes 0 =? TERMINAL_STREAM_KIND) || negb (getUint8 bytes 1 =? TERMINAL_STREAM_VERSION) then None
  else
    match isTerminalStreamOpcode (getUint8 bytes 2) with
    | None => None
    | Some o =>
        let high := getUint32 bytes 8 in
        let low := getUint32 bytes 12 in
        Some {| opcode := o; streamId := getUint32 bytes 4; seq := inject_Z (js_round (high * 0x100000000 + low)); payload := drop HEADER_BYTES bytes |}
    end.

(** The phone reads what the desktop's reader reads, but for the opcodes only a host
    sends or receives. *)
Theorem phone_decode bytes :
  decodeTerminalStreamFrame bytes =
  match TerminalStream.decodeTerminalStreamFrame bytes with
  | Some f => if isPhoneOpcode (opcode f) then Some f else None
  | None => None
  end.
Proof.
  unfold decodeTerminalStreamFrame, TerminalStream.decodeTerminalStreamFrame.
  destruct (_ <? _)%nat; [done|]. destruct (_ || _); [done|]. generalize (getUint8 bytes 2). intros value.
  destruct (TerminalStream.isTerminalStreamOpcode value) as [o|] eqn:E.
  - apply isTerminalStreamOpcode_Some in E as ->. by destruct o.
  - unfold isTerminalStreamOpcode. unfold TerminalStream.isTerminalStreamOpcode in E. rewrite js_find_None in E.
    destruct (js_find _ _) as [o|] eqn:E'; [|done]. apply js_find_Some in E' as [Hin Ho].
    rewrite Forall_forall in E. exfalso. specialize (E o). rewrite Ho in E. discriminate E. set_solver.
Qed.

Section Frames.
Context `{PhoneEnv}.

Definition decodeTerminalStreamJson (payload : list Z) : option json := JSON_parse (textDecode payload).

Record TerminalSnapshotState := { meta : json; chunks : list string }.
(** What a frame does: the snapshots after it, whether it counts as traffic, and what
    the listener is given. *)
Record FrameOutcome := { snapshots : jsmap jsnum TerminalSnapshotState; counted : bool; given : option json }.

(** [{ ...meta, type, streamId, ... }] *)
Definition with_fields (m : json) (fields : list (string * json)) : json :=
  obj_json (foldl (fun o '(k, v) => <[k := Some v]> o) (spread m) fields).

Definition handleTerminalBinaryFrame (bytes : list Z) (listening : jsnum -> bool) (s : jsmap jsnum TerminalSnapshotState) : FrameOutcome :=
  let ignored := {| snapshots := s; counted := false; given := None |} in
  match decodeTerminalStreamFrame bytes with
  | None => ignored
  | Some frame =>
      let id := NInt (streamId frame) in
      if negb (listening id) then {| snapshots := s; counted := true; given := None |}
      else
        match opcode frame with
        | Output =>
            {| snapshots := s; counted := true;
               given := Some (JObj [("type", JStr "data"); ("streamId", JNum id); ("chunk", JStr (textDecode (payload frame)))]) |}
        | SnapshotStart =>
            match decodeTerminalStreamJson (payload frame) with
            | Some m => if truthy (Some m) then {| snapshots := <[id := {| meta := m; chunks := [] |}]> s; counted := true; given := None |} else ignored
            | None => ignored
            end
        | SnapshotChunk =>
            match s !! id with
            | Some x => {| snapshots := <[id := {| meta := meta x; chunks := chunks x ++ [textDecode (payload frame)] |}]> s; counted := true; given := None |}
            | None => {| snapshots := s; counted := true; given := None |}
            end
        | SnapshotEnd =>
            match s !! id with
            | Some x =>
                let kind := if strict_eq (prop "kind" (meta x)) (Some (JStr "resized")) then "resized" else "scrollback" in
                {| snapshots := delete id s; counted := true;
                   given := Some (with_fields (meta x) [("type", JStr kind); ("streamId", JNum id); ("serialized", JStr (join "" (chunks x)))]) |}
            | None => {| snapshots := s; counted := true; given := None |}
            end
        | Resized | Metadata =>
            match decodeTerminalStreamJson (payload frame) with
            | Some m =>
                if truthy (Some m) then
                  {| snapshots := s; counted := true;
                     given := Some (with_fields m [("type", JStr (if bool_decide (opcode frame = Resized) then "resized" else "metadata")); ("streamId", JNum id)]) |}
                else ignored
            | None => ignored
            end
        | TerminalStream.Error =>
            {| snapshots := s; counted := true;
               given := Some (JObj [("type", JStr "error"); ("streamId", JNum id); ("message", JStr (textDecode (payload frame)))]) |}
        | _ => ignored
        end
  end.
(** The binary messages of one connection, in order. *)
Definition receive (listening : jsnum -> bool) (r : FrameOutcome) (bytes : list Z) : FrameOutcome :=
  handleTerminalBinaryFrame bytes listening (snapshots r).
Definition receive_all (listening : jsnum -> bool) (r : FrameOutcome) (l : list (list Z)) : FrameOutcome := foldl (receive listening) r l.

Lemma handle_encoded o sid q p :
  0 <= sid < 2 ^ 32 -> 0 <= seq_integer q < 2 ^ 64 -> js_round (seq_integer q) = seq_integer q -> isPhoneOpcode o = true ->
  decodeTerminalStreamFrame (encodeTerminalStreamFrame {| opcode := o; streamId := sid; seq := q; payload := p |}) =
  Some {| opcode := o; streamId := sid; seq := inject_Z (seq_integer q); payload := p |}.
Proof.
  intros Hs Hq Hr Ho. rewrite phone_decode, decode_encode by done. cbn. rewrite Ho. unfold ToUint32. by rewrite Z.mod_small.
Qed.

(** A snapshot that the host cut in chunks reaches the listener in one piece: the
    metadata it began with, and the text of its chunks in order. Nothing of it stays
    behind, and the snapshots of other streams are as before. *)
Theorem snapshot_delivered listening r sid q m start cs fin :
  0 <= sid < 2 ^ 32 -> 0 <= seq_integer q < 2 ^ 64 -> js_round (seq_integer q) = seq_integer q -> listening (NInt sid) = true ->
  decodeTerminalStreamJson start = Some m -> truthy (Some m) = true ->
  let frame o p := encodeTerminalStreamFrame {| opcode := o; streamId := sid; seq := q; payload := p |} in
  let r' := receive_all listening r (frame SnapshotStart start :: map (frame SnapshotChunk) cs ++ [frame SnapshotEnd fin]) in
  let kind := if strict_eq (prop "kind" m) (Some (JStr "resized")) then "resized" else "scrollback" in
  given r' = Some (with_fields m [("type", JStr kind); ("streamId", JNum (NInt sid)); ("serialized", JStr (join "" (map textDecode cs)))]) /\
  snapshots r' !! NInt sid = None /\ (forall id, id <> NInt sid -> snapshots r' !! id = snapshots r !! id).
Proof.
  intros Hs Hq Hr Hl Hm Ht frame r' kind. unfold r', receive_all. cbn [foldl]. rewrite foldl_app. cbn [foldl]. clear r'.
  set (r1 := receive listening r (frame SnapshotStart start)).
  assert (H1 : snapshots r1 !! NInt sid = Some {| meta := m; chunks := [] |} /\ forall id, id <> NInt sid -> snapshots r1 !! id = snapshots r !! id).
  { unfold r1, receive, handleTerminalBinaryFrame, frame. rewrite handle_encoded by done. cbn [opcode streamId payload]. rewrite Hl. cbn [negb]. rewrite Hm, Ht. cbn [snapshots].
    split; [apply jm_lookup_insert_eq|]. intros id Hid. by apply jm_lookup_insert_ne. }
  clearbody r1.
  enough (H2 : forall l r2, snapshots r2 !! NInt sid = Some {| meta := m; chunks := l |} ->
    let r3 := foldl (receive listening) r2 (map (frame SnapshotChunk) cs) in
    snapshots r3 !! NInt sid = Some {| meta := m; chunks := l ++ map textDecode cs |} /\ forall id, id <> NInt sid -> snapshots r3 !! id = snapshots r2 !! id).
  { destruct H1 as [H1 H1']. destruct (H2 [] r1 H1) as [H3 H3']. set (r3 := foldl (receive listening) r1 (map (frame SnapshotChunk) cs)) in *. clearbody r3. cbn [app] in H3.
    unfold receive, handleTerminalBinaryFrame, frame. rewrite !handle_encoded by done. cbn [opcode streamId payload]. rewrite Hl. cbn [negb]. rewrite H3. cbn [given snapshots meta chunks].
    split; [done|]. split; [apply jm_lookup_delete_eq|]. intros id Hid. rewrite jm_lookup_delete_ne by done. by rewrite H3', H1'. }
  induction cs as [|c cs IH]; intros l r2 Hr2; cbn [map foldl]; [by rewrite app_nil_r|].
  set (r3 := receive listening r2 (frame SnapshotChunk c)).
  assert (H3 : snapshots r3 !! NInt sid = Some {| meta := m; chunks := l ++ [textDecode c] |} /\ forall id, id <> NInt sid -> snapshots r3 !! id = snapshots r2 !! id).
  { unfold r3, receive, handleTerminalBinaryFrame, frame. rewrite handle_encoded by done. cbn. rewrite Hl, Hr2. cbn.
    split; [apply jm_lookup_insert_eq|]. intros id Hid. by apply jm_lookup_insert_ne. }
  clearbody r3. destruct H3 as [H3 H3']. destruct (IH _ _ H3) as [H4 H4']. rewrite <-app_assoc in H4. split; [exact H4|].
  intros id Hid. by rewrite H4', H3'.
Qed.

(** ** Screencast frames *)

Definition BROWSER_SCREENCAST_KIND : Z := 0x62.
Definition BROWSER_SCREENCAST_VERSION : Z := 1.
Definition METADATA_KEYS : list string :=
  ["offsetTop"; "pageScaleFactor"; "deviceWidth"; "deviceHeight"; "imageWidth"; "imageHeight"; "scrollOffsetX"; "scrollOffsetY"; "timestamp"].
Inductive BrowserScreencastFormat := Jpeg | Png.
Definition byteToFormat (value : Z) : option BrowserScreencastFormat :=
  if value =? 1 then Some Jpeg else if value =? 2 then Some Png else None.
Record BrowserScreencastFrame := {
  screencast_seq : Z; format : BrowserScreencastFormat; metadata : list (string * jsnum); image : list Z }.

Definition decodeFrameMetadata (bytes : list Z) : option (list (string * jsnum)) :=
  match JSON_parse (textDecode bytes) with
  | Some (JObj fields) =>
      Some (omap (fun key => match isFinite (assoc key fields) with Some n => Some (key, n) | None => None end) METADATA_KEYS)
  | _ => None
  end.
Definition decodeBrowserScreencastFrame (bytes : list Z) : option BrowserScreencastFrame :=
  if (length bytes <? HEADER_BYTES)%nat then None
  else if negb (getUint8 bytes 0 =? BROWSER_SCREENCAST_KIND) || negb (getUint8 bytes 1 =? BROWSER_SCREENCAST_VERSION) then None
  else if negb (getUint8 bytes 2 =? 1) then None
  else
    match byteToFormat (getUint8 bytes 3) with
    | None => None
    | Some f =>
        let metadataLength := getUint32 bytes 8 in
        if negb (getUint32 bytes 12 =? 0) then None
        else
          let imageStart := Z.of_nat HEADER_BYTES + metadataLength in
          if Z.of_nat (length bytes) <? imageStart then None
          else
            match decodeFrameMetadata (subarray HEADER_BYTES (Z.to_nat imageStart) bytes) with
            | Some m => Some {| screencast_seq := getUint32 bytes 4; format := f; metadata := m; image := drop (Z.to_nat imageStart) bytes |}
            | None => None
            end
    end.
End Frames.

(** ** Tailscale addresses *)

(** [/(?:^|\.)ts\.net$/i] *)
Definition magic_dns (host : string) : bool := let h := to_lower host in String.eqb h "ts.net" || endsWith h ".ts.net".
(** The value of an octet of [IPV4_LITERAL_RE]: no leading zero, at most 255. *)
Definition literal_octet (l : list Ascii.ascii) : option Z :=
  if forallb digit_char l && negb (bool_decide (l = [])) && ((length l =? 1)%nat || negb (bool_decide (head l = Some (chr 48)))) then
    let v := foldl (fun v c => v * 10 + (Z.of_nat (Ascii.nat_of_ascii c) - 48)) 0 l in
    if (length l <=? 3)%nat && (v <=? 255) then Some v else None
  else None.
(** An IPv4 literal in 100.64.0.0/10. *)
Definition cgnat (host : string) : bool :=
  match map literal_octet (split_char (chr 46) (chars host)) with
  | [Some a; Some b; Some _; Some _] => (a =? 100) && (64 <=? b) && (b <=? 127)
  | _ => false
  end.
Definition tailscale_ipv6 (host : string) : bool := starts_with "fd7a:115c:a1e0:" (to_lower host).

Definition is_letter (c : Ascii.ascii) : bool := let n := Ascii.nat_of_ascii (lower c) in ((97 <=? n) && (n <=? 122))%nat.
(** [.replace(/^[a-z]+:\/\//i, '')] *)
Fixpoint drop_letters (l : list Ascii.ascii) : list Ascii.ascii :=
  match l with c :: l' => if is_letter c then drop_letters l' else l | [] => [] end.
Definition strip_scheme (l : list Ascii.ascii) : list Ascii.ascii :=
  match l with
  | c :: _ =>
      if is_letter c then
        match drop_letters l with
        | a :: b :: d :: rest => if Ascii.eqb a (chr 58) && Ascii.eqb b (chr 47) && Ascii.eqb d (chr 47) then rest else l
        | _ => l
        end
      else l
  | [] => []
  end.
(** [.split(/[/:?#]/, 1)[0]] *)
Fixpoint up_to_delimiter (l : list Ascii.ascii) : list Ascii.ascii :=
  match l with
  | [] => []
  | c :: l => if bool_decide (c ∈ [chr 47; chr 58; chr 63; chr 35]) then [] else c :: up_to_delimiter l
  end.
Definition drop_first (c : Ascii.ascii) (l : list Ascii.ascii) : list Ascii.ascii :=
  match l with d :: l' => if Ascii.eqb d c then l' else l | [] => [] end.
Definition drop_last (c : Ascii.ascii) (l : list Ascii.ascii) : list Ascii.ascii := reverse (drop_first c (reverse l)).

Section Hosts.
Context `{UrlEnv}.

Definition extractHost (endpoint : string) : option string :=
  let host := match parse_url endpoint with
              | Some u => non_empty (Some (hostname u))
              | None => non_empty (Some (of_chars (up_to_delimiter (strip_scheme (chars endpoint)))))
              end in
  match host with
  | None => None
  | Some h => non_empty (Some (of_chars (drop_last (chr 46) (drop_last (chr 93) (drop_first (chr 91) (chars h))))))
  end.
Definition isTailscaleEndpoint (endpoint : option string) : bool :=
  match (e ← non_empty endpoint; extractHost e) with
  | Some host => magic_dns host || cgnat host || tailscale_ipv6 host
  | None => false
  end.

(** ** The verdict on a connection *)

Definition WARNING_ATTEMPTS : Z := 3.
Definition UNREACHABLE_ATTEMPTS : Z := 12.
Definition STALE_SINCE_LAST_CONNECT_MS : Z := 60000.
Definition TAILSCALE_HINT : string := "check Tailscale".

Inductive Unreachable := NeverConnected | Stale.
Inductive ConnectionVerdict :=
  | Normal (label : string)
  | Warning (label : string) (hint : option string)
  | UnreachableHost (label : string) (reason : Unreachable) (hint : option string)
  | AuthFailedVerdict (label : string).

Definition classifyConnection (state : ConnectionState) (reconnectAttempts : Z) (lastConnectedAt : option Z) (endpoint : option string) (now : Z)
    : ConnectionVerdict :=
  let hint := if isTailscaleEndpoint endpoint then Some TAILSCALE_HINT else None in
  match state with
  | AuthFailed => AuthFailedVerdict "Auth failed"
  | Connected => Normal "Connected"
  | Connecting | Handshaking => Normal "Connecting…"
  | Disconnected => Normal "Disconnected"
  | Reconnecting =>
      let warning := if WARNING_ATTEMPTS <=? reconnectAttempts then Warning "Can't connect" hint else Normal "Reconnecting…" in
      if UNREACHABLE_ATTEMPTS <=? reconnectAttempts then
        match lastConnectedAt with
        | None => UnreachableHost "Can't reach desktop" NeverConnected hint
        | Some t => if STALE_SINCE_LAST_CONNECT_MS <=? now - t then UnreachableHost "Can't reach desktop" Stale hint else warning
        end
      else warning
  end.
End Hosts.

Definition verdictDisplayLabel (verdict : ConnectionVerdict) : string :=
  match verdict with
  | Warning label (Some hint) | UnreachableHost label _ (Some hint) => if String.eqb hint "" then label else label +:+ " — " +:+ hint
  | Normal label | Warning label None | UnreachableHost label _ None | AuthFailedVerdict label => label
  end.
