(* ===== verification/DirectClient.v ===== *)
(** * The phone's direct client (mobile/src/transport/rpc-client.ts)

    One WebSocket to a host, encrypted end to end, redialled for ever: requests with
    timeouts, subscriptions replayed on every connection, terminal and screencast
    frames routed to them, a liveness probe, and a budget for rejected tokens.

    Sockets, promises and listeners are numbered by creation. Calls of the client,
    socket events, timers and the clock are the events of a run; what the client does is
    a log. A promise that [waitForConnected] resolved goes on when the event that
    resolved it is over ([jobs]). A promise that is settled again stays as it was. A
    timer of a request is armed as long as its entry is in [pending], the timer of a
    waiter as long as it waits. Listeners that call back into the client are later
    events. A WebSocket constructor that throws, log lines and diagnostics are left out.

    Facts about this model are in DirectClientFacts.v and DirectClientRuns.v. *)

From S2P Require Import Prelude JsMap Json JsText E2eeContract TerminalStream LogicalClient MobileFrames.

Local Open Scope string_scope.
Local Open Scope list_scope.
Local Open Scope Z_scope.

Definition RECONNECT_DELAYS : list Z := [500; 1000; 2000; 4000; 8000; 15000; 30000; 60000].
Definition GIVE_UP_AFTER_ATTEMPTS : nat := 12.
Definition TRICKLE_RECONNECT_DELAY_MS : Z := 90000.
Definition AUTH_RETRY_BUDGET : nat := 3.
Definition REQUEST_TIMEOUT_MS : Z := 30000.
Definition CONNECT_TIMEOUT_MS : Z := 12000.
Definition HANDSHAKE_TIMEOUT_MS : Z := 5000.
Definition ACTIVITY_PROBE_INTERVAL_MS : Z := 20000.
Definition PROBE_TIMEOUT_MS : Z := 8000.

(** ** State *)

Inductive ReadyState := CONNECTING | OPEN | CLOSING | CLOSED.
#[export] Instance ReadyState_eq_dec : EqDecision ReadyState.
Proof. solve_decision. Defined.

(** [listener] numbers the callbacks of a subscription; [hasBinary]: it has one for
    screencast frames. *)
Record StreamRequest := {
  method : string; params : option json; listener : nat; hasBinary : bool;
  subscriptionId : option string; cancelled : bool; sent : bool }.
#[export] Instance eta_StreamRequest : Eta StreamRequest := fun x =>
  Build_StreamRequest (method x) (params x) (listener x) (hasBinary x) (subscriptionId x) (cancelled x) (sent x).

(** A request of the application, or the liveness probe of a socket with the inbound
    count it started from. *)
Inductive PendingRequest :=
  | PendingCall (promise : nat) (method : string)
  | PendingProbe (sock : nat) (probeInboundSequence : nat).
(** A request that waits for the connection; [w_timeout] is its armed timer's delay. *)
Record ConnectWaiter := { w_promise : nat; w_method : string; w_params : option json; w_timeout : option Z }.

Inductive Outcome := Resolved (response : RpcResponse) | Rejected (message : string).

Inductive Payload :=
  | AuthPayload (deviceToken : string)
  | CallPayload (id deviceToken method : string) (params : option json).

Inductive Effect :=
  | SocketOpened (sock : nat)
  | SocketClose (sock : nat)
  | SendHello (sock : nat)
  | SendEncrypted (sock : nat) (payload : Payload)
  | StateChanged (state : ConnectionState)
  | Deliver (listener : nat) (result : json)
  | DeliverFrame (listener : nat) (frame : BrowserScreencastFrame).

Record Direct := {
  ws : option nat;
  state : ConnectionState;
  requestCounter : nat;
  reconnectAttempt : nat;
  reconnectTimer : option Z;
  connectTimer : option nat;  (** the socket it watches *)
  handshakeTimer : option nat;
  activityProbeTimer : bool;
  intentionallyClosed : bool;
  authRejectionCount : nat;
  lastConnectedAt : option Z;
  inboundSequence : nat;
  sharedKey : option (list Z);
  pending : jsmap string PendingRequest;
  streamListeners : jsmap string StreamRequest;
  terminalStreamListeners : jsmap jsnum nat;
  terminalStreamIdsByRequest : jsmap string (list jsnum);
  terminalSnapshots : jsmap jsnum TerminalSnapshotState;
  activeBrowserScreencastRequestId : option string;
  pendingBrowserScreencastRequestId : option string;
  connectWaiters : list ConnectWaiter;
  jobs : list ConnectWaiter;
  sockets : list ReadyState;
  conversions : gmap nat nat;  (** binary messages being converted, with their socket *)
  nextConversion : nat;
  promises : list (option Outcome);
  nextListener : nat;
  log : list Effect }.
#[export] Instance eta_Direct : Eta Direct := fun x =>
  Build_Direct (ws x) (state x) (requestCounter x) (reconnectAttempt x) (reconnectTimer x) (connectTimer x) (handshakeTimer x)
    (activityProbeTimer x) (intentionallyClosed x) (authRejectionCount x) (lastConnectedAt x) (inboundSequence x) (sharedKey x)
    (pending x) (streamListeners x) (terminalStreamListeners x) (terminalStreamIdsByRequest x) (terminalSnapshots x)
    (activeBrowserScreencastRequestId x) (pendingBrowserScreencastRequestId x) (connectWaiters x) (jobs x) (sockets x)
    (conversions x) (nextConversion x) (promises x) (nextListener x) (log x).
Implicit Types c : Direct.

Definition new_direct : Direct :=
  {| ws := None; state := Disconnected; requestCounter := 0; reconnectAttempt := 0; reconnectTimer := None; connectTimer := None;
     handshakeTimer := None; activityProbeTimer := false; intentionallyClosed := false; authRejectionCount := 0;
     lastConnectedAt := None; inboundSequence := 0; sharedKey := None; pending := ∅; streamListeners := ∅;
     terminalStreamListeners := ∅; terminalStreamIdsByRequest := ∅; terminalSnapshots := ∅;
     activeBrowserScreencastRequestId := None; pendingBrowserScreencastRequestId := None; connectWaiters := []; jobs := [];
     sockets := []; conversions := ∅; nextConversion := 0; promises := []; nextListener := 0; log := [] |}.

Definition emit (e : Effect) c : Direct := c <| log := log c ++ [e] |>.
Definition settle (p : nat) (o : Outcome) c : Direct :=
  c <| promises := alter (fun x => match x with None => Some o | Some _ => x end) p (promises c) |>.
Definition in_state (sock : nat) (st : ReadyState) c : bool :=
  match sockets c !! sock with Some x => bool_decide (x = st) | None => false end.
Definition set_socket (sock : nat) (st : ReadyState) c : Direct := c <| sockets := <[sock := st]> (sockets c) |>.
(** [socket.close()] *)
Definition close_socket (sock : nat) c : Direct :=
  emit (SocketClose sock) (if in_state sock CLOSED c then c else set_socket sock CLOSING c).
Definition update_stream (id : string) (f : StreamRequest -> StreamRequest) c : Direct :=
  match streamListeners c !! id with Some s => c <| streamListeners := <[id := f s]> (streamListeners c) |> | None => c end.

Definition is_screencast (s : StreamRequest) : bool := String.eqb (method s) "browser.screencast".
Definition is_client_events (s : StreamRequest) : bool := String.eqb (method s) "runtime.clientEvents.subscribe".

(** ** State changes *)

Definition rejectConnectWaiters (reason : string) c : Direct :=
  (foldl (fun c w => settle (w_promise w) (Rejected reason) c) c (connectWaiters c)) <| connectWaiters := [] |>.

Definition unauthorized_reason : string := "Unauthorized — pairing may be revoked".
Definition setState (now : Z) (next : ConnectionState) c : Direct :=
  if bool_decide (state c = next) then c
  else
    let c := c <| state := next |> in
    let c :=
      match next with
      | Connected =>
          c <| lastConnectedAt := Some now |> <| authRejectionCount := 0%nat |> <| jobs := jobs c ++ connectWaiters c |> <| connectWaiters := [] |>
      | AuthFailed => rejectConnectWaiters unauthorized_reason c
      | Disconnected => rejectConnectWaiters "Connection closed" c
      | _ => c
      end in
    emit (StateChanged next) c.

Definition rejectAllPending (reason : string) c : Direct :=
  (foldl (fun c q => match q with PendingCall p _ => settle p (Rejected reason) c | PendingProbe _ _ => c end) c (jm_values (pending c)))
    <| pending := ∅ |>.

Definition scheduleReconnect c : Direct :=
  if (GIVE_UP_AFTER_ATTEMPTS <=? reconnectAttempt c)%nat
  then (rejectConnectWaiters "Connection retry limit reached" c) <| reconnectTimer := Some TRICKLE_RECONNECT_DELAY_MS |>
  else
    c <| reconnectTimer := RECONNECT_DELAYS !! Nat.min (reconnectAttempt c) (length RECONNECT_DELAYS - 1) |>
      <| reconnectAttempt := S (reconnectAttempt c) |>.

(** [nextId()] *)
Definition nextId (now : Z) c : string * Direct :=
  let n := S (requestCounter c) in
  ("rpc-" +:+ nat_digits (Z.of_nat n) +:+ "-" +:+ int_string now, c <| requestCounter := n |>).

(** ** Streams *)

Definition resetTerminalStreamRoutingForRequest (id : string) c : Direct :=
  match terminalStreamIdsByRequest c !! id with
  | None => c
  | Some ids =>
      (foldl (fun c n => c <| terminalStreamListeners := delete n (terminalStreamListeners c) |>
                           <| terminalSnapshots := delete n (terminalSnapshots c) |>) c ids)
        <| terminalStreamIdsByRequest := delete id (terminalStreamIdsByRequest c) |>
  end.
Definition clear_screencast (id : string) c : Direct :=
  c <| activeBrowserScreencastRequestId := if bool_decide (activeBrowserScreencastRequestId c = Some id) then None else activeBrowserScreencastRequestId c |>
    <| pendingBrowserScreencastRequestId := if bool_decide (pendingBrowserScreencastRequestId c = Some id) then None else pendingBrowserScreencastRequestId c |>.
Definition removeStreamListener (id : string) c : Direct :=
  resetTerminalStreamRoutingForRequest id (clear_screencast id (c <| streamListeners := delete id (streamListeners c) |>)).
Definition markStreamsForReplay c : Direct :=
  foldl (fun c id => resetTerminalStreamRoutingForRequest id (update_stream id (fun s => s <| sent := false |>) c)) c (jm_keys (streamListeners c)).
Definition emitStreamError (s : StreamRequest) (message : string) (error : option json) c : Direct :=
  if cancelled s then c
  else emit (Deliver (listener s) (JObj (defined [("type", Some (JStr "error")); ("message", Some (JStr message)); ("error", error)]))) c.

Section Direct.
Context `{PhoneEnv}.
(** The device's token; the key [deriveSharedKey] gives for the key pair of a socket. *)
Context (deviceToken : string) (sharedKeyOf : nat -> list Z).

(** ** Losing the socket *)

Definition handleSocketClosed (now : Z) (closedWs : nat) c : Direct :=
  if negb (bool_decide (ws c = Some closedWs)) then c
  else
    let c := c <| connectTimer := None |> <| ws := None |> <| sharedKey := None |> <| activeBrowserScreencastRequestId := None |>
               <| pendingBrowserScreencastRequestId := None |> in
    let c := (markStreamsForReplay c) <| handshakeTimer := None |> <| activityProbeTimer := false |> in
    if intentionallyClosed c then rejectAllPending "Connection closed" (setState now Disconnected c)
    else scheduleReconnect (setState now Reconnecting (rejectAllPending "Connection interrupted" c)).

Definition handleAuthRejection (now : Z) (reason : string) c : Direct :=
  let c := c <| activeBrowserScreencastRequestId := None |> <| pendingBrowserScreencastRequestId := None |>
             <| authRejectionCount := S (authRejectionCount c) |> in
  if (authRejectionCount c <? AUTH_RETRY_BUDGET)%nat then
    let closing := ws c in
    let c := markStreamsForReplay (c <| ws := None |> <| sharedKey := None |>) in
    let c := rejectAllPending reason c in
    let c := match closing with Some n => close_socket n c | None => c end in
    scheduleReconnect (setState now Reconnecting c)
  else
    let c := c <| intentionallyClosed := true |> in
    let c := match ws c with Some n => close_socket n c | None => c end in
    rejectAllPending reason (setState now AuthFailed (c <| ws := None |>)).

(** ** Sending *)

Definition sendEncrypted (now : Z) (p : Payload) c : Direct * bool :=
  match ws c with
  | Some n =>
      if in_state n OPEN c && is_some (sharedKey c) then (emit (SendEncrypted n p) c, true)
      else if bool_decide (state c = Connected) && negb (in_state n OPEN c) then (handleSocketClosed now n c, false)
      else (c, false)
  | None => (c, false)
  end.
Definition call (now : Z) (m : string) (ps : option json) c : Direct :=
  let '(id, c) := nextId now c in (sendEncrypted now (CallPayload id deviceToken m ps) c).1.

Definition sendBrowserScreencastUnsubscribe (now : Z) (subId : string) c : Direct :=
  call now "browser.screencast.unsubscribe" (Some (JObj [("subscriptionId", JStr subId)])) c.
Definition sendServerSubscriptionUnsubscribe (now : Z) (s : StreamRequest) c : Direct :=
  match subscriptionId s with
  | None | Some "" => c
  | Some subId =>
      if is_screencast s then sendBrowserScreencastUnsubscribe now subId c
      else if is_client_events s then call now "runtime.clientEvents.unsubscribe" (Some (JObj [("subscriptionId", JStr subId)])) c
      else c
  end.
Definition has_subscription (s : StreamRequest) : bool := match subscriptionId s with None | Some "" => false | Some _ => true end.

Definition disposeServerSubscriptionStream (now : Z) (id : string) c : Direct :=
  let c := update_stream id (fun s => s <| cancelled := true |>) c in
  match streamListeners c !! id with
  | None => c
  | Some s =>
      if has_subscription s then removeStreamListener id (sendServerSubscriptionUnsubscribe now s c)
      else if negb (sent s) then removeStreamListener id c else c
  end.
Definition disposeBrowserScreencastStream (now : Z) (id : string) c : Direct :=
  match streamListeners c !! id with
  | None => c
  | Some s => if is_screencast s then disposeServerSubscriptionStream now id (clear_screencast id c) else c
  end.
Definition disposeRuntimeClientEventsStream (now : Z) (id : string) c : Direct :=
  match streamListeners c !! id with
  | None => c
  | Some s => if is_client_events s then disposeServerSubscriptionStream now id c else c
  end.

(** Sends the subscribe of a stream, or tells its listener that it failed. *)
Definition send_stream (now : Z) (id : string) (s : StreamRequest) c : Direct :=
  let '(c, ok) := sendEncrypted now (CallPayload id deviceToken (method s) (params s)) c in
  if ok then update_stream id (fun s => s <| sent := true |>) c
  else removeStreamListener id (emitStreamError s "Connection interrupted" None c).

(** ** Dialling *)

Definition openConnection (now : Z) c : Direct :=
  if intentionallyClosed c then c
  else
    let c := (setState now Connecting c) <| sharedKey := None |> in
    let n := length (sockets c) in
    emit (SocketOpened n) (c <| sockets := sockets c ++ [CONNECTING] |> <| ws := Some n |> <| connectTimer := Some n |>).

Definition onopen (now : Z) (n : nat) c : Direct :=
  let c := set_socket n OPEN c in
  if negb (bool_decide (ws c = Some n)) then c
  else
    let c := setState now Handshaking (c <| connectTimer := None |> <| reconnectAttempt := 0%nat |>) in
    (emit (SendHello n) c) <| sharedKey := Some (sharedKeyOf n) |> <| handshakeTimer := Some n |>.

Definition onclose (now : Z) (n : nat) c : Direct := handleSocketClosed now n (set_socket n CLOSED c).

Definition connect_times_out (now : Z) c : Direct :=
  match connectTimer c with
  | None => c
  | Some n =>
      let c := c <| connectTimer := None |> in
      if bool_decide (ws c = Some n) && in_state n CONNECTING c then handleSocketClosed now n (close_socket n c) else c
  end.
Definition handshake_times_out c : Direct :=
  match handshakeTimer c with
  | None => c
  | Some n =>
      let c := c <| handshakeTimer := None |> in
      if negb (bool_decide (ws c = Some n)) || negb (bool_decide (state c = Handshaking)) then c else close_socket n c
  end.
Definition reconnect_fires (now : Z) c : Direct :=
  match reconnectTimer c with None => c | Some _ => openConnection now (c <| reconnectTimer := None |>) end.

(** ** The liveness probe *)

Definition recordValidatedInboundTraffic c : Direct := c <| inboundSequence := S (inboundSequence c) |>.
Definition runActivityProbe (now : Z) c : Direct :=
  match ws c with
  | Some n =>
      if negb (bool_decide (state c = Connected)) then c
      else
        let '(id, c) := nextId now c in
        let c := c <| pending := <[id := PendingProbe n (inboundSequence c)]> (pending c) |> in
        let '(c, ok) := sendEncrypted now (CallPayload id deviceToken "status.get" None) c in
        if ok then c else c <| pending := delete id (pending c) |>
  | None => c
  end.

(** The timer of a pending entry: a call fails, an unanswered probe closes its socket. *)
Definition pending_times_out (id : string) c : Direct :=
  match pending c !! id with
  | None => c
  | Some (PendingCall p m) => settle p (Rejected ("Request timed out: " +:+ m)) (c <| pending := delete id (pending c) |>)
  | Some (PendingProbe n seq) =>
      let c := c <| pending := delete id (pending c) |> in
      if (seq <? inboundSequence c)%nat then c
      else if bool_decide (ws c = Some n) && in_state n OPEN c then close_socket n c else c
  end.

(** ** Requests *)

(** [sendRequest] once the connection is there. *)
Definition issue (now : Z) c (w : ConnectWaiter) : Direct :=
  let '(id, c) := nextId now c in
  let c := c <| pending := <[id := PendingCall (w_promise w) (w_method w)]> (pending c) |> in
  let '(c, ok) := sendEncrypted now (CallPayload id deviceToken (w_method w) (w_params w)) c in
  if ok then c else settle (w_promise w) (Rejected "Connection interrupted") (c <| pending := delete id (pending c) |>).
Definition run_jobs (now : Z) c : Direct := foldl (issue now) (c <| jobs := [] |>) (jobs c).

Definition sendRequest (m : string) (ps : option json) (timeoutMs : option Z) c : Direct :=
  let p := length (promises c) in
  let c := c <| promises := promises c ++ [None] |> in
  let w := {| w_promise := p; w_method := m; w_params := ps; w_timeout := timeoutMs |} in
  if bool_decide (state c = Connected) then c <| jobs := jobs c ++ [w] |>
  else if intentionallyClosed c then settle p (Rejected "Client closed") c
  else if bool_decide (state c = Reconnecting) && (GIVE_UP_AFTER_ATTEMPTS <=? reconnectAttempt c)%nat
  then settle p (Rejected "Connection retry limit reached") c
  else c <| connectWaiters := connectWaiters c ++ [w] |>.
Definition wait_times_out (p : nat) c : Direct :=
  match js_find (fun w => (w_promise w =? p)%nat) (connectWaiters c) with
  | Some w =>
      if is_some (w_timeout w)
      then settle p (Rejected "Timed out while connecting to the remote Pie Relay runtime.")
             (c <| connectWaiters := js_filter (fun w => negb (w_promise w =? p)%nat) (connectWaiters c) |>)
      else c
  | None => c
  end.

(** ** Messages *)

Definition key_ok c : option (list Z) :=
  match sharedKey c with Some k => if (length k =? 32)%nat then Some k else None | None => None end.

Definition replay_one (now : Z) c (id : string) : Direct :=
  match streamListeners c !! id with
  | None => c
  | Some s =>
      if cancelled s then removeStreamListener id c
      else if sent s then c
      else
        let c := if is_screencast s then c <| pendingBrowserScreencastRequestId := Some id |> <| activeBrowserScreencastRequestId := None |> else c in
        send_stream now id s (resetTerminalStreamRoutingForRequest id c)
  end.
(** [e2ee_authenticated] *)
Definition authenticated (now : Z) c : Direct :=
  let c := (setState now Connected (c <| handshakeTimer := None |>)) <| activityProbeTimer := true |> in
  foldl (replay_one now) c (jm_keys (streamListeners c)).

Definition handshake_message (now : Z) (raw : string) c : Direct :=
  let ready := match JSON_parse raw with Some msg => has_type "e2ee_ready" msg | None => false end in
  if ready then (sendEncrypted now (AuthPayload deviceToken) c).1
  else
    match (k ← key_ok c; plaintext ← decrypt raw k; JSON_parse plaintext) with
    | None | Some JNull => c
    | Some msg =>
        if has_type "e2ee_authenticated" msg then authenticated now c
        else if has_type "e2ee_error" msg ||
                (negb (truthy (prop "ok" msg)) && strict_eq (e ← prop "error" msg; prop "code" e) (Some (JStr "unauthorized")))
        then handleAuthRejection now unauthorized_reason (c <| handshakeTimer := None |>)
        else c
    end.

(** What a [ready] result changes before the listener sees it; [None]: it does not. *)
Definition ready_result (now : Z) (id : string) (s : StreamRequest) (subId : string) c : Direct * bool :=
  let c := update_stream id (fun s => s <| subscriptionId := Some subId |>) c in
  if cancelled s then (removeStreamListener id (sendServerSubscriptionUnsubscribe now (s <| subscriptionId := Some subId |>) c), false)
  else if is_screencast s then
    if negb (bool_decide (pendingBrowserScreencastRequestId c = Some id)) && negb (bool_decide (activeBrowserScreencastRequestId c = Some id))
    then (removeStreamListener id (sendBrowserScreencastUnsubscribe now subId c), false)
    else (c <| pendingBrowserScreencastRequestId := None |> <| activeBrowserScreencastRequestId := Some id |>, true)
  else (c, true).
Definition subscribed_result (id : string) (s : StreamRequest) (n : jsnum) c : Direct :=
  let ids := default [] (terminalStreamIdsByRequest c !! id) in
  c <| terminalStreamIdsByRequest := <[id := if bool_decide (n ∈ ids) then ids else ids ++ [n]]> (terminalStreamIdsByRequest c) |>
    <| terminalStreamListeners := <[n := listener s]> (terminalStreamListeners c) |>.
Definition streaming_response (now : Z) (id : string) (result : json) c : Direct :=
  match streamListeners c !! id with
  | None => c
  | Some s =>
      let '(c, goes_on) := match isStreamingSubscriptionReadyResult result with
                           | Some subId => ready_result now id s subId c
                           | None => (c, true)
                           end in
      if goes_on then
        let c := match isTerminalSubscribedResult result with Some n => subscribed_result id s n c | None => c end in
        if cancelled s then c else emit (Deliver (listener s) result) c
      else c
  end.

Definition settle_response (r : RpcResponse) c : Direct :=
  match pending c !! rpc_id r with
  | None => c
  | Some q =>
      let c := c <| pending := delete (rpc_id r) (pending c) |> in
      match q with PendingCall p _ => settle p (Resolved r) c | PendingProbe _ _ => c end
  end.
Definition handle_response (now : Z) (r : RpcResponse) c : Direct :=
  match r with
  | RpcFailure id code message error =>
      if String.eqb code "unauthorized" then handleAuthRejection now unauthorized_reason c
      else
        match streamListeners c !! id with
        | Some s => removeStreamListener id (emitStreamError s message (Some error) c)
        | None => settle_response r c
        end
  | RpcSuccess id result streaming =>
      if streaming then streaming_response now id result c
      else
        match streamListeners c !! id with
        | Some s =>
            if has_type "end" result then
              removeStreamListener id (if cancelled s then c else emit (Deliver (listener s) result) c)
            else if has_type "scrollback" result then emit (Deliver (listener s) result) c
            else removeStreamListener id (emitStreamError s "Streaming request ended before it was ready." None c)
        | None => settle_response r c
        end
  end.

Inductive Message := TextMessage (raw : string) | BinaryMessage.
Definition onmessage (now : Z) (n : nat) (m : Message) c : Direct :=
  if negb (bool_decide (ws c = Some n)) then c
  else if bool_decide (state c = Handshaking) then
    match m with TextMessage raw => handshake_message now raw c | BinaryMessage => c end
  else
    match key_ok c with
    | None => c
    | Some k =>
        match m with
        | BinaryMessage => c <| conversions := <[nextConversion c := n]> (conversions c) |> <| nextConversion := S (nextConversion c) |>
        | TextMessage raw =>
            match (plaintext ← decrypt raw k; response ← JSON_parse plaintext; isRpcResponse response) with
            | Some r => handle_response now r (recordValidatedInboundTraffic c)
            | None => c
            end
        end
    end.

(** *** Binary frames *)

Definition handleBrowserBinaryFrame (frame : BrowserScreencastFrame) c : Direct :=
  match (id ← activeBrowserScreencastRequestId c; streamListeners c !! id) with
  | Some s =>
      if cancelled s || negb (is_screencast s) || negb (hasBinary s) then c else emit (DeliverFrame (listener s) frame) c
  | None => c
  end.
Definition terminal_frame (bytes : list Z) c : Direct :=
  match (f ← decodeTerminalStreamFrame bytes; Some (NInt (streamId f))) with
  | None => c
  | Some n =>
      let l := terminalStreamListeners c !! n in
      let o := handleTerminalBinaryFrame bytes (fun _ => is_some l) (terminalSnapshots c) in
      let c := c <| terminalSnapshots := snapshots o |> in
      let c := if counted o then recordValidatedInboundTraffic c else c in
      match l, given o with Some l, Some result => emit (Deliver l result) c | _, _ => c end
  end.
Definition handleBinaryFrame (bytes : list Z) c : Direct :=
  match decodeBrowserScreencastFrame bytes with
  | Some frame => handleBrowserBinaryFrame frame (recordValidatedInboundTraffic c)
  | None => terminal_frame bytes c
  end.
(** The bytes of a binary message are there, if it had any. *)
Definition converted (k : nat) (bytes : option (list Z)) c : Direct :=
  match conversions c !! k with
  | None => c
  | Some n =>
      let c := c <| conversions := delete k (conversions c) |> in
      if negb (bool_decide (ws c = Some n)) then c
      else
        match (b ← bytes; key ← sharedKey c; decryptBytes b key) with
        | Some plaintext => handleBinaryFrame plaintext c
        | None => c
        end
  end.

(** ** Subscriptions *)

Definition replace_screencast (now : Z) (id : string) c : Direct :=
  let c := match activeBrowserScreencastRequestId c with
           | Some a => if String.eqb a id then c else disposeBrowserScreencastStream now a c
           | None => c
           end in
  let c := match pendingBrowserScreencastRequestId c with
           | Some p => if String.eqb p id then c else disposeBrowserScreencastStream now p c
           | None => c
           end in
  c <| pendingBrowserScreencastRequestId := Some id |> <| activeBrowserScreencastRequestId := None |>.
Definition subscribe (now : Z) (m : string) (ps : option json) (onBinaryFrame : bool) c : Direct * string :=
  let '(id, c) := nextId now c in
  let s := {| method := m; params := ps; listener := nextListener c; hasBinary := onBinaryFrame; subscriptionId := None; cancelled := false; sent := false |} in
  let c := c <| nextListener := S (nextListener c) |> <| streamListeners := <[id := s]> (streamListeners c) |> in
  let c := if is_screencast s then replace_screencast now id c else c in
  (if bool_decide (state c = Connected) then send_stream now id s c else c, id).

(** The function [subscribe] returned for [id]. *)
Definition unsubscribe (now : Z) (id : string) c : Direct :=
  match streamListeners c !! id with
  | None => c
  | Some s =>
      if is_screencast s then disposeBrowserScreencastStream now id c
      else if is_client_events s then disposeRuntimeClientEventsStream now id c
      else
        let c :=
          if String.eqb (method s) "terminal.subscribe" then
            match buildTerminalUnsubscribeParams (params s) with
            | Some ps => call now "terminal.unsubscribe" (Some ps) c
            | None => c
            end
          else if String.eqb (method s) "session.tabs.subscribe" then
            match (ps ← params s; as_string (prop "worktree" ps)) with
            | Some worktree => call now "session.tabs.unsubscribe" (Some (JObj [("worktree", JStr worktree)])) c
            | None => c
            end
          else c in
        removeStreamListener id c
  end.

Definition updateViewport (terminal : string) (viewport : json) c : Direct :=
  foldl (fun c id => update_stream id (fun s => s <| params := updateTerminalSubscriptionViewport terminal viewport (method s) (params s) |>) c)
    c (jm_keys (streamListeners c)).

(** ** The foreground, closing *)

Definition notifyForeground (now : Z) c : Direct :=
  if intentionallyClosed c then c
  else
    match state c with
    | Connected => runActivityProbe now (c <| activityProbeTimer := true |>)
    | Reconnecting => openConnection now (c <| reconnectTimer := None |> <| reconnectAttempt := 0%nat |>)
    | _ => c
    end.

Definition close (now : Z) c : Direct :=
  let c := c <| intentionallyClosed := true |> <| reconnectTimer := None |> <| connectTimer := None |> <| handshakeTimer := None |>
             <| activityProbeTimer := false |> in
  let c := match ws c with Some n => (close_socket n c) <| ws := None |> | None => c end in
  rejectAllPending "Client closed" (setState now Disconnected (c <| sharedKey := None |>)).

(** ** Runs *)

Definition connect (now : Z) : Direct := openConnection now new_direct.

Inductive Event :=
  | SendRequest (m : string) (ps : option json) (timeoutMs : option Z)
  | Subscribe (m : string) (ps : option json) (onBinaryFrame : bool)
  | Unsubscribe (id : string)
  | UpdateViewport (terminal : string) (viewport : json)
  | NotifyForeground
  | Close
  | SocketOpens (sock : nat)
  | SocketMessage (sock : nat) (m : Message)
  | SocketCloses (sock : nat)
  | SocketDies (sock : nat)  (** it leaves [OPEN], and no event says so *)
  | Converted (k : nat) (bytes : option (list Z))
  | ConnectTimesOut
  | HandshakeTimesOut
  | ReconnectFires
  | ProbeInterval
  | PendingTimesOut (id : string)
  | WaitTimesOut (p : nat).

Definition direct_event (now : Z) (e : Event) c : Direct :=
  match e with
  | SendRequest m ps t => sendRequest m ps t c
  | Subscribe m ps b => (subscribe now m ps b c).1
  | Unsubscribe id => unsubscribe now id c
  | UpdateViewport terminal viewport => updateViewport terminal viewport c
  | NotifyForeground => notifyForeground now c
  | Close => close now c
  | SocketOpens n => if in_state n CONNECTING c then onopen now n c else c
  | SocketMessage n m => onmessage now n m c
  | SocketCloses n => if in_state n CLOSED c then c else onclose now n c
  | SocketDies n => if in_state n OPEN c then set_socket n CLOSING c else c
  | Converted k bytes => converted k bytes c
  | ConnectTimesOut => connect_times_out now c
  | HandshakeTimesOut => handshake_times_out c
  | ReconnectFires => reconnect_fires now c
  | ProbeInterval => if activityProbeTimer c then runActivityProbe now c else c
  | PendingTimesOut id => pending_times_out id c
  | WaitTimesOut p => wait_times_out p c
  end.
(** An event, and the requests whose wait it ended. *)
Definition direct_step c (x : Z * Event) : Direct := run_jobs x.1 (direct_event x.1 x.2 c).
Definition direct_run (start : Z) (es : list (Z * Event)) : Direct := foldl direct_step (connect start) es.
End Direct.
