(* ===== verification/DirectClientFacts.v ===== *)
(** * Facts about the phone's direct client (DirectClient.v)

    Whatever the application, the network and the timers do, the client is in one of
    five phases, and each has the timer or the socket that takes it on. Every promise
    it gave out is settled once, or has exactly one place where it waits to be. A lost
    connection is redialled and every subscription is sent again on the new one. *)

From S2P Require Import Prelude JsMap Json JsText E2eeContract TerminalStream LogicalClient MobileFrames DirectClient.

Local Open Scope string_scope.
Local Open Scope list_scope.
Local Open Scope Z_scope.

(** ** Identifiers *)

Definition digit_of (c : Ascii.ascii) : Z := Z.of_nat (Ascii.nat_of_ascii c) - 48.
Fixpoint value_rev (s : string) : Z :=
  match s with EmptyString => 0 | String c s => digit_of c + 10 * value_rev s end.

Lemma digit_of_chr d : 0 <= d < 10 -> digit_of (chr (48 + Z.to_nat d)) = d.
Proof. intros H. unfold digit_of, chr. rewrite Ascii.nat_ascii_embedding by lia. lia. Qed.

Lemma value_digits_rev fuel n : 0 <= n < 10 ^ Z.of_nat fuel -> value_rev (digits_rev fuel n) = n.
Proof.
  revert n. induction fuel as [|fuel IH]; intros n Hn; cbn [digits_rev value_rev]; [cbn in Hn; lia|].
  rewrite Nat2Z.inj_succ, Z.pow_succ_r in Hn by lia.
  rewrite digit_of_chr by (apply Z.mod_pos_bound; lia).
  pose proof (Z.div_mod n 10 ltac:(lia)) as Hd. destruct (Z.eqb_spec (n / 10) 0) as [E|E]; cbn [value_rev]; [lia|].
  rewrite IH; [lia|]. split; [apply Z.div_pos; lia|]. apply Z.div_lt_upper_bound; lia.
Qed.

Lemma log_fuel n : 0 <= n -> n < 10 ^ Z.of_nat (S (Z.to_nat (Z.log2 n))).
Proof.
  intros Hn. destruct (Z.eq_dec n 0) as [->|Hne]; [cbn; lia|].
  pose proof (Z.log2_spec n ltac:(lia)) as [_ H]. pose proof (Z.log2_nonneg n) as Hl.
  rewrite Nat2Z.inj_succ, Z2Nat.id by lia. eapply Z.lt_le_trans; [exact H|]. apply Z.pow_le_mono_l. lia.
Qed.

Lemma chars_rev s : chars (String.rev s) = reverse (chars s).
Proof.
  unfold String.rev. enough (H : forall t, chars (String.rev_app s t) = reverse (chars s) ++ chars t) by (rewrite H; apply app_nil_r).
  induction s as [|c s IH]; intros t; cbn [String.rev_app]; [done|]. rewrite IH. cbn [chars String.list_ascii_of_string]. change (chars (String c s)) with (c :: chars s). rewrite reverse_cons, <-app_assoc. done.
Qed.
Lemma digits_rev_digits fuel n : 0 <= n -> Forall (fun c => 0 <= digit_of c) (chars (digits_rev fuel n)).
Proof.
  revert n. induction fuel as [|fuel IH]; intros n Hn; cbn [digits_rev]; [constructor|].
  set (t := if n / 10 =? 0 then "" else _). change (chars (String ?c t)) with (c :: chars t). constructor.
  - rewrite digit_of_chr; pose proof (Z.mod_pos_bound n 10); lia.
  - unfold t. destruct (n / 10 =? 0); [constructor|]. apply IH, Z.div_pos; lia.
Qed.

Lemma split_at_dash l1 l2 (r1 r2 : list Ascii.ascii) :
  Forall (fun c => 0 <= digit_of c) l1 -> Forall (fun c => 0 <= digit_of c) l2 -> l1 ++ chr 45 :: r1 = l2 ++ chr 45 :: r2 -> l1 = l2.
Proof.
  revert l2. induction l1 as [|c l1 IH]; intros [|d l2] H1 H2 E; cbn in E; [done| | |].
  - injection E as <- _. apply Forall_inv in H2. vm_compute in H2. by destruct H2.
  - injection E as -> _. apply Forall_inv in H1. vm_compute in H1. by destruct H1.
  - injection E as -> E. f_equal. apply Forall_inv_tail in H1, H2. by apply (IH l2).
Qed.

(** [nextId]'s text for the [n]th request. *)
Definition request_id (n : nat) (now : Z) : string := "rpc-" +:+ nat_digits (Z.of_nat n) +:+ "-" +:+ int_string now.
Lemma request_id_inj n m t t' : request_id n t = request_id m t' -> n = m.
Proof.
  unfold request_id. intros E. apply (f_equal chars) in E. rewrite !chars_app in E. apply app_inv_head in E.
  unfold nat_digits in E. rewrite !chars_rev in E.
  apply (split_at_dash _ _ (chars (int_string t)) (chars (int_string t'))) in E; [|apply Forall_reverse, digits_rev_digits; lia..].
  apply (inj reverse), chars_inj, (f_equal value_rev) in E. rewrite !value_digits_rev in E; [lia|..]; (split; [lia|apply log_fuel; lia]).
Qed.

(** ** The phases *)

(** What the client waits for, and what brings it on: nothing once it is closed, the
    reconnect timer, the dialling socket and its timer, the handshake's timer or the
    end of the socket it closed, the probe of a connection. Only a connection has
    requests in flight; on a connection none waits. *)
Inductive Phase (c : Direct) : Prop :=
  | Ended : intentionallyClosed c = true -> ws c = None -> reconnectTimer c = None ->
      state c = Disconnected \/ state c = AuthFailed -> connectWaiters c = [] -> pending c = ∅ -> Phase c
  | Pausing d : intentionallyClosed c = false -> ws c = None -> reconnectTimer c = Some d -> 500 <= d <= 90000 ->
      state c = Reconnecting -> pending c = ∅ -> Phase c
  | Dialling n : intentionallyClosed c = false -> ws c = Some n -> reconnectTimer c = None -> state c = Connecting ->
      connectTimer c = Some n -> sockets c !! n = Some CONNECTING -> sharedKey c = None -> pending c = ∅ -> Phase c
  | Greeting n : intentionallyClosed c = false -> ws c = Some n -> reconnectTimer c = None -> state c = Handshaking ->
      (handshakeTimer c = Some n /\ sockets c !! n = Some OPEN) \/ sockets c !! n = Some CLOSING -> pending c = ∅ -> Phase c
  | Online n : intentionallyClosed c = false -> ws c = Some n -> reconnectTimer c = None -> state c = Connected ->
      activityProbeTimer c = true -> sockets c !! n = Some OPEN \/ sockets c !! n = Some CLOSING -> connectWaiters c = [] -> Phase c.

(** The promises of the calls in flight. *)
Definition call_promise (q : PendingRequest) : option nat := match q with PendingCall p _ => Some p | PendingProbe _ _ => None end.
Definition in_flight (m : jsmap string PendingRequest) : list nat := omap call_promise (jm_values m).
(** Where a promise waits. *)
Definition waiting (c : Direct) : list nat := map w_promise (connectWaiters c) ++ map w_promise (jobs c) ++ in_flight (pending c).

(** All but what belongs to the streams, the traffic and the log. *)
Definition strip (c : Direct) : Direct :=
  c <| streamListeners := ∅ |> <| terminalStreamListeners := ∅ |> <| terminalStreamIdsByRequest := ∅ |> <| terminalSnapshots := ∅ |>
    <| activeBrowserScreencastRequestId := None |> <| pendingBrowserScreencastRequestId := None |> <| log := [] |>
    <| inboundSequence := 0%nat |> <| nextListener := 0%nat |> <| conversions := ∅ |> <| nextConversion := 0%nat |>
    <| lastConnectedAt := None |> <| authRejectionCount := 0%nat |>.
Definition quiet (c c' : Direct) : Prop := strip c' = strip c /\ (jm_wf (streamListeners c) -> jm_wf (streamListeners c')).
#[export] Instance quiet_preorder : PreOrder quiet.
Proof. split; [by intros c|]. intros c1 c2 c3 [H1 H1'] [H2 H2']. split; [congruence|auto]. Qed.

(** Every unsettled promise waits in one place; [held] are those an operation has in
    hand, [before] the outcomes there were before it, which stay. *)
Record Accounted (held : list nat) (before ps : list (option Outcome)) (l : list nat) (m : jsmap string PendingRequest) (counter : nat)
    (streams : jsmap string StreamRequest) : Prop := {
  acct_nodup : NoDup (held ++ l);
  acct_waits p : ps !! p = Some None <-> p ∈ held ++ l;
  acct_before p o : before !! p = Some (Some o) -> ps !! p = Some (Some o);
  acct_pending : jm_wf m;
  acct_fresh id : is_Some (m !! id) -> exists n t, id = request_id n t /\ (n <= counter)%nat;
  acct_streams : jm_wf streams }.
Definition Acct (held : list nat) (before : list (option Outcome)) (c : Direct) : Prop :=
  Accounted held before (promises c) (waiting c) (pending c) (requestCounter c) (streamListeners c).
(** Requests that go on now find the connection up, or gone. *)
Definition Ready (c : Direct) : Prop := ws c = None \/ state c = Connected.
Definition Inv (held : list nat) (before : list (option Outcome)) (c : Direct) : Prop := Phase c /\ Acct held before c /\ (jobs c = [] \/ Ready c).

Lemma Phase_strip c c' : strip c' = strip c -> Phase c -> Phase c'.
Proof.
  intros E. pose proof (f_equal ws E) as E1. pose proof (f_equal state E) as E2. pose proof (f_equal reconnectTimer E) as E3.
  pose proof (f_equal connectTimer E) as E4. pose proof (f_equal handshakeTimer E) as E5. pose proof (f_equal activityProbeTimer E) as E6.
  pose proof (f_equal intentionallyClosed E) as E7. pose proof (f_equal sharedKey E) as E8. pose proof (f_equal pending E) as E9.
  pose proof (f_equal connectWaiters E) as E10. pose proof (f_equal sockets E) as E11. clear E. cbn in *.
  destruct 1; [eapply Ended|eapply Pausing|eapply Dialling|eapply Greeting|eapply Online]; rewrite ?E1, ?E2, ?E3, ?E4, ?E5, ?E6, ?E7, ?E8, ?E9, ?E10, ?E11; eauto.
Qed.
Lemma Acct_quiet held before c c' : quiet c c' -> Acct held before c -> Acct held before c'.
Proof.
  intros [E Hs] [Hn Hw Hb Hp Hf Hst]. pose proof (f_equal promises E) as E1. pose proof (f_equal pending E) as E2. pose proof (f_equal requestCounter E) as E3.
  pose proof (f_equal connectWaiters E) as E4. pose proof (f_equal jobs E) as E5. cbn in E1, E2, E3, E4, E5.
  assert (Hwait : waiting c' = waiting c) by (unfold waiting; by rewrite E2, E4, E5).
  split; rewrite ?Hwait, ?E1, ?E2, ?E3; auto.
Qed.

Lemma quiet_fields c c' : quiet c c' ->
  ws c' = ws c /\ state c' = state c /\ reconnectTimer c' = reconnectTimer c /\ intentionallyClosed c' = intentionallyClosed c /\
  pending c' = pending c /\ sockets c' = sockets c /\ sharedKey c' = sharedKey c /\ jobs c' = jobs c /\ connectWaiters c' = connectWaiters c.
Proof.
  intros [E _]. pose proof (f_equal ws E) as E1. pose proof (f_equal state E) as E2. pose proof (f_equal reconnectTimer E) as E3.
  pose proof (f_equal intentionallyClosed E) as E4. pose proof (f_equal pending E) as E5. pose proof (f_equal sockets E) as E6.
  pose proof (f_equal sharedKey E) as E7. pose proof (f_equal jobs E) as E8. pose proof (f_equal connectWaiters E) as E9. done.
Qed.
Lemma Inv_quiet held before c c' : quiet c c' -> Inv held before c -> Inv held before c'.
Proof.
  intros Hq (HP & HA & HR). destruct (quiet_fields _ _ Hq) as (E1 & E2 & _ & _ & _ & _ & _ & E3 & _). unfold Inv, Ready. rewrite E1, E2, E3.
  split; [eapply Phase_strip, HP; apply Hq|]. split; [by eapply Acct_quiet|done].
Qed.

(** ** Operations on the streams are quiet *)

Lemma quiet_foldl {A} (f : Direct -> A -> Direct) l c : (forall c x, quiet c (f c x)) -> quiet c (foldl f c l).
Proof. intros Hf. revert c. induction l as [|x l IH]; intros c; cbn; [done|]. etrans; [apply Hf|apply IH]. Qed.
Lemma quiet_emit e c : quiet c (emit e c).
Proof. done. Qed.
Lemma quiet_update_stream id f c : quiet c (update_stream id f c).
Proof. unfold update_stream. destruct (streamListeners c !! id); [|done]. split; [done|apply jm_wf_insert]. Qed.
Lemma quiet_reset id c : quiet c (resetTerminalStreamRoutingForRequest id c).
Proof.
  unfold resetTerminalStreamRoutingForRequest. destruct (terminalStreamIdsByRequest c !! id) as [ids|]; [|done].
  etrans; [apply (quiet_foldl (fun c n => c <| terminalStreamListeners := delete n (terminalStreamListeners c) |>
                           <| terminalSnapshots := delete n (terminalSnapshots c) |>) ids)|]; done.
Qed.
Lemma quiet_clear_screencast id c : quiet c (clear_screencast id c).
Proof. done. Qed.
Lemma quiet_removeStream id c : quiet c (removeStreamListener id c).
Proof. unfold removeStreamListener. etrans; [|apply quiet_reset]. split; [done|apply jm_wf_delete]. Qed.
Lemma quiet_mark c : quiet c (markStreamsForReplay c).
Proof. apply quiet_foldl. intros c' id. etrans; [apply quiet_update_stream|apply quiet_reset]. Qed.
Lemma quiet_emitStreamError s m e c : quiet c (emitStreamError s m e c).
Proof. unfold emitStreamError. by destruct (cancelled s). Qed.
#[local] Hint Resolve quiet_emit quiet_update_stream quiet_reset quiet_clear_screencast quiet_removeStream quiet_mark quiet_emitStreamError : core.

(** ** Settling promises *)

Definition settle_all (ps : list nat) (o : Outcome) (l : list (option Outcome)) : list (option Outcome) :=
  foldl (fun l p => alter (fun x => match x with None => Some o | Some _ => x end) p l) l ps.

Lemma settle_all_unsettled ps o l p : settle_all ps o l !! p = Some None <-> l !! p = Some None /\ p ∉ ps.
Proof.
  revert l. induction ps as [|q ps IH]; intros l; cbn [settle_all foldl]; [set_solver|].
  unfold settle_all in IH. rewrite IH, list_lookup_alter. case_decide as E; [subst q|set_solver].
  destruct (l !! p) as [[x|]|] eqn:El; cbn; set_solver.
Qed.
Lemma settle_all_settled ps o l p x : l !! p = Some (Some x) -> settle_all ps o l !! p = Some (Some x).
Proof.
  revert l. induction ps as [|q ps IH]; intros l Hl; cbn [settle_all foldl]; [done|].
  apply IH. rewrite list_lookup_alter. case_decide; [subst; by rewrite Hl|done].
Qed.

Lemma settle_promises p o c : promises (settle p o c) = settle_all [p] o (promises c).
Proof. done. Qed.
Lemma foldl_settle {A} (g : Direct -> A -> Direct) (f : A -> option nat) o l c :
  (forall c x, g c x = match f x with Some p => settle p o c | None => c end) ->
  foldl g c l = c <| promises := settle_all (omap f l) o (promises c) |>.
Proof.
  intros Hg. revert c. induction l as [|x l IH]; intros c; cbn [foldl omap list_omap]; [by destruct c|].
  rewrite IH, Hg. destruct (f x); [|done]. by destruct c.
Qed.
Lemma rejectAllPending_eq r c :
  rejectAllPending r c = c <| promises := settle_all (in_flight (pending c)) (Rejected r) (promises c) |> <| pending := ∅ |>.
Proof. unfold rejectAllPending, in_flight. rewrite (foldl_settle _ call_promise (Rejected r)); [done|]. by intros c' [p m|n k]. Qed.
Lemma rejectConnectWaiters_eq r c :
  rejectConnectWaiters r c = c <| promises := settle_all (map w_promise (connectWaiters c)) (Rejected r) (promises c) |> <| connectWaiters := [] |>.
Proof.
  unfold rejectConnectWaiters. rewrite (foldl_settle _ (fun w => Some (w_promise w)) (Rejected r)) by done.
  replace (omap _ _) with (map w_promise (connectWaiters c)); [done|]. by induction (connectWaiters c) as [|w l IH]; cbn; [|f_equal].
Qed.

(** Promises leave their places by being settled, or for other places. *)
Lemma Accounted_settle held held' before ps l m counter streams qs o l' m' counter' :
  Accounted held before ps l m counter streams -> held ++ l ≡ₚ qs ++ held' ++ l' -> jm_wf m' ->
  (forall id, is_Some (m' !! id) -> is_Some (m !! id)) -> (counter <= counter')%nat ->
  Accounted held' before (settle_all qs o ps) l' m' counter' streams.
Proof.
  intros [Hn Hw Hb Hp Hf Hst] Hperm Hwf Hsub Hc. rewrite Hperm in Hn. apply NoDup_app in Hn as (Hn1 & Hn2 & Hn3). split; auto.
  - intros p. rewrite settle_all_unsettled, Hw, Hperm, elem_of_app. specialize (Hn2 p). tauto.
  - intros p x Hx. by apply settle_all_settled, Hb.
  - intros id [n [t [-> Hle]]]%Hsub%Hf. exists n, t. split; [done|lia].
Qed.

Section Accounts.
Context (held : list nat) (before : list (option Outcome)).
Local Notation Acct := (Acct held before).

Lemma Acct_rejectAllPending r c : Acct c -> Acct (rejectAllPending r c).
Proof.
  intros HA. rewrite rejectAllPending_eq. unfold Acct. cbn. eapply Accounted_settle; [exact HA| | | |done].
  - unfold waiting. cbn. change (in_flight ∅) with (@nil nat). rewrite app_nil_r, !app_assoc. etrans; [apply Permutation_app_comm|]. by rewrite !app_assoc.
  - apply jm_wf_empty.
  - by intros id [x Hx].
Qed.
Lemma Acct_rejectConnectWaiters r c : Acct c -> Acct (rejectConnectWaiters r c).
Proof.
  intros HA. rewrite rejectConnectWaiters_eq. unfold Acct. cbn. eapply Accounted_settle; [exact HA| |apply HA|done|done].
  unfold waiting. cbn. apply Permutation_app_swap_app.
Qed.
Lemma Acct_setState now next c : Acct c -> Acct (setState now next c).
Proof.
  intros HA. unfold setState. case_bool_decide; [done|]. destruct next; try exact HA.
  - eapply (Accounted_settle _ held _ _ _ _ _ _ [] (Rejected "")); [exact HA| |apply HA|done|done].
    unfold waiting. cbn. rewrite map_app. f_equiv. rewrite !app_assoc. f_equiv. apply Permutation_app_comm.
  - apply (Acct_rejectConnectWaiters "Connection closed" (c <| state := Disconnected |>)). exact HA.
  - apply (Acct_rejectConnectWaiters unauthorized_reason (c <| state := AuthFailed |>)). exact HA.
Qed.
Lemma Acct_scheduleReconnect c : Acct c -> Acct (scheduleReconnect c).
Proof. intros HA. unfold scheduleReconnect. destruct (_ <=? _)%nat; [|exact HA]. by apply (Acct_rejectConnectWaiters _ c). Qed.
End Accounts.

(** ** Losing the socket *)

Lemma reconnect_delay k : exists d, RECONNECT_DELAYS !! Nat.min k (length RECONNECT_DELAYS - 1) = Some d /\ 500 <= d <= 90000.
Proof. do 8 (destruct k as [|k]; [cbn; eexists; split; [done|lia]|]). cbn. eexists. split; [done|lia]. Qed.

Lemma Phase_pausing now c :
  intentionallyClosed c = false -> ws c = None -> pending c = ∅ -> Phase (scheduleReconnect (setState now Reconnecting c)).
Proof.
  intros Hi Hw Hp. set (c1 := setState now Reconnecting c).
  assert (H1 : intentionallyClosed c1 = false /\ ws c1 = None /\ pending c1 = ∅ /\ state c1 = Reconnecting).
  { unfold c1, setState. by case_bool_decide. }
  clearbody c1. destruct H1 as (H1 & H2 & H3 & H4). unfold scheduleReconnect.
  destruct (_ <=? _)%nat; [rewrite rejectConnectWaiters_eq; by eapply Pausing|].
  destruct (reconnect_delay (reconnectAttempt c1)) as (d & Hd & Hb). by eapply (Pausing _ d).
Qed.

Section Losing.
Context (held : list nat) (before : list (option Outcome)).
Local Notation Acct := (Acct held before).
Local Notation Inv := (Inv held before).

Lemma pausing_shape now c : let c' := scheduleReconnect (setState now Reconnecting c) in
  ws c' = ws c /\ pending c' = pending c /\ jobs c' = jobs c /\ (connectWaiters c' = connectWaiters c \/ connectWaiters c' = []).
Proof.
  intros c'. unfold c', setState, scheduleReconnect. clear c'. case_bool_decide; (destruct (_ <=? _)%nat; [rewrite rejectConnectWaiters_eq|]); cbn; auto.
Qed.
Lemma handleSocketClosed_shape now n c : ws c = Some n -> intentionallyClosed c = false -> let c' := handleSocketClosed now n c in
  ws c' = None /\ pending c' = ∅ /\ jobs c' = jobs c /\ (connectWaiters c' = connectWaiters c \/ connectWaiters c' = []).
Proof.
  intros Hn Hi. unfold handleSocketClosed. rewrite bool_decide_true by done. cbn [negb].
  match goal with |- context [markStreamsForReplay ?x] => set (c1 := x) end.
  destruct (quiet_fields _ _ (quiet_mark c1)) as (E1 & _ & _ & E4 & _ & _ & _ & E8 & E9). set (c2 := markStreamsForReplay c1) in *. clearbody c2. subst c1.
  cbn in E1, E4, E8, E9. rewrite Hi in E4. cbn. rewrite E4. match goal with |- context [scheduleReconnect (setState _ _ ?x)] => set (c3 := x) end.
  destruct (pausing_shape now c3) as (F1 & F2 & F3 & F4). rewrite F1, F2, F3. unfold c3 in *. rewrite rejectAllPending_eq in *. cbn in *.
  rewrite E1, E8, <-E9. auto.
Qed.
Lemma Inv_handleSocketClosed now n c : Acct c -> Phase c \/ (ws c = Some n /\ intentionallyClosed c = false) -> (jobs c = [] \/ Ready c) ->
  Inv (handleSocketClosed now n c).
Proof.
  intros HA HP HR. destruct (decide (ws c = Some n)) as [Hn|Hn]; cycle 1.
  { unfold handleSocketClosed. rewrite bool_decide_false by done. split; [|done]. destruct HP as [|[]]; done. }
  assert (Hi : intentionallyClosed c = false) by (destruct HP as [HP|[]]; [|done]; destruct HP; congruence).
  pose proof (handleSocketClosed_shape now n c Hn Hi) as (Hws & _). split; [|split; [|right; left; exact Hws]]; clear Hws HP HR;
    (unfold handleSocketClosed; rewrite bool_decide_true by done; cbn [negb];
     match goal with |- context [markStreamsForReplay ?x] => set (c1 := x) end;
     pose proof (quiet_mark c1) as Hq; destruct (quiet_fields _ _ Hq) as (E1 & _ & _ & E4 & _);
     apply (Acct_quiet held before) in Hq; [|exact HA]; set (c2 := markStreamsForReplay c1) in *; clearbody c2; subst c1; cbn in E1, E4;
     rewrite Hi in E4; cbn; rewrite E4).
  - apply Phase_pausing; rewrite rejectAllPending_eq; done.
  - by apply Acct_scheduleReconnect, Acct_setState, Acct_rejectAllPending.
Qed.
Lemma setState_ended now next c : (next = Disconnected \/ next = AuthFailed) -> state c <> next ->
  exists ps l, setState now next c = emit (StateChanged next) (c <| state := next |> <| promises := ps |> <| connectWaiters := [] |> <| lastConnectedAt := l |>).
Proof.
  intros [-> | ->] Hs; unfold setState; rewrite bool_decide_false by done; rewrite rejectConnectWaiters_eq;
    do 2 eexists; cbn; by destruct c.
Qed.
Lemma ws_setState now next c : ws (setState now next c) = ws c.
Proof. unfold setState. case_bool_decide; [done|]. destruct next; try done; by rewrite rejectConnectWaiters_eq. Qed.
Lemma ws_rejectAllPending r c : ws (rejectAllPending r c) = ws c.
Proof. by rewrite rejectAllPending_eq. Qed.
Lemma Phase_ended_by now next r c : reconnectTimer c = None -> intentionallyClosed c = true -> ws c = None ->
  (next = Disconnected \/ next = AuthFailed) -> state c <> next -> Phase (rejectAllPending r (setState now next c)).
Proof.
  intros Hr Hi Hw Hn Hs. destruct (setState_ended now next c Hn Hs) as (ps & l & ->). rewrite rejectAllPending_eq. by apply Ended.
Qed.

Lemma phase_open c n : Phase c -> ws c = Some n ->
  intentionallyClosed c = false /\ reconnectTimer c = None /\ (state c = Connecting \/ state c = Handshaking \/ state c = Connected) /\
  is_Some (sockets c !! n).
Proof. destruct 1 as [| | | ?? ??? [[]|]|? ? ? ? ? ? []]; intros Hn; simplify_eq; eauto 10. Qed.

Lemma Inv_handleAuthRejection now r c n : Acct c -> ws c = Some n -> intentionallyClosed c = false -> reconnectTimer c = None ->
  state c <> AuthFailed -> Inv (handleAuthRejection now r c).
Proof.
  intros HA Hn Hi Hr Hst. unfold handleAuthRejection. cbn [authRejectionCount]. destruct (_ <? _)%nat.
  - cbn. rewrite Hn.
    match goal with |- context [markStreamsForReplay ?x] => set (c1 := x) end.
    pose proof (quiet_mark c1) as Hq. destruct (quiet_fields _ _ Hq) as (E1 & _ & _ & E4 & _).
    apply (Acct_quiet held before) in Hq; [|exact HA]. set (c2 := markStreamsForReplay c1) in *. clearbody c2. subst c1. cbn in E1, E4. rewrite Hi in E4.
    set (c3 := close_socket _ _). assert (H3 : ws c3 = None /\ intentionallyClosed c3 = false /\ pending c3 = ∅ /\ Acct c3).
    { apply (Acct_rejectAllPending held before r) in Hq. unfold c3, close_socket. rewrite rejectAllPending_eq in *.
      case_match; cbn; auto. }
    destruct H3 as (H4 & ? & ? & ?). split; [by apply Phase_pausing|]. split; [by apply Acct_scheduleReconnect, Acct_setState|].
    right. left. destruct (pausing_shape now c3) as (-> & _). done.
  - cbn. rewrite Hn. match goal with |- context [setState now AuthFailed ?x] => set (c1 := x) end.
    assert (H1 : reconnectTimer c1 = None /\ intentionallyClosed c1 = true /\ ws c1 = None /\ state c1 = state c /\ Acct c1)
      by (unfold c1, close_socket; case_match; done).
    clearbody c1. destruct H1 as (H1 & H2 & H3 & H4 & H5). split; [|split; [by apply Acct_rejectAllPending, Acct_setState|right; left]].
    + apply Phase_ended_by; [done..|by right|congruence].
    + by rewrite ws_rejectAllPending, ws_setState.
Qed.
End Losing.

(** ** Sending *)

Lemma jm_delete_fresh {V} (m : jsmap string V) id v : m !! id = None -> delete id (<[id := v]> m) = m.
Proof.
  destruct m as [l]. unfold lookup, jm_lookup, insert, jm_insert, delete, jm_delete. cbn [jm_entries]. intros H. f_equal.
  induction l as [|[k x] l IH]; cbn in *; [by rewrite decide_True|].
  destruct (decide (id = k)); [done|]. cbn. rewrite decide_False by done. by rewrite IH.
Qed.

Section Sending.
Context (held : list nat) (before : list (option Outcome)).
Local Notation Acct := (Acct held before).
Local Notation Inv := (Inv held before).

(** What [sendEncrypted] comes to. *)
Inductive Sends (now : Z) (p : Payload) (c : Direct) : Direct * bool -> Prop :=
  | Sends_it n : ws c = Some n -> in_state n OPEN c = true -> is_some (sharedKey c) = true -> Sends now p c (emit (SendEncrypted n p) c, true)
  | Sends_desync n : ws c = Some n -> state c = Connected -> in_state n OPEN c = false -> Sends now p c (handleSocketClosed now n c, false)
  | Sends_not : Sends now p c (c, false).
Lemma sendEncrypted_sends now p c : Sends now p c (sendEncrypted now p c).
Proof.
  unfold sendEncrypted. destruct (ws c) as [n|] eqn:Hn; [|apply Sends_not].
  destruct (in_state n OPEN c) eqn:Ho; cbn [andb].
  - destruct (is_some (sharedKey c)) eqn:Hk; [by apply (Sends_it _ _ _ n)|]. rewrite andb_false_r. apply Sends_not.
  - case_bool_decide; [by apply (Sends_desync _ _ _ n)|apply Sends_not].
Qed.
Lemma sent_or_not now p c : match sendEncrypted now p c with (c', true) => exists n, ws c = Some n /\ c' = emit (SendEncrypted n p) c | (c', false) => True end.
Proof. destruct (sendEncrypted_sends now p c); eauto. Qed.

Lemma Inv_sendEncrypted now p c : Inv c -> Inv (sendEncrypted now p c).1.
Proof.
  intros HI. destruct (sendEncrypted_sends now p c) as [n| n Hn|]; [by eapply Inv_quiet; [apply quiet_emit|]| |done].
  destruct HI as (HP & HA & HR). apply Inv_handleSocketClosed; auto.
Qed.
Lemma nextId_eq now c : nextId now c = (request_id (S (requestCounter c)) now, c <| requestCounter := S (requestCounter c) |>).
Proof. done. Qed.
Lemma Acct_counter c k : (requestCounter c <= k)%nat -> Acct c -> Acct (c <| requestCounter := k |>).
Proof.
  intros Hk HA. eapply (Accounted_settle _ held _ _ _ _ _ _ [] (Rejected "")); [exact HA|done|apply HA|done|exact Hk].
Qed.
Lemma Phase_counter c k : Phase c -> Phase (c <| requestCounter := k |>).
Proof. destruct 1; [eapply Ended|eapply Pausing|eapply Dialling|eapply Greeting|eapply Online]; eauto. Qed.
Lemma Inv_counter c : Inv c -> Inv (c <| requestCounter := S (requestCounter c) |>).
Proof. intros (HP & HA & HR). split; [by apply Phase_counter|]. split; [apply Acct_counter; [lia|done]|done]. Qed.
Lemma Inv_call (tok : string) now m ps c : Inv c -> Inv (call tok now m ps c).
Proof. intros HI. unfold call. rewrite nextId_eq. apply Inv_sendEncrypted. by apply Inv_counter. Qed.

(** *** Entries of [pending] *)

Lemma Acct_fresh_id now c : Acct c -> pending c !! request_id (S (requestCounter c)) now = None.
Proof.
  intros HA. destruct (pending c !! _) as [q|] eqn:E; [|done]. destruct (acct_fresh _ _ _ _ _ _ _ HA _ (mk_is_Some _ _ E)) as (n & t & Hid & Hle).
  apply request_id_inj in Hid. lia.
Qed.
Lemma in_flight_fresh m id q : m !! id = None -> in_flight (<[id := q]> m) = in_flight m ++ option_list (call_promise q).
Proof.
  intros Hf. unfold in_flight, jm_values. rewrite (jm_insert_fresh _ _ _ Hf), fmap_app, omap_app. cbn. by destruct (call_promise q).
Qed.
Lemma in_flight_delete m id q : jm_wf m -> m !! id = Some q -> in_flight m ≡ₚ option_list (call_promise q) ++ in_flight (delete id m).
Proof.
  intros Hwf Hq. unfold in_flight, jm_values. rewrite (jm_delete_perm m id q Hwf Hq). cbn. by destruct (call_promise q).
Qed.

Lemma Phase_pending c m : Phase c -> (pending c = ∅ -> m = ∅) -> Phase (c <| pending := m |>).
Proof. intros HP Hm. destruct HP; [eapply Ended|eapply Pausing|eapply Dialling|eapply Greeting|eapply Online]; eauto. Qed.
Lemma Phase_settle p o c : Phase c -> Phase (settle p o c).
Proof. destruct 1; [eapply Ended|eapply Pausing|eapply Dialling|eapply Greeting|eapply Online]; eauto. Qed.
Lemma delete_of_empty {V} (m : jsmap string V) id : m = ∅ -> delete id m = ∅.
Proof. by intros ->. Qed.

(** An entry that goes, with its promise settled. *)
Definition drop_pending (id : string) (o : Outcome) (c : Direct) : Direct :=
  match pending c !! id with
  | Some (PendingCall p _) => settle p o (c <| pending := delete id (pending c) |>)
  | Some (PendingProbe _ _) => c <| pending := delete id (pending c) |>
  | None => c
  end.
Lemma Inv_drop_pending id o c : Inv c -> Inv (drop_pending id o c).
Proof.
  intros (HP & HA & HR). unfold drop_pending. destruct (pending c !! id) as [q|] eqn:Hq; [|done].
  pose proof (in_flight_delete _ _ _ (acct_pending _ _ _ _ _ _ _ HA) Hq) as Hperm.
  assert (Hdel : forall k, is_Some (delete id (pending c) !! k) -> is_Some (pending c !! k))
    by (intros k; rewrite jm_lookup_delete; case_decide; [by intros []|done]).
  assert (Hwf : jm_wf (delete id (pending c))) by (apply jm_wf_delete, HA).
  destruct q as [p m|n k]; (split; [|split; [|exact HR]]).
  - apply Phase_settle, (Phase_pending c); [done|apply delete_of_empty].
  - eapply (Accounted_settle _ held _ _ _ _ _ _ [p] o); [exact HA| |exact Hwf|exact Hdel|done].
    unfold waiting. cbn. rewrite Hperm. cbn. rewrite !app_assoc. symmetry. apply Permutation_middle.
  - apply (Phase_pending c); [done|apply delete_of_empty].
  - eapply (Accounted_settle _ held _ _ _ _ _ _ [] o); [exact HA| |exact Hwf|exact Hdel|done].
    unfold waiting. cbn. by rewrite Hperm.
Qed.
End Sending.

Lemma settle_all_id p o l : l !! p <> Some None -> settle_all [p] o l = l.
Proof.
  intros H. cbn. apply list_eq. intros i. rewrite list_lookup_alter. case_decide; [subst i|done].
  destruct (l !! p) as [[x|]|]; done.
Qed.
Lemma settle_gone held before p o c : Inv held before c -> p ∉ held ++ waiting c -> settle p o c = c.
Proof.
  intros (_ & HA & _) Hp. unfold settle. change (alter _ p (promises c)) with (settle_all [p] o (promises c)).
  rewrite settle_all_id; [by destruct c|]. by rewrite (acct_waits _ _ _ _ _ _ _ HA).
Qed.
Lemma pending_gone id c : pending c = ∅ -> c <| pending := delete id (pending c) |> = c.
Proof. destruct c. cbn. by intros ->. Qed.
Lemma Ready_quiet c c' : quiet c c' -> Ready c -> Ready c'.
Proof. intros Hq. destruct (quiet_fields _ _ Hq) as (E1 & E2 & _). unfold Ready. by rewrite E1, E2. Qed.

Section Requests.
Context (tok : string) (held : list nat) (before : list (option Outcome)).

(** A promise in hand goes to a fresh entry. *)
Lemma Acct_call now p m c : Acct (p :: held) before c ->
  Acct held before (c <| requestCounter := S (requestCounter c) |> <| pending := <[request_id (S (requestCounter c)) now := PendingCall p m]> (pending c) |>).
Proof.
  intros HA. pose proof (Acct_fresh_id _ _ now _ HA) as Hf. destruct HA as [Hn Hw Hb Hp Hfr Hs]. unfold Acct, waiting. cbn. rewrite in_flight_fresh by done. cbn.
  assert (Hperm : (p :: held) ++ waiting c ≡ₚ held ++ map w_promise (connectWaiters c) ++ map w_promise (jobs c) ++ in_flight (pending c) ++ [p]).
  { unfold waiting. cbn. rewrite !app_assoc. apply Permutation_cons_append. }
  split; auto.
  - by rewrite <-Hperm.
  - intros q. by rewrite Hw, Hperm.
  - by apply jm_wf_insert.
  - intros id. rewrite jm_lookup_insert. case_decide as E; [intros _; subst id; eauto|]. intros (n & t & -> & Hle)%Hfr. exists n, t. split; [done|]. lia.
Qed.

Lemma Inv_issue now w c : Inv (w_promise w :: held) before c -> Ready c -> Inv held before (issue tok now c w) /\ Ready (issue tok now c w).
Proof.
  intros (HP & HA & HR) HR'. pose proof (Acct_call now _ (w_method w) _ HA) as HA2. pose proof (Acct_fresh_id _ _ now _ HA) as Hf.
  unfold issue. rewrite nextId_eq. set (id := request_id _ now) in *. cbn [pending]. set (c2 := _ <| pending := _ |>) in *.
  set (p := w_promise w) in *. change (pending (c <| requestCounter := S (requestCounter c) |>)) with (pending c) in *.
  destruct (sendEncrypted_sends now (CallPayload id tok (w_method w) (w_params w)) c2) as [n Hn Ho Hk|n Hn Hst Ho|].
  - assert (HP2 : Phase c2) by (destruct HR' as [HR'|HR']; [cbn in Hn; congruence|]; destruct HP as [| | | |k]; [intuition congruence|congruence..|by apply (Online c2 k)]).
    split; [|done]. by eapply Inv_quiet; [apply quiet_emit|].
  - destruct (phase_open _ _ HP Hn) as (Hi & _). destruct (handleSocketClosed_shape now n c2 Hn Hi) as (Hw3 & Hp3 & Hj3 & Hc3).
    pose proof (Inv_handleSocketClosed held before now n c2 HA2 (or_intror (conj Hn Hi)) (or_intror HR')) as HI3.
    set (c3 := handleSocketClosed now n c2) in *. clearbody c3. rewrite (pending_gone id c3 Hp3).
    rewrite (settle_gone held before p _ c3 HI3); [split; [done|by left]|]. clear HI3.
    pose proof (acct_nodup _ _ _ _ _ _ _ HA) as Hnd. cbn in Hnd. apply NoDup_cons in Hnd as [Hnd _].
    intros Hin. apply Hnd. unfold waiting in *. rewrite Hj3, Hp3 in Hin. cbn in Hin. change (in_flight ∅) with (@nil nat) in Hin.
    destruct Hc3 as [Hc3|Hc3]; rewrite Hc3 in Hin; cbn in Hin; set_solver.
  - split; [|exact HR']. cbn. rewrite jm_delete_fresh by done. split; [|split; [|exact HR]].
    + apply Phase_settle. apply (Phase_pending (c <| requestCounter := S (requestCounter c) |>)); [by apply Phase_counter|done].
    + eapply (Accounted_settle _ held _ _ _ _ _ _ [p]); [exact HA|done|apply HA|done|cbn; lia].
Qed.
End Requests.

Lemma run_jobs_inv tok now before l c : Inv (map w_promise l) before c -> Ready c \/ l = [] -> Inv [] before (foldl (issue tok now) c l).
Proof.
  revert c. induction l as [|w l IH]; intros c HI HR; cbn [foldl]; [done|]. destruct HR as [HR|]; [|done].
  destruct (Inv_issue tok (map w_promise l) before now w c HI HR) as [HI' HR']. auto.
Qed.

(** ** Every event *)

Section Events.
Context `{PhoneEnv} (tok : string) (sharedKeyOf : nat -> list Z) (before : list (option Outcome)).
Local Notation Inv := (Inv [] before).
Local Notation Acct := (Acct [] before).

Lemma Inv_removeStream id c : Inv c -> Inv (removeStreamListener id c).
Proof. apply Inv_quiet, quiet_removeStream. Qed.
Lemma Inv_update_stream id f c : Inv c -> Inv (update_stream id f c).
Proof. apply Inv_quiet, quiet_update_stream. Qed.
Lemma Inv_emit e c : Inv c -> Inv (emit e c).
Proof. apply Inv_quiet, quiet_emit. Qed.
Lemma Inv_reset id c : Inv c -> Inv (resetTerminalStreamRoutingForRequest id c).
Proof. apply Inv_quiet, quiet_reset. Qed.
Lemma Inv_emitStreamError s m e c : Inv c -> Inv (emitStreamError s m e c).
Proof. apply Inv_quiet, quiet_emitStreamError. Qed.
(** Fields the invariant does not speak of. *)
Lemma Inv_screencasts a p c : Inv c -> Inv (c <| pendingBrowserScreencastRequestId := p |> <| activeBrowserScreencastRequestId := a |>).
Proof. by apply Inv_quiet. Qed.
Lemma Inv_traffic c : Inv c -> Inv (recordValidatedInboundTraffic c).
Proof. by apply Inv_quiet. Qed.

Lemma Inv_sendServerUnsubscribe now s c : Inv c -> Inv (sendServerSubscriptionUnsubscribe tok now s c).
Proof.
  intros HI. unfold sendServerSubscriptionUnsubscribe, sendBrowserScreencastUnsubscribe.
  destruct (subscriptionId s) as [[|a l]|]; [done| |done]. destruct (is_screencast s); [by apply Inv_call|].
  destruct (is_client_events s); [by apply Inv_call|done].
Qed.
Lemma Inv_disposeServer now id c : Inv c -> Inv (disposeServerSubscriptionStream tok now id c).
Proof.
  intros HI. unfold disposeServerSubscriptionStream. set (c1 := update_stream _ _ _).
  assert (H1 : Inv c1) by (by apply Inv_update_stream). clearbody c1. destruct (streamListeners c1 !! id) as [s|]; [|done].
  destruct (has_subscription s); [by apply Inv_removeStream, Inv_sendServerUnsubscribe|]. destruct (negb (sent s)); [by apply Inv_removeStream|done].
Qed.
Lemma Inv_disposeBrowser now id c : Inv c -> Inv (disposeBrowserScreencastStream tok now id c).
Proof.
  intros HI. unfold disposeBrowserScreencastStream. destruct (streamListeners c !! id) as [s|]; [|done]. destruct (is_screencast s); [|done].
  apply Inv_disposeServer. by eapply Inv_quiet; [apply quiet_clear_screencast|].
Qed.
Lemma Inv_send_stream now id s c : Inv c -> Inv (send_stream tok now id s c).
Proof.
  intros HI. unfold send_stream. pose proof (Inv_sendEncrypted [] before now (CallPayload id tok (method s) (params s)) c HI) as H1.
  destruct (sendEncrypted now _ c) as [c1 [|]]; cbn [fst] in H1; [by apply Inv_update_stream|by apply Inv_removeStream, Inv_emitStreamError].
Qed.
Lemma Inv_replace_screencast now id c : Inv c -> Inv (replace_screencast tok now id c).
Proof.
  intros HI. unfold replace_screencast. apply Inv_screencasts. set (c1 := match activeBrowserScreencastRequestId c with Some _ => _ | None => _ end).
  assert (H1 : Inv c1) by (unfold c1; repeat case_match; auto using Inv_disposeBrowser). clearbody c1. repeat case_match; auto using Inv_disposeBrowser.
Qed.
Lemma Inv_subscribe now m ps b c : Inv c -> Inv (subscribe tok now m ps b c).1.
Proof.
  intros HI. unfold subscribe. rewrite nextId_eq. set (id := request_id _ _). set (s := Build_StreamRequest _ _ _ _ _ _ _). cbn [fst].
  match goal with |- context [replace_screencast tok now id ?x] => set (c1 := x) end.
  assert (H1 : Inv c1).
  { eapply Inv_quiet; [|by apply (Inv_counter [] before c)]. split; [done|]. apply jm_wf_insert. }
  clearbody c1. set (c2 := if is_screencast s then _ else _). assert (H2 : Inv c2) by (unfold c2; case_match; auto using Inv_replace_screencast).
  case_bool_decide; auto using Inv_send_stream.
Qed.
Lemma Inv_unsubscribe now id c : Inv c -> Inv (unsubscribe tok now id c).
Proof.
  intros HI. unfold unsubscribe, disposeRuntimeClientEventsStream.
  repeat case_match; auto using Inv_disposeBrowser, Inv_disposeServer, Inv_removeStream, Inv_call.
Qed.
Lemma Inv_updateViewport t v c : Inv c -> Inv (updateViewport t v c).
Proof. apply Inv_quiet. apply quiet_foldl. intros c' x. apply quiet_update_stream. Qed.

Lemma Inv_sendRequest m ps t c : Inv c -> jobs c = [] -> Inv (sendRequest m ps t c).
Proof.
  intros (HP & HA & _) Hj. destruct HA as [Hn Hw Hb Hp Hf Hs]. set (p := length (promises c)).
  assert (Hfresh : p ∉ waiting c) by (intros Hin%Hw; apply lookup_lt_Some in Hin; unfold p in Hin; lia).
  set (c1 := c <| promises := promises c ++ [None] |>).
  assert (H1 : DirectClientFacts.Inv [p] before c1).
  { split; [destruct HP; [eapply Ended|eapply Pausing|eapply Dialling|eapply Greeting|eapply Online]; eauto|]. split; [|by left]. split; auto.
    - cbn. by constructor.
    - intros q. cbn. rewrite lookup_app_Some, Hw, list_lookup_singleton_Some. cbn. rewrite elem_of_cons. unfold p in *.
      split; [|intros [->|?]; [right; split; [done|split; [lia|done]]|by left]]. intros [?|[? [Hq _]]]; [by right|]. left. lia.
    - intros q o Hq. cbn. apply lookup_app_l_Some. by apply Hb. }
  assert (Hsettle : forall r, Inv (settle p (Rejected r) c1)).
  { intros r. destruct H1 as (HP1 & HA1 & HR1). split; [by apply Phase_settle|]. split; [|done].
    eapply (Accounted_settle _ [] _ _ _ _ _ _ [p]); [exact HA1|done|apply HA1|done|done]. }
  destruct H1 as (HP1 & HA1 & HR1). unfold sendRequest. cbv zeta. fold p c1. destruct (bool_decide (state c1 = Connected)) eqn:E1.
  { apply bool_decide_eq_true in E1. split; [|split; [|by right; right]].
    - destruct HP1; [eapply Ended|eapply Pausing|eapply Dialling|eapply Greeting|eapply Online]; eauto.
    - eapply (Accounted_settle _ [] _ _ _ _ _ _ [] (Rejected "")); [exact HA1| |apply HA1|done|done].
      unfold waiting. cbn. rewrite map_app. cbn. rewrite <-!app_assoc. cbn. rewrite !app_assoc. rewrite (Permutation_middle (_ ++ _)). by rewrite <-!app_assoc. }
  destruct (intentionallyClosed c1) eqn:E2; [apply Hsettle|]. destruct (_ && _); [apply Hsettle|].
  split; [|split; [|done]].
  - apply bool_decide_eq_false in E1. destruct HP1; [|eapply Pausing|eapply Dialling|eapply Greeting|]; eauto; congruence.
  - eapply (Accounted_settle _ [] _ _ _ _ _ _ [] (Rejected "")); [exact HA1| |apply HA1|done|done].
    unfold waiting. cbn. rewrite map_app. cbn. rewrite <-!app_assoc. cbn. apply Permutation_middle.
Qed.

(** *** Dialling *)

Lemma setState_cases now next c : (next = Connecting \/ next = Handshaking) -> setState now next c =
  if bool_decide (state c = next) then c else emit (StateChanged next) (c <| state := next |>).
Proof. by intros [-> | ->]. Qed.

Lemma Inv_openConnection now c : Acct c -> jobs c = [] -> intentionallyClosed c = false -> reconnectTimer c = None -> pending c = ∅ ->
  Inv (openConnection now c).
Proof.
  intros HA Hj Hi Hr Hp. unfold openConnection. rewrite Hi. set (c1 := setState now Connecting c).
  assert (H1 : intentionallyClosed c1 = false /\ reconnectTimer c1 = None /\ pending c1 = ∅ /\ state c1 = Connecting /\ jobs c1 = [] /\ Acct c1).
  { split_and!; [..|by apply Acct_setState]; unfold c1; rewrite setState_cases by auto; by case_bool_decide. }
  clearbody c1. destruct H1 as (H1 & H2 & H3 & H4 & H5 & H6). split; [|split; [exact H6|left; exact H5]].
  eapply (Dialling _ (length (sockets c1))); auto. cbn. by rewrite list_lookup_middle.
Qed.

Lemma in_state_Some n st c : in_state n st c = true <-> sockets c !! n = Some st.
Proof. unfold in_state. destruct (sockets c !! n); [rewrite bool_decide_eq_true; split; congruence|done]. Qed.

(** A socket that is not the current one may do what it likes. *)
Lemma Phase_other_socket n st c : Phase c -> ws c <> Some n -> Phase (set_socket n st c).
Proof.
  intros HP Hn. destruct HP as [| |k|k|k]; [eapply Ended|eapply Pausing|eapply (Dialling _ k)|eapply (Greeting _ k)|eapply (Online _ k)]; eauto;
    cbn; rewrite list_lookup_insert_ne by congruence; auto.
Qed.
Lemma Phase_closing n c : Phase c -> (state c <> Connecting \/ ws c <> Some n) -> Phase (close_socket n c).
Proof.
  intros HP Hn. unfold close_socket. enough (H1 : Phase (if in_state n CLOSED c then c else set_socket n CLOSING c)) by (revert H1; by apply Phase_strip).
  destruct (in_state n CLOSED c) eqn:E; [done|]. destruct (decide (ws c = Some n)) as [Hw|Hw]; [|by apply Phase_other_socket].
  destruct Hn as [Hn|Hn]; [|done]. destruct (phase_open _ _ HP Hw) as (_ & _ & _ & [st Hs]). pose proof (lookup_lt_Some _ _ _ Hs) as Hlt.
  destruct HP as [| |k|k|k]; try congruence; (assert (k = n) as -> by congruence); [eapply (Greeting _ n)|eapply (Online _ n)]; auto; right; cbn; by rewrite list_lookup_insert_eq.
Qed.
Lemma Inv_close_socket n c : Inv c -> (state c <> Connecting \/ ws c <> Some n) -> Inv (close_socket n c).
Proof.
  intros (HP & HA & HR) Hn. split; [by apply Phase_closing|]. unfold close_socket. by destruct (in_state n CLOSED c).
Qed.

Lemma Inv_onopen now n c : Inv c -> jobs c = [] -> in_state n CONNECTING c = true -> Inv (onopen sharedKeyOf now n c).
Proof.
  intros (HP & HA & HR) Hj Ho%in_state_Some. unfold onopen. pose proof (lookup_lt_Some _ _ _ Ho) as Hlt. case_bool_decide as Hn; cbn [negb].
  - change (ws c = Some n) in Hn. destruct HP as [| |k|k|k Hi Hw Hr Hst Hpr Hs]; [congruence|congruence| |exfalso; naive_solver congruence|exfalso; destruct Hs; congruence].
    assert (k = n) as -> by congruence. rewrite setState_cases by auto. cbn [state set_socket]. rewrite bool_decide_false by (cbn; congruence).
    split; [|split; [exact HA|left; exact Hj]]. eapply (Greeting _ n); auto. left. split; [done|]. cbn. by rewrite list_lookup_insert_eq.
  - change (ws c <> Some n) in Hn. split; [by apply Phase_other_socket|done].
Qed.
Lemma Inv_onclose now n c : Inv c -> Inv (onclose now n c).
Proof.
  intros (HP & HA & HR). unfold onclose. apply Inv_handleSocketClosed; [exact HA| |exact HR].
  destruct (decide (ws c = Some n)) as [Hn|Hn]; [|left; by apply Phase_other_socket].
  right. split; [exact Hn|]. by destruct (phase_open _ _ HP Hn).
Qed.
Lemma Inv_connect_times_out now c : Inv c -> Inv (connect_times_out now c).
Proof.
  intros HI. unfold connect_times_out. destruct (connectTimer c) as [n|] eqn:Hct; [|done]. destruct HI as (HP & HA & HR).
  destruct (bool_decide _ && _) eqn:E.
  - apply andb_true_iff in E as [Hw%bool_decide_eq_true Ho]. cbn in Hw. destruct (phase_open _ _ HP Hw) as (Hi & _).
    unfold close_socket. set (c1 := emit _ _). assert (H1 : Acct c1 /\ (jobs c1 = [] \/ Ready c1) /\ ws c1 = Some n /\ intentionallyClosed c1 = false)
      by (unfold c1; by destruct (in_state n CLOSED _)). clearbody c1. destruct H1 as (H1 & H2 & H3 & H4). apply Inv_handleSocketClosed; auto.
  - split; [|done]. destruct HP as [| |k Hi Hw Hr Hst Hc Hs|k|k]; [eapply Ended|eapply Pausing| |eapply Greeting|eapply Online]; eauto.
    simplify_eq. exfalso. apply andb_false_iff in E as [E|E]; [by rewrite bool_decide_true in E|]. apply not_true_iff_false in E. by rewrite in_state_Some in E.
Qed.
Lemma Inv_handshake_times_out c : Inv c -> Inv (handshake_times_out c).
Proof.
  intros HI. unfold handshake_times_out. destruct (handshakeTimer c) as [n|] eqn:Hh; [|done]. destruct HI as (HP & HA & HR). cbn [ws state].
  destruct (negb _ || negb _) eqn:E.
  - split; [|done]. destruct HP as [| |k|k Hi Hw Hr Hst Hs|k]; [eapply Ended|eapply Pausing|eapply Dialling| |eapply Online]; eauto.
    eapply (Greeting _ k); auto. destruct Hs as [[Hs _]|Hs]; [|by right]. exfalso. simplify_eq. cbn in E. by rewrite !bool_decide_true in E.
  - apply orb_false_iff in E as [E1%negb_false_iff%bool_decide_eq_true E2%negb_false_iff%bool_decide_eq_true]. cbn in E1, E2.
    destruct (phase_open _ _ HP E1) as (Hi & Hr & _ & [st Hs]). pose proof (lookup_lt_Some _ _ _ Hs) as Hlt.
    destruct HP as [| | |k _ Hw _ _ Hk Hp|]; try congruence. assert (k = n) as -> by congruence.
    unfold close_socket. assert (Hc : in_state n CLOSED (c <| handshakeTimer := None |>) = false).
    { apply not_true_iff_false. rewrite in_state_Some. cbn. destruct Hk as [[_ Hk]|Hk]; congruence. }
    rewrite Hc. split; [|done]. eapply (Greeting _ n); auto. right. cbn. by rewrite list_lookup_insert_eq.
Qed.
Lemma Inv_reconnect_fires now c : Inv c -> jobs c = [] -> Inv (reconnect_fires now c).
Proof.
  intros HI Hj. unfold reconnect_fires. destruct (reconnectTimer c) as [d|] eqn:Hr; [|done]. destruct HI as (HP & HA & HR).
  destruct HP; try congruence. by apply Inv_openConnection.
Qed.
Lemma Inv_notifyForeground now c : Inv c -> jobs c = [] -> (forall c, Inv c -> Inv (runActivityProbe tok now c)) -> Inv (notifyForeground tok now c).
Proof.
  intros HI Hj Hprobe. unfold notifyForeground. destruct (intentionallyClosed c) eqn:Hi; [done|]. destruct HI as (HP & HA & HR). destruct (state c) eqn:Hs; try done.
  - apply Hprobe. split; [|done]. destruct HP; try congruence. eapply Online; eauto.
  - destruct HP; try congruence. by apply Inv_openConnection.
Qed.

(** *** Requests, probes and their timers *)

Lemma Inv_runActivityProbe now c : Inv c -> Inv (runActivityProbe tok now c).
Proof.
  intros HI. unfold runActivityProbe. destruct (ws c) as [n|] eqn:Hw; [|done]. case_bool_decide as Hst; cbn [negb]; [|done].
  rewrite nextId_eq. pose proof HI as (HP & HA & HR). pose proof (Acct_fresh_id _ _ now _ HA) as Hf.
  set (id := request_id _ now) in *. cbn [pending inboundSequence]. set (c1 := _ <| pending := _ |>).
  assert (H1 : Inv c1).
  { split; [|split; [|exact HR]].
    - destruct HP as [| | | |k]; try congruence. by apply (Online c1 k).
    - destruct HA as [Hn Hwt Hb Hp Hfr Hs]. assert (Hwait : waiting c1 = waiting c) by (unfold waiting, c1; cbn; rewrite in_flight_fresh by done; cbn; by rewrite app_nil_r).
      split; rewrite ?Hwait; auto; cbn; [by apply jm_wf_insert|].
      intros k. rewrite jm_lookup_insert. case_decide as E; [intros _; subst k; eexists _, _; split; [done|lia]|].
      intros (m & t & -> & Hle)%Hfr. exists m, t. split; [done|lia]. }
  assert (Hid : pending c1 !! id = Some (PendingProbe n (inboundSequence c))) by apply jm_lookup_insert_eq.
  clearbody c1. destruct (sendEncrypted_sends now (CallPayload id tok "status.get" None) c1) as [k Hk Ho Hkey|k Hk Hs Ho|].
  - by apply Inv_emit.
  - destruct H1 as (HP1 & HA1 & HR1). destruct (phase_open _ _ HP1 Hk) as (Hi & _).
    rewrite pending_gone by (by apply handleSocketClosed_shape). by apply Inv_handleSocketClosed; auto.
  - pose proof (Inv_drop_pending [] before id (Rejected "") c1 H1) as H2. unfold drop_pending in H2. by rewrite Hid in H2.
Qed.
Lemma phase_in_flight c id q : Phase c -> pending c !! id = Some q -> state c = Connected.
Proof.
  intros HP Hq. destruct HP as [? ? ? ? ? Hp|? ? ? ? ? ? Hp|? ? ? ? ? ? ? ? Hp|? ? ? ? ? ? Hp|]; [..|done]; by rewrite Hp in Hq.
Qed.
Lemma Inv_pending_times_out id c : Inv c -> Inv (pending_times_out id c).
Proof.
  intros HI. unfold pending_times_out. destruct (pending c !! id) as [[p m|n k]|] eqn:Hid; [| |done].
  - pose proof (Inv_drop_pending [] before id (Rejected ("Request timed out: " +:+ m)) c HI) as H2. unfold drop_pending in H2. by rewrite Hid in H2.
  - assert (Hst : state c <> Connecting) by (destruct HI as (HP & _); by rewrite (phase_in_flight c id _ HP Hid)).
    pose proof (Inv_drop_pending [] before id (Rejected "") c HI) as H2. unfold drop_pending in H2. rewrite Hid in H2.
    set (c1 := c <| pending := _ |>) in *. destruct (_ <? _)%nat; [done|]. destruct (_ && _); [|done]. apply Inv_close_socket; [done|by left].
Qed.
Lemma Inv_wait_times_out p c : Inv c -> Inv (wait_times_out p c).
Proof.
  intros HI. unfold wait_times_out. destruct (js_find _ (connectWaiters c)) as [w|] eqn:Hw; [|done]. destruct (is_some (w_timeout w)); [|done].
  apply js_find_Some in Hw as [Hin Hp]. apply Nat.eqb_eq in Hp. destruct HI as (HP & HA & HR).
  set (l := js_filter _ _).
  assert (Hperm : map w_promise (connectWaiters c) ≡ₚ p :: map w_promise l).
  { pose proof (acct_nodup _ _ _ _ _ _ _ HA) as Hnd. unfold waiting in Hnd. cbn in Hnd. apply NoDup_app in Hnd as (Hnd & _).
    clear -Hnd Hin Hp. unfold l. induction (connectWaiters c) as [|v ws IH]; [by apply elem_of_nil in Hin|].
    cbn in *. apply NoDup_cons in Hnd as [Hv Hnd]. destruct (Nat.eqb_spec (w_promise v) p) as [E|E]; cbn.
    - subst p. rewrite E. constructor. rewrite js_filter_all; [done|]. apply Forall_forall. intros u Hu. apply negb_true_iff, Nat.eqb_neq.
      intros Eu. apply Hv. rewrite E, <-Eu. by apply list_elem_of_fmap_2.
    - apply elem_of_cons in Hin as [->|Hin]; [done|]. rewrite (IH Hin Hnd). apply perm_swap. }
  split; [|split; [|exact HR]].
  - apply Phase_settle. destruct HP as [? ? ? ? Hc| | | |? ? ? ? ? ? ? Hc]; [|eapply Pausing|eapply Dialling|eapply Greeting|]; eauto; rewrite Hc in Hin; by apply elem_of_nil in Hin.
  - eapply (Accounted_settle _ [] _ _ _ _ _ _ [p]); [exact HA| |apply HA|done|done]. unfold waiting. cbn. by rewrite Hperm.
Qed.

(** *** Messages *)

Lemma Inv_replay_one now c id : Inv c -> Inv (replay_one tok now c id).
Proof.
  intros HI. unfold replay_one. destruct (streamListeners c !! id) as [s|]; [|done]. destruct (cancelled s); [by apply Inv_removeStream|].
  destruct (sent s); [done|]. apply Inv_send_stream, Inv_reset. destruct (is_screencast s); [by apply Inv_screencasts|done].
Qed.
Lemma Inv_foldl {A} (f : Direct -> A -> Direct) l c : (forall c x, Inv c -> Inv (f c x)) -> Inv c -> Inv (foldl f c l).
Proof. intros Hf. revert c. induction l as [|x l IH]; intros c HI; cbn; auto. Qed.

Lemma Inv_authenticated now c : Inv c -> state c = Handshaking -> Inv (authenticated tok now c).
Proof.
  intros (HP & HA & HR) Hs. unfold authenticated. apply Inv_foldl; [intros c' id; apply Inv_replay_one|].
  set (c0 := c <| handshakeTimer := None |>). pose proof (Acct_setState [] before now Connected c0 HA) as HA1.
  destruct HP as [? ? ? [?|?]| | |n Hi Hw Hr _ Hk Hp|]; try congruence.
  assert (H1 : setState now Connected c0 = emit (StateChanged Connected) (c0 <| state := Connected |> <| lastConnectedAt := Some now |> <| authRejectionCount := 0%nat |>
            <| jobs := jobs c0 ++ connectWaiters c0 |> <| connectWaiters := [] |>)).
  { unfold setState. rewrite bool_decide_false; [done|]. cbn. congruence. }
  split; [|split; [exact HA1|right; right; by rewrite H1]]. rewrite H1. apply (Online _ n); auto. cbn. destruct Hk as [[_ Hk]|Hk]; auto.
Qed.

Lemma Inv_handshake_message now raw c n : Inv c -> ws c = Some n -> state c = Handshaking -> Inv (handshake_message tok now raw c).
Proof.
  intros HI Hw Hs. unfold handshake_message. case_match; [by apply Inv_sendEncrypted|].
  assert (Hrej : Inv (handleAuthRejection now unauthorized_reason (c <| handshakeTimer := None |>))).
  { destruct HI as (HP & HA & HR). destruct (phase_open _ _ HP Hw) as (Hi & Hr & _).
    apply (Inv_handleAuthRejection [] before now _ _ n); auto. cbn. congruence. }
  repeat case_match; auto using Inv_authenticated.
Qed.

Lemma Inv_settle_response r c : Inv c -> Inv (settle_response r c).
Proof. intros HI. apply (Inv_drop_pending [] before (rpc_id r) (Resolved r)) in HI. unfold settle_response. unfold drop_pending in HI. by destruct (pending c !! rpc_id r) as [[]|]. Qed.

Lemma Inv_deliver s result c : Inv c -> Inv (if cancelled s then c else emit (Deliver (listener s) result) c).
Proof. intros HI. destruct (cancelled s); [done|by apply Inv_emit]. Qed.
Lemma Inv_ready_result now id s subId c : Inv c -> Inv (ready_result tok now id s subId c).1.
Proof.
  intros HI. unfold ready_result. set (c1 := update_stream _ _ _). assert (H1 : Inv c1) by (by apply Inv_update_stream). clearbody c1.
  destruct (cancelled s); [by apply Inv_removeStream, Inv_sendServerUnsubscribe|]. destruct (is_screencast s); [|done].
  destruct (_ && _); [by apply Inv_removeStream, Inv_call|by apply Inv_screencasts].
Qed.
Lemma Inv_subscribed_result id s n c : Inv c -> Inv (subscribed_result id s n c).
Proof. by apply Inv_quiet. Qed.
Lemma Inv_streaming_response now id result c : Inv c -> Inv (streaming_response tok now id result c).
Proof.
  intros HI. unfold streaming_response. destruct (streamListeners c !! id) as [s|]; [|done].
  set (x := match isStreamingSubscriptionReadyResult result with Some _ => _ | None => _ end).
  assert (H1 : Inv x.1) by (unfold x; destruct (isStreamingSubscriptionReadyResult result); [by apply Inv_ready_result|done]).
  clearbody x. destruct x as [c1 [|]]; [|done]. apply Inv_deliver. destruct (isTerminalSubscribedResult result); [by apply Inv_subscribed_result|done].
Qed.
Lemma Inv_handle_response now r c n : Inv c -> ws c = Some n -> Inv (handle_response tok now r c).
Proof.
  intros HI Hw. unfold handle_response. destruct r as [id result [|]|id code m e].
  - by apply Inv_streaming_response.
  - destruct (streamListeners c !! id) as [s|]; [|by apply Inv_settle_response].
    destruct (has_type "end" result); [by apply Inv_removeStream, Inv_deliver|].
    destruct (has_type "scrollback" result); [by apply Inv_emit|by apply Inv_removeStream, Inv_emitStreamError].
  - destruct (String.eqb code "unauthorized").
    + destruct HI as (HP & HA & HR). destruct (phase_open _ _ HP Hw) as (Hi & Hr & Hs & _).
      apply (Inv_handleAuthRejection [] before now _ _ n); auto. destruct Hs as [?|[?|?]]; congruence.
    + destruct (streamListeners c !! id) as [s|]; [by apply Inv_removeStream, Inv_emitStreamError|by apply Inv_settle_response].
Qed.
Lemma Inv_onmessage now n m c : Inv c -> Inv (onmessage tok now n m c).
Proof.
  intros HI. unfold onmessage. case_bool_decide as Hw; cbn [negb]; [|done]. case_bool_decide as Hs.
  { destruct m; [|done]. by apply (Inv_handshake_message now _ _ n). }
  destruct (key_ok c); [|done]. destruct m as [raw|]; [|by apply Inv_quiet with c].
  destruct (_ ≫= _); [|done]. apply (Inv_handle_response now _ _ n); [by apply Inv_traffic|done].
Qed.
Lemma Inv_handleBinaryFrame bytes c : Inv c -> Inv (handleBinaryFrame bytes c).
Proof.
  intros HI. unfold handleBinaryFrame. destruct (decodeBrowserScreencastFrame bytes) as [f|].
  - unfold handleBrowserBinaryFrame. destruct (_ ≫= _) as [s|]; [|by apply Inv_traffic]. destruct (_ || _); [by apply Inv_traffic|by apply Inv_emit, Inv_traffic].
  - unfold terminal_frame. destruct (decodeTerminalStreamFrame bytes) as [f|]; [|done]. cbn [mbind option_bind]. set (o := handleTerminalBinaryFrame _ _ _).
    cbv zeta. set (c1 := if counted o then _ else _). assert (H1 : Inv c1) by (unfold c1; destruct (counted o); by apply (Inv_quiet [] before c)).
    clearbody c1. repeat case_match; auto using Inv_emit.
Qed.
Lemma Inv_converted k bytes c : Inv c -> Inv (converted k bytes c).
Proof.
  intros HI. unfold converted. destruct (conversions c !! k) as [n|]; [|done]. set (c1 := c <| conversions := _ |>).
  assert (H1 : Inv c1) by (by apply (Inv_quiet [] before c)). clearbody c1. case_match; [done|]. case_match; [by apply Inv_handleBinaryFrame|done].
Qed.

Lemma Inv_close now c : Inv c -> Inv (close now c).
Proof.
  intros (HP & HA & HR). unfold close. set (c0 := c <| intentionallyClosed := true |> <| reconnectTimer := None |> <| connectTimer := None |> <| handshakeTimer := None |> <| activityProbeTimer := false |>).
  cbv zeta. fold c0. set (c1 := match ws c0 with Some n => _ | None => c0 end).
  assert (H1 : intentionallyClosed c1 = true /\ reconnectTimer c1 = None /\ ws c1 = None /\ state c1 = state c /\ connectWaiters c1 = connectWaiters c /\ pending c1 = pending c /\ Acct c1).
  { unfold c1. destruct (ws c0) as [n|] eqn:Hw; [|by split_and!]. unfold close_socket. destruct (in_state n CLOSED c0); by split_and!. }
  clearbody c1. clear c0. destruct H1 as (H1 & H2 & H3 & H4 & H5 & H6 & H7).
  split; [|split; [by apply Acct_rejectAllPending, Acct_setState|right; left; by rewrite ws_rejectAllPending, ws_setState]].
  destruct (decide (state c = Disconnected)) as [Hs|Hs].
  - unfold setState. rewrite bool_decide_true by (cbn; congruence). rewrite rejectAllPending_eq.
    apply Ended; cbn; [done..|left; congruence| |done]. destruct HP; congruence.
  - apply Phase_ended_by; cbn; auto. congruence.
Qed.
Lemma Inv_SocketDies n c : Inv c -> in_state n OPEN c = true -> Inv (set_socket n CLOSING c).
Proof.
  intros (HP & HA & HR) Ho. assert (H1 : Phase (close_socket n c)).
  { apply Phase_closing; [done|]. destruct (decide (ws c = Some n)) as [Hw|]; [|by right]. left. intros Hs. apply in_state_Some in Ho.
    destruct HP; congruence. }
  split; [|done]. revert H1. apply Phase_strip. unfold close_socket. replace (in_state n CLOSED c) with false; [done|].
  symmetry. apply not_true_iff_false. apply in_state_Some in Ho. rewrite in_state_Some. congruence.
Qed.
End Events.

(** ** Runs *)

Lemma jobs_handleSocketClosed now n c : jobs (handleSocketClosed now n c) = jobs c.
Proof.
  unfold handleSocketClosed. case_bool_decide as Hn; cbn [negb]; [|done].
  match goal with |- context [markStreamsForReplay ?x] => set (c1 := x) end.
  destruct (quiet_fields _ _ (quiet_mark c1)) as (_ & _ & _ & _ & _ & _ & _ & E8 & _). set (c2 := markStreamsForReplay c1) in *. clearbody c2. subst c1. cbn in E8.
  cbn. destruct (intentionallyClosed c2).
  - rewrite rejectAllPending_eq. cbn [jobs]. unfold setState. case_bool_decide; [done|]. by rewrite rejectConnectWaiters_eq.
  - match goal with |- context [scheduleReconnect (setState _ _ ?x)] => set (c3 := x) end.
    destruct (pausing_shape now c3) as (_ & _ & -> & _). unfold c3. by rewrite rejectAllPending_eq.
Qed.
Lemma jobs_sendEncrypted now p c : jobs (sendEncrypted now p c).1 = jobs c.
Proof. destruct (sendEncrypted_sends now p c); cbn; [done|apply jobs_handleSocketClosed|done]. Qed.
Lemma jobs_issue tok now c w : jobs (issue tok now c w) = jobs c.
Proof.
  unfold issue. rewrite nextId_eq. match goal with |- context [sendEncrypted now ?p ?x] => pose proof (jobs_sendEncrypted now p x) as E; destruct (sendEncrypted now p x) as [c1 [|]] end; exact E.
Qed.
Lemma jobs_run tok now c : jobs (run_jobs tok now c) = [].
Proof.
  unfold run_jobs. generalize (jobs c). intros l. set (c1 := c <| jobs := [] |>). assert (H1 : jobs c1 = []) by done. clearbody c1. revert c1 H1.
  induction l as [|w l IH]; intros c1 H1; cbn [foldl]; [done|]. apply IH. by rewrite jobs_issue.
Qed.

Lemma jobs_setState now next c : next <> Connected -> jobs (setState now next c) = jobs c.
Proof. intros Hn. unfold setState. case_bool_decide; [done|]. destruct next; try done; by rewrite rejectConnectWaiters_eq. Qed.
Lemma closed_setState now next c : intentionallyClosed (setState now next c) = intentionallyClosed c.
Proof. unfold setState. case_bool_decide; [done|]. destruct next; try done; by rewrite rejectConnectWaiters_eq. Qed.
Lemma jobs_rejectAllPending r c : jobs (rejectAllPending r c) = jobs c.
Proof. by rewrite rejectAllPending_eq. Qed.
Lemma closed_rejectAllPending r c : intentionallyClosed (rejectAllPending r c) = intentionallyClosed c.
Proof. by rewrite rejectAllPending_eq. Qed.
Lemma close_leaves now c : jobs (close now c) = jobs c /\ intentionallyClosed (close now c) = true.
Proof.
  unfold close. cbv zeta. match goal with |- context [setState now Disconnected ?x] => set (c1 := x) end.
  assert (H1 : jobs c1 = jobs c /\ intentionallyClosed c1 = true) by (unfold c1, close_socket; repeat case_match; done).
  clearbody c1. destruct H1 as [H1 H2]. rewrite jobs_rejectAllPending, closed_rejectAllPending, jobs_setState, closed_setState by done. done.
Qed.

Lemma run_jobs_nil tok now c : jobs c = [] -> run_jobs tok now c = c.
Proof. intros Hj. unfold run_jobs. rewrite Hj. cbn. by destruct c; cbn in *; subst. Qed.

Section Runs.
Context `{PhoneEnv} (tok : string) (sharedKeyOf : nat -> list Z).

Lemma Inv_event before now e c : Inv [] before c -> jobs c = [] -> Inv [] before (direct_event tok sharedKeyOf now e c).
Proof.
  intros HI Hj. destruct e as [m ps t|m ps b|id|t v| | |n|n m|n|n|k bs| | | | |id|p]; cbn [direct_event].
  - by apply Inv_sendRequest.
  - by apply Inv_subscribe.
  - by apply Inv_unsubscribe.
  - by apply Inv_updateViewport.
  - apply Inv_notifyForeground; auto using Inv_runActivityProbe.
  - by apply Inv_close.
  - destruct (in_state n CONNECTING c) eqn:E; [by apply Inv_onopen|done].
  - by apply Inv_onmessage.
  - destruct (in_state n CLOSED c); [done|by apply Inv_onclose].
  - destruct (in_state n OPEN c) eqn:E; [by apply Inv_SocketDies|done].
  - by apply Inv_converted.
  - by apply Inv_connect_times_out.
  - by apply Inv_handshake_times_out.
  - by apply Inv_reconnect_fires.
  - destruct (activityProbeTimer c); [by apply Inv_runActivityProbe|done].
  - by apply Inv_pending_times_out.
  - by apply Inv_wait_times_out.
Qed.
Lemma Inv_step before x c : Inv [] before c -> jobs c = [] -> Inv [] before (direct_step tok sharedKeyOf c x) /\ jobs (direct_step tok sharedKeyOf c x) = [].
Proof.
  intros HI Hj. split; [|apply jobs_run]. unfold direct_step. apply (Inv_event before x.1 x.2) in HI; [|done].
  set (c1 := direct_event _ _ _ _ _) in *. clearbody c1. unfold run_jobs. destruct HI as (HP & HA & HR).
  apply run_jobs_inv; [|destruct HR as [->|HR]; [by right|by left]]. split; [|split; [|by left]].
  - revert HP. destruct 1; [eapply Ended|eapply Pausing|eapply Dialling|eapply Greeting|eapply Online]; eauto.
  - eapply (Accounted_settle _ _ _ _ _ _ _ _ [] (Rejected "")); [exact HA| |apply HA|done|done].
    unfold waiting. cbn. apply Permutation_app_swap_app.
Qed.
Lemma Inv_connect start : Inv [] [] (connect start) /\ jobs (connect start) = [].
Proof.
  split; [|done]. unfold connect. apply Inv_openConnection; [|done..]. split; cbn; [constructor| | |constructor| |constructor].
  - intros p. rewrite lookup_nil, elem_of_nil. split; [done|by intros []].
  - intros p o Hp. by rewrite lookup_nil in Hp.
  - by intros id [].
Qed.
Lemma Inv_weaken before before' c : (forall p o, before' !! p = Some (Some o) -> promises c !! p = Some (Some o)) -> Inv [] before c -> Inv [] before' c.
Proof. intros Hb (HP & [] & HR). split; [done|]. split; [|done]. by split. Qed.
Lemma Inv_steps before es c : Inv [] before c -> jobs c = [] ->
  Inv [] before (foldl (direct_step tok sharedKeyOf) c es) /\ jobs (foldl (direct_step tok sharedKeyOf) c es) = [].
Proof.
  revert c. induction es as [|x es IH]; intros c HI Hj; cbn; [done|]. destruct (Inv_step before x c HI Hj). auto.
Qed.
Lemma Inv_run start es : let c := direct_run tok sharedKeyOf start es in Inv [] (promises c) c /\ jobs c = [].
Proof.
  destruct (Inv_connect start) as [HI Hj]. destruct (Inv_steps [] es _ HI Hj) as [HI' Hj']. split; [|done]. by eapply Inv_weaken.
Qed.
End Runs.

(** ** What always holds *)

Section Always.
Context `{PhoneEnv} (tok : string) (sharedKeyOf : nat -> list Z).
Local Notation direct_run := (direct_run tok sharedKeyOf).

Lemma direct_close_step now c : jobs c = [] -> direct_step tok sharedKeyOf c (now, Close) = close now c.
Proof. intros Hj. unfold direct_step. change (direct_event tok sharedKeyOf _ _ c) with (close now c). apply run_jobs_nil. by rewrite (proj1 (close_leaves now c)). Qed.

(** C15. The client never hangs: whatever came before, until the application closes it or
    the host has rejected the token for good, it has the one thing that brings it on.
    Without a socket it is reconnecting and a timer of half a second to a minute and a
    half is armed. With one, no reconnect is pending, and the socket is still dialling
    under its timer, or greeting under the handshake's timer or already told to close,
    or connected, open or closing, with the liveness probe armed. *)
Theorem direct_never_stuck start es :
  let c := direct_run start es in
  intentionallyClosed c = true \/
  match ws c with
  | None => state c = Reconnecting /\ exists d, reconnectTimer c = Some d /\ 500 <= d <= 90000
  | Some n =>
      reconnectTimer c = None /\
      match state c with
      | Connecting => connectTimer c = Some n /\ sockets c !! n = Some CONNECTING
      | Handshaking => (handshakeTimer c = Some n /\ sockets c !! n = Some OPEN) \/ sockets c !! n = Some CLOSING
      | Connected => activityProbeTimer c = true /\ (sockets c !! n = Some OPEN \/ sockets c !! n = Some CLOSING)
      | _ => False
      end
  end.
Proof.
  intros c. destruct (Inv_run tok sharedKeyOf start es) as [(HP & _) _]. fold c in HP. clearbody c.
  destruct HP as [Hi|d Hi -> Hr Hd -> _|n Hi -> Hr -> Hc Hs _ _|n Hi -> Hr -> Hs _|n Hi -> Hr -> Ha Hs _]; [by left|right..]; eauto.
Qed.

(** C16. A request is answered once, and none is forgotten: at any moment the promises not
    yet settled are exactly those that wait for the connection or are in flight, each in
    one place; calls are in flight on a live connection only, and none waits there. What
    was settled stays as it was, and after [close] nothing is left unsettled. *)
Theorem direct_requests_accounted start es es' now :
  let c := direct_run start es in
  let places := map w_promise (connectWaiters c) ++ in_flight (pending c) in
  NoDup places /\ (forall p, promises c !! p = Some None <-> p ∈ places) /\
  (pending c <> ∅ -> state c = Connected) /\ (connectWaiters c <> [] -> state c <> Connected /\ intentionallyClosed c = false) /\
  (forall p o, promises c !! p = Some (Some o) -> promises (direct_run start (es ++ es')) !! p = Some (Some o)) /\
  (forall p, promises (direct_run start (es ++ [(now, Close)])) !! p <> Some None).
Proof.
  intros c places. destruct (Inv_run tok sharedKeyOf start es) as [HI Hj]. fold c in HI, Hj. pose proof HI as (HP & HA & _).
  assert (Hplaces : waiting c = places) by (unfold waiting; by rewrite Hj).
  pose proof (acct_nodup _ _ _ _ _ _ _ HA) as H1. pose proof (acct_waits _ _ _ _ _ _ _ HA) as H2. rewrite Hplaces in H1, H2.
  assert (Hrun : forall l, direct_run start (es ++ l) = foldl (direct_step tok sharedKeyOf) c l) by (intros l; apply foldl_app).
  split; [exact H1|]. split; [exact H2|]. split; [destruct HP; done|]. split; [destruct HP; try done; split; congruence|]. split.
  - intros p o Hp. rewrite Hrun. destruct (Inv_steps tok sharedKeyOf (promises c) es' c HI Hj) as [(_ & HA' & _) _].
    by apply (acct_before _ _ _ _ _ _ _ HA').
  - intros p. rewrite Hrun. cbn [foldl]. destruct (Inv_step tok sharedKeyOf (promises c) (now, Close) c HI Hj) as [HI' Hj'].
    rewrite direct_close_step in * by done. pose proof (proj2 (close_leaves now c)) as Hc. set (c1 := close now c) in *. clearbody c1.
    destruct HI' as (HP' & HA' & _). rewrite (acct_waits _ _ _ _ _ _ _ HA'). unfold waiting. rewrite Hj'.
    destruct HP' as [_ _ _ _ -> ->| | | |]; [|congruence..]. by apply not_elem_of_nil.
Qed.
End Always.
