(* ===== verification/DirectClientRuns.v ===== *)
(** * Runs of the phone's direct client (DirectClient.v)

    A connection that is lost is made again, with every live subscription sent once on
    the new socket. What the client does with subscriptions that end at the wrong
    moment: one that ends while the client greets the host costs it the connection, one
    that ends before its replay is confirmed leaves the host's new one behind. *)

From Stdlib Require Import QArith.
From S2P Require Import Prelude JsMap Json JsText Base64 E2eeContract E2eeSession TerminalStream LogicalClient MobileFrames DirectClient DirectClientFacts.

Local Open Scope string_scope.
Local Open Scope list_scope.
Local Open Scope Z_scope.

(** ** Subscriptions across connections *)

Section Entries.
Context {V : Type}.
Implicit Types (m : jsmap string V) (d l : list (string * V)).
Lemma al_mid d id (v : V) l : NoDup (d ++ (id, v) :: l).*1 ->
  al_lookup id (d ++ (id, v) :: l) = Some v /\ al_delete id (d ++ (id, v) :: l) = d ++ l /\ forall w, al_insert id w (d ++ (id, v) :: l) = d ++ (id, w) :: l.
Proof.
  induction d as [|[k x] d IH]; cbn; intros [Hk Hnd]%NoDup_cons.
  - rewrite !decide_True by done. split; [done|]. split; [by apply al_delete_notin|]. intros w. by rewrite decide_True.
  - destruct (IH Hnd) as (H1 & H2 & H3). assert (Hne : id <> k) by (intros ->; apply Hk; rewrite fmap_app; set_solver).
    rewrite !decide_False by done. split; [done|]. split; [by rewrite H2|]. intros w. rewrite decide_False by done. by rewrite H3.
Qed.
(** An entry between others. *)
Lemma jm_mid m d id (v : V) l : jm_entries m = d ++ (id, v) :: l -> NoDup (d ++ (id, v) :: l).*1 ->
  m !! id = Some v /\ jm_entries (delete id m) = d ++ l /\ forall w, jm_entries (<[id := w]> m) = d ++ (id, w) :: l.
Proof. destruct m as [e]. cbn. intros -> Hnd. by apply al_mid. Qed.
End Entries.

Definition live_streams (m : jsmap string StreamRequest) : list (string * StreamRequest) := filter (fun x => cancelled x.2 = false) (jm_entries m).
Definition subscribe_sends (tok : string) (sock : nat) (l : list (string * StreamRequest)) : list Effect :=
  map (fun '(id, s) => SendEncrypted sock (CallPayload id tok (method s) (params s))) l.
Definition with_sent (b : bool) (x : string * StreamRequest) : string * StreamRequest := (x.1, x.2 <| sent := b |>).

Lemma reset_streams id c : streamListeners (resetTerminalStreamRoutingForRequest id c) = streamListeners c /\ log (resetTerminalStreamRoutingForRequest id c) = log c.
Proof.
  unfold resetTerminalStreamRoutingForRequest. destruct (terminalStreamIdsByRequest c !! id) as [ids|]; [|done]. cbn.
  revert c. induction ids as [|n ids IH]; intros c; cbn; [done|]. destruct (IH (c <| terminalStreamListeners := delete n (terminalStreamListeners c) |>
                           <| terminalSnapshots := delete n (terminalSnapshots c) |>)) as [-> ->]. done.
Qed.
Lemma reset_count id c : authRejectionCount (resetTerminalStreamRoutingForRequest id c) = authRejectionCount c.
Proof.
  unfold resetTerminalStreamRoutingForRequest. destruct (terminalStreamIdsByRequest c !! id) as [ids|]; [|done]. cbn.
  revert c. induction ids as [|n ids IH]; intros c; cbn [foldl]; [done|]. by rewrite IH.
Qed.
Lemma mark_count c : authRejectionCount (markStreamsForReplay c) = authRejectionCount c.
Proof.
  unfold markStreamsForReplay. generalize (jm_keys (streamListeners c)). intros l. revert c. induction l as [|id l IH]; intros c; cbn [foldl]; [done|].
  rewrite IH, reset_count. unfold update_stream. by destruct (streamListeners c !! id).
Qed.
Lemma remove_stream id c : log (removeStreamListener id c) = log c /\ authRejectionCount (removeStreamListener id c) = authRejectionCount c /\
  streamListeners (removeStreamListener id c) = delete id (streamListeners c).
Proof.
  unfold removeStreamListener. rewrite reset_count. destruct (reset_streams id (clear_screencast id (c <| streamListeners := delete id (streamListeners c) |>))) as [-> ->].
  done.
Qed.
Lemma pausing_count now c : let c' := scheduleReconnect (setState now Reconnecting c) in
  authRejectionCount c' = authRejectionCount c /\ ws c' = ws c /\ state c' = Reconnecting.
Proof.
  intros c'. unfold c'. clear c'. set (c1 := setState now Reconnecting c).
  assert (H1 : authRejectionCount c1 = authRejectionCount c /\ ws c1 = ws c /\ state c1 = Reconnecting) by (unfold c1, setState; by case_bool_decide).
  clearbody c1. destruct H1 as (<- & <- & <-). unfold scheduleReconnect. destruct (_ <=? _)%nat; [by rewrite rejectConnectWaiters_eq|done].
Qed.
Lemma rejection_shape now r c n : ws c = Some n -> (S (authRejectionCount c) < AUTH_RETRY_BUDGET)%nat -> let c' := handleAuthRejection now r c in
  authRejectionCount c' = S (authRejectionCount c) /\ ws c' = None /\ state c' = Reconnecting.
Proof.
  intros Hn Hb. unfold handleAuthRejection. cbv zeta. cbn [authRejectionCount].
  change (authRejectionCount (?x <| authRejectionCount := ?k |>)) with k. destruct (Nat.ltb_spec (S (authRejectionCount c)) AUTH_RETRY_BUDGET) as [_|]; [|lia].
  match goal with |- context [markStreamsForReplay ?x] => set (c1 := x) end.
  destruct (quiet_fields _ _ (quiet_mark c1)) as (E1 & _). pose proof (mark_count c1) as E2. set (c2 := markStreamsForReplay c1) in *. clearbody c2. subst c1. cbn in E1, E2.
  match goal with |- context [scheduleReconnect (setState now Reconnecting ?x)] => set (c3 := x) end.
  assert (H3 : authRejectionCount c3 = S (authRejectionCount c) /\ ws c3 = None).
  { unfold c3. rewrite rejectAllPending_eq. unfold close_socket. repeat case_match; cbn; rewrite ?E1, ?E2; done. }
  clearbody c3. destruct H3 as [<- <-]. apply pausing_count.
Qed.
Lemma with_sent_keys b l : (with_sent b <$> l).*1 = l.*1.
Proof. rewrite <-list_fmap_compose. by apply list_fmap_ext. Qed.

Lemma mark_entries c : jm_wf (streamListeners c) ->
  jm_entries (streamListeners (markStreamsForReplay c)) = with_sent false <$> jm_entries (streamListeners c) /\ log (markStreamsForReplay c) = log c.
Proof.
  intros Hwf. unfold markStreamsForReplay, jm_keys.
  set (f := fun c id => resetTerminalStreamRoutingForRequest id (update_stream id (fun s => s <| sent := false |>) c)).
  enough (H : forall l d c, jm_entries (streamListeners c) = d ++ l -> NoDup (d ++ l).*1 ->
    jm_entries (streamListeners (foldl f c l.*1)) = d ++ (with_sent false <$> l) /\ log (foldl f c l.*1) = log c) by (by apply (H _ [])).
  clear c Hwf. induction l as [|[id s] l IH]; intros d c He Hnd; [by cbn; rewrite He|]. rewrite !fmap_cons. cbn [foldl fst].
  destruct (jm_mid _ d id s l He Hnd) as (H1 & _ & H3). set (c1 := f c id).
  assert (Hc1 : jm_entries (streamListeners c1) = (d ++ [(id, s <| sent := false |>)]) ++ l /\ log c1 = log c).
  { unfold c1, f. destruct (reset_streams id (update_stream id (fun s => s <| sent := false |>) c)) as [-> ->]. unfold update_stream.
    rewrite H1. cbn [streamListeners]. split; [|done]. cbn. rewrite H3, <-app_assoc. done. }
  destruct Hc1 as [Hc1 Hl1]. destruct (IH _ _ Hc1) as [IH1 IH2]; [by rewrite <-app_assoc, !fmap_app in *|]. rewrite IH1, IH2, <-app_assoc. done.
Qed.
Lemma handleSocketClosed_streams now n c : ws c = Some n -> intentionallyClosed c = false -> jm_wf (streamListeners c) -> state c <> Reconnecting ->
  let c' := handleSocketClosed now n c in
  jm_entries (streamListeners c') = with_sent false <$> jm_entries (streamListeners c) /\ log c' = log c ++ [StateChanged Reconnecting] /\ sockets c' = sockets c /\ state c' = Reconnecting.
Proof.
  intros Hw Hi Hwf Hs. unfold handleSocketClosed. rewrite bool_decide_true by done. cbn [negb].
  match goal with |- context [markStreamsForReplay ?x] => set (c1 := x) end.
  destruct (mark_entries c1 Hwf) as [M1 M2]. destruct (quiet_fields _ _ (quiet_mark c1)) as (_ & E2 & _ & E4 & _ & E6 & _).
  set (c2 := markStreamsForReplay c1) in *. clearbody c2. subst c1. cbn in M1, M2, E2, E4, E6. cbn. rewrite E4, Hi. clear E4.
  rewrite rejectAllPending_eq. unfold setState. rewrite bool_decide_false by (cbn; congruence). rewrite <-M1, <-M2, <-E6.
  unfold scheduleReconnect. destruct (_ <=? _)%nat; [rewrite rejectConnectWaiters_eq|]; done.
Qed.

Section Resume.
Context `{PhoneEnv} (tok : string) (sharedKeyOf : nat -> list Z).

(** A connection that can send. *)
Definition sending (n : nat) (c : Direct) : Prop := ws c = Some n /\ in_state n OPEN c = true /\ is_some (sharedKey c) = true /\ state c = Connected.
Lemma sending_quiet n c c' : quiet c c' -> sending n c -> sending n c'.
Proof.
  intros Hq (H1 & H2 & H3 & H4). destruct (quiet_fields _ _ Hq) as (E1 & E2 & _ & _ & _ & E6 & E7 & _). unfold sending, in_state in *.
  by rewrite E1, E2, E6, E7.
Qed.
Lemma sends_open now n p c : ws c = Some n -> in_state n OPEN c = true -> is_some (sharedKey c) = true -> sendEncrypted now p c = (emit (SendEncrypted n p) c, true).
Proof. intros H1 H2 H3. unfold sendEncrypted. by rewrite H1, H2, H3. Qed.
Lemma sending_sends now n p c : sending n c -> sendEncrypted now p c = (emit (SendEncrypted n p) c, true).
Proof. intros (H1 & H2 & H3 & _). by apply sends_open. Qed.

Lemma replay_live now n c id s d l : sending n c -> jm_entries (streamListeners c) = d ++ (id, s) :: l -> NoDup (d ++ (id, s) :: l).*1 -> sent s = false ->
  let c' := replay_one tok now c id in
  quiet c c' /\ jm_entries (streamListeners c') = d ++ (if cancelled s then [] else [(id, s <| sent := true |>)]) ++ l /\
  log c' = log c ++ (if cancelled s then [] else subscribe_sends tok n [(id, s)]).
Proof.
  intros Hs He Hnd Hsent. destruct (jm_mid _ d id s l He Hnd) as (H1 & H2 & _). unfold replay_one. rewrite H1. cbn. destruct (cancelled s) eqn:Hc.
  - split; [apply quiet_removeStream|]. unfold removeStreamListener. destruct (reset_streams id (clear_screencast id (c <| streamListeners := delete id (streamListeners c) |>))) as [-> ->].
    split; [exact H2|]. by rewrite app_nil_r.
  - rewrite Hsent. set (c1 := if is_screencast s then _ else c). set (c2 := resetTerminalStreamRoutingForRequest id c1).
    assert (Hq : quiet c c1) by (unfold c1; by destruct (is_screencast s)).
    assert (Hq2 : quiet c c2) by (etrans; [exact Hq|apply quiet_reset]).
    assert (He2 : streamListeners c2 = streamListeners c /\ log c2 = log c).
    { destruct (reset_streams id c1) as [E1 E2]. unfold c2. rewrite E1, E2. unfold c1. by destruct (is_screencast s). }
    clearbody c2. clear c1 Hq. destruct He2 as [He2 Hl2]. unfold send_stream. rewrite (sending_sends now n) by (by eapply sending_quiet).
    split; [etrans; [exact Hq2|]; etrans; [apply quiet_emit|apply quiet_update_stream]|].
    unfold update_stream. cbn [streamListeners emit]. change (streamListeners (emit ?e c2)) with (streamListeners c2). rewrite He2, H1. cbn. rewrite Hl2. split; [|done].
    destruct (jm_mid _ d id s l He Hnd) as (_ & _ & H3). rewrite H3. done.
Qed.
Lemma replay_run now n l d c : sending n c -> jm_entries (streamListeners c) = d ++ l -> NoDup (d ++ l).*1 -> Forall (fun x => sent x.2 = false) l ->
  let c' := foldl (replay_one tok now) c l.*1 in
  quiet c c' /\ jm_entries (streamListeners c') = d ++ (with_sent true <$> filter (fun x => cancelled x.2 = false) l) /\
  log c' = log c ++ subscribe_sends tok n (filter (fun x => cancelled x.2 = false) l).
Proof.
  revert d c. induction l as [|[id s] l IH]; intros d c Hs He Hnd Hf; [cbn; by rewrite !app_nil_r in *|].
  apply Forall_cons in Hf as [Hf1 Hf]. cbn in Hf1. rewrite fmap_cons. cbn [foldl fst].
  destruct (replay_live now n c id s d l Hs He Hnd Hf1) as (Hq & He' & Hl'). set (c1 := replay_one tok now c id) in *. clearbody c1.
  rewrite app_assoc in He'. destruct (IH _ c1 (sending_quiet _ _ _ Hq Hs) He') as (Hq2 & He2 & Hl2); [|done|].
  { rewrite !fmap_app in *. rewrite fmap_cons in Hnd. destruct (cancelled s); cbn in *; rewrite <-?app_assoc, ?app_nil_r; [|exact Hnd].
    eapply sublist_NoDup; [exact Hnd|]. apply sublist_app; [done|]. by apply sublist_skip_cons || (constructor; done). }
  split; [by etrans|]. rewrite He2, Hl2, Hl', filter_cons. cbn [snd]. destruct (cancelled s) eqn:Hc.
  - rewrite decide_False by done. by rewrite !app_nil_r.
  - rewrite decide_True by done. rewrite fmap_cons, <-!app_assoc. done.
Qed.

(** On the way to the next connection: nothing in hand, no stream sent. *)
Record Away (w : option nat) (st : ConnectionState) (m : nat) (l : list (string * StreamRequest)) (lg : list Effect) (c : Direct) : Prop := {
  away_open : intentionallyClosed c = false;
  away_ws : ws c = w;
  away_state : state c = st;
  away_jobs : jobs c = [];
  away_waiters : connectWaiters c = [];
  away_pending : pending c = ∅;
  away_sockets : length (sockets c) = m;
  away_streams : jm_entries (streamListeners c) = with_sent false <$> l;
  away_log : log c = lg }.

Lemma away_closes before now n c : Inv [] before c -> jobs c = [] -> state c = Connected -> ws c = Some n ->
  let c' := direct_step tok sharedKeyOf c (now, SocketCloses n) in
  Away None Reconnecting (length (sockets c)) (jm_entries (streamListeners c)) (log c ++ [StateChanged Reconnecting]) c' /\ is_Some (reconnectTimer c').
Proof.
  intros HI Hj Hs Hw c'. pose proof HI as (HP & HA & _). destruct (phase_open _ _ HP Hw) as (Hi & Hr & _).
  assert (Ho : in_state n CLOSED c = false /\ connectWaiters c = []).
  { destruct HP as [| | | |k _ Hk _ _ _ Hk' Hc]; try congruence. assert (k = n) as -> by congruence. split; [|done].
    apply not_true_iff_false. rewrite in_state_Some. destruct Hk'; congruence. }
  destruct Ho as [Ho Hc]. set (c0 := set_socket n CLOSED c).
  destruct (handleSocketClosed_shape now n c0 Hw Hi) as (H1 & H2 & H3 & H4).
  destruct (handleSocketClosed_streams now n c0 Hw Hi) as (H5 & H6 & H7 & H8); [apply HA|cbn; congruence|].
  assert (E : c' = handleSocketClosed now n c0).
  { unfold c', direct_step. cbn [direct_event fst snd]. rewrite Ho. unfold onclose. fold c0. rewrite run_jobs_nil by (rewrite H3; exact Hj). done. }
  rewrite E. destruct (Inv_onclose before now n c HI) as (HP' & _). unfold onclose in HP'. fold c0 in HP'.
  destruct HP' as [? ? ? [?|?]|d Hi' _ Hd _ _ _| | |]; try congruence. split; [|by eexists]. split; auto.
  - rewrite H3. exact Hj.
  - by destruct H4 as [-> | ->].
  - rewrite H7. cbn. by rewrite length_insert.
Qed.

Lemma away_fires now m l lg c : Away None Reconnecting m l lg c -> is_Some (reconnectTimer c) ->
  let c' := direct_step tok sharedKeyOf c (now, ReconnectFires) in
  Away (Some m) Connecting (S m) l (lg ++ [StateChanged Connecting; SocketOpened m]) c' /\ sockets c' !! m = Some CONNECTING.
Proof.
  intros [A1 A2 A3 A4 A5 A6 A7 A8 A9] [d Hd] c'. subst c'. unfold direct_step. cbn [direct_event fst snd]. unfold reconnect_fires, openConnection. rewrite Hd.
  change (intentionallyClosed (c <| reconnectTimer := None |>)) with (intentionallyClosed c). rewrite A1.
  rewrite setState_cases by auto. rewrite bool_decide_false by (cbn; congruence).
  match goal with |- context [run_jobs tok now ?x] => rewrite (run_jobs_nil tok now x) by exact A4 end. split; [split; auto|].
  - cbn. by rewrite A7.
  - cbn. by rewrite length_app, A7, Nat.add_comm.
  - cbn. by rewrite A7, A9, <-app_assoc.
  - cbn. by rewrite list_lookup_middle.
Qed.

Lemma away_opens now m l lg c : Away (Some m) Connecting (S m) l lg c -> sockets c !! m = Some CONNECTING ->
  let c' := direct_step tok sharedKeyOf c (now, SocketOpens m) in
  Away (Some m) Handshaking (S m) l (lg ++ [StateChanged Handshaking; SendHello m]) c' /\ sockets c' !! m = Some OPEN /\ sharedKey c' = Some (sharedKeyOf m).
Proof.
  intros [A1 A2 A3 A4 A5 A6 A7 A8 A9] Hs c'. subst c'. unfold direct_step. cbn [direct_event fst snd]. rewrite (proj2 (in_state_Some _ _ _) Hs). unfold onopen.
  rewrite bool_decide_true by exact A2. cbn [negb]. rewrite setState_cases by auto. rewrite bool_decide_false by (cbn; congruence).
  match goal with |- context [run_jobs tok now ?x] => rewrite (run_jobs_nil tok now x) by exact A4 end. split; [split; auto|].
  - cbn. by rewrite length_insert.
  - cbn. by rewrite A9, <-app_assoc.
  - split; [|done]. cbn. rewrite list_lookup_insert_eq; [done|]. lia.
Qed.

Lemma away_ready now m l lg c rdy r : Away (Some m) Handshaking (S m) l lg c -> sockets c !! m = Some OPEN -> sharedKey c = Some (sharedKeyOf m) ->
  JSON_parse rdy = Some r -> has_type "e2ee_ready" r = true ->
  let c' := direct_step tok sharedKeyOf c (now, SocketMessage m (TextMessage rdy)) in
  Away (Some m) Handshaking (S m) l (lg ++ [SendEncrypted m (AuthPayload tok)]) c' /\ sockets c' !! m = Some OPEN /\ sharedKey c' = Some (sharedKeyOf m).
Proof.
  intros [A1 A2 A3 A4 A5 A6 A7 A8 A9] Hs Hk Hr Ht c'. subst c'. unfold direct_step. cbn [direct_event fst snd]. unfold onmessage.
  rewrite bool_decide_true by exact A2. cbn [negb]. rewrite bool_decide_true by exact A3. unfold handshake_message. rewrite Hr, Ht.
  unfold sendEncrypted. rewrite A2, (proj2 (in_state_Some _ _ _) Hs), Hk. cbn [is_some andb fst].
  match goal with |- context [run_jobs tok now ?x] => rewrite (run_jobs_nil tok now x) by exact A4 end. split; [split; auto|done]. cbn. by rewrite A9.
Qed.

Lemma away_authenticated now m l lg c auth plain msg : Away (Some m) Handshaking (S m) l lg c -> sockets c !! m = Some OPEN -> sharedKey c = Some (sharedKeyOf m) ->
  NoDup l.*1 -> length (sharedKeyOf m) = 32%nat -> (forall v, JSON_parse auth = Some v -> has_type "e2ee_ready" v = false) ->
  decrypt auth (sharedKeyOf m) = Some plain -> JSON_parse plain = Some msg -> has_type "e2ee_authenticated" msg = true ->
  let c' := direct_step tok sharedKeyOf c (now, SocketMessage m (TextMessage auth)) in
  let live := filter (fun x => cancelled x.2 = false) l in
  sending m c' /\ pending c' = ∅ /\ log c' = lg ++ StateChanged Connected :: subscribe_sends tok m live /\
  jm_entries (streamListeners c') = with_sent true <$> live.
Proof.
  intros [A1 A2 A3 A4 A5 A6 A7 A8 A9] Hs Hk Hnd Hl Hno Hd Hp Ht c' live. subst c'. unfold direct_step. cbn [direct_event fst snd]. unfold onmessage.
  rewrite bool_decide_true by exact A2. cbn [negb]. rewrite bool_decide_true by exact A3. unfold handshake_message.
  replace (match JSON_parse auth with Some msg => has_type "e2ee_ready" msg | None => false end) with false
    by (destruct (JSON_parse auth) as [v|] eqn:E; [by rewrite (Hno v)|done]).
  unfold key_ok. rewrite Hk, Hl. cbn [Nat.eqb mbind option_bind]. rewrite Hd. cbn [mbind option_bind]. rewrite Hp, Ht.
  assert (Hmsg : forall (a b : Direct), match msg with JNull => a | _ => b end = b) by (by destruct msg). rewrite Hmsg. clear Hmsg.
  unfold authenticated. set (c1 := (setState now Connected _) <| activityProbeTimer := true |>).
  assert (H1 : sending m c1 /\ pending c1 = ∅ /\ jobs c1 = [] /\ jm_entries (streamListeners c1) = with_sent false <$> l /\ log c1 = lg ++ [StateChanged Connected]).
  { unfold c1, setState. rewrite bool_decide_false by (cbn; congruence). split_and!; [split_and!| | | |]; cbn; auto.
    - by apply in_state_Some.
    - by rewrite Hk.
    - by rewrite A4, A5.
    - by rewrite A9. }
  clearbody c1. destruct H1 as (H1 & H2 & H3 & H4 & H5). unfold jm_keys.
  destruct (replay_run now m (with_sent false <$> l) [] c1 H1 H4) as (Hq & He & Hlog).
  { cbn. by rewrite with_sent_keys. }
  { apply Forall_fmap, Forall_true. by intros [id s]. }
  rewrite <-H4 in Hq, He, Hlog. set (c2 := foldl (replay_one tok now) c1 _) in *.
  destruct (quiet_fields _ _ Hq) as (_ & _ & _ & _ & E5 & _ & _ & E8 & _). rewrite run_jobs_nil by (by rewrite E8).
  assert (Hlive : filter (fun x => cancelled x.2 = false) (jm_entries (streamListeners c1)) = with_sent false <$> live).
  { rewrite H4. unfold live. clear. induction l as [|[id s] l IH]; [done|]. rewrite fmap_cons, !filter_cons. cbn. destruct (cancelled s); [done|]. cbn. by rewrite IH. }
  rewrite Hlive in He, Hlog. split; [by eapply sending_quiet|]. split; [by rewrite E5|]. split.
  - rewrite Hlog, H5, <-app_assoc. cbn. do 2 f_equal. unfold subscribe_sends. rewrite <-list_fmap_compose || idtac. clear. induction live as [|[id s] l' IH]; [done|]. cbn. by f_equal.
  - rewrite He. cbn. rewrite <-list_fmap_compose. apply list_fmap_ext. by intros ? [id s].
Qed.

(** C14. A lost connection comes back whole: when the socket of a connection closes, the
    client redials once its timer fires, greets the host on the new socket, and when
    the host has authenticated it, sends every subscription the application still wants
    again, each once, in the order they were made and with their latest parameters. That
    is all it sends. Cancelled subscriptions are forgotten, calls in flight are gone. *)
Theorem direct_resubscribes start es t1 t2 t3 t4 t5 n rdy r auth plain msg :
  let c := direct_run tok sharedKeyOf start es in
  let m := length (sockets c) in
  state c = Connected -> ws c = Some n ->
  JSON_parse rdy = Some r -> has_type "e2ee_ready" r = true ->
  length (sharedKeyOf m) = 32%nat -> (forall v, JSON_parse auth = Some v -> has_type "e2ee_ready" v = false) ->
  decrypt auth (sharedKeyOf m) = Some plain -> JSON_parse plain = Some msg -> has_type "e2ee_authenticated" msg = true ->
  let c' := direct_run tok sharedKeyOf start
    (es ++ [(t1, SocketCloses n); (t2, ReconnectFires); (t3, SocketOpens m); (t4, SocketMessage m (TextMessage rdy)); (t5, SocketMessage m (TextMessage auth))]) in
  state c' = Connected /\ ws c' = Some m /\ pending c' = ∅ /\
  jm_entries (streamListeners c') = with_sent true <$> live_streams (streamListeners c) /\
  log c' = log c ++ [StateChanged Reconnecting; StateChanged Connecting; SocketOpened m; StateChanged Handshaking; SendHello m;
                     SendEncrypted m (AuthPayload tok); StateChanged Connected] ++ subscribe_sends tok m (live_streams (streamListeners c)).
Proof.
  intros c m Hs Hw Hr Hrt Hl Hno Hd Hp Ht c'. destruct (Inv_run tok sharedKeyOf start es) as [HI Hj]. fold c in HI, Hj.
  assert (Hrun : forall l, direct_run tok sharedKeyOf start (es ++ l) = foldl (direct_step tok sharedKeyOf) c l) by (intros l; apply foldl_app).
  unfold c'. rewrite Hrun. clear c' Hrun. clearbody c. cbn [foldl]. assert (Hnd : NoDup (jm_entries (streamListeners c)).*1) by apply HI.
  destruct (away_closes _ t1 n c HI Hj Hs Hw) as [A1 Htimer]. fold m in A1. set (c1 := direct_step _ _ c _) in *. clearbody c1.
  destruct (away_fires t2 _ _ _ c1 A1 Htimer) as [A2 Hs2]. set (c2 := direct_step _ _ c1 _) in *. clearbody c2.
  destruct (away_opens t3 _ _ _ c2 A2 Hs2) as (A3 & Hs3 & Hk3). set (c3 := direct_step _ _ c2 _) in *. clearbody c3.
  destruct (away_ready t4 _ _ _ c3 rdy r A3 Hs3 Hk3 Hr Hrt) as (A4 & Hs4 & Hk4). set (c4 := direct_step _ _ c3 _) in *. clearbody c4.
  destruct (away_authenticated t5 _ _ _ c4 auth plain msg A4 Hs4 Hk4 Hnd Hl Hno Hd Hp Ht) as ((H1 & _ & _ & H2) & H3 & H4 & H5).
  split; [done|]. split; [done|]. split; [done|]. split; [exact H5|]. rewrite H4, <-!app_assoc. done.
Qed.

(** ** Subscriptions that end at the wrong moment *)

(** C40. A terminal closed while the client greets the host costs the connection: the
    client sends the unsubscribe before it is authenticated, on the channel where the
    host expects the token and nothing else, and when the host answers with the error
    it gives for that, counts a rejected token and drops the connection. *)
Theorem early_unsubscribe_rejected now now' id s ps n key reply plain msg c :
  ws c = Some n -> state c = Handshaking -> in_state n OPEN c = true -> sharedKey c = Some key -> length key = 32%nat ->
  streamListeners c !! id = Some s -> method s = "terminal.subscribe" -> buildTerminalUnsubscribeParams (params s) = Some ps ->
  (S (authRejectionCount c) < AUTH_RETRY_BUDGET)%nat ->
  JSON_parse reply = None -> decrypt reply key = Some plain -> JSON_parse plain = Some msg -> has_type "e2ee_error" msg = true ->
  let c1 := unsubscribe tok now id c in
  let c2 := onmessage tok now' n (TextMessage reply) c1 in
  log c1 = log c ++ [SendEncrypted n (CallPayload (request_id (S (requestCounter c)) now) tok "terminal.unsubscribe" (Some ps))] /\
  authRejectionCount c2 = S (authRejectionCount c) /\ ws c2 = None /\ state c2 = Reconnecting.
Proof.
  intros Hw Hs Ho Hk Hl Hid Hm Hps Hb Hr Hd Hp Ht c1 c2.
  set (e := SendEncrypted n (CallPayload (request_id (S (requestCounter c)) now) tok "terminal.unsubscribe" (Some ps))).
  assert (E1 : c1 = removeStreamListener id (emit e (c <| requestCounter := S (requestCounter c) |>))).
  { unfold c1, unsubscribe. rewrite Hid. unfold is_screencast, is_client_events. rewrite Hm. cbn [String.eqb Ascii.eqb Bool.eqb]. cbv iota. rewrite Hps.
    unfold call. rewrite nextId_eq. rewrite (sends_open now n); [done|done..|by cbn; rewrite Hk]. }
  destruct (remove_stream id (emit e (c <| requestCounter := S (requestCounter c) |>))) as (L1 & C1 & _). rewrite <-E1 in L1, C1.
  assert (Hq : quiet (emit e (c <| requestCounter := S (requestCounter c) |>)) c1) by (rewrite E1; apply quiet_removeStream).
  destruct (quiet_fields _ _ Hq) as (W1 & S1 & _ & _ & _ & _ & K1 & _). cbn in L1, C1, W1, S1, K1. split; [done|].
  unfold c2, onmessage. rewrite bool_decide_true by congruence. cbn [negb]. rewrite bool_decide_true by congruence. unfold handshake_message. rewrite Hr.
  unfold key_ok. rewrite K1, Hk, Hl. cbn [Nat.eqb mbind option_bind]. rewrite Hd. cbn [mbind option_bind]. rewrite Hp, Ht.
  assert (Hmsg : forall (a b : Direct), match msg with JNull => a | _ => b end = b) by (by destruct msg). rewrite Hmsg.
  assert (Ha : has_type "e2ee_authenticated" msg = false).
  { unfold has_type in *. destruct (prop "type" msg) as [[]|]; try done. cbn in *. by apply String.eqb_eq in Ht as ->. }
  rewrite Ha. cbn [orb]. destruct (rejection_shape now' unauthorized_reason (c1 <| handshakeTimer := None |>) n) as (R1 & R2 & R3); [cbn; congruence|cbn; by rewrite C1|].
  cbn [orb]. split; [rewrite R1; cbn; by rewrite C1|done].
Qed.

(** A client-events subscription that was sent again but not confirmed yet, and ends,
    leaves the host's new subscription behind: the client still holds the id of the lost
    connection, unsubscribes that, and forgets the stream, so the [ready] that brings
    the new id, like anything else the host sends for it, changes nothing but the count
    of messages. *)
Theorem stale_subscription_leaks now now' id s old n result streaming c :
  ws c = Some n -> state c = Connected -> in_state n OPEN c = true -> is_some (sharedKey c) = true ->
  streamListeners c !! id = Some s -> method s = "runtime.clientEvents.subscribe" -> subscriptionId s = Some old -> old <> "" ->
  pending c !! id = None ->
  let c1 := unsubscribe tok now id c in
  log c1 = log c ++ [SendEncrypted n (CallPayload (request_id (S (requestCounter c)) now) tok "runtime.clientEvents.unsubscribe"
                                        (Some (JObj [("subscriptionId", JStr old)])))] /\
  streamListeners c1 !! id = None /\ handle_response tok now' (RpcSuccess id result streaming) c1 = c1.
Proof.
  intros Hw Hs Ho Hk Hid Hm Hsub Hold Hp c1.
  set (e := SendEncrypted n _). set (s' := s <| cancelled := true |>).
  set (c0 := c <| streamListeners := <[id := s']> (streamListeners c) |>).
  assert (E1 : c1 = removeStreamListener id (emit e (c0 <| requestCounter := S (requestCounter c) |>))).
  { unfold c1, unsubscribe, disposeRuntimeClientEventsStream, is_screencast, is_client_events. rewrite Hid, Hm. cbn [String.eqb Ascii.eqb Bool.eqb]. cbv iota.
    unfold disposeServerSubscriptionStream, update_stream. rewrite Hid. fold s' c0. cbv zeta.
    assert (E0 : streamListeners c0 !! id = Some s') by apply jm_lookup_insert_eq. rewrite E0.
    unfold has_subscription, sendServerSubscriptionUnsubscribe, is_screencast, is_client_events.
    change (subscriptionId s') with (subscriptionId s). change (method s') with (method s). rewrite Hsub, Hm. destruct old as [|a old]; [done|].
    cbn [String.eqb Ascii.eqb Bool.eqb]. cbv iota. unfold call. rewrite nextId_eq. rewrite (sends_open now n); done. }
  destruct (remove_stream id (emit e (c0 <| requestCounter := S (requestCounter c) |>))) as (L1 & _ & D1). rewrite <-E1 in L1, D1. cbn in L1, D1.
  assert (Hgone : streamListeners c1 !! id = None) by (rewrite D1; apply jm_lookup_delete_eq).
  assert (Hq : quiet (emit e (c0 <| requestCounter := S (requestCounter c) |>)) c1) by (rewrite E1; apply quiet_removeStream).
  destruct (quiet_fields _ _ Hq) as (_ & _ & _ & _ & P1 & _). cbn in P1. split; [exact L1|]. split; [exact Hgone|].
  unfold handle_response, streaming_response, settle_response. cbn [rpc_id]. rewrite Hgone, P1, Hp. by destruct streaming.
Qed.
End Resume.

(** ** A phone, a subscription and a lost connection *)

Section Demo.
(** Every sealed text opens to what it says. *)
Local Instance demo_phone : PhoneEnv :=
  {| JSON_parse := fun s =>
       if String.eqb s "ready" then Some (JObj [("type", JStr "e2ee_ready")])
       else if String.eqb s "yes" then Some (JObj [("type", JStr "e2ee_authenticated")])
       else if String.eqb s "no" then Some (JObj [("type", JStr "e2ee_error")])
       else if String.eqb s "sub"
       then Some (JObj [("id", JStr "rpc-1-5"); ("ok", JBool true); ("streaming", JBool true);
                        ("result", JObj [("type", JStr "ready"); ("subscriptionId", JStr "old")])])
       else if String.eqb s "meta" then Some (JObj [("cols", JNum (NInt 80))])
       else None;
     textDecode := E2eeSession.text_of;
     box_after := fun m n k => replicate 16 0 ++ m;
     box_open_after := fun b n k => Some (drop 16 b) |}.
Definition demo_key (n : nat) : list Z := replicate 32 (Z.of_nat n).
Definition demo_text (s : string) : string := encrypt (replicate 24 0) s [].
Definition demo_says (n : nat) (s : string) : Event := SocketMessage n (TextMessage s).
Definition demo_greeting : list (Z * Event) := [(1, SocketOpens 0); (2, demo_says 0 "ready")].
Definition demo_up : list (Z * Event) :=
  demo_greeting ++ [(3, demo_says 0 (demo_text "yes")); (5, Subscribe "runtime.clientEvents.subscribe" None false); (6, demo_says 0 (demo_text "sub"))].
Definition demo_lost : list (Z * Event) :=
  [(10, SocketCloses 0); (11, ReconnectFires); (12, SocketOpens 1); (13, demo_says 1 "ready"); (14, demo_says 1 (demo_text "yes"))].
Local Notation demo_run := (direct_run "token" demo_key 0).

Lemma direct_resubscribes_witness :
  last (log (demo_run (demo_up ++ demo_lost))) = Some (SendEncrypted 1 (CallPayload "rpc-1-5" "token" "runtime.clientEvents.subscribe" None)).
Proof.
  destruct (direct_resubscribes "token" demo_key 0 demo_up 10 11 12 13 14 0 "ready" (JObj [("type", JStr "e2ee_ready")]) (demo_text "yes") "yes"
              (JObj [("type", JStr "e2ee_authenticated")])) as (_ & _ & _ & _ & H); [vm_compute; reflexivity|vm_compute; reflexivity|vm_compute; reflexivity|vm_compute; reflexivity|vm_compute; reflexivity|intros v Hv; vm_compute in Hv; discriminate|vm_compute; reflexivity|vm_compute; reflexivity|vm_compute; reflexivity|].
  change (demo_run (demo_up ++ demo_lost)) with
    (demo_run (demo_up ++ [(10, SocketCloses 0); (11, ReconnectFires); (12, SocketOpens (length (sockets (demo_run demo_up))));
      (13, SocketMessage (length (sockets (demo_run demo_up))) (TextMessage "ready")); (14, SocketMessage (length (sockets (demo_run demo_up))) (TextMessage (demo_text "yes")))])).
  rewrite H. vm_compute. reflexivity.
Defined.

(** A terminal opened and closed while the client greets the host. *)
Definition demo_terminal : json := JObj [("terminal", JStr "t")].
Definition demo_early : list (Z * Event) := demo_greeting ++ [(3, Subscribe "terminal.subscribe" (Some demo_terminal) false)].
Lemma early_unsubscribe_rejected_witness :
  let c2 := onmessage "token" 5 0 (TextMessage (demo_text "no")) (unsubscribe "token" 4 "rpc-1-3" (demo_run demo_early)) in
  authRejectionCount c2 = 1%nat /\ ws c2 = None /\ state c2 = Reconnecting.
Proof.
  destruct (early_unsubscribe_rejected "token" 4 5 "rpc-1-3"
              {| method := "terminal.subscribe"; params := Some demo_terminal; listener := 0; hasBinary := false; subscriptionId := None; cancelled := false; sent := false |}
              (JObj [("subscriptionId", JStr "t")]) 0 (demo_key 0) (demo_text "no") "no" (JObj [("type", JStr "e2ee_error")]) (demo_run demo_early))
    as (_ & H1 & H2 & H3); [vm_compute; reflexivity|vm_compute; reflexivity|vm_compute; reflexivity|vm_compute; reflexivity|vm_compute; reflexivity|
      vm_compute; reflexivity|vm_compute; reflexivity|vm_compute; reflexivity|vm_compute; lia|vm_compute; reflexivity|vm_compute; reflexivity|vm_compute; reflexivity|
      vm_compute; reflexivity|].
  split; [exact H1|]. split; [exact H2|exact H3].
Defined.

(** The replayed subscription ends before the host's new [ready]. *)
Lemma stale_subscription_leaks_witness :
  last (log (unsubscribe "token" 20 "rpc-1-5" (demo_run (demo_up ++ demo_lost)))) =
  Some (SendEncrypted 1 (CallPayload "rpc-2-20" "token" "runtime.clientEvents.unsubscribe" (Some (JObj [("subscriptionId", JStr "old")])))).
Proof.
  destruct (stale_subscription_leaks "token" 20 21 "rpc-1-5"
              {| method := "runtime.clientEvents.subscribe"; params := None; listener := 0; hasBinary := false; subscriptionId := Some "old"; cancelled := false; sent := true |}
              "old" 1 (JObj [("type", JStr "ready"); ("subscriptionId", JStr "new")]) true (demo_run (demo_up ++ demo_lost))) as (H & _);
    [vm_compute; reflexivity|vm_compute; reflexivity|vm_compute; reflexivity|vm_compute; reflexivity|vm_compute; reflexivity|vm_compute; reflexivity|vm_compute; reflexivity|
     vm_compute; discriminate|vm_compute; reflexivity|].
  rewrite H, last_snoc. vm_compute. reflexivity.
Defined.

(** A snapshot in two chunks. *)
Lemma snapshot_delivered_witness :
  given (receive_all (fun _ => true) {| snapshots := ∅; counted := false; given := None |}
    (map (fun x => encodeTerminalStreamFrame {| opcode := x.1; streamId := 7; seq := inject_Z 1; payload := utf8 x.2 |})
       [(SnapshotStart, "meta"); (SnapshotChunk, "ab"); (SnapshotChunk, "cd"); (SnapshotEnd, "")])) =
  Some (JObj [("cols", JNum (NInt 80)); ("type", JStr "scrollback"); ("streamId", JNum (NInt 7)); ("serialized", JStr "abcd")]).
Proof.
  destruct (snapshot_delivered (fun _ => true) {| snapshots := ∅; counted := false; given := None |} 7 (inject_Z 1) (JObj [("cols", JNum (NInt 80))])
              (utf8 "meta") [utf8 "ab"; utf8 "cd"] (utf8 "")) as (H & _);
    [lia|vm_compute; split; [discriminate|reflexivity]|vm_compute; reflexivity|reflexivity|vm_compute; reflexivity|vm_compute; reflexivity|].
  etrans; [exact H|]. vm_compute. reflexivity.
Defined.
End Demo.

