(* ===== verification/RelayBroker.v ===== *)
(** * The desktop runtime's relay broker (src/main/runtime/relay:
    relay-session-broker.ts, relay-origin-pool.ts, relay-control-origin.ts)

    The broker holds one authorization and refreshes it; its pool holds the origins, one
    per assigned cell, and moves from one to the next when a cell drains or its control
    closes; an origin holds its control clients and the data transport
    (RelayTransport.v). Broker, pool and origins call one another, so they are one
    record. Origins and controls are numbered by creation. A control client
    (ControlClient.v) is what its owner sees of it: dialling, live, draining or closed,
    with its requests in flight; a control closed by its owner while it dials never
    settles its [connect]. What awaits a [connect] is kept with the control.

    Promises are resumed in the step that settles them, as microtasks are. The outcomes
    of [fetch], the controls' and data sockets' events, timers, the clock and
    [Math.random] are the inputs of a run, and [options.isCurrent()] turns false for
    good when the owner says so. An acknowledgement taken without its schema may lack
    its fields; of such only absence is modelled. Constructors that throw are left out.

    Facts about this model are in RelayBrokerFacts.v. *)

From Stdlib Require Import QArith Qround.
From S2P Require Import Prelude JsMap Json E2eeChannel MobileSockets RelayUrls RelayHttp RelayTransport.

Local Open Scope string_scope.
Local Open Scope list_scope.
Local Open Scope Z_scope.

(** ** State *)

Inductive RelayBrokerStatus := Connecting | Registered | Standby | Draining | Offline.

(** The fields of [RelayHostHelloAckMessage] an origin reads. *)
Record HelloAck := {
  ack_generation : Z; ack_secret : option string; ack_lease : option Z; activeConnIds : option (list string) }.

(** What continues when a control's [connect] settles: the first origin's [open], a
    rotation for the lease, the rebinding of a drained origin, or the [open] of the
    origin that takes over from [drained]. *)
Inductive Waiter :=
  | InitialOpen
  | LeaseRebind (previous : option nat)
  | DrainRebind (previous : option nat) (assignment : RelayAssignment) (graceMs : Z)
  | TargetOpen (drained : nat) (assignment : RelayAssignment) (graceMs : Z).

Inductive ControlPhase := Dialling | Live | DrainingControl | ClosedControl.
#[export] Instance ControlPhase_eq_dec : EqDecision ControlPhase.
Proof. solve_decision. Defined.
Record Control := { control_origin : nat; phase : ControlPhase; pendingRequestCount : nat; awaiting : option Waiter }.
#[export] Instance eta_Control : Eta Control := fun x =>
  Build_Control (control_origin x) (phase x) (pendingRequestCount x) (awaiting x).

Record RelayControlOrigin := {
  o_assignment : RelayAssignment;
  transport : CloudRelayTransport;
  controls : list nat;
  retiredControlTimers : list nat;
  activeControl : option nat;
  generation : Z;
  controlResumeSecret : option string;
  leaseExpiresAt : option Z;  (** [None]: not a number *)
  acceptingConnections : bool;
  o_closed : bool }.
#[export] Instance eta_Origin : Eta RelayControlOrigin := fun x =>
  Build_RelayControlOrigin (o_assignment x) (transport x) (controls x) (retiredControlTimers x) (activeControl x) (generation x)
    (controlResumeSecret x) (leaseExpiresAt x) (acceptingConnections x) (o_closed x).

(** Where [broker.open], [resolveDrainTarget] and [refreshAuthorization] are. *)
Inductive OpenStage := OpenExchanging | OpenAssigning (a : RelayAuthorization) | OpenConnecting (a : RelayAuthorization).
Inductive RotationStage := DrainAssigning (origin : nat) (graceMs : Z) | DrainConnecting (ctl : nat).
Inductive RefreshStage := ReadingToken | Exchanging.

Inductive BrokerEffect :=
  | OnStatus (s : RelayBrokerStatus)
  | Fetch (url relayToken : string)
  | OpenControl (ctl : nat) (relayJwt : string) (assignmentEpoch : Z) (previous : option (Z * string))
  | AuthRefresh (ctl : nat) (relayJwt : string)
  | SetTimeout (delay : Z)
  | ConnectSettled (r : result unit).

Record Broker := {
  current : bool;  (** [options.isCurrent()] *)
  opening : option OpenStage;
  authorization : option RelayAuthorization;
  refreshTimer : bool;
  refreshing : option RefreshStage;
  b_closed : bool;
  activeOrigin : option nat;
  origins : list nat;
  drainingOrigins : list nat;
  basisOrigins : jsmap string nat;
  drainTimers : list nat;
  assignment : option RelayAssignment;
  relayJwt : option string;
  rotationTimer : option nat;
  armedRotations : list (nat * nat);  (** timers of [rebindActiveControl], with the origin each was set for *)
  nextTimer : nat;
  rotation : option RotationStage;  (** [rotationPromise] *)
  drainRetries : list (nat * Z);  (** timers of [handleDrain] *)
  p_closed : bool;
  all_origins : list RelayControlOrigin;
  all_controls : list Control;
  wired : list nat;  (** the transports attached to the mobile socket wiring *)
  log : list BrokerEffect }.
#[export] Instance eta_Broker : Eta Broker := fun x =>
  Build_Broker (current x) (opening x) (authorization x) (refreshTimer x) (refreshing x) (b_closed x) (activeOrigin x) (origins x)
    (drainingOrigins x) (basisOrigins x) (drainTimers x) (assignment x) (relayJwt x) (rotationTimer x) (armedRotations x) (nextTimer x)
    (rotation x) (drainRetries x) (p_closed x) (all_origins x) (all_controls x) (wired x) (log x).
Implicit Types b : Broker.

Definition emit (e : BrokerEffect) b : Broker := b <| log := log b ++ [e] |>.
Definition update_origin (o : nat) (f : RelayControlOrigin -> RelayControlOrigin) b : Broker := b <| all_origins := alter f o (all_origins b) |>.
Definition update_control (ctl : nat) (f : Control -> Control) b : Broker := b <| all_controls := alter f ctl (all_controls b) |>.
Definition without (n : nat) (l : list nat) : list nat := js_filter (fun m => negb (m =? n)%nat) l.
(** [set.add(n)] *)
Definition with_elem (n : nat) (l : list nat) : list nat := if bool_decide (n ∈ l) then l else l ++ [n].
(** [Math.floor(random() * n)] *)
Definition draw (random : Q) (n : Z) : Z := Qfloor (random * inject_Z n).

Definition stale_broker : string := "stale_relay_broker".
(** Both [isCurrent]s *)
Definition broker_isCurrent b : bool := negb (b_closed b) && current b.
Definition isCurrent b : bool := negb (p_closed b) && broker_isCurrent b.
Definition publishStatus (s : RelayBrokerStatus) b : Broker := if broker_isCurrent b then emit (OnStatus s) b else b.

(** ** Controls as their origin closes them *)

Definition control_closeNow (ctl : nat) b : Broker :=
  update_control ctl (fun c => c <| phase := ClosedControl |> <| pendingRequestCount := 0%nat |> <| awaiting := None |>) b.

Definition closeRetiredControl (o ctl : nat) b : Broker :=
  match all_origins b !! o with
  | None => b
  | Some org =>
      let b := update_origin o (fun org => org <| retiredControlTimers := without ctl (retiredControlTimers org) |>) b in
      if negb (bool_decide (activeControl org = Some ctl)) && bool_decide (ctl ∈ controls org)
      then control_closeNow ctl (update_origin o (fun org => org <| controls := without ctl (controls org) |>) b)
      else b
  end.

(** [origin.close()]; the end of its transport is not awaited by the pool. *)
Definition origin_close (o : nat) b : Broker :=
  match all_origins b !! o with
  | None => b
  | Some org =>
      if o_closed org then b
      else
        let b := foldl (fun b ctl => control_closeNow ctl b) b (controls org) in
        update_origin o (fun org => org <| o_closed := true |> <| retiredControlTimers := [] |> <| controls := [] |> <| activeControl := None |>
                                        <| transport := (RelayTransport.stop (transport org)).1 |>) b
  end.
(** [origin.pendingRequestCount] *)
Definition origin_pending (org : RelayControlOrigin) b : nat :=
  sum_list_with (fun ctl => match all_controls b !! ctl with Some c => pendingRequestCount c | None => 0%nat end) (controls org).
Definition controlLeaseExpiresAt (o : nat) b : option Z := org ← all_origins b !! o; leaseExpiresAt org.

(** ** The pool: closing origins *)

Definition closeOrigin (o : nat) b : Broker :=
  if bool_decide (activeOrigin b = Some o) then b
  else
    origin_close o
      (b <| drainTimers := without o (drainTimers b) |>
         <| basisOrigins := foldl (fun m '(c, owner) => if (owner =? o)%nat then delete c m else m) (basisOrigins b) (jm_entries (basisOrigins b)) |>
         <| drainingOrigins := without o (drainingOrigins b) |> <| origins := without o (origins b) |>).
Definition maybeCloseDrainedOrigin (o : nat) b : Broker :=
  match all_origins b !! o with
  | None => b
  | Some org =>
      if negb (bool_decide (o ∈ drainingOrigins b)) || (0 <? origin_pending org b)%nat || bool_decide (o ∈ jm_values (basisOrigins b)) then b
      else closeOrigin o b
  end.

Definition onConnectionOwned (c : string) (o : nat) b : Broker :=
  if isCurrent b && bool_decide (o ∈ origins b) then b <| basisOrigins := <[c := o]> (basisOrigins b) |> else b.
Definition onConnectionReleased (c : string) (o : nat) b : Broker :=
  maybeCloseDrainedOrigin o (if bool_decide (basisOrigins b !! c = Some o) then b <| basisOrigins := delete c (basisOrigins b) |> else b).

(** An operation of an origin's transport: connections it reports closed, and those it
    did not open, are released. *)
Definition transport_effect (o : nat) b (x : TransportEffect) : Broker :=
  match x with
  | OnConnectionClosed c | OpenSettled c (Throw _) => onConnectionReleased c o b
  | _ => b
  end.
Definition transport_op (o : nat) (f : CloudRelayTransport -> CloudRelayTransport) b : Broker :=
  match all_origins b !! o with
  | None => b
  | Some org =>
      foldl (transport_effect o) (update_origin o (fun org => org <| transport := f (transport org) |>) b)
        (drop (length (transport_log (transport org))) (transport_log (f (transport org))))
  end.

Section Broker.
Context `{UrlEnv}.
(** [relayHostId], [authConfig] *)
Context (relayHostId directorUrl tokenEndpoint : string).

(** ** Origins *)

Definition new_origin (a : RelayAssignment) : RelayControlOrigin :=
  {| o_assignment := a;
     transport := new_transport (match relayWebSocketOrigin (cellUrl a) with Ok u => u | Throw _ => "" end) relayHostId (Some (JNum (NInt 0)));
     controls := []; retiredControlTimers := []; activeControl := None; generation := 0; controlResumeSecret := None; leaseExpiresAt := Some 0;
     acceptingConnections := true; o_closed := false |}.
(** [createOrigin], and [origins.add] *)
Definition createOrigin (a : RelayAssignment) b : Broker * nat :=
  let o := length (all_origins b) in
  (b <| all_origins := all_origins b ++ [new_origin a] |> <| wired := wired b ++ [o] |> <| origins := with_elem o (origins b) |>, o).

Definition openControl (o : nat) (k : Waiter) (jwt : string) (assignmentEpoch : Z) (previous : option (Z * string)) b : Broker * nat :=
  let ctl := length (all_controls b) in
  let b := b <| all_controls := all_controls b ++ [{| control_origin := o; phase := Dialling; pendingRequestCount := 0; awaiting := Some k |}] |> in
  (emit (OpenControl ctl jwt assignmentEpoch previous) (update_origin o (fun org => org <| controls := controls org ++ [ctl] |>) b), ctl).

(** [origin.open()], up to its [connect]. *)
Definition origin_open (o : nat) (k : Waiter) (a : RelayAssignment) (jwt : string) b : Broker * nat :=
  openControl o k jwt (epoch a) None (update_origin o (fun org => org <| transport := RelayTransport.start (transport org) |>) b).

Definition activate (o ctl : nat) (ack : HelloAck) b : Broker * result unit :=
  if ack_generation ack <=? 0 then (b, Throw "invalid_relay_generation")
  else
    match all_origins b !! o with
    | None => (b, Ok tt)
    | Some org =>
        match setGeneration (Some (JNum (NInt (ack_generation ack)))) (transport org) with
        | (t, Throw m) => (b, Throw m)
        | (t, Ok _) =>
            let b := update_origin o (fun org => org <| transport := t |> <| generation := ack_generation ack |> <| controlResumeSecret := ack_secret ack |>
                                                     <| leaseExpiresAt := ack_lease ack |> <| activeControl := Some ctl |>) b in
            match activeConnIds ack with
            | None => (b, Throw "ack.activeConnIds is not iterable")
            | Some l => (foldl (fun b c => onConnectionOwned c o b) b l, Ok tt)
            end
        end
    end.

(** [rebind], up to its [connect]: the control it opens. [k] is told the control it replaces. *)
Definition rebind (o : nat) (k : option nat -> Waiter) (jwt : string) (a : RelayAssignment) b : result (Broker * nat) :=
  match all_origins b !! o with
  | None => Throw "relay_control_rebind_origin_mismatch"
  | Some org =>
      match controlResumeSecret org with
      | Some (String _ _ as secret) =>
          if negb (String.eqb (cellUrl a) (cellUrl (o_assignment org))) || (generation org <=? 0)
          then Throw "relay_control_rebind_origin_mismatch"
          else Ok (openControl o (k (activeControl org)) jwt (epoch a) (Some (generation org, secret)) b)
      | _ => Throw "relay_control_rebind_origin_mismatch"
      end
  end.
(** [rebind] after [activate]. *)
Definition rebound (o : nat) (previous : option nat) b : Broker :=
  let b := update_origin o (fun org => org <| acceptingConnections := true |>) b in
  match previous with
  | None => b
  | Some p =>
      if (match all_controls b !! p with Some c => pendingRequestCount c | None => 0 end =? 0)%nat then closeRetiredControl o p b
      else emit (SetTimeout 10100) (update_origin o (fun org => org <| retiredControlTimers := with_elem p (retiredControlTimers org) |>) b)
  end.

(** [origin.refreshAuthorization] *)
Definition origin_refreshAuthorization (jwt : string) b (o : nat) : Broker :=
  match all_origins b !! o with
  | None => b
  | Some org =>
      foldl (fun b ctl =>
        match all_controls b !! ctl with
        | Some c => if bool_decide (phase c = Live) || bool_decide (phase c = DrainingControl) then emit (AuthRefresh ctl jwt) b else b
        | None => b
        end) b (controls org)
  end.

(** ** The pool *)

(** A timer of [rebindActiveControl]; the one before is cleared by the caller or left. *)
Definition arm_rotation (o : nat) (delay : Z) b : Broker :=
  emit (SetTimeout delay)
    (b <| rotationTimer := Some (nextTimer b) |> <| armedRotations := armedRotations b ++ [(nextTimer b, o)] |> <| nextTimer := S (nextTimer b) |>).
Definition clear_rotation b : Broker :=
  match rotationTimer b with
  | Some id => b <| armedRotations := js_filter (fun x => negb (x.1 =? id)%nat) (armedRotations b) |>
  | None => b
  end.
Definition scheduleControlRotation (now : Z) (random : Q) b : Broker :=
  let b := clear_rotation b in
  match activeOrigin b with
  | Some o =>
      if p_closed b then b <| rotationTimer := None |>
      else
        let earlyMs := 60000 + draw random 60001 in
        arm_rotation o (match controlLeaseExpiresAt o b with Some l => Z.max 0 (l - earlyMs - now) | None => 1 end) b
  | None => b <| rotationTimer := None |>
  end.

(** [resolveDrainTarget] ends in its [catch]. *)
Definition drain_fails (random : Q) (o : nat) (graceMs : Z) b : Broker :=
  let b := b <| rotation := None |> in
  if isCurrent b then emit (SetTimeout (250 + draw random 751)) (b <| drainRetries := drainRetries b ++ [(o, graceMs)] |>) else b.
Definition drain_ends (now : Z) (random : Q) b : Broker :=
  (scheduleControlRotation now random (publishStatus Registered b)) <| rotation := None |>.

Definition handleDrain (random : Q) (o : nat) (graceMs : Z) b : Broker :=
  if negb (isCurrent b) || negb (bool_decide (activeOrigin b = Some o)) then b
  else
    let b := update_origin o (fun org => org <| acceptingConnections := false |>) b in
    let b := publishStatus Draining (b <| drainingOrigins := with_elem o (drainingOrigins b) |>) in
    match rotation b, relayJwt b with
    | Some _, _ => b
    | None, Some (String _ _ as jwt) =>
        if isAllowedRelayOrigin directorUrl
        then emit (Fetch (directorUrl +:+ "/v1/assign") jwt) (b <| rotation := Some (DrainAssigning o graceMs) |>)
        else drain_fails random o graceMs b
    | None, _ => drain_fails random o graceMs b
    end.

(** [activateTarget], up to its [connect]. *)
Definition activateTarget (o : nat) (a : RelayAssignment) (graceMs : Z) b : Broker :=
  let '(b, target) := createOrigin a b in
  let '(b, ctl) := origin_open target (TargetOpen o a graceMs) a (default "" (relayJwt b)) b in
  b <| rotation := Some (DrainConnecting ctl) |>.
Definition drain_assigned (random : Q) (outcome : FetchOutcome) b : Broker :=
  match rotation b with
  | Some (DrainAssigning o graceMs) =>
      match requestRelayAssignment directorUrl outcome with
      | Throw _ => drain_fails random o graceMs b
      | Ok a =>
          if negb (isCurrent b) then drain_fails random o graceMs b
          else
            match all_origins b !! o with
            | Some org =>
                if String.eqb (cellUrl a) (cellUrl (o_assignment org)) then
                  match rebind o (fun previous => DrainRebind previous a graceMs) (default "" (relayJwt b)) a b with
                  | Ok (b, ctl) => b <| rotation := Some (DrainConnecting ctl) |>
                  | Throw _ => activateTarget o a graceMs b
                  end
                else activateTarget o a graceMs b
            | None => b
            end
      end
  | _ => b
  end.

(** [activateTarget] and what follows it, once the [open] of [target] ended. *)
Definition target_fails (random : Q) (target o : nat) (graceMs : Z) b : Broker :=
  drain_fails random o graceMs (origin_close target (b <| origins := without target (origins b) |>)).
Definition target_opens (now : Z) (random : Q) (target o : nat) (a : RelayAssignment) (graceMs : Z) b : Broker :=
  if negb (isCurrent b) then target_fails random target o graceMs b
  else
    let b := b <| activeOrigin := Some target |> <| assignment := Some a |> in
    let b := emit (SetTimeout graceMs) (b <| drainTimers := with_elem o (drainTimers b) |>) in
    drain_ends now random (maybeCloseDrainedOrigin o b).

(** [rebindActiveControl] *)
Definition lease_rebind_fails (random : Q) (o : nat) b : Broker :=
  if isCurrent b && bool_decide (activeOrigin b = Some o) then arm_rotation o (5000 + draw random 10001) b else b.
Definition rebindActiveControl (random : Q) (o : nat) b : Broker :=
  let b := b <| rotationTimer := None |> in
  if negb (isCurrent b) || negb (bool_decide (activeOrigin b = Some o)) || is_some (rotation b) then b
  else
    match relayJwt b, assignment b with
    | Some (String _ _ as jwt), Some a =>
        match rebind o LeaseRebind jwt a b with
        | Ok (b, _) => b
        | Throw _ => lease_rebind_fails random o b
        end
    | _, _ => b
    end.

Definition pool_closeNow b : Broker :=
  if p_closed b then b
  else
    let b := clear_rotation (b <| p_closed := true |>) in
    let b := b <| rotationTimer := None |> <| drainTimers := [] |> in
    let b := foldl (fun b o => origin_close o b) b (origins b) in
    b <| origins := [] |> <| drainingOrigins := [] |> <| basisOrigins := ∅ |> <| activeOrigin := None |>.

(** [activeControl], [controlForBasis(basisConnId)]: requests go to these. *)
Definition availableControl (o : nat) b : option nat := org ← all_origins b !! o; activeControl org.
Definition pool_activeControl b : option nat := o ← activeOrigin b; availableControl o b.
Definition controlForBasis (c : string) b : option nat := o ← basisOrigins b !! c; availableControl o b.

(** ** The broker *)

(** What the runtime asks of the broker once it is connected; [InstallCredential] carries
    the connection of a [relay-basis] authorization. *)
Inductive BrokerRequest :=
  | CreateInvite (relayDeviceId : string)
  | CreatePairingRelay (relayDeviceId : string)
  | RevokeDevice (relayDeviceId : string)
  | InstallCredential (relayDeviceId : string) (basisConnId : option string)
  | CredentialInstallStatus (relayDeviceId reqId : string)
  | ConfirmResume (basisConnId reqId : string).
(** The control a request is handed to. *)
Definition request_control (r : BrokerRequest) b : result nat :=
  let or_throw m c := match c with Some ctl => Ok ctl | None => Throw m end in
  match r with
  | CreateInvite _ | RevokeDevice _ | CredentialInstallStatus _ _ | InstallCredential _ None => or_throw "relay_control_not_active" (pool_activeControl b)
  | CreatePairingRelay _ => or_throw "relay_control_not_active" (_ ← assignment b; pool_activeControl b)
  | InstallCredential _ (Some c) => or_throw "relay_control_not_active" (controlForBasis c b)
  | ConfirmResume c _ => or_throw "relay_basis_origin_not_found" (controlForBasis c b)
  end.
(** [broker.endpoint] *)
Definition broker_endpoint b : option json :=
  a ← assignment b;
  Some (JObj [("v", JNum (NInt 1)); ("directorUrl", JStr directorUrl); ("cellUrl", JStr (cellUrl a)); ("assignmentEpoch", JNum (NInt (epoch a)));
              ("relayHostId", JStr relayHostId); ("e2eeFraming", JNum (NInt 2))]).
(** What [r] gives its caller when its control answers [message]: [asked] is the
    assignment when it was asked. *)
Definition without_type (message : json) : json :=
  match message with JObj fields => JObj (js_filter (fun f => negb (String.eqb f.1 "type")) fields) | _ => message end.
Definition request_answered (r : BrokerRequest) (asked : option RelayAssignment) (message : json) b : result (option json) :=
  match r with
  | CreateInvite _ => Ok (Some message)
  | RevokeDevice _ => Ok None
  | CreatePairingRelay _ =>
      if negb (broker_isCurrent b) then Throw stale_broker
      else
        match asked with
        | None => Throw "relay_control_not_active"
        | Some a =>
            Ok (Some (JObj (defined
              [("v", Some (JNum (NInt 1))); ("directorUrl", Some (JStr directorUrl)); ("cellUrl", Some (JStr (cellUrl a)));
               ("assignmentEpoch", Some (JNum (NInt (epoch a)))); ("relayHostId", Some (JStr relayHostId)); ("inviteToken", prop "inviteToken" message);
               ("inviteExpiresAt", prop "expiresAt" message); ("e2eeFraming", Some (JNum (NInt 2)))])))
        end
  | _ => if negb (broker_isCurrent b) then Throw stale_broker else Ok (Some (without_type message))
  end.

Definition closeNow b : Broker :=
  if b_closed b then b
  else
    let publishOffline := current b in
    let b := pool_closeNow (b <| b_closed := true |> <| refreshTimer := false |>) in
    if publishOffline then emit (OnStatus Offline) b else b.

(** [connect] rejects: [open] threw. *)
Definition connect_fails (m : string) b : Broker := emit (ConnectSettled (Throw m)) (closeNow (b <| opening := None |>)).

Definition scheduleRefresh (now : Z) (random : Q) b : Broker :=
  match authorization b with
  | Some a =>
      if b_closed b then b
      else emit (SetTimeout (Z.max 0 (expiresAt a - (60000 + draw random 60001) - now))) (b <| refreshTimer := true |>)
  | None => b
  end.

(** [open] in its stages. *)
Definition open_exchanged (o : FetchOutcome) b : Broker :=
  match exchangeRelayAuthorization o with
  | Throw m => connect_fails m b
  | Ok a =>
      if negb (broker_isCurrent b) then connect_fails stale_broker b
      else if isAllowedRelayOrigin directorUrl
      then emit (Fetch (directorUrl +:+ "/v1/assign") (relayToken a)) (b <| opening := Some (OpenAssigning a) |>)
      else connect_fails (assignment_failed 400) b
  end.
Definition open_assigned (a : RelayAuthorization) (o : FetchOutcome) b : Broker :=
  match requestRelayAssignment directorUrl o with
  | Throw m => connect_fails m b
  | Ok asg =>
      if negb (broker_isCurrent b) then connect_fails stale_broker b
      else
        let b := b <| assignment := Some asg |> <| relayJwt := Some (relayToken a) |> in
        let '(b, o) := createOrigin asg b in
        (origin_open o InitialOpen asg (relayToken a) b).1 <| opening := Some (OpenConnecting a) |>
  end.
Definition initial_fails (m : string) b : Broker := connect_fails (if broker_isCurrent b then m else stale_broker) b.
Definition initial_opens (now : Z) (random : Q) (o : nat) b : Broker :=
  if negb (isCurrent b) then initial_fails "stale_relay_origin_pool" b
  else
    let b := scheduleControlRotation now random (b <| activeOrigin := Some o |>) in
    match opening b with
    | Some (OpenConnecting a) =>
        let b := publishStatus Registered (b <| authorization := Some a |>) in
        emit (ConnectSettled (Ok tt)) ((scheduleRefresh now random b) <| opening := None |>)
    | _ => b
    end.

(** [refreshAuthorization] in its stages. *)
Definition refresh_fails (now : Z) (random : Q) b : Broker :=
  let b := b <| refreshing := None |> in
  let expiry := match authorization b with Some a => expiresAt a | None => 0 end in
  if negb (b_closed b) && current b && (now <=? expiry + 60000)
  then emit (SetTimeout (5000 + draw random 10001)) (b <| refreshTimer := true |>)
  else closeNow b.
Definition access_token_settles (now : Z) (random : Q) (r : result (option string)) b : Broker :=
  match r with
  | Throw _ => refresh_fails now random b
  | Ok token =>
      if negb (broker_isCurrent b) then refresh_fails now random b
      else
        match token with
        | None | Some "" => closeNow (b <| refreshing := None |>)
        | Some token => emit (Fetch tokenEndpoint token) (b <| refreshing := Some Exchanging |>)
        end
  end.
Definition refresh_exchanged (now : Z) (random : Q) (o : FetchOutcome) b : Broker :=
  match exchangeRelayAuthorization o with
  | Throw _ => refresh_fails now random b
  | Ok a =>
      if negb (broker_isCurrent b) then refresh_fails now random b
      else
        let b := b <| relayJwt := Some (relayToken a) |> in
        let b := foldl (origin_refreshAuthorization (relayToken a)) b (origins b) in
        scheduleRefresh now random (b <| authorization := Some a |> <| refreshing := None |>)
  end.

(** ** What the controls report *)

(** A [connect] that rejects: [openControl] lets go of the control. *)
Definition connect_rejects (now : Z) (random : Q) (ctl : nat) (m : string) b : Broker :=
  match all_controls b !! ctl with
  | None => b
  | Some c =>
      let o := control_origin c in
      let b := control_closeNow ctl (update_origin o (fun org => org <| controls := without ctl (controls org) |>) b) in
      match awaiting c with
      | None => b
      | Some InitialOpen => initial_fails m b
      | Some (LeaseRebind _) => lease_rebind_fails random o b
      | Some (DrainRebind _ a graceMs) => activateTarget o a graceMs b
      | Some (TargetOpen drained a graceMs) => target_fails random o drained graceMs b
      end
  end.
(** A [connect] that resolves. *)
Definition connect_resolves (now : Z) (random : Q) (ctl : nat) (ack : HelloAck) b : Broker :=
  match all_controls b !! ctl with
  | None => b
  | Some c =>
      let o := control_origin c in
      let '(b, r) := activate o ctl ack (update_control ctl (fun c => c <| phase := Live |> <| awaiting := None |>) b) in
      match awaiting c, r with
      | None, _ => b
      | Some InitialOpen, Throw m => initial_fails m b
      | Some InitialOpen, Ok _ => initial_opens now random o b
      | Some (LeaseRebind _), Throw _ => lease_rebind_fails random o b
      | Some (LeaseRebind previous), Ok _ =>
          let b := rebound o previous b in
          if isCurrent b then scheduleControlRotation now random b else lease_rebind_fails random o b
      | Some (DrainRebind _ a graceMs), Throw _ => activateTarget o a graceMs b
      | Some (DrainRebind previous a graceMs), Ok _ =>
          let b := rebound o previous b in
          if isCurrent b
          then drain_ends now random (b <| activeOrigin := Some o |> <| assignment := Some a |> <| drainingOrigins := without o (drainingOrigins b) |>)
          else drain_fails random o graceMs b
      | Some (TargetOpen drained a graceMs), Throw _ => target_fails random o drained graceMs b
      | Some (TargetOpen drained a graceMs), Ok _ => target_opens now random o drained a graceMs b
      end
  end.

(** The control's socket closes: its owner is told, then what awaits it. *)
Definition control_closes (now : Z) (random : Q) (ctl : nat) b : Broker :=
  match all_controls b !! ctl with
  | None => b
  | Some c =>
      let o := control_origin c in
      let b := update_control ctl (fun c => c <| phase := ClosedControl |> <| pendingRequestCount := 0%nat |>) b in
      let b := update_origin o (fun org => org <| controls := without ctl (controls org) |>
                                               <| retiredControlTimers := without ctl (retiredControlTimers org) |>) b in
      let b :=
        if bool_decide (availableControl o b = Some ctl) then
          let b := update_origin o (fun org => org <| activeControl := None |>) b in
          if bool_decide (activeOrigin b = Some o) && isCurrent b then handleDrain random o 0 (publishStatus Offline b) else b
        else b in
      if bool_decide (phase c = Dialling) then connect_rejects now random ctl "relay_control_closed" b else b
  end.

Definition origin_openConnection (o : nat) (connection : RelayConnectionOpen) (ws : nat) b : Broker :=
  match all_origins b !! o with
  | None => b
  | Some org =>
      if negb (acceptingConnections org) then b
      else transport_op o (RelayTransport.openConnection connection (Some ws)) (onConnectionOwned (connId connection) o b)
  end.

(** ** Runs *)

Inductive ControlEvent :=
  | ControlAcks (ack : HelloAck)
  | ControlRejects (message : string)  (** the handshake failed *)
  | ControlCloses
  | ControlDrains (graceMs : Z)
  | ControlOpens (connection : RelayConnectionOpen) (ws : nat)
  | ControlRequests (n : nat).  (** its requests in flight *)

Inductive Event :=
  | OpenFetched (o : FetchOutcome)
  | DrainAssigned (o : FetchOutcome)
  | AccessToken (r : result (option string))
  | RefreshFetched (o : FetchOutcome)
  | OnControl (ctl : nat) (e : ControlEvent)
  | OnDataSocket (origin ws : nat) (e : SocketEvent)
  | RefreshFires
  | RotationFires (timer : nat)
  | DrainRetryFires (k : nat)
  | DrainDeadlineFires (origin : nat)
  | RetiredFires (origin ctl : nat)
  | CloseNow  (** by the owner, who has the broker once [connect] resolved *)
  | Superseded.  (** [isCurrent()] is false from now on *)

Definition on_control (now : Z) (random : Q) (ctl : nat) (e : ControlEvent) b : Broker :=
  match all_controls b !! ctl with
  | None => b
  | Some c =>
      match phase c, e with
      | Dialling, ControlAcks ack => connect_resolves now random ctl ack b
      | Dialling, ControlRejects m => connect_rejects now random ctl m b
      | Dialling, ControlCloses | Live, ControlCloses | DrainingControl, ControlCloses => control_closes now random ctl b
      | Live, ControlDrains graceMs | DrainingControl, ControlDrains graceMs =>
          handleDrain random (control_origin c) graceMs (update_control ctl (fun c => c <| phase := DrainingControl |>) b)
      | Live, ControlOpens connection ws => origin_openConnection (control_origin c) connection ws b
      | Live, ControlRequests n | DrainingControl, ControlRequests n => update_control ctl (fun c => c <| pendingRequestCount := n |>) b
      | _, _ => b
      end
  end.

Definition broker_event (now : Z) (random : Q) (e : Event) b : Broker :=
  match e with
  | OpenFetched o =>
      match opening b with
      | Some OpenExchanging => open_exchanged o b
      | Some (OpenAssigning a) => open_assigned a o b
      | _ => b
      end
  | DrainAssigned o => drain_assigned random o b
  | AccessToken r => match refreshing b with Some ReadingToken => access_token_settles now random r b | _ => b end
  | RefreshFetched o => match refreshing b with Some Exchanging => refresh_exchanged now random o b | _ => b end
  | OnControl ctl e => on_control now random ctl e b
  | OnDataSocket o ws e => transport_op o (RelayTransport.socket_step ws e) b
  | RefreshFires => if refreshTimer b then b <| refreshTimer := false |> <| refreshing := Some ReadingToken |> else b
  | RotationFires id =>
      match js_find (fun x => (x.1 =? id)%nat) (armedRotations b) with
      | Some (_, o) => rebindActiveControl random o (b <| armedRotations := js_filter (fun x => negb (x.1 =? id)%nat) (armedRotations b) |>)
      | None => b
      end
  | DrainRetryFires k =>
      match drainRetries b !! k with
      | Some (o, graceMs) => handleDrain random o graceMs (b <| drainRetries := delete k (drainRetries b) |>)
      | None => b
      end
  | DrainDeadlineFires o => if bool_decide (o ∈ drainTimers b) then closeOrigin o b else b
  | RetiredFires o ctl =>
      match all_origins b !! o with
      | Some org => if bool_decide (ctl ∈ retiredControlTimers org) then closeRetiredControl o ctl b else b
      | None => b
      end
  | CloseNow => match opening b with None => closeNow b | Some _ => b end
  | Superseded => b <| current := false |>
  end.

(** [RelaySessionBroker.connect], with a fresh access token. *)
Definition connect (accessToken : string) : Broker :=
  {| current := true; opening := Some OpenExchanging; authorization := None; refreshTimer := false; refreshing := None; b_closed := false;
     activeOrigin := None; origins := []; drainingOrigins := []; basisOrigins := ∅; drainTimers := []; assignment := None; relayJwt := None;
     rotationTimer := None; armedRotations := []; nextTimer := 0; rotation := None; drainRetries := []; p_closed := false; all_origins := [];
     all_controls := []; wired := []; log := [OnStatus Connecting; Fetch tokenEndpoint accessToken] |}.

Definition broker_step b (x : Z * Q * Event) : Broker := let '(now, random, e) := x in broker_event now random e b.
Definition broker_run (accessToken : string) (es : list (Z * Q * Event)) : Broker := foldl broker_step (connect accessToken) es.
End Broker.
