(* ===== verification/RelayBrokerFacts.v ===== *)
(** * Facts about the desktop runtime's relay broker (RelayBroker.v)

    Nothing leaks: an open control belongs to an open origin of the pool, and every
    origin is the active one, has a deadline, or is being opened; a closed broker has
    nothing and does nothing. Nothing gets stuck: a broker that stands has an origin
    with a control or is on its way to one, and its token and lease are looked after. *)

From Stdlib Require Import QArith Qround.
From S2P Require Import Prelude JsMap Json E2eeChannel MobileSockets RelayUrls RelayHttp RelayTransport RelayBroker.

Local Open Scope string_scope.
Local Open Scope list_scope.
Local Open Scope Z_scope.

(** ** What the invariant sees *)

Record OriginView := { ov_controls : list nat; ov_active : option nat; ov_closed : bool; ov_retired : list nat }.
Record ControlView := { cv_origin : nat; cv_phase : ControlPhase; cv_awaiting : option Waiter }.
Definition ov (org : RelayControlOrigin) : OriginView :=
  {| ov_controls := controls org; ov_active := activeControl org; ov_closed := o_closed org; ov_retired := retiredControlTimers org |}.
Definition cv (c : Control) : ControlView := {| cv_origin := control_origin c; cv_phase := phase c; cv_awaiting := awaiting c |}.
Definition orgs (b : Broker) : list OriginView := ov <$> all_origins b.
Definition ctls (b : Broker) : list ControlView := cv <$> all_controls b.

(** A control whose [connect] is over, and the one that a rebinding replaces. *)
Definition settled (cs : list ControlView) (p : nat) : Prop := exists c, cs !! p = Some c /\ cv_awaiting c = None.
Definition previous (k : Waiter) : option nat := match k with LeaseRebind p | DrainRebind p _ _ => p | _ => None end.

(** Controls and origins: a control that is not closed is one of its origin's, an origin
    that is not closed one of the pool's. *)
Record Struct (os : list OriginView) (cs : list ControlView) (pool : list nat) : Prop := {
  s_own o ctl : (exists v, os !! o = Some v /\ ctl ∈ ov_controls v) <-> (exists c, cs !! ctl = Some c /\ cv_phase c <> ClosedControl /\ cv_origin c = o);
  s_open o : o ∈ pool <-> exists v, os !! o = Some v /\ ov_closed v = false;
  s_closed o v : os !! o = Some v -> ov_closed v = true -> ov_controls v = [] /\ ov_active v = None;
  s_active o v ctl : os !! o = Some v -> ov_active v = Some ctl -> exists c, cs !! ctl = Some c /\ (cv_phase c = Live \/ cv_phase c = DrainingControl) /\ cv_origin c = o;
  s_dialling ctl c : cs !! ctl = Some c -> (cv_phase c = Dialling <-> is_Some (cv_awaiting c));
  s_previous ctl c k p : cs !! ctl = Some c -> cv_awaiting c = Some k -> previous k = Some p -> settled cs p;
  s_retired o v p : os !! o = Some v -> p ∈ ov_retired v -> settled cs p }.

(** An origin that is being opened. *)
Definition opens_origin (k : Waiter) : bool := match k with InitialOpen | TargetOpen _ _ _ => true | _ => false end.
Definition in_rotation (k : Waiter) : bool := match k with DrainRebind _ _ _ | TargetOpen _ _ _ => true | _ => false end.
Definition hatching (cs : list ControlView) (o : nat) : Prop :=
  exists ctl c k, cs !! ctl = Some c /\ cv_origin c = o /\ cv_awaiting c = Some k /\ opens_origin k = true.

(** A pool that is not closed. [busy]: [resolveDrainTarget] is running. *)
Record Proc (os : list OriginView) (cs : list ControlView) (pool draining timed : list nat) (active : option nat) (rot : option RotationStage)
    (open : option OpenStage) (retries : list (nat * Z)) (cur : bool) (busy : Prop) : Prop := {
  p_waits ctl c k : cs !! ctl = Some c -> cv_awaiting c = Some k ->
    match k with
    | InitialOpen => exists a, open = Some (OpenConnecting a)
    | LeaseRebind _ => True
    | DrainRebind _ _ _ => rot = Some (DrainConnecting ctl) /\ active = Some (cv_origin c)
    | TargetOpen d _ _ => rot = Some (DrainConnecting ctl) /\ active = Some d
    end;
  p_rot : match rot with
          | None => True
          | Some (DrainAssigning o _) => active = Some o
          | Some (DrainConnecting ctl) => exists c k, cs !! ctl = Some c /\ cv_awaiting c = Some k /\ in_rotation k = true
          end;
  p_opening : is_Some open -> active = None /\ draining = [] /\ timed = [] /\ rot = None;
  p_up : open = None -> is_Some active;
  p_one i j c c' : cs !! i = Some c -> cs !! j = Some c' -> cv_awaiting c = Some InitialOpen -> cv_awaiting c' = Some InitialOpen -> i = j;
  p_active o : active = Some o -> o ∈ pool /\ ~ hatching cs o;
  p_keep o : o ∈ pool -> active = Some o \/ o ∈ timed \/ hatching cs o;
  p_leave o : o ∈ draining \/ o ∈ timed -> o ∈ pool /\ ~ hatching cs o;
  p_going o : cur = true -> active = Some o ->
    (exists v ctl, os !! o = Some v /\ ov_active v = Some ctl) \/ rot <> None \/ (exists g, (o, g) ∈ retries) \/ busy;
  p_apart o : o ∈ timed -> active <> Some o }.
(** The token is refreshed, or will be, once the broker is open. *)
Definition Ref (open : option OpenStage) (b : Broker) : Prop :=
  match open with
  | Some _ => authorization b = None /\ refreshTimer b = false /\ refreshing b = None
  | None => is_Some (authorization b) /\ refreshTimer b = negb (is_some (refreshing b))
  end.
Definition Pool (rot : option RotationStage) (open : option OpenStage) (busy : Prop) (b : Broker) : Prop :=
  Struct (orgs b) (ctls b) (origins b) /\
  Proc (orgs b) (ctls b) (origins b) (drainingOrigins b) (drainTimers b) (activeOrigin b) rot open (drainRetries b) (current b) busy /\
  p_closed b = false /\ b_closed b = false /\ Ref open b.
(** A broker that is closed. *)
Record Gone (b : Broker) : Prop := {
  gone_struct : Struct (orgs b) (ctls b) (origins b);
  gone_origins : origins b = [];
  gone_draining : drainingOrigins b = [];
  gone_timers : drainTimers b = [] /\ refreshTimer b = false /\ rotationTimer b = None;
  gone_active : activeOrigin b = None;
  gone_opening : opening b = None;
  gone_basis : basisOrigins b = ∅;
  gone_closed : p_closed b = true /\ b_closed b = true }.

(** ** Lookups in the views *)

Lemma fmap_alter_view {A B} (g : A -> B) f h i (l : list A) : (forall x, g (f x) = h (g x)) -> g <$> alter f i l = alter h i (g <$> l).
Proof.
  intros Hf. apply list_eq. intros j. rewrite list_lookup_alter, !list_lookup_fmap, list_lookup_alter. case_decide; [|done]. subst. destruct (l !! j); cbn; [by rewrite Hf|done].
Qed.
Lemma alter_id_list {A} i (l : list A) : alter (fun x => x) i l = l.
Proof. apply list_eq. intros j. rewrite list_lookup_alter. case_decide; [|done]. subst. by destruct (l !! j). Qed.
Lemma orgs_update h o f b : (forall x, ov (f x) = h (ov x)) -> orgs (update_origin o f b) = alter h o (orgs b).
Proof. apply fmap_alter_view. Qed.
Lemma orgs_same o f b : (forall x, ov (f x) = ov x) -> orgs (update_origin o f b) = orgs b.
Proof. intros Hf. rewrite (orgs_update (fun v => v)) by done. apply alter_id_list. Qed.
Lemma ctls_update h ctl f b : (forall x, cv (f x) = h (cv x)) -> ctls (update_control ctl f b) = alter h ctl (ctls b).
Proof. apply fmap_alter_view. Qed.
Lemma ctls_same ctl f b : (forall x, cv (f x) = cv x) -> ctls (update_control ctl f b) = ctls b.
Proof. intros Hf. rewrite (ctls_update (fun v => v)) by done. apply alter_id_list. Qed.

Lemma elem_without n m l : n ∈ without m l <-> n <> m /\ n ∈ l.
Proof. unfold without. rewrite elem_of_js_filter, negb_true_iff, Nat.eqb_neq. tauto. Qed.
Lemma elem_with_elem n m l : n ∈ with_elem m l <-> n = m \/ n ∈ l.
Proof. unfold with_elem. case_bool_decide; set_solver. Qed.

(** ** Controls close, origins close *)

Definition gone_cv (c : ControlView) : ControlView := {| cv_origin := cv_origin c; cv_phase := ClosedControl; cv_awaiting := None |}.
Definition without_ctl (ctl : nat) (v : OriginView) : OriginView :=
  {| ov_controls := without ctl (ov_controls v); ov_active := if bool_decide (ov_active v = Some ctl) then None else ov_active v; ov_closed := ov_closed v; ov_retired := without ctl (ov_retired v) |}.
Definition gone_ov (v : OriginView) : OriginView := {| ov_controls := []; ov_active := None; ov_closed := true; ov_retired := [] |}.

Lemma settled_alter cs f i p : (forall c, cv_awaiting c = None -> cv_awaiting (f c) = None) -> settled cs p -> settled (alter f i cs) p.
Proof. intros Hf (c & Hc & Hn). unfold settled. rewrite list_lookup_alter. case_decide as E; [|eauto]. rewrite E, Hc. eexists. split; [done|]. by apply Hf. Qed.
Lemma settled_gone cs i p : settled cs p -> settled (alter gone_cv i cs) p.
Proof. by apply settled_alter. Qed.
#[local] Hint Resolve settled_gone : core.

(** A control that closes and leaves its origin. *)
Lemma Struct_drop os cs pool ctl c : Struct os cs pool -> cs !! ctl = Some c ->
  Struct (alter (without_ctl ctl) (cv_origin c) os) (alter gone_cv ctl cs) pool.
Proof.
  intros [S1 S2 S3 S4 S5 S6 S7] Hc. split.
  - intros o k. specialize (S1 o k). setoid_rewrite list_lookup_alter. split.
    + intros (v & Hv & Hk). case_decide as Eo.
      * subst o. destruct (os !! cv_origin c) as [v0|] eqn:Ev; [|done]. injection Hv as <-. cbn in Hk. apply elem_without in Hk as [Hne Hk].
        rewrite decide_False by congruence. apply S1. eauto.
      * destruct (proj1 S1) as (c' & Hc' & Hp & Ho); [eauto|]. rewrite decide_False; [eauto|]. intros ->. congruence.
    + intros (c' & Hc' & Hp & Ho). case_decide as Ek; [subst k; rewrite Hc in Hc'; injection Hc' as <-; done|].
      destruct (proj2 S1) as (v & Hv & Hk); [eauto|]. case_decide as Eo; [|eauto]. rewrite Eo, Hv. eexists. split; [done|]. cbn. rewrite elem_without. split; congruence.
  - intros o. rewrite S2. setoid_rewrite list_lookup_alter. case_decide as Eo; [|done]. subst o. destruct (os !! cv_origin c) as [v|]; cbn; [|naive_solver].
    split; [intros (v' & [= <-] & Hcl); eauto|]. intros (v' & [= <-] & Hcl). eauto.
  - intros o v. rewrite list_lookup_alter. case_decide; [|apply S3]. subst o. destruct (os !! cv_origin c) as [v0|] eqn:Ev; [|done]. intros [= <-] Hcl.
    destruct (S3 _ _ Ev Hcl) as [E1 E2]. cbn. rewrite E1, E2. split; [done|]. by case_bool_decide.
  - intros o v k. rewrite !list_lookup_alter. case_decide as Eo.
    + subst o. destruct (os !! cv_origin c) as [v0|] eqn:Ev; [|done]. intros [= <-]. cbn. case_bool_decide as Ea; [done|]. intros Hk.
      rewrite decide_False by congruence. by apply (S4 _ v0).
    + intros Hv Hk. destruct (S4 _ _ _ Hv Hk) as (c' & Hc' & Hp & Ho). rewrite decide_False; [eauto|]. intros ->. congruence.
  - intros k c'. rewrite list_lookup_alter. case_decide as Ek; [|apply S5]. subst k. rewrite Hc. intros [= <-]. cbn. by split; [|intros []].
  - intros k c' w p. rewrite list_lookup_alter. case_decide as Ek; [subst k; rewrite Hc; by intros [= <-]|]. eauto.
  - intros o v p. rewrite list_lookup_alter. case_decide as Eo; [|eauto]. subst o. destruct (os !! cv_origin c) as [v0|] eqn:Ev; [|done].
    intros [= <-] [_ Hp]%elem_without. eauto.
Qed.

Definition closed_all (l : list nat) (cs : list ControlView) : list ControlView := foldl (fun cs ctl => alter gone_cv ctl cs) cs l.
Lemma closed_all_lookup l cs i : closed_all l cs !! i = (if decide (i ∈ l) then gone_cv <$> cs !! i else cs !! i).
Proof.
  revert cs. induction l as [|k l IH]; intros cs; cbn [closed_all foldl]; [by rewrite decide_False by apply not_elem_of_nil|].
  unfold closed_all in IH. rewrite IH, list_lookup_alter. destruct (decide (k = i)) as [->|Hne].
  - rewrite (decide_True (P := i ∈ i :: l)) by left. case_decide; destruct (cs !! i); done.
  - destruct (decide (i ∈ l)); [rewrite decide_True by (by right)|rewrite decide_False by set_solver]; done.
Qed.

Lemma settled_closed l cs p : settled cs p -> settled (closed_all l cs) p.
Proof. intros (c & Hc & Hn). unfold settled. rewrite closed_all_lookup. case_decide; [rewrite Hc|]; eexists; by split. Qed.
#[local] Hint Resolve settled_closed : core.

(** An origin that closes with its controls and leaves the pool. *)
Lemma Struct_kill os cs pool pool' o v : Struct os cs pool -> os !! o = Some v -> (forall n, n ∈ pool' <-> n <> o /\ n ∈ pool) ->
  Struct (alter gone_ov o os) (closed_all (ov_controls v) cs) pool'.
Proof.
  intros [S1 S2 S3 S4 S5 S6 S7] Hv Hpool. split.
  - intros o' k. setoid_rewrite list_lookup_alter. setoid_rewrite closed_all_lookup. split.
    + intros (v' & Hv' & Hk). case_decide as Eo; [subst o'; rewrite Hv in Hv'; injection Hv' as <-; by apply elem_of_nil in Hk|].
      destruct (proj1 (S1 o' k)) as (c' & Hc' & Hp & Ho); [eauto|]. rewrite decide_False; [eauto|]. intros Hin.
      destruct (proj1 (S1 o k)) as (c2 & Hc2 & _ & Ho2); [eauto|]. congruence.
    + intros (c' & Hc' & Hp & Ho). case_decide as Ek; [destruct (cs !! k); [injection Hc' as <-; done|done]|].
      destruct (proj2 (S1 o' k)) as (v' & Hv' & Hk'); [eauto|]. rewrite decide_False by (intros ->; congruence). eauto.
  - intros o'. rewrite Hpool, S2. setoid_rewrite list_lookup_alter. case_decide as Eo; [|naive_solver]. subst o'. rewrite Hv.
    split; [by intros []|]. intros (v' & [= <-] & ?). done.
  - intros o' v'. rewrite list_lookup_alter. case_decide; [|apply S3]. subst o'. rewrite Hv. by intros [= <-].
  - intros o' v' k. rewrite list_lookup_alter, closed_all_lookup. case_decide as Eo; [subst o'; rewrite Hv; by intros [= <-]|]. intros Hv' Hk.
    destruct (S4 _ _ _ Hv' Hk) as (c' & Hc' & Hp & Ho). rewrite decide_False; [eauto|]. intros Hin.
    destruct (proj1 (S1 o k)) as (c2 & Hc2 & _ & Ho2); [eauto|]. congruence.
  - intros k c'. rewrite closed_all_lookup. case_decide; [|apply S5]. destruct (cs !! k); [|done]. intros [= <-]. cbn. by split; [|intros []].
  - intros k c' w p. rewrite closed_all_lookup. case_decide as Ek; [destruct (cs !! k); by intros [= <-]|]. eauto.
  - intros o' v' p. rewrite list_lookup_alter. case_decide as Eo; [|eauto]. subst o'. rewrite Hv. intros [= <-] Hp. by apply elem_of_nil in Hp.
Qed.

(** ** Controls and origins are opened *)

Definition new_cv (o : nat) (k : Waiter) : ControlView := {| cv_origin := o; cv_phase := Dialling; cv_awaiting := Some k |}.
Definition more_ctl (n : nat) (v : OriginView) : OriginView := {| ov_controls := ov_controls v ++ [n]; ov_active := ov_active v; ov_closed := ov_closed v; ov_retired := ov_retired v |}.
Definition new_ov : OriginView := {| ov_controls := []; ov_active := None; ov_closed := false; ov_retired := [] |}.
Definition live_cv (c : ControlView) : ControlView := {| cv_origin := cv_origin c; cv_phase := Live; cv_awaiting := None |}.
Definition active_ov (ctl : nat) (v : OriginView) : OriginView := {| ov_controls := ov_controls v; ov_active := Some ctl; ov_closed := ov_closed v; ov_retired := ov_retired v |}.

Lemma settled_live cs i p : settled cs p -> settled (alter live_cv i cs) p.
Proof. by apply settled_alter. Qed.
Lemma settled_app cs c p : settled cs p -> settled (cs ++ [c]) p.
Proof. intros (c0 & Hc & Hn). exists c0. split; [by apply lookup_app_l_Some|done]. Qed.
#[local] Hint Resolve settled_live settled_app : core.

Lemma Struct_dial os cs pool o k : Struct os cs pool -> o ∈ pool -> (forall p, previous k = Some p -> settled cs p) -> Struct (alter (more_ctl (length cs)) o os) (cs ++ [new_cv o k]) pool.
Proof.
  intros [S1 S2 S3 S4 S5 S6 S7] (v0 & Hv0 & Ho0)%S2 Hprev.
  assert (Hold : forall i c, cs !! i = Some c -> (cs ++ [new_cv o k]) !! i = Some c) by (intros i c Hi; by apply lookup_app_l_Some).
  assert (Hnew : forall i c, (cs ++ [new_cv o k]) !! i = Some c -> cs !! i = Some c \/ (i = length cs /\ c = new_cv o k)).
  { intros i c [?|[? Hi]]%lookup_app_Some; [by left|]. apply list_lookup_singleton_Some in Hi as [? <-]. right. split; [lia|done]. }
  split.
  - intros o' i. setoid_rewrite list_lookup_alter. split.
    + intros (v & Hv & Hi). case_decide as Eo; [|destruct (proj1 (S1 o' i)) as (c & Hc & ?); eauto].
      subst o'. rewrite Hv0 in Hv. injection Hv as <-. cbn in Hi. apply elem_of_app in Hi as [Hi|Hi]; [destruct (proj1 (S1 o i)) as (c & Hc & ?); eauto|].
      apply list_elem_of_singleton in Hi as ->. exists (new_cv o k). split; [|done]. by rewrite lookup_app_r, Nat.sub_diag by lia.
    + intros (c & [Hc|[-> ->]]%Hnew & Hp & Ho).
      * destruct (proj2 (S1 o' i)) as (v & Hv & Hi); [eauto|]. case_decide as Eo; [|eauto]. rewrite Eo, Hv. eexists. split; [done|]. cbn. apply elem_of_app. by left.
      * cbn in Ho. rewrite decide_True, Hv0 by done. eexists. split; [done|]. cbn. apply elem_of_app. right. by left.
  - intros o'. rewrite S2. setoid_rewrite list_lookup_alter. case_decide as Eo; [|done]. subst o'. rewrite Hv0. cbn. naive_solver.
  - intros o' v. rewrite list_lookup_alter. case_decide; [|apply S3]. subst o'. rewrite Hv0. intros [= <-]. cbn. congruence.
  - intros o' v i. rewrite list_lookup_alter. case_decide as Eo.
    + subst o'. rewrite Hv0. intros [= <-] Hi. destruct (S4 o v0 i Hv0 Hi) as (c & Hc & ?). eauto.
    + intros Hv Hi. destruct (S4 o' v i Hv Hi) as (c & Hc & ?). eauto.
  - intros i c [Hc|[-> ->]]%Hnew; [by apply (S5 i)|]. cbn. split; [by eexists|done].
  - intros i c w p [Hc|[-> ->]]%Hnew; [eauto|]. cbn. intros [= <-] Hp. auto.
  - intros o' v p. rewrite list_lookup_alter. case_decide as Eo; [|eauto]. subst o'. rewrite Hv0. intros [= <-] Hp. eauto.
Qed.

Lemma Struct_create os cs pool pool' : Struct os cs pool -> (forall n, n ∈ pool' <-> n = length os \/ n ∈ pool) -> Struct (os ++ [new_ov]) cs pool'.
Proof.
  intros [S1 S2 S3 S4 S5 S6 S7] Hpool.
  assert (Hnew : forall i v, (os ++ [new_ov]) !! i = Some v <-> os !! i = Some v \/ (i = length os /\ v = new_ov)).
  { intros i v. rewrite lookup_app_Some, list_lookup_singleton_Some. split; [intros [?|(? & ? & <-)]; [by left|right; split; [lia|done]]|].
    intros [?|[-> ->]]; [by left|right; split; [lia|split; [lia|done]]]. }
  split.
  - intros o i. rewrite <-S1. setoid_rewrite Hnew. split; [|naive_solver]. intros (v & [Hv|[-> ->]] & Hi); [eauto|]. by apply elem_of_nil in Hi.
  - intros o. rewrite Hpool, S2. setoid_rewrite Hnew. split; [intros [->|(v & Hv & ?)]; [exists new_ov; auto|eauto]|].
    intros (v & [Hv|[-> ->]] & ?); eauto.
  - intros o v Hv; apply Hnew in Hv as [Hv|[-> ->]]; [by apply (S3 o)|done].
  - intros o v i Hv; apply Hnew in Hv as [Hv|[-> ->]]; [by apply (S4 o)|done].
  - apply S5.
  - exact S6.
  - intros o v p Hv; apply Hnew in Hv as [Hv|[-> ->]]; [by apply (S7 o)|]. intros Hp. by apply elem_of_nil in Hp.
Qed.

Lemma Struct_activate os cs pool ctl c : Struct os cs pool -> cs !! ctl = Some c -> cv_phase c <> ClosedControl ->
  Struct (alter (active_ov ctl) (cv_origin c) os) (alter live_cv ctl cs) pool.
Proof.
  intros [S1 S2 S3 S4 S5 S6 S7] Hc Hp0. split.
  - intros o i. setoid_rewrite list_lookup_alter. split.
    + intros (v & Hv & Hi). assert (Hv' : exists v, os !! o = Some v /\ i ∈ ov_controls v).
      { case_decide as Eo; [|eauto]. rewrite Eo in Hv. destruct (os !! o) as [v0|]; [|done]. injection Hv as <-. eauto. }
      clear Hv Hi. destruct (proj1 (S1 o i) Hv') as (c' & Hc' & Hp & Ho). case_decide as Ek; [|by exists c']. subst i. rewrite Hc. eexists. split; [done|]. cbn. split; [done|congruence].
    + intros (c' & Hc' & Hp & Ho). assert (Hv : exists v, os !! o = Some v /\ i ∈ ov_controls v).
      { apply S1. case_decide as Ek; [|by exists c']. subst i. rewrite Hc in Hc'. injection Hc' as <-. eauto. }
      destruct Hv as (v & Hv & Hi). clear Hc'. case_decide as Eo; [|eauto]. rewrite Eo, Hv. eexists. by split.
  - intros o. rewrite S2. setoid_rewrite list_lookup_alter. case_decide as Eo; [|done]. rewrite Eo. destruct (os !! o) as [v|]; cbn; naive_solver.
  - intros o v. rewrite list_lookup_alter. case_decide as Eo; [|apply S3]. rewrite Eo. destruct (os !! o) as [v0|] eqn:Ev; [|done]. intros [= <-] Hcl. cbn in *.
    destruct (proj2 (S1 o ctl)) as (v & Hv & Hi); [eauto|]. rewrite Ev in Hv. injection Hv as <-. destruct (S3 _ _ Ev Hcl) as [E _]. rewrite E in Hi. by apply elem_of_nil in Hi.
  - assert (Hlive : forall o i c', cs !! i = Some c' -> (cv_phase c' = Live \/ cv_phase c' = DrainingControl) -> cv_origin c' = o ->
      exists c2, alter live_cv ctl cs !! i = Some c2 /\ (cv_phase c2 = Live \/ cv_phase c2 = DrainingControl) /\ cv_origin c2 = o).
    { intros o i c' Hc' Hp Ho. rewrite list_lookup_alter. case_decide as Ek; [|eauto]. rewrite Ek, Hc'. eexists. split; [done|]. cbn. auto. }
    intros o v i. rewrite list_lookup_alter. case_decide as Eo.
    + rewrite Eo. destruct (os !! o) as [v0|] eqn:Ev; [|done]. intros [= <-] [= <-]. rewrite list_lookup_alter, decide_True, Hc by done. eexists. split; [done|]. cbn. auto.
    + intros Hv Hi. destruct (S4 _ _ _ Hv Hi) as (c' & Hc' & Hp & Ho). eauto.
  - intros i c'. rewrite list_lookup_alter. case_decide; [|apply S5]. subst i. rewrite Hc. intros [= <-]. cbn. by split; [|intros []].
  - intros i c' w p. rewrite list_lookup_alter. case_decide as Ek; [subst i; rewrite Hc; by intros [= <-]|]. eauto.
  - intros o v p. rewrite list_lookup_alter. case_decide as Eo; [|eauto]. rewrite Eo. destruct (os !! o) as [v0|] eqn:Ev; [|done].
    intros [= <-] Hp. cbn in Hp. eauto.
Qed.
(** It connects and its origin does not take it, or its cell drains. *)
Lemma Struct_up f os cs pool ctl c : (forall c, cv_origin (f c) = cv_origin c /\ (cv_phase (f c) = Live \/ cv_phase (f c) = DrainingControl) /\ cv_awaiting (f c) = None) ->
  Struct os cs pool -> cs !! ctl = Some c -> cv_phase c <> ClosedControl -> Struct os (alter f ctl cs) pool.
Proof.
  intros Hf [S1 S2 S3 S4 S5 S6 S7] Hc Hp0. destruct (Hf c) as (F1 & F2 & F3). assert (Hset : forall p, settled cs p -> settled (alter f ctl cs) p).
  { intros p. apply settled_alter. intros c' _. by apply Hf. }
  assert (Hopen : cv_phase (f c) <> ClosedControl /\ cv_phase (f c) <> Dialling) by (destruct F2; split; congruence).
  split; [|done|done| | | |].
  - intros o i. rewrite S1. setoid_rewrite list_lookup_alter. case_decide as Ek; [|done]. subst i. rewrite Hc. cbn. split.
    + intros (c' & [= <-] & Hp & Ho). exists (f c). split_and!; [done|tauto|congruence].
    + intros (c' & [= <-] & Hp & Ho). exists c. split_and!; [done|tauto|congruence].
  - intros o v i Hv Hi. destruct (S4 _ _ _ Hv Hi) as (c' & Hc' & Hp & Ho). rewrite list_lookup_alter. case_decide as Ek; [|eauto]. subst i. rewrite Hc in *. injection Hc' as <-.
    exists (f c). split_and!; [done|done|congruence].
  - intros i c'. rewrite list_lookup_alter. case_decide; [|apply S5]. subst i. rewrite Hc. intros [= <-]. rewrite F3. split; [tauto|by intros []].
  - intros i c' w p. rewrite list_lookup_alter. case_decide as Ek; [subst i; rewrite Hc; intros [= <-]; congruence|]. eauto.
  - intros o v p Hv Hp. eauto.
Qed.

(** ** What closing does *)

Lemma closeNow_all l b : exists X, foldl (fun b ctl => control_closeNow ctl b) b l = b <| all_controls := X |> /\ cv <$> X = closed_all l (ctls b).
Proof.
  revert b. induction l as [|ctl l IH]; intros b; cbn [foldl]; [exists (all_controls b); split; [by destruct b|done]|].
  destruct (IH (control_closeNow ctl b)) as (X & -> & HX). exists X. split; [done|]. rewrite HX. change (closed_all (ctl :: l) (ctls b)) with (closed_all l (alter gone_cv ctl (ctls b))). f_equal. by apply ctls_update.
Qed.
Lemma origin_close_open o b org : all_origins b !! o = Some org -> o_closed org = false ->
  exists X Y, origin_close o b = b <| all_controls := X |> <| all_origins := Y |> /\ cv <$> X = closed_all (controls org) (ctls b) /\ ov <$> Y = alter gone_ov o (orgs b).
Proof.
  intros Ho Hc. unfold origin_close. rewrite Ho, Hc. destruct (closeNow_all (controls org) b) as (X & -> & HX).
  do 2 eexists. split; [done|]. split; [done|]. cbn. by apply fmap_alter_view.
Qed.
Lemma org_view b o org : all_origins b !! o = Some org -> orgs b !! o = Some (ov org).
Proof. intros H. unfold orgs. by rewrite list_lookup_fmap, H. Qed.
Lemma view_org b o v : orgs b !! o = Some v -> exists org, all_origins b !! o = Some org /\ ov org = v.
Proof. unfold orgs. rewrite list_lookup_fmap. destruct (all_origins b !! o) as [org|]; [|done]. intros [= <-]. eauto. Qed.
Lemma ctl_view b ctl c : all_controls b !! ctl = Some c -> ctls b !! ctl = Some (cv c).
Proof. intros H. unfold ctls. by rewrite list_lookup_fmap, H. Qed.

Lemma Struct_pool os cs pool pool' : Struct os cs pool -> (forall n, n ∈ pool' <-> n ∈ pool) -> Struct os cs pool'.
Proof. intros [S1 S2 S3 S4 S5 S6 S7] Hp. split; try done. intros o. by rewrite Hp, S2. Qed.

(** The structure after an origin closed and left. *)
Lemma Struct_origin_close o b pool pool' : Struct (orgs b) (ctls b) pool -> (forall n, n ∈ pool' <-> n <> o /\ n ∈ pool) ->
  Struct (orgs (origin_close o b)) (ctls (origin_close o b)) pool'.
Proof.
  intros HS Hp. destruct (all_origins b !! o) as [org|] eqn:Ho.
  - destruct (o_closed org) eqn:Hc.
    + unfold origin_close. rewrite Ho, Hc. eapply Struct_pool; [exact HS|]. intros n. rewrite Hp. split; [tauto|]. intros Hn. split; [|done]. intros ->.
      apply (s_open _ _ _ HS) in Hn as (v & Hv & Hf). rewrite (org_view _ _ _ Ho) in Hv. injection Hv as <-. cbn in Hf. congruence.
    + destruct (origin_close_open _ _ _ Ho Hc) as (X & Y & -> & HX & HY). unfold orgs, ctls. cbn. rewrite HX, HY.
      apply (Struct_kill _ _ pool pool' o (ov org)); [done|by apply org_view|done].
  - unfold origin_close. rewrite Ho. eapply Struct_pool; [exact HS|]. intros n. rewrite Hp. split; [tauto|]. intros Hn. split; [|done]. intros ->.
    apply (s_open _ _ _ HS) in Hn as (v & Hv & Hf). apply view_org in Hv as (org & Ho' & _). congruence.
Qed.
(** It touches neither other origins nor what is awaited elsewhere. *)
Lemma origin_close_rest o b : let b' := origin_close o b in
  (forall i, i <> o -> orgs b' !! i = orgs b !! i) /\
  (forall i c, ctls b' !! i = Some c -> ctls b !! i = Some c \/ cv_awaiting c = None) /\
  (forall i c, ctls b !! i = Some c -> (exists pool, Struct (orgs b) (ctls b) pool) -> cv_origin c <> o -> ctls b' !! i = Some c) /\
  exists X Y, b' = b <| all_controls := X |> <| all_origins := Y |>.
Proof.
  cbn. destruct (all_origins b !! o) as [org|] eqn:Ho; cycle 1.
  { unfold origin_close. rewrite Ho. split_and!; auto. exists (all_controls b), (all_origins b). by destruct b. }
  destruct (o_closed org) eqn:Hc.
  { unfold origin_close. rewrite Ho, Hc. split_and!; auto. exists (all_controls b), (all_origins b). by destruct b. }
  destruct (origin_close_open _ _ _ Ho Hc) as (X & Y & -> & HX & HY). unfold orgs, ctls in *. cbn. rewrite HX, HY. split_and!; [| | |eauto].
  - intros i Hi. rewrite list_lookup_alter. by rewrite decide_False.
  - intros i c. rewrite closed_all_lookup. case_decide; [|auto]. destruct ((cv <$> all_controls b) !! i); [|done]. intros [= <-]. by right.
  - intros i c Hi [pool HS] Hne. rewrite closed_all_lookup, decide_False; [done|]. intros Hin.
    destruct (proj1 (s_own _ _ _ HS o i)) as (c' & Hc' & _ & Ho'); [exists (ov org); split; [by apply org_view|done]|]. unfold ctls in Hc'. congruence.
Qed.

Lemma Proc_kill os cs pool draining timed active rot open retries cur busy os' cs' pool' draining' timed' o :
  Proc os cs pool draining timed active rot open retries cur busy ->
  (forall i, i <> o -> os' !! i = os !! i) ->
  (forall i c, cs' !! i = Some c -> cs !! i = Some c \/ cv_awaiting c = None) ->
  (forall i c, cs !! i = Some c -> cv_origin c <> o -> cs' !! i = Some c) ->
  (forall n, n ∈ pool' <-> n <> o /\ n ∈ pool) -> (forall n, n ∈ draining' <-> n <> o /\ n ∈ draining) ->
  (forall n, n ∈ timed' <-> n <> o /\ n ∈ timed) -> active <> Some o -> ~ hatching cs o ->
  Proc os' cs' pool' draining' timed' active rot open retries cur busy.
Proof.
  intros [P1 P2 P3 P4 PU P5 P6 P7 P8 P9] Ho Hc1 Hc2 Hpool Hd Ht Ha Hh.
  assert (Hhatch : forall n, hatching cs' n -> hatching cs n).
  { intros n (i & c & k & Hi & Hn & Hk & Hb). destruct (Hc1 i c Hi) as [Hi'|Hi']; [|congruence]. by exists i, c, k. }
  split.
  - intros i c k Hi Hk. destruct (Hc1 i c Hi) as [Hi'|Hi']; [by apply (P1 i)|congruence].
  - destruct rot as [[n g|i]|]; [done| |done]. destruct P2 as (c & k & Hi & Hk & Hb). exists c, k. split; [|done]. apply Hc2; [done|]. intros E.
    pose proof (P1 i c k Hi Hk) as Hw. destruct k as [|p|p a g|d a g]; cbn in Hb; try done; [destruct Hw; congruence|]. apply Hh. by exists i, c, (TargetOpen d a g).
  - intros Hop. destruct (P3 Hop) as (E1 & E2 & E3 & E4). split; [done|]. split; [destruct draining' as [|x l]; [done|]; specialize (Hd x); rewrite E2 in Hd; set_solver|].
    split; [destruct timed' as [|x l]; [done|]; specialize (Ht x); rewrite E3 in Ht; set_solver|done].
  - done.
  - intros i j c c' Hi Hj Hk Hk'. destruct (Hc1 i c Hi) as [Hi'|?]; [|congruence]. destruct (Hc1 j c' Hj) as [Hj'|?]; [|congruence]. by apply (PU i j c c').
  - intros n Hn. destruct (P5 n Hn) as [Hin Hx]. split; [apply Hpool; split; [congruence|done]|]. by intros Hy%Hhatch.
  - intros n [Hne Hn]%Hpool. destruct (P6 n Hn) as [?|[?|(i & c & k & Hi & Hn' & Hk & Hb)]]; [by left|right; left; by apply Ht|].
    right. right. exists i, c, k. split; [|done]. apply Hc2; [done|congruence].
  - intros n Hn. assert (Hn' : n <> o /\ (n ∈ draining \/ n ∈ timed)) by (destruct Hn as [Hn|Hn]; [apply Hd in Hn|apply Ht in Hn]; tauto).
    destruct Hn' as [Hne Hn']. destruct (P7 n Hn') as [Hin Hx]. split; [by apply Hpool|]. by intros Hy%Hhatch.
  - intros n Hcur Hn. rewrite Ho by congruence. by apply P8.
  - intros n [_ Hn]%Ht. auto.
Qed.

Section Pool.
Context (rot : option RotationStage) (open : option OpenStage) (busy : Prop).
Local Notation Pool := (Pool rot open busy).

Lemma Pool_closeOrigin o b : Pool b -> o ∈ drainingOrigins b \/ o ∈ drainTimers b -> Pool (closeOrigin o b).
Proof.
  intros (HS & HP & Hcl) Ho. unfold closeOrigin. case_bool_decide as Ha; [done|].
  set (b0 := b <| drainTimers := _ |> <| basisOrigins := _ |> <| drainingOrigins := _ |> <| origins := _ |>).
  pose proof (Struct_origin_close o b0 (origins b) (without o (origins b)) HS ltac:(intros n; apply elem_without)) as HS'.
  destruct (origin_close_rest o b0) as (R1 & R2 & R3 & X & Y & E).
  assert (Ho' : origins (origin_close o b0) = without o (origins b) /\ drainingOrigins (origin_close o b0) = without o (drainingOrigins b) /\
    drainTimers (origin_close o b0) = without o (drainTimers b) /\ activeOrigin (origin_close o b0) = activeOrigin b /\ drainRetries (origin_close o b0) = drainRetries b /\
    current (origin_close o b0) = current b /\ p_closed (origin_close o b0) = p_closed b /\ b_closed (origin_close o b0) = b_closed b /\
    (Ref open (origin_close o b0) <-> Ref open b)) by (by rewrite E).
  destruct Ho' as (E1 & E2 & E3 & E4 & E5 & E6 & E7 & E8 & E9). unfold RelayBrokerFacts.Pool. rewrite E1, E2, E3, E4, E5, E6, E7, E8, E9. split; [done|]. split; [|done].
  change (orgs b0) with (orgs b) in *. change (ctls b0) with (ctls b) in *.
  eapply (Proc_kill _ _ _ _ _ _ _ _ _ _ _ _ _ _ _ _ o HP); [exact R1|exact R2| | | | |exact Ha|].
  - intros i c Hi Hne. apply R3; eauto.
  - intros n. apply elem_without.
  - intros n. apply elem_without.
  - intros n. apply elem_without.
  - by apply (p_leave _ _ _ _ _ _ _ _ _ _ _ HP) in Ho as [_ Ho].
Qed.
Lemma Pool_maybeClose o b : Pool b -> Pool (maybeCloseDrainedOrigin o b).
Proof.
  intros HP. unfold maybeCloseDrainedOrigin. destruct (all_origins b !! o); [|done].
  case_bool_decide as Hd; cbn [negb orb]; [|done]. destruct (_ || _); [done|]. apply Pool_closeOrigin; auto.
Qed.
Lemma Pool_owned c o b : Pool b -> Pool (onConnectionOwned c o b).
Proof. intros HP. unfold onConnectionOwned. by destruct (_ && _). Qed.
Lemma Pool_released c o b : Pool b -> Pool (onConnectionReleased c o b).
Proof. intros HP. unfold onConnectionReleased. apply Pool_maybeClose. by case_bool_decide. Qed.
Lemma Pool_emit e b : Pool b -> Pool (emit e b).
Proof. done. Qed.
Lemma Pool_publish s b : Pool b -> Pool (publishStatus s b).
Proof. intros HP. unfold publishStatus. by destruct (broker_isCurrent b). Qed.
(** A change of an origin that the invariant does not see. *)
Lemma Pool_update o f b : (forall x, ov (f x) = ov x) -> Pool b -> Pool (update_origin o f b).
Proof. intros Hf HP. unfold RelayBrokerFacts.Pool. rewrite orgs_same by done. exact HP. Qed.
Lemma Pool_foldl {A} (f : Broker -> A -> Broker) l b : (forall b x, Pool b -> Pool (f b x)) -> Pool b -> Pool (foldl f b l).
Proof. intros Hf. revert b. induction l as [|x l IH]; intros b HP; cbn; auto. Qed.
Lemma Pool_transport_op o f b : Pool b -> Pool (transport_op o f b).
Proof.
  intros HP. unfold transport_op. destruct (all_origins b !! o) as [org|]; [|done]. apply Pool_foldl; [|by apply Pool_update].
  intros b' x Hb. unfold transport_effect. destruct x as [| | |? [|]| | | |]; try done; by apply Pool_released.
Qed.
End Pool.

(** ** What opening does *)

Definition waiter_fits (rot : option RotationStage) (open : option OpenStage) (active : option nat) (ctl o : nat) (k : Waiter) : Prop :=
  match k with
  | InitialOpen => exists a, open = Some (OpenConnecting a)
  | LeaseRebind _ => True
  | DrainRebind _ _ _ => rot = Some (DrainConnecting ctl) /\ active = Some o
  | TargetOpen d _ _ => rot = Some (DrainConnecting ctl) /\ active = Some d
  end.

(** Dialling from an origin, which may be new. *)
Lemma Proc_dial os cs pool draining timed active rot open retries cur busy os' pool' o k rot' open' busy' :
  Proc os cs pool draining timed active rot open retries cur busy ->
  (forall i v a, os !! i = Some v -> ov_active v = Some a -> exists v', os' !! i = Some v' /\ ov_active v' = Some a) ->
  (forall n, n ∈ pool -> n ∈ pool') -> (forall n, n ∈ pool' -> n ∈ pool \/ (n = o /\ opens_origin k = true)) ->
  (rot' = rot /\ (is_Some open -> is_Some open' /\ rot' = None) \/ (rot = None /\ rot' = Some (DrainConnecting (length cs)) /\ in_rotation k = true)) ->
  (open' = open \/ (is_Some open /\ is_Some open' /\ forall a, open <> Some (OpenConnecting a))) -> (is_Some open' -> rot' = None) ->
  (k = InitialOpen -> forall a, open <> Some (OpenConnecting a)) -> waiter_fits rot' open' active (length cs) o k -> (opens_origin k = true -> o ∉ pool) -> (busy -> busy' \/ rot' <> None) ->
  Proc os' (cs ++ [new_cv o k]) pool' draining timed active rot' open' retries cur busy'.
Proof.
  intros [P1 P2 P3 P4 PU P5 P6 P7 P8 P9] Hos Hp1 Hp2 Hrot Hopen Hor Hfirst Hfit Hfresh Hbusy.
  assert (Hnew : forall i c, (cs ++ [new_cv o k]) !! i = Some c -> cs !! i = Some c \/ (i = length cs /\ c = new_cv o k)).
  { intros i c [?|[? Hi]]%lookup_app_Some; [by left|]. apply list_lookup_singleton_Some in Hi as [? <-]. right. split; [lia|done]. }
  assert (Hold : forall i c, cs !! i = Some c -> (cs ++ [new_cv o k]) !! i = Some c) by (intros i c Hi; by apply lookup_app_l_Some).
  assert (Hlast : (cs ++ [new_cv o k]) !! length cs = Some (new_cv o k)) by (by rewrite lookup_app_r, Nat.sub_diag by lia).
  assert (Hhatch : forall n, hatching (cs ++ [new_cv o k]) n -> hatching cs n \/ (n = o /\ opens_origin k = true)).
  { intros n (i & c & k' & [Hi|[-> ->]]%Hnew & Hn & Hk & Hb); [left; by exists i, c, k'|]. right. cbn in *. by simplify_eq. }
  split.
  - intros i c k' [Hi|[-> ->]]%Hnew Hk'; [|cbn in *; by simplify_eq]. pose proof (P1 i c k' Hi Hk') as Hw.
    destruct k' as [| |p a g|d a g]; [|done| |].
    + destruct Hw as (a & Hw). destruct Hopen as [->|(_ & _ & Hne)]; [eauto|]. by destruct (Hne a).
    + destruct Hw as [Hw Ha]. destruct Hrot as [[-> _]|[-> _]]; [done|done].
    + destruct Hw as [Hw Ha]. destruct Hrot as [[-> _]|[-> _]]; [done|done].
  - destruct Hrot as [[-> _]|(_ & -> & Hb)]; [|exists (new_cv o k), k; done].
    destruct rot as [[n g|i]|]; [done| |done]. destruct P2 as (c & k' & Hi & Hk & Hb). exists c, k'. auto.
  - intros Ho'. assert (Hs : is_Some open) by (destruct Hopen as [->|(? & _)]; done). destruct (P3 Hs) as (E1 & E2 & E3 & E4). auto.
  - intros Ho'. apply P4. destruct Hopen as [<-|(_ & [? ?] & _)]; [done|congruence].
  - assert (Hno : forall i c, cs !! i = Some c -> cv_awaiting c = Some InitialOpen -> k <> InitialOpen).
    { intros i c Hi Hk ->. destruct (P1 i c _ Hi Hk) as (a & Ha). by apply (Hfirst eq_refl a). }
    intros i j c c' [Hi|[-> ->]]%Hnew [Hj|[-> ->]]%Hnew Hk Hk'; cbn in *; simplify_eq; [by apply (PU i j c c')| |..|done].
    + by destruct (Hno _ _ Hi Hk).
    + by destruct (Hno _ _ Hj Hk').
  - intros n Hn. destruct (P5 n Hn) as [Hin Hx]. split; [auto|]. intros [Hy|[-> Hb]]%Hhatch; [done|]. by apply Hfresh.
  - intros n [Hn|[-> Hb]]%Hp2.
    + destruct (P6 n Hn) as [?|[?|(i & c & k' & Hi & Hn' & Hk & Hb)]]; [by left|by right; left|]. right. right. exists i, c, k'. auto.
    + right. right. by exists (length cs), (new_cv o k), k.
  - intros n Hn. destruct (P7 n Hn) as [Hin Hx]. split; [auto|]. intros [Hy|[-> Hb]]%Hhatch; [done|]. by apply Hfresh.
  - intros n Hcur Hn. destruct (P8 n Hcur Hn) as [(v & a & Hv & Ha)|[Hr|[Hr|Hr]]]; [| |by right; right; left|].
    + destruct (Hos _ _ _ Hv Ha) as (v' & ? & ?). left. eauto.
    + right. left. destruct Hrot as [[-> _]|(E & _)]; [done|congruence].
    + destruct (Hbusy Hr) as [?|?]; [by right; right; right|by right; left].
  - exact P9.
Qed.


Lemma openControl_views o k jwt e prev b : let b' := (openControl o k jwt e prev b).1 in
  orgs b' = alter (more_ctl (length (ctls b))) o (orgs b) /\ ctls b' = ctls b ++ [new_cv o k] /\ (openControl o k jwt e prev b).2 = length (ctls b).
Proof.
  cbn. unfold ctls. rewrite length_fmap, fmap_app. split; [|done]. unfold orgs. cbn. by apply fmap_alter_view.
Qed.
Lemma alter_more_active n o (os : list OriginView) i v a : os !! i = Some v -> ov_active v = Some a ->
  exists v', alter (more_ctl n) o os !! i = Some v' /\ ov_active v' = Some a.
Proof. intros Hv Ha. rewrite list_lookup_alter. case_decide as E; [rewrite E, Hv|]; eauto. Qed.

Lemma Pool_openControl rot open busy rot' busy' o k jwt e prev b : Pool rot open busy b -> o ∈ origins b -> opens_origin k = false ->
  (rot' = rot /\ (is_Some open -> rot' = None) \/ (rot = None /\ rot' = Some (DrainConnecting (length (ctls b))) /\ in_rotation k = true)) ->
  (is_Some open -> rot' = None) -> waiter_fits rot' open (activeOrigin b) (length (ctls b)) o k -> (busy -> busy' \/ rot' <> None) ->
  (forall p, previous k = Some p -> settled (ctls b) p) -> Pool rot' open busy' (openControl o k jwt e prev b).1.
Proof.
  intros (HS & HP & Hcl) Ho Hk Hrot Hor Hfit Hbusy Hprev. destruct (openControl_views o k jwt e prev b) as (E1 & E2 & _).
  unfold Pool. rewrite E1, E2. split; [by apply Struct_dial|]. split; [|exact Hcl].
  eapply (Proc_dial _ _ _ _ _ _ rot open _ _ busy); [exact HP| |done|auto| |by left|done|by intros ->|exact Hfit|by rewrite Hk|done].
  - intros i v a. apply alter_more_active.
  - destruct Hrot as [[? ?]|?]; [left; auto|by right].
Qed.

Section Origins.
Context `{UrlEnv} (relayHostId : string).

Lemma Pool_new rot open busy rot' open' busy' a k jwt b : Pool rot open busy b -> opens_origin k = true ->
  (rot' = rot /\ (is_Some open -> is_Some open' /\ rot' = None) \/ (rot = None /\ rot' = Some (DrainConnecting (length (ctls b))) /\ in_rotation k = true)) ->
  (open' = open \/ (is_Some open /\ is_Some open' /\ forall a, open <> Some (OpenConnecting a))) -> (is_Some open' -> rot' = None) ->
  (k = InitialOpen -> forall a, open <> Some (OpenConnecting a)) -> waiter_fits rot' open' (activeOrigin b) (length (ctls b)) (length (orgs b)) k -> (busy -> busy' \/ rot' <> None) ->
  let '(b1, o) := createOrigin relayHostId a b in
  Pool rot' open' busy' (origin_open o k a jwt b1).1 /\ (origin_open o k a jwt b1).2 = length (ctls b) /\ o = length (orgs b).
Proof.
  intros (HS & HP & Hcl) Hk Hrot Hopen Hor Hfirst Hfit Hbusy. assert (Hcl' : p_closed b = false /\ b_closed b = false /\ Ref open' b).
  { destruct Hcl as (? & ? & HR). split_and!; try done. destruct Hopen as [->|([? ->] & [? ->] & _)]; done. }
  unfold createOrigin. set (o := length (all_origins b)).
  set (b1 := b <| all_origins := _ |> <| wired := _ |> <| origins := _ |>).
  assert (Eo : o = length (orgs b)) by (unfold orgs; by rewrite length_fmap).
  assert (Hb1 : orgs b1 = orgs b ++ [new_ov] /\ ctls b1 = ctls b) by (split; [unfold orgs, b1; cbn; by rewrite fmap_app|done]). destruct Hb1 as [B1 B2].
  assert (Hnot : o ∉ origins b).
  { intros (v & Hv & _)%(s_open _ _ _ HS). apply lookup_lt_Some in Hv. lia. }
  unfold origin_open. set (b2 := update_origin o _ b1). assert (Hb2 : orgs b2 = orgs b1 /\ ctls b2 = ctls b) by (split; [by apply orgs_same|done]). destruct Hb2 as [B3 B4].
  destruct (openControl_views o k jwt (epoch a) None b2) as (E1 & E2 & E3). rewrite B3, B4, B1 in E1. rewrite B4 in E2, E3.
  assert (HS1 : Struct (orgs b ++ [new_ov]) (ctls b) (origins b1)).
  { apply (Struct_create _ _ (origins b)); [done|]. intros n. cbn. rewrite elem_with_elem, Eo. done. }
  split; [|split; [exact E3|exact Eo]]. unfold Pool. rewrite E1, E2. split; [apply Struct_dial; [exact HS1|cbn; rewrite elem_with_elem; by left|by destruct k]|]. split; [|exact Hcl'].
  eapply (Proc_dial _ _ (origins b) _ _ _ rot open _ _ busy _ _ o); [exact HP| | | |exact Hrot|exact Hopen|exact Hor|exact Hfirst| |by intros _|exact Hbusy].
  - intros i v x Hv Hx. apply (alter_more_active _ _ _ _ v); [by apply lookup_app_l_Some|done].
  - intros n Hn. cbn. rewrite elem_with_elem. by right.
  - intros n Hn. cbn in Hn. apply elem_with_elem in Hn as [->|Hn]; [by right|by left].
  - rewrite Eo. exact Hfit.
Qed.
End Origins.
