(* ===== verification/RelayBrokerRuns.v ===== *)
(** * Runs of the desktop runtime's relay broker (RelayBroker.v)

    Every event keeps the invariant of RelayBrokerFacts.v: a pool in order, or a broker
    that is closed and stays so. *)

From Stdlib Require Import QArith Qround.
From S2P Require Import Prelude JsMap Json E2eeChannel MobileSockets RelayUrls RelayHttp RelayTransport RelayBroker RelayBrokerFacts.

Local Open Scope string_scope.
Local Open Scope list_scope.
Local Open Scope Z_scope.

(** ** A [connect] settles *)

Lemma dialling_in_pool os cs pool ctl c : Struct os cs pool -> cs !! ctl = Some c -> cv_phase c <> ClosedControl -> cv_origin c ∈ pool.
Proof.
  intros HS Hc Hp. destruct (proj2 (s_own _ _ _ HS (cv_origin c) ctl)) as (v & Hv & Hi); [eauto|]. apply (s_open _ _ _ HS). exists v. split; [done|].
  destruct (ov_closed v) eqn:E; [|done]. destruct (s_closed _ _ _ HS _ _ Hv E) as [El _]. rewrite El in Hi. by apply elem_of_nil in Hi.
Qed.

(** Only [p_going] speaks of the origins, of retries, of the owner, and of what is running. *)
Lemma Proc_up os' retries' cur' (busy' : Prop) os cs pool draining timed active rot open retries cur busy :
  Proc os cs pool draining timed active rot open retries cur busy ->
  (forall o, cur' = true -> active = Some o ->
    (exists v ctl, os' !! o = Some v /\ ov_active v = Some ctl) \/ rot <> None \/ (exists g, (o, g) ∈ retries') \/ busy') ->
  Proc os' cs pool draining timed active rot open retries' cur' busy'.
Proof. intros [P1 P2 P3 P4 PU P5 P6 P7 P8 P9] Hup. by split. Qed.
Lemma Proc_weaken os cs pool draining timed active rot open retries cur (busy busy' : Prop) : (busy -> busy') ->
  Proc os cs pool draining timed active rot open retries cur busy -> Proc os cs pool draining timed active rot open retries cur busy'.
Proof.
  intros Hb HP. apply (Proc_up _ _ _ _ _ _ _ _ _ _ _ _ _ _ _ HP). intros o Hcur Ha.
  destruct (p_going _ _ _ _ _ _ _ _ _ _ _ HP o Hcur Ha) as [?|[?|[?|?]]]; auto.
Qed.
(** Controls that nothing awaits, and origins that keep an active control, do not matter to it. *)
Lemma Proc_views os cs pool draining timed active rot open retries cur busy os' cs' :
  Proc os cs pool draining timed active rot open retries cur busy ->
  (forall i v a, os !! i = Some v -> ov_active v = Some a -> exists v' a', os' !! i = Some v' /\ ov_active v' = Some a') ->
  (forall i c k, cv_awaiting c = Some k -> (cs' !! i = Some c <-> cs !! i = Some c)) ->
  Proc os' cs' pool draining timed active rot open retries cur busy.
Proof.
  intros [P1 P2 P3 P4 PU P5 P6 P7 P8 P9] Hos Hcs.
  assert (Hh : forall n, hatching cs' n <-> hatching cs n).
  { intros n. split; intros (i & c & k & Hi & Hn & Hk & Hb); exists i, c, k; (split; [by apply (Hcs i c k Hk)|done]). }
  split; try done.
  - intros i c k Hi Hk. apply (P1 i c k); [by apply (Hcs i c k)|done].
  - destruct rot as [[n g|i]|]; [done| |done]. destruct P2 as (c & k & Hi & Hk & Hb). exists c, k. split; [by apply (Hcs i c k)|done].
  - intros i j c c' Hi Hj Hk Hk'. apply (PU i j c c'); [by apply (Hcs i c _ Hk)|by apply (Hcs j c' _ Hk')|done|done].
  - intros n Hn. rewrite Hh. by apply P5.
  - intros n Hn. rewrite Hh. by apply P6.
  - intros n Hn. rewrite Hh. by apply P7.
  - intros n Hcur Hn. destruct (P8 n Hcur Hn) as [(v & a & Hv & Ha)|?]; [left; eauto|by right].
Qed.

(** Its control no longer dials: what awaited it can go on. *)
Lemma Proc_settle os cs pool draining timed active rot open retries cur busy os' cs' ctl c k :
  Proc os cs pool draining timed active rot open retries cur busy -> cs !! ctl = Some c -> cv_awaiting c = Some k -> k <> InitialOpen -> cv_origin c ∈ pool ->
  (forall i v a, os !! i = Some v -> ov_active v = Some a -> exists v' a', os' !! i = Some v' /\ ov_active v' = Some a') ->
  (forall i, i <> ctl -> cs' !! i = cs !! i) -> settled cs' ctl ->
  Proc os' cs' pool draining (if opens_origin k then cv_origin c :: timed else timed) active (if in_rotation k then None else rot) open retries cur
    (busy \/ in_rotation k = true).
Proof.
  intros [P1 P2 P3 P4 PU P5 P6 P7 P8 P9] Hc Hk Hno Hin Hos Hcs (c' & Hc' & Hnone). pose proof (P1 _ _ _ Hc Hk) as Hw.
  assert (Hold : forall i d w, cs' !! i = Some d -> cv_awaiting d = Some w -> i <> ctl /\ cs !! i = Some d).
  { intros i d w Hi Hw'. assert (Hne : i <> ctl) by (intros ->; congruence). split; [done|]. by rewrite <-Hcs. }
  assert (Hh1 : forall n, hatching cs' n -> hatching cs n).
  { intros n (i & d & w & Hi & Hn & Hw' & Hb). destruct (Hold _ _ _ Hi Hw'). by exists i, d, w. }
  assert (Hh2 : forall n, hatching cs n -> hatching cs' n \/ (n = cv_origin c /\ opens_origin k = true)).
  { intros n (i & d & w & Hi & Hn & Hw' & Hb). destruct (decide (i = ctl)) as [->|Hne]; [right; by simplify_eq|]. left. exists i, d, w. by rewrite Hcs. }
  assert (Hlone : in_rotation k = true -> forall i d w, cs' !! i = Some d -> cv_awaiting d = Some w -> w = LeaseRebind (previous w)).
  { intros Hr i d w Hi Hw'. destruct (Hold _ _ _ Hi Hw') as [Hne Hi']. pose proof (P1 _ _ _ Hi' Hw') as Hx.
    assert (E : rot = Some (DrainConnecting ctl)) by (destruct k; cbn in Hr; try done; by destruct Hw).
    destruct w as [|p|p a g|d' a g]; [|done| |]; [|destruct Hx; congruence..]. destruct Hx as (a & Ha). destruct (P3 ltac:(rewrite Ha; by eexists)) as (_ & _ & _ & ?). congruence. }
  assert (Hself : opens_origin k = true -> ~ hatching cs' (cv_origin c)).
  { intros Ho (i & d & w & Hi & Hn & Hw' & Hb). assert (Hr : in_rotation k = true) by (by destruct k). rewrite (Hlone Hr _ _ _ Hi Hw') in Hb. done. }
  assert (Hidle : is_Some open -> opens_origin k = false).
  { intros Hop. destruct (P3 Hop) as (_ & _ & _ & E). destruct k as [| | |d a g]; try done. destruct Hw. congruence. }
  split.
  - intros i d w Hi Hw'. destruct (Hold _ _ _ Hi Hw') as [Hne Hi']. pose proof (P1 _ _ _ Hi' Hw') as Hx.
    destruct (in_rotation k) eqn:Hr; [|done]. by rewrite (Hlone eq_refl _ _ _ Hi Hw').
  - destruct (in_rotation k) eqn:Hr; [done|]. destruct rot as [[n g|i]|]; [done| |done]. destruct P2 as (d & w & Hi & Hw' & Hb).
    exists d, w. rewrite Hcs; [done|]. intros ->. simplify_eq. congruence.
  - intros Hop. rewrite (Hidle Hop). destruct (P3 Hop) as (? & ? & ? & ?). split_and!; try done. by destruct (in_rotation k).
  - done.
  - intros i j d d' Hi Hj Hd Hd'. destruct (Hold _ _ _ Hi Hd), (Hold _ _ _ Hj Hd'). by apply (PU i j d d').
  - intros n Hn. destruct (P5 n Hn). split; [done|]. by intros ?%Hh1.
  - intros n Hn. destruct (P6 n Hn) as [?|[?|[Hh|[-> Ho]]%Hh2]]; [by left| |by right; right|].
    + right. left. destruct (opens_origin k); [by right|done].
    + right. left. rewrite Ho. by left.
  - intros n Hn. destruct (opens_origin k) eqn:Ho.
    + destruct Hn as [Hn|[->|Hn]%elem_of_cons]; [|split; [done|by apply Hself]|]; (destruct (P7 n) as [? Hx]; [auto|]; split; [done|]; by intros ?%Hh1).
    + destruct (P7 n Hn) as [? Hx]. split; [done|]. by intros ?%Hh1.
  - intros n Hcur Hn. destruct (P8 n Hcur Hn) as [(v & a & Hv & Ha)|[Hr|[Hr|Hr]]]; [|destruct (in_rotation k); auto|auto|auto].
    destruct (Hos _ _ _ Hv Ha) as (v' & a' & ? & ?). eauto.
  - intros n Hn. destruct (opens_origin k) eqn:Ho; [|by apply P9]. apply elem_of_cons in Hn as [->|Hn]; [|by apply P9].
    intros Ha. destruct (P5 _ Ha) as [_ Hx]. apply Hx. by exists ctl, c, k.
Qed.

(** The control [ctl] settles, and its origin keeps it or lets go of it. *)
Definition settles (ctl o : nat) (b b' : Broker) : Prop :=
  (exists X Y m, b' = b <| all_controls := X |> <| all_origins := Y |> <| basisOrigins := m |>) /\
  ((ctls b' = alter gone_cv ctl (ctls b) /\ orgs b' = alter (without_ctl ctl) o (orgs b)) \/
   (ctls b' = alter live_cv ctl (ctls b) /\ (orgs b' = orgs b \/ orgs b' = alter (active_ov ctl) o (orgs b)))).

Lemma settles_Struct ctl c b b' pool : Struct (orgs b) (ctls b) pool -> ctls b !! ctl = Some c -> cv_phase c <> ClosedControl ->
  settles ctl (cv_origin c) b b' -> Struct (orgs b') (ctls b') pool.
Proof.
  intros HS Hc Hp [_ [[-> ->]|[-> [->| ->]]]]; [by apply Struct_drop| |by apply Struct_activate]. apply (Struct_up _ _ _ _ _ c); try done. intros c'. split_and!; auto.
Qed.
Lemma settles_Pool rot open busy b b' ctl c k : Pool rot open busy b -> ctls b !! ctl = Some c -> cv_awaiting c = Some k -> k <> InitialOpen ->
  settles ctl (cv_origin c) b b' ->
  Struct (orgs b') (ctls b') (origins b') /\
  Proc (orgs b') (ctls b') (origins b') (drainingOrigins b') (if opens_origin k then cv_origin c :: drainTimers b' else drainTimers b') (activeOrigin b')
    (if in_rotation k then None else rot) open (drainRetries b') (current b') (busy \/ in_rotation k = true) /\
  p_closed b' = false /\ b_closed b' = false /\ Ref open b'.
Proof.
  intros (HS & HP & Hcl) Hc Hk Hno Hset. assert (Hd : cv_phase c = Dialling) by (apply (s_dialling _ _ _ HS _ _ Hc); by eexists).
  assert (HS' : Struct (orgs b') (ctls b') (origins b)) by (apply (settles_Struct ctl c b); [done|done|by rewrite Hd|done]).
  destruct Hset as [(X & Y & m & E) Hv].
  assert (E' : origins b' = origins b /\ drainingOrigins b' = drainingOrigins b /\ drainTimers b' = drainTimers b /\ activeOrigin b' = activeOrigin b /\
    drainRetries b' = drainRetries b /\ current b' = current b /\ p_closed b' = p_closed b /\ b_closed b' = b_closed b /\ (Ref open b' <-> Ref open b)) by (by rewrite E).
  destruct E' as (-> & -> & -> & -> & -> & -> & -> & -> & ER). rewrite ER. split; [done|]. split; [|done].
  apply (Proc_settle _ _ _ _ _ _ _ _ _ _ _ _ _ ctl c k HP Hc Hk Hno).
  - apply (dialling_in_pool _ _ _ ctl c HS Hc). by rewrite Hd.
  - intros i v a Hi Ha. destruct Hv as [[_ ->]|[_ [->| ->]]]; [|eauto|].
    + rewrite list_lookup_alter. case_decide as Eo; [|eauto]. rewrite Eo, Hi. exists (without_ctl ctl v), a. split; [done|]. cbn. rewrite bool_decide_eq_false_2; [done|].
      intros Hx. destruct (s_active _ _ _ HS _ _ _ Hi Hx) as (c' & Hc' & Hp & _). rewrite Hc in Hc'. injection Hc' as <-. rewrite Hd in Hp. by destruct Hp.
    + rewrite list_lookup_alter. case_decide as Eo; [|eauto]. rewrite Eo, Hi. by exists (active_ov ctl v), ctl.
  - intros i Hi. destruct Hv as [[-> _]|[-> _]]; rewrite list_lookup_alter, decide_False; done.
  - destruct Hv as [[-> _]|[-> _]]; unfold settled; rewrite list_lookup_alter, decide_True, Hc by done; by eexists.
Qed.

(** *** Rejected *)

Lemma fmap_alter_at {A B} (g : A -> B) f h i (l : list A) : (forall x, l !! i = Some x -> g (f x) = h (g x)) -> g <$> alter f i l = alter h i (g <$> l).
Proof.
  intros Hf. apply list_eq. intros j. rewrite list_lookup_alter, !list_lookup_fmap, list_lookup_alter. case_decide; [|done]. subst. destruct (l !! j) eqn:E; cbn; [|done].
  by rewrite Hf.
Qed.
Lemma without_id n l : n ∉ l -> without n l = l.
Proof.
  induction l as [|x l IH]; intros Hn; [done|]. unfold without in *. cbn. apply not_elem_of_cons in Hn as [Hne Hn].
  rewrite (proj2 (Nat.eqb_neq x n)) by done. cbn. by rewrite IH.
Qed.
(** A dialling control is neither its origin's active one nor about to retire. *)
Lemma dialling_apart pool b ctl c o org : Struct (orgs b) (ctls b) pool -> ctls b !! ctl = Some c -> cv_phase c = Dialling -> all_origins b !! o = Some org ->
  activeControl org <> Some ctl /\ ctl ∉ retiredControlTimers org.
Proof.
  intros HS Hc Hd Ho. pose proof (org_view _ _ _ Ho) as Hv. split; intros Hx.
  - destruct (s_active _ _ _ HS _ _ _ Hv Hx) as (c' & Hc' & Hp & _). simplify_eq. destruct Hp; congruence.
  - destruct (s_retired _ _ _ HS _ _ _ Hv Hx) as (c' & Hc' & Hn). simplify_eq. destruct (proj1 (s_dialling _ _ _ HS _ _ Hc) Hd). congruence.
Qed.
Lemma rejects_settles pool b ctl c o : Struct (orgs b) (ctls b) pool -> ctls b !! ctl = Some c -> cv_phase c = Dialling ->
  settles ctl o b (control_closeNow ctl (update_origin o (fun org => org <| controls := without ctl (controls org) |>) b)).
Proof.
  intros HS Hc Hd. set (b' := control_closeNow _ _). split; [by exists (all_controls b'), (all_origins b'), (basisOrigins b)|].
  left. split; [unfold b', control_closeNow; by rewrite (ctls_update gone_cv)|].
  unfold orgs at 1. cbn. apply fmap_alter_at. intros org Ho. destruct (dialling_apart _ _ _ _ _ _ HS Hc Hd Ho) as [Ha Hr].
  unfold without_ctl. by rewrite (without_id ctl (ov_retired (ov org)) Hr), bool_decide_eq_false_2.
Qed.

(** *** Resolved *)

Lemma owned_all o l b : exists m, foldl (fun b c => onConnectionOwned c o b) b l = b <| basisOrigins := m |>.
Proof.
  revert b. induction l as [|c l IH]; intros b; cbn [foldl]; [exists (basisOrigins b); by destruct b|]. unfold onConnectionOwned at 2.
  destruct (_ && _); [|apply IH]. destruct (IH (b <| basisOrigins := <[c := o]> (basisOrigins b) |>)) as (m & ->). by exists m.
Qed.
Lemma activate_shape o ctl ack b : let r := activate o ctl ack b in
  (exists Y m, r.1 = b <| all_origins := Y |> <| basisOrigins := m |>) /\ (orgs r.1 = alter (active_ov ctl) o (orgs b) \/ (orgs r.1 = orgs b /\ r.2 <> Ok tt)).
Proof.
  cbn. unfold activate. destruct (_ <=? 0).
  { split; [exists (all_origins b), (basisOrigins b); by destruct b|]. right. by split. }
  destruct (all_origins b !! o) as [org|] eqn:Ho.
  2: { split; [exists (all_origins b), (basisOrigins b); by destruct b|]. left. apply list_eq. intros i. rewrite list_lookup_alter. case_decide as E; [|done]. subst i.
       unfold orgs. cbn. by rewrite list_lookup_fmap, Ho. }
  destruct (setGeneration _ _) as [t [[]|m]]; [|split; [exists (all_origins b), (basisOrigins b); by destruct b|by right]].
  set (b' := update_origin _ _ b).
  assert (Hb' : orgs b' = alter (active_ov ctl) o (orgs b)) by (unfold orgs; cbn; by apply fmap_alter_view).
  destruct (activeConnIds ack) as [l|]; cbn [fst snd]; [destruct (owned_all o l b') as (m & ->)|]; (split; [by do 2 eexists|by left]).
Qed.
Lemma resolves_settles ctl o ack b : let r := activate o ctl ack (update_control ctl (fun c => c <| phase := Live |> <| awaiting := None |>) b) in
  settles ctl o b r.1 /\ (r.2 = Ok tt -> orgs r.1 = alter (active_ov ctl) o (orgs b)).
Proof.
  intros r. pose proof (activate_shape o ctl ack (update_control ctl (fun c => c <| phase := Live |> <| awaiting := None |>) b)) as [(Y & m & E) Ho]. fold r in E, Ho.
  assert (Hc : ctls r.1 = alter live_cv ctl (ctls b)) by (rewrite E; by apply (ctls_update live_cv)).
  split; [|destruct Ho as [->|[_ ?]]; done]. split; [rewrite E; by do 3 eexists|]. right. split; [done|]. destruct Ho as [->|[-> _]]; auto.
Qed.

(** ** A control is replaced *)

Lemma Struct_retired os cs pool o f : Struct os cs pool ->
  (forall v, ov_controls (f v) = ov_controls v /\ ov_active (f v) = ov_active v /\ ov_closed (f v) = ov_closed v) ->
  (forall v p, os !! o = Some v -> p ∈ ov_retired (f v) -> settled cs p) -> Struct (alter f o os) cs pool.
Proof.
  intros [S1 S2 S3 S4 S5 S6 S7] Hf Hr.
  assert (Hback : forall i v, alter f o os !! i = Some v ->
    exists v0, os !! i = Some v0 /\ ov_controls v = ov_controls v0 /\ ov_active v = ov_active v0 /\ ov_closed v = ov_closed v0).
  { intros i v. rewrite list_lookup_alter. case_decide as E; [|eauto]. subst i. destruct (os !! o) as [v0|]; [|done]. intros [= <-]. destruct (Hf v0) as (? & ? & ?). eauto. }
  assert (Hforth : forall i v0, os !! i = Some v0 ->
    exists v, alter f o os !! i = Some v /\ ov_controls v = ov_controls v0 /\ ov_active v = ov_active v0 /\ ov_closed v = ov_closed v0).
  { intros i v0 Hv. rewrite list_lookup_alter. case_decide as E; [|eauto]. subst i. rewrite Hv. destruct (Hf v0) as (? & ? & ?). eexists. by split_and!. }
  split; [| | | |done|done|].
  - intros i k. rewrite <-S1. split; intros (v & Hv & Hk).
    + destruct (Hback _ _ Hv) as (v0 & ? & E & _). exists v0. by rewrite <-E.
    + destruct (Hforth _ _ Hv) as (v0 & ? & E & _). exists v0. by rewrite E.
  - intros i. rewrite S2. split; intros (v & Hv & Hk).
    + destruct (Hforth _ _ Hv) as (v0 & ? & _ & _ & E). exists v0. by rewrite E.
    + destruct (Hback _ _ Hv) as (v0 & ? & _ & _ & E). exists v0. by rewrite <-E.
  - intros i v Hv. destruct (Hback _ _ Hv) as (v0 & ? & -> & -> & ->). by apply (S3 i).
  - intros i v k Hv. destruct (Hback _ _ Hv) as (v0 & ? & _ & -> & _). by apply (S4 i).
  - intros i v p. rewrite list_lookup_alter. case_decide as E; [|by apply S7]. subst i. destruct (os !! o) as [v0|] eqn:Ev; [|done]. intros [= <-]. by apply (Hr v0).
Qed.

Definition retired_to (g : list nat -> list nat) (v : OriginView) : OriginView :=
  {| ov_controls := ov_controls v; ov_active := ov_active v; ov_closed := ov_closed v; ov_retired := g (ov_retired v) |}.
Lemma Pool_retired rot open busy o g f b : (forall x, ov (f x) = retired_to g (ov x)) ->
  (forall org p, all_origins b !! o = Some org -> p ∈ g (retiredControlTimers org) -> settled (ctls b) p) -> Pool rot open busy b -> Pool rot open busy (update_origin o f b).
Proof.
  intros Hf Hg (HS & HP & Hcl). unfold Pool. rewrite (orgs_update _ _ _ _ Hf). change (ctls (update_origin o f b)) with (ctls b). split; [|split; [|exact Hcl]].
  - apply Struct_retired; [done|done|]. intros v p Hv Hp. apply view_org in Hv as (org & Ho & <-). by apply (Hg org).
  - apply (Proc_views _ _ _ _ _ _ _ _ _ _ _ _ _ HP); [|done]. intros i v a Hv Ha. rewrite list_lookup_alter. case_decide as E; [|eauto]. rewrite E, Hv. by do 2 eexists.
Qed.

Section Replace.
Context (rot : option RotationStage) (open : option OpenStage) (busy : Prop).
Local Notation Pool := (Pool rot open busy).

Lemma Pool_closeRetired o ctl b : Pool b -> settled (ctls b) ctl -> Pool (closeRetiredControl o ctl b).
Proof.
  intros HPool Hs. unfold closeRetiredControl. destruct (all_origins b !! o) as [org|] eqn:Ho; [|done].
  set (b1 := update_origin o _ b). assert (HP1 : Pool b1).
  { apply (Pool_retired _ _ _ _ (without ctl)); [done| |done]. intros org' p Ho' [_ Hp]%elem_without. rewrite Ho in Ho'. injection Ho' as <-.
    destruct HPool as (HS & _). apply (s_retired _ _ _ HS o (ov org)); [by apply org_view|done]. }
  destruct (_ && _) eqn:E; [|done]. apply andb_prop in E as [Ha Hin%bool_decide_eq_true_1]. apply negb_true_iff, bool_decide_eq_false_1 in Ha.
  destruct HPool as (HS & HP & Hcl). pose proof (org_view _ _ _ Ho) as Hv.
  destruct (proj1 (s_own _ _ _ HS o ctl)) as (c & Hc & Hp & Eo); [by exists (ov org)|]. unfold RelayBrokerFacts.Pool.
  set (b2 := control_closeNow ctl _).
  assert (E2 : ctls b2 = alter gone_cv ctl (ctls b) /\ orgs b2 = alter (without_ctl ctl) o (orgs b)).
  { split; [unfold b2, control_closeNow; by rewrite (ctls_update gone_cv)|]. unfold orgs at 1. cbn. rewrite list_alter_alter_eq. apply fmap_alter_at.
    intros org' Ho'. rewrite Ho in Ho'. injection Ho' as <-. unfold without_ctl. cbn [ov_active ov compose]. by rewrite bool_decide_eq_false_2. }
  destruct E2 as [-> ->]. split; [rewrite <-Eo; by apply Struct_drop|]. split; [|exact Hcl].
  apply (Proc_views _ _ _ _ _ _ _ _ _ _ _ _ _ HP).
  - intros i v a Hi Hva. rewrite list_lookup_alter. case_decide as Ei; [|eauto]. subst i. rewrite Hi. rewrite Hv in Hi. injection Hi as <-.
    exists (without_ctl ctl (ov org)), a. split; [done|]. cbn. rewrite bool_decide_eq_false_2; done.
  - intros i d k Hk. rewrite list_lookup_alter. case_decide as Ei; [|done]. subst i. rewrite Hc. destruct Hs as (c' & Hc' & Hn). rewrite Hc in Hc'. injection Hc' as <-.
    split; intros [= <-]; cbn in Hk; congruence.
Qed.
Lemma Pool_rebound o previous b : Pool b -> (forall p, previous = Some p -> settled (ctls b) p) -> Pool (rebound o previous b).
Proof.
  intros HPool Hp. unfold rebound. set (b1 := update_origin o _ b). assert (HP1 : Pool b1) by (by apply Pool_update).
  destruct previous as [p|]; [|done]. specialize (Hp p eq_refl). destruct (_ =? 0)%nat; [by apply Pool_closeRetired|].
  apply Pool_emit. apply (Pool_retired _ _ _ _ (with_elem p)); [done| |done]. intros org q Ho [->|Hq]%elem_with_elem; [done|].
  destruct HP1 as (HS & _). apply (s_retired _ _ _ HS o (ov org)); [by apply org_view|done].
Qed.
Lemma Pool_schedule now random b : Pool b -> Pool (scheduleControlRotation now random b).
Proof. intros HP. unfold scheduleControlRotation, clear_rotation. destruct (rotationTimer b); destruct (activeOrigin _); try done; by destruct (p_closed _). Qed.
End Replace.

Lemma closeRetired_shape o ctl b : exists X Y, closeRetiredControl o ctl b = (b <| all_controls := X |> <| all_origins := Y |>).
Proof.
  unfold closeRetiredControl. destruct (all_origins b !! o) as [org|]; [|exists (all_controls b), (all_origins b); by destruct b].
  destruct (_ && _); [by do 2 eexists|]. eexists (all_controls b), _. by destruct b.
Qed.
Lemma rebound_shape o p b : let b' := rebound o p b in
  rotation b' = rotation b /\ opening b' = opening b /\ activeOrigin b' = activeOrigin b /\ drainingOrigins b' = drainingOrigins b.
Proof.
  cbn. unfold rebound. destruct p as [p|]; [|done]. destruct (_ =? 0)%nat; [|done]. set (b1 := update_origin o _ b).
  by destruct (closeRetired_shape o p b1) as (X & Y & ->).
Qed.

(** ** What the closing of an origin leaves alone *)

Definition frame (b b' : Broker) : Prop := rotation b' = rotation b /\ opening b' = opening b /\ log b' = log b /\ b_closed b' = b_closed b.
Lemma closeOrigin_frame o b : frame b (closeOrigin o b).
Proof.
  unfold closeOrigin. case_bool_decide; [done|]. match goal with |- frame _ (origin_close _ ?b0) => destruct (origin_close_rest o b0) as (_ & _ & _ & X & Y & ->) end. done.
Qed.
Lemma maybeClose_frame o b : frame b (maybeCloseDrainedOrigin o b).
Proof. unfold maybeCloseDrainedOrigin. destruct (all_origins b !! o); [|done]. destruct (_ || _); [done|]. apply closeOrigin_frame. Qed.
Lemma transport_op_frame o f b : frame b (transport_op o f b).
Proof.
  unfold transport_op. destruct (all_origins b !! o) as [org|]; [|done]. set (b0 := update_origin o _ b). assert (H0 : frame b b0) by done.
  generalize (drop (length (transport_log (transport org))) (transport_log (f (transport org)))). intros l. clearbody b0. revert b0 H0.
  induction l as [|x l IH]; intros b0 H0; cbn [foldl]; [done|]. apply IH. assert (Hr : forall c, frame b (onConnectionReleased c o b0)).
  { intros c. unfold onConnectionReleased. destruct (bool_decide _); [set (b1 := b0 <| basisOrigins := _ |>)|];
      match goal with |- frame _ (maybeCloseDrainedOrigin _ ?b') => destruct (maybeClose_frame o b') as (E1 & E2 & E3 & E4) end;
      unfold frame; rewrite E1, E2, E3, E4; exact H0. }
  unfold transport_effect. destruct x as [| | |? [|]| | | |]; try done; apply Hr.
Qed.

(** ** The broker closes *)

Lemma close_all l b : exists X Y, foldl (fun b o => origin_close o b) b l = (b <| all_controls := X |> <| all_origins := Y |>).
Proof.
  revert b. induction l as [|o l IH]; intros b; cbn [foldl]; [exists (all_controls b), (all_origins b); by destruct b|].
  destruct (origin_close_rest o b) as (_ & _ & _ & X & Y & E). destruct (IH (origin_close o b)) as (X' & Y' & ->). rewrite E. by exists X', Y'.
Qed.
Lemma Struct_close_all l b pool pool' : Struct (orgs b) (ctls b) pool -> (forall n, n ∈ pool' <-> ~ (n ∈ l) /\ n ∈ pool) ->
  let b' := (foldl (fun b o => origin_close o b) b l) in Struct (orgs b') (ctls b') pool'.
Proof.
  revert b pool. induction l as [|o l IH]; intros b pool HS Hp; cbn [foldl].
  - eapply Struct_pool; [exact HS|]. intros n. rewrite Hp. set_solver.
  - apply (IH _ (without o pool)); [|intros n; rewrite Hp, elem_without; set_solver].
    apply (Struct_origin_close o b pool); [done|]. intros n. apply elem_without.
Qed.
Lemma closeNow_gone b : Struct (orgs b) (ctls b) (origins b) -> p_closed b = false -> b_closed b = false -> opening b = None -> Gone (closeNow b).
Proof.
  intros HS Hp Hb Hop. unfold closeNow. rewrite Hb.
  assert (HG : Gone (pool_closeNow (b <| b_closed := true |> <| refreshTimer := false |>))).
  { unfold pool_closeNow. set (b1 := b <| b_closed := true |> <| refreshTimer := false |>). replace (p_closed b1) with false by done. set (b0 := _ <| drainTimers := [] |>).
    assert (E0 : orgs b0 = orgs b /\ ctls b0 = ctls b /\ origins b0 = origins b /\ opening b0 = None /\ refreshTimer b0 = false /\ rotationTimer b0 = None /\ drainTimers b0 = [] /\
      p_closed b0 = true /\ b_closed b0 = true).
    { unfold b0, clear_rotation. cbn. by destruct (rotationTimer b). }
    destruct E0 as (E1 & E2 & E3 & E4 & E5 & E6 & E7 & E8 & E9). clearbody b0.
    pose proof (Struct_close_all (origins b0) b0 (origins b0) [] ltac:(by rewrite E1, E2, E3)) as HS'.
    destruct (close_all (origins b0) b0) as (X & Y & E). rewrite E in *.
    split; try done. apply HS'. set_solver. }
  destruct (current b); [|done]. destruct HG as [G1 G2 G3 G4 G5 G6 G7 G8]. by split.
Qed.

(** ** What follows *)

(** A broker that is not closed. *)
Definition Standing (b : Broker) : Prop := Pool (rotation b) (opening b) False b.

Lemma Pool_current rot open busy b : Pool rot open busy b -> isCurrent b = current b /\ broker_isCurrent b = current b.
Proof. intros (_ & _ & E1 & E2 & _). unfold isCurrent, broker_isCurrent. by rewrite E1, E2. Qed.
Lemma Pool_busy rot open (busy busy' : Prop) b : (busy -> busy' \/ rot <> None \/ current b = false) -> Pool rot open busy b -> Pool rot open busy' b.
Proof.
  intros Hb (HS & HP & Hcl). split; [done|]. split; [|done]. apply (Proc_up _ _ _ _ _ _ _ _ _ _ _ _ _ _ _ HP). intros o Hcur Ha.
  destruct (p_going _ _ _ _ _ _ _ _ _ _ _ HP o Hcur Ha) as [?|[?|[?|Hx]]]; auto. destruct (Hb Hx) as [?|[?|?]]; auto. congruence.
Qed.
Lemma Pool_active_open rot open busy b o : Pool rot open busy b -> activeOrigin b = Some o -> open = None /\ o ∈ origins b.
Proof.
  intros (HS & HP & _) Ha. split; [|by apply (p_active _ _ _ _ _ _ _ _ _ _ _ HP)]. destruct open as [x|]; [|done].
  destruct (p_opening _ _ _ _ _ _ _ _ _ _ _ HP ltac:(by eexists)). congruence.
Qed.
Lemma Standing_drain_fails random o graceMs b : Pool None (opening b) True b -> activeOrigin b = Some o -> Standing (drain_fails random o graceMs b).
Proof.
  intros HPool Ha. destruct (Pool_current _ _ _ _ HPool) as [Hcur _]. unfold drain_fails. replace (isCurrent (b <| rotation := None |>)) with (isCurrent b) by done. rewrite Hcur.
  destruct HPool as (HS & HP & Hcl). destruct (current b) eqn:Ec.
  - split; [exact HS|]. split; [|exact Hcl]. apply (Proc_up _ _ _ _ _ _ _ _ _ _ _ _ _ _ _ HP). intros n _ Hn. right. right. left. exists graceMs.
    change (activeOrigin b = Some n) in Hn. rewrite Ha in Hn. injection Hn as <-. cbn. apply elem_of_app. right. by left.
  - split; [exact HS|]. split; [|exact Hcl]. apply (Proc_up _ _ _ _ _ _ _ _ _ _ _ _ _ _ _ HP). intros n Hn. cbn in Hn. congruence.
Qed.
Lemma schedule_shape now random b : exists l rt ar nt,
  scheduleControlRotation now random b = b <| log := l |> <| rotationTimer := rt |> <| armedRotations := ar |> <| nextTimer := nt |>.
Proof.
  assert (Hc : exists ar, clear_rotation b = b <| armedRotations := ar |>).
  { unfold clear_rotation. destruct (rotationTimer b); [by eexists|]. exists (armedRotations b). by destruct b. }
  destruct Hc as (ar & Hc). unfold scheduleControlRotation. rewrite Hc. change (activeOrigin (b <| armedRotations := ar |>)) with (activeOrigin b).
  destruct (activeOrigin b); [|exists (log b), None, ar, (nextTimer b); by destruct b].
  change (p_closed (b <| armedRotations := ar |>)) with (p_closed b). destruct (p_closed b) eqn:E; [exists (log b), None, ar, (nextTimer b); by destruct b|].
  do 4 eexists. by destruct b.
Qed.
Lemma schedule_keeps now random b : let b' := scheduleControlRotation now random b in rotation b' = rotation b /\ opening b' = opening b.
Proof. cbn. by destruct (schedule_shape now random b) as (l & rt & ar & nt & ->). Qed.
Lemma Standing_schedule now random b : Standing b -> Standing (scheduleControlRotation now random b).
Proof. intros HS. unfold Standing. destruct (schedule_keeps now random b) as [-> ->]. by apply Pool_schedule. Qed.
Lemma Standing_drain_ends now random b : Pool None (opening b) False b -> Standing (drain_ends now random b).
Proof.
  intros HP. unfold drain_ends, Standing. set (b0 := publishStatus Registered b). destruct (schedule_keeps now random b0) as [_ E].
  change (Pool None (opening (scheduleControlRotation now random b0)) False (scheduleControlRotation now random b0)). rewrite E. apply Pool_schedule.
  unfold b0. unfold publishStatus. by destruct (broker_isCurrent b).
Qed.

Section Broker.
Context `{UrlEnv} (relayHostId directorUrl tokenEndpoint : string).

Lemma Standing_activateTarget o a graceMs b : Pool None (opening b) True b -> activeOrigin b = Some o -> Standing (activateTarget relayHostId o a graceMs b).
Proof.
  intros HPool Ha. destruct (Pool_active_open _ _ _ _ _ HPool Ha) as [Hop _]. unfold activateTarget.
  pose proof (Pool_new relayHostId None (opening b) True (Some (DrainConnecting (length (ctls b)))) (opening b) False a (TargetOpen o a graceMs) (default "" (relayJwt b)) b HPool) as HN.
  unfold createOrigin in *. set (b1 := b <| all_origins := _ |> <| wired := _ |> <| origins := _ |>) in *.
  change (relayJwt b1) with (relayJwt b). destruct (origin_open _ _ _ _ b1) as [b2 ctl] eqn:E2. cbn [fst snd] in HN.
  assert (Eop : opening b2 = opening b) by (change b2 with (b2, ctl).1; by rewrite <-E2).
  destruct HN as (HN & -> & _); [done|by right|by left|rewrite Hop; by intros []|done|done|auto|].
  unfold Standing. change (Pool (Some (DrainConnecting (length (ctls b)))) (opening b2) False b2). rewrite Eop. exact HN.
Qed.

Lemma Pool_draining rot open busy o b : Pool rot open busy b -> activeOrigin b = Some o ->
  Pool rot open busy (b <| drainingOrigins := with_elem o (drainingOrigins b) |>).
Proof.
  intros HPool Ha. destruct (Pool_active_open _ _ _ _ _ HPool Ha) as [-> _]. destruct HPool as (HS & [P1 P2 P3 P4 PU P5 P6 P7 P8 P9] & Hcl).
  split; [exact HS|]. split; [|exact Hcl]. split; try done.
  - intros n [Hn|Hn]; [|by apply P7; right]. cbn in Hn. apply elem_with_elem in Hn as [->|Hn]; [by apply P5|by apply P7; left].
Qed.
Lemma Pool_assigning open busy o graceMs b : Pool None open busy b -> activeOrigin b = Some o -> Pool (Some (DrainAssigning o graceMs)) open False b.
Proof.
  intros HPool Ha. destruct (Pool_active_open _ _ _ _ _ HPool Ha) as [-> _]. destruct HPool as (HS & [P1 P2 P3 P4 PU P5 P6 P7 P8 P9] & Hcl).
  split; [exact HS|]. split; [|exact Hcl]. split; try done.
  - intros i c k Hi Hk. pose proof (P1 i c k Hi Hk) as Hw. destruct k; try done; by destruct Hw.
  - auto.
Qed.
Lemma Pool_assigned open o graceMs b : Pool (Some (DrainAssigning o graceMs)) open False b -> Pool None open True b.
Proof.
  intros (HS & [P1 P2 P3 P4 PU P5 P6 P7 P8 P9] & Hcl). split; [exact HS|]. split; [|exact Hcl]. split; try done.
  - intros i c k Hi Hk. pose proof (P1 i c k Hi Hk) as Hw. destruct k; try done; by destruct Hw.
  - intros Hop. by destruct (P3 Hop) as (? & ? & ? & ?).
  - auto.
Qed.
Lemma publish_shape s b : exists l, publishStatus s b = b <| log := l |>.
Proof. unfold publishStatus. destruct (broker_isCurrent b); [by eexists|]. exists (log b). by destruct b. Qed.

Lemma Standing_handleDrain random o graceMs (busy : Prop) b : Pool (rotation b) (opening b) busy b -> (busy -> current b = true -> activeOrigin b = Some o) ->
  Standing (handleDrain directorUrl random o graceMs b).
Proof.
  intros HPool Hbusy. destruct (Pool_current _ _ _ _ HPool) as [Hcur _]. unfold handleDrain. rewrite Hcur. destruct (negb (current b) || _) eqn:E.
  - apply (Pool_busy _ _ busy); [|exact HPool]. intros Hb. right. right. destruct (current b); [|done]. by rewrite bool_decide_eq_true_2 in E by auto.
  - apply orb_false_iff in E as [_ Ha%negb_false_iff%bool_decide_eq_true_1]. cbv zeta. set (b1 := update_origin o _ b).
    assert (HP1 : Pool (rotation b) (opening b) busy b1) by (by apply Pool_update).
    pose proof (Pool_draining _ _ _ o b1 HP1 Ha) as HP2. destruct (publish_shape Draining (b1 <| drainingOrigins := with_elem o (drainingOrigins b1) |>)) as (l & ->).
    set (b3 := _ <| log := l |>). assert (HP3 : Pool (rotation b) (opening b) busy b3) by exact HP2.
    change (relayJwt b3) with (relayJwt b). change (rotation b3) with (rotation b) in *. destruct (rotation b) as [st|] eqn:Er.
    + unfold Standing. change (rotation b3) with (rotation b). rewrite Er. apply (Pool_busy _ _ busy); [by intros; right; left|exact HP3].
    + assert (HF : Standing (drain_fails random o graceMs b3)).
      { apply Standing_drain_fails; [|exact Ha]. apply (Pool_busy _ _ busy); [auto|exact HP3]. }
      destruct (relayJwt b) as [[|x jwt]|]; [exact HF| |exact HF]. destruct (isAllowedRelayOrigin directorUrl); [|exact HF].
      apply Pool_emit. exact (Pool_assigning _ _ o graceMs b3 HP3 Ha).
Qed.

Lemma active_settled pool b o org p : Struct (orgs b) (ctls b) pool -> all_origins b !! o = Some org -> activeControl org = Some p -> settled (ctls b) p.
Proof.
  intros HS Ho Ha. destruct (s_active _ _ _ HS o (ov org) p) as (c & Hc & Hp & _); [by apply org_view|done|]. exists c. split; [done|].
  destruct (cv_awaiting c) as [w|] eqn:E; [|done]. pose proof (proj2 (s_dialling _ _ _ HS _ _ Hc) ltac:(rewrite E; by eexists)) as Hd. rewrite Hd in Hp. by destruct Hp.
Qed.
Lemma rebind_shape o k jwt a b b' ctl : rebind o k jwt a b = Ok (b', ctl) ->
  exists org prev, all_origins b !! o = Some org /\ openControl o (k (activeControl org)) jwt (epoch a) prev b = (b', ctl).
Proof.
  unfold rebind. destruct (all_origins b !! o) as [org|]; [|done]. destruct (controlResumeSecret org) as [[|x secret]|]; try done.
  destruct (negb _ || _); [done|]. intros E. exists org, (Some (generation org, String x secret)). split; [done|]. congruence.
Qed.

Lemma Standing_rebindActive random o b : Standing b -> Standing (rebindActiveControl random o b).
Proof.
  intros HS. unfold rebindActiveControl. set (b0 := b <| rotationTimer := None |>). assert (HP : Standing b0) by exact HS. clearbody b0. clear HS b.
  destruct (negb _ || _ || _) eqn:E; [done|]. apply orb_false_iff in E as [[_ Ha%negb_false_iff%bool_decide_eq_true_1]%orb_false_iff Hr].
  destruct (relayJwt b0) as [[|x jwt]|]; [done| |done]. destruct (assignment b0) as [a|]; [|done]. destruct (rebind _ _ _ _ b0) as [[b1 ctl]|m] eqn:Eb.
  - apply rebind_shape in Eb as (org & prev & Ho & Eb). assert (Er : rotation b0 = None) by (by destruct (rotation b0)).
    destruct (Pool_active_open _ _ _ _ _ HP Ha) as [Hop Hin].
    pose proof (Pool_openControl _ _ False (rotation b0) False o (LeaseRebind (activeControl org)) (String x jwt) (epoch a) prev b0 HP Hin) as HN.
    rewrite Eb in HN. unfold Standing. assert (E' : rotation b1 = rotation b0 /\ opening b1 = opening b0) by (change b1 with (b1, ctl).1; by rewrite <-Eb).
    destruct E' as [-> ->]. apply HN; try done; [by left|]. intros p Hp. destruct HP as (HS & _). by apply (active_settled _ _ o org p HS).
  - unfold lease_rebind_fails. by destruct (_ && _).
Qed.

Lemma Standing_drain_assigned random outcome b : Standing b -> Standing (drain_assigned relayHostId directorUrl random outcome b).
Proof.
  intros HP. unfold drain_assigned. destruct (rotation b) as [[o graceMs|ctl]|] eqn:Er; [|done|done].
  assert (HT : Pool None (opening b) True b) by (unfold Standing in HP; rewrite Er in HP; by apply (Pool_assigned _ o graceMs)).
  assert (Ha : activeOrigin b = Some o).
  { destruct HP as (_ & HP & _). pose proof (p_rot _ _ _ _ _ _ _ _ _ _ _ HP) as Hr. by rewrite Er in Hr. }
  assert (HF : Standing (drain_fails random o graceMs b)) by (by apply Standing_drain_fails).
  destruct (requestRelayAssignment directorUrl outcome) as [a|]; [|exact HF]. destruct (negb _); [exact HF|].
  destruct (all_origins b !! o) as [org|] eqn:Ho; [|done]. destruct (String.eqb _ _); [|by apply Standing_activateTarget].
  destruct (rebind _ _ _ a b) as [[b1 ctl]|m] eqn:Eb; [|by apply Standing_activateTarget].
  apply rebind_shape in Eb as (org' & prev & Ho' & Eb). rewrite Ho in Ho'. injection Ho' as <-. destruct (Pool_active_open _ _ _ _ _ HT Ha) as [Hop Hin].
  assert (Ec : ctl = length (ctls b)).
  { destruct (openControl_views o (DrainRebind (activeControl org) a graceMs) (default "" (relayJwt b)) (epoch a) prev b) as (_ & _ & E). by rewrite Eb in E. }
  pose proof (Pool_openControl None (opening b) True (Some (DrainConnecting ctl)) False o (DrainRebind (activeControl org) a graceMs) (default "" (relayJwt b)) (epoch a) prev b HT Hin) as HN.
  rewrite Eb in HN. assert (E' : opening b1 = opening b) by (change b1 with (b1, ctl).1; by rewrite <-Eb).
  change (Pool (Some (DrainConnecting ctl)) (opening b1) False b1). rewrite E'. subst ctl. apply HN; try done; [by right|rewrite Hop; by intros []|auto|].
  intros p Hp. destruct HT as (HS & _). by apply (active_settled _ _ o org p HS).
Qed.

(** *** The origin that takes over *)

Section Target.
Context (b : Broker) (target drained : nat) (busy : Prop) (HS : Struct (orgs b) (ctls b) (origins b)).
Context (HP : Proc (orgs b) (ctls b) (origins b) (drainingOrigins b) (target :: drainTimers b) (activeOrigin b) None (opening b) (drainRetries b) (current b) busy).
Context (Hnew : ~ (target ∈ drainTimers b) /\ ~ (target ∈ drainingOrigins b)) (Ha : activeOrigin b = Some drained).
Context (Hcl : p_closed b = false /\ b_closed b = false /\ Ref (opening b) b).

Lemma target_apart : target <> drained /\ opening b = None.
Proof.
  split.
  - intros ->. by apply (p_apart _ _ _ _ _ _ _ _ _ _ _ HP drained ltac:(by left)).
  - destruct (opening b) as [x|] eqn:E; [|done]. destruct (p_opening _ _ _ _ _ _ _ _ _ _ _ HP ltac:(by eexists)). congruence.
Qed.
Lemma Standing_target_fails random graceMs : Standing (target_fails random target drained graceMs b).
Proof.
  unfold target_fails. set (b0 := b <| origins := without target (origins b) |>).
  destruct (origin_close_rest target b0) as (R1 & R2 & R3 & X & Y & E).
  pose proof (Struct_origin_close target b0 (origins b) (without target (origins b)) HS ltac:(intros n; apply elem_without)) as HS'.
  set (b1 := origin_close target b0) in *.
  assert (E' : origins b1 = without target (origins b) /\ drainingOrigins b1 = drainingOrigins b /\ drainTimers b1 = drainTimers b /\ activeOrigin b1 = activeOrigin b /\
    opening b1 = opening b /\ drainRetries b1 = drainRetries b /\ current b1 = current b /\ p_closed b1 = p_closed b /\ b_closed b1 = b_closed b /\ (Ref (opening b) b1 <-> Ref (opening b) b)) by (by rewrite E).
  clearbody b1. destruct E' as (E1 & E2 & E3 & E4 & E5 & E6 & E7 & E8 & E9 & E10).
  apply Standing_drain_fails; [|by rewrite E4]. unfold Pool. rewrite E1, E2, E3, E4, E5, E6, E7, E8, E9, E10. split; [exact HS'|]. split; [|exact Hcl].
  destruct target_apart as [Hne _]. apply (Proc_weaken _ _ _ _ _ _ _ _ _ _ busy); [done|].
  apply (Proc_kill _ _ _ _ _ _ _ _ _ _ _ _ _ _ _ _ target HP); [exact R1|exact R2| | | | | |].
  - intros i c Hi Hne'. apply R3; eauto.
  - intros n. apply elem_without.
  - intros n. split; [intros Hn; split; [set_solver|done]|by intros []].
  - intros n. rewrite elem_of_cons. split; [intros Hn; split; [set_solver|by right]|]. intros [Hn [?|?]]; done.
  - congruence.
  - by apply (p_leave _ _ _ _ _ _ _ _ _ _ _ HP target ltac:(right; by left)).
Qed.
Lemma Standing_target_opens now random a graceMs v ctl : orgs b !! target = Some v -> ov_active v = Some ctl ->
  Standing (target_opens now random target drained a graceMs b).
Proof.
  intros Hv Hvc. unfold target_opens. destruct (negb (isCurrent b)); [apply Standing_target_fails|]. destruct target_apart as [Hne Hop].
  set (b1 := _ <| drainTimers := _ |>). set (b2 := emit _ b1).
  assert (HPool : Pool None (opening b2) False b2).
  { split; [exact HS|]. split; [|exact Hcl]. change (opening b2) with (opening b). change (drainTimers b2) with (with_elem drained (drainTimers b)). change (activeOrigin b2) with (Some target).
    change (Proc (orgs b) (ctls b) (origins b) (drainingOrigins b) (with_elem drained (drainTimers b)) (Some target) None (opening b) (drainRetries b) (current b) False).
    destruct HP as [P1 P2 P3 P4 PU P5 P6 P7 P8 P9]. rewrite Hop in *. split; try done.
    - intros i c k Hi Hk. pose proof (P1 i c k Hi Hk) as Hw. destruct k; try done; by destruct Hw.
    - intros o [= <-]. apply P7. right. by left.
    - intros o Ho. rewrite elem_with_elem. destruct (P6 o Ho) as [Hx|[[->|Hx]%elem_of_cons|Hx]]; [|by left|by right; left; right|by right; right].
      rewrite Ha in Hx. injection Hx as ->. right. left. by left.
    - intros o Ho. rewrite elem_with_elem in Ho. destruct Ho as [Ho|[->|Ho]]; [by apply P7; left|by apply P5|]. apply P7. right. by right.
    - intros o Hcur [= <-]. left. eauto.
    - intros o Ho [= <-]. apply elem_with_elem in Ho as [E|Ho]; [by apply Hne|]. by apply (proj1 Hnew). }
  pose proof (Pool_maybeClose _ _ _ drained b2 HPool) as HM. cbv zeta. set (b3 := maybeCloseDrainedOrigin drained b2) in *.
  destruct (maybeClose_frame drained b2) as (_ & E3 & _). fold b3 in E3.
  apply Standing_drain_ends. by rewrite E3.
Qed.
End Target.

(** *** The first origin *)

Lemma Proc_initial os cs pool draining timed active rot open retries cur (busy : Prop) os' cs' ctl c v a :
  Proc os cs pool draining timed active rot open retries cur busy -> cs !! ctl = Some c -> cv_awaiting c = Some InitialOpen -> cv_origin c ∈ pool ->
  (forall i, i <> ctl -> cs' !! i = cs !! i) -> settled cs' ctl -> os' !! cv_origin c = Some v -> ov_active v = Some a ->
  Proc os' cs' pool draining timed (Some (cv_origin c)) rot None retries cur False.
Proof.
  intros [P1 P2 P3 P4 PU P5 P6 P7 P8 P9] Hc Hk Hin Hcs (c' & Hc' & Hnone) Hv Hva. destruct (P1 _ _ _ Hc Hk) as (au & Hop).
  destruct (P3 ltac:(rewrite Hop; by eexists)) as (Eact & -> & -> & ->).
  assert (Hold : forall i d w, cs' !! i = Some d -> cv_awaiting d = Some w -> w = LeaseRebind (previous w)).
  { intros i d w Hi Hw'. assert (Hne : i <> ctl) by (intros ->; congruence). rewrite Hcs in Hi by done. pose proof (P1 _ _ _ Hi Hw') as Hx.
    destruct w; [|done|by destruct Hx|by destruct Hx]. by destruct Hne; apply (PU i ctl d c). }
  assert (Hh : forall n, ~ hatching cs' n) by (intros n (i & d & w & Hi & Hn & Hw' & Hb); by rewrite (Hold _ _ _ Hi Hw') in Hb).
  split; try done.
  - intros i d w Hi Hw'. by rewrite (Hold _ _ _ Hi Hw').
  - intros i j d d' Hi Hj Hd Hd'. pose proof (Hold _ _ _ Hi Hd). done.
  - intros n [= <-]. by split.
  - intros n Hn. destruct (P6 n Hn) as [?|[?|(i & d & w & Hi & Hn' & Hw' & Hb)]]; [congruence|by right; left|]. left. f_equal.
    pose proof (P1 _ _ _ Hi Hw') as Hx. destruct w; [|done|by destruct Hx|by destruct Hx]. assert (i = ctl) as -> by (by apply (PU i ctl d c)). congruence.
  - intros n Hn. destruct (P7 n Hn). by split.
  - intros n Hcur [= <-]. left. eauto.
  - intros n Hn. by apply elem_of_nil in Hn.
Qed.

(** ** What controls report *)

Definition Inv (b : Broker) : Prop := Standing b \/ Gone b.

Lemma initial_fails_gone m b : Struct (orgs b) (ctls b) (origins b) -> p_closed b = false -> b_closed b = false -> Gone (initial_fails m b).
Proof.
  intros HS Hp Hb. unfold initial_fails. generalize (if broker_isCurrent b then m else stale_broker). intros m'. unfold connect_fails.
  set (b0 := b <| opening := None |>). assert (HG : Gone (closeNow b0)) by (by apply closeNow_gone). by destruct HG.
Qed.

Section Settled.
Context (b b' : Broker) (ctl : nat) (c : ControlView) (k : Waiter).
Context (HS : Standing b) (Hc : ctls b !! ctl = Some c) (Hk : cv_awaiting c = Some k) (Hset : settles ctl (cv_origin c) b b').

Lemma settled_frame : rotation b' = rotation b /\ opening b' = opening b /\ activeOrigin b' = activeOrigin b /\ drainTimers b' = drainTimers b /\
  drainingOrigins b' = drainingOrigins b /\ origins b' = origins b /\ current b' = current b /\ p_closed b' = false /\ b_closed b' = false.
Proof. destruct Hset as [(X & Y & m & E) _]. destruct HS as (_ & _ & Hp & Hb & _). by rewrite E. Qed.
Lemma settled_struct : Struct (orgs b') (ctls b') (origins b').
Proof.
  destruct settled_frame as (_ & _ & _ & _ & _ & -> & _). destruct HS as (HS0 & _). apply (settles_Struct ctl c b); try done.
  rewrite (proj2 (s_dialling _ _ _ HS0 _ _ Hc)); [done|]. by eexists.
Qed.
(** A lease's rebinding. *)
Lemma settled_lease p : k = LeaseRebind p -> Standing b'.
Proof.
  intros Ek. pose proof Hk as Hk'. rewrite Ek in Hk'. destruct settled_frame as (E1 & E2 & _). destruct (settles_Pool _ _ _ _ _ _ _ _ HS Hc Hk' ltac:(done) Hset) as (HS' & HP' & Hcl).
  unfold Standing. rewrite E1, E2. split; [done|]. split; [|done]. eapply Proc_weaken; [|exact HP']. by intros [?|?].
Qed.
(** A drained origin's rebinding. *)
Lemma settled_drain p a graceMs : k = DrainRebind p a graceMs -> Pool None (opening b') True b' /\ activeOrigin b' = Some (cv_origin c).
Proof.
  intros Ek. pose proof Hk as Hk'. rewrite Ek in Hk'. destruct settled_frame as (E1 & E2 & E3 & _). destruct (settles_Pool _ _ _ _ _ _ _ _ HS Hc Hk' ltac:(done) Hset) as (HS' & HP' & Hcl).
  rewrite E2, E3. destruct HS as (_ & HP & _). destruct (p_waits _ _ _ _ _ _ _ _ _ _ _ HP _ _ _ Hc Hk') as [_ Ha]. split; [|done]. split; [done|]. split; [|done].
  eapply Proc_weaken; [|exact HP']. done.
Qed.
(** An origin that takes over. *)
Lemma settled_target d a graceMs : k = TargetOpen d a graceMs ->
  Proc (orgs b') (ctls b') (origins b') (drainingOrigins b') (cv_origin c :: drainTimers b') (activeOrigin b') None (opening b') (drainRetries b') (current b') (False \/ true = true) /\
  (~ (cv_origin c ∈ drainTimers b') /\ ~ (cv_origin c ∈ drainingOrigins b')) /\ activeOrigin b' = Some d /\ p_closed b' = false /\ b_closed b' = false /\ Ref (opening b') b'.
Proof.
  intros Ek. pose proof Hk as Hk'. rewrite Ek in Hk'. destruct settled_frame as (E1 & E2 & E3 & E4 & E5 & _). destruct (settles_Pool _ _ _ _ _ _ _ _ HS Hc Hk' ltac:(done) Hset) as (HS' & HP' & Hcl).
  rewrite E2. destruct HS as (_ & HP & _). destruct (p_waits _ _ _ _ _ _ _ _ _ _ _ HP _ _ _ Hc Hk') as [_ Ha]. split; [exact HP'|]. split; [|by rewrite E3].
  rewrite E4, E5. assert (Hh : hatching (ctls b) (cv_origin c)) by (by exists ctl, c, (TargetOpen d a graceMs)).
  split; intros Hx; by apply (p_leave _ _ _ _ _ _ _ _ _ _ _ HP (cv_origin c) ltac:(auto)).
Qed.

Lemma Inv_unopened random m :
  Inv (match k with
       | InitialOpen => initial_fails m b'
       | LeaseRebind _ => lease_rebind_fails random (cv_origin c) b'
       | DrainRebind _ a graceMs => activateTarget relayHostId (cv_origin c) a graceMs b'
       | TargetOpen drained _ graceMs => target_fails random (cv_origin c) drained graceMs b'
       end).
Proof.
  destruct settled_frame as (_ & _ & _ & _ & _ & _ & _ & Hp & Hb). pose proof settled_struct as HSt. pose proof settled_lease as HL. pose proof settled_drain as HD.
  pose proof settled_target as HT. destruct k as [|p|p a graceMs|d a graceMs].
  - right. by apply initial_fails_gone.
  - left. specialize (HL p eq_refl). unfold lease_rebind_fails. by destruct (_ && _).
  - left. destruct (HD p a graceMs eq_refl). by apply Standing_activateTarget.
  - left. destruct (HT d a graceMs eq_refl) as (HP & Hn & Ha & Hcl). by apply (Standing_target_fails b' (cv_origin c) d (False \/ true = true)).
Qed.

(** The control is its origin's. *)
Context (Hup : orgs b' = alter (active_ov ctl) (cv_origin c) (orgs b)).
Lemma settled_up : exists v, orgs b' !! cv_origin c = Some v /\ ov_active v = Some ctl.
Proof.
  destruct HS as (HS0 & _). destruct (proj2 (s_own _ _ _ HS0 (cv_origin c) ctl)) as (v & Hv & _).
  { exists c. split; [done|]. rewrite (proj2 (s_dialling _ _ _ HS0 _ _ Hc)); [done|]. by eexists. }
  exists (active_ov ctl v). split; [|done]. by rewrite Hup, list_lookup_alter, decide_True, Hv.
Qed.
Lemma settled_previous p q : previous k = p -> p = Some q -> settled (ctls b') q.
Proof.
  intros Hp ->. destruct HS as (HS0 & _). pose proof (s_previous _ _ _ HS0 _ _ _ _ Hc Hk Hp) as Hq.
  destruct Hset as [_ [[-> _]|[-> _]]]; [by apply settled_gone|by apply settled_live].
Qed.
Lemma Standing_initial_opens now random : k = InitialOpen -> Inv (initial_opens now random (cv_origin c) b').
Proof.
  intros Ek. destruct settled_frame as (E1 & E2 & E3 & E4 & E5 & E6 & E7 & Hp & Hb). unfold initial_opens.
  destruct (negb (isCurrent b')); [right; apply initial_fails_gone; [apply settled_struct|done|done]|]. left.
  destruct HS as (HS0 & HP & _ & _ & HR). pose proof (p_waits _ _ _ _ _ _ _ _ _ _ _ HP _ _ _ Hc Hk) as Hw. rewrite Ek in Hw. destruct Hw as (au & Hop). rewrite Hop in HR. destruct HR as (_ & R2 & R3).
  assert (Hd : cv_phase c = Dialling) by (apply (s_dialling _ _ _ HS0 _ _ Hc); by eexists).
  destruct settled_up as (v & Hv & Hva). set (b1 := b' <| activeOrigin := Some (cv_origin c) |>). cbv zeta.
  assert (HPool : Struct (orgs b1) (ctls b1) (origins b1) /\
    Proc (orgs b1) (ctls b1) (origins b1) (drainingOrigins b1) (drainTimers b1) (activeOrigin b1) (rotation b1) None (drainRetries b1) (current b1) False).
  { split; [apply settled_struct|]. change (rotation b1) with (rotation b'). rewrite E1. change (drainingOrigins b1) with (drainingOrigins b'). change (drainTimers b1) with (drainTimers b').
    change (origins b1) with (origins b'). change (current b1) with (current b'). rewrite E4, E5, E6, E7.
    assert (Er : drainRetries b1 = drainRetries b) by (destruct Hset as [(X & Y & m & E) _]; unfold b1; by rewrite E). rewrite Er.
    apply (Proc_initial _ _ _ _ _ _ _ _ _ _ _ _ _ ctl c v ctl HP Hc (eq_trans Hk (f_equal Some Ek))); [|..|exact Hv|exact Hva].
    - apply (dialling_in_pool _ _ _ ctl c HS0 Hc). by rewrite Hd.
    - intros i Hi. destruct Hset as [_ [[E _]|[E _]]]; change (ctls b1) with (ctls b'); rewrite E, list_lookup_alter, decide_False; done.
    - destruct Hset as [_ [[E _]|[E _]]]; unfold settled; change (ctls b1) with (ctls b'); rewrite E, list_lookup_alter, decide_True, Hc by done; by eexists. }
  assert (Hop' : opening b1 = Some (OpenConnecting au)) by (unfold b1; cbn; congruence).
  assert (Hrest : p_closed b1 = false /\ b_closed b1 = false /\ refreshing b1 = None) by (destruct Hset as [(X & Y & m & E) _]; unfold b1; by rewrite E in *).
  clearbody b1. destruct (schedule_shape now random b1) as (l & rt & ar & nt & ->). change (opening (b1 <| log := l |> <| rotationTimer := rt |> <| armedRotations := ar |> <| nextTimer := nt |>)) with (opening b1).
  rewrite Hop'. set (b2 := _ <| authorization := Some au |>). destruct (publish_shape Registered b2) as (l2 & ->). unfold scheduleRefresh. cbn [authorization].
  assert (HPool2 : Struct (orgs b2) (ctls b2) (origins b2) /\
    Proc (orgs b2) (ctls b2) (origins b2) (drainingOrigins b2) (drainTimers b2) (activeOrigin b2) (rotation b2) None (drainRetries b2) (current b2) False) by exact HPool.
  assert (Hrest2 : p_closed b2 = false /\ b_closed b2 = false /\ refreshing b2 = None /\ authorization b2 = Some au) by (destruct Hrest as (? & ? & ?); by split_and!).
  clearbody b2. clear HPool Hrest. destruct HPool2 as [HS2 HP2], Hrest2 as (F1 & F2 & F3 & F4).
  replace (authorization (b2 <| log := l2 |>)) with (Some au) by done. replace (b_closed (b2 <| log := l2 |>)) with false by done.
  split; [exact HS2|]. split; [exact HP2|]. split; [exact F1|]. split; [exact F2|]. split; [cbn; rewrite F4; by eexists|]. cbn. by rewrite F3.
Qed.

Lemma Inv_opened now random :
  Inv (match k with
       | InitialOpen => initial_opens now random (cv_origin c) b'
       | LeaseRebind previous =>
           let b2 := rebound (cv_origin c) previous b' in
           if isCurrent b2 then scheduleControlRotation now random b2 else lease_rebind_fails random (cv_origin c) b2
       | DrainRebind previous a graceMs =>
           let b2 := rebound (cv_origin c) previous b' in
           if isCurrent b2
           then drain_ends now random (b2 <| activeOrigin := Some (cv_origin c) |> <| assignment := Some a |> <| drainingOrigins := without (cv_origin c) (drainingOrigins b2) |>)
           else drain_fails random (cv_origin c) graceMs b2
       | TargetOpen drained a graceMs => target_opens now random (cv_origin c) drained a graceMs b'
       end).
Proof.
  pose proof settled_struct as HSt. pose proof settled_lease as HL. pose proof settled_drain as HD. pose proof settled_target as HT.
  pose proof settled_up as (v & Hv & Hva). pose proof settled_previous as HQ. pose proof (Standing_initial_opens now random) as HI.
  destruct k as [|p|p a graceMs|d a graceMs].
  - by apply HI.
  - left. specialize (HL p eq_refl). destruct (rebound_shape (cv_origin c) p b') as (E1 & E2 & _).
    assert (HR : Standing (rebound (cv_origin c) p b')).
    { unfold Standing. rewrite E1, E2. apply Pool_rebound; [exact HL|]. intros q. by apply HQ. }
    cbv zeta. destruct (isCurrent _); [by apply Standing_schedule|]. unfold lease_rebind_fails. by destruct (_ && _).
  - left. destruct (HD p a graceMs eq_refl) as [HP Ha]. destruct (rebound_shape (cv_origin c) p b') as (E1 & E2 & E3 & _).
    assert (HR : Pool None (opening b') False (rebound (cv_origin c) p b')).
    { apply Pool_rebound; [|intros q; by apply HQ]. destruct HP as (HS0 & HP & Hcl). split; [done|]. split; [|done].
      apply (Proc_up _ _ _ _ _ _ _ _ _ _ _ _ _ _ _ HP). intros o _ Ho. left. rewrite Ha in Ho. injection Ho as <-. eauto. }
    cbv zeta. destruct (isCurrent _).
    + apply Standing_drain_ends. set (b2 := rebound _ p b') in *. clearbody b2. rewrite <-E2 in HR. destruct (Pool_active_open _ _ _ _ (cv_origin c) HR ltac:(congruence)) as [Hop _].
      destruct HR as (HS0 & [P1 P2 P3 P4 PU P5 P6 P7 P8 P9] & Hcl). split; [exact HS0|]. split; [|exact Hcl]. cbn. rewrite <-Ha, <-E3. split; try done.
      * intros Hop'. by destruct (P3 Hop') as (? & -> & ? & ?).
      * intros o [[_ Ho]%elem_without|Ho]; apply P7; [by left|by right].
    + apply Standing_drain_fails; [|congruence]. rewrite E2. apply (Pool_busy _ _ False); [done|exact HR].
  - left. destruct (HT d a graceMs eq_refl) as (HP & Hn & Ha & Hcl). by apply (Standing_target_opens b' (cv_origin c) d (False \/ true = true) HSt HP Hn Ha Hcl now random a graceMs v ctl).
Qed.
End Settled.

(** *** Its [connect] *)

Lemma Inv_connect_rejects now random ctl m b c : Standing b -> all_controls b !! ctl = Some c -> phase c = Dialling ->
  Inv (connect_rejects relayHostId now random ctl m b).
Proof.
  intros HS Hc Hd. unfold connect_rejects. rewrite Hc. pose proof (ctl_view _ _ _ Hc) as Hv. pose proof HS as (HS0 & _).
  destruct (proj1 (s_dialling _ _ _ HS0 _ _ Hv) Hd) as [k Hk]. cbn in Hk. rewrite Hk.
  apply (Inv_unopened b _ ctl (cv c) k HS Hv Hk (rejects_settles _ _ _ _ _ HS0 Hv Hd) random m).
Qed.
Lemma Inv_connect_resolves now random ctl ack b c : Standing b -> all_controls b !! ctl = Some c -> phase c = Dialling ->
  Inv (connect_resolves relayHostId now random ctl ack b).
Proof.
  intros HS Hc Hd. unfold connect_resolves. rewrite Hc. pose proof (ctl_view _ _ _ Hc) as Hv. pose proof HS as (HS0 & _).
  destruct (proj1 (s_dialling _ _ _ HS0 _ _ Hv) Hd) as [k Hk]. cbn in Hk. rewrite Hk.
  destruct (resolves_settles ctl (control_origin c) ack b) as [Hset Hup].
  destruct (activate _ _ _ _) as [b' r]. cbn [fst snd] in *. destruct r as [[]|m].
  - pose proof (Inv_opened b b' ctl (cv c) k HS Hv Hk Hset (Hup eq_refl) now random) as HI. by destruct k.
  - pose proof (Inv_unopened b b' ctl (cv c) k HS Hv Hk Hset random m) as HI. by destruct k.
Qed.

(** *** Its socket closes *)

Section Closes.
Context (b : Broker) (ctl : nat) (c : Control) (HS : Standing b) (Hc : all_controls b !! ctl = Some c).
Let o := control_origin c.
Let b1 := update_control ctl (fun c => c <| phase := ClosedControl |> <| pendingRequestCount := 0%nat |>) b.
Let b2 := update_origin o (fun org => org <| controls := without ctl (controls org) |> <| retiredControlTimers := without ctl (retiredControlTimers org) |>) b1.
Let b3 := update_origin o (fun org => org <| activeControl := None |>) b2.

(** Whether it was its origin's active control or not. *)
Lemma closes_settled b' : cv_awaiting (cv c) = None -> cv_phase (cv c) <> ClosedControl ->
  (availableControl o b2 = Some ctl /\ b' = b3) \/ (availableControl o b2 <> Some ctl /\ b' = b2) ->
  Pool (rotation b) (opening b) (activeOrigin b = Some o /\ availableControl o b2 = Some ctl) b'.
Proof.
  intros Hn Hp Hb'. destruct HS as (HS0 & HP & Hcl). pose proof (ctl_view _ _ _ Hc) as Hv.
  assert (Ec : ctls b' = alter gone_cv ctl (ctls b)).
  { assert (E : ctls b' = ctls b1) by (by destruct Hb' as [[_ ->]|[_ ->]]). rewrite E. unfold ctls, b1. cbn. apply fmap_alter_at. intros c' Hc'. rewrite Hc in Hc'. injection Hc' as <-.
    unfold gone_cv, cv. cbn in *. by rewrite Hn. }
  assert (Eo : orgs b' = alter (without_ctl ctl) o (orgs b)).
  { destruct Hb' as [[Ha ->]|[Ha ->]]; unfold orgs, b3, b2; cbn.
    - rewrite list_alter_alter_eq. apply fmap_alter_at. intros org Ho. unfold availableControl, b2 in Ha. cbn in Ha. rewrite list_lookup_alter, decide_True, Ho in Ha by done. cbn in Ha.
      unfold without_ctl. cbn [ov_active ov compose]. by rewrite bool_decide_eq_true_2.
    - apply fmap_alter_at. intros org Ho. unfold availableControl, b2 in Ha. cbn in Ha. rewrite list_lookup_alter, decide_True, Ho in Ha by done. cbn in Ha.
      unfold without_ctl. cbn [ov_active ov]. by rewrite bool_decide_eq_false_2. }
  assert (E : exists X Y, b' = b <| all_controls := X |> <| all_origins := Y |>) by (destruct Hb' as [[_ ->]|[_ ->]]; by do 2 eexists).
  destruct E as (X & Y & E). unfold Pool. rewrite Ec, Eo. rewrite E. split; [exact (Struct_drop _ _ _ ctl (cv c) HS0 Hv)|]. split; [|exact Hcl].
  eapply Proc_views; [apply (Proc_up (alter (without_ctl ctl) o (orgs b)) (drainRetries b) (current b) (activeOrigin b = Some o /\ availableControl o b2 = Some ctl) _ _ _ _ _ _ _ _ _ _ _ HP)|by eauto|].
  - intros n Hcur Ha. destruct (p_going _ _ _ _ _ _ _ _ _ _ _ HP n Hcur Ha) as [(v & a & Hva & Haa)|[?|[?|[]]]]; [|auto|auto].
    rewrite list_lookup_alter. destruct (decide (o = n)) as [->|]; [|left; eauto]. destruct (decide (a = ctl)) as [->|Hne].
    + right. right. right. split; [done|]. apply view_org in Hva as (org & Ho & <-). unfold availableControl, b2. cbn. by rewrite list_lookup_alter, decide_True, Ho.
    + left. exists (without_ctl ctl v), a. rewrite Hva. split; [done|]. cbn. rewrite Haa, bool_decide_eq_false_2 by congruence. done.
  - intros i d k Hk. rewrite list_lookup_alter. case_decide as Ei; [|done]. subst i. rewrite Hv. split; intros [= <-]; cbn in *; congruence.
Qed.
Lemma closes_settles : phase c = Dialling ->
  availableControl o b2 <> Some ctl /\ settles ctl o b (control_closeNow ctl (update_origin o (fun org => org <| controls := without ctl (controls org) |>) b2)).
Proof.
  intros Hd. destruct HS as (HS0 & _). pose proof (ctl_view _ _ _ Hc) as Hv. split.
  - unfold availableControl, b2. cbn. rewrite list_lookup_alter, decide_True by done. destruct (all_origins b !! o) as [org|] eqn:Ho; [|done]. cbn.
    by apply (dialling_apart _ _ _ _ _ _ HS0 Hv Hd Ho).
  - set (b' := control_closeNow _ _). split; [by exists (all_controls b'), (all_origins b'), (basisOrigins b)|]. left. split.
    + unfold b', control_closeNow. rewrite (ctls_update gone_cv) by done. change (ctls (update_origin _ _ b2)) with (ctls b1). unfold b1.
      rewrite (ctls_update (fun c => {| cv_origin := cv_origin c; cv_phase := ClosedControl; cv_awaiting := cv_awaiting c |})) by done. by rewrite list_alter_alter_eq.
    + unfold orgs at 1. cbn. rewrite list_alter_alter_eq. apply fmap_alter_at. intros org Ho. destruct (dialling_apart _ _ _ _ _ _ HS0 Hv Hd Ho) as [Ha Hr].
      unfold without_ctl. cbn [ov_active ov compose]. rewrite bool_decide_eq_false_2 by done. unfold ov. cbn. f_equal. apply (without_id ctl (without ctl (controls org))). rewrite elem_without. tauto.
Qed.
End Closes.

Lemma Inv_control_closes now random ctl b c : Standing b -> all_controls b !! ctl = Some c -> phase c <> ClosedControl ->
  Inv (control_closes relayHostId directorUrl now random ctl b).
Proof.
  intros HS Hc Hp. unfold control_closes. rewrite Hc. set (o := control_origin c). set (b1 := update_control ctl _ b). set (b2 := update_origin o _ b1).
  pose proof (ctl_view _ _ _ Hc) as Hv. pose proof HS as (HS0 & _). destruct (decide (phase c = Dialling)) as [Hd|Hd].
  - destruct (closes_settles b ctl c HS Hc Hd) as [Ha Hset]. rewrite (bool_decide_eq_false_2 _ Ha), bool_decide_eq_true_2 by done.
    unfold connect_rejects. assert (Hc2 : all_controls b2 !! ctl = Some (c <| phase := ClosedControl |> <| pendingRequestCount := 0%nat |>)).
    { unfold b2, b1. cbn. by rewrite list_lookup_alter, decide_True, Hc. }
    rewrite Hc2. destruct (proj1 (s_dialling _ _ _ HS0 _ _ Hv) Hd) as [k Hk]. cbn in Hk. replace (awaiting (c <| phase := ClosedControl |> <| pendingRequestCount := 0%nat |>)) with (Some k) by (symmetry; exact Hk).
    apply (Inv_unopened b _ ctl (cv c) k HS Hv Hk Hset random).
  - assert (Hn : cv_awaiting (cv c) = None).
    { destruct (cv_awaiting (cv c)) eqn:E; [|done]. destruct Hd. apply (s_dialling _ _ _ HS0 _ _ Hv). rewrite E. by eexists. }
    rewrite (bool_decide_eq_false_2 (phase c = Dialling)) by done. left. pose proof (closes_settled b ctl c HS Hc) as HCl. fold o b1 b2 in HCl. cbv zeta.
    destruct (decide (availableControl o b2 = Some ctl)) as [Ha|Ha]; [rewrite (bool_decide_eq_true_2 _ Ha)|rewrite (bool_decide_eq_false_2 _ Ha)].
    + set (b3 := update_origin o _ b2). pose proof (HCl b3 Hn Hp ltac:(by left)) as HP. destruct (Pool_current _ _ _ _ HP) as [Hcur _]. rewrite Hcur.
      case_bool_decide as Hact; cbn [andb].
      * destruct (current b3) eqn:Ecur; [|apply (Pool_busy _ _ (activeOrigin b = Some o /\ availableControl o b2 = Some ctl)); [by right; right|exact HP]].
        destruct (publish_shape Offline b3) as (l & ->). eapply Standing_handleDrain; [exact HP|]. done.
      * apply (Pool_busy _ _ (activeOrigin b = Some o /\ availableControl o b2 = Some ctl)); [|exact HP]. by intros [? _].
    + pose proof (HCl b2 Hn Hp ltac:(by right)) as HP. apply (Pool_busy _ _ (activeOrigin b = Some o /\ availableControl o b2 = Some ctl)); [|exact HP]. by intros [_ ?].
Qed.
End Broker.
