(* ===== verification/RelayBrokerSafety.v ===== *)
(** * What the desktop runtime's relay broker guarantees (RelayBroker.v)

    Every event keeps the invariant of RelayBrokerFacts.v, so that every run leaks
    nothing, never gets stuck, and is silent once it is closed. *)

From Stdlib Require Import QArith Qround.
From S2P Require Import Prelude JsMap Json E2eeChannel MobileSockets RelayUrls RelayHttp RelayTransport RelayBroker RelayBrokerFacts RelayBrokerRuns.

Local Open Scope string_scope.
Local Open Scope list_scope.
Local Open Scope Z_scope.

Section Events.
Context `{UrlEnv} (relayHostId directorUrl tokenEndpoint : string).

(** ** Opening and refreshing *)

Lemma connect_fails_gone m b : Standing b -> Gone (connect_fails m b).
Proof.
  intros (HS & _ & Hp & Hb & _). unfold connect_fails. set (b0 := b <| opening := None |>). assert (HG : Gone (closeNow b0)) by (by apply closeNow_gone). by destruct HG.
Qed.
Lemma Standing_closeNow b : Standing b -> opening b = None -> Gone (closeNow b).
Proof. intros (HS & _ & Hp & Hb & _) Hop. by apply closeNow_gone. Qed.

Lemma Inv_open_exchanged o b : Standing b -> opening b = Some OpenExchanging -> Inv (open_exchanged directorUrl o b).
Proof.
  intros HS Hop. pose proof (fun m => or_intror (connect_fails_gone m b HS) : Inv _) as HF. unfold open_exchanged. destruct (exchangeRelayAuthorization o) as [a|m]; [|apply HF].
  destruct (negb _); [apply HF|]. destruct (isAllowedRelayOrigin directorUrl); [|apply HF]. left. apply Pool_emit. unfold Standing in HS. rewrite Hop in HS.
  destruct HS as (HS & [P1 P2 P3 P4 PU P5 P6 P7 P8 P9] & Hp & Hb & HR). split; [exact HS|]. split; [|by split_and!]. destruct (P3 ltac:(by eexists)) as (E1 & E2 & E3 & E4).
  split; try done. intros i c k Hi Hk. pose proof (P1 i c k Hi Hk) as Hw. destruct k; try done. by destruct Hw.
Qed.
Lemma Inv_open_assigned a o b : Standing b -> opening b = Some (OpenAssigning a) -> Inv (open_assigned relayHostId directorUrl a o b).
Proof.
  intros HS Hop. pose proof (fun m => or_intror (connect_fails_gone m b HS) : Inv _) as HF. unfold open_assigned. destruct (requestRelayAssignment directorUrl o) as [asg|m]; [|apply HF].
  destruct (negb _); [apply HF|]. left. set (b0 := b <| assignment := Some asg |> <| relayJwt := Some (relayToken a) |>).
  assert (HP : Pool None (Some (OpenAssigning a)) False b0).
  { unfold Standing in HS. rewrite Hop in HS. pose proof HS as (_ & HP & _). destruct (p_opening _ _ _ _ _ _ _ _ _ _ _ HP ltac:(by eexists)) as (_ & _ & _ & Er). rewrite Er in HS. exact HS. }
  assert (Er0 : rotation b0 = None).
  { unfold Standing in HS. rewrite Hop in HS. destruct HS as (_ & HS & _). by destruct (p_opening _ _ _ _ _ _ _ _ _ _ _ HS ltac:(by eexists)) as (_ & _ & _ & Er). }
  clearbody b0. pose proof (Pool_new relayHostId None (Some (OpenAssigning a)) False None (Some (OpenConnecting a)) False asg InitialOpen (relayToken a) b0 HP) as HN.
  unfold createOrigin in *. set (b1 := b0 <| all_origins := _ |> <| wired := _ |> <| origins := _ |>) in *. assert (Er1 : rotation b1 = None) by exact Er0.
  destruct (origin_open _ _ _ _ b1) as [b2 ctl] eqn:E2. assert (Er2 : rotation b2 = None) by (rewrite <-Er1; change b2 with (b2, ctl).1; by rewrite <-E2). cbn [fst snd] in *.
  destruct HN as (HN & _); [done|left; split; [done|by eauto]|right; split_and!; [by eexists|by eexists|done]|done|done|by exists a|done|].
  change (Pool (rotation b2) (Some (OpenConnecting a)) False (b2 <| opening := Some (OpenConnecting a) |>)). rewrite Er2. exact HN.
Qed.

Lemma refreshing_open b : Standing b -> is_some (refreshing b) || refreshTimer b = true -> opening b = None.
Proof. intros (_ & _ & _ & _ & HR) Hr. unfold Ref in HR. destruct (opening b); [|done]. destruct HR as (_ & E1 & E2). rewrite E1, E2 in Hr. done. Qed.
Lemma Standing_refresh b b' : Standing b -> opening b = None ->
  b' = b <| refreshTimer := refreshTimer b' |> <| refreshing := refreshing b' |> <| authorization := authorization b' |> <| log := log b' |> <| relayJwt := relayJwt b' |> ->
  is_Some (authorization b') -> refreshTimer b' = negb (is_some (refreshing b')) -> Standing b'.
Proof.
  intros HS Hop E Ha Ht. unfold Standing in *. rewrite Hop in HS. destruct HS as (HS & HP & Hp & Hb & HR).
  assert (Eo : opening b' = None) by (rewrite E; exact Hop). rewrite Eo. unfold Pool.
  assert (EP : Struct (orgs b') (ctls b') (origins b') /\
    Proc (orgs b') (ctls b') (origins b') (drainingOrigins b') (drainTimers b') (activeOrigin b') (rotation b') None (drainRetries b') (current b') False /\
    p_closed b' = false /\ b_closed b' = false) by (rewrite E; done).
  destruct EP as (? & ? & ? & ?). by split_and!.
Qed.
Lemma authorized b : Standing b -> opening b = None -> exists au, authorization b = Some au.
Proof. intros (_ & _ & _ & _ & HR) Hop. rewrite Hop in HR. destruct HR as [[au ?] _]. by exists au. Qed.

Lemma Inv_refresh_fails now random b : Standing b -> opening b = None -> Inv (refresh_fails now random b).
Proof.
  intros HS Hop. unfold refresh_fails. set (b0 := b <| refreshing := None |>). destruct (authorized b HS Hop) as (au & Ea). destruct (_ && _).
  - left. apply (Standing_refresh b); [done|done|..]. 1: by destruct b. 1: by exists au. done.
  - right. destruct HS as (HS & _ & Hp & Hb & _). by apply closeNow_gone.
Qed.
Lemma timer_off b : Standing b -> opening b = None -> is_some (refreshing b) = true -> refreshTimer b = false.
Proof. intros (_ & _ & _ & _ & HR) Hop Hr. rewrite Hop in HR. destruct HR as [_ ->]. by rewrite Hr. Qed.
Lemma Inv_access_token now random r b : Standing b -> opening b = None -> is_some (refreshing b) = true -> Inv (access_token_settles tokenEndpoint now random r b).
Proof.
  intros HS Hop Hr. pose proof (Inv_refresh_fails now random b HS Hop) as HF. unfold access_token_settles. destruct r as [token|m]; [|done]. destruct (negb _); [done|].
  assert (HC : Inv (closeNow (b <| refreshing := None |>))) by (right; destruct HS as (HS & _ & Hp & Hb & _); by apply closeNow_gone).
  destruct (authorized b HS Hop) as (au & Ea). destruct token as [[|x token]|]; [done| |done]. left. pose proof (timer_off b HS Hop Hr) as Et.
  apply (Standing_refresh b); [done|done|..]. 1: by destruct b. 1: by exists au. by cbn; rewrite Et.
Qed.
Lemma authorize_all jwt l b : exists lg, foldl (origin_refreshAuthorization jwt) b l = b <| log := lg |>.
Proof.
  assert (H1 : forall k b, exists lg, foldl (fun b ctl =>
        match all_controls b !! ctl with
        | Some c => if bool_decide (phase c = Live) || bool_decide (phase c = DrainingControl) then emit (AuthRefresh ctl jwt) b else b
        | None => b
        end) b k = b <| log := lg |>).
  { clear b. intros k. induction k as [|ctl k IH]; intros b; cbn [foldl]; [exists (log b); by destruct b|]. destruct (all_controls b !! ctl); [|apply IH].
    destruct (_ || _); [|apply IH]. destruct (IH (emit (AuthRefresh ctl jwt) b)) as (lg & ->). by exists lg. }
  revert b. induction l as [|o l IH]; intros b; cbn [foldl]; [exists (log b); by destruct b|].
  assert (H2 : exists lg, origin_refreshAuthorization jwt b o = b <| log := lg |>).
  { unfold origin_refreshAuthorization. destruct (all_origins b !! o); [apply H1|]. exists (log b). by destruct b. }
  destruct H2 as (lg & E). destruct (IH (origin_refreshAuthorization jwt b o)) as (lg' & ->). rewrite E. by exists lg'.
Qed.
Lemma Inv_refresh_exchanged now random o b : Standing b -> opening b = None -> Inv (refresh_exchanged now random o b).
Proof.
  intros HS Hop. pose proof (Inv_refresh_fails now random b HS Hop) as HF. unfold refresh_exchanged. destruct (exchangeRelayAuthorization o) as [a|m]; [|done].
  destruct (negb _); [done|]. left. cbv zeta. set (b0 := b <| relayJwt := Some (relayToken a) |>). destruct (authorize_all (relayToken a) (origins b0) b0) as (lg & ->).
  unfold scheduleRefresh. set (b1 := _ <| refreshing := None |>). replace (authorization b1) with (Some a) by done.
  replace (b_closed b1) with false by (destruct HS as (_ & _ & _ & Hb & _); by symmetry).
  apply (Standing_refresh b); [done|done|..]. 1: by destruct b. 1: by exists a. done.
Qed.

(** ** Every event *)

Lemma retired_settled b o org ctl : Standing b -> all_origins b !! o = Some org -> ctl ∈ retiredControlTimers org -> settled (ctls b) ctl.
Proof. intros (HS & _) Ho Hc. apply (s_retired _ _ _ HS o (ov org)); [by apply org_view|done]. Qed.
Lemma Standing_transport_op o f b : Standing b -> Standing (transport_op o f b).
Proof. intros HS. unfold Standing. destruct (transport_op_frame o f b) as (-> & -> & _). by apply Pool_transport_op. Qed.
Lemma Standing_drains ctl c b : Standing b -> all_controls b !! ctl = Some c -> phase c = Live \/ phase c = DrainingControl ->
  Standing (update_control ctl (fun c => c <| phase := DrainingControl |>) b).
Proof.
  intros (HS & HP & Hcl) Hc Hp. pose proof (ctl_view _ _ _ Hc) as Hv. set (b' := update_control ctl _ b).
  assert (Hn : cv_awaiting (cv c) = None).
  { destruct (cv_awaiting (cv c)) eqn:E; [|done]. pose proof (proj2 (s_dialling _ _ _ HS _ _ Hv) ltac:(rewrite E; by eexists)) as Hd. cbn in Hd. rewrite Hd in Hp. by destruct Hp. }
  assert (Ec : ctls b' = alter (fun c => {| cv_origin := cv_origin c; cv_phase := DrainingControl; cv_awaiting := None |}) ctl (ctls b)).
  { unfold ctls, b'. cbn. apply fmap_alter_at. intros c' Hc'. rewrite Hc in Hc'. injection Hc' as <-. unfold cv. cbn in *. by rewrite Hn. }
  unfold Standing, Pool. rewrite Ec. split.
  - apply (Struct_up _ _ _ _ _ (cv c)); [by intros; split_and!; auto|exact HS|exact Hv|]. cbn. intros E. rewrite E in Hp. by destruct Hp.
  - split; [|exact Hcl]. apply (Proc_views _ _ _ _ _ _ _ _ _ _ _ _ _ HP); [by eauto|]. intros i d k Hk. rewrite list_lookup_alter. case_decide as Ei; [|done]. subst i. rewrite Hv.
    split; intros [= <-]; cbn in *; congruence.
Qed.

Lemma Inv_on_control now random ctl e b : Standing b -> Inv (on_control relayHostId directorUrl now random ctl e b).
Proof.
  intros HS. unfold on_control. destruct (all_controls b !! ctl) as [c|] eqn:Hc; [|by left]. destruct (phase c) eqn:Hp.
  - destruct e; [by eapply Inv_connect_resolves|by eapply Inv_connect_rejects|eapply Inv_control_closes; [done|done|congruence]|by left..].
  - destruct e as [| | |graceMs|connection ws|n]; [by left|by left|eapply Inv_control_closes; [done|done|congruence]| | |].
    + left. apply (Standing_handleDrain _ _ _ _ False); [|done]. apply (Standing_drains _ c); auto.
    + left. unfold origin_openConnection. destruct (all_origins b !! control_origin c); [|done]. destruct (negb _); [done|]. apply Standing_transport_op.
      unfold onConnectionOwned. by destruct (_ && _).
    + left. unfold Standing, Pool. rewrite ctls_same by done. exact HS.
  - destruct e as [| | |graceMs|connection ws|n]; [by left|by left|eapply Inv_control_closes; [done|done|congruence]| |by left|].
    + left. apply (Standing_handleDrain _ _ _ _ False); [|done]. apply (Standing_drains _ c); auto.
    + left. unfold Standing, Pool. rewrite ctls_same by done. exact HS.
  - by left; destruct e.
Qed.
Lemma Standing_retry random k o graceMs b : Standing b -> drainRetries b !! k = Some (o, graceMs) ->
  Standing (handleDrain directorUrl random o graceMs (b <| drainRetries := delete k (drainRetries b) |>)).
Proof.
  intros (HS & HP & Hcl) Hk. apply (Standing_handleDrain _ _ _ _ (activeOrigin b = Some o)); [|done]. split; [exact HS|]. split; [|exact Hcl].
  apply (Proc_up _ _ _ _ _ _ _ _ _ _ _ _ _ _ _ HP). intros n Hcur Ha. destruct (p_going _ _ _ _ _ _ _ _ _ _ _ HP n Hcur Ha) as [?|[?|[(g & Hg)|[]]]]; [auto|auto|].
  apply list_elem_of_lookup in Hg as (j & Hj). destruct (decide (j = k)) as [->|Hne]; [right; right; right; congruence|].
  right. right. left. exists g. cbn. apply list_elem_of_lookup. destruct (decide (j < k)%nat) as [Hlt|Hge].
  - exists j. by rewrite list_lookup_delete_lt.
  - exists (pred j). rewrite list_lookup_delete_ge by lia. by replace (S (pred j)) with j by lia.
Qed.

Lemma Inv_event_standing now random e b : Standing b -> Inv (broker_event relayHostId directorUrl tokenEndpoint now random e b).
Proof.
  intros HS. destruct e as [o|o|r|o|ctl e|o ws e| |id|k|o|o ctl| |]; cbn [broker_event].
  - destruct (opening b) as [[|a|a]|] eqn:Hop; [by apply Inv_open_exchanged|by apply Inv_open_assigned|by left..].
  - left. by apply Standing_drain_assigned.
  - destruct (refreshing b) as [[|]|] eqn:Hr; [|by left..]. apply Inv_access_token; [done|apply refreshing_open; [done|]|]; by rewrite Hr.
  - destruct (refreshing b) as [[|]|] eqn:Hr; [by left| |by left]. apply Inv_refresh_exchanged; [done|apply refreshing_open; [done|]]. by rewrite Hr.
  - by apply Inv_on_control.
  - left. by apply Standing_transport_op.
  - left. destruct (refreshTimer b) eqn:Ht; [|done]. pose proof (refreshing_open b HS ltac:(by rewrite Ht, orb_true_r)) as Hop. destruct (authorized b HS Hop) as (au & Ea).
    apply (Standing_refresh b); [done|done|..]. 1: by destruct b. 1: by exists au. done.
  - left. destruct (js_find _ _) as [[id' o]|]; [|done]. by apply Standing_rebindActive.
  - left. destruct (drainRetries b !! k) as [[o graceMs]|] eqn:Hk; [|done]. by apply Standing_retry.
  - left. case_bool_decide as Ho; [|done]. unfold Standing. destruct (closeOrigin_frame o b) as (-> & -> & _). apply Pool_closeOrigin; [done|by right].
  - left. destruct (all_origins b !! o) as [org|] eqn:Ho; [|done]. case_bool_decide as Hc; [|done]. pose proof (retired_settled _ _ _ _ HS Ho Hc) as Hs.
    pose proof (Pool_closeRetired _ _ _ o ctl b HS Hs) as HP. destruct (closeRetired_shape o ctl b) as (X & Y & E). unfold Standing. rewrite E in *. exact HP.
  - destruct (opening b) eqn:Hop; [by left|]. right. by apply Standing_closeNow.
  - left. destruct HS as (HS & HP & Hcl). split; [exact HS|]. split; [|exact Hcl]. by apply (Proc_up _ _ _ _ _ _ _ _ _ _ _ _ _ _ _ HP).
Qed.
End Events.

Section Closed.
Context `{UrlEnv} (relayHostId directorUrl tokenEndpoint : string).

(** ** A broker that is closed *)

Lemma gone_origin b o org : Gone b -> all_origins b !! o = Some org -> o_closed org = true /\ controls org = [] /\ activeControl org = None.
Proof.
  intros HG Ho. pose proof (gone_struct _ HG) as HS. pose proof (org_view _ _ _ Ho) as Hv. assert (Hc : o_closed org = true).
  { destruct (o_closed org) eqn:E; [done|]. assert (Hin : o ∈ origins b) by (apply (s_open _ _ _ HS); by exists (ov org)). rewrite (gone_origins _ HG) in Hin. by apply elem_of_nil in Hin. }
  split; [done|]. apply (s_closed _ _ _ HS o (ov org) Hv Hc).
Qed.
Lemma gone_control b ctl c : Gone b -> all_controls b !! ctl = Some c -> phase c = ClosedControl.
Proof.
  intros HG Hc. destruct (decide (phase c = ClosedControl)) as [|Hp]; [done|]. exfalso. pose proof (ctl_view _ _ _ Hc) as Hv.
  pose proof (dialling_in_pool _ _ _ _ _ (gone_struct _ HG) Hv Hp) as Hin. rewrite (gone_origins _ HG) in Hin. by apply elem_of_nil in Hin.
Qed.
Lemma gone_isCurrent b : Gone b -> isCurrent b = false /\ broker_isCurrent b = false.
Proof. intros HG. destruct (gone_closed _ HG) as [E1 E2]. unfold isCurrent, broker_isCurrent. by rewrite E1, E2. Qed.
Lemma gone_released b c o : basisOrigins b = ∅ -> drainingOrigins b = [] -> onConnectionReleased c o b = b.
Proof.
  intros Hb Hd. unfold onConnectionReleased. rewrite Hb, jm_lookup_empty. rewrite bool_decide_eq_false_2 by done. unfold maybeCloseDrainedOrigin.
  destruct (all_origins b !! o); [|done]. by rewrite Hd.
Qed.
(** The transports of the origins, in order of creation. *)
Definition transports b : list CloudRelayTransport := transport <$> all_origins b.
(** Only the data sockets go on. *)
Definition data_step (e : Event) (ts : list CloudRelayTransport) : list CloudRelayTransport :=
  match e with OnDataSocket o ws e => alter (RelayTransport.socket_step ws e) o ts | _ => ts end.
Definition left_as (e : Event) b b' : Prop :=
  log b' = log b /\ all_controls b' = all_controls b /\ transports b' = data_step e (transports b).

Lemma transports_update o f b : (forall org, transport (f org) = transport org) -> transports (update_origin o f b) = transports b.
Proof. intros Hf. unfold transports. cbn. rewrite (fmap_alter_view transport f (fun t => t)) by done. apply alter_id_list. Qed.

Lemma gone_transport b o f : Gone b -> Gone (transport_op o f b) /\
  (log (transport_op o f b) = log b /\ all_controls (transport_op o f b) = all_controls b /\ transports (transport_op o f b) = alter f o (transports b)).
Proof.
  intros HG. assert (E : (all_origins b !! o = None /\ transport_op o f b = b) \/ exists org, all_origins b !! o = Some org /\ transport_op o f b = update_origin o (fun org => org <| transport := f (transport org) |>) b).
  { unfold transport_op. destruct (all_origins b !! o) as [org|]; [|by left]. right. exists org. split; [done|].
    generalize (drop (length (transport_log (transport org))) (transport_log (f (transport org)))). intros l. set (b0 := update_origin o _ b).
    induction l as [|x l IH]; [done|]. cbn [foldl]. replace (transport_effect o b0 x) with b0; [exact IH|].
    unfold transport_effect. destruct x as [| | |? [|]| | | |]; try done; rewrite gone_released; try done; apply HG. }
  destruct E as [[Hn ->]|(org & Ho & ->)].
  { split_and!; try done. unfold transports. apply list_eq. intros i. rewrite list_lookup_alter, list_lookup_fmap. case_decide; [|done]. subst. by rewrite list_lookup_fmap, Hn. }
  split_and!; [|done|done|by apply fmap_alter_view]. destruct HG as [G1 G2 G3 G4 G5 G6 G7 G8]. split; try done. rewrite orgs_same by done. exact G1.
Qed.
Lemma gone_fails b random o graceMs : Gone b -> Gone (drain_fails random o graceMs b) /\ left_as Superseded b (drain_fails random o graceMs b).
Proof.
  intros HG. unfold drain_fails. replace (isCurrent _) with false by (symmetry; apply (gone_isCurrent b HG)). split; [|by split_and!]. by destruct HG as [G1 G2 G3 G4 G5 G6 G7 G8].
Qed.
Lemma gone_refresh_fails b now random : Gone b -> Gone (refresh_fails now random b) /\ left_as Superseded b (refresh_fails now random b).
Proof.
  intros HG. unfold refresh_fails. set (b0 := b <| refreshing := None |>). replace (b_closed b0) with true by (symmetry; apply (gone_closed _ HG)). cbn [negb andb].
  unfold closeNow. replace (b_closed b0) with true by (symmetry; apply (gone_closed _ HG)). split; [|by split_and!]. by destruct HG as [G1 G2 G3 G4 G5 G6 G7 G8].
Qed.

Lemma Gone_event now random e b : Gone b ->
  let b' := broker_event relayHostId directorUrl tokenEndpoint now random e b in Gone b' /\ left_as e b b'.
Proof.
  intros HG. assert (Hid : forall e, match e with OnDataSocket _ _ _ => False | _ => True end -> Gone b /\ left_as e b b) by (by intros []).
  cbv zeta.
  destruct (gone_isCurrent b HG) as [Ic Ib]. destruct e as [o|o|r|o|ctl e|o ws e| |id|k|o|o ctl| |]; cbn [broker_event].
  - rewrite (gone_opening _ HG). by apply Hid.
  - unfold drain_assigned. destruct (rotation b) as [[o' graceMs|]|]; [|by apply Hid|by apply Hid]. pose proof (gone_fails b random o' graceMs HG) as HF.
    destruct (requestRelayAssignment directorUrl o); [|done]. by rewrite Ic.
  - destruct (refreshing b) as [[|]|]; [|by apply Hid|by apply Hid]. unfold access_token_settles. rewrite Ib. destruct r; by apply gone_refresh_fails.
  - destruct (refreshing b) as [[|]|]; [by apply Hid| |by apply Hid]. unfold refresh_exchanged. rewrite Ib. destruct (exchangeRelayAuthorization o); by apply gone_refresh_fails.
  - unfold on_control. destruct (all_controls b !! ctl) as [c|] eqn:Hc; [|by apply Hid]. rewrite (gone_control b ctl c HG Hc). destruct e; by apply Hid.
  - by apply gone_transport.
  - destruct (gone_timers _ HG) as (_ & -> & _). by apply Hid.
  - destruct (js_find _ _) as [[id' o]|]; [|by apply Hid]. unfold rebindActiveControl. set (b1 := _ <| rotationTimer := None |>).
    replace (isCurrent b1) with false by by symmetry. cbn [negb orb]. split; [|by split_and!]. by destruct HG as [G1 G2 G3 (G4 & G4' & _) G5 G6 G7 G8].
  - destruct (drainRetries b !! k) as [[o graceMs]|]; [|by apply Hid]. unfold handleDrain. set (b1 := b <| drainRetries := _ |>).
    replace (isCurrent b1) with false by by symmetry. split; [|by split_and!]. by destruct HG.
  - destruct (gone_timers _ HG) as (-> & _). by apply Hid.
  - destruct (all_origins b !! o) as [org|] eqn:Ho; [|by apply Hid]. case_bool_decide as Hin; [|by apply Hid]. destruct (gone_origin b o org HG Ho) as (_ & Hcs & _).
    unfold closeRetiredControl. rewrite Ho, Hcs. rewrite (bool_decide_eq_false_2 (ctl ∈ [])) by apply not_elem_of_nil. rewrite andb_false_r.
    split; [|split_and!; [done|done|by apply transports_update]].
    pose proof (gone_struct _ HG) as HS. destruct HG as [G1 G2 G3 G4 G5 G6 G7 G8]. split; try done. set (b1 := update_origin o _ b).
    assert (E : orgs b1 = alter (retired_to (without ctl)) o (orgs b)) by (by apply orgs_update). rewrite E. change (ctls b1) with (ctls b).
    apply Struct_retired; [done|done|]. intros v p Hv [_ Hp]%elem_without. by apply (s_retired _ _ _ HS o v).
  - rewrite (gone_opening _ HG). unfold closeNow. destruct (gone_closed _ HG) as [_ ->]. by apply Hid.
  - split; [|by split_and!]. by destruct HG.
Qed.

(** A transport's socket events open no further socket. *)
Definition creates_none (x : TransportEffect) : Prop := match x with CreateSocket _ _ => False | _ => True end.
Definition goes_on (t t' : CloudRelayTransport) : Prop :=
  exists es, transport_log t' = transport_log t ++ es /\ Forall creates_none es.
#[export] Instance goes_on_preorder : PreOrder goes_on.
Proof.
  split; [intros t; exists []; by rewrite app_nil_r|]. intros t1 t2 t3 (es & E & F) (es' & E' & F').
  exists (es ++ es'). rewrite E', E, app_assoc. split; [done|by apply Forall_app].
Qed.
Lemma temit_goes_on x t t' : creates_none x -> goes_on t t' -> goes_on t (temit x t').
Proof.
  intros Hx Ht. etrans; [exact Ht|]. exists [x]. split; [done|by constructor].
Qed.
Lemma open_settles_goes_on ws outcome t : goes_on t (RelayTransport.open_settles ws outcome t).
Proof.
  unfold open_settles. destruct (sockets t !! ws) as [s|]; [|done]. destruct (RelayTransport.settled s); [done|].
  apply temit_goes_on; [done|]. exists []. by rewrite app_nil_r.
Qed.
Lemma finalize_goes_on ws t : goes_on t (finalize ws t).
Proof.
  unfold finalize. destruct (sockets t !! ws) as [s|]; [|done]. destruct (finalized s); [done|].
  apply temit_goes_on; [done|]. apply temit_goes_on; [done|]. exists []. by rewrite app_nil_r.
Qed.
Lemma socket_step_goes_on ws e t : goes_on t (RelayTransport.socket_step ws e t).
Proof.
  assert (Hu : forall f, goes_on t (update_socket ws f t)) by (intros f; exists []; by rewrite app_nil_r).
  unfold socket_step. destruct (sockets t !! ws) as [s|]; [|done]. destruct e; cbv zeta.
  - destruct (on_open s); [|done]. etrans; [|apply open_settles_goes_on]. by apply temit_goes_on.
  - destruct (metadataFor _ _); by apply temit_goes_on.
  - destruct (on_error s); [|done]. destruct (opened s); [done|].
    etrans; [|apply open_settles_goes_on]. etrans; [|apply finalize_goes_on]. done.
  - destruct (on_close s); [|done]. etrans; [|apply finalize_goes_on]. done.
  - destruct (deadline s); [|done]. destruct (opened s); [by apply temit_goes_on|].
    etrans; [|apply open_settles_goes_on]. by apply temit_goes_on.
Qed.
Lemma data_step_goes_on e ts : Forall2 goes_on ts (data_step e ts).
Proof.
  assert (Hid : forall l : list CloudRelayTransport, Forall2 goes_on l l) by (intros l; by apply Forall_Forall2_diag, Forall_true).
  destruct e; try apply Hid. simpl. revert origin. induction ts as [|t ts IH]; intros o; [constructor|].
  destruct o as [|o]; constructor; [apply socket_step_goes_on|apply Hid|done|apply IH].
Qed.
End Closed.

(** ** Runs *)

Section Runs.
Context `{UrlEnv} (relayHostId directorUrl tokenEndpoint : string).
Local Notation run := (broker_run relayHostId directorUrl tokenEndpoint).
Local Notation steps := (foldl (broker_step relayHostId directorUrl tokenEndpoint)).

Lemma Standing_connect token : Standing (connect tokenEndpoint token).
Proof.
  split; [|split; [|by split_and!]].
  - split; cbn; try (by intros; rewrite ?lookup_nil in *; naive_solver).
    + intros o. split; [by intros ?%elem_of_nil|by intros (v & Hv & _)].
  - split; cbn; try done.
    + intros o. by intros ?%elem_of_nil.
    + intros o [Ho|Ho]; by apply elem_of_nil in Ho.
Qed.
Lemma broker_inv_event now random e b : Inv b -> Inv (broker_event relayHostId directorUrl tokenEndpoint now random e b).
Proof. intros [HS|HG]; [by apply Inv_event_standing|]. right. by apply Gone_event. Qed.
Lemma broker_inv_steps es b : Inv b -> Inv (steps b es).
Proof. revert b. induction es as [|[[now random] e] es IH]; intros b HI; cbn [foldl]; [done|]. apply IH. by apply broker_inv_event. Qed.
Lemma broker_inv_run token es : Inv (run token es).
Proof. apply broker_inv_steps. left. apply Standing_connect. Qed.
Lemma Inv_struct b : Inv b -> Struct (orgs b) (ctls b) (origins b).
Proof. intros [HS|HG]; [by destruct HS|by apply gone_struct]. Qed.

Lemma view_control b ctl cvw : ctls b !! ctl = Some cvw -> exists c, all_controls b !! ctl = Some c /\ cv c = cvw.
Proof. unfold ctls. rewrite list_lookup_fmap. destruct (all_controls b !! ctl) as [c|]; [|done]. intros [= <-]. eauto. Qed.

(** C7. The broker leaks nothing. In every run, a control that is not closed belongs to
    an origin of the pool that is open and knows it; an open origin is the active one, has
    an armed deadline, or is being opened by a control that still dials; what is called
    active is live; and once the broker is closed, every control and every origin is, and
    no drain deadline, refresh timer or timer in the rotation variable is left; a
    rotation timer that was overwritten before may be ([rotation_timer_left]). *)
Theorem broker_leaks_nothing token es :
  let b := run token es in
  (forall ctl c, all_controls b !! ctl = Some c -> phase c <> ClosedControl ->
     exists org, all_origins b !! control_origin c = Some org /\ o_closed org = false /\ ctl ∈ controls org /\ control_origin c ∈ origins b) /\
  (forall o org, all_origins b !! o = Some org -> o_closed org = false ->
     activeOrigin b = Some o \/ o ∈ drainTimers b \/ exists ctl c, all_controls b !! ctl = Some c /\ control_origin c = o /\ phase c = Dialling) /\
  (forall o ctl, availableControl o b = Some ctl -> exists c, all_controls b !! ctl = Some c /\ control_origin c = o /\ (phase c = Live \/ phase c = DrainingControl)) /\
  (b_closed b = true -> Forall (fun c => phase c = ClosedControl) (all_controls b) /\ Forall (fun org => o_closed org = true) (all_origins b) /\
     drainTimers b = [] /\ refreshTimer b = false /\ rotationTimer b = None).
Proof.
  intros b. pose proof (broker_inv_run token es : Inv b) as HI. clearbody b. pose proof (Inv_struct b HI) as HS. split_and!.
  - intros ctl c Hc Hp. pose proof (ctl_view _ _ _ Hc) as Hv. pose proof (dialling_in_pool _ _ _ _ _ HS Hv Hp) as Hin.
    destruct (proj2 (s_own _ _ _ HS (control_origin c) ctl)) as (v & Hov & Hi); [by exists (cv c)|]. apply view_org in Hov as (org & Ho & <-).
    exists org. split_and!; [done| |done|done]. destruct (proj1 (s_open _ _ _ HS _) Hin) as (v & Hv' & Hcl). cbn in Hv'. apply view_org in Hv' as (org' & Ho' & <-).
    rewrite Ho in Ho'. by injection Ho' as <-.
  - intros o org Ho Hop. assert (Hin : o ∈ origins b) by (apply (s_open _ _ _ HS); exists (ov org); split; [by apply org_view|done]).
    destruct HI as [(_ & HP & _)|HG]; [|rewrite (gone_origins _ HG) in Hin; by apply elem_of_nil in Hin].
    destruct (p_keep _ _ _ _ _ _ _ _ _ _ _ HP o Hin) as [?|[?|(ctl & v & k & Hv & Hov & Hk & _)]]; [by left|by right; left|]. right. right.
    pose proof (proj2 (s_dialling _ _ _ HS _ _ Hv) ltac:(rewrite Hk; by eexists)) as Hd. apply view_control in Hv as (c & Hc & <-). by exists ctl, c.
  - intros o ctl Ha. unfold availableControl in Ha. destruct (all_origins b !! o) as [org|] eqn:Ho; [|done].
    destruct (s_active _ _ _ HS o (ov org) ctl) as (v & Hv & Hp & Hov); [by apply org_view|done|]. apply view_control in Hv as (c & Hc & <-). by exists c.
  - intros Hcl. destruct HI as [(_ & _ & _ & Hb & _)|HG]; [congruence|]. destruct (gone_timers _ HG) as (E1 & E2 & E3). split_and!; try done.
    + apply Forall_lookup_2. intros ctl c. by apply gone_control.
    + apply Forall_lookup_2. intros o org Ho. by apply (gone_origin b o org HG Ho).
Qed.

(** A request is only handed to a live control of an open origin. *)
Lemma request_control_live token es r ctl : let b := run token es in request_control r b = Ok ctl ->
  exists c org, all_controls b !! ctl = Some c /\ (phase c = Live \/ phase c = DrainingControl) /\ all_origins b !! control_origin c = Some org /\ o_closed org = false.
Proof.
  intros b Hr. pose proof (broker_inv_run token es : Inv b) as HI. clearbody b. pose proof (Inv_struct b HI) as HS.
  assert (Ha : exists o, availableControl o b = Some ctl).
  { unfold request_control, pool_activeControl, controlForBasis in Hr. repeat case_match; simplify_eq; repeat match goal with H : _ ≫= _ = Some _ |- _ => apply bind_Some in H as (? & ? & ?) end; eauto. }
  destruct Ha as (o & Ha). unfold availableControl in Ha. destruct (all_origins b !! o) as [org|] eqn:Ho; [|done]. cbn in Ha.
  destruct (s_active _ _ _ HS o (ov org) ctl) as (v & Hv & Hp & Hov); [by apply org_view|done|]. apply view_control in Hv as (c & Hc & <-). cbn in Hov, Hp. rewrite <-Hov in Ho.
  exists c, org. split_and!; [done|done|done|]. destruct (o_closed org) eqn:Hcl; [|done].
  destruct (s_closed _ _ _ HS _ _ (org_view _ _ _ Ho) Hcl) as [_ Hn]. cbn in Hn. congruence.
Qed.

(** C8. The broker never gets stuck. As long as it is not closed and its owner keeps it,
    a run that is past opening has an active origin, and that origin has a live control,
    or a rotation is under way (its assignment is being fetched, or a control of it still
    dials), or a timer is armed that will try again; and the token's refresh is armed or
    under way, never both. *)
Theorem broker_never_stuck token es :
  let b := run token es in b_closed b = false -> current b = true -> opening b = None ->
  (exists o, activeOrigin b = Some o /\
     ((exists ctl c, availableControl o b = Some ctl /\ all_controls b !! ctl = Some c /\ (phase c = Live \/ phase c = DrainingControl)) \/
      (exists graceMs, rotation b = Some (DrainAssigning o graceMs)) \/
      (exists ctl c, rotation b = Some (DrainConnecting ctl) /\ all_controls b !! ctl = Some c /\ phase c = Dialling) \/
      (exists graceMs, (o, graceMs) ∈ drainRetries b))) /\
  refreshTimer b = negb (is_some (refreshing b)).
Proof.
  intros b Hcl Hcur Hop. pose proof (broker_inv_run token es : Inv b) as HI. clearbody b. destruct HI as [HSt|HG]; [|destruct (gone_closed _ HG); congruence].
  destruct HSt as (HS & HP & _ & _ & HR). rewrite Hop in HR. destruct HR as [_ HR]. split; [|exact HR].
  destruct (p_up _ _ _ _ _ _ _ _ _ _ _ HP Hop) as (o & Ha). exists o. split; [done|].
  pose proof (p_rot _ _ _ _ _ _ _ _ _ _ _ HP) as Hr. destruct (p_going _ _ _ _ _ _ _ _ _ _ _ HP o Hcur Ha) as [(v & ctl & Hv & Hva)|[Hrot|[?|[]]]]; [| |by auto].
  - left. destruct (s_active _ _ _ HS _ _ _ Hv Hva) as (w & Hw & Hp & _). apply view_control in Hw as (c & Hc & <-). exists ctl, c. split; [|done].
    apply view_org in Hv as (org & Ho & <-). unfold availableControl. by rewrite Ho.
  - right. destruct (rotation b) as [[n g|ctl]|]; [|right|done].
    + left. exists g. congruence.
    + left. destruct Hr as (v & k & Hv & Hk & _). pose proof (proj2 (s_dialling _ _ _ HS _ _ Hv) ltac:(rewrite Hk; by eexists)) as Hd.
      apply view_control in Hv as (c & Hc & <-). by exists ctl, c.
Qed.

(** C22. A closed broker is silent: whatever still arrives, late answers of the director,
    events of its sockets, timers that were not cleared, it stays closed, reports no
    status, fetches nothing, sets no timer, dials no control and settles no connect; its
    controls stay as they are. Only the data sockets its transports had already created
    play out: each transport goes on by the events of its own sockets and creates no
    further one. *)
Theorem closed_broker_silent token es es' :
  let b := run token es in
  let b' := run token (es ++ es') in
  b_closed b = true ->
  b_closed b' = true /\ log b' = log b /\ all_controls b' = all_controls b /\
  transports b' = foldl (fun ts '(_, _, e) => data_step e ts) (transports b) es' /\
  Forall2 goes_on (transports b) (transports b').
Proof.
  intros b b' Hcl. unfold b', broker_run. rewrite foldl_app. change (foldl _ (connect tokenEndpoint token) es) with b. assert (HG : Gone b).
  { destruct (broker_inv_run token es) as [(_ & _ & _ & Hb & _)|HG]; [|exact HG]. fold b in Hb. congruence. }
  clearbody b. clear Hcl b'. revert b HG. induction es' as [|[[now random] e] es' IH]; intros b HG; cbn [foldl].
  { split_and!; [apply (gone_closed _ HG)|done|done|done|]. by apply Forall_Forall2_diag, Forall_true. }
  destruct (Gone_event relayHostId directorUrl tokenEndpoint now random e b HG) as (HG' & El & Ec & Et). destruct (IH _ HG') as (E1 & E2 & E3 & E4 & E5).
  change (broker_step _ _ _ b (now, random, e)) with (broker_event relayHostId directorUrl tokenEndpoint now random e b). rewrite E2, E3, E4, Et. split_and!; try done.
  rewrite E4, Et in E5. by etrans; [apply (data_step_goes_on e)|exact E5].
Qed.
End Runs.

(** ** Witnesses *)

Definition demo_urls : UrlEnv :=
  {| parse_url s :=
       let at_host p h := Some {| protocol := p; host := h; hostname := h; pathname := "/"; search := ""; hash := "" |} in
       if String.eqb s "https://director" then at_host "https" "director"
       else if String.eqb s "https://cell1" then at_host "https" "cell1"
       else if String.eqb s "https://cell2" then at_host "https" "cell2" else None;
     isIP _ := 0 |}.
Abbreviation answer fields := (Ok {| status := 200; body := Some (JObj fields) |}).
Abbreviation token_answer := (answer [("relayToken", JStr "jwt"); ("expiresAt", JNum (NInt 3600000))]).
Abbreviation cell_answer url := (answer [("v", JNum (NInt 1)); ("cellUrl", JStr url); ("assignmentEpoch", JNum (NInt 1)); ("lease", JStr "l")]).
Abbreviation demo_ack g := (ControlAcks {| ack_generation := g; ack_secret := Some "s"; ack_lease := Some 600000; activeConnIds := Some [] |}).
Local Notation at_start e := (0, 0%Q, e) (only parsing).
Abbreviation demo_run := (broker_run (H := demo_urls) "h" "https://director" "https://tokens").
(** The broker opens at one cell; the cell drains, and the broker moves to another. *)
Definition demo_open : list (Z * Q * Event) :=
  map (fun e => (0, 0%Q, e)) [OpenFetched token_answer; OpenFetched (cell_answer "https://cell1"); OnControl 0 (demo_ack 1)].
Definition demo_move : list (Z * Q * Event) :=
  demo_open ++ map (fun e => (0, 0%Q, e)) [OnControl 0 (ControlRequests 1); OnControl 0 (ControlDrains 5000); DrainAssigned (cell_answer "https://cell2"); OnControl 1 (demo_ack 1)].

Example demo_opened : let b := demo_run "at" demo_open in (activeOrigin b, pool_activeControl b, opening b) = (Some 0%nat, Some 0%nat, None).
Proof. vm_compute. reflexivity. Qed.
Example demo_moved : let b := demo_run "at" demo_move in (activeOrigin b, pool_activeControl b, origins b, drainTimers b) = (Some 1%nat, Some 1%nat, [0; 1]%nat, [0%nat]).
Proof. vm_compute. reflexivity. Qed.

Lemma broker_never_stuck_witness :
  rotation (demo_run "at" (take 5 demo_move)) = Some (DrainAssigning 0 5000) /\
  exists o, activeOrigin (demo_run "at" demo_move) = Some o /\ refreshTimer (demo_run "at" demo_move) = true.
Proof.
  split; [vm_compute; reflexivity|].
  destruct (broker_never_stuck (H := demo_urls) "h" "https://director" "https://tokens" "at" demo_move) as [(o & Ho & _) Hr]; [vm_compute; reflexivity..|].
  exists o. split; [exact Ho|]. rewrite Hr. vm_compute. reflexivity.
Defined.
Lemma closed_broker_silent_witness :
  let b := demo_run "at" (demo_move ++ [at_start CloseNow]) in
  b_closed b = true /\ log (demo_run "at" ((demo_move ++ [at_start CloseNow]) ++ [at_start (OnControl 1 ControlCloses); at_start (RotationFires 1)])) = log b.
Proof.
  intros b. assert (Hcl : b_closed b = true) by (vm_compute; reflexivity). split; [exact Hcl|].
  refine (proj1 (proj2 (closed_broker_silent (H := demo_urls) "h" "https://director" "https://tokens" "at" _ [at_start (OnControl 1 ControlCloses); at_start (RotationFires 1)] Hcl))).
Defined.

(** An origin that the pool closed stays attached to the mobile socket wiring. *)
Example closed_origin_stays_wired :
  let b := demo_run "at" (demo_move ++ [at_start (DrainDeadlineFires 0)]) in (origins b, o_closed <$> all_origins b !! 0%nat, wired b) = ([1]%nat, Some true, [0; 1]%nat).
Proof. vm_compute. reflexivity. Qed.
(** The retry of a failed drain is not cancelled: it drains the origin again after a
    rebinding gave it a live control. *)
Example late_retry_drains_again :
  let b := demo_run "at" (demo_open ++ map (fun e => (0, 0%Q, e))
    [OnControl 0 (ControlDrains 5000); DrainAssigned (Throw "net"); OnControl 0 (ControlDrains 5000); DrainAssigned (cell_answer "https://cell1"); OnControl 1 (demo_ack 2);
     DrainRetryFires 0]) in
  (rotation b, activeOrigin b, pool_activeControl b, acceptingConnections <$> all_origins b !! 0%nat) = (Some (DrainAssigning 0 5000), Some 0%nat, Some 1%nat, Some false).
Proof. vm_compute. reflexivity. Qed.

(** A rebinding for the lease that fails overwrites the timer that a drain armed in the
    meantime: closing the broker leaves that one armed. *)
Example rotation_timer_left :
  let b := demo_run "at" (demo_open ++ map (fun e => (0, 0%Q, e))
    [RotationFires 0; OnControl 0 (ControlDrains 5000); DrainAssigned (cell_answer "https://cell1"); OnControl 2 (demo_ack 2); OnControl 1 (ControlRejects "late"); CloseNow]) in
  (b_closed b, rotationTimer b, armedRotations b) = (true, None, [(1, 0)]%nat).
Proof. vm_compute. reflexivity. Qed.
