(* ===== verification/RelayProtocolFacts.v ===== *)
(** * The control protocol's schemas at work
    (RelayProtocol.v with ControlRequests.v and ControlClient.v)

    The protocol gives the control client and its requests their schemas. No value is
    taken by two of them, and a request is only settled by an answer of its own kind. *)

From S2P Require Import Prelude JsMap Json JsText ControlRequests ControlClient RelayProtocol.

Local Open Scope string_scope.
Local Open Scope list_scope.
Local Open Scope Z_scope.

(** ** The schemas as the client and its requests use them *)

Definition answer_of (k : RequestKind) : json -> option json :=
  match k with
  | Invite => accepts RelayInviteCreatedMessage
  | Revoke => accepts RelayDeviceRevokedMessage
  | Install => accepts RelayDeviceCredentialInstalledMessage
  | InstallStatus => RelayDeviceCredentialInstallStatusResultMessage
  | Confirm => accepts RelayDeviceResumeConfirmedMessage
  end.
#[export] Instance protocol_answers : Schemas :=
  {| ControlRequests.RelayControlErrorMessageSchema m := m ← accepts RelayControlErrorMessage m; as_string (prop "code" m);
     answer_schema := answer_of |}.
#[export] Instance protocol_messages : ControlSchemas :=
  {| request_schemas := protocol_answers;
     ControlClient.RelayPingMessageSchema m := is_some (accepts RelayPingMessage m);
     ControlClient.RelayConnectionOpenMessageSchema := accepts RelayConnectionOpenMessage;
     ControlClient.RelayDrainMessageSchema := accepts RelayDrainMessage;
     ControlClient.RelayHostChallengeMessageSchema := accepts RelayHostChallengeMessage;
     ControlClient.RelayHostHelloAckMessageSchema := accepts RelayHostHelloAckMessage |}.

(** ** One schema takes a message at most *)

Definition message_schemas : list (string * (json -> option json)) :=
  [("host-challenge", accepts RelayHostChallengeMessage); ("host-hello-ack", accepts RelayHostHelloAckMessage);
   ("conn-open", accepts RelayConnectionOpenMessage); ("drain", accepts RelayDrainMessage); ("ping", accepts RelayPingMessage);
   ("invite-created", answer_of Invite); ("device-revoked", answer_of Revoke); ("device-credential-installed", answer_of Install);
   ("device-credential-install-status-result", answer_of InstallStatus); ("device-resume-confirmed", answer_of Confirm);
   ("control-error", accepts RelayControlErrorMessage)].

Lemma accepts_type shape t v w : (("type", text_literal [t]) : string * field_schema) ∈ shape -> accepts shape v = Some w -> w = v /\ prop "type" v = Some (JStr t).
Proof. intros Hin [-> Ha]%accepts_self. split; [done|]. apply text_literal_one. by apply (strict_field _ _ _ _ Ha). Qed.
Lemma schema_type t f v w : (t, f) ∈ message_schemas -> f v = Some w -> w = v /\ prop "type" v = Some (JStr t).
Proof.
  intros Hin Hf. unfold message_schemas in Hin. repeat (apply elem_of_cons in Hin as [[= -> ->]|Hin]); [..|by apply elem_of_nil in Hin];
    try (eapply accepts_type; [|exact Hf]; rewrite ?elem_of_app; cbn; unfold type_is; set_solver).
  cbn in Hf. unfold RelayDeviceCredentialInstallStatusResultMessage in Hf. destruct (accepts InstallStatusNotFound v) as [x|] eqn:E.
  - injection Hf as <-. eapply accepts_type; [|exact E]. unfold InstallStatusNotFound, install_status_type, type_is. set_solver.
  - eapply accepts_type; [|exact Hf]. unfold InstallStatusCommitted, install_status_type, type_is. set_solver.
Qed.
Lemma message_types_distinct : NoDup (message_schemas.*1).
Proof. apply (bool_decide_unpack _). vm_compute. exact I. Qed.

(** C24. The control protocol is unambiguous: whatever JSON value a cell sends, at most one
    of the schemas of the protocol takes it (so the order in which the client tries them
    does not matter), and a value that is taken is passed on as it is and names that
    schema in its [type]. *)
Theorem protocol_unambiguous v i j t t' f f' w w' :
  message_schemas !! i = Some (t, f) -> message_schemas !! j = Some (t', f') -> f v = Some w -> f' v = Some w' ->
  i = j /\ w = v /\ prop "type" v = Some (JStr t).
Proof.
  intros Hi Hj Hf Hf'. destruct (schema_type t f v w) as [-> Ht]; [by apply (list_elem_of_lookup_2 _ i)|done|].
  destruct (schema_type t' f' v w') as [-> Ht']; [by apply (list_elem_of_lookup_2 _ j)|done|]. split; [|done].
  apply (NoDup_lookup (message_schemas.*1) i j t message_types_distinct); rewrite list_lookup_fmap; [by rewrite Hi|rewrite Hj; cbn; congruence].
Qed.

(** ** Answers *)

Definition answer_type (k : RequestKind) : string :=
  match k with
  | Invite => "invite-created" | Revoke => "device-revoked" | Install => "device-credential-installed"
  | InstallStatus => "device-credential-install-status-result" | Confirm => "device-resume-confirmed"
  end.
Lemma answer_type_ok k v w : answer_of k v = Some w -> w = v /\ prop "type" v = Some (JStr (answer_type k)).
Proof. apply schema_type. unfold message_schemas. destruct k; set_solver. Qed.

(** C25. A pending request is settled by a message only when the message carries its id and
    is either a control error, whose code (1 to 128 code units) rejects it, or an answer of
    the request's own kind, which resolves it; every other message leaves all requests as
    they are and is reported as unknown. *)
Theorem answers_settle_their_request m s :
  (exists reqId p, prop "reqId" m = Some (JStr reqId) /\ pending s !! reqId = Some p /\
     ((exists code, prop "type" m = Some (JStr "control-error") /\ prop "code" m = Some (JStr code) /\ 1 <= js_length code <= 128 /\
         resolveMessage m s = (settle_promise (promise p) (Rejected code) (finish reqId s), true)) \/
      (prop "type" m = Some (JStr (answer_type (kind p))) /\
         resolveMessage m s = (settle_promise (promise p) (Resolved (match kind p with Revoke => None | _ => Some m end)) (finish reqId s), true)))) \/
  resolveMessage m s = (s, false).
Proof.
  unfold resolveMessage. destruct (prop "reqId" m) as [[| | |reqId| |]|] eqn:Hid; try by right. cbn [as_string].
  destruct (String.eqb reqId "") eqn:Hemp; [by right|]. destruct (pending s !! reqId) as [p|] eqn:Hp; [|by right].
  change (ControlRequests.RelayControlErrorMessageSchema m) with (accepts RelayControlErrorMessage m ≫= (fun m => as_string (prop "code" m))).
  change (answer_schema (kind p) m) with (answer_of (kind p) m). destruct (accepts RelayControlErrorMessage m) as [m'|] eqn:He.
  - pose proof (accepts_self _ _ _ He) as [-> Hs]. destruct (accepts_type RelayControlErrorMessage "control-error" _ _ ltac:(unfold RelayControlErrorMessage, type_is; set_solver) He) as [_ Ht].
    pose proof (strict_field RelayControlErrorMessage _ "code" (text_field 1 128) Hs ltac:(unfold RelayControlErrorMessage; set_solver)) as Hc.
    unfold text_field, bounded_text in Hc. destruct (prop "code" m) as [[| | |code| |]|] eqn:Hcode; try done. cbn in Hc |- *. rewrite Hcode. cbn [as_string].
    destruct ((1 <=? js_length code) && (js_length code <=? 128)) eqn:Hl; [|done].
    left. exists reqId, p. split_and!; [done|done|]. left. exists code. split_and!; [done|done|lia|lia|done].
  - cbn. destruct (answer_of (kind p) m) as [w|] eqn:Ha; [|by right]. apply answer_type_ok in Ha as [-> Ht]. left. exists reqId, p. split_and!; [done|done|]. by right.
Qed.

(** ** The acknowledgement *)

(** An acknowledgement that its schema takes has all that an origin reads of it, in range. *)
Lemma checked_ack m ack : ControlClient.RelayHostHelloAckMessageSchema m = Some ack ->
  ack = m /\ exists g lease ids, prop "generation" m = Some (JNum (NInt g)) /\ 0 <= g <= MAX_SAFE_INTEGER /\ prop "leaseExpiresAt" m = Some (JNum (NInt lease)) /\
    0 <= lease <= MAX_SAFE_INTEGER /\ prop "activeConnIds" m = Some (JArr ids) /\ (length ids <= 8)%nat.
Proof.
  intros [-> Hs]%accepts_self. split; [done|].
  destruct (int_field_range _ _ _ (strict_field RelayHostHelloAckMessage _ "generation" GenerationSchema Hs ltac:(unfold RelayHostHelloAckMessage; set_solver))) as (g & -> & Hg & _).
  destruct (int_field_range _ _ _ (strict_field RelayHostHelloAckMessage _ "leaseExpiresAt" EpochMsSchema Hs ltac:(unfold RelayHostHelloAckMessage; set_solver))) as (l & -> & Hl & _).
  pose proof (strict_field RelayHostHelloAckMessage _ "activeConnIds" (array_field OpaqueIdSchema 8) Hs ltac:(unfold RelayHostHelloAckMessage; set_solver)) as Ha.
  unfold array_field in Ha. destruct (prop "activeConnIds" m) as [[| | | |ids|]|]; try done. apply andb_prop in Ha as [_ Ha%Nat.leb_le].
  by exists g, l, ids.
Qed.

(** ** Witnesses *)

Definition demo_drain : json := JObj [("type", JStr "drain"); ("graceMs", JNum (NInt 1000)); ("recovery", JStr "resolve-director")].
Lemma protocol_unambiguous_witness : accepts RelayDrainMessage demo_drain = Some demo_drain /\ prop "type" demo_drain = Some (JStr "drain").
Proof.
  assert (Hd : accepts RelayDrainMessage demo_drain = Some demo_drain) by (vm_compute; reflexivity). split; [exact Hd|].
  apply (protocol_unambiguous demo_drain 3 3 "drain" "drain" (accepts RelayDrainMessage) (accepts RelayDrainMessage) demo_drain demo_drain); [reflexivity|reflexivity|exact Hd|exact Hd].
Defined.

(** An acknowledgement that the schema refuses is taken all the same, as it is, when its
    type and a numeric generation are there. *)
Example unchecked_ack_taken :
  let m := JObj [("type", JStr "host-hello-ack"); ("generation", JNum (NInt 1)); ("note", JStr "no other field")] in
  let c := handleProofMessage (fun _ => None) m (with_state Proving new_client) in
  (ControlClient.RelayHostHelloAckMessageSchema m, state c) = (None, Active).
Proof. vm_compute. reflexivity. Qed.
Example over_long_grace_refused : ControlClient.RelayDrainMessageSchema (JObj [("type", JStr "drain"); ("graceMs", JNum (NInt 3600001)); ("recovery", JStr "resolve-director")]) = None.
Proof. vm_compute. reflexivity. Qed.
Example wide_text_counts_twice : js_length (String.string_of_list_ascii (map Ascii.ascii_of_nat [240; 159; 152; 128; 97]%nat)) = 3.
Proof. vm_compute. reflexivity. Qed.
