(* ===== verification/PairingOffer.v ===== *)
(** * Pairing offers and the relay's contract with phones (src/shared:
    mobile-relay-pairing-offer.ts, mobile-relay-credential-contract.ts,
    mobile-relay-phone-protocol.ts, mobile-relay-close-codes.ts)

    What the zod schemas shared by desktop and phone accept (the strict ones in the style
    of RelayProtocol.v; an offer may have other keys, which are dropped), and what each
    close code asks of whom. [new URL] is a parameter (RelayUrls.v); the clock is an
    argument. An offer that the desktop's broker makes is accepted by phones. *)

From S2P Require Import Prelude JsMap Json JsText Base64 RelayUrls RelayProtocol RelayHttp RelayBroker.

Local Open Scope string_scope.
Local Open Scope list_scope.
Local Open Scope Z_scope.

(** ** Origins *)

Section Origins.
Context `{UrlEnv}.

(** [isAllowedRelayOrigin] of the credential contract. *)
Definition endpoint_isAllowedRelayOrigin (value : string) : bool :=
  match parse_url value with
  | None => false
  | Some parsed =>
      let loopback := bool_decide (hostname parsed ∈ ["127.0.0.1"; "localhost"; "[::1]"]) in
      let privateIpv4 := starts_with "10." (hostname parsed) || starts_with "192.168." (hostname parsed) || private_172 (hostname parsed) in
      let privateIpv6 := starts_with "[fc" (to_lower (hostname parsed)) || starts_with "[fd" (to_lower (hostname parsed)) in
      String.eqb value (origin parsed) &&
      (String.eqb (protocol parsed) "https" || (String.eqb (protocol parsed) "http" && (loopback || privateIpv4 || privateIpv6)))
  end.
(** [isAllowedRelayOrigin] of the pairing offer: bytes of the encoded text first. *)
Definition MAX_RELAY_URL_BYTES : Z := 2048.
Definition offer_isAllowedRelayOrigin (value : string) : bool :=
  (Z.of_nat (String.length value) <=? MAX_RELAY_URL_BYTES) && endpoint_isAllowedRelayOrigin value.

(** ** The credential contract *)

Definition text_that (f : string -> bool) : field_schema := fun v => match as_string v with Some s => f s | None => false end.
Definition nullable (f : field_schema) : field_schema := fun v => match v with Some JNull => true | _ => f v end.
Definition RelayHostIdSchema : field_schema := pattern_field url_char 16 "".

Definition PairingProvisionRelayParams : list (string * field_schema) :=
  [("reqId", OpaqueIdSchema); ("newResumeTokenHash", Base64Url32ByteSchema); ("expectedCurrentHash", optional Base64Url32ByteSchema)].
Definition PairingGetEndpointsParams : list (string * field_schema) :=
  [("installReqId", optional OpaqueIdSchema); ("resumeConfirmReqId", optional OpaqueIdSchema)].
Definition DeviceCredentialInstallStatusResult : field_schema := fun v =>
  strict_object [version_1; ("reqId", OpaqueIdSchema); ("state", text_literal ["not-found"])] v ||
  strict_object [version_1; ("reqId", OpaqueIdSchema); ("state", text_literal ["committed"]); ("result", strict_object DeviceCredentialInstalledFields)] v.
Definition MobileRelayEndpointFields : list (string * field_schema) :=
  [version_1; ("directorUrl", text_that endpoint_isAllowedRelayOrigin); ("cellUrl", text_that endpoint_isAllowedRelayOrigin);
   ("assignmentEpoch", int_field 0 MAX_SAFE_INTEGER); ("relayHostId", RelayHostIdSchema); ("e2eeFraming", int_literal 2)].
Definition PairingGetEndpointsResult : list (string * field_schema) :=
  [version_1; ("relay", nullable (strict_object MobileRelayEndpointFields)); ("installStatus", optional DeviceCredentialInstallStatusResult);
   ("resumeConfirmation", optional (strict_object DeviceResumeConfirmedFields))].

(** ** What a cell tells a phone *)

Definition bool_literal (b : bool) : field_schema := fun v => match v with Some (JBool b') => Bool.eqb b b' | _ => false end.
Definition RelayPhoneHello : field_schema := fun v =>
  strict_object [type_is "relay-hello"; ("ok", bool_literal false); ("code", int_field 4000 4999)] v ||
  strict_object [type_is "relay-hello"; ("ok", bool_literal true); ("credentialKind", text_literal ["invite"]); ("leaseExpiresAt", EpochMsSchema)] v ||
  strict_object [type_is "relay-hello"; ("ok", bool_literal true); ("credentialKind", text_literal ["resume"]); ("leaseExpiresAt", EpochMsSchema);
                 ("acceptedCredentialVersion", int_field 1 MAX_SAFE_INTEGER); ("acceptedAs", text_literal ["current"; "grace"]);
                 ("resumeExpiresAt", EpochMsSchema); ("graceExpiresAt", optional EpochMsSchema)] v.
Definition https_origin (value : string) : bool :=
  match parse_url value with Some parsed => String.eqb (protocol parsed) "https" && String.eqb (origin parsed) value | None => false end.
Definition RelayMoved : list (string * field_schema) :=
  [type_is "relay-moved"; version_1; ("cellUrl", text_that https_origin); ("assignmentEpoch", int_field 0 MAX_SAFE_INTEGER)].

(** ** Pairing offers *)

Definition MAX_INVITE_TTL_MS : Z := 10 * 60 * 1000.
(** [z.object(shape)]: other keys do not matter. *)
Definition object_with (shape : list (string * field_schema)) : field_schema := fun v =>
  match v with Some (JObj fields) => forallb (fun '(k, check) => check (assoc k fields)) shape | _ => false end.
Definition invite_expiry (now : Z) : field_schema := fun v =>
  match safeInteger v with Some t => (now <? t) && (t <=? now + MAX_INVITE_TTL_MS) | None => false end.
Definition offer_origin : field_schema := text_that (fun s => (1 <=? js_length s) && offer_isAllowedRelayOrigin s).
Definition relay_fields (now : Z) : list (string * field_schema) :=
  [version_1; ("directorUrl", offer_origin); ("cellUrl", offer_origin); ("assignmentEpoch", int_field 0 MAX_SAFE_INTEGER);
   ("relayHostId", pattern_field url_char 16 ""); ("inviteToken", pattern_field url_char 43 ""); ("inviteExpiresAt", invite_expiry now);
   ("e2eeFraming", int_literal 2)].
Definition isCanonicalBase64Key (v : option json) : bool :=
  Base6432ByteSchema v &&
  match as_string v with
  | Some value => match atob value with Some decoded => (length decoded =? 32)%nat && String.eqb (btoa decoded) value | None => false end
  | None => false
  end.
Definition nonempty_text : field_schema := text_that (fun s => 1 <=? js_length s).
Definition createPairingOfferSchema (now : Z) (offer : json) : bool :=
  object_with [("v", int_literal 2); ("endpoint", nonempty_text); ("deviceToken", nonempty_text); ("publicKeyB64", nonempty_text);
               ("scope", optional (text_literal ["mobile"; "runtime"])); ("connectionMode", optional (text_literal ["automatic"; "local-only"; "relay-only"]));
               ("relay", optional (object_with (relay_fields now)))] (Some offer) &&
  negb (is_some (prop "relay" offer) && text_literal ["runtime"] (prop "scope" offer)) &&
  negb (text_literal ["relay-only"] (prop "connectionMode" offer) && negb (is_some (prop "relay" offer))) &&
  negb (is_some (prop "relay" offer) && negb (isCanonicalBase64Key (prop "publicKeyB64" offer))).
End Origins.

(** ** Close codes *)

Inductive MobileRelayLeg := HostControl | HostData | PhoneInvite | PhoneResume.
Inductive MobileRelayRecovery :=
  | DisableRelayCredential | WaitForHostRevival | ReconnectFreshE2ee | ResolveInviteThroughDirectorWs | ResolveResumeThroughDirectorPost
  | RequestDirectorAssignment | Backoff | ResolveConfiguredDirector.
Definition MOBILE_RELAY_CLOSE_CODES : list Z := [4401; 4404; 4408; 4409; 4429; 4503].
Definition isMobileRelayCloseCode (value : Z) : bool := existsb (fun code => code =? value) MOBILE_RELAY_CLOSE_CODES.
Definition mobileRelayRecoveryFor (code : Z) (leg : MobileRelayLeg) : option MobileRelayRecovery :=
  match code with
  | 4401 => Some DisableRelayCredential
  | 4404 => Some WaitForHostRevival
  | 4408 => Some ReconnectFreshE2ee
  | 4409 =>
      match leg with
      | PhoneInvite => Some ResolveInviteThroughDirectorWs
      | PhoneResume => Some ResolveResumeThroughDirectorPost
      | _ => Some RequestDirectorAssignment
      end
  | 4429 => Some Backoff
  | 4503 => Some ResolveConfiguredDirector
  | _ => None
  end.

(** ** Facts *)

(** Exactly the close codes call for something. *)
Lemma recovery_total code leg : is_some (mobileRelayRecoveryFor code leg) = isMobileRelayCloseCode code.
Proof.
  unfold isMobileRelayCloseCode. cbn [existsb MOBILE_RELAY_CLOSE_CODES].
  destruct (decide (code ∈ MOBILE_RELAY_CLOSE_CODES)) as [Hin|Hout].
  - unfold MOBILE_RELAY_CLOSE_CODES in Hin. repeat (apply elem_of_cons in Hin as [->|Hin]; [by destruct leg|]). by apply elem_of_nil in Hin.
  - unfold MOBILE_RELAY_CLOSE_CODES in Hout. assert (Hc : code <> 4401 /\ code <> 4404 /\ code <> 4408 /\ code <> 4409 /\ code <> 4429 /\ code <> 4503) by (split_and!; intros ->; apply Hout; set_solver).
    destruct Hc as (H1 & H2 & H3 & H4 & H5 & H6). replace (_ || _) with false by (symmetry; repeat (apply orb_false_iff; split); try apply Z.eqb_neq; congruence || done).
    unfold mobileRelayRecoveryFor. destruct (decide (4401 <= code <= 4503)) as [Hr|Hr].
    + repeat (match goal with |- is_some match ?c with _ => _ end = false => destruct c; try done end); lia.
    + repeat (match goal with |- is_some match ?c with _ => _ end = false => destruct c; try done end); lia.
Qed.

Section Facts.
Context `{UrlEnv}.

(** What the desktop's own check lets through, phones accept. *)
Lemma desktop_origin_accepted value : isAllowedRelayOrigin value = true -> endpoint_isAllowedRelayOrigin value = true.
Proof.
  unfold isAllowedRelayOrigin, endpoint_isAllowedRelayOrigin. destruct (parse_url value) as [u|]; [|done].
  rewrite (String.eqb_sym value). intros [-> Hp]%andb_prop. cbn [andb]. revert Hp.
  destruct (String.eqb (protocol u) "https"); [done|]. cbn [orb]. destruct (String.eqb (protocol u) "http"); [|done]. cbn [andb].
  destruct (bool_decide _); [done|]. cbn [orb]. intros [[_ ->]%andb_prop|[_ ->]%andb_prop]%orb_prop; [done|by rewrite orb_true_r].
Qed.
Lemma utf16_units_nonneg c : 0 <= utf16_units c.
Proof. unfold utf16_units. cbv zeta. by repeat match goal with |- context [if ?x then _ else _] => destruct x end. Qed.
Lemma js_length_nonneg s : 0 <= js_length s.
Proof. induction s as [|c s IH]; [done|]. change (js_length (String c s)) with (utf16_units c + js_length s). pose proof (utf16_units_nonneg c). lia. Qed.
Lemma js_length_cons c s : js_length (String c s) = utf16_units c + js_length s.
Proof. done. Qed.
Lemma desktop_origin_nonempty value : isAllowedRelayOrigin value = true -> 1 <= js_length value.
Proof.
  unfold isAllowedRelayOrigin. destruct (parse_url value) as [u|]; [|done]. intros [<-%String.eqb_eq Hp]%andb_prop. unfold origin, origin_of.
  assert (Hh : protocol u = "https" \/ protocol u = "http").
  { destruct (String.eqb (protocol u) "https") eqn:E; [left; by apply String.eqb_eq|]. cbn [orb] in Hp. apply andb_prop in Hp as [Hp _]. right. by apply String.eqb_eq. }
  destruct Hh as [-> | ->]; rewrite bool_decide_eq_true_2 by set_solver.
  - change ("https" +:+ "://" +:+ host u) with (String (Ascii.ascii_of_nat 104) ("ttps://" +:+ host u)). rewrite js_length_cons. pose proof (js_length_nonneg ("ttps://" +:+ host u)). change (utf16_units (Ascii.ascii_of_nat 104)) with 1. lia.
  - change ("http" +:+ "://" +:+ host u) with (String (Ascii.ascii_of_nat 104) ("ttp://" +:+ host u)). rewrite js_length_cons. pose proof (js_length_nonneg ("ttp://" +:+ host u)). change (utf16_units (Ascii.ascii_of_nat 104)) with 1. lia.
Qed.

(** A field that its schema names passes its check. *)
Lemma object_field shape v k f : object_with shape (Some v) = true -> (k, f) ∈ shape -> f (prop k v) = true.
Proof.
  cbn. destruct v as [| | | | |fields]; try done. intros Hs Hin. rewrite forallb_forall in Hs. apply (Hs (k, f)). by apply list_elem_of_In.
Qed.
Lemma text_that_true f v : text_that f v = true -> exists s, v = Some (JStr s) /\ f s = true.
Proof. unfold text_that. destruct v as [[| | |s| |]|]; try done. eauto. Qed.

(** C23. An offer with relay information that a phone accepts can be relied on: it is not
    for the runtime scope, its public key is the one canonical base64 text of 32 bytes,
    director and cell are allowed origins of at most 2048 bytes, and its invitation is
    still good, for ten minutes at most. *)
Theorem accepted_offer_sound now offer relay : createPairingOfferSchema now offer = true -> prop "relay" offer = Some relay ->
  prop "scope" offer <> Some (JStr "runtime") /\
  (exists key bytes, prop "publicKeyB64" offer = Some (JStr key) /\ atob key = Some bytes /\ length bytes = 32%nat /\ btoa bytes = key) /\
  (exists director cell, prop "directorUrl" relay = Some (JStr director) /\ offer_isAllowedRelayOrigin director = true /\
     prop "cellUrl" relay = Some (JStr cell) /\ offer_isAllowedRelayOrigin cell = true) /\
  (exists t, prop "inviteExpiresAt" relay = Some (JNum (NInt t)) /\ now < t <= now + MAX_INVITE_TTL_MS).
Proof.
  unfold createPairingOfferSchema. intros [[[Ho Hscope]%andb_prop _]%andb_prop Hkey]%andb_prop Hr. rewrite Hr in Hscope, Hkey. cbn [is_some andb] in Hscope, Hkey.
  apply negb_true_iff in Hscope. apply negb_true_iff, negb_false_iff in Hkey.
  pose proof (object_field _ _ "relay" (optional (object_with (relay_fields now))) Ho ltac:(set_solver)) as Hrel. rewrite Hr in Hrel. cbn [optional] in Hrel. split_and!.
  - intros Hs. rewrite Hs in Hscope. cbn in Hscope. by rewrite bool_decide_eq_true_2 in Hscope by set_solver.
  - unfold isCanonicalBase64Key in Hkey. apply andb_prop in Hkey as [_ Hkey]. destruct (prop "publicKeyB64" offer) as [[| | |key| |]|]; try done. cbn [as_string] in Hkey.
    destruct (atob key) as [bytes|] eqn:Ha; [|done]. apply andb_prop in Hkey as [Hl%Nat.eqb_eq Hb%String.eqb_eq]. by exists key, bytes.
  - destruct (text_that_true _ _ (object_field _ _ "directorUrl" offer_origin Hrel ltac:(unfold relay_fields; set_solver))) as (d & -> & Hd).
    destruct (text_that_true _ _ (object_field _ _ "cellUrl" offer_origin Hrel ltac:(unfold relay_fields; set_solver))) as (c & -> & Hc).
    apply andb_prop in Hd as [_ Hd]. apply andb_prop in Hc as [_ Hc]. by exists d, c.
  - pose proof (object_field _ _ "inviteExpiresAt" (invite_expiry now) Hrel ltac:(unfold relay_fields; set_solver)) as Ht. unfold invite_expiry, safeInteger in Ht.
    destruct (prop "inviteExpiresAt" relay) as [[| |[t| |]| | |]|]; try done. destruct (isSafeInteger t); [|done]. apply andb_prop in Ht as [H1 H2]. exists t. split; [done|lia].
Qed.

(** What the director assigned. *)
Lemma assigned_fields directorUrl o a : requestRelayAssignment directorUrl o = Ok a ->
  isAllowedRelayOrigin directorUrl = true /\ isAllowedRelayOrigin (cellUrl a) = true /\ 0 <= epoch a <= MAX_SAFE_INTEGER.
Proof.
  unfold requestRelayAssignment. destruct (isAllowedRelayOrigin directorUrl); [|done]. cbn [negb]. destruct o as [r|]; [|done]. destruct (response_ok r); [|done]. cbn [negb].
  destruct (body r) as [v|]; [|done]. destruct (AssignmentResponseSchema v) as [a'|] eqn:Ea; [|done]. destruct (isAllowedRelayOrigin (cellUrl a')) eqn:Ec; [|done]. intros [= <-].
  split_and!; [done|done|..]; unfold AssignmentResponseSchema in Ea; apply bind_Some in Ea as (w & _ & Ea); apply bind_Some in Ea as (u & _ & Ea);
    apply bind_Some in Ea as (e & He & Ea); apply bind_Some in Ea as (l & _ & [= <-]); cbn; unfold bounded_int in He; apply bind_Some in He as (z & _ & He);
    destruct ((0 <=? z) && (z <=? MAX_SAFE_INTEGER)) eqn:Hz; simplify_eq; lia.
Qed.

(** C17. Desktop and phone agree on pairing through the relay. When the director answered the
    broker with an assignment, the cell answered the broker's invitation with a message
    that the control protocol accepts and whose expiry lies within the ten minutes that
    phones allow, the broker still stands with this assignment, the host id is 16
    url-safe characters and the URLs have at most 2048, then the relay
    information that the broker hands out is accepted by the phone's offer schema, and
    the endpoint it reports later by the phone's endpoint schema. *)
Theorem pairing_relay_accepted hostId directorUrl o a device invite t now b :
  requestRelayAssignment directorUrl o = Ok a -> broker_isCurrent b = true -> pattern_field url_char 16 "" (Some (JStr hostId)) = true ->
  (String.length directorUrl <= 2048)%nat -> (String.length (cellUrl a) <= 2048)%nat ->
  accepts RelayInviteCreatedMessage invite = Some invite -> prop "expiresAt" invite = Some (JNum (NInt t)) -> now < t <= now + MAX_INVITE_TTL_MS ->
  assignment b = Some a ->
  (exists relay, request_answered hostId directorUrl (CreatePairingRelay device) (Some a) invite b = Ok (Some relay) /\
     object_with (relay_fields now) (Some relay) = true) /\
  (exists endpoint, broker_endpoint hostId directorUrl b = Some endpoint /\ strict_object MobileRelayEndpointFields (Some endpoint) = true).
Proof.
  intros Ha Hcur Hid Hld Hlc [_ Hinv]%accepts_self Ht Hnow Hasg. destruct (assigned_fields _ _ _ Ha) as (Hd & Hc & He).
  pose proof (desktop_origin_accepted _ Hd) as Hd'. pose proof (desktop_origin_accepted _ Hc) as Hc'.
  pose proof (desktop_origin_nonempty _ Hd) as Hdn. pose proof (desktop_origin_nonempty _ Hc) as Hcn.
  assert (Hepoch : int_field 0 MAX_SAFE_INTEGER (Some (JNum (NInt (epoch a)))) = true).
  { unfold int_field, bounded_int, safeInteger, isSafeInteger. rewrite (proj2 (Z.leb_le (Z.abs (epoch a)) _)) by lia. cbn. by rewrite (proj2 (Z.leb_le 0 _)), (proj2 (Z.leb_le (epoch a) _)) by lia. }
  split.
  - pose proof (strict_field RelayInviteCreatedMessage _ "inviteToken" Base64Url32ByteSchema Hinv ltac:(unfold RelayInviteCreatedMessage; set_solver)) as Htok.
    pose proof (strict_field RelayInviteCreatedMessage _ "expiresAt" EpochMsSchema Hinv ltac:(unfold RelayInviteCreatedMessage; set_solver)) as Hexp. rewrite Ht in Hexp.
    destruct (int_field_range _ _ _ Hexp) as (t' & [= <-] & Hrange & _).
    destruct (prop "inviteToken" invite) as [tok|] eqn:Etok; [|done]. unfold request_answered. rewrite Hcur, Etok, Ht. cbn [negb]. eexists. split; [reflexivity|].
    assert (Horig : forall u, 1 <= js_length u -> (String.length u <= 2048)%nat -> endpoint_isAllowedRelayOrigin u = true -> offer_origin (Some (JStr u)) = true).
    { intros u H1 H2 H3. unfold offer_origin, text_that, offer_isAllowedRelayOrigin, MAX_RELAY_URL_BYTES. cbn [as_string]. rewrite H3. rewrite !(proj2 (Z.leb_le _ _)) by lia. done. }
    assert (Hexpiry : invite_expiry now (Some (JNum (NInt t))) = true).
    { unfold invite_expiry, safeInteger, isSafeInteger. rewrite (proj2 (Z.leb_le (Z.abs t) _)) by lia. rewrite (proj2 (Z.ltb_lt now t)), (proj2 (Z.leb_le t _)) by lia. done. }
    pose proof (Horig _ Hdn Hld Hd') as Ho1. pose proof (Horig _ Hcn Hlc Hc') as Ho2.
    unfold object_with, relay_fields, version_1, Base64Url32ByteSchema in *. cbn [forallb]. cbn [assoc defined]. cbn -[offer_origin int_field pattern_field invite_expiry MAX_SAFE_INTEGER] in *.
    by rewrite Ho1, Ho2, Hepoch, Hid, Htok, Hexpiry.
  - unfold broker_endpoint. rewrite Hasg. eexists. split; [reflexivity|].
    unfold strict_object, MobileRelayEndpointFields, version_1, RelayHostIdSchema in *.
    cbn -[text_that int_field pattern_field MAX_SAFE_INTEGER]. unfold text_that. cbn [as_string]. by rewrite Hd', Hc', Hepoch, Hid.
Qed.
End Facts.

(** ** Witnesses *)

Definition demo_sites : UrlEnv :=
  {| parse_url s :=
       let at_host p h := Some {| protocol := p; host := h; hostname := h; pathname := "/"; search := ""; hash := "" |} in
       if String.eqb s "https://director" then at_host "https" "director"
       else if String.eqb s "https://cell" then at_host "https" "cell"
       else if String.eqb s "http://10.evil.example" then at_host "http" "10.evil.example" else None;
     isIP _ := 0 |}.
Definition zeros (n : nat) : string := of_chars (repeat (Ascii.ascii_of_nat 65) n).
Definition demo_relay : json := JObj
  [("v", JNum (NInt 1)); ("directorUrl", JStr "https://director"); ("cellUrl", JStr "https://cell"); ("assignmentEpoch", JNum (NInt 1));
   ("relayHostId", JStr (zeros 16)); ("inviteToken", JStr (zeros 43)); ("inviteExpiresAt", JNum (NInt 1000)); ("e2eeFraming", JNum (NInt 2))].
Definition demo_offer : json := JObj
  [("v", JNum (NInt 2)); ("endpoint", JStr "ws://desk:1"); ("deviceToken", JStr "t"); ("publicKeyB64", JStr (zeros 43 +:+ "=")); ("relay", demo_relay)].
Lemma accepted_offer_sound_witness :
  createPairingOfferSchema (H := demo_sites) 0 demo_offer = true /\ exists t, prop "inviteExpiresAt" demo_relay = Some (JNum (NInt t)) /\ 0 < t.
Proof.
  assert (Ho : createPairingOfferSchema (H := demo_sites) 0 demo_offer = true) by (vm_compute; reflexivity). split; [exact Ho|].
  destruct (accepted_offer_sound (H := demo_sites) 0 demo_offer demo_relay Ho ltac:(reflexivity)) as (_ & _ & _ & t & Ht & Hr). exists t. split; [exact Ht|apply Hr].
Defined.

Abbreviation demo_assigned := (Ok {| status := 200; body := Some (JObj
  [("v", JNum (NInt 1)); ("cellUrl", JStr "https://cell"); ("assignmentEpoch", JNum (NInt 1)); ("lease", JStr "l")]) |}).
Definition demo_assignment : RelayAssignment := {| cellUrl := "https://cell"; epoch := 1; lease := "l" |}.
Definition demo_invite : json := JObj
  [("type", JStr "invite-created"); ("reqId", JStr "r"); ("inviteToken", JStr (zeros 43)); ("expiresAt", JNum (NInt 1000)); ("maxAttempts", JNum (NInt 3))].
Definition demo_broker : Broker := (connect "https://tokens" "at") <| assignment := Some demo_assignment |>.
Lemma pairing_relay_accepted_witness :
  exists relay, request_answered (zeros 16) "https://director" (CreatePairingRelay "d") (Some demo_assignment) demo_invite demo_broker = Ok (Some relay) /\
    object_with (relay_fields (H := demo_sites) 0) (Some relay) = true.
Proof.
  apply (pairing_relay_accepted (H := demo_sites) (zeros 16) "https://director" demo_assigned demo_assignment "d" demo_invite 1000 0 demo_broker);
    [vm_compute; reflexivity|vm_compute; reflexivity|vm_compute; reflexivity|apply Nat.leb_le; vm_compute; reflexivity|apply Nat.leb_le; vm_compute; reflexivity|
     vm_compute; reflexivity|reflexivity|unfold MAX_INVITE_TTL_MS; lia|reflexivity].
Defined.

(** Unlike the desktop's check, the phone's takes a name for a private address: plain HTTP to
    a public host whose name starts like one is allowed. *)
Example named_private_host :
  (isAllowedRelayOrigin (H := demo_sites) "http://10.evil.example", endpoint_isAllowedRelayOrigin (H := demo_sites) "http://10.evil.example",
   offer_isAllowedRelayOrigin (H := demo_sites) "http://10.evil.example") = (false, true, true).
Proof. vm_compute. reflexivity. Qed.
